(* ===== verification/_CoqProject ===== *)
-Q . S2P
Prelude.v
CString.v
LuaApi.v
Mq.v
Sched.v
Handle.v
Timer.v
ConnectionManager.v
DBObject.v
Redis.v
Netpack.v
Format.v
Server.v
Command.v
Seri.v
Des.v
Crypt.v
Sha1.v
SprotoPack.v
Locks.v
HashId.v
Gate.v
GateProps.v
Socket.v
SocketProps.v
SocketSafe.v
SocketOwn.v
Harbor.v
HarborProps.v
HarborLink.v
HarborNames.v
SprotoSchema.v
SprotoEncode.v
SprotoDecode.v
SprotoWire.v
SprotoEncodeProps.v
SprotoDecodeProps.v
SprotoRound.v
SprotoLua.v
SprotoSafe.v
Cluster.v
SkynetSocket.v
SocketBuffer.v
Stm.v
Sharedata.v
SharedataProps.v
SharedataConv.v
SharedataRead.v
SharedataFree.v
