(* ===== verification/Prelude.v ===== *)
(** * Owlies server: a verification library

    The repository is a game server on the skynet actor framework. Services are
    contexts with a message queue each; worker threads take queues from a global
    queue and run the service's callback on its messages; names and 32-bit handles
    find a service; a timer thread sends the timeouts. Bindings in C give the Lua
    services of the game what they need: packet reassembly and packing, message
    serialisation, ciphers and digests, the account objects, redis. The C code is
    under src/server/Src (the game's own) and src/server/3rd/skynet (the framework,
    kept in the repository); file names below are relative to the latter when they
    start with skynet-src, service-src or lualib-src.

    ** How the code is modelled

    A C function is a function on explicit state that returns a [result]: [Ok] with
    the new state, or the reason a run of the code stops or is undefined (a failed
    assert, an access out of bounds, signed overflow, a freed object, NULL, a Lua
    error). A theorem that gives [Ok] therefore says that none of these happens.
    Integers are [Z] with the wrap-around of their width written out; arrays are
    lists read and written by index; linked structures of the queues are heaps of
    nodes, those of the other components lists. A loop that is not bounded by its
    data takes fuel, and running out of it is an error of its own: each theorem
    about such a loop shows that the fuel its caller gives is enough (the length of
    the queue or text, the size of the slot table, the four levels of the timer, 64
    bits of a factor).

    ** Files, in the order they depend on each other

    - Prelude: the error monad, machine integers, arrays, counting loops, automation.
    - CString, Format: C strings; sprintf, strtol and strtoul as the server uses them.
    - LuaApi: the part of the Lua C API the bindings call.
    - Mq (skynet-src/skynet_mq.c): the ring buffer of a queue and the linked global
      queue. The ring is a first-in first-out list for fewer than 2^30 messages;
      a released queue is drained in order.
    - Sched: the interleavings of the queue operations of all threads as a step
      relation. No message is lost, a queue has one dispatcher, no operation fails.
    - Handle (skynet_handle.c): the slot table that grows and the sorted table of
      names. Registration, naming, retiring and retiring all; handle 0 is given out
      after 2^24 - 1 registrations on harbor 0.
    - Timer (skynet_timer.c): the hierarchical wheel. A tick fires exactly the due
      nodes, a timeout fires after its delay, a late clock catches up.
    - ConnectionManager (Src/LuaInterface/lua_connectionManager.c): request and
      response framing, with the sign extension of header bytes above 127.
    - DBObject (Src/DBObject), Redis (Src/Redis/hiredis.c, Src/LuaInterface/
      lua_physic.c): account objects over a Lua heap whose strings can be collected,
      the redis connection and commands; the hiredis library is a parameter.
    - Netpack (lualib-src/lua-netpack.c): reassembly of packets from any chunking.
    - Server, Command (skynet_server.c, skynet_harbor.c, skynet_error.c,
      skynet_monitor.c, skynet_env.c, skynet_log.c): contexts and reference counts
      on top of Mq and Handle; sending, launching, dispatching; the text commands.
      Service modules are parameters. A message reaches exactly the service its
      handle names, with the source and session of its sender, or its data is freed;
      KILL and NAME do what they say.
    - Seri (lua-seri.c): serialisation of Lua values, with its round trip; hostile
      bytes end in values or a Lua error, read inside the string, of which one class of
      lengths is stopped only by the size limit of Lua's strings.
    - Des, Crypt, Sha1 (lua-crypt.c, lsha1.c): DES and its padding, Diffie-Hellman
      over a 64-bit prime, base64, hexadecimal, hashes; SHA-1 and HMAC against the
      standard's definition.
    - SprotoPack (lualib-src/sproto): 0-packing and unpacking of messages.
    - Locks (spinlock.h, rwlock.h): both locks one atomic instruction at a time;
      exclusion, and that every request can be served, on sequentially consistent
      memory. The spinlock's exclusion is what lets Sched take the queue operations as
      atomic.
    - HashId, Gate, GateProps (service-src/hashid.h, databuffer.h, service_gate.c):
      the gate service. Its id table is a finite map; the gate keeps its table and its
      pool of messages through all messages but an accept behind a close command; the
      packets it forwards are those of the streams of its connections. The sends, socket calls and log lines are the
      list of its actions.
    - Socket, SocketProps, SocketSafe, SocketOwn (skynet-src/socket_server.c): the sockets in
      their slots, the write lists of two priorities, the requests other threads
      write into the pipe, the events. The operating system is a list of answers to
      the system calls, which the theorems let be any list but for what they name.
      SocketProps: packets leave whole and in order, and a graceful close delivers.
      SocketSafe: the next turn of the poll succeeds, for calls that are in order and
      take effect one at a time. SocketOwn: every buffer handed over is freed once, for
      any calls.
    - Harbor, HarborProps, HarborLink, HarborNames (service-src/service_harbor.c): the
      messages between nodes, with the queues of nodes and names that are not known yet
      and the states of a link. Messages are freed once; those sent to a handle cross
      the link, in either direction, for any chunking of its bytes; those sent to a name follow it when it is
      announced, but lose the handle when its node is not connected yet.
    - SprotoSchema, SprotoEncode, SprotoDecode, SprotoLua (lualib-src/sproto/sproto.c,
      lsproto.c): descriptions read from a bundle into the memory pool, the encoder and
      the decoder with the callbacks that read and build Lua tables, queries and default
      tables. SprotoWire specifies the messages of a type and their bytes;
      SprotoEncodeProps and SprotoDecodeProps show that the encoder writes these bytes
      and the decoder reads them; SprotoRound puts them together to the round trip, and
      SprotoSafe shows what the decoder does on any bytes. A created object is well
      formed. Buffers double at most from 2050 to 2^24 bytes, which bounds the fuel of
      the encoder's loop; messages are nested at most 64 deep, which bounds the
      recursion of the callbacks.
    - Cluster (lualib-src/lua-cluster.c): requests and responses between nodes, in one
      piece or in parts. On top of Netpack: what one node packs the other one's filter
      delivers for any chunking, and unpacking it gives the message back.
    - SkynetSocket (skynet_socket.c): the socket server and the services together. What the
      socket server answers becomes a message of the service that owns the socket, or is
      freed when there is none.
    - SocketBuffer (lualib-src/lua-socket.c): the buffers a Lua service reads from, with
      their shared pool of nodes. To its user a buffer is a string of bytes, and every
      block is freed once.
    - Stm (lualib-src/lua-stm.c): objects one writer shares with readers in other threads,
      one access of shared memory at a time in any interleaving. Copies are counted by
      their holders and freed with the last; the only access of freed memory is the unlock
      of a reader that another reader overtook.
    - Sharedata, SharedataProps, SharedataConv, SharedataRead, SharedataFree
      (lualib-src/lua-sharedata.c): Lua tables converted into tables in C that all services
      read. For keys that fit 32 bits, indexing and walking give what the Lua table has,
      however deep, and deleting frees every table once; nesting is bounded by the C calls Lua allows, the searches of
      a hash table by its size.

    ** Not modelled

    The epoll and kqueue layers (single system calls), the start-up and daemon code,
    the memory hooks, the bson, mongo, mysql, multicast, profile and debug libraries,
    the calls of lua-socket.c into the socket server, the logger and the Lua
    loader among the services in C, those in Lua, and the programs under src/database,
    which only call libmysqlclient or hiredis in sequence. Redis, hiredis, Lua, jemalloc,
    lpeg, lua-md5 and lua-cjson are third-party code in the repository; where the modelled
    code relies on them they are parameters, but for the size limit of Lua's strings, which
    [lua_pushlstring] has.

    ** What the theorems assume

    Bounds on sizes, counts and ids, and which calls a component may be given, are
    hypotheses of the theorems and named in the comment in front of each. Where the code
    goes wrong beyond them, the theorem or an example next to it shows how. *)
From stdpp Require Import base list list_numbers numbers gmap sorting.
From Stdlib Require Import ZArith Lia.

Global Open Scope Z_scope.

(** ** Failures of C code and the error monad *)

(** What stops a modelled C function: a failed [assert], an access outside the
    bounds of an object, signed overflow, a read of uninitialised memory, a use
    of a freed object, a NULL dereference, a Lua error raised for an argument
    ([luaL_argerror]; 0 for a plain [luaL_error]), or a loop that ran out of the
    fuel its model was given. *)
Inductive cerror : Type :=
| AssertFailed
| OutOfBounds
| SignedOverflow
| Uninitialised
| UseAfterFree
| NullDeref
| LuaError (arg : Z)
| OutOfFuel.

Inductive result (A : Type) : Type :=
| Ok (a : A)
| Err (e : cerror).
Arguments Ok {A} a.
Arguments Err {A} e.

Global Instance result_ret : MRet result := λ A a, Ok a.
Global Instance result_bind : MBind result := λ A B f m,
  match m with Ok a => f a | Err e => Err e end.

Definition is_Ok {A} (r : result A) : Prop := ∃ a, r = Ok a.

(** [assert(b)] of the C code. *)
Definition c_assert (b : bool) : result unit :=
  if b then Ok tt else Err AssertFailed.

(** Fixpoints that model loops take fuel; running out of it is its own error. *)
Definition of_option {A} (e : cerror) (o : option A) : result A :=
  match o with Some a => Ok a | None => Err e end.

(** [lua_pushlstring] and [luaL_addlstring] with an [int] as the size: a negative one is a
    [size_t] beyond the limit of Lua's strings, which raises an error (3rd/lua/lstring.c,
    [luaS_newlstr]) before the bytes are read. *)
Definition lua_pushlstring (len : Z) (bytes : result (list Z)) : result (list Z) :=
  if decide (len < 0) then Err (LuaError 0) else bytes.

Lemma bind_Ok {A B} (f : A → result B) (a : A) : (Ok a ≫= f) = f a.
Proof. reflexivity. Qed.
Lemma bind_Err {A B} (f : A → result B) e : (Err e ≫= f) = Err e.
Proof. reflexivity. Qed.
Lemma bind_Ok_inv {A B} (m : result A) (f : A → result B) b :
  (m ≫= f) = Ok b → ∃ a, m = Ok a ∧ f a = Ok b.
Proof. destruct m; simpl; [eauto|discriminate]. Qed.
Lemma Ok_inj {A} (a b : A) : Ok a = Ok b → a = b.
Proof. by intros [= ->]. Qed.
Lemma c_assert_true b : b = true → c_assert b = Ok tt.
Proof. by intros ->. Qed.
Lemma c_assert_Ok b x : c_assert b = Ok x → b = true.
Proof. by destruct b. Qed.

(** ** Machine integers *)

(** Unsigned arithmetic wraps; a conversion to a signed type of width [w] takes
    the representative in [-2^(w-1), 2^(w-1)). *)
Definition uwrap (w x : Z) : Z := x mod 2 ^ w.
Definition swrap (w x : Z) : Z := (x + 2 ^ (w - 1)) mod 2 ^ w - 2 ^ (w - 1).

Abbreviation u8 := (uwrap 8).
Abbreviation u16 := (uwrap 16).
Abbreviation u32 := (uwrap 32).
Abbreviation u64 := (uwrap 64).
Abbreviation s8 := (swrap 8).
Abbreviation s32 := (swrap 32).
Abbreviation s64 := (swrap 64).

Definition INT_MAX : Z := 2147483647.
Definition INT_MIN : Z := -2147483648.

(** The value of an [int] expression: signed overflow is an error. *)
Definition c_int (x : Z) : result Z :=
  if decide (INT_MIN ≤ x ≤ INT_MAX) then Ok x else Err SignedOverflow.

Lemma c_int_Ok x : INT_MIN ≤ x ≤ INT_MAX → c_int x = Ok x.
Proof. intros H. unfold c_int. by rewrite decide_True. Qed.

Lemma pow2_pos w : 0 ≤ w → 0 < 2 ^ w.
Proof. intros. apply Z.pow_pos_nonneg; lia. Qed.

Lemma uwrap_range w x : 0 ≤ w → 0 ≤ uwrap w x < 2 ^ w.
Proof. intros. apply Z.mod_pos_bound, pow2_pos; lia. Qed.
Lemma uwrap_small w x : 0 ≤ x < 2 ^ w → uwrap w x = x.
Proof. intros. by apply Z.mod_small. Qed.
Lemma swrap_range w x : 0 < w → - 2 ^ (w - 1) ≤ swrap w x < 2 ^ (w - 1).
Proof.
  intros Hw. unfold swrap.
  pose proof (Z.mod_pos_bound (x + 2 ^ (w - 1)) (2 ^ w) (pow2_pos w ltac:(lia))).
  replace (2 ^ w) with (2 * 2 ^ (w - 1)) in *; [lia|].
  rewrite <- Z.pow_succ_r by lia. f_equal. lia.
Qed.
Lemma swrap_small w x : 0 < w → - 2 ^ (w - 1) ≤ x < 2 ^ (w - 1) → swrap w x = x.
Proof.
  intros Hw Hx. unfold swrap. rewrite Z.mod_small; [lia|].
  replace (2 ^ w) with (2 * 2 ^ (w - 1)); [lia|].
  rewrite <- Z.pow_succ_r by lia. f_equal. lia.
Qed.

(** The operators of C on [uint32_t], with their precedences. *)
Declare Scope c_scope.
Delimit Scope c_scope with c.
Notation "x .<< n" := (u32 (Z.shiftl x n)) (at level 51, left associativity) : c_scope.
Notation "x .>> n" := (Z.shiftr x n) (at level 51, left associativity) : c_scope.
Notation "x .& y" := (Z.land x y) (at level 52, left associativity) : c_scope.
Notation "x .^ y" := (Z.lxor x y) (at level 53, left associativity) : c_scope.
Notation "x .| y" := (Z.lor x y) (at level 54, left associativity) : c_scope.
Notation "x .+ y" := (u32 (x + y)) (at level 50, left associativity) : c_scope.

(** ** Arrays: a C array as a list read and written by index *)

Definition rd {A} (l : list A) (i : Z) : result A :=
  if decide (0 ≤ i) then of_option OutOfBounds (l !! Z.to_nat i)
  else Err OutOfBounds.
Definition wr {A} (l : list A) (i : Z) (x : A) : result (list A) :=
  if decide (0 ≤ i < Z.of_nat (length l)) then Ok (<[Z.to_nat i := x]> l)
  else Err OutOfBounds.

(** Length of a list as a C size. *)
Definition zlen {A} (l : list A) : Z := Z.of_nat (length l).

Lemma rd_lookup {A} (l : list A) i x :
  0 ≤ i → l !! Z.to_nat i = Some x → rd l i = Ok x.
Proof. intros Hi Hl. unfold rd. rewrite decide_True by lia. by rewrite Hl. Qed.
Lemma rd_Ok {A} (l : list A) i : 0 ≤ i < zlen l → is_Ok (rd l i).
Proof.
  intros Hi. destruct (lookup_lt_is_Some_2 l (Z.to_nat i)) as [x Hx];
    [unfold zlen in *; lia|]. exists x. apply rd_lookup; [lia|done].
Qed.
Lemma rd_Ok_inv {A} (l : list A) i x :
  rd l i = Ok x → 0 ≤ i < zlen l ∧ l !! Z.to_nat i = Some x.
Proof.
  unfold rd, zlen. case_decide; [|done].
  destruct (l !! Z.to_nat i) eqn:E; [|done]. intros [= ->].
  apply lookup_lt_Some in E as ?. split; [lia|done].
Qed.
Lemma wr_Ok {A} (l : list A) i x :
  0 ≤ i < zlen l → wr l i x = Ok (<[Z.to_nat i := x]> l).
Proof. intros. unfold wr. by rewrite decide_True. Qed.
Lemma zlen_nonneg {A} (l : list A) : 0 ≤ zlen l.
Proof. unfold zlen. lia. Qed.
Lemma zlen_cons {A} (x : A) (l : list A) : zlen (x :: l) = 1 + zlen l.
Proof. unfold zlen. simpl. lia. Qed.
Lemma zlen_app {A} (l k : list A) : zlen (l ++ k) = zlen l + zlen k.
Proof. unfold zlen. rewrite length_app. lia. Qed.
Lemma zlen_insert {A} (l : list A) i x : zlen (<[i:=x]> l) = zlen l.
Proof. unfold zlen. by rewrite length_insert. Qed.
Lemma zlen_replicate {A} n (x : A) : zlen (replicate n x) = Z.of_nat n.
Proof. unfold zlen. by rewrite length_replicate. Qed.

(** Filters that keep everything or nothing. *)
Lemma filter_all {A} (P : A → Prop) `{∀ x, Decision (P x)} l : Forall P l → filter P l = l.
Proof.
  induction 1 as [|x l Hx _ IH]; [done|]. rewrite filter_cons_True by done. by rewrite IH.
Qed.
Lemma filter_none {A} (P : A → Prop) `{∀ x, Decision (P x)} l :
  Forall (λ x, ¬ P x) l → filter P l = [].
Proof.
  induction 1 as [|x l Hx _ IH]; [done|]. by rewrite filter_cons_False.
Qed.

Lemma filter_iff_in {A} (P Q : A → Prop) `{∀ x, Decision (P x), ∀ x, Decision (Q x)} (l : list A) :
  (∀ x, x ∈ l → P x ↔ Q x) → filter P l = filter Q l.
Proof.
  induction l as [|x l IH]; intros Hpq; [done|].
  rewrite !filter_cons, IH by (intros; apply Hpq; by right).
  rewrite (decide_ext (P x) (Q x)) by (apply Hpq; by left). done.
Qed.

(** A list of a concatenation is replaced. *)
Lemma concat_insert_perm {A} (ll : list (list A)) i l l' :
  ll !! i = Some l → concat (<[i := l']> ll) ++ l ≡ₚ concat ll ++ l'.
Proof. revert i. induction ll as [|x ll IH]; intros [|i] H; simpl in *; [done|done|simplify_eq; solve_Permutation|by rewrite <- !app_assoc, IH]. Qed.

(** ** Automation *)

Create HintDb csem.
Create Rewrite HintDb csem.
#[export] Hint Resolve zlen_nonneg uwrap_range : csem.
#[export] Hint Rewrite @bind_Ok @bind_Err @zlen_app @zlen_insert @zlen_replicate : csem.

(** Run one step of the error monad: discharge asserts, in-range reads, writes
    and [int] results by arithmetic. *)
Ltac c_step :=
  first
    [ rewrite bind_Ok
    | rewrite c_assert_true by (first [done | lia | by apply bool_decide_eq_true_2; lia])
    | rewrite c_int_Ok by (unfold INT_MIN, INT_MAX in *; lia)
    | rewrite wr_Ok by (rewrite ?zlen_insert; lia) ].
Ltac c_run := repeat c_step.

(** A write to a constant index of a list whose first cells are explicit. *)
Ltac wr_cell :=
  rewrite wr_Ok by (rewrite ?zlen_cons; lia); rewrite bind_Ok;
  match goal with |- context [<[Z.to_nat ?i := _]> (_ :: _)] =>
    let n := eval compute in (Z.to_nat i) in change (Z.to_nat i) with n end;
  cbn [insert list_insert].

(** Destruct the pattern matches and conditionals of a hypothesis. *)
Ltac destruct_match :=
  match goal with
  | H : context [match ?x with _ => _ end] |- _ => destruct x eqn:?
  | |- context [match ?x with _ => _ end] => destruct x eqn:?
  end.

(** Split an [Ok] of a bind in the hypotheses into its parts. *)
Ltac bind_inv :=
  repeat match goal with
  | H : (_ ≫= _) = Ok _ |- _ =>
      let a := fresh "a" in let Ha := fresh "Ha" in
      apply bind_Ok_inv in H as (a & Ha & H)
  | H : Ok _ = Ok _ |- _ => injection H as H; subst
  | H : c_assert _ = Ok _ |- _ => apply c_assert_Ok in H
  | H : Err _ = Ok _ |- _ => discriminate H
  end.

(** ** Modular indices of ring buffers *)

Lemma ring_next head cap :
  0 ≤ head < cap →
  (if decide (cap ≤ head + 1) then 0 else head + 1) = (head + 1) mod cap.
Proof.
  intros. case_decide.
  - replace (head + 1) with cap by lia. by rewrite Z.mod_same by lia.
  - rewrite Z.mod_small; lia.
Qed.

Lemma ring_mod_add a b cap : 0 < cap → ((a mod cap) + b) mod cap = (a + b) mod cap.
Proof. intros. apply Zplus_mod_idemp_l. Qed.

Lemma ring_index_inj head i j cap :
  0 ≤ i < cap → 0 ≤ j < cap → (head + i) mod cap = (head + j) mod cap → i = j.
Proof.
  intros Hi Hj E. assert ((i - j) mod cap = 0) as Hd.
  { replace (i - j) with ((head + i) - (head + j)) by lia.
    rewrite Zminus_mod, E, Z.sub_diag. apply Z.mod_0_l. lia. }
  apply Z.mod_divide in Hd as [k Hk]; [|lia]. assert (k = 0) by (destruct (Z.lt_trichotomy k 0) as [|[|]]; nia). lia.
Qed.

Lemma ring_distance head n cap :
  0 ≤ head < cap → 0 ≤ n < cap →
  (let d := (head + n) mod cap - head in if decide (d < 0) then d + cap else d) = n.
Proof.
  intros. simpl. destruct (decide (head + n < cap)).
  - rewrite Z.mod_small by lia. rewrite decide_False by lia. lia.
  - assert ((head + n) mod cap = head + n - cap) as ->.
    { rewrite <- (Z.mod_small (head + n - cap) cap) by lia.
      rewrite <- (Z.mod_add (head + n - cap) 1 cap) by lia. f_equal. lia. }
    rewrite decide_True by lia. lia.
Qed.

(** ** Counting loops *)

(** [for (i = i0; i < i0 + n; i++) body]. *)
Fixpoint c_for {S} (n : nat) (i : Z) (body : Z → S → result S) (st : S) : result S :=
  match n with
  | O => Ok st
  | S n' => st' ← body i st; c_for n' (i + 1) body st'
  end.

(** [for (i = i0; i > i0 - n; i--) body]. *)
Fixpoint c_for_down {S} (n : nat) (i : Z) (body : Z → S → result S) (st : S) : result S :=
  match n with
  | O => Ok st
  | S n' => st' ← body i st; c_for_down n' (i - 1) body st'
  end.

(** The loop rules: an invariant indexed by the loop counter. *)
Lemma c_for_spec {S} (P : Z → S → Prop) body n i (st : S) :
  P i st →
  (∀ j st, i ≤ j < i + Z.of_nat n → P j st → ∃ st', body j st = Ok st' ∧ P (j + 1) st') →
  ∃ st', c_for n i body st = Ok st' ∧ P (i + Z.of_nat n) st'.
Proof.
  revert i st. induction n as [|n IH]; intros i st H0 Hb; cbn [c_for c_for_down].
  - exists st. split; [done|]. by rewrite Z.add_0_r.
  - destruct (Hb i st) as (st1 & -> & H1); [lia|done|]. rewrite bind_Ok.
    destruct (IH (i + 1) st1) as (st' & -> & H'); [done|intros; apply Hb; [lia|done]|].
    exists st'. split; [done|]. rewrite Nat2Z.inj_succ, <- Z.add_1_l, Z.add_assoc. done.
Qed.
Lemma c_for_down_spec {S} (P : Z → S → Prop) body n i (st : S) :
  P i st →
  (∀ j st, i - Z.of_nat n < j ≤ i → P j st → ∃ st', body j st = Ok st' ∧ P (j - 1) st') →
  ∃ st', c_for_down n i body st = Ok st' ∧ P (i - Z.of_nat n) st'.
Proof.
  revert i st. induction n as [|n IH]; intros i st H0 Hb; cbn [c_for c_for_down].
  - exists st. split; [done|]. by rewrite Z.sub_0_r.
  - destruct (Hb i st) as (st1 & -> & H1); [lia|done|]. rewrite bind_Ok.
    destruct (IH (i - 1) st1) as (st' & -> & H'); [done|intros; apply Hb; [lia|done]|].
    exists st'. split; [done|]. rewrite Nat2Z.inj_succ, <- Z.add_1_l, Z.sub_add_distr. done.
Qed.

(** A loop that copies [k] elements from [src] at [so] to [dst] at [off]. *)
Lemma copy_step {A} (dst s : list A) a j c :
  s !! j = Some c → (a + j < length dst)%nat →
  <[(a + j)%nat := c]> (take a dst ++ take j s ++ drop (a + j) dst)
    = take a dst ++ take (S j) s ++ drop (a + S j) dst.
Proof.
  intros Hc Ha. apply lookup_lt_Some in Hc as Hj.
  destruct (lookup_lt_is_Some_2 dst (a + j)) as [x Hx]; [done|].
  rewrite (drop_S _ x) by done. rewrite (take_S_r _ _ c) by done.
  rewrite insert_app_r_alt; rewrite length_take_le by lia; [|lia].
  replace (a + j - a)%nat with j by lia.
  rewrite insert_app_r_alt; rewrite length_take_le by lia; [|lia].
  rewrite Nat.sub_diag. simpl. rewrite <- app_assoc. simpl. do 3 f_equal. f_equal. lia.
Qed.
Lemma c_for_copy {A} (body : Z → list A → result (list A)) (src dst : list A) so off k :
  (∀ i d, body i d = (c ← rd src (so + i); wr d (off + i) c)) →
  0 ≤ so → 0 ≤ off → so + Z.of_nat k ≤ zlen src → off + Z.of_nat k ≤ zlen dst →
  c_for k 0 body dst
    = Ok (take (Z.to_nat off) dst ++ take k (drop (Z.to_nat so) src)
          ++ drop (Z.to_nat off + k) dst).
Proof.
  intros Hb Hso Hoff Hs Hd. unfold zlen in *.
  destruct (c_for_spec (λ j d, d = take (Z.to_nat off) dst
    ++ take (Z.to_nat j) (drop (Z.to_nat so) src) ++ drop (Z.to_nat off + Z.to_nat j) dst)
    body k 0 dst) as (d' & -> & Hd').
  - rewrite take_0, Nat.add_0_r. simpl. by rewrite take_drop.
  - intros j d Hj ->. rewrite Hb. destruct (rd_Ok src (so + j)) as [c Hc]; [unfold zlen; lia|].
    rewrite Hc, bind_Ok. eexists. rewrite wr_Ok; cycle 1.
    { unfold zlen. rewrite !length_app, !length_take, !length_drop. lia. }
    split; [done|]. apply rd_Ok_inv in Hc as [_ Hc].
    replace (Z.to_nat (off + j)) with (Z.to_nat off + Z.to_nat j)%nat by lia.
    rewrite (copy_step _ _ _ _ c); [by replace (Z.to_nat (j + 1)) with (S (Z.to_nat j)) by lia| |lia].
    rewrite lookup_drop, <- Hc. f_equal. lia.
  - rewrite Hd'. do 4 f_equal; lia.
Qed.

(** ** Masks *)

Lemma land_ones_mod x k : 0 ≤ k → Z.land x (2 ^ k - 1) = x `mod` 2 ^ k.
Proof. intros. rewrite <- Z.land_ones, Z.ones_equiv, Z.sub_1_r by done. done. Qed.

Lemma land_low_high a b k : 0 ≤ k → 0 ≤ a < 2 ^ k → Z.land a (b * 2 ^ k) = 0.
Proof.
  intros Hk Ha. apply Z.bits_inj'. intros n Hn.
  rewrite Z.land_spec, Z.bits_0, <- Z.shiftl_mul_pow2 by done.
  destruct (decide (n < k)).
  - rewrite Z.shiftl_spec_low by done. apply andb_false_r.
  - rewrite <- (Z.mod_small a (2 ^ k)) by done.
    rewrite Z.mod_pow2_bits_high by lia. done.
Qed.

(** Joining disjoint bit fields is addition. *)
Lemma lor_add_high a b k : 0 ≤ k → 0 ≤ a < 2 ^ k → Z.lor a (b * 2 ^ k) = a + b * 2 ^ k.
Proof. intros. symmetry. apply Z.add_nocarry_lor. by apply land_low_high. Qed.

(** Reducing modulo a larger power of two first changes nothing. *)
Lemma mod_pow2_mod x j k : 0 ≤ j ≤ k → (x `mod` 2 ^ k) `mod` 2 ^ j = x `mod` 2 ^ j.
Proof.
  intros [Hj Hk]. apply Z.mod_mod_divide.
  exists (2 ^ (k - j)). rewrite <- Z.pow_add_r by lia. f_equal. lia.
Qed.
Lemma add_mul_pow2_mod x b j k :
  0 ≤ j ≤ k → (x + b * 2 ^ k) `mod` 2 ^ j = x `mod` 2 ^ j.
Proof.
  intros [Hj Hk]. replace (2 ^ k) with (2 ^ (k - j) * 2 ^ j).
  - rewrite Z.mul_assoc. apply Z.mod_add. apply Z.pow_nonzero; lia.
  - rewrite <- Z.pow_add_r by lia. f_equal. lia.
Qed.

(** Numbers that agree with their low [k] bits set agree above bit [k]. *)
Lemma lor_ones_eq a b k :
  0 ≤ k → Z.lor a (2 ^ k - 1) = Z.lor b (2 ^ k - 1) ↔ a / 2 ^ k = b / 2 ^ k.
Proof.
  intros Hk. rewrite Z.sub_1_r, <- Z.ones_equiv, <- !Z.shiftr_div_pow2 by done.
  assert (∀ x n, k ≤ n → Z.testbit (Z.lor x (Z.ones k)) n = Z.testbit x n) as Hhi.
  { intros x n Hn. rewrite Z.lor_spec, Z.ones_spec_high by lia. apply orb_false_r. }
  split; intros E; apply Z.bits_inj'; intros n Hn.
  - rewrite !Z.shiftr_spec by done. rewrite <- (Hhi a), <- (Hhi b) by lia. by rewrite E.
  - destruct (decide (k ≤ n)).
    + rewrite !Hhi by done. apply (f_equal (λ z, Z.testbit z (n - k))) in E.
      rewrite !Z.shiftr_spec in E by lia. by rewrite Z.sub_add in E.
    + rewrite !Z.lor_spec, !Z.ones_spec_low by lia. by rewrite !orb_true_r.
Qed.
