(* ===== verification/CString.v ===== *)
(** * C strings

    A C string is the list of its bytes before the terminating NUL, each in
    1..255. [strcmp] is the order the name table of skynet-src/skynet_handle.c
    is sorted by. In memory it is a prefix of an object's bytes: [c_str] reads
    it, and [strcpy] and [strcat] write it, all three within the object. *)
From Stdlib Require Import String Ascii.
From stdpp Require Import base numbers list.
From S2P Require Import Prelude.

Abbreviation cstring := (list Z).

Definition cstring_ok (s : cstring) : Prop := Forall (λ c, 1 ≤ c ≤ 255) s.

(** [strcmp] of the C library: the difference of the first pair of bytes
    (as unsigned char, the NUL included) that differ. *)
Fixpoint strcmp (a b : cstring) : Z :=
  match a, b with
  | [], [] => 0
  | [], y :: _ => 0 - y
  | x :: _, [] => x - 0
  | x :: a', y :: b' => if decide (x = y) then strcmp a' b' else x - y
  end.

Lemma strcmp_refl a : strcmp a a = 0.
Proof. induction a; simpl; [done|]. by rewrite decide_True. Qed.

Lemma strcmp_eq a b : cstring_ok a → cstring_ok b → strcmp a b = 0 → a = b.
Proof.
  intros Ha. revert b. induction Ha as [|x a Hx Ha IH]; intros b Hb; destruct Hb as [|y b Hy Hb];
    simpl; try done; try lia.
  case_decide; [|lia]. intros E. subst. f_equal. by apply IH.
Qed.

Lemma strcmp_flip a b : strcmp b a = - strcmp a b.
Proof.
  revert b. induction a as [|x a IH]; intros [|y b]; simpl; try lia.
  destruct (decide (x = y)), (decide (y = x)); subst; try congruence; auto; lia.
Qed.

Lemma strcmp_trans a b c :
  cstring_ok a → cstring_ok b → cstring_ok c →
  strcmp a b < 0 → strcmp b c < 0 → strcmp a c < 0.
Proof.
  intros Ha. revert b c. induction Ha as [|x a Hx Ha IH];
    intros b c Hb Hc; destruct Hb as [|y b Hy Hb], Hc as [|z c Hz Hc];
    simpl; try lia.
  repeat case_decide; subst; try lia; try congruence. by apply IH.
Qed.

(** ** Strings in memory *)

(** The string at the start of an object's bytes: a read past the end of the
    object when there is no NUL. *)
Fixpoint c_str (buf : list Z) : result cstring :=
  match buf with
  | [] => Err OutOfBounds
  | c :: r => if decide (c = 0) then Ok [] else s ← c_str r; Ok (c :: s)
  end.

(** [memcpy] into an object at offset [i]. *)
Definition wr_bytes (buf : list Z) (i : Z) (l : list Z) : result (list Z) :=
  if decide (0 ≤ i ∧ i + zlen l ≤ zlen buf) then
    Ok (take (Z.to_nat i) buf ++ l ++ drop (Z.to_nat i + length l) buf)
  else Err OutOfBounds.

Definition strcpy (dst : list Z) (s : cstring) : result (list Z) :=
  wr_bytes dst 0 (s ++ [0]).
Definition strcat (dst : list Z) (s : cstring) : result (list Z) :=
  e ← c_str dst;
  wr_bytes dst (zlen e) (s ++ [0]).

(** What [strlen] counts in a byte string that may hold NULs. *)
Fixpoint until_nul (s : list Z) : cstring :=
  match s with
  | [] => []
  | c :: r => if decide (c = 0) then [] else c :: until_nul r
  end.

Lemma until_nul_ok s : Forall (λ c, c ≠ 0) s → until_nul s = s.
Proof. induction 1; simpl; [done|]. rewrite decide_False by done. by f_equal. Qed.
Lemma until_nul_nonzero s : Forall (λ c, c ≠ 0) (until_nul s).
Proof. induction s as [|c s IH]; simpl; [done|]. case_decide; by constructor. Qed.
Lemma until_nul_length s : (length (until_nul s) ≤ length s)%nat.
Proof. induction s as [|c s IH]; simpl; [done|]. case_decide; simpl; lia. Qed.

Lemma c_str_app s r : Forall (λ c, c ≠ 0) s → c_str (s ++ 0 :: r) = Ok s.
Proof.
  induction 1 as [|c s Hc _ IH]; simpl; [done|]. by rewrite decide_False, IH by done.
Qed.
Lemma c_str_until buf : 0 ∈ buf → c_str buf = Ok (until_nul buf).
Proof.
  induction buf as [|c buf IH]; intros H; [by apply elem_of_nil in H|]. simpl.
  case_decide; [done|]. apply elem_of_cons in H as [|H]; [done|]. by rewrite IH.
Qed.
Lemma c_str_none buf : 0 ∉ buf → c_str buf = Err OutOfBounds.
Proof.
  induction buf as [|c buf IH]; intros H; [done|]. simpl.
  apply not_elem_of_cons in H as [Hc H]. by rewrite decide_False, IH by done.
Qed.
Lemma c_str_inv buf s :
  c_str buf = Ok s → ∃ r, buf = s ++ 0 :: r ∧ Forall (λ c, c ≠ 0) s.
Proof.
  revert s. induction buf as [|c buf IH]; intros s; simpl; [done|].
  case_decide as Hc; [intros [= <-]; subst; by exists buf|].
  destruct (c_str buf) as [s'|] eqn:E; simpl; [|done]. intros [= <-].
  destruct (IH s' eq_refl) as (r & -> & Hs). exists r. split; [done|by constructor].
Qed.

Lemma c_str_prefix s r :
  Forall (λ c, c ≠ 0) s → c_str (s ++ r) = (k ← c_str r; Ok (s ++ k)).
Proof.
  induction 1 as [|c s Hc _ IH]; simpl; [by destruct (c_str r)|].
  rewrite decide_False, IH by done. by destruct (c_str r).
Qed.

(** Appending inside the object, and past its end. *)
Lemma strcat_Ok s r k :
  Forall (λ c, c ≠ 0) s → (length k ≤ length r)%nat →
  strcat (s ++ 0 :: r) k = Ok ((s ++ k) ++ 0 :: drop (length k) r).
Proof.
  intros Hs Hk. unfold strcat. rewrite c_str_app, bind_Ok by done. unfold wr_bytes.
  rewrite decide_True; cycle 1.
  { unfold zlen. rewrite !length_app. simpl. lia. }
  f_equal. unfold zlen. rewrite Nat2Z.id, take_app_length, <- !app_assoc. do 2 f_equal.
  rewrite length_app. simpl. f_equal. rewrite drop_app_ge by lia.
  replace (length s + (length k + 1) - length s)%nat with (S (length k)) by lia. done.
Qed.
Lemma strcat_overflow s r k :
  Forall (λ c, c ≠ 0) s → (length r < length k)%nat →
  strcat (s ++ 0 :: r) k = Err OutOfBounds.
Proof.
  intros Hs Hk. unfold strcat. rewrite c_str_app, bind_Ok by done. unfold wr_bytes.
  rewrite decide_False; [done|]. unfold zlen. rewrite !length_app. simpl. lia.
Qed.

(** A string literal as bytes. *)
Definition lit (s : string) : list Z :=
  (λ a, Z.of_N (N_of_ascii a)) <$> list_ascii_of_string s.
Arguments lit s%_string_scope.

Lemma lit_nonzero s : forallb (λ a, negb (Ascii.eqb a zero)) (list_ascii_of_string s) = true →
  Forall (λ c, c ≠ 0) (lit s).
Proof.
  intros H. unfold lit. apply Forall_fmap. rewrite forallb_forall in H. apply Forall_forall.
  intros a Ha%list_elem_of_In. specialize (H a Ha). cbn. intros E.
  assert (N_of_ascii a = 0%N) as E0 by lia. rewrite <- (ascii_N_embedding a), E0 in H.
  discriminate H.
Qed.
