(* ===== verification/LuaApi.v ===== *)
(** * The Lua C API as the bindings use it

    A C function called from Lua reads its arguments from the stack by index and
    returns the values it pushed. The arguments are a list, the results a list;
    an error raised by the API is [LuaError]. The conversions between numbers and
    strings belong to the Lua library and are the fields of the class [LuaConv].
    Floating-point numbers are left out: no modelled binding is given one. *)
From stdpp Require Import base numbers list.
From S2P Require Import Prelude CString.

Inductive lua_value : Type :=
| LNil
| LBoolean (b : bool)
| LInteger (i : Z)
| LString (s : list Z)
| LUserdata (p : Z) (** a light userdata: a pointer *).

Global Instance lua_value_eq_dec : EqDecision lua_value.
Proof. solve_decision. Defined.

(** [luaO_str2num] restricted to integers, and [luaO_tostring]. *)
Class LuaConv := {
  lua_str2int : list Z → option Z;
  lua_int2str : Z → list Z }.

Section Api.
Context `{LuaConv}.

(** The value at stack index [i], counted from 1; absent arguments read as nil. *)
Definition lua_arg (args : list lua_value) (i : nat) : lua_value :=
  default LNil (args !! (i - 1)%nat).

(** [lua_tolstring]: NULL unless the value is a string or a number. *)
Definition lua_tolstring (v : lua_value) : option (list Z) :=
  match v with
  | LString s => Some s
  | LInteger i => Some (lua_int2str i)
  | _ => None
  end.
(** [lua_tointeger]: 0 when the value does not convert. *)
Definition lua_tointeger (v : lua_value) : Z :=
  match v with
  | LInteger i => i
  | LString s => default 0 (lua_str2int s)
  | _ => 0
  end.
(** [lua_rawlen] after the value was converted in place by [lua_tolstring]. *)
Definition lua_rawlen (v : lua_value) : Z :=
  match lua_tolstring v with Some s => zlen s | None => 0 end.
(** [lua_touserdata]: NULL, as 0, for any other value. *)
Definition lua_touserdata (v : lua_value) : Z :=
  match v with LUserdata p => p | _ => 0 end.

(** [luaL_checkinteger] and [luaL_checklstring] raise an argument error. *)
Definition luaL_checkinteger (args : list lua_value) (i : nat) : result Z :=
  match lua_arg args i with
  | LInteger n => Ok n
  | LString s => of_option (LuaError (Z.of_nat i)) (lua_str2int s)
  | _ => Err (LuaError (Z.of_nat i))
  end.
Definition luaL_checklstring (args : list lua_value) (i : nat) : result (list Z) :=
  of_option (LuaError (Z.of_nat i)) (lua_tolstring (lua_arg args i)).

Definition luaL_argcheck (b : bool) (i : nat) : result unit :=
  if b then Ok tt else Err (LuaError (Z.of_nat i)).
End Api.

(** A [char *] the API returned, where the code dereferences it unchecked. *)
Definition deref {A} (p : option A) : result A := of_option NullDeref p.

(** No conversions, for concrete runs that need none. *)
Definition no_conv : LuaConv := {| lua_str2int := λ _, None; lua_int2str := λ _, [] |}.
