(* ===== verification/Mq.v ===== *)
(** * Message queues: skynet-src/skynet_mq.c

    [Ring] is the per-service ring buffer of [struct message_queue];
    [Global] adds the heap of queues and the linked global queue [Q]; [Sched]
    interleaves the lock-protected operations of all threads as a step
    relation and proves the scheduling invariant. *)
From stdpp Require Import base list numbers gmap.
From S2P Require Import Prelude.

Definition DEFAULT_QUEUE_SIZE : Z := 64.
Definition MQ_IN_GLOBAL : Z := 1.
Definition MQ_OVERLOAD : Z := 1024.

(** [struct skynet_message]; [data] is the pointer's value, [0] is [NULL]. *)
Record skynet_message : Type := mk_message {
  source : Z; session : Z; data : Z; sz : Z }.

(** [type is encoding in skynet_message.sz high 8bit], with a 64-bit [size_t]. *)
Definition MESSAGE_TYPE_MASK : Z := Z.shiftr (2 ^ 64 - 1) 8.
Definition MESSAGE_TYPE_SHIFT : Z := (8 - 1) * 8.

(** A queue in the heap is named by its address, an integer. *)


(** [struct message_queue]. A cell of [queue] is [None] until it is written
    ([skynet_malloc] does not initialise); [next] is [NULL] or a queue. *)
Record message_queue : Type := mk_mq {
  handle : Z;
  cap : Z;
  head : Z;
  tail : Z;
  release : Z;
  in_global : Z;
  overload : Z;
  overload_threshold : Z;
  queue : list (option skynet_message);
  next : option Z }.

Definition skynet_mq_create (h : Z) : message_queue :=
  {| handle := h; cap := DEFAULT_QUEUE_SIZE; head := 0; tail := 0;
     release := 0; in_global := MQ_IN_GLOBAL; overload := 0;
     overload_threshold := MQ_OVERLOAD;
     queue := replicate (Z.to_nat DEFAULT_QUEUE_SIZE) None; next := None |}.

Definition skynet_mq_handle (q : message_queue) : Z := handle q.

Definition skynet_mq_length (q : message_queue) : Z :=
  if decide (head q ≤ tail q) then tail q - head q else tail q + cap q - head q.

(** Returns the overload figure and the queue with the figure cleared. *)
Definition skynet_mq_overload (q : message_queue) : Z * message_queue :=
  if decide (overload q ≠ 0) then
    (overload q,
     {| handle := handle q; cap := cap q; head := head q; tail := tail q;
        release := release q; in_global := in_global q; overload := 0;
        overload_threshold := overload_threshold q; queue := queue q; next := next q |})
  else (0, q).

(** The loop [while (length > q->overload_threshold)] of [skynet_mq_pop]. *)
Fixpoint overload_loop (fuel : nat) (length ov threshold : Z) : result (Z * Z) :=
  if decide (threshold < length) then
    match fuel with
    | O => Err OutOfFuel
    | S f => threshold' ← c_int (threshold * 2); overload_loop f length length threshold'
    end
  else Ok (ov, threshold).

(** An [int] threshold that is at least 1 doubles at most 31 times. *)
Definition OVERLOAD_FUEL : nat := 31.

(** [skynet_mq_pop]: the C return value, the message when there is one, and the
    queue afterwards. *)
Definition skynet_mq_pop (q : message_queue) :
    result (Z * option skynet_message * message_queue) :=
  if decide (head q ≠ tail q) then
    cell ← rd (queue q) (head q);
    message ← of_option Uninitialised cell;
    head1 ← c_int (head q + 1);
    let head2 := if decide (cap q ≤ head1) then 0 else head1 in
    let len := tail q - head2 in
    let length := if decide (len < 0) then len + cap q else len in
    ot ← overload_loop OVERLOAD_FUEL length (overload q) (overload_threshold q);
    Ok (0, Some message,
        {| handle := handle q; cap := cap q; head := head2; tail := tail q;
           release := release q; in_global := in_global q; overload := ot.1;
           overload_threshold := ot.2; queue := queue q; next := next q |})
  else
    Ok (1, None,
        {| handle := handle q; cap := cap q; head := head q; tail := tail q;
           release := release q; in_global := 0; overload := overload q;
           overload_threshold := MQ_OVERLOAD; queue := queue q; next := next q |}).

(** The copy loop of [expand_queue]: [n] iterations from index [i]. *)
Fixpoint expand_copy (q : message_queue) (n : nat) (i : Z)
    (new_queue : list (option skynet_message)) : result (list (option skynet_message)) :=
  match n with
  | O => Ok new_queue
  | S n' =>
      j ← c_int (head q + i);
      x ← rd (queue q) (j `mod` cap q);
      new_queue' ← wr new_queue i x;
      expand_copy q n' (i + 1) new_queue'
  end.

Definition expand_queue (q : message_queue) : result message_queue :=
  new_queue ← expand_copy q (Z.to_nat (cap q)) 0 (replicate (Z.to_nat (cap q * 2)) None);
  cap2 ← c_int (cap q * 2);
  Ok {| handle := handle q; cap := cap2; head := 0; tail := cap q;
        release := release q; in_global := in_global q; overload := overload q;
        overload_threshold := overload_threshold q; queue := new_queue; next := next q |}.

(** The part of [skynet_mq_push] that works on the ring (lines 194-201). *)
Definition ring_push (q : message_queue) (message : skynet_message) : result message_queue :=
  queue' ← wr (queue q) (tail q) (Some message);
  tail1 ← c_int (tail q + 1);
  let tail2 := if decide (cap q ≤ tail1) then 0 else tail1 in
  let q' := {| handle := handle q; cap := cap q; head := head q; tail := tail2;
               release := release q; in_global := in_global q; overload := overload q;
               overload_threshold := overload_threshold q; queue := queue';
               next := next q |} in
  if decide (head q' = tail q') then expand_queue q' else Ok q'.

Definition set_next (n : option Z) (q : message_queue) : message_queue :=
  {| handle := handle q; cap := cap q; head := head q; tail := tail q;
     release := release q; in_global := in_global q; overload := overload q;
     overload_threshold := overload_threshold q; queue := queue q; next := n |}.
Definition set_in_global (b : Z) (q : message_queue) : message_queue :=
  {| handle := handle q; cap := cap q; head := head q; tail := tail q;
     release := release q; in_global := b; overload := overload q;
     overload_threshold := overload_threshold q; queue := queue q; next := next q |}.
Definition set_release (b : Z) (q : message_queue) : message_queue :=
  {| handle := handle q; cap := cap q; head := head q; tail := tail q;
     release := b; in_global := in_global q; overload := overload q;
     overload_threshold := overload_threshold q; queue := queue q; next := next q |}.

(** ** The heap of queues and the global queue [Q] *)

Record world : Type := mk_world {
  mqs : gmap Z message_queue;
  gq_head : option Z;
  gq_tail : option Z }.

Definition get_mq (w : world) (i : Z) : result message_queue :=
  of_option UseAfterFree (mqs w !! i).
Definition put_mq (w : world) (i : Z) (q : message_queue) : world :=
  {| mqs := <[i := q]> (mqs w); gq_head := gq_head w; gq_tail := gq_tail w |}.

Definition skynet_mq_init : world := {| mqs := ∅; gq_head := None; gq_tail := None |}.

Definition skynet_globalmq_push (w : world) (i : Z) : result world :=
  q ← get_mq w i;
  c_assert (bool_decide (next q = None)) ;;
  match gq_tail w with
  | Some t =>
      qt ← get_mq w t;
      let w' := put_mq w t (set_next (Some i) qt) in
      Ok {| mqs := mqs w'; gq_head := gq_head w'; gq_tail := Some i |}
  | None => Ok {| mqs := mqs w; gq_head := Some i; gq_tail := Some i |}
  end.

Definition skynet_globalmq_pop (w : world) : result (option Z * world) :=
  match gq_head w with
  | None => Ok (None, w)
  | Some i =>
      mq ← get_mq w i;
      let head' := next mq in
      tail' ← match head' with
              | None => c_assert (bool_decide (gq_tail w = Some i)) ;; Ok None
              | Some _ => Ok (gq_tail w)
              end;
      Ok (Some i, {| mqs := <[i := set_next None mq]> (mqs w);
                     gq_head := head'; gq_tail := tail' |})
  end.

Definition skynet_mq_push (w : world) (i : Z) (message : skynet_message) : result world :=
  q ← get_mq w i;
  q1 ← ring_push q message;
  if decide (in_global q1 = 0) then
    skynet_globalmq_push (put_mq w i (set_in_global MQ_IN_GLOBAL q1)) i
  else Ok (put_mq w i q1).

(** [skynet_mq_pop] on a queue of the heap. *)
Definition world_pop (w : world) (i : Z) : result (option skynet_message * world) :=
  q ← get_mq w i;
  r ← skynet_mq_pop q;
  Ok (r.1.2, put_mq w i r.2).

Definition skynet_mq_mark_release (w : world) (i : Z) : result world :=
  q ← get_mq w i;
  c_assert (bool_decide (release q = 0)) ;;
  let w' := put_mq w i (set_release 1 q) in
  if decide (in_global q ≠ MQ_IN_GLOBAL) then skynet_globalmq_push w' i else Ok w'.

(** [_release]: the queue leaves the heap. *)
Definition mq_free (w : world) (i : Z) : result world :=
  q ← get_mq w i;
  c_assert (bool_decide (next q = None)) ;;
  Ok {| mqs := delete i (mqs w); gq_head := gq_head w; gq_tail := gq_tail w |}.

(** [_drop_queue]: pop until the queue is empty, collecting what is handed to
    [drop_func] in order, then free the queue. *)
Fixpoint drop_queue (fuel : nat) (w : world) (i : Z)
    (dropped : list skynet_message) : result (list skynet_message * world) :=
  match fuel with
  | O => Err OutOfFuel
  | S f =>
      r ← world_pop w i;
      match r.1 with
      | Some m => drop_queue f r.2 i (dropped ++ [m])
      | None => w' ← mq_free r.2 i; Ok (dropped, w')
      end
  end.

(** [skynet_mq_release]; the fuel covers every message and the last, failing pop. *)
Definition skynet_mq_release (w : world) (i : Z) :
    result (list skynet_message * world) :=
  q ← get_mq w i;
  if decide (release q ≠ 0) then
    drop_queue (S (Z.to_nat (skynet_mq_length q))) w i []
  else w' ← skynet_globalmq_push w i; Ok ([], w').

(** ** The ring buffer refines a FIFO list *)

(** [mq_repr q l]: the ring of [q] holds exactly the messages [l], oldest
    first. One cell always stays free, so [head = tail] means empty. *)
Record mq_repr (q : message_queue) (l : list skynet_message) : Prop := {
  repr_cap2 : ∃ k, 6 ≤ k ≤ 30 ∧ cap q = 2 ^ k;
  repr_head : 0 ≤ head q < cap q;
  repr_cells : zlen (queue q) = cap q;
  repr_threshold : 1 ≤ overload_threshold q ≤ INT_MAX;
  repr_room : zlen l < cap q;
  repr_tail : tail q = (head q + zlen l) `mod` cap q;
  repr_data : ∀ (i : nat) m, l !! i = Some m →
    queue q !! Z.to_nat ((head q + Z.of_nat i) `mod` cap q) = Some (Some m) }.

Lemma repr_cap q l : mq_repr q l → 0 < cap q ≤ 2 ^ 30.
Proof.
  intros H. destruct (repr_cap2 _ _ H) as (k & Hk & ->). split.
  - apply pow2_pos. lia.
  - apply Z.pow_le_mono_r; lia.
Qed.
#[export] Hint Resolve repr_cap repr_head repr_cells repr_threshold repr_room : csem.

Lemma repr_tail_range q l : mq_repr q l → 0 ≤ tail q < cap q.
Proof.
  intros H. rewrite (repr_tail _ _ H). apply Z.mod_pos_bound.
  pose proof (repr_cap _ _ H). lia.
Qed.

(** Everything [mq_repr] says depends on the ring fields only. *)
Lemma mq_repr_ext q q' l :
  mq_repr q l → cap q' = cap q → head q' = head q → tail q' = tail q →
  queue q' = queue q → 1 ≤ overload_threshold q' ≤ INT_MAX → mq_repr q' l.
Proof.
  intros [] Hc Hh Ht Hq Hth. split; rewrite ?Hc, ?Hh, ?Ht, ?Hq; auto.
Qed.

Lemma mq_repr_create h : mq_repr (skynet_mq_create h) [].
Proof.
  split; simpl; unfold DEFAULT_QUEUE_SIZE, MQ_OVERLOAD, INT_MAX; try done.
  exists 6. split; [lia|done].
Qed.

Lemma repr_nil_iff q l : mq_repr q l → (head q = tail q ↔ l = []).
Proof.
  intros H. pose proof (repr_cap _ _ H). pose proof (repr_head _ _ H) as Hh.
  pose proof (repr_room _ _ H). rewrite (repr_tail _ _ H). split.
  - intros E. assert (zlen l = 0) as E0.
    { apply (ring_index_inj (head q) (zlen l) 0 (cap q)); [split; auto with csem|lia|].
      rewrite Z.add_0_r, (Z.mod_small (head q)) by lia. congruence. }
    destruct l; [done|unfold zlen in E0; simpl in E0; lia].
  - intros ->. rewrite Z.add_0_r, Z.mod_small by lia. done.
Qed.

Lemma repr_length q l : mq_repr q l → skynet_mq_length q = zlen l.
Proof.
  intros H. unfold skynet_mq_length. pose proof (repr_head _ _ H).
  pose proof (ring_distance (head q) (zlen l) (cap q)) as D.
  rewrite (repr_tail _ _ H). simpl in D.
  repeat case_decide; rewrite <- D at 2; auto with csem; try lia;
    split; auto with csem.
Qed.

(** *** Popping *)

Lemma overload_loop_spec fuel len ov th :
  1 ≤ th → len ≤ 2 ^ 30 → len ≤ th * 2 ^ (Z.of_nat fuel) → th ≤ INT_MAX →
  ∃ ov' th', overload_loop fuel len ov th = Ok (ov', th') ∧
    1 ≤ th' ≤ INT_MAX ∧ len ≤ th' ∧
    (ov' = if decide (th < len) then len else ov).
Proof.
  revert ov th. induction fuel as [|f IH]; intros ov th H1 Hl Hf Hm; simpl.
  - change (2 ^ Z.of_nat 0) with 1 in Hf. rewrite decide_False by lia.
    exists ov, th. rewrite ?decide_False by lia. eauto with lia.
  - case_decide as Hd.
    + rewrite c_int_Ok by (unfold INT_MIN, INT_MAX; lia). rewrite bind_Ok.
      destruct (IH len (th * 2)) as (ov' & th' & -> & ? & ? & ->); try lia.
      { rewrite Nat2Z.inj_succ, Z.pow_succ_r in Hf by lia. lia. }
      { unfold INT_MAX. lia. }
      eexists _, _. split; [done|]. split; [done|]. split; [done|].
      by case_decide.
    + exists ov, th. rewrite ?decide_False by lia. eauto with lia.
Qed.

(** What a successful pop leaves: the ring without its oldest message and, when
    the rest is longer than the threshold, the overload figure. *)
Lemma pop_cons q m l :
  mq_repr q (m :: l) →
  ∃ q', skynet_mq_pop q = Ok (0, Some m, q') ∧ mq_repr q' l ∧
    handle q' = handle q ∧ release q' = release q ∧
    in_global q' = in_global q ∧ next q' = next q ∧
    zlen l ≤ overload_threshold q' ∧
    overload q' = (if decide (overload_threshold q < zlen l) then zlen l else overload q).
Proof.
  intros H. pose proof (repr_cap _ _ H) as Hcap.
  pose proof H as [Hcap2 Hh Hc Hth Hroom Ht Hd].
  assert (zlen (m :: l) = zlen l + 1) as Hz by (unfold zlen; simpl; lia).
  assert (head q ≠ tail q) as Hne by (rewrite (repr_nil_iff _ _ H); done).
  unfold skynet_mq_pop. rewrite decide_True by done.
  pose proof (Hd 0%nat m eq_refl) as H0.
  rewrite Z.add_0_r, Z.mod_small in H0 by lia.
  rewrite (rd_lookup _ (head q) (Some m)) by (exact H0 || lia).
  rewrite bind_Ok. simpl of_option. rewrite bind_Ok.
  rewrite c_int_Ok by (unfold INT_MIN, INT_MAX; lia). rewrite bind_Ok.
  cbv zeta. rewrite ring_next by lia.
  set (h2 := (head q + 1) `mod` cap q).
  assert (0 ≤ h2 < cap q) as Hh2 by (apply Z.mod_pos_bound; lia).
  assert (tail q = (h2 + zlen l) `mod` cap q) as Ht2.
  { unfold h2. rewrite ring_mod_add, Ht by lia. f_equal. lia. }
  assert ((if decide (tail q - h2 < 0) then tail q - h2 + cap q else tail q - h2)
          = zlen l) as ->.
  { rewrite Ht2. apply ring_distance; [done|]. split; [apply zlen_nonneg|lia]. }
  destruct (overload_loop_spec OVERLOAD_FUEL (zlen l) (overload q) (overload_threshold q))
    as (ov' & th' & -> & ? & ? & ->); [lia|lia| |lia|].
  { change (2 ^ Z.of_nat OVERLOAD_FUEL) with 2147483648. lia. }
  rewrite bind_Ok. eexists. split; [reflexivity|]. simpl. split; [|by auto 10].
  split; simpl; auto; [lia|].
  intros i m' Hi. unfold h2. rewrite ring_mod_add by lia.
  specialize (Hd (S i) m' Hi). rewrite <- Hd. do 3 f_equal. lia.
Qed.

Lemma pop_nil q :
  mq_repr q [] →
  ∃ q', skynet_mq_pop q = Ok (1, None, q') ∧ mq_repr q' [] ∧
    handle q' = handle q ∧ release q' = release q ∧
    in_global q' = 0 ∧ next q' = next q ∧ overload_threshold q' = MQ_OVERLOAD.
Proof.
  intros H. assert (head q = tail q) as E by by apply (repr_nil_iff _ _ H).
  unfold skynet_mq_pop. rewrite decide_False by congruence.
  eexists. split; [reflexivity|]. simpl. split; [|by auto 10].
  eapply mq_repr_ext; eauto. simpl. unfold MQ_OVERLOAD, INT_MAX. lia.
Qed.

(** *** Pushing *)

Lemma expand_copy_spec q n i new :
  0 ≤ i → i + Z.of_nat n = cap q → 0 ≤ head q < cap q → cap q ≤ 2 ^ 30 →
  zlen (queue q) = cap q → cap q ≤ zlen new →
  ∃ new', expand_copy q n i new = Ok new' ∧ length new' = length new ∧
    ∀ j : nat, new' !! j =
      if decide (i ≤ Z.of_nat j < cap q)
      then queue q !! Z.to_nat ((head q + Z.of_nat j) `mod` cap q) else new !! j.
Proof.
  revert i new. induction n as [|n IH]; intros i new Hi Hin Hh Hcap Hq Hn; simpl.
  - exists new. repeat split. intros j. rewrite decide_False by lia. done.
  - rewrite c_int_Ok by (unfold INT_MIN, INT_MAX; lia). rewrite bind_Ok.
    set (k := (head q + i) `mod` cap q).
    assert (0 ≤ k < cap q) as Hk by (apply Z.mod_pos_bound; lia).
    destruct (rd_Ok (queue q) k) as [x Hx]; [lia|]. rewrite Hx, bind_Ok.
    apply rd_Ok_inv in Hx as [_ Hx].
    rewrite wr_Ok, bind_Ok by lia.
    destruct (IH (i + 1) (<[Z.to_nat i:=x]> new)) as (new' & -> & Hlen & Hnew);
      try lia; [by rewrite zlen_insert|].
    exists new'. split; [done|]. split; [by rewrite Hlen, length_insert|].
    intros j. rewrite Hnew. destruct (decide (Z.of_nat j = i)) as [<-|Hji].
    + rewrite decide_False, decide_True by lia. rewrite Nat2Z.id.
      rewrite list_lookup_insert_eq by (unfold zlen in Hn; lia). done.
    + rewrite list_lookup_insert_ne by lia.
      repeat case_decide; try done; lia.
Qed.

(** Storing at [tail] adds [m] behind [l], whether or not the ring is now full. *)
Lemma store_data q l m :
  mq_repr q l → ∀ (i : nat) m', (l ++ [m]) !! i = Some m' →
  (<[Z.to_nat (tail q) := Some m]> (queue q))
    !! Z.to_nat ((head q + Z.of_nat i) `mod` cap q) = Some (Some m').
Proof.
  intros H i m' Hi. pose proof (repr_cap _ _ H). pose proof (repr_tail_range _ _ H).
  destruct H as [_ Hh Hc _ Hroom Ht Hd].
  apply lookup_snoc_Some in Hi as [[Hi Hm]|[-> ->]].
  - rewrite list_lookup_insert_ne; [by apply Hd|]. rewrite Ht. intros E.
    pose proof (Z.mod_pos_bound (head q + zlen l) (cap q) ltac:(lia)).
    pose proof (Z.mod_pos_bound (head q + Z.of_nat i) (cap q) ltac:(lia)).
    apply (f_equal Z.of_nat) in E. rewrite !Z2Nat.id in E by lia.
    apply ring_index_inj in E; [|split; [apply zlen_nonneg|lia]|unfold zlen in *; lia].
    unfold zlen in E. lia.
  - fold (zlen l). rewrite <- Ht. rewrite list_lookup_insert_eq; [done|].
    unfold zlen in Hc. lia.
Qed.

Lemma store_tail q l :
  mq_repr q l → (tail q + 1) `mod` cap q = (head q + (zlen l + 1)) `mod` cap q.
Proof.
  intros H. pose proof (repr_cap _ _ H). rewrite (repr_tail _ _ H).
  rewrite ring_mod_add by lia. f_equal. lia.
Qed.

(** The advanced [tail] meets [head] exactly when no cell is left free. *)
Lemma store_full q l :
  mq_repr q l → (head q = (tail q + 1) `mod` cap q ↔ zlen l + 1 = cap q).
Proof.
  intros H. rewrite (store_tail _ _ H). pose proof (repr_cap _ _ H).
  destruct H as [_ Hh _ _ Hroom _ _]. pose proof (zlen_nonneg l). split.
  - intros E. destruct (decide (zlen l + 1 = cap q)) as [|Hn]; [done|].
    assert (zlen l + 1 = 0); [|lia].
    apply (ring_index_inj (head q) _ _ (cap q)); [lia|lia|].
    rewrite Z.add_0_r, (Z.mod_small (head q)) by lia. congruence.
  - intros ->. rewrite <- (Z.mod_small (head q) (cap q)) at 1 by lia.
    rewrite <- (Z.mod_add (head q) 1 (cap q)) by lia. f_equal. lia.
Qed.

(** [expand_queue] on a full ring gives a ring of twice the size with the same
    messages. *)
Lemma expand_repr q l :
  (∃ k, 6 ≤ k < 30 ∧ cap q = 2 ^ k) → 0 ≤ head q < cap q →
  zlen (queue q) = cap q → 1 ≤ overload_threshold q ≤ INT_MAX → zlen l = cap q →
  (∀ (i : nat) m, l !! i = Some m →
    queue q !! Z.to_nat ((head q + Z.of_nat i) `mod` cap q) = Some (Some m)) →
  ∃ q', expand_queue q = Ok q' ∧ mq_repr q' l ∧ handle q' = handle q ∧
    release q' = release q ∧ in_global q' = in_global q ∧ next q' = next q.
Proof.
  intros (k & Hk & Ek) Hh Hc Hth Hl Hd.
  assert (cap q * 2 = 2 ^ (k + 1)) as E2 by (rewrite Z.pow_add_r by lia; lia).
  assert (2 ^ (k + 1) ≤ 2 ^ 30) by (apply Z.pow_le_mono_r; lia).
  unfold expand_queue.
  destruct (expand_copy_spec q (Z.to_nat (cap q)) 0
    (replicate (Z.to_nat (cap q * 2)) None)) as (new & -> & Hlen & Hnew);
    rewrite ?zlen_replicate; try lia.
  rewrite bind_Ok, c_int_Ok by (unfold INT_MIN, INT_MAX; lia). simpl.
  eexists. split; [reflexivity|]. simpl. split; [|done].
  rewrite length_replicate in Hlen.
  split; simpl; auto; try (unfold zlen in *; lia).
  - exists (k + 1). split; [lia|done].
  - rewrite Hl, Z.mod_small by lia. done.
  - intros i m Hi. pose proof (lookup_lt_Some _ _ _ Hi). unfold zlen in *.
    rewrite Z.mod_small, Z.add_0_l, Nat2Z.id, Hnew by lia.
    rewrite decide_True by lia. auto.
Qed.

Lemma push_snoc q l m :
  mq_repr q l → zlen l + 1 < 2 ^ 30 →
  ∃ q', ring_push q m = Ok q' ∧ mq_repr q' (l ++ [m]) ∧
    handle q' = handle q ∧ release q' = release q ∧
    in_global q' = in_global q ∧ next q' = next q.
Proof.
  intros H Hsmall. pose proof (repr_tail_range _ _ H). pose proof (repr_cap _ _ H).
  pose proof (store_data _ _ m H) as Hd. pose proof (store_tail _ _ H) as Ht.
  pose proof (store_full _ _ H) as Hf. destruct H as [Hcap2 Hh Hc Hth Hroom _ _].
  unfold ring_push. rewrite wr_Ok by lia. rewrite bind_Ok.
  rewrite c_int_Ok by (unfold INT_MIN, INT_MAX; lia). rewrite bind_Ok.
  cbv zeta. rewrite ring_next by lia. simpl. case_decide as Hfull.
  - apply Hf in Hfull.
    match goal with |- context [expand_queue ?q] =>
      destruct (expand_repr q (l ++ [m])) as (q' & -> & Hrepr & Heq) end;
      simpl; rewrite ?zlen_insert, ?zlen_app; auto.
    + destruct Hcap2 as (k & Hk & Ek). exists k. split; [|done].
      assert (k < 30); [|lia]. apply (Z.pow_lt_mono_r_iff 2); lia.
    + exists q'. auto.
  - eexists. split; [reflexivity|]. split; [|done].
    split; simpl; rewrite ?zlen_insert, ?zlen_app; change (zlen [m]) with 1; auto.
    assert (zlen l + 1 ≠ cap q) by tauto. lia.
Qed.

(** ** The global queue refines a list of queues *)

(** The queues of a world with the link field erased: what the rest of the
    runtime can see of them. *)
Definition strip (w : world) : gmap Z message_queue := set_next None <$> mqs w.

(** [gq_repr w ids]: following [next] from [Q->head] visits exactly [ids] and
    ends at [Q->tail]; a queue outside the list has a NULL link. *)
Record gq_repr (w : world) (ids : list Z) : Prop := {
  gq_hd : gq_head w = ids !! 0%nat;
  gq_tl : gq_tail w = last ids;
  gq_nodup : NoDup ids;
  gq_link : ∀ (k : nat) i, ids !! k = Some i →
    ∃ q, mqs w !! i = Some q ∧ next q = ids !! S k;
  gq_out : ∀ i q, mqs w !! i = Some q → i ∉ ids → next q = None }.

Lemma strip_lookup w i q :
  mqs w !! i = Some q → strip w !! i = Some (set_next None q).
Proof. intros H. unfold strip. by rewrite lookup_fmap, H. Qed.
Lemma strip_lookup_inv w i q :
  strip w !! i = Some q → ∃ q0, mqs w !! i = Some q0 ∧ q = set_next None q0.
Proof. unfold strip. rewrite lookup_fmap, fmap_Some. done. Qed.
Lemma strip_put w i q : strip (put_mq w i q) = <[i := set_next None q]> (strip w).
Proof. unfold strip, put_mq. simpl. by rewrite fmap_insert. Qed.
Lemma strip_link w i q n h t :
  mqs w !! i = Some q →
  strip {| mqs := <[i := set_next n q]> (mqs w); gq_head := h; gq_tail := t |} = strip w.
Proof.
  intros H. unfold strip. simpl. rewrite fmap_insert. apply insert_id.
  by rewrite lookup_fmap, H.
Qed.
Lemma mq_repr_strip q l : mq_repr (set_next None q) l ↔ mq_repr q l.
Proof. split; intros []; split; auto. Qed.

Lemma gq_repr_init : gq_repr skynet_mq_init [].
Proof. split; simpl; auto using NoDup_nil_2; naive_solver. Qed.

(** Changing fields other than [next] keeps the list. *)
Lemma gq_repr_put w ids i q q' :
  gq_repr w ids → mqs w !! i = Some q → next q' = next q → gq_repr (put_mq w i q') ids.
Proof.
  intros [] Hi Hn. split; simpl; auto.
  - intros k j Hj. destruct (decide (i = j)) as [->|Hne].
    + exists q'. rewrite lookup_insert_eq. split; [done|].
      destruct (gq_link0 k j Hj) as (q0 & ? & ?). congruence.
    + rewrite lookup_insert_ne by done. eauto.
  - intros j q0. destruct (decide (i = j)) as [->|Hne].
    + rewrite lookup_insert_eq. intros [= <-]. rewrite Hn. eauto.
    + rewrite lookup_insert_ne by done. eauto.
Qed.

Lemma gq_repr_alloc w ids i q :
  gq_repr w ids → mqs w !! i = None → next q = None → gq_repr (put_mq w i q) ids.
Proof.
  intros [] Hi Hn. split; simpl; auto.
  - intros k j Hj. destruct (gq_link0 k j Hj) as (q0 & ? & ?).
    exists q0. rewrite lookup_insert_ne by congruence. done.
  - intros j q0. destruct (decide (i = j)) as [->|Hne].
    + rewrite lookup_insert_eq. naive_solver.
    + rewrite lookup_insert_ne by done. eauto.
Qed.

Lemma globalmq_push_spec w ids i q :
  gq_repr w ids → mqs w !! i = Some q → i ∉ ids →
  ∃ w', skynet_globalmq_push w i = Ok w' ∧ gq_repr w' (ids ++ [i]) ∧ strip w' = strip w.
Proof.
  intros [Hh Ht Hnd Hlink Hout] Hi Hni. unfold skynet_globalmq_push, get_mq.
  rewrite Hi. simpl of_option. rewrite bind_Ok.
  rewrite c_assert_true by (apply bool_decide_eq_true_2; eauto). rewrite bind_Ok.
  assert (NoDup (ids ++ [i])) as Hnd'.
  { apply NoDup_app. split; [done|]. split; [set_solver|apply NoDup_singleton]. }
  destruct (last ids) as [t|] eqn:El; rewrite Ht.
  - rewrite last_lookup in El. set (n := pred (length ids)) in El.
    assert (S n = length ids) as Hn by (apply lookup_lt_Some in El; lia).
    destruct (Hlink _ _ El) as (qt & Hqt & Hnt). rewrite Hqt. simpl.
    eexists. split; [reflexivity|]. split; [|by apply strip_link].
    assert (t ≠ i) by (intros ->; apply Hni; eapply list_elem_of_lookup_2; eauto).
    split; simpl; auto.
    + rewrite Hh. destruct ids; [done|reflexivity].
    + by rewrite last_snoc.
    + intros k j [Hj|[-> ->]]%lookup_snoc_Some.
      * destruct Hj as [Hk Hj]. destruct (decide (t = j)) as [->|Hne].
        -- rewrite lookup_insert_eq. eexists. split; [done|]. simpl.
           assert (k = n) as -> by (by eapply (NoDup_lookup ids)).
           rewrite lookup_app_r, Hn, Nat.sub_diag by lia. done.
        -- rewrite lookup_insert_ne by done. destruct (Hlink _ _ Hj) as (q0 & ? & ?).
           exists q0. split; [done|]. rewrite lookup_app_l; [done|].
           destruct (decide (k = n)) as [->|]; [congruence|lia].
      * rewrite lookup_insert_ne by done. exists q. split; [done|].
        rewrite lookup_ge_None_2 by (rewrite length_app; simpl; lia). eauto.
    + intros j q0 Hj Hjn. rewrite lookup_insert_ne in Hj; [set_solver|].
      intros ->. apply Hjn. apply elem_of_app. left. eapply list_elem_of_lookup_2; eauto.
  - apply last_None in El as ->. simpl. eexists. split; [reflexivity|].
    split; [|done]. split; simpl; auto.
    + intros [|k] j Hj; [|done]. injection Hj as <-. exists q. split; [done|].
      simpl. eauto.
    + set_solver.
Qed.

Lemma globalmq_pop_cons w i ids :
  gq_repr w (i :: ids) →
  ∃ w', skynet_globalmq_pop w = Ok (Some i, w') ∧ gq_repr w' ids ∧ strip w' = strip w.
Proof.
  intros [Hh Ht Hnd Hlink Hout]. unfold skynet_globalmq_pop. rewrite Hh. simpl.
  destruct (Hlink 0%nat i eq_refl) as (q & Hq & Hn). simpl in Hn.
  unfold get_mq. rewrite Hq. simpl. rewrite Hn.
  apply NoDup_cons in Hnd as [Hni Hnd]. 
  assert (gq_repr {| mqs := <[i := set_next None q]> (mqs w); gq_head := ids !! 0%nat;
                     gq_tail := last ids |} ids) as Hr.
  { split; simpl; auto.
    - intros k j Hj. destruct (Hlink (S k) j Hj) as (q0 & ? & ?). exists q0.
      rewrite lookup_insert_ne; [done|]. intros ->. apply Hni.
      eapply list_elem_of_lookup_2; eauto.
    - intros j q0. destruct (decide (i = j)) as [->|Hne].
      + rewrite lookup_insert_eq. by intros [= <-].
      + rewrite lookup_insert_ne by done. intros. eapply Hout; eauto. set_solver. }
  destruct ids as [|i' ids]; simpl in *.
  - rewrite Ht, bool_decide_eq_true_2 by done. simpl. eexists. split; [reflexivity|].
    split; [done|]. by apply strip_link.
  - rewrite Ht. eexists. split; [reflexivity|]. split; [done|]. by apply strip_link.
Qed.

Lemma globalmq_pop_nil w : gq_repr w [] → skynet_globalmq_pop w = Ok (None, w).
Proof. intros [Hh _ _ _ _]. unfold skynet_globalmq_pop. by rewrite Hh. Qed.

(** ** The operations on the heap *)

Lemma get_strip w i q :
  strip w !! i = Some q →
  ∃ q0, get_mq w i = Ok q0 ∧ mqs w !! i = Some q0 ∧ q = set_next None q0.
Proof.
  intros (q0 & Hq0 & ->)%strip_lookup_inv. exists q0. unfold get_mq. by rewrite Hq0.
Qed.

(** A push appends to the queue it names and, when the queue was idle, links it
    into the global queue. *)
Lemma mq_push_spec w ids i q l m :
  gq_repr w ids → strip w !! i = Some q → mq_repr q l → zlen l + 1 < 2 ^ 30 →
  (in_global q = 0 → i ∉ ids) →
  ∃ w' q', skynet_mq_push w i m = Ok w' ∧ strip w' = <[i := q']> (strip w) ∧
    gq_repr w' (if decide (in_global q = 0) then ids ++ [i] else ids) ∧
    mq_repr q' (l ++ [m]) ∧ handle q' = handle q ∧ release q' = release q ∧
    in_global q' = (if decide (in_global q = 0) then MQ_IN_GLOBAL else in_global q).
Proof.
  intros Hg Hq Hl Hs Hig. destruct (get_strip _ _ _ Hq) as (q0 & Hget & Hm & ->).
  apply (proj1 (mq_repr_strip _ _)) in Hl. unfold skynet_mq_push. rewrite Hget, bind_Ok.
  destruct (push_snoc _ _ m Hl Hs) as (q1 & -> & Hr1 & Hh1 & Hre1 & Hig1 & Hn1).
  rewrite bind_Ok, Hig1. simpl in *. case_decide as Hd.
  - set (q2 := set_in_global MQ_IN_GLOBAL q1). set (w1 := put_mq w i q2).
    destruct (globalmq_push_spec w1 ids i q2) as (w' & -> & Hg' & Hs').
    + by apply gq_repr_put with q0.
    + simpl. apply lookup_insert_eq.
    + auto.
    + exists w', (set_next None q2). rewrite Hs'. unfold w1. rewrite strip_put.
      split; [done|]. split; [done|]. split; [done|]. split; [|done].
      destruct Hr1. by split.
  - eexists _, (set_next None q1). split; [done|]. rewrite strip_put.
    split; [done|]. split; [by apply gq_repr_put with q0|].
    split; [by apply mq_repr_strip|]. done.
Qed.

Lemma world_pop_spec w ids i q l :
  gq_repr w ids → strip w !! i = Some q → mq_repr q l →
  ∃ w' q', world_pop w i = Ok (l !! 0%nat, w') ∧ strip w' = <[i := q']> (strip w) ∧
    gq_repr w' ids ∧ mq_repr q' (drop 1 l) ∧ handle q' = handle q ∧ release q' = release q ∧
    in_global q' = match l with [] => 0 | _ => in_global q end.
Proof.
  intros Hg Hq Hl. destruct (get_strip _ _ _ Hq) as (q0 & Hget & Hm & ->).
  apply (proj1 (mq_repr_strip _ _)) in Hl. unfold world_pop. rewrite Hget, bind_Ok.
  destruct l as [|m l].
  - destruct (pop_nil _ Hl) as (q1 & -> & Hr & ? & ? & ? & ? & ?). simpl.
    eexists _, (set_next None q1). split; [done|]. rewrite strip_put.
    split; [done|]. split; [by apply gq_repr_put with q0|].
    split; [by apply mq_repr_strip|]. done.
  - destruct (pop_cons _ _ _ Hl) as (q1 & -> & Hr & ? & ? & ? & ? & _). simpl.
    eexists _, (set_next None q1). split; [done|]. rewrite strip_put.
    split; [done|]. split; [by apply gq_repr_put with q0|].
    split; [by apply mq_repr_strip|]. done.
Qed.

Lemma mark_release_spec w ids i q :
  gq_repr w ids → strip w !! i = Some q → release q = 0 →
  (in_global q ≠ MQ_IN_GLOBAL → i ∉ ids) →
  ∃ w', skynet_mq_mark_release w i = Ok w' ∧
    strip w' = <[i := set_release 1 q]> (strip w) ∧
    gq_repr w' (if decide (in_global q ≠ MQ_IN_GLOBAL) then ids ++ [i] else ids).
Proof.
  intros Hg Hq Hr Hni. destruct (get_strip _ _ _ Hq) as (q0 & Hget & Hm & ->).
  unfold skynet_mq_mark_release. rewrite Hget, bind_Ok. simpl in *.
  rewrite c_assert_true by (by apply bool_decide_eq_true_2). rewrite bind_Ok.
  assert (gq_repr (put_mq w i (set_release 1 q0)) ids) as Hg1
    by (by apply gq_repr_put with q0).
  case_decide as Hd.
  - destruct (globalmq_push_spec _ ids i (set_release 1 q0) Hg1) as (w' & -> & Hg' & Hs');
      [apply lookup_insert_eq|auto|].
    exists w'. rewrite Hs', strip_put. done.
  - eexists. split; [done|]. rewrite strip_put. done.
Qed.

Lemma mq_free_spec w ids i q :
  gq_repr w ids → strip w !! i = Some q → i ∉ ids →
  ∃ w', mq_free w i = Ok w' ∧ strip w' = delete i (strip w) ∧ gq_repr w' ids.
Proof.
  intros Hg Hq Hni. destruct (get_strip _ _ _ Hq) as (q0 & Hget & Hm & ->).
  unfold mq_free. rewrite Hget, bind_Ok.
  rewrite c_assert_true by (apply bool_decide_eq_true_2; by eapply gq_out). simpl.
  eexists. split; [done|]. split; [unfold strip; simpl; by rewrite fmap_delete|].
  destruct Hg. split; simpl; auto.
  - intros k j Hj. destruct (gq_link0 k j Hj) as (q1 & ? & ?). exists q1.
    rewrite lookup_delete_ne; [done|]. intros ->. apply Hni.
    eapply list_elem_of_lookup_2; eauto.
  - intros j q1 [_ ?]%lookup_delete_Some. eauto.
Qed.

(** Draining hands every message to [drop_func], oldest first, and frees the
    queue. *)
Lemma drop_queue_spec fuel w ids i q l acc :
  gq_repr w ids → strip w !! i = Some q → mq_repr q l → i ∉ ids →
  (length l < fuel)%nat →
  ∃ w', drop_queue fuel w i acc = Ok (acc ++ l, w') ∧
    strip w' = delete i (strip w) ∧ gq_repr w' ids.
Proof.
  revert w q l acc. induction fuel as [|f IH]; intros w q l acc Hg Hq Hl Hni Hf; [lia|].
  simpl. destruct (world_pop_spec _ _ _ _ _ Hg Hq Hl)
    as (w1 & q1 & -> & Hs1 & Hg1 & Hl1 & _).
  rewrite bind_Ok. simpl. assert (strip w1 !! i = Some q1) as Hq1
    by (rewrite Hs1; apply lookup_insert_eq).
  destruct l as [|m l]; simpl in *.
  - destruct (mq_free_spec _ _ _ _ Hg1 Hq1 Hni) as (w' & -> & Hs' & Hg').
    rewrite bind_Ok, app_nil_r. exists w'. rewrite Hs', Hs1, delete_insert_eq. done.
  - destruct (IH w1 q1 l (acc ++ [m]) Hg1 Hq1 Hl1 Hni ltac:(lia)) as (w' & -> & Hs' & Hg').
    exists w'. rewrite <- app_assoc. rewrite Hs', Hs1, delete_insert_eq. done.
Qed.

Lemma mq_release_spec w ids i q l :
  gq_repr w ids → strip w !! i = Some q → mq_repr q l → i ∉ ids →
  ∃ w', skynet_mq_release w i = Ok (if decide (release q ≠ 0) then l else [], w') ∧
    strip w' = (if decide (release q ≠ 0) then delete i (strip w) else strip w) ∧
    gq_repr w' (if decide (release q ≠ 0) then ids else ids ++ [i]).
Proof.
  intros Hg Hq Hl Hni. destruct (get_strip _ _ _ Hq) as (q0 & Hget & Hm & E).
  assert (release q = release q0) as Hre by by rewrite E.
  assert (skynet_mq_length q0 = zlen l) as Hlen.
  { apply repr_length. rewrite E in Hl. by apply mq_repr_strip. }
  unfold skynet_mq_release. rewrite Hget, bind_Ok, Hlen, <- Hre. case_decide as Hd.
  - destruct (drop_queue_spec (S (Z.to_nat (zlen l))) _ _ _ _ _ [] Hg Hq Hl Hni)
      as (w' & -> & ? & ?); [unfold zlen; lia|]. by exists w'.
  - destruct (globalmq_push_spec _ _ _ _ Hg Hm Hni) as (w' & -> & ? & ?).
    rewrite bind_Ok. by exists w'.
Qed.

(** ** Properties *)

(** Sequences of calls on one queue, and the same calls on a list. *)
Inductive rop : Type := RPush (m : skynet_message) | RPop.

Fixpoint run_ring (q : message_queue) (ops : list rop) :
    result (list (option skynet_message) * message_queue) :=
  match ops with
  | [] => Ok ([], q)
  | RPush m :: ops => q' ← ring_push q m; run_ring q' ops
  | RPop :: ops =>
      r ← skynet_mq_pop q; rest ← run_ring r.2 ops; Ok (r.1.2 :: rest.1, rest.2)
  end.

Fixpoint run_fifo (l : list skynet_message) (ops : list rop) :
    list (option skynet_message) * list skynet_message :=
  match ops with
  | [] => ([], l)
  | RPush m :: ops => run_fifo (l ++ [m]) ops
  | RPop :: ops => let rest := run_fifo (drop 1 l) ops in (l !! 0%nat :: rest.1, rest.2)
  end.

Lemma run_ring_fifo ops q l :
  mq_repr q l → zlen l + zlen ops < 2 ^ 30 →
  ∃ q', run_ring q ops = Ok ((run_fifo l ops).1, q') ∧
    mq_repr q' (run_fifo l ops).2 ∧ skynet_mq_length q' = zlen (run_fifo l ops).2.
Proof.
  revert q l. induction ops as [|o ops IH]; intros q l H Hn.
  - exists q. split; [done|]. split; [done|]. by apply repr_length.
  - assert (zlen (o :: ops) = zlen ops + 1) as E by (unfold zlen; simpl; lia).
    pose proof (zlen_nonneg ops). destruct o as [m|]; simpl.
    + destruct (push_snoc _ _ m H) as (q1 & -> & H1 & _); [lia|]. rewrite bind_Ok.
      apply IH; [done|]. rewrite zlen_app. change (zlen [m]) with 1. lia.
    + destruct l as [|m l].
      * destruct (pop_nil _ H) as (q1 & -> & H1 & _). rewrite bind_Ok. simpl.
        destruct (IH q1 [] H1) as (q' & -> & ? & ?); [lia|]. by exists q'.
      * destruct (pop_cons _ _ _ H) as (q1 & -> & H1 & _). rewrite bind_Ok. simpl.
        rewrite drop_0. destruct (IH q1 l H1) as (q' & -> & ? & ?).
        { unfold zlen in *. simpl in *. lia. }
        by exists q'.
Qed.

(** C2: the growing ring buffer of a queue is a FIFO. Any sequence of fewer than
    2^30 pushes and pops on a fresh queue runs without failure, every pop returns
    what a list-based FIFO returns, across any number of buffer expansions, and the
    reported length is the number of waiting messages. *)
Theorem ring_refines_fifo h ops :
  zlen ops < 2 ^ 30 →
  ∃ q', run_ring (skynet_mq_create h) ops = Ok ((run_fifo [] ops).1, q') ∧
    mq_repr q' (run_fifo [] ops).2 ∧ skynet_mq_length q' = zlen (run_fifo [] ops).2.
Proof. intros H. apply run_ring_fifo; [apply mq_repr_create|done]. Qed.

Lemma ring_refines_fifo_witness :
  let m k := {| source := k; session := 0; data := 0; sz := 0 |} in
  let ops := RPop :: RPush (m 1) :: RPush (m 2) :: RPop :: nil in
  run_ring (skynet_mq_create 7) ops ≠ Err OutOfFuel ∧
  (run_fifo [] ops).1 = [None; Some (m 1)].
Proof.
  intros m ops. split; [|reflexivity].
  destruct (ring_refines_fifo 7 ops) as (q' & -> & _); [reflexivity|discriminate].
Defined.

(** Overload accounting. A pop that leaves more messages than the threshold
    reports exactly the remaining length as the overload figure, reading the
    figure clears it, and afterwards the threshold is at least that length, so
    the same backlog is reported once. *)
Theorem overload_reported_once q m l :
  mq_repr q (m :: l) → overload_threshold q < zlen l →
  ∃ q', skynet_mq_pop q = Ok (0, Some m, q') ∧
    (skynet_mq_overload q').1 = zlen l ∧
    (skynet_mq_overload (skynet_mq_overload q').2).1 = 0 ∧
    zlen l ≤ overload_threshold q'.
Proof.
  intros H Hth. destruct (pop_cons _ _ _ H) as (q' & -> & _ & _ & _ & _ & _ & Hle & Hov).
  exists q'. split; [done|]. rewrite decide_True in Hov by done.
  pose proof (repr_threshold _ _ H). unfold skynet_mq_overload. rewrite Hov.
  rewrite decide_True by lia. done.
Qed.

(** A queue of 1026 messages: 65 to 1026 entered through expansions. *)
Definition backlog (n : nat) : result message_queue :=
  r ← run_ring (skynet_mq_create 1)
        (replicate n (RPush {| source := 1; session := 1; data := 0; sz := 0 |}));
  Ok r.2.

Lemma overload_reported_once_witness :
  ∃ q, backlog 1026 = Ok q ∧ ∃ q', skynet_mq_pop q
    = Ok (0, Some {| source := 1; session := 1; data := 0; sz := 0 |}, q') ∧
    (skynet_mq_overload q').1 = 1025.
Proof.
  set (m := {| source := 1; session := 1; data := 0; sz := 0 |}).
  destruct (run_ring_fifo (replicate 1026 (RPush m)) (skynet_mq_create 1) []
    (mq_repr_create 1)) as (q & E & H & _); [vm_compute; reflexivity|].
  exists q. split; [unfold backlog; fold m; rewrite E; reflexivity|].
  assert ((run_fifo [] (replicate 1026 (RPush m))).2 = m :: replicate 1025 m) as El
    by (vm_compute; reflexivity).
  rewrite El in H.
  assert (overload_threshold q = 1024) as Eth.
  { transitivity (match backlog 1026 with Ok q => overload_threshold q | _ => 0 end);
      [unfold backlog; fold m; rewrite E; reflexivity|vm_compute; reflexivity]. }
  destruct (overload_reported_once q m (replicate 1025 m) H) as (q' & Ep & Eo & _).
  - rewrite Eth, zlen_replicate. lia.
  - exists q'. rewrite zlen_replicate in Eo. split; [exact Ep|exact Eo].
Defined.

(** Releasing a queue. When the worker that owns a queue finds its context
    gone, a queue already marked for release is drained, every remaining message
    going to [drop_func] oldest first, and leaves the heap; a queue not yet
    marked goes back to the end of the global queue with its messages. *)
Theorem release_drains_or_requeues w ids i q l :
  gq_repr w ids → strip w !! i = Some q → mq_repr q l → i ∉ ids →
  ∃ w', skynet_mq_release w i = Ok (if decide (release q ≠ 0) then l else [], w') ∧
    strip w' = (if decide (release q ≠ 0) then delete i (strip w) else strip w) ∧
    gq_repr w' (if decide (release q ≠ 0) then ids else ids ++ [i]).
Proof. apply mq_release_spec. Qed.

Lemma release_drains_or_requeues_witness :
  let w0 := put_mq skynet_mq_init 5 (set_release 1 (skynet_mq_create 9)) in
  ∃ w', skynet_mq_release w0 5 = Ok ([], w') ∧ strip w' !! 5 = None.
Proof.
  intros w0. assert (gq_repr w0 []) as Hg by (apply gq_repr_alloc; [apply gq_repr_init|done|done]).
  destruct (release_drains_or_requeues w0 [] 5 (set_release 1 (skynet_mq_create 9)) [] Hg)
    as (w' & E & Hs & _).
  - reflexivity.
  - pose proof (mq_repr_create 9) as []. by split.
  - apply not_elem_of_nil.
  - simpl in E, Hs. exists w'. split; [done|]. rewrite Hs. apply lookup_delete_eq.
Defined.
