(* ===== verification/Sched.v ===== *)
(** * Scheduling of message queues between threads

    Every exported function of skynet-src/skynet_mq.c is atomic: it runs under
    the queue's spinlock (and the global queue's, nested). This file interleaves
    them the way skynet-src/skynet_server.c calls them from many threads: a
    context being created, senders, worker threads that take a queue from the
    global queue, and the last reference to a context going away. *)
From stdpp Require Import functions base list numbers gmap.
From S2P Require Import Prelude Mq.

(** [alive]: queues whose context still has a reference, so that a sender can
    reach them. [held]: queues a thread has in hand: a worker between taking a
    queue and giving it up, or the creating thread before it publishes the
    queue. [pushed] and [popped] are the histories of each queue. *)
Record sys : Type := mk_sys {
  w : world;
  alive : gset Z;
  held : list Z;
  pushed : Z → list skynet_message;
  popped : Z → list skynet_message }.

Inductive op : Type :=
| OCreate (i h : Z)                    (* skynet_context_new: skynet_mq_create *)
| OPublish (i : Z)                     (* skynet_globalmq_push by the holder *)
| OPush (i : Z) (m : skynet_message)   (* skynet_mq_push by any sender *)
| OTake                                (* skynet_globalmq_pop by a worker *)
| OPop (i : Z)                         (* skynet_mq_pop by the holder *)
| OMarkRelease (i : Z)                 (* delete_context: skynet_mq_mark_release *)
| ORelease (i : Z).                    (* the holder found no context: skynet_mq_release *)

(** Drop one occurrence of a queue from the hands of the threads. *)
Fixpoint unhold (i : Z) (l : list Z) : list Z :=
  match l with
  | [] => []
  | j :: l => if decide (i = j) then l else j :: unhold i l
  end.

Definition exec (s : sys) (o : op) : result sys :=
  match o with
  | OCreate i h =>
      Ok {| w := put_mq (w s) i (skynet_mq_create h); alive := {[ i ]} ∪ alive s;
            held := i :: held s; pushed := <[i := []]> (pushed s);
            popped := <[i := []]> (popped s) |}
  | OPublish i =>
      w' ← skynet_globalmq_push (w s) i;
      Ok {| w := w'; alive := alive s; held := unhold i (held s);
            pushed := pushed s; popped := popped s |}
  | OPush i m =>
      w' ← skynet_mq_push (w s) i m;
      Ok {| w := w'; alive := alive s; held := held s;
            pushed := <[i := pushed s i ++ [m]]> (pushed s); popped := popped s |}
  | OTake =>
      r ← skynet_globalmq_pop (w s);
      Ok {| w := r.2; alive := alive s;
            held := match r.1 with Some i => i :: held s | None => held s end;
            pushed := pushed s; popped := popped s |}
  | OPop i =>
      r ← world_pop (w s) i;
      Ok {| w := r.2; alive := alive s;
            held := match r.1 with Some _ => held s | None => unhold i (held s) end;
            pushed := pushed s;
            popped := match r.1 with
                      | Some m => <[i := popped s i ++ [m]]> (popped s)
                      | None => popped s end |}
  | OMarkRelease i =>
      w' ← skynet_mq_mark_release (w s) i;
      Ok {| w := w'; alive := alive s ∖ {[ i ]}; held := held s;
            pushed := pushed s; popped := popped s |}
  | ORelease i =>
      r ← skynet_mq_release (w s) i;
      Ok {| w := r.2; alive := alive s; held := unhold i (held s);
            pushed := pushed s;
            popped := <[i := popped s i ++ r.1]> (popped s) |}
  end.

(** When the program performs an operation. A queue address is fresh when it is
    created; a sender needs a live context and fewer than 2^30 - 1 queued
    messages; only the holder pops, publishes or releases; a context dies once. *)
Definition enabled (s : sys) (o : op) : Prop :=
  match o with
  | OCreate i _ => mqs (w s) !! i = None
  | OPublish i => i ∈ held s
  | OPush i _ => i ∈ alive s ∧
      ∃ q, mqs (w s) !! i = Some q ∧ skynet_mq_length q + 1 < 2 ^ 30
  | OTake => True
  | OPop i => i ∈ held s ∧ i ∈ alive s
  | OMarkRelease i => i ∈ alive s
  | ORelease i => i ∈ held s
  end.

Definition init_sys : sys :=
  {| w := skynet_mq_init; alive := ∅; held := []; pushed := λ _, []; popped := λ _, [] |}.

Inductive reachable : sys → Prop :=
| reach_init : reachable init_sys
| reach_step s o s' :
    reachable s → enabled s o → exec s o = Ok s' → reachable s'.

(** What the scheduler keeps of one queue, given the queues [pl] that are in the
    global queue or in a thread's hands. *)
Definition queue_ok (s : sys) (pl : list Z) (i : Z) (q : message_queue) : Prop :=
  ∃ l, mq_repr q l ∧ pushed s i = popped s i ++ l ∧
    if decide (i ∈ alive s) then
      release q = 0 ∧
      ((in_global q = MQ_IN_GLOBAL ∧ i ∈ pl) ∨ (in_global q = 0 ∧ i ∉ pl ∧ l = []))
    else release q = 1 ∧ i ∈ pl.

Record sched_inv (s : sys) (ids : list Z) : Prop := {
  si_gq : gq_repr (w s) ids;
  si_nodup : NoDup (ids ++ held s);
  si_dom : ∀ i, i ∈ ids ++ held s ∨ i ∈ alive s → is_Some (strip (w s) !! i);
  si_q : ∀ i q, strip (w s) !! i = Some q → queue_ok s (ids ++ held s) i q }.

(** ** Helper lemmas *)

Lemma elem_of_unhold i j l : NoDup l → (j ∈ unhold i l ↔ j ∈ l ∧ j ≠ i).
Proof.
  induction 1 as [|k l Hk Hnd IH]; simpl; [set_solver|].
  case_decide; subst; set_solver.
Qed.
Lemma NoDup_unhold i l : NoDup l → NoDup (unhold i l).
Proof.
  induction 1 as [|k l Hk Hnd IH]; simpl; [constructor|]. case_decide; [done|].
  constructor; [|done]. rewrite elem_of_unhold by done. tauto.
Qed.

(** Moving a held queue to the end of the global queue. *)
Lemma publish_nodup ids i l :
  NoDup (ids ++ l) → i ∈ l → NoDup ((ids ++ [i]) ++ unhold i l).
Proof.
  intros (H1 & H2 & H3)%NoDup_app Hi. rewrite <- app_assoc. apply NoDup_app.
  split; [done|]. split.
  - intros x Hx [->%list_elem_of_singleton|Hu]%elem_of_app; [by apply (H2 i)|].
    apply elem_of_unhold in Hu as [? _]; [|done]. by apply (H2 x).
  - apply NoDup_app. split; [apply NoDup_singleton|]. split; [|by apply NoDup_unhold].
    intros x ->%list_elem_of_singleton. rewrite elem_of_unhold by done. tauto.
Qed.
Lemma publish_elem ids i l j :
  NoDup (ids ++ l) → i ∈ l → (j ∈ (ids ++ [i]) ++ unhold i l ↔ j ∈ ids ++ l).
Proof.
  intros (H1 & H2 & H3)%NoDup_app Hi.
  rewrite !elem_of_app, list_elem_of_singleton, elem_of_unhold by done.
  destruct (decide (j = i)) as [->|]; tauto.
Qed.
Lemma unhold_nodup ids i l : NoDup (ids ++ l) → NoDup (ids ++ unhold i l).
Proof.
  intros (H1 & H2 & H3)%NoDup_app. apply NoDup_app. split; [done|].
  split; [|by apply NoDup_unhold]. intros x Hx. rewrite elem_of_unhold by done.
  intros [? _]. by apply (H2 x).
Qed.
Lemma held_not_ids (ids : list Z) i l : NoDup (ids ++ l) → i ∈ l → i ∉ ids.
Proof. intros (_ & H & _)%NoDup_app Hi Hx. by apply (H i). Qed.
Lemma unhold_elem ids i l j :
  NoDup (ids ++ l) → i ∈ l → (j ∈ ids ++ unhold i l ↔ j ∈ ids ++ l ∧ j ≠ i).
Proof.
  intros Hnd Hi. pose proof (held_not_ids _ _ _ Hnd Hi). apply NoDup_app in Hnd.
  rewrite !elem_of_app, elem_of_unhold by tauto.
  destruct (decide (j = i)) as [->|]; tauto.
Qed.

(** A queue's clause does not depend on the order of the placement list. *)
Lemma queue_ok_iff s s' pl pl' i q :
  queue_ok s pl i q → (i ∈ pl' ↔ i ∈ pl) → (i ∈ alive s' ↔ i ∈ alive s) →
  pushed s' i = pushed s i → popped s' i = popped s i → queue_ok s' pl' i q.
Proof.
  intros (l & Hr & Hh & Hc) Hpl Ha Hpu Hpo. exists l. rewrite Hpu, Hpo.
  split; [done|]. split; [done|]. repeat case_decide; try tauto; rewrite ?Hpl; tauto.
Qed.

Section Preservation.
Context (s : sys) (ids : list Z) (I : sched_inv s ids).

Let Hgq := si_gq _ _ I.
Let Hnd := si_nodup _ _ I.

Lemma held_strip i : i ∈ held s → ∃ q, strip (w s) !! i = Some q.
Proof. intros. apply (si_dom _ _ I). left. set_solver. Qed.
Lemma alive_strip i : i ∈ alive s → ∃ q, strip (w s) !! i = Some q.
Proof. intros. apply (si_dom _ _ I). by right. Qed.

Lemma create_ok i h :
  enabled s (OCreate i h) → ∃ s', exec s (OCreate i h) = Ok s' ∧ sched_inv s' ids.
Proof.
  intros Hf. simpl in Hf. eexists. split; [reflexivity|].
  assert (strip (w s) !! i = None) as Hn by (unfold strip; by rewrite lookup_fmap, Hf).
  assert (∀ j, j ∈ ids ++ held s ∨ j ∈ alive s → j ≠ i) as Hfresh.
  { intros j [q Hj]%(si_dom _ _ I) ->. congruence. }
  split; simpl.
  - by apply gq_repr_alloc.
  - rewrite <- Permutation_middle. constructor; [|done].
    intros Hi. by apply (Hfresh i); [left|].
  - intros j Hj. rewrite strip_put. destruct (decide (j = i)) as [->|Hne].
    + rewrite lookup_insert_eq. eauto.
    + rewrite lookup_insert_ne by done. apply (si_dom _ _ I). set_solver.
  - intros j q. rewrite strip_put. destruct (decide (j = i)) as [->|Hne].
    + rewrite lookup_insert_eq. intros [= <-]. exists [].
      simpl. rewrite !fn_lookup_insert.
      split; [apply mq_repr_strip, mq_repr_create|]. split; [done|].
      rewrite decide_True by set_solver. split; [done|]. left. set_solver.
    + rewrite lookup_insert_ne by done. intros Hq%(si_q _ _ I).
      eapply queue_ok_iff; simpl; eauto;
        rewrite ?fn_lookup_insert_ne by done; set_solver.
Qed.

Lemma publish_ok i :
  enabled s (OPublish i) → ∃ s' ids', exec s (OPublish i) = Ok s' ∧ sched_inv s' ids'.
Proof.
  simpl. intros Hi. destruct (held_strip _ Hi) as [q (q0 & Hq0 & _)%strip_lookup_inv].
  destruct (globalmq_push_spec _ _ _ _ Hgq Hq0 (held_not_ids _ _ _ Hnd Hi))
    as (w' & -> & Hg' & Hs').
  eexists _, (ids ++ [i]). split; [reflexivity|]. split; simpl; [done|..].
  - by apply publish_nodup.
  - intros j. rewrite (publish_elem ids i) by done. rewrite Hs'. apply (si_dom _ _ I).
  - intros j q1. rewrite Hs'. intros Hq%(si_q _ _ I).
    eapply queue_ok_iff; eauto. by apply publish_elem.
Qed.

Lemma take_ok : ∃ s' ids', exec s OTake = Ok s' ∧ sched_inv s' ids'.
Proof.
  simpl. destruct ids as [|i ids'] eqn:E; rewrite <- E in *.
  - rewrite globalmq_pop_nil by (by rewrite <- E). eexists _, ids.
    split; [reflexivity|]. by split; destruct I.
  - destruct (globalmq_pop_cons (w s) i ids') as (w' & -> & Hg' & Hs'); [by rewrite <- E|].
    assert (∀ j, j ∈ ids' ++ i :: held s ↔ j ∈ ids ++ held s) as Hpl by set_solver.
    eexists _, ids'. split; [reflexivity|]. split; simpl; [done|..].
    + rewrite <- Permutation_middle, app_comm_cons, <- E. done.
    + intros j. rewrite Hpl, Hs'. apply (si_dom _ _ I).
    + intros j q. rewrite Hs'. intros Hq%(si_q _ _ I).
      eapply queue_ok_iff; eauto.
Qed.

(** The effect of an operation on one live queue [i] that ends with
    placement list [pl']. *)
Lemma alive_queue i :
  i ∈ alive s → ∃ q l, strip (w s) !! i = Some q ∧ mq_repr q l ∧
    pushed s i = popped s i ++ l ∧ release q = 0 ∧
    ((in_global q = MQ_IN_GLOBAL ∧ i ∈ ids ++ held s) ∨
     (in_global q = 0 ∧ i ∉ ids ++ held s ∧ l = [])).
Proof.
  intros Ha. destruct (alive_strip _ Ha) as [q Hq].
  destruct (si_q _ _ I _ _ Hq) as (l & Hr & Hh & Hc).
  rewrite decide_True in Hc by done. destruct Hc. eauto 10.
Qed.

Lemma push_ok i m :
  enabled s (OPush i m) → ∃ s' ids', exec s (OPush i m) = Ok s' ∧ sched_inv s' ids'.
Proof.
  simpl. intros [Ha (q0 & Hq0 & Hlen)].
  destruct (alive_queue _ Ha) as (q & l & Hq & Hr & Hh & Hre & Hst).
  assert (skynet_mq_length q0 = zlen l) as El.
  { apply repr_length. apply strip_lookup in Hq0. rewrite Hq in Hq0.
    injection Hq0 as ->. by apply (proj1 (mq_repr_strip _ _)). }
  destruct (mq_push_spec (w s) ids i q l m Hgq Hq Hr)
    as (w' & q' & -> & Hs' & Hg' & Hr' & _ & Hre' & Hig'); [lia|..].
  { intros E0 Hi. destruct Hst as [[E1 _]|(_ & Hni & _)]; [|set_solver].
    unfold MQ_IN_GLOBAL in E1. lia. }
  set (ids' := if decide (in_global q = 0) then ids ++ [i] else ids) in *.
  assert (∀ j, j ∈ ids' ++ held s ↔ j ∈ ids ++ held s ∨ j = i) as Hpl.
  { intros j. unfold ids'. case_decide; [set_solver|].
    destruct Hst as [[_ ?]|[? _]]; [|done]. set_solver. }
  eexists _, ids'. split; [reflexivity|]. split; simpl; [done|..].
  - unfold ids'. case_decide as Hd; [|done]. rewrite <- app_assoc. simpl.
    rewrite <- Permutation_middle. constructor; [|done].
    destruct Hst as [[E1 _]|(_ & Hni & _)]; [unfold MQ_IN_GLOBAL in E1; lia|done].
  - intros j. rewrite Hpl, Hs'. destruct (decide (j = i)) as [->|Hne].
    + rewrite lookup_insert_eq. eauto.
    + rewrite lookup_insert_ne by done. intros Hj. apply (si_dom _ _ I). tauto.
  - intros j q1. rewrite Hs'. destruct (decide (j = i)) as [->|Hne].
    + rewrite lookup_insert_eq. intros [= <-]. exists (l ++ [m]).
      simpl. rewrite fn_lookup_insert, Hh, app_assoc. split; [done|]. split; [done|].
      rewrite decide_True by done. split; [congruence|]. left.
      rewrite Hpl, Hig'. split; [|by right]. case_decide; [done|].
      destruct Hst as [[? _]|[? _]]; done.
    + rewrite lookup_insert_ne by done. intros Hq1%(si_q _ _ I).
      eapply queue_ok_iff; simpl; eauto; [rewrite Hpl; tauto|].
      by rewrite fn_lookup_insert_ne.
Qed.

Lemma pop_ok i :
  enabled s (OPop i) → ∃ s' ids', exec s (OPop i) = Ok s' ∧ sched_inv s' ids'.
Proof.
  simpl. intros [Hi Ha].
  destruct (alive_queue _ Ha) as (q & l & Hq & Hr & Hh & Hre & Hst).
  destruct Hst as [[Hig _]|(_ & Hni & _)]; [|set_solver].
  destruct (world_pop_spec (w s) ids i q l Hgq Hq Hr)
    as (w' & q' & -> & Hs' & Hg' & Hr' & _ & Hre' & Hig').
  eexists _, ids. split; [reflexivity|].
  assert (∀ j, is_Some (strip (w s) !! j) → is_Some (strip w' !! j)) as Hdom.
  { intros j. rewrite Hs', lookup_insert. case_decide; eauto. }
  destruct l as [|m l]; simpl in *.
  - split; simpl; [done|by apply unhold_nodup|..].
    + intros j. rewrite (unhold_elem ids i) by done. intros Hj.
      apply Hdom, (si_dom _ _ I). tauto.
    + intros j q1. rewrite Hs'. destruct (decide (j = i)) as [->|Hne].
      * rewrite lookup_insert_eq. intros [= <-]. exists []. simpl.
        split; [done|]. split; [done|]. rewrite decide_True by done.
        split; [congruence|]. right. rewrite (unhold_elem ids i) by done. tauto.
      * rewrite lookup_insert_ne by done. intros Hq1%(si_q _ _ I).
        eapply queue_ok_iff; simpl; eauto. rewrite (unhold_elem ids i) by done. tauto.
  - split; simpl; [done|done|..].
    + intros j Hj. apply Hdom, (si_dom _ _ I). tauto.
    + intros j q1. rewrite Hs'. destruct (decide (j = i)) as [->|Hne].
      * rewrite lookup_insert_eq. intros [= <-]. exists l. simpl.
        rewrite drop_0 in Hr'. rewrite fn_lookup_insert, <- app_assoc.
        split; [done|]. split; [done|]. rewrite decide_True by done.
        split; [congruence|]. left. split; [congruence|].
        apply elem_of_app. by right.
      * rewrite lookup_insert_ne by done. intros Hq1%(si_q _ _ I).
        eapply queue_ok_iff; simpl; eauto. by rewrite fn_lookup_insert_ne.
Qed.

Lemma mark_release_ok i :
  enabled s (OMarkRelease i) →
  ∃ s' ids', exec s (OMarkRelease i) = Ok s' ∧ sched_inv s' ids'.
Proof.
  simpl. intros Ha.
  destruct (alive_queue _ Ha) as (q & l & Hq & Hr & Hh & Hre & Hst).
  destruct (mark_release_spec (w s) ids i q Hgq Hq Hre) as (w' & -> & Hs' & Hg').
  { intros. destruct Hst as [[? _]|(_ & ? & _)]; [done|set_solver]. }
  set (ids' := if decide (in_global q ≠ MQ_IN_GLOBAL) then ids ++ [i] else ids) in *.
  assert (∀ j, j ∈ ids' ++ held s ↔ j ∈ ids ++ held s ∨ j = i) as Hpl.
  { intros j. unfold ids'. case_decide; [set_solver|].
    destruct Hst as [[_ ?]|[E _]]; [set_solver|]. unfold MQ_IN_GLOBAL in *. lia. }
  eexists _, ids'. split; [reflexivity|]. split; simpl; [done|..].
  - unfold ids'. case_decide as Hd; [|done]. rewrite <- app_assoc. simpl.
    rewrite <- Permutation_middle. constructor; [|done].
    destruct Hst as [[E1 _]|(_ & Hni & _)]; [done|done].
  - intros j. rewrite Hpl, Hs'. destruct (decide (j = i)) as [->|Hne].
    + rewrite lookup_insert_eq. eauto.
    + rewrite lookup_insert_ne by done. intros Hj. apply (si_dom _ _ I). set_solver.
  - intros j q1. rewrite Hs'. destruct (decide (j = i)) as [->|Hne].
    + rewrite lookup_insert_eq. intros [= <-]. exists l. simpl.
      split; [destruct Hr; by split|]. split; [done|].
      rewrite decide_False by set_solver. rewrite Hpl. auto.
    + rewrite lookup_insert_ne by done. intros Hq1%(si_q _ _ I).
      eapply queue_ok_iff; simpl; eauto; [rewrite Hpl; tauto|set_solver].
Qed.

Lemma release_ok i :
  enabled s (ORelease i) → ∃ s' ids', exec s (ORelease i) = Ok s' ∧ sched_inv s' ids'.
Proof.
  simpl. intros Hi. destruct (held_strip _ Hi) as [q Hq].
  destruct (si_q _ _ I _ _ Hq) as (l & Hr & Hh & Hc).
  pose proof (held_not_ids _ _ _ Hnd Hi) as Hni.
  destruct (mq_release_spec (w s) ids i q l Hgq Hq Hr Hni) as (w' & -> & Hs' & Hg').
  eexists _, (if decide (release q ≠ 0) then ids else ids ++ [i]).
  split; [reflexivity|]. case_decide as Hd.
  - assert (i ∉ alive s) as Hna by (case_decide; [lia|done]).
    split; simpl; [done|by apply unhold_nodup|..].
    + intros j. rewrite (unhold_elem ids i) by done. intros Hj.
      rewrite Hs', lookup_delete_ne; [apply (si_dom _ _ I); tauto|].
      intros ->. destruct Hj as [[_ ?]|?]; done.
    + intros j q1. rewrite Hs'. intros [Hne Hq1%(si_q _ _ I)]%lookup_delete_Some.
      eapply queue_ok_iff; simpl; eauto.
      * rewrite (unhold_elem ids i) by done. naive_solver.
      * by rewrite fn_lookup_insert_ne.
  - split; simpl; [done|by apply publish_nodup|..].
    + intros j. rewrite (publish_elem ids i) by done. rewrite Hs'. apply (si_dom _ _ I).
    + intros j q1. rewrite Hs'. intros Hq1%(si_q _ _ I).
      eapply queue_ok_iff; simpl; eauto; [by apply publish_elem|].
      destruct (decide (j = i)) as [->|Hne].
      * by rewrite fn_lookup_insert, app_nil_r.
      * by rewrite fn_lookup_insert_ne.
Qed.
End Preservation.

Lemma exec_ok s ids o :
  sched_inv s ids → enabled s o → ∃ s' ids', exec s o = Ok s' ∧ sched_inv s' ids'.
Proof.
  intros I He. destruct o.
  - destruct (create_ok _ _ I _ _ He) as (s' & ? & ?). eauto.
  - by apply publish_ok with ids.
  - by apply push_ok with ids.
  - by apply take_ok with ids.
  - by apply pop_ok with ids.
  - by apply mark_release_ok with ids.
  - by apply release_ok with ids.
Qed.

Lemma init_inv : sched_inv init_sys [].
Proof.
  split; simpl; [apply gq_repr_init|constructor|set_solver|].
  intros i q. unfold strip. simpl. by rewrite fmap_empty, lookup_empty.
Qed.

Lemma reachable_inv s : reachable s → ∃ ids, sched_inv s ids.
Proof.
  induction 1 as [|s o s' Hr [ids I] He Hx]; [eauto using init_inv|].
  destruct (exec_ok _ _ _ I He) as (s1 & ids' & E & I'). rewrite E in Hx.
  injection Hx as <-. eauto.
Qed.

(** ** Properties *)

(** C1: no lost wakeup and per-service FIFO delivery. In every reachable state of
    every interleaving, each live queue has delivered a prefix of what was
    pushed to it, in order and without loss or duplication, the rest being in its
    ring; and when any message is waiting the queue is in the global queue or in a
    thread's hands, so a worker will come to it. *)
Theorem no_lost_wakeup s i :
  reachable s → i ∈ alive s →
  ∃ ids q l, gq_repr (w s) ids ∧ strip (w s) !! i = Some q ∧ mq_repr q l ∧
    pushed s i = popped s i ++ l ∧ (l ≠ [] → i ∈ ids ∨ i ∈ held s).
Proof.
  intros [ids I]%reachable_inv Ha.
  destruct (alive_queue _ _ I _ Ha) as (q & l & ? & ? & ? & ? & Hst).
  exists ids, q, l. split; [apply I|]. do 3 (split; [done|]). intros Hl.
  destruct Hst as [[_ Hi]|(_ & _ & ->)]; [|done]. by apply elem_of_app.
Qed.

(** C12: a queue is in at most one place. In every reachable state the global
    queue and the hands of all threads hold each queue at most once, so two
    workers never dispatch messages of the same service at the same time. *)
Theorem single_dispatcher s :
  reachable s → ∃ ids, gq_repr (w s) ids ∧ NoDup (ids ++ held s).
Proof. intros [ids I]%reachable_inv. exists ids. by destruct I. Qed.

(** C13: the queue operations never fail. Whatever the interleaving, an operation
    the program may perform finds every assertion of skynet_mq.c true, stays
    within its buffers, touches no freed queue and overflows no int. *)
Theorem operations_never_fail s o :
  reachable s → enabled s o → ∃ s', exec s o = Ok s' ∧ reachable s'.
Proof.
  intros Hr He. destruct (reachable_inv _ Hr) as [ids I].
  destruct (exec_ok _ _ _ I He) as (s' & _ & E & _). exists s'.
  split; [done|]. by eapply reach_step.
Qed.

(** A run used by the witnesses: a service is created and published, a sender
    pushes one message, a worker takes the queue. *)
Definition demo_msg : skynet_message :=
  {| source := 2; session := 1; data := 0; sz := 0 |}.
Fixpoint run_ops (s : sys) (ops : list op) : result sys :=
  match ops with [] => Ok s | o :: ops => s' ← exec s o; run_ops s' ops end.
Definition demo (n : nat) : sys :=
  match run_ops init_sys (take n [OCreate 8 16777217; OPublish 8; OPush 8 demo_msg; OTake])
  with Ok s => s | Err _ => init_sys end.

Lemma demo_reachable_1 : reachable (demo 1).
Proof. eapply (reach_step _ (OCreate 8 16777217)); [apply reach_init|done|done]. Qed.
Lemma demo_reachable_2 : reachable (demo 2).
Proof. eapply (reach_step _ (OPublish 8)); [apply demo_reachable_1|left|done]. Qed.
Lemma demo_reachable_3 : reachable (demo 3).
Proof.
  eapply (reach_step _ (OPush 8 demo_msg)); [apply demo_reachable_2| |done].
  split; [apply (bool_decide_unpack _); exact Logic.I|]. eexists. split; [reflexivity|done].
Qed.
Lemma demo_reachable_4 : reachable (demo 4).
Proof. eapply (reach_step _ OTake); [apply demo_reachable_3|exact Logic.I|done]. Qed.

Lemma no_lost_wakeup_witness :
  ∃ ids q l, gq_repr (w (demo 3)) ids ∧ strip (w (demo 3)) !! 8 = Some q ∧ mq_repr q l ∧
    [demo_msg] = [] ++ l ∧ (l ≠ [] → 8 ∈ ids ∨ 8 ∈ held (demo 3)).
Proof.
  apply (no_lost_wakeup (demo 3) 8); [apply demo_reachable_3|].
  apply (bool_decide_unpack _); exact Logic.I.
Defined.

Lemma single_dispatcher_witness :
  ∃ ids, gq_repr (w (demo 4)) ids ∧ NoDup (ids ++ [8]).
Proof. apply (single_dispatcher (demo 4)). apply demo_reachable_4. Defined.

Lemma operations_never_fail_witness :
  ∃ s', exec (demo 4) (OPop 8) = Ok s' ∧ reachable s'.
Proof.
  apply (operations_never_fail (demo 4) (OPop 8)); [apply demo_reachable_4|].
  split; [left|apply (bool_decide_unpack _); exact Logic.I].
Defined.
