(* ===== verification/Handle.v ===== *)
(** * The handle storage: skynet-src/skynet_handle.c

    [Names] is the sorted name table with its binary searches; [Slots] is the
    table of contexts, a power-of-two array indexed by the low bits of the
    handle. Each function runs under the storage's rwlock. *)
From stdpp Require Import functions base list numbers sets gmap.
From S2P Require Import Prelude CString.

Definition DEFAULT_SLOT_SIZE : Z := 4.
Definition MAX_SLOT_SIZE : Z := 0x40000000.
(** skynet.h: the low 24 bits of a handle are its index, the high 8 the harbor. *)
Definition HANDLE_MASK : Z := 0xffffff.
Definition HANDLE_REMOTE_SHIFT : Z := 24.

Record handle_name : Type := mk_name { name : cstring; nhandle : Z }.

(** [struct handle_storage]. A slot holds NULL or the address of a context; a
    cell of [names] is [None] until written. *)
Record handle_storage : Type := mk_storage {
  harbor : Z;
  handle_index : Z;
  slot_size : Z;
  slot : list (option Z);
  name_cap : Z;
  name_count : Z;
  names : list (option handle_name) }.

Definition with_names (s : handle_storage) (cap count : Z) (l : list (option handle_name)) :
    handle_storage :=
  {| harbor := harbor s; handle_index := handle_index s; slot_size := slot_size s;
     slot := slot s; name_cap := cap; name_count := count; names := l |}.
Definition with_slots (s : handle_storage) (index size : Z) (l : list (option Z)) :
    handle_storage :=
  {| harbor := harbor s; handle_index := index; slot_size := size;
     slot := l; name_cap := name_cap s; name_count := name_count s; names := names s |}.

Definition skynet_handle_init (harbor_id : Z) : handle_storage :=
  {| harbor := u32 (Z.shiftl (Z.land harbor_id 0xff) HANDLE_REMOTE_SHIFT);
     handle_index := 1; slot_size := DEFAULT_SLOT_SIZE;
     slot := replicate (Z.to_nat DEFAULT_SLOT_SIZE) None;
     name_cap := 2; name_count := 0; names := replicate 2 None |}.

(** ** Names *)

Inductive search_result : Type := Found (n : handle_name) | NotFound (begin : Z).

(** The loop [while (begin<=end)] of [skynet_handle_findname] and
    [_insert_name]. *)
Fixpoint name_search (fuel : nat) (s : handle_storage) (nm : cstring) (begin end_ : Z) :
    result search_result :=
  if decide (begin ≤ end_) then
    match fuel with
    | O => Err OutOfFuel
    | S f =>
        sum ← c_int (begin + end_);
        let mid := Z.quot sum 2 in
        cell ← rd (names s) mid;
        n ← of_option Uninitialised cell;
        let c := strcmp (name n) nm in
        if decide (c = 0) then Ok (Found n)
        else if decide (c < 0) then name_search f s nm (mid + 1) end_
        else name_search f s nm begin (mid - 1)
    end
  else Ok (NotFound begin).

(** The interval shrinks at every turn: its first length is fuel enough. *)
Definition search_fuel (s : handle_storage) : nat := Z.to_nat (name_count s).

Definition skynet_handle_findname (s : handle_storage) (nm : cstring) : result Z :=
  r ← name_search (search_fuel s) s nm 0 (name_count s - 1);
  match r with Found n => Ok (nhandle n) | NotFound _ => Ok 0 end.

(** The two ways [_insert_name_before] opens a gap at [before] (lines 183-201):
    into a buffer of twice the size, or in place from the top down. *)
Definition open_gap (s : handle_storage) (before : Z) : result handle_storage :=
  if decide (name_cap s ≤ name_count s) then
    cap ← c_int (name_cap s * 2);
    c_assert (bool_decide (cap ≤ MAX_SLOT_SIZE)) ;;
    n1 ← c_for (Z.to_nat before) 0
           (λ i n, x ← rd (names s) i; wr n i x) (replicate (Z.to_nat cap) None);
    n2 ← c_for (Z.to_nat (name_count s - before)) before
           (λ i n, x ← rd (names s) i; wr n (i + 1) x) n1;
    Ok (with_names s cap (name_count s) n2)
  else
    n ← c_for_down (Z.to_nat (name_count s - before)) (name_count s)
          (λ i n, x ← rd n (i - 1); wr n i x) (names s);
    Ok (with_names s (name_cap s) (name_count s) n).

Definition insert_name_before (s : handle_storage) (nm : cstring) (h before : Z) :
    result handle_storage :=
  s1 ← open_gap s before;
  l ← wr (names s1) before (Some {| name := nm; nhandle := h |});
  count ← c_int (name_count s1 + 1);
  Ok (with_names s1 (name_cap s1) count l).

(** [_insert_name]: [None] is the C NULL, the name is taken. *)
Definition insert_name (s : handle_storage) (nm : cstring) (h : Z) :
    result (option cstring * handle_storage) :=
  r ← name_search (search_fuel s) s nm 0 (name_count s - 1);
  match r with
  | Found _ => Ok (None, s)
  | NotFound begin => s' ← insert_name_before s nm h begin; Ok (Some nm, s')
  end.

Definition skynet_handle_namehandle (s : handle_storage) (h : Z) (nm : cstring) :
    result (option cstring * handle_storage) :=
  insert_name s nm h.

(** The compaction loop of [skynet_handle_retire] (lines 83-93): the state is [j]
    and the array. *)
Definition retire_body (h i : Z) (st : Z * list (option handle_name)) :
    result (Z * list (option handle_name)) :=
  cell ← rd st.2 i;
  n ← of_option Uninitialised cell;
  if decide (nhandle n = h) then Ok st
  else
    l ← (if decide (i ≠ st.1) then wr st.2 st.1 (Some n) else Ok st.2);
    Ok (st.1 + 1, l).
Definition retire_names (s : handle_storage) (h : Z) : result handle_storage :=
  r ← c_for (Z.to_nat (name_count s)) 0 (retire_body h) (0, names s);
  Ok (with_names s (name_cap s) r.1 r.2).

(** ** Slots *)

(** The scan for a free slot, from [i]; [Some (handle, hash)] when one is found. *)
Fixpoint slot_scan (n : nat) (i : Z) (s : handle_storage) : result (option (Z * Z)) :=
  match n with
  | O => Ok None
  | S n' =>
      let handle := Z.land (u32 (i + handle_index s)) HANDLE_MASK in
      let hash := Z.land handle (slot_size s - 1) in
      c ← rd (slot s) hash;
      match c with
      | None => Ok (Some (handle, hash))
      | Some _ => slot_scan n' (i + 1) s
      end
  end.

Section Slots.
(** The [handle] field of every context in the heap. *)
Context (ctx_handle : Z → Z).

(** Doubling the table (lines 55-65). *)
Definition slot_grow (s : handle_storage) : result handle_storage :=
  size2 ← c_int (slot_size s * 2);
  c_assert (bool_decide (size2 - 1 ≤ HANDLE_MASK)) ;;
  new_slot ← c_for (Z.to_nat (slot_size s)) 0
    (λ i new_slot,
       c ← rd (slot s) i;
       ctx ← of_option NullDeref c;
       let hash := Z.land (ctx_handle ctx) (size2 - 1) in
       old ← rd new_slot hash;
       c_assert (bool_decide (old = None)) ;;
       wr new_slot hash (Some ctx))
    (replicate (Z.to_nat size2) None);
  Ok (with_slots s (handle_index s) size2 new_slot).

Fixpoint register_loop (fuel : nat) (s : handle_storage) (ctx : Z) :
    result (Z * handle_storage) :=
  match fuel with
  | O => Err OutOfFuel
  | S f =>
      r ← slot_scan (Z.to_nat (slot_size s)) 0 s;
      match r with
      | Some (handle, hash) =>
          l ← wr (slot s) hash (Some ctx);
          Ok (Z.lor handle (harbor s), with_slots s (u32 (handle + 1)) (slot_size s) l)
      | None => s' ← slot_grow s; register_loop f s' ctx
      end
  end.

(** One doubling always makes room, so the loop turns at most twice. *)
Definition skynet_handle_register (s : handle_storage) (ctx : Z) :
    result (Z * handle_storage) := register_loop 2 s ctx.

(** The lookup of [skynet_handle_grab] (lines 139-142). *)
Definition handle_lookup (s : handle_storage) (handle : Z) : result (option Z) :=
  let hash := Z.land handle (slot_size s - 1) in
  c ← rd (slot s) hash;
  match c with
  | Some ctx => Ok (if decide (ctx_handle ctx = handle) then Some ctx else None)
  | None => Ok None
  end.

(** [skynet_handle_retire] up to the unlock: the return value, the context
    whose reference is given up afterwards, and the storage. *)
Definition skynet_handle_retire (s : handle_storage) (handle : Z) :
    result (Z * option Z * handle_storage) :=
  let hash := Z.land handle (slot_size s - 1) in
  c ← rd (slot s) hash;
  match c with
  | Some ctx =>
      if decide (ctx_handle ctx = handle) then
        l ← wr (slot s) hash None;
        s' ← retire_names (with_slots s (handle_index s) (slot_size s) l) handle;
        Ok (1, Some ctx, s')
      else Ok (0, None, s)
  | None => Ok (0, None, s)
  end.

(** One pass of [skynet_handle_retireall]: the state is the count [n], the
    contexts released so far and the storage. *)
Definition retire_pass (s : handle_storage) (released : list Z) :
    result (Z * list Z * handle_storage) :=
  c_for (Z.to_nat (slot_size s)) 0
    (λ i st, c ← rd (slot st.2) i;
             let handle := match c with Some ctx => ctx_handle ctx | None => 0 end in
             if decide (handle ≠ 0) then
               r ← skynet_handle_retire st.2 handle;
               Ok (st.1.1 + r.1.1, st.1.2 ++ option_list r.1.2, r.2)
             else Ok st)
    (0, released, s).

Fixpoint retireall_loop (fuel : nat) (s : handle_storage) (released : list Z) :
    result (list Z * handle_storage) :=
  match fuel with
  | O => Err OutOfFuel
  | S f =>
      r ← retire_pass s released;
      if decide (r.1.1 = 0) then Ok (r.1.2, r.2)
      else retireall_loop f r.2 r.1.2
  end.

(** The first pass retires everything, the second finds nothing. *)
Definition skynet_handle_retireall (s : handle_storage) : result (list Z * handle_storage) :=
  retireall_loop 2 s [].
End Slots.

(** ** The name table refines a sorted association list *)

Definition name_lt (a b : handle_name) : Prop := strcmp (name a) (name b) < 0.

Record names_repr (s : handle_storage) (l : list handle_name) : Prop := {
  nr_cap : ∃ k, 1 ≤ k ≤ 30 ∧ name_cap s = 2 ^ k;
  nr_len : zlen (names s) = name_cap s;
  nr_count : name_count s = zlen l;
  nr_room : zlen l ≤ name_cap s;
  nr_data : ∀ (i : nat) x, l !! i = Some x → names s !! i = Some (Some x);
  nr_sorted : ∀ (i j : nat) a b, l !! i = Some a → l !! j = Some b → (i < j)%nat → name_lt a b;
  nr_ok : ∀ a, a ∈ l → cstring_ok (name a) }.

Lemma nr_cap_range s l : names_repr s l → 2 ≤ name_cap s ≤ 2 ^ 30.
Proof.
  intros H. destruct (nr_cap _ _ H) as (k & Hk & ->). split.
  - change 2 with (2 ^ 1) at 1. apply Z.pow_le_mono_r; lia.
  - apply Z.pow_le_mono_r; lia.
Qed.

Lemma names_repr_init h : names_repr (skynet_handle_init h) [].
Proof.
  split; simpl; try done; try naive_solver.
  - exists 1. split; [lia|done].
  - intros. set_solver.
Qed.

(** [b] separates the smaller names from the larger ones. *)
Definition splits (l : list handle_name) (nm : cstring) (b e : Z) : Prop :=
  (∀ (i : nat) x, l !! i = Some x → Z.of_nat i < b → strcmp (name x) nm < 0) ∧
  (∀ (i : nat) x, l !! i = Some x → e < Z.of_nat i → 0 < strcmp (name x) nm).

Lemma name_search_spec fuel s l nm b e :
  names_repr s l → cstring_ok nm → 0 ≤ b → e < zlen l → b ≤ e + 1 →
  e - b < Z.of_nat fuel → splits l nm b e →
  ∃ r, name_search fuel s nm b e = Ok r ∧
    match r with
    | Found n => n ∈ l ∧ name n = nm
    | NotFound p => 0 ≤ p ≤ zlen l ∧ splits l nm p (p - 1)
    end.
Proof.
  intros H Hnm. pose proof (nr_cap_range _ _ H). pose proof (nr_room _ _ H).
  revert b e. induction fuel as [|f IH]; intros b e Hb He Hbe Hf [Hlo Hhi].
  - simpl. rewrite decide_False by lia. eexists. split; [done|]. simpl.
    split; [lia|]. split; [done|]. intros i x Hx Hi. apply (Hhi i x Hx). lia.
  - simpl. case_decide as Hd; cycle 1.
    { eexists. split; [done|]. simpl. split; [lia|]. split; [done|].
      intros i x Hx Hi. apply (Hhi i x Hx). lia. }
    rewrite c_int_Ok by (unfold INT_MIN, INT_MAX; lia). rewrite bind_Ok.
    rewrite Z.quot_div_nonneg by lia. set (mid := (b + e) / 2).
    assert (b ≤ mid ≤ e) as Hmid by (unfold mid; split; [apply Z.div_le_lower_bound|
      apply Z.div_le_upper_bound]; lia).
    destruct (lookup_lt_is_Some_2 l (Z.to_nat mid)) as [x Hx]; [unfold zlen in *; lia|].
    rewrite (rd_lookup _ mid (Some x)) by (lia || by apply (nr_data _ _ H)).
    rewrite bind_Ok. simpl of_option. rewrite bind_Ok.
    pose proof (list_elem_of_lookup_2 _ _ _ Hx) as Hin.
    pose proof (nr_ok _ _ H _ Hin) as Hxok.
    case_decide as Hc0; [|case_decide as Hc1].
    + eexists. split; [done|]. simpl. split; [done|]. by apply strcmp_eq.
    + apply IH; try lia. split; [|done]. intros i y Hy Hi.
      destruct (decide (i = Z.to_nat mid)) as [->|Hne]; [congruence|].
      apply strcmp_trans with (name x); eauto using nr_ok, list_elem_of_lookup_2.
      apply (nr_sorted _ _ H i (Z.to_nat mid)); [done|done|lia].
    + apply IH; try lia. split; [done|]. intros i y Hy Hi.
      destruct (decide (i = Z.to_nat mid)) as [->|Hne]; [simplify_eq; lia|].
      assert (strcmp nm (name y) < 0); [|rewrite strcmp_flip; lia].
      apply strcmp_trans with (name x); eauto using nr_ok, list_elem_of_lookup_2.
      * rewrite strcmp_flip. lia.
      * apply (nr_sorted _ _ H (Z.to_nat mid) i); [done|done|lia].
Qed.

Lemma splits_not_in l nm p x :
  splits l nm p (p - 1) → x ∈ l → name x ≠ nm.
Proof.
  intros [Hlo Hhi] [i Hi]%list_elem_of_lookup <-.
  destruct (decide (Z.of_nat i < p)).
  - specialize (Hlo _ _ Hi ltac:(lia)). rewrite strcmp_refl in Hlo. lia.
  - specialize (Hhi _ _ Hi ltac:(lia)). rewrite strcmp_refl in Hhi. lia.
Qed.

(** The search from the ends of the table. *)
Lemma search_all s l nm :
  names_repr s l → cstring_ok nm →
  ∃ r, name_search (search_fuel s) s nm 0 (name_count s - 1) = Ok r ∧
    match r with
    | Found n => n ∈ l ∧ name n = nm
    | NotFound p => 0 ≤ p ≤ zlen l ∧ splits l nm p (p - 1)
    end.
Proof.
  intros H Hnm. pose proof (nr_count _ _ H) as Hc. pose proof (zlen_nonneg l).
  apply name_search_spec; auto; unfold search_fuel; rewrite ?Hc; try lia.
  split; intros i x Hx; [lia|]. apply lookup_lt_Some in Hx. unfold zlen. lia.
Qed.

Lemma insert_at_lookup {A} (l : list A) x (p k : nat) :
  (p ≤ length l)%nat →
  (take p l ++ x :: drop p l) !! k =
    if decide (k < p)%nat then l !! k
    else if decide (k = p) then Some x else l !! pred k.
Proof.
  intros Hp. assert (length (take p l) = p) as E by (rewrite length_take; lia).
  case_decide; [|case_decide].
  - rewrite lookup_app_l by lia. by rewrite lookup_take_lt.
  - rewrite lookup_app_r, E by lia. subst. by rewrite Nat.sub_diag.
  - rewrite lookup_app_r, E by lia. destruct (k - p)%nat as [|d] eqn:Ed; [lia|].
    simpl. rewrite lookup_drop. f_equal. lia.
Qed.

(** What the buffer holds once the gap is open: [p] cells kept, the others moved
    up by one. *)
Definition opened (old new : list (option handle_name)) (p count : Z) : Prop :=
  (∀ k : nat, Z.of_nat k < p → new !! k = old !! k) ∧
  (∀ k : nat, p ≤ Z.of_nat k < count → new !! S k = old !! k).

Lemma open_grow old cap p count :
  0 ≤ p ≤ count → count < cap → count ≤ zlen old →
  ∃ n1 n2,
    c_for (Z.to_nat p) 0 (λ i n, x ← rd old i; wr n i x) (replicate (Z.to_nat cap) None) = Ok n1 ∧
    c_for (Z.to_nat (count - p)) p (λ i n, x ← rd old i; wr n (i + 1) x) n1 = Ok n2 ∧
    zlen n2 = cap ∧ opened old n2 p count.
Proof.
  intros Hp Hc Ho.
  destruct (c_for_spec (λ i n, zlen n = cap ∧ ∀ k : nat, Z.of_nat k < i → n !! k = old !! k)
    (λ i n, x ← rd old i; wr n i x) (Z.to_nat p) 0 (replicate (Z.to_nat cap) None))
    as (n1 & E1 & L1 & D1).
  { split; [rewrite zlen_replicate; lia|lia]. }
  { intros j n Hj [Ln Dn]. destruct (rd_Ok old j) as [x Hx]; [lia|]. rewrite Hx, bind_Ok.
    apply rd_Ok_inv in Hx as [_ Hx]. rewrite wr_Ok by lia. eexists. split; [done|].
    rewrite zlen_insert. split; [done|]. intros k Hk.
    destruct (decide (k = Z.to_nat j)) as [->|Hne].
    - rewrite list_lookup_insert_eq by (unfold zlen in *; lia). done.
    - rewrite list_lookup_insert_ne by done. apply Dn. lia. }
  rewrite Z2Nat.id, Z.add_0_l in D1 by lia.
  destruct (c_for_spec (λ i n, zlen n = cap ∧ opened old n p i)
    (λ i n, x ← rd old i; wr n (i + 1) x) (Z.to_nat (count - p)) p n1)
    as (n2 & E2 & L2 & D2).
  { split; [done|]. split; [done|lia]. }
  { intros j n Hj [Ln [Dn1 Dn2]]. destruct (rd_Ok old j) as [x Hx]; [lia|].
    rewrite Hx, bind_Ok. apply rd_Ok_inv in Hx as [_ Hx]. rewrite wr_Ok by lia.
    eexists. split; [done|]. rewrite zlen_insert. split; [done|]. split.
    - intros k Hk. rewrite list_lookup_insert_ne by lia. auto.
    - intros k Hk. destruct (decide (k = Z.to_nat j)) as [->|Hne].
      + replace (Z.to_nat (j + 1)) with (S (Z.to_nat j)) by lia.
        rewrite list_lookup_insert_eq by (unfold zlen in *; lia). done.
      + rewrite list_lookup_insert_ne by lia. apply Dn2. lia. }
  replace (p + Z.of_nat (Z.to_nat (count - p))) with count in D2 by lia.
  exists n1, n2. auto.
Qed.

Lemma open_shift old p count :
  0 ≤ p ≤ count → count < zlen old →
  ∃ n, c_for_down (Z.to_nat (count - p)) count (λ i n, x ← rd n (i - 1); wr n i x) old = Ok n ∧
    zlen n = zlen old ∧ opened old n p count.
Proof.
  intros Hp Hc.
  destruct (c_for_down_spec (λ i n, zlen n = zlen old ∧
      (∀ k : nat, Z.of_nat k ≤ i → n !! k = old !! k) ∧
      (∀ k : nat, i ≤ Z.of_nat k < count → n !! S k = old !! k))
    (λ i n, x ← rd n (i - 1); wr n i x) (Z.to_nat (count - p)) count old)
    as (n & E & L & D1 & D2).
  { split; [done|]. split; [done|lia]. }
  { intros j n Hj (Ln & Dn1 & Dn2). destruct (rd_Ok n (j - 1)) as [x Hx]; [lia|].
    rewrite Hx, bind_Ok. apply rd_Ok_inv in Hx as [_ Hx]. rewrite wr_Ok by lia.
    eexists. split; [done|]. rewrite zlen_insert. split; [done|]. split.
    - intros k Hk. rewrite list_lookup_insert_ne by lia. apply Dn1. lia.
    - intros k Hk. destruct (decide (S k = Z.to_nat j)) as [Ek|Hne].
      + rewrite Ek, list_lookup_insert_eq by (unfold zlen in *; lia).
        rewrite <- Hx, <- Dn1 by lia. f_equal. lia.
      + rewrite list_lookup_insert_ne by lia. apply Dn2. lia. }
  replace (count - Z.of_nat (Z.to_nat (count - p))) with p in D1, D2 by lia.
  exists n. split; [done|]. split; [done|]. split; [|done]. intros k Hk. apply D1. lia.
Qed.

(** Inserting between the smaller and the larger names keeps the table sorted. *)
Lemma insert_sorted l x p :
  (∀ (i j : nat) a b, l !! i = Some a → l !! j = Some b → (i < j)%nat → name_lt a b) →
  0 ≤ p ≤ zlen l → splits l (name x) p (p - 1) →
  ∀ (i j : nat) a b,
    (take (Z.to_nat p) l ++ x :: drop (Z.to_nat p) l) !! i = Some a →
    (take (Z.to_nat p) l ++ x :: drop (Z.to_nat p) l) !! j = Some b →
    (i < j)%nat → name_lt a b.
Proof.
  intros Hs Hp [Hlo Hhi] i j a b. unfold zlen in Hp.
  rewrite !insert_at_lookup by lia. unfold name_lt.
  assert (∀ z, 0 < strcmp (name z) (name x) → strcmp (name x) (name z) < 0) as Hflip.
  { intros z Hz. rewrite strcmp_flip. lia. }
  repeat case_decide; intros Ha Hb Hij; simplify_eq; try lia;
    first [ eapply Hs; [eassumption|eassumption|lia]
          | eapply Hlo; [eassumption|lia]
          | apply Hflip; eapply Hhi; [eassumption|lia] ].
Qed.

Lemma open_gap_spec s l p :
  names_repr s l → zlen l < MAX_SLOT_SIZE → 0 ≤ p ≤ zlen l →
  ∃ cap n, open_gap s p = Ok (with_names s cap (zlen l) n) ∧
    (∃ k, 1 ≤ k ≤ 30 ∧ cap = 2 ^ k) ∧ zlen n = cap ∧ zlen l < cap ∧
    opened (names s) n p (zlen l).
Proof.
  intros H Hmax Hp. unfold open_gap. pose proof (nr_cap_range _ _ H) as Hcr.
  pose proof (nr_len _ _ H) as Hlen. pose proof (nr_room _ _ H) as Hro.
  rewrite (nr_count _ _ H). destruct (nr_cap _ _ H) as (k & Hk & Ek). case_decide as Hd.
  - assert (k < 30) by (apply (Z.pow_lt_mono_r_iff 2); unfold MAX_SLOT_SIZE in *; lia).
    assert (name_cap s * 2 = 2 ^ (k + 1)) as E2 by (rewrite Z.pow_add_r; lia).
    assert (2 ^ (k + 1) ≤ 2 ^ 30) by (apply Z.pow_le_mono_r; lia).
    rewrite c_int_Ok by (unfold INT_MIN, INT_MAX; lia). rewrite bind_Ok.
    rewrite c_assert_true by (apply bool_decide_eq_true_2; unfold MAX_SLOT_SIZE; lia).
    rewrite bind_Ok.
    destruct (open_grow (names s) (name_cap s * 2) p (zlen l))
      as (n1 & n2 & -> & E & ? & ?); [lia|lia|lia|].
    rewrite bind_Ok, E, bind_Ok. exists (name_cap s * 2), n2. split; [done|].
    split; [exists (k + 1); split; [lia|done]|]. split; [done|]. split; [lia|]. done.
  - destruct (open_shift (names s) p (zlen l)) as (n & -> & ? & ?); [lia|lia|].
    rewrite bind_Ok. exists (name_cap s), n. split; [done|]. split; [eauto|].
    split; [lia|]. split; [lia|done].
Qed.

Lemma insert_name_before_spec s l nm h p :
  names_repr s l → cstring_ok nm → zlen l < MAX_SLOT_SIZE →
  0 ≤ p ≤ zlen l → splits l nm p (p - 1) →
  ∃ s', insert_name_before s nm h p = Ok s' ∧
    names_repr s' (take (Z.to_nat p) l ++ mk_name nm h :: drop (Z.to_nat p) l) ∧
    harbor s' = harbor s ∧ handle_index s' = handle_index s ∧
    slot_size s' = slot_size s ∧ slot s' = slot s.
Proof.
  intros H Hnm Hmax Hp Hsp. unfold insert_name_before.
  set (l' := take (Z.to_nat p) l ++ mk_name nm h :: drop (Z.to_nat p) l).
  assert (zlen l' = zlen l + 1) as Hl'.
  { unfold l', zlen in *. rewrite length_app. simpl. rewrite length_take, length_drop. lia. }
  destruct (open_gap_spec s l p H Hmax Hp)
    as (cap & n & -> & (k & Hk & Ek) & Hn & Hroom & [Hop1 Hop2]).
  rewrite bind_Ok. simpl. rewrite wr_Ok, bind_Ok by lia.
  assert (2 ^ k ≤ 2 ^ 30) by (apply Z.pow_le_mono_r; lia).
  rewrite c_int_Ok by (pose proof (zlen_nonneg l); unfold INT_MIN, INT_MAX; lia).
  eexists. split; [reflexivity|]. split; [|done].
  split; simpl; [by eauto|by rewrite zlen_insert|done|lia|..].
  - intros i x. unfold l'. rewrite insert_at_lookup by (unfold zlen in *; lia).
    case_decide; [|case_decide as Ei]; intros Hx.
    + rewrite list_lookup_insert_ne by lia. rewrite Hop1 by lia. by apply (nr_data _ _ H).
    + simplify_eq. rewrite list_lookup_insert_eq; [done|]. unfold zlen in *. lia.
    + rewrite list_lookup_insert_ne by lia. apply lookup_lt_Some in Hx as Hlt.
      replace i with (S (pred i)) by lia. rewrite Hop2 by (unfold zlen in *; lia).
      by apply (nr_data _ _ H).
  - apply (insert_sorted l (mk_name nm h)); [apply H|done|done].
  - intros a [Ha%elem_of_take|[->|Ha]%elem_of_cons]%elem_of_app; [|done|].
    + destruct Ha as (? & Ha%list_elem_of_lookup_2 & _). by apply (nr_ok _ _ H).
    + apply (nr_ok _ _ H). eapply elem_of_subseteq; [|exact Ha]. apply subseteq_drop.
Qed.

(** What retiring a handle leaves of the table. *)
Definition keep_names (h : Z) (l : list handle_name) : list handle_name :=
  filter (λ n, nhandle n ≠ h) l.

Lemma keep_names_sorted l h :
  (∀ (i j : nat) a b, l !! i = Some a → l !! j = Some b → (i < j)%nat → name_lt a b) →
  ∀ (i j : nat) a b, keep_names h l !! i = Some a → keep_names h l !! j = Some b →
    (i < j)%nat → name_lt a b.
Proof.
  unfold keep_names. induction l as [|x l IH]; intros Hs i j a b; [done|].
  assert (∀ (i j : nat) a b, l !! i = Some a → l !! j = Some b → (i < j)%nat → name_lt a b)
    as Hs' by (intros i' j' ?????; apply (Hs (S i') (S j')); auto; lia).
  rewrite filter_cons. case_decide; [|by apply IH].
  destruct j as [|j]; [lia|]. destruct i as [|i]; simpl.
  - intros [= <-] Hb _. apply list_elem_of_lookup_2, list_elem_of_filter in Hb as [_ Hb].
    apply list_elem_of_lookup in Hb as [j' Hb]. apply (Hs 0%nat (S j')); auto. lia.
  - intros Ha Hb Hij. apply (IH Hs' i j); auto. lia.
Qed.

Lemma keep_names_snoc h l x :
  keep_names h (l ++ [x]) = keep_names h l ++ if decide (nhandle x = h) then [] else [x].
Proof.
  unfold keep_names. rewrite filter_app, filter_cons, filter_nil.
  destruct (decide (nhandle x = h)) as [E|E].
  - by rewrite (decide_False (P := nhandle x ≠ h)) by tauto.
  - by rewrite (decide_True (P := nhandle x ≠ h)).
Qed.
Lemma keep_names_length h l : (length (keep_names h l) ≤ length l)%nat.
Proof. apply length_filter. Qed.

(** The loop state before turn [i]. *)
Definition retire_at (old : list (option handle_name)) (l : list handle_name) (h i : Z)
    (st : Z * list (option handle_name)) : Prop :=
  st.1 = zlen (keep_names h (take (Z.to_nat i) l)) ∧ zlen st.2 = zlen old ∧
  (∀ (k : nat) x, keep_names h (take (Z.to_nat i) l) !! k = Some x →
     st.2 !! k = Some (Some x)) ∧
  (∀ k : nat, i ≤ Z.of_nat k → st.2 !! k = old !! k).

Lemma retire_body_spec s l h i st :
  names_repr s l → 0 ≤ i < zlen l → retire_at (names s) l h i st →
  ∃ st', retire_body h i st = Ok st' ∧ retire_at (names s) l h (i + 1) st'.
Proof.
  intros H Hi. destruct st as [j arr]. unfold retire_at, retire_body. simpl.
  intros (-> & Ha & Hd & Hr). pose proof (nr_room _ _ H). pose proof (nr_len _ _ H).
  destruct (lookup_lt_is_Some_2 l (Z.to_nat i)) as [x Hx]; [unfold zlen in *; lia|].
  assert (arr !! Z.to_nat i = Some (Some x)) as Hxi
    by (rewrite Hr by lia; by apply (nr_data _ _ H)).
  rewrite (rd_lookup _ i (Some x)) by (lia || done).
  rewrite bind_Ok. simpl of_option. rewrite bind_Ok.
  replace (Z.to_nat (i + 1)) with (S (Z.to_nat i)) by lia.
  rewrite (take_S_r _ _ _ Hx), keep_names_snoc. set (kl := keep_names h (take (Z.to_nat i) l)) in *.
  assert (length kl ≤ Z.to_nat i)%nat as Hlen.
  { etrans; [apply keep_names_length|]. rewrite length_take. lia. }
  case_decide as Hh.
  - eexists. split; [reflexivity|]. simpl. rewrite app_nil_r.
    split; [done|]. split; [done|]. split; [done|]. intros k Hk. apply Hr. lia.
  - assert ((if decide (i ≠ zlen kl) then wr arr (zlen kl) (Some x) else Ok arr)
        = Ok (<[length kl := Some x]> arr)) as ->.
    { assert (Z.to_nat (zlen kl) = length kl) as El by (unfold zlen; lia).
      case_decide as Hij; [rewrite wr_Ok by (unfold zlen in *; lia); by rewrite El|].
      f_equal. symmetry. apply list_insert_id. congruence. }
    rewrite bind_Ok. eexists. split; [reflexivity|]. simpl.
    rewrite zlen_app, zlen_insert. split; [done|]. split; [done|]. split.
    + intros k y [[Hk Hy]|[-> ->]]%lookup_snoc_Some.
      * rewrite list_lookup_insert_ne by lia. auto.
      * rewrite list_lookup_insert_eq by (unfold zlen in *; lia). done.
    + intros k Hk. rewrite list_lookup_insert_ne by lia. apply Hr. lia.
Qed.

Lemma retire_names_spec s l h :
  names_repr s l →
  ∃ s', retire_names s h = Ok s' ∧ names_repr s' (keep_names h l) ∧
    harbor s' = harbor s ∧ handle_index s' = handle_index s ∧
    slot_size s' = slot_size s ∧ slot s' = slot s.
Proof.
  intros H. unfold retire_names. rewrite (nr_count _ _ H).
  replace (Z.to_nat (zlen l)) with (length l) by (unfold zlen; lia).
  destruct (c_for_spec (retire_at (names s) l h) (retire_body h) (length l) 0 (0, names s))
    as ([j arr] & -> & Hj & Ha & Hd & _).
  - split; [done|]. split; [done|]. split; [|done]. simpl. by rewrite take_0.
  - intros i st Hi. by apply retire_body_spec.
  - rewrite bind_Ok. simpl in *. rewrite Z.add_0_l, Nat2Z.id, take_ge in Hj, Hd by lia.
    pose proof (keep_names_length h l).
    eexists. split; [reflexivity|]. split; [|done]. destruct H. split; simpl; auto.
    + congruence.
    + unfold zlen in *. lia.
    + by apply keep_names_sorted.
    + intros a [_ Ha']%list_elem_of_filter. auto.
Qed.

(** ** The slot table refines a finite map from handles to contexts *)

Record slots_wf (ctx_handle : Z → Z) (s : handle_storage) : Prop := {
  sw_size : ∃ k, 2 ≤ k ≤ 24 ∧ slot_size s = 2 ^ k;
  sw_len : zlen (slot s) = slot_size s;
  sw_harbor : ∃ hb, 0 ≤ hb < 256 ∧ harbor s = hb * 2 ^ 24;
  sw_index : 0 ≤ handle_index s ≤ 2 ^ 24;
  sw_slot : ∀ (i : nat) c, slot s !! i = Some (Some c) →
    ∃ low, 0 ≤ low < 2 ^ 24 ∧ ctx_handle c = low + harbor s ∧
      low `mod` slot_size s = Z.of_nat i }.

Lemma slots_wf_init ctx_handle h : slots_wf ctx_handle (skynet_handle_init h).
Proof.
  split; simpl; unfold DEFAULT_SLOT_SIZE; try done.
  - exists 2. split; [lia|done].
  - exists (Z.land h 0xff). change 0xff with (2 ^ 8 - 1). rewrite land_ones_mod by lia.
    pose proof (Z.mod_pos_bound h (2 ^ 8) ltac:(lia)). split; [lia|].
    rewrite Z.shiftl_mul_pow2 by (unfold HANDLE_REMOTE_SHIFT; lia).
    apply uwrap_small. unfold HANDLE_REMOTE_SHIFT. lia.
  - intros i c Hi. exfalso. do 4 (destruct i; [done|]). done.
Qed.

Section SlotFacts.
Context (ctx_handle : Z → Z) (s : handle_storage) (W : slots_wf ctx_handle s).

Lemma slot_size_pos : 4 ≤ slot_size s ≤ 2 ^ 24.
Proof.
  destruct (sw_size _ _ W) as (k & Hk & ->). split.
  - change 4 with (2 ^ 2). apply Z.pow_le_mono_r; lia.
  - apply Z.pow_le_mono_r; lia.
Qed.

(** The mask [slot_size - 1] computes the residue. *)
Lemma slot_hash h : Z.land h (slot_size s - 1) = h `mod` slot_size s.
Proof. destruct (sw_size _ _ W) as (k & Hk & ->). apply land_ones_mod. lia. Qed.
Lemma slot_hash_low low : (low + harbor s) `mod` slot_size s = low `mod` slot_size s.
Proof.
  destruct (sw_size _ _ W) as (k & Hk & ->), (sw_harbor _ _ W) as (hb & _ & ->).
  apply add_mul_pow2_mod. lia.
Qed.
Lemma slot_mod24 x : (x `mod` 2 ^ 24) `mod` slot_size s = x `mod` slot_size s.
Proof. destruct (sw_size _ _ W) as (k & Hk & ->). apply mod_pow2_mod. lia. Qed.
Lemma hash_range h : 0 ≤ h `mod` slot_size s < zlen (slot s).
Proof. rewrite (sw_len _ _ W). apply Z.mod_pos_bound. pose proof slot_size_pos. lia. Qed.
Lemma hash_cell h : ∃ c, rd (slot s) (h `mod` slot_size s) = Ok c.
Proof. apply rd_Ok, hash_range. Qed.
Lemma slot_home (i : nat) c :
  slot s !! i = Some (Some c) → ctx_handle c `mod` slot_size s = Z.of_nat i.
Proof. intros (low & _ & -> & <-)%(sw_slot _ _ W). apply slot_hash_low. Qed.

Lemma handle_lookup_spec h c :
  handle_lookup ctx_handle s h = Ok (Some c) ↔
  slot s !! Z.to_nat (h `mod` slot_size s) = Some (Some c) ∧ ctx_handle c = h.
Proof.
  unfold handle_lookup. rewrite slot_hash. destruct (hash_cell h) as [x Hx].
  rewrite Hx, bind_Ok. apply rd_Ok_inv in Hx as [_ ->].
  destruct x as [c'|]; [case_decide|]; naive_solver.
Qed.
Lemma handle_lookup_Ok h : ∃ r, handle_lookup ctx_handle s h = Ok r.
Proof.
  unfold handle_lookup. rewrite slot_hash. destruct (hash_cell h) as [x ->].
  rewrite bind_Ok. destruct x; eauto.
Qed.

(** *** The scan *)

Lemma slot_scan_spec n i :
  0 ≤ i → i + Z.of_nat n ≤ 2 ^ 24 →
  ∃ r, slot_scan n i s = Ok r ∧
    match r with
    | Some (h, hash) => 0 ≤ h < 2 ^ 24 ∧ hash = h `mod` slot_size s ∧
        slot s !! Z.to_nat hash = Some None
    | None => ∀ j, i ≤ j < i + Z.of_nat n →
        slot s !! Z.to_nat ((j + handle_index s) `mod` slot_size s) ≠ Some None
    end.
Proof.
  pose proof (sw_index _ _ W). revert i. induction n as [|n IH]; intros i Hi Hn; simpl.
  - eexists. split; [done|]. simpl. lia.
  - rewrite uwrap_small by lia. change HANDLE_MASK with (2 ^ 24 - 1).
    rewrite land_ones_mod, slot_hash, slot_mod24 by lia.
    destruct (hash_cell (i + handle_index s)) as [x Hx]. rewrite Hx, bind_Ok.
    apply rd_Ok_inv in Hx as [_ Hx]. destruct x as [c|].
    + destruct (IH (i + 1)) as (r & -> & Hr); [lia|lia|]. exists r. split; [done|].
      destruct r as [[h hash]|]; [done|]. intros j Hj.
      destruct (decide (j = i)) as [->|]; [congruence|]. apply Hr. lia.
    + eexists. split; [reflexivity|]. simpl. split; [apply Z.mod_pos_bound; lia|].
      by rewrite slot_mod24.
Qed.

Lemma slot_scan_full f :
  slot s !! f = Some None →
  ∃ h hash, slot_scan (Z.to_nat (slot_size s)) 0 s = Ok (Some (h, hash)) ∧
    0 ≤ h < 2 ^ 24 ∧ hash = h `mod` slot_size s ∧ slot s !! Z.to_nat hash = Some None.
Proof.
  intros Hf. pose proof slot_size_pos. pose proof (sw_len _ _ W) as Hl.
  destruct (slot_scan_spec (Z.to_nat (slot_size s)) 0) as (r & -> & Hr); [lia|lia|].
  destruct r as [[h hash]|]; [naive_solver|]. exfalso.
  apply lookup_lt_Some in Hf as Hlt.
  apply (Hr ((Z.of_nat f - handle_index s) `mod` slot_size s)).
  - pose proof (Z.mod_pos_bound (Z.of_nat f - handle_index s) (slot_size s) ltac:(lia)). lia.
  - rewrite ring_mod_add by lia. rewrite Z.sub_add, Z.mod_small, Nat2Z.id
      by (unfold zlen in *; lia). done.
Qed.
End SlotFacts.

(** *** Growing *)

Section Grow.
Context (ctx_handle : Z → Z) (s : handle_storage) (W : slots_wf ctx_handle s).
Context (Hfull : ∀ i : nat, slot s !! i ≠ Some None).
Context (Hroom : slot_size s * 2 ≤ 2 ^ 24).

Let size2 := slot_size s * 2.

(** The new table after the first [i] slots have been moved. *)
Definition moved (i : Z) (new : list (option Z)) : Prop :=
  zlen new = size2 ∧
  (∀ (p : nat) c, new !! p = Some (Some c) →
     Z.of_nat p = ctx_handle c `mod` size2 ∧
     ∃ j : nat, Z.of_nat j < i ∧ slot s !! j = Some (Some c)) ∧
  (∀ (j : nat) c, Z.of_nat j < i → slot s !! j = Some (Some c) →
     new !! Z.to_nat (ctx_handle c `mod` size2) = Some (Some c)).

Lemma size2_pow : ∃ k, 2 ≤ k ≤ 24 ∧ size2 = 2 ^ k.
Proof.
  destruct (sw_size _ _ W) as (k & Hk & Ek). unfold size2 in *. rewrite Ek in *.
  assert (2 ^ (k + 1) = 2 ^ k * 2) as E by (rewrite Z.pow_add_r; lia).
  exists (k + 1). split; [|done]. split; [lia|]. apply (Z.pow_le_mono_r_iff 2); lia.
Qed.

(** A handle's slot in the new table determines its slot in the old one. *)
Lemma size2_mod h : (h `mod` size2) `mod` slot_size s = h `mod` slot_size s.
Proof.
  apply Z.mod_mod_divide. exists 2. unfold size2. lia.
Qed.

Lemma size2_hash h : Z.land h (size2 - 1) = h `mod` size2.
Proof. destruct size2_pow as (k & Hk & ->). apply land_ones_mod. lia. Qed.

Lemma moved_step i new :
  0 ≤ i < slot_size s → moved i new →
  ∃ new', (c ← rd (slot s) i;
           ctx ← of_option NullDeref c;
           let hash := Z.land (ctx_handle ctx) (size2 - 1) in
           old ← rd new hash;
           c_assert (bool_decide (old = None)) ;;
           wr new hash (Some ctx)) = Ok new' ∧ moved (i + 1) new'.
Proof.
  intros Hi (Hl & Hfrom & Hto). pose proof (sw_len _ _ W) as Hsl.
  destruct (rd_Ok (slot s) i) as [x Hx]; [lia|]. rewrite Hx, bind_Ok.
  apply rd_Ok_inv in Hx as [_ Hx]. destruct x as [c|]; [|by destruct (Hfull (Z.to_nat i))].
  simpl of_option. rewrite bind_Ok. cbv zeta.
  rewrite !size2_hash. set (h := ctx_handle c `mod` size2).
  assert (0 ≤ h < size2) as Hh by (apply Z.mod_pos_bound; unfold size2; lia).
  destruct (rd_Ok new h) as [old Hold]; [lia|]. rewrite Hold, bind_Ok.
  apply rd_Ok_inv in Hold as [_ Hold].
  assert (∀ c', new !! Z.to_nat h ≠ Some (Some c')) as Hfree.
  { intros c' (Hp & j & Hj & Hc')%Hfrom. apply (slot_home _ _ W) in Hx, Hc'.
    rewrite <- size2_mod, <- Hp in Hc'. unfold h in Hc'.
    rewrite Z2Nat.id, size2_mod in Hc' by lia. lia. }
  destruct old as [c'|]; [by destruct (Hfree c')|]. simpl. rewrite wr_Ok by lia.
  eexists. split; [done|]. split; [by rewrite zlen_insert|]. split.
  - intros p c'. destruct (decide (p = Z.to_nat h)) as [->|Hne].
    + rewrite list_lookup_insert_eq by (unfold zlen in *; lia). intros [= <-].
      split; [lia|]. exists (Z.to_nat i). split; [lia|done].
    + rewrite list_lookup_insert_ne by done. intros (? & j & ? & ?)%Hfrom. split; [done|].
      exists j. split; [lia|done].
  - intros j c' Hj Hc'. destruct (decide (j = Z.to_nat i)) as [->|Hne].
    + assert (c' = c) as -> by congruence. fold h.
      rewrite list_lookup_insert_eq by (unfold zlen in *; lia). done.
    + rewrite list_lookup_insert_ne; [apply (Hto j); [lia|done]|].
      intros E. apply (slot_home _ _ W) in Hx, Hc'. rewrite <- size2_mod in Hx, Hc'.
      fold h in Hx. assert (ctx_handle c' `mod` size2 = h) as Eh.
      { pose proof (Z.mod_pos_bound (ctx_handle c') size2 ltac:(unfold size2; lia)). lia. }
      rewrite Eh in Hc'. lia.
Qed.

Section Moved.
Context (new : list (option Z)) (M : moved (slot_size s) new).
Let s' := with_slots s (handle_index s) size2 new.

Lemma moved_wf : slots_wf ctx_handle s'.
Proof.
  destruct M as (Hl & Hfrom & _). destruct W as [_ _ Hhb Hidx Hsl].
  split; simpl; auto using size2_pow.
  intros p c Hc. destruct (Hfrom p c Hc) as (Hpc & j & _ & Hj).
  destruct (Hsl j c Hj) as (low & Hlow & E & _). exists low. split; [done|].
  split; [done|]. rewrite Hpc, E. destruct size2_pow as (k & Hk & ->), Hhb as (hb & _ & ->).
  rewrite add_mul_pow2_mod by lia. done.
Qed.

(** Slots [0] and [slot_size] cannot both be taken: they share a home. *)
Lemma moved_free : ∃ f, new !! f = Some None.
Proof.
  destruct M as (Hl & Hfrom & _). pose proof (slot_size_pos _ _ W). unfold size2 in Hl.
  destruct (lookup_lt_is_Some_2 new 0) as [[c0|] H0]; [unfold zlen in *; lia| |by eauto].
  destruct (lookup_lt_is_Some_2 new (Z.to_nat (slot_size s))) as [[c1|] H1];
    [unfold zlen in *; lia| |by eauto].
  exfalso. destruct (Hfrom _ _ H0) as (E0 & j0 & _ & J0), (Hfrom _ _ H1) as (E1 & j1 & _ & J1).
  pose proof (slot_home _ _ W _ _ J0) as S0. pose proof (slot_home _ _ W _ _ J1) as S1.
  rewrite <- size2_mod, <- E0 in S0. rewrite <- size2_mod, <- E1 in S1.
  rewrite Z2Nat.id, Z.mod_same in S1 by lia. rewrite Z.mod_0_l in S0 by lia.
  assert (j0 = j1) as -> by lia. assert (c0 = c1) as -> by congruence. lia.
Qed.

Lemma moved_lookup h : handle_lookup ctx_handle s' h = handle_lookup ctx_handle s h.
Proof.
  destruct M as (Hl & Hfrom & Hto). pose proof moved_wf as W'.
  destruct (handle_lookup_Ok _ _ W h) as [r Hr], (handle_lookup_Ok _ _ W' h) as [r' Hr'].
  assert (∀ c, r' = Some c ↔ r = Some c) as Hiff; cycle 1.
  { rewrite Hr, Hr'. f_equal. destruct r as [c|]; [by apply Hiff|].
    destruct r' as [c|]; [|done]. symmetry. by apply Hiff. }
  intros c. transitivity (handle_lookup ctx_handle s' h = Ok (Some c));
    [rewrite Hr'; naive_solver|].
  transitivity (handle_lookup ctx_handle s h = Ok (Some c)); [|rewrite Hr; naive_solver].
  rewrite (handle_lookup_spec _ _ W'), (handle_lookup_spec _ _ W).
  split; intros [Hc Hh]; (split; [|done]); subst h; simpl in *.
  - destruct (Hfrom _ _ Hc) as (_ & j & _ & Hj). rewrite (slot_home _ _ W _ _ Hj).
    by rewrite Nat2Z.id.
  - pose proof (hash_range _ _ W (ctx_handle c)) as Hr1. rewrite (sw_len _ _ W) in Hr1.
    apply (Hto (Z.to_nat (ctx_handle c `mod` slot_size s))); [lia|done].
Qed.
End Moved.

Lemma slot_grow_spec :
  ∃ s', slot_grow ctx_handle s = Ok s' ∧ slots_wf ctx_handle s' ∧
    (∃ f, slot s' !! f = Some None) ∧
    (∀ i c, slot s' !! i = Some (Some c) → ∃ j, slot s !! j = Some (Some c)) ∧
    (∀ h, handle_lookup ctx_handle s' h = handle_lookup ctx_handle s h) ∧
    harbor s' = harbor s ∧ name_cap s' = name_cap s ∧
    name_count s' = name_count s ∧ names s' = names s.
Proof.
  pose proof (slot_size_pos _ _ W) as Hp. unfold slot_grow.
  rewrite c_int_Ok by (unfold INT_MIN, INT_MAX; lia). rewrite bind_Ok.
  rewrite c_assert_true by (apply bool_decide_eq_true_2; unfold HANDLE_MASK; lia).
  rewrite bind_Ok. fold size2.
  match goal with |- context [c_for ?n 0 ?body ?st] =>
    destruct (c_for_spec moved body n 0 st) as (new & -> & M) end.
  { split; [rewrite zlen_replicate; unfold size2; lia|]. split; [|lia].
    intros p c [? _]%lookup_replicate. done. }
  { intros j new Hj. apply moved_step. lia. }
  rewrite bind_Ok. rewrite Z2Nat.id, Z.add_0_l in M by lia.
  eexists. split; [reflexivity|]. split; [by apply moved_wf|].
  split; [by apply moved_free|]. split; [|split; [by apply moved_lookup|done]].
  intros p c Hc. destruct M as (_ & Hfrom & _).
  destruct (Hfrom p c Hc) as (_ & j & _ & ?). eauto.
Qed.
End Grow.

(** *** Registering and retiring *)

Lemma register_free ctx_handle s ctx f :
  slots_wf ctx_handle s → slot s !! f = Some None →
  (∀ i, slot s !! i ≠ Some (Some ctx)) →
  ∃ h s', (∀ n, register_loop ctx_handle (S n) s ctx = Ok (h, s')) ∧
    slots_wf (<[ctx := h]> ctx_handle) s' ∧
    (∀ i c, slot s !! i = Some (Some c) → ctx_handle c ≠ h) ∧
    (∀ h', handle_lookup (<[ctx := h]> ctx_handle) s' h' =
       if decide (h' = h) then Ok (Some ctx) else handle_lookup ctx_handle s h') ∧
    (∃ low, 0 ≤ low < 2 ^ 24 ∧ h = low + harbor s) ∧
    name_cap s' = name_cap s ∧ name_count s' = name_count s ∧ names s' = names s.
Proof.
  intros W Hf Hctx. pose proof (slot_size_pos _ _ W) as Hp.
  destruct (slot_scan_full _ _ W f Hf) as (low & hash & Hscan & Hlow & -> & Hfree).
  pose proof (hash_range _ _ W low) as Hr. set (hash := low `mod` slot_size s) in *.
  destruct (sw_harbor _ _ W) as (hb & Hhb & Ehb).
  set (h := low + harbor s).
  set (s' := with_slots s (u32 (low + 1)) (slot_size s) (<[Z.to_nat hash := Some ctx]> (slot s))).
  assert (Z.lor low (harbor s) = h) as Eh by (rewrite Ehb; unfold h; rewrite Ehb;
    apply lor_add_high; lia).
  assert (h `mod` slot_size s = hash) as Hhash by apply (slot_hash_low _ _ W).
  assert (∀ i c, slot s !! i = Some (Some c) → ctx_handle c ≠ h) as Hfresh.
  { intros i c Hc E. apply (slot_home _ _ W) in Hc as Hhome. rewrite E, Hhash in Hhome.
    rewrite Hhome, Nat2Z.id in Hfree. congruence. }
  assert (slots_wf (<[ctx := h]> ctx_handle) s') as W'.
  { split; simpl; [apply W|rewrite zlen_insert; apply W|by eauto|rewrite uwrap_small; lia|].
    - intros i c. destruct (decide (i = Z.to_nat hash)) as [->|Hne].
      + rewrite list_lookup_insert_eq by (unfold zlen in *; lia). intros [= <-].
        exists low. rewrite fn_lookup_insert. split; [done|]. split; [done|]. lia.
      + rewrite list_lookup_insert_ne by done. intros Hc.
        rewrite fn_lookup_insert_ne by (intros ->; by apply (Hctx i)).
        apply (sw_slot _ _ W _ _ Hc). }
  exists h, s'. split.
  { intros n. simpl. rewrite Hscan, bind_Ok, wr_Ok, bind_Ok, Eh by lia. done. }
  split; [done|]. split; [done|]. split; [|split; [by exists low|done]]. intros h'.
  case_decide as Hd.
  - subst h'. apply (handle_lookup_spec _ _ W'). unfold s'. simpl. rewrite Hhash.
    rewrite list_lookup_insert_eq, fn_lookup_insert by (unfold zlen in *; lia). done.
  - unfold handle_lookup. rewrite (slot_hash _ _ W'), (slot_hash _ _ W). simpl.
    destruct (decide (h' `mod` slot_size s = hash)) as [E|E].
    + rewrite E, (rd_lookup _ hash (Some ctx)) by
        (lia || (rewrite list_lookup_insert_eq by (unfold zlen in *; lia); done)).
      rewrite (rd_lookup (slot s) hash None) by (lia || done). rewrite !bind_Ok.
      rewrite fn_lookup_insert, decide_False by done. done.
    + destruct (hash_cell _ _ W h') as [x Hx]. pose proof (hash_range _ _ W h').
      apply rd_Ok_inv in Hx as [_ Hx].
      rewrite (rd_lookup _ (h' `mod` slot_size s) x) by
        (lia || (rewrite list_lookup_insert_ne by lia; done)).
      rewrite (rd_lookup _ (h' `mod` slot_size s) x) by (lia || done).
      rewrite !bind_Ok. destruct x as [c|]; [|done].
      rewrite fn_lookup_insert_ne; [done|]. intros ->. by apply (Hctx _ Hx).
Qed.

Lemma slot_full_dec (l : list (option Z)) :
  (∃ f, l !! f = Some None) ∨ (∀ i : nat, l !! i ≠ Some None).
Proof.
  destruct (decide (None ∈ l)) as [H|H].
  - left. by apply list_elem_of_lookup in H.
  - right. intros i Hi. by apply H, list_elem_of_lookup_2 with i.
Qed.

Lemma retire_spec ctx_handle s l h :
  slots_wf ctx_handle s → names_repr s l →
  ∃ c s', handle_lookup ctx_handle s h = Ok c ∧
    skynet_handle_retire ctx_handle s h = Ok (if c then 1 else 0, c, s') ∧
    slots_wf ctx_handle s' ∧
    names_repr s' (if c then keep_names h l else l) ∧
    (∀ h', handle_lookup ctx_handle s' h' =
       if decide (h' = h) then Ok None else handle_lookup ctx_handle s h') ∧
    (c = None → s' = s) ∧ slot_size s' = slot_size s ∧
    (∀ i : nat, slot s' !! i =
       if decide (c ≠ None ∧ Z.of_nat i = h `mod` slot_size s) then Some None else slot s !! i).
Proof.
  intros W N. destruct (handle_lookup_Ok _ _ W h) as [c Hc].
  pose proof Hc as Hc0. unfold handle_lookup in Hc. unfold skynet_handle_retire.
  rewrite (slot_hash _ _ W) in *. pose proof (hash_range _ _ W h) as Hr.
  destruct (hash_cell _ _ W h) as [x Hx]. rewrite Hx in *. rewrite bind_Ok in *.
  assert ((c = None ∧ (∀ ctx, x = Some ctx → ctx_handle ctx ≠ h)) ∨
    ∃ ctx, c = Some ctx ∧ x = Some ctx ∧ ctx_handle ctx = h) as Hcase.
  { simpl in Hc. destruct x as [ctx|]; [case_decide; simplify_eq|]; naive_solver. }
  destruct Hcase as [[-> Hno]|(ctx & -> & -> & Hh)].
  - exists None, s. split; [done|]. split.
    { destruct x as [ctx|]; [|done]. rewrite decide_False by auto. done. }
    do 2 (split; [done|]). split; [|split; [done|]].
    + intros h'. case_decide; by subst.
    + split; [done|]. intros i. rewrite decide_False by naive_solver. done.
  - rewrite decide_True by done. rewrite wr_Ok, bind_Ok by done.
    set (s1 := with_slots s (handle_index s) (slot_size s) _).
    destruct (retire_names_spec s1 l h) as (s' & -> & N' & E1 & E2 & E3 & E4).
    { destruct N. by split. }
    rewrite bind_Ok. exists (Some ctx), s'. split; [done|]. split; [done|].
    assert (∀ i : nat, slot s' !! i = if decide (Some ctx ≠ None ∧
        Z.of_nat i = h `mod` slot_size s) then Some None else slot s !! i) as Hsl.
    { intros i. rewrite E4. unfold s1. simpl. case_decide as Hi.
      - destruct Hi as [_ Hi]. rewrite <- Hi, Nat2Z.id.
        apply list_lookup_insert_eq. unfold zlen in *. lia.
      - rewrite list_lookup_insert_ne; [done|]. intros E. apply Hi. split; [done|lia]. }
    assert (slots_wf ctx_handle s') as W'.
    { destruct W. split; rewrite ?E1, ?E2, ?E3; simpl; auto.
      - rewrite E4. simpl. by rewrite zlen_insert.
      - intros i c Hi. apply sw_slot0. rewrite Hsl in Hi. by case_decide. }
    split; [done|]. split; [done|]. split; [|split; [done|by split; [rewrite E3|]]].
    intros h'. destruct (handle_lookup_Ok _ _ W' h') as [r Hr'].
    unfold handle_lookup. rewrite (slot_hash _ _ W'), (slot_hash _ _ W). rewrite E3. simpl.
    destruct (hash_cell _ _ W h') as [y Hy]. apply rd_Ok_inv in Hy as [Hy1 Hy].
    destruct (decide (h' `mod` slot_size s = h `mod` slot_size s)) as [E|E].
    + rewrite E, (rd_lookup (slot s') _ None) by
        (lia || (rewrite Hsl, decide_True; [done|split; [done|lia]])).
      rewrite Hx, !bind_Ok. case_decide; [done|]. by rewrite decide_False by congruence.
    + rewrite (rd_lookup (slot s') _ y) by
        (lia || (rewrite Hsl, decide_False; [done|intros [_ ?]; lia])).
      rewrite (rd_lookup (slot s) _ y) by (lia || done). rewrite !bind_Ok.
      rewrite decide_False by congruence. done.
Qed.

(** One pass over the table, from slot [i] on: slots below [i] are empty, the
    others untouched. *)
Definition pass_at (ctx_handle : Z → Z) (s : handle_storage) (rel0 : list Z) (i : Z)
    (st : Z * list Z * handle_storage) : Prop :=
  slots_wf ctx_handle st.2 ∧ (∃ l, names_repr st.2 l) ∧ slot_size st.2 = slot_size s ∧
  st.1.1 = zlen (omap id (take (Z.to_nat i) (slot s))) ∧
  st.1.2 = rel0 ++ omap id (take (Z.to_nat i) (slot s)) ∧
  (∀ k : nat, slot st.2 !! k =
     if decide (Z.of_nat k < i) then (λ _, None) <$> slot s !! k else slot s !! k).

Lemma retire_pass_spec ctx_handle s l rel0 :
  slots_wf ctx_handle s → names_repr s l →
  (∀ i c, slot s !! i = Some (Some c) → ctx_handle c ≠ 0) →
  ∃ s', retire_pass ctx_handle s rel0 =
      Ok (zlen (omap id (slot s)), rel0 ++ omap id (slot s), s') ∧
    slots_wf ctx_handle s' ∧ (∃ l', names_repr s' l') ∧
    (∀ i c, slot s' !! i = Some (Some c) → False) ∧ omap id (slot s') = [].
Proof.
  intros W N Hnz. pose proof (sw_len _ _ W) as Hsl. pose proof (slot_size_pos _ _ W).
  unfold retire_pass. match goal with |- context [c_for ?n 0 ?body ?st] =>
    destruct (c_for_spec (pass_at ctx_handle s rel0) body n 0 st)
      as ([[n' rel] s'] & -> & W' & N' & _ & En & Er & Hs') end; simpl in *.
  - repeat split; simpl; try apply W; eauto; [by rewrite app_nil_r|].
    intros k. rewrite decide_False by lia. done.
  - intros i [[n rel] s1] Hi (W1 & [l1 N1] & Es & En & Er & Hk). simpl in *. subst n rel.
    rewrite Z2Nat.id in Hi by lia.
    destruct (rd_Ok (slot s1) i) as [x Hx]; [rewrite (sw_len _ _ W1); lia|].
    rewrite Hx. simpl. apply rd_Ok_inv in Hx as [_ Hx]. pose proof (Hk (Z.to_nat i)) as Hki.
    rewrite decide_False, Hx in Hki by lia. symmetry in Hki.
    replace (Z.to_nat (i + 1)) with (S (Z.to_nat i)) by lia.
    unfold pass_at. replace (Z.to_nat (i + 1)) with (S (Z.to_nat i)) by lia.
    rewrite (take_S_r _ _ _ Hki), omap_app.
    destruct x as [c|]; simpl.
    + rewrite decide_True by eauto.
      destruct (retire_spec _ _ _ (ctx_handle c) W1 N1)
        as (c' & s2 & Hlk & -> & W2 & N2 & _ & _ & Es2 & Hsl2).
      assert (handle_lookup ctx_handle s1 (ctx_handle c) = Ok (Some c)) as Hc.
      { apply (handle_lookup_spec _ _ W1). rewrite (slot_home _ _ W1 _ _ Hx).
        by rewrite Nat2Z.id. }
      rewrite Hc in Hlk. injection Hlk as <-. simpl. eexists. split; [reflexivity|].
      simpl. split; [done|]. split; [eauto|]. split; [congruence|].
      rewrite zlen_app, <- app_assoc. split; [done|]. split; [done|].
      rewrite (slot_home _ _ W1 _ _ Hx) in Hsl2. intros k. rewrite Hsl2.
      destruct (decide (k = Z.to_nat i)) as [->|Hne].
      * rewrite !decide_True by (split; done || lia) || lia. by rewrite Hki.
      * rewrite decide_False by (intros [_ ?]; lia). rewrite Hk.
        repeat case_decide; done || lia.
    + eexists. split; [reflexivity|]. simpl. rewrite !app_nil_r.
      split; [done|]. split; [eauto|]. split; [done|]. split; [done|]. split; [done|].
      intros k. rewrite Hk. destruct (decide (k = Z.to_nat i)) as [->|Hne].
      * rewrite decide_False, decide_True by lia. by rewrite Hki.
      * repeat case_decide; done || lia.
  - rewrite Z2Nat.id, Z.add_0_l in En, Er, Hs' by lia.
    rewrite take_ge in En, Er by (unfold zlen in *; lia).
    assert (∀ i c, slot s' !! i = Some (Some c) → False) as Hemp.
    { intros i c. rewrite Hs'. case_decide as Hd; [by destruct (slot s !! i)|].
      intros Hi%lookup_lt_Some. unfold zlen in *. lia. }
    exists s'. rewrite En, Er. split; [done|]. split; [done|]. split; [done|].
    split; [done|]. clear -Hemp. revert Hemp. induction (slot s') as [|[c|] t IH]; intros Hemp.
    + done.
    + by destruct (Hemp 0%nat c).
    + simpl. apply IH. intros i c Hi. by apply (Hemp (S i) c).
Qed.

(** ** Properties *)

Lemma register_spec ctx_handle s ctx :
  slots_wf ctx_handle s → (∀ i, slot s !! i ≠ Some (Some ctx)) →
  ((∃ f, slot s !! f = Some None) ∨ slot_size s * 2 ≤ 2 ^ 24) →
  ∃ h s', skynet_handle_register ctx_handle s ctx = Ok (h, s') ∧
    slots_wf (<[ctx := h]> ctx_handle) s' ∧
    (∀ i c, slot s !! i = Some (Some c) → ctx_handle c ≠ h) ∧
    (∀ h', handle_lookup (<[ctx := h]> ctx_handle) s' h' =
       if decide (h' = h) then Ok (Some ctx) else handle_lookup ctx_handle s h') ∧
    (∃ low, 0 ≤ low < 2 ^ 24 ∧ h = low + harbor s) ∧
    name_cap s' = name_cap s ∧ name_count s' = name_count s ∧ names s' = names s.
Proof.
  intros W Hctx Hroom. unfold skynet_handle_register.
  destruct (slot_full_dec (slot s)) as [[f Hf]|Hfull].
  - destruct (register_free _ _ _ _ W Hf Hctx) as (h & s' & E & ? & ? & ? & ? & ? & ? & ?).
    exists h, s'. rewrite E. auto 10.
  - destruct Hroom as [[f Hf]|Hroom]; [by destruct (Hfull f)|].
    pose proof (slot_size_pos _ _ W).
    destruct (slot_grow_spec _ _ W Hfull Hroom)
      as (s1 & Eg & W1 & [f Hf] & Hsub & Hlk & Ehb & En1 & En2 & En3).
    destruct (register_free _ _ ctx _ W1 Hf) as (h & s' & E & ? & Hfr & Hl & Hlow & Em1 & Em2 & Em3).
    { intros i [j Hj]%Hsub. by apply (Hctx j). }
    exists h, s'. simpl.
    destruct (slot_scan_spec _ _ W (Z.to_nat (slot_size s)) 0) as (r & Hs & Hr); [lia|lia|].
    rewrite Hs, bind_Ok. destruct r as [[h0 hash]|]; [destruct Hr as (_ & _ & Hr);
      by destruct (Hfull _ Hr)|].
    rewrite Eg, bind_Ok. specialize (E 0%nat). simpl in E. split; [exact E|]. split; [done|].
    rewrite <- Ehb, <- En1, <- En2, <- En3. split; [|split; [|done]].
    + intros i c Hc Ec. specialize (Hlk h).
      assert (handle_lookup ctx_handle s h = Ok (Some c)) as E1.
      { apply (handle_lookup_spec _ _ W). rewrite <- Ec, (slot_home _ _ W _ _ Hc).
        by rewrite Nat2Z.id. }
      rewrite E1 in Hlk. apply (handle_lookup_spec _ _ W1) in Hlk as [Hs1 _].
      by apply (Hfr _ _ Hs1).
    + intros h'. rewrite Hl. case_decide; [done|]. apply Hlk.
Qed.

(** C14: registering a context. Unless every slot is taken and doubling the table
    would leave the 24-bit handle space, registration succeeds within one
    doubling; the new handle is held by no other context, carries the node's
    harbor in its high byte, finds exactly the new context afterwards, and every
    other handle still finds what it found before. *)
Theorem register_fresh_handle ctx_handle s ctx :
  slots_wf ctx_handle s → (∀ i, slot s !! i ≠ Some (Some ctx)) →
  ((∃ f, slot s !! f = Some None) ∨ slot_size s * 2 ≤ 2 ^ 24) →
  ∃ h s', skynet_handle_register ctx_handle s ctx = Ok (h, s') ∧
    slots_wf (<[ctx := h]> ctx_handle) s' ∧
    (∀ i c, slot s !! i = Some (Some c) → ctx_handle c ≠ h) ∧
    (∀ h', handle_lookup (<[ctx := h]> ctx_handle) s' h' =
       if decide (h' = h) then Ok (Some ctx) else handle_lookup ctx_handle s h') ∧
    (∃ low, 0 ≤ low < 2 ^ 24 ∧ h = low + harbor s).
Proof.
  intros W Hctx Hroom. destruct (register_spec _ _ _ W Hctx Hroom) as (h & s' & ? & ? & ? & ? & ? & _).
  exists h, s'. auto 10.
Qed.

Lemma register_fresh_handle_witness :
  ∃ h s', skynet_handle_register (λ _, 0) (skynet_handle_init 1) 77 = Ok (h, s') ∧
    handle_lookup (<[77 := h]> (λ _, 0)) s' h = Ok (Some 77).
Proof.
  destruct (register_fresh_handle (λ _, 0) (skynet_handle_init 1) 77)
    as (h & s' & E & _ & _ & Hl & _).
  - apply slots_wf_init.
  - intros i. do 4 (destruct i; [done|]). done.
  - left. exists 0%nat. reflexivity.
  - exists h, s'. split; [exact E|]. rewrite Hl, decide_True; reflexivity.
Defined.

(** What a table of names answers. *)
Definition names_find (l : list handle_name) (nm : cstring) : Z :=
  match list_find (λ n, name n = nm) l with Some (_, n) => nhandle n | None => 0 end.

Lemma names_find_in l nm n :
  (∀ (i j : nat) a b, l !! i = Some a → l !! j = Some b → (i < j)%nat → name_lt a b) →
  n ∈ l → name n = nm → names_find l nm = nhandle n.
Proof.
  intros Hs [i Hi]%list_elem_of_lookup Hn. unfold names_find.
  destruct (list_find (λ n, name n = nm) l) as [[j m]|] eqn:E.
  - apply list_find_Some in E as (Hj & Hm & _).
    destruct (lt_eq_lt_dec i j) as [[Hlt|Heq]|Hlt].
    + specialize (Hs _ _ _ _ Hi Hj Hlt). unfold name_lt in Hs.
      rewrite Hn, Hm, strcmp_refl in Hs. lia.
    + subst. congruence.
    + specialize (Hs _ _ _ _ Hj Hi Hlt). unfold name_lt in Hs.
      rewrite Hn, Hm, strcmp_refl in Hs. lia.
  - eapply list_find_None, Forall_lookup_1 in E; [|exact Hi]. done.
Qed.
Lemma names_find_none l nm :
  (∀ n, n ∈ l → name n ≠ nm) → names_find l nm = 0.
Proof.
  intros H. unfold names_find.
  destruct (list_find (λ n, name n = nm) l) as [[j m]|] eqn:E; [|done].
  apply list_find_Some in E as (Hj & Hm & _). by destruct (H m); [eapply list_elem_of_lookup_2|].
Qed.

Lemma findname_spec s l nm :
  names_repr s l → cstring_ok nm → skynet_handle_findname s nm = Ok (names_find l nm).
Proof.
  intros H Hnm. unfold skynet_handle_findname.
  destruct (search_all s l nm H Hnm) as (r & -> & Hr). rewrite bind_Ok. f_equal.
  destruct r as [n|p].
  - destruct Hr as [Hin Hn]. f_equal. symmetry. by apply names_find_in; [apply H|..].
  - destruct Hr as [_ Hsp]. f_equal. symmetry. apply names_find_none.
    intros n Hin. by eapply splits_not_in.
Qed.

Lemma namehandle_spec s l h nm :
  names_repr s l → cstring_ok nm → zlen l < MAX_SLOT_SIZE →
  ∃ r s' l', skynet_handle_namehandle s h nm = Ok (r, s') ∧ names_repr s' l' ∧
    (∀ x, cstring_ok x → skynet_handle_findname s' x = Ok
       (if decide (x = nm ∧ r = Some nm) then h else names_find l x)) ∧
    (r = if decide (nm ∈ name <$> l) then None else Some nm) ∧
    (r = None → s' = s).
Proof.
  intros H Hnm Hmax. unfold skynet_handle_namehandle, insert_name.
  destruct (search_all s l nm H Hnm) as (r & -> & Hr). rewrite bind_Ok.
  destruct r as [n|p].
  - exists None, s, l. split; [done|]. split; [done|]. split; [|split; [|done]].
    + intros x Hx. rewrite decide_False by naive_solver. by apply findname_spec.
    + rewrite decide_True; [done|]. apply list_elem_of_fmap. destruct Hr. eauto.
  - destruct Hr as [Hp Hsp].
    destruct (insert_name_before_spec s l nm h p H Hnm Hmax Hp Hsp) as (s' & -> & H' & _).
    rewrite bind_Ok. eexists (Some nm), s', _. split; [done|]. split; [exact H'|].
    assert (∀ n, n ∈ l → name n ≠ nm) as Hno by (intros; by eapply splits_not_in).
    set (l' := take (Z.to_nat p) l ++ mk_name nm h :: drop (Z.to_nat p) l) in *.
    assert (∀ n, n ∈ l' ↔ n ∈ l ∨ n = mk_name nm h) as Hin'.
    { intros n. unfold l'. rewrite <- (take_drop (Z.to_nat p) l) at 3. set_solver. }
    split; [|split; [|done]].
    + intros x Hx. rewrite (findname_spec s' l') by done. f_equal. case_decide as Hd.
      * destruct Hd as [-> _]. rewrite (names_find_in l' nm (mk_name nm h)); try done;
          [apply H'|apply Hin'; auto].
      * destruct (decide (x ∈ name <$> l)) as [(n & -> & Hn)%list_elem_of_fmap|Hnone].
        -- rewrite !(names_find_in _ _ n); try done; [apply H|apply H'|apply Hin'; auto].
        -- assert (∀ n, n ∈ l → name n ≠ x) as Hnx
             by (intros n Hn <-; apply Hnone, list_elem_of_fmap; eauto).
           rewrite !names_find_none; [done|done|].
           intros n [Hn| ->]%Hin'; [by apply Hnx|simpl; naive_solver].
    + rewrite decide_False; [done|]. intros (n & -> & Hn)%list_elem_of_fmap. by apply (Hno n).
Qed.

(** Naming a service. Binding a name that is free keeps the table sorted and
    makes exactly that name resolve to the handle, every other name resolving as
    before, also when the table has to grow; binding a name that is taken returns
    NULL and changes nothing. The binary search always terminates. *)
Theorem namehandle_then_findname s l h nm :
  names_repr s l → cstring_ok nm → zlen l < MAX_SLOT_SIZE →
  ∃ r s' l', skynet_handle_namehandle s h nm = Ok (r, s') ∧ names_repr s' l' ∧
    (∀ x, cstring_ok x → skynet_handle_findname s' x = Ok
       (if decide (x = nm ∧ r = Some nm) then h else names_find l x)) ∧
    (r = if decide (nm ∈ name <$> l) then None else Some nm) ∧
    (r = None → s' = s).
Proof. exact (namehandle_spec s l h nm). Qed.

Lemma namehandle_then_findname_witness :
  ∃ r s' l', skynet_handle_namehandle (skynet_handle_init 0) 5 [97; 98] = Ok (r, s') ∧
    names_repr s' l' ∧ skynet_handle_findname s' [97; 98] = Ok 5.
Proof.
  destruct (namehandle_then_findname (skynet_handle_init 0) [] 5 [97; 98])
    as (r & s' & l' & E & Hr & Hf & Er & _).
  - apply names_repr_init.
  - repeat constructor; lia.
  - reflexivity.
  - exists r, s', l'. split; [exact E|]. split; [exact Hr|].
    rewrite Hf by (repeat constructor; lia).
    rewrite decide_False in Er by set_solver. rewrite decide_True by done. reflexivity.
Defined.

(** Retiring a handle. A registered handle is removed together with all its
    names and the context is handed back for release; afterwards it finds nothing
    and every other handle and every name of another handle is unaffected. An
    unknown handle changes nothing. *)
Theorem retire_removes_handle ctx_handle s l h :
  slots_wf ctx_handle s → names_repr s l →
  ∃ c s', handle_lookup ctx_handle s h = Ok c ∧
    skynet_handle_retire ctx_handle s h = Ok (if c then 1 else 0, c, s') ∧
    slots_wf ctx_handle s' ∧
    names_repr s' (if c then keep_names h l else l) ∧
    (∀ h', handle_lookup ctx_handle s' h' =
       if decide (h' = h) then Ok None else handle_lookup ctx_handle s h') ∧
    (c = None → s' = s).
Proof.
  intros W N. destruct (retire_spec _ _ _ h W N) as (c & s' & ? & ? & ? & ? & ? & ? & _).
  exists c, s'. auto 10.
Qed.

Lemma retire_removes_handle_witness :
  ∃ c s', handle_lookup (λ _, 16777217) (skynet_handle_init 1) 9 = Ok c ∧
    skynet_handle_retire (λ _, 16777217) (skynet_handle_init 1) 9
      = Ok (if c then 1 else 0, c, s') ∧ handle_lookup (λ _, 16777217) s' 9 = Ok None.
Proof.
  destruct (retire_removes_handle (λ _, 16777217) (skynet_handle_init 1) [] 9)
    as (c & s' & ? & ? & _ & _ & Hl & _).
  - apply slots_wf_init.
  - apply names_repr_init.
  - exists c, s'. rewrite Hl, decide_True; auto.
Defined.

(** Shutting a node down. When no registered context has handle 0,
    skynet_handle_retireall terminates after at most two passes, releases every
    registered context exactly once, in slot order, and leaves the table empty. *)
Theorem retireall_releases_everything ctx_handle s l :
  slots_wf ctx_handle s → names_repr s l →
  (∀ i c, slot s !! i = Some (Some c) → ctx_handle c ≠ 0) →
  ∃ s', skynet_handle_retireall ctx_handle s = Ok (omap id (slot s), s') ∧
    slots_wf ctx_handle s' ∧ (∀ i c, slot s' !! i = Some (Some c) → False).
Proof.
  intros W N Hnz. unfold skynet_handle_retireall, retireall_loop.
  destruct (retire_pass_spec _ _ _ [] W N Hnz) as (s1 & -> & W1 & [l1 N1] & Hemp & Hom).
  rewrite bind_Ok. simpl. case_decide; [by exists s1|].
  destruct (retire_pass_spec _ _ _ (omap id (slot s)) W1 N1)
    as (s2 & -> & W2 & _ & Hemp2 & _).
  { intros i c Hi. by destruct (Hemp i c). }
  rewrite Hom, app_nil_r. simpl. by exists s2.
Qed.

Definition demo_storage : handle_storage :=
  with_slots (skynet_handle_init 1) 2 4 [None; Some 77; None; None].

Lemma retireall_releases_everything_witness :
  ∃ s', skynet_handle_retireall (λ _, 16777217) demo_storage = Ok ([77], s').
Proof.
  destruct (retireall_releases_everything (λ _, 16777217) demo_storage [])
    as (s' & E & _ & _).
  - pose proof (slots_wf_init (λ _, 16777217) 1) as [Hs Hl Hh Hi _].
    split; simpl; try done.
    intros i c Hi0. destruct i as [|[|[|[|i]]]]; try done. exists 1. split; [lia|done].
  - pose proof (names_repr_init 1) as []. by split.
  - done.
  - exists s'. exact E.
Defined.

(** A service that starts and stops: one registration followed by the retirement
    of the handle it got. *)
Definition start_stop (s : handle_storage) : result handle_storage :=
  r ← skynet_handle_register (λ _, 0) s 1;
  r' ← skynet_handle_retire (λ _, r.1) r.2 r.1;
  Ok r'.2.
Fixpoint start_stops (n : nat) (s : handle_storage) : result handle_storage :=
  match n with O => Ok s | S n' => s' ← start_stops n' s; start_stop s' end.

(** An idle single node whose next handle index is [i]. *)
Definition idle (i : Z) : handle_storage := with_slots (skynet_handle_init 0) i 4
  [None; None; None; None].

Lemma idle_register h i ctx :
  0 ≤ i ≤ 2 ^ 24 →
  skynet_handle_register h (idle i) ctx =
    Ok (i `mod` 2 ^ 24, with_slots (idle i) (i `mod` 2 ^ 24 + 1) 4
          (<[Z.to_nat (i `mod` 4) := Some ctx]> [None; None; None; None])).
Proof.
  intros Hi. pose proof (Z.mod_pos_bound i (2 ^ 24) ltac:(lia)).
  pose proof (Z.mod_pos_bound i 4 ltac:(lia)) as Hm.
  assert (Z.land (u32 (0 + i)) HANDLE_MASK = i `mod` 2 ^ 24) as E1.
  { rewrite Z.add_0_l, uwrap_small by lia. by apply (land_ones_mod i 24). }
  assert (Z.land (i `mod` 2 ^ 24) (4 - 1) = i `mod` 4) as E2.
  { change 4 with (2 ^ 2). rewrite land_ones_mod, mod_pow2_mod by lia. done. }
  assert (slot_scan 4 0 (idle i) = Ok (Some (i `mod` 2 ^ 24, i `mod` 4))) as Hscan.
  { change (slot_scan 4 0 (idle i)) with
      (let handle := Z.land (u32 (0 + i)) HANDLE_MASK in
       let hash := Z.land handle (4 - 1) in
       c ← rd (slot (idle i)) hash;
       match c with None => Ok (Some (handle, hash)) | Some _ => slot_scan 3 1 (idle i) end).
    cbv zeta. rewrite E1, E2, (rd_lookup _ (i `mod` 4) None); [done|lia|].
    destruct (Z.to_nat (i `mod` 4)) as [|[|[|[|k]]]] eqn:E; try done. lia. }
  unfold skynet_handle_register. cbn [register_loop].
  change (Z.to_nat (slot_size (idle i))) with 4%nat. rewrite Hscan, bind_Ok.
  rewrite wr_Ok by (change (zlen (slot (idle i))) with 4; lia).
  rewrite bind_Ok, uwrap_small by lia. simpl harbor. rewrite Z.lor_0_r. done.
Qed.

Lemma idle_start_stop i : 0 < i < 2 ^ 24 → start_stop (idle i) = Ok (idle (i + 1)).
Proof.
  intros Hi. unfold start_stop. rewrite idle_register, bind_Ok by lia. simpl fst. simpl snd.
  rewrite (Z.mod_small i (2 ^ 24)) by lia. unfold skynet_handle_retire.
  simpl slot_size. simpl slot. change (4 - 1) with (2 ^ 2 - 1). rewrite land_ones_mod by lia.
  change (2 ^ 2) with 4. pose proof (Z.mod_pos_bound i 4 ltac:(lia)).
  assert (i `mod` 4 = 0 ∨ i `mod` 4 = 1 ∨ i `mod` 4 = 2 ∨ i `mod` 4 = 3)
    as [E|[E|[E|E]]] by lia; rewrite E; simpl; rewrite decide_True by done; reflexivity.
Qed.

Lemma idle_start_stops n :
  Z.of_nat n < 2 ^ 24 → start_stops n (skynet_handle_init 0) = Ok (idle (Z.of_nat n + 1)).
Proof.
  induction n as [|n IH]; intros Hn; [done|]. cbn [start_stops].
  rewrite IH, bind_Ok, idle_start_stop by lia. do 2 f_equal. lia.
Qed.

(** Handle 0 can be handed out. On a node with harbor 0, after 2^24 - 1
    services have started and stopped, the next registration returns handle 0, the
    value the code reserves for the system and uses for "no service". *)
Theorem register_returns_reserved_zero ctx :
  ∃ s s', start_stops (Z.to_nat (2 ^ 24 - 1)) (skynet_handle_init 0) = Ok s ∧
    skynet_handle_register (λ _, 0) s ctx = Ok (0, s').
Proof.
  assert (Z.of_nat (Z.to_nat (2 ^ 24 - 1)) + 1 = 2 ^ 24) as E by lia.
  rewrite idle_start_stops, E by lia. eexists _, _. split; [reflexivity|].
  rewrite idle_register by lia. rewrite Z.mod_same by lia. reflexivity.
Qed.
