(* ===== verification/Timer.v ===== *)
(** * The timer wheel: skynet-src/skynet_timer.c

    A wheel of 256 near slots and four levels of 64 slots. The theorems show
    that every timer fires at the tick its deadline falls on: [timer_update]
    refines the removal of the due timers from a multiset of pending ones. *)
From stdpp Require Import base list numbers gmap.
From S2P Require Import Prelude Mq.

Definition TIME_NEAR_SHIFT : Z := 8.
Definition TIME_NEAR : Z := Z.shiftl 1 TIME_NEAR_SHIFT.
Definition TIME_LEVEL_SHIFT : Z := 6.
Definition TIME_LEVEL : Z := Z.shiftl 1 TIME_LEVEL_SHIFT.
Definition TIME_NEAR_MASK : Z := TIME_NEAR - 1.
Definition TIME_LEVEL_MASK : Z := TIME_LEVEL - 1.
(** skynet.h *)
Definition PTYPE_RESPONSE : Z := 1.

Record timer_event : Type := mk_event { ev_handle : Z; ev_session : Z }.

(** [struct timer_node] with the event stored behind it. A [struct link_list] is
    the list of its nodes from [head.next] to [tail]. *)
Record timer_node : Type := mk_node { expire : Z; event : timer_event }.

Record timer : Type := mk_timer {
  near : list (list timer_node);
  t : list (list (list timer_node));
  time : Z;
  starttime : Z;
  current : Z;
  current_point : Z }.

Definition set_wheel (T : timer) (n : list (list timer_node))
    (l : list (list (list timer_node))) : timer :=
  {| near := n; t := l; time := time T; starttime := starttime T;
     current := current T; current_point := current_point T |}.
Definition set_time (T : timer) (c : Z) : timer :=
  {| near := near T; t := t T; time := c; starttime := starttime T;
     current := current T; current_point := current_point T |}.

(** [link] at the end of a near list, or of a list of a level. *)
Definition link_near (T : timer) (i : Z) (node : timer_node) : result timer :=
  l ← rd (near T) i;
  n ← wr (near T) i (l ++ [node]);
  Ok (set_wheel T n (t T)).
Definition link_level (T : timer) (level idx : Z) (node : timer_node) : result timer :=
  row ← rd (t T) level;
  l ← rd row idx;
  row' ← wr row idx (l ++ [node]);
  t' ← wr (t T) level row';
  Ok (set_wheel T (near T) t').

(** [link_clear]: the nodes, and the wheel with the list emptied. *)
Definition clear_near (T : timer) (i : Z) : result (list timer_node * timer) :=
  l ← rd (near T) i;
  n ← wr (near T) i [];
  Ok (l, set_wheel T n (t T)).
Definition clear_level (T : timer) (level idx : Z) : result (list timer_node * timer) :=
  row ← rd (t T) level;
  l ← rd row idx;
  row' ← wr row idx [];
  t' ← wr (t T) level row';
  Ok (l, set_wheel T (near T) t').

(** The loop [for (i=0;i<3;i++)] of [add_node] that finds the level. *)
Fixpoint find_level (n : nat) (i mask time_ current_time : Z) : Z :=
  match n with
  | O => i
  | S n' =>
      if decide (Z.lor time_ (mask - 1) = Z.lor current_time (mask - 1)) then i
      else find_level n' (i + 1) (u32 (Z.shiftl mask TIME_LEVEL_SHIFT)) time_ current_time
  end.

Definition add_node (T : timer) (node : timer_node) : result timer :=
  let time_ := expire node in
  let current_time := time T in
  if decide (Z.lor time_ TIME_NEAR_MASK = Z.lor current_time TIME_NEAR_MASK) then
    link_near T (Z.land time_ TIME_NEAR_MASK) node
  else
    let i := find_level 3 0 (Z.shiftl TIME_NEAR TIME_LEVEL_SHIFT) time_ current_time in
    link_level T i
      (Z.land (Z.shiftr time_ (TIME_NEAR_SHIFT + i * TIME_LEVEL_SHIFT)) TIME_LEVEL_MASK) node.

Definition timer_add (T : timer) (ev : timer_event) (delay : Z) : result timer :=
  add_node T {| expire := u32 (delay + time T); event := ev |}.

Fixpoint add_nodes (T : timer) (l : list timer_node) : result timer :=
  match l with
  | [] => Ok T
  | node :: l => T' ← add_node T node; add_nodes T' l
  end.

Definition move_list (T : timer) (level idx : Z) : result timer :=
  r ← clear_level T level idx;
  add_nodes r.2 r.1.

(** The loop of [timer_shift]; [ct] has four groups of bits above the near bits,
    and a nonzero [ct] has a nonzero group: four turns at most. *)
Fixpoint shift_loop (fuel : nat) (T : timer) (ct mask time_ i : Z) : result timer :=
  if decide (Z.land ct (mask - 1) = 0) then
    match fuel with
    | O => Err OutOfFuel
    | S f =>
        let idx := Z.land time_ TIME_LEVEL_MASK in
        if decide (idx ≠ 0) then move_list T i idx
        else
          mask' ← c_int (Z.shiftl mask TIME_LEVEL_SHIFT);
          shift_loop f T ct mask' (Z.shiftr time_ TIME_LEVEL_SHIFT) (i + 1)
    end
  else Ok T.

Definition timer_shift (T : timer) : result timer :=
  let ct := u32 (time T + 1) in
  let T' := set_time T ct in
  if decide (ct = 0) then move_list T' 3 0
  else shift_loop 4 T' ct TIME_NEAR (Z.shiftr ct TIME_NEAR_SHIFT) 0.

(** Calls of [timer_add] by other threads. *)
Fixpoint timer_adds (T : timer) (adds : list (timer_event * Z)) : result timer :=
  match adds with
  | [] => Ok T
  | (ev, d) :: adds => T' ← timer_add T ev d; timer_adds T' adds
  end.

(** [timer_execute]: the list in the current near slot is taken and dispatched
    with the lock released, while other threads add [adds]; the slot is then
    checked again. The result holds the dispatched nodes in order. *)
Fixpoint timer_execute (fuel : nat) (T : timer) (adds : list (timer_event * Z)) :
    result (list timer_node * timer) :=
  let idx := Z.land (time T) TIME_NEAR_MASK in
  l ← rd (near T) idx;
  match l with
  | [] => Ok ([], T)
  | _ :: _ =>
      match fuel with
      | O => Err OutOfFuel
      | S f =>
          r ← clear_near T idx;
          T1 ← timer_adds r.2 adds;
          r' ← timer_execute f T1 [];
          Ok (r.1 ++ r'.1, r'.2)
      end
  end.

(** A positive delay never lands in the current slot, so one turn is enough. *)
Definition timer_update (T : timer) (adds : list (timer_event * Z)) :
    result (list timer_node * timer) :=
  r1 ← timer_execute 1 T adds;
  T2 ← timer_shift r1.2;
  r3 ← timer_execute 1 T2 adds;
  Ok (r1.1 ++ r3.1, r3.2).

(** What [dispatch_list] pushes for a node. *)
Definition dispatch_message (node : timer_node) : Z * skynet_message :=
  (ev_handle (event node),
   {| source := 0; session := ev_session (event node); data := 0;
      sz := Z.shiftl PTYPE_RESPONSE MESSAGE_TYPE_SHIFT |}).
Definition dispatch_list (l : list timer_node) : list (Z * skynet_message) :=
  dispatch_message <$> l.

Definition timer_create_timer : timer :=
  {| near := replicate (Z.to_nat TIME_NEAR) [];
     t := replicate 4 (replicate (Z.to_nat TIME_LEVEL) []);
     time := 0; starttime := 0; current := 0; current_point := 0 |}.

(** [skynet_timeout]: an immediate message when [time <= 0] (pushed by the
    caller-supplied [context_push], which answers whether the service exists),
    otherwise a timer; the result is the C return value. *)
Definition skynet_timeout (context_push : Z → skynet_message → bool) (T : timer)
    (handle_ time_ session_ : Z) : result (Z * list (Z * skynet_message) * timer) :=
  if decide (time_ ≤ 0) then
    let msg := dispatch_message (mk_node 0 (mk_event handle_ session_)) in
    if context_push msg.1 msg.2 then Ok (session_, [msg], T) else Ok (-1, [], T)
  else
    T' ← timer_add T (mk_event handle_ session_) time_;
    Ok (session_, [], T').

Fixpoint timer_updates (n : nat) (T : timer) : result (list (list timer_node) * timer) :=
  match n with
  | O => Ok ([], T)
  | S n' =>
      r ← timer_update T [];
      r' ← timer_updates n' r.2;
      Ok (r.1 :: r'.1, r'.2)
  end.

(** The clocks in centiseconds, from the [struct timespec] of [clock_gettime]. *)
Definition systime (tv_sec tv_nsec : Z) : Z * Z :=
  (u32 tv_sec, u32 (tv_nsec / 10000000)).
Definition gettime (tv_sec tv_nsec : Z) : Z :=
  u64 (u64 (tv_sec * 100) + tv_nsec / 10000000).

(** [skynet_updatetime] with the reading [cp] of [gettime]. The loop counter is
    an [int]. *)
Definition skynet_updatetime (T : timer) (cp : Z) :
    result (list (list timer_node) * timer) :=
  if decide (cp < current_point T) then
    Ok ([], {| near := near T; t := t T; time := time T; starttime := starttime T;
               current := current T; current_point := cp |})
  else if decide (cp ≠ current_point T) then
    let diff := u32 (cp - current_point T) in
    i ← c_int diff;
    timer_updates (Z.to_nat i)
      {| near := near T; t := t T; time := time T; starttime := starttime T;
         current := u64 (current T + diff); current_point := cp |}
  else Ok ([], T).

Definition skynet_starttime (T : timer) : Z := starttime T.
Definition skynet_now (T : timer) : Z := current T.

(** [skynet_timer_init] with the readings of the real-time and the monotonic
    clock. *)
Definition skynet_timer_init (real_sec real_nsec mono_sec mono_nsec : Z) : timer :=
  let r := timer_create_timer in
  let st := systime real_sec real_nsec in
  {| near := near r; t := t r; time := time r;
     starttime := st.1; current := st.2; current_point := gettime mono_sec mono_nsec |}.

(** ** The invariant of the wheel *)

(** The low bit of level [l]; the near slots are below level 0. *)
Definition sh (l : Z) : Z := 8 + 6 * l.

(** Where a deadline [e] belongs when the time is [c]: in the near slots when
    they agree above bit 8, else in the first level above which they agree. *)
Definition near_ok (c : Z) (i : Z) (e : Z) : Prop :=
  e / 2 ^ 8 = c / 2 ^ 8 ∧ e `mod` 2 ^ 8 = i.
Definition level_ok (c : Z) (l j : Z) (e : Z) : Prop :=
  e / 2 ^ sh l ≠ c / 2 ^ sh l ∧ (l < 3 → e / 2 ^ sh (l + 1) = c / 2 ^ sh (l + 1)) ∧
  (e / 2 ^ sh l) `mod` 64 = j.

Record shape (T : timer) : Prop := {
  sh_near : zlen (near T) = 256;
  sh_t : zlen (t T) = 4;
  sh_rows : ∀ l row, t T !! l = Some row → zlen row = 64;
  sh_time : 0 ≤ time T < 2 ^ 32 }.

Definition all_nodes (T : timer) : list timer_node :=
  concat (near T) ++ concat (concat (t T)).

Record placed (c : Z) (T : timer) : Prop := {
  pl_near : ∀ (i : nat) l n, near T !! i = Some l → n ∈ l → near_ok c (Z.of_nat i) (expire n);
  pl_level : ∀ (l j : nat) row ns n, t T !! l = Some row → row !! j = Some ns → n ∈ ns →
    level_ok c (Z.of_nat l) (Z.of_nat j) (expire n) }.

(** A deadline in the current top block is not past: [due] allows now,
    [future] does not. *)
Definition due (c e : Z) : Prop := 0 ≤ e < 2 ^ 32 ∧ (e / 2 ^ 26 = c / 2 ^ 26 → c ≤ e).
Definition future (c e : Z) : Prop := 0 ≤ e < 2 ^ 32 ∧ (e / 2 ^ 26 = c / 2 ^ 26 → c < e).

Record wheel_ok (T : timer) : Prop := {
  wh_shape : shape T;
  wh_placed : placed (time T) T;
  wh_future : ∀ n, n ∈ all_nodes T → future (time T) (expire n) }.

Lemma concat_perm {A} (l k : list (list A)) : l ≡ₚ k → concat l ≡ₚ concat k.
Proof.
  induction 1 as [|x l k _ IH|x y l|]; simpl; [done|by rewrite IH| |by etrans].
  rewrite !app_assoc. apply Permutation_app_tail, Permutation_app_comm.
Qed.

Lemma elem_of_concat {A} (ll : list (list A)) x :
  x ∈ concat ll ↔ ∃ (i : nat) l, ll !! i = Some l ∧ x ∈ l.
Proof.
  rewrite list_elem_of_In, in_concat. setoid_rewrite <- list_elem_of_In.
  setoid_rewrite list_elem_of_lookup at 1. naive_solver.
Qed.

Lemma elem_of_all_nodes T n :
  n ∈ all_nodes T ↔
  (∃ (i : nat) l, near T !! i = Some l ∧ n ∈ l) ∨
  (∃ (l j : nat) row ns, t T !! l = Some row ∧ row !! j = Some ns ∧ n ∈ ns).
Proof.
  unfold all_nodes. rewrite elem_of_app, elem_of_concat. f_equiv.
  rewrite elem_of_concat. split.
  - intros (k & ns & Hk & Hn). apply list_elem_of_lookup_2, elem_of_concat in Hk
      as (l & row & Hl & [j Hj]%list_elem_of_lookup). naive_solver.
  - intros (l & j & row & ns & Hl & Hj & Hn).
    assert (ns ∈ concat (t T)) as [k Hk]%list_elem_of_lookup
      by (apply elem_of_concat; eauto using list_elem_of_lookup_2). eauto.
Qed.

(** *** Linking and clearing *)

Section Lists.
Context (T : timer) (S : shape T).

Lemma near_cell i : 0 ≤ i < 256 → ∃ l, near T !! Z.to_nat i = Some l.
Proof.
  intros. destruct S. apply lookup_lt_is_Some_2. unfold zlen in *. lia.
Qed.
Lemma level_cell l j :
  0 ≤ l < 4 → 0 ≤ j < 64 →
  ∃ row ns, t T !! Z.to_nat l = Some row ∧ row !! Z.to_nat j = Some ns ∧ zlen row = 64.
Proof.
  intros. destruct S. destruct (lookup_lt_is_Some_2 (t T) (Z.to_nat l)) as [row Hr];
    [unfold zlen in *; lia|]. specialize (sh_rows0 _ _ Hr).
  destruct (lookup_lt_is_Some_2 row (Z.to_nat j)) as [ns Hns]; [unfold zlen in *; lia|]. eauto.
Qed.

(** Replacing a near list. *)
Lemma put_near_shape i l : shape (set_wheel T (<[i := l]> (near T)) (t T)).
Proof. destruct S. split; simpl; auto. by rewrite zlen_insert. Qed.
Lemma put_level_shape i j row ns :
  t T !! i = Some row → shape (set_wheel T (near T) (<[i := <[j := ns]> row]> (t T))).
Proof.
  intros Hr. destruct S. split; simpl; auto; [by rewrite zlen_insert|].
  intros l row'. destruct (decide (l = i)) as [->|Hne].
  - rewrite list_lookup_insert_eq by (apply lookup_lt_Some in Hr; done).
    intros [= <-]. rewrite zlen_insert. eauto.
  - rewrite list_lookup_insert_ne by done. eauto.
Qed.
Lemma put_near_perm i l l' :
  near T !! i = Some l →
  all_nodes (set_wheel T (<[i := l']> (near T)) (t T)) ++ l ≡ₚ all_nodes T ++ l'.
Proof.
  intros Hi. unfold all_nodes. simpl. rewrite <- !app_assoc.
  rewrite (Permutation_app_comm _ l), (Permutation_app_comm _ l'), !app_assoc.
  apply Permutation_app_tail. by apply concat_insert_perm.
Qed.
Lemma put_level_perm i j row ns ns' :
  t T !! i = Some row → row !! j = Some ns →
  all_nodes (set_wheel T (near T) (<[i := <[j := ns']> row]> (t T))) ++ ns
    ≡ₚ all_nodes T ++ ns'.
Proof.
  intros Hi Hj. unfold all_nodes. simpl. rewrite <- !app_assoc. apply Permutation_app_head.
  pose proof (concat_insert_perm _ _ _ ns' Hj) as P1.
  assert (concat (concat (<[i := <[j := ns']> row]> (t T))) ++ concat row
    ≡ₚ concat (concat (t T)) ++ concat (<[j := ns']> row)) as P2.
  { rewrite <- !concat_app. by apply concat_perm, concat_insert_perm. }
  apply (Permutation_app_inv_r (concat row)).
  rewrite <- (app_assoc _ ns), (Permutation_app_comm ns), app_assoc, P2.
  rewrite <- app_assoc, P1, <- app_assoc. apply Permutation_app_head, Permutation_app_comm.
Qed.
End Lists.

Lemma find_level_spec c e :
  e / 2 ^ 8 ≠ c / 2 ^ 8 →
  let l := find_level 3 0 (Z.shiftl TIME_NEAR TIME_LEVEL_SHIFT) e c in
  0 ≤ l < 4 ∧ e / 2 ^ sh l ≠ c / 2 ^ sh l ∧ (l < 3 → e / 2 ^ sh (l + 1) = c / 2 ^ sh (l + 1)).
Proof.
  intros Hne. cbn [find_level].
  change (Z.shiftl TIME_NEAR TIME_LEVEL_SHIFT) with (2 ^ 14).
  change (u32 (Z.shiftl (2 ^ 14) TIME_LEVEL_SHIFT)) with (2 ^ 20).
  change (u32 (Z.shiftl (2 ^ 20) TIME_LEVEL_SHIFT)) with (2 ^ 26).
  case_decide as H0; rewrite lor_ones_eq in H0 by lia; [by change (sh 0) with 8|].
  case_decide as H1; rewrite lor_ones_eq in H1 by lia; [by change (sh (0 + 1)) with 14|].
  case_decide as H2; rewrite lor_ones_eq in H2 by lia; [by change (sh (0 + 1 + 1)) with 20|].
  change (sh (0 + 1 + 1 + 1)) with 26. split; [lia|]. split; [done|lia].
Qed.

Lemma add_node_spec T n :
  shape T → 0 ≤ expire n < 2 ^ 32 →
  ∃ T', add_node T n = Ok T' ∧ shape T' ∧ all_nodes T' ≡ₚ n :: all_nodes T ∧
    time T' = time T ∧ (placed (time T) T → placed (time T) T').
Proof.
  intros S He. unfold add_node. change TIME_NEAR_MASK with (2 ^ 8 - 1).
  case_decide as Hn; rewrite lor_ones_eq in Hn by lia.
  - rewrite land_ones_mod by lia. set (i := expire n `mod` 2 ^ 8).
    assert (0 ≤ i < 256) as Hi by (apply Z.mod_pos_bound; lia).
    destruct (near_cell T S i Hi) as [l Hl]. unfold link_near.
    rewrite (rd_lookup _ _ l), bind_Ok, wr_Ok by (lia || done || (rewrite (sh_near _ S); lia)).
    rewrite bind_Ok. eexists. split; [done|]. split; [by apply put_near_shape|].
    split; [|split; [done|]].
    + apply (Permutation_app_inv_r l). rewrite put_near_perm by done.
      rewrite app_assoc, Permutation_app_comm. done.
    + intros [Hpn Hpl]. split; simpl; [|done]. intros k l' m.
      destruct (decide (k = Z.to_nat i)) as [->|Hne].
      * rewrite list_lookup_insert_eq by (apply lookup_lt_Some in Hl; done).
        intros [= <-] [Hm|Hm]%elem_of_app; [by eapply Hpn|].
        apply list_elem_of_singleton in Hm as ->. split; [done|]. lia.
      * rewrite list_lookup_insert_ne by done. eauto.
  - pose proof (find_level_spec _ _ Hn) as Hlev. cbv zeta in *.
    set (lv := find_level _ _ _ _ _) in *. destruct Hlev as (Hlv & Hne & Heq).
    change TIME_LEVEL_MASK with (2 ^ 6 - 1). rewrite land_ones_mod by lia.
    rewrite Z.shiftr_div_pow2 by (unfold TIME_NEAR_SHIFT, TIME_LEVEL_SHIFT; lia).
    replace (TIME_NEAR_SHIFT + lv * TIME_LEVEL_SHIFT) with (sh lv)
      by (unfold sh, TIME_NEAR_SHIFT, TIME_LEVEL_SHIFT; lia).
    set (j := (expire n / 2 ^ sh lv) `mod` 2 ^ 6).
    assert (0 ≤ j < 64) as Hj by (apply Z.mod_pos_bound; lia).
    destruct (level_cell T S lv j Hlv Hj) as (row & ns & Hr & Hns & Hlen). unfold link_level.
    rewrite (rd_lookup _ _ row), bind_Ok, (rd_lookup row _ ns), bind_Ok by (lia || done).
    rewrite wr_Ok, bind_Ok, wr_Ok, bind_Ok by (rewrite ?(sh_t _ S); lia).
    eexists. split; [done|]. split; [by apply put_level_shape|]. split; [|split; [done|]].
    + apply (Permutation_app_inv_r ns). rewrite put_level_perm by done.
      rewrite app_assoc, Permutation_app_comm. done.
    + intros [Hpn Hpl]. split; simpl; [done|]. intros l k row' ns' m.
      destruct (decide (l = Z.to_nat lv)) as [->|Hnel]; cycle 1.
      { rewrite list_lookup_insert_ne by done. eauto. }
      rewrite list_lookup_insert_eq by (apply lookup_lt_Some in Hr; done). intros [= <-].
      destruct (decide (k = Z.to_nat j)) as [->|Hnek]; cycle 1.
      { rewrite list_lookup_insert_ne by done. eauto. }
      rewrite list_lookup_insert_eq by (apply lookup_lt_Some in Hns; done).
      intros [= <-] [Hm|Hm]%elem_of_app; [by eapply Hpl|].
      apply list_elem_of_singleton in Hm as ->. rewrite !Z2Nat.id by lia. done.
Qed.

Lemma add_nodes_spec T l :
  shape T → placed (time T) T → (∀ n, n ∈ l → 0 ≤ expire n < 2 ^ 32) →
  ∃ T', add_nodes T l = Ok T' ∧ shape T' ∧ all_nodes T' ≡ₚ all_nodes T ++ l ∧
    time T' = time T ∧ placed (time T) T'.
Proof.
  revert T. induction l as [|n l IH]; intros T S P Hl.
  - exists T. rewrite app_nil_r. done.
  - destruct (add_node_spec T n S) as (T1 & E1 & S1 & Hp1 & Ht1 & Hpl1); [apply Hl; left|].
    simpl. rewrite E1, bind_Ok.
    destruct (IH T1) as (T' & -> & S' & Hp' & Ht' & Hpl'); [done|rewrite Ht1; auto|..].
    { intros m Hm. apply Hl. by right. }
    exists T'. split; [done|]. split; [done|]. rewrite Ht1 in *. split; [|done].
    rewrite Hp', Hp1. simpl. by rewrite Permutation_middle.
Qed.

(** ** Advancing the time *)

Lemma div_succ_same c M : 0 < M → (c + 1) `mod` M ≠ 0 → (c + 1) / M = c / M.
Proof.
  intros HM Hm. pose proof (Z.mod_pos_bound (c + 1) M HM).
  apply Z.div_unique with ((c + 1) `mod` M - 1); [lia|].
  pose proof (Z.div_mod (c + 1) M ltac:(lia)). lia.
Qed.
Lemma div_succ_next c M : 0 < M → (c + 1) `mod` M = 0 → c / M = (c + 1) / M - 1.
Proof.
  intros HM Hm. symmetry. apply Z.div_unique with (M - 1); [lia|].
  pose proof (Z.div_mod (c + 1) M ltac:(lia)). lia.
Qed.
Lemma div_coarser e c a b : 0 ≤ a ≤ b → e / 2 ^ a = c / 2 ^ a → e / 2 ^ b = c / 2 ^ b.
Proof.
  intros Hab E. replace b with (a + (b - a)) by lia. rewrite Z.pow_add_r by lia.
  rewrite <- !Z.div_div by ((apply pow2_pos; lia) || (apply Z.pow_nonzero; lia)).
  by rewrite E.
Qed.
Lemma mod_finer x a b : 0 ≤ a ≤ b → x `mod` 2 ^ b = 0 → x `mod` 2 ^ a = 0.
Proof.
  intros Hab E. rewrite <- (mod_pow2_mod x a b), E by done.
  apply Z.mod_0_l, Z.pow_nonzero; lia.
Qed.

(** The tick from [c] to [c'] carries into group [i]: the groups below it are
    full before and zero after. Past 2^32 the carry is out of the last group. *)
Definition carries (c c' i : Z) : Prop :=
  0 ≤ i ≤ 3 ∧
  ((c' = c + 1 ∧ 0 ≤ c < 2 ^ 32 ∧ c' `mod` 2 ^ sh i = 0 ∧ c' `mod` 2 ^ sh (i + 1) ≠ 0) ∨
   (c' = 0 ∧ c = 2 ^ 32 - 1 ∧ i = 3)).

(** Nothing pending agrees with [c] above a group that the carry clears. *)
Lemma carries_none c c' i a e :
  carries c c' i → 8 ≤ a ≤ sh i → future c e → e / 2 ^ a ≠ c / 2 ^ a.
Proof.
  intros [Hi Hc] Ha [He Hf] E. unfold sh in Ha.
  assert (e / 2 ^ 26 = c / 2 ^ 26) as E26 by (apply (div_coarser e c a); [lia|done]).
  specialize (Hf E26). destruct Hc as [(-> & Hcr & Hm & _)|(-> & -> & ->)]; [|lia].
  assert (0 < 2 ^ a) by (apply pow2_pos; lia).
  pose proof (div_succ_next c (2 ^ a)) as Hd.
  rewrite (mod_finer (c + 1) a (sh i)) in Hd by (unfold sh; lia || done).
  pose proof (Z.div_le_mono (c + 1) e (2 ^ a)). lia.
Qed.

Lemma advance_level c c' i l j e :
  carries c c' i → 0 ≤ l ≤ 3 → future c e →
  (l = i → j ≠ (c' / 2 ^ sh i) `mod` 64) → level_ok c l j e → level_ok c' l j e.
Proof.
  intros Hc Hl Hf Hj (Hne & Heq & Hmod). pose proof Hc as [Hi Hcc].
  destruct (decide (l < i)) as [Hlt|Hge].
  { exfalso. apply (carries_none c c' i (sh (l + 1)) e); auto; [unfold sh; lia|apply Heq; lia]. }
  assert (∀ l', i < l' ≤ 3 → c' / 2 ^ sh l' = c / 2 ^ sh l') as Hsame.
  { intros l' Hl'. destruct Hcc as [(-> & _ & _ & Hm)|(_ & _ & ->)]; [|lia].
    apply div_succ_same; [apply pow2_pos; unfold sh; lia|]. intros E.
    apply Hm. apply (mod_finer _ (sh (i + 1)) (sh l')); [unfold sh; lia|done]. }
  split; [|split; [|done]].
  - destruct (decide (l = i)) as [->|]; [intros E; rewrite E in Hmod; by apply Hj|].
    by rewrite Hsame by lia.
  - intros Hl3. rewrite Hsame by lia. auto.
Qed.

Lemma advance_due c c' i e : carries c c' i → 0 ≤ c' → future c e → due c' e.
Proof.
  intros [Hi Hc] Hc0 [He Hf]. split; [done|]. intros E.
  destruct Hc as [(-> & Hcr & _ & _)|(-> & _)]; [|lia].
  destruct (decide ((c + 1) `mod` 2 ^ 26 = 0)) as [Hm|Hm].
  - pose proof (Z.div_mod (c + 1) (2 ^ 26) ltac:(lia)) as D.
    pose proof (Z.mul_div_le e (2 ^ 26) ltac:(lia)). rewrite E in *. lia.
  - rewrite div_succ_same in E by lia. specialize (Hf E). lia.
Qed.

(** Without a carry no placement changes. *)
Lemma advance_plain c :
  (c + 1) `mod` 2 ^ 8 ≠ 0 → ∀ a, 8 ≤ a → (c + 1) / 2 ^ a = c / 2 ^ a.
Proof.
  intros Hm a Ha. apply div_succ_same; [apply pow2_pos; lia|]. intros E.
  apply Hm. by apply (mod_finer _ 8 a).
Qed.

Lemma clear_level_spec T l j :
  shape T → 0 ≤ l < 4 → 0 ≤ j < 64 →
  ∃ ns T', clear_level T l j = Ok (ns, T') ∧ shape T' ∧
    all_nodes T' ++ ns ≡ₚ all_nodes T ∧ time T' = time T ∧ near T' = near T ∧
    (∃ row, t T !! Z.to_nat l = Some row ∧ row !! Z.to_nat j = Some ns) ∧
    (∀ (l' j' : nat) row' ns' n, t T' !! l' = Some row' → row' !! j' = Some ns' → n ∈ ns' →
       (∃ row, t T !! l' = Some row ∧ row !! j' = Some ns') ∧
       (Z.of_nat l' = l → Z.of_nat j' ≠ j)).
Proof.
  intros S Hl Hj. destruct (level_cell T S l j Hl Hj) as (row & ns & Hr & Hns & Hlen).
  unfold clear_level.
  rewrite (rd_lookup _ _ row), bind_Ok, (rd_lookup row _ ns), bind_Ok by (lia || done).
  rewrite wr_Ok, bind_Ok, wr_Ok, bind_Ok by (rewrite ?(sh_t _ S); lia).
  eexists _, _. split; [done|]. split; [by apply put_level_shape|].
  split; [rewrite put_level_perm by done; by rewrite app_nil_r|].
  do 2 (split; [done|]). split; [by eauto|]. simpl. intros l' j' row' ns' n.
  destruct (decide (l' = Z.to_nat l)) as [->|Hnel]; cycle 1.
  { rewrite list_lookup_insert_ne by done. intros. split; [eauto|lia]. }
  rewrite list_lookup_insert_eq by (apply lookup_lt_Some in Hr; done). intros [= <-].
  destruct (decide (j' = Z.to_nat j)) as [->|Hnej].
  { rewrite list_lookup_insert_eq by (apply lookup_lt_Some in Hns; done).
    intros [= <-] ?%elem_of_nil. done. }
  rewrite list_lookup_insert_ne by done. intros. split; [eauto|]. lia.
Qed.

Lemma wheel_row_bounds T (l j : nat) row ns :
  shape T → t T !! l = Some row → row !! j = Some ns → 0 ≤ Z.of_nat l ≤ 3.
Proof. intros [] Hl%lookup_lt_Some _. unfold zlen in *. lia. Qed.

(** The state right after the time moved: every node is placed and not past. *)
Record wheel_due (T : timer) : Prop := {
  wd_shape : shape T;
  wd_placed : placed (time T) T;
  wd_due : ∀ n, n ∈ all_nodes T → due (time T) (expire n) }.

(** Moving the slot the carry reaches restores the placement. *)
Lemma move_list_spec T c' i :
  wheel_ok T → carries (time T) c' i → 0 ≤ c' < 2 ^ 32 →
  ∃ T', move_list (set_time T c') i ((c' / 2 ^ sh i) `mod` 64) = Ok T' ∧
    wheel_due T' ∧ time T' = c' ∧ all_nodes T' ≡ₚ all_nodes T.
Proof.
  intros [S P Fu] Hc Hc'. pose proof Hc as [Hi _]. unfold move_list.
  assert (shape (set_time T c')) as S1 by (destruct S; by split).
  destruct (clear_level_spec (set_time T c') i ((c' / 2 ^ sh i) `mod` 64) S1)
    as (ns & T1 & -> & S2 & Hp & Ht & Hn & _ & Hs); [lia|apply Z.mod_pos_bound; lia|].
  rewrite bind_Ok. simpl in *.
  change (all_nodes (set_time T c')) with (all_nodes T) in Hp.
  assert (∀ n, n ∈ all_nodes T1 ++ ns → future (time T) (expire n)) as Fu'.
  { intros n. rewrite Hp. apply Fu. }
  destruct (add_nodes_spec T1 ns S2) as (T' & -> & S' & Hp' & Ht' & P').
  { rewrite Ht. split.
    - intros k l n Hk Hin. exfalso. rewrite Hn in Hk.
      apply (carries_none (time T) c' i 8 (expire n)); auto; [unfold sh; lia| |].
      + apply Fu, elem_of_all_nodes. eauto.
      + apply (pl_near _ _ P k l n Hk Hin).
    - intros l j row ns' n Hl Hj Hin. destruct (Hs l j row ns' n Hl Hj Hin) as [(row0 & Hl0 & Hj0) Hne].
      apply (advance_level (time T) c' i); auto.
      + eapply wheel_row_bounds; [exact S1|exact Hl0|exact Hj0].
      + apply Fu, elem_of_all_nodes. right. eauto 10.
      + by apply (pl_level _ _ P l j row0 ns' n). }
  { intros n Hin. apply Fu', elem_of_app. by right. }
  assert (time T' = c') as Et by congruence.
  exists T'. split; [done|]. split; [|split; [done|by rewrite Hp', Hp]].
  split; [done|by rewrite Et, <- Ht|]. intros n. rewrite Hp', Et. intros Hin.
  apply (advance_due (time T) c' i); auto; lia.
Qed.

(** The loop of [timer_shift] stops at the group the carry reaches. *)
Lemma shift_loop_spec T ct fuel i :
  0 < ct < 2 ^ 32 → 0 ≤ i → Z.of_nat fuel + i = 4 → ct `mod` 2 ^ sh i = 0 →
  ∃ l, i ≤ l ≤ 3 ∧ ct `mod` 2 ^ sh l = 0 ∧ ct `mod` 2 ^ sh (l + 1) ≠ 0 ∧
    shift_loop fuel T ct (2 ^ sh i) (ct / 2 ^ sh i) i
      = move_list T l ((ct / 2 ^ sh l) `mod` 64).
Proof.
  intros Hct. revert i. induction fuel as [|f IH]; intros i Hi Hf Hm.
  { assert (i = 4) as -> by lia. change (sh 4) with 32 in Hm.
    rewrite Z.mod_small in Hm by lia. lia. }
  assert (0 < 2 ^ sh i) as Hpos by (apply pow2_pos; unfold sh; lia).
  assert (2 ^ sh (i + 1) = 2 ^ sh i * 64) as Esh.
  { change 64 with (2 ^ 6). rewrite <- Z.pow_add_r by (unfold sh; lia).
    f_equal. unfold sh. lia. }
  assert (ct `mod` 2 ^ sh (i + 1) = 2 ^ sh i * ((ct / 2 ^ sh i) `mod` 64)) as Em.
  { rewrite Esh, Z.rem_mul_r by lia. rewrite Hm. lia. }
  cbn [shift_loop]. rewrite land_ones_mod, decide_True by (unfold sh; lia || done).
  change TIME_LEVEL_MASK with (2 ^ 6 - 1). rewrite land_ones_mod by lia.
  change (2 ^ 6) with 64. case_decide as Hidx.
  - exists i. split; [lia|]. split; [done|]. split; [|done]. rewrite Em. nia.
  - assert (ct `mod` 2 ^ sh (i + 1) = 0) as Hm'
      by (rewrite Em; destruct (decide ((ct / 2 ^ sh i) `mod` 64 = 0)) as [->|]; [lia|tauto]).
    assert (i < 3) as Hi3.
    { destruct (decide (i < 3)); [done|]. assert (i = 3) as -> by lia.
      change (sh (3 + 1)) with 32 in Hm'. rewrite Z.mod_small in Hm' by lia. lia. }
    assert (2 ^ sh (i + 1) ≤ 2 ^ 26) by (apply Z.pow_le_mono_r; unfold sh; lia).
    rewrite Z.shiftl_mul_pow2, Z.shiftr_div_pow2 by (unfold TIME_LEVEL_SHIFT; lia).
    change (2 ^ TIME_LEVEL_SHIFT) with 64. rewrite <- Esh.
    rewrite c_int_Ok, bind_Ok by (unfold INT_MIN, INT_MAX; lia).
    rewrite Z.div_div, <- Esh by lia.
    destruct (IH (i + 1)) as (l & Hl & ? & ? & ->); [lia|lia|done|].
    exists l. split; [lia|done].
Qed.

Lemma timer_shift_spec T :
  wheel_ok T →
  ∃ T', timer_shift T = Ok T' ∧ wheel_due T' ∧ time T' = u32 (time T + 1) ∧
    all_nodes T' ≡ₚ all_nodes T.
Proof.
  intros W. pose proof (sh_time _ (wh_shape _ W)) as Hc. unfold timer_shift.
  set (c' := u32 (time T + 1)). assert (0 ≤ c' < 2 ^ 32) as Hc' by (apply uwrap_range; lia).
  case_decide as H0.
  - assert (time T = 2 ^ 32 - 1) as Emax.
    { destruct (decide (time T + 1 < 2 ^ 32)); [|lia].
      unfold c' in H0. rewrite uwrap_small in H0 by lia. lia. }
    assert ((c' / 2 ^ sh 3) `mod` 64 = 0) as <- by (rewrite H0; done).
    apply move_list_spec; [done| |done]. split; [lia|]. right. lia.
  - assert (c' = time T + 1) as Ec.
    { destruct (decide (time T + 1 < 2 ^ 32)); [unfold c'; rewrite uwrap_small; lia|].
      exfalso. apply H0. unfold c'. replace (time T + 1) with (2 ^ 32) by lia. done. }
    change TIME_NEAR with (2 ^ sh 0). change TIME_NEAR_SHIFT with (sh 0).
    rewrite Z.shiftr_div_pow2 by (unfold sh; lia).
    destruct (decide (c' `mod` 2 ^ 8 = 0)) as [Hm|Hm].
    + destruct (shift_loop_spec (set_time T c') c' 4 0) as (l & Hl & H1 & H2 & ->);
        [lia|lia|lia|done|].
      apply move_list_spec; [done| |done]. split; [lia|]. left. done.
    + cbn [shift_loop]. rewrite land_ones_mod, decide_False by (unfold sh; lia || done).
      eexists. split; [done|]. split; [|done]. destruct W as [[] [Pn Pl] Fu].
      rewrite Ec in *. pose proof (advance_plain _ Hm) as Ha. split; simpl.
      * by split.
      * split; simpl.
        -- intros i l n Hi Hin. destruct (Pn i l n Hi Hin). split; [|done]. rewrite Ha by lia. done.
        -- intros l j row ns n Hl Hj Hin. destruct (Pl l j row ns n Hl Hj Hin) as (? & ? & ?).
           split; [|split; [|done]]; rewrite Ha by (unfold sh; lia); done.
      * intros n Hin. change (all_nodes (set_time T _)) with (all_nodes T) in Hin.
        destruct (Fu n Hin) as [He Hf]. split; [done|]. rewrite Ha by lia. intros E.
        specialize (Hf E). lia.
Qed.

(** *** Executing *)

Lemma timer_add_spec T ev d :
  wheel_ok T → 1 ≤ d ≤ INT_MAX →
  ∃ T', timer_add T ev d = Ok T' ∧ wheel_ok T' ∧ time T' = time T ∧
    all_nodes T' ≡ₚ mk_node (u32 (d + time T)) ev :: all_nodes T.
Proof.
  intros W Hd. pose proof (sh_time _ (wh_shape _ W)) as Hc. unfold timer_add, INT_MAX in *.
  set (e := u32 (d + time T)). assert (0 ≤ e < 2 ^ 32) as He by (apply uwrap_range; lia).
  destruct (add_node_spec T (mk_node e ev) (wh_shape _ W) He) as (T' & -> & S' & Hp & Ht & Hpl).
  exists T'. split; [done|]. split; [|split; [done|exact Hp]].
  split; [done|rewrite Ht; apply Hpl, W|]. rewrite Ht. intros n. rewrite Hp.
  intros [->|Hin]%elem_of_cons; [|by apply W]. split; [done|]. simpl. intros E.
  destruct (decide (d + time T < 2 ^ 32)) as [Hs|Hs].
  - unfold e. rewrite uwrap_small by lia. lia.
  - exfalso. assert (e = d + time T - 2 ^ 32) as Ee.
    { unfold e, uwrap. symmetry. apply Z.mod_unique with 1; lia. }
    pose proof (Z.mul_div_le e (2 ^ 26) ltac:(lia)).
    pose proof (Z.mul_succ_div_gt e (2 ^ 26) ltac:(lia)).
    pose proof (Z.mul_div_le (time T) (2 ^ 26) ltac:(lia)).
    pose proof (Z.mul_succ_div_gt (time T) (2 ^ 26) ltac:(lia)). lia.
Qed.

(** The nodes other threads add at time [c]. *)
Definition added (c : Z) (adds : list (timer_event * Z)) : list timer_node :=
  (λ a, mk_node (u32 (a.2 + c)) a.1) <$> adds.

Lemma timer_adds_spec T adds :
  wheel_ok T → Forall (λ a, 1 ≤ a.2 ≤ INT_MAX) adds →
  ∃ T', timer_adds T adds = Ok T' ∧ wheel_ok T' ∧ time T' = time T ∧
    all_nodes T' ≡ₚ all_nodes T ++ added (time T) adds.
Proof.
  intros W Ha. revert T W. induction Ha as [|[ev d] adds Hd Ha IH]; intros T W.
  - exists T. by rewrite app_nil_r.
  - destruct (timer_add_spec T ev d W Hd) as (T1 & E1 & W1 & Ht1 & Hp1). simpl.
    rewrite E1, bind_Ok. destruct (IH T1 W1) as (T' & -> & W' & Ht' & Hp').
    exists T'. split; [done|]. split; [done|]. split; [congruence|].
    rewrite Hp', Hp1, Ht1. simpl. by rewrite Permutation_middle.
Qed.

(** Under the strict invariant the current near slot is empty. *)
Lemma current_slot_empty T : wheel_ok T → near T !! Z.to_nat (time T `mod` 2 ^ 8) = Some [].
Proof.
  intros [S P Fu]. pose proof (Z.mod_pos_bound (time T) (2 ^ 8) ltac:(lia)) as Hm.
  destruct (near_cell T S (time T `mod` 2 ^ 8)) as [l Hl]; [lia|]. rewrite Hl. f_equal.
  destruct l as [|n l]; [done|]. exfalso.
  destruct (pl_near _ _ P _ _ n Hl) as [E1 E2]; [left|]. rewrite Z2Nat.id in E2 by lia.
  destruct (Fu n) as [_ Hf]; [apply elem_of_all_nodes; left; eexists _, _; split; [done|left]|].
  specialize (Hf (div_coarser _ _ 8 26 ltac:(lia) E1)).
  pose proof (Z.div_mod (expire n) (2 ^ 8) ltac:(lia)).
  pose proof (Z.div_mod (time T) (2 ^ 8) ltac:(lia)). lia.
Qed.

Lemma timer_execute_idle T fuel adds : wheel_ok T → timer_execute fuel T adds = Ok ([], T).
Proof.
  intros W. pose proof (current_slot_empty T W) as E.
  assert (rd (near T) (Z.land (time T) TIME_NEAR_MASK) = Ok []) as Er.
  { change TIME_NEAR_MASK with (2 ^ 8 - 1). rewrite land_ones_mod by lia.
    pose proof (Z.mod_pos_bound (time T) (2 ^ 8)). apply rd_lookup; [lia|done]. }
  destruct fuel; cbn [timer_execute]; rewrite Er; done.
Qed.

(** The nodes due now are exactly those of the current near slot. *)
Lemma due_slot T n l :
  wheel_due T → near T !! Z.to_nat (time T `mod` 2 ^ 8) = Some l →
  n ∈ all_nodes T → expire n = time T → n ∈ l.
Proof.
  intros [S P _] Hl Hin E. pose proof (Z.mod_pos_bound (time T) (2 ^ 8) ltac:(lia)).
  apply elem_of_all_nodes in Hin as [(i & l' & Hi & Hn)|(lv & j & row & ns & Hr & Hj & Hn)].
  - destruct (pl_near _ _ P _ _ _ Hi Hn) as [_ Em]. rewrite E in Em.
    assert (i = Z.to_nat (time T `mod` 2 ^ 8)) as -> by lia. congruence.
  - destruct (pl_level _ _ P _ _ _ _ _ Hr Hj Hn) as [Hne _]. by rewrite E in Hne.
Qed.
Lemma slot_due T n l :
  wheel_due T → near T !! Z.to_nat (time T `mod` 2 ^ 8) = Some l → n ∈ l →
  expire n = time T.
Proof.
  intros [S P _] Hl Hn. pose proof (Z.mod_pos_bound (time T) (2 ^ 8) ltac:(lia)).
  destruct (pl_near _ _ P _ _ _ Hl Hn) as [E1 E2]. rewrite Z2Nat.id in E2 by lia.
  rewrite (Z.div_mod (expire n) (2 ^ 8)), (Z.div_mod (time T) (2 ^ 8)) by lia. lia.
Qed.

Lemma due_not_now c e : due c e → e ≠ c → future c e.
Proof. intros [He Hd] Hne. split; [done|]. intros E. specialize (Hd E). lia. Qed.

(** Emptying the current slot leaves a wheel without due nodes. *)
Definition drop_slot (T : timer) : timer :=
  set_wheel T (<[Z.to_nat (time T `mod` 2 ^ 8) := []]> (near T)) (t T).

Lemma drop_slot_placed T l :
  placed (time T) T → near T !! Z.to_nat (time T `mod` 2 ^ 8) = Some l →
  placed (time T) (drop_slot T).
Proof.
  intros [Pn Pl] Hl. split; simpl; [|done]. intros i l' n.
  destruct (decide (i = Z.to_nat (time T `mod` 2 ^ 8))) as [->|Hne].
  - rewrite list_lookup_insert_eq by (apply lookup_lt_Some in Hl; done).
    intros [= <-] ?%elem_of_nil. done.
  - rewrite list_lookup_insert_ne by done. eauto.
Qed.

Lemma drop_slot_not_due T l :
  placed (time T) T → near T !! Z.to_nat (time T `mod` 2 ^ 8) = Some l →
  Forall (λ n, expire n ≠ time T) (all_nodes (drop_slot T)).
Proof.
  intros P Hl. pose proof (drop_slot_placed T l P Hl) as P1.
  pose proof (Z.mod_pos_bound (time T) (2 ^ 8) ltac:(lia)) as Hm.
  apply Forall_forall. intros n Hn E. apply elem_of_all_nodes in Hn
    as [(i & l' & Hi & Hn)|(lv & j & row & ns & Hr & Hj & Hn)].
  - destruct (pl_near _ _ P1 _ _ _ Hi Hn) as [_ Em]. rewrite E in Em. simpl in Hi.
    assert (i = Z.to_nat (time T `mod` 2 ^ 8)) as -> by lia.
    rewrite list_lookup_insert_eq in Hi by (apply lookup_lt_Some in Hl; done).
    injection Hi as <-. by apply elem_of_nil in Hn.
  - destruct (pl_level _ _ P1 _ _ _ _ _ Hr Hj Hn) as [Hne _]. by rewrite E in Hne.
Qed.

Lemma drop_slot_spec T l :
  wheel_due T → near T !! Z.to_nat (time T `mod` 2 ^ 8) = Some l →
  wheel_ok (drop_slot T) ∧ l ≡ₚ filter (λ n, expire n = time T) (all_nodes T) ∧
  all_nodes (drop_slot T) ≡ₚ filter (λ n, expire n ≠ time T) (all_nodes T).
Proof.
  intros W Hl. pose proof W as [S P Du].
  assert (all_nodes (drop_slot T) ++ l ≡ₚ all_nodes T) as Hp1
    by (unfold drop_slot; rewrite put_near_perm by done; by rewrite app_nil_r).
  assert (Forall (λ n, expire n = time T) l) as Fl
    by (apply Forall_forall; intros n Hn; by eapply slot_due).
  pose proof (drop_slot_not_due T l P Hl) as F1. split.
  - split; [by apply put_near_shape|exact (drop_slot_placed T l P Hl)|]. intros n Hn.
    apply due_not_now; [apply Du; rewrite <- Hp1; by apply elem_of_app; left|].
    rewrite Forall_forall in F1. by apply F1.
  - rewrite <- Hp1, !filter_app. split.
    + rewrite (filter_all _ l), (filter_none _ (all_nodes (drop_slot T))) by done. done.
    + rewrite (filter_all _ (all_nodes (drop_slot T))) by done.
      rewrite (filter_none _ l), app_nil_r; [done|].
      eapply Forall_impl; [exact Fl|]. intros n ->. by intros [].
Qed.

Lemma timer_execute_due T adds :
  wheel_due T → Forall (λ a, 1 ≤ a.2 ≤ INT_MAX) adds →
  ∃ fired T', timer_execute 1 T adds = Ok (fired, T') ∧ wheel_ok T' ∧ time T' = time T ∧
    fired ≡ₚ filter (λ n, expire n = time T) (all_nodes T) ∧
    all_nodes T' ≡ₚ filter (λ n, expire n ≠ time T) (all_nodes T) ++
                     (if decide (fired = []) then [] else added (time T) adds).
Proof.
  intros W Ha. pose proof W as [S P Du].
  pose proof (Z.mod_pos_bound (time T) (2 ^ 8) ltac:(lia)) as Hm.
  destruct (near_cell T S (time T `mod` 2 ^ 8)) as [l Hl]; [lia|].
  cbn [timer_execute]. change TIME_NEAR_MASK with (2 ^ 8 - 1). rewrite land_ones_mod by lia.
  rewrite (rd_lookup _ _ l), bind_Ok by (lia || done).
  destruct (drop_slot_spec T l W Hl) as (W1 & Hf1 & Hf2).
  destruct l as [|n l'].
  - exists [], T. split; [done|].
    assert (near T = near (drop_slot T)) as E0 by (simpl; by rewrite list_insert_id).
    assert (all_nodes T = all_nodes (drop_slot T)) as Hp0
      by (unfold all_nodes; by rewrite <- E0).
    split; [|split; [done|split; [done|]]].
    + split; [done|done|]. rewrite Hp0. apply (wh_future _ W1).
    + rewrite decide_True, app_nil_r, <- Hf2, <- Hp0 by done. done.
  - set (fired := n :: l') in *. unfold clear_near.
    rewrite (rd_lookup _ _ fired), bind_Ok, wr_Ok, bind_Ok
      by (lia || done || (rewrite (sh_near _ S); lia)).
    fold (drop_slot T). rewrite bind_Ok. simpl.
    destruct (timer_adds_spec (drop_slot T) adds W1 Ha) as (T2 & -> & W2 & Ht2 & Hp2).
    rewrite bind_Ok. pose proof (timer_execute_idle T2 0 [] W2) as Ei.
    cbn [timer_execute] in Ei. change TIME_NEAR_MASK with (2 ^ 8 - 1) in Ei.
    rewrite Ei, bind_Ok. simpl.
    exists fired, T2. rewrite app_nil_r. split; [done|]. split; [done|].
    split; [done|]. split; [done|]. rewrite decide_False by done. by rewrite Hp2, Hf2.
Qed.

(** One tick removes the due nodes, and only them. *)
Lemma timer_update_spec T adds :
  wheel_ok T → Forall (λ a, 1 ≤ a.2 ≤ INT_MAX) adds →
  let c := u32 (time T + 1) in
  ∃ fired T', timer_update T adds = Ok (fired, T') ∧ wheel_ok T' ∧ time T' = c ∧
    fired ≡ₚ filter (λ n, expire n = c) (all_nodes T) ∧
    all_nodes T' ≡ₚ filter (λ n, expire n ≠ c) (all_nodes T) ++
                     (if decide (fired = []) then [] else added c adds).
Proof.
  intros W Ha c. unfold timer_update. rewrite timer_execute_idle, bind_Ok by done.
  destruct (timer_shift_spec T W) as (T2 & E2 & W2 & Ht2 & Hp2).
  cbn [fst snd]. rewrite E2, bind_Ok.
  destruct (timer_execute_due T2 adds W2 Ha) as (fired & T3 & E3 & W3 & Ht3 & Hf & Hp3).
  rewrite E3, bind_Ok. exists fired, T3. rewrite Ht2 in *. fold c in Hf, Hp3, Ht3.
  rewrite Hp2 in Hf, Hp3. done.
Qed.

(** Ticks until the deadline [e], seen from [c]. *)
Definition wait (c e : Z) : Z := u32 (e - c).

Lemma wait_next c e :
  0 ≤ c < 2 ^ 32 → future c e →
  1 ≤ wait c e ∧ (e = u32 (c + 1) ↔ wait c e = 1) ∧
  (1 < wait c e → wait (u32 (c + 1)) e = wait c e - 1).
Proof.
  intros Hc [He Hf]. unfold wait, uwrap.
  assert (e ≠ c) as Hne by (intros ->; specialize (Hf eq_refl); lia).
  assert ((e - c) `mod` 2 ^ 32 = if decide (c < e) then e - c else e - c + 2 ^ 32) as ->.
  { case_decide; [apply Z.mod_small; lia|]. symmetry. apply Z.mod_unique with (-1); lia. }
  assert ((c + 1) `mod` 2 ^ 32 = if decide (c + 1 < 2 ^ 32) then c + 1 else 0) as ->.
  { case_decide; [apply Z.mod_small; lia|]. symmetry. apply Z.mod_unique with 1; lia. }
  repeat case_decide; (split; [lia|]; split; [lia|]); intros ?.
  all: first [rewrite Z.mod_small; lia | symmetry; apply Z.mod_unique with (-1); lia].
Qed.

Lemma wait_add c d : 0 ≤ d < 2 ^ 32 → wait c (u32 (d + c)) = d.
Proof.
  intros. unfold wait, uwrap. rewrite Zminus_mod_idemp_l, Z.add_simpl_r. apply Z.mod_small; lia.
Qed.

(** Running the wheel for [n] ticks: the batch of tick [j] holds the nodes that
    waited for [j] ticks, and the nodes that wait longer are kept. *)
Lemma timer_updates_spec n T :
  wheel_ok T →
  ∃ fs T', timer_updates n T = Ok (fs, T') ∧ wheel_ok T' ∧
    time T' = u32 (time T + Z.of_nat n) ∧ length fs = n ∧
    (∀ (j : nat) f, fs !! j = Some f →
      f ≡ₚ filter (λ x, wait (time T) (expire x) = Z.of_nat j + 1) (all_nodes T)) ∧
    all_nodes T' ≡ₚ filter (λ x, Z.of_nat n < wait (time T) (expire x)) (all_nodes T).
Proof.
  revert T. induction n as [|n IH]; intros T W; pose proof (sh_time _ (wh_shape _ W)) as Hc.
  - exists [], T. split; [done|]. split; [done|].
    split; [by rewrite Z.add_0_r, uwrap_small by lia|]. split; [done|]. split; [done|].
    rewrite filter_all; [done|]. apply Forall_forall. intros x Hx.
    destruct (wait_next (time T) (expire x)) as [? _]; [done|by apply W|]. lia.
  - cbn [timer_updates].
    destruct (timer_update_spec T [] W (Forall_nil_2 _)) as (f1 & T1 & -> & W1 & Ht1 & Hf1 & Hp1).
    assert (all_nodes T1 ≡ₚ filter (λ n0, expire n0 ≠ u32 (time T + 1)) (all_nodes T)) as Hp1'.
    { rewrite Hp1. case_decide; by rewrite app_nil_r. }
    rewrite bind_Ok. cbn [fst snd].
    destruct (IH T1 W1) as (fs & T' & -> & W' & Ht' & Hl & Hb & Hp'). rewrite bind_Ok.
    exists (f1 :: fs), T'. split; [done|]. split; [done|].
    assert (∀ x, x ∈ all_nodes T → _) as Hw
      by (intros x Hx; exact (wait_next (time T) (expire x) Hc (wh_future _ W x Hx))).
    split; [|split; [simpl; congruence|split]].
    + rewrite Ht', Ht1. unfold uwrap. rewrite Zplus_mod_idemp_l. f_equal. lia.
    + intros [|j] f; simpl.
      * intros [= <-]. rewrite Hf1. erewrite filter_iff_in; [done|].
        intros x Hx. apply Hw in Hx as (? & -> & _). done.
      * intros Hj. rewrite (Hb j f Hj), Hp1', list_filter_filter.
        erewrite filter_iff_in; [done|]. intros x Hx. rewrite Ht1.
        apply Hw in Hx as (H1 & H2 & H3). rewrite H2. cbn beta.
        split; [intros [E ?]; rewrite H3 in E by lia|intros E; rewrite H3 by lia]; lia.
    + rewrite Hp', Hp1', list_filter_filter. erewrite filter_iff_in; [done|].
      intros x Hx. rewrite Ht1. apply Hw in Hx as (H1 & H2 & H3). rewrite H2.
      split; [intros [E ?]; rewrite H3 in E by lia|intros E; rewrite H3 by lia]; lia.
Qed.

Lemma create_nodes : all_nodes timer_create_timer = [].
Proof. vm_compute. reflexivity. Qed.

Lemma create_wheel_ok : wheel_ok timer_create_timer.
Proof.
  assert (∀ n, n ∉ all_nodes timer_create_timer) as Hn
    by (rewrite create_nodes; intros n; apply not_elem_of_nil).
  split; [| |by intros n ?%Hn].
  - split; [done|done| |simpl; lia].
    intros l row H. simpl in H. by apply (lookup_replicate_1 4) in H as [-> _].
  - split.
    + intros i l n Hi Hin. destruct (Hn n). apply elem_of_all_nodes. eauto.
    + intros l j row ns n Hl Hj Hin. destruct (Hn n). apply elem_of_all_nodes. eauto 10.
Qed.

(** A wheel with one timer, due in three ticks. *)
Definition wheel3 : timer :=
  match timer_add timer_create_timer (mk_event 7 1) 3 with
  | Ok T => T | Err _ => timer_create_timer end.

Lemma wheel3_ok : wheel_ok wheel3.
Proof.
  unfold wheel3. destruct (timer_add_spec timer_create_timer (mk_event 7 1) 3)
    as (T & -> & W & _); [apply create_wheel_ok|unfold INT_MAX; lia|]. exact W.
Qed.

(** ** What the timer promises *)

(** C3: one tick ([timer_update]) never fails on a well-formed wheel, keeps it
    well formed, moves the time on by one (wrapping at 32 bits), dispatches
    exactly the nodes whose deadline is the new time, and keeps all the others
    together with the timers other threads added while it was dispatching. *)
Theorem tick_fires_exactly_the_due_nodes T adds :
  wheel_ok T → Forall (λ a, 1 ≤ a.2 ≤ INT_MAX) adds →
  let c := u32 (time T + 1) in
  ∃ fired T', timer_update T adds = Ok (fired, T') ∧ wheel_ok T' ∧ time T' = c ∧
    fired ≡ₚ filter (λ n, expire n = c) (all_nodes T) ∧
    all_nodes T' ≡ₚ filter (λ n, expire n ≠ c) (all_nodes T) ++
                     (if decide (fired = []) then [] else added c adds).
Proof. exact (timer_update_spec T adds). Qed.

Lemma tick_fires_exactly_the_due_nodes_witness :
  ∃ fired T', timer_update wheel3 [(mk_event 8 2, 5)] = Ok (fired, T') ∧ time T' = 1 ∧
    fired = [].
Proof.
  destruct (tick_fires_exactly_the_due_nodes wheel3 [(mk_event 8 2, 5)])
    as (fired & T' & E & _ & Ht & Hf & _).
  - exact wheel3_ok.
  - constructor; [unfold INT_MAX; simpl; lia|constructor].
  - exists fired, T'. split; [exact E|]. split; [rewrite Ht; vm_compute; reflexivity|].
    apply Permutation_nil. rewrite Hf. vm_compute. constructor.
Defined.

(** A timer set with [skynet_timeout] for [d] ticks, 1 to INT_MAX, on a
    well-formed wheel in which no pending node has the same event, is dispatched
    in the [d]-th of the following ticks and in no other one, however the levels
    of the wheel cascade and even when the 32-bit time wraps around. *)
Theorem timeout_fires_after_its_delay cp T handle_ d session_ n :
  wheel_ok T → 1 ≤ d ≤ INT_MAX → d ≤ Z.of_nat n →
  mk_event handle_ session_ ∉ event <$> all_nodes T →
  ∃ T1 fs T2, skynet_timeout cp T handle_ d session_ = Ok (session_, [], T1) ∧
    timer_updates n T1 = Ok (fs, T2) ∧ length fs = n ∧
    ∀ (j : nat) f, fs !! j = Some f →
      (mk_event handle_ session_ ∈ event <$> f ↔ Z.of_nat j + 1 = d).
Proof.
  intros W Hd Hn Hfresh. set (ev := mk_event handle_ session_) in *.
  pose proof (timer_add_spec T ev d W Hd) as (T1 & E1 & W1 & Ht1 & Hp1).
  destruct (timer_updates_spec n T1 W1) as (fs & T2 & E2 & _ & _ & Hl & Hb & _).
  exists T1, fs, T2. unfold skynet_timeout. rewrite decide_False by lia. fold ev.
  rewrite E1, bind_Ok. do 3 (split; [done|]). intros j f Hj.
  rewrite (Hb j f Hj), Hp1, Ht1, filter_cons. cbn [expire].
  rewrite wait_add by (unfold INT_MAX in *; lia).
  assert (ev ∉ event <$> filter (λ x, wait (time T) (expire x) = Z.of_nat j + 1) (all_nodes T))
    as Hno.
  { intros (x & Ex & Hx)%list_elem_of_fmap. apply list_elem_of_filter in Hx as [_ Hx].
    apply Hfresh. apply list_elem_of_fmap. eauto. }
  case_decide; rewrite ?fmap_cons, ?elem_of_cons; cbn [event]; split; (lia || tauto || intuition).
Qed.

Lemma timeout_fires_after_its_delay_witness :
  ∃ T1 fs T2, skynet_timeout (λ _ _, true) wheel3 9 300 2 = Ok (2, [], T1) ∧
    timer_updates 400 T1 = Ok (fs, T2) ∧ length fs = 400%nat ∧
    ∀ (j : nat) f, fs !! j = Some f →
      (mk_event 9 2 ∈ event <$> f ↔ Z.of_nat j + 1 = 300).
Proof.
  apply (timeout_fires_after_its_delay (λ _ _, true) wheel3 9 300 2 400).
  - exact wheel3_ok.
  - unfold INT_MAX. lia.
  - lia.
  - assert (event <$> all_nodes wheel3 = [mk_event 7 1]) as -> by (vm_compute; reflexivity).
    intros H. apply list_elem_of_singleton in H. discriminate H.
Defined.

(** When the monotonic clock has moved on by [k] centiseconds, at most
    INT_MAX, [skynet_updatetime] runs the wheel [k] ticks: it dispatches exactly the
    nodes that wait for at most [k] ticks, keeps those that wait longer, and adds
    [k] to the current time. *)
Theorem updatetime_catches_up T k :
  wheel_ok T → 0 ≤ k ≤ INT_MAX →
  ∃ fs T', skynet_updatetime T (current_point T + k) = Ok (fs, T') ∧ wheel_ok T' ∧
    length fs = Z.to_nat k ∧ time T' = u32 (time T + k) ∧
    (∀ (j : nat) f, fs !! j = Some f →
      f ≡ₚ filter (λ x, wait (time T) (expire x) = Z.of_nat j + 1) (all_nodes T)) ∧
    all_nodes T' ≡ₚ filter (λ x, k < wait (time T) (expire x)) (all_nodes T).
Proof.
  intros W Hk. unfold INT_MAX in Hk. unfold skynet_updatetime.
  rewrite decide_False by lia. case_decide as Hz.
  - rewrite Z.add_simpl_l, (uwrap_small 32 k) by lia. c_run.
    set (T0 := {| near := near T; t := t T; time := time T; starttime := starttime T;
                  current := u64 (current T + k); current_point := current_point T + k |}).
    assert (wheel_ok T0) as W0 by (destruct W as [[] [] ?]; split; [by split|by split|done]).
    destruct (timer_updates_spec (Z.to_nat k) T0 W0) as (fs & T' & -> & W' & Ht & Hl & Hb & Hp).
    rewrite Z2Nat.id in Ht, Hp by lia. exists fs, T'. done.
  - assert (k = 0) as -> by lia. exists [], T. split; [done|]. split; [done|].
    pose proof (sh_time _ (wh_shape _ W)). split; [done|].
    split; [by rewrite Z.add_0_r, uwrap_small|]. split; [done|].
    rewrite filter_all; [done|]. apply Forall_forall. intros x Hx.
    destruct (wait_next (time T) (expire x)) as [? _]; [done|by apply W|]. lia.
Qed.

Lemma updatetime_catches_up_witness :
  ∃ fs T', skynet_updatetime wheel3 (current_point wheel3 + 4) = Ok (fs, T') ∧
    length fs = 4%nat ∧ time T' = 4.
Proof.
  destruct (updatetime_catches_up wheel3 4) as (fs & T' & E & _ & Hl & Ht & _).
  - exact wheel3_ok.
  - unfold INT_MAX. lia.
  - exists fs, T'. split; [exact E|]. split; [exact Hl|]. rewrite Ht. vm_compute. reflexivity.
Defined.
