(* ===== verification/ConnectionManager.v ===== *)
(** * The message codec of the game connection: LuaInterface/lua_connectionManager.c

    [packMessage] frames a response for the client, [unpackMessage] takes the
    header off a request. The theorems give the layout both implement, the round
    trip of a response, and what a request becomes: the name depends on the
    stack bytes the unterminated buffer held, and header bytes above 127 are
    sign extended. *)
From stdpp Require Import base numbers list.
From S2P Require Import Prelude CString LuaApi.

Definition TYPE_STRING_MAX_LEN : Z := 255.

(** A [char] is signed on the server's platforms. *)
Definition rd_char (buf : list Z) (i : Z) : result Z := b ← rd buf i; Ok (s8 b).

(** [unpackMessage] on the memory the userdata points to ([None] for NULL).
    [messageName] is an uninitialised array: [stack] is what it held. The last
    result is a pointer, given as an offset into the message. *)
Definition unpackMessage (userdata : option (list Z)) (stack : list Z) :
    result (list lua_value) :=
  buf ← deref userdata;
  b0 ← rd_char buf 0; b1 ← rd_char buf 1; b2 ← rd_char buf 2; b3 ← rd_char buf 3;
  let session := Z.lor (Z.lor (Z.lor (Z.shiftl b0 24) (Z.shiftl b1 16)) (Z.shiftl b2 8)) b3 in
  messageType ← rd_char buf 4;
  b5 ← rd_char buf 5; b6 ← rd_char buf 6;
  let messageNameLen := Z.lor (Z.shiftl b5 8) b6 in
  messageName ← c_for (Z.to_nat (Z.min messageNameLen TYPE_STRING_MAX_LEN)) 0
    (λ i nm, c ← rd buf (7 + i); wr nm i c) stack;
  pushed ← c_str messageName;
  Ok [LInteger session; LInteger messageType; LString pushed;
      LInteger messageNameLen; LUserdata (7 + messageNameLen)].

Definition packMessage `{LuaConv} (args : list lua_value) : result (list lua_value) :=
  let session := s32 (lua_tointeger (lua_arg args 2)) in
  let buf := default [] (lua_tolstring (lua_arg args 3)) in
  let size := s32 (lua_rawlen (lua_arg args 3)) in
  str ← deref (lua_tolstring (lua_arg args 1));
  let messageName := until_nul str in
  let messageNameSize := s32 (zlen messageName) in
  t1 ← c_int (size + 6);
  totalSize ← c_int (t1 + messageNameSize);
  let package := replicate (Z.to_nat totalSize) 0 in
  package ← wr package 0 (u8 (Z.shiftr session 24));
  package ← wr package 1 (u8 (Z.shiftr session 16));
  package ← wr package 2 (u8 (Z.shiftr session 8));
  package ← wr package 3 (u8 session);
  package ← wr package 4 (u8 (Z.shiftr messageNameSize 8));
  package ← wr package 5 (u8 messageNameSize);
  package ← c_for (Z.to_nat messageNameSize) 0
    (λ i pkg, c ← rd messageName i; wr pkg (i + 6) c) package;
  package ← wr_bytes package (6 + messageNameSize) (take (Z.to_nat size) buf);
  Ok [LString package].

(** ** The wire format *)

Definition be32 (x : Z) : list Z :=
  [u8 (Z.shiftr x 24); u8 (Z.shiftr x 16); u8 (Z.shiftr x 8); u8 x].
Definition be16 (x : Z) : list Z := [u8 (Z.shiftr x 8); u8 x].

(** A request: session, message type, length-prefixed name, body. *)
Definition request (session type : Z) (name body : list Z) : list Z :=
  be32 session ++ [u8 type] ++ be16 (zlen name) ++ name ++ body.

(** A response, and how a client reads one. *)
Definition response (session : Z) (name body : list Z) : list Z :=
  be32 session ++ be16 (zlen name) ++ name ++ body.
Definition decode_response (p : list Z) : option (Z * list Z * list Z) :=
  match p with
  | b0 :: b1 :: b2 :: b3 :: l0 :: l1 :: rest =>
      let n := Z.to_nat (l0 * 256 + l1) in
      if decide (n ≤ length rest)%nat then
        Some (s32 (((b0 * 256 + b1) * 256 + b2) * 256 + b3), take n rest, drop n rest)
      else None
  | _ => None
  end.

(** ** Bytes *)

Lemma be16_value x : 0 ≤ x < 2 ^ 16 → u8 (Z.shiftr x 8) * 256 + u8 x = x.
Proof.
  intros. unfold uwrap. rewrite Z.shiftr_div_pow2 by lia.
  change (2 ^ 8) with 256 in *. change (2 ^ 16) with 65536 in *.
  Z.to_euclidean_division_equations. lia.
Qed.
Lemma be32_value x :
  ((u8 (Z.shiftr x 24) * 256 + u8 (Z.shiftr x 16)) * 256 + u8 (Z.shiftr x 8)) * 256 + u8 x
    = x `mod` 2 ^ 32.
Proof.
  unfold uwrap. rewrite !Z.shiftr_div_pow2 by lia.
  change (2 ^ 8) with 256. change (2 ^ 16) with 65536. change (2 ^ 24) with 16777216.
  change (2 ^ 32) with 4294967296. Z.to_euclidean_division_equations. lia.
Qed.
Lemma s32_mod x : INT_MIN ≤ x ≤ INT_MAX → s32 (x `mod` 2 ^ 32) = x.
Proof.
  unfold INT_MIN, INT_MAX, swrap. intros. rewrite Zplus_mod_idemp_l, Z.mod_small; lia.
Qed.

(** ** Packing *)

Section Pack.
Context `{LuaConv}.

Lemma packMessage_response name session body :
  Forall (λ c, c ≠ 0) name → INT_MIN ≤ session ≤ INT_MAX →
  zlen name + zlen body + 6 ≤ INT_MAX →
  packMessage [LString name; LInteger session; LString body]
    = Ok [LString (response session name body)].
Proof.
  intros Hn Hs Hlen. unfold packMessage, INT_MIN, INT_MAX in *.
  pose proof (zlen_nonneg name). pose proof (zlen_nonneg body).
  cbn -[replicate wr_bytes c_for Z.add zlen s32 wr]. rewrite until_nul_ok by done.
  rewrite (swrap_small 32 session), (swrap_small 32 (zlen body)), (swrap_small 32 (zlen name))
    by lia.
  rewrite c_int_Ok by (unfold INT_MIN, INT_MAX; lia). cbn -[replicate wr_bytes c_for Z.add zlen s32 wr].
  rewrite c_int_Ok by (unfold INT_MIN, INT_MAX; lia). cbn -[replicate wr_bytes c_for Z.add zlen s32 wr].
  replace (Z.to_nat (zlen body + 6 + zlen name)) with (6 + (length name + length body))%nat
    by (unfold zlen; lia).
  cbn [replicate Nat.add]. set (z := replicate (length name + length body) 0).
  assert (zlen z = zlen name + zlen body) as Hz by (unfold z; rewrite zlen_replicate; unfold zlen; lia).
  do 6 wr_cell.
  rewrite (c_for_copy _ name _ 0 6), bind_Ok; cycle 1.
  { intros i d. rewrite Z.add_0_l, (Z.add_comm 6). done. }
  { lia. } { lia. } { rewrite Z2Nat.id; lia. } { rewrite !zlen_cons, Z2Nat.id; lia. }
  change (Z.to_nat 6) with 6%nat. cbn [take drop Nat.add app]. rewrite drop_0.
  unfold zlen. rewrite !Nat2Z.id, !firstn_all.
  unfold wr_bytes. rewrite decide_True; cycle 1.
  { unfold zlen. cbn [length]. rewrite !length_app, length_drop. unfold zlen in Hz. lia. }
  rewrite bind_Ok. replace (Z.to_nat (6 + Z.of_nat (length name))) with (6 + length name)%nat by lia.
  rewrite take_0. cbn [firstn skipn Nat.add app].
  rewrite take_app_length, drop_ge, app_nil_r; [done|].
  rewrite !length_app, length_drop. unfold zlen in Hz. lia.
Qed.
End Pack.

(** ** Unpacking *)

Lemma s8_low b : 0 ≤ b < 128 → s8 b = b.
Proof. intros. apply swrap_small; lia. Qed.
Lemma s8_high b : 128 ≤ b < 256 → s8 b = b - 256.
Proof.
  intros. unfold swrap. rewrite <- (Z.mod_unique (b + 2 ^ (8 - 1)) (2 ^ 8) 1 (b - 128)); lia.
Qed.

(** A sign-extended byte overrides everything the OR put above it. *)
Lemma lor_sign a b : 128 ≤ b < 256 → Z.lor (Z.shiftl a 8) (b - 256) = b - 256.
Proof.
  intros Hb. replace (b - 256) with (Z.lor b (Z.shiftl (-1) 8)).
  2:{ rewrite Z.shiftl_mul_pow2, lor_add_high by lia. lia. }
  apply Z.bits_inj'. intros n Hn. rewrite !Z.lor_spec.
  destruct (decide (n < 8)).
  - rewrite !Z.shiftl_spec_low by lia. done.
  - rewrite !Z.shiftl_spec by lia. rewrite Z.bits_m1 by lia. by rewrite !orb_true_r.
Qed.
Lemma lor_low a b : 0 ≤ b < 256 → Z.lor (Z.shiftl a 8) b = a * 256 + b.
Proof.
  intros. rewrite Z.lor_comm, Z.shiftl_mul_pow2, lor_add_high by lia. lia.
Qed.
Lemma session_nest b0 b1 b2 b3 :
  Z.lor (Z.lor (Z.lor (Z.shiftl b0 24) (Z.shiftl b1 16)) (Z.shiftl b2 8)) b3
    = Z.lor (Z.shiftl (Z.lor (Z.shiftl (Z.lor (Z.shiftl b0 8) b1) 8) b2) 8) b3.
Proof. rewrite !Z.shiftl_lor, !Z.shiftl_shiftl by lia. done. Qed.

Lemma unpackMessage_eq b0 b1 b2 b3 b4 b5 b6 rest stack :
  let n := Z.lor (Z.shiftl (s8 b5) 8) (s8 b6) in
  length stack = 255%nat → Z.min n 255 ≤ zlen rest →
  unpackMessage (Some ([b0; b1; b2; b3; b4; b5; b6] ++ rest)) stack
    = (let k := Z.to_nat (Z.min n 255) in
       pushed ← c_str (take k rest ++ drop k stack);
       Ok [LInteger (Z.lor (Z.lor (Z.lor (Z.shiftl (s8 b0) 24) (Z.shiftl (s8 b1) 16))
                              (Z.shiftl (s8 b2) 8)) (s8 b3));
           LInteger (s8 b4); LString pushed; LInteger n; LUserdata (7 + n)]).
Proof.
  intros n Hs Hr. unfold unpackMessage, rd_char. cbn [deref of_option]. rewrite bind_Ok.
  rewrite (rd_lookup _ 0 b0), (rd_lookup _ 1 b1), (rd_lookup _ 2 b2), (rd_lookup _ 3 b3),
    (rd_lookup _ 4 b4), (rd_lookup _ 5 b5), (rd_lookup _ 6 b6), !bind_Ok by (lia || done).
  fold n. unfold TYPE_STRING_MAX_LEN.
  rewrite (c_for_copy _ ([b0; b1; b2; b3; b4; b5; b6] ++ rest) _ 7 0), bind_Ok.
  - by rewrite take_0.
  - done.
  - lia.
  - lia.
  - rewrite zlen_app, !zlen_cons. change (zlen (@nil Z)) with 0. pose proof (zlen_nonneg rest). lia.
  - unfold zlen. rewrite Hs. lia.
Qed.

Lemma request_cells session type name body :
  request session type name body =
  [u8 (Z.shiftr session 24); u8 (Z.shiftr session 16); u8 (Z.shiftr session 8); u8 session;
   u8 type; u8 (Z.shiftr (zlen name) 8); u8 (zlen name)] ++ (name ++ body).
Proof. done. Qed.

Lemma u8_byte x : 0 ≤ u8 x < 256.
Proof. apply (uwrap_range 8). lia. Qed.

(** The name buffer after the copy, read back: the name and then what the stack
    held behind it. *)
Lemma name_buffer name body stack :
  Forall (λ c, c ≠ 0) name → length stack = 255%nat →
  let k := Z.to_nat (Z.min (zlen name) 255) in
  c_str (take k (name ++ body) ++ drop k stack)
    = (junk ← c_str (drop (length name) stack); Ok (name ++ junk)).
Proof.
  intros Hn Hs k. destruct (decide (zlen name ≤ 255)) as [Hle|Hgt]; unfold zlen in *.
  - assert (k = length name) as -> by (unfold k; lia).
    rewrite take_app_length. by apply c_str_prefix.
  - assert (k = 255%nat) as -> by (unfold k; lia).
    rewrite !drop_ge, app_nil_r by lia. rewrite take_app_le by lia.
    rewrite c_str_none; [done|]. intros H0%elem_of_take. destruct H0 as (i & H0 & _).
    by apply (Forall_lookup_1 _ _ _ _ Hn H0).
Qed.

(** A length with low bytes below 128 is read back. *)
Lemma low_length n :
  0 ≤ n < 2 ^ 15 → u8 n < 128 →
  Z.lor (Z.shiftl (s8 (u8 (Z.shiftr n 8))) 8) (s8 (u8 n)) = n.
Proof.
  intros Hn Hb. pose proof (u8_byte n). pose proof (u8_byte (Z.shiftr n 8)).
  assert (Z.shiftr n 8 < 128) by (rewrite Z.shiftr_div_pow2 by lia;
    apply Z.div_lt_upper_bound; lia).
  assert (0 ≤ Z.shiftr n 8) by (apply Z.shiftr_nonneg; lia).
  pose proof (be16_value n) as E. rewrite (uwrap_small 8 (Z.shiftr _ _)) in * by lia.
  rewrite !s8_low, lor_low by lia. apply E. lia.
Qed.

Lemma low_header session type name body stack :
  0 ≤ session < 2 ^ 31 → Forall (λ b, b < 128) (be32 session) → 0 ≤ type < 128 →
  zlen name < 2 ^ 15 → u8 (zlen name) < 128 → Forall (λ c, c ≠ 0) name →
  length stack = 255%nat →
  unpackMessage (Some (request session type name body)) stack
    = (junk ← c_str (drop (length name) stack);
       Ok [LInteger session; LInteger type; LString (name ++ junk);
           LInteger (zlen name); LUserdata (7 + zlen name)]).
Proof.
  intros Hs Hb Ht Hn Hn' Hname Hst. rewrite request_cells.
  unfold be32 in Hb. rewrite !Forall_cons in Hb. destruct Hb as (H0 & H1 & H2 & H3 & _).
  pose proof (zlen_nonneg name). pose proof (zlen_nonneg body).
  pose proof (low_length (zlen name) ltac:(lia) Hn') as En.
  rewrite unpackMessage_eq; rewrite ?En; [|done|rewrite zlen_app; lia].
  cbv zeta. rewrite name_buffer by done.
  destruct (c_str (drop (length name) stack)) as [junk|]; [|done]. rewrite !bind_Ok.
  rewrite (s8_low (u8 type)), (uwrap_small 8 type) by (rewrite ?uwrap_small; lia).
  repeat match goal with |- context [s8 (u8 ?x)] =>
    rewrite (s8_low (u8 x)) by (pose proof (u8_byte x); lia) end.
  rewrite session_nest, !lor_low by apply u8_byte.
  rewrite be32_value, Z.mod_small by lia. done.
Qed.

(** ** What the codec promises *)

(** For every NUL-free name shorter than 2^16 bytes, every int session and
    every body such that the packet length fits an int, [packMessage] returns
    one string, from which a client that reads the big-endian session, the
    big-endian name length, the name and the body gets all three back. *)
Theorem packMessage_decodes `{LuaConv} name session body :
  Forall (λ c, c ≠ 0) name → zlen name < 2 ^ 16 → INT_MIN ≤ session ≤ INT_MAX →
  zlen name + zlen body + 6 ≤ INT_MAX →
  ∃ p, packMessage [LString name; LInteger session; LString body] = Ok [LString p] ∧
    zlen p = 6 + zlen name + zlen body ∧ decode_response p = Some (session, name, body).
Proof.
  intros Hn Hl Hs Hlen. exists (response session name body).
  split; [by apply packMessage_response|]. pose proof (zlen_nonneg name). split.
  { unfold response. rewrite !zlen_app. change (zlen (be32 session)) with 4.
    change (zlen (be16 (zlen name))) with 2. lia. }
  unfold response, be32, be16. cbn [app decode_response].
  rewrite be16_value, be32_value, s32_mod by lia. unfold zlen. rewrite Nat2Z.id.
  rewrite decide_True by (rewrite length_app; lia). by rewrite take_app_length, drop_app_length.
Qed.

Lemma packMessage_decodes_witness :
  ∃ p, @packMessage no_conv [LString [76; 111; 103]; LInteger (-2); LString [0; 255]]
         = Ok [LString p] ∧
    zlen p = 11 ∧ decode_response p = Some (-2, [76; 111; 103], [0; 255]).
Proof.
  apply (@packMessage_decodes no_conv [76; 111; 103] (-2) [0; 255]).
  - repeat constructor; lia.
  - vm_compute. reflexivity.
  - vm_compute. split; discriminate.
  - vm_compute. discriminate.
Defined.

(** A request whose header bytes are all below 128 and whose name has no
    NUL is unpacked into its session, type, name length and body pointer, but
    the name is followed by whatever the uninitialised [messageName] array held
    behind it, up to its first NUL; without such a NUL, in particular for a name
    of 255 bytes or more, the read leaves the array. The name is right exactly
    when the array happened to hold a NUL at its end. *)
Theorem unpackMessage_reads_request session type name body stack :
  0 ≤ session < 2 ^ 31 → Forall (λ b, b < 128) (be32 session) → 0 ≤ type < 128 →
  zlen name < 2 ^ 15 → u8 (zlen name) < 128 → Forall (λ c, c ≠ 0) name →
  length stack = 255%nat →
  unpackMessage (Some (request session type name body)) stack
    = (junk ← c_str (drop (length name) stack);
       Ok [LInteger session; LInteger type; LString (name ++ junk);
           LInteger (zlen name); LUserdata (7 + zlen name)]) ∧
  ((∃ r, unpackMessage (Some (request session type name body)) stack = Ok r ∧
     r !! 2%nat = Some (LString name)) ↔ stack !! length name = Some 0).
Proof.
  intros. rewrite low_header by done. split; [done|]. split.
  - intros (r & E & Hr). apply bind_Ok_inv in E as (junk & E & [= <-]).
    injection Hr as Hr. rewrite <- (app_nil_r name) in Hr at 2. apply app_inv_head in Hr as ->.
    apply c_str_inv in E as (r & E & _). cbn [app] in E.
    rewrite <- (Nat.add_0_r (length name)), <- lookup_drop, E. done.
  - intros E. rewrite (drop_S _ _ _ E). cbn. eexists. split; [done|]. cbn. by rewrite app_nil_r.
Qed.

Lemma unpackMessage_reads_request_witness :
  unpackMessage (Some (request 70000 3 [76; 111; 103] [9])) (replicate 255 65) = Err OutOfBounds
  ∧ unpackMessage (Some (request 70000 3 [76; 111; 103] [9])) (replicate 255 0)
    = Ok [LInteger 70000; LInteger 3; LString [76; 111; 103]; LInteger 3; LUserdata 10].
Proof.
  split.
  - destruct (unpackMessage_reads_request 70000 3 [76; 111; 103] [9] (replicate 255 65))
      as [-> _]; try (vm_compute; (reflexivity || (split; congruence))).
    + repeat constructor.
    + repeat constructor; lia.
  - destruct (unpackMessage_reads_request 70000 3 [76; 111; 103] [9] (replicate 255 0))
      as [-> _]; try (vm_compute; (reflexivity || (split; congruence))).
    + repeat constructor.
    + repeat constructor; lia.
Defined.

(** C37: header bytes above 127 are sign extended. A request whose session ends
    in such a byte [b] is read with session [b - 256], whatever its higher
    bytes, and a request whose name length ends in such a byte is read with the
    negative length [b - 256]: no byte of the name is copied, and the body
    pointer lies before the body. *)
Theorem unpackMessage_sign_extends session type name body stack :
  length stack = 255%nat → 0 ∈ stack →
  (128 ≤ u8 session → zlen name < 2 ^ 15 → u8 (zlen name) < 128 →
   (∃ s, c_str (drop (length name) stack) = Ok s) → Forall (λ c, c ≠ 0) name →
   ∃ t nm, unpackMessage (Some (request session type name body)) stack
     = Ok [LInteger (u8 session - 256); t; nm; LInteger (zlen name); LUserdata (7 + zlen name)]) ∧
  (128 ≤ u8 (zlen name) →
   ∃ s t, unpackMessage (Some (request session type name body)) stack
     = Ok [s; t; LString (until_nul stack); LInteger (u8 (zlen name) - 256);
           LUserdata (7 + (u8 (zlen name) - 256))]).
Proof.
  intros Hst H0. rewrite request_cells. pose proof (zlen_nonneg name). pose proof (zlen_nonneg body).
  pose proof (u8_byte session). pose proof (u8_byte (zlen name)). split.
  - intros Hs Hn Hn' [junk Hj] Hname. pose proof (low_length (zlen name) ltac:(lia) Hn') as En.
    rewrite unpackMessage_eq; rewrite ?En; [|done|rewrite zlen_app; lia].
    cbv zeta. rewrite name_buffer, Hj, !bind_Ok by done.
    rewrite session_nest, (s8_high (u8 session)), lor_sign by lia. eauto.
  - intros Hn. assert (Z.lor (Z.shiftl (s8 (u8 (Z.shiftr (zlen name) 8))) 8) (s8 (u8 (zlen name)))
      = u8 (zlen name) - 256) as En by (rewrite (s8_high (u8 (zlen name))), lor_sign by lia; done).
    rewrite unpackMessage_eq; rewrite ?En; [|done|rewrite zlen_app; lia].
    cbv zeta. rewrite (Z2Nat.nonpos (Z.min _ _)), take_0, drop_0 by lia. cbn [app].
    rewrite c_str_until, bind_Ok by done. eauto.
Qed.

Lemma unpackMessage_sign_extends_witness :
  (∃ t nm, unpackMessage (Some (request 1000 3 [76] [9])) (replicate 255 0)
     = Ok [LInteger (-24); t; nm; LInteger 1; LUserdata 8]) ∧
  (∃ s t, unpackMessage (Some (request 1 3 (replicate 200 76) [9])) (replicate 255 0)
     = Ok [s; t; LString []; LInteger (-56); LUserdata (-49)]).
Proof.
  split.
  - apply (unpackMessage_sign_extends 1000 3 [76] [9] (replicate 255 0)).
    + reflexivity.
    + left.
    + vm_compute. discriminate.
    + vm_compute. reflexivity.
    + vm_compute. reflexivity.
    + exists []. vm_compute. reflexivity.
    + repeat constructor; lia.
  - apply (unpackMessage_sign_extends 1 3 (replicate 200 76) [9] (replicate 255 0)).
    + reflexivity.
    + left.
    + vm_compute. discriminate.
Defined.
