(* ===== verification/DBObject.v ===== *)
(** * The database objects: DBObject/dbobjuseraccountlib.c and dbobjusergameinfolib.c

    Userdata objects whose string fields are raw pointers into Lua strings. The
    model keeps the Lua string store and the objects apart, so that a string can
    be collected while a field still points to it. The theorems give the setters
    and getters, the validation of the integer fields, and the two functions
    that build the redis key and value of an account. *)
From Stdlib Require Import String Ascii.
From stdpp Require Import base gmap numbers list.
From S2P Require Import Prelude CString LuaApi.

(** ** Objects and the Lua heap *)

(** A [char *] field: never assigned, NULL, or the address of a Lua string. *)
Inductive cptr : Type := PUninit | PNull | PStr (id : Z).
Global Instance cptr_eq_dec : EqDecision cptr.
Proof. solve_decision. Defined.

Record userAccount : Type := mk_account {
  user_id : cptr; account : cptr; device : cptr; facebook_account : cptr;
  google_play_account : cptr; identifier : cptr }.

(** The [int] fields are [None] until they are assigned. *)
Record userGameInfo : Type := mk_gameinfo {
  gi_user_id : cptr; level : option Z; exp : option Z; game_version : cptr;
  last_login_time : cptr }.

Record lua_heap : Type := mk_heap {
  strings : gmap Z (list Z);
  accounts : gmap Z userAccount;
  gameinfos : gmap Z userGameInfo }.

Definition put_account (h : lua_heap) (p : Z) (a : userAccount) : lua_heap :=
  mk_heap (strings h) (<[p := a]> (accounts h)) (gameinfos h).
Definition put_gameinfo (h : lua_heap) (p : Z) (g : userGameInfo) : lua_heap :=
  mk_heap (strings h) (accounts h) (<[p := g]> (gameinfos h)).

(** The garbage collector frees a set of strings; a field of a userdata is no
    reference to it. *)
Definition collect (h : lua_heap) (dead : gset Z) : lua_heap :=
  mk_heap (filter (λ kv, kv.1 ∉ dead) (strings h)) (accounts h) (gameinfos h).

(** Arguments: a userdata, a string object, an integer, or something else. *)
Inductive dbarg : Type := DUdata (p : Z) | DStr (id : Z) | DInt (i : Z) | DOther.

(** [luaL_checkudata] with the metatable of the library. *)
Definition check_account (h : lua_heap) (v : dbarg) : result (Z * userAccount) :=
  match v with
  | DUdata p => a ← of_option (LuaError 1) (accounts h !! p); Ok (p, a)
  | _ => Err (LuaError 1)
  end.
Definition check_gameinfo (h : lua_heap) (v : dbarg) : result (Z * userGameInfo) :=
  match v with
  | DUdata p => g ← of_option (LuaError 1) (gameinfos h !! p); Ok (p, g)
  | _ => Err (LuaError 1)
  end.

(** [luaL_checkstring] at index 2: the address of the string. An integer is
    converted in place to a string of its own. *)
Definition check_string `{LuaConv} (h : lua_heap) (v : dbarg) : result (Z * lua_heap) :=
  match v with
  | DStr id => Ok (id, h)
  | DInt i =>
      let id := fresh (dom (strings h)) in
      Ok (id, mk_heap (<[id := lua_int2str i]> (strings h)) (accounts h) (gameinfos h))
  | _ => Err (LuaError 2)
  end.
(** [luaL_checkinteger] at index 2. *)
Definition check_integer `{LuaConv} (h : lua_heap) (v : dbarg) : result Z :=
  match v with
  | DInt i => Ok i
  | DStr id =>
      s ← of_option UseAfterFree (strings h !! id);
      of_option (LuaError 2) (lua_str2int s)
  | _ => Err (LuaError 2)
  end.

(** The C string a field points to; NULL is [None]. *)
Definition field_str (h : lua_heap) (p : cptr) : result (option cstring) :=
  match p with
  | PUninit => Err Uninitialised
  | PNull => Ok None
  | PStr id => s ← of_option UseAfterFree (strings h !! id); Ok (Some (until_nul s))
  end.

(** [lua_pushstring]: NULL pushes nil. *)
Definition push_field (h : lua_heap) (p : cptr) : result lua_value :=
  s ← field_str h p;
  Ok (match s with Some s => LString s | None => LNil end).

(** ** dbobjuseraccountlib.c *)

Definition create_user_account (h : lua_heap) : lua_heap * Z :=
  let p := fresh (dom (accounts h)) in
  (put_account h p (mk_account PUninit PUninit PUninit PUninit PUninit PUninit), p).

Section Account.
Context `{LuaConv}.

(** The common shape of the getters and setters. *)
Definition get_account_string (f : userAccount → cptr) (h : lua_heap) (a1 : dbarg) :
    result lua_value :=
  pa ← check_account h a1;
  push_field h (f pa.2).
Definition set_account_string (f : userAccount → cptr → userAccount) (h : lua_heap)
    (a1 a2 : dbarg) : result lua_heap :=
  pa ← check_account h a1;
  sh ← check_string h a2;
  Ok (put_account sh.2 pa.1 (f pa.2 (PStr sh.1))).

Definition get_user_account_user_id := get_account_string user_id.
Definition set_user_account_user_id := set_account_string (λ a v,
  mk_account v (account a) (device a) (facebook_account a) (google_play_account a) (identifier a)).
Definition get_user_account_account := get_account_string account.
Definition set_user_account_account := set_account_string (λ a v,
  mk_account (user_id a) v (device a) (facebook_account a) (google_play_account a) (identifier a)).
Definition get_user_account_device := get_account_string device.
Definition set_user_account_device := set_account_string (λ a v,
  mk_account (user_id a) (account a) v (facebook_account a) (google_play_account a) (identifier a)).
Definition get_user_account_facebook_account := get_account_string facebook_account.
Definition set_user_account_facebook_account := set_account_string (λ a v,
  mk_account (user_id a) (account a) (device a) v (google_play_account a) (identifier a)).
Definition get_user_account_google_play_account := get_account_string google_play_account.
Definition set_user_account_google_play_account := set_account_string (λ a v,
  mk_account (user_id a) (account a) (device a) (facebook_account a) v (identifier a)).
Definition get_user_account_identifier := get_account_string identifier.
Definition set_user_account_identifier := set_account_string (λ a v,
  mk_account (user_id a) (account a) (device a) (facebook_account a) (google_play_account a) v).

(** The method table [arrayFunc_userAccountMeta]: the fields by name. *)
Inductive account_field : Type :=
| UserId | Account | Device | FacebookAccount | GooglePlayAccount | Identifier.
Global Instance account_field_eq_dec : EqDecision account_field.
Proof. solve_decision. Defined.

Definition account_getter (f : account_field) : lua_heap → dbarg → result lua_value :=
  match f with
  | UserId => get_user_account_user_id
  | Account => get_user_account_account
  | Device => get_user_account_device
  | FacebookAccount => get_user_account_facebook_account
  | GooglePlayAccount => get_user_account_google_play_account
  | Identifier => get_user_account_identifier
  end.
Definition account_setter (f : account_field) : lua_heap → dbarg → dbarg → result lua_heap :=
  match f with
  | UserId => set_user_account_user_id
  | Account => set_user_account_account
  | Device => set_user_account_device
  | FacebookAccount => set_user_account_facebook_account
  | GooglePlayAccount => set_user_account_google_play_account
  | Identifier => set_user_account_identifier
  end.
End Account.

(** *** The redis key *)

Definition HASH_KEY_LEN : Z := 27.
Definition KEY_CHAR_POOL_LEN : Z := 62.
Definition KEY_CHAR_POOL : list Z :=
  lit "abcdefghijklmnopqrstuvwxyzABCDEFGHIJKLMNOPQRSTUVWXYZ0123456789".
(** An array of exactly five bytes: the literal's NUL does not fit. *)
Definition FIX_HASH_KEY_PREFIX : list Z := lit "redis".

(** [get_user_account_redis_item_key]: [rand] is the sequence of random numbers,
    [block] what malloc returned, [data_after] and [heap_after] the memory that
    follows the prefix array and the block, which the unterminated reads reach. *)
Definition get_user_account_redis_item_key (rand : Z → Z)
    (block data_after heap_after : list Z) : result lua_value :=
  prefix ← c_str (FIX_HASH_KEY_PREFIX ++ data_after);
  key ← strcpy block prefix;
  key ← c_for 22 5 (λ i key,
    c ← rd KEY_CHAR_POOL (rand (i - 5) `mod` KEY_CHAR_POOL_LEN); wr key i c) key;
  key ← wr key 20 45;
  key ← wr key 14 45;
  key ← wr key 9 45;
  key ← wr key 5 45;
  pushed ← c_str (key ++ heap_after);
  Ok (LString pushed).

(** *** The redis value *)

(** A sequence of [strcat] calls. *)
Fixpoint strcats (buf : list Z) (l : list cstring) : result (list Z) :=
  match l with
  | [] => Ok buf
  | s :: l => buf' ← strcat buf s; strcats buf' l
  end.

(** The call guarded by [if (field != NULL)]. *)
Definition guarded (o : option cstring) : list cstring :=
  match o with Some s => [s] | None => [] end.
Definition opt_len (o : option cstring) : Z :=
  match o with Some s => zlen s | None => 0 end.

Definition value_pieces (u a d f g i : option cstring) : list cstring :=
  [lit "userid:"] ++ guarded u ++ [lit ","] ++
  [lit "account:"] ++ guarded a ++ [lit ","] ++
  [lit "device:"] ++ guarded d ++ [lit ","] ++
  [lit "facebookaccount:"] ++ guarded f ++ [lit ","] ++
  [lit "googleplayaccount:"] ++ guarded g ++ [lit ","] ++
  [lit "identifier:"] ++ guarded i.

(** [get_user_account_redis_item_value]; [malloc] answers with the bytes of the
    block it allocates. *)
Definition get_user_account_redis_item_value (malloc : Z → option (list Z))
    (h : lua_heap) (a1 : dbarg) : result lua_value :=
  pa ← check_account h a1;
  let acct := pa.2 in
  u ← field_str h (user_id acct);
  a ← field_str h (account acct);
  d ← field_str h (device acct);
  f ← field_str h (facebook_account acct);
  g ← field_str h (google_play_account acct);
  i ← field_str h (identifier acct);
  let redis_item_value_len :=
    s32 (s32 (s32 (s32 (s32 (s32 (72 + opt_len u) + opt_len a) + opt_len d)
      + opt_len f) + opt_len g) + opt_len i) in
  redis_item_value ← deref (malloc redis_item_value_len);
  redis_item_value ← strcats redis_item_value (value_pieces u a d f g i);
  pushed ← c_str redis_item_value;
  Ok (LString pushed).

(** ** dbobjusergameinfolib.c *)

Definition create_user_gameinfo (h : lua_heap) : lua_heap * Z :=
  let p := fresh (dom (gameinfos h)) in
  (put_gameinfo h p (mk_gameinfo PUninit None None PUninit PUninit), p).

Section GameInfo.
Context `{LuaConv}.

Definition get_user_gameinfo_user_id (h : lua_heap) (a1 : dbarg) : result lua_value :=
  pg ← check_gameinfo h a1; push_field h (gi_user_id pg.2).
Definition set_user_gameinfo_user_id (h : lua_heap) (a1 a2 : dbarg) : result lua_heap :=
  pg ← check_gameinfo h a1;
  sh ← check_string h a2;
  Ok (put_gameinfo sh.2 pg.1 (mk_gameinfo (PStr sh.1) (level pg.2) (exp pg.2)
        (game_version pg.2) (last_login_time pg.2))).
Definition get_user_gameinfo_level (h : lua_heap) (a1 : dbarg) : result lua_value :=
  pg ← check_gameinfo h a1;
  v ← of_option Uninitialised (level pg.2);
  Ok (LInteger v).
Definition set_user_gameinfo_level (h : lua_heap) (a1 a2 : dbarg) : result lua_heap :=
  pg ← check_gameinfo h a1;
  z ← check_integer h a2;
  let pLevel := s32 z in
  luaL_argcheck (bool_decide (pLevel > 0)) 2;;
  Ok (put_gameinfo h pg.1 (mk_gameinfo (gi_user_id pg.2) (Some pLevel) (exp pg.2)
        (game_version pg.2) (last_login_time pg.2))).
Definition get_user_gameinfo_exp (h : lua_heap) (a1 : dbarg) : result lua_value :=
  pg ← check_gameinfo h a1;
  v ← of_option Uninitialised (exp pg.2);
  Ok (LInteger v).
Definition set_user_gameinfo_exp (h : lua_heap) (a1 a2 : dbarg) : result lua_heap :=
  pg ← check_gameinfo h a1;
  z ← check_integer h a2;
  let pExp := s32 z in
  luaL_argcheck (bool_decide (pExp > 0)) 2;;
  Ok (put_gameinfo h pg.1 (mk_gameinfo (gi_user_id pg.2) (level pg.2) (Some pExp)
        (game_version pg.2) (last_login_time pg.2))).
Definition get_user_gameinfo_game_version (h : lua_heap) (a1 : dbarg) : result lua_value :=
  pg ← check_gameinfo h a1; push_field h (game_version pg.2).
Definition set_user_gameinfo_game_version (h : lua_heap) (a1 a2 : dbarg) : result lua_heap :=
  pg ← check_gameinfo h a1;
  sh ← check_string h a2;
  Ok (put_gameinfo sh.2 pg.1 (mk_gameinfo (gi_user_id pg.2) (level pg.2) (exp pg.2)
        (PStr sh.1) (last_login_time pg.2))).
Definition get_user_gameinfo_last_login_time (h : lua_heap) (a1 : dbarg) : result lua_value :=
  pg ← check_gameinfo h a1; push_field h (last_login_time pg.2).
Definition set_user_gameinfo_last_login_time (h : lua_heap) (a1 a2 : dbarg) : result lua_heap :=
  pg ← check_gameinfo h a1;
  sh ← check_string h a2;
  Ok (put_gameinfo sh.2 pg.1 (mk_gameinfo (gi_user_id pg.2) (level pg.2) (exp pg.2)
        (game_version pg.2) (PStr sh.1))).
End GameInfo.

(** ** Setters and getters *)

Lemma collect_lookup h dead id :
  strings (collect h dead) !! id = if decide (id ∈ dead) then None else strings h !! id.
Proof.
  simpl. case_decide as Hd.
  - apply map_lookup_filter_None. right. intros s _ Hn. by apply Hn.
  - destruct (strings h !! id) as [s|] eqn:E.
    + by apply map_lookup_filter_Some.
    + apply map_lookup_filter_None. by left.
Qed.

(** C38: setting a field of an account stores the address of the Lua string. The
    getter then returns the string (up to its first NUL) as long as the collector
    has not freed it, and reads freed memory once it has; the other fields of the
    account and all other accounts are as before. *)
Theorem account_set_then_get `{LuaConv} f h p id s :
  is_Some (accounts h !! p) → strings h !! id = Some s →
  ∃ h', account_setter f h (DUdata p) (DStr id) = Ok h' ∧
    (∀ dead, account_getter f (collect h' dead) (DUdata p)
       = if decide (id ∈ dead) then Err UseAfterFree else Ok (LString (until_nul s))) ∧
    (∀ g, g ≠ f → account_getter g h' (DUdata p) = account_getter g h (DUdata p)) ∧
    (∀ g q, q ≠ p → account_getter g h' (DUdata q) = account_getter g h (DUdata q)).
Proof.
  intros [a Ha] Hs.
  assert (∃ a', account_setter f h (DUdata p) (DStr id) = Ok (put_account h p a') ∧
    (∀ h0 : lua_heap, accounts h0 !! p = Some a' →
      account_getter f h0 (DUdata p) = push_field h0 (PStr id)) ∧
    (∀ g, g ≠ f → account_getter g (put_account h p a') (DUdata p)
       = account_getter g h (DUdata p))) as (a' & E & Hget & Hoth).
  { destruct f; eexists; (split; [unfold account_setter; cbn; by rewrite Ha|]);
      (split; [intros h0 E0; cbn; by rewrite E0|]);
      intros [] Hne; try done; cbn; by rewrite lookup_insert_eq, Ha. }
  exists (put_account h p a'). split; [done|]. split; [|split; [done|]].
  - intros dead. rewrite Hget by (cbn; apply lookup_insert_eq).
    unfold push_field, field_str. rewrite collect_lookup. cbn [put_account strings].
    rewrite Hs. by case_decide.
  - intros g q Hq. destruct g; cbn; by rewrite lookup_insert_ne.
Qed.

Definition demo_heap : lua_heap :=
  mk_heap {[ 1 := lit "uid_0523"; 2 := lit "Nexus" ]}
    {[ 7 := mk_account PUninit PUninit PUninit PUninit PUninit PUninit ]} ∅.

Lemma account_set_then_get_witness :
  ∃ h', account_setter (H := no_conv) Device demo_heap (DUdata 7) (DStr 2) = Ok h' ∧
    account_getter Device (collect h' {[2]}) (DUdata 7) = Err UseAfterFree ∧
    account_getter Device (collect h' ∅) (DUdata 7) = Ok (LString (lit "Nexus")).
Proof.
  destruct (account_set_then_get (H := no_conv) Device demo_heap 7 2 (lit "Nexus"))
    as (h' & E & Hc & _); [vm_compute; eauto|reflexivity|].
  exists h'. split; [exact E|]. split.
  - rewrite (Hc {[2]}). rewrite decide_True by set_solver. reflexivity.
  - rewrite (Hc ∅). rewrite decide_False by set_solver. reflexivity.
Defined.

(** Level and exp are validated after the conversion to [int]: a Lua integer
    is accepted exactly when its low 32 bits, read as signed, are positive, and
    the getter then returns those; a rejected value raises an error for argument
    2 and nothing is stored. In range 1..INT_MAX that is the value itself. *)
Theorem gameinfo_integers_validated `{LuaConv} h p g z :
  gameinfos h !! p = Some g →
  (s32 z ≤ 0 → set_user_gameinfo_level h (DUdata p) (DInt z) = Err (LuaError 2) ∧
               set_user_gameinfo_exp h (DUdata p) (DInt z) = Err (LuaError 2)) ∧
  (0 < s32 z → ∃ h1 h2,
     set_user_gameinfo_level h (DUdata p) (DInt z) = Ok h1 ∧
     get_user_gameinfo_level h1 (DUdata p) = Ok (LInteger (s32 z)) ∧
     get_user_gameinfo_exp h1 (DUdata p) = get_user_gameinfo_exp h (DUdata p) ∧
     set_user_gameinfo_exp h (DUdata p) (DInt z) = Ok h2 ∧
     get_user_gameinfo_exp h2 (DUdata p) = Ok (LInteger (s32 z)) ∧
     get_user_gameinfo_level h2 (DUdata p) = get_user_gameinfo_level h (DUdata p)) ∧
  (1 ≤ z ≤ INT_MAX → s32 z = z).
Proof.
  intros Hg. unfold set_user_gameinfo_level, set_user_gameinfo_exp, get_user_gameinfo_level,
    get_user_gameinfo_exp, check_gameinfo. rewrite Hg. cbn -[swrap].
  split; [|split].
  - intros Hz. rewrite bool_decide_eq_false_2 by lia. done.
  - intros Hz. rewrite bool_decide_eq_true_2 by lia. cbn -[swrap].
    eexists _, _. split; [done|]. cbn -[swrap]. rewrite !lookup_insert_eq. cbn -[swrap].
    do 3 (split; [done|]). cbn -[swrap]. rewrite !lookup_insert_eq. done.
  - unfold INT_MAX. intros. apply swrap_small; lia.
Qed.

Lemma gameinfo_integers_validated_witness :
  let h := mk_heap ∅ ∅ {[ 3 := mk_gameinfo PUninit None None PUninit PUninit ]} in
  set_user_gameinfo_level (H := no_conv) h (DUdata 3) (DInt 0) = Err (LuaError 2) ∧
  ∃ h1, set_user_gameinfo_level (H := no_conv) h (DUdata 3) (DInt (2 ^ 32 + 9)) = Ok h1 ∧
    get_user_gameinfo_level h1 (DUdata 3) = Ok (LInteger 9).
Proof.
  intros h. split.
  - destruct (gameinfo_integers_validated (H := no_conv) h 3
      (mk_gameinfo PUninit None None PUninit PUninit) 0) as (Hneg & _ & _); [reflexivity|].
    apply Hneg. vm_compute. discriminate.
  - destruct (gameinfo_integers_validated (H := no_conv) h 3
      (mk_gameinfo PUninit None None PUninit PUninit) (2 ^ 32 + 9)) as (_ & Hpos & _);
      [reflexivity|].
    destruct Hpos as (h1 & h2 & E1 & E2 & _); [vm_compute; reflexivity|].
    exists h1. split; [exact E1|]. exact E2.
Defined.

(** ** The redis value *)

Lemma strcats_spec l s r :
  Forall (λ c, c ≠ 0) s → Forall (Forall (λ c, c ≠ 0)) l →
  strcats (s ++ 0 :: r) l
    = if decide (length (concat l) ≤ length r)%nat
      then Ok ((s ++ concat l) ++ 0 :: drop (length (concat l)) r) else Err OutOfBounds.
Proof.
  intros Hs Hl. revert s r Hs. induction Hl as [|k l Hk Hl IH]; intros s r Hs.
  - cbn. rewrite app_nil_r, drop_0. by rewrite decide_True by lia.
  - cbn [strcats concat]. rewrite length_app. destruct (decide (length k ≤ length r)%nat).
    + rewrite strcat_Ok, bind_Ok by done. rewrite IH by by apply Forall_app.
      rewrite length_drop, drop_drop.
      destruct (decide (length (concat l) ≤ length r - length k)%nat);
        [rewrite decide_True by lia|rewrite decide_False by lia]; [|done].
      by rewrite <- !app_assoc.
    + rewrite strcat_overflow by lia || done. by rewrite decide_False by lia.
Qed.

Lemma strcats_no_nul l buf : 0 ∉ buf → l ≠ [] → strcats buf l = Err OutOfBounds.
Proof.
  intros Hb Hl. destruct l as [|k l]; [done|]. cbn. unfold strcat. by rewrite c_str_none.
Qed.

Definition field_ok (o : option cstring) : Prop :=
  match o with Some s => Forall (λ c, c ≠ 0) s | None => True end.

Lemma guarded_ok o : field_ok o → Forall (Forall (λ c, c ≠ 0)) (guarded o).
Proof. destruct o; cbn; [by repeat constructor|constructor]. Qed.

Lemma value_pieces_ok u a d f g i :
  field_ok u → field_ok a → field_ok d → field_ok f → field_ok g → field_ok i →
  Forall (Forall (λ c, c ≠ 0)) (value_pieces u a d f g i).
Proof.
  intros. unfold value_pieces.
  repeat (apply Forall_app; split); try by apply guarded_ok.
  all: apply Forall_cons; split; [by apply lit_nonzero|constructor].
Qed.

(** The text the comment above the function announces, with 72 fixed bytes. *)
Definition opt_text (o : option cstring) : cstring := default [] o.
Definition value_text (u a d f g i : option cstring) : cstring :=
  lit "userid:" ++ opt_text u ++ lit ",account:" ++ opt_text a ++ lit ",device:" ++ opt_text d
  ++ lit ",facebookaccount:" ++ opt_text f ++ lit ",googleplayaccount:" ++ opt_text g
  ++ lit ",identifier:" ++ opt_text i.

Lemma value_pieces_text u a d f g i :
  concat (value_pieces u a d f g i) = value_text u a d f g i.
Proof.
  unfold value_pieces, value_text. destruct u, a, d, f, g, i; cbn [guarded opt_text default concat app];
    rewrite ?app_nil_r, <- ?app_assoc; done.
Qed.

Definition text_len (u a d f g i : option cstring) : Z :=
  72 + opt_len u + opt_len a + opt_len d + opt_len f + opt_len g + opt_len i.

Lemma value_text_len u a d f g i : zlen (value_text u a d f g i) = text_len u a d f g i.
Proof.
  unfold value_text, text_len. rewrite !zlen_app.
  assert (∀ o, zlen (opt_text o) = opt_len o) as Ho by (by intros []). rewrite !Ho.
  change (zlen (lit "userid:")) with 7. change (zlen (lit ",account:")) with 9.
  change (zlen (lit ",device:")) with 8. change (zlen (lit ",facebookaccount:")) with 17.
  change (zlen (lit ",googleplayaccount:")) with 19. change (zlen (lit ",identifier:")) with 12. lia.
Qed.

(** The calls overflow every block of the length the function computes, and
    produce the text in a larger block that starts with a NUL. *)
Lemma value_overflows u a d f g i blk :
  Forall (Forall (λ c, c ≠ 0)) (value_pieces u a d f g i) →
  zlen blk = text_len u a d f g i →
  strcats blk (value_pieces u a d f g i) = Err OutOfBounds.
Proof.
  intros Hp Hl. destruct (decide (0 ∈ blk)) as [H0|H0]; [|by apply strcats_no_nul].
  destruct (c_str_inv blk _ (c_str_until blk H0)) as (r & E & Hu).
  rewrite E, strcats_spec, value_pieces_text by done. rewrite decide_False; [done|].
  rewrite <- value_text_len, E, zlen_app, zlen_cons in Hl. unfold zlen in Hl. lia.
Qed.
Lemma value_fits u a d f g i r :
  Forall (Forall (λ c, c ≠ 0)) (value_pieces u a d f g i) →
  text_len u a d f g i ≤ zlen r →
  (buf ← strcats (0 :: r) (value_pieces u a d f g i); c_str buf) = Ok (value_text u a d f g i).
Proof.
  intros Hp Hl. change (0 :: r) with ([] ++ 0 :: r). rewrite strcats_spec, value_pieces_text by done.
  rewrite <- value_text_len in Hl. unfold zlen in Hl. rewrite decide_True, bind_Ok by lia.
  apply c_str_app. rewrite <- value_pieces_text. apply Forall_concat, Hp.
Qed.

Lemma field_str_ok h p o : field_str h p = Ok o → field_ok o.
Proof.
  destruct p as [| |id]; cbn; [done|by intros [= <-]|].
  destruct (strings h !! id); cbn; [|done]. intros [= <-]. apply until_nul_nonzero.
Qed.
Lemma opt_len_nonneg o : 0 ≤ opt_len o.
Proof. destruct o; cbn; [apply zlen_nonneg|lia]. Qed.

(** The block for the redis value is one byte too short (72 fixed bytes and
    the fields, but no NUL), so that [get_user_account_redis_item_value] writes
    or reads out of its bounds for every account, whatever the block held. The
    same calls into a block with room for the NUL that starts with a NUL build
    the text announced by the comment above the function. *)
Theorem redis_item_value_overflows malloc h p acct u a d f g i :
  accounts h !! p = Some acct →
  field_str h (user_id acct) = Ok u → field_str h (account acct) = Ok a →
  field_str h (device acct) = Ok d → field_str h (facebook_account acct) = Ok f →
  field_str h (google_play_account acct) = Ok g → field_str h (identifier acct) = Ok i →
  text_len u a d f g i ≤ INT_MAX →
  (∀ n, 0 ≤ n → ∃ blk, malloc n = Some blk ∧ zlen blk = n) →
  get_user_account_redis_item_value malloc h (DUdata p) = Err OutOfBounds ∧
  ∀ r, text_len u a d f g i ≤ zlen r →
    (buf ← strcats (0 :: r) (value_pieces u a d f g i); c_str buf)
      = Ok (value_text u a d f g i).
Proof.
  intros Hp Hu Ha Hd Hf Hg Hi Hlen Hm.
  assert (Forall (Forall (λ c, c ≠ 0)) (value_pieces u a d f g i)) as Hpc
    by (apply value_pieces_ok; by eapply field_str_ok).
  split; [|intros r; by apply value_fits].
  unfold get_user_account_redis_item_value, check_account. rewrite Hp. cbn [of_option].
  rewrite !bind_Ok. cbn [fst snd]. rewrite Hu, Ha, Hd, Hf, Hg, Hi, !bind_Ok.
  unfold text_len, INT_MAX in Hlen. pose proof opt_len_nonneg as H0.
  pose proof (H0 u); pose proof (H0 a); pose proof (H0 d); pose proof (H0 f);
    pose proof (H0 g); pose proof (H0 i). clear H0.
  repeat match goal with |- context [s32 ?x] => rewrite (swrap_small 32 x) by lia end.
  fold (text_len u a d f g i).
  destruct (Hm (text_len u a d f g i)) as (blk & -> & Hb); [unfold text_len; lia|].
  cbn [deref of_option]. rewrite bind_Ok, value_overflows by done. done.
Qed.

Definition account_heap : lua_heap :=
  mk_heap {[ 1 := lit "uid_0523"; 2 := lit "Nexus" ]}
    {[ 7 := mk_account (PStr 1) PNull (PStr 2) PNull PNull (PStr 1) ]} ∅.

Lemma redis_item_value_overflows_witness :
  get_user_account_redis_item_value (λ n, Some (replicate (Z.to_nat n) 0)) account_heap (DUdata 7)
    = Err OutOfBounds.
Proof.
  apply (redis_item_value_overflows (λ n, Some (replicate (Z.to_nat n) 0)) account_heap 7
    (mk_account (PStr 1) PNull (PStr 2) PNull PNull (PStr 1))
    (Some (lit "uid_0523")) None (Some (lit "Nexus")) None None (Some (lit "uid_0523")));
    try reflexivity.
  - vm_compute. discriminate.
  - intros n Hn. eexists. split; [reflexivity|]. rewrite zlen_replicate. lia.
Defined.

(** ** The redis key *)

(** "redis-xxx-xxxx-xxxxx-xxxxxx" with every x from the pool. *)
Definition dash_positions : list nat := [5; 9; 14; 20]%nat.
Definition key_format (k : list Z) : Prop :=
  length k = 27%nat ∧ take 5 k = lit "redis" ∧
  ∀ i : nat, (5 ≤ i < 27)%nat →
    ∃ c, k !! i = Some c ∧ if decide (i ∈ dash_positions) then c = 45 else c ∈ KEY_CHAR_POOL.

Lemma pool_char r : ∃ c, rd KEY_CHAR_POOL (r `mod` KEY_CHAR_POOL_LEN) = Ok c ∧ c ∈ KEY_CHAR_POOL.
Proof.
  assert (zlen KEY_CHAR_POOL = 62) as Hp by reflexivity.
  destruct (rd_Ok KEY_CHAR_POOL (r `mod` KEY_CHAR_POOL_LEN)) as [c Hc].
  { rewrite Hp. unfold KEY_CHAR_POOL_LEN. apply Z.mod_pos_bound. lia. }
  exists c. split; [done|]. apply rd_Ok_inv in Hc as [_ Hc]. by eapply list_elem_of_lookup_2.
Qed.

Definition key_filled (j : Z) (k : list Z) : Prop :=
  length k = 27%nat ∧ take 5 k = lit "redis" ∧
  ∀ i : nat, 5 ≤ Z.of_nat i < j → ∃ c, k !! i = Some c ∧ c ∈ KEY_CHAR_POOL.

Lemma fill_step rand j k :
  5 ≤ j < 27 → key_filled j k →
  ∃ k', (c ← rd KEY_CHAR_POOL (rand (j - 5) `mod` KEY_CHAR_POOL_LEN); wr k j c) = Ok k' ∧
    key_filled (j + 1) k'.
Proof.
  intros Hj (Hl & Ht & Hf). destruct (pool_char (rand (j - 5))) as (c & -> & Hc).
  rewrite bind_Ok, wr_Ok by (unfold zlen; lia). eexists. split; [done|].
  split; [by rewrite length_insert|]. split; [by rewrite take_insert_ge by lia|].
  intros i Hi. destruct (decide (Z.of_nat i = j)) as [<-|Hne].
  - rewrite Nat2Z.id, list_lookup_insert_eq by lia. eauto.
  - rewrite list_lookup_insert_ne by lia. apply Hf. lia.
Qed.

Lemma dashes_format k :
  key_filled 27 k → key_format (<[5%nat := 45]> (<[9%nat := 45]> (<[14%nat := 45]> (<[20%nat := 45]> k)))).
Proof.
  intros (Hl & Ht & Hf). split; [by rewrite !length_insert|].
  split; [by rewrite !take_insert_ge by lia|]. intros i Hi.
  destruct (Hf i) as (c & Ec & Hc); [lia|].
  destruct (decide (i ∈ dash_positions)) as [Hd|Hd].
  - exists 45. split; [|done]. unfold dash_positions in Hd.
    repeat (apply elem_of_cons in Hd as [->|Hd]); [..|by apply elem_of_nil in Hd].
    all: repeat first [rewrite list_lookup_insert_eq by (rewrite ?length_insert; lia); done
                      |rewrite list_lookup_insert_ne by lia].
  - exists c. split; [|done]. unfold dash_positions in Hd.
    rewrite !not_elem_of_cons in Hd. rewrite !list_lookup_insert_ne by lia. done.
Qed.

Lemma key_nonzero k : key_format k → Forall (λ c, c ≠ 0) k.
Proof.
  intros (Hl & Ht & Hf). apply Forall_lookup. intros i c Hi.
  destruct (decide (i < 5)%nat).
  - rewrite <- (take_drop 5 k), Ht, lookup_app_l in Hi by (cbn; lia).
    apply (Forall_lookup_1 (λ c, c ≠ 0) (lit "redis") i c); [by apply lit_nonzero|done].
  - apply lookup_lt_Some in Hi as Hlt. destruct (Hf i) as (c' & E & Hc); [lia|].
    assert (c' = c) as -> by congruence. case_decide; [lia|].
    apply list_elem_of_lookup in Hc as [j Hj].
    apply (Forall_lookup_1 (λ c, c ≠ 0) KEY_CHAR_POOL j c); [by apply lit_nonzero|done].
Qed.

(** When the memory behind the unterminated prefix array has a NUL within 22
    bytes, the function builds a key of the documented format
    redis-xxx-xxxx-xxxxx-xxxxxx, whatever [rand] returns; but the 27-byte block
    has no room for a NUL, and the string returned to Lua goes on with the heap
    bytes behind the block, so it is the key only when the first of them is NUL. *)
Theorem redis_item_key_format rand block data_after heap_after prefix :
  length block = 27%nat → c_str (FIX_HASH_KEY_PREFIX ++ data_after) = Ok prefix →
  (length prefix ≤ 26)%nat →
  ∃ key, key_format key ∧
    get_user_account_redis_item_key rand block data_after heap_after
      = (junk ← c_str heap_after; Ok (LString (key ++ junk))).
Proof.
  intros Hb Hp Hl. unfold get_user_account_redis_item_key. rewrite Hp, bind_Ok.
  unfold strcpy, wr_bytes. rewrite decide_True, bind_Ok by (unfold zlen; rewrite length_app; cbn; lia).
  set (k0 := take _ block ++ _ ++ _). assert (key_filled 5 k0) as H0.
  { rewrite c_str_prefix in Hp by by apply lit_nonzero.
    apply bind_Ok_inv in Hp as (k & _ & [= <-]). unfold k0.
    cbn [length app] in Hl. split; [|split; [done|intros; lia]].
    rewrite !length_app, length_take, length_drop. cbn [length app]. cbn in *. lia. }
  destruct (c_for_spec key_filled (λ i key, c ← rd KEY_CHAR_POOL (rand (i - 5) `mod` KEY_CHAR_POOL_LEN);
    wr key i c) 22 5 k0 H0) as (k1 & -> & H1).
  { intros j st Hj. apply fill_step. lia. }
  change (5 + Z.of_nat 22) with 27 in H1. pose proof H1 as (Hl1 & _).
  rewrite bind_Ok. do 4 (rewrite wr_Ok, bind_Ok by (unfold zlen; rewrite ?length_insert; lia)).
  change (Z.to_nat 5) with 5%nat. change (Z.to_nat 9) with 9%nat.
  change (Z.to_nat 14) with 14%nat. change (Z.to_nat 20) with 20%nat.
  eexists. split; [by apply dashes_format|].
  rewrite c_str_prefix by by apply key_nonzero, dashes_format. by destruct (c_str heap_after).
Qed.

Lemma redis_item_key_format_witness :
  ∃ key, key_format key ∧
    get_user_account_redis_item_key (λ i, i * 7) (replicate 27 0) [0] [33; 0]
      = Ok (LString (key ++ [33])).
Proof.
  destruct (redis_item_key_format (λ i, i * 7) (replicate 27 0) [0] [33; 0] (lit "redis"))
    as (key & Hk & E); [reflexivity|reflexivity|cbn; lia|].
  exists key. split; [exact Hk|exact E].
Defined.
