(* ===== verification/Redis.v ===== *)
(** * The redis and physic bindings: Redis/hiredis.c and LuaInterface/lua_physic.c

    Contexts are addresses with an explicit set of live ones, so that a freed
    context is visible. The hiredis library is a parameter: what the next
    connection attempts give, and the reply of the server to a command. The
    theorems show which connections are kept, that the third attempt's is
    returned after it was freed, that stored values are read back, and where a
    missing reply is dereferenced. *)
From Stdlib Require Import String.
From stdpp Require Import base gmap numbers list.
From S2P Require Import Prelude CString LuaApi.

(** What [redisConnectWithTimeout] returns: NULL, a context with [err] set, or
    a connected one. *)
Inductive connect_outcome : Type := CNull | CFailed (c : Z) | CUp (c : Z).

(** The fields of [redisReply] the code uses. *)
Record redisReply : Type := mk_reply { reply_str : option (list Z); reply_len : Z }.

Section Hiredis.
(** The server: its state, and the reply ([None] for NULL) to a command given as
    the list of its arguments. *)
Context {S : Type} (server : S → list (list Z) → option redisReply * S).

Record redis_world : Type := mk_world {
  live : gset Z;
  outcomes : list connect_outcome;
  db : S }.

Definition set_live (w : redis_world) (l : gset Z) : redis_world := mk_world l (outcomes w) (db w).

Definition redisFree (w : redis_world) (c : Z) : result redis_world :=
  if decide (c = 0) then Ok w
  else if decide (c ∈ live w) then Ok (set_live w (live w ∖ {[c]}))
  else Err UseAfterFree.

Definition redisConnectWithTimeout (w : redis_world) : connect_outcome * redis_world :=
  match outcomes w with
  | [] => (CNull, w)
  | o :: os =>
      let l := match o with CNull => live w | CFailed c | CUp c => {[c]} ∪ live w end in
      (o, mk_world l os (db w))
  end.

Definition redisCommand (w : redis_world) (c : Z) (argv : list (list Z)) :
    result (option redisReply * redis_world) :=
  if decide (c ∈ live w) then
    let r := server (db w) argv in Ok (r.1, mk_world (live w) (outcomes w) r.2)
  else Err UseAfterFree.

Definition MAX_RETRY_TIMES : Z := 3.

Definition isConnectedToRedis (w : redis_world) (context : Z) : result (Z * redis_world) :=
  if decide (context = 0) then Ok (0, w)
  else
    rw ← redisCommand w context [lit "PING"];
    reply ← deref rw.1;
    s ← deref (reply_str reply);
    let res := if decide (strcmp s (lit "PONG") = 0) then 1 else 0 in
    Ok (res, rw.2).

(** The result is the address of the context, 0 for NULL. *)
Definition connectToRedis (w : redis_world) (context : Z) : result (Z * redis_world) :=
  w ← (if decide (context ≠ 0) then redisFree w context else Ok w);
  let ow := redisConnectWithTimeout w in
  match ow.1 with
  | CNull => Ok (0, ow.2)
  | CFailed c => w' ← redisFree ow.2 c; Ok (0, w')
  | CUp c => Ok (c, ow.2)
  end.

(** The loop of [connectToRedisWithRetry], with the tries that are left. *)
Fixpoint retry_loop (n : nat) (w : redis_world) (context retryTime : Z) :
    result (Z * Z * redis_world) :=
  match n with
  | O => Ok (context, retryTime, w)
  | Datatypes.S n' =>
      let retryTime := retryTime + 1 in
      cw ← connectToRedis w context;
      if decide (cw.1 ≠ 0) then Ok (cw.1, retryTime, cw.2)
      else retry_loop n' cw.2 cw.1 retryTime
  end.

Definition connectToRedisWithRetry (w : redis_world) : result (Z * redis_world) :=
  r ← retry_loop (Z.to_nat MAX_RETRY_TIMES) w 0 0;
  let '(context, retryTime, w) := r in
  w ← (if decide (MAX_RETRY_TIMES ≤ retryTime) then
         if decide (context ≠ 0) then redisFree w context else Ok w
       else Ok w);
  Ok (context, w).

(** *** Lua methods: the pushed results and the new world *)

Section Methods.
Context `{LuaConv}.

Definition isConnected (w : redis_world) (args : list lua_value) :
    result (list lua_value * redis_world) :=
  let context := lua_touserdata (lua_arg args 1) in
  r ← isConnectedToRedis w context;
  Ok ([LBoolean (bool_decide (r.1 ≠ 0))], r.2).

(** The address and the port only reach printf and hiredis. *)
Definition connectWithRetry (w : redis_world) (args : list lua_value) :
    result (list lua_value * redis_world) :=
  r ← connectToRedisWithRetry w;
  if decide (r.1 = 0) then Ok ([LBoolean false], r.2)
  else Ok ([LBoolean true; LUserdata r.1], r.2).

Definition disconnect (w : redis_world) (args : list lua_value) :
    result (list lua_value * redis_world) :=
  let context := lua_touserdata (lua_arg args 1) in
  w' ← redisFree w context;
  Ok ([], w').

(** [lua_pushlstring] of a reply: [len] bytes of its string. *)
Definition push_reply (reply : option redisReply) : result lua_value :=
  r ← deref reply;
  match reply_str r with
  | None => if decide (reply_len r = 0) then Ok (LString []) else Err NullDeref
  | Some s => if decide (0 ≤ reply_len r ≤ zlen s) then Ok (LString (take (Z.to_nat (reply_len r)) s))
              else Err OutOfBounds
  end.

(** "%b" with a pointer and a length: the bytes of a Lua string and its NUL are
    readable. *)
Definition format_b (value : list Z) (sz : Z) : result (list Z) :=
  let sz := u64 sz in
  if decide (sz ≤ zlen value + 1) then Ok (take (Z.to_nat sz) (value ++ [0])) else Err OutOfBounds.

Definition setByteString (w : redis_world) (args : list lua_value) :
    result (list lua_value * redis_world) :=
  let context := lua_touserdata (lua_arg args 1) in
  if decide (context = 0) then Ok ([], w)
  else
    let sz := s32 (lua_tointeger (lua_arg args 4)) in
    key ← deref (lua_tolstring (lua_arg args 2));
    value ← deref (lua_tolstring (lua_arg args 3));
    b ← format_b value sz;
    rw ← redisCommand w context [lit "SET"; until_nul key; b];
    v ← push_reply rw.1;
    Ok ([v], rw.2).

Definition getByteString (w : redis_world) (args : list lua_value) :
    result (list lua_value * redis_world) :=
  let context := lua_touserdata (lua_arg args 1) in
  if decide (context = 0) then Ok ([], w)
  else
    key ← deref (lua_tolstring (lua_arg args 2));
    rw ← redisCommand w context [lit "GET"; until_nul key];
    v ← push_reply rw.1;
    Ok ([v], rw.2).
End Methods.
End Hiredis.

Arguments redis_world S : clear implicits.
Arguments mk_world {S} live outcomes db.

(** ** lua_physic.c *)

(** [testprint]: [char ret[50] = "+++"] is zero filled. *)
Definition testprint `{LuaConv} (args : list lua_value) : result (list lua_value) :=
  msg ← deref (lua_tolstring (lua_arg args 1));
  let ret := lit "+++" ++ replicate 47 0 in
  ret ← strcat ret (until_nul msg);
  pushed ← c_str ret;
  Ok [LString pushed].

(** ** Connecting *)

Section Connect.
Context {S : Type}.
Implicit Types w : redis_world S.

(** A failed attempt leaves a context with an error or none; a new context has
    an address that was not in use. *)
Definition failing (o : connect_outcome) : Prop :=
  match o with CUp _ => False | _ => True end.
Definition fresh_outcome (l : gset Z) (o : connect_outcome) : Prop :=
  match o with CNull => True | CFailed c | CUp c => c ≠ 0 ∧ c ∉ l end.

Lemma connect_failing w o os :
  outcomes w = o :: os → failing o → fresh_outcome (live w) o →
  connectToRedis w 0 = Ok (0, mk_world (live w) os (db w)).
Proof.
  destruct w as [l oc d]. cbn [outcomes live db]. intros -> Hf Ho.
  unfold connectToRedis, redisConnectWithTimeout. rewrite decide_False by tauto. cbn.
  destruct o as [|c|c]; cbn in *; [done| |done]. destruct Ho as [H0 Hc].
  unfold redisFree. rewrite decide_False by done. cbn. rewrite decide_True by set_solver.
  cbn. do 3 f_equal. unfold set_live. cbn. f_equal. apply leibniz_equiv. set_solver.
Qed.
Lemma connect_up w c os :
  outcomes w = CUp c :: os → connectToRedis w 0 = Ok (c, mk_world ({[c]} ∪ live w) os (db w)).
Proof. destruct w as [l oc d]. cbn [outcomes live db]. by intros ->. Qed.

Lemma retry_failing fs n k os w :
  outcomes w = fs ++ os → Forall failing fs → Forall (fresh_outcome (live w)) fs →
  retry_loop (length fs + n) w 0 k
    = retry_loop n (mk_world (live w) os (db w)) 0 (k + zlen fs).
Proof.
  revert k w. induction fs as [|o fs IH]; intros k w E Hf Ho.
  - cbn in *. destruct w; cbn in *. subst. by rewrite Z.add_0_r.
  - apply Forall_cons in Hf as [Hf Hfs]. apply Forall_cons in Ho as [Ho Hos].
    cbn [length Nat.add retry_loop]. rewrite (connect_failing w o (fs ++ os)), bind_Ok by done.
    cbn [fst snd]. rewrite decide_False by tauto. rewrite IH by done. cbn. f_equal.
    rewrite zlen_cons. lia.
Qed.

(** How many attempts failed first, and which one gave a connection. *)
Lemma retry_up fs c os w :
  outcomes w = fs ++ CUp c :: os → Forall failing fs → Forall (fresh_outcome (live w)) fs →
  c ≠ 0 → (length fs ≤ 2)%nat →
  retry_loop 3 w 0 0 = Ok (c, zlen fs + 1, mk_world ({[c]} ∪ live w) os (db w)).
Proof.
  intros E Hf Ho Hc Hl. replace 3%nat with (length fs + Datatypes.S (2 - length fs))%nat by lia.
  rewrite (retry_failing fs _ 0 (CUp c :: os)) by done. cbn [retry_loop].
  rewrite (connect_up _ c os) by done. rewrite bind_Ok. cbn [fst snd].
  by rewrite decide_True.
Qed.

(** [connectWithRetry] returns a live context when the first or the second
    attempt connects, having freed the failed ones: exactly one context more is
    live. When all three attempts fail it returns false and no context is left
    behind. *)
Theorem connect_retry_keeps_one `{LuaConv} w fs os args :
  Forall failing fs → Forall (fresh_outcome (live w)) fs →
  (∀ c, outcomes w = fs ++ CUp c :: os → c ≠ 0 → (length fs ≤ 1)%nat →
    connectWithRetry w args
      = Ok ([LBoolean true; LUserdata c], mk_world ({[c]} ∪ live w) os (db w))) ∧
  (outcomes w = fs ++ os → length fs = 3%nat →
    connectWithRetry w args = Ok ([LBoolean false], mk_world (live w) os (db w))).
Proof.
  intros Hf Ho. unfold connectWithRetry, connectToRedisWithRetry.
  change (Z.to_nat MAX_RETRY_TIMES) with 3%nat. split.
  - intros c E Hc Hl. rewrite (retry_up fs c os) by (done || lia). rewrite bind_Ok.
    rewrite decide_False by (unfold zlen, MAX_RETRY_TIMES; lia). rewrite bind_Ok.
    rewrite bind_Ok. cbn [fst snd]. by rewrite decide_False.
  - intros E Hl. replace 3%nat with (length fs + 0)%nat by lia.
    rewrite (retry_failing fs 0 0 os) by done. cbn [retry_loop]. rewrite bind_Ok.
    by case_decide.
Qed.

(** When only the third attempt connects, [connectWithRetry] frees the
    connected context, reports success and returns it: every later method called
    with it uses freed memory. *)
Theorem connect_retry_returns_freed `{LuaConv} (server : S → list (list Z) → option redisReply * S)
    w fs c os args key value sz :
  Forall failing fs → Forall (fresh_outcome (live w)) fs → length fs = 2%nat →
  outcomes w = fs ++ CUp c :: os → fresh_outcome (live w) (CUp c) → 0 ≤ sz ≤ zlen value →
  zlen value ≤ INT_MAX →
  ∃ w', connectWithRetry w args = Ok ([LBoolean true; LUserdata c], w') ∧ c ∉ live w' ∧
    isConnected server w' [LUserdata c] = Err UseAfterFree ∧
    getByteString server w' [LUserdata c; LString key] = Err UseAfterFree ∧
    setByteString server w' [LUserdata c; LString key; LString value; LInteger sz]
      = Err UseAfterFree ∧
    disconnect w' [LUserdata c] = Err UseAfterFree.
Proof.
  intros Hf Ho Hl E [Hc Hn] Hsz Hv. unfold INT_MAX in Hv.
  assert (connectWithRetry w args
    = Ok ([LBoolean true; LUserdata c], mk_world (live w) os (db w))) as ->.
  { unfold connectWithRetry, connectToRedisWithRetry.
    change (Z.to_nat MAX_RETRY_TIMES) with 3%nat.
    rewrite (retry_up fs c os) by (done || lia). rewrite bind_Ok.
    rewrite decide_True by (unfold zlen, MAX_RETRY_TIMES; lia). rewrite decide_True by done.
    unfold redisFree. rewrite decide_False by done. cbn [live]. rewrite decide_True by set_solver.
    cbn. rewrite decide_False by done. cbn. do 3 f_equal. unfold set_live; cbn. f_equal.
    apply leibniz_equiv. set_solver. }
  eexists. split; [done|]. split; [done|].
  unfold isConnected, isConnectedToRedis, getByteString, setByteString, disconnect, redisCommand,
    redisFree, format_b.
  cbn -[swrap uwrap]. rewrite !(decide_False (P := c = 0)) by done.
  rewrite (swrap_small 32 sz), (uwrap_small 64 sz) by lia.
  rewrite (decide_True (P := sz ≤ zlen value + 1)) by lia. cbn.
  rewrite !decide_False by done. done.
Qed.
End Connect.

(** Two failed attempts, then a connection. *)
Definition third_try : redis_world unit := mk_world ∅ [CNull; CFailed 5; CUp 6] tt.
Definition no_server : unit → list (list Z) → option redisReply * unit := λ s _, (None, s).

Lemma connect_retry_keeps_one_witness :
  connectWithRetry (mk_world ∅ [CFailed 5; CUp 6] tt) []
    = Ok ([LBoolean true; LUserdata 6], mk_world {[6]} [] tt) ∧
  connectWithRetry (mk_world ∅ [CFailed 5; CNull; CFailed 6] tt) []
    = Ok ([LBoolean false], mk_world ∅ [] tt).
Proof.
  split.
  - destruct (connect_retry_keeps_one (H := no_conv) (mk_world ∅ [CFailed 5; CUp 6] tt)
      [CFailed 5] [] []) as [Hup _].
    + repeat constructor.
    + repeat constructor; cbn; [lia|set_solver].
    + rewrite (Hup 6); [|reflexivity|lia|cbn; lia]. cbn. by rewrite (right_id_L ∅ (∪)).
  - apply (connect_retry_keeps_one (H := no_conv) (mk_world ∅ [CFailed 5; CNull; CFailed 6] tt)
      [CFailed 5; CNull; CFailed 6] [] []).
    + repeat constructor.
    + repeat constructor; cbn; (lia || set_solver).
    + reflexivity.
    + reflexivity.
Defined.

Lemma connect_retry_returns_freed_witness :
  ∃ w', connectWithRetry third_try [] = Ok ([LBoolean true; LUserdata 6], w') ∧
    getByteString (H := no_conv) no_server w' [LUserdata 6; LString [97]] = Err UseAfterFree.
Proof.
  destruct (connect_retry_returns_freed (H := no_conv) no_server third_try [CNull; CFailed 5] 6 [] []
    [97] [98] 1) as (w' & E & _ & _ & Hg & _).
  - repeat constructor.
  - repeat constructor; cbn; (lia || set_solver).
  - reflexivity.
  - reflexivity.
  - split; [lia|set_solver].
  - vm_compute. split; discriminate.
  - vm_compute. discriminate.
  - exists w'. split; [exact E|exact Hg].
Defined.

(** ** Commands *)

(** What redis documents of SET and GET, and the database behind a server. *)
Class RedisServer {S} (server : S → list (list Z) → option redisReply * S) := {
  store : S → gmap (list Z) (list Z);
  server_set s k v : ∃ s', server s [lit "SET"; k; v] = (Some (mk_reply (Some (lit "OK")) 2), s')
    ∧ store s' = <[k := v]> (store s);
  server_get s k : server s [lit "GET"; k]
    = (Some (match store s !! k with Some v => mk_reply (Some v) (zlen v)
             | None => mk_reply None 0 end), s) }.

(** A server that is a map. *)
Definition map_server (m : gmap (list Z) (list Z)) (argv : list (list Z)) :
    option redisReply * gmap (list Z) (list Z) :=
  match argv with
  | [_; k; v] => (Some (mk_reply (Some (lit "OK")) 2), <[k := v]> m)
  | [_; k] => (Some (match m !! k with Some v => mk_reply (Some v) (zlen v)
                     | None => mk_reply None 0 end), m)
  | _ => (None, m)
  end.
Global Program Instance map_server_redis : RedisServer map_server := {| store := λ m, m |}.
Next Obligation. intros m k v. by eexists. Qed.
Next Obligation. done. Qed.

Section Commands.
Context `{LuaConv} {S} (server : S → list (list Z) → option redisReply * S).
Implicit Types w : redis_world S.

Definition stored `{!RedisServer server} w (k : list Z) : list Z := default [] (store (db w) !! k).

Lemma push_string v : push_reply (Some (mk_reply (Some v) (zlen v))) = Ok (LString v).
Proof.
  unfold push_reply. cbn. pose proof (zlen_nonneg v). rewrite decide_True by lia.
  unfold zlen. by rewrite Nat2Z.id, firstn_all.
Qed.

Lemma getByteString_stored `{!RedisServer server} w c key :
  c ≠ 0 → c ∈ live w →
  getByteString server w [LUserdata c; LString key]
    = Ok ([LString (stored w (until_nul key))], w).
Proof.
  intros Hc Hl. unfold getByteString, redisCommand, stored. cbn.
  rewrite decide_False, decide_True by done. cbn. rewrite server_get.
  cbn [fst snd]. destruct w as [l o d]; cbn [db live outcomes].
  destruct (store d !! until_nul key) as [v|]; [|done]. by rewrite push_string.
Qed.

(** A value stored with [setByteString] is what [getByteString] returns for
    the same key afterwards, binary bytes included, and every other key returns
    what it did before; a key that is not stored returns the empty string. *)
Theorem stored_value_read_back `{!RedisServer server} w c key value :
  c ≠ 0 → c ∈ live w → zlen value ≤ INT_MAX →
  ∃ w', setByteString server w [LUserdata c; LString key; LString value; LInteger (zlen value)]
      = Ok ([LString (lit "OK")], w') ∧ live w' = live w ∧
    ∀ key', getByteString server w' [LUserdata c; LString key']
      = if decide (until_nul key' = until_nul key) then Ok ([LString value], w')
        else Ok ([LString (stored w (until_nul key'))], w').
Proof.
  intros Hc Hl Hv. unfold INT_MAX in Hv. pose proof (zlen_nonneg value).
  destruct (server_set (db w) (until_nul key) value) as (s' & Es & Hst).
  exists (mk_world (live w) (outcomes w) s'). split; [|split; [done|]].
  - unfold setByteString, redisCommand, format_b. cbn -[swrap uwrap lit].
    rewrite decide_False by done. rewrite (swrap_small 32), (uwrap_small 64) by lia.
    rewrite decide_True by lia. cbn -[lit]. rewrite decide_True by done. unfold zlen.
    rewrite Nat2Z.id, take_app_length, Es. done.
  - intros key'. rewrite getByteString_stored by done. unfold stored. cbn [db].
    rewrite Hst. case_decide as E; [by rewrite E, lookup_insert_eq|by rewrite lookup_insert_ne].
Qed.

(** When the server does not answer (the library returns a NULL reply, as
    it does once the connection is lost), all three calls dereference it:
    [isConnected] crashes instead of answering false. *)
Theorem missing_reply_dereferenced w c key value :
  c ≠ 0 → c ∈ live w → zlen value ≤ INT_MAX → (∀ argv, (server (db w) argv).1 = None) →
  isConnected server w [LUserdata c] = Err NullDeref ∧
  getByteString server w [LUserdata c; LString key] = Err NullDeref ∧
  setByteString server w [LUserdata c; LString key; LString value; LInteger (zlen value)]
    = Err NullDeref.
Proof.
  intros Hc Hl Hv Hs. unfold INT_MAX in Hv. pose proof (zlen_nonneg value).
  unfold isConnected, isConnectedToRedis, getByteString, setByteString, redisCommand, format_b.
  cbn -[swrap uwrap lit]. rewrite !(decide_False (P := c = 0)) by done.
  rewrite (swrap_small 32), (uwrap_small 64) by lia.
  rewrite (decide_True (P := zlen value ≤ zlen value + 1)) by lia. cbn -[lit].
  rewrite !(decide_True (P := c ∈ live w)) by done. cbn -[lit]. rewrite !Hs. done.
Qed.
End Commands.

Lemma stored_value_read_back_witness :
  ∃ w', setByteString (H := no_conv) map_server (mk_world {[6]} [] ∅)
      [LUserdata 6; LString [97]; LString [0; 255]; LInteger 2] = Ok ([LString (lit "OK")], w') ∧
    getByteString (H := no_conv) map_server w' [LUserdata 6; LString [97]]
      = Ok ([LString [0; 255]], w').
Proof.
  destruct (stored_value_read_back (H := no_conv) map_server (mk_world {[6]} [] ∅) 6 [97] [0; 255])
    as (w' & E & _ & Hg); [lia|set_solver|vm_compute; discriminate|].
  exists w'. split; [exact E|]. rewrite (Hg [97]). by rewrite decide_True.
Defined.

Lemma missing_reply_dereferenced_witness :
  isConnected no_server (mk_world {[6]} [] tt) [LUserdata 6] = Err NullDeref.
Proof.
  apply (missing_reply_dereferenced (H := no_conv) no_server (mk_world {[6]} [] tt) 6 [] []).
  - lia.
  - set_solver.
  - vm_compute. discriminate.
  - reflexivity.
Defined.

(** [testprint] puts "+++" before a message of at most 46 bytes, and writes
    past its 50-byte buffer for every longer one. *)
Theorem testprint_bound `{LuaConv} msg rest :
  testprint (LString msg :: rest)
    = if decide (zlen (until_nul msg) ≤ 46) then Ok [LString (lit "+++" ++ until_nul msg)]
      else Err OutOfBounds.
Proof.
  unfold testprint. cbn [lua_arg]. change (lua_arg (LString msg :: rest) 1) with (LString msg).
  cbn [lua_tolstring deref of_option]. rewrite bind_Ok. change (replicate 47 0) with (0 :: replicate 46 0).
  pose proof (until_nul_nonzero msg) as Hn. unfold zlen. case_decide.
  - rewrite strcat_Ok by (first [by apply lit_nonzero | rewrite length_replicate; lia]).
    rewrite bind_Ok, c_str_app; [done|]. apply Forall_app. split; [by apply lit_nonzero|done].
  - by rewrite strcat_overflow by (first [by apply lit_nonzero | rewrite length_replicate; lia]).
Qed.
