(* ===== verification/Netpack.v ===== *)
(** * Packet reassembly of the gate: lualib-src/lua-netpack.c

    TCP data arrives in chunks; every packet is a 16-bit big-endian length and
    that many bytes. The filter keeps one partial packet per socket in a hash
    table and a ring of complete ones. The theorems show that the packets
    delivered are those of the byte stream, however it is cut into chunks and
    interleaved with other sockets. *)
From stdpp Require Import base gmap numbers list.
From S2P Require Import Prelude CString LuaApi.

Definition QUEUESIZE : Z := 1024.
Definition HASHSIZE : Z := 4096.

(** [buffer] holds the [size] bytes of the block; [pack.size] bytes for a partial
    packet, of which [read] are filled. *)
Record netpack : Type := mk_netpack { np_id : Z; np_size : Z; np_buffer : list Z }.
Record uncomplete : Type := mk_uncomplete { uc_pack : netpack; uc_read : Z; uc_header : Z }.

(** The hash chains are lists, first element first; unused cells of the ring are
    indeterminate. *)
Record netqueue : Type := mk_netqueue {
  nq_cap : Z;
  nq_head : Z;
  nq_tail : Z;
  nq_hash : list (list uncomplete);
  nq_queue : list (option netpack) }.

Definition set_hash (q : netqueue) (h : list (list uncomplete)) : netqueue :=
  mk_netqueue (nq_cap q) (nq_head q) (nq_tail q) h (nq_queue q).

Definition hash_fd (fd : Z) : result Z :=
  let a := Z.shiftr fd 24 in
  let b := Z.shiftr fd 12 in
  ab ← c_int (a + b);
  abc ← c_int (ab + fd);
  Ok (u32 abc `mod` HASHSIZE).

(** Unlinking the first element with this id from a chain. *)
Fixpoint unlink_fd (fd : Z) (chain : list uncomplete) : option (uncomplete * list uncomplete) :=
  match chain with
  | [] => None
  | uc :: rest =>
      if decide (np_id (uc_pack uc) = fd) then Some (uc, rest)
      else match unlink_fd fd rest with
           | Some (u, rest') => Some (u, uc :: rest')
           | None => None
           end
  end.

(** The queue is the userdata at stack index 1; [None] while there is none. *)
Definition find_uncomplete (q : option netqueue) (fd : Z) :
    result (option uncomplete * option netqueue) :=
  match q with
  | None => Ok (None, None)
  | Some q =>
      h ← hash_fd fd;
      chain ← rd (nq_hash q) h;
      match unlink_fd fd chain with
      | None => Ok (None, Some q)
      | Some (uc, chain') =>
          hash' ← wr (nq_hash q) h chain';
          Ok (Some uc, Some (set_hash q hash'))
      end
  end.

Definition get_queue (q : option netqueue) : netqueue :=
  match q with
  | Some q => q
  | None => mk_netqueue QUEUESIZE 0 0 (replicate (Z.to_nat HASHSIZE) [])
              (replicate (Z.to_nat QUEUESIZE) None)
  end.

Definition expand_netqueue (q : netqueue) : result netqueue :=
  let ncap := nq_cap q + QUEUESIZE in
  buf ← c_for (Z.to_nat (nq_cap q)) 0
    (λ i buf, np ← rd (nq_queue q) ((nq_head q + i) `mod` nq_cap q); wr buf i np)
    (replicate (Z.to_nat ncap) None);
  Ok (mk_netqueue ncap 0 (nq_cap q) (nq_hash q) buf).

(** [push_data]; the buffer is a block of its own, cloned or not. *)
Definition push_data (q : option netqueue) (fd : Z) (buffer : list Z) (size : Z) :
    result netqueue :=
  let q := get_queue q in
  buf ← wr (nq_queue q) (nq_tail q) (Some (mk_netpack fd size buffer));
  let tail := nq_tail q + 1 in
  let tail := if decide (nq_cap q ≤ tail) then tail - nq_cap q else tail in
  let q := mk_netqueue (nq_cap q) (nq_head q) tail (nq_hash q) buf in
  if decide (nq_head q = tail) then expand_netqueue q else Ok q.

(** [save_uncomplete] with the fields its callers fill in. *)
Definition save_uncomplete (q : option netqueue) (fd : Z) (uc : uncomplete) : result netqueue :=
  let q := get_queue q in
  h ← hash_fd fd;
  chain ← rd (nq_hash q) h;
  hash' ← wr (nq_hash q) h (uc :: chain);
  Ok (set_hash q hash').

Definition read_size (buffer : list Z) : result Z :=
  b0 ← rd buffer 0;
  b1 ← rd buffer 1;
  Ok (Z.lor (Z.shiftl b0 8) b1).

(** A block of [n] bytes with [chunk] at its start. *)
Definition alloc_with (n : Z) (chunk : list Z) : result (list Z) :=
  wr_bytes (replicate (Z.to_nat n) 0) 0 chunk.

(** [push_more]: every call consumes at least two bytes, so the length of the
    buffer is fuel enough. *)
Fixpoint push_more (fuel : nat) (q : option netqueue) (fd : Z) (buffer : list Z) :
    result netqueue :=
  match fuel with
  | O => Err OutOfFuel
  | S fuel =>
      let size := zlen buffer in
      if decide (size = 1) then
        b ← rd buffer 0;
        save_uncomplete q fd (mk_uncomplete (mk_netpack fd 0 []) (-1) b)
      else
        pack_size ← read_size buffer;
        let buffer := drop 2 buffer in
        let size := size - 2 in
        if decide (size < pack_size) then
          blk ← alloc_with pack_size buffer;
          save_uncomplete q fd (mk_uncomplete (mk_netpack fd pack_size blk) size 0)
        else
          q ← push_data q fd (take (Z.to_nat pack_size) buffer) pack_size;
          let buffer := drop (Z.to_nat pack_size) buffer in
          let size := size - pack_size in
          if decide (size > 0) then push_more fuel (Some q) fd buffer else Ok q
  end.

(** What the filter returns to Lua. *)
Inductive filtered : Type :=
| FNone
| FData (fd : Z) (buffer : list Z) (size : Z)
| FMore
| FOpen (fd : Z) (addr : list Z)
| FClose (fd : Z)
| FError (fd : Z) (msg : list Z)
| FWarning (fd : Z) (size : Z).

Definition close_uncomplete (q : option netqueue) (fd : Z) : result (option netqueue) :=
  r ← find_uncomplete q fd;
  Ok r.2.

(** [filter_data_] when a partial packet was found. *)
Definition fill_uncomplete (q : option netqueue) (uc : uncomplete) (fd : Z) (buffer : list Z) :
    result (filtered * option netqueue) :=
  r ← (if decide (uc_read uc < 0) then
         c_assert (bool_decide (uc_read uc = -1));;
         b ← rd buffer 0;
         let pack_size := Z.lor b (Z.shiftl (uc_header uc) 8) in
         Ok (pack_size, replicate (Z.to_nat pack_size) 0, 0, drop 1 buffer)
       else Ok (np_size (uc_pack uc), np_buffer (uc_pack uc), uc_read uc, buffer));
  let '(psize, pbuf, pread, buffer) := r in
  let size := zlen buffer in
  let need := psize - pread in
  if decide (size < need) then
    pbuf ← wr_bytes pbuf pread buffer;
    q ← save_uncomplete q fd (mk_uncomplete (mk_netpack fd psize pbuf) (pread + size) (uc_header uc));
    Ok (FNone, Some q)
  else
    pbuf ← wr_bytes pbuf pread (take (Z.to_nat need) buffer);
    let buffer := drop (Z.to_nat need) buffer in
    let size := size - need in
    if decide (size = 0) then Ok (FData fd pbuf psize, q)
    else
      q ← push_data q fd pbuf psize;
      q ← push_more (length buffer) (Some q) fd buffer;
      Ok (FMore, Some q).

(** [filter_data_] when there was none. *)
Definition filter_fresh (q : option netqueue) (fd : Z) (buffer : list Z) :
    result (filtered * option netqueue) :=
  let size := zlen buffer in
  if decide (size = 1) then
    b ← rd buffer 0;
    q ← save_uncomplete q fd (mk_uncomplete (mk_netpack fd 0 []) (-1) b);
    Ok (FNone, Some q)
  else
    pack_size ← read_size buffer;
    let buffer := drop 2 buffer in
    let size := size - 2 in
    if decide (size < pack_size) then
      blk ← alloc_with pack_size buffer;
      q ← save_uncomplete q fd (mk_uncomplete (mk_netpack fd pack_size blk) size 0);
      Ok (FNone, Some q)
    else if decide (size = pack_size) then Ok (FData fd buffer size, q)
    else
      q ← push_data q fd (take (Z.to_nat pack_size) buffer) pack_size;
      let buffer := drop (Z.to_nat pack_size) buffer in
      q ← push_more (length buffer) (Some q) fd buffer;
      Ok (FMore, Some q).

Definition filter_data (q : option netqueue) (fd : Z) (buffer : list Z) :
    result (filtered * option netqueue) :=
  r ← find_uncomplete q fd;
  match r.1 with
  | Some uc => fill_uncomplete r.2 uc fd buffer
  | None => filter_fresh r.2 fd buffer
  end.

(** skynet_socket.h *)
Definition SKYNET_SOCKET_TYPE_DATA : Z := 1.
Definition SKYNET_SOCKET_TYPE_CONNECT : Z := 2.
Definition SKYNET_SOCKET_TYPE_CLOSE : Z := 3.
Definition SKYNET_SOCKET_TYPE_ACCEPT : Z := 4.
Definition SKYNET_SOCKET_TYPE_ERROR : Z := 5.
Definition SKYNET_SOCKET_TYPE_WARNING : Z := 7.

(** [struct skynet_socket_message]: [sm_buffer] is the separate buffer of [ud]
    bytes, or NULL and then [sm_padding] are the bytes behind the struct. *)
Record socket_message : Type := mk_socket_message {
  sm_type : Z; sm_id : Z; sm_ud : Z; sm_buffer : option (list Z); sm_padding : list Z }.

(** [pushstring] with the size [lfilter] computes: -1 for a separate buffer. *)
Definition push_padding (m : socket_message) : result (list Z) :=
  match sm_buffer m with None => Ok (sm_padding m) | Some _ => Err OutOfBounds end.

Definition lfilter (q : option netqueue) (m : socket_message) :
    result (filtered * option netqueue) :=
  if decide (sm_type m = SKYNET_SOCKET_TYPE_DATA) then
    c_assert (bool_decide (is_Some (sm_buffer m)));;
    filter_data q (sm_id m) (default [] (sm_buffer m))
  else if decide (sm_type m = SKYNET_SOCKET_TYPE_CONNECT) then Ok (FNone, q)
  else if decide (sm_type m = SKYNET_SOCKET_TYPE_CLOSE) then
    q ← close_uncomplete q (sm_id m);
    Ok (FClose (sm_id m), q)
  else if decide (sm_type m = SKYNET_SOCKET_TYPE_ACCEPT) then
    s ← push_padding m;
    Ok (FOpen (sm_ud m) s, q)
  else if decide (sm_type m = SKYNET_SOCKET_TYPE_ERROR) then
    q ← close_uncomplete q (sm_id m);
    s ← push_padding m;
    Ok (FError (sm_id m) s, q)
  else if decide (sm_type m = SKYNET_SOCKET_TYPE_WARNING) then
    Ok (FWarning (sm_id m) (sm_ud m), q)
  else Ok (FNone, q).

Definition lpop (q : option netqueue) : result (option netpack * option netqueue) :=
  match q with
  | None => Ok (None, None)
  | Some q =>
      if decide (nq_head q = nq_tail q) then Ok (None, Some q)
      else
        np ← rd (nq_queue q) (nq_head q);
        np ← of_option Uninitialised np;
        let head := nq_head q + 1 in
        let head := if decide (nq_cap q ≤ head) then 0 else head in
        Ok (Some np, Some (mk_netqueue (nq_cap q) head (nq_tail q) (nq_hash q) (nq_queue q)))
  end.

(** [lclear]: the buffers it frees, and the emptied queue. *)
Definition lclear (q : option netqueue) : result (list (list Z) * option netqueue) :=
  match q with
  | None => Ok ([], None)
  | Some q =>
      let partial := (np_buffer ∘ uc_pack) <$> concat (nq_hash q) in
      let hash := (λ _, []) <$> nq_hash q in
      let tail := if decide (nq_tail q < nq_head q) then nq_tail q + nq_cap q else nq_tail q in
      complete ← c_for (Z.to_nat (tail - nq_head q)) (nq_head q)
        (λ i acc, np ← rd (nq_queue q) (i `mod` nq_cap q);
                  np ← of_option Uninitialised np;
                  Ok (acc ++ [np_buffer np])) [];
      Ok (partial ++ complete, Some (mk_netqueue (nq_cap q) 0 0 hash (nq_queue q)))
  end.

Definition write_size (buffer : list Z) (len : Z) : result (list Z) :=
  buffer ← wr buffer 0 (Z.land (Z.shiftr len 8) 255);
  wr buffer 1 (Z.land len 255).

(** [lpack] of the bytes [tolstring] found. *)
Definition lpack (ptr : list Z) : result (list Z) :=
  let len := zlen ptr in
  if decide (65536 ≤ len) then Err (LuaError 0)
  else
    buffer ← write_size (replicate (Z.to_nat (len + 2)) 0) len;
    wr_bytes buffer 2 ptr.

(** ** The ring of complete packets *)

Section Ring.
Context {A : Type}.
Implicit Types (buf : list (option A)) (l : list A).

Definition ring_at buf cap head l : Prop :=
  ∀ (i : nat) x, l !! i = Some x → buf !! Z.to_nat ((head + Z.of_nat i) `mod` cap) = Some (Some x).

Record ring_ok buf (cap head tail : Z) l : Prop := {
  ro_cap : 0 < cap;
  ro_len : zlen buf = cap;
  ro_head : 0 ≤ head < cap;
  ro_fits : zlen l < cap;
  ro_tail : tail = (head + zlen l) `mod` cap;
  ro_at : ring_at buf cap head l }.

Lemma ring_empty n : 0 < n → ring_ok (replicate (Z.to_nat n) None) n 0 0 [].
Proof.
  intros. split; [done|rewrite zlen_replicate; lia|lia|done| |done]. symmetry. apply Z.mod_0_l. lia.
Qed.

Lemma ring_store buf cap head tail l x :
  ring_ok buf cap head tail l →
  wr buf tail (Some x) = Ok (<[Z.to_nat tail := Some x]> buf) ∧
  ring_at (<[Z.to_nat tail := Some x]> buf) cap head (l ++ [x]).
Proof.
  intros [Hc Hl Hh Hf Ht Ha]. pose proof (Z.mod_pos_bound (head + zlen l) cap Hc).
  pose proof (zlen_nonneg l). split; [apply wr_Ok; lia|].
  intros i y Hy. pose proof (Z.mod_pos_bound (head + Z.of_nat i) cap Hc).
  apply lookup_app_Some in Hy as [Hy|[Hge Hy]].
  - apply lookup_lt_Some in Hy as Hlt. rewrite list_lookup_insert_ne; [by apply Ha|].
    intros E. assert (zlen l = Z.of_nat i); [|unfold zlen in *; lia].
    apply (ring_index_inj head _ _ cap); [lia|unfold zlen in *; lia|lia].
  - apply list_lookup_singleton_Some in Hy as [Hi <-].
    assert (Z.of_nat i = zlen l) as -> by (unfold zlen; lia).
    rewrite <- Ht. apply list_lookup_insert_eq. unfold zlen in *; lia.
Qed.

(** The tail moves on by one; it meets the head exactly when the ring is full. *)
Lemma ring_advance cap head n :
  0 ≤ head < cap → 0 ≤ n < cap →
  let t := (head + n) `mod` cap + 1 in
  let t' := if decide (cap ≤ t) then t - cap else t in
  t' = (head + (n + 1)) `mod` cap ∧ (head = t' ↔ n + 1 = cap).
Proof.
  intros Hh Hn t t'. pose proof (Z.mod_pos_bound (head + n) cap ltac:(lia)) as Hm.
  assert (t' = (head + (n + 1)) `mod` cap) as E.
  { rewrite Z.add_assoc, <- ring_mod_add by lia. subst t t'. case_decide.
    - apply Z.mod_unique with 1; lia.
    - symmetry. apply Z.mod_small. lia. }
  split; [done|]. rewrite E. split.
  - intros Eh. destruct (decide (n + 1 = cap)); [done|]. exfalso.
    assert (n + 1 = 0); [|lia]. apply (ring_index_inj head _ _ cap); [lia|lia|].
    rewrite <- Eh, Z.add_0_r. symmetry. apply Z.mod_small. lia.
  - intros ->. rewrite <- (Z.mod_small head cap) at 1 by lia.
    replace (head + cap) with (head + 1 * cap) by lia. by rewrite Z.mod_add by lia.
Qed.

Lemma ring_pop buf cap head tail x l :
  ring_ok buf cap head tail (x :: l) →
  head ≠ tail ∧ rd buf head = Ok (Some x) ∧
  ring_ok buf cap (if decide (cap ≤ head + 1) then 0 else head + 1) tail l.
Proof.
  intros [Hc Hl Hh Hf Ht Ha]. rewrite zlen_cons in *. pose proof (zlen_nonneg l). split.
  { intros E. assert (0 = 1 + zlen l); [|lia]. apply (ring_index_inj head _ _ cap); [lia|lia|].
    rewrite Z.add_0_r, <- Ht, <- E. apply Z.mod_small. lia. }
  split.
  { apply rd_lookup; [lia|]. specialize (Ha 0%nat x eq_refl). rewrite Z.add_0_r in Ha.
    by rewrite Z.mod_small in Ha by lia. }
  rewrite ring_next by lia. split; [done|done|apply Z.mod_pos_bound; lia|lia| |].
  - rewrite ring_mod_add by lia. rewrite Ht. f_equal. lia.
  - intros i y Hi. rewrite ring_mod_add by lia.
    specialize (Ha (S i) y Hi). rewrite <- Ha. do 3 f_equal. lia.
Qed.

Lemma ring_empty_iff buf cap head tail l : ring_ok buf cap head tail l → (head = tail ↔ l = []).
Proof.
  intros R. split.
  - intros E. destruct l as [|x l]; [done|]. by destruct (ring_pop _ _ _ _ _ _ R).
  - intros ->. destruct R as [Hc _ Hh _ -> _]. change (zlen (@nil A)) with 0.
    rewrite Z.add_0_r. symmetry. apply Z.mod_small. lia.
Qed.
End Ring.

(** Unrolling a full ring into a larger one. *)
Lemma expand_netqueue_spec q l :
  0 < nq_cap q → zlen (nq_queue q) = nq_cap q → 0 ≤ nq_head q < nq_cap q →
  zlen l = nq_cap q → ring_at (nq_queue q) (nq_cap q) (nq_head q) l →
  ∃ q', expand_netqueue q = Ok q' ∧ nq_hash q' = nq_hash q ∧
    ring_ok (nq_queue q') (nq_cap q') (nq_head q') (nq_tail q') l.
Proof.
  intros Hc Hl Hh Hn Ha. unfold expand_netqueue.
  set (n := Z.to_nat (nq_cap q + QUEUESIZE)).
  destruct (c_for_spec (λ j buf, zlen buf = Z.of_nat n ∧
      ∀ (i : nat) x, Z.of_nat i < j → l !! i = Some x → buf !! i = Some (Some x))
    (λ i buf, np ← rd (nq_queue q) ((nq_head q + i) `mod` nq_cap q); wr buf i np)
    (Z.to_nat (nq_cap q)) 0 (replicate n None)) as (buf & -> & Hb & Hlk).
  - split; [by rewrite zlen_replicate|lia].
  - intros j buf Hj [Hb Hlk]. rewrite Z2Nat.id in Hj by lia.
    destruct (lookup_lt_is_Some_2 l (Z.to_nat j)) as [x Hx]; [unfold zlen in *; lia|].
    specialize (Ha _ _ Hx) as Hq. rewrite Z2Nat.id in Hq by lia.
    pose proof (Z.mod_pos_bound (nq_head q + j) (nq_cap q) Hc).
    rewrite (rd_lookup _ _ (Some x)), bind_Ok by (lia || done).
    rewrite wr_Ok by (rewrite Hb; unfold n, QUEUESIZE; lia). eexists. split; [done|].
    split; [by rewrite zlen_insert|]. intros i y Hi Hy.
    destruct (decide (i = Z.to_nat j)) as [->|Hne].
    + rewrite list_lookup_insert_eq by (unfold zlen, n, QUEUESIZE in *; lia). congruence.
    + rewrite list_lookup_insert_ne by done. apply Hlk; [lia|done].
  - rewrite bind_Ok. eexists. split; [done|]. split; [done|]. cbn.
    assert (Z.of_nat n = nq_cap q + QUEUESIZE) as En by (unfold n, QUEUESIZE; lia).
    unfold QUEUESIZE in *. split; try lia.
    + rewrite Hn, Z.add_0_l, Z.mod_small; lia.
    + intros i x Hx. apply lookup_lt_Some in Hx as Hlt. rewrite Z.add_0_l, Z.mod_small by (unfold zlen in *; lia).
      rewrite Nat2Z.id. apply Hlk; [unfold zlen in *; lia|done].
Qed.

(** ** The table of partial packets *)

Definition is_byte (b : Z) : Prop := 0 ≤ b < 256.

Definition uc_id (uc : uncomplete) : Z := np_id (uc_pack uc).

(** A partial packet: one byte of its length, or its length and fewer bytes. *)
Definition uc_ok (uc : uncomplete) : Prop :=
  (uc_read uc = -1 ∧ is_byte (uc_header uc)) ∨
  (0 ≤ uc_read uc < np_size (uc_pack uc) ∧ np_size (uc_pack uc) < 2 ^ 16 ∧
   zlen (np_buffer (uc_pack uc)) = np_size (uc_pack uc) ∧
   Forall is_byte (np_buffer (uc_pack uc))).

(** The bytes of the stream a partial packet stands for. *)
Definition uc_bytes (uc : uncomplete) : list Z :=
  if decide (uc_read uc < 0) then [uc_header uc]
  else [np_size (uc_pack uc) / 256; np_size (uc_pack uc) `mod` 256]
       ++ take (Z.to_nat (uc_read uc)) (np_buffer (uc_pack uc)).

Definition chain_get (fd : Z) (chain : list uncomplete) : option uncomplete :=
  fst <$> unlink_fd fd chain.

Lemma chain_get_cons fd uc l :
  chain_get fd (uc :: l) = if decide (uc_id uc = fd) then Some uc else chain_get fd l.
Proof.
  unfold chain_get, uc_id. cbn. case_decide; [done|]. by destruct (unlink_fd fd l) as [[]|].
Qed.
Lemma chain_get_app fd l k :
  chain_get fd (l ++ k) = match chain_get fd l with Some u => Some u | None => chain_get fd k end.
Proof.
  induction l as [|u l IH]; [done|]. cbn [app]. rewrite !chain_get_cons. by case_decide.
Qed.
Lemma chain_get_absent fd l : fd ∉ uc_id <$> l → chain_get fd l = None.
Proof.
  induction l as [|u l IH]; [done|]. rewrite fmap_cons, not_elem_of_cons. intros [Hne Hl].
  rewrite chain_get_cons, decide_False by congruence. auto.
Qed.
Lemma chain_get_None fd l : chain_get fd l = None → fd ∉ uc_id <$> l.
Proof.
  induction l as [|u l IH]; [intros _; apply not_elem_of_nil|]. rewrite chain_get_cons.
  case_decide; [done|]. intros E. rewrite fmap_cons, not_elem_of_cons. split; [congruence|auto].
Qed.
Lemma unlink_Some fd l u l' :
  unlink_fd fd l = Some (u, l') →
  ∃ l1 l2, l = l1 ++ u :: l2 ∧ l' = l1 ++ l2 ∧ uc_id u = fd.
Proof.
  revert l'. induction l as [|x l IH]; intros l'; cbn; [done|]. case_decide as Hx.
  - intros [= <- <-]. by exists [], l.
  - destruct (unlink_fd fd l) as [[u0 l0]|]; [|done]. intros [= <- <-].
    destruct (IH l0 eq_refl) as (l1 & l2 & -> & -> & ?). by exists (x :: l1), l2.
Qed.

Record table_ok (t : list (list uncomplete)) : Prop := {
  to_len : zlen t = HASHSIZE;
  to_nodup : ∀ (h : nat) chain, t !! h = Some chain → NoDup (uc_id <$> chain);
  to_uc : ∀ (h : nat) chain u, t !! h = Some chain → u ∈ chain → uc_ok u }.

(** What the table holds for a socket. *)
Definition pending_in (t : list (list uncomplete)) (fd : Z) : list Z :=
  match hash_fd fd with
  | Ok h => match chain_get fd (default [] (t !! Z.to_nat h)) with
            | Some u => uc_bytes u | None => [] end
  | Err _ => []
  end.

Definition fd_ok (fd : Z) : Prop := 0 ≤ fd ≤ 2 ^ 30.

Lemma hash_fd_Ok fd : fd_ok fd → ∃ h, hash_fd fd = Ok h ∧ 0 ≤ h < HASHSIZE.
Proof.
  intros [H0 H1]. unfold hash_fd.
  assert (0 ≤ Z.shiftr fd 24 ≤ 64 ∧ 0 ≤ Z.shiftr fd 12 ≤ 2 ^ 18) as [Ha Hb].
  { rewrite !Z.shiftr_div_pow2 by lia. repeat split; try (apply Z.div_pos; lia).
    all: apply Z.div_le_upper_bound; lia. }
  rewrite !c_int_Ok, !bind_Ok, c_int_Ok, bind_Ok by (unfold INT_MIN, INT_MAX; lia).
  eexists. split; [done|]. apply Z.mod_pos_bound. done.
Qed.

Section Table.
Context (t : list (list uncomplete)) (T : table_ok t).

Lemma table_chain h : 0 ≤ h < HASHSIZE → ∃ chain, t !! Z.to_nat h = Some chain.
Proof.
  intros. apply lookup_lt_is_Some_2. destruct T as [Hl _ _]. unfold zlen in Hl. lia.
Qed.

(** Replacing the chain of [fd]: only [fd] is affected when the other ids are
    kept. *)
Lemma pending_put fd h chain chain' :
  hash_fd fd = Ok h → 0 ≤ h < HASHSIZE → t !! Z.to_nat h = Some chain →
  (∀ fd', fd' ≠ fd → chain_get fd' chain' = chain_get fd' chain) →
  pending_in (<[Z.to_nat h := chain']> t) fd
    = (match chain_get fd chain' with Some u => uc_bytes u | None => [] end) ∧
  ∀ fd', fd' ≠ fd → pending_in (<[Z.to_nat h := chain']> t) fd' = pending_in t fd'.
Proof.
  intros Hh Hr Hc Ho. apply lookup_lt_Some in Hc as Hlt. unfold pending_in. split.
  - by rewrite Hh, list_lookup_insert_eq.
  - intros fd' Hne. destruct (hash_fd fd') as [h'|]; [|done].
    destruct (decide (Z.to_nat h' = Z.to_nat h)) as [->|Hneq].
    + rewrite list_lookup_insert_eq, Hc by done. cbn [default from_option id]. by rewrite Ho.
    + by rewrite list_lookup_insert_ne.
Qed.

Lemma table_put h chain' :
  (NoDup (uc_id <$> chain')) → (∀ u, u ∈ chain' → uc_ok u) →
  table_ok (<[Z.to_nat h := chain']> t).
Proof.
  intros Hn Hu. destruct T as [Hl Hnd Huc]. split; [by rewrite zlen_insert| |].
  - intros i ch. destruct (decide (i = Z.to_nat h)) as [->|Hne].
    + intros E. apply list_lookup_insert_Some in E as [(_ & -> & _)|(? & _)]; [done|done].
    + rewrite list_lookup_insert_ne by done. apply Hnd.
  - intros i ch u. destruct (decide (i = Z.to_nat h)) as [->|Hne].
    + intros E. apply list_lookup_insert_Some in E as [(_ & -> & _)|(? & _)]; [apply Hu|done].
    + rewrite list_lookup_insert_ne by done. apply Huc.
Qed.
End Table.

Lemma uc_bytes_nonempty u : uc_bytes u ≠ [].
Proof. unfold uc_bytes. by case_decide. Qed.

(** Taking a partial packet out of the table. *)
Lemma find_uncomplete_spec q fd :
  table_ok (nq_hash q) → fd_ok fd →
  ∃ o t', find_uncomplete (Some q) fd = Ok (o, Some (set_hash q t')) ∧ table_ok t' ∧
    pending_in t' fd = [] ∧ (∀ fd', fd' ≠ fd → pending_in t' fd' = pending_in (nq_hash q) fd') ∧
    match o with
    | Some u => uc_ok u ∧ uc_id u = fd ∧ pending_in (nq_hash q) fd = uc_bytes u
    | None => pending_in (nq_hash q) fd = []
    end.
Proof.
  intros T Hfd. destruct (hash_fd_Ok fd Hfd) as (h & Hh & Hr).
  destruct (table_chain _ T h Hr) as [chain Hc]. unfold find_uncomplete.
  rewrite Hh, bind_Ok, (rd_lookup _ _ chain), bind_Ok by (lia || done).
  assert (pending_in (nq_hash q) fd
    = match chain_get fd chain with Some u => uc_bytes u | None => [] end) as Ep
    by (unfold pending_in; by rewrite Hh, Hc).
  unfold chain_get in Ep. destruct (unlink_fd fd chain) as [[u chain']|] eqn:E; cbn in Ep.
  - pose proof (to_nodup _ T _ _ Hc) as Hnd. pose proof (to_uc _ T) as Huc.
    apply unlink_Some in E as (l1 & l2 & -> & -> & Hid).
    rewrite wr_Ok, bind_Ok by (rewrite (to_len _ T); lia).
    eexists _, _. split; [done|].
    rewrite fmap_app, fmap_cons in Hnd. apply NoDup_app in Hnd as (Hn1 & Hd & Hn2).
    apply NoDup_cons in Hn2 as [Hu2 Hn2].
    destruct (pending_put _ fd h _ (l1 ++ l2) Hh Hr Hc) as [P1 P2].
    { intros fd' Hne. rewrite !chain_get_app, chain_get_cons. by rewrite decide_False by congruence. }
    split; [|split; [|split; [done|]]].
    + apply table_put; [done| |].
      * rewrite fmap_app. apply NoDup_app. split; [done|]. split; [|done].
        intros x Hx Hx2. apply (Hd x Hx). by right.
      * intros v Hv. apply (Huc _ _ _ Hc). apply elem_of_app in Hv as [|]; set_solver.
    + rewrite P1, chain_get_absent; [done|]. rewrite fmap_app, not_elem_of_app, <- Hid.
      split; [|done]. intros Hx. apply (Hd _ Hx). by left.
    + split; [|done]. apply (Huc _ _ _ Hc). set_solver.
  - exists None, (nq_hash q). destruct q. done.
Qed.

(** Putting one in. *)
Lemma save_uncomplete_spec q fd u :
  table_ok (nq_hash (get_queue q)) → fd_ok fd → uc_ok u → uc_id u = fd →
  pending_in (nq_hash (get_queue q)) fd = [] →
  ∃ t', save_uncomplete q fd u = Ok (set_hash (get_queue q) t') ∧ table_ok t' ∧
    pending_in t' fd = uc_bytes u ∧
    (∀ fd', fd' ≠ fd → pending_in t' fd' = pending_in (nq_hash (get_queue q)) fd').
Proof.
  intros T Hfd Hu Hid He. unfold save_uncomplete. set (g := get_queue q) in *.
  destruct (hash_fd_Ok fd Hfd) as (h & Hh & Hr).
  destruct (table_chain _ T h Hr) as [chain Hc].
  rewrite Hh, bind_Ok, (rd_lookup _ _ chain), bind_Ok by (lia || done).
  rewrite wr_Ok, bind_Ok by (rewrite (to_len _ T); lia).
  destruct (pending_put _ fd h _ (u :: chain) Hh Hr Hc) as [P1 P2].
  { intros fd' Hne. by rewrite chain_get_cons, decide_False by congruence. }
  eexists. split; [done|]. split; [|split; [|done]].
  - apply table_put; [done| |].
    + rewrite fmap_cons. apply NoDup_cons. split; [|by apply (to_nodup _ T _ _ Hc)].
      rewrite Hid. apply chain_get_None. unfold pending_in in He. rewrite Hh, Hc in He. cbn [default from_option id] in He.
      destruct (chain_get fd chain) as [v|]; [by apply uc_bytes_nonempty in He|done].
    + intros v [->|Hv]%elem_of_cons; [done|]. by apply (to_uc _ T _ _ _ Hc).
  - by rewrite P1, chain_get_cons, decide_True.
Qed.

(** ** The reference: the packets of a byte stream *)

Fixpoint parse_frames (fuel : nat) (l : list Z) : list (list Z) * list Z :=
  match fuel, l with
  | S f, b0 :: b1 :: r =>
      let n := Z.to_nat (b0 * 256 + b1) in
      if decide (n ≤ length r)%nat then
        let pr := parse_frames f (drop n r) in (take n r :: pr.1, pr.2)
      else ([], l)
  | _, _ => ([], l)
  end.
(** The complete packets and the bytes left over. *)
Definition frames (l : list Z) : list (list Z) * list Z := parse_frames (length l) l.

Lemma parse_frames_S f b0 b1 r :
  parse_frames (S f) (b0 :: b1 :: r) =
    let n := Z.to_nat (b0 * 256 + b1) in
    if decide (n ≤ length r)%nat then
      let pr := parse_frames f (drop n r) in (take n r :: pr.1, pr.2)
    else ([], b0 :: b1 :: r).
Proof. done. Qed.

Lemma parse_frames_fuel f l : (length l ≤ f)%nat → parse_frames f l = frames l.
Proof.
  unfold frames. remember (length l) as n eqn:En. assert (n ≤ n)%nat as Hn by lia.
  revert Hn. generalize n at 2 4 as g. intros g Hg Hf. subst n.
  revert f l Hg Hf. induction g as [|g IH]; intros f l Hg Hf.
  { destruct l; [by destruct f|cbn in Hg; lia]. }
  destruct l as [|b0 [|b1 r]]; [by destruct f|by destruct f|].
  destruct f as [|f]; [cbn in Hf; lia|]. cbn [parse_frames]. case_decide; [|done].
  rewrite (IH f) by (rewrite length_drop; cbn in *; lia). done.
Qed.

Lemma frames_short l : (length l ≤ 1)%nat → frames l = ([], l).
Proof. destruct l as [|b0 [|b1 r]]; cbn; [done|done|lia]. Qed.
Lemma frames_cons b0 b1 r :
  frames (b0 :: b1 :: r) =
    let n := Z.to_nat (b0 * 256 + b1) in
    if decide (n ≤ length r)%nat then
      let pr := frames (drop n r) in (take n r :: pr.1, pr.2)
    else ([], b0 :: b1 :: r).
Proof.
  unfold frames at 1. cbn [length]. rewrite parse_frames_S. cbv zeta. case_decide; [|done].
  rewrite parse_frames_fuel by (rewrite length_drop; lia). done.
Qed.

(** Induction over the packets of a stream. *)
Lemma frames_ind (P : list Z → Prop) :
  (∀ l, (∀ k, (length k < length l)%nat → P k) → P l) → ∀ l, P l.
Proof.
  intros H l. remember (length l) as n eqn:E. revert l E.
  induction (lt_wf n) as [n _ IH]. intros l ->. apply H. intros k Hk. by apply (IH (length k)).
Qed.

(** Parsing in two parts: first one part, then what is left with the other. *)
Lemma frames_app l k :
  frames (l ++ k) = ((frames l).1 ++ (frames ((frames l).2 ++ k)).1, (frames ((frames l).2 ++ k)).2).
Proof.
  revert l. refine (frames_ind _ _). intros l IH.
  destruct l as [|b0 [|b1 r]]; [|rewrite (frames_short [b0]) by done;
    cbn [app fst snd]; by destruct (frames (b0 :: k))|].
  { rewrite (frames_short []) by (cbn; lia). cbn [app fst snd]. by destruct (frames k). }
  rewrite (frames_cons b0 b1 r). cbv zeta. case_decide as Hn.
  - cbn [app]. rewrite frames_cons. cbv zeta. rewrite decide_True by (rewrite length_app; lia).
    rewrite drop_app_le, take_app_le by lia. rewrite IH by (rewrite length_drop; cbn; lia). done.
  - cbn [fst snd app]. by destruct (frames (b0 :: b1 :: r ++ k)).
Qed.

(** A packet and what follows it. *)
Lemma frames_packet n p r :
  0 ≤ n → zlen p = n →
  frames ([n / 256; n `mod` 256] ++ p ++ r) = (p :: (frames r).1, (frames r).2).
Proof.
  intros Hn Hp. cbn [app]. rewrite frames_cons. cbv zeta.
  replace (n / 256 * 256 + n `mod` 256) with n by (pose proof (Z.div_mod n 256); lia).
  unfold zlen in Hp. rewrite decide_True by (rewrite length_app; lia).
  replace (Z.to_nat n) with (length p) by lia. by rewrite take_app_length, drop_app_length.
Qed.
Lemma frames_partial n p :
  0 ≤ n → zlen p < n → frames ([n / 256; n `mod` 256] ++ p) = ([], [n / 256; n `mod` 256] ++ p).
Proof.
  intros Hn Hp. cbn [app]. rewrite frames_cons. cbv zeta.
  replace (n / 256 * 256 + n `mod` 256) with n by (pose proof (Z.div_mod n 256); lia).
  unfold zlen in Hp. by rewrite decide_False by lia.
Qed.

(** ** The filter refines the reference *)

Definition np_state (q : option netqueue) (fifo : list netpack) : Prop :=
  let g := get_queue q in
  ring_ok (nq_queue g) (nq_cap g) (nq_head g) (nq_tail g) fifo ∧ table_ok (nq_hash g).
Definition pending (q : option netqueue) (fd : Z) : list Z := pending_in (nq_hash (get_queue q)) fd.

Lemma np_state_init : np_state None [].
Proof.
  split; cbn; [by apply ring_empty|]. split; [by rewrite zlen_replicate| |].
  - intros h ch [-> _]%lookup_replicate_1. constructor.
  - intros h ch u [-> _]%lookup_replicate_1 Hu. by apply elem_of_nil in Hu.
Qed.
Lemma pending_init fd : pending None fd = [].
Proof.
  unfold pending, pending_in. cbn. destruct (hash_fd fd) as [h|]; [|done].
  destruct (replicate (Z.to_nat HASHSIZE) [] !! Z.to_nat h) as [ch|] eqn:E; [|done].
  by apply lookup_replicate_1 in E as [-> _].
Qed.

Lemma push_data_spec q fifo fd p size :
  np_state q fifo →
  ∃ q', push_data q fd p size = Ok q' ∧ np_state (Some q') (fifo ++ [mk_netpack fd size p]) ∧
    ∀ x, pending (Some q') x = pending q x.
Proof.
  intros [R T]. unfold push_data, pending. set (g := get_queue q) in *.
  destruct (ring_store _ _ _ _ _ (mk_netpack fd size p) R) as [-> Ha]. rewrite bind_Ok.
  pose proof R as [Hc Hl Hh Hf Ht _]. pose proof (zlen_nonneg fifo) as H0.
  destruct (ring_advance (nq_cap g) (nq_head g) (zlen fifo) Hh (conj H0 Hf)) as [Et Efull].
  rewrite <- Ht in Et, Efull. cbn [nq_head].
  set (t' := if decide (nq_cap g ≤ nq_tail g + 1) then _ else _) in *.
  assert (zlen (fifo ++ [mk_netpack fd size p]) = zlen fifo + 1) as Elen
    by (by rewrite zlen_app).
  case_decide as Hd.
  - apply Efull in Hd.
    destruct (expand_netqueue_spec (mk_netqueue (nq_cap g) (nq_head g) t' (nq_hash g)
      (<[Z.to_nat (nq_tail g) := Some (mk_netpack fd size p)]> (nq_queue g)))
      (fifo ++ [mk_netpack fd size p])) as (q' & -> & Eh & R'); cbn; auto.
    + by rewrite zlen_insert.
    + lia.
    + exists q'. cbn in Eh. split; [done|]. split; [|cbn; by rewrite Eh]. split; cbn; [done|by rewrite Eh].
  - eexists. split; [done|]. split; [|done]. split; [|done]. cbn. split; auto.
    + by rewrite zlen_insert.
    + rewrite Elen. assert (zlen fifo + 1 ≠ nq_cap g) by (intros E; by apply Hd, Efull). lia.
    + rewrite Elen. done.
Qed.

(** Storing a partial packet. *)
Lemma save_spec q fifo fd u :
  np_state q fifo → fd_ok fd → uc_ok u → uc_id u = fd → pending q fd = [] →
  ∃ q', save_uncomplete q fd u = Ok q' ∧ np_state (Some q') fifo ∧
    pending (Some q') fd = uc_bytes u ∧ ∀ x, x ≠ fd → pending (Some q') x = pending q x.
Proof.
  intros [R T] Hfd Hu Hid He.
  destruct (save_uncomplete_spec q fd u T Hfd Hu Hid He) as (t' & -> & T' & P1 & P2).
  eexists. split; [done|]. split; [|done]. by split.
Qed.

Definition deliver (fd : Z) (p : list Z) : netpack := mk_netpack fd (zlen p) p.

Lemma byte_pair b0 b1 :
  is_byte b0 → is_byte b1 →
  Z.lor (Z.shiftl b0 8) b1 = b0 * 256 + b1 ∧ 0 ≤ b0 * 256 + b1 < 2 ^ 16 ∧
  (b0 * 256 + b1) / 256 = b0 ∧ (b0 * 256 + b1) `mod` 256 = b1.
Proof.
  unfold is_byte. intros. split; [|split; [lia|split]].
  - rewrite Z.lor_comm, Z.shiftl_mul_pow2, lor_add_high by lia. lia.
  - symmetry. apply Z.div_unique with b1; lia.
  - symmetry. apply Z.mod_unique with b0; lia.
Qed.

(** Filling a block from an offset. *)
Lemma fill_block blk at_ chunk :
  0 ≤ at_ → at_ + zlen chunk ≤ zlen blk → Forall is_byte blk → Forall is_byte chunk →
  ∃ blk', wr_bytes blk at_ chunk = Ok blk' ∧ zlen blk' = zlen blk ∧ Forall is_byte blk' ∧
    take (Z.to_nat (at_ + zlen chunk)) blk' = take (Z.to_nat at_) blk ++ chunk.
Proof.
  intros Ha Hl Hb Hc. unfold wr_bytes, zlen in *. rewrite decide_True by lia.
  eexists. split; [done|]. split; [|split].
  - rewrite !length_app, length_take, length_drop. lia.
  - apply Forall_app. split; [by apply Forall_take|]. apply Forall_app. split; [done|by apply Forall_drop].
  - rewrite app_assoc, take_app_le; [|rewrite length_app, length_take; lia].
    apply take_ge. rewrite length_app, length_take. lia.
Qed.
Lemma zeros_bytes n : Forall is_byte (replicate n 0).
Proof. apply Forall_replicate. unfold is_byte. lia. Qed.

Lemma alloc_with_spec n chunk :
  zlen chunk ≤ n → Forall is_byte chunk →
  ∃ blk, alloc_with n chunk = Ok blk ∧ zlen blk = n ∧ Forall is_byte blk ∧
    take (length chunk) blk = chunk.
Proof.
  intros Hn Hc. pose proof (zlen_nonneg chunk).
  assert (zlen (replicate (Z.to_nat n) 0) = n) as Hr by (rewrite zlen_replicate; lia).
  destruct (fill_block (replicate (Z.to_nat n) 0) 0 chunk) as (blk & E & Hl & Hb & Ht);
    [lia|lia|apply zeros_bytes|done|].
  exists blk. split; [done|]. split; [lia|]. split; [done|].
  unfold zlen in Ht. rewrite Z.add_0_l, Nat2Z.id in Ht. exact Ht.
Qed.

(** The two ways a stream ends in a partial packet. *)
Lemma save_header q fifo fd b :
  np_state q fifo → fd_ok fd → pending q fd = [] → is_byte b →
  ∃ q', save_uncomplete q fd (mk_uncomplete (mk_netpack fd 0 []) (-1) b) = Ok q' ∧
    np_state (Some q') fifo ∧ pending (Some q') fd = [b] ∧
    ∀ x, x ≠ fd → pending (Some q') x = pending q x.
Proof.
  intros N Hfd He Hb.
  apply (save_spec q fifo fd (mk_uncomplete (mk_netpack fd 0 []) (-1) b) N Hfd); [by left|done|done].
Qed.
Lemma save_body q fifo fd n blk k h :
  np_state q fifo → fd_ok fd → pending q fd = [] → 0 ≤ k < n → n < 2 ^ 16 → zlen blk = n →
  Forall is_byte blk →
  ∃ q', save_uncomplete q fd (mk_uncomplete (mk_netpack fd n blk) k h) = Ok q' ∧
    np_state (Some q') fifo ∧
    pending (Some q') fd = [n / 256; n `mod` 256] ++ take (Z.to_nat k) blk ∧
    ∀ x, x ≠ fd → pending (Some q') x = pending q x.
Proof.
  intros N Hfd He Hk Hn Hl Hb.
  destruct (save_spec q fifo fd (mk_uncomplete (mk_netpack fd n blk) k h) N Hfd)
    as (q' & E & N' & P1 & P2); [right; cbn; done|done|done|].
  exists q'. split; [done|]. split; [done|]. split; [|done]. rewrite P1. unfold uc_bytes. cbn.
  by rewrite decide_False by lia.
Qed.

Lemma push_more_spec fuel q fifo fd buffer :
  np_state q fifo → fd_ok fd → pending q fd = [] → Forall is_byte buffer → buffer ≠ [] →
  (length buffer ≤ fuel)%nat →
  ∃ q', push_more fuel q fd buffer = Ok q' ∧
    np_state (Some q') (fifo ++ (deliver fd <$> (frames buffer).1)) ∧
    pending (Some q') fd = (frames buffer).2 ∧
    ∀ x, x ≠ fd → pending (Some q') x = pending q x.
Proof.
  revert q fifo buffer. induction fuel as [|fuel IH]; intros q fifo buffer N Hfd He Hb Hne Hf.
  { destruct buffer; [done|cbn in Hf; lia]. }
  cbn [push_more]. destruct buffer as [|b0 [|b1 r]]; [done| |].
  - apply Forall_cons in Hb as [Hb _]. rewrite decide_True by done.
    rewrite (rd_lookup _ 0 b0), bind_Ok by done.
    rewrite frames_short by done. cbn [fst snd fmap list_fmap]. rewrite app_nil_r.
    by apply save_header.
  - apply Forall_cons in Hb as [Hb0 Hb]. apply Forall_cons in Hb as [Hb1 Hb].
    destruct (byte_pair b0 b1 Hb0 Hb1) as (El & Hn & Ed & Em). set (n := b0 * 256 + b1) in *.
    rewrite decide_False by (rewrite !zlen_cons; pose proof (zlen_nonneg r); lia).
    unfold read_size. rewrite (rd_lookup _ 0 b0), (rd_lookup _ 1 b1), !bind_Ok by done.
    rewrite El. cbn [skipn]. rewrite drop_0. replace (zlen (b0 :: b1 :: r) - 2) with (zlen r)
      by (rewrite !zlen_cons; lia).
    rewrite frames_cons. cbv zeta. fold n. destruct (decide (zlen r < n)) as [Hlt|Hlt].
    + rewrite (decide_False (P := (_ ≤ _)%nat)) by (unfold zlen in Hlt; lia).
      destruct (alloc_with_spec n r) as (blk & -> & Hl & Hbb & Ht); [lia|done|].
      rewrite bind_Ok. cbn [fst snd fmap list_fmap]. rewrite app_nil_r.
      destruct (save_body q fifo fd n blk (zlen r) 0 N Hfd He) as (q' & -> & N' & P1 & P2);
        [pose proof (zlen_nonneg r); lia|lia|done|done|].
      exists q'. split; [done|]. split; [done|]. split; [|done].
      rewrite P1, Ed, Em. unfold zlen. by rewrite Nat2Z.id, Ht.
    + rewrite (decide_True (P := (_ ≤ _)%nat)) by (unfold zlen in Hlt; lia).
      destruct (push_data_spec q fifo fd (take (Z.to_nat n) r) n N) as (q1 & -> & N1 & P1).
      rewrite bind_Ok. cbn [fst snd fmap list_fmap].
      assert (zlen (take (Z.to_nat n) r) = n) as Ezn
        by (unfold zlen in *; rewrite length_take; lia).
      fold (deliver fd (take (Z.to_nat n) r)) in N1.
      replace (mk_netpack fd n (take (Z.to_nat n) r)) with (deliver fd (take (Z.to_nat n) r)) in N1
        by (unfold deliver; by rewrite Ezn).
      case_decide as Hmore.
      * destruct (IH (Some q1) (fifo ++ [deliver fd (take (Z.to_nat n) r)]) (drop (Z.to_nat n) r))
          as (q' & -> & N' & Q1 & Q2); [done|done|by rewrite P1|by apply Forall_drop| | |].
        -- intros E. apply (f_equal length) in E. rewrite length_drop in E. cbn in E.
           unfold zlen in *. lia.
        -- rewrite length_drop. cbn in Hf. lia.
        -- exists q'. split; [done|]. rewrite <- app_assoc in N'. split; [done|]. split; [done|].
           intros x Hx. by rewrite Q2, P1.
      * exists q1. split; [done|]. rewrite (drop_ge r) by (unfold zlen in *; lia).
        rewrite frames_short by (cbn; lia). cbn [fst snd fmap list_fmap].
        split; [done|]. split; [by rewrite P1|]. intros x _. apply P1.
Qed.

Lemma frames_nothing l : (frames l).1 = [] → (frames l).2 = l.
Proof.
  destruct l as [|b0 [|b1 r]]; [done|done|]. rewrite frames_cons. cbv zeta. by case_decide.
Qed.

(** What the filter answers for the packets and the rest of the stream, and what
    it puts in the ring. *)
Definition outcome (fd : Z) (pr : list (list Z) * list Z) : filtered :=
  match pr with
  | ([], _) => FNone
  | ([p], []) => FData fd p (zlen p)
  | _ => FMore
  end.
Definition queued (pr : list (list Z) * list Z) : list (list Z) :=
  match pr with
  | ([_], []) => []
  | (ps, _) => ps
  end.

Definition filter_post (q : option netqueue) (fifo : list netpack) (fd : Z)
    (pr : list (list Z) * list Z) (res : result (filtered * option netqueue)) : Prop :=
  ∃ q', res = Ok (outcome fd pr, q') ∧ np_state q' (fifo ++ (deliver fd <$> queued pr)) ∧
    pending q' fd = pr.2 ∧ ∀ x, x ≠ fd → pending q' x = pending q x.

(** A complete packet with more data behind it. *)
Lemma push_rest q fifo fd p n buffer :
  np_state q fifo → fd_ok fd → pending q fd = [] → Forall is_byte buffer → buffer ≠ [] →
  zlen p = n →
  filter_post q fifo fd (p :: (frames buffer).1, (frames buffer).2)
    (q ← push_data q fd p n; q ← push_more (length buffer) (Some q) fd buffer; Ok (FMore, Some q)).
Proof.
  intros N Hfd He Hb Hne Hp. destruct (push_data_spec q fifo fd p n N) as (q1 & -> & N1 & P1).
  rewrite bind_Ok. subst n.
  destruct (push_more_spec (length buffer) (Some q1) _ fd buffer N1) as (q' & -> & N' & Q1 & Q2);
    [done|by rewrite P1|done|done|lia|].
  rewrite bind_Ok. exists (Some q').
  assert ((frames buffer).1 ≠ [] ∨ (frames buffer).2 ≠ []) as Hor.
  { destruct ((frames buffer).1) eqn:E; [right; by rewrite frames_nothing|by left]. }
  assert (outcome fd (p :: (frames buffer).1, (frames buffer).2) = FMore ∧
    queued (p :: (frames buffer).1, (frames buffer).2) = p :: (frames buffer).1) as [-> ->]
    by (destruct ((frames buffer).1), ((frames buffer).2); cbn; naive_solver).
  split; [done|]. rewrite <- app_assoc in N'. split; [done|]. split; [done|].
  intros x Hx. by rewrite Q2, P1.
Qed.

Lemma filter_fresh_spec q fifo fd buffer :
  np_state q fifo → fd_ok fd → pending q fd = [] → Forall is_byte buffer → buffer ≠ [] →
  filter_post q fifo fd (frames buffer) (filter_fresh q fd buffer).
Proof.
  intros N Hfd He Hb Hne. unfold filter_fresh. destruct buffer as [|b0 [|b1 r]]; [done| |].
  - apply Forall_cons in Hb as [Hb _]. rewrite decide_True by done.
    rewrite (rd_lookup _ 0 b0), bind_Ok by done.
    destruct (save_header q fifo fd b0 N Hfd He Hb) as (q' & -> & N' & P1 & P2).
    exists (Some q'). rewrite frames_short by done. cbn [queued fmap list_fmap].
    rewrite app_nil_r. done.
  - apply Forall_cons in Hb as [Hb0 Hb]. apply Forall_cons in Hb as [Hb1 Hb].
    destruct (byte_pair b0 b1 Hb0 Hb1) as (El & Hn & Ed & Em).
    set (n := b0 * 256 + b1) in *. pose proof (zlen_nonneg r).
    rewrite decide_False by (rewrite !zlen_cons; lia).
    unfold read_size. rewrite (rd_lookup _ 0 b0), (rd_lookup _ 1 b1), !bind_Ok by done.
    rewrite El. cbn [skipn]. rewrite drop_0.
    replace (zlen (b0 :: b1 :: r) - 2) with (zlen r) by (rewrite !zlen_cons; lia).
    assert (b0 :: b1 :: r = [n / 256; n `mod` 256] ++ r) as Ebuf by (by rewrite Ed, Em).
    destruct (decide (zlen r < n)) as [Hlt|Hlt]; [|destruct (decide (zlen r = n)) as [Heq|Hgt]].
    + destruct (alloc_with_spec n r) as (blk & -> & Hl & Hbb & Ht); [lia|done|].
      rewrite bind_Ok.
      destruct (save_body q fifo fd n blk (zlen r) 0 N Hfd He) as (q' & -> & N' & P1 & P2);
        [lia|lia|done|done|].
      exists (Some q'). rewrite Ebuf, frames_partial by lia. cbn [queued fmap list_fmap].
      rewrite app_nil_r. split; [done|]. split; [done|]. split; [|done].
      rewrite P1. unfold zlen. by rewrite Nat2Z.id, Ht.
    + exists q. rewrite Ebuf, <- (app_nil_r r), frames_packet, (frames_short [])
        by (lia || (cbn; lia) || done).
      cbn [outcome queued fmap list_fmap fst snd]. rewrite !app_nil_r. by rewrite Heq.
    + rewrite Ebuf, <- (take_drop (Z.to_nat n) r) at 1.
      assert (zlen (take (Z.to_nat n) r) = n) as Ezn by (unfold zlen in *; rewrite length_take; lia).
      rewrite frames_packet by (lia || done). apply push_rest; try done; [by apply Forall_drop|].
      intros E. apply (f_equal length) in E. rewrite length_drop in E. cbn in E.
      unfold zlen in *. lia.
Qed.

(** The packet under way after [pread] of its [psize] bytes, and a new chunk. *)
Lemma fill_spec q fifo fd psize pbuf pread hdr buffer :
  np_state q fifo → fd_ok fd → pending q fd = [] → Forall is_byte buffer →
  0 ≤ pread ≤ psize → psize < 2 ^ 16 → zlen pbuf = psize → Forall is_byte pbuf →
  filter_post q fifo fd
    (frames ([psize / 256; psize `mod` 256] ++ take (Z.to_nat pread) pbuf ++ buffer))
    (let size := zlen buffer in
     let need := psize - pread in
     if decide (size < need) then
       pbuf ← wr_bytes pbuf pread buffer;
       q ← save_uncomplete q fd (mk_uncomplete (mk_netpack fd psize pbuf) (pread + size) hdr);
       Ok (FNone, Some q)
     else
       pbuf ← wr_bytes pbuf pread (take (Z.to_nat need) buffer);
       let buffer := drop (Z.to_nat need) buffer in
       let size := size - need in
       if decide (size = 0) then Ok (FData fd pbuf psize, q)
       else
         q ← push_data q fd pbuf psize;
         q ← push_more (length buffer) (Some q) fd buffer;
         Ok (FMore, Some q)).
Proof.
  intros N Hfd He Hb Hr Hs Hl Hpb. cbv zeta. pose proof (zlen_nonneg buffer). case_decide as Hlt.
  - destruct (fill_block pbuf pread buffer) as (blk & -> & Hl' & Hb' & Ht); [lia|lia|done|done|].
    rewrite bind_Ok.
    destruct (save_body q fifo fd psize blk (pread + zlen buffer) hdr N Hfd He)
      as (q' & -> & N' & P1 & P2); [lia|lia|lia|done|].
    exists (Some q'). rewrite <- Ht, frames_partial; [|lia|].
    + cbn [queued fmap list_fmap]. rewrite app_nil_r. done.
    + unfold zlen in *. rewrite length_take. lia.
  - set (need := psize - pread) in *.
    assert (zlen (take (Z.to_nat need) buffer) = need) as Hneed
      by (unfold zlen in *; rewrite length_take; lia).
    destruct (fill_block pbuf pread (take (Z.to_nat need) buffer)) as (blk & -> & Hl' & Hb' & Ht);
      [lia|lia|done|by apply Forall_take|].
    rewrite bind_Ok. rewrite take_ge in Ht by (unfold zlen in *; lia).
    rewrite <- (take_drop (Z.to_nat need) buffer) at 1. rewrite (app_assoc (take _ pbuf)), <- Ht.
    rewrite frames_packet by lia. case_decide as Hz.
    + rewrite (drop_ge buffer) by (unfold zlen in *; lia). rewrite (frames_short []) by (cbn; lia).
      exists q. cbn [outcome queued fmap list_fmap fst snd]. rewrite app_nil_r. by rewrite Hl', Hl.
    + apply push_rest; try done; [by apply Forall_drop| |lia].
      intros E. apply (f_equal length) in E. rewrite length_drop in E. cbn in E.
      unfold zlen in *. lia.
Qed.

Lemma filter_data_spec q fifo fd buffer :
  np_state q fifo → fd_ok fd → Forall is_byte buffer → buffer ≠ [] →
  filter_post q fifo fd (frames (pending q fd ++ buffer)) (filter_data q fd buffer).
Proof.
  intros [R T] Hfd Hb Hne. unfold filter_data. destruct q as [q|]; cycle 1.
  { cbn [find_uncomplete]. rewrite bind_Ok. cbn [fst snd]. rewrite pending_init. cbn [app].
    apply filter_fresh_spec; try done. apply pending_init. }
  destruct (find_uncomplete_spec q fd T Hfd) as (o & t' & -> & T' & P1 & P2 & Ho).
  rewrite bind_Ok. cbn [fst snd]. change (pending (Some q)) with (pending_in (nq_hash q)).
  assert (np_state (Some (set_hash q t')) fifo) as N by (by split).
  assert (∀ pr res, filter_post (Some (set_hash q t')) fifo fd pr res →
    filter_post (Some q) fifo fd pr res) as Hlift.
  { intros pr res (q' & -> & N' & Q1 & Q2). exists q'. split; [done|]. split; [done|].
    split; [done|]. intros x Hx. rewrite Q2 by done. by apply P2. }
  apply Hlift. destruct o as [u|]; cycle 1.
  { rewrite Ho. by apply filter_fresh_spec. }
  destruct Ho as (Hu & Hid & ->). unfold fill_uncomplete, uc_bytes.
  destruct Hu as [[Hr Hh]|(Hr & Hs & Hl & Hbb)].
  - rewrite Hr. rewrite !decide_True by lia. rewrite c_assert_true, bind_Ok by done.
    destruct buffer as [|b buffer]; [done|]. apply Forall_cons in Hb as [Hb0 Hb].
    rewrite (rd_lookup _ 0 b), bind_Ok by done. rewrite bind_Ok. cbn [skipn]. rewrite drop_0.
    destruct (byte_pair (uc_header u) b Hh Hb0) as (El & Hn & Ed & Em). rewrite Z.lor_comm in El.
    rewrite El. set (n := uc_header u * 256 + b) in *.
    rewrite <- Ed, <- Em. cbn [app].
    apply (fill_spec (Some (set_hash q t')) fifo fd n (replicate (Z.to_nat n) 0) 0); try done; try lia.
    + rewrite zlen_replicate. lia.
    + apply zeros_bytes.
  - rewrite !decide_False by lia. rewrite bind_Ok, <- app_assoc. apply fill_spec; try done. lia.
Qed.

(** ** Popping and clearing *)

Lemma lpop_cons q x fifo :
  np_state q (x :: fifo) →
  ∃ q', lpop q = Ok (Some x, q') ∧ np_state q' fifo ∧ ∀ fd, pending q' fd = pending q fd.
Proof.
  intros [R T]. destruct q as [q|]; cbn [get_queue] in R.
  - destruct (ring_pop _ _ _ _ _ _ R) as (Hne & Hrd & R'). unfold lpop.
    rewrite decide_False, Hrd, bind_Ok by done. cbn [of_option]. rewrite bind_Ok.
    eexists. split; [done|]. split; [|done]. by split.
  - destruct (ring_empty_iff _ _ _ _ _ R) as [E _]. by specialize (E eq_refl).
Qed.
Lemma lpop_nil q : np_state q [] → lpop q = Ok (None, q).
Proof.
  intros [R T]. destruct q as [q|]; [|done]. unfold lpop.
  rewrite decide_True; [done|]. by apply (ring_empty_iff _ _ _ _ _ R).
Qed.

(** The gate's loop [for fd, msg, sz in netpack.pop, queue], until the ring is
    empty: it holds fewer packets than its capacity. *)
Fixpoint drain (fuel : nat) (q : option netqueue) : result (list netpack * option netqueue) :=
  match fuel with
  | O => Err OutOfFuel
  | S fuel =>
      r ← lpop q;
      match r.1 with
      | None => Ok ([], r.2)
      | Some np => r' ← drain fuel r.2; Ok (np :: r'.1, r'.2)
      end
  end.

Lemma drain_spec fuel q fifo :
  np_state q fifo → (length fifo < fuel)%nat →
  ∃ q', drain fuel q = Ok (fifo, q') ∧ np_state q' [] ∧ ∀ fd, pending q' fd = pending q fd.
Proof.
  revert q fifo. induction fuel as [|fuel IH]; intros q fifo N Hf; [lia|]. cbn [drain].
  destruct fifo as [|x fifo].
  - rewrite lpop_nil by done. exists q. done.
  - destruct (lpop_cons q x fifo N) as (q1 & -> & N1 & P1). rewrite bind_Ok. cbn [fst snd].
    destruct (IH q1 fifo N1) as (q' & -> & N' & P'); [cbn in Hf; lia|]. rewrite bind_Ok.
    exists q'. split; [done|]. split; [done|]. intros fd. by rewrite P', P1.
Qed.

(** A data message handled the way the gate does: the packets it delivers. *)
Definition serve (q : option netqueue) (fd : Z) (chunk : list Z) :
    result (list netpack * option netqueue) :=
  r ← lfilter q (mk_socket_message SKYNET_SOCKET_TYPE_DATA fd (zlen chunk) (Some chunk) []);
  match r.1 with
  | FData fd b size => Ok ([mk_netpack fd size b], r.2)
  | FMore => drain (Z.to_nat (nq_cap (get_queue r.2))) r.2
  | _ => Ok ([], r.2)
  end.

Lemma serve_spec q fd chunk :
  np_state q [] → fd_ok fd → Forall is_byte chunk → chunk ≠ [] →
  let pr := frames (pending q fd ++ chunk) in
  ∃ q', serve q fd chunk = Ok (deliver fd <$> pr.1, q') ∧ np_state q' [] ∧
    pending q' fd = pr.2 ∧ ∀ x, x ≠ fd → pending q' x = pending q x.
Proof.
  intros N Hfd Hb Hne pr. unfold serve, lfilter. cbn [sm_type sm_buffer sm_id default].
  rewrite decide_True, c_assert_true, bind_Ok by done. unfold default, id.
  destruct (filter_data_spec q [] fd chunk N Hfd Hb Hne) as (q1 & E & N1 & P1 & P2).
  fold pr in E, N1, P1. rewrite E, bind_Ok. cbn [fst snd app] in *.
  destruct pr as [ps rest]. cbn [fst snd] in *.
  assert (ps = [] ∨ (∃ p, ps = [p] ∧ rest = []) ∨ outcome fd (ps, rest) = FMore ∧ queued (ps, rest) = ps)
    as [->|[(p & -> & ->)|[Eo Eq]]].
  { destruct ps as [|p [|p2 ps]]; [by left| |by right; right].
    destruct rest; [right; left; eauto|by right; right]. }
  - exists q1. done.
  - exists q1. done.
  - rewrite Eo. rewrite Eq in N1.
    destruct (drain_spec (Z.to_nat (nq_cap (get_queue q1))) q1 _ N1) as (q' & -> & N' & P').
    { destruct N1 as [[_ _ _ Hf _ _] _]. unfold zlen in Hf. lia. }
    exists q'. split; [done|]. split; [done|]. rewrite P'. split; [done|].
    intros x Hx. rewrite P'. auto.
Qed.

Fixpoint serve_all (q : option netqueue) (events : list (Z * list Z)) :
    result (list netpack * option netqueue) :=
  match events with
  | [] => Ok ([], q)
  | (fd, chunk) :: events =>
      r ← serve q fd chunk;
      r' ← serve_all r.2 events;
      Ok (r.1 ++ r'.1, r'.2)
  end.

(** The bytes a socket received. *)
Definition stream_of (fd : Z) (events : list (Z * list Z)) : list Z :=
  concat (snd <$> filter (λ e, e.1 = fd) events).
Definition event_ok (e : Z * list Z) : Prop := fd_ok e.1 ∧ Forall is_byte e.2 ∧ e.2 ≠ [].

Lemma stream_of_cons fd fd' chunk events :
  stream_of fd ((fd', chunk) :: events)
    = (if decide (fd' = fd) then chunk else []) ++ stream_of fd events.
Proof. unfold stream_of. rewrite filter_cons. cbn. by case_decide. Qed.

Lemma filter_deliver fd fd' ps :
  filter (λ np, np_id np = fd) (deliver fd' <$> ps)
    = if decide (fd' = fd) then deliver fd' <$> ps else [].
Proof.
  case_decide.
  - apply filter_all. apply Forall_fmap, Forall_true. done.
  - apply filter_none. apply Forall_fmap, Forall_true. done.
Qed.

Lemma serve_all_spec events q :
  np_state q [] → Forall event_ok events →
  ∃ out q', serve_all q events = Ok (out, q') ∧ np_state q' [] ∧
    Forall (λ np, np_id np ∈ events.*1) out ∧
    ∀ fd, let pr := frames (pending q fd ++ stream_of fd events) in
      (frames (pending q fd)).1 = [] →
      filter (λ np, np_id np = fd) out = deliver fd <$> pr.1 ∧ pending q' fd = pr.2.
Proof.
  intros N He. revert q N. induction He as [|[fd0 chunk] events (Hfd & Hb & Hne) He IH]; intros q N.
  { exists [], q. split; [done|]. split; [done|]. split; [done|]. intros fd. cbn zeta. unfold stream_of. cbn.
    rewrite app_nil_r. intros E. by rewrite frames_nothing, E. }
  cbn [serve_all fst snd] in *. destruct (serve_spec q fd0 chunk N Hfd Hb Hne) as (q1 & -> & N1 & P1 & P2).
  rewrite bind_Ok. cbn [fst snd]. destruct (IH q1 N1) as (out & q' & -> & N' & Hids & Hout).
  rewrite bind_Ok. eexists _, q'. split; [done|]. split; [done|]. split.
  { apply Forall_app. split; [apply Forall_fmap, Forall_true; by left|].
    eapply Forall_impl; [exact Hids|]. intros np Hnp. by right. }
  intros fd. cbv zeta. intros E0.
  cbn [fst snd]. rewrite filter_app, filter_deliver. rewrite stream_of_cons.
  destruct (decide (fd0 = fd)) as [->|Hne'].
  - rewrite app_assoc, (frames_app (pending q fd ++ chunk) (stream_of fd events)). cbn [fst snd].
    destruct (Hout fd) as [H1 H2].
    { rewrite P1. pose proof (frames_app (pending q fd ++ chunk) []) as Ef. rewrite app_nil_r in Ef.
      rewrite app_nil_r in Ef. apply (f_equal fst) in Ef. cbn [fst] in Ef.
      rewrite <- (app_nil_r (frames _).1) in Ef at 1. by apply app_inv_head in Ef. }
    rewrite H1, P1, fmap_app. split; [done|]. rewrite H2, P1. done.
  - cbn [app]. destruct (Hout fd) as [H1 H2]; [by rewrite P2|]. by rewrite H1, H2, P2.
Qed.

(** Packets written back to back. *)
Definition packet (m : list Z) : list Z := [zlen m / 256; zlen m `mod` 256] ++ m.

Lemma lpack_packet m : zlen m < 65536 → lpack m = Ok (packet m).
Proof.
  intros Hm. pose proof (zlen_nonneg m). unfold lpack. rewrite decide_False by lia.
  replace (Z.to_nat (zlen m + 2)) with (2 + length m)%nat by (unfold zlen; lia).
  unfold write_size. cbn [replicate Nat.add]. pose proof (zlen_nonneg (replicate (length m) 0)).
  wr_cell. rewrite wr_Ok, bind_Ok by (rewrite !zlen_cons; lia). change (Z.to_nat 1) with 1%nat.
  cbn [insert list_insert]. unfold wr_bytes. rewrite decide_True.
  2:{ rewrite !zlen_cons, zlen_replicate. unfold zlen. lia. }
  change (Z.to_nat 2) with 2%nat. cbn [firstn skipn Nat.add]. rewrite drop_ge by (by rewrite length_replicate).
  rewrite app_nil_r. unfold packet. change 255 with (2 ^ 8 - 1). rewrite !land_ones_mod by lia.
  rewrite Z.shiftr_div_pow2 by lia. change (2 ^ 8) with 256.
  rewrite (Z.mod_small (zlen m / 256)); [done|].
  split; [apply Z.div_pos; lia|]. apply Z.div_lt_upper_bound; lia.
Qed.
Lemma frames_packets ms : frames (concat (packet <$> ms)) = (ms, []).
Proof.
  induction ms as [|m ms IH]; [done|]. cbn [fmap list_fmap concat]. unfold packet at 1.
  rewrite <- app_assoc, frames_packet, IH by (done || apply zlen_nonneg). done.
Qed.

Lemma packet_bytes m : zlen m < 65536 → Forall is_byte m → Forall is_byte (packet m).
Proof.
  intros Hm Hb. pose proof (zlen_nonneg m). unfold packet. apply Forall_app. split; [|done].
  repeat constructor; try (apply Z.mod_pos_bound; lia).
  - apply Z.div_pos; lia.
  - apply Z.div_lt_upper_bound; lia.
Qed.
Lemma stream_of_one fd chunks : stream_of fd ((λ c, (fd, c)) <$> chunks) = concat chunks.
Proof.
  induction chunks as [|c cs IH]; [done|]. cbn [fmap list_fmap]. rewrite stream_of_cons.
  rewrite decide_True by done. cbn [concat]. by rewrite IH.
Qed.

(** ** What the filter promises *)

(** C4: for every sequence of data messages of any sockets, the gate's filter
    and pop loop never fail and deliver to each socket exactly the packets of the
    bytes it received, in order and with their lengths, and keep the rest: how
    the bytes were cut into messages and interleaved makes no difference. *)
Theorem reassembly_ignores_chunking events :
  Forall event_ok events →
  ∃ out q, serve_all None events = Ok (out, q) ∧
    ∀ fd, filter (λ np, np_id np = fd) out = deliver fd <$> (frames (stream_of fd events)).1 ∧
      pending q fd = (frames (stream_of fd events)).2.
Proof.
  intros He. destruct (serve_all_spec events None np_state_init He) as (out & q & E & _ & _ & Ho).
  exists out, q. split; [done|]. intros fd. specialize (Ho fd). rewrite pending_init in Ho.
  by apply Ho.
Qed.

Lemma reassembly_ignores_chunking_witness :
  ∃ out q, serve_all None [(3, [0]); (8, [0; 1; 65]); (3, [2; 9]); (3, [8; 0; 1; 7; 0])] = Ok (out, q)
    ∧ filter (λ np, np_id np = 3) out = [deliver 3 [9; 8]; deliver 3 [7]] ∧ pending q 3 = [0].
Proof.
  destruct (reassembly_ignores_chunking [(3, [0]); (8, [0; 1; 65]); (3, [2; 9]); (3, [8; 0; 1; 7; 0])])
    as (out & q & E & Ho).
  - repeat constructor; cbn; (lia || discriminate || (unfold fd_ok; lia)).
  - exists out, q. split; [exact E|]. destruct (Ho 3) as [H1 H2]. split; [exact H1|exact H2].
Defined.

(** Packets sent to a socket back to back arrive for every chunking. *)
Lemma packets_arrive ms fd chunks :
  fd_ok fd → Forall (λ m, zlen m < 65536 ∧ Forall is_byte m) ms → Forall (λ c, c ≠ []) chunks → concat chunks = concat (packet <$> ms) →
  ∃ q, serve_all None ((λ c, (fd, c)) <$> chunks) = Ok (deliver fd <$> ms, q) ∧ pending q fd = [].
Proof.
  intros Hfd Hms Hne Ec.
  assert (Forall is_byte (concat chunks)) as Hb.
  { rewrite Ec. apply Forall_concat, Forall_fmap. eapply Forall_impl; [exact Hms|].
    intros m [? ?]. by apply packet_bytes. }
  apply Forall_concat in Hb.
  destruct (serve_all_spec ((λ c, (fd, c)) <$> chunks) None np_state_init) as (out & q & E & _ & Hid & Ho).
  { apply Forall_fmap, Forall_forall. intros c Hc. rewrite Forall_forall in Hb, Hne.
    split; [done|]. split; [by apply Hb|by apply Hne]. }
  specialize (Ho fd). rewrite pending_init in Ho. cbn [app] in Ho. cbv zeta in Ho.
  rewrite stream_of_one, Ec, frames_packets in Ho. destruct (Ho eq_refl) as [H1 H2]. cbn [fst snd] in *.
  exists q. split; [|done]. rewrite E. do 2 f_equal. rewrite <- H1. symmetry. apply filter_all.
  eapply Forall_impl; [exact Hid|]. intros np Hnp. cbn.
  apply list_elem_of_fmap in Hnp as (e & -> & He). apply list_elem_of_fmap in He as (c & -> & _). done.
Qed.

(** Messages shorter than 64K packed with [lpack] and sent to a socket back to
    back arrive as they were sent, whatever non-empty chunks the connection cuts
    the bytes into; longer messages are refused with an error. *)
Theorem packed_messages_arrive ms fd chunks :
  fd_ok fd → Forall (λ m, zlen m < 65536 ∧ Forall is_byte m) ms →
  Forall (λ c, c ≠ []) chunks → concat chunks = concat (packet <$> ms) →
  mapM lpack ms = Ok (packet <$> ms) ∧
  (∃ q, serve_all None ((λ c, (fd, c)) <$> chunks) = Ok (deliver fd <$> ms, q) ∧
     pending q fd = []) ∧
  ∀ m, 65536 ≤ zlen m → lpack m = Err (LuaError 0).
Proof.
  intros Hfd Hms Hne Ec. split; [|split].
  - clear Ec. induction Hms as [|m ms [Hm _] _ IH]; [done|]. cbn. rewrite lpack_packet by done.
    cbn. by rewrite IH.
  - by apply packets_arrive.
  - intros m Hm. unfold lpack. by rewrite decide_True.
Qed.

Lemma packed_messages_arrive_witness :
  ∃ q, serve_all None [(5, [0; 2; 104]); (5, [105; 0]); (5, [0; 0; 1; 33])]
    = Ok ([deliver 5 [104; 105]; deliver 5 []; deliver 5 [33]], q) ∧ pending q 5 = [].
Proof.
  destruct (packed_messages_arrive [[104; 105]; []; [33]] 5 [[0; 2; 104]; [105; 0]; [0; 0; 1; 33]])
    as (_ & Hq & _).
  - unfold fd_ok. lia.
  - repeat constructor; cbn; lia.
  - repeat constructor; discriminate.
  - reflexivity.
  - exact Hq.
Defined.

Lemma cleared_table t :
  table_ok t → table_ok ((λ _, []) <$> t) ∧ ∀ fd, pending_in ((λ _, []) <$> t) fd = [].
Proof.
  intros [Hl _ _].
  assert (∀ i ch, ((λ _ : list uncomplete, @nil uncomplete) <$> t) !! i = Some ch → ch = []) as Hn.
  { intros i ch. rewrite list_lookup_fmap. by destruct (t !! i) as [c|]; [intros [= <-]|]. }
  split; [split|].
  - unfold zlen in *. by rewrite length_fmap.
  - intros i ch ->%Hn. constructor.
  - intros i ch u ->%Hn Hu. by apply elem_of_nil in Hu.
  - intros fd. unfold pending_in. destruct (hash_fd fd) as [h|]; [|done].
    destruct (((λ _ : list uncomplete, @nil uncomplete) <$> t) !! Z.to_nat h) as [ch|] eqn:E; [|done].
    by apply Hn in E as ->.
Qed.

(** The loop of [lclear] over the ring. *)
Lemma clear_ring buf cap head tail fifo :
  ring_ok buf cap head tail fifo →
  let tail' := if decide (tail < head) then tail + cap else tail in
  c_for (Z.to_nat (tail' - head)) head
    (λ i acc, np ← rd buf (i `mod` cap); np ← of_option Uninitialised np;
              Ok (acc ++ [np_buffer np])) [] = Ok (np_buffer <$> fifo).
Proof.
  intros [Hc Hl Hh Hf Ht Ha] tail'. pose proof (zlen_nonneg fifo).
  assert (tail' - head = zlen fifo) as ->.
  { subst tail'. pose proof (ring_distance head (zlen fifo) cap Hh ltac:(lia)) as D.
    cbv zeta in D. rewrite <- Ht in D. repeat case_decide; lia. }
  destruct (c_for_spec (λ j acc, acc = np_buffer <$> take (Z.to_nat (j - head)) fifo)
    (λ i acc, np ← rd buf (i `mod` cap); np ← of_option Uninitialised np;
              Ok (acc ++ [np_buffer np])) (Z.to_nat (zlen fifo)) head []) as (acc & -> & ->).
  - by rewrite Z.sub_diag.
  - intros j acc Hj ->. destruct (lookup_lt_is_Some_2 fifo (Z.to_nat (j - head))) as [x Hx];
      [unfold zlen in *; lia|]. specialize (Ha _ _ Hx) as Hb. rewrite Z2Nat.id in Hb by lia.
    replace (head + (j - head)) with j in Hb by lia.
    pose proof (Z.mod_pos_bound j cap Hc).
    rewrite (rd_lookup _ _ (Some x)), bind_Ok by (lia || done). cbn [of_option]. rewrite bind_Ok.
    eexists. split; [done|]. replace (Z.to_nat (j + 1 - head)) with (S (Z.to_nat (j - head))) by lia.
    by rewrite (take_S_r _ _ x), fmap_app.
  - f_equal. f_equal. apply take_ge. unfold zlen. lia.
Qed.

(** [lclear] frees the buffer of every partial packet and of every packet in
    the ring, each once, and leaves an empty queue that works like a new one. *)
Theorem clear_frees_every_buffer q fifo :
  np_state q fifo →
  ∃ freed q', lclear q = Ok (freed, q') ∧
    freed = ((np_buffer ∘ uc_pack) <$> concat (nq_hash (get_queue q))) ++ (np_buffer <$> fifo) ∧
    np_state q' [] ∧ ∀ fd, pending q' fd = [].
Proof.
  intros [R T]. destruct (cleared_table _ T) as [T' P']. destruct q as [q|]; cbn [get_queue] in *.
  - unfold lclear. rewrite (clear_ring _ _ _ _ _ R), bind_Ok. eexists _, _. split; [done|].
    split; [done|]. split; [|exact P']. split; [|exact T']. cbn. destruct R as [Hc Hl _ _ _ _].
    split; [done|done|lia|done| |done]. symmetry. apply Z.mod_0_l. lia.
  - assert (fifo = []) as -> by (by apply (ring_empty_iff _ _ _ _ _ R)).
    exists [], None. split; [done|]. split; [by vm_compute|]. split; [apply np_state_init|].
    intros fd. apply pending_init.
Qed.

(** A queue with one packet and one byte of the next. *)
Definition demo_queue : option netqueue :=
  match filter_data None 3 [0; 1; 7; 0] with Ok r => r.2 | Err _ => None end.

Lemma demo_queue_state : np_state demo_queue [deliver 3 [7]].
Proof.
  unfold demo_queue. destruct (filter_data_spec None [] 3 [0; 1; 7; 0] np_state_init)
    as (q & -> & N & _); [unfold fd_ok; lia|repeat constructor; lia|discriminate|].
  rewrite pending_init in N. exact N.
Qed.

Lemma clear_frees_every_buffer_witness :
  ∃ freed q', lclear demo_queue = Ok (freed, q') ∧ freed = [[]; [7]] ∧ np_state q' [].
Proof.
  destruct (clear_frees_every_buffer demo_queue [deliver 3 [7]] demo_queue_state)
    as (freed & q' & E & Hf & N & _).
  exists freed, q'. split; [exact E|]. split; [|exact N]. rewrite Hf. vm_compute. reflexivity.
Defined.
