(* ===== verification/Format.v ===== *)
(** * Numbers in text: sprintf, strtol and strtoul as the server uses them

    The conversions %x and %d, [id_to_hex] of skynet-src/skynet_server.c, and
    the parsing functions of the C library, with the lemmas that parsing inverts
    printing. *)
From Stdlib Require Import String.
From stdpp Require Import base numbers list.
From S2P Require Import Prelude CString.

(** The value of a digit character in bases up to 16. *)
Definition digit_val (c : Z) : option Z :=
  if decide (48 ≤ c ≤ 57) then Some (c - 48)
  else if decide (97 ≤ c ≤ 102) then Some (c - 87)
  else if decide (65 ≤ c ≤ 70) then Some (c - 55)
  else None.
Definition lower_digit (d : Z) : Z := if decide (d < 10) then 48 + d else 87 + d.
Definition upper_digit (d : Z) : Z := if decide (d < 10) then 48 + d else 55 + d.

(** The digits of a number, most significant first; [fuel] bounds their count. *)
Fixpoint digits (fuel : nat) (b n : Z) : list Z :=
  match fuel with
  | O => []
  | S f => if decide (n < b) then [n] else digits f b (n / b) ++ [n `mod` b]
  end.

(** %x and %u of a 32-bit value need at most 8 and 10 digits; %d of an [int] a
    sign more. *)
Definition print_x (n : Z) : cstring := lower_digit <$> digits 8 16 n.
Definition print_08x (n : Z) : cstring :=
  replicate (8 - length (print_x n)) 48 ++ print_x n.
Definition print_u (n : Z) : cstring := lower_digit <$> digits 10 10 n.
Definition print_d (n : Z) : cstring :=
  if decide (n < 0) then 45 :: print_u (- n) else print_u n.

(** The longest prefix of digits of base [b], and what follows it. *)
Fixpoint parse_digits (b : Z) (s : list Z) (acc : Z) : Z * list Z :=
  match s with
  | [] => (acc, [])
  | c :: r =>
      match digit_val c with
      | Some d => if decide (d < b) then parse_digits b r (acc * b + d) else (acc, s)
      | None => (acc, s)
      end
  end.

Definition is_space (c : Z) : bool := bool_decide (c = 32 ∨ 9 ≤ c ≤ 13).
Fixpoint skip_space (s : list Z) : list Z :=
  match s with c :: r => if is_space c then skip_space r else s | [] => [] end.

Definition take_sign (s : list Z) : bool * list Z :=
  match s with
  | c :: r => if decide (c = 45) then (true, r) else if decide (c = 43) then (false, r) else (false, s)
  | [] => (false, [])
  end.

(** The optional 0x of base 16, which counts only before a hexadecimal digit. *)
Definition take_0x (s : list Z) : list Z :=
  match s with
  | z :: x :: c :: r =>
      if decide (z = 48 ∧ (x = 120 ∨ x = 88) ∧ is_Some (digit_val c)) then c :: r else s
  | _ => s
  end.

(** [strtoul(s, NULL, 16)] with a 64-bit [unsigned long]. *)
Definition strtoul16 (s : list Z) : Z :=
  let '(neg, r) := take_sign (skip_space s) in
  let n := Z.min (parse_digits 16 (take_0x r) 0).1 (2 ^ 64 - 1) in
  if neg then u64 (- n) else n.

(** [strtol(s, &end, 10)] with a 64-bit [long]. *)
Definition strtol10 (s : list Z) : Z :=
  let '(neg, r) := take_sign (skip_space s) in
  let n := (parse_digits 10 r 0).1 in
  if neg then Z.max (- n) (- 2 ^ 63) else Z.min n (2 ^ 63 - 1).

(** [strtol(s, NULL, 0)]: hexadecimal after 0x, octal after 0, decimal otherwise. *)
Definition strtol0 (s : list Z) : Z :=
  let '(neg, r) := take_sign (skip_space s) in
  let n := if decide (take_0x r ≠ r) then (parse_digits 16 (take_0x r) 0).1
           else match r with
                | c :: _ => (parse_digits (if decide (c = 48) then 8 else 10) r 0).1
                | [] => 0
                end in
  if neg then Z.max (- n) (- 2 ^ 63) else Z.min n (2 ^ 63 - 1).

(** skynet_server.c: ":" and eight upper-case digits. *)
Definition id_to_hex (id : Z) : cstring :=
  58 :: ((λ i, upper_digit (Z.land (Z.shiftr id ((7 - i) * 4)) 0xf)) <$> [0; 1; 2; 3; 4; 5; 6; 7]).

(** ** Parsing inverts printing *)

Lemma digit_val_lower d : 0 ≤ d < 16 → digit_val (lower_digit d) = Some d.
Proof.
  intros. unfold digit_val, lower_digit. destruct (decide (d < 10)).
  - rewrite decide_True by lia. f_equal. lia.
  - rewrite decide_False, decide_True by lia. f_equal. lia.
Qed.
Lemma digit_val_upper d : 0 ≤ d < 16 → digit_val (upper_digit d) = Some d.
Proof.
  intros. unfold digit_val, upper_digit. destruct (decide (d < 10)).
  - rewrite decide_True by lia. f_equal. lia.
  - rewrite decide_False, decide_False, decide_True by lia. f_equal. lia.
Qed.

Fixpoint digits_value (b : Z) (ds : list Z) (acc : Z) : Z :=
  match ds with [] => acc | d :: ds => digits_value b ds (acc * b + d) end.

Lemma parse_digits_map b ds acc (f : Z → Z) rest :
  (∀ d, d ∈ ds → digit_val (f d) = Some d ∧ d < b) →
  match rest with c :: _ => digit_val c = None | [] => True end →
  parse_digits b ((f <$> ds) ++ rest) acc = (digits_value b ds acc, rest).
Proof.
  intros Hd Hr. revert acc. induction ds as [|d ds IH]; intros acc; cbn.
  - destruct rest as [|c r]; [done|]. cbn. by rewrite Hr.
  - destruct (Hd d) as [-> Hlt]; [left|]. rewrite decide_True by done.
    apply IH. intros x Hx. apply Hd. by right.
Qed.

Lemma digits_value_snoc b ds d acc :
  digits_value b (ds ++ [d]) acc = digits_value b ds acc * b + d.
Proof. revert acc. induction ds as [|x ds IH]; intros acc; cbn; [done|]. apply IH. Qed.

Lemma digits_spec fuel b n :
  2 ≤ b → 0 ≤ n < b ^ Z.of_nat fuel →
  digits_value b (digits fuel b n) 0 = n ∧ (∀ d, d ∈ digits fuel b n → 0 ≤ d < b).
Proof.
  intros Hb. revert n. induction fuel as [|f IH]; intros n Hn; cbn [digits].
  { cbn in Hn. split; [cbn; lia|]. intros d Hd. by apply elem_of_nil in Hd. }
  case_decide as Hlt.
  - split; [cbn; lia|]. intros d ->%list_elem_of_singleton. lia.
  - rewrite Nat2Z.inj_succ, Z.pow_succ_r in Hn by lia.
    destruct (IH (n / b)) as [Hv Hd].
    { split; [apply Z.div_pos; lia|]. apply Z.div_lt_upper_bound; lia. }
    rewrite digits_value_snoc, Hv. split; [pose proof (Z.div_mod n b); lia|].
    intros d [?| ->%list_elem_of_singleton]%elem_of_app; [auto|apply Z.mod_pos_bound; lia].
Qed.

(** Digits are no space, sign or 0x. *)
Lemma no_prefix ds (f : Z → Z) :
  (∀ d, d ∈ ds → digit_val (f d) = Some d) →
  take_sign (skip_space (f <$> ds)) = (false, f <$> ds) ∧ take_0x (f <$> ds) = f <$> ds.
Proof.
  intros Hd.
  assert (∀ c d, digit_val c = Some d → 48 ≤ c ≤ 102 ∧ c ≠ 88) as Hc.
  { intros c d. unfold digit_val. repeat case_decide; [lia..|done]. }
  split.
  - destruct ds as [|d ds]; [done|]. cbn. destruct (Hc (f d) d) as [? ?]; [apply Hd; left|].
    unfold is_space. rewrite bool_decide_eq_false_2 by lia. cbn.
    by rewrite !decide_False by lia.
  - destruct ds as [|d [|d2 [|d3 ds]]]; try done. cbn. rewrite decide_False; [done|].
    intros (_ & Hx & _). destruct (Hc (f d2) d2) as [? ?]; [apply Hd; right; left|]. lia.
Qed.

Lemma strtoul16_digits ds (f : Z → Z) :
  (∀ d, d ∈ ds → digit_val (f d) = Some d ∧ 0 ≤ d < 16) → digits_value 16 ds 0 < 2 ^ 64 →
  strtoul16 (f <$> ds) = digits_value 16 ds 0.
Proof.
  intros Hd Hv. unfold strtoul16. destruct (no_prefix ds f) as [-> ->]; [intros; by apply Hd|].
  rewrite <- (app_nil_r (f <$> ds)), parse_digits_map by (try done; intros d ?%Hd; naive_solver lia).
  cbn. lia.
Qed.

Lemma strtoul16_print_x n : 0 ≤ n < 2 ^ 32 → strtoul16 (print_x n) = n.
Proof.
  intros Hn. destruct (digits_spec 8 16 n) as [Hv Hd]; [lia|by change (16 ^ Z.of_nat 8) with (2 ^ 32)|].
  unfold print_x. rewrite strtoul16_digits; [done| |lia].
  intros d Hin. specialize (Hd d Hin). by rewrite digit_val_lower.
Qed.

Lemma strtoul16_id n : 0 ≤ n < 2 ^ 32 → strtoul16 (drop 1 (id_to_hex n)) = n.
Proof.
  intros Hn. unfold id_to_hex. cbn [skipn drop].
  set (ds := (λ i, Z.land (Z.shiftr n ((7 - i) * 4)) 0xf) <$> [0; 1; 2; 3; 4; 5; 6; 7]).
  assert ((λ i, upper_digit (Z.land (Z.shiftr n ((7 - i) * 4)) 0xf)) <$> [0; 1; 2; 3; 4; 5; 6; 7]
    = upper_digit <$> ds) as -> by done.
  assert (∀ k, 0 ≤ k → Z.land (Z.shiftr n k) 0xf = (n / 2 ^ k) `mod` 16) as Hk.
  { intros k Hk. change 0xf with (2 ^ 4 - 1). rewrite land_ones_mod, Z.shiftr_div_pow2 by lia. done. }
  assert (digits_value 16 ds 0 = n) as Hv.
  { unfold ds. cbn -[Z.shiftr Z.land]. rewrite !Hk by lia. cbn -[Z.div Z.modulo Z.mul].
    Z.to_euclidean_division_equations. lia. }
  transitivity (digits_value 16 ds 0); [|exact Hv]. apply strtoul16_digits; [|lia].
  intros d (i & -> & Hi)%list_elem_of_fmap.
  assert (0 ≤ (7 - i) * 4) by (repeat (apply elem_of_cons in Hi as [->|Hi]; [lia|]); by apply elem_of_nil in Hi).
  rewrite Hk by done. pose proof (Z.mod_pos_bound (n / 2 ^ ((7 - i) * 4)) 16).
  split; [apply digit_val_upper|]; lia.
Qed.
