(* ===== verification/Server.v ===== *)
(** * Services: skynet-src/skynet_server.c, skynet_harbor.c, skynet_error.c,
      skynet_monitor.c

    A node: the contexts with their reference counts, the message queues, the
    handle storage and the memory blocks messages own. The service modules are
    parameters: what their init and callback functions do to the node. The
    theorems follow a message from [skynet_send] to the destination's queue and
    show who owns its data, and give the launch of a service on both outcomes. *)
From Stdlib Require Import String.
From stdpp Require Import functions base numbers list sets gmap.
From S2P Require Import Prelude CString Format Mq Handle.

(** skynet.h *)
Definition PTYPE_TEXT : Z := 0.
Definition PTYPE_CLIENT : Z := 3.
Definition PTYPE_SYSTEM : Z := 4.
Definition PTYPE_HARBOR : Z := 5.
Definition PTYPE_ERROR : Z := 7.
Definition PTYPE_TAG_DONTCOPY : Z := 0x10000.
Definition PTYPE_TAG_ALLOCSESSION : Z := 0x20000.
(** skynet_harbor.h *)
Definition GLOBALNAME_LENGTH : nat := 16.

(** [struct skynet_context]; [c_cb] and [c_logfile] say whether the pointer is set. *)
Record skynet_context : Type := mk_ctx {
  c_cb : bool;
  c_queue : Z;
  c_logfile : bool;
  c_result : cstring;
  c_handle : Z;
  c_session_id : Z;
  c_ref : Z;
  c_init : bool;
  c_endless : bool }.

(** An allocated block: bytes, a [struct remote_message] with the name or the handle it is
    addressed to, or a [struct skynet_socket_message] with the text behind it. *)
Inductive block : Type :=
| Bytes (l : list Z)
| Remote (rname : cstring) (rhandle : Z) (message : Z) (rsz : Z)
| SocketMessage (type id ud buffer : Z) (text : list Z).

(** The whole node. Contexts, queues and blocks are named by their addresses. *)
Record node : Type := mk_node {
  ctxs : gmap Z skynet_context;
  mq : world;
  st : handle_storage;
  mem : gmap Z block;
  total : Z;
  monitor_exit : Z;
  REMOTE : option Z;
  HARBOR : Z;
  logger : Z }.

Definition with_ctxs (N : node) (x : gmap Z skynet_context) : node :=
  mk_node x (mq N) (st N) (mem N) (total N) (monitor_exit N) (REMOTE N) (HARBOR N) (logger N).
Definition with_mq (N : node) (x : world) : node :=
  mk_node (ctxs N) x (st N) (mem N) (total N) (monitor_exit N) (REMOTE N) (HARBOR N) (logger N).
Definition with_st (N : node) (x : handle_storage) : node :=
  mk_node (ctxs N) (mq N) x (mem N) (total N) (monitor_exit N) (REMOTE N) (HARBOR N) (logger N).
Definition with_mem (N : node) (x : gmap Z block) : node :=
  mk_node (ctxs N) (mq N) (st N) x (total N) (monitor_exit N) (REMOTE N) (HARBOR N) (logger N).
Definition with_total (N : node) (x : Z) : node :=
  mk_node (ctxs N) (mq N) (st N) (mem N) x (monitor_exit N) (REMOTE N) (HARBOR N) (logger N).
Definition with_remote (N : node) (x : option Z) : node :=
  mk_node (ctxs N) (mq N) (st N) (mem N) (total N) (monitor_exit N) x (HARBOR N) (logger N).
Definition with_logger (N : node) (x : Z) : node :=
  mk_node (ctxs N) (mq N) (st N) (mem N) (total N) (monitor_exit N) (REMOTE N) (HARBOR N) x.

Definition set_ref (x : skynet_context) (r : Z) : skynet_context :=
  mk_ctx (c_cb x) (c_queue x) (c_logfile x) (c_result x) (c_handle x) (c_session_id x) r
    (c_init x) (c_endless x).
Definition set_session (x : skynet_context) (s : Z) : skynet_context :=
  mk_ctx (c_cb x) (c_queue x) (c_logfile x) (c_result x) (c_handle x) s (c_ref x)
    (c_init x) (c_endless x).
Definition set_handle (x : skynet_context) (h : Z) : skynet_context :=
  mk_ctx (c_cb x) (c_queue x) (c_logfile x) (c_result x) h (c_session_id x) (c_ref x)
    (c_init x) (c_endless x).
Definition set_queue (x : skynet_context) (q : Z) : skynet_context :=
  mk_ctx (c_cb x) q (c_logfile x) (c_result x) (c_handle x) (c_session_id x) (c_ref x)
    (c_init x) (c_endless x).
Definition set_init (x : skynet_context) (b : bool) : skynet_context :=
  mk_ctx (c_cb x) (c_queue x) (c_logfile x) (c_result x) (c_handle x) (c_session_id x) (c_ref x)
    b (c_endless x).
Definition set_endless (x : skynet_context) (b : bool) : skynet_context :=
  mk_ctx (c_cb x) (c_queue x) (c_logfile x) (c_result x) (c_handle x) (c_session_id x) (c_ref x)
    (c_init x) b.
Definition set_cb (x : skynet_context) (b : bool) : skynet_context :=
  mk_ctx b (c_queue x) (c_logfile x) (c_result x) (c_handle x) (c_session_id x) (c_ref x)
    (c_init x) (c_endless x).

Definition get_ctx (N : node) (c : Z) : result skynet_context := of_option UseAfterFree (ctxs N !! c).
Definition put_ctx (N : node) (c : Z) (x : skynet_context) : node :=
  with_ctxs N (<[c := x]> (ctxs N)).

(** The handle stored in a context, as the handle storage reads it. *)
Definition ctx_handle (N : node) (c : Z) : Z :=
  match ctxs N !! c with Some x => c_handle x | None => 0 end.

(** An address no block has; 0 is NULL. *)
Definition skynet_malloc (N : node) (b : block) : Z * node :=
  let p := fresh (dom (mem N) ∪ {[0]}) in (p, with_mem N (<[p := b]> (mem N))).
Definition skynet_free (N : node) (p : Z) : result node :=
  if decide (p = 0) then Ok N
  else match mem N !! p with
       | Some _ => Ok (with_mem N (delete p (mem N)))
       | None => Err UseAfterFree
       end.

(** ** Reference counts *)

Definition skynet_context_total (N : node) : Z := total N.
Definition context_inc (N : node) : node := with_total N (total N + 1).
Definition context_dec (N : node) : node := with_total N (total N - 1).

Definition skynet_context_grab (N : node) (c : Z) : result node :=
  x ← get_ctx N c;
  Ok (put_ctx N c (set_ref x (c_ref x + 1))).

Definition skynet_context_reserve (N : node) (c : Z) : result node :=
  N ← skynet_context_grab N c;
  Ok (context_dec N).

Definition delete_context (N : node) (c : Z) : result node :=
  x ← get_ctx N c;
  w ← skynet_mq_mark_release (mq N) (c_queue x);
  Ok (context_dec (with_ctxs (with_mq N w) (delete c (ctxs N)))).

(** The result says whether the context is still there. *)
Definition skynet_context_release (N : node) (c : Z) : result (bool * node) :=
  x ← get_ctx N c;
  let r := c_ref x - 1 in
  let N := put_ctx N c (set_ref x r) in
  if decide (r = 0) then N ← delete_context N c; Ok (false, N) else Ok (true, N).

(** skynet_handle.c: the lookup and the reference taken under the read lock. *)
Definition skynet_handle_grab (N : node) (h : Z) : result (option Z * node) :=
  o ← handle_lookup (ctx_handle N) (st N) h;
  match o with
  | Some c => N ← skynet_context_grab N c; Ok (Some c, N)
  | None => Ok (None, N)
  end.

(** skynet_handle.c: the retired context is released after the unlock. *)
Definition handle_retire (N : node) (h : Z) : result (Z * node) :=
  r ← skynet_handle_retire (ctx_handle N) (st N) h;
  let N := with_st N r.2 in
  match r.1.2 with
  | Some c => rN ← skynet_context_release N c; Ok (r.1.1, rN.2)
  | None => Ok (r.1.1, N)
  end.

(** ** Pushing and sending *)

Definition skynet_context_push (N : node) (h : Z) (msg : skynet_message) : result (Z * node) :=
  r ← skynet_handle_grab N h;
  match r.1 with
  | None => Ok (-1, r.2)
  | Some c =>
      let N := r.2 in
      x ← get_ctx N c;
      w ← skynet_mq_push (mq N) (c_queue x) msg;
      r ← skynet_context_release (with_mq N w) c;
      Ok (0, r.2)
  end.

Definition skynet_context_endless (N : node) (h : Z) : result node :=
  r ← skynet_handle_grab N h;
  match r.1 with
  | None => Ok r.2
  | Some c =>
      x ← get_ctx r.2 c;
      r ← skynet_context_release (put_ctx r.2 c (set_endless x true)) c;
      Ok r.2
  end.

(** skynet_error.c with the formatted text: a TEXT message to the logger, whose
    handle is cached. *)
Definition skynet_error (N : node) (context : option Z) (text : cstring) : result node :=
  N ← (if decide (logger N = 0) then
         h ← skynet_handle_findname (st N) (lit "logger"); Ok (with_logger N h)
       else Ok N);
  if decide (logger N = 0) then Ok N
  else
    let r := skynet_malloc N (Bytes (text ++ [0])) in
    src ← (match context with None => Ok 0 | Some c => x ← get_ctx r.2 c; Ok (c_handle x) end);
    r' ← skynet_context_push r.2 (logger N)
      {| source := src; session := 0; data := r.1;
         sz := Z.lor (zlen text) (Z.shiftl PTYPE_TEXT MESSAGE_TYPE_SHIFT) |};
    Ok r'.2.

Definition skynet_context_newsession (N : node) (c : Z) : result (Z * node) :=
  x ← get_ctx N c;
  s ← c_int (c_session_id x + 1);
  if decide (s ≤ 0) then Ok (1, put_ctx N c (set_session x 1))
  else Ok (s, put_ctx N c (set_session x s)).

(** [sz] bytes of a block of bytes. *)
Definition read_bytes (N : node) (p n : Z) : result (list Z) :=
  match mem N !! p with
  | Some (Bytes l) => if decide (0 ≤ n ≤ zlen l) then Ok (take (Z.to_nat n) l) else Err OutOfBounds
  | _ => Err UseAfterFree
  end.

(** [_filter_args]: the session, the data and the size to put in the message. *)
Definition filter_args (N : node) (context : option Z) (type sess dat size : Z) :
    result (Z * Z * Z * node) :=
  let needcopy := bool_decide (Z.land type PTYPE_TAG_DONTCOPY = 0) in
  let allocsession := bool_decide (Z.land type PTYPE_TAG_ALLOCSESSION ≠ 0) in
  let type := Z.land type 0xff in
  sN ← (if allocsession then
          c_assert (bool_decide (sess = 0));;
          c ← of_option NullDeref context;
          skynet_context_newsession N c
        else Ok (sess, N));
  dN ← (if needcopy && bool_decide (dat ≠ 0) then
          l ← read_bytes sN.2 dat size;
          Ok (skynet_malloc sN.2 (Bytes (l ++ [0])))
        else Ok (dat, sN.2));
  Ok (sN.1, dN.1, Z.lor size (u64 (Z.shiftl type MESSAGE_TYPE_SHIFT)), dN.2).

Definition skynet_context_send (N : node) (c dat size src type sess : Z) : result node :=
  x ← get_ctx N c;
  w ← skynet_mq_push (mq N) (c_queue x)
    {| source := src; session := sess; data := dat;
       sz := Z.lor size (u64 (Z.shiftl type MESSAGE_TYPE_SHIFT)) |};
  Ok (with_mq N w).

(** ** skynet_harbor.c *)

(** sizeof(struct remote_message) with 64-bit pointers. *)
Definition sizeof_remote_message : Z := 40.

Definition skynet_harbor_send (N : node) (p src sess : Z) : result node :=
  match mem N !! p with
  | Some (Remote nm h message size) =>
      let type := Z.shiftr size MESSAGE_TYPE_SHIFT in
      let N := with_mem N (<[p := Remote nm h message (Z.land size MESSAGE_TYPE_MASK)]> (mem N)) in
      c_assert (bool_decide (type ≠ PTYPE_SYSTEM ∧ type ≠ PTYPE_HARBOR));;
      c ← of_option AssertFailed (REMOTE N);
      skynet_context_send N c p sizeof_remote_message src type sess
  | _ => Err UseAfterFree
  end.

Definition skynet_harbor_message_isremote (N : node) (h : Z) : result bool :=
  c_assert (bool_decide (HARBOR N ≠ 2 ^ 32 - 1));;
  let hb := Z.land h (u32 (Z.lnot HANDLE_MASK)) in
  Ok (bool_decide (hb ≠ HARBOR N ∧ hb ≠ 0)).

Definition skynet_harbor_init (N : node) (harbor_id : Z) : node :=
  mk_node (ctxs N) (mq N) (st N) (mem N) (total N) (monitor_exit N) (REMOTE N)
    (u32 (Z.shiftl (u32 harbor_id) HANDLE_REMOTE_SHIFT)) (logger N).
Definition skynet_harbor_start (N : node) (c : Z) : result node :=
  N ← skynet_context_reserve N c;
  Ok (with_remote N (Some c)).
Definition skynet_harbor_exit (N : node) : result node :=
  match REMOTE N with
  | None => Ok N
  | Some c => r ← skynet_context_release (with_remote N None) c; Ok r.2
  end.

Definition skynet_isremote (N : node) (h : Z) : result (bool * Z) :=
  r ← skynet_harbor_message_isremote N h;
  Ok (r, Z.shiftr h HANDLE_REMOTE_SHIFT).

(** [skynet_send]: the C return value and the node. *)
Definition skynet_send (N : node) (context : option Z) (src dest type sess dat size : Z) :
    result (Z * node) :=
  if decide (Z.land size MESSAGE_TYPE_MASK ≠ size) then
    N ← skynet_error N context (lit "The message to " ++ print_x dest ++ lit " is too large");
    N ← (if decide (Z.land type PTYPE_TAG_DONTCOPY ≠ 0) then skynet_free N dat else Ok N);
    Ok (-1, N)
  else
    r ← filter_args N context type sess dat size;
    let '(sess, dat, size, N) := r in
    src ← (if decide (src = 0) then
             c ← of_option NullDeref context; x ← get_ctx N c; Ok (c_handle x)
           else Ok src);
    if decide (dest = 0) then Ok (sess, N)
    else
      rem ← skynet_harbor_message_isremote N dest;
      if (rem : bool) then
        let pN := skynet_malloc N (Remote [] dest dat size) in
        N ← skynet_harbor_send pN.2 pN.1 src sess;
        Ok (sess, N)
      else
        r ← skynet_context_push N dest
          {| source := src; session := sess; data := dat; sz := size |};
        if decide (r.1 ≠ 0) then N ← skynet_free r.2 dat; Ok (-1, N)
        else Ok (sess, r.2).

(** [copy_name]: at most 16 bytes, padded with NULs. *)
Definition copy_name (addr : cstring) : cstring :=
  take GLOBALNAME_LENGTH addr ++ replicate (GLOBALNAME_LENGTH - length addr) 0.

Definition skynet_sendname (N : node) (context : option Z) (src : Z) (addr : cstring)
    (type sess dat size : Z) : result (Z * node) :=
  src ← (if decide (src = 0) then
           c ← of_option NullDeref context; x ← get_ctx N c; Ok (c_handle x)
         else Ok src);
  match addr with
  | c :: rest =>
      if decide (c = 58) then skynet_send N context src (u32 (strtoul16 rest)) type sess dat size
      else if decide (c = 46) then
        des ← skynet_handle_findname (st N) rest;
        if decide (des = 0) then
          N ← (if decide (Z.land type PTYPE_TAG_DONTCOPY ≠ 0) then skynet_free N dat else Ok N);
          Ok (-1, N)
        else skynet_send N context src des type sess dat size
      else
        r ← filter_args N context type sess dat size;
        let '(sess, dat, size, N) := r in
        let pN := skynet_malloc N (Remote (copy_name addr) 0 dat size) in
        N ← skynet_harbor_send pN.2 pN.1 src sess;
        Ok (sess, N)
  | [] =>
      r ← filter_args N context type sess dat size;
      let '(sess, dat, size, N) := r in
      let pN := skynet_malloc N (Remote (copy_name []) 0 dat size) in
      N ← skynet_harbor_send pN.2 pN.1 src sess;
      Ok (sess, N)
  end.

Definition skynet_queryname (N : node) (context : option Z) (nm : cstring) : result (Z * node) :=
  match nm with
  | c :: rest =>
      if decide (c = 58) then Ok (u32 (strtoul16 rest), N)
      else if decide (c = 46) then h ← skynet_handle_findname (st N) rest; Ok (h, N)
      else
        N ← skynet_error N context (lit "Don't support query global name " ++ nm);
        Ok (0, N)
  | [] =>
      N ← skynet_error N context (lit "Don't support query global name " ++ nm);
      Ok (0, N)
  end.

Definition skynet_context_handle (N : node) (c : Z) : result Z :=
  x ← get_ctx N c; Ok (c_handle x).
Definition skynet_callback (N : node) (c : Z) : result node :=
  x ← get_ctx N c; Ok (put_ctx N c (set_cb x true)).

(** [drop_message] for every message of a drained queue: free the data, answer
    the source with an error. *)
Fixpoint drop_messages (N : node) (h : Z) (l : list skynet_message) : result node :=
  match l with
  | [] => Ok N
  | m :: l =>
      N ← skynet_free N (data m);
      c_assert (bool_decide (h ≠ 0));;
      r ← skynet_send N None h (source m) PTYPE_ERROR 0 0 0;
      drop_messages r.2 h l
  end.

(** [skynet_mq_release(q, drop_message, &d)]. *)
Definition mq_release (N : node) (q h : Z) : result node :=
  r ← skynet_mq_release (mq N) q;
  drop_messages (with_mq N r.2) h r.1.

(** skynet_monitor.c *)
Record skynet_monitor : Type := mk_monitor {
  version : Z; check_version : Z; sm_source : Z; sm_destination : Z }.
Definition skynet_monitor_new : skynet_monitor := mk_monitor 0 0 0 0.
Definition skynet_monitor_trigger (sm : skynet_monitor) (src dest : Z) : skynet_monitor :=
  mk_monitor (s32 (version sm + 1)) (check_version sm) src dest.
Definition skynet_monitor_check (N : node) (sm : skynet_monitor) : result (skynet_monitor * node) :=
  if decide (version sm = check_version sm) then
    if decide (sm_destination sm ≠ 0) then
      N ← skynet_context_endless N (sm_destination sm);
      N ← skynet_error N None (lit "A message from [ :" ++ print_08x (sm_source sm) ++ lit " ] to [ :" ++
        print_08x (sm_destination sm) ++ lit " ] maybe in an endless loop (version = " ++
        print_d (version sm) ++ lit ")");
      Ok (sm, N)
    else Ok (sm, N)
  else Ok (mk_monitor (version sm) (version sm) (sm_source sm) (sm_destination sm), N).

(** ** Services *)

Section Services.
(** The service modules: whether a module of that name loads and creates an
    instance, what its init function returns and does to the node, and what the
    callback of a context does with a message; the boolean says that it keeps the
    data. *)
Context (module_create : cstring → option bool)
        (instance_init : node → Z → option cstring → result (Z * node))
        (callback : node → Z → Z → Z → Z → Z → Z → result (bool * node)).

Definition context_dispatch (N : node) (c : Z) (m : skynet_message) : result node :=
  x ← get_ctx N c;
  c_assert (c_init x);;
  let type := Z.shiftr (sz m) MESSAGE_TYPE_SHIFT in
  let size := Z.land (sz m) MESSAGE_TYPE_MASK in
  (if c_cb x then Ok tt else Err NullDeref);;
  r ← callback N c type (session m) (source m) (data m) size;
  if (r.1 : bool) then Ok r.2 else skynet_free r.2 (data m).

(** [skynet_context_new]: the address of the context, or NULL. *)
Definition skynet_context_new (N : node) (nm : cstring) (param : option cstring) :
    result (option Z * node) :=
  match module_create nm with
  | None | Some false => Ok (None, N)
  | Some true =>
      let c := fresh (dom (ctxs N) ∪ {[0]}) in
      let q := fresh (dom (mqs (mq N)) ∪ {[0]}) in
      let x := mk_ctx false 0 false [] 0 0 2 false false in
      let N := put_ctx N c x in
      r ← skynet_handle_register (ctx_handle N) (st N) c;
      let x := set_queue (set_handle x r.1) q in
      let N := with_mq (with_st (put_ctx N c x) r.2) (put_mq (mq N) q (skynet_mq_create r.1)) in
      let N := context_inc N in
      iN ← instance_init N c param;
      let N := iN.2 in
      if decide (iN.1 = 0) then
        rN ← skynet_context_release N c;
        N ← (if (rN.1 : bool) then x ← get_ctx rN.2 c; Ok (put_ctx rN.2 c (set_init x true))
             else Ok rN.2);
        w ← skynet_globalmq_push (mq N) q;
        let N := with_mq N w in
        if (rN.1 : bool) then
          N ← skynet_error N (Some c) (lit "LAUNCH " ++ nm ++ lit " " ++ default [] param);
          Ok (Some c, N)
        else Ok (None, N)
      else
        N ← skynet_error N (Some c) (lit "FAILED launch " ++ nm);
        x ← get_ctx N c;
        let h := c_handle x in
        rN ← skynet_context_release N c;
        tN ← handle_retire rN.2 h;
        N ← mq_release tN.2 q h;
        Ok (None, N)
  end.

(** [skynet_context_dispatchall]: the fuel bounds the messages. *)
Fixpoint skynet_context_dispatchall (fuel : nat) (N : node) (c : Z) : result node :=
  x ← get_ctx N c;
  r ← world_pop (mq N) (c_queue x);
  match r.1 with
  | None => Ok (with_mq N r.2)
  | Some m =>
      match fuel with
      | O => Err OutOfFuel
      | S f => N ← context_dispatch (with_mq N r.2) c m; skynet_context_dispatchall f N c
      end
  end.

(** One message of the loop of [skynet_context_message_dispatch]: the overload
    report, the monitor, and the callback or, without one, the loss of the data. *)
Definition dispatch_one (N : node) (sm : skynet_monitor) (q c h : Z) (m : skynet_message) :
    result (skynet_monitor * node) :=
  mqv ← get_mq (mq N) q;
  let o := skynet_mq_overload mqv in
  let N := with_mq N (put_mq (mq N) q o.2) in
  N ← (if decide (o.1 ≠ 0) then
         skynet_error N (Some c) (lit "May overload, message queue length = " ++ print_d o.1)
       else Ok N);
  let sm := skynet_monitor_trigger sm (source m) h in
  x ← get_ctx N c;
  N ← (if c_cb x then context_dispatch N c m else skynet_free N (data m));
  Ok (skynet_monitor_trigger sm 0 0, N).

(** The loop; [None] when a pop found the queue empty. *)
Fixpoint dispatch_loop (fuel : nat) (N : node) (sm : skynet_monitor) (q c h weight i n : Z) :
    result (option unit * skynet_monitor * node) :=
  if decide (i < n) then
    match fuel with
    | O => Err OutOfFuel
    | S f =>
        r ← world_pop (mq N) q;
        let N := with_mq N r.2 in
        match r.1 with
        | None => Ok (None, sm, N)
        | Some m =>
            mqv ← get_mq (mq N) q;
            let n := if decide (i = 0 ∧ 0 ≤ weight) then Z.shiftr (skynet_mq_length mqv) weight else n in
            r ← dispatch_one N sm q c h m;
            dispatch_loop f r.2 r.1 q c h weight (i + 1) n
        end
    end
  else Ok (Some tt, sm, N).

(** [skynet_context_message_dispatch]: the queue to work on next. *)
Definition skynet_context_message_dispatch (N : node) (sm : skynet_monitor) (q : option Z)
    (weight : Z) : result (option Z * skynet_monitor * node) :=
  qN ← (match q with
        | Some q => Ok (Some q, N)
        | None => r ← skynet_globalmq_pop (mq N); Ok (r.1, with_mq N r.2)
        end);
  let N := qN.2 in
  match qN.1 with
  | None => Ok (None, sm, N)
  | Some q =>
      mqv ← get_mq (mq N) q;
      let h := skynet_mq_handle mqv in
      g ← skynet_handle_grab N h;
      let N := g.2 in
      match g.1 with
      | None =>
          N ← mq_release N q h;
          r ← skynet_globalmq_pop (mq N);
          Ok (r.1, sm, with_mq N r.2)
      | Some c =>
          l ← dispatch_loop (S (Z.to_nat (skynet_mq_length mqv))) N sm q c h weight 0 1;
          let '(fin, sm, N) := l in
          match fin with
          | None =>
              rN ← skynet_context_release N c;
              r ← skynet_globalmq_pop (mq rN.2);
              Ok (r.1, sm, with_mq rN.2 r.2)
          | Some _ =>
              x ← get_ctx N c;
              c_assert (bool_decide (c_queue x = q));;
              r ← skynet_globalmq_pop (mq N);
              let N := with_mq N r.2 in
              qN ← (match r.1 with
                    | Some nq => w ← skynet_globalmq_push (mq N) q; Ok (nq, with_mq N w)
                    | None => Ok (q, N)
                    end);
              rN ← skynet_context_release qN.2 c;
              Ok (Some qN.1, sm, rN.2)
          end
      end
  end.
End Services.

(** ** The invariant of a node *)

Record node_ok (N : node) (ids : list Z) : Prop := {
  no_gq : gq_repr (mq N) ids;
  no_slots : slots_wf (ctx_handle N) (st N);
  no_names : ∃ l, names_repr (st N) l;
  no_live : ∀ (i : nat) c, slot (st N) !! i = Some (Some c) → is_Some (ctxs N !! c);
  no_ref : ∀ c x, ctxs N !! c = Some x → 1 ≤ c_ref x;
  no_queue : ∀ c x, ctxs N !! c = Some x → ∃ q l, strip (mq N) !! c_queue x = Some q ∧
    mq_repr q l ∧ release q = 0 ∧ (in_global q ≠ MQ_IN_GLOBAL → c_queue x ∉ ids);
  no_inj : ∀ c c' x x', ctxs N !! c = Some x → ctxs N !! c' = Some x' →
    c_queue x = c_queue x' → c = c' }.

(** The messages waiting in the queue of a context. *)
Definition waiting (N : node) (c : Z) (l : list skynet_message) : Prop :=
  ∃ x q, ctxs N !! c = Some x ∧ strip (mq N) !! c_queue x = Some q ∧ mq_repr q l.

(** Room for [k] more messages in every queue. *)
Definition room (N : node) (k : Z) : Prop := ∀ c l, waiting N c l → zlen l + k < 2 ^ 30.

(** A change of queues only: which contexts wait for what is the rest of the
    state. *)
Lemma set_ref_id x : set_ref x (c_ref x) = x.
Proof. by destruct x. Qed.
Lemma put_ctx_back N w c x y :
  ctxs N !! c = Some x → put_ctx (with_mq (put_ctx N c y) w) c x = with_mq N w.
Proof.
  intros Hx. destruct N. unfold put_ctx, with_mq, with_ctxs. cbn in *. f_equal.
  rewrite insert_insert_eq. by apply insert_id.
Qed.
Lemma ctx_handle_put N c x y :
  ctxs N !! c = Some x → c_handle y = c_handle x → ∀ c', ctx_handle (put_ctx N c y) c' = ctx_handle N c'.
Proof.
  intros Hx Hh c'. unfold ctx_handle, put_ctx, with_ctxs. cbn. destruct (decide (c' = c)) as [->|Hne].
  - by rewrite lookup_insert_eq, Hx.
  - by rewrite lookup_insert_ne.
Qed.

Lemma waiting_app N c l l' : waiting N c l → waiting N c l' → l = l'.
Proof.
  intros (x & q & Hx & Hq & Hr) (x' & q' & Hx' & Hq' & Hr'). simplify_eq.
  pose proof (repr_length _ _ Hr) as E. rewrite (repr_length _ _ Hr') in E.
  apply list_eq. intros i. destruct (decide (i < length l)%nat) as [Hi|Hi].
  - destruct (lookup_lt_is_Some_2 l i Hi) as [m Hm].
    destruct (lookup_lt_is_Some_2 l' i) as [m' Hm']; [unfold zlen in E; lia|].
    pose proof (repr_data _ _ Hr _ _ Hm). pose proof (repr_data _ _ Hr' _ _ Hm'). congruence.
  - rewrite !lookup_ge_None_2 by (unfold zlen in E; lia). done.
Qed.

(** Appending to the queue of one context. *)
Lemma push_queue N ids c x l m :
  node_ok N ids → ctxs N !! c = Some x → waiting N c l → zlen l + 1 < 2 ^ 30 →
  ∃ w' ids', skynet_mq_push (mq N) (c_queue x) m = Ok w' ∧ node_ok (with_mq N w') ids' ∧
    waiting (with_mq N w') c (l ++ [m]) ∧
    ∀ c' l', c' ≠ c → waiting N c' l' → waiting (with_mq N w') c' l'.
Proof.
  intros O Hx (x' & q & Hx' & Hq & Hr) Hl. simplify_eq.
  destruct (no_queue _ _ O c x Hx) as (q0 & l0 & Hq0 & _ & Hre & Hin). simplify_eq.
  assert (in_global q = 0 → c_queue x ∉ ids) as Hin0 by (intros E; apply Hin; rewrite E; done).
  destruct (mq_push_spec _ _ _ _ _ m (no_gq _ _ O) Hq Hr Hl Hin0)
    as (w' & q' & -> & Hs & Hg & Hr' & _ & Hre' & Hin').
  eexists w', _. split; [done|].
  assert (∀ c' y, ctxs N !! c' = Some y → c' ≠ c → strip w' !! c_queue y = strip (mq N) !! c_queue y)
    as Hother.
  { intros c' y Hy Hne. rewrite Hs, lookup_insert_ne; [done|]. intros E.
    apply Hne. symmetry. by eapply (no_inj _ _ O). }
  split; [|split].
  - destruct O as [Og Os On Ol Oref Oq Oi]. split; cbn; [exact Hg|exact Os|exact On|exact Ol|exact Oref| |exact Oi].
    intros c' y Hy. destruct (decide (c' = c)) as [->|Hne].
    + simplify_eq. exists q', (l ++ [m]). rewrite Hs, lookup_insert_eq.
      split; [done|]. split; [done|]. split; [congruence|]. rewrite Hin'. case_decide; [done|exact Hin].
    + rewrite (Hother c' y Hy Hne). destruct (Oq c' y Hy) as (q2 & l2 & H1 & H2 & H3 & H4).
      exists q2, l2. split; [done|]. split; [done|]. split; [done|]. intros E. specialize (H4 E).
      case_decide; [|done]. rewrite not_elem_of_app. split; [done|].
      rewrite list_elem_of_singleton. intros E2. apply Hne. by eapply Oi.
  - exists x, q'. cbn. split; [done|]. rewrite Hs, lookup_insert_eq. done.
  - intros c' l' Hne (y & q2 & Hy & Hq2 & Hr2). exists y, q2. cbn. split; [done|].
    by rewrite (Hother c' y Hy Hne).
Qed.

(** A registered handle finds a live context. *)
Lemma lookup_live N ids h c :
  node_ok N ids → handle_lookup (ctx_handle N) (st N) h = Ok (Some c) →
  ∃ x l, ctxs N !! c = Some x ∧ waiting N c l ∧ c_handle x = h.
Proof.
  intros O Hl. apply (handle_lookup_spec _ _ (no_slots _ _ O)) in Hl as [Hs Hh].
  destruct (no_live _ _ O _ _ Hs) as [x Hx]. destruct (no_queue _ _ O c x Hx) as (q & l & Hq & Hr & _).
  exists x, l. split; [done|]. split; [by exists x, q|]. unfold ctx_handle in Hh. by rewrite Hx in Hh.
Qed.

Lemma get_ctx_lookup N c x : ctxs N !! c = Some x → get_ctx N c = Ok x.
Proof. intros H. unfold get_ctx. by rewrite H. Qed.
Lemma get_put_ctx N c x : get_ctx (put_ctx N c x) c = Ok x.
Proof. apply get_ctx_lookup. cbn. apply lookup_insert_eq. Qed.

(** A release that leaves references behind. *)
Lemma release_keeps N c x :
  ctxs N !! c = Some x → 2 ≤ c_ref x →
  skynet_context_release N c = Ok (true, put_ctx N c (set_ref x (c_ref x - 1))).
Proof.
  intros Hx Hr. unfold skynet_context_release. rewrite (get_ctx_lookup _ _ _ Hx), bind_Ok.
  by rewrite decide_False by lia.
Qed.

(** [skynet_context_push] appends to the queue of a registered service and leaves
    the references as they were; for any other handle it does nothing. *)
Lemma context_push_spec N ids h c l m :
  node_ok N ids → handle_lookup (ctx_handle N) (st N) h = Ok (Some c) → waiting N c l →
  zlen l + 1 < 2 ^ 30 →
  ∃ w' ids', skynet_context_push N h m = Ok (0, with_mq N w') ∧ node_ok (with_mq N w') ids' ∧
    waiting (with_mq N w') c (l ++ [m]) ∧
    ∀ c' l', c' ≠ c → waiting N c' l' → waiting (with_mq N w') c' l'.
Proof.
  intros O Hl Hw Hroom. destruct (lookup_live N ids h c O Hl) as (x & _ & Hx & _ & _).
  destruct (push_queue N ids c x l m O Hx Hw Hroom) as (w' & ids' & Ep & O' & Hw' & Ho).
  exists w', ids'. split; [|done]. unfold skynet_context_push, skynet_handle_grab.
  rewrite Hl, bind_Ok. unfold skynet_context_grab.
  rewrite (get_ctx_lookup _ _ _ Hx), !bind_Ok. cbn [fst snd]. rewrite get_put_ctx, bind_Ok.
  change (mq (put_ctx N c (set_ref x (c_ref x + 1)))) with (mq N).
  change (c_queue (set_ref x (c_ref x + 1))) with (c_queue x). rewrite Ep, bind_Ok.
  pose proof (no_ref _ _ O c x Hx).
  rewrite (release_keeps _ c (set_ref x (c_ref x + 1))), bind_Ok;
    [|cbn; apply lookup_insert_eq|cbn; lia].
  cbn [fst snd]. do 2 f_equal.
  replace (set_ref (set_ref x (c_ref x + 1)) (c_ref (set_ref x (c_ref x + 1)) - 1)) with x
    by (destruct x; unfold set_ref; cbn -[Z.add Z.sub]; f_equal; lia).
  by apply put_ctx_back.
Qed.
Lemma context_push_none N h m :
  handle_lookup (ctx_handle N) (st N) h = Ok None → skynet_context_push N h m = Ok (-1, N).
Proof. intros Hl. unfold skynet_context_push, skynet_handle_grab. by rewrite Hl. Qed.

(** Memory is independent of the queues. *)
Lemma node_ok_mem N ids m : node_ok N ids → node_ok (with_mem N m) ids.
Proof. intros []. by split. Qed.

(** ** Types and sizes share a word *)

Lemma type_mask : MESSAGE_TYPE_MASK = 2 ^ 56 - 1.
Proof. done. Qed.
Lemma pack_size type size :
  0 ≤ size < 2 ^ 56 →
  let s := Z.lor size (u64 (Z.shiftl (Z.land type 0xff) MESSAGE_TYPE_SHIFT)) in
  Z.shiftr s MESSAGE_TYPE_SHIFT = Z.land type 0xff ∧ Z.land s MESSAGE_TYPE_MASK = size ∧
  Z.land size MESSAGE_TYPE_MASK = size.
Proof.
  intros Hs s. change 0xff with (2 ^ 8 - 1) in *. rewrite type_mask.
  assert (0 ≤ Z.land type (2 ^ 8 - 1) < 2 ^ 8) as Ht
    by (rewrite land_ones_mod by lia; apply Z.mod_pos_bound; lia).
  assert (s = size + Z.land type (2 ^ 8 - 1) * 2 ^ 56) as ->.
  { unfold s, MESSAGE_TYPE_SHIFT. rewrite Z.shiftl_mul_pow2 by lia.
    rewrite uwrap_small by lia. apply lor_add_high; lia. }
  unfold MESSAGE_TYPE_SHIFT. rewrite Z.shiftr_div_pow2, !land_ones_mod by lia.
  rewrite Z.div_add, Z.div_small, Z.add_0_l by lia. split; [|split].
  - done.
  - rewrite Z.mod_add, Z.mod_small by lia. done.
  - apply Z.mod_small. lia.
Qed.

(** The node as [skynet_send] leaves the memory and the data it passes on: with
    the copy flag the bytes are duplicated behind a NUL. *)
Definition copies (type dat : Z) : bool :=
  bool_decide (Z.land type PTYPE_TAG_DONTCOPY = 0) && bool_decide (dat ≠ 0).

(** *** The sender

    A source of 0 stands for the service that sends, and with PTYPE_TAG_ALLOCSESSION its
    context gives the message the next session number; a context is passed in both
    cases, and with the tag the caller passes session 0. *)
Definition allocates (type : Z) : bool := bool_decide (Z.land type PTYPE_TAG_ALLOCSESSION ≠ 0).
Definition sender (N : node) (context : option Z) : option skynet_context := c ← context; ctxs N !! c.
Record sender_ok (N : node) (context : option Z) (src type sess : Z) : Prop := {
  so_context : src = 0 ∨ allocates type = true → is_Some (sender N context);
  so_session : allocates type = true → sess = 0;
  so_int : ∀ x, allocates type = true → sender N context = Some x → 0 ≤ c_session_id x < INT_MAX }.
Definition sent_source (N : node) (context : option Z) (src : Z) : Z :=
  if decide (src = 0) then from_option c_handle 0 (sender N context) else src.
Definition sent_session (N : node) (context : option Z) (type sess : Z) : Z :=
  if allocates type then from_option (λ x, c_session_id x + 1) 0 (sender N context) else sess.
(** The contexts behind the send: the sender's session number is the one thing that
    can change. *)
Definition sender_after (N : node) (context : option Z) (type : Z) : gmap Z skynet_context :=
  match context, sender N context with
  | Some c, Some x => if allocates type then <[c := set_session x (c_session_id x + 1)]> (ctxs N) else ctxs N
  | _, _ => ctxs N
  end.

Lemma sender_plain N context src type sess :
  src ≠ 0 → Z.land type PTYPE_TAG_ALLOCSESSION = 0 →
  sender_ok N context src type sess ∧ sent_source N context src = src ∧ sent_session N context type sess = sess ∧
  sender_after N context type = ctxs N.
Proof.
  intros Hs Ha. assert (allocates type = false) as E by (unfold allocates; by rewrite Ha).
  unfold sent_source, sent_session, sender_after. rewrite E, decide_False by done. split; [split; intros; try destruct_or!; congruence|].
  split; [done|]. split; [done|]. destruct context as [c|]; [by destruct (sender N (Some c))|done].
Qed.
(** The contexts a send leaves differ from those before in a session number only. *)
Lemma after_lookup N context type c :
  sender_after N context type !! c = ctxs N !! c ∨
  ∃ x k, ctxs N !! c = Some x ∧ sender_after N context type !! c = Some (set_session x k).
Proof.
  unfold sender_after, sender. destruct context as [c0|]; [|by left]. cbn. destruct (ctxs N !! c0) as [x|] eqn:Hx; [|by left].
  destruct (allocates type); [|by left]. destruct (decide (c = c0)) as [->|Hne]; [|left; by rewrite lookup_insert_ne].
  right. rewrite lookup_insert_eq. by eexists _, _.
Qed.
Lemma after_back N context type c y :
  sender_after N context type !! c = Some y →
  ∃ x, ctxs N !! c = Some x ∧ c_handle x = c_handle y ∧ c_ref x = c_ref y ∧ c_queue x = c_queue y.
Proof. intros Hy. destruct (after_lookup N context type c) as [E|(x & k & Hx & E)]; rewrite E in Hy; [|injection Hy as <-]; eauto. Qed.
Lemma after_forth N context type c x :
  ctxs N !! c = Some x →
  ∃ y, sender_after N context type !! c = Some y ∧ c_handle x = c_handle y ∧ c_ref x = c_ref y ∧ c_queue x = c_queue y.
Proof. intros Hx. destruct (after_lookup N context type c) as [E|(x' & k & Hx' & E)]; rewrite E; simplify_eq; eauto. Qed.
Lemma after_handle N context type c : ctx_handle (with_ctxs N (sender_after N context type)) c = ctx_handle N c.
Proof.
  unfold ctx_handle. cbn [ctxs with_ctxs]. destruct (after_lookup N context type c) as [E|(x & k & Hx & E)]; [by rewrite E|by rewrite E, Hx].
Qed.
(** Only the handles of contexts in a slot matter. *)
Lemma slots_wf_ext f g s :
  (∀ (i : nat) c, slot s !! i = Some (Some c) → f c = g c) → slots_wf f s → slots_wf g s.
Proof.
  intros E [Hsz Hlen Hhb Hix Hsl]. split; try done. intros i c Hi. rewrite <- (E i c Hi). by apply Hsl.
Qed.
Lemma handle_lookup_handles f g s h : (∀ c, f c = g c) → handle_lookup f s h = handle_lookup g s h.
Proof. intros E. unfold handle_lookup. destruct (rd _ _) as [[c|]|]; cbn; [by rewrite E|done..]. Qed.
Lemma node_ok_sender N ids context type : node_ok N ids → node_ok (with_ctxs N (sender_after N context type)) ids.
Proof.
  intros [H1 H2 H3 H4 H5 H6 H7]. split; [done| |done|..].
  - eapply slots_wf_ext; [|exact H2]. intros i c _. by rewrite after_handle.
  - intros i c Hi. destruct (H4 i c Hi) as [x Hx]. by destruct (after_forth N context type c x Hx) as (y & Hy & _).
  - intros c y (x & Hx & _ & <- & _)%after_back. by apply (H5 c).
  - intros c y (x & Hx & _ & _ & <-)%after_back. by apply (H6 c).
  - intros c c' y y' (x & Hx & _ & _ & <-)%after_back (x' & Hx' & _ & _ & <-)%after_back. by apply (H7 c c').
Qed.
Lemma waiting_sender N context type c l : waiting (with_ctxs N (sender_after N context type)) c l ↔ waiting N c l.
Proof.
  split.
  - intros (y & q & (x & Hx & _ & _ & Eq)%after_back & Hq & R). exists x, q. rewrite Eq. done.
  - intros (x & q & Hx & Hq & R). destruct (after_forth N context type c x Hx) as (y & Hy & _ & _ & Eq). exists y, q. rewrite <- Eq. done.
Qed.

Lemma filter_args_spec N context src type sess dat size b :
  sender_ok N context src type sess → 0 ≤ size →
  (copies type dat = true → mem N !! dat = Some (Bytes b) ∧ size ≤ zlen b) →
  ∃ d m', filter_args N context type sess dat size
      = Ok (sent_session N context type sess, d, Z.lor size (u64 (Z.shiftl (Z.land type 0xff) MESSAGE_TYPE_SHIFT)),
            with_mem (with_ctxs N (sender_after N context type)) m') ∧
    if copies type dat then d ≠ 0 ∧ mem N !! d = None ∧
      m' = <[d := Bytes (take (Z.to_nat size) b ++ [0])]> (mem N)
    else d = dat ∧ m' = mem N.
Proof.
  intros [Ho1 Ho2 Ho3] Hs Hc. unfold filter_args. fold (allocates type). fold (copies type dat).
  set (N1 := with_ctxs N (sender_after N context type)).
  assert ((if allocates type then c_assert (bool_decide (sess = 0));; c ← of_option NullDeref context; skynet_context_newsession N c else Ok (sess, N))
    = Ok (sent_session N context type sess, N1)) as ->.
  { unfold sent_session, N1, sender_after. destruct (allocates type) eqn:Ea.
    - rewrite (Ho2 eq_refl). destruct (Ho1 ltac:(by right)) as [x Hx]. specialize (Ho3 x eq_refl Hx). rewrite Hx. cbn [from_option].
      destruct context as [c|]; [|done]. rewrite Hx. cbn in Hx.
      change (skynet_context_newsession N c = Ok (c_session_id x + 1, put_ctx N c (set_session x (c_session_id x + 1)))).
      unfold skynet_context_newsession.
      rewrite (get_ctx_lookup _ _ _ Hx), bind_Ok, c_int_Ok, bind_Ok by (unfold INT_MIN; lia). by rewrite decide_False by lia.
    - destruct context as [c|]; [destruct (sender N (Some c))|]; by destruct N. }
  rewrite bind_Ok. cbn [fst snd]. destruct (copies type dat) eqn:E.
  - destruct (Hc eq_refl) as [Hb Hl]. unfold read_bytes. change (mem N1) with (mem N). rewrite Hb, decide_True by lia.
    rewrite !bind_Ok. unfold skynet_malloc. cbn [fst snd]. eexists _, _. split; [done|]. change (mem N1) with (mem N).
    pose proof (is_fresh (dom (mem N) ∪ {[0]})) as Hf. rewrite not_elem_of_union in Hf.
    destruct Hf as [Hf1 Hf2]. rewrite not_elem_of_singleton in Hf2. rewrite not_elem_of_dom in Hf1. done.
  - rewrite bind_Ok. by exists dat, (mem N).
Qed.

Lemma waiting_mem N m c l : waiting (with_mem N m) c l ↔ waiting N c l.
Proof. done. Qed.

(** [skynet_send] up to the push: what reaches [skynet_context_push]. *)
Lemma send_local N context src dest type sess dat size b :
  0 ≤ size < 2 ^ 56 → sender_ok N context src type sess → dest ≠ 0 →
  skynet_harbor_message_isremote N dest = Ok false →
  (copies type dat = true → mem N !! dat = Some (Bytes b) ∧ size ≤ zlen b) →
  ∃ d m', (if copies type dat then d ≠ 0 ∧ mem N !! d = None ∧
             m' = <[d := Bytes (take (Z.to_nat size) b ++ [0])]> (mem N)
           else d = dat ∧ m' = mem N) ∧
    skynet_send N context src dest type sess dat size =
      (r ← skynet_context_push (with_mem (with_ctxs N (sender_after N context type)) m') dest
         {| source := sent_source N context src; session := sent_session N context type sess; data := d;
            sz := Z.lor size (u64 (Z.shiftl (Z.land type 0xff) MESSAGE_TYPE_SHIFT)) |};
       if decide (r.1 ≠ 0) then N' ← skynet_free r.2 d; Ok (-1, N') else Ok (sent_session N context type sess, r.2)).
Proof.
  intros Hs Hso Hd Hr Hc.
  destruct (filter_args_spec N context src type sess dat size b Hso ltac:(lia) Hc) as (d & m' & E & Hm).
  exists d, m'. split; [done|]. destruct (pack_size type size Hs) as (_ & _ & Hk).
  unfold skynet_send. rewrite Hk, decide_False by tauto. rewrite E, bind_Ok.
  set (N2 := with_mem _ m').
  assert ((if decide (src = 0) then c ← of_option NullDeref context; x ← get_ctx N2 c; Ok (c_handle x) else Ok src)
    = Ok (sent_source N context src)) as ->.
  { unfold sent_source. case_decide as H0; [|done]. destruct (so_context _ _ _ _ _ Hso ltac:(by left)) as [x Hx]. rewrite Hx.
    unfold sender in Hx. destruct context as [c|]; [|done]. cbn in Hx |- *.
    destruct (after_forth N (Some c) type c x Hx) as (y & Hy & -> & _). by rewrite (get_ctx_lookup N2 c y). }
  rewrite bind_Ok, decide_False by done.
  change (skynet_harbor_message_isremote N2 dest) with (skynet_harbor_message_isremote N dest). by rewrite Hr.
Qed.

(** ** What sending promises *)

(** C15: sending to a registered local service. On a well-formed node, a message of
    at most 2^56 - 1 bytes is appended to the queue of exactly the service the handle
    names, and [skynet_send] returns its session. The source is the one passed or, for
    source 0, the handle of the sender; the session is the one passed or, with
    PTYPE_TAG_ALLOCSESSION, the successor of the sender's last one, which is below
    INT_MAX. The receiver decodes the type and the size that were sent; the data is a
    fresh copy with a NUL behind it, or with the don't-copy tag the sender's block
    itself. No other queue changes, no name and no reference count, and of the contexts
    nothing but the session number of a sender that allocates one. *)
Theorem send_reaches_the_service N ids context src dest type sess dat size b c l :
  node_ok N ids → 0 ≤ size < 2 ^ 56 → dest ≠ 0 → sender_ok N context src type sess →
  skynet_harbor_message_isremote N dest = Ok false →
  (copies type dat = true → mem N !! dat = Some (Bytes b) ∧ size ≤ zlen b) →
  handle_lookup (ctx_handle N) (st N) dest = Ok (Some c) → waiting N c l → zlen l + 1 < 2 ^ 30 →
  ∃ N' ids' m, skynet_send N context src dest type sess dat size = Ok (sent_session N context type sess, N') ∧
    node_ok N' ids' ∧ ctxs N' = sender_after N context type ∧ st N' = st N ∧ waiting N' c (l ++ [m]) ∧
    (∀ c' l', c' ≠ c → waiting N c' l' → waiting N' c' l') ∧
    source m = sent_source N context src ∧ session m = sent_session N context type sess ∧
    Z.shiftr (sz m) MESSAGE_TYPE_SHIFT = Z.land type 0xff ∧ Z.land (sz m) MESSAGE_TYPE_MASK = size ∧
    if copies type dat then mem N !! data m = None ∧
      mem N' = <[data m := Bytes (take (Z.to_nat size) b ++ [0])]> (mem N)
    else data m = dat ∧ mem N' = mem N.
Proof.
  intros O Hs Hd Hso Hr Hc Hl Hw Hroom.
  destruct (send_local N context src dest type sess dat size b Hs Hso Hd Hr Hc) as (d & m' & Hm & ->).
  set (m := mk_message _ _ d _). set (N1 := with_ctxs N (sender_after N context type)).
  destruct (context_push_spec (with_mem N1 m') ids dest c l m) as (w' & ids' & -> & O' & Hw' & Ho);
    [by apply node_ok_mem, node_ok_sender| |by apply waiting_sender|done|].
  { rewrite (handle_lookup_handles _ (ctx_handle N)); [done|]. intros c'. exact (after_handle N context type c'). }
  rewrite bind_Ok. cbn [fst snd]. rewrite decide_False by tauto.
  eexists _, ids', m. split; [done|]. split; [done|]. split; [done|]. split; [done|].
  split; [done|]. split; [intros c' l' Hne Hw0; apply Ho; [done|by apply waiting_sender]|]. split; [done|]. split; [done|].
  destruct (pack_size type size Hs) as (H1 & H2 & _). split; [exact H1|]. split; [exact H2|].
  destruct (copies type dat); [|done]. destruct Hm as (_ & ? & ?). done.
Qed.

(** Sending to a handle no service has. [skynet_send] returns -1, no queue or
    context changes, and no memory is lost: the copy that was made is freed again,
    and with the don't-copy tag the block handed over is freed. *)
Theorem send_to_nobody_frees N context src dest type sess dat size b :
  0 ≤ size < 2 ^ 56 → src ≠ 0 → dest ≠ 0 → Z.land type PTYPE_TAG_ALLOCSESSION = 0 →
  skynet_harbor_message_isremote N dest = Ok false →
  (copies type dat = true → mem N !! dat = Some (Bytes b) ∧ size ≤ zlen b) →
  (copies type dat = false → dat ≠ 0 → is_Some (mem N !! dat)) →
  handle_lookup (ctx_handle N) (st N) dest = Ok None →
  skynet_send N context src dest type sess dat size
    = Ok (-1, if decide (copies type dat = true ∨ dat = 0) then N
              else with_mem N (delete dat (mem N))).
Proof.
  intros Hs Hsrc Hd Ha Hr Hc Hown Hl.
  destruct (sender_plain N context src type sess Hsrc Ha) as (Hso & E1 & E2 & E3).
  destruct (send_local N context src dest type sess dat size b Hs Hso Hd Hr Hc) as (d & m' & Hm & ->).
  rewrite E1, E2, E3. replace (with_ctxs N (ctxs N)) with N by (by destruct N). rewrite context_push_none by done. rewrite bind_Ok. cbn [fst snd]. rewrite decide_True by lia.
  unfold skynet_free. destruct (copies type dat).
  - destruct Hm as (Hd0 & Hn & ->). rewrite decide_False by done. cbn [mem with_mem].
    rewrite lookup_insert_eq, decide_True by tauto. cbn. do 2 f_equal. destruct N.
    unfold with_mem. cbn in *. f_equal. by rewrite delete_insert_id.
  - destruct Hm as [-> ->]. destruct (decide (dat = 0)) as [H0|H0].
    + rewrite decide_True by tauto. cbn. do 2 f_equal. by destruct N.
    + destruct (Hown eq_refl H0) as [y Hy]. cbn [mem with_mem]. rewrite Hy.
      rewrite decide_False by naive_solver. done.
Qed.

(** Sessions. A context hands out 1, 2, 3, ... : below INT_MAX every new session
    is the positive successor of the last. The reset to 1 behind it can only be
    reached by overflowing an [int]: at INT_MAX the increment is undefined. *)
Theorem newsession_positive_until_overflow N c x :
  ctxs N !! c = Some x → 0 ≤ c_session_id x ≤ INT_MAX →
  (c_session_id x < INT_MAX →
   ∃ N', skynet_context_newsession N c = Ok (c_session_id x + 1, N') ∧ 0 < c_session_id x + 1 ∧
     ctxs N' !! c = Some (set_session x (c_session_id x + 1)) ∧
     ∀ c', c' ≠ c → ctxs N' !! c' = ctxs N !! c') ∧
  (c_session_id x = INT_MAX → skynet_context_newsession N c = Err SignedOverflow).
Proof.
  intros Hx Hr. unfold skynet_context_newsession. rewrite (get_ctx_lookup _ _ _ Hx), bind_Ok. split.
  - intros Hlt. rewrite c_int_Ok, bind_Ok by (unfold INT_MIN; lia). rewrite decide_False by lia.
    eexists. split; [done|]. split; [lia|]. cbn. split; [by rewrite lookup_insert_eq|].
    intros c' Hne. by rewrite lookup_insert_ne.
  - intros ->. unfold c_int. rewrite decide_False; [done|]. unfold INT_MAX. lia.
Qed.

(** Handles as text. The address that a service is given (":" and eight digits,
    from LAUNCH) and the one REG, QUERY and MONITOR print (":%x") are both resolved
    by [skynet_queryname] to the handle, and a message sent to such an address goes
    where [skynet_send] sends it for the handle. *)
Theorem handle_text_roundtrip N context h src type sess dat size :
  0 ≤ h < 2 ^ 32 → src ≠ 0 →
  skynet_queryname N context (id_to_hex h) = Ok (h, N) ∧
  skynet_queryname N context (58 :: print_x h) = Ok (h, N) ∧
  skynet_sendname N context src (id_to_hex h) type sess dat size
    = skynet_send N context src h type sess dat size ∧
  skynet_sendname N context src (58 :: print_x h) type sess dat size
    = skynet_send N context src h type sess dat size.
Proof.
  intros Hh Hs. assert (id_to_hex h = 58 :: drop 1 (id_to_hex h)) as E by done.
  unfold skynet_queryname, skynet_sendname. rewrite E. rewrite !(decide_True (P := 58 = 58)) by done.
  rewrite !(decide_False (P := src = 0)), !bind_Ok by done. rewrite strtoul16_id, strtoul16_print_x by done.
  by rewrite uwrap_small.
Qed.

(** A node with one service, registered as handle 1 of harbor 1. *)
Definition demo_node : node :=
  mk_node {[ 7 := mk_ctx true 5 false [] 16777217 0 1 true false ]}
    (mk_world {[ 5 := skynet_mq_create 16777217 ]} (Some 5) (Some 5))
    (with_slots (skynet_handle_init 1) 2 4 [None; Some 7; None; None])
    {[ 3 := Bytes [104; 105] ]} 1 0 None 16777216 0.

Lemma demo_waiting : waiting demo_node 7 [].
Proof.
  exists (mk_ctx true 5 false [] 16777217 0 1 true false), (skynet_mq_create 16777217).
  split; [reflexivity|]. split; [reflexivity|]. apply mq_repr_create.
Qed.
Lemma demo_ctxs c x :
  ctxs demo_node !! c = Some x → c = 7 ∧ x = mk_ctx true 5 false [] 16777217 0 1 true false.
Proof.
  unfold demo_node. cbn [ctxs]. rewrite lookup_singleton_Some. by intros [<- <-].
Qed.
Lemma demo_ok : node_ok demo_node [5].
Proof.
  split.
  - split; cbn; try done; [apply NoDup_singleton| |].
    + intros k i Hk. destruct k as [|k]; [|done]. injection Hk as <-.
      exists (skynet_mq_create 16777217). done.
    + intros i q Hi Hn. apply lookup_singleton_Some in Hi as [<- _]. set_solver.
  - destruct (slots_wf_init (λ _, 16777217) 1). split; [exact sw_size|done|exact sw_harbor|cbn; lia|].
    intros i c Hi. exists 1. split; [lia|]. destruct i as [|[|[|[|i]]]]; try done.
    by injection Hi as <-.
  - exists []. destruct (names_repr_init 1). by split.
  - intros i c Hi. destruct i as [|[|[|[|i]]]]; try done. injection Hi as <-. by eexists.
  - intros c x [-> ->]%demo_ctxs. cbn. lia.
  - intros c x [-> ->]%demo_ctxs.
    exists (skynet_mq_create 16777217), []. split; [reflexivity|]. split; [apply mq_repr_create|]. done.
  - intros c c' x x' [-> _]%demo_ctxs [-> _]%demo_ctxs. done.
Qed.

(** The service calls itself as lua-skynet does: source 0, and the context gives the
    session. *)
Lemma send_reaches_the_service_witness :
  let type := 10 + PTYPE_TAG_ALLOCSESSION in
  ∃ N' m, skynet_send demo_node (Some 7) 0 16777217 type 0 3 2 = Ok (1, N') ∧ waiting N' 7 [m] ∧
    source m = 16777217 ∧ session m = 1 ∧ Z.shiftr (sz m) MESSAGE_TYPE_SHIFT = 10 ∧
    mem N' !! data m = Some (Bytes [104; 105; 0]) ∧ c_session_id <$> ctxs N' !! 7 = Some 1.
Proof.
  intros type. destruct (send_reaches_the_service demo_node [5] (Some 7) 0 16777217 type 0 3 2 [104; 105] 7 [])
    as (N' & ids' & m & E & _ & Ex & _ & Hw & _ & Es & En & Ht & _ & Hm).
  - exact demo_ok.
  - lia.
  - lia.
  - split; [intros _; by eexists|done|]. intros x _ Hx. injection Hx as <-. by vm_compute.
  - vm_compute. reflexivity.
  - intros _. split; [reflexivity|]. vm_compute. discriminate.
  - vm_compute. reflexivity.
  - exact demo_waiting.
  - vm_compute. reflexivity.
  - exists N', m. split; [exact E|]. split; [exact Hw|]. split; [exact Es|]. split; [exact En|]. split; [exact Ht|].
    assert (copies type 3 = true) as Ec by (vm_compute; reflexivity). rewrite Ec in Hm. destruct Hm as [_ ->].
    split; [apply lookup_insert_eq|]. rewrite Ex. vm_compute. reflexivity.
Defined.

Lemma send_to_nobody_frees_witness :
  skynet_send demo_node None 9 16777219 PTYPE_TAG_DONTCOPY 42 3 2
    = Ok (-1, with_mem demo_node (delete 3 (mem demo_node))).
Proof.
  rewrite (send_to_nobody_frees demo_node None 9 16777219 PTYPE_TAG_DONTCOPY 42 3 2 []).
  - reflexivity.
  - lia.
  - lia.
  - lia.
  - reflexivity.
  - vm_compute. reflexivity.
  - intros H. vm_compute in H. discriminate H.
  - intros _ _. vm_compute. eauto.
  - vm_compute. reflexivity.
Defined.

Lemma newsession_positive_until_overflow_witness :
  ∃ N', skynet_context_newsession demo_node 7 = Ok (1, N').
Proof.
  destruct (newsession_positive_until_overflow demo_node 7
    (mk_ctx true 5 false [] 16777217 0 1 true false)) as [Hs _].
  - reflexivity.
  - vm_compute. split; discriminate.
  - destruct Hs as (N' & E & _); [vm_compute; reflexivity|]. exists N'. exact E.
Defined.

Lemma handle_text_roundtrip_witness :
  skynet_queryname demo_node None (id_to_hex 16777217) = Ok (16777217, demo_node).
Proof. apply (handle_text_roundtrip demo_node None 16777217 9 0 0 0 0); lia. Defined.
