(* ===== verification/Command.v ===== *)
(** * Service commands: the second half of skynet-src/skynet_server.c

    [skynet_command] and the functions behind it, on a node with its timer and
    environment. The theorems follow names through NAME, REG and QUERY, and show
    what KILL removes and what LAUNCH registers. *)
From Stdlib Require Import String.
From stdpp Require Import functions base numbers list sets gmap.
From S2P Require Import Prelude CString Format Mq Handle Timer Server.

(** The node, its timer, and the environment (skynet_env.c: the globals of a Lua
    state, as strings). *)
Record system : Type := mk_system {
  nd : node;
  tmr : timer;
  env : gmap cstring cstring }.

Definition with_nd (S : system) (N : node) : system := mk_system N (tmr S) (env S).

(** skynet_env.c *)
Definition skynet_getenv (S : system) (key : cstring) : option cstring := env S !! key.
Definition skynet_setenv (S : system) (key value : cstring) : result system :=
  c_assert (bool_decide (env S !! key = None));;
  Ok (mk_system (nd S) (tmr S) (<[key := value]> (env S))).

Definition set_result (x : skynet_context) (s : cstring) : skynet_context :=
  mk_ctx (c_cb x) (c_queue x) (c_logfile x) s (c_handle x) (c_session_id x) (c_ref x)
    (c_init x) (c_endless x).
Definition set_logfile (x : skynet_context) (b : bool) : skynet_context :=
  mk_ctx (c_cb x) (c_queue x) b (c_result x) (c_handle x) (c_session_id x) (c_ref x)
    (c_init x) (c_endless x).

(** [sprintf(context->result, ...)], which has 32 bytes, returned to the caller. *)
Definition answer (S : system) (c : Z) (s : cstring) : result (option cstring * system) :=
  x ← get_ctx (nd S) c;
  if decide (zlen s < 32) then Ok (Some s, with_nd S (put_ctx (nd S) c (set_result x s)))
  else Err OutOfBounds.

(** The handle of ":hex" or ".name". *)
Definition tohandle (S : system) (c : Z) (param : cstring) : result (Z * system) :=
  match param with
  | ch :: rest =>
      if decide (ch = 58) then Ok (u32 (strtoul16 rest), S)
      else if decide (ch = 46) then h ← skynet_handle_findname (st (nd S)) rest; Ok (h, S)
      else
        N ← skynet_error (nd S) (Some c) (lit "Can't convert " ++ param ++ lit " to handle");
        Ok (0, with_nd S N)
  | [] =>
      N ← skynet_error (nd S) (Some c) (lit "Can't convert " ++ param ++ lit " to handle");
      Ok (0, with_nd S N)
  end.

Definition handle_exit (S : system) (c h : Z) : result system :=
  x ← get_ctx (nd S) c;
  r ← (if decide (h = 0) then
         N ← skynet_error (nd S) (Some c) (lit "KILL self"); Ok (c_handle x, N)
       else
         N ← skynet_error (nd S) (Some c) (lit "KILL :" ++ print_x h); Ok (h, N));
  let '(h, N) := r in
  N ← (if decide (monitor_exit N ≠ 0) then
         r ← skynet_send N (Some c) h (monitor_exit N) PTYPE_CLIENT 0 0 0; Ok r.2
       else Ok N);
  r ← handle_retire N h;
  Ok (with_nd S r.2).

(** The words [sscanf(param, "%s %s", ...)] reads. *)
Fixpoint word (s : list Z) : list Z * list Z :=
  match s with
  | c :: r => if is_space c then ([], s) else let w := word r in (c :: w.1, w.2)
  | [] => ([], [])
  end.
(** [strsep]: the token before the first delimiter, and what follows it, NULL when
    there is none. *)
Fixpoint strsep (delim : Z → bool) (s : cstring) : cstring * option cstring :=
  match s with
  | [] => ([], None)
  | c :: r => if delim c then ([], Some r) else let t := strsep delim r in (c :: t.1, t.2)
  end.

Section Commands.
(** The service modules as in the server, whether a file opens, and what the
    signal function of a context does to the node. *)
Context (module_create : cstring → option bool)
        (instance_init : node → Z → option cstring → result (Z * node))
        (fopen : cstring → bool)
        (instance_signal : node → Z → Z → result node).

(** Every command takes the parameter as a C string or NULL and returns one. *)
Definition command : Type := system → Z → option cstring → result (option cstring * system).

Definition cmd_timeout : command := λ S c param,
  p ← of_option NullDeref param;
  let ti := s32 (strtol10 p) in
  sN ← skynet_context_newsession (nd S) c;
  let S := with_nd S sN.2 in
  x ← get_ctx (nd S) c;
  S ← (if decide (ti ≤ 0) then
         r ← skynet_context_push (nd S) (c_handle x)
           (Timer.dispatch_message (Timer.mk_node 0 (mk_event (c_handle x) sN.1))).2;
         Ok (with_nd S r.2)
       else
         T ← timer_add (tmr S) (mk_event (c_handle x) sN.1) ti;
         Ok (mk_system (nd S) T (env S)));
  answer S c (print_d sN.1).

Definition cmd_reg : command := λ S c param,
  x ← get_ctx (nd S) c;
  match param with
  | None | Some [] => answer S c (58 :: print_x (c_handle x))
  | Some (ch :: rest) =>
      if decide (ch = 46) then
        r ← skynet_handle_namehandle (st (nd S)) (c_handle x) rest;
        Ok (r.1, with_nd S (with_st (nd S) r.2))
      else
        N ← skynet_error (nd S) (Some c)
          (lit "Can't register global name " ++ (ch :: rest) ++ lit " in C");
        Ok (None, with_nd S N)
  end.

Definition cmd_query : command := λ S c param,
  p ← of_option NullDeref param;
  match p with
  | ch :: rest =>
      if decide (ch = 46) then
        h ← skynet_handle_findname (st (nd S)) rest;
        if decide (h ≠ 0) then answer S c (58 :: print_x h) else Ok (None, S)
      else Ok (None, S)
  | [] => Ok (None, S)
  end.

Definition cmd_name : command := λ S c param,
  p ← of_option NullDeref param;
  let nm := word (skip_space p) in
  let hd := word (skip_space nm.2) in
  ch ← of_option Uninitialised (hd.1 !! 0%nat);
  if decide (ch ≠ 58) then Ok (None, S)
  else
    let handle_id := u32 (strtoul16 (drop 1 hd.1)) in
    if decide (handle_id = 0) then Ok (None, S)
    else
      match nm.1 with
      | n0 :: rest =>
          if decide (n0 = 46) then
            r ← skynet_handle_namehandle (st (nd S)) handle_id rest;
            Ok (r.1, with_nd S (with_st (nd S) r.2))
          else
            N ← skynet_error (nd S) (Some c) (lit "Can't set global name " ++ nm.1 ++ lit " in C");
            Ok (None, with_nd S N)
      | [] => Err Uninitialised
      end.

Definition cmd_exit : command := λ S c _,
  S ← handle_exit S c 0; Ok (None, S).

Definition cmd_kill : command := λ S c param,
  p ← of_option NullDeref param;
  r ← tohandle S c p;
  S ← (if decide (r.1 ≠ 0) then handle_exit r.2 c r.1 else Ok r.2);
  Ok (None, S).

Definition cmd_launch : command := λ S c param,
  p ← of_option NullDeref param;
  let m := strsep (λ ch, bool_decide (ch = 32 ∨ ch = 9 ∨ ch = 13 ∨ ch = 10)) p in
  let args := match m.2 with
              | Some a => Some (strsep (λ ch, bool_decide (ch = 13 ∨ ch = 10)) a).1
              | None => None
              end in
  r ← skynet_context_new module_create instance_init (nd S) m.1 args;
  match r.1 with
  | None => Ok (None, with_nd S r.2)
  | Some inst =>
      x ← get_ctx r.2 inst;
      answer (with_nd S r.2) c (id_to_hex (c_handle x))
  end.

Definition cmd_getenv : command := λ S c param,
  p ← of_option NullDeref param; Ok (skynet_getenv S p, S).

Definition cmd_setenv : command := λ S c param,
  p ← of_option NullDeref param;
  let kv := strsep (λ ch, bool_decide (ch = 32)) p in
  match kv.2 with
  | None => Ok (None, S)
  | Some value => S ← skynet_setenv S kv.1 value; Ok (None, S)
  end.

Definition cmd_starttime : command := λ S c _,
  answer S c (print_u (skynet_starttime (tmr S))).

Definition cmd_endless : command := λ S c _,
  x ← get_ctx (nd S) c;
  if c_endless x then
    Ok (Some (lit "1"), with_nd S (put_ctx (nd S) c (set_result (set_endless x false) (lit "1"))))
  else Ok (None, S).

(** The contexts [skynet_handle_retireall] retires are released one by one. *)
Fixpoint release_all (N : node) (l : list Z) : result node :=
  match l with
  | [] => Ok N
  | c :: l => r ← skynet_context_release N c; release_all r.2 l
  end.

Definition cmd_abort : command := λ S c _,
  r ← skynet_handle_retireall (ctx_handle (nd S)) (st (nd S));
  N ← release_all (with_st (nd S) r.2) r.1;
  Ok (None, with_nd S N).

Definition set_monitor_exit (N : node) (h : Z) : node :=
  mk_node (ctxs N) (mq N) (st N) (mem N) (total N) h (REMOTE N) (HARBOR N) (logger N).

Definition cmd_monitor : command := λ S c param,
  match param with
  | None | Some [] =>
      if decide (monitor_exit (nd S) ≠ 0) then answer S c (58 :: print_x (monitor_exit (nd S)))
      else Ok (None, S)
  | Some p =>
      r ← tohandle S c p;
      Ok (None, with_nd r.2 (set_monitor_exit (nd r.2) r.1))
  end.

Definition cmd_mqlen : command := λ S c _,
  x ← get_ctx (nd S) c;
  q ← get_mq (mq (nd S)) (c_queue x);
  answer S c (print_d (skynet_mq_length q)).

(** skynet_log.c; what is written to the file is not modelled. *)
Definition skynet_log_open (S : system) (c h : Z) : result (bool * system) :=
  match skynet_getenv S (lit "logpath") with
  | None => Ok (false, S)
  | Some logpath =>
      let tmp := logpath ++ lit "/" ++ print_08x h ++ lit ".log" in
      if fopen tmp then
        N ← skynet_error (nd S) (Some c) (lit "Open log file " ++ tmp); Ok (true, with_nd S N)
      else
        N ← skynet_error (nd S) (Some c) (lit "Open log file " ++ tmp ++ lit " fail");
        Ok (false, with_nd S N)
  end.
Definition skynet_log_close (S : system) (c h : Z) : result system :=
  N ← skynet_error (nd S) (Some c) (lit "Close log file :" ++ print_08x h);
  Ok (with_nd S N).

(** The common part of LOGON, LOGOFF and SIGNAL: the handle, a reference to its
    context, [f], and the release. *)
Definition on_context (S : system) (c : Z) (param : option cstring)
    (f : system → Z → Z → cstring → result system) : result (option cstring * system) :=
  p ← of_option NullDeref param;
  r ← tohandle S c p;
  let S := r.2 in
  if decide (r.1 = 0) then Ok (None, S)
  else
    g ← skynet_handle_grab (nd S) r.1;
    match g.1 with
    | None => Ok (None, with_nd S g.2)
    | Some c' =>
        S ← f (with_nd S g.2) r.1 c' p;
        rl ← skynet_context_release (nd S) c';
        Ok (None, with_nd S rl.2)
    end.

Definition cmd_logon : command := λ S c param,
  on_context S c param (λ S h c' _,
    x ← get_ctx (nd S) c';
    if c_logfile x then Ok S
    else
      r ← skynet_log_open S c h;
      x ← get_ctx (nd r.2) c';
      Ok (if (r.1 : bool) then with_nd r.2 (put_ctx (nd r.2) c' (set_logfile x true)) else r.2)).
Definition cmd_logoff : command := λ S c param,
  on_context S c param (λ S h c' _,
    x ← get_ctx (nd S) c';
    if c_logfile x then
      skynet_log_close (with_nd S (put_ctx (nd S) c' (set_logfile x false))) c h
    else Ok S).
Definition cmd_signal : command := λ S c param,
  on_context S c param (λ S _ c' p,
    let sig := match (strsep (λ ch, bool_decide (ch = 32)) p).2 with
               | Some rest => s32 (strtol0 rest)
               | None => 0
               end in
    N ← instance_signal (nd S) c' sig;
    Ok (with_nd S N)).

Definition cmd_funcs : list (cstring * command) :=
  [(lit "TIMEOUT", cmd_timeout); (lit "REG", cmd_reg); (lit "QUERY", cmd_query);
   (lit "NAME", cmd_name); (lit "EXIT", cmd_exit); (lit "KILL", cmd_kill);
   (lit "LAUNCH", cmd_launch); (lit "GETENV", cmd_getenv); (lit "SETENV", cmd_setenv);
   (lit "STARTTIME", cmd_starttime); (lit "ENDLESS", cmd_endless); (lit "ABORT", cmd_abort);
   (lit "MONITOR", cmd_monitor); (lit "MQLEN", cmd_mqlen); (lit "LOGON", cmd_logon);
   (lit "LOGOFF", cmd_logoff); (lit "SIGNAL", cmd_signal)].

(** The search of [skynet_command]. *)
Fixpoint find_command (l : list (cstring * command)) (cmd : cstring) : option command :=
  match l with
  | [] => None
  | (nm, f) :: l => if decide (strcmp cmd nm = 0) then Some f else find_command l cmd
  end.

Definition skynet_command (S : system) (c : Z) (cmd : cstring) (param : option cstring) :
    result (option cstring * system) :=
  match find_command cmd_funcs cmd with
  | Some f => f S c param
  | None => Ok (None, S)
  end.
End Commands.

(** ** What the server's functions do to a well-formed node *)

(** The parts of a node that logging leaves alone. *)
Definition same_services (N N' : node) : Prop :=
  ctxs N' = ctxs N ∧ st N' = st N ∧ monitor_exit N' = monitor_exit N ∧ total N' = total N ∧
  REMOTE N' = REMOTE N ∧ HARBOR N' = HARBOR N.

Lemma node_ok_logger N ids h : node_ok N ids → node_ok (with_logger N h) ids.
Proof. intros []. by split. Qed.

(** One message more in one queue takes one place of the room. *)
Lemma room_push N N' c l m k :
  (∀ c x, ctxs N !! c = Some x → ∃ l, waiting N c l) → ctxs N' = ctxs N →
  waiting N c l → waiting N' c (l ++ [m]) →
  (∀ c' l', c' ≠ c → waiting N c' l' → waiting N' c' l') → room N (k + 1) → room N' k.
Proof.
  intros Hall Ec Hw Hw' Ho Hroom c' l' Hl'. destruct (decide (c' = c)) as [->|Hne].
  - rewrite (waiting_app _ _ _ _ Hl' Hw'). pose proof (Hroom c l Hw). unfold zlen in *.
    rewrite length_app. cbn. lia.
  - pose proof Hl' as (x & _ & Hx & _). rewrite Ec in Hx. destruct (Hall c' x Hx) as [l0 Hl0].
    rewrite (waiting_app _ _ _ _ Hl' (Ho c' l0 Hne Hl0)). pose proof (Hroom c' l0 Hl0). lia.
Qed.
Lemma node_waiting N ids : node_ok N ids → ∀ c x, ctxs N !! c = Some x → ∃ l, waiting N c l.
Proof. intros O c x Hx. destruct (no_queue _ _ O c x Hx) as (q & l & Hq & Hr & _). by exists l, x, q. Qed.
Lemma room_weaken N k : room N (k + 1) → room N k.
Proof. intros H c l Hl. specialize (H c l Hl). lia. Qed.

(** Pushing to any handle: at most one message more, nothing else. *)
Lemma context_push_any N ids h m :
  node_ok N ids → room N 1 →
  ∃ r w' ids', skynet_context_push N h m = Ok (r, with_mq N w') ∧ node_ok (with_mq N w') ids' ∧
    ∀ k, room N (k + 1) → room (with_mq N w') k.
Proof.
  intros O Hroom. destruct (handle_lookup_Ok _ _ (no_slots _ _ O) h) as [[c|] Hlk].
  - destruct (lookup_live N ids _ c O Hlk) as (x & lw & Hx & Hw & _).
    destruct (context_push_spec N ids h c lw m O Hlk Hw (Hroom c lw Hw)) as (w' & ids' & -> & O' & Hw' & Ho).
    exists 0, w', ids'. split; [done|]. split; [done|]. intros k.
    eapply room_push; [by eapply node_waiting|done|exact Hw|exact Hw'|done].
  - exists (-1), (mq N), ids. rewrite context_push_none by done.
    assert (with_mq N (mq N) = N) as -> by by destruct N.
    split; [done|]. split; [done|]. apply room_weaken.
Qed.

(** [skynet_error] appends at most one message to the logger's queue. *)
Lemma error_spec N ids context text :
  node_ok N ids → (∀ c, context = Some c → is_Some (ctxs N !! c)) → room N 1 →
  ∃ N' ids', skynet_error N context text = Ok N' ∧ node_ok N' ids' ∧ same_services N N' ∧
    ∀ k, room N (k + 1) → room N' k.
Proof.
  intros O Hc Hroom. unfold skynet_error. destruct (no_names _ _ O) as [l Hl].
  assert (∃ h, (if decide (logger N = 0) then
      h ← skynet_handle_findname (st N) (lit "logger"); Ok (with_logger N h) else Ok N)
      = Ok (with_logger N h)) as (h & ->).
  { case_decide; [|exists (logger N); by destruct N].
    rewrite (findname_spec _ _ _ Hl), bind_Ok by (repeat constructor; vm_compute; discriminate). eauto. }
  rewrite bind_Ok. pose proof (node_ok_logger _ _ h O) as O1.
  destruct (decide _); [exists (with_logger N h), ids; split_and!; try done; intros k; exact (room_weaken N k)|].
  cbn zeta. unfold skynet_malloc. cbn [fst snd]. set (p := fresh _). set (N2 := with_mem _ _).
  assert (∃ src, (match context with None => Ok 0 | Some c => x ← get_ctx N2 c; Ok (c_handle x) end) = Ok src)
    as [src ->].
  { destruct context as [c|]; [|by eexists]. destruct (Hc c eq_refl) as [x Hx].
    rewrite (get_ctx_lookup N2 c x) by done. by eexists. }
  rewrite bind_Ok. destruct (context_push_any N2 ids (logger (with_logger N h)) {| source := src; session := 0; data := p;
      sz := Z.lor (zlen text) (Z.shiftl PTYPE_TEXT MESSAGE_TYPE_SHIFT) |})
    as (r & w' & ids' & -> & O' & Hr); [by apply node_ok_mem|exact Hroom|].
  rewrite bind_Ok. exists (with_mq N2 w'), ids'. done.
Qed.

(** The notice to the monitor: no data, so nothing to free when nobody listens. *)
Lemma notice_spec N ids context h dest :
  node_ok N ids → room N 1 → h ≠ 0 → dest ≠ 0 → skynet_harbor_message_isremote N dest = Ok false →
  ∃ r N' ids', skynet_send N context h dest PTYPE_CLIENT 0 0 0 = Ok (r, N') ∧ node_ok N' ids' ∧
    same_services N N'.
Proof.
  intros O Hroom Hh Hd Hrem.
  destruct (sender_plain N context h PTYPE_CLIENT 0 Hh eq_refl) as (Hso & E1 & E2 & E3).
  destruct (send_local N context h dest PTYPE_CLIENT 0 0 0 []) as (d & m' & Hm & ->); try done.
  rewrite E1, E2, E3. replace (with_ctxs N (ctxs N)) with N by (by destruct N).
  destruct (copies PTYPE_CLIENT 0) eqn:Ec; [done|]. destruct Hm as [-> ->].
  destruct (context_push_any (with_mem N (mem N)) ids dest {| source := h; session := 0; data := 0;
      sz := Z.lor 0 (u64 (Z.shiftl (Z.land PTYPE_CLIENT 0xff) MESSAGE_TYPE_SHIFT)) |})
    as (r & w' & ids' & -> & O' & _); [by apply node_ok_mem|exact Hroom|].
  rewrite bind_Ok. cbn [fst snd]. case_decide.
  - unfold skynet_free. rewrite decide_True by done. rewrite bind_Ok. by eexists _, _, ids'.
  - by eexists _, _, ids'.
Qed.
Lemma handle_lookup_ext f g s h :
  (∀ (i : nat) c, slot s !! i = Some (Some c) → f c = g c) → handle_lookup f s h = handle_lookup g s h.
Proof.
  intros E. unfold handle_lookup. destruct (rd (slot s) _) as [[c|]|] eqn:Hr; [|done|done].
  apply rd_Ok_inv in Hr as [_ Hr]. rewrite !bind_Ok. by rewrite (E _ _ Hr).
Qed.

(** The storage after a retirement, with the contexts still in place. *)
Lemma node_ok_st N ids s :
  node_ok N ids → slots_wf (ctx_handle N) s → (∃ l, names_repr s l) →
  (∀ (i : nat) c, slot s !! i = Some (Some c) → slot (st N) !! i = Some (Some c)) →
  node_ok (with_st N s) ids.
Proof.
  intros [Og _ _ Ol Oref Oq Oi] W Hl Hsub. split; cbn; try done. intros i c Hi%Hsub. by eapply Ol.
Qed.

(** Another reference count for a context. *)
Lemma node_ok_ref N ids c x r :
  node_ok N ids → ctxs N !! c = Some x → 1 ≤ r → node_ok (put_ctx N c (set_ref x r)) ids.
Proof.
  intros O Hx Hr.
  assert (∀ c1 y, <[c:=set_ref x r]> (ctxs N) !! c1 = Some y →
    ∃ y', ctxs N !! c1 = Some y' ∧ c_queue y' = c_queue y ∧ 1 ≤ c_ref y) as Hback.
  { intros c1 y. destruct (decide (c1 = c)) as [->|];
      [rewrite lookup_insert_eq; intros [= <-]; by exists x|].
    rewrite lookup_insert_ne by done. intros Hy. exists y. split; [done|]. split; [done|].
    by apply (no_ref _ _ O c1). }
  destruct O as [Og Os On Ol Oref Oq Oi]. split; cbn; [exact Og| |exact On| | | |].
  - eapply slots_wf_ext; [|exact Os]. intros i c' _. symmetry. by apply (ctx_handle_put N c x).
  - intros i c' Hi%Ol. apply lookup_insert_is_Some. destruct (decide (c = c')); auto.
  - intros c' y (_ & _ & _ & ?)%Hback. done.
  - intros c' y (y' & Hy' & <- & _)%Hback. by apply (Oq c' y').
  - intros c1 c2 y1 y2 (z1 & Hz1 & <- & _)%Hback (z2 & Hz2 & <- & _)%Hback. by eapply Oi.
Qed.

(** The last reference: the context is freed, its queue is marked for release and
    stands in the global queue, where a worker will find and drop it. *)
Lemma delete_context_spec N ids c x :
  node_ok N ids → ctxs N !! c = Some x → (∀ i : nat, slot (st N) !! i ≠ Some (Some c)) →
  ∃ w' q ids', delete_context N c = Ok (context_dec (with_ctxs (with_mq N w') (delete c (ctxs N)))) ∧
    node_ok (context_dec (with_ctxs (with_mq N w') (delete c (ctxs N)))) ids' ∧
    strip w' !! c_queue x = Some q ∧ release q = 1 ∧
    (∀ j, j ≠ c_queue x → strip w' !! j = strip (mq N) !! j) ∧
    (in_global q ≠ MQ_IN_GLOBAL → c_queue x ∈ ids').
Proof.
  intros O Hx Hno. destruct (no_queue _ _ O c x Hx) as (q & l & Hq & Hr & Hre & Hin).
  destruct (mark_release_spec _ _ _ q (no_gq _ _ O) Hq Hre Hin) as (w' & Em & Hs & Hg).
  unfold delete_context. rewrite (get_ctx_lookup _ _ _ Hx), bind_Ok, Em, bind_Ok.
  exists w', (set_release 1 q), (if decide (in_global q ≠ MQ_IN_GLOBAL) then ids ++ [c_queue x] else ids).
  split; [done|].
  assert (∀ j, j ≠ c_queue x → strip w' !! j = strip (mq N) !! j) as Ho
    by (intros j Hj; rewrite Hs; by apply lookup_insert_ne).
  split; [|split; [by rewrite Hs, lookup_insert_eq|split; [done|split; [done|]]]]; cycle 1.
  { cbn. intros E. rewrite decide_True by done. apply elem_of_app. right. by apply list_elem_of_singleton. }
  destruct O as [Og Os On Ol Oref Oq Oi].
  split; cbn; [exact Hg| |exact On| | | |].
  - eapply slots_wf_ext; [|exact Os]. intros i c' Hi. unfold ctx_handle. cbn.
    rewrite lookup_delete_ne; [done|]. intros <-. by apply (Hno i).
  - intros i c' Hi. rewrite lookup_delete_ne; [by eapply Ol|]. intros <-. by apply (Hno i).
  - intros c' y [_ Hy]%lookup_delete_Some. by apply (Oref c').
  - intros c' y [Hne Hy]%lookup_delete_Some.
    assert (c_queue y ≠ c_queue x) as Hnq by (intros E; apply Hne; symmetry; by eapply Oi).
    rewrite (Ho _ Hnq). destruct (Oq c' y Hy) as (q2 & l2 & H1 & H2 & H3 & H4).
    exists q2, l2. split; [done|]. split; [done|]. split; [done|]. intros E. specialize (H4 E).
    case_decide; [|done]. rewrite not_elem_of_app, list_elem_of_singleton. done.
  - intros c1 c2 y1 y2 [_ H1]%lookup_delete_Some [_ H2]%lookup_delete_Some. by eapply Oi.
Qed.

(** What is left of a context with one reference less. *)
Definition dropped_ref (N : node) (c : Z) (x : skynet_context) : gmap Z skynet_context :=
  if decide (c_ref x = 1) then delete c (ctxs N) else <[c := set_ref x (c_ref x - 1)]> (ctxs N).

Lemma context_release_spec N ids c x :
  node_ok N ids → ctxs N !! c = Some x → (∀ i : nat, slot (st N) !! i ≠ Some (Some c)) →
  ∃ N' ids', skynet_context_release N c = Ok (bool_decide (c_ref x ≠ 1), N') ∧ node_ok N' ids' ∧
    st N' = st N ∧ ctxs N' = dropped_ref N c x ∧ mem N' = mem N ∧
    (∀ c', c' ≠ c → ctx_handle N' c' = ctx_handle N c').
Proof.
  intros O Hx Hno. pose proof (no_ref _ _ O c x Hx) as Href. unfold dropped_ref.
  unfold skynet_context_release. rewrite (get_ctx_lookup _ _ _ Hx), bind_Ok.
  destruct (decide (c_ref x = 1)) as [E|E].
  - rewrite decide_True by lia. replace (c_ref x - 1) with 0 by lia.
    destruct (delete_context_spec N ids c x O Hx Hno) as (w' & q & ids' & Ed & O' & _).
    assert (delete_context (put_ctx N c (set_ref x 0)) c
      = Ok (context_dec (with_ctxs (with_mq N w') (delete c (ctxs N))))) as ->.
    { revert Ed. unfold delete_context. rewrite get_put_ctx, (get_ctx_lookup _ _ _ Hx), !bind_Ok. cbn [c_queue set_ref mq put_ctx with_ctxs].
      destruct (skynet_mq_mark_release _ _) as [w|]; [|done]. rewrite !bind_Ok. intros [= ->]. cbn. by rewrite delete_insert_eq. }
    rewrite bind_Ok, bool_decide_eq_false_2 by tauto. eexists _, ids'. split; [done|]. split; [done|].
    split; [done|]. split; [done|]. split; [done|]. intros c' Hne. unfold ctx_handle. cbn.
    by rewrite lookup_delete_ne.
  - rewrite decide_False by lia. rewrite bool_decide_eq_true_2 by done.
    eexists _, ids. split; [done|]. split; [apply node_ok_ref; [done|done|lia]|].
    split; [done|]. split; [done|]. split; [done|]. intros c' _. by apply (ctx_handle_put N c x).
Qed.

(** Retiring the handle of a service: the handle is free, the service's names are
    gone, the reference of the table is given up. *)
Lemma handle_retire_spec N ids h c x l :
  node_ok N ids → names_repr (st N) l → handle_lookup (ctx_handle N) (st N) h = Ok (Some c) →
  ctxs N !! c = Some x →
  ∃ N' ids', handle_retire N h = Ok (1, N') ∧ node_ok N' ids' ∧
    (∀ h', handle_lookup (ctx_handle N') (st N') h'
       = if decide (h' = h) then Ok None else handle_lookup (ctx_handle N) (st N) h') ∧
    names_repr (st N') (keep_names h l) ∧ ctxs N' = dropped_ref N c x ∧ mem N' = mem N.
Proof.
  intros O Hl Hlk Hx. pose proof (no_slots _ _ O) as W.
  destruct (retire_spec _ _ _ h W Hl) as (o & s' & Ho & Er & W' & Hl' & Hlk' & _ & Esz & Hsl).
  rewrite Hlk in Ho. injection Ho as <-. unfold handle_retire. rewrite Er, bind_Ok. cbn [fst snd].
  (* the retired context is in no slot any more *)
  assert (∀ i : nat, slot s' !! i ≠ Some (Some c)) as Hgone.
  { intros i Hi. pose proof (slot_home _ _ W' i c Hi) as Hhome.
    apply (handle_lookup_spec _ _ W) in Hlk as [_ Eh].
    rewrite Hsl in Hi. destruct (decide _) as [|Hn]; [done|]. apply Hn. split; [done|].
    rewrite <- Hhome, Esz, Eh. done. }
  assert (∀ (i : nat) c', slot s' !! i = Some (Some c') → slot (st N) !! i = Some (Some c')) as Hsub.
  { intros i c' Hi. rewrite Hsl in Hi. by destruct (decide _). }
  destruct (context_release_spec (with_st N s') ids c x) as (N' & ids' & -> & O' & Es & Ec & Em & Eh).
  { apply node_ok_st; [done|done| |done]. by eexists. }
  { done. }
  { done. }
  rewrite bind_Ok. exists N', ids'. split; [done|]. split; [done|]. rewrite Es.
  split; [|done]. intros h'. rewrite <- Hlk'. apply handle_lookup_ext. intros i c' Hi. apply Eh.
  intros ->. by apply (Hgone i).
Qed.

(** ** Names and addresses in commands *)

(** The word before a space. *)
Lemma word_app w rest :
  Forall (λ ch, is_space ch = false) w → match rest with ch :: _ => is_space ch = true | [] => True end →
  word (w ++ rest) = (w, rest).
Proof.
  intros Hw Hr. induction Hw as [|ch w Hc _ IH]; cbn.
  - destruct rest as [|ch rest]; [done|]. cbn. by rewrite Hr.
  - by rewrite Hc, IH.
Qed.
Lemma lower_digit_ok d : 0 ≤ d < 16 → is_space (lower_digit d) = false ∧ 1 ≤ lower_digit d ≤ 255.
Proof.
  intros Hd. unfold is_space, lower_digit. case_decide; (split; [apply bool_decide_eq_false_2|]); lia.
Qed.
Lemma digits_length fuel b n : (length (digits fuel b n) ≤ fuel)%nat.
Proof.
  revert n. induction fuel as [|f IH]; intros n; cbn [digits]; [done|]. case_decide; [cbn; lia|].
  rewrite length_app. cbn. specialize (IH (n / b)). lia.
Qed.
Lemma print_x_ok h :
  0 ≤ h < 2 ^ 32 → Forall (λ ch, is_space ch = false) (print_x h) ∧ zlen (print_x h) ≤ 8.
Proof.
  intros Hh. destruct (digits_spec 8 16 h) as [_ Hd]; [lia|by change (16 ^ Z.of_nat 8) with (2 ^ 32)|].
  split.
  - apply Forall_forall. intros ch (d & -> & Hin)%list_elem_of_fmap. by apply lower_digit_ok, Hd.
  - unfold print_x, zlen. rewrite length_fmap. pose proof (digits_length 8 16 h). lia.
Qed.

(** Handles the table gives out fit the 32 bits they are printed in. *)
Lemma live_handle_range N ids h c :
  node_ok N ids → handle_lookup (ctx_handle N) (st N) h = Ok (Some c) → 0 ≤ h < 2 ^ 32.
Proof.
  intros O Hlk. apply (handle_lookup_spec _ _ (no_slots _ _ O)) in Hlk as [Hs <-].
  apply (sw_slot _ _ (no_slots _ _ O)) in Hs as (low & Hlow & -> & _).
  destruct (sw_harbor _ _ (no_slots _ _ O)) as (hb & Hhb & ->). lia.
Qed.

(** The two forms of an address. *)
Definition denotes (l : list handle_name) (h : Z) (param : cstring) : Prop :=
  param = 58 :: print_x h ∨ ∃ nm, param = 46 :: nm ∧ cstring_ok nm ∧ names_find l nm = h.

Lemma tohandle_spec S c l h param :
  names_repr (st (nd S)) l → 0 ≤ h < 2 ^ 32 → denotes l h param → tohandle S c param = Ok (h, S).
Proof.
  intros Hl Hh [->|(nm & -> & Hnm & <-)]; unfold tohandle.
  - by rewrite decide_True, strtoul16_print_x, uwrap_small by done.
  - rewrite decide_False, decide_True by done. by rewrite (findname_spec _ _ _ Hl).
Qed.

(** [handle_exit] of another service. *)
Lemma handle_exit_spec S ids c h v x l :
  node_ok (nd S) ids → is_Some (ctxs (nd S) !! c) → names_repr (st (nd S)) l →
  handle_lookup (ctx_handle (nd S)) (st (nd S)) h = Ok (Some v) → ctxs (nd S) !! v = Some x → h ≠ 0 →
  room (nd S) 2 →
  (monitor_exit (nd S) ≠ 0 → skynet_harbor_message_isremote (nd S) (monitor_exit (nd S)) = Ok false) →
  ∃ N' ids', handle_exit S c h = Ok (with_nd S N') ∧ node_ok N' ids' ∧
    (∀ h', handle_lookup (ctx_handle N') (st N') h'
       = if decide (h' = h) then Ok None else handle_lookup (ctx_handle (nd S)) (st (nd S)) h') ∧
    names_repr (st N') (keep_names h l) ∧ ctxs N' = dropped_ref (nd S) v x.
Proof.
  intros O [y Hy] Hl Hlk Hx Hh Hroom Hmon. unfold handle_exit.
  rewrite (get_ctx_lookup _ _ _ Hy), bind_Ok, decide_False by done.
  destruct (error_spec (nd S) ids (Some c) (lit "KILL :" ++ print_x h)) as (N1 & ids1 & -> & O1 & Hs1 & Hr1);
    [done|intros ? [= <-]; by eexists|by apply room_weaken|].
  rewrite !bind_Ok. destruct Hs1 as (Ec1 & Es1 & Em1 & _ & _ & Eh1). rewrite Em1.
  assert (∃ N2 ids2, (if decide (monitor_exit (nd S) ≠ 0) then
      r ← skynet_send N1 (Some c) h (monitor_exit (nd S)) PTYPE_CLIENT 0 0 0; Ok r.2 else Ok N1) = Ok N2 ∧
    node_ok N2 ids2 ∧ ctxs N2 = ctxs (nd S) ∧ st N2 = st (nd S)) as (N2 & ids2 & -> & O2 & Ec2 & Es2).
  { case_decide as Hm; [|by exists N1, ids1].
    destruct (notice_spec N1 ids1 (Some c) h (monitor_exit (nd S))) as (r & N2 & ids2 & -> & O2 & Ec2 & Es2 & _);
      [done|by apply Hr1|done|done| |rewrite bind_Ok; exists N2, ids2; cbn; by rewrite Ec2, Es2].
    revert Hmon. unfold skynet_harbor_message_isremote. rewrite Eh1. auto. }
  rewrite bind_Ok. assert (∀ c', ctx_handle N2 c' = ctx_handle (nd S) c') as Ech
    by (intros c'; unfold ctx_handle; by rewrite Ec2).
  assert (∀ s h', handle_lookup (ctx_handle N2) s h' = handle_lookup (ctx_handle (nd S)) s h') as Elk
    by (intros s h'; by apply handle_lookup_ext).
  destruct (handle_retire_spec N2 ids2 h v x l) as (N' & ids' & -> & O' & Hlk' & Hl' & Ec' & _);
    [done|by rewrite Es2|by rewrite Elk, Es2|by rewrite Ec2|].
  rewrite bind_Ok. exists N', ids'. split; [done|]. split; [done|]. split; [|split; [done|]].
  - intros h'. by rewrite Hlk', Elk, Es2.
  - rewrite Ec'. unfold dropped_ref. by rewrite Ec2.
Qed.

(** Names after a retirement. *)
Lemma names_find_keep s l h nm :
  names_repr s l → names_find (keep_names h l) nm = if decide (names_find l nm = h) then 0 else names_find l nm.
Proof.
  intros Hl. pose proof (nr_sorted _ _ Hl) as Hs. pose proof (keep_names_sorted l h Hs) as Hs'.
  destruct (decide (nm ∈ name <$> l)) as [(n & -> & Hn)%list_elem_of_fmap|Hno].
  - rewrite (names_find_in l (name n) n) by done. destruct (decide (nhandle n = h)) as [E|E].
    + apply names_find_none. intros n' [Hh Hn']%list_elem_of_filter Enm. apply Hh. rewrite <- E.
      by rewrite <- (names_find_in l (name n) n'), (names_find_in l (name n) n) by done.
    + apply names_find_in; [done| |done]. by apply list_elem_of_filter.
  - assert (∀ n, n ∈ l → name n ≠ nm) as Hx by (intros n Hn <-; apply Hno, list_elem_of_fmap; eauto).
    rewrite (names_find_none l) by done. rewrite names_find_none.
    + by case_decide.
    + intros n [_ Hn]%list_elem_of_filter. by apply Hx.
Qed.

Section Promises.
Context (module_create : cstring → option bool)
        (instance_init : node → Z → option cstring → result (Z * node))
        (fopen : cstring → bool)
        (instance_signal : node → Z → Z → result node).
#[local] Notation command_of := (skynet_command module_create instance_init fopen instance_signal).

(** C16: killing a service. On a well-formed node, KILL with the address of a
    registered service, as ":hex" or as ".name", removes exactly that handle and
    every name that stands for it, leaves all other handles alone and keeps the
    node well-formed. The context is freed when the table held the last reference
    to it and otherwise loses that one reference; no other context changes. *)
Theorem kill_removes_the_service S ids c h v x l param :
  node_ok (nd S) ids → is_Some (ctxs (nd S) !! c) → names_repr (st (nd S)) l →
  handle_lookup (ctx_handle (nd S)) (st (nd S)) h = Ok (Some v) → ctxs (nd S) !! v = Some x → h ≠ 0 →
  denotes l h param → room (nd S) 2 →
  (monitor_exit (nd S) ≠ 0 → skynet_harbor_message_isremote (nd S) (monitor_exit (nd S)) = Ok false) →
  ∃ N' ids', command_of S c (lit "KILL") (Some param) = Ok (None, with_nd S N') ∧ node_ok N' ids' ∧
    (∀ h', handle_lookup (ctx_handle N') (st N') h'
       = if decide (h' = h) then Ok None else handle_lookup (ctx_handle (nd S)) (st (nd S)) h') ∧
    (∀ nm, cstring_ok nm → skynet_handle_findname (st N') nm
       = Ok (if decide (names_find l nm = h) then 0 else names_find l nm)) ∧
    (∀ c', ctxs N' !! c' = if decide (c' ≠ v) then ctxs (nd S) !! c'
       else if decide (c_ref x = 1) then None else Some (set_ref x (c_ref x - 1))).
Proof.
  intros O Hc Hl Hlk Hx Hh Hd Hroom Hmon.
  destruct (handle_exit_spec S ids c h v x l O Hc Hl Hlk Hx Hh Hroom Hmon) as (N' & ids' & E & O' & Hlk' & Hl' & Ec').
  exists N', ids'. split.
  { change (command_of S c (lit "KILL") (Some param)) with (cmd_kill S c (Some param)). unfold cmd_kill.
    cbn [of_option]. rewrite bind_Ok, (tohandle_spec S c l h param) by eauto using live_handle_range.
    rewrite bind_Ok. cbn [fst snd]. by rewrite decide_True, E by done. }
  split; [done|]. split; [done|]. split.
  - intros nm Hnm. rewrite (findname_spec _ _ _ Hl') by done. f_equal. by apply names_find_keep with (st (nd S)).
  - intros c'. rewrite Ec'. unfold dropped_ref. case_decide as E1; destruct (decide (c' = v)) as [->|Hne].
    + rewrite lookup_delete_eq. rewrite decide_False by tauto. done.
    + by rewrite lookup_delete_ne, decide_True by done.
    + rewrite lookup_insert_eq. rewrite decide_False by tauto. done.
    + by rewrite lookup_insert_ne, decide_True by done.
Qed.

(** Naming a service by command. "NAME .nm :hex" with a name without spaces
    that is free binds it, and QUERY ".nm" then answers the same ":hex" from the
    32-byte result buffer; a name that is taken gives NULL and changes nothing. *)
Theorem name_then_query S ids c x l nm h :
  node_ok (nd S) ids → ctxs (nd S) !! c = Some x → names_repr (st (nd S)) l → zlen l < MAX_SLOT_SIZE →
  cstring_ok nm → Forall (λ ch, is_space ch = false) nm → 0 < h < 2 ^ 32 →
  ∃ S', command_of S c (lit "NAME") (Some (46 :: nm ++ 32 :: 58 :: print_x h))
      = Ok (if decide (nm ∈ name <$> l) then None else Some nm, S') ∧
    (nm ∈ name <$> l → S' = S) ∧
    (nm ∉ name <$> l → command_of S' c (lit "QUERY") (Some (46 :: nm))
      = Ok (Some (58 :: print_x h), with_nd S' (put_ctx (nd S') c (set_result x (58 :: print_x h))))).
Proof.
  intros O Hx Hl Hmax Hnm Hsp Hh. destruct (print_x_ok h) as [Hpx Hlen]; [lia|].
  destruct (namehandle_spec (st (nd S)) l h nm Hl Hnm Hmax) as (r & s' & l' & E & Hl' & Hf & Hr & Hn).
  change (command_of S c (lit "NAME")) with (cmd_name S c). unfold cmd_name. cbn [of_option].
  rewrite bind_Ok. change (skip_space (46 :: nm ++ 32 :: 58 :: print_x h)) with ((46 :: nm) ++ 32 :: 58 :: print_x h).
  rewrite (word_app (46 :: nm)) by (by repeat constructor). cbn [fst snd].
  change (skip_space (32 :: 58 :: print_x h)) with (58 :: print_x h).
  rewrite <- (app_nil_r (58 :: print_x h)), word_app by (by repeat constructor). cbn [fst snd drop].
  rewrite (app_nil_r (58 :: print_x h)). cbn [lookup list_lookup of_option].
  rewrite bind_Ok. rewrite decide_False by tauto. rewrite drop_0.
  rewrite strtoul16_print_x, uwrap_small, decide_False, decide_True, E, bind_Ok by (done || lia).
  eexists. split; [by rewrite Hr|]. split; intros Hin.
  - rewrite decide_True in Hr by done. rewrite (Hn Hr). destruct S as [N ? ?], N. done.
  - rewrite decide_False in Hr by done. subst r.
    change (command_of ?S' c (lit "QUERY")) with (cmd_query S' c). unfold cmd_query. cbn [of_option].
    rewrite bind_Ok, decide_True by done. cbn [nd with_nd st with_st fst snd].
    rewrite Hf, (decide_True (P := nm = nm ∧ Some nm = Some nm)), bind_Ok by done.
    rewrite decide_True by lia. unfold answer. cbn [nd with_nd].
    rewrite (get_ctx_lookup _ c x), bind_Ok by done. rewrite decide_True; [done|].
    unfold zlen in *. cbn [length]. lia.
Qed.
End Promises.

(** The one-service node of the server file, with no timers and no environment. *)
Definition demo_system : system := mk_system demo_node (skynet_timer_init 0 0 0 0) ∅.
Definition no_module (_ : cstring) : option bool := None.
Definition no_init (N : node) (_ : Z) (_ : option cstring) : result (Z * node) := Ok (0, N).
Definition no_signal (N : node) (_ _ : Z) : result node := Ok N.

Lemma demo_names : names_repr (st demo_node) [].
Proof. destruct (names_repr_init 1). by split. Qed.
Lemma demo_room : room demo_node 2.
Proof.
  intros c l Hl. pose proof Hl as (x & _ & [-> _]%demo_ctxs & _).
  rewrite (waiting_app _ _ _ _ Hl demo_waiting). done.
Qed.

Lemma kill_removes_the_service_witness :
  ∃ N', skynet_command no_module no_init (λ _, true) no_signal demo_system 7 (lit "KILL")
      (Some (lit ":1000001")) = Ok (None, with_nd demo_system N') ∧
    handle_lookup (ctx_handle N') (st N') 16777217 = Ok None ∧ ctxs N' !! 7 = None.
Proof.
  destruct (kill_removes_the_service no_module no_init (λ _, true) no_signal demo_system [5] 7 16777217 7
    (mk_ctx true 5 false [] 16777217 0 1 true false) [] (lit ":1000001"))
    as (N' & ids' & E & _ & Hlk & _ & Hc).
  - exact demo_ok.
  - eexists. reflexivity.
  - exact demo_names.
  - vm_compute. reflexivity.
  - reflexivity.
  - lia.
  - left. vm_compute. reflexivity.
  - exact demo_room.
  - intros H. exfalso. apply H. reflexivity.
  - exists N'. split; [exact E|]. split.
    + rewrite Hlk. reflexivity.
    + rewrite Hc. reflexivity.
Defined.

Lemma name_then_query_witness :
  ∃ S', skynet_command no_module no_init (λ _, true) no_signal demo_system 7 (lit "NAME")
      (Some (lit ".db :1000001")) = Ok (Some (lit "db"), S').
Proof.
  destruct (name_then_query no_module no_init (λ _, true) no_signal demo_system [5] 7
    (mk_ctx true 5 false [] 16777217 0 1 true false) [] (lit "db") 16777217) as (S' & E & _ & _).
  - exact demo_ok.
  - reflexivity.
  - exact demo_names.
  - vm_compute. reflexivity.
  - repeat constructor; vm_compute; discriminate.
  - repeat constructor.
  - lia.
  - exists S'. exact E.
Defined.
