(* ===== verification/Seri.v ===== *)
(** * Lua serialisation: lualib-src/lua-seri.c

    The messages services send each other are packed with [luaseri_pack] and
    unpacked with [luaseri_unpack]. The model has the writer with its chain of
    128-byte blocks, the reader with its [int] length, and the recursion over
    tables with its depth limit. The theorems are the round trip of every
    packable value and what the reader does with arbitrary bytes. *)
From stdpp Require Import base numbers list_numbers list.
From S2P Require Import Prelude.

(** ** Lua values

    Floats are their 64 bits. A table is its fields in the order [lua_next] visits
    them; a table with a __pairs metamethod is what its iterator yields. *)
Inductive lvalue : Type :=
| VNil
| VBool (b : bool)
| VInt (i : Z)
| VReal (bits : Z)
| VStr (s : list Z)
| VPointer (p : Z)
| VTable (fields : list (lvalue * lvalue))
| VPairs (yielded : list (lvalue * lvalue))
| VOther.

Definition TYPE_NIL : Z := 0.
Definition TYPE_BOOLEAN : Z := 1.
Definition TYPE_NUMBER : Z := 2.
Definition TYPE_NUMBER_ZERO : Z := 0.
Definition TYPE_NUMBER_BYTE : Z := 1.
Definition TYPE_NUMBER_WORD : Z := 2.
Definition TYPE_NUMBER_DWORD : Z := 4.
Definition TYPE_NUMBER_QWORD : Z := 6.
Definition TYPE_NUMBER_REAL : Z := 8.
Definition TYPE_USERDATA : Z := 3.
Definition TYPE_SHORT_STRING : Z := 4.
Definition TYPE_LONG_STRING : Z := 5.
Definition TYPE_TABLE : Z := 6.
Definition MAX_COOKIE : Z := 32.
Definition BLOCK_SIZE : Z := 128.
Definition MAX_DEPTH : Z := 32.

(** COMBINE_TYPE, stored in a [uint8_t]. *)
Definition COMBINE_TYPE (t v : Z) : Z := u8 (Z.lor t (Z.shiftl v 3)).

(** The bytes of a [k]-byte integer in memory (little-endian). *)
Abbreviation le_bytes k v := (Z_to_little_endian k 8 v).
Abbreviation le_value bs := (little_endian_to_Z 8 bs).

(** ** The writer

    The blocks before the current one, and the current one; [None] is a byte that
    was never written. *)
Record write_block : Type := mk_wb {
  wb_full : list (list (option Z));
  wb_current : list (option Z);
  wb_len : Z;
  wb_ptr : Z }.

Definition blk_alloc : list (option Z) := replicate (Z.to_nat BLOCK_SIZE) None.

(** [memcpy(b->current->buffer + b->ptr, buf, ...)]. *)
Definition wb_memcpy (b : write_block) (buf : list Z) : result (list (option Z)) :=
  if decide (0 ≤ wb_ptr b ∧ wb_ptr b + zlen buf ≤ zlen (wb_current b)) then
    Ok (take (Z.to_nat (wb_ptr b)) (wb_current b) ++ (Some <$> buf)
        ++ drop (Z.to_nat (wb_ptr b + zlen buf)) (wb_current b))
  else Err OutOfBounds.

(** The code at _again. *)
Definition wb_next (b : write_block) : write_block :=
  mk_wb (wb_full b ++ [wb_current b]) blk_alloc (wb_len b) 0.

Fixpoint wb_copy (fuel : nat) (b : write_block) (buf : list Z) : result write_block :=
  let sz := zlen buf in
  if decide (wb_ptr b ≤ BLOCK_SIZE - sz) then
    cur ← wb_memcpy b buf;
    len ← c_int (wb_len b + sz);
    Ok (mk_wb (wb_full b) cur len (wb_ptr b + sz))
  else
    match fuel with
    | O => Err OutOfFuel
    | S f =>
        let copy := BLOCK_SIZE - wb_ptr b in
        cur ← wb_memcpy b (take (Z.to_nat copy) buf);
        len ← c_int (wb_len b + copy);
        wb_copy f (wb_next (mk_wb (wb_full b) cur len (wb_ptr b))) (drop (Z.to_nat copy) buf)
    end.

(** Every turn of the loop but the first copies a whole block. *)
Definition wb_push (b : write_block) (buf : list Z) : result write_block :=
  wb_copy (S (length buf)) (if decide (wb_ptr b = BLOCK_SIZE) then wb_next b else b) buf.

Definition wb_init : write_block := mk_wb [] blk_alloc 0 0.

Definition wb_nil (wb : write_block) : result write_block := wb_push wb [TYPE_NIL].
Definition wb_boolean (wb : write_block) (boolean : bool) : result write_block :=
  wb_push wb [COMBINE_TYPE TYPE_BOOLEAN (if boolean then 1 else 0)].

Definition wb_integer (wb : write_block) (v : Z) : result write_block :=
  let type := TYPE_NUMBER in
  if decide (v = 0) then wb_push wb [COMBINE_TYPE type TYPE_NUMBER_ZERO]
  else if decide (v ≠ s32 v) then
    wb ← wb_push wb [COMBINE_TYPE type TYPE_NUMBER_QWORD];
    wb_push wb (le_bytes 8 v)
  else if decide (v < 0) then
    wb ← wb_push wb [COMBINE_TYPE type TYPE_NUMBER_DWORD];
    wb_push wb (le_bytes 4 v)
  else if decide (v < 0x100) then
    wb ← wb_push wb [COMBINE_TYPE type TYPE_NUMBER_BYTE];
    wb_push wb (le_bytes 1 v)
  else if decide (v < 0x10000) then
    wb ← wb_push wb [COMBINE_TYPE type TYPE_NUMBER_WORD];
    wb_push wb (le_bytes 2 v)
  else
    wb ← wb_push wb [COMBINE_TYPE type TYPE_NUMBER_DWORD];
    wb_push wb (le_bytes 4 v).

Definition wb_real (wb : write_block) (v : Z) : result write_block :=
  wb ← wb_push wb [COMBINE_TYPE TYPE_NUMBER TYPE_NUMBER_REAL];
  wb_push wb (le_bytes 8 v).
Definition wb_pointer (wb : write_block) (v : Z) : result write_block :=
  wb ← wb_push wb [TYPE_USERDATA];
  wb_push wb (le_bytes 8 v).

(** [len] is the length of the string converted to [int]. *)
Definition wb_string (wb : write_block) (str : list Z) (len : Z) : result write_block :=
  if decide (len < MAX_COOKIE) then
    wb ← wb_push wb [COMBINE_TYPE TYPE_SHORT_STRING len];
    if decide (0 < len) then wb_push wb (take (Z.to_nat len) str) else Ok wb
  else
    wb ← (if decide (len < 0x10000) then
            wb ← wb_push wb [COMBINE_TYPE TYPE_LONG_STRING 2];
            wb_push wb (le_bytes 2 len)
          else
            wb ← wb_push wb [COMBINE_TYPE TYPE_LONG_STRING 4];
            wb_push wb (le_bytes 4 len));
    wb_push wb (take (Z.to_nat len) str).

(** ** Table access of the Lua API *)

Definition is_int_key (i : Z) (kv : lvalue * lvalue) : bool :=
  match kv.1 with VInt j => bool_decide (i = j) | _ => false end.
(** [lua_rawgeti]: nil when there is no such field. *)
Definition lua_rawgeti (fields : list (lvalue * lvalue)) (i : Z) : lvalue :=
  match list_find (λ kv, is_int_key i kv = true) fields with
  | Some (_, kv) => kv.2
  | None => VNil
  end.

(** A float as an integer when it has the value of one ([lua_numbertointeger]):
    the keys of a table are normalised this way. *)
Definition float_integer (bits : Z) : option Z :=
  let e := Z.land (Z.shiftr bits 52) 0x7ff in
  let f := bits `mod` 2 ^ 52 in
  let m := if decide (e = 0) then f else f + 2 ^ 52 in
  let x := Z.max e 1 - 1075 in
  if decide (e = 0x7ff) then None
  else if decide (0 ≤ x) then
    let v := m * 2 ^ x in
    if decide (bits < 2 ^ 63) then if decide (v < 2 ^ 63) then Some v else None
    else if decide (v ≤ 2 ^ 63) then Some (- v) else None
  else if decide (m `mod` 2 ^ (- x) = 0) then
    let v := m / 2 ^ (- x) in Some (if decide (bits < 2 ^ 63) then v else - v)
  else None.
Definition is_nan (bits : Z) : bool :=
  bool_decide (Z.land (Z.shiftr bits 52) 0x7ff = 0x7ff ∧ bits `mod` 2 ^ 52 ≠ 0).

Definition norm_key (k : lvalue) : lvalue :=
  match k with VReal b => match float_integer b with Some i => VInt i | None => k end | _ => k end.

(** Equality of normalised keys; every unpacked table is a new object. *)
Definition raw_equal (a b : lvalue) : bool :=
  match a, b with
  | VBool x, VBool y => bool_decide (x = y)
  | VInt x, VInt y => bool_decide (x = y)
  | VReal x, VReal y => bool_decide (x = y)
  | VStr x, VStr y => bool_decide (x = y)
  | VPointer x, VPointer y => bool_decide (x = y)
  | _, _ => false
  end.

(** No two fields have the same key. *)
Fixpoint keys_distinct (t : list (lvalue * lvalue)) : Prop :=
  match t with
  | [] => True
  | kv :: r => Forall (λ kv', raw_equal kv.1 kv'.1 = false) r ∧ keys_distinct r
  end.

Definition is_nil (v : lvalue) : bool := match v with VNil => true | _ => false end.

(** Storing under a key: a nil value removes the field. *)
Fixpoint raw_put (fields : list (lvalue * lvalue)) (k v : lvalue) : list (lvalue * lvalue) :=
  match fields with
  | [] => if is_nil v then [] else [(k, v)]
  | (k', v') :: r =>
      if raw_equal k k' then (if is_nil v then r else (k', v) :: r)
      else (k', v') :: raw_put r k v
  end.

(** [lua_rawset] and [lua_rawseti]. *)
Definition lua_rawset (fields : list (lvalue * lvalue)) (k v : lvalue) :
    result (list (lvalue * lvalue)) :=
  match k with
  | VNil => Err (LuaError 0)
  | VReal b => if is_nan b then Err (LuaError 0) else Ok (raw_put fields (norm_key k) v)
  | _ => Ok (raw_put fields k v)
  end.
Definition lua_rawseti (fields : list (lvalue * lvalue)) (i : Z) (v : lvalue) :=
  raw_put fields (VInt i) v.

(** ** Packing *)

Section Pack.
(** [lua_rawlen] of a table: some border, which one depends on the table's layout. *)
Context (lua_rawlen : list (lvalue * lvalue) → Z).

(** A key the array part has already covered. *)
Definition in_array (array_size : Z) (k : lvalue) : bool :=
  match k with VInt x => bool_decide (0 < x ∧ x ≤ array_size) | _ => false end.

Section Tables.
(** [pack_one] with the depth of a table's contents. *)
Context (pack_one : lvalue → write_block → result write_block).

Definition wb_table_array (fields : list (lvalue * lvalue)) (wb : write_block) :
    result (Z * write_block) :=
  let array_size := s32 (lua_rawlen fields) in
  wb ← (if decide (MAX_COOKIE - 1 ≤ array_size) then
          wb ← wb_push wb [COMBINE_TYPE TYPE_TABLE (MAX_COOKIE - 1)];
          wb_integer wb array_size
        else wb_push wb [COMBINE_TYPE TYPE_TABLE array_size]);
  wb ← c_for (Z.to_nat array_size) 1 (λ i wb, pack_one (lua_rawgeti fields i) wb) wb;
  Ok (array_size, wb).

Fixpoint wb_table_hash (fields : list (lvalue * lvalue)) (wb : write_block) (array_size : Z) :
    result write_block :=
  match fields with
  | [] => wb_nil wb
  | (k, v) :: r =>
      if in_array array_size k then wb_table_hash r wb array_size
      else
        wb ← pack_one k wb;
        wb ← pack_one v wb;
        wb_table_hash r wb array_size
  end.

(** The iterator ends at the first nil key. *)
Fixpoint metapairs_loop (yielded : list (lvalue * lvalue)) (wb : write_block) : result write_block :=
  match yielded with
  | [] => wb_nil wb
  | (k, v) :: r =>
      if is_nil k then wb_nil wb
      else
        wb ← pack_one k wb;
        wb ← pack_one v wb;
        metapairs_loop r wb
  end.
Definition wb_table_metapairs (yielded : list (lvalue * lvalue)) (wb : write_block) :
    result write_block :=
  wb ← wb_push wb [COMBINE_TYPE TYPE_TABLE 0];
  metapairs_loop yielded wb.

Definition wb_table (t : list (lvalue * lvalue)) (has_pairs : bool) (wb : write_block) :
    result write_block :=
  if has_pairs then wb_table_metapairs t wb
  else
    r ← wb_table_array t wb;
    wb_table_hash t r.2 r.1.
End Tables.

(** The fuel bounds the nesting, which the depth check limits to 33. *)
Fixpoint pack_one (fuel : nat) (depth : Z) (v : lvalue) (b : write_block) : result write_block :=
  match fuel with
  | O => Err OutOfFuel
  | S f =>
      if decide (MAX_DEPTH < depth) then Err (LuaError 0)
      else
        match v with
        | VNil => wb_nil b
        | VInt x => wb_integer b x
        | VReal n => wb_real b n
        | VBool x => wb_boolean b x
        | VStr s => wb_string b s (s32 (zlen s))
        | VPointer p => wb_pointer b p
        | VTable t => wb_table (pack_one f (depth + 1)) t false b
        | VPairs l => wb_table (pack_one f (depth + 1)) l true b
        | VOther => Err (LuaError 0)
        end
  end.
Definition pack_fuel : nat := Z.to_nat MAX_DEPTH + 2.

Fixpoint pack_from (vs : list lvalue) (b : write_block) : result write_block :=
  match vs with
  | [] => Ok b
  | v :: vs => b ← pack_one pack_fuel 0 v b; pack_from vs b
  end.

(** [seri]: [len] bytes copied from the blocks, which must have been written. *)
Fixpoint seri (blocks : list (list (option Z))) (len : Z) : result (list Z) :=
  if decide (0 < len) then
    match blocks with
    | [] => Err NullDeref
    | b :: next =>
        if decide (BLOCK_SIZE ≤ len) then
          h ← of_option Uninitialised (mapM id (take (Z.to_nat BLOCK_SIZE) b));
          t ← seri next (len - BLOCK_SIZE);
          Ok (h ++ t)
        else of_option Uninitialised (mapM id (take (Z.to_nat len) b))
    end
  else Ok [].

(** The buffer returned as a userdata, and its size. *)
Definition luaseri_pack (vs : list lvalue) : result (list Z * Z) :=
  wb ← pack_from vs wb_init;
  buffer ← seri (wb_full wb ++ [wb_current wb]) (wb_len wb);
  Ok (buffer, wb_len wb).
End Pack.

(** ** Unpacking *)

Record read_block : Type := mk_rb { rb_buffer : list Z; rb_len : Z; rb_ptr : Z }.

(** [rb_read]: the position in the buffer, or NULL. *)
Definition rb_read (rb : read_block) (sz : Z) : option Z * read_block :=
  if decide (rb_len rb < sz) then (None, rb)
  else (Some (rb_ptr rb), mk_rb (rb_buffer rb) (rb_len rb - sz) (rb_ptr rb + sz)).

(** [n] bytes of the buffer at a position. *)
Definition rb_bytes (rb : read_block) (p n : Z) : result (list Z) :=
  if decide (0 ≤ p ∧ 0 ≤ n ∧ p + n ≤ zlen (rb_buffer rb)) then
    Ok (take (Z.to_nat n) (drop (Z.to_nat p) (rb_buffer rb)))
  else Err OutOfBounds.

(** The common [rb_read], [invalid_stream] and [memcpy]. *)
Definition rb_take (rb : read_block) (sz : Z) : result (list Z * read_block) :=
  match rb_read rb sz with
  | (None, _) => Err (LuaError 0)
  | (Some p, rb) => bs ← rb_bytes rb p sz; Ok (bs, rb)
  end.

Definition get_integer (rb : read_block) (cookie : Z) : result (Z * read_block) :=
  if decide (cookie = TYPE_NUMBER_ZERO) then Ok (0, rb)
  else if decide (cookie = TYPE_NUMBER_BYTE) then
    r ← rb_take rb 1; Ok (u8 (le_value r.1), r.2)
  else if decide (cookie = TYPE_NUMBER_WORD) then
    r ← rb_take rb 2; Ok (u16 (le_value r.1), r.2)
  else if decide (cookie = TYPE_NUMBER_DWORD) then
    r ← rb_take rb 4; Ok (s32 (le_value r.1), r.2)
  else if decide (cookie = TYPE_NUMBER_QWORD) then
    r ← rb_take rb 8; Ok (s64 (le_value r.1), r.2)
  else Err (LuaError 0).

Definition get_real (rb : read_block) : result (Z * read_block) :=
  r ← rb_take rb 8; Ok (le_value r.1, r.2).
Definition get_pointer (rb : read_block) : result (Z * read_block) :=
  r ← rb_take rb 8; Ok (le_value r.1, r.2).

(** [len] is an [int], negative for a claimed length of 2^31 or more: [rb_read] lets it
    through, [lua_pushlstring] does not. *)
Definition get_buffer (rb : read_block) (len : Z) : result (lvalue * read_block) :=
  match rb_read rb len with
  | (None, _) => Err (LuaError 0)
  | (Some p, rb) => bs ← lua_pushlstring len (rb_bytes rb p len); Ok (VStr bs, rb)
  end.

Section Unpack.
(** [unpack_one] on the rest of the stream; the fuel of the loops bounds the
    values they read, each of which takes a byte at least. *)
Context (unpack_one : read_block → result (lvalue * read_block)).

Fixpoint array_loop (fuel : nat) (rb : read_block) (i array_size : Z)
    (fields : list (lvalue * lvalue)) : result (list (lvalue * lvalue) * read_block) :=
  if decide (i ≤ array_size) then
    match fuel with
    | O => Err OutOfFuel
    | S f =>
        r ← unpack_one rb;
        array_loop f r.2 (i + 1) array_size (lua_rawseti fields i r.1)
    end
  else Ok (fields, rb).

Fixpoint hash_loop (fuel : nat) (rb : read_block) (fields : list (lvalue * lvalue)) :
    result (list (lvalue * lvalue) * read_block) :=
  match fuel with
  | O => Err OutOfFuel
  | S f =>
      k ← unpack_one rb;
      if is_nil k.1 then Ok (fields, k.2)
      else
        v ← unpack_one k.2;
        fields ← lua_rawset fields k.1 v.1;
        hash_loop f v.2 fields
  end.

Definition unpack_table (fuel : nat) (rb : read_block) (cookie : Z) :
    result (lvalue * read_block) :=
  r ← (if decide (cookie = MAX_COOKIE - 1) then
         t ← rb_take rb 1;
         let type := u8 (le_value t.1) in
         let cookie := Z.shiftr type 3 in
         if decide (Z.land type 7 ≠ TYPE_NUMBER ∨ cookie = TYPE_NUMBER_REAL) then Err (LuaError 0)
         else n ← get_integer t.2 cookie; Ok (s32 n.1, n.2)
       else Ok (cookie, rb));
  a ← array_loop fuel r.2 1 r.1 [];
  h ← hash_loop fuel a.2 a.1;
  Ok (VTable h.1, h.2).

Definition push_value (fuel : nat) (rb : read_block) (type cookie : Z) :
    result (lvalue * read_block) :=
  if decide (type = TYPE_NIL) then Ok (VNil, rb)
  else if decide (type = TYPE_BOOLEAN) then Ok (VBool (bool_decide (cookie ≠ 0)), rb)
  else if decide (type = TYPE_NUMBER) then
    if decide (cookie = TYPE_NUMBER_REAL) then r ← get_real rb; Ok (VReal r.1, r.2)
    else r ← get_integer rb cookie; Ok (VInt r.1, r.2)
  else if decide (type = TYPE_USERDATA) then r ← get_pointer rb; Ok (VPointer r.1, r.2)
  else if decide (type = TYPE_SHORT_STRING) then get_buffer rb cookie
  else if decide (type = TYPE_LONG_STRING) then
    if decide (cookie = 2) then
      r ← rb_take rb 2; get_buffer r.2 (u16 (le_value r.1))
    else if decide (cookie ≠ 4) then Err (LuaError 0)
    else r ← rb_take rb 4; get_buffer r.2 (s32 (le_value r.1))
  else if decide (type = TYPE_TABLE) then unpack_table fuel rb cookie
  else Err (LuaError 0).
End Unpack.

Fixpoint unpack_one (fuel : nat) (rb : read_block) : result (lvalue * read_block) :=
  match fuel with
  | O => Err OutOfFuel
  | S f =>
      t ← rb_take rb 1;
      let type := u8 (le_value t.1) in
      push_value (unpack_one f) f t.2 (Z.land type 7) (Z.shiftr type 3)
  end.

(** The loop of [luaseri_unpack]: the stream may end between two values. *)
Fixpoint unpack_all (fuel : nat) (rb : read_block) : result (list lvalue) :=
  match rb_read rb 1 with
  | (None, _) => Ok []
  | (Some p, rb') =>
      match fuel with
      | O => Err OutOfFuel
      | S f =>
          t ← rb_bytes rb' p 1;
          let type := u8 (le_value t) in
          r ← push_value (unpack_one f) f rb' (Z.land type 7) (Z.shiftr type 3);
          vs ← unpack_all f r.2;
          Ok (r.1 :: vs)
      end
  end.

(** The first argument: absent or nil, a string, or a pointer with a length. *)
Inductive unpack_arg : Type :=
| ArgNone
| ArgString (s : list Z)
| ArgPointer (p : option (list Z)) (len : Z).

Definition luaseri_unpack (arg : unpack_arg) : result (list lvalue) :=
  let run (buffer : option (list Z)) (len : Z) :=
    if decide (len = 0) then Ok []
    else
      b ← of_option (LuaError 0) buffer;
      unpack_all (S (Z.to_nat len)) (mk_rb b len 0) in
  match arg with
  | ArgNone => Ok []
  | ArgString s => run (Some s) (s32 (zlen s))
  | ArgPointer p len => run p (s32 len)
  end.

(** ** What the writer does *)

Record wb_repr (b : write_block) (l : list Z) : Prop := {
  wr_full : Forall (λ blk, length blk = 128%nat) (wb_full b);
  wr_current : length (wb_current b) = 128%nat;
  wr_ptr : 0 ≤ wb_ptr b ≤ 128;
  wr_bytes : concat (wb_full b) ++ take (Z.to_nat (wb_ptr b)) (wb_current b) = Some <$> l;
  wr_len : wb_len b = zlen l }.

Lemma wb_repr_init : wb_repr wb_init [].
Proof. by split; try apply Forall_nil. Qed.

Lemma wb_next_repr b l : wb_repr b l → wb_ptr b = 128 → wb_repr (wb_next b) l.
Proof.
  intros [Hf Hc Hp Hb Hl] E. split; cbn -[blk_alloc take].
  - apply Forall_app. split; [done|]. by apply Forall_singleton.
  - done.
  - lia.
  - rewrite concat_app, take_0, app_nil_r. cbn. rewrite app_nil_r, <- Hb, E.
    by rewrite firstn_all2 by lia.
  - done.
Qed.

Lemma wb_memcpy_repr b l buf :
  wb_repr b l → wb_ptr b + zlen buf ≤ 128 →
  ∃ cur, wb_memcpy b buf = Ok cur ∧ length cur = 128%nat ∧
    concat (wb_full b) ++ take (Z.to_nat (wb_ptr b + zlen buf)) cur = Some <$> (l ++ buf).
Proof.
  intros [Hf Hc Hp Hb Hl] Hle. unfold wb_memcpy. pose proof (zlen_nonneg buf).
  rewrite decide_True by (unfold zlen in *; rewrite Hc; lia). eexists. split; [done|]. split.
  - rewrite !length_app, length_take, length_drop, length_fmap, Hc. unfold zlen in *. lia.
  - rewrite app_assoc, take_app_le.
    + rewrite firstn_all2.
      * by rewrite app_assoc, Hb, fmap_app.
      * rewrite length_app, length_take, length_fmap, Hc. unfold zlen in *. lia.
    + rewrite length_app, length_take, length_fmap, Hc. unfold zlen in *. lia.
Qed.

Lemma wb_copy_spec fuel b l buf :
  wb_repr b l → wb_ptr b < 128 → (length buf ≤ fuel)%nat → zlen l + zlen buf ≤ INT_MAX →
  ∃ b', wb_copy fuel b buf = Ok b' ∧ wb_repr b' (l ++ buf).
Proof.
  revert b l buf. induction fuel as [|f IH]; intros b l buf Hr Hp Hfuel Hint; cbn [wb_copy].
  all: pose proof (zlen_nonneg l) as H0; pose proof (zlen_nonneg buf) as H1; pose proof (wr_len _ _ Hr) as Hlen.
  all: destruct (decide (wb_ptr b ≤ BLOCK_SIZE - zlen buf)) as [Hle|Hgt]; unfold BLOCK_SIZE in *.
  1, 3: destruct (wb_memcpy_repr b l buf Hr) as (cur & -> & Hc & Hb); [lia|];
    rewrite bind_Ok, c_int_Ok, bind_Ok by (unfold INT_MIN; lia);
    eexists; split; [done|]; destruct Hr; split; cbn -[take]; try done; [lia|];
    rewrite zlen_app; lia.
  - unfold zlen in *. lia.
  - destruct (wr_ptr _ _ Hr) as [Hp0 _].
    set (h := take (Z.to_nat (128 - wb_ptr b)) buf).
    assert (zlen h = 128 - wb_ptr b) as Hh
      by (unfold h, zlen in *; rewrite length_take; lia).
    destruct (wb_memcpy_repr b l h Hr) as (cur & -> & Hc & Hb); [lia|].
    rewrite bind_Ok, c_int_Ok, bind_Ok by (unfold INT_MIN, zlen in *; lia).
    set (b1 := mk_wb (wb_full b) cur (wb_len b + (128 - wb_ptr b)) 128).
    assert (wb_repr b1 (l ++ h)) as Hr1.
    { destruct Hr. split; cbn -[take]; try done; [|rewrite zlen_app; lia].
      rewrite <- Hb. do 3 f_equal. lia. }
    assert (buf = h ++ drop (Z.to_nat (128 - wb_ptr b)) buf) as E by (symmetry; apply take_drop).
    assert (zlen buf = zlen h + zlen (drop (Z.to_nat (128 - wb_ptr b)) buf)) as El
      by (rewrite E at 1; apply zlen_app).
    destruct (IH (wb_next b1) (l ++ h) (drop (Z.to_nat (128 - wb_ptr b)) buf)) as (b' & E' & Hr').
    + by apply wb_next_repr.
    + done.
    + rewrite length_drop. lia.
    + rewrite zlen_app. lia.
    + exists b'. split; [exact E'|]. by rewrite <- app_assoc, <- E in Hr'.
Qed.

Lemma seri_spec full cur l ptr :
  Forall (λ blk : list (option Z), length blk = 128%nat) full → length cur = 128%nat →
  (ptr ≤ 128)%nat → concat full ++ take ptr cur = Some <$> l →
  seri (full ++ [cur]) (zlen l) = Ok l.
Proof.
  assert (∀ k : list Z, mapM id (Some <$> k) = Some k) as Hm.
  { intros k. induction k as [|x k IH]; [done|]. cbn. by rewrite IH. }
  intros Hf Hc Hp. revert l. induction Hf as [|b full Hb Hf IH]; intros l E.
  - cbn in E. assert (length l = ptr) as Hl
      by (rewrite <- (length_fmap Some), <- E, length_take, Hc; lia).
    assert (take (Z.to_nat (zlen l)) cur = Some <$> l) as Et
      by (rewrite <- E; f_equal; unfold zlen; lia).
    cbn [app seri]. unfold BLOCK_SIZE. destruct (decide (0 < zlen l)); cycle 1.
    { destruct l; [done|]. unfold zlen in *. cbn in *. lia. }
    destruct (decide (128 ≤ zlen l)).
    + replace (Z.to_nat 128) with (Z.to_nat (zlen l)) by (unfold zlen in *; lia).
      rewrite Et, Hm. cbn [of_option]. rewrite bind_Ok, decide_False by (unfold zlen in *; lia).
      cbn. by rewrite app_nil_r.
    + by rewrite Et, Hm.
  - cbn in E. rewrite <- app_assoc in E.
    assert (128 ≤ length l)%nat as Hl by (rewrite <- (length_fmap Some l), <- E, length_app; lia).
    rewrite <- (take_drop 128 l), fmap_app in E.
    apply app_inj_1 in E as [E1 E2]; [|rewrite length_fmap, length_take; lia].
    cbn [app seri]. unfold BLOCK_SIZE. rewrite !decide_True by (unfold zlen; lia).
    rewrite E1, firstn_all2 by (rewrite length_fmap, length_take; lia).
    rewrite Hm. cbn [of_option]. rewrite bind_Ok. replace (zlen l - 128) with (zlen (drop 128 l))
      by (unfold zlen; rewrite length_drop; lia).
    rewrite (IH _ E2), bind_Ok. by rewrite take_drop.
Qed.

(** [f] appends exactly the bytes [e], as long as their count fits an [int]. *)
Definition writes (f : write_block → result write_block) (e : list Z) : Prop :=
  ∀ b l, wb_repr b l → zlen l + zlen e ≤ INT_MAX → ∃ b', f b = Ok b' ∧ wb_repr b' (l ++ e).

Lemma writes_push buf : writes (λ b, wb_push b buf) buf.
Proof.
  intros b l Hr Hi. unfold wb_push, BLOCK_SIZE. pose proof (wr_ptr _ _ Hr).
  destruct (decide (wb_ptr b = 128)).
  - apply wb_copy_spec; [by apply wb_next_repr|done|lia|done].
  - apply wb_copy_spec; [done|lia|lia|done].
Qed.
Lemma writes_bind f g e1 e2 :
  writes f e1 → writes g e2 → writes (λ b, b ← f b; g b) (e1 ++ e2).
Proof.
  intros Hf Hg b l Hr Hi. rewrite zlen_app in Hi. pose proof (zlen_nonneg e2).
  destruct (Hf b l Hr) as (b1 & -> & Hr1); [lia|]. rewrite bind_Ok.
  destruct (Hg b1 _ Hr1) as (b2 & -> & Hr2); [rewrite zlen_app; lia|].
  exists b2. split; [done|]. by rewrite app_assoc.
Qed.
Lemma writes_ret : writes (λ b, Ok b) [].
Proof. intros b l Hr _. exists b. split; [done|]. by rewrite app_nil_r. Qed.
Lemma writes_ext f g e : (∀ b, f b = g b) → writes f e → writes g e.
Proof. intros E H b l. rewrite <- E. apply H. Qed.
Lemma writes_c_for (body : Z → write_block → result write_block) (e : Z → list Z) n i :
  (∀ j, i ≤ j < i + Z.of_nat n → writes (body j) (e j)) →
  writes (c_for n i body) (concat (e <$> seqZ i (Z.of_nat n))).
Proof.
  revert i. induction n as [|n IH]; intros i H.
  - apply writes_ret.
  - rewrite seqZ_cons by lia. cbn [fmap list_fmap concat].
    apply (writes_bind (body i)); [apply H; lia|].
    replace (Z.pred (Z.of_nat (S n))) with (Z.of_nat n) by lia.
    rewrite Z.add_1_r. apply IH. intros j Hj. apply H. lia.
Qed.

Create HintDb seri.
#[export] Hint Resolve writes_push writes_ret writes_bind : seri.

(** ** The format *)

Definition enc_integer (v : Z) : list Z :=
  if decide (v = 0) then [COMBINE_TYPE TYPE_NUMBER TYPE_NUMBER_ZERO]
  else if decide (v ≠ s32 v) then [COMBINE_TYPE TYPE_NUMBER TYPE_NUMBER_QWORD] ++ le_bytes 8 v
  else if decide (v < 0) then [COMBINE_TYPE TYPE_NUMBER TYPE_NUMBER_DWORD] ++ le_bytes 4 v
  else if decide (v < 0x100) then [COMBINE_TYPE TYPE_NUMBER TYPE_NUMBER_BYTE] ++ le_bytes 1 v
  else if decide (v < 0x10000) then [COMBINE_TYPE TYPE_NUMBER TYPE_NUMBER_WORD] ++ le_bytes 2 v
  else [COMBINE_TYPE TYPE_NUMBER TYPE_NUMBER_DWORD] ++ le_bytes 4 v.

Definition enc_string (s : list Z) : list Z :=
  let len := zlen s in
  if decide (len < MAX_COOKIE) then [COMBINE_TYPE TYPE_SHORT_STRING len] ++ s
  else if decide (len < 0x10000) then [COMBINE_TYPE TYPE_LONG_STRING 2] ++ le_bytes 2 len ++ s
  else [COMBINE_TYPE TYPE_LONG_STRING 4] ++ le_bytes 4 len ++ s.

Definition enc_size (n : Z) : list Z :=
  if decide (MAX_COOKIE - 1 ≤ n) then [COMBINE_TYPE TYPE_TABLE (MAX_COOKIE - 1)] ++ enc_integer n
  else [COMBINE_TYPE TYPE_TABLE n].

Section Format.
Context (lua_rawlen : list (lvalue * lvalue) → Z).

(** The fields behind the array part. *)
Definition hash_part (n : Z) (fields : list (lvalue * lvalue)) : list (lvalue * lvalue) :=
  filter (λ kv, in_array n kv.1 = false) fields.

Fixpoint encode (nesting : nat) (v : lvalue) : list Z :=
  match v with
  | VNil => [TYPE_NIL]
  | VBool b => [COMBINE_TYPE TYPE_BOOLEAN (if b then 1 else 0)]
  | VInt i => enc_integer i
  | VReal b => [COMBINE_TYPE TYPE_NUMBER TYPE_NUMBER_REAL] ++ le_bytes 8 b
  | VStr s => enc_string s
  | VPointer p => [TYPE_USERDATA] ++ le_bytes 8 p
  | VTable t =>
      match nesting with
      | O => []
      | S m => enc_size (lua_rawlen t)
          ++ concat ((λ i, encode m (lua_rawgeti t i)) <$> seqZ 1 (lua_rawlen t))
          ++ concat ((λ kv, encode m kv.1 ++ encode m kv.2) <$> hash_part (lua_rawlen t) t)
          ++ [TYPE_NIL]
      end
  | VPairs l =>
      match nesting with
      | O => []
      | S m => [COMBINE_TYPE TYPE_TABLE 0]
          ++ concat ((λ kv, encode m kv.1 ++ encode m kv.2) <$> l) ++ [TYPE_NIL]
      end
  | VOther => []
  end.

(** A key a Lua table can have: not nil, not NaN, no float equal to an integer. *)
Definition key_ok (k : lvalue) : Prop :=
  match k with
  | VNil => False
  | VReal b => is_nan b = false ∧ float_integer b = None
  | _ => True
  end.

(** What can be packed with at most [nesting] levels of tables: integers, floats
    and pointers of 64 bits, strings that fit an [int]; the keys of a table are
    distinct valid keys and its values not nil. *)
Fixpoint packable (nesting : nat) (v : lvalue) : Prop :=
  match v with
  | VNil | VBool _ => True
  | VInt i => - 2 ^ 63 ≤ i < 2 ^ 63
  | VReal b => 0 ≤ b < 2 ^ 64
  | VStr s => Forall (λ c, 0 ≤ c < 256) s ∧ zlen s ≤ INT_MAX
  | VPointer p => 0 ≤ p < 2 ^ 64
  | VTable t =>
      match nesting with
      | O => False
      | S m => 0 ≤ lua_rawlen t ≤ INT_MAX ∧
          keys_distinct t ∧
          Forall (λ kv, key_ok kv.1 ∧ kv.2 ≠ VNil ∧ packable m kv.1 ∧ packable m kv.2) t
      end
  | VPairs l =>
      match nesting with
      | O => False
      | S m => Forall (λ kv, key_ok kv.1 ∧ packable m kv.1 ∧ packable m kv.2) l
      end
  | VOther => False
  end.

Lemma packable_int m i : - 2 ^ 63 ≤ i < 2 ^ 63 → packable m (VInt i).
Proof. by destruct m. Qed.
Lemma packable_table m t :
  0 ≤ lua_rawlen t ≤ INT_MAX ∧ keys_distinct t ∧
  Forall (λ kv, key_ok kv.1 ∧ kv.2 ≠ VNil ∧ packable m kv.1 ∧ packable m kv.2) t →
  packable (S m) (VTable t).
Proof. done. Qed.

Lemma writes_integer v : writes (λ b, wb_integer b v) (enc_integer v).
Proof. unfold wb_integer, enc_integer. repeat case_decide; auto with seri. Qed.

Lemma writes_string s :
  zlen s ≤ INT_MAX → writes (λ b, wb_string b s (s32 (zlen s))) (enc_string s).
Proof.
  intros Hs. pose proof (zlen_nonneg s). unfold wb_string, enc_string.
  rewrite swrap_small by (unfold INT_MAX in *; lia).
  assert (take (Z.to_nat (zlen s)) s = s) as -> by (apply firstn_all2; unfold zlen; lia).
  case_decide.
  - apply writes_bind; [auto with seri|]. case_decide; [auto with seri|].
    assert (s = []) as -> by (destruct s; [done|unfold zlen in *; cbn in *; lia]). auto with seri.
  - destruct (decide (zlen s < 65536)); rewrite app_assoc; auto with seri.
Qed.

Lemma writes_size n :
  writes (λ wb, if decide (MAX_COOKIE - 1 ≤ n) then
                  wb ← wb_push wb [COMBINE_TYPE TYPE_TABLE (MAX_COOKIE - 1)]; wb_integer wb n
                else wb_push wb [COMBINE_TYPE TYPE_TABLE n]) (enc_size n).
Proof.
  unfold enc_size. case_decide; [|auto with seri].
  apply writes_bind; [auto with seri|apply writes_integer].
Qed.

Lemma writes_hash (pack : lvalue → write_block → result write_block) (e : lvalue → list Z) t n :
  Forall (λ kv, writes (pack kv.1) (e kv.1) ∧ writes (pack kv.2) (e kv.2)) t →
  writes (λ wb, wb_table_hash pack t wb n)
    (concat ((λ kv, e kv.1 ++ e kv.2) <$> hash_part n t) ++ [TYPE_NIL]).
Proof.
  intros H. unfold hash_part. induction H as [|[k v] t [Hk Hv] _ IH]; [apply writes_push|].
  cbn [wb_table_hash]. destruct (in_array n k) eqn:E.
  - rewrite filter_cons_False by (cbn; congruence). exact IH.
  - rewrite filter_cons_True by done. cbn in *. rewrite <- !app_assoc. auto with seri.
Qed.
Lemma writes_metapairs (pack : lvalue → write_block → result write_block) (e : lvalue → list Z) l :
  Forall (λ kv, key_ok kv.1 ∧ writes (pack kv.1) (e kv.1) ∧ writes (pack kv.2) (e kv.2)) l →
  writes (metapairs_loop pack l) (concat ((λ kv, e kv.1 ++ e kv.2) <$> l) ++ [TYPE_NIL]).
Proof.
  induction 1 as [|[k v] l (Hkey & Hk & Hv) _ IH]; cbn -[wb_nil]; [apply writes_push|].
  destruct (is_nil k) eqn:E; [by destruct k|]. cbn in *. rewrite <- !app_assoc. auto with seri.
Qed.

Lemma rawgeti_packable m t i :
  Forall (λ kv, key_ok kv.1 ∧ kv.2 ≠ VNil ∧ packable m kv.1 ∧ packable m kv.2) t →
  packable m (lua_rawgeti t i).
Proof.
  intros H. unfold lua_rawgeti. destruct (list_find _ t) as [[j kv]|] eqn:E; [|by destruct m].
  apply list_find_Some in E as (Hj & _). rewrite Forall_lookup in H. by destruct (H _ _ Hj) as (_ & _ & _ & ?).
Qed.

(** [pack_one] writes the format. *)
Lemma pack_one_spec nesting fuel depth v :
  packable nesting v → depth + Z.of_nat nesting ≤ MAX_DEPTH → (nesting < fuel)%nat →
  writes (pack_one lua_rawlen fuel depth v) (encode nesting v).
Proof.
  revert fuel depth v. induction nesting as [|m IH]; intros [|f] depth v Hp Hd Hf; try lia;
    cbn [pack_one]; (destruct (decide (MAX_DEPTH < depth)) as [?|_]; [lia|]);
    destruct v as [|b|i|b|s|p|t|l|]; try done.
  all: try (apply writes_push); try (apply writes_integer); try (apply writes_bind; apply writes_push).
  all: try (apply writes_string; apply Hp).
  - destruct Hp as (Hn & _ & Hfields).
    assert (∀ v, packable m v → writes (pack_one lua_rawlen f (depth + 1) v) (encode m v)) as Hrec
      by (intros; apply IH; [done|lia|lia]).
    cbn [encode]. unfold wb_table, wb_table_array.
    rewrite swrap_small by (unfold INT_MAX in *; lia). set (n := lua_rawlen t) in *.
    eapply (writes_ext (λ wb, wb ← (if decide (MAX_COOKIE - 1 ≤ n) then
                  wb ← wb_push wb [COMBINE_TYPE TYPE_TABLE (MAX_COOKIE - 1)]; wb_integer wb n
                else wb_push wb [COMBINE_TYPE TYPE_TABLE n]);
       wb ← c_for (Z.to_nat n) 1 (λ i wb, pack_one lua_rawlen f (depth + 1) (lua_rawgeti t i) wb) wb;
       wb_table_hash (pack_one lua_rawlen f (depth + 1)) t wb n)).
    { intros b. destruct (if decide (MAX_COOKIE - 1 ≤ n) then _ else _) as [b1|]; [|done].
      rewrite !bind_Ok. by destruct (c_for _ _ _ _). }
    apply writes_bind; [apply writes_size|]. apply writes_bind.
    + rewrite <- (Z2Nat.id n) at 2 by lia.
      apply (writes_c_for _ (λ i, encode m (lua_rawgeti t i))). intros j _.
      apply Hrec. by apply rawgeti_packable.
    + apply writes_hash. eapply Forall_impl; [exact Hfields|]. intros kv (_ & _ & ? & ?). auto.
  - cbn [encode]. apply writes_bind; [apply writes_push|]. apply writes_metapairs.
    eapply Forall_impl; [exact Hp|]. intros kv (? & ? & ?).
    split; [done|]. split; apply IH; (done || lia).
Qed.
End Format.

(** ** What the reader does *)

(** The reader behind [pre] with [rest] ahead. *)
Definition rb_at (pre rest : list Z) : read_block := mk_rb (pre ++ rest) (zlen rest) (zlen pre).

Lemma rb_read_at pre e rest :
  rb_read (rb_at pre (e ++ rest)) (zlen e) = (Some (zlen pre), rb_at (pre ++ e) rest).
Proof.
  unfold rb_read, rb_at. cbn. rewrite !zlen_app. pose proof (zlen_nonneg rest).
  rewrite decide_False by lia. do 2 f_equal; [by rewrite app_assoc|lia].
Qed.
Lemma rb_bytes_at pre e rest : rb_bytes (rb_at (pre ++ e) rest) (zlen pre) (zlen e) = Ok e.
Proof.
  unfold rb_bytes, rb_at. cbn. rewrite !zlen_app. pose proof (zlen_nonneg rest).
  pose proof (zlen_nonneg pre). pose proof (zlen_nonneg e). rewrite decide_True by lia.
  unfold zlen. rewrite !Nat2Z.id, <- app_assoc, drop_app_length. by rewrite take_app_length.
Qed.
Lemma rb_take_at pre e rest k :
  k = zlen e → rb_take (rb_at pre (e ++ rest)) k = Ok (e, rb_at (pre ++ e) rest).
Proof. intros ->. unfold rb_take. by rewrite rb_read_at, rb_bytes_at. Qed.
Lemma get_buffer_at pre s rest k :
  k = zlen s → zlen s ≤ INT_MAX →
  get_buffer (rb_at pre (s ++ rest)) k = Ok (VStr s, rb_at (pre ++ s) rest).
Proof.
  intros -> Hs. pose proof (zlen_nonneg s). unfold get_buffer.
  rewrite rb_read_at. unfold lua_pushlstring. rewrite decide_False by lia. by rewrite rb_bytes_at.
Qed.

(** A type byte. *)
Lemma combine_type t c :
  0 ≤ t < 8 → 0 ≤ c < 32 →
  Z.land (COMBINE_TYPE t c) 7 = t ∧ Z.shiftr (COMBINE_TYPE t c) 3 = c ∧
  u8 (le_value [COMBINE_TYPE t c]) = COMBINE_TYPE t c.
Proof.
  intros Ht Hc. assert (COMBINE_TYPE t c = t + c * 2 ^ 3) as E.
  { unfold COMBINE_TYPE. rewrite Z.shiftl_mul_pow2, lor_add_high by lia.
    apply uwrap_small. lia. }
  rewrite E. split; [|split].
  - change 7 with (2 ^ 3 - 1). rewrite land_ones_mod by lia. rewrite Z.mod_add by lia.
    apply Z.mod_small. lia.
  - rewrite Z.shiftr_div_pow2 by lia. rewrite Z.div_add by lia. rewrite Z.div_small by lia. lia.
  - cbn -[Z.add Z.mul Z.pow uwrap]. rewrite Z.shiftl_0_l, Z.lor_0_r. apply uwrap_small. lia.
Qed.

Lemma unpack_head f pre t c e :
  0 ≤ t < 8 → 0 ≤ c < 32 →
  unpack_one (S f) (rb_at pre ([COMBINE_TYPE t c] ++ e)) =
    push_value (unpack_one f) f (rb_at (pre ++ [COMBINE_TYPE t c]) e) t c.
Proof.
  intros Ht Hc. destruct (combine_type t c Ht Hc) as (H1 & H2 & H3).
  cbn [unpack_one]. rewrite rb_take_at by done. rewrite bind_Ok. cbn [fst snd]. by rewrite H3, H1, H2.
Qed.

(** Integers of [k] bytes. *)
Lemma le_bytes_length k v : 0 ≤ k → zlen (le_bytes k v) = k.
Proof. intros. by apply length_Z_to_little_endian. Qed.
Lemma le_value_bytes k v : 0 ≤ k → le_value (le_bytes k v) = v `mod` 2 ^ (k * 8).
Proof. intros. by rewrite little_endian_to_Z_to_little_endian by lia. Qed.
Lemma rb_take_le pre k v rest :
  0 ≤ k → rb_take (rb_at pre (le_bytes k v ++ rest)) k
    = Ok (le_bytes k v, rb_at (pre ++ le_bytes k v) rest).
Proof. intros. apply rb_take_at. by rewrite le_bytes_length. Qed.

Lemma swrap_mod w v : 0 < w → - 2 ^ (w - 1) ≤ v < 2 ^ (w - 1) → swrap w (v `mod` 2 ^ w) = v.
Proof.
  intros Hw Hv. transitivity (swrap w v); [|by apply swrap_small].
  unfold swrap. by rewrite Zplus_mod_idemp_l.
Qed.

(** The bytes behind the type byte of an integer, and its cookie. *)
Lemma enc_integer_read v :
  - 2 ^ 63 ≤ v < 2 ^ 63 →
  ∃ c body, enc_integer v = [COMBINE_TYPE TYPE_NUMBER c] ++ body ∧ 0 ≤ c < 32 ∧
    c ≠ TYPE_NUMBER_REAL ∧
    ∀ pre rest, get_integer (rb_at pre (body ++ rest)) c = Ok (v, rb_at (pre ++ body) rest).
Proof.
  intros Hv. unfold enc_integer, get_integer.
  destruct (decide (v = 0)) as [->|H0].
  { exists 0, []. split; [done|]. do 2 (split; [done|]). intros pre rest. cbn.
    by rewrite app_nil_r. }
  destruct (decide (v ≠ s32 v)) as [H32|H32].
  { exists TYPE_NUMBER_QWORD, (le_bytes 8 v). do 3 (split; [done|]). intros pre rest. cbn [decide].
    rewrite rb_take_le by lia. cbn. do 2 f_equal.
    rewrite le_value_bytes by lia. apply swrap_mod; lia. }
  destruct (decide (s32 v = v)) as [E|Hne]; [|destruct H32; intros E; by symmetry in E].
  pose proof (swrap_range 32 v ltac:(lia)) as Hr. rewrite E in Hr.
  assert (∀ k, 0 ≤ v < 2 ^ (k * 8) → 0 ≤ k → le_value (le_bytes k v) = v) as Hk.
  { intros k Hlt Hpos. rewrite le_value_bytes by lia. by apply Z.mod_small. }
  destruct (decide (v < 0)); [|destruct (decide (v < 256)); [|destruct (decide (v < 65536))]].
  - exists TYPE_NUMBER_DWORD, (le_bytes 4 v). do 3 (split; [done|]). intros pre rest. cbn [decide].
    rewrite rb_take_le by lia. cbn. do 2 f_equal. rewrite le_value_bytes by lia. apply swrap_mod; lia.
  - exists TYPE_NUMBER_BYTE, (le_bytes 1 v). do 3 (split; [done|]). intros pre rest. cbn [decide].
    rewrite rb_take_le by lia. cbn -[little_endian_to_Z uwrap]. do 2 f_equal. rewrite Hk by lia.
    apply uwrap_small. lia.
  - exists TYPE_NUMBER_WORD, (le_bytes 2 v). do 3 (split; [done|]). intros pre rest. cbn [decide].
    rewrite rb_take_le by lia. cbn -[little_endian_to_Z uwrap]. do 2 f_equal. rewrite Hk by lia.
    apply uwrap_small. lia.
  - exists TYPE_NUMBER_DWORD, (le_bytes 4 v). do 3 (split; [done|]). intros pre rest. cbn [decide].
    rewrite rb_take_le by lia. cbn -[little_endian_to_Z]. do 2 f_equal.
    rewrite le_value_bytes by lia. apply swrap_mod; lia.
Qed.

(** ** Tables rebuilt field by field *)

Lemma raw_put_fresh fields k v :
  Forall (λ kv, raw_equal k kv.1 = false) fields →
  raw_put fields k v = fields ++ (if is_nil v then [] else [(k, v)]).
Proof.
  induction 1 as [|[k' v'] fields Hk _ IH]; [done|]. cbn in *. by rewrite Hk, IH.
Qed.

(** The fields of the array part, in order; nil is no field. *)
Definition array_part (n : nat) (i : Z) (t : list (lvalue * lvalue)) : list (lvalue * lvalue) :=
  omap (λ j, if is_nil (lua_rawgeti t j) then None else Some (VInt j, lua_rawgeti t j))
    (seqZ i (Z.of_nat n)).

Lemma array_part_S n i t :
  array_part (S n) i t
    = (if is_nil (lua_rawgeti t i) then [] else [(VInt i, lua_rawgeti t i)]) ++ array_part n (i + 1) t.
Proof.
  unfold array_part. rewrite seqZ_cons by lia. cbn [omap list_omap].
  replace (Z.pred (Z.of_nat (S n))) with (Z.of_nat n) by lia. rewrite <- Z.add_1_r.
  by destruct (is_nil _).
Qed.
Lemma elem_of_array_part n i t kv :
  kv ∈ array_part n i t ↔
  ∃ j, i ≤ j < i + Z.of_nat n ∧ kv = (VInt j, lua_rawgeti t j) ∧ is_nil (lua_rawgeti t j) = false.
Proof.
  unfold array_part. rewrite list_elem_of_omap. split.
  - intros (j & Hj%elem_of_seqZ & E). exists j. destruct (is_nil _); [done|].
    injection E as <-. split; [lia|done].
  - intros (j & Hj & -> & E). exists j. rewrite elem_of_seqZ, E. split; [lia|done].
Qed.

(** ** Which fields come back *)

Lemma rawgeti_cons kv t i :
  lua_rawgeti (kv :: t) i = if is_int_key i kv then kv.2 else lua_rawgeti t i.
Proof.
  unfold lua_rawgeti. cbn [list_find]. destruct (decide (is_int_key i kv = true)) as [E|E].
  - by rewrite E.
  - apply not_true_is_false in E as E'. rewrite E'.
    by destruct (list_find _ t) as [[j kv']|].
Qed.

(** A field with an integer key is what [lua_rawgeti] reads. *)
Lemma rawgeti_elem t i v :
  keys_distinct t → Forall (λ kv, kv.2 ≠ VNil) t →
  ((VInt i, v) ∈ t ↔ lua_rawgeti t i = v ∧ v ≠ VNil).
Proof.
  intros Hd Hn. induction t as [|[k w] t IH].
  - split; [by intros ?%elem_of_nil|]. intros [E ?]. by rewrite <- E in *.
  - destruct Hd as [Hk Hd]. apply Forall_cons in Hn as [Hw Hn].
    specialize (IH Hd Hn). rewrite rawgeti_cons, elem_of_cons, IH. cbn in *.
    unfold is_int_key. cbn. destruct k as [| |j| | | | | |]; try (split; [intros [?|?]; [congruence|done]|auto]).
    destruct (decide (i = j)) as [->|Hne].
    + rewrite bool_decide_eq_true_2 by done. split.
      * intros [E|[E ?]]; [naive_solver|]. exfalso.
        assert ((VInt j, v) ∈ t) as Hin by by apply IH.
        rewrite Forall_forall in Hk. specialize (Hk _ Hin). cbn in Hk.
        by rewrite bool_decide_eq_true_2 in Hk.
      * intros [-> ?]. by left.
    + rewrite bool_decide_eq_false_2 by done. split; [intros [?|?]; [congruence|done]|auto].
Qed.

Lemma array_first_perm n t :
  0 ≤ n → keys_distinct t → Forall (λ kv, kv.2 ≠ VNil) t →
  array_part (Z.to_nat n) 1 t ++ hash_part n t ≡ₚ t.
Proof.
  intros Hn Hd Hv. set (inside := filter (λ kv, ¬ in_array n kv.1 = false) t).
  transitivity (inside ++ hash_part n t); cycle 1.
  { rewrite Permutation_app_comm. unfold inside, hash_part. apply filter_app_complement. }
  apply Permutation_app_tail. apply NoDup_Permutation.
  - unfold array_part. generalize (Z.to_nat n), 1. intros m.
    induction m as [|m IH]; intros i; [apply NoDup_nil_2|].
    fold (array_part (S m) i t). rewrite array_part_S. destruct (is_nil _); [apply IH|].
    apply NoDup_cons_2; [|apply IH]. intros (j & Hj & [= E _] & _)%elem_of_array_part. lia.
  - unfold inside. clear Hv. induction t as [|[k v] t IH]; [apply NoDup_nil_2|].
    destruct Hd as [Hk Hd]. specialize (IH Hd).
    destruct (decide (¬ in_array n k = false)) as [Hin|Hout];
      [rewrite filter_cons_True by done|by rewrite filter_cons_False by (cbn; tauto)].
    apply NoDup_cons_2; [|done]. intros [_ Hel]%list_elem_of_filter.
    rewrite Forall_forall in Hk. specialize (Hk _ Hel). cbn in Hk.
    destruct k; try done. cbn in Hk. by rewrite bool_decide_eq_true_2 in Hk.
  - intros [k v]. rewrite elem_of_array_part. unfold inside. rewrite list_elem_of_filter. cbn [fst]. split.
    + intros (j & Hj & [= -> ->] & Hnn). split; [cbn; rewrite bool_decide_eq_true_2 by lia; done|].
      apply rawgeti_elem; [done|done|]. split; [done|]. by destruct (lua_rawgeti t j).
    + intros [Hin Hel]. destruct k as [| |j| | | | | |]; try done. cbn in Hin.
      exists j. split; [destruct (decide (0 < j ∧ j ≤ n)); [lia|]; by rewrite bool_decide_eq_false_2 in Hin|].
      apply rawgeti_elem in Hel as [<- Hne]; [|done|done]. split; [done|]. by destruct (lua_rawgeti t j).
Qed.

Lemma raw_equal_sym a b : raw_equal a b = raw_equal b a.
Proof. destruct a, b; try done; cbn; apply bool_decide_ext; split; by intros ->. Qed.

Lemma foldl_put_fresh fields l :
  Forall (λ kv, is_nil kv.2 = false) l → keys_distinct l →
  Forall (λ kv, Forall (λ kv', raw_equal kv.1 kv'.1 = false) fields) l →
  foldl (λ f kv, raw_put f kv.1 kv.2) fields l = fields ++ l.
Proof.
  intros Hn. revert fields. induction Hn as [|[k v] l Hv Hn IH]; intros fields Hd Hf; [by rewrite app_nil_r|].
  destruct Hd as [Hk Hd]. apply Forall_cons in Hf as [Hf0 Hf]. cbn in *.
  rewrite raw_put_fresh, Hv by done. rewrite IH; [by rewrite <- app_assoc|done|].
  rewrite Forall_forall in Hf, Hk |- *. intros kv Hin. apply Forall_app. split; [by apply Hf|].
  apply Forall_singleton. cbn. rewrite raw_equal_sym. by apply Hk.
Qed.

Lemma concat_length_ge {A} (e : A → list Z) l :
  Forall (λ x, 1 ≤ length (e x))%nat l → (length l ≤ length (concat (e <$> l)))%nat.
Proof. induction 1; cbn; rewrite ?length_app; lia. Qed.
Lemma concat_length_elem {A} (e : A → list Z) l x :
  x ∈ l → (length (e x) ≤ length (concat (e <$> l)))%nat.
Proof. induction 1; cbn; rewrite length_app; lia. Qed.

(** The loops of [unpack_table], given what reading each value gives. *)
Lemma array_loop_reads rec (e : Z → list Z) t n i f fields pre rest :
  (∀ j pre rest, i ≤ j < i + Z.of_nat n →
     rec (rb_at pre (e j ++ rest)) = Ok (lua_rawgeti t j, rb_at (pre ++ e j) rest)) →
  (n ≤ f)%nat → Forall (λ kv, ∃ j, kv.1 = VInt j ∧ j < i) fields →
  array_loop rec f (rb_at pre (concat (e <$> seqZ i (Z.of_nat n)) ++ rest)) i
      (i + Z.of_nat n - 1) fields
    = Ok (fields ++ array_part n i t,
          rb_at (pre ++ concat (e <$> seqZ i (Z.of_nat n))) rest).
Proof.
  revert i f fields pre. induction n as [|n IH]; intros i f fields pre Hrec Hf Hk.
  - unfold array_part. cbn. rewrite !app_nil_r.
    destruct f; cbn [array_loop]; by rewrite decide_False by lia.
  - destruct f as [|f]; [lia|]. cbn [array_loop]. rewrite decide_True by lia.
    rewrite seqZ_cons by lia. cbn [fmap list_fmap concat]. rewrite <- app_assoc, Hrec by lia.
    rewrite bind_Ok. cbn [fst snd]. unfold lua_rawseti.
    rewrite raw_put_fresh; cycle 1.
    { eapply Forall_impl; [exact Hk|]. intros kv (j & -> & Hj). cbn. by rewrite bool_decide_eq_false_2 by lia. }
    replace (Z.pred (Z.of_nat (S n))) with (Z.of_nat n) by lia.
    replace (i + Z.of_nat (S n) - 1) with (Z.succ i + Z.of_nat n - 1) by lia. rewrite Z.add_1_r.
    rewrite IH; [|intros; apply Hrec; lia|lia|].
    + rewrite array_part_S, <- !app_assoc. by rewrite Z.add_1_r.
    + apply Forall_app. split.
      * eapply Forall_impl; [exact Hk|]. intros kv (j & ? & ?). exists j. split; [done|lia].
      * destruct (is_nil _); [done|]. apply Forall_singleton. exists i. split; [done|lia].
Qed.

Lemma hash_loop_reads rec (e : lvalue → list Z) (g : lvalue → lvalue) l f fields pre rest :
  Forall (λ kv, is_nil (g kv.1) = false ∧
    (∀ fs v, lua_rawset fs (g kv.1) v = Ok (raw_put fs (g kv.1) v)) ∧
    (∀ pre rest, rec (rb_at pre (e kv.1 ++ rest)) = Ok (g kv.1, rb_at (pre ++ e kv.1) rest)) ∧
    (∀ pre rest, rec (rb_at pre (e kv.2 ++ rest)) = Ok (g kv.2, rb_at (pre ++ e kv.2) rest))) l →
  (∀ pre rest, rec (rb_at pre ([TYPE_NIL] ++ rest)) = Ok (VNil, rb_at (pre ++ [TYPE_NIL]) rest)) →
  (length l < f)%nat →
  hash_loop rec f (rb_at pre ((concat ((λ kv, e kv.1 ++ e kv.2) <$> l) ++ [TYPE_NIL]) ++ rest)) fields
    = Ok (foldl (λ f kv, raw_put f kv.1 kv.2) fields ((λ kv, (g kv.1, g kv.2)) <$> l),
          rb_at (pre ++ concat ((λ kv, e kv.1 ++ e kv.2) <$> l) ++ [TYPE_NIL]) rest).
Proof.
  intros Hl Hnil. revert f fields pre.
  induction Hl as [|[k v] l (Hk & Hset & Hrk & Hrv) _ IH]; intros [|f] fields pre Hf;
    try (cbn in Hf; lia); cbn [hash_loop].
  - cbn [fmap list_fmap concat]. rewrite app_nil_l, Hnil. done.
  - cbn in Hk, Hset, Hrk, Hrv, Hf. cbn [fmap list_fmap concat fst snd]. rewrite <- !app_assoc, Hrk, bind_Ok.
    cbn [fst snd]. rewrite Hk, Hrv, bind_Ok. cbn [fst snd]. rewrite Hset, bind_Ok.
    rewrite (app_assoc (concat _)), IH by lia. cbn [foldl fst snd]. by rewrite <- !app_assoc.
Qed.

(** The branch of [push_value] for a known type. *)
Ltac type_case :=
  unfold push_value; repeat first [rewrite decide_True by done | rewrite decide_False by done].

(** ** The value that comes back *)

Section Canon.
Context (lua_rawlen : list (lvalue * lvalue) → Z).

(** The array part first, then the other fields; what an iterator yields stored
    one after the other. *)
Fixpoint canon (nesting : nat) (v : lvalue) : lvalue :=
  match v, nesting with
  | VTable t, S m =>
      let n := lua_rawlen t in
      let t' := (λ kv, (canon m kv.1, canon m kv.2)) <$> t in
      VTable (array_part (Z.to_nat n) 1 t' ++ hash_part n t')
  | VPairs l, S m =>
      VTable (foldl (λ f kv, raw_put f kv.1 kv.2) []
        ((λ kv, (canon m kv.1, canon m kv.2)) <$> l))
  | _, _ => v
  end.
Abbreviation canon2 m := (λ kv : lvalue * lvalue, (canon m kv.1, canon m kv.2)).

Lemma canon_nil m v : is_nil (canon m v) = is_nil v.
Proof. by destruct m, v. Qed.
Lemma canon_in_array n m v : in_array n (canon m v) = in_array n v.
Proof. by destruct m, v. Qed.
Lemma canon_raw_equal m a b : raw_equal (canon m a) (canon m b) = raw_equal a b.
Proof. by destruct m, a, b. Qed.
Lemma canon_key m k fs v : key_ok k → lua_rawset fs (canon m k) v = Ok (raw_put fs (canon m k) v).
Proof.
  destruct m, k as [| | |b| | | | |]; try done; cbn; intros [-> E]; unfold norm_key; by rewrite E.
Qed.
Lemma canon_rawgeti m t i : lua_rawgeti (canon2 m <$> t) i = canon m (lua_rawgeti t i).
Proof.
  induction t as [|kv t IH]; [by destruct m|]. rewrite fmap_cons, !rawgeti_cons, IH.
  assert (is_int_key i (canon2 m kv) = is_int_key i kv) as ->
    by (unfold is_int_key; cbn; by destruct m, (kv.1)).
  by destruct (is_int_key i kv).
Qed.
Lemma canon_hash n m t : hash_part n (canon2 m <$> t) = canon2 m <$> hash_part n t.
Proof.
  unfold hash_part. induction t as [|kv t IH]; [done|]. rewrite fmap_cons.
  destruct (decide (in_array n kv.1 = false)).
  - rewrite !filter_cons_True by (cbn; by rewrite ?canon_in_array). by rewrite IH.
  - rewrite !filter_cons_False by (cbn; by rewrite ?canon_in_array). done.
Qed.
Lemma canon_distinct m t : keys_distinct t → keys_distinct (canon2 m <$> t).
Proof.
  induction t as [|kv t IH]; [done|]. intros [Hk Hd]. split; [|by apply IH].
  apply Forall_fmap. eapply Forall_impl; [exact Hk|]. intros kv' E. cbn. by rewrite canon_raw_equal.
Qed.
Lemma hash_part_distinct n t : keys_distinct t → keys_distinct (hash_part n t).
Proof.
  unfold hash_part. induction t as [|kv t IH]; [done|]. intros [Hk Hd].
  destruct (decide (in_array n kv.1 = false)); [|rewrite filter_cons_False by done; by apply IH].
  rewrite filter_cons_True by done. split; [|by apply IH].
  rewrite Forall_forall in Hk |- *. intros kv' [_ Hel]%list_elem_of_filter. by apply Hk.
Qed.

(** The hash fields are new to the array part, whose keys are 1 to [n]. *)
Lemma array_hash_put n t :
  keys_distinct t → Forall (λ kv, kv.2 ≠ VNil) t →
  foldl (λ f kv, raw_put f kv.1 kv.2) (array_part (Z.to_nat n) 1 t) (hash_part n t)
    = array_part (Z.to_nat n) 1 t ++ hash_part n t.
Proof.
  intros Hd Hv. apply foldl_put_fresh.
  - apply Forall_forall. intros kv [_ Hel]%list_elem_of_filter.
    rewrite Forall_forall in Hv. specialize (Hv _ Hel). by destruct (kv.2).
  - by apply hash_part_distinct.
  - apply Forall_forall. intros kv [Hin _]%list_elem_of_filter. apply Forall_forall.
    intros kv' (j & Hj & -> & _)%elem_of_array_part. cbn. destruct (kv.1) as [| |x| | | | | |]; try done.
    cbn in Hin. apply bool_decide_eq_false_2. intros ->. apply bool_decide_eq_false in Hin. lia.
Qed.
(** Reading the bytes [e] gives [v], whatever follows. *)
Definition reads (e : list Z) (v : lvalue) : Prop :=
  ∀ fuel pre rest, (length e ≤ fuel)%nat →
    unpack_one fuel (rb_at pre (e ++ rest)) = Ok (v, rb_at (pre ++ e) rest).

(** A value behind a type byte. *)
Lemma reads_head t c body v :
  0 ≤ t < 8 → 0 ≤ c < 32 →
  (∀ f pre rest, (length body ≤ f)%nat →
     push_value (unpack_one f) f (rb_at pre (body ++ rest)) t c = Ok (v, rb_at (pre ++ body) rest)) →
  reads ([COMBINE_TYPE t c] ++ body) v.
Proof.
  intros Ht Hc H [|f] pre rest Hf; [cbn in Hf; lia|].
  rewrite <- app_assoc, unpack_head by done. rewrite H by (cbn in Hf; lia). by rewrite <- app_assoc.
Qed.
Lemma reads_head0 t c v :
  0 ≤ t < 8 → 0 ≤ c < 32 → (∀ f rb, push_value (unpack_one f) f rb t c = Ok (v, rb)) →
  reads [COMBINE_TYPE t c] v.
Proof.
  intros Ht Hc H. apply (reads_head t c []); [done|done|]. intros f pre rest _.
  rewrite H. cbn. by rewrite app_nil_r.
Qed.

Lemma reads_nil : reads [TYPE_NIL] VNil.
Proof. change TYPE_NIL with (COMBINE_TYPE 0 0) at 1. by apply reads_head0. Qed.
Lemma reads_boolean (b : bool) : reads [COMBINE_TYPE TYPE_BOOLEAN (if b then 1 else 0)] (VBool b).
Proof. destruct b; by apply reads_head0. Qed.
Lemma reads_integer i : - 2 ^ 63 ≤ i < 2 ^ 63 → reads (enc_integer i) (VInt i).
Proof.
  intros Hi. destruct (enc_integer_read i Hi) as (c & body & -> & Hc & Hr & Hg).
  apply reads_head; [done|done|]. intros f pre rest _. unfold push_value.
  destruct (decide (c = TYPE_NUMBER_REAL)); [done|]. cbn [decide].
  by rewrite Hg.
Qed.
Lemma reads_8 t c (g : Z → lvalue) v :
  0 ≤ t < 8 → 0 ≤ c < 32 → 0 ≤ v < 2 ^ 64 →
  (∀ f rb, push_value (unpack_one f) f rb t c = (r ← rb_take rb 8; Ok (g (le_value r.1), r.2))) →
  reads ([COMBINE_TYPE t c] ++ le_bytes 8 v) (g v).
Proof.
  intros Ht Hc Hv H. apply reads_head; [done|done|]. intros f pre rest _.
  rewrite H, rb_take_le by lia. rewrite bind_Ok. cbn [fst snd].
  rewrite le_value_bytes by lia. by rewrite Z.mod_small by lia.
Qed.
Lemma reads_real v :
  0 ≤ v < 2 ^ 64 → reads ([COMBINE_TYPE TYPE_NUMBER TYPE_NUMBER_REAL] ++ le_bytes 8 v) (VReal v).
Proof.
  intros. apply (reads_8 TYPE_NUMBER _ VReal); try done. intros f rb. type_case.
  unfold get_real. by destruct (rb_take rb 8).
Qed.
Lemma reads_pointer v :
  0 ≤ v < 2 ^ 64 → reads ([TYPE_USERDATA] ++ le_bytes 8 v) (VPointer v).
Proof.
  intros. apply (reads_8 TYPE_USERDATA 0 VPointer); try done. intros f rb. type_case.
  unfold get_pointer. by destruct (rb_take rb 8).
Qed.
Lemma reads_string s :
  zlen s ≤ INT_MAX → reads (enc_string s) (VStr s).
Proof.
  intros Hs. pose proof (zlen_nonneg s). unfold enc_string, INT_MAX, MAX_COOKIE in *.
  destruct (decide (zlen s < 32)); [|destruct (decide (zlen s < 65536))];
    (apply reads_head; [done|lia|]); intros f pre rest _; type_case.
  - by apply get_buffer_at.
  - rewrite <- app_assoc, rb_take_le by lia. rewrite bind_Ok. cbn [fst snd].
    rewrite get_buffer_at; [by rewrite <- app_assoc| |done].
    rewrite le_value_bytes, Z.mod_small by lia. by rewrite uwrap_small by lia.
  - rewrite <- app_assoc, rb_take_le by lia. rewrite bind_Ok. cbn [fst snd].
    rewrite get_buffer_at; [by rewrite <- app_assoc| |done].
    rewrite le_value_bytes by lia. rewrite swrap_mod by lia. done.
Qed.

Lemma encode_nonempty m v : packable lua_rawlen m v → (1 ≤ length (encode lua_rawlen m v))%nat.
Proof.
  assert (∀ i, 1 ≤ length (enc_integer i))%nat.
  { intros i. unfold enc_integer. repeat case_decide; cbn; lia. }
  destruct m, v as [|b|i|b|s|p|t|l|]; try done; cbn; intros _; try lia; auto.
  all: try (unfold enc_string; repeat case_decide; cbn; lia).
  unfold enc_size. case_decide; cbn; lia.
Qed.

(** The size of a table's array part, read back. *)
Lemma reads_size n body v :
  0 ≤ n ≤ INT_MAX →
  (∀ f pre rest, (length body ≤ f)%nat →
     (a ← array_loop (unpack_one f) f (rb_at pre (body ++ rest)) 1 n [];
      h ← hash_loop (unpack_one f) f a.2 a.1; Ok (VTable h.1, h.2))
     = Ok (v, rb_at (pre ++ body) rest)) →
  reads (enc_size n ++ body) v.
Proof.
  intros Hn H. unfold enc_size, MAX_COOKIE, INT_MAX in *. destruct (decide (32 - 1 ≤ n)).
  - rewrite <- app_assoc. apply reads_head; [done|done|]. intros f pre rest Hf.
    destruct (enc_integer_read n ltac:(lia)) as (c & b & E & Hc & Hr & Hg). rewrite E in *.
    destruct (combine_type TYPE_NUMBER c ltac:(done) Hc) as (H1 & H2 & H3).
    type_case. unfold unpack_table, MAX_COOKIE. rewrite decide_True by done. rewrite <- !app_assoc.
    rewrite rb_take_at by done. rewrite !bind_Ok. cbn [fst snd]. rewrite H3, H1, H2.
    rewrite (decide_False (P := TYPE_NUMBER ≠ TYPE_NUMBER ∨ c = TYPE_NUMBER_REAL)) by naive_solver.
    rewrite Hg, !bind_Ok. cbn [fst snd]. rewrite swrap_small by lia.
    rewrite H by (rewrite !length_app in Hf; lia). by rewrite <- !app_assoc.
  - apply reads_head; [done|lia|]. intros f pre rest Hf.
    type_case. unfold unpack_table, MAX_COOKIE.
    destruct (decide (n = 32 - 1)); [lia|]. rewrite bind_Ok. cbn [fst snd]. by apply H.
Qed.
(** The fields behind the array part, read from their bytes. *)
Lemma hash_reads m l f fields pre rest :
  (∀ v, packable lua_rawlen m v → reads (encode lua_rawlen m v) (canon m v)) →
  Forall (λ kv, key_ok kv.1 ∧ packable lua_rawlen m kv.1 ∧ packable lua_rawlen m kv.2) l →
  let e := concat ((λ kv, encode lua_rawlen m kv.1 ++ encode lua_rawlen m kv.2) <$> l) ++ [TYPE_NIL] in
  (length e ≤ f)%nat →
  hash_loop (unpack_one f) f (rb_at pre (e ++ rest)) fields
    = Ok (foldl (λ f kv, raw_put f kv.1 kv.2) fields (canon2 m <$> l), rb_at (pre ++ e) rest).
Proof.
  intros IH Hl e Hf. unfold e in *. rewrite length_app in Hf. cbn in Hf. apply hash_loop_reads.
  - apply Forall_forall. intros kv Hel. rewrite Forall_forall in Hl. destruct (Hl _ Hel) as (Hk & H1 & H2).
    assert (length (encode lua_rawlen m kv.1 ++ encode lua_rawlen m kv.2) ≤ f)%nat as Hlen
      by (etransitivity; [by eapply (concat_length_elem (λ kv, encode lua_rawlen m kv.1 ++ encode lua_rawlen m kv.2))|lia]).
    rewrite length_app in Hlen. rewrite canon_nil.
    split; [by destruct (kv.1)|]. split; [intros; by apply canon_key|].
    split; intros; apply IH; (done || lia).
  - intros. apply reads_nil. cbn. lia.
  - assert (length l ≤ length (concat ((λ kv, encode lua_rawlen m kv.1 ++ encode lua_rawlen m kv.2) <$> l)))%nat; [|lia].
    apply concat_length_ge. eapply Forall_impl; [exact Hl|]. intros kv (_ & H1 & _).
    rewrite length_app. apply encode_nonempty in H1. lia.
Qed.

(** The format is read back as [canon]. *)
Lemma reads_encode m v : packable lua_rawlen m v → reads (encode lua_rawlen m v) (canon m v).
Proof.
  revert v. induction m as [|m IH]; intros v Hp;
    destruct v as [|b|i|b|s|p|t|l|]; try done; cbn [encode canon];
    try apply reads_nil; try apply reads_boolean; try (by apply reads_integer);
    try (by apply reads_string; apply Hp); try (by apply reads_real); try (by apply reads_pointer).
  - destruct Hp as (Hn & Hd & Hf). set (n := lua_rawlen t) in *.
    assert (Forall (λ kv, key_ok kv.1 ∧ packable lua_rawlen m kv.1 ∧ packable lua_rawlen m kv.2)
      (hash_part n t)) as Hh.
    { apply Forall_forall. intros kv [_ Hel]%list_elem_of_filter.
      rewrite Forall_forall in Hf. destruct (Hf _ Hel) as (? & _ & ? & ?). done. }
    apply reads_size; [done|]. intros f pre rest Hlen. rewrite !length_app in Hlen.
    pose proof (array_loop_reads (unpack_one f) (λ i, encode lua_rawlen m (lua_rawgeti t i))
      (canon2 m <$> t) (Z.to_nat n) 1 f [] pre) as Ha. rewrite Z2Nat.id in Ha by lia.
    replace (1 + n - 1) with n in Ha by lia. rewrite <- app_assoc, Ha; clear Ha.
    + rewrite bind_Ok. cbn [fst snd].
      rewrite hash_reads; [|done|done|rewrite length_app; cbn in *; lia].
      rewrite bind_Ok. cbn [fst snd]. rewrite app_nil_l, <- canon_hash.
      rewrite array_hash_put; [by rewrite <- app_assoc|by apply canon_distinct|].
      apply Forall_fmap. eapply Forall_impl; [exact Hf|]. intros kv (_ & Hnn & _). cbn.
      intros E. apply (f_equal is_nil) in E. rewrite canon_nil in E. by destruct (kv.2).
    + intros j pre' rest' Hj. rewrite canon_rawgeti. apply IH; [by eapply rawgeti_packable|].
      etransitivity; [apply (concat_length_elem (λ i, encode lua_rawlen m (lua_rawgeti t i)) (seqZ 1 n))|].
      * apply elem_of_seqZ. lia.
      * lia.
    + assert (length (seqZ 1 n) ≤ length (concat ((λ i, encode lua_rawlen m (lua_rawgeti t i)) <$> seqZ 1 n)))%nat
        as Hc; [|rewrite length_seqZ in Hc; lia].
      apply concat_length_ge, Forall_forall. intros j _. apply encode_nonempty. by apply rawgeti_packable.
    + done.
  - apply reads_head; [done|done|]. intros f pre rest Hlen. type_case.
    unfold unpack_table, MAX_COOKIE. rewrite decide_False, bind_Ok by done. cbn [fst snd].
    destruct f as [|f]; [rewrite length_app in Hlen; cbn in Hlen; lia|]. cbn [array_loop].
    rewrite decide_False, bind_Ok by lia. cbn [fst snd]. by rewrite hash_reads.
Qed.
End Canon.

(** ** The round trip *)

(** The same value: scalars are equal; a table has the same fields up to their
    order; a table with __pairs is the table of the pairs its iterator yielded. *)
Inductive same : lvalue → lvalue → Prop :=
| same_scalar v : (match v with VTable _ | VPairs _ => False | _ => True end) → same v v
| same_table t t' u :
    Forall2 (λ kv kv', same kv.1 kv'.1 ∧ same kv.2 kv'.2) t t' → u ≡ₚ t' →
    same (VTable t) (VTable u)
| same_pairs l l' :
    Forall2 (λ kv kv', same kv.1 kv'.1 ∧ same kv.2 kv'.2) l l' →
    same (VPairs l) (VTable (foldl (λ f kv, raw_put f kv.1 kv.2) [] l')).

Lemma canon_same lua_rawlen m v : packable lua_rawlen m v → same v (canon lua_rawlen m v).
Proof.
  revert v. induction m as [|m IH]; intros v Hp; destruct v as [|b|i|b|s|p|t|l|]; try done;
    try (by constructor); cbn [canon].
  - destruct Hp as (Hn & Hd & Hf).
    apply (same_table _ ((λ kv, (canon lua_rawlen m kv.1, canon lua_rawlen m kv.2)) <$> t)).
    + apply Forall2_fmap_r, Forall_Forall2_diag. eapply Forall_impl; [exact Hf|].
      intros kv (_ & _ & ? & ?). cbn. auto.
    + apply array_first_perm; [lia|by apply canon_distinct|].
      apply Forall_fmap. eapply Forall_impl; [exact Hf|]. intros kv (_ & Hnn & _). cbn.
      intros E. apply (f_equal is_nil) in E. rewrite canon_nil in E. by destruct (kv.2).
  - apply same_pairs, Forall2_fmap_r, Forall_Forall2_diag. eapply Forall_impl; [exact Hp|].
    intros kv (_ & ? & ?). cbn. auto.
Qed.

Lemma pack_from_spec lua_rawlen vs :
  Forall (packable lua_rawlen (Z.to_nat MAX_DEPTH)) vs →
  writes (pack_from lua_rawlen vs) (concat (encode lua_rawlen (Z.to_nat MAX_DEPTH) <$> vs)).
Proof.
  induction 1 as [|v vs Hv _ IH]; [apply writes_ret|]. cbn [fmap list_fmap concat pack_from].
  apply writes_bind; [|done]. apply pack_one_spec; [done|unfold MAX_DEPTH; lia|unfold pack_fuel; lia].
Qed.

Lemma unpack_all_step f pre e rest v :
  (1 ≤ length e)%nat → unpack_one (S f) (rb_at pre (e ++ rest)) = Ok (v, rb_at (pre ++ e) rest) →
  unpack_all (S f) (rb_at pre (e ++ rest))
    = (vs ← unpack_all f (rb_at (pre ++ e) rest); Ok (v :: vs)).
Proof.
  intros He H. cbn [unpack_one] in H. unfold rb_take in H. cbn [unpack_all].
  destruct (rb_read (rb_at pre (e ++ rest)) 1) as [[p|] rb] eqn:E; [|done].
  apply bind_Ok_inv in H as ([t rb'] & Ht & H). apply bind_Ok_inv in Ht as (t' & -> & [= -> ->]).
  rewrite bind_Ok. cbn [fst snd] in *. by rewrite H, bind_Ok.
Qed.

Lemma unpack_all_spec lua_rawlen m vs pre f :
  Forall (packable lua_rawlen m) vs → (length (concat (encode lua_rawlen m <$> vs)) ≤ f)%nat →
  unpack_all f (rb_at pre (concat (encode lua_rawlen m <$> vs))) = Ok (canon lua_rawlen m <$> vs).
Proof.
  intros H. revert pre f. induction H as [|v vs Hv _ IH]; intros pre f Hf.
  - by destruct f.
  - cbn [fmap list_fmap concat] in *. rewrite length_app in Hf. pose proof (encode_nonempty _ _ _ Hv).
    destruct f as [|f]; [lia|].
    rewrite (unpack_all_step f pre _ _ (canon lua_rawlen m v)); [|done|apply reads_encode; [done|lia]].
    rewrite IH by lia. done.
Qed.

Lemma luaseri_pack_spec lua_rawlen vs e :
  writes (pack_from lua_rawlen vs) e → zlen e ≤ INT_MAX → luaseri_pack lua_rawlen vs = Ok (e, zlen e).
Proof.
  intros Hw Hi. destruct (Hw wb_init [] wb_repr_init) as (b & Eb & Hr); [by rewrite Z.add_0_l|].
  rewrite app_nil_l in Hr. unfold luaseri_pack. rewrite Eb, bind_Ok.
  destruct Hr as [Hf Hc Hpt Hb Hl]. rewrite Hl.
  rewrite (seri_spec _ _ e (Z.to_nat (wb_ptr b)) Hf Hc); [done|lia|done].
Qed.
Lemma luaseri_unpack_spec e vs :
  zlen e ≤ INT_MAX → unpack_all (S (Z.to_nat (zlen e))) (rb_at [] e) = Ok vs →
  luaseri_unpack (ArgPointer (Some e) (zlen e)) = Ok vs ∧ luaseri_unpack (ArgString e) = Ok vs.
Proof.
  intros Hi Hu. pose proof (zlen_nonneg e). unfold luaseri_unpack.
  rewrite swrap_small by (unfold INT_MAX in *; lia).
  destruct (decide (zlen e = 0)) as [E|]; [|by split].
  assert (e = []) as -> by (destruct e; [done|unfold zlen in E; cbn in E; lia]).
  cbn in Hu. by injection Hu as <-.
Qed.

(** C27: pack and unpack. Values whose tables nest at most 32 deep, with integers,
    floats and pointers of 64 bits, strings that fit an [int] and supported types
    only, are packed into the documented format as long as it is shorter than
    2^31 bytes. Unpacking the buffer, as a pointer with its length or as a string,
    gives the same values: every table comes back with the same fields. This holds
    for every border [lua_rawlen] reports. *)
Theorem pack_unpack_roundtrip lua_rawlen vs :
  Forall (packable lua_rawlen (Z.to_nat MAX_DEPTH)) vs →
  zlen (concat (encode lua_rawlen (Z.to_nat MAX_DEPTH) <$> vs)) ≤ INT_MAX →
  ∃ buf vs', luaseri_pack lua_rawlen vs = Ok (buf, zlen buf) ∧
    buf = concat (encode lua_rawlen (Z.to_nat MAX_DEPTH) <$> vs) ∧
    luaseri_unpack (ArgPointer (Some buf) (zlen buf)) = Ok vs' ∧
    luaseri_unpack (ArgString buf) = Ok vs' ∧ Forall2 same vs vs'.
Proof.
  intros Hp Hi. exists (concat (encode lua_rawlen (Z.to_nat MAX_DEPTH) <$> vs)),
    (canon lua_rawlen (Z.to_nat MAX_DEPTH) <$> vs).
  split; [apply luaseri_pack_spec; [by apply pack_from_spec|exact Hi]|]. split; [reflexivity|].
  assert (∀ A B C : Prop, A ∧ B → C → A ∧ B ∧ C) as Hand by tauto. apply Hand.
  - apply luaseri_unpack_spec; [exact Hi|]. apply unpack_all_spec; [exact Hp|]. unfold zlen. lia.
  - apply Forall2_fmap_r, Forall_Forall2_diag. eapply Forall_impl; [exact Hp|].
    intros v Hv. by apply canon_same.
Qed.

(** ** Arbitrary bytes *)

(** The reader is inside its buffer. *)
Definition inside (rb : read_block) : Prop := 0 ≤ rb_ptr rb ∧ 0 ≤ rb_len rb ∧ rb_ptr rb + rb_len rb ≤ zlen (rb_buffer rb).
(** A step that ends with a value, inside the buffer and at least [k] bytes further, or
    with a Lua error. *)
Definition steps {A} (k : Z) (rb : read_block) (r : result (A * read_block)) : Prop :=
  match r with
  | Ok (_, rb') => inside rb' ∧ rb_len rb' ≤ rb_len rb - k
  | Err e => ∃ n, e = LuaError n
  end.

Lemma steps_error {A} k rb n : steps (A := A) k rb (Err (LuaError n)).
Proof. by exists n. Qed.
Lemma steps_bind {A B} k j rb (r : result (A * read_block)) (f : A * read_block → result (B * read_block)) :
  steps k rb r → (∀ a rb', inside rb' → rb_len rb' ≤ rb_len rb - k → steps j rb' (f (a, rb'))) → steps (k + j) rb (r ≫= f).
Proof.
  intros Hr Hf. destruct r as [[a rb']|e]; [|done]. destruct Hr as [Hi Hl]. rewrite bind_Ok. specialize (Hf a rb' Hi Hl).
  destruct (f (a, rb')) as [[b rb'']|e]; [|done]. destruct Hf. split; [done|lia].
Qed.
Lemma steps_weaken {A} k j rb (r : result (A * read_block)) : j ≤ k → steps k rb r → steps j rb r.
Proof. intros Hj Hr. destruct r as [[a rb']|e]; [|done]. destruct Hr. split; [done|lia]. Qed.

Lemma rb_take_steps rb k : inside rb → 0 ≤ k → steps k rb (rb_take rb k).
Proof.
  intros (Hp & Hl & Hz) Hk. unfold rb_take, rb_read. case_decide; [apply steps_error|].
  unfold rb_bytes. cbn [rb_buffer]. rewrite decide_True, bind_Ok by lia. unfold steps, inside. cbn. lia.
Qed.
Lemma rb_take_map_steps {A} rb k (g : list Z → A) : inside rb → 0 ≤ k → steps k rb (r ← rb_take rb k; Ok (g r.1, r.2)).
Proof.
  intros Hi Hk. replace k with (k + 0) at 1 by lia. apply steps_bind; [by apply rb_take_steps|]. intros a rb' ? ?. split; [done|]. cbn. lia.
Qed.
Lemma get_integer_steps rb c : inside rb → steps 0 rb (get_integer rb c).
Proof.
  intros Hi. unfold get_integer. repeat case_decide; try apply steps_error.
  1: split; [done|lia].
  all: match goal with |- steps _ _ (rb_take _ ?k ≫= _) => apply (steps_weaken k); [lia|] end.
  - by apply (rb_take_map_steps rb 1 (λ l, u8 (le_value l))).
  - by apply (rb_take_map_steps rb 2 (λ l, u16 (le_value l))).
  - by apply (rb_take_map_steps rb 4 (λ l, s32 (le_value l))).
  - by apply (rb_take_map_steps rb 8 (λ l, s64 (le_value l))).
Qed.
Lemma get_buffer_steps rb k : inside rb → steps 0 rb (get_buffer rb k).
Proof.
  intros (Hp & Hl & Hz). unfold get_buffer, rb_read, lua_pushlstring. case_decide; [apply steps_error|].
  case_decide; [apply steps_error|]. unfold rb_bytes. cbn [rb_buffer]. rewrite decide_True, bind_Ok by lia.
  unfold steps, inside. cbn. lia.
Qed.

Section Progress.
(** A reader that makes progress on streams shorter than [bound]. *)
Context (bound : Z) (rec : read_block → result (lvalue * read_block)).
Hypothesis rec_steps : ∀ rb, inside rb → rb_len rb < bound → steps 1 rb (rec rb).

Lemma array_loop_steps f rb i n fields :
  inside rb → rb_len rb < bound → rb_len rb < Z.of_nat f → steps 0 rb (array_loop rec f rb i n fields).
Proof.
  revert rb i fields. induction f as [|f IH]; intros rb i fields Hi H0 Hf; [destruct Hi; lia|]. cbn [array_loop].
  case_decide; [|split; [done|lia]].
  apply (steps_weaken (1 + 0)); [lia|]. apply steps_bind; [by apply rec_steps|]. intros v rb' Hi' Hl. apply IH; [done|cbn; lia|cbn; lia].
Qed.
Lemma hash_loop_steps f rb fields :
  inside rb → rb_len rb < bound → rb_len rb < Z.of_nat f → steps 0 rb (hash_loop rec f rb fields).
Proof.
  revert rb fields. induction f as [|f IH]; intros rb fields Hi H0 Hf; [destruct Hi; lia|]. cbn [hash_loop].
  apply (steps_weaken (1 + 0)); [lia|]. apply steps_bind; [by apply rec_steps|].
  intros k rb1 H1 L1. cbn [fst snd]. destruct (is_nil k); [split; [done|lia]|].
  apply (steps_weaken (1 + 0)); [lia|]. apply steps_bind; [apply rec_steps; [done|lia]|].
  intros v rb2 H2 L2. cbn [fst snd]. assert (∀ fs, steps 0 rb2 (hash_loop rec f rb2 fs)) as Hl by (intros; apply IH; [done|lia|lia]).
  unfold lua_rawset. destruct k as [| | |b| | | | |]; try apply Hl; [apply steps_error|].
  destruct (is_nan b); [apply steps_error|apply Hl].
Qed.

Lemma push_value_steps f rb type cookie :
  inside rb → rb_len rb < bound → rb_len rb < Z.of_nat f → steps 0 rb (push_value rec f rb type cookie).
Proof.
  intros Hi H0 Hf. unfold push_value.
  assert (∀ k g, 0 ≤ k → steps 0 rb (r ← rb_take rb k; get_buffer r.2 (g r.1))) as Hs.
  { intros k g Hk. apply (steps_weaken (k + 0)); [lia|]. apply steps_bind; [by apply rb_take_steps|]. intros l rb' Hi' _. by apply get_buffer_steps. }
  repeat case_decide; try apply steps_error; try (split; [done|lia]).
  - apply (steps_weaken 8); [lia|]. unfold get_real. replace 8 with (8 + 0) at 1 by lia. apply steps_bind; [by apply rb_take_map_steps|].
    intros a rb' ? ?. split; [done|cbn; lia].
  - apply (steps_weaken (0 + 0)); [lia|]. apply steps_bind; [by apply get_integer_steps|]. intros a rb' ? ?. split; [done|cbn; lia].
  - apply (steps_weaken 8); [lia|]. unfold get_pointer. replace 8 with (8 + 0) at 1 by lia. apply steps_bind; [by apply rb_take_map_steps|].
    intros a rb' ? ?. split; [done|cbn; lia].
  - by apply get_buffer_steps.
  - by apply (Hs 2 (λ l, u16 (le_value l))).
  - by apply (Hs 4 (λ l, s32 (le_value l))).
  - unfold unpack_table. apply (steps_weaken (0 + 0)); [lia|]. apply steps_bind.
    + case_decide; [|split; [done|lia]].
      apply (steps_weaken (1 + 0)); [lia|]. apply steps_bind; [by apply rb_take_steps|].
      intros l rb1 ? ?. cbn [fst snd]. case_decide; [apply steps_error|].
      apply (steps_weaken (0 + 0)); [lia|]. apply steps_bind; [by apply get_integer_steps|]. intros x rb2 ? ?. split; [done|cbn; lia].
    + intros n rb1 I1 L1. cbn [fst snd]. apply (steps_weaken (0 + 0)); [lia|].
      apply steps_bind; [apply array_loop_steps; [done|lia|lia]|]. intros fs rb2 I2 L2. cbn [fst snd]. apply (steps_weaken (0 + 0)); [lia|].
      apply steps_bind; [apply hash_loop_steps; [done|lia|lia]|]. intros fs' rb3 ? ?. split; [done|cbn; lia].
Qed.
End Progress.

Lemma unpack_one_steps f rb : inside rb → rb_len rb < Z.of_nat f → steps 1 rb (unpack_one f rb).
Proof.
  revert rb. induction f as [|f IH]; intros rb Hi Hl; [destruct Hi; lia|]. cbn [unpack_one].
  apply (steps_weaken (1 + 0)); [lia|]. apply steps_bind; [by apply rb_take_steps|].
  intros l rb' Hi' H. cbn [fst snd]. apply (push_value_steps (Z.of_nat f)); [exact IH|done|lia|lia].
Qed.

Lemma unpack_all_inside f rb :
  inside rb → rb_len rb < Z.of_nat f → (∃ vs, unpack_all f rb = Ok vs) ∨ ∃ n, unpack_all f rb = Err (LuaError n).
Proof.
  revert rb. induction f as [|f IH]; intros rb Hi Hl; [destruct Hi; lia|]. cbn [unpack_all].
  pose proof (rb_take_steps rb 1 Hi ltac:(lia)) as Ht. unfold rb_take in Ht. destruct (rb_read rb 1) as [[p|] rb1]; [|by left; eexists].
  destruct (rb_bytes rb1 p 1) as [t|e]; [|right; destruct Ht as [n ->]; by exists n]. rewrite bind_Ok in *. destruct Ht as [H1 L1].
  pose proof (push_value_steps (Z.of_nat f) (unpack_one f) (unpack_one_steps f) f rb1 (Z.land (u8 (le_value t)) 7) (Z.shiftr (u8 (le_value t)) 3)
    H1 ltac:(lia) ltac:(lia)) as Hp.
  destruct (push_value _ _ _ _ _) as [[v rb2]|e]; [|right; destruct Hp as [n ->]; by exists n]. destruct Hp as [H2 L2]. rewrite bind_Ok. cbn [fst snd].
  destruct (IH rb2 H2 ltac:(lia)) as [[vs ->]|[n ->]]; [left|right]; by eexists.
Qed.


Definition demo_rawlen (t : list (lvalue * lvalue)) : Z := if decide (length t = 0%nat) then 0 else 1.

Definition demo_values : list lvalue :=
  [VInt (-7); VTable [(VStr [110], VBool true); (VInt 1, VTable [])]].
Lemma demo_packable : Forall (packable demo_rawlen 32) demo_values.
Proof.
  apply Forall_cons. split; [apply packable_int; lia|]. apply Forall_singleton.
  apply packable_table. split; [done|]. split; [by repeat constructor|].
  apply Forall_cons. split; [|apply Forall_singleton]; cbn [fst snd key_ok].
  - split; [done|]. split; [done|]. split; [|done]. split; [apply Forall_singleton; lia|done].
  - split; [done|]. split; [done|]. split; [apply packable_int; lia|].
    apply packable_table. split; [done|]. split; [done|]. apply Forall_nil_2.
Qed.

Lemma pack_unpack_roundtrip_witness :
  ∃ buf vs', luaseri_pack demo_rawlen demo_values = Ok (buf, zlen buf) ∧
    luaseri_unpack (ArgString buf) = Ok vs' ∧ Forall2 same demo_values vs'.
Proof.
  destruct (pack_unpack_roundtrip demo_rawlen demo_values) as (buf & vs' & H1 & _ & _ & H2 & H3).
  - exact demo_packable.
  - vm_compute. discriminate.
  - exists buf, vs'. split; [exact H1|]. split; [exact H2|exact H3].
Defined.

