(* ===== verification/Des.v ===== *)
(** * DES: the block cipher of lualib-src/lua-crypt.c

    The tables, the key schedule and the rounds as the C code has them, and the
    functions [ldesencode] and [ldesdecode] with their padding. The theorem is that
    decoding inverts encoding under every key. *)
From stdpp Require Import base numbers list.
From S2P Require Import Prelude LuaApi.

(** ** Tables *)

Definition SB1 : list Z := [
  0x01010400; 0x00000000; 0x00010000; 0x01010404;
  0x01010004; 0x00010404; 0x00000004; 0x00010000;
  0x00000400; 0x01010400; 0x01010404; 0x00000400;
  0x01000404; 0x01010004; 0x01000000; 0x00000004;
  0x00000404; 0x01000400; 0x01000400; 0x00010400;
  0x00010400; 0x01010000; 0x01010000; 0x01000404;
  0x00010004; 0x01000004; 0x01000004; 0x00010004;
  0x00000000; 0x00000404; 0x00010404; 0x01000000;
  0x00010000; 0x01010404; 0x00000004; 0x01010000;
  0x01010400; 0x01000000; 0x01000000; 0x00000400;
  0x01010004; 0x00010000; 0x00010400; 0x01000004;
  0x00000400; 0x00000004; 0x01000404; 0x00010404;
  0x01010404; 0x00010004; 0x01010000; 0x01000404;
  0x01000004; 0x00000404; 0x00010404; 0x01010400;
  0x00000404; 0x01000400; 0x01000400; 0x00000000;
  0x00010004; 0x00010400; 0x00000000; 0x01010004].

Definition SB2 : list Z := [
  0x80108020; 0x80008000; 0x00008000; 0x00108020;
  0x00100000; 0x00000020; 0x80100020; 0x80008020;
  0x80000020; 0x80108020; 0x80108000; 0x80000000;
  0x80008000; 0x00100000; 0x00000020; 0x80100020;
  0x00108000; 0x00100020; 0x80008020; 0x00000000;
  0x80000000; 0x00008000; 0x00108020; 0x80100000;
  0x00100020; 0x80000020; 0x00000000; 0x00108000;
  0x00008020; 0x80108000; 0x80100000; 0x00008020;
  0x00000000; 0x00108020; 0x80100020; 0x00100000;
  0x80008020; 0x80100000; 0x80108000; 0x00008000;
  0x80100000; 0x80008000; 0x00000020; 0x80108020;
  0x00108020; 0x00000020; 0x00008000; 0x80000000;
  0x00008020; 0x80108000; 0x00100000; 0x80000020;
  0x00100020; 0x80008020; 0x80000020; 0x00100020;
  0x00108000; 0x00000000; 0x80008000; 0x00008020;
  0x80000000; 0x80100020; 0x80108020; 0x00108000].

Definition SB3 : list Z := [
  0x00000208; 0x08020200; 0x00000000; 0x08020008;
  0x08000200; 0x00000000; 0x00020208; 0x08000200;
  0x00020008; 0x08000008; 0x08000008; 0x00020000;
  0x08020208; 0x00020008; 0x08020000; 0x00000208;
  0x08000000; 0x00000008; 0x08020200; 0x00000200;
  0x00020200; 0x08020000; 0x08020008; 0x00020208;
  0x08000208; 0x00020200; 0x00020000; 0x08000208;
  0x00000008; 0x08020208; 0x00000200; 0x08000000;
  0x08020200; 0x08000000; 0x00020008; 0x00000208;
  0x00020000; 0x08020200; 0x08000200; 0x00000000;
  0x00000200; 0x00020008; 0x08020208; 0x08000200;
  0x08000008; 0x00000200; 0x00000000; 0x08020008;
  0x08000208; 0x00020000; 0x08000000; 0x08020208;
  0x00000008; 0x00020208; 0x00020200; 0x08000008;
  0x08020000; 0x08000208; 0x00000208; 0x08020000;
  0x00020208; 0x00000008; 0x08020008; 0x00020200].

Definition SB4 : list Z := [
  0x00802001; 0x00002081; 0x00002081; 0x00000080;
  0x00802080; 0x00800081; 0x00800001; 0x00002001;
  0x00000000; 0x00802000; 0x00802000; 0x00802081;
  0x00000081; 0x00000000; 0x00800080; 0x00800001;
  0x00000001; 0x00002000; 0x00800000; 0x00802001;
  0x00000080; 0x00800000; 0x00002001; 0x00002080;
  0x00800081; 0x00000001; 0x00002080; 0x00800080;
  0x00002000; 0x00802080; 0x00802081; 0x00000081;
  0x00800080; 0x00800001; 0x00802000; 0x00802081;
  0x00000081; 0x00000000; 0x00000000; 0x00802000;
  0x00002080; 0x00800080; 0x00800081; 0x00000001;
  0x00802001; 0x00002081; 0x00002081; 0x00000080;
  0x00802081; 0x00000081; 0x00000001; 0x00002000;
  0x00800001; 0x00002001; 0x00802080; 0x00800081;
  0x00002001; 0x00002080; 0x00800000; 0x00802001;
  0x00000080; 0x00800000; 0x00002000; 0x00802080].

Definition SB5 : list Z := [
  0x00000100; 0x02080100; 0x02080000; 0x42000100;
  0x00080000; 0x00000100; 0x40000000; 0x02080000;
  0x40080100; 0x00080000; 0x02000100; 0x40080100;
  0x42000100; 0x42080000; 0x00080100; 0x40000000;
  0x02000000; 0x40080000; 0x40080000; 0x00000000;
  0x40000100; 0x42080100; 0x42080100; 0x02000100;
  0x42080000; 0x40000100; 0x00000000; 0x42000000;
  0x02080100; 0x02000000; 0x42000000; 0x00080100;
  0x00080000; 0x42000100; 0x00000100; 0x02000000;
  0x40000000; 0x02080000; 0x42000100; 0x40080100;
  0x02000100; 0x40000000; 0x42080000; 0x02080100;
  0x40080100; 0x00000100; 0x02000000; 0x42080000;
  0x42080100; 0x00080100; 0x42000000; 0x42080100;
  0x02080000; 0x00000000; 0x40080000; 0x42000000;
  0x00080100; 0x02000100; 0x40000100; 0x00080000;
  0x00000000; 0x40080000; 0x02080100; 0x40000100].

Definition SB6 : list Z := [
  0x20000010; 0x20400000; 0x00004000; 0x20404010;
  0x20400000; 0x00000010; 0x20404010; 0x00400000;
  0x20004000; 0x00404010; 0x00400000; 0x20000010;
  0x00400010; 0x20004000; 0x20000000; 0x00004010;
  0x00000000; 0x00400010; 0x20004010; 0x00004000;
  0x00404000; 0x20004010; 0x00000010; 0x20400010;
  0x20400010; 0x00000000; 0x00404010; 0x20404000;
  0x00004010; 0x00404000; 0x20404000; 0x20000000;
  0x20004000; 0x00000010; 0x20400010; 0x00404000;
  0x20404010; 0x00400000; 0x00004010; 0x20000010;
  0x00400000; 0x20004000; 0x20000000; 0x00004010;
  0x20000010; 0x20404010; 0x00404000; 0x20400000;
  0x00404010; 0x20404000; 0x00000000; 0x20400010;
  0x00000010; 0x00004000; 0x20400000; 0x00404010;
  0x00004000; 0x00400010; 0x20004010; 0x00000000;
  0x20404000; 0x20000000; 0x00400010; 0x20004010].

Definition SB7 : list Z := [
  0x00200000; 0x04200002; 0x04000802; 0x00000000;
  0x00000800; 0x04000802; 0x00200802; 0x04200800;
  0x04200802; 0x00200000; 0x00000000; 0x04000002;
  0x00000002; 0x04000000; 0x04200002; 0x00000802;
  0x04000800; 0x00200802; 0x00200002; 0x04000800;
  0x04000002; 0x04200000; 0x04200800; 0x00200002;
  0x04200000; 0x00000800; 0x00000802; 0x04200802;
  0x00200800; 0x00000002; 0x04000000; 0x00200800;
  0x04000000; 0x00200800; 0x00200000; 0x04000802;
  0x04000802; 0x04200002; 0x04200002; 0x00000002;
  0x00200002; 0x04000000; 0x04000800; 0x00200000;
  0x04200800; 0x00000802; 0x00200802; 0x04200800;
  0x00000802; 0x04000002; 0x04200802; 0x04200000;
  0x00200800; 0x00000000; 0x00000002; 0x04200802;
  0x00000000; 0x00200802; 0x04200000; 0x00000800;
  0x04000002; 0x04000800; 0x00000800; 0x00200002].

Definition SB8 : list Z := [
  0x10001040; 0x00001000; 0x00040000; 0x10041040;
  0x10000000; 0x10001040; 0x00000040; 0x10000000;
  0x00040040; 0x10040000; 0x10041040; 0x00041000;
  0x10041000; 0x00041040; 0x00001000; 0x00000040;
  0x10040000; 0x10000040; 0x10001000; 0x00001040;
  0x00041000; 0x00040040; 0x10040040; 0x10041000;
  0x00001040; 0x00000000; 0x00000000; 0x10040040;
  0x10000040; 0x10001000; 0x00041040; 0x00040000;
  0x00041040; 0x00040000; 0x10041000; 0x00001000;
  0x00000040; 0x10040040; 0x00001000; 0x00041040;
  0x10001000; 0x00000040; 0x10000040; 0x10040000;
  0x10040040; 0x10000000; 0x00040000; 0x10001040;
  0x00000000; 0x10041040; 0x00040040; 0x10000040;
  0x10040000; 0x10001000; 0x10001040; 0x00000000;
  0x10041040; 0x00041000; 0x00041000; 0x00001040;
  0x00001040; 0x00040040; 0x10000000; 0x10041000].

Definition LHs : list Z := [
  0x00000000; 0x00000001; 0x00000100; 0x00000101;
  0x00010000; 0x00010001; 0x00010100; 0x00010101;
  0x01000000; 0x01000001; 0x01000100; 0x01000101;
  0x01010000; 0x01010001; 0x01010100; 0x01010101].

Definition RHs : list Z := [
  0x00000000; 0x01000000; 0x00010000; 0x01010000;
  0x00000100; 0x01000100; 0x00010100; 0x01010100;
  0x00000001; 0x01000001; 0x00010001; 0x01010001;
  0x00000101; 0x01000101; 0x00010101; 0x01010101].

(** A table entry; every index is masked to the size of its table. *)
Definition tbl (t : list Z) (i : Z) : Z := default 0 (t !! Z.to_nat i).

Local Open Scope c_scope.

(** ** Macros *)

(** GET_UINT32 and PUT_UINT32 on a block of bytes. *)
Definition GET_UINT32 (b : list Z) (i : nat) : Z :=
  let c j := default 0 (b !! (i + j)%nat) in
  c 0%nat .<< 24 .| c 1%nat .<< 16 .| c 2%nat .<< 8 .| c 3%nat.
Definition PUT_UINT32 (n : Z) : list Z :=
  [u8 (n .>> 24); u8 (n .>> 16); u8 (n .>> 8); u8 n].

(** T = ((X >> k) ^ Y) & mask; Y ^= T; X ^= (T << k). *)
Definition SWAP (k mask : Z) (XY : Z * Z) : Z * Z :=
  let '(X, Y) := XY in
  let T := (X .>> k .^ Y) .& mask in
  (X .^ T .<< k, Y .^ T).
Definition flip (XY : Z * Z) : Z * Z := (XY.2, XY.1).

Definition ROL1 (x : Z) : Z := (x .<< 1 .| x .>> 31) .& 0xFFFFFFFF.
Definition ROR1 (x : Z) : Z := (x .<< 31 .| x .>> 1) .& 0xFFFFFFFF.

(** The steps with X and Y exchanged are [SWAP] on the flipped pair. *)
Definition DES_IP (XY : Z * Z) : Z * Z :=
  let XY := SWAP 4 0x0F0F0F0F XY in
  let XY := SWAP 16 0x0000FFFF XY in
  let XY := flip (SWAP 2 0x33333333 (flip XY)) in
  let XY := flip (SWAP 8 0x00FF00FF (flip XY)) in
  let XY := (XY.1, ROL1 XY.2) in
  let XY := SWAP 0 0xAAAAAAAA XY in
  (ROL1 XY.1, XY.2).
Definition DES_FP (XY : Z * Z) : Z * Z :=
  let XY := (ROR1 XY.1, XY.2) in
  let XY := SWAP 0 0xAAAAAAAA XY in
  let XY := (XY.1, ROR1 XY.2) in
  let XY := flip (SWAP 8 0x00FF00FF (flip XY)) in
  let XY := flip (SWAP 2 0x33333333 (flip XY)) in
  let XY := SWAP 16 0x0000FFFF XY in
  SWAP 4 0x0F0F0F0F XY.

(** What DES_ROUND adds to Y, with its two subkeys. *)
Definition round_value (SK : Z * Z) (X : Z) : Z :=
  let T := SK.1 .^ X in
  let U := SK.2 .^ (X .<< 28 .| X .>> 4) in
  (tbl SB8 (T .& 0x3F) .^ tbl SB6 (T .>> 8 .& 0x3F) .^ tbl SB4 (T .>> 16 .& 0x3F)
     .^ tbl SB2 (T .>> 24 .& 0x3F)) .^
  (tbl SB7 (U .& 0x3F) .^ tbl SB5 (U .>> 8 .& 0x3F) .^ tbl SB3 (U .>> 16 .& 0x3F)
     .^ tbl SB1 (U .>> 24 .& 0x3F)).
Definition DES_ROUND (SK : Z * Z) (X Y : Z) : Z := Y .^ round_value SK X.

(** ** The key schedule *)

Definition PC1 (key : list Z) : Z * Z :=
  let X := GET_UINT32 key 0 in
  let Y := GET_UINT32 key 4 in
  let T := (Y .>> 4 .^ X) .& 0x0F0F0F0F in
  let X := X .^ T in
  let Y := Y .^ T .<< 4 in
  let T := (Y .^ X) .& 0x10101010 in
  let X := X .^ T in
  let Y := Y .^ T in
  let X' :=
    tbl LHs (X .& 0xF) .<< 3 .| tbl LHs (X .>> 8 .& 0xF) .<< 2
    .| tbl LHs (X .>> 16 .& 0xF) .<< 1 .| tbl LHs (X .>> 24 .& 0xF)
    .| tbl LHs (X .>> 5 .& 0xF) .<< 7 .| tbl LHs (X .>> 13 .& 0xF) .<< 6
    .| tbl LHs (X .>> 21 .& 0xF) .<< 5 .| tbl LHs (X .>> 29 .& 0xF) .<< 4 in
  let Y' :=
    tbl RHs (Y .>> 1 .& 0xF) .<< 3 .| tbl RHs (Y .>> 9 .& 0xF) .<< 2
    .| tbl RHs (Y .>> 17 .& 0xF) .<< 1 .| tbl RHs (Y .>> 25 .& 0xF)
    .| tbl RHs (Y .>> 4 .& 0xF) .<< 7 .| tbl RHs (Y .>> 12 .& 0xF) .<< 6
    .| tbl RHs (Y .>> 20 .& 0xF) .<< 5 .| tbl RHs (Y .>> 28 .& 0xF) .<< 4 in
  (X' .& 0x0FFFFFFF, Y' .& 0x0FFFFFFF).

Definition rotate_key (i X : Z) : Z :=
  if decide (i < 2 ∨ i = 8 ∨ i = 15) then (X .<< 1 .| X .>> 27) .& 0x0FFFFFFF
  else (X .<< 2 .| X .>> 26) .& 0x0FFFFFFF.

(** The two subkeys of a round. *)
Definition subkeys (X Y : Z) : Z * Z :=
  ((X .<< 4 .& 0x24000000) .| (X .<< 28 .& 0x10000000)
   .| (X .<< 14 .& 0x08000000) .| (X .<< 18 .& 0x02080000)
   .| (X .<< 6 .& 0x01000000) .| (X .<< 9 .& 0x00200000)
   .| (X .>> 1 .& 0x00100000) .| (X .<< 10 .& 0x00040000)
   .| (X .<< 2 .& 0x00020000) .| (X .>> 10 .& 0x00010000)
   .| (Y .>> 13 .& 0x00002000) .| (Y .>> 4 .& 0x00001000)
   .| (Y .<< 6 .& 0x00000800) .| (Y .>> 1 .& 0x00000400)
   .| (Y .>> 14 .& 0x00000200) .| (Y .& 0x00000100)
   .| (Y .>> 5 .& 0x00000020) .| (Y .>> 10 .& 0x00000010)
   .| (Y .>> 3 .& 0x00000008) .| (Y .>> 18 .& 0x00000004)
   .| (Y .>> 26 .& 0x00000002) .| (Y .>> 24 .& 0x00000001),
   (X .<< 15 .& 0x20000000) .| (X .<< 17 .& 0x10000000)
   .| (X .<< 10 .& 0x08000000) .| (X .<< 22 .& 0x04000000)
   .| (X .>> 2 .& 0x02000000) .| (X .<< 1 .& 0x01000000)
   .| (X .<< 16 .& 0x00200000) .| (X .<< 11 .& 0x00100000)
   .| (X .<< 3 .& 0x00080000) .| (X .>> 6 .& 0x00040000)
   .| (X .<< 15 .& 0x00020000) .| (X .>> 4 .& 0x00010000)
   .| (Y .>> 2 .& 0x00002000) .| (Y .<< 8 .& 0x00001000)
   .| (Y .>> 14 .& 0x00000808) .| (Y .>> 9 .& 0x00000400)
   .| (Y .& 0x00000200) .| (Y .<< 7 .& 0x00000100)
   .| (Y .>> 7 .& 0x00000020) .| (Y .>> 3 .& 0x00000011)
   .| (Y .<< 2 .& 0x00000004) .| (Y .>> 21 .& 0x00000002)).

Fixpoint schedule (n : nat) (i X Y : Z) : list (Z * Z) :=
  match n with
  | O => []
  | S n =>
      let X := rotate_key i X in
      let Y := rotate_key i Y in
      subkeys X Y :: schedule n (i + 1) X Y
  end.
(** SK[0..31] as sixteen pairs. *)
Definition des_main_ks (key : list Z) : list (Z * Z) :=
  let XY := PC1 key in schedule 16 0 XY.1 XY.2.

(** ** Blocks *)

(** The rounds in turn change X and Y. *)
Fixpoint rounds (SK : list (Z * Z)) (X Y : Z) : Z * Z :=
  match SK with
  | k1 :: k2 :: SK =>
      let X := DES_ROUND k1 Y X in
      let Y := DES_ROUND k2 X Y in
      rounds SK X Y
  | _ => (X, Y)
  end.

Definition des_crypt (SK : list (Z * Z)) (input : list Z) : list Z :=
  let XY := DES_IP (GET_UINT32 input 0, GET_UINT32 input 4) in
  let XY := rounds SK XY.1 XY.2 in
  let YX := DES_FP (XY.2, XY.1) in
  PUT_UINT32 YX.1 ++ PUT_UINT32 YX.2.

(** [lrandomkey] with the eight values of random(). *)
Definition lrandomkey (random : list Z) : list Z :=
  let tmp := (λ r, r .& 0xff) <$> random in
  if decide (foldl Z.lxor 0 tmp = 0) then
    match tmp with t0 :: r => (t0 .| 1) :: r | [] => [] end
  else tmp.

Definition des_key (key : list Z) : result (list (Z * Z)) :=
  if decide (zlen key ≠ 8) then Err (LuaError 0) else Ok (des_main_ks key).

(** The last block: what is left of the text, 0x80, zeros. *)
Definition tail_block (rest : list Z) : list Z :=
  (λ j, if decide (j < length rest)%nat then default 0 (rest !! j)
        else if decide (j = length rest) then 0x80 else 0) <$> seq 0 8.

(** The whole blocks of the text, and what is left. *)
Fixpoint blocks (n : nat) (text : list Z) : list (list Z) :=
  match n with
  | O => []
  | S n => take 8 text :: blocks n (drop 8 text)
  end.

Definition ldesencode (key text : list Z) : result (list Z) :=
  SK ← des_key key;
  let n := (length text / 8)%nat in
  Ok (concat (des_crypt SK <$> blocks n text) ++ des_crypt SK (tail_block (drop (8 * n) text))).

(** The loop that removes the padding from the end of the decrypted text. The
    counter [i] is an [int] compared as a [size_t]: when the text is one block the
    bound is 0 and the loop reads on in front of the buffer. *)
Fixpoint padding_loop (fuel : nat) (buffer : list Z) (textsz i padding : Z) : result Z :=
  if decide (textsz - 8 ≤ u64 i) then
    match fuel with
    | O => Err OutOfFuel
    | S f =>
        c ← rd buffer i;
        if decide (c = 0) then padding_loop f buffer textsz (i - 1) (padding + 1)
        else if decide (c = 0x80) then Ok padding
        else Err (LuaError 0)
    end
  else Ok padding.

Definition ldesdecode (key text : list Z) : result (list Z) :=
  ESK ← des_key key;
  let SK := reverse ESK in
  let textsz := zlen text in
  if decide (textsz .& 7 ≠ 0 ∨ textsz = 0) then Err (LuaError 0)
  else
    let buffer := concat (des_crypt SK <$> blocks (length text / 8) text) in
    padding ← padding_loop 9 buffer textsz (textsz - 1) 1;
    if decide (8 < padding) then Err (LuaError 0)
    else Ok (take (Z.to_nat (textsz - padding)) buffer).

(** ** Words of 32 bits *)

Definition word32 (x : Z) : Prop := 0 ≤ x < 2 ^ 32.

Lemma word32_bits x : word32 x ↔ 0 ≤ x ∧ ∀ i, 32 ≤ i → Z.testbit x i = false.
Proof.
  unfold word32. split.
  - intros Hx. split; [lia|]. intros i Hi. rewrite <- (Z.mod_small x (2 ^ 32)) by lia.
    apply Z.mod_pow2_bits_high. lia.
  - intros [H0 H]. split; [done|]. assert (x = x `mod` 2 ^ 32) as ->; [|apply Z.mod_pos_bound; lia].
    apply Z.bits_inj'. intros i Hi. destruct (decide (i < 32)).
    + by rewrite Z.mod_pow2_bits_low by lia.
    + rewrite Z.mod_pow2_bits_high by lia. apply H. lia.
Qed.
Lemma word32_lxor x y : word32 x → word32 y → word32 (Z.lxor x y).
Proof.
  rewrite !word32_bits. intros [Hx Hx'] [Hy Hy']. split; [apply Z.lxor_nonneg; lia|].
  intros i Hi. by rewrite Z.lxor_spec, Hx', Hy'.
Qed.
Lemma word32_wrap x : word32 (u32 x).
Proof. apply uwrap_range. lia. Qed.
Lemma word32_land x m : word32 m → word32 (Z.land x m).
Proof.
  rewrite !word32_bits. intros [Hm Hm']. split; [apply Z.land_nonneg; by right|].
  intros i Hi. by rewrite Z.land_spec, Hm', andb_false_r.
Qed.

Lemma land_le_mask x m : 0 ≤ m → Z.land x m ≤ m.
Proof.
  intros Hm. rewrite Z.land_comm. pose proof (Z.lor_ldiff_and m x) as E.
  rewrite <- Z.add_nocarry_lor in E.
  - assert (0 ≤ Z.ldiff m x) by (apply Z.ldiff_nonneg; by left). lia.
  - apply Z.bits_inj'. intros i Hi.
    rewrite Z.land_spec, Z.ldiff_spec, Z.land_spec, Z.bits_0. by destruct (Z.testbit m i), (Z.testbit x i).
Qed.

(** ** The permutations invert each other *)

Lemma SWAP_involutive k mask XY :
  0 ≤ k → 0 ≤ mask → mask * 2 ^ k < 2 ^ 32 → SWAP k mask (SWAP k mask XY) = XY.
Proof.
  intros Hk Hm Hlt. destruct XY as [X Y]. unfold SWAP. set (T := Z.land (Z.lxor (Z.shiftr X k) Y) mask).
  assert (0 ≤ T ≤ mask) as HT.
  { unfold T. split; [apply Z.land_nonneg; by right|].
    by apply land_le_mask. }
  assert (u32 (Z.shiftl T k) = Z.shiftl T k) as E.
  { apply uwrap_small. rewrite Z.shiftl_mul_pow2 by done. pose proof (pow2_pos k Hk). nia. }
  rewrite E. assert (Z.land (Z.lxor (Z.shiftr (Z.lxor X (Z.shiftl T k)) k) (Z.lxor Y T)) mask = T) as ->.
  { rewrite Z.shiftr_lxor, Z.shiftr_shiftl_l, Z.sub_diag, Z.shiftl_0_r by lia.
    replace (Z.lxor (Z.lxor (Z.shiftr X k) T) (Z.lxor Y T)) with (Z.lxor (Z.shiftr X k) Y); [done|].
    rewrite (Z.lxor_comm Y T), Z.lxor_assoc, <- (Z.lxor_assoc T T Y), Z.lxor_nilpotent.
    by rewrite Z.lxor_0_l. }
  rewrite E, !Z.lxor_assoc, !Z.lxor_nilpotent. by rewrite !Z.lxor_0_r.
Qed.
Lemma SWAP_word32 k mask X Y :
  word32 mask → word32 X → word32 Y → word32 (SWAP k mask (X, Y)).1 ∧ word32 (SWAP k mask (X, Y)).2.
Proof.
  intros. unfold SWAP. cbn [fst snd]. split; apply word32_lxor; try done; [apply word32_wrap|].
  by apply word32_land.
Qed.

Lemma ROL1_value x : word32 x → ROL1 x = 2 * (x `mod` 2 ^ 31) + x / 2 ^ 31.
Proof.
  intros Hx. unfold ROL1. change 0xFFFFFFFF with (2 ^ 32 - 1). rewrite land_ones_mod by lia.
  rewrite Z.shiftl_mul_pow2, Z.shiftr_div_pow2 by lia.
  assert (u32 (x * 2 ^ 1) = x `mod` 2 ^ 31 * 2 ^ 1) as ->
    by (unfold uwrap, word32 in *; Z.to_euclidean_division_equations; lia).
  rewrite Z.lor_comm, lor_add_high;
    [|lia|unfold word32 in *; split; [apply Z.div_pos|apply Z.div_lt_upper_bound]; lia].
  unfold word32 in *. rewrite Z.mod_small; Z.to_euclidean_division_equations; lia.
Qed.
Lemma ROR1_value x : word32 x → ROR1 x = 2 ^ 31 * (x `mod` 2) + x / 2.
Proof.
  intros Hx. unfold ROR1. change 0xFFFFFFFF with (2 ^ 32 - 1). rewrite land_ones_mod by lia.
  rewrite Z.shiftl_mul_pow2, Z.shiftr_div_pow2 by lia.
  assert (u32 (x * 2 ^ 31) = x `mod` 2 * 2 ^ 31) as ->
    by (unfold uwrap, word32 in *; Z.to_euclidean_division_equations; lia).
  rewrite Z.lor_comm, lor_add_high;
    [|lia|unfold word32 in *; split; [apply Z.div_pos|apply Z.div_lt_upper_bound]; lia].
  unfold word32 in *. rewrite Z.mod_small; Z.to_euclidean_division_equations; lia.
Qed.
Lemma ROL1_word32 x : word32 (ROL1 x).
Proof. by apply word32_land. Qed.
Lemma ROR1_word32 x : word32 (ROR1 x).
Proof. by apply word32_land. Qed.
Lemma ROR1_ROL1 x : word32 x → ROR1 (ROL1 x) = x.
Proof.
  intros Hx. rewrite ROR1_value, ROL1_value by (done || apply ROL1_word32).
  unfold word32 in *. Z.to_euclidean_division_equations. lia.
Qed.
Lemma ROL1_ROR1 x : word32 x → ROL1 (ROR1 x) = x.
Proof.
  intros Hx. rewrite ROL1_value, ROR1_value by (done || apply ROR1_word32).
  unfold word32 in *. Z.to_euclidean_division_equations. lia.
Qed.

Definition words (XY : Z * Z) : Prop := word32 XY.1 ∧ word32 XY.2.
Lemma words_SWAP k mask XY : word32 mask → words XY → words (SWAP k mask XY).
Proof. intros Hm [H1 H2]. destruct XY. by apply SWAP_word32. Qed.
Lemma words_flip XY : words XY → words (flip XY).
Proof. by intros [? ?]. Qed.
Lemma flip_flip XY : flip (flip XY) = XY.
Proof. by destruct XY. Qed.

(** The steps of the initial permutation but the rotations. *)
Definition mix (XY : Z * Z) : Z * Z :=
  flip (SWAP 8 0x00FF00FF (SWAP 2 0x33333333 (flip (SWAP 16 0x0000FFFF (SWAP 4 0x0F0F0F0F XY))))).
Definition unmix (XY : Z * Z) : Z * Z :=
  SWAP 4 0x0F0F0F0F (SWAP 16 0x0000FFFF (flip (SWAP 2 0x33333333 (SWAP 8 0x00FF00FF (flip XY))))).
Lemma unmix_mix XY : unmix (mix XY) = XY.
Proof. unfold mix, unmix. by rewrite flip_flip, !SWAP_involutive, flip_flip, !SWAP_involutive by done. Qed.
Lemma mix_unmix XY : mix (unmix XY) = XY.
Proof. unfold mix, unmix. by rewrite !SWAP_involutive, flip_flip, !SWAP_involutive, flip_flip by done. Qed.
Lemma words_mix XY : words XY → words (mix XY).
Proof. intros H. unfold mix. repeat first [apply words_flip | apply words_SWAP; [done|]]. done. Qed.
Lemma words_unmix XY : words XY → words (unmix XY).
Proof. intros H. unfold unmix. repeat first [apply words_flip | apply words_SWAP; [done|]]. done. Qed.

Lemma DES_IP_mix XY :
  DES_IP XY = let P := SWAP 0 0xAAAAAAAA ((mix XY).1, ROL1 (mix XY).2) in (ROL1 P.1, P.2).
Proof. unfold DES_IP, mix. by rewrite flip_flip. Qed.
Lemma DES_FP_unmix XY :
  DES_FP XY = let P := SWAP 0 0xAAAAAAAA (ROR1 XY.1, XY.2) in unmix (P.1, ROR1 P.2).
Proof. unfold DES_FP, unmix. by rewrite flip_flip. Qed.

Lemma words_IP XY : words XY → words (DES_IP XY).
Proof.
  intros H. rewrite DES_IP_mix. apply words_mix in H as [H1 H2]. cbn zeta.
  destruct (words_SWAP 0 0xAAAAAAAA ((mix XY).1, ROL1 (mix XY).2)) as [? ?]; [done| |].
  - split; [done|apply ROL1_word32].
  - split; [apply ROL1_word32|done].
Qed.
Lemma words_FP XY : words XY → words (DES_FP XY).
Proof.
  intros [H1 H2]. rewrite DES_FP_unmix. cbn zeta. apply words_unmix.
  destruct (words_SWAP 0 0xAAAAAAAA (ROR1 XY.1, XY.2)) as [? ?]; [done| |].
  - split; [apply ROR1_word32|done].
  - split; [done|apply ROR1_word32].
Qed.

Lemma FP_IP XY : words XY → DES_FP (DES_IP XY) = XY.
Proof.
  intros H. rewrite DES_FP_unmix, DES_IP_mix. cbn zeta. apply words_mix in H as Hm. destruct Hm as [H1 H2].
  destruct (words_SWAP 0 0xAAAAAAAA ((mix XY).1, ROL1 (mix XY).2)) as [Hs1 _];
    [done|split; [done|apply ROL1_word32]|].
  cbn [fst snd]. rewrite ROR1_ROL1, <- surjective_pairing, SWAP_involutive by done. cbn [fst snd].
  rewrite ROR1_ROL1, <- surjective_pairing by done. apply unmix_mix.
Qed.
Lemma IP_FP XY : words XY → DES_IP (DES_FP XY) = XY.
Proof.
  intros H. rewrite DES_IP_mix, DES_FP_unmix. cbn zeta. rewrite mix_unmix. cbn [fst snd]. destruct H as [H1 H2].
  destruct (words_SWAP 0 0xAAAAAAAA (ROR1 XY.1, XY.2)) as [_ Hs2];
    [done|split; [apply ROR1_word32|done]|].
  rewrite ROL1_ROR1, <- surjective_pairing, SWAP_involutive by done. cbn [fst snd].
  rewrite ROL1_ROR1 by done. by destruct XY.
Qed.

(** ** The rounds, undone with the keys in reverse *)

Lemma rounds_app k1 k2 A X Y :
  Nat.Even (length A) →
  rounds (A ++ [k1; k2]) X Y = (let P := rounds A X Y in rounds [k1; k2] P.1 P.2).
Proof.
  intros [n Hn]. revert A X Y Hn. induction n as [|n IH]; intros A X Y Hn.
  - by destruct A.
  - destruct A as [|a [|b A]]; cbn in Hn; [lia|lia|]. cbn [app rounds]. apply IH. lia.
Qed.
Lemma rounds_reverse SK X Y :
  Nat.Even (length SK) →
  rounds (reverse SK) (rounds SK X Y).2 (rounds SK X Y).1 = (Y, X).
Proof.
  intros [n Hn]. revert SK X Y Hn. induction n as [|n IH]; intros SK X Y Hn.
  - by destruct SK.
  - destruct SK as [|k1 [|k2 SK]]; cbn in Hn; [lia|lia|].
    rewrite !reverse_cons, <- app_assoc. cbn [app rounds].
    rewrite rounds_app by (rewrite length_reverse; exists n; lia). cbn zeta.
    rewrite IH by lia. cbn [fst snd rounds]. unfold DES_ROUND.
    assert (∀ a b, Z.lxor (Z.lxor a b) b = a) as Hx
      by (intros; by rewrite Z.lxor_assoc, Z.lxor_nilpotent, Z.lxor_0_r).
    by rewrite !Hx.
Qed.

Lemma tbl_word32 t i : Forall word32 t → word32 (tbl t i).
Proof.
  intros H. unfold tbl. destruct (t !! Z.to_nat i) eqn:E; [|done]. by eapply Forall_lookup_1 in E.
Qed.
Lemma table_ok t : forallb (λ x, (0 <=? x) && (x <? 2 ^ 32)) t = true → Forall word32 t.
Proof.
  intros H. apply Forall_forall. intros x Hx. rewrite forallb_forall in H.
  apply list_elem_of_In in Hx. specialize (H x Hx). unfold word32. lia.
Qed.
Lemma round_word32 SK X Y : word32 Y → word32 (DES_ROUND SK X Y).
Proof.
  intros HY. unfold DES_ROUND, round_value. apply word32_lxor; [done|].
  repeat apply word32_lxor; apply tbl_word32, table_ok; reflexivity.
Qed.
Lemma rounds_words SK X Y : word32 X → word32 Y → words (rounds SK X Y).
Proof.
  remember (length SK) as n eqn:En. revert SK X Y En.
  induction (Nat.lt_wf_0 n) as [n _ IH]. intros SK X Y En HX HY.
  destruct SK as [|k1 [|k2 SK]]; [done|done|]. cbn [rounds].
  eapply (IH (length SK)); [cbn in En; lia|done|by apply round_word32|].
  by apply round_word32.
Qed.

(** ** Blocks of bytes *)

Definition bytes (l : list Z) : Prop := Forall (λ c, 0 ≤ c < 256) l.

Definition be32 (a b c d : Z) : Z := ((a * 256 + b) * 256 + c) * 256 + d.

Lemma join4 a b c d :
  0 ≤ a < 256 → 0 ≤ b < 256 → 0 ≤ c < 256 → 0 ≤ d < 256 →
  (a .<< 24 .| b .<< 16 .| c .<< 8 .| d) = be32 a b c d.
Proof.
  intros. rewrite !Z.shiftl_mul_pow2, !uwrap_small by lia. unfold be32.
  rewrite (Z.lor_comm (a * 2 ^ 24)), (lor_add_high (b * 2 ^ 16)) by lia.
  replace (b * 2 ^ 16 + a * 2 ^ 24) with ((b + a * 2 ^ 8) * 2 ^ 16) by lia.
  rewrite (Z.lor_comm _ (c * 2 ^ 8)), (lor_add_high (c * 2 ^ 8)) by lia.
  replace (c * 2 ^ 8 + (b + a * 2 ^ 8) * 2 ^ 16) with ((c + (b + a * 2 ^ 8) * 2 ^ 8) * 2 ^ 8) by lia.
  rewrite Z.lor_comm, lor_add_high by lia. lia.
Qed.
Lemma PUT_be32 a b c d :
  0 ≤ a < 256 → 0 ≤ b < 256 → 0 ≤ c < 256 → 0 ≤ d < 256 → PUT_UINT32 (be32 a b c d) = [a; b; c; d].
Proof.
  intros. unfold PUT_UINT32, be32, uwrap. rewrite !Z.shiftr_div_pow2 by lia.
  repeat f_equal; Z.to_euclidean_division_equations; lia.
Qed.
Lemma PUT_value n :
  word32 n → ∃ a b c d, PUT_UINT32 n = [a; b; c; d] ∧ n = be32 a b c d ∧
    0 ≤ a < 256 ∧ 0 ≤ b < 256 ∧ 0 ≤ c < 256 ∧ 0 ≤ d < 256.
Proof.
  intros Hn. unfold PUT_UINT32. eexists _, _, _, _. split; [done|].
  assert (∀ x, 0 ≤ u8 x < 256) as Hb by (intros; apply uwrap_range; lia).
  split; [|auto]. unfold be32, uwrap. rewrite !Z.shiftr_div_pow2 by lia.
  unfold word32 in Hn. Z.to_euclidean_division_equations. lia.
Qed.

(** A block as two words, and back. *)
Lemma get_put a b :
  word32 a → word32 b →
  GET_UINT32 (PUT_UINT32 a ++ PUT_UINT32 b) 0 = a ∧ GET_UINT32 (PUT_UINT32 a ++ PUT_UINT32 b) 4 = b.
Proof.
  intros Ha Hb.
  destruct (PUT_value a Ha) as (a0 & a1 & a2 & a3 & -> & -> & ? & ? & ? & ?).
  destruct (PUT_value b Hb) as (b0 & b1 & b2 & b3 & -> & -> & ? & ? & ? & ?).
  unfold GET_UINT32. cbn [app lookup list_lookup Nat.add default]. by rewrite !join4.
Qed.
Lemma block_words input :
  length input = 8%nat → bytes input →
  words (GET_UINT32 input 0, GET_UINT32 input 4) ∧
  PUT_UINT32 (GET_UINT32 input 0) ++ PUT_UINT32 (GET_UINT32 input 4) = input.
Proof.
  intros Hl Hb. destruct input as [|a0 [|a1 [|a2 [|a3 [|a4 [|a5 [|a6 [|a7 [|]]]]]]]]]; try done.
  unfold bytes in Hb. rewrite !Forall_cons in Hb. destruct Hb as (? & ? & ? & ? & ? & ? & ? & ? & _).
  unfold GET_UINT32. cbn [lookup list_lookup Nat.add default]. rewrite !join4, !PUT_be32 by done.
  split; [|done]. unfold words, word32, be32. cbn [fst snd]. unfold id. lia.
Qed.

(** Decrypting a block with the reversed schedule. *)
Lemma des_crypt_inverse SK input :
  Nat.Even (length SK) → length input = 8%nat → bytes input →
  des_crypt (reverse SK) (des_crypt SK input) = input ∧
  length (des_crypt SK input) = 8%nat ∧ bytes (des_crypt SK input).
Proof.
  intros He Hl Hb. destruct (block_words input Hl Hb) as [Hw Hp].
  set (X := GET_UINT32 input 0) in *. set (Y := GET_UINT32 input 4) in *.
  unfold des_crypt at 2 3 4. fold X Y. set (P := DES_IP (X, Y)) in *.
  destruct (words_IP _ Hw) as [HP1 HP2]. fold P in HP1, HP2.
  destruct (rounds_words SK _ _ HP1 HP2) as [HR1 HR2]. set (R := rounds SK P.1 P.2) in *.
  destruct (words_FP (R.2, R.1) (conj HR2 HR1)) as [HF1 HF2].
  split; [|split; [done|]].
  - unfold des_crypt. destruct (get_put _ _ HF1 HF2) as [-> ->].
    rewrite <- surjective_pairing, IP_FP by done. cbn [fst snd]. unfold R.
    rewrite rounds_reverse by done. cbn [fst snd]. rewrite <- surjective_pairing. unfold P.
    rewrite FP_IP by done. exact Hp.
  - unfold bytes. apply Forall_app.
    split; repeat apply Forall_cons_2; try apply Forall_nil_2; apply uwrap_range; lia.
Qed.

#[local] Opaque des_crypt.

Lemma schedule_length n i X Y : length (schedule n i X Y) = n.
Proof. revert i X Y. induction n as [|n IH]; intros; [done|]. cbn. by rewrite IH. Qed.

(** ** The text *)

Lemma blocks_concat n text :
  (8 * n ≤ length text)%nat →
  concat (blocks n text) = take (8 * n) text ∧ Forall (λ b, length b = 8%nat) (blocks n text) ∧
  length (blocks n text) = n.
Proof.
  revert text. induction n as [|n IH]; intros text Hl; [done|]. cbn [blocks concat length].
  destruct (IH (drop 8 text)) as (-> & Hf & ->); [rewrite length_drop; lia|].
  split; [|split; [|done]].
  - replace (8 * S n)%nat with (8 + 8 * n)%nat by lia. by rewrite take_take_drop.
  - constructor; [rewrite length_take; lia|done].
Qed.
Lemma blocks_of_concat bs :
  Forall (λ b : list Z, length b = 8%nat) bs → blocks (length bs) (concat bs) = bs.
Proof.
  induction 1 as [|b bs Hb _ IH]; [done|]. cbn [length blocks concat].
  rewrite <- Hb at 1 2. rewrite take_app_length, drop_app_length. by rewrite IH.
Qed.
Lemma concat_length_8 bs :
  Forall (λ b : list Z, length b = 8%nat) bs → length (concat bs) = (8 * length bs)%nat.
Proof. induction 1; cbn; rewrite ?length_app; lia. Qed.

Lemma tail_block_value rest :
  (length rest < 8)%nat → tail_block rest = rest ++ [0x80] ++ replicate (7 - length rest) 0.
Proof.
  intros H. destruct rest as [|r0 [|r1 [|r2 [|r3 [|r4 [|r5 [|r6 [|]]]]]]]]; try reflexivity.
  cbn in H. lia.
Qed.

(** Decrypting the encrypted blocks of a text. *)
Lemma crypt_blocks SK plain :
  Nat.Even (length SK) → Forall (λ b, length b = 8%nat) plain → bytes (concat plain) →
  let c := concat (des_crypt SK <$> plain) in
  length c = (8 * length plain)%nat ∧ bytes c ∧
  concat (des_crypt (reverse SK) <$> blocks (length c / 8) c) = concat plain.
Proof.
  intros He Hl Hb c.
  assert (Forall (λ b, length b = 8%nat ∧ bytes b) plain) as Hp.
  { unfold bytes in *. rewrite Forall_concat in Hb. apply Forall_and. by split. }
  assert (Forall (λ b, length b = 8%nat) (des_crypt SK <$> plain)) as Hc.
  { apply Forall_fmap. eapply Forall_impl; [exact Hp|]. intros b [? ?]. by apply des_crypt_inverse. }
  unfold c. rewrite concat_length_8, length_fmap by done. split; [done|]. split.
  - unfold bytes. apply Forall_concat, Forall_fmap. eapply Forall_impl; [exact Hp|].
    intros b [? ?]. by apply des_crypt_inverse.
  - rewrite Nat.mul_comm, Nat.div_mul by lia. rewrite <- (length_fmap (des_crypt SK) plain).
    rewrite blocks_of_concat by done. f_equal. rewrite <- list_fmap_compose.
    rewrite <- (list_fmap_id plain) at 2. apply list_fmap_ext. intros i b Hi.
    rewrite Forall_lookup in Hp. destruct (Hp _ _ Hi) as [Hl8 Hb8].
    exact (proj1 (des_crypt_inverse SK b He Hl8 Hb8)).
Qed.

(** The padding loop counts the zeros behind the 0x80. *)
Lemma padding_loop_spec z fuel pre textsz p :
  (z < fuel)%nat → textsz - 8 ≤ zlen pre → zlen pre + Z.of_nat z < 2 ^ 64 →
  padding_loop fuel (pre ++ [0x80] ++ replicate z 0) textsz (zlen pre + Z.of_nat z) p
    = Ok (p + Z.of_nat z).
Proof.
  intros Hf Hs Hlt. set (buf := pre ++ [0x80] ++ replicate z 0). pose proof (zlen_nonneg pre).
  assert (∀ k, (k ≤ z)%nat → rd buf (zlen pre + Z.of_nat k) = Ok (if decide (k = 0%nat) then 0x80 else 0)) as Hrd.
  { intros k Hk. apply rd_lookup; [lia|]. unfold buf.
    replace (Z.to_nat (zlen pre + Z.of_nat k)) with (length pre + k)%nat by (unfold zlen; lia).
    rewrite lookup_app_r, Nat.add_comm, Nat.add_sub by lia. destruct k as [|k]; [done|].
    change (([0x80] ++ replicate z 0) !! S k) with (replicate z 0 !! k).
    by rewrite lookup_replicate_2 by lia. }
  clearbody buf. revert fuel p Hf. induction z as [|z IH]; intros [|fuel] p Hf; try lia; cbn [padding_loop].
  - rewrite uwrap_small, decide_True by lia. rewrite Hrd by lia. cbn. f_equal. lia.
  - rewrite uwrap_small, decide_True by lia. rewrite Hrd by lia. rewrite decide_False by lia.
    rewrite bind_Ok, decide_True by done.
    replace (zlen pre + Z.of_nat (S z) - 1) with (zlen pre + Z.of_nat z) by lia.
    rewrite IH by (try lia; intros; apply Hrd; lia). f_equal. lia.
Qed.

(** C30: DES. For every 8-byte key and every text of bytes, encoding succeeds with a
    padded length and decoding gives the text back; any other key size is refused by
    both. But the bound of the padding loop is an unsigned zero when the ciphertext is
    a single block: one that decrypts to zeros makes it read in front of the buffer. *)
Theorem des_roundtrip key text :
  bytes text → zlen text < 2 ^ 31 →
  (zlen key = 8 →
   (∃ c, ldesencode key text = Ok c ∧ zlen c = 8 * (zlen text / 8 + 1) ∧ bytes c ∧
     ldesdecode key c = Ok text) ∧
   (∃ c, zlen c = 8 ∧ bytes c ∧ ldesdecode key c = Err OutOfBounds)) ∧
  (zlen key ≠ 8 → ldesencode key text = Err (LuaError 0) ∧ ldesdecode key text = Err (LuaError 0)).
Proof.
  intros Hb Hl. split; [|intros Hk; unfold ldesencode, ldesdecode, des_key; by rewrite decide_True].
  intros Hk. unfold ldesencode, ldesdecode, des_key. rewrite decide_False by lia. rewrite !bind_Ok.
  set (SK := des_main_ks key). assert (Nat.Even (length SK)) as He
    by (unfold SK, des_main_ks; rewrite schedule_length; by exists 8%nat).
  clearbody SK. split.
  - set (n := (length text / 8)%nat). set (rest := drop (8 * n) text).
    pose proof (Nat.div_mod_eq (length text) 8) as Hdm. fold n in Hdm.
    pose proof (Nat.mod_upper_bound (length text) 8 ltac:(lia)) as Hmod.
    assert (length rest = length text - 8 * n)%nat as Hr by (unfold rest; apply length_drop).
    destruct (blocks_concat n text) as (Hc & Hf & Hn); [lia|].
    set (plain := blocks n text ++ [tail_block rest]).
    assert (concat plain = text ++ [0x80] ++ replicate (7 - length rest) 0) as Ep.
    { unfold plain. rewrite concat_app, Hc. cbn [concat]. rewrite app_nil_r, tail_block_value by lia.
      rewrite app_assoc. unfold rest. by rewrite take_drop. }
    destruct (crypt_blocks SK plain He) as (Hlen & Hbc & Hdec).
    { apply Forall_app. split; [done|]. by apply Forall_singleton. }
    { rewrite Ep. apply Forall_app. split; [done|]. apply Forall_cons. split; [lia|].
      apply Forall_replicate. lia. }
    exists (concat (des_crypt SK <$> plain)). set (c := concat (des_crypt SK <$> plain)) in *.
    assert (zlen c = 8 * (Z.of_nat n + 1)) as Hz
      by (unfold zlen; rewrite Hlen; unfold plain; rewrite length_app, Hn; cbn; lia).
    split; [unfold c, plain; rewrite fmap_app, concat_app;
      cbn [fmap list_fmap concat]; by rewrite app_nil_r|].
    split; [rewrite Hz; unfold zlen, n; rewrite Nat2Z.inj_div; done|]. split; [done|].
    rewrite bind_Ok. cbv zeta. change 7 with (2 ^ 3 - 1). rewrite land_ones_mod by lia.
    rewrite decide_False by (rewrite Hz, Z.mul_comm; change (2 ^ 3) with 8; rewrite Z.mod_mul; lia).
    rewrite Hdec, Ep.
    replace (zlen c - 1) with (zlen text + Z.of_nat (7 - length rest)) by (unfold zlen in *; lia).
    rewrite padding_loop_spec by (unfold zlen in *; lia). rewrite bind_Ok, decide_False by lia.
    replace (Z.to_nat (zlen c - (1 + Z.of_nat (7 - length rest)))) with (length text)
      by (unfold zlen in *; lia).
    by rewrite take_app_length.
  - destruct (crypt_blocks SK [replicate 8 0] He) as (Hlen & Hbc & Hdec);
      [by apply Forall_singleton|by repeat constructor|].
    exists (concat (des_crypt SK <$> [replicate 8 0])).
    change (8 * length [replicate 8 0])%nat with 8%nat in Hlen.
    set (c := concat (des_crypt SK <$> [replicate 8 0])) in *.
    assert (zlen c = 8) as Hz by (unfold zlen; by rewrite Hlen). split; [done|]. split; [done|].
    rewrite bind_Ok. cbv zeta. rewrite Hz, Hdec. reflexivity.
Qed.

Lemma des_roundtrip_witness :
  ∃ c, ldesencode [1; 2; 3; 4; 5; 6; 7; 8] [104; 105] = Ok c ∧
    ldesdecode [1; 2; 3; 4; 5; 6; 7; 8] c = Ok [104; 105].
Proof.
  destruct (des_roundtrip [1; 2; 3; 4; 5; 6; 7; 8] [104; 105]) as [H _].
  - repeat constructor; lia.
  - vm_compute. reflexivity.
  - destruct H as [(c & E & _ & _ & D) _]; [reflexivity|]. exists c. split; [exact E|exact D].
Defined.
