(* ===== verification/Crypt.v ===== *)
(** * Hashes, text encodings and key exchange: lualib-src/lua-crypt.c

    The functions of the crypt library but DES and SHA-1, on byte lists. The
    theorems are the agreement of the Diffie-Hellman exchange, the round trip of
    base64 and what the hexadecimal decoder refuses and accepts. Texts are shorter
    than 2^31 bytes, so that the [int] counters of the loops do not overflow. *)
From Stdlib Require Import String Zpow_facts.
From stdpp Require Import base numbers list.
From S2P Require Import Prelude CString Des.
Local Open Scope c_scope.

(** ** Hash *)

Definition hash_step (h : Z * Z) (c : Z) : Z * Z :=
  let '(djb_hash, js_hash) := h in
  (djb_hash .+ ((djb_hash .<< 5) .+ c),
   js_hash .^ ((js_hash .<< 5) .+ c .+ (js_hash .>> 2))).

(** The four bytes of a word, lowest first. *)
Definition word_bytes (x : Z) : list Z :=
  [x .& 0xff; x .>> 8 .& 0xff; x .>> 16 .& 0xff; x .>> 24 .& 0xff].
Definition Hash (str : list Z) : list Z :=
  let h := foldl hash_step (5381, 1315423911) str in
  word_bytes h.1 ++ word_bytes h.2.
Definition lhashkey (key : list Z) : list Z := Hash key.

(** ** Hexadecimal *)

Definition hex_digits : list Z := lit "0123456789abcdef".
Definition ltohex (text : list Z) : list Z :=
  concat ((λ c, [tbl hex_digits (c .>> 4); tbl hex_digits (c .& 0xf)]) <$> text).

(** The HEX macro, stored in a [uint8_t]. *)
Definition HEX (c : Z) : Z :=
  u8 (if decide (48 ≤ c ∧ c ≤ 57) then c - 48 else c - 97 + 10).

(** The loop reads the NUL behind a text of odd length. *)
Fixpoint fromhex_loop (text : list Z) : result (list Z) :=
  match text with
  | [] => Ok []
  | a :: r =>
      let hi := HEX a in
      let low := HEX (default 0 (r !! 0%nat)) in
      if decide (16 < hi ∨ 16 < low) then Err (LuaError 0)
      else
        match r with
        | _ :: r' => t ← fromhex_loop r'; Ok (u8 (Z.shiftl hi 4 .| low) :: t)
        | [] => Ok [u8 (Z.shiftl hi 4 .| low)]
        end
  end.
Definition lfromhex (text : list Z) : result (list Z) :=
  if decide (zlen text .& 2 ≠ 0) then Err (LuaError 0) else fromhex_loop text.

(** ** hmac64 *)

Definition hmac_k : list Z := [
  0xd76aa478; 0xe8c7b756; 0x242070db; 0xc1bdceee;
  0xf57c0faf; 0x4787c62a; 0xa8304613; 0xfd469501;
  0x698098d8; 0x8b44f7af; 0xffff5bb1; 0x895cd7be;
  0x6b901122; 0xfd987193; 0xa679438e; 0x49b40821;
  0xf61e2562; 0xc040b340; 0x265e5a51; 0xe9b6c7aa;
  0xd62f105d; 0x02441453; 0xd8a1e681; 0xe7d3fbc8;
  0x21e1cde6; 0xc33707d6; 0xf4d50d87; 0x455a14ed;
  0xa9e3e905; 0xfcefa3f8; 0x676f02d9; 0x8d2a4c8a;
  0xfffa3942; 0x8771f681; 0x6d9d6122; 0xfde5380c;
  0xa4beea44; 0x4bdecfa9; 0xf6bb4b60; 0xbebfbc70;
  0x289b7ec6; 0xeaa127fa; 0xd4ef3085; 0x04881d05;
  0xd9d4d039; 0xe6db99e5; 0x1fa27cf8; 0xc4ac5665;
  0xf4292244; 0x432aff97; 0xab9423a7; 0xfc93a039;
  0x655b59c3; 0x8f0ccc92; 0xffeff47d; 0x85845dd1;
  0x6fa87e4f; 0xfe2ce6e0; 0xa3014314; 0x4e0811a1;
  0xf7537e82; 0xbd3af235; 0x2ad7d2bb; 0xeb86d391].
Definition hmac_r : list Z := [
  7; 12; 17; 22; 7; 12; 17; 22; 7; 12; 17; 22; 7; 12; 17; 22;
  5; 9; 14; 20; 5; 9; 14; 20; 5; 9; 14; 20; 5; 9; 14; 20;
  4; 11; 16; 23; 4; 11; 16; 23; 4; 11; 16; 23; 4; 11; 16; 23;
  6; 10; 15; 21; 6; 10; 15; 21; 6; 10; 15; 21; 6; 10; 15; 21].

Definition LEFTROTATE (x c : Z) : Z := x .<< c .| x .>> (32 - c).
Definition complement (x : Z) : Z := u32 (Z.lnot x).

(** One of the 64 rounds; [w] repeats x[1], x[0], y[1], y[0]. *)
Definition hmac_round (w : list Z) (s : Z * Z * Z * Z) (i : Z) : Z * Z * Z * Z :=
  let '(a, b, c, d) := s in
  let '(f, g) :=
    if decide (i < 16) then ((b .& c) .| (complement b .& d), i)
    else if decide (i < 32) then ((d .& b) .| (complement d .& c), (5 * i + 1) `mod` 16)
    else if decide (i < 48) then (b .^ c .^ d, (3 * i + 5) `mod` 16)
    else (c .^ (b .| complement d), (7 * i) `mod` 16) in
  (d, b .+ LEFTROTATE (a .+ f .+ tbl hmac_k i .+ tbl w g) (tbl hmac_r i), b, c).
Definition hmac (x y : Z * Z) : Z * Z :=
  let w4 := [x.2; x.1; y.2; y.1] in
  let w := w4 ++ w4 ++ w4 ++ w4 in
  let '(a, b, c, d) :=
    foldl (hmac_round w) (0x67452301, 0xefcdab89, 0x98badcfe, 0x10325476) (seqZ 0 64) in
  (c .^ d, a .^ b).

(** x[0] | x[1]<<8 | x[2]<<16 | x[3]<<24, and the same from x[4]. *)
Definition read_word (x : list Z) (i : nat) : Z :=
  let c j := default 0 (x !! (i + j)%nat) in
  c 0%nat .| c 1%nat .<< 8 .| c 2%nat .<< 16 .| c 3%nat .<< 24.
Definition read_pair (x : list Z) : result (Z * Z) :=
  if decide (zlen x ≠ 8) then Err (LuaError 0) else Ok (read_word x 0, read_word x 4).
Definition read64 (x y : list Z) : result ((Z * Z) * (Z * Z)) :=
  xx ← read_pair x; yy ← read_pair y; Ok (xx, yy).
Definition pushqword (r : Z * Z) : list Z := word_bytes r.1 ++ word_bytes r.2.

Definition lhmac64 (x y : list Z) : result (list Z) :=
  r ← read64 x y; Ok (pushqword (hmac r.1 r.2)).
Definition lhmac_hash (key text : list Z) : result (list Z) :=
  k ← read_pair key;
  let h := Hash text in
  Ok (pushqword (hmac (read_word h 0, read_word h 4) k)).

(** ** Diffie-Hellman *)

(** The biggest 64-bit prime. *)
Definition P64 : Z := 0xffffffffffffffc5.

(** The loop of [mul_mod_p]: 64 turns empty a [uint64_t]. *)
Fixpoint mul_mod_loop (fuel : nat) (m a b : Z) : result Z :=
  if decide (b = 0) then Ok m
  else
    match fuel with
    | O => Err OutOfFuel
    | S f =>
        let m := if decide (b .& 1 ≠ 0) then
                   let t := u64 (P64 - a) in
                   if decide (t ≤ m) then u64 (m - t) else u64 (m + a)
                 else m in
        let a := if decide (u64 (P64 - a) ≤ a) then u64 (u64 (a * 2) - P64) else u64 (a * 2) in
        mul_mod_loop f m a (b .>> 1)
    end.
Definition mul_mod_p (a b : Z) : result Z := mul_mod_loop 64 0 a b.

Fixpoint pow_mod_p (fuel : nat) (a b : Z) : result Z :=
  match fuel with
  | O => Err OutOfFuel
  | S f =>
      if decide (b = 1) then Ok a
      else
        t ← pow_mod_p f a (b .>> 1);
        t ← mul_mod_p t t;
        if decide (b `mod` 2 ≠ 0) then mul_mod_p t a else Ok t
  end.
Definition powmodp (a b : Z) : result Z :=
  pow_mod_p 64 (if decide (P64 < a) then a `mod` P64 else a) b.

Definition push64 (r : Z) : list Z :=
  (λ i, (Z.shiftr r (8 * i)) .& 0xff) <$> [0; 1; 2; 3; 4; 5; 6; 7].
Definition join64 (x : Z * Z) : Z := x.1 .| Z.shiftl x.2 32.

Definition ldhsecret (x y : list Z) : result (list Z) :=
  r ← read64 x y;
  let xx := join64 r.1 in
  let yy := join64 r.2 in
  if decide (xx = 0 ∨ yy = 0) then Err (LuaError 0)
  else r ← powmodp xx yy; Ok (push64 r).
Definition DH_G : Z := 5.
Definition ldhexchange (x : list Z) : result (list Z) :=
  xx ← read_pair x;
  let x64 := join64 xx in
  if decide (x64 = 0) then Err (LuaError 0)
  else r ← powmodp DH_G x64; Ok (push64 r).

(** ** Base64 *)

Definition encoding : list Z :=
  lit "ABCDEFGHIJKLMNOPQRSTUVWXYZabcdefghijklmnopqrstuvwxyz0123456789+/".

Fixpoint lb64encode (text : list Z) : list Z :=
  match text with
  | a :: b :: c :: r =>
      let v := Z.shiftl a 16 .| Z.shiftl b 8 .| c in
      [tbl encoding (v .>> 18); tbl encoding (v .>> 12 .& 0x3f);
       tbl encoding (v .>> 6 .& 0x3f); tbl encoding (v .& 0x3f)] ++ lb64encode r
  | [a] => [tbl encoding (a .>> 2); tbl encoding (Z.shiftl (a .& 3) 4); 61; 61]
  | [a; b] =>
      let v := Z.shiftl a 8 .| b in
      [tbl encoding (v .>> 10); tbl encoding (v .>> 4 .& 0x3f);
       tbl encoding (Z.shiftl (v .& 0xf) 2); 61]
  | [] => []
  end.

Definition decoding : list Z := [
  62; -1; -1; -1; 63; 52; 53; 54; 55; 56; 57; 58; 59; 60; 61; -1; -1; -1; -2; -1;
  -1; -1; 0; 1; 2; 3; 4; 5; 6; 7; 8; 9; 10; 11; 12; 13; 14; 15; 16; 17;
  18; 19; 20; 21; 22; 23; 24; 25; -1; -1; -1; -1; -1; -1; 26; 27; 28; 29; 30; 31;
  32; 33; 34; 35; 36; 37; 38; 39; 40; 41; 42; 43; 44; 45; 46; 47; 48; 49; 50; 51].
Definition b64index (c : Z) : Z :=
  if decide (c < 43) then -1
  else
    let c := c - 43 in
    if decide (80 ≤ c) then -1 else tbl decoding c.

(** The inner loop: [n] more indices, skipping characters outside the alphabet. *)
Fixpoint b64_take (n : nat) (text : list Z) : result (list Z * list Z) :=
  match n with
  | O => Ok ([], text)
  | S n' =>
      (fix skip (text : list Z) :=
         match text with
         | [] => Err (LuaError 0)
         | c :: r =>
             let i := b64index c in
             if decide (i = -1) then skip r
             else t ← b64_take n' r; Ok (i :: t.1, t.2)
         end) text
  end.

(** The bytes of four indices; -2 stands for the padding character. *)
Definition b64_group (c0 c1 c2 c3 : Z) : result (list Z) :=
  let padding := length (filter (λ c, c = -2) [c0; c1; c2; c3]) in
  match padding with
  | 0%nat =>
      let v := c0 .<< 18 .| Z.shiftl c1 12 .| Z.shiftl c2 6 .| c3 in
      Ok [u8 (v .>> 16); v .>> 8 .& 0xff; v .& 0xff]
  | 1%nat =>
      if decide (c3 ≠ -2 ∨ (c2 .& 3) ≠ 0) then Err (LuaError 0)
      else
        let v := c0 .<< 10 .| Z.shiftl c1 4 .| c2 .>> 2 in
        Ok [u8 (v .>> 8); v .& 0xff]
  | 2%nat =>
      if decide (c3 ≠ -2 ∨ c2 ≠ -2 ∨ (c1 .& 0xf) ≠ 0) then Err (LuaError 0)
      else
        let v := c0 .<< 2 .| c1 .>> 4 in
        Ok [u8 v]
  | _ => Err (LuaError 0)
  end.

(** The outer loop; every turn takes four characters at least. *)
Fixpoint b64decode_loop (fuel : nat) (text : list Z) : result (list Z) :=
  match text with
  | [] => Ok []
  | _ =>
      match fuel with
      | O => Err OutOfFuel
      | S f =>
          t ← b64_take 4 text;
          match t.1 with
          | [c0; c1; c2; c3] =>
              g ← b64_group c0 c1 c2 c3;
              rest ← b64decode_loop f t.2;
              Ok (g ++ rest)
          | _ => Err OutOfBounds
          end
      end
  end.
Definition lb64decode (text : list Z) : result (list Z) := b64decode_loop (length text) text.

(** ** xor *)

Definition lxor_str (s1 s2 : list Z) : result (list Z) :=
  if decide (zlen s2 = 0) then Err (LuaError 0)
  else Ok (imap (λ i c, c .^ tbl s2 (Z.of_nat i `mod` zlen s2)) s1).

(** ** Multiplication and powers modulo P *)

Lemma land_1_mod b : Z.land b 1 = b `mod` 2.
Proof. change 1 with (2 ^ 1 - 1) at 1. by rewrite land_ones_mod. Qed.

Lemma mod_shift x k y : x = y + k * P64 → x `mod` P64 = y `mod` P64.
Proof. intros ->. by rewrite Z.mod_add. Qed.

Lemma mul_mod_loop_spec fuel m a b :
  0 ≤ m < P64 → 0 ≤ a ≤ P64 → 0 ≤ b < 2 ^ Z.of_nat fuel →
  mul_mod_loop fuel m a b = Ok ((m + a * b) `mod` P64).
Proof.
  revert m a b. induction fuel as [|f IH]; intros m a b Hm Ha Hb; cbn [mul_mod_loop];
    (destruct (decide (b = 0)) as [->|Hb0]; [rewrite Z.mul_0_r, Z.add_0_r, Z.mod_small by lia; done|]).
  { cbn in Hb. lia. }
  rewrite Nat2Z.inj_succ, Z.pow_succ_r in Hb by lia. rewrite Z.shiftr_div_pow2, land_1_mod by lia.
  change (2 ^ 1) with 2. pose proof (Z.div_mod b 2 ltac:(lia)) as Eb.
  pose proof (Z.mod_pos_bound b 2 ltac:(lia)) as Hbit.
  assert (b / 2 < 2 ^ Z.of_nat f) as Hh by (apply Z.div_lt_upper_bound; lia).
  assert (0 ≤ b / 2) by (apply Z.div_pos; lia). unfold P64 in Hm, Ha.
  assert (∃ e, (if decide (b `mod` 2 ≠ 0) then
      if decide (u64 (P64 - a) ≤ m) then u64 (m - u64 (P64 - a)) else u64 (m + a) else m)
    = m + a * (b `mod` 2) - e * P64 ∧ 0 ≤ m + a * (b `mod` 2) - e * P64 < P64) as (e & -> & He).
  { unfold P64. destruct (decide (b `mod` 2 ≠ 0)).
    - assert (b `mod` 2 = 1) as -> by lia. rewrite (uwrap_small 64 (_ - a)) by lia.
      case_decide; rewrite uwrap_small by lia; [exists 1|exists 0]; lia.
    - exists 0. assert (b `mod` 2 = 0) as -> by lia. lia. }
  assert (∃ e2, (if decide (u64 (P64 - a) ≤ a) then u64 (u64 (a * 2) - P64) else u64 (a * 2))
    = 2 * a - e2 * P64 ∧ 0 ≤ 2 * a - e2 * P64 ≤ P64) as (e2 & -> & He2).
  { unfold P64. rewrite (uwrap_small 64 (_ - a)) by lia. case_decide.
    - exists 1. split; [|lia]. unfold uwrap. rewrite Zminus_mod_idemp_l, Z.mod_small; lia.
    - exists 0. rewrite uwrap_small by lia. lia. }
  rewrite IH by lia. f_equal. apply (mod_shift _ (- (e + e2 * (b / 2)))). rewrite Eb at 3. lia.
Qed.
Lemma mul_mod_p_spec a b : 0 ≤ a ≤ P64 → 0 ≤ b < 2 ^ 64 → mul_mod_p a b = Ok ((a * b) `mod` P64).
Proof. intros. unfold mul_mod_p. by rewrite mul_mod_loop_spec. Qed.

Lemma mod_P64_range x : 0 ≤ x `mod` P64 < P64.
Proof. by apply Z.mod_pos_bound. Qed.

(** The power itself, but for the exponent 1 where the base is returned as it is. *)
Lemma pow_mod_p_spec fuel a b :
  0 ≤ a ≤ P64 → 0 < b < 2 ^ Z.of_nat fuel →
  pow_mod_p fuel a b = Ok (if decide (b = 1) then a else (a ^ b) `mod` P64).
Proof.
  intros Ha. revert b. induction fuel as [|f IH]; intros b Hb; [cbn in Hb; lia|].
  cbn [pow_mod_p]. destruct (decide (b = 1)); [done|].
  rewrite Nat2Z.inj_succ, Z.pow_succ_r in Hb by lia. rewrite Z.shiftr_div_pow2 by lia.
  change (2 ^ 1) with 2. pose proof (Z.div_mod b 2 ltac:(lia)) as Eb.
  pose proof (Z.mod_pos_bound b 2 ltac:(lia)) as Hbit.
  assert (0 < b / 2 < 2 ^ Z.of_nat f) as Hh
    by (split; [apply Z.div_str_pos|apply Z.div_lt_upper_bound]; lia).
  rewrite IH, bind_Ok by done. set (t := if decide (b / 2 = 1) then a else a ^ (b / 2) `mod` P64).
  assert (t `mod` P64 = a ^ (b / 2) `mod` P64 ∧ 0 ≤ t ≤ P64) as [Et Ht].
  { unfold t. destruct (decide (b / 2 = 1)) as [->|]; [by rewrite Z.pow_1_r|].
    pose proof (mod_P64_range (a ^ (b / 2))). rewrite Z.mod_mod by done. split; [done|lia]. }
  rewrite mul_mod_p_spec, bind_Ok by (unfold P64 in *; lia).
  assert ((t * t) `mod` P64 = (a ^ (2 * (b / 2))) `mod` P64) as ->.
  { rewrite Z.mul_mod, Et, <- Z.mul_mod by done. f_equal.
    rewrite <- Z.pow_add_r by lia. f_equal. lia. }
  destruct (decide (b `mod` 2 ≠ 0)).
  - pose proof (mod_P64_range (a ^ (2 * (b / 2)))).
    rewrite mul_mod_p_spec by (unfold P64 in *; lia). f_equal.
    rewrite Zmult_mod_idemp_l. f_equal. rewrite Eb at 2. rewrite Z.pow_add_r by lia.
    assert (b `mod` 2 = 1) as -> by lia. by rewrite Z.pow_1_r.
  - f_equal. f_equal. f_equal. lia.
Qed.
Lemma powmodp_spec a b :
  0 ≤ a < P64 → 0 < b < 2 ^ 64 → powmodp a b = Ok ((a ^ b) `mod` P64).
Proof.
  intros Ha Hb. unfold powmodp. rewrite decide_False, pow_mod_p_spec by (try done; lia).
  destruct (decide (b = 1)) as [->|]; [|done]. by rewrite Z.pow_1_r, Z.mod_small.
Qed.

(** No power of the generator is 0: 5 has an inverse modulo P. *)
Lemma dh_power_nonzero x : 0 ≤ x → (DH_G ^ x) `mod` P64 ≠ 0.
Proof.
  intros Hx H. assert ((DH_G * 7378697629483820623) `mod` P64 = 1) as Hi by done.
  assert (((DH_G * 7378697629483820623) ^ x) `mod` P64 = 1) as H1.
  { rewrite Zpower_mod, Hi, Z.pow_1_l by done. done. }
  rewrite Z.pow_mul_l, Z.mul_mod, H in H1 by done. done.
Qed.

(** ** Words in bytes *)

Definition le32 (a b c d : Z) : Z := a + 256 * (b + 256 * (c + 256 * d)).

Lemma join4_le a b c d :
  0 ≤ a < 256 → 0 ≤ b < 256 → 0 ≤ c < 256 → 0 ≤ d < 256 →
  (a .| b .<< 8 .| c .<< 16 .| d .<< 24) = le32 a b c d.
Proof.
  intros. rewrite !Z.shiftl_mul_pow2, !uwrap_small by lia. unfold le32.
  rewrite (lor_add_high a) by lia. rewrite (lor_add_high (a + b * 2 ^ 8)) by lia.
  rewrite lor_add_high by lia. lia.
Qed.

Lemma read_pair_value x :
  zlen x = 8 → bytes x → ∃ lo hi, read_pair x = Ok (lo, hi) ∧ word32 lo ∧ word32 hi ∧
    0 ≤ join64 (lo, hi) < 2 ^ 64.
Proof.
  intros Hl Hb. unfold read_pair. rewrite decide_False by lia.
  destruct x as [|a0 [|a1 [|a2 [|a3 [|a4 [|a5 [|a6 [|a7 [|]]]]]]]]];
    try (unfold zlen in Hl; cbn in Hl; lia).
  unfold bytes in Hb. rewrite !Forall_cons in Hb. destruct Hb as (? & ? & ? & ? & ? & ? & ? & ? & _).
  unfold read_word. cbn [lookup list_lookup Nat.add default id]. unfold id. rewrite !join4_le by done.
  eexists _, _. split; [done|]. unfold word32, le32, join64. cbn [fst snd].
  split; [lia|]. split; [lia|]. rewrite Z.shiftl_mul_pow2, lor_add_high by lia. lia.
Qed.

Lemma push64_bytes r : zlen (push64 r) = 8 ∧ bytes (push64 r).
Proof.
  split; [done|]. unfold bytes, push64. apply Forall_fmap, Forall_forall. intros i _. cbn -[Z.land].
  change 0xff with (2 ^ 8 - 1). rewrite land_ones_mod by lia. apply Z.mod_pos_bound. lia.
Qed.
Lemma read_push64 r :
  0 ≤ r < 2 ^ 64 → ∃ p, read_pair (push64 r) = Ok p ∧ join64 p = r.
Proof.
  intros Hr. assert (∀ k, 0 ≤ k → Z.shiftr r k .& 0xff = (r / 2 ^ k) `mod` 256) as Hk.
  { intros k Hk. change 0xff with (2 ^ 8 - 1). rewrite land_ones_mod, Z.shiftr_div_pow2 by lia. done. }
  assert (∀ x, 0 ≤ x `mod` 256 < 256) as Hb by (intros; apply Z.mod_pos_bound; lia).
  eexists. split; [reflexivity|]. unfold push64, read_word.
  cbn -[Z.shiftr Z.land Z.lor Z.shiftl uwrap Z.mul join64]. rewrite !Hk by lia.
  rewrite !join4_le by done. unfold join64. cbn [fst snd].
  rewrite Z.shiftl_mul_pow2 by lia.
  rewrite lor_add_high; [|lia|unfold le32; Z.to_euclidean_division_equations; lia].
  unfold le32. cbn -[Z.div Z.modulo Z.mul Z.add]. Z.to_euclidean_division_equations. lia.
Qed.

(** C31: the key exchange. For any two secret keys of eight bytes that are not zero,
    both public keys exist and both sides compute the same shared secret, 5 to the
    product of the secrets modulo the prime; a zero key is refused. *)
Theorem dh_agreement x y :
  zlen x = 8 → bytes x → zlen y = 8 → bytes y →
  (∀ px py, read_pair x = Ok px → read_pair y = Ok py → join64 px ≠ 0 → join64 py ≠ 0 →
   ∃ ex ey, ldhexchange x = Ok ex ∧ ldhexchange y = Ok ey ∧
     ldhsecret ex y = Ok (push64 ((DH_G ^ (join64 px * join64 py)) `mod` P64)) ∧
     ldhsecret ey x = ldhsecret ex y) ∧
  (∀ px, read_pair x = Ok px → join64 px = 0 →
   ldhexchange x = Err (LuaError 0) ∧ ldhsecret x y = Err (LuaError 0) ∧ ldhsecret y x = Err (LuaError 0)).
Proof.
  intros Hlx Hbx Hly Hby.
  destruct (read_pair_value x Hlx Hbx) as (x0 & x1 & Ex & _ & _ & Hx).
  destruct (read_pair_value y Hly Hby) as (y0 & y1 & Ey & _ & _ & Hy).
  assert (∀ z p, read_pair z = Ok p → 0 ≤ join64 p < 2 ^ 64 → join64 p ≠ 0 →
    ldhexchange z = Ok (push64 (DH_G ^ join64 p `mod` P64))) as Hex.
  { intros z p Ez Hp H0. unfold ldhexchange. rewrite Ez, bind_Ok. rewrite decide_False by done.
    rewrite powmodp_spec; [done|done|lia]. }
  assert (∀ z w p q, read_pair w = Ok q → z = join64 p → 0 ≤ z < 2 ^ 64 → 0 ≤ join64 q < 2 ^ 64 →
    z ≠ 0 → join64 q ≠ 0 →
    ldhsecret (push64 (DH_G ^ z `mod` P64)) w = Ok (push64 ((DH_G ^ (z * join64 q)) `mod` P64))) as Hsec.
  { intros z w p q Ew -> Hz Hq Hz0 Hq0. pose proof (mod_P64_range (DH_G ^ join64 p)) as Hr.
    destruct (read_push64 (DH_G ^ join64 p `mod` P64)) as (r & Er & Ej); [unfold P64 in *; lia|].
    unfold ldhsecret, read64. rewrite Er, Ew, !bind_Ok. cbn [fst snd]. rewrite Ej.
    pose proof (dh_power_nonzero (join64 p) ltac:(lia)). rewrite decide_False by tauto.
    rewrite powmodp_spec by lia. rewrite bind_Ok. do 2 f_equal.
    rewrite <- Zpower_mod by done. by rewrite <- Z.pow_mul_r by lia. }
  split.
  - intros px py Hpx Hpy Hx0 Hy0. rewrite Ex in Hpx. rewrite Ey in Hpy.
    injection Hpx as <-. injection Hpy as <-. eexists _, _. rewrite (Hex x _ Ex), (Hex y _ Ey) by done.
    split; [done|]. split; [done|]. rewrite (Hsec _ _ (x0, x1) _ Ey), (Hsec _ _ (y0, y1) _ Ex) by done.
    split; [done|]. by rewrite Z.mul_comm.
  - intros px Hpx H0. rewrite Ex in Hpx. injection Hpx as <-.
    unfold ldhexchange, ldhsecret, read64. rewrite Ex, Ey, !bind_Ok. cbn [fst snd].
    rewrite H0. rewrite !decide_True by auto. done.
Qed.

Lemma dh_agreement_witness :
  ∃ ex ey, ldhexchange [3; 0; 0; 0; 0; 0; 0; 0] = Ok ex ∧ ldhexchange [4; 0; 0; 0; 0; 0; 0; 0] = Ok ey ∧
    ldhsecret ey [3; 0; 0; 0; 0; 0; 0; 0] = ldhsecret ex [4; 0; 0; 0; 0; 0; 0; 0].
Proof.
  destruct (dh_agreement [3; 0; 0; 0; 0; 0; 0; 0] [4; 0; 0; 0; 0; 0; 0; 0]) as [H _].
  - reflexivity.
  - repeat constructor; lia.
  - reflexivity.
  - repeat constructor; lia.
  - destruct (H (3, 0) (4, 0)) as (ex & ey & H1 & H2 & _ & H3);
      [reflexivity|reflexivity|vm_compute; discriminate|vm_compute; discriminate|].
    exists ex, ey. split; [exact H1|]. split; [exact H2|exact H3].
Defined.

(** ** Base64 *)

Lemma b64index_encoding v : 0 ≤ v < 64 → b64index (tbl encoding v) = v.
Proof.
  intros Hv. assert (forallb (λ v, bool_decide (b64index (tbl encoding v) = v)) (seqZ 0 64) = true) as H
    by (vm_compute; reflexivity).
  rewrite forallb_forall in H. apply (bool_decide_eq_true_1 _), H, list_elem_of_In, elem_of_seqZ. lia.
Qed.

(** Four characters of the alphabet, or padding characters, are taken as they are. *)
Lemma b64_take_4 e0 e1 e2 e3 r :
  b64index e0 ≠ -1 → b64index e1 ≠ -1 → b64index e2 ≠ -1 → b64index e3 ≠ -1 →
  b64_take 4 (e0 :: e1 :: e2 :: e3 :: r)
    = Ok ([b64index e0; b64index e1; b64index e2; b64index e3], r).
Proof. intros. cbn -[b64index]. by rewrite !decide_False. Qed.

Lemma shift_mask v k : 0 ≤ k → (v .>> k .& 0x3f) = (v / 2 ^ k) `mod` 64.
Proof. intros. change 0x3f with (2 ^ 6 - 1). rewrite land_ones_mod, Z.shiftr_div_pow2 by lia. done. Qed.

Lemma b64_group_3 a b c :
  0 ≤ a < 256 → 0 ≤ b < 256 → 0 ≤ c < 256 →
  let v := Z.shiftl a 16 .| Z.shiftl b 8 .| c in
  0 ≤ v .>> 18 < 64 ∧
  b64_group (v .>> 18) (v .>> 12 .& 0x3f) (v .>> 6 .& 0x3f) (v .& 0x3f) = Ok [a; b; c].
Proof.
  intros Ha Hb Hc v. assert (v = a * 65536 + b * 256 + c) as ->.
  { unfold v. rewrite !Z.shiftl_mul_pow2 by lia.
    rewrite (Z.lor_comm (a * 2 ^ 16)), (lor_add_high (b * 2 ^ 8)) by lia.
    replace (b * 2 ^ 8 + a * 2 ^ 16) with ((b + a * 2 ^ 8) * 2 ^ 8) by lia.
    rewrite Z.lor_comm, lor_add_high by lia. lia. }
  set (v := a * 65536 + b * 256 + c). assert (0 ≤ v < 2 ^ 24) as Hv by lia.
  pose proof (shift_mask v 0 ltac:(lia)) as H0. rewrite Z.shiftr_0_r, Z.div_1_r in H0.
  rewrite !shift_mask, H0, Z.shiftr_div_pow2 by lia.
  assert (∀ x, 0 ≤ x `mod` 64 < 64) as Hm by (intros; apply Z.mod_pos_bound; lia).
  assert (0 ≤ v / 2 ^ 18 < 64) as Hq by (split; [apply Z.div_pos|apply Z.div_lt_upper_bound]; lia).
  split; [done|]. unfold b64_group. rewrite !(filter_cons_False _ _) by
    (match goal with |- ¬ ?x `mod` 64 = _ => pose proof (Hm x); lia | _ => lia end).
  cbn [length filter list_filter].
  assert (v / 2 ^ 18 .<< 18 .| Z.shiftl ((v / 2 ^ 12) `mod` 64) 12 .| Z.shiftl ((v / 2 ^ 6) `mod` 64) 6
    .| v `mod` 64 = v) as ->.
  { rewrite !Z.shiftl_mul_pow2, uwrap_small by lia.
    set (c1 := (v / 2 ^ 12) `mod` 64). set (c2 := (v / 2 ^ 6) `mod` 64). set (c3 := v `mod` 64).
    pose proof (Hm (v / 2 ^ 12)). pose proof (Hm (v / 2 ^ 6)). pose proof (Hm v).
    rewrite (Z.lor_comm (v / 2 ^ 18 * 2 ^ 18)), (lor_add_high (c1 * 2 ^ 12)) by lia.
    replace (c1 * 2 ^ 12 + v / 2 ^ 18 * 2 ^ 18) with ((c1 + v / 2 ^ 18 * 2 ^ 6) * 2 ^ 12) by lia.
    rewrite (Z.lor_comm _ (c2 * 2 ^ 6)), (lor_add_high (c2 * 2 ^ 6)) by lia.
    replace (c2 * 2 ^ 6 + (c1 + v / 2 ^ 18 * 2 ^ 6) * 2 ^ 12)
      with ((c2 + (c1 + v / 2 ^ 18 * 2 ^ 6) * 2 ^ 6) * 2 ^ 6) by lia.
    rewrite Z.lor_comm, lor_add_high by lia. unfold c1, c2, c3. Z.to_euclidean_division_equations. lia. }
  change 0xff with (2 ^ 8 - 1). rewrite !land_ones_mod, !Z.shiftr_div_pow2 by lia. unfold uwrap.
  do 2 f_equal; [|f_equal; [|f_equal]]; unfold v; Z.to_euclidean_division_equations; lia.
Qed.
Lemma b64_group_2 a b :
  0 ≤ a < 256 → 0 ≤ b < 256 →
  let v := Z.shiftl a 8 .| b in
  0 ≤ v .>> 10 < 64 ∧ 0 ≤ Z.shiftl (v .& 0xf) 2 < 64 ∧
  b64_group (v .>> 10) (v .>> 4 .& 0x3f) (Z.shiftl (v .& 0xf) 2) (-2) = Ok [a; b].
Proof.
  intros Ha Hb v. assert (v = a * 256 + b) as ->.
  { unfold v. rewrite Z.shiftl_mul_pow2 by lia. rewrite Z.lor_comm, lor_add_high by lia. lia. }
  set (v := a * 256 + b). assert (0 ≤ v < 2 ^ 16) as Hv by lia.
  change 0xf with (2 ^ 4 - 1). rewrite shift_mask, land_ones_mod, Z.shiftr_div_pow2, Z.shiftl_mul_pow2 by lia.
  assert (0 ≤ (v / 2 ^ 4) `mod` 64 < 64) as Hm by (apply Z.mod_pos_bound; lia).
  assert (0 ≤ v `mod` 2 ^ 4 < 2 ^ 4) as Hl by (apply Z.mod_pos_bound; lia).
  assert (0 ≤ v / 2 ^ 10 < 64) as Hq by (split; [apply Z.div_pos|apply Z.div_lt_upper_bound]; lia).
  split; [done|]. split; [lia|]. unfold b64_group.
  rewrite 3!(filter_cons_False _ _) by lia. rewrite filter_cons_True by done.
  cbn [length filter list_filter]. change 3 with (2 ^ 2 - 1). rewrite land_ones_mod by lia.
  rewrite Z.mod_mul by lia. rewrite decide_False by lia.
  assert (v / 2 ^ 10 .<< 10 .| Z.shiftl ((v / 2 ^ 4) `mod` 64) 4 .| (v `mod` 2 ^ 4 * 2 ^ 2) .>> 2 = v) as ->.
  { rewrite !Z.shiftl_mul_pow2, uwrap_small, Z.shiftr_div_pow2, Z.div_mul by lia.
    set (c1 := (v / 2 ^ 4) `mod` 64) in *. set (c2 := v `mod` 2 ^ 4) in *.
    rewrite (Z.lor_comm (v / 2 ^ 10 * 2 ^ 10)), (lor_add_high (c1 * 2 ^ 4)) by lia.
    replace (c1 * 2 ^ 4 + v / 2 ^ 10 * 2 ^ 10) with ((c1 + v / 2 ^ 10 * 2 ^ 6) * 2 ^ 4) by lia.
    rewrite Z.lor_comm, lor_add_high by lia. unfold c1, c2. Z.to_euclidean_division_equations. lia. }
  change 0xff with (2 ^ 8 - 1). rewrite !land_ones_mod, !Z.shiftr_div_pow2 by lia. unfold uwrap.
  do 2 f_equal; [|f_equal]; unfold v; Z.to_euclidean_division_equations; lia.
Qed.
Lemma b64_group_1 a :
  0 ≤ a < 256 →
  0 ≤ a .>> 2 < 64 ∧ 0 ≤ Z.shiftl (a .& 3) 4 < 64 ∧
  b64_group (a .>> 2) (Z.shiftl (a .& 3) 4) (-2) (-2) = Ok [a].
Proof.
  intros Ha. change 3 with (2 ^ 2 - 1). rewrite land_ones_mod, Z.shiftr_div_pow2, Z.shiftl_mul_pow2 by lia.
  assert (0 ≤ a `mod` 2 ^ 2 < 4) as Hl by (apply Z.mod_pos_bound; lia).
  assert (0 ≤ a / 2 ^ 2 < 64) as Hq by (split; [apply Z.div_pos|apply Z.div_lt_upper_bound]; lia).
  split; [done|]. split; [lia|]. unfold b64_group.
  rewrite 2!(filter_cons_False _ _) by lia. rewrite !filter_cons_True by done.
  cbn [length filter list_filter]. change 0xf with (2 ^ 4 - 1). rewrite land_ones_mod by lia.
  rewrite Z.mod_mul by lia. rewrite decide_False by naive_solver lia.
  do 2 f_equal. rewrite Z.shiftl_mul_pow2, Z.shiftr_div_pow2, Z.div_mul, (uwrap_small 32) by lia.
  rewrite Z.lor_comm, lor_add_high by lia. unfold uwrap. Z.to_euclidean_division_equations. lia.
Qed.

(** One turn of the decoding loop. *)
Lemma b64decode_step f c0 c1 c2 c3 r g rest :
  c0 ≠ -1 → c1 ≠ -1 → c2 ≠ -1 → c3 ≠ -1 → ∀ e0 e1 e2 e3,
  b64index e0 = c0 → b64index e1 = c1 → b64index e2 = c2 → b64index e3 = c3 →
  b64_group c0 c1 c2 c3 = Ok g → b64decode_loop f r = Ok rest →
  b64decode_loop (S f) (e0 :: e1 :: e2 :: e3 :: r) = Ok (g ++ rest).
Proof.
  intros H0 H1 H2 H3 e0 e1 e2 e3 <- <- <- <- Hg Hr. cbn [b64decode_loop].
  rewrite b64_take_4 by done. rewrite bind_Ok. cbn [fst snd]. by rewrite Hg, bind_Ok, Hr.
Qed.

Lemma b64_decode_encode n text f :
  (length text ≤ n)%nat → bytes text → (length (lb64encode text) ≤ f)%nat →
  b64decode_loop f (lb64encode text) = Ok text ∧ zlen (lb64encode text) = (zlen text + 2) / 3 * 4.
Proof.
  revert text f. induction n as [|n IH]; intros text f Hn Hb Hf.
  { destruct text; [|cbn in Hn; lia]. by destruct f. }
  destruct text as [|a [|b [|c r]]]; unfold bytes in Hb; rewrite ?Forall_cons in Hb.
  - by destruct f.
  - destruct Hb as [Ha _]. destruct (b64_group_1 a Ha) as (H0 & H1 & Hg).
    destruct f as [|f]; [cbn in Hf; lia|]. split; [|done]. cbn [lb64encode].
    refine (b64decode_step f _ _ _ _ [] [a] [] _ _ _ _ _ _ _ _ _ _ _ _ Hg _);
      [lia|lia|lia|lia|by apply b64index_encoding|by apply b64index_encoding|done|done|by destruct f].
  - destruct Hb as (Ha & Hb & _). destruct (b64_group_2 a b Ha Hb) as (H0 & H1 & Hg).
    destruct f as [|f]; [cbn in Hf; lia|]. split; [|done]. cbn [lb64encode].
    pose proof (shift_mask (Z.shiftl a 8 .| b) 4 ltac:(lia)) as Hs.
    pose proof (Z.mod_pos_bound ((Z.shiftl a 8 .| b) / 2 ^ 4) 64 ltac:(lia)) as Hm. rewrite <- Hs in Hm.
    refine (b64decode_step f _ _ _ _ [] [a; b] [] _ _ _ _ _ _ _ _ _ _ _ _ Hg _);
      [lia|lia|lia|lia|by apply b64index_encoding|by apply b64index_encoding|by apply b64index_encoding|done|by destruct f].
  - destruct Hb as (Ha & Hb & Hc & Hr). destruct (b64_group_3 a b c Ha Hb Hc) as (H0 & Hg).
    cbn [lb64encode] in *. set (v := Z.shiftl a 16 .| Z.shiftl b 8 .| c) in *.
    assert (∀ k, 0 ≤ k → 0 ≤ v .>> k .& 0x3f < 64) as Hm
      by (intros; rewrite shift_mask by done; apply Z.mod_pos_bound; lia).
    pose proof (Hm 0 ltac:(lia)) as Hm0. rewrite Z.shiftr_0_r in Hm0.
    pose proof (Hm 12 ltac:(lia)). pose proof (Hm 6 ltac:(lia)).
    destruct f as [|f]; [cbn in Hf; lia|]. rewrite length_app in Hf. cbn in Hn, Hf.
    destruct (IH r f) as [Hd Hz]; [lia|done|lia|]. split.
    + refine (b64decode_step f _ _ _ _ _ [a; b; c] r _ _ _ _ _ _ _ _ _ _ _ _ Hg Hd); try lia;
        by apply b64index_encoding.
    + rewrite zlen_app, Hz, !zlen_cons. change (@zlen Z []) with 0.
      replace (1 + (1 + (1 + zlen r)) + 2) with (zlen r + 2 + 1 * 3) by lia. rewrite Z.div_add by lia. lia.
Qed.

Lemma b64_skip f sep e :
  Forall (λ c, b64index c = -1) sep → e ≠ [] →
  b64decode_loop (S f) (sep ++ e) = b64decode_loop (S f) e.
Proof.
  intros Hs He. assert (b64_take 4 (sep ++ e) = b64_take 4 e) as E.
  { induction Hs as [|c sep Hc _ IH]; [done|]. cbn -[b64index] in *. by rewrite decide_True. }
  destruct e as [|x e]; [done|]. cbn [b64decode_loop]. rewrite E. by destruct sep.
Qed.

(** Base64. Every byte string is encoded in 4 characters for each 3 bytes begun
    and decoded to itself; characters outside the alphabet between the groups, such as
    line breaks, are skipped. *)
Theorem base64_roundtrip text sep :
  bytes text → Forall (λ c, b64index c = -1) sep →
  lb64decode (lb64encode text) = Ok text ∧
  zlen (lb64encode text) = (zlen text + 2) / 3 * 4 ∧
  (text ≠ [] → lb64decode (sep ++ lb64encode text) = Ok text).
Proof.
  intros Hb Hs. unfold lb64decode.
  destruct (b64_decode_encode (length text) text (length (lb64encode text))) as [Hd Hz]; [lia|done|lia|].
  split; [done|]. split; [done|]. intros Hne.
  assert (lb64encode text ≠ []) as He by (destruct text as [|a [|b [|c r]]]; done).
  assert (∃ f, length (sep ++ lb64encode text) = S f ∧ (length (lb64encode text) ≤ S f)%nat) as (f & -> & Hf).
  { rewrite length_app. destruct (lb64encode text) as [|x e]; [done|].
    exists (length sep + length e)%nat. cbn. lia. }
  rewrite b64_skip by done. by apply (b64_decode_encode (length text)).
Qed.

Lemma base64_roundtrip_witness :
  lb64decode ([10; 13] ++ lb64encode [104; 101; 108; 108; 111]) = Ok [104; 101; 108; 108; 111].
Proof.
  apply (base64_roundtrip [104; 101; 108; 108; 111] [10; 13]).
  - repeat constructor; lia.
  - repeat constructor.
  - discriminate.
Defined.

(** ** Hexadecimal *)

Lemma HEX_digit d : 0 ≤ d < 16 → HEX (tbl hex_digits d) = d.
Proof.
  intros Hd. assert (forallb (λ d, bool_decide (HEX (tbl hex_digits d) = d)) (seqZ 0 16) = true) as H
    by (vm_compute; reflexivity).
  rewrite forallb_forall in H. apply (bool_decide_eq_true_1 _), H, list_elem_of_In, elem_of_seqZ. lia.
Qed.
Lemma fromhex_tohex text : bytes text → fromhex_loop (ltohex text) = Ok text.
Proof.
  unfold bytes. induction 1 as [|c text Hc _ IH]; [done|]. unfold ltohex. cbn [fmap list_fmap concat app].
  fold (ltohex text). cbn [fromhex_loop lookup list_lookup default]. unfold id.
  change 0xf with (2 ^ 4 - 1). rewrite land_ones_mod, Z.shiftr_div_pow2 by lia.
  assert (0 ≤ c / 2 ^ 4 < 16) as Hq by (split; [apply Z.div_pos|apply Z.div_lt_upper_bound]; lia).
  assert (0 ≤ c `mod` 2 ^ 4 < 16) as Hm by (apply Z.mod_pos_bound; lia).
  rewrite !HEX_digit, decide_False, IH, bind_Ok by (done || lia). do 2 f_equal.
  rewrite Z.shiftl_mul_pow2, Z.lor_comm, lor_add_high by lia. unfold uwrap.
  Z.to_euclidean_division_equations. lia.
Qed.
Lemma ltohex_length text : zlen (ltohex text) = 2 * zlen text.
Proof.
  unfold ltohex. induction text as [|c text IH]; [done|]. cbn [fmap list_fmap concat].
  rewrite zlen_app, IH, !zlen_cons. change (@zlen Z []) with 0. lia.
Qed.

(** Hexadecimal. A text of an even number of bytes is decoded from its encoding;
    of an odd number it never is: the length check tests bit 1 instead of bit 0 and
    raises an error. The digit check lets a g pass as the digit 16. *)
Theorem hex_roundtrip_even_only text :
  bytes text →
  (zlen text `mod` 2 = 0 → lfromhex (ltohex text) = Ok text) ∧
  (zlen text `mod` 2 = 1 → lfromhex (ltohex text) = Err (LuaError 0)) ∧
  lfromhex (lit "g0g1") = Ok [0; 1].
Proof.
  intros Hb. assert (zlen (ltohex text) .& 2 = 2 * (zlen text `mod` 2)) as E.
  { rewrite ltohex_length. change 2 with (Z.shiftl 1 1) at 2.
    replace (2 * zlen text) with (Z.shiftl (zlen text) 1) by (rewrite Z.shiftl_mul_pow2; lia).
    rewrite <- Z.shiftl_land, land_1_mod, Z.shiftl_mul_pow2 by lia. lia. }
  unfold lfromhex. rewrite E. split; [|split; [|reflexivity]]; intros ->.
  - rewrite decide_False by tauto. by apply fromhex_tohex.
  - by rewrite decide_True.
Qed.

Lemma hex_roundtrip_even_only_witness : lfromhex (ltohex [255]) = Err (LuaError 0).
Proof. apply (hex_roundtrip_even_only [255]); [repeat constructor; lia|reflexivity]. Defined.

(** The same key applied twice. *)
Lemma xor_str_involutive s k t :
  lxor_str s k = Ok t → lxor_str t k = Ok s.
Proof.
  unfold lxor_str. case_decide; [done|]. intros [= <-]. f_equal. apply list_eq. intros i.
  rewrite !list_lookup_imap. destruct (s !! i); [|done]. cbn.
  by rewrite Z.lxor_assoc, Z.lxor_nilpotent, Z.lxor_0_r.
Qed.
