(* ===== verification/Sha1.v ===== *)
(** * SHA-1 and its HMAC: lualib-src/lsha1.c

    The transform with its schedule expanded in place, the context that takes a
    message in pieces, the padding, and the two functions Lua sees. They are proved
    equal to a direct definition of SHA-1 on the whole padded message and of HMAC
    over it. *)
From stdpp Require Import base numbers list.
From S2P Require Import Prelude Des Crypt.
Local Open Scope c_scope.

(** ** The transform *)

Definition regs : Type := Z * Z * Z * Z * Z.

Definition rol (value bits : Z) : Z := value .<< bits .| value .>> (32 - bits).

(** The block as sixteen words in memory order (little-endian). *)
Definition load_block (buffer : list Z) : list Z :=
  (λ i, le32 (tbl buffer (4 * i)) (tbl buffer (4 * i + 1)) (tbl buffer (4 * i + 2))
          (tbl buffer (4 * i + 3))) <$> seqZ 0 16.

Definition set_word (l : list Z) (i x : Z) : list Z := <[Z.to_nat i := x]> l.

(** The macros blk0 and blk: the word of a round, stored back in the block. *)
Definition blk0 (l : list Z) (i : Z) : Z * list Z :=
  let x := (rol (tbl l i) 24 .& 0xFF00FF00) .| (rol (tbl l i) 8 .& 0x00FF00FF) in
  (x, set_word l i x).
Definition blk (l : list Z) (i : Z) : Z * list Z :=
  let x := rol (tbl l ((i + 13) .& 15) .^ tbl l ((i + 8) .& 15) .^ tbl l ((i + 2) .& 15)
                .^ tbl l (i .& 15)) 1 in
  (x, set_word l (i .& 15) x).

(** The macros R0 to R4 in the order of the unrolled calls: call [i] changes z and w,
    and the next call names the registers one further. *)
Definition R (s : regs * list Z) (i : Z) : regs * list Z :=
  let '((v, w, x, y, z), l) := s in
  let '(b, l) := if decide (i < 16) then blk0 l i else blk l i in
  let '(f, k) :=
    if decide (i < 20) then ((w .& (x .^ y)) .^ y, 0x5A827999)
    else if decide (i < 40) then (w .^ x .^ y, 0x6ED9EBA1)
    else if decide (i < 60) then (((w .| x) .& y) .| (w .& x), 0x8F1BBCDC)
    else (w .^ x .^ y, 0xCA62C1D6) in
  let z := z .+ (f .+ b .+ k .+ rol v 5) in
  let w := rol w 30 in
  ((z, v, w, x, y), l).

Definition add_regs (s t : regs) : regs :=
  let '(a, b, c, d, e) := s in
  let '(a', b', c', d', e') := t in
  (a .+ a', b .+ b', c .+ c', d .+ d', e .+ e').

(** 80 rounds bring every register back to its name. *)
Definition SHA1_Transform (state : regs) (buffer : list Z) : regs :=
  add_regs state (foldl R (state, load_block buffer) (seqZ 0 80)).1.

(** ** The context *)

Record SHA1_CTX : Type := mk_sha {
  sha_state : regs;
  sha_count0 : Z;
  sha_count1 : Z;
  sha_buffer : list Z }.

Definition sha1_state0 : regs := (0x67452301, 0xEFCDAB89, 0x98BADCFE, 0x10325476, 0xC3D2E1F0).
(** The buffer of a new context is not initialised: [junk] is what it holds. *)
Definition sat_SHA1_Init (junk : list Z) : SHA1_CTX := mk_sha sha1_state0 0 0 junk.

(** [memcpy(&buf[j], src, ...)]. *)
Definition blit (buf : list Z) (j : nat) (src : list Z) : list Z :=
  take j buf ++ src ++ drop (j + length src) buf.

(** The loop over whole blocks of the data. *)
Fixpoint update_loop (fuel : nat) (state : regs) (data : list Z) (i : Z) : result (regs * Z) :=
  if decide (i + 63 < zlen data) then
    match fuel with
    | O => Err OutOfFuel
    | S f => update_loop f (SHA1_Transform state (take 64 (drop (Z.to_nat i) data))) data (i + 64)
    end
  else Ok (state, i).

(** The bit count is 32 bits wide but the carry is looked for with the 64-bit
    [len << 3]. *)
Definition sat_SHA1_Update (context : SHA1_CTX) (data : list Z) : result SHA1_CTX :=
  let len := zlen data in
  let j := sha_count0 context .>> 3 .& 63 in
  let count0 := u32 (sha_count0 context + u64 (Z.shiftl len 3)) in
  let count1 := if decide (count0 < u64 (Z.shiftl len 3)) then sha_count1 context .+ 1
                else sha_count1 context in
  let count1 := count1 .+ Z.shiftr len 29 in
  if decide (63 < j + len) then
    let i := 64 - j in
    let buffer := blit (sha_buffer context) (Z.to_nat j) (take (Z.to_nat i) data) in
    let state := SHA1_Transform (sha_state context) buffer in
    r ← update_loop (length data) state data i;
    Ok (mk_sha r.1 count0 count1 (blit buffer 0 (drop (Z.to_nat r.2) data)))
  else
    Ok (mk_sha (sha_state context) count0 count1 (blit (sha_buffer context) (Z.to_nat j) data)).

(** The big-endian bytes of a word. *)
Definition be_bytes (x : Z) : list Z := [x .>> 24 .& 255; x .>> 16 .& 255; x .>> 8 .& 255; x .& 255].

(** At most 63 zeros bring the count to 448 bits modulo 512. *)
Fixpoint pad_loop (fuel : nat) (context : SHA1_CTX) : result SHA1_CTX :=
  if decide (sha_count0 context .& 504 ≠ 448) then
    match fuel with
    | O => Err OutOfFuel
    | S f => c ← sat_SHA1_Update context [0]; pad_loop f c
    end
  else Ok context.

Definition sat_SHA1_Final (context : SHA1_CTX) : result (list Z) :=
  let finalcount := be_bytes (sha_count1 context) ++ be_bytes (sha_count0 context) in
  c ← sat_SHA1_Update context [0x80];
  c ← pad_loop 64 c;
  c ← sat_SHA1_Update c finalcount;
  let '(a, b, c, d, e) := sha_state c in
  Ok (be_bytes a ++ be_bytes b ++ be_bytes c ++ be_bytes d ++ be_bytes e).

Definition lsha1 (junk text : list Z) : result (list Z) :=
  c ← sat_SHA1_Update (sat_SHA1_Init junk) text;
  sat_SHA1_Final c.

(** [xor_key]: the key as sixteen words, each xored. *)
Definition xor_key (key : list Z) (x : Z) : list Z :=
  concat ((λ w, word_bytes (w .^ x)) <$> load_block key).

Definition lhmac_sha1 (junk key text : list Z) : result (list Z) :=
  rkey ← (if decide (64 < zlen key) then
            d ← lsha1 junk key; Ok (blit (replicate 64 0) 0 d)
          else Ok (blit (replicate 64 0) 0 key));
  let rkey := xor_key rkey 0x5c5c5c5c in
  ctx1 ← sat_SHA1_Update (sat_SHA1_Init junk) rkey;
  let rkey := xor_key rkey (0x5c5c5c5c .^ 0x36363636) in
  ctx2 ← sat_SHA1_Update (sat_SHA1_Init junk) rkey;
  ctx2 ← sat_SHA1_Update ctx2 text;
  digest2 ← sat_SHA1_Final ctx2;
  ctx1 ← sat_SHA1_Update ctx1 digest2;
  sat_SHA1_Final ctx1.

(** ** The standard's definition *)

(** The message schedule: sixteen big-endian words, then 64 more. *)
Definition first_words (block : list Z) : list Z :=
  (λ i, be32 (tbl block (4 * i)) (tbl block (4 * i + 1)) (tbl block (4 * i + 2))
          (tbl block (4 * i + 3))) <$> seqZ 0 16.
Fixpoint expand_words (n : nat) (w : list Z) : list Z :=
  match n with
  | O => w
  | S n =>
      let w := expand_words n w in
      let t := zlen w in
      w ++ [rol (tbl w (t - 3) .^ tbl w (t - 8) .^ tbl w (t - 14) .^ tbl w (t - 16)) 1]
  end.
Definition word_schedule (block : list Z) : list Z := expand_words 64 (first_words block).

Definition sha1_f (t b c d : Z) : Z :=
  if decide (t < 20) then (b .& c) .^ Z.ldiff d b
  else if decide (t < 40) then b .^ c .^ d
  else if decide (t < 60) then (b .& c) .^ (b .& d) .^ (c .& d)
  else b .^ c .^ d.
Definition sha1_k (t : Z) : Z :=
  if decide (t < 20) then 0x5A827999
  else if decide (t < 40) then 0x6ED9EBA1
  else if decide (t < 60) then 0x8F1BBCDC
  else 0xCA62C1D6.
Definition sha1_round (w : list Z) (s : regs) (t : Z) : regs :=
  let '(a, b, c, d, e) := s in
  (u32 (rol a 5 + sha1_f t b c d + e + sha1_k t + tbl w t), a, rol b 30, c, d).
Definition sha1_compress (s : regs) (block : list Z) : regs :=
  add_regs s (foldl (sha1_round (word_schedule block)) s (seqZ 0 80)).

(** The first [n] blocks of a message. *)
Fixpoint compress (n : nat) (s : regs) (m : list Z) : regs :=
  match n with
  | O => s
  | S n => compress n (sha1_compress s (take 64 m)) (drop 64 m)
  end.

Definition sha1_pad (m : list Z) : list Z :=
  let bits := 8 * zlen m in
  m ++ [0x80] ++ replicate (Z.to_nat ((55 - zlen m) `mod` 64)) 0
    ++ be_bytes (bits / 2 ^ 32) ++ be_bytes (bits `mod` 2 ^ 32).
Definition sha1_digest (s : regs) : list Z :=
  let '(a, b, c, d, e) := s in
  be_bytes a ++ be_bytes b ++ be_bytes c ++ be_bytes d ++ be_bytes e.
Definition sha1 (m : list Z) : list Z :=
  sha1_digest (compress (length (sha1_pad m) / 64) sha1_state0 (sha1_pad m)).

(** HMAC over 64-byte blocks. *)
Definition hmac_key (key : list Z) : list Z :=
  let k := if decide (64 < zlen key) then sha1 key else key in
  k ++ replicate (64 - length k) 0.
Definition hmac_sha1 (key text : list Z) : list Z :=
  sha1 ((Z.lxor 0x5c <$> hmac_key key) ++ sha1 ((Z.lxor 0x36 <$> hmac_key key) ++ text)).

(** ** Bytes and bits of words *)

Lemma byte_join_bits a r n :
  0 ≤ a < 256 → 0 ≤ n → Z.testbit (a + 256 * r) n = if decide (n < 8) then Z.testbit a n else Z.testbit r (n - 8).
Proof.
  intros Ha Hn. replace (a + 256 * r) with (a + r * 2 ^ 8) by lia.
  rewrite <- lor_add_high, Z.lor_spec, <- Z.shiftl_mul_pow2 by lia. case_decide.
  - by rewrite Z.shiftl_spec_low, orb_false_r by lia.
  - rewrite Z.shiftl_spec by lia. rewrite <- (Z.mod_small a (2 ^ 8)) by lia.
    by rewrite Z.mod_pow2_bits_high by lia.
Qed.
Lemma land_byte a b : 0 ≤ a < 256 → 0 ≤ Z.land a b < 256.
Proof.
  intros Ha. split; [apply Z.land_nonneg; lia|]. rewrite Z.land_comm.
  pose proof (land_le_mask b a ltac:(lia)). lia.
Qed.
Lemma byte_bits a : 0 ≤ a < 256 ↔ 0 ≤ a ∧ ∀ i, 8 ≤ i → Z.testbit a i = false.
Proof.
  split.
  - intros Ha. split; [lia|]. intros i Hi. rewrite <- (Z.mod_small a (2 ^ 8)) by lia.
    apply Z.mod_pow2_bits_high. lia.
  - intros [H0 H]. split; [done|]. assert (a = a `mod` 2 ^ 8) as ->; [|apply (Z.mod_pos_bound _ (2 ^ 8)); lia].
    apply Z.bits_inj'. intros i Hi. destruct (decide (i < 8)).
    + by rewrite Z.mod_pow2_bits_low by lia.
    + rewrite Z.mod_pow2_bits_high by lia. apply H. lia.
Qed.
Lemma lor_byte a b : 0 ≤ a < 256 → 0 ≤ b < 256 → 0 ≤ Z.lor a b < 256.
Proof.
  rewrite !byte_bits. intros [Ha Ha'] [Hb Hb']. split; [apply Z.lor_nonneg; lia|].
  intros i Hi. by rewrite Z.lor_spec, Ha', Hb'.
Qed.
Lemma lxor_byte a b : 0 ≤ a < 256 → 0 ≤ b < 256 → 0 ≤ Z.lxor a b < 256.
Proof.
  rewrite !byte_bits. intros [Ha Ha'] [Hb Hb']. split; [apply Z.lxor_nonneg; lia|].
  intros i Hi. by rewrite Z.lxor_spec, Ha', Hb'.
Qed.

(** A bitwise operator works byte by byte. *)
Section Bytewise.
Context (op : Z → Z → Z) (f : bool → bool → bool).
Hypothesis op_bits : ∀ x y n, Z.testbit (op x y) n = f (Z.testbit x n) (Z.testbit y n).
Hypothesis op_byte : ∀ a b, 0 ≤ a < 256 → 0 ≤ b < 256 → 0 ≤ op a b < 256.

Lemma byte_join_op a r a' r' :
  0 ≤ a < 256 → 0 ≤ a' < 256 → op (a + 256 * r) (a' + 256 * r') = op a a' + 256 * op r r'.
Proof.
  intros Ha Ha'. apply Z.bits_inj'. intros n Hn. rewrite op_bits, !byte_join_bits by auto.
  case_decide; by rewrite op_bits.
Qed.
Lemma le32_op a b c d a' b' c' d' :
  0 ≤ a < 256 → 0 ≤ b < 256 → 0 ≤ c < 256 → 0 ≤ a' < 256 → 0 ≤ b' < 256 → 0 ≤ c' < 256 →
  op (le32 a b c d) (le32 a' b' c' d') = le32 (op a a') (op b b') (op c c') (op d d').
Proof. intros. unfold le32. by rewrite !byte_join_op. Qed.
End Bytewise.
Definition le32_land := le32_op Z.land andb Z.land_spec (λ a b Ha _, land_byte a b Ha).
Definition le32_lor := le32_op Z.lor orb Z.lor_spec lor_byte.
Definition le32_lxor := le32_op Z.lxor xorb Z.lxor_spec lxor_byte.

Lemma le32_range a b c d :
  0 ≤ a < 256 → 0 ≤ b < 256 → 0 ≤ c < 256 → 0 ≤ d < 256 → word32 (le32 a b c d).
Proof. intros. unfold word32, le32. lia. Qed.
Lemma word_bytes_le32 a b c d :
  0 ≤ a < 256 → 0 ≤ b < 256 → 0 ≤ c < 256 → 0 ≤ d < 256 → word_bytes (le32 a b c d) = [a; b; c; d].
Proof.
  intros. unfold word_bytes. change 0xff with (2 ^ 8 - 1).
  rewrite !land_ones_mod, !Z.shiftr_div_pow2 by lia. unfold le32.
  repeat f_equal; Z.to_euclidean_division_equations; lia.
Qed.

(** The rotations by whole bytes. *)
Lemma rol_8 a b c d :
  0 ≤ a < 256 → 0 ≤ b < 256 → 0 ≤ c < 256 → 0 ≤ d < 256 → rol (le32 a b c d) 8 = le32 d a b c.
Proof.
  intros. unfold rol. change (32 - 8) with 24. rewrite Z.shiftl_mul_pow2, Z.shiftr_div_pow2 by lia.
  assert (u32 (le32 a b c d * 2 ^ 8) = le32 a b c 0 * 2 ^ 8) as ->
    by (unfold uwrap, le32; Z.to_euclidean_division_equations; lia).
  assert (le32 a b c d / 2 ^ 24 = d) as -> by (unfold le32; Z.to_euclidean_division_equations; lia).
  rewrite Z.lor_comm, lor_add_high by lia. unfold le32. lia.
Qed.
Lemma rol_24 a b c d :
  0 ≤ a < 256 → 0 ≤ b < 256 → 0 ≤ c < 256 → 0 ≤ d < 256 → rol (le32 a b c d) 24 = le32 b c d a.
Proof.
  intros. unfold rol. change (32 - 24) with 8. rewrite Z.shiftl_mul_pow2, Z.shiftr_div_pow2 by lia.
  assert (u32 (le32 a b c d * 2 ^ 24) = a * 2 ^ 24) as ->
    by (unfold uwrap, le32; Z.to_euclidean_division_equations; lia).
  assert (le32 a b c d / 2 ^ 8 = le32 b c d 0) as -> by (unfold le32; Z.to_euclidean_division_equations; lia).
  rewrite Z.lor_comm, lor_add_high by (unfold le32; lia). unfold le32. lia.
Qed.

(** blk0 turns a little-endian word into a big-endian one. *)
Lemma swap_word a b c d :
  0 ≤ a < 256 → 0 ≤ b < 256 → 0 ≤ c < 256 → 0 ≤ d < 256 →
  (rol (le32 a b c d) 24 .& 0xFF00FF00) .| (rol (le32 a b c d) 8 .& 0x00FF00FF) = be32 a b c d.
Proof.
  intros. rewrite rol_24, rol_8 by done.
  change 0xFF00FF00 with (le32 0 255 0 255). change 0x00FF00FF with (le32 255 0 255 0).
  rewrite !le32_land by lia. rewrite !Z.land_0_r.
  assert (∀ x, 0 ≤ x < 256 → Z.land x 255 = x) as Hm.
  { intros. change 255 with (2 ^ 8 - 1). rewrite land_ones_mod by lia. apply Z.mod_small. lia. }
  rewrite !Hm by done. rewrite le32_lor by lia. rewrite !Z.lor_0_l, !Z.lor_0_r. unfold le32, be32. lia.
Qed.

(** ** The schedule expanded in place *)

Lemma tbl_insert_eq l i x : 0 ≤ i < zlen l → tbl (set_word l i x) i = x.
Proof. intros. unfold tbl, set_word. rewrite list_lookup_insert_eq; [done|]. unfold zlen in *. lia. Qed.
Lemma tbl_insert_ne l i j x : 0 ≤ i → 0 ≤ j → i ≠ j → tbl (set_word l i x) j = tbl l j.
Proof. intros. unfold tbl, set_word. rewrite list_lookup_insert_ne; [done|]. lia. Qed.
Lemma tbl_seqZ (f : Z → Z) n i : 0 ≤ i < n → tbl (f <$> seqZ 0 n) i = f i.
Proof.
  intros. unfold tbl. rewrite list_lookup_fmap, lookup_seqZ_lt by lia. cbn. f_equal. lia.
Qed.

Lemma expand_length n w : zlen (expand_words n w) = zlen w + Z.of_nat n.
Proof.
  induction n as [|n IH]; [cbn; lia|]. cbn [expand_words]. rewrite zlen_app, IH. change (zlen [_]) with 1. lia.
Qed.
Lemma expand_app n m w : ∃ r, expand_words (n + m) w = expand_words m w ++ r.
Proof.
  induction n as [|n [r IH]]; [exists []; by rewrite app_nil_r|]. cbn [Nat.add expand_words].
  rewrite IH, <- app_assoc. by eexists.
Qed.
Lemma tbl_app l k i : 0 ≤ i < zlen l → tbl (l ++ k) i = tbl l i.
Proof. intros. unfold tbl. rewrite lookup_app_l; [done|]. unfold zlen in *. lia. Qed.

Section Schedule.
Context (block : list Z).
Hypothesis block_bytes : bytes block.
Abbreviation W t := (tbl (word_schedule block) t).

Lemma first_words_length : zlen (first_words block) = 16.
Proof. done. Qed.
Lemma schedule_prefix m t :
  0 ≤ t < 16 + Z.of_nat m → (m ≤ 64)%nat → tbl (expand_words m (first_words block)) t = W t.
Proof.
  intros Ht Hm. unfold word_schedule. destruct (expand_app (64 - m) m (first_words block)) as [r E].
  rewrite Nat.sub_add in E by done. rewrite E, tbl_app; [done|].
  rewrite expand_length, first_words_length. lia.
Qed.
Lemma schedule_first t : 0 ≤ t < 16 → W t = tbl (first_words block) t.
Proof. intros. rewrite <- (schedule_prefix 0) by lia. done. Qed.
Lemma schedule_step t : 16 ≤ t < 80 → W t = rol (W (t - 3) .^ W (t - 8) .^ W (t - 14) .^ W (t - 16)) 1.
Proof.
  intros Ht. set (m := Z.to_nat (t - 16)).
  rewrite <- (schedule_prefix (S m)) by lia. cbn [expand_words].
  assert (zlen (expand_words m (first_words block)) = t) as El
    by (rewrite expand_length, first_words_length; lia).
  rewrite El. unfold tbl at 1. rewrite lookup_app_r by (unfold zlen in *; lia).
  replace (Z.to_nat t - length (expand_words m (first_words block)))%nat with 0%nat by (unfold zlen in *; lia).
  cbn [lookup list_lookup default]. unfold id. by rewrite !schedule_prefix by lia.
Qed.
#[local] Opaque word_schedule.

(** Before round [i] the block holds the last sixteen words of the schedule, and the
    raw words not yet reached. *)
Record sched_inv (i : Z) (l : list Z) : Prop := {
  si_len : zlen l = 16;
  si_done : ∀ j, 0 ≤ j → i - 16 ≤ j < i → tbl l (j `mod` 16) = W j;
  si_raw : ∀ j, i ≤ j < 16 → tbl l j = tbl (load_block block) j }.

Lemma sched_inv_0 : sched_inv 0 (load_block block).
Proof. split; [done|intros; lia|done]. Qed.

Lemma sched_inv_store i l :
  0 ≤ i → sched_inv i l → sched_inv (i + 1) (set_word l (i `mod` 16) (W i)).
Proof.
  intros Hi [Hl Hd Hr]. pose proof (Z.mod_pos_bound i 16 ltac:(lia)). split.
  - unfold set_word. by rewrite zlen_insert.
  - intros j Hj Hlt. destruct (decide (j = i)) as [->|]; [by rewrite tbl_insert_eq by lia|].
    pose proof (Z.mod_pos_bound j 16 ltac:(lia)). rewrite tbl_insert_ne; [apply Hd; lia|lia|lia|].
    intros E. Z.to_euclidean_division_equations. lia.
  - intros j Hj. rewrite tbl_insert_ne; [apply Hr; lia|lia|lia|]. rewrite Z.mod_small by lia. lia.
Qed.

Lemma block_byte i : 0 ≤ tbl block i < 256.
Proof.
  unfold tbl. destruct (block !! Z.to_nat i) eqn:E; [|cbn; lia].
  unfold bytes in block_bytes. eapply Forall_lookup_1 in E; [|done]. exact E.
Qed.
Lemma blk0_spec i l :
  0 ≤ i < 16 → sched_inv i l → blk0 l i = (W i, set_word l (i `mod` 16) (W i)).
Proof.
  intros Hi [_ _ Hr]. unfold blk0. rewrite (Hr i) by lia. unfold load_block. rewrite tbl_seqZ by lia.
  pose proof (block_byte (4 * i)). pose proof (block_byte (4 * i + 1)).
  pose proof (block_byte (4 * i + 2)). pose proof (block_byte (4 * i + 3)).
  rewrite swap_word by done. rewrite schedule_first by lia. unfold first_words. rewrite tbl_seqZ by lia.
  by rewrite Z.mod_small by lia.
Qed.
Lemma blk_spec i l :
  16 ≤ i < 80 → sched_inv i l → blk l i = (W i, set_word l (i `mod` 16) (W i)).
Proof.
  intros Hi [_ Hd _]. unfold blk. change 15 with (2 ^ 4 - 1). rewrite !land_ones_mod by lia.
  change (2 ^ 4) with 16.
  assert (∀ k, 0 ≤ k < 16 → (i + k) `mod` 16 = (i + k - 16) `mod` 16) as Hm.
  { intros k Hk. rewrite <- (Z.mod_add (i + k - 16) 1 16) by lia. f_equal. lia. }
  pose proof (Hm 0 ltac:(lia)) as Hm0. rewrite Z.add_0_r in Hm0.
  rewrite !Hm, Hm0 by lia.
  rewrite (Hd (i + 13 - 16)), (Hd (i + 8 - 16)), (Hd (i + 2 - 16)), (Hd (i - 16)) by lia.
  replace (i + 13 - 16) with (i - 3) by lia. replace (i + 8 - 16) with (i - 8) by lia.
  replace (i + 2 - 16) with (i - 14) by lia. rewrite <- schedule_step by lia.
  rewrite <- Hm0. done.
Qed.
End Schedule.
#[local] Opaque word_schedule.

(** ** The rounds *)

Lemma uwrap_add_r w x y : uwrap w (x + uwrap w y) = uwrap w (x + y).
Proof. unfold uwrap. by rewrite Zplus_mod_idemp_r. Qed.
Lemma uwrap_add_l w x y : uwrap w (uwrap w x + y) = uwrap w (x + y).
Proof. unfold uwrap. by rewrite Zplus_mod_idemp_l. Qed.

Lemma uwrap_sum w z f b k r :
  uwrap w (z + uwrap w (uwrap w (uwrap w (f + b) + k) + r)) = uwrap w (z + (f + b + k + r)).
Proof. by rewrite (uwrap_add_l w (f + b)), (uwrap_add_l w (f + b + k)), uwrap_add_r. Qed.

Lemma choose_bits w x y : (w .& (x .^ y)) .^ y = (w .& x) .^ Z.ldiff y w.
Proof.
  apply Z.bits_inj. intros n. rewrite !Z.lxor_spec, !Z.land_spec, Z.ldiff_spec, Z.lxor_spec.
  by destruct (Z.testbit w n), (Z.testbit x n), (Z.testbit y n).
Qed.
Lemma majority_bits w x y : ((w .| x) .& y) .| (w .& x) = (w .& x) .^ (w .& y) .^ (x .& y).
Proof.
  apply Z.bits_inj. intros n. rewrite Z.lor_spec, !Z.lxor_spec, !Z.land_spec, Z.lor_spec.
  by destruct (Z.testbit w n), (Z.testbit x n), (Z.testbit y n).
Qed.

Lemma R_spec block i s l :
  bytes block → 0 ≤ i < 80 → sched_inv block i l →
  R (s, l) i = (sha1_round (word_schedule block) s i,
                set_word l (i `mod` 16) (tbl (word_schedule block) i)).
Proof.
  intros Hb Hi Hl. destruct s as [[[[v w] x] y] z]. unfold R, sha1_round.
  assert ((if decide (i < 16) then blk0 l i else blk l i)
    = (tbl (word_schedule block) i, set_word l (i `mod` 16) (tbl (word_schedule block) i))) as ->.
  { case_decide; [apply blk0_spec|apply blk_spec]; (done || lia). }
  set (b := tbl (word_schedule block) i). unfold sha1_f, sha1_k.
  repeat case_decide; try lia; rewrite ?choose_bits, ?majority_bits;
    do 5 f_equal; rewrite uwrap_sum; f_equal; lia.
Qed.

Lemma rounds_spec block s l n i :
  bytes block → 0 ≤ i → i + Z.of_nat n ≤ 80 → sched_inv block i l →
  (foldl R (s, l) (seqZ i (Z.of_nat n))).1
    = foldl (sha1_round (word_schedule block)) s (seqZ i (Z.of_nat n)).
Proof.
  intros Hb. revert s l i. induction n as [|n IH]; intros s l i Hi Hn Hl; [done|].
  rewrite seqZ_cons by lia. replace (Z.pred (Z.of_nat (S n))) with (Z.of_nat n) by lia.
  cbn [foldl]. rewrite (R_spec block) by (done || lia). apply IH; [lia|lia|].
  rewrite <- Z.add_1_r. by apply sched_inv_store.
Qed.
Lemma transform_spec s block : bytes block → SHA1_Transform s block = sha1_compress s block.
Proof.
  intros Hb. unfold SHA1_Transform, sha1_compress. f_equal.
  apply (rounds_spec block s (load_block block) 80 0 Hb); [lia|lia|apply sched_inv_0].
Qed.
#[local] Opaque SHA1_Transform sha1_compress.

(** ** The message in pieces *)

Lemma compress_app n k s l m :
  length l = (64 * n)%nat → compress (n + k) s (l ++ m) = compress k (compress n s l) m.
Proof.
  revert s l. induction n as [|n IH]; intros s l Hl; [by destruct l|]. cbn [Nat.add compress].
  rewrite take_app_le, drop_app_le by lia. apply IH. rewrite length_drop. lia.
Qed.
Lemma compress_take n s m : (64 * n ≤ length m)%nat → compress n s (take (64 * n) m) = compress n s m.
Proof.
  intros H. rewrite <- (take_drop (64 * n) m) at 2.
  replace n with (n + 0)%nat at 3 by lia. rewrite compress_app by (rewrite length_take; lia). done.
Qed.

Lemma update_loop_spec fuel s data i :
  bytes data → 0 ≤ i → zlen data - i < 64 * Z.of_nat fuel + 64 →
  ∃ q, update_loop fuel s data i
      = Ok (compress q s (drop (Z.to_nat i) data), i + 64 * Z.of_nat q) ∧
    (i ≤ zlen data → i + 64 * Z.of_nat q ≤ zlen data) ∧ zlen data < i + 64 * Z.of_nat q + 64.
Proof.
  intros Hb. revert s i. induction fuel as [|f IH]; intros s i Hi Hf; cbn [update_loop].
  - rewrite decide_False by lia. exists 0%nat. cbn [compress]. rewrite Z.mul_0_r, Z.add_0_r.
    split; [done|lia].
  - case_decide as Hlt; cycle 1.
    { exists 0%nat. cbn [compress]. rewrite Z.mul_0_r, Z.add_0_r. split; [done|lia]. }
    destruct (IH (SHA1_Transform s (take 64 (drop (Z.to_nat i) data))) (i + 64)) as (q & -> & H1 & H2);
      [lia|lia|]. exists (S q). split; [|lia]. do 2 f_equal; [|lia]. cbn [compress].
    rewrite transform_spec; [|unfold bytes in *; by apply Forall_take, Forall_drop].
    rewrite drop_drop. do 2 f_equal. lia.
Qed.

(** The context after the message [m]. *)
Record sha_repr (c : SHA1_CTX) (m : list Z) : Prop := {
  sr_state : sha_state c = compress (length m / 64) sha1_state0 m;
  sr_count0 : sha_count0 c = (8 * zlen m) `mod` 2 ^ 32;
  sr_count1 : sha_count1 c = 8 * zlen m / 2 ^ 32;
  sr_length : length (sha_buffer c) = 64%nat;
  sr_buffer : take (length m `mod` 64) (sha_buffer c) = drop (64 * (length m / 64)) m }.

Lemma sha_repr_init junk : length junk = 64%nat → sha_repr (sat_SHA1_Init junk) [].
Proof. by split. Qed.

Lemma div_mod_64 (n q r : nat) : n = (64 * q + r)%nat → (r < 64)%nat → (n / 64 = q ∧ n mod 64 = r)%nat.
Proof.
  intros -> Hr. split.
  - rewrite Nat.mul_comm, Nat.div_add_l by lia. rewrite Nat.div_small by done. lia.
  - rewrite Nat.add_comm, Nat.mul_comm, Nat.Div0.mod_add. by apply Nat.mod_small.
Qed.

(** The count of bits, with its carry. *)
Lemma update_count n len c0 c1 :
  0 ≤ n → 0 ≤ len < 2 ^ 29 → n + len < 2 ^ 61 → c0 = (8 * n) `mod` 2 ^ 32 → c1 = 8 * n / 2 ^ 32 →
  u32 (c0 + u64 (Z.shiftl len 3)) = (8 * (n + len)) `mod` 2 ^ 32 ∧
  (if decide (u32 (c0 + u64 (Z.shiftl len 3)) < u64 (Z.shiftl len 3)) then c1 .+ 1 else c1)
    .+ Z.shiftr len 29 = 8 * (n + len) / 2 ^ 32.
Proof.
  intros Hn Hl Hlt -> ->. rewrite Z.shiftl_mul_pow2, Z.shiftr_div_pow2 by lia.
  rewrite (Z.div_small len) by lia. rewrite (uwrap_small 64) by lia.
  assert (u32 ((8 * n) `mod` 2 ^ 32 + len * 2 ^ 3) = (8 * (n + len)) `mod` 2 ^ 32) as ->
    by (unfold uwrap; Z.to_euclidean_division_equations; lia).
  split; [done|]. case_decide as Hc; [rewrite uwrap_add_l|]; rewrite uwrap_small;
    Z.to_euclidean_division_equations; lia.
Qed.

Lemma update_spec c m data :
  sha_repr c m → bytes m → bytes data → zlen data < 2 ^ 29 → zlen m + zlen data < 2 ^ 61 →
  ∃ c', sat_SHA1_Update c data = Ok c' ∧ sha_repr c' (m ++ data).
Proof.
  intros [Hs Hc0 Hc1 Hl Hb] Hm Hd Hlen Htot. pose proof (zlen_nonneg m). pose proof (zlen_nonneg data).
  destruct (update_count (zlen m) (zlen data) _ _ ltac:(lia) ltac:(lia) Htot Hc0 Hc1) as [E0 E1].
  unfold sat_SHA1_Update. rewrite E0 in *. rewrite E1. rewrite <- zlen_app in *.
  set (q := (length m / 64)%nat) in *. set (j := (length m mod 64)%nat) in *.
  pose proof (Nat.div_mod_eq (length m) 64) as Hdm. fold q j in Hdm.
  pose proof (Nat.mod_upper_bound (length m) 64 ltac:(lia)) as Hj. fold j in Hj.
  assert (sha_count0 c .>> 3 .& 63 = Z.of_nat j) as ->.
  { rewrite Hc0. change 63 with (2 ^ 6 - 1). rewrite land_ones_mod, Z.shiftr_div_pow2 by lia.
    unfold zlen. rewrite Hdm. Z.to_euclidean_division_equations. lia. }
  assert (take (64 * q) m ++ drop (64 * q) m = m) as Em by apply take_drop.
  rewrite !Nat2Z.id. destruct (decide (63 < Z.of_nat j + zlen data)) as [Hgt|Hle].
  - set (i := (64 - j)%nat). replace (64 - Z.of_nat j) with (Z.of_nat i) by lia. rewrite Nat2Z.id.
    assert (length (take i data) = i) as Hti by (rewrite length_take; unfold zlen in *; lia).
    assert (blit (sha_buffer c) j (take i data) = drop (64 * q) m ++ take i data) as ->.
    { unfold blit. rewrite Hb, Hti, (drop_ge (sha_buffer c)) by lia. by rewrite app_nil_r. }
    set (b := drop (64 * q) m ++ take i data).
    assert (length b = 64%nat) as Hlb by (unfold b; rewrite length_app, length_drop, Hti; lia).
    assert (bytes b) as Hbb.
    { unfold bytes in *. apply Forall_app. split; [by apply Forall_drop|by apply Forall_take]. }
    destruct (update_loop_spec (length data) (SHA1_Transform (sha_state c) b) data (Z.of_nat i))
      as (k & -> & H1 & H2); [done|lia|unfold zlen; lia|].
    rewrite bind_Ok. cbn [fst snd]. eexists. split; [done|].
    specialize (H1 ltac:(lia)). rewrite !Nat2Z.id in *.
    replace (Z.to_nat (Z.of_nat i + 64 * Z.of_nat k)) with (i + 64 * k)%nat by lia.
    destruct (div_mod_64 (length (m ++ data)) (q + 1 + k) (length data - i - 64 * k)) as [Eq Er];
      [rewrite length_app; unfold zlen in *; lia|unfold zlen in *; lia|].
    assert (m ++ data = (take (64 * q) m ++ b) ++ drop i data) as Esplit.
    { unfold b. rewrite <- !app_assoc, take_drop, app_assoc. by rewrite Em. }
    split; cbn [sha_state sha_count0 sha_count1 sha_buffer]; try done.
    + rewrite Eq, Esplit, compress_app by (rewrite length_app, length_take; lia).
      rewrite compress_app by (rewrite length_take; lia). rewrite compress_take by lia. rewrite <- Hs.
      cbn [compress]. rewrite transform_spec by done. by rewrite take_ge by lia.
    + unfold blit. rewrite take_0, app_nil_l, length_app, !length_drop. unfold zlen in *. lia.
    + rewrite Er, Eq. unfold blit. rewrite take_0, app_nil_l, take_app_le by (rewrite length_drop; lia).
      rewrite take_ge by (rewrite length_drop; lia).
      rewrite Esplit, drop_app_ge by (rewrite length_app, length_take; lia).
      rewrite drop_drop. f_equal. rewrite length_app, length_take. lia.
  - destruct (div_mod_64 (length (m ++ data)) q (j + length data)) as [Eq Er];
      [rewrite length_app; lia|unfold zlen in *; lia|].
    eexists. split; [done|]. split; cbn [sha_state sha_count0 sha_count1 sha_buffer]; try done.
    + rewrite Eq, <- (compress_take q _ (m ++ data)) by (rewrite length_app; lia).
      rewrite take_app_le by lia. rewrite compress_take by lia. done.
    + unfold blit. rewrite !length_app, length_take, length_drop. unfold zlen in *. lia.
    + rewrite Er, Eq. unfold blit. rewrite app_assoc, take_app_le
        by (rewrite length_app, length_take; lia).
      rewrite take_ge by (rewrite length_app, length_take; lia).
      rewrite Hb, drop_app_le by lia. done.
Qed.

(** ** Padding and digest *)

Lemma be_bytes_ok x : bytes (be_bytes x) ∧ length (be_bytes x) = 4%nat.
Proof.
  split; [|done]. unfold be_bytes, bytes. change 255 with (2 ^ 8 - 1).
  repeat apply Forall_cons_2; try apply Forall_nil_2; rewrite land_ones_mod by lia;
    apply Z.mod_pos_bound; lia.
Qed.

Lemma pad_condition c m : sha_repr c m → (sha_count0 c .& 504 = 8 * (zlen m `mod` 64)).
Proof.
  intros [_ -> _ _ _]. change 504 with (Z.shiftl 63 3).
  assert ((8 * zlen m) `mod` 2 ^ 32 = Z.shiftl (zlen m `mod` 2 ^ 29) 3) as ->
    by (rewrite Z.shiftl_mul_pow2 by lia; Z.to_euclidean_division_equations; lia).
  rewrite <- Z.shiftl_land. change 63 with (2 ^ 6 - 1). rewrite land_ones_mod by lia.
  rewrite mod_pow2_mod by lia. rewrite Z.shiftl_mul_pow2 by lia. change (2 ^ 6) with 64. lia.
Qed.

Lemma pad_loop_spec fuel c m :
  sha_repr c m → bytes m → zlen m + Z.of_nat fuel < 2 ^ 61 → (56 - zlen m) `mod` 64 ≤ Z.of_nat fuel →
  ∃ c', pad_loop fuel c = Ok c' ∧ sha_repr c' (m ++ replicate (Z.to_nat ((56 - zlen m) `mod` 64)) 0).
Proof.
  revert c m. induction fuel as [|f IH]; intros c m Hr Hm Hlt Hz; cbn [pad_loop];
    rewrite (pad_condition c m Hr).
  all: destruct (decide (8 * (zlen m `mod` 64) ≠ 448)) as [Hne|He].
  - exfalso. Z.to_euclidean_division_equations. lia.
  - exists c. split; [done|]. replace ((56 - zlen m) `mod` 64) with 0
      by (Z.to_euclidean_division_equations; lia). by rewrite app_nil_r.
  - destruct (update_spec c m [0] Hr Hm) as (c1 & -> & Hr1);
      [by repeat constructor|done|change (zlen [0]) with 1; lia|].
    assert (zlen (m ++ [0]) = zlen m + 1) as El by apply zlen_app.
    assert ((56 - (zlen m + 1)) `mod` 64 = (56 - zlen m) `mod` 64 - 1) as Ez
      by (Z.to_euclidean_division_equations; lia).
    rewrite bind_Ok. destruct (IH c1 (m ++ [0]) Hr1) as (c' & E' & Hr').
    + apply Forall_app. split; [done|]. by repeat constructor.
    + rewrite El. lia.
    + rewrite El, Ez. lia.
    + exists c'. split; [done|]. rewrite El, Ez, <- app_assoc in Hr'.
      replace (Z.to_nat ((56 - zlen m) `mod` 64)) with (S (Z.to_nat ((56 - zlen m) `mod` 64 - 1))); [done|].
      pose proof (Z.mod_pos_bound (56 - zlen m - 1) 64 ltac:(lia)) as Hp.
      replace (56 - zlen m - 1) with (56 - (zlen m + 1)) in Hp by lia. lia.
  - exists c. split; [done|]. replace ((56 - zlen m) `mod` 64) with 0
      by (Z.to_euclidean_division_equations; lia). by rewrite app_nil_r.
Qed.

Lemma final_spec c m : sha_repr c m → bytes m → zlen m < 2 ^ 60 → sat_SHA1_Final c = Ok (sha1 m).
Proof.
  intros Hr Hm Hlt. pose proof (zlen_nonneg m). unfold sat_SHA1_Final.
  destruct (update_spec c m [0x80] Hr Hm) as (c1 & -> & Hr1);
    [repeat constructor; lia|done|change (zlen [0x80]) with 1; lia|].
  assert (bytes (m ++ [0x80])) as Hm1 by (apply Forall_app; split; [done|repeat constructor; lia]).
  assert (zlen (m ++ [0x80]) = zlen m + 1) as El by apply zlen_app.
  rewrite bind_Ok. destruct (pad_loop_spec 64 c1 (m ++ [0x80]) Hr1 Hm1) as (c2 & -> & Hr2);
    [rewrite El; lia|pose proof (Z.mod_pos_bound (56 - zlen (m ++ [0x80])) 64); lia|].
  rewrite bind_Ok, El in *. replace (56 - (zlen m + 1)) with (55 - zlen m) in Hr2 by lia.
  set (z := Z.to_nat ((55 - zlen m) `mod` 64)) in *.
  pose proof (Z.mod_pos_bound (55 - zlen m) 64 ltac:(lia)) as Hz.
  destruct Hr as [_ Hc0 Hc1 _ _]. rewrite Hc0, Hc1.
  destruct (be_bytes_ok (8 * zlen m / 2 ^ 32)) as [Hb1 Hl1].
  destruct (be_bytes_ok ((8 * zlen m) `mod` 2 ^ 32)) as [Hb2 Hl2].
  destruct (update_spec c2 _ (be_bytes (8 * zlen m / 2 ^ 32) ++ be_bytes ((8 * zlen m) `mod` 2 ^ 32)) Hr2)
    as (c3 & -> & Hr3).
  - apply Forall_app. split; [done|]. apply Forall_replicate. lia.
  - apply Forall_app. by split.
  - change (zlen (be_bytes _ ++ be_bytes _)) with 8. lia.
  - rewrite zlen_app, El, zlen_replicate. change (zlen (be_bytes _ ++ be_bytes _)) with 8. lia.
  - rewrite bind_Ok. destruct Hr3 as [Hs _ _ _ _]. rewrite <- !app_assoc in Hs.
    change (m ++ [0x80] ++ replicate z 0 ++ be_bytes (8 * zlen m / 2 ^ 32)
      ++ be_bytes ((8 * zlen m) `mod` 2 ^ 32)) with (sha1_pad m) in Hs.
    unfold sha1. rewrite <- Hs. unfold sha1_digest. by destruct (sha_state c3) as [[[[? ?] ?] ?] ?].
Qed.

Lemma lsha1_spec junk text :
  length junk = 64%nat → bytes text → zlen text < 2 ^ 29 → lsha1 junk text = Ok (sha1 text).
Proof.
  intros Hj Hb Hl. unfold lsha1.
  destruct (update_spec _ _ text (sha_repr_init junk Hj)) as (c & -> & Hr);
    [by apply Forall_nil_2|done|done|change (zlen (@nil Z)) with 0; lia|].
  rewrite bind_Ok. rewrite app_nil_l in Hr. apply final_spec; [done|done|lia].
Qed.

(** ** HMAC *)

Lemma chunks4 n l :
  length l = (4 * n)%nat →
  concat ((λ i, [tbl l (4 * i); tbl l (4 * i + 1); tbl l (4 * i + 2); tbl l (4 * i + 3)])
    <$> seqZ 0 (Z.of_nat n)) = l.
Proof.
  revert l. induction n as [|n IH]; intros l Hl; [by destruct l|].
  destruct l as [|a [|b [|c [|d r]]]]; cbn in Hl; try lia.
  rewrite seqZ_cons by lia. replace (Z.pred (Z.of_nat (S n))) with (Z.of_nat n) by lia.
  cbn [fmap list_fmap concat]. change (Z.succ 0) with (1 + 0). rewrite <- fmap_add_seqZ, <- list_fmap_compose.
  change ([a; b; c; d] ++ concat ((λ i, [tbl (a :: b :: c :: d :: r) (4 * i); tbl (a :: b :: c :: d :: r) (4 * i + 1);
    tbl (a :: b :: c :: d :: r) (4 * i + 2); tbl (a :: b :: c :: d :: r) (4 * i + 3)]) ∘ Z.add 1
    <$> seqZ 0 (Z.of_nat n)) = [a; b; c; d] ++ r).
  f_equal. etransitivity; [|apply (IH r); lia]. f_equal. apply list_fmap_ext. intros k i Hi.
  apply lookup_seqZ in Hi as [-> _]. unfold compose, tbl.
  assert (∀ x, 0 ≤ x → (a :: b :: c :: d :: r) !! Z.to_nat (x + 4) = r !! Z.to_nat x) as Hx
    by (intros x Hx; replace (Z.to_nat (x + 4)) with (S (S (S (S (Z.to_nat x))))) by lia; done).
  replace (4 * (1 + (0 + Z.of_nat k))) with (4 * (0 + Z.of_nat k) + 4) by lia.
  rewrite Hx by lia.
  replace (4 * (0 + Z.of_nat k) + 4 + 1) with (4 * (0 + Z.of_nat k) + 1 + 4) by lia.
  replace (4 * (0 + Z.of_nat k) + 4 + 2) with (4 * (0 + Z.of_nat k) + 2 + 4) by lia.
  replace (4 * (0 + Z.of_nat k) + 4 + 3) with (4 * (0 + Z.of_nat k) + 3 + 4) by lia.
  by rewrite !Hx by lia.
Qed.

Lemma fmap_concat (f : Z → Z) (ls : list (list Z)) : f <$> concat ls = concat (fmap (M := list) f <$> ls).
Proof. induction ls as [|l ls IH]; [done|]. cbn [concat]. rewrite fmap_app, IH. done. Qed.

Lemma xor_key_spec key x :
  length key = 64%nat → bytes key → 0 ≤ x < 256 →
  xor_key key (le32 x x x x) = Z.lxor x <$> key ∧ bytes (Z.lxor x <$> key).
Proof.
  intros Hl Hb Hx. split; cycle 1.
  { unfold bytes in *. apply Forall_fmap. eapply Forall_impl; [exact Hb|]. intros c Hc. by apply lxor_byte. }
  transitivity (concat ((λ i, Z.lxor x <$> [tbl key (4 * i); tbl key (4 * i + 1); tbl key (4 * i + 2); tbl key (4 * i + 3)])
    <$> seqZ 0 (Z.of_nat 16))).
  - unfold xor_key, load_block. rewrite <- list_fmap_compose. f_equal. apply list_fmap_ext. intros k i _.
    cbn [compose]. pose proof (block_byte key Hb (4 * i)). pose proof (block_byte key Hb (4 * i + 1)).
    pose proof (block_byte key Hb (4 * i + 2)). pose proof (block_byte key Hb (4 * i + 3)).
    unfold compose. rewrite le32_lxor, word_bytes_le32 by (done || by apply lxor_byte).
    cbn [fmap list_fmap]. by rewrite !(Z.lxor_comm x).
  - pose proof (f_equal (fmap (Z.lxor x)) (chunks4 16 key Hl)) as E.
    by rewrite fmap_concat, <- list_fmap_compose in E.
Qed.

Lemma sha1_bytes m : bytes (sha1 m) ∧ length (sha1 m) = 20%nat.
Proof.
  unfold sha1, sha1_digest. destruct (compress _ _ _) as [[[[a b] c] d] e]. split; [|done].
  unfold bytes. repeat (apply Forall_app; split); apply be_bytes_ok.
Qed.

Lemma hmac_key_ok key : bytes key → bytes (hmac_key key) ∧ length (hmac_key key) = 64%nat.
Proof.
  intros Hb. unfold hmac_key. destruct (decide (64 < zlen key)) as [Hlt|Hle].
  - destruct (sha1_bytes key) as [Hs Hl]. split; [|rewrite length_app, length_replicate; lia].
    apply Forall_app. split; [done|]. apply Forall_replicate. lia.
  - split; [|rewrite length_app, length_replicate; unfold zlen in *; lia].
    apply Forall_app. split; [done|]. apply Forall_replicate. lia.
Qed.

Lemma update_from junk m c data :
  length junk = 64%nat → bytes m → zlen m < 2 ^ 29 → bytes data → zlen data < 2 ^ 29 →
  sat_SHA1_Update (sat_SHA1_Init junk) m = Ok c →
  ∃ c', sat_SHA1_Update c data = Ok c' ∧ sat_SHA1_Final c' = Ok (sha1 (m ++ data)).
Proof.
  intros Hj Hm Hlm Hd Hld E. pose proof (zlen_nonneg m).
  destruct (update_spec _ _ m (sha_repr_init junk Hj)) as (c0 & E0 & Hr0);
    [by apply Forall_nil_2|done|done|change (zlen (@nil Z)) with 0; lia|].
  rewrite E in E0. injection E0 as <-. rewrite app_nil_l in Hr0.
  destruct (update_spec c m data Hr0 Hm Hd Hld) as (c' & -> & Hr'); [lia|]. exists c'. split; [done|].
  apply final_spec; [done|apply Forall_app; by split|rewrite zlen_app; lia].
Qed.

Lemma update_init_ok junk m :
  length junk = 64%nat → bytes m → zlen m < 2 ^ 29 → ∃ c, sat_SHA1_Update (sat_SHA1_Init junk) m = Ok c.
Proof.
  intros Hj Hm Hl. destruct (update_spec _ _ m (sha_repr_init junk Hj)) as (c0 & E0 & _);
    [by apply Forall_nil_2|done|done|change (zlen (@nil Z)) with 0; lia|]. by exists c0.
Qed.

Lemma lhmac_sha1_spec junk key text :
  length junk = 64%nat → bytes key → bytes text → zlen key < 2 ^ 29 → zlen text < 2 ^ 29 →
  lhmac_sha1 junk key text = Ok (hmac_sha1 key text).
Proof.
  intros Hj Hk Ht Hlk Hlt. unfold lhmac_sha1.
  assert ((if decide (64 < zlen key) then d ← lsha1 junk key; Ok (blit (replicate 64 0) 0 d)
     else Ok (blit (replicate 64 0) 0 key)) = Ok (hmac_key key)) as ->.
  { unfold hmac_key, blit. destruct (decide (64 < zlen key)); [rewrite lsha1_spec, bind_Ok by done|];
      by rewrite take_0, app_nil_l, drop_replicate. }
  rewrite bind_Ok. destruct (hmac_key_ok key Hk) as [Hb Hl].
  cbv zeta. change (0x5c5c5c5c .^ 0x36363636) with (le32 0x6a 0x6a 0x6a 0x6a).
  change 0x5c5c5c5c with (le32 0x5c 0x5c 0x5c 0x5c).
  destruct (xor_key_spec (hmac_key key) 0x5c Hl Hb ltac:(lia)) as [-> Hb1].
  destruct (xor_key_spec (Z.lxor 0x5c <$> hmac_key key) 0x6a ltac:(by rewrite length_fmap) Hb1 ltac:(lia))
    as [-> Hb2].
  assert (Z.lxor 0x6a <$> (Z.lxor 0x5c <$> hmac_key key) = Z.lxor 0x36 <$> hmac_key key) as E.
  { rewrite <- list_fmap_compose. apply list_fmap_ext. intros _ c _. unfold compose.
    by rewrite <- Z.lxor_assoc. }
  rewrite E in *. assert (∀ x, zlen (Z.lxor x <$> hmac_key key) < 2 ^ 29) as Hz
    by (intros; unfold zlen; rewrite length_fmap; lia).
  destruct (update_init_ok junk _ Hj Hb1 (Hz _)) as (c1 & E1). rewrite E1, bind_Ok.
  destruct (update_init_ok junk _ Hj Hb2 (Hz _)) as (c2 & E2). rewrite E2, bind_Ok.
  destruct (update_from junk _ c2 text Hj Hb2 (Hz _) Ht Hlt E2) as (c2' & -> & E2').
  rewrite bind_Ok, E2', bind_Ok.
  destruct (sha1_bytes ((Z.lxor 0x36 <$> hmac_key key) ++ text)) as [Hsb Hsl].
  destruct (update_from junk _ c1 (sha1 ((Z.lxor 0x36 <$> hmac_key key) ++ text)) Hj Hb1 (Hz _) Hsb)
    as (c1' & -> & E1'); [unfold zlen; rewrite Hsl; lia|done|].
  rewrite bind_Ok. exact E1'.
Qed.

(** C29: SHA-1 and HMAC-SHA-1. For keys and texts below 2^29 bytes the functions Lua
    sees compute the standard's digest of the padded message and HMAC over it, whatever
    the uninitialised buffer holds. From 2^29 bytes on the 32-bit bit count is compared
    with the 64-bit length, so that a carry is counted that did not happen: the length
    in the digest is too large by 2^32 bits. *)
Theorem sha1_is_standard junk key text :
  length junk = 64%nat → bytes key → bytes text → zlen key < 2 ^ 29 →
  (zlen text < 2 ^ 29 →
   lsha1 junk text = Ok (sha1 text) ∧ lhmac_sha1 junk key text = Ok (hmac_sha1 key text)) ∧
  (2 ^ 29 ≤ zlen text < 2 ^ 60 →
   ∃ c, sat_SHA1_Update (sat_SHA1_Init junk) text = Ok c ∧
     sha_count0 c + 2 ^ 32 * sha_count1 c = 8 * zlen text + 2 ^ 32).
Proof.
  intros Hj Hk Ht Hlk. split.
  - intros Hlt. split; [by apply lsha1_spec|by apply lhmac_sha1_spec].
  - intros Hl. unfold sat_SHA1_Update, sat_SHA1_Init. cbn [sha_count0 sha_count1 sha_state sha_buffer].
    change (0 .>> 3 .& 63) with 0. rewrite !Z.add_0_l. rewrite decide_True by lia.
    destruct (update_loop_spec (length text)
      (SHA1_Transform sha1_state0 (blit junk (Z.to_nat 0) (take (Z.to_nat (64 - 0)) text))) text (64 - 0))
      as (k & -> & _ & _); [done|lia|unfold zlen; lia|].
    rewrite bind_Ok. eexists. split; [reflexivity|]. cbn [sha_count0 sha_count1].
    rewrite Z.shiftl_mul_pow2, Z.shiftr_div_pow2 by lia. rewrite (uwrap_small 64) by lia.
    pose proof (uwrap_range 32 (zlen text * 2 ^ 3) ltac:(lia)). rewrite decide_True by lia.
    rewrite uwrap_add_l. rewrite (uwrap_small 32 (1 + _)).
    + unfold uwrap. Z.to_euclidean_division_equations. lia.
    + Z.to_euclidean_division_equations. lia.
Qed.

Lemma sha1_is_standard_witness :
  lsha1 (replicate 64 7) [97; 98; 99] = Ok (sha1 [97; 98; 99]) ∧
  lhmac_sha1 (replicate 64 7) [107] [97; 98; 99] = Ok (hmac_sha1 [107] [97; 98; 99]).
Proof.
  apply (sha1_is_standard (replicate 64 7) [107] [97; 98; 99]).
  - reflexivity.
  - repeat constructor; lia.
  - repeat constructor; lia.
  - vm_compute. reflexivity.
  - vm_compute. reflexivity.
Defined.
