(* ===== verification/SprotoPack.v ===== *)
(** * 0-packing of messages: lualib-src/sproto/sproto.c and lsproto.c

    [sproto_pack], [sproto_unpack] and the Lua functions around them. The source
    of a call is a list of bytes and [behind] is the memory that follows it, so
    that a read past the end is visible; the output is a buffer written by index.
    The theorems: unpacking inverts packing up to the zero padding, the packed size
    stays within the bound [lpack] reserves, no write leaves the buffer, and which
    reads leave the source. *)
From stdpp Require Import base numbers list.
From S2P Require Import Prelude.

(** [n] bytes at offset [i] of readable memory. *)
Definition read_at (m : list Z) (i n : Z) : result (list Z) :=
  if decide (0 ≤ i ∧ 0 ≤ n ∧ i + n ≤ zlen m) then Ok (take (Z.to_nat n) (drop (Z.to_nat i) m))
  else Err OutOfBounds.
(** [memcpy] into the buffer. *)
Definition write_at (b : list Z) (i : Z) (l : list Z) : result (list Z) :=
  if decide (0 ≤ i ∧ i + zlen l ≤ zlen b) then
    Ok (take (Z.to_nat i) b ++ l ++ drop (Z.to_nat i + length l) b)
  else Err OutOfBounds.

(** The loop of [pack_seg] over the bytes of a segment: the header, the number of
    nonzero bytes, and the buffer with those bytes at [pos] while [sz] lasts. *)
Fixpoint seg_loop (seg : list Z) (i header notzero pos sz : Z) (buffer : list Z) :
    result (Z * Z * list Z) :=
  match seg with
  | [] => Ok (header, notzero, buffer)
  | c :: seg =>
      if decide (c ≠ 0) then
        let header := Z.lor header (Z.shiftl 1 i) in
        if decide (0 < sz) then
          b ← wr buffer pos c;
          seg_loop seg (i + 1) header (notzero + 1) (pos + 1) (sz - 1) b
        else seg_loop seg (i + 1) header (notzero + 1) pos sz buffer
      else seg_loop seg (i + 1) header notzero pos sz buffer
  end.

(** [pack_seg] at offset [off] of the buffer with [bufsz] bytes left. *)
Definition pack_seg (seg buffer : list Z) (off bufsz n : Z) : result (Z * list Z) :=
  let sz := bufsz - 1 in
  r ← seg_loop seg 0 0 0 (off + 1) sz buffer;
  let '(header, notzero, buffer) := r in
  let notzero := if decide ((notzero = 7 ∨ notzero = 6) ∧ 0 < n) then 8 else notzero in
  if decide (notzero = 8) then Ok (if decide (0 < n) then 8 else 10, buffer)
  else
    b ← (if decide (sz < 0) then Ok buffer else wr buffer off header);
    Ok (notzero + 1, b).

(** [write_ff] of [n] bytes from the memory [src]. *)
Definition write_ff (src : list Z) (i : Z) (buffer : list Z) (des n : Z) : result (list Z) :=
  let align8_n := Z.land (n + 7) (Z.lnot 7) in
  b ← wr buffer des 0xff;
  b ← wr b (des + 1) (u8 (align8_n / 8 - 1));
  l ← read_at src i n;
  b ← write_at b (des + 2) l;
  write_at b (des + n + 2) (replicate (Z.to_nat (align8_n - n)) 0).

(** Where a run of nonzero segments starts: in the source, or the padded copy of
    the last segment. *)
Inductive ff_start : Type := InSource (i : Z) | InTmp (tmp : list Z).
(** The variables of [sproto_pack]; the buffer pointer is [size] behind its start. *)
Record packer : Type := mk_packer {
  ff_srcstart : ff_start;
  ff_desstart : Z;
  ff_n : Z;
  pk_size : Z;
  pk_bufsz : Z;
  pk_buffer : list Z }.

Section Pack.
(** The source and the memory behind it. *)
Context (srcv behind : list Z).

Definition flush_ff (p : packer) (buffer : list Z) (n : Z) : result (list Z) :=
  match ff_srcstart p with
  | InSource i => write_ff (srcv ++ behind) i buffer (ff_desstart p) n
  | InTmp tmp => write_ff tmp 0 buffer (ff_desstart p) n
  end.

(** One turn of the loop, at source offset [i]. *)
Definition pack_turn (p : packer) (i : Z) : result packer :=
  let padding := i + 8 - zlen srcv in
  l ← read_at (srcv ++ behind) i (if decide (0 < padding) then 8 - padding else 8);
  let seg := l ++ replicate (Z.to_nat padding) 0 in
  let at_ := if decide (0 < padding) then InTmp seg else InSource i in
  r ← pack_seg seg (pk_buffer p) (pk_size p) (pk_bufsz p) (ff_n p);
  let '(n, buffer) := r in
  let bufsz := pk_bufsz p - n in
  let next := mk_packer (ff_srcstart p) (ff_desstart p) in
  if decide (n = 10) then Ok (mk_packer at_ (pk_size p) 1 (pk_size p + n) bufsz buffer)
  else if decide (n = 8 ∧ 0 < ff_n p) then
    if decide (ff_n p + 1 = 256) then
      b ← (if decide (0 ≤ bufsz) then flush_ff p buffer (256 * 8) else Ok buffer);
      Ok (next 0 (pk_size p + n) bufsz b)
    else Ok (next (ff_n p + 1) (pk_size p + n) bufsz buffer)
  else if decide (0 < ff_n p) then
    b ← (if decide (0 ≤ bufsz) then flush_ff p buffer (ff_n p * 8) else Ok buffer);
    Ok (next 0 (pk_size p + n) bufsz b)
  else Ok (next (ff_n p) (pk_size p + n) bufsz buffer).

(** The loop; the source has one segment per eight bytes begun. *)
Fixpoint pack_loop (fuel : nat) (p : packer) (i : Z) : result packer :=
  if decide (i < zlen srcv) then
    match fuel with
    | O => Err OutOfFuel
    | S f => p ← pack_turn p i; pack_loop f p (i + 8)
    end
  else Ok p.

(** After the loop; for a run of several segments the start is in the source. *)
Definition pack_end (p : packer) : result (Z * list Z) :=
  b ← (if decide (0 ≤ pk_bufsz p) then
         if decide (ff_n p = 1) then flush_ff p (pk_buffer p) 8
         else if decide (1 < ff_n p) then
           match ff_srcstart p with
           | InSource i => flush_ff p (pk_buffer p) (zlen srcv - i)
           | InTmp _ => Err OutOfBounds
           end
         else Ok (pk_buffer p)
       else Ok (pk_buffer p));
  Ok (pk_size p, b).

Definition sproto_pack (buffer : list Z) (bufsz : Z) : result (Z * list Z) :=
  p ← pack_loop (length srcv) (mk_packer (InSource 0) 0 0 0 bufsz buffer) 0;
  pack_end p.
End Pack.

(** The loop over the eight bits of a header: the source offset, the bytes left,
    the buffer offset, the space left and the buffer; [None] for [return -1]. *)
Fixpoint unpack_bits (n : nat) (i : Z) (m : list Z) (header src srcsz pos bufsz : Z) (buffer : list Z) :
    result (option (Z * Z * Z * Z * list Z)) :=
  match n with
  | O => Ok (Some (src, srcsz, pos, bufsz, buffer))
  | S n =>
      if decide (Z.land (Z.shiftr header i) 1 ≠ 0) then
        if decide (srcsz < 0) then Ok None
        else
          (if decide (0 < bufsz) then
             c ← rd m src;
             b ← wr buffer pos c;
             unpack_bits n (i + 1) m header (src + 1) (srcsz - 1) (pos + 1) (bufsz - 1) b
           else unpack_bits n (i + 1) m header (src + 1) (srcsz - 1) pos bufsz buffer)
      else
        if decide (0 < bufsz) then
          b ← wr buffer pos 0;
          unpack_bits n (i + 1) m header src srcsz (pos + 1) (bufsz - 1) b
        else unpack_bits n (i + 1) m header src srcsz pos bufsz buffer
  end.

(** The loop of [sproto_unpack] on memory [m]; every turn takes a byte at least. *)
Fixpoint unpack_loop (fuel : nat) (m : list Z) (src srcsz pos bufsz size : Z) (buffer : list Z) :
    result (Z * list Z) :=
  if decide (0 < srcsz) then
    match fuel with
    | O => Err OutOfFuel
    | S f =>
        header ← rd m src;
        let src := src + 1 in
        let srcsz := srcsz - 1 in
        if decide (header = 0xff) then
          if decide (srcsz < 0) then Ok (-1, buffer)
          else
            c ← rd m src;
            let n := (c + 1) * 8 in
            if decide (srcsz < n + 1) then Ok (-1, buffer)
            else
              b ← (if decide (n ≤ bufsz) then l ← read_at m (src + 1) n; write_at buffer pos l
                   else Ok buffer);
              unpack_loop f m (src + 1 + n) (srcsz - (n + 1)) (pos + n) (bufsz - n) (size + n) b
        else
          r ← unpack_bits 8 0 m header src srcsz pos bufsz buffer;
          match r with
          | None => Ok (-1, buffer)
          | Some (src, srcsz, pos, bufsz, b) => unpack_loop f m src srcsz pos bufsz (size + 8) b
          end
    end
  else Ok (size, buffer).

Definition sproto_unpack (srcv behind buffer : list Z) (bufsz : Z) : result (Z * list Z) :=
  unpack_loop (length srcv) (srcv ++ behind) 0 (zlen srcv) 0 bufsz 0 buffer.

(** ** lsproto.c *)

Definition ENCODE_BUFFERSIZE : Z := 2050.
Definition ENCODE_MAXSIZE : Z := 0x1000000.

(** [do osz *= 2; while (osz < nsz)]: 32 doublings leave the [int] range. *)
Fixpoint double_until (fuel : nat) (osz nsz : Z) : result Z :=
  osz ← c_int (osz * 2);
  if decide (osz < nsz) then
    match fuel with O => Err OutOfFuel | S f => double_until f osz nsz end
  else Ok osz.

(** A new userdata of the new size; its contents are unspecified bytes, here zeros. *)
Definition expand_buffer (osz nsz : Z) : result (list Z) :=
  osz ← double_until 32 osz nsz;
  if decide (ENCODE_MAXSIZE < osz) then Err (LuaError 0)
  else Ok (replicate (Z.to_nat osz) 0).

(** [lpack] on a string or userdata of [zlen buffer] bytes; [upvalue] is the buffer
    kept between the calls. The result is the packed string and the buffer kept. *)
Definition maxsz (sz : Z) : Z := (sz + 2047) / 2048 * 2 + sz + 2.
Definition lpack_sproto (buffer behind upvalue : list Z) : result (list Z * list Z) :=
  let m := maxsz (zlen buffer) in
  output ← (if decide (zlen upvalue < m) then expand_buffer (zlen upvalue) m else Ok upvalue);
  r ← sproto_pack buffer behind output (s32 m);
  if decide (m < u64 r.1) then Err (LuaError 0)
  else l ← read_at r.2 0 r.1; Ok (l, r.2).

Definition lunpack_sproto (buffer behind upvalue : list Z) : result (list Z * list Z) :=
  r ← sproto_unpack buffer behind upvalue (zlen upvalue);
  if decide (r.1 < 0) then Err (LuaError 0)
  else
    r ← (if decide (zlen upvalue < r.1) then
           output ← expand_buffer (zlen upvalue) r.1;
           r ← sproto_unpack buffer behind output r.1;
           if decide (r.1 < 0) then Err (LuaError 0) else Ok r
         else Ok r);
    l ← read_at r.2 0 r.1; Ok (l, r.2).

(** ** Overwriting a part of a buffer *)

Definition over (b : list Z) (i : nat) (l : list Z) : list Z := take i b ++ l ++ drop (i + length l) b.

Lemma over_nil b i : over b i [] = b.
Proof. unfold over. cbn. rewrite Nat.add_0_r. apply take_drop. Qed.
Lemma over_length b i l : (i + length l ≤ length b)%nat → length (over b i l) = length b.
Proof. intros. unfold over. rewrite !length_app, length_take, length_drop. lia. Qed.
Lemma over_zlen b i l : (i + length l ≤ length b)%nat → zlen (over b i l) = zlen b.
Proof. intros. unfold zlen. by rewrite over_length. Qed.
Lemma take_over_before b i l j : (j ≤ i ≤ length b)%nat → take j (over b i l) = take j b.
Proof. intros. unfold over. rewrite take_app_le, take_take by (rewrite length_take; lia). f_equal. lia. Qed.
Lemma take_over b i l : (i ≤ length b)%nat → take (i + length l) (over b i l) = take i b ++ l.
Proof.
  intros. unfold over. rewrite app_assoc. apply take_app_length'. rewrite length_app, length_take. lia.
Qed.
Lemma over_app b i l k :
  (i + length l ≤ length b)%nat → over (over b i l) (i + length l) k = over b i (l ++ k).
Proof.
  intros Hi. unfold over at 1. rewrite take_over by lia. unfold over at 2. rewrite <- !app_assoc.
  f_equal. f_equal. f_equal. unfold over. rewrite app_assoc.
  rewrite drop_app_ge by (rewrite length_app, length_take; lia).
  rewrite drop_drop, !length_app, length_take. f_equal. lia.
Qed.
Lemma over_one b i x : (i < length b)%nat → <[i := x]> b = over b i [x].
Proof. intros. unfold over. rewrite insert_take_drop by done. cbn. by rewrite Nat.add_1_r. Qed.

Lemma wr_over b i x : 0 ≤ i < zlen b → wr b i x = Ok (over b (Z.to_nat i) [x]).
Proof. intros. rewrite wr_Ok by done. rewrite over_one; [done|]. unfold zlen in *. lia. Qed.
Lemma write_at_over b i l : 0 ≤ i → i + zlen l ≤ zlen b → write_at b i l = Ok (over b (Z.to_nat i) l).
Proof. intros. unfold write_at. by rewrite decide_True. Qed.

(** ** Segments *)

(** The bytes a header announces, and the header. *)
Definition nonzeros (s : list Z) : list Z := filter (λ c, c ≠ 0) s.
Fixpoint seg_header (i : Z) (s : list Z) : Z :=
  match s with
  | [] => 0
  | c :: s => Z.lor (if decide (c ≠ 0) then Z.shiftl 1 i else 0) (seg_header (i + 1) s)
  end.

Lemma seg_header_bit s i (k : nat) :
  0 ≤ i → Z.testbit (seg_header i s) (i + Z.of_nat k) = bool_decide (default 0 (s !! k) ≠ 0).
Proof.
  revert i k. induction s as [|c s IH]; intros i k Hi; cbn [seg_header].
  { rewrite Z.bits_0. by destruct k. }
  assert (∀ s j, 0 ≤ j → ∀ x, x < j → Z.testbit (seg_header j s) x = false) as Hlow.
  { clear. induction s as [|c s IH]; intros j Hj x Hx; cbn [seg_header]; [apply Z.bits_0|].
    destruct (decide (x < 0)); [by apply Z.testbit_neg_r|]. rewrite Z.lor_spec, IH by lia. case_decide.
    - by rewrite Z.shiftl_spec_low by lia.
    - by rewrite Z.bits_0. }
  rewrite Z.lor_spec. destruct k as [|k].
  - rewrite Z.add_0_r, (Hlow s) by lia. rewrite orb_false_r. cbn. case_decide as Hc.
    + rewrite Z.shiftl_spec, Z.sub_diag by lia. symmetry. by apply bool_decide_eq_true_2.
    + rewrite Z.bits_0. symmetry. apply bool_decide_eq_false_2. naive_solver.
  - replace (i + Z.of_nat (S k)) with (i + 1 + Z.of_nat k) by lia. rewrite IH by lia. cbn.
    replace (Z.testbit _ _) with false; [done|]. symmetry. case_decide; [|apply Z.bits_0].
    rewrite Z.shiftl_spec by lia. apply Z.bits_above_log2; [lia|]. cbn. lia.
Qed.

Lemma nonzeros_length s : zlen (nonzeros s) ≤ zlen s.
Proof. unfold zlen, nonzeros. pose proof (length_filter (λ c, c ≠ 0) s). lia. Qed.
Lemma header_not_ff s :
  length s = 8%nat → zlen (nonzeros s) ≠ 8 → seg_header 0 s ≠ 0xff.
Proof.
  intros Hl Hn E. apply Hn. unfold nonzeros. rewrite filter_all; [unfold zlen; lia|].
  apply Forall_lookup. intros k c Hk. pose proof (seg_header_bit s 0 k ltac:(lia)) as Hb.
  rewrite E in Hb. apply lookup_lt_Some in Hk as Hlt. rewrite Hl in Hlt.
  assert (Z.testbit 255 (0 + Z.of_nat k) = true) as Ht
    by (do 8 (destruct k as [|k]; [done|]); lia).
  rewrite Ht in Hb. symmetry in Hb. apply bool_decide_eq_true in Hb. by rewrite Hk in Hb.
Qed.

(** The loop of [pack_seg] writes the nonzero bytes as far as the space goes. *)
Lemma seg_loop_spec seg i h k pos sz b :
  0 ≤ pos → pos + Z.max sz 0 ≤ Z.max pos (zlen b) →
  seg_loop seg i h k pos sz b =
    Ok (Z.lor h (seg_header i seg), k + zlen (nonzeros seg),
        over b (Z.to_nat pos) (take (Z.to_nat sz) (nonzeros seg))).
Proof.
  revert i h k pos sz b. induction seg as [|c seg IH]; intros i h k pos sz b Hp Hs; cbn [seg_loop seg_header].
  { rewrite Z.lor_0_r. cbn. rewrite take_nil, over_nil. do 3 f_equal. unfold zlen. cbn. lia. }
  unfold nonzeros. rewrite filter_cons. destruct (decide (c ≠ 0)) as [Hc|Hc].
  - rewrite zlen_cons. destruct (decide (0 < sz)) as [Hz|Hz].
    + rewrite wr_over, bind_Ok by lia.
      assert (length (over b (Z.to_nat pos) [c]) = length b) as Hl
        by (apply over_length; cbn; unfold zlen in *; lia).
      rewrite IH by (unfold zlen in *; lia). fold (nonzeros seg).
      rewrite <- Z.lor_assoc. replace (Z.to_nat (pos + 1)) with (Z.to_nat pos + length [c])%nat by (cbn; lia).
      rewrite over_app by (cbn; unfold zlen in *; lia).
      replace (Z.to_nat sz) with (S (Z.to_nat (sz - 1))) by lia. cbn [firstn app]. do 3 f_equal. lia.
    + rewrite IH by lia. fold (nonzeros seg). rewrite <- Z.lor_assoc.
      replace (Z.to_nat sz) with 0%nat by lia. rewrite !take_0. do 3 f_equal. lia.
  - rewrite IH by lia. rewrite Z.lor_0_l. done.
Qed.

(** A segment that belongs to a run of length [n], or starts one. *)
Definition in_run (n : Z) (s : list Z) : Prop :=
  zlen (nonzeros s) = 8 ∨ (6 ≤ zlen (nonzeros s) ∧ 0 < n).
Global Instance in_run_dec n s : Decision (in_run n s).
Proof. unfold in_run. apply _. Defined.
Definition literal (s : list Z) : list Z := seg_header 0 s :: nonzeros s.

Lemma pack_seg_spec seg b off bufsz n :
  length seg = 8%nat → 0 ≤ off → 0 ≤ n → off + bufsz ≤ zlen b →
  ∃ b', pack_seg seg b off bufsz n
      = Ok (if decide (in_run n seg) then (if decide (0 < n) then 8 else 10) else zlen (literal seg), b') ∧
    zlen b' = zlen b ∧ (off ≤ zlen b → take (Z.to_nat off) b' = take (Z.to_nat off) b) ∧
    (¬ in_run n seg → zlen (literal seg) ≤ bufsz →
     take (Z.to_nat off + length (literal seg)) b' = take (Z.to_nat off) b ++ literal seg).
Proof.
  intros Hl Ho Hn Hb. unfold pack_seg. pose proof (nonzeros_length seg) as Hk.
  pose proof (zlen_nonneg (nonzeros seg)). assert (zlen seg = 8) as Hl8 by (unfold zlen; lia). rewrite Hl8 in Hk.
  rewrite seg_loop_spec, bind_Ok by lia. rewrite Z.lor_0_l, Z.add_0_l.
  set (k := zlen (nonzeros seg)) in *. set (w := take _ (nonzeros seg)).
  assert (length w ≤ Z.to_nat (bufsz - 1))%nat as Hw by (unfold w; rewrite length_take; lia).
  set (b1 := over b (Z.to_nat (off + 1)) w).
  assert (zlen b1 = zlen b) as Hb1.
  { unfold b1. destruct w as [|x w']; [by rewrite over_nil|]. apply over_zlen. cbn in *. unfold zlen in *. lia. }
  assert (∀ j : nat, (j ≤ Z.to_nat (off + 1))%nat → (j ≤ length b)%nat → take j b1 = take j b) as Ht.
  { intros j Hj Hjb. unfold b1. destruct w as [|x w']; [by rewrite over_nil|].
    apply take_over_before. cbn in *. unfold zlen in *. lia. }
  assert ((if decide ((k = 7 ∨ k = 6) ∧ 0 < n) then 8 else k) = 8 ↔ in_run n seg) as Hiff.
  { unfold in_run. fold k. case_decide; lia. }
  destruct (decide (in_run n seg)) as [Hr|Hr].
  - rewrite decide_True by tauto. exists b1. split; [done|]. split; [done|]. split; [|tauto].
    intros. apply Ht; unfold zlen in *; lia.
  - rewrite decide_False by tauto.
    assert ((if decide ((k = 7 ∨ k = 6) ∧ 0 < n) then 8 else k) = k) as ->.
    { case_decide; [|done]. exfalso. apply Hr. unfold in_run. fold k. lia. }
    unfold literal. rewrite zlen_cons. fold k. replace (k + 1) with (1 + k) by lia.
    destruct (decide (bufsz - 1 < 0)) as [Hsz|Hsz].
    + rewrite bind_Ok. exists b1. split; [done|]. split; [done|]. split; [|lia].
      intros. apply Ht; unfold zlen in *; lia.
    + rewrite wr_over, bind_Ok by lia. eexists. split; [done|].
      split; [rewrite over_zlen; [done|]; cbn; unfold zlen in *; lia|]. split.
      * intros. rewrite take_over_before by (unfold zlen in *; lia). apply Ht; unfold zlen in *; lia.
      * intros _ Hfit. assert (w = nonzeros seg) as Ew by (unfold w; apply take_ge; unfold k, zlen in *; lia).
        assert (over b1 (Z.to_nat off) [seg_header 0 seg] = over b (Z.to_nat off) (seg_header 0 seg :: nonzeros seg)) as ->.
        { unfold over at 1. rewrite Ht by (unfold zlen in *; lia). unfold b1, over. rewrite Ew. cbn [app length].
          do 2 f_equal. rewrite drop_app_ge by (rewrite length_take; unfold zlen in *; lia).
          rewrite length_take. replace (_ - _)%nat with 0%nat by (unfold zlen in *; lia).
          rewrite drop_0. do 2 f_equal. lia. }
        apply take_over. unfold zlen in *. lia.
Qed.

Lemma zlen_pos {A} (l : list A) : l ≠ [] → 1 ≤ zlen l.
Proof. destruct l; [done|]. rewrite zlen_cons. pose proof (zlen_nonneg l). lia. Qed.

(** ** Runs *)

Definition ff_block (run : list (list Z)) : list Z := 0xff :: (zlen run - 1) :: concat run.
Definition flushed (run : list (list Z)) : list Z := match run with [] => [] | _ => ff_block run end.

(** The packed form of the segments that follow a run begun before them. *)
Fixpoint packed (run segs : list (list Z)) : list Z :=
  match segs with
  | [] => flushed run
  | s :: segs =>
      if decide (in_run (zlen run) s) then
        if decide (zlen run + 1 = 256) then flushed (run ++ [s]) ++ packed [] segs
        else packed (run ++ [s]) segs
      else flushed run ++ literal s ++ packed [] segs
  end.

Lemma align8 n : Z.land (n + 7) (Z.lnot 7) = 8 * ((n + 7) / 8).
Proof.
  change (Z.land (n + 7) (Z.lnot 7)) with (Z.land (n + 7) (Z.lnot (Z.ones 3))).
  rewrite <- Z.ldiff_land, Z.ldiff_ones_r, Z.shiftl_mul_pow2, Z.shiftr_div_pow2 by lia.
  change (2 ^ 3) with 8. lia.
Qed.

Lemma write_ff_spec m i b des n k l :
  read_at m i n = Ok l → zlen l = n → 8 * k - 8 < n ≤ 8 * k → 1 ≤ k ≤ 256 →
  0 ≤ des → des + 2 + 8 * k ≤ zlen b →
  write_ff m i b des n
    = Ok (over b (Z.to_nat des) (0xff :: (k - 1) :: l ++ replicate (Z.to_nat (8 * k - n)) 0)).
Proof.
  intros Hl Hn Hk Hk2 Hd Hb. unfold write_ff. rewrite align8.
  replace ((n + 7) / 8) with k by (Z.to_euclidean_division_equations; lia).
  replace (8 * k / 8) with k by (Z.to_euclidean_division_equations; lia). cbv zeta.
  rewrite uwrap_small by lia. unfold zlen in *.
  rewrite wr_over, bind_Ok by (unfold zlen; lia).
  assert (∀ l, (Z.to_nat des + length l ≤ length b)%nat → length (over b (Z.to_nat des) l) = length b) as Hlen
    by (intros; by apply over_length).
  rewrite wr_over, bind_Ok by (unfold zlen; rewrite Hlen by (cbn; lia); lia).
  replace (Z.to_nat (des + 1)) with (Z.to_nat des + length [255%Z])%nat by (cbn; lia).
  rewrite over_app by (cbn; lia). rewrite Hl, bind_Ok. cbn [app].
  rewrite write_at_over, bind_Ok by (unfold zlen; rewrite ?Hlen by (cbn; lia); lia).
  replace (Z.to_nat (des + 2)) with (Z.to_nat des + length [255%Z; (k - 1)%Z])%nat by (cbn; lia).
  rewrite over_app by (cbn; lia).
  rewrite write_at_over by (unfold zlen; rewrite ?Hlen, ?length_replicate by (cbn [length app]; lia); lia).
  replace (Z.to_nat (des + n + 2)) with (Z.to_nat des + length ([255%Z; (k - 1)%Z] ++ l))%nat by (cbn [length app]; lia).
  rewrite over_app by (cbn [length app]; lia). done.
Qed.

(** A read that stays in a part of the memory. *)
Lemma read_at_part x y z i n :
  i = zlen x → n = zlen y → read_at (x ++ y ++ z) i n = Ok y.
Proof.
  intros -> ->. unfold read_at, zlen. rewrite decide_True by (rewrite !length_app; lia).
  rewrite !Nat2Z.id, drop_app_length, take_app_length. done.
Qed.

Lemma concat_length8 (segs : list (list Z)) :
  Forall (λ s, length s = 8%nat) segs → zlen (concat segs) = 8 * zlen segs.
Proof.
  induction 1 as [|s segs Hs _ IH]; [done|]. cbn [concat]. rewrite zlen_app, zlen_cons, IH.
  unfold zlen at 1. rewrite Hs. lia.
Qed.
Lemma zlen_flushed run :
  Forall (λ s, length s = 8%nat) run → zlen (flushed run) = if decide (run = []) then 0 else 2 + 8 * zlen run.
Proof.
  intros Hr. destruct run as [|s run]; [done|]. rewrite decide_False by done. unfold flushed, ff_block.
  rewrite !zlen_cons, concat_length8 by done. rewrite zlen_cons. lia.
Qed.

(** ** Packing computes [packed] *)

Lemma split_prefix {A} (a b c d : list A) :
  a ++ b = c ++ d → zlen a ≤ zlen c → ∃ e, c = a ++ e ∧ b = e ++ d.
Proof.
  intros E Hl. exists (drop (length a) c). unfold zlen in Hl.
  assert (c = a ++ drop (length a) c) as Ec.
  { rewrite <- (take_drop (length a) c) at 1. f_equal.
    rewrite <- (take_app_le c d), <- E by lia. apply take_app_length. }
  split; [done|]. rewrite Ec, <- app_assoc in E. by apply app_inv_head in E.
Qed.

Section Packing.
Context (srcv behind : list Z) (pad L T : Z).
Definition padded : list Z := srcv ++ replicate (Z.to_nat pad) 0.
Context (Hpad : 0 ≤ pad < 8) (HT : 0 ≤ T ≤ L)
  (Hbehind : 1 ≤ pad ≤ 2 → 2040 < zlen srcv → ∃ rest, behind = replicate (Z.to_nat pad) 0 ++ rest).

Lemma zlen_padded : zlen padded = zlen srcv + pad.
Proof. unfold padded. rewrite zlen_app, zlen_replicate. lia. Qed.

(** What the loop reads at a segment. *)
Lemma turn_seg x s segs :
  padded = x ++ s ++ concat segs → length s = 8%nat → Forall (λ s, length s = 8%nat) segs →
  let padding := zlen x + 8 - zlen srcv in
  ∃ l, read_at (srcv ++ behind) (zlen x) (if decide (0 < padding) then 8 - padding else 8) = Ok l ∧
    l ++ replicate (Z.to_nat padding) 0 = s ∧ zlen x < zlen srcv ∧
    (padding ≤ 0 ∨ (padding = pad ∧ segs = [])).
Proof.
  intros E Hs Hsegs padding. pose proof zlen_padded as Hp. rewrite E, !zlen_app, concat_length8 in Hp by done.
  assert (zlen s = 8) as Hs8 by (unfold zlen; lia). pose proof (zlen_nonneg segs).
  assert (zlen x < zlen srcv) as Hx by lia. unfold padded in E. case_decide as Hd.
  - assert (segs = []) as -> by (destruct segs; [done|rewrite zlen_cons in *; pose proof (zlen_nonneg segs); lia]).
    assert (zlen (@nil (list Z)) = 0) as H0 by done.
    cbn [concat] in E. rewrite app_nil_r in E. symmetry in E.
    apply split_prefix in E as (e & Ec & Es); [|lia]. exists e.
    assert (padding = pad) as Ep by lia. split; [|split; [by rewrite Ep, <- Es|split; [done|by right]]].
    rewrite Ec, <- app_assoc. apply read_at_part; [done|]. rewrite Es, zlen_app, zlen_replicate in Hs8. lia.
  - rewrite app_assoc in E. symmetry in E. apply split_prefix in E as (e & Ec & _); [|rewrite zlen_app; lia].
    exists s. replace (Z.to_nat padding) with 0%nat by lia. cbn [replicate].
    rewrite app_nil_r. split; [|split; [done|split; [done|left; lia]]].
    rewrite Ec, <- !app_assoc. apply read_at_part; [done|lia].
Qed.

Record pk_inv (p : packer) (pre done : list Z) (run : list (list Z)) : Prop := {
  pi_n : ff_n p = zlen run;
  pi_lt : zlen run < 256;
  pi_8 : Forall (λ s, length s = 8%nat) run;
  pi_size : pk_size p = zlen done + zlen (flushed run);
  pi_des : run ≠ [] → ff_desstart p = zlen done;
  pi_bufsz : pk_bufsz p = T - pk_size p;
  pi_buf : zlen (pk_buffer p) = L;
  pi_data : pk_size p ≤ T → take (length done) (pk_buffer p) = done;
  pi_start : run ≠ [] → (ff_srcstart p = InSource (zlen pre) ∧ zlen pre + 8 ≤ zlen srcv) ∨
    (∃ s, run = [s] ∧ ff_srcstart p = InTmp s ∧ pre ++ s = padded) }.

(** Flushing a run that lies in readable memory. *)
Lemma write_ff_run m i b des n l run :
  read_at m i n = Ok l → l ++ replicate (Z.to_nat (8 * zlen run - n)) 0 = concat run →
  Forall (λ s, length s = 8%nat) run → 8 * zlen run - 8 < n ≤ 8 * zlen run → 1 ≤ zlen run ≤ 256 →
  0 ≤ des → des + zlen (ff_block run) ≤ zlen b →
  write_ff m i b des n = Ok (over b (Z.to_nat des) (ff_block run)).
Proof.
  intros Hr El H8 Hn Hk Hd Hb. unfold ff_block in *. rewrite !zlen_cons, concat_length8 in Hb by done.
  rewrite (write_ff_spec m i b des n (zlen run) l); [by rewrite El|done| |done|done|done|lia].
  apply (f_equal zlen) in El. rewrite zlen_app, zlen_replicate, concat_length8 in El by done. lia.
Qed.

(** The bytes of a run, as far as they are in the source. *)
Lemma read_run pre run rest :
  padded = pre ++ concat run ++ rest → Forall (λ s, length s = 8%nat) run →
  zlen pre + 8 * zlen run ≤ zlen srcv →
  read_at (srcv ++ behind) (zlen pre) (8 * zlen run) = Ok (concat run).
Proof.
  intros E H8 Hl. unfold padded in E. rewrite app_assoc in E. symmetry in E.
  apply split_prefix in E as (e & -> & _); [|rewrite zlen_app, concat_length8 by done; lia].
  rewrite <- !app_assoc. apply read_at_part; [done|]. by rewrite concat_length8.
Qed.
(** A run of 256 segments, or any other that ends in the padded segment with at
    most two zeros, is still readable where the memory behind the source is zero. *)
Lemma read_run_behind pre run rest :
  padded = pre ++ concat run ++ rest → Forall (λ s, length s = 8%nat) run →
  pad ≤ 2 → 2040 < zlen srcv →
  read_at (srcv ++ behind) (zlen pre) (8 * zlen run) = Ok (concat run).
Proof.
  intros E H8 Hp Hl.
  assert (∃ rest', srcv ++ behind = padded ++ rest') as [rest' ->].
  { unfold padded. destruct (decide (pad = 0)) as [->|].
    - exists behind. by rewrite app_nil_r.
    - destruct Hbehind as [rest' ->]; [lia|done|]. exists rest'. by rewrite app_assoc. }
  rewrite E, <- !app_assoc. apply read_at_part; [done|]. by rewrite concat_length8.
Qed.

Lemma take_over_tail b i l j :
  (i ≤ length b)%nat →
  take (i + length l + j) (over b i l) = take i b ++ l ++ take j (drop (i + length l) b).
Proof.
  intros Hi. unfold over. rewrite app_assoc, (app_assoc (take i b) l (take j _)).
  rewrite take_app_ge by (rewrite length_app, length_take; lia). f_equal. f_equal.
  rewrite length_app, length_take. lia.
Qed.
Lemma take_second (b x y : list Z) a :
  take (a + length y) b = x ++ y → length x = a → take (length y) (drop a b) = y.
Proof. intros E Hx. rewrite take_drop_commute, E, <- Hx. apply drop_app_length. Qed.

Lemma padding_small s l n :
  s = l ++ replicate n 0 → length s = 8%nat → 6 ≤ zlen (nonzeros s) → (n ≤ 2)%nat.
Proof.
  intros -> Hs. unfold nonzeros. rewrite filter_app, (filter_none _ (replicate n 0)), app_nil_r.
  - pose proof (nonzeros_length l) as Hl. unfold nonzeros, zlen in *.
    rewrite length_app, length_replicate in Hs. lia.
  - apply Forall_replicate. by intros [].
Qed.

Lemma flushed_snoc run s : run ++ [s] ≠ [] ∧ flushed (run ++ [s]) = ff_block (run ++ [s]).
Proof. by destruct run. Qed.
Lemma flushed_cons run : run ≠ [] → flushed run = ff_block run.
Proof. by destruct run. Qed.

(** The segment ends the run, if there is one, and is written as a literal. *)
Lemma turn_literal p pre done run s segs :
  pk_inv p pre done run → padded = pre ++ concat run ++ s ++ concat segs →
  length s = 8%nat → Forall (λ s, length s = 8%nat) segs → ¬ in_run (zlen run) s →
  ∃ p', pack_turn srcv behind p (zlen pre + 8 * zlen run) = Ok p' ∧
    pk_inv p' (pre ++ concat run ++ s) (done ++ flushed run ++ literal s) [].
Proof.
  intros [In Ilt I8 Isz Ides Ibs Ibuf Idata Istart] E Hs Hsegs Hr.
  assert (zlen pre + 8 * zlen run = zlen (pre ++ concat run)) as Ei by (rewrite zlen_app, concat_length8; done).
  destruct (turn_seg (pre ++ concat run) s segs) as (l & Hl & El & Hx & Hpd); [by rewrite <- app_assoc|done|done|].
  unfold pack_turn. rewrite Ei, Hl, bind_Ok, El.
  pose proof (zlen_nonneg done). pose proof (zlen_nonneg (flushed run)). pose proof (zlen_nonneg run).
  destruct (pack_seg_spec s (pk_buffer p) (pk_size p) (pk_bufsz p) (ff_n p)) as (b1 & -> & Hb1 & Hbk & Hlit);
    [done|lia|lia|lia|]. rewrite In in *. rewrite (decide_False (P := in_run _ _)), bind_Ok by done.
  specialize (Hlit Hr). cbv beta iota zeta.
  assert (1 ≤ zlen (literal s) ≤ 8 ∧ (0 < zlen run → zlen (literal s) ≤ 6)) as [Hn Hn6].
  { unfold literal. rewrite zlen_cons. pose proof (nonzeros_length s). pose proof (zlen_nonneg (nonzeros s)).
    unfold in_run in Hr. assert (zlen s = 8) by (unfold zlen; lia). lia. }
  rewrite decide_False, decide_False by lia.
  assert (∀ p', pk_size p' = pk_size p + zlen (literal s) → pk_bufsz p' = pk_bufsz p - zlen (literal s) →
    ff_n p' = 0 → zlen (pk_buffer p') = L →
    (pk_size p' ≤ T → take (length (done ++ flushed run ++ literal s)) (pk_buffer p') = done ++ flushed run ++ literal s) →
    pk_inv p' (pre ++ concat run ++ s) (done ++ flushed run ++ literal s) []) as Hfin.
  { intros p' E1 E2 E3 E5 E6. split; [done|done|constructor| |done|lia|done|done|done].
    rewrite E1, !zlen_app. change (zlen (flushed [])) with 0. lia. }
  destruct (decide (0 < zlen run)) as [Hrun|Hrun].
  - assert (run ≠ []) as Hne by (intros ->; change (zlen (@nil (list Z))) with 0 in Hrun; lia).
    destruct (decide (0 ≤ pk_bufsz p - zlen (literal s))) as [Hfit|Hfit].
    + unfold flush_ff. destruct (Istart Hne) as [[-> Hp8]|(s0 & -> & _ & Ep)]; cycle 1.
      { exfalso. cbn [concat] in Hx. rewrite app_nil_r, Ep, zlen_padded in Hx. lia. }
      rewrite (write_ff_run _ _ _ _ _ (concat run) run); cycle 1.
      { rewrite Z.mul_comm. apply (read_run pre run (s ++ concat segs)); [done|done|lia]. }
      { replace (8 * zlen run - zlen run * 8) with 0 by lia. apply app_nil_r. }
      { done. }
      { lia. }
      { lia. }
      { rewrite Ides by done. lia. }
      { rewrite Ides, <- flushed_cons by done. lia. }
      rewrite bind_Ok. eexists. split; [done|]. apply Hfin; [done|done|done| |]; cbn [pk_size pk_buffer].
      * rewrite over_zlen; [lia|]. rewrite Ides, <- flushed_cons by done. unfold zlen in *. lia.
      * intros Hfit2. rewrite Ides, <- flushed_cons by done. unfold zlen at 1. rewrite Nat2Z.id.
        rewrite !length_app, Nat.add_assoc, take_over_tail by (unfold zlen in *; lia).
        rewrite take_second with (x := take (Z.to_nat (pk_size p)) (pk_buffer p)); cycle 1.
        { rewrite <- Hlit by lia. f_equal. rewrite Isz. unfold zlen. lia. }
        { rewrite length_take. unfold zlen in *. lia. }
        f_equal. assert (length done ≤ Z.to_nat (pk_size p))%nat as Hle by (unfold zlen in *; lia).
        rewrite <- (Idata ltac:(lia)) at 2. rewrite <- (min_l (length done) (Z.to_nat (pk_size p))) by done.
        rewrite <- !take_take, Hbk by lia. done.
    + rewrite bind_Ok. eexists. split; [done|]. apply Hfin; cbn [pk_size pk_buffer]; [done|done|done|lia|lia].
  - assert (run = []) as -> by (destruct run; [done|]; rewrite zlen_cons in *; pose proof (zlen_nonneg run); lia).
    eexists. split; [done|]. apply Hfin; [done|done|done|cbn; lia|]. cbn [flushed app pk_size pk_buffer]. intros Hfit.
    change (zlen (flushed [])) with 0 in Isz. rewrite length_app.
    rewrite <- (Idata ltac:(lia)) at 2. rewrite <- (Nat2Z.id (length done)). fold (zlen done).
    replace (zlen done) with (pk_size p) by lia. apply Hlit. lia.
Qed.

(** The buffer in front of a run survives the next segment. *)
Lemma keep_done (done b b1 : list Z) size :
  zlen done ≤ size → size ≤ zlen b →
  (size ≤ zlen b → take (Z.to_nat size) b1 = take (Z.to_nat size) b) →
  take (length done) b = done → take (length done) b1 = done.
Proof.
  intros H1 H2 Hb Hd. unfold zlen in *. rewrite <- Hd at 2.
  rewrite <- (min_l (length done) (Z.to_nat size)) by lia. by rewrite <- !take_take, Hb by lia.
Qed.

(** The segment joins the run or starts one. *)
Lemma turn_run p pre done run s segs :
  pk_inv p pre done run → padded = pre ++ concat run ++ s ++ concat segs →
  length s = 8%nat → Forall (λ s, length s = 8%nat) segs → in_run (zlen run) s →
  ∃ p', pack_turn srcv behind p (zlen pre + 8 * zlen run) = Ok p' ∧
    if decide (zlen run + 1 = 256) then
      pk_inv p' (pre ++ concat run ++ s) (done ++ flushed (run ++ [s])) []
    else pk_inv p' pre done (run ++ [s]).
Proof.
  intros [In Ilt I8 Isz Ides Ibs Ibuf Idata Istart] E Hs Hsegs Hr.
  assert (zlen pre + 8 * zlen run = zlen (pre ++ concat run)) as Ei by (rewrite zlen_app, concat_length8; done).
  destruct (turn_seg (pre ++ concat run) s segs) as (l & Hl & El & Hx & Hpd); [by rewrite <- app_assoc|done|done|].
  unfold pack_turn. rewrite Ei, Hl, bind_Ok, El. rewrite <- Ei in *.
  pose proof (zlen_nonneg done). pose proof (zlen_nonneg run). pose proof (zlen_nonneg pre).
  pose proof (zlen_flushed run I8) as Ef.
  destruct (pack_seg_spec s (pk_buffer p) (pk_size p) (pk_bufsz p) (ff_n p)) as (b1 & -> & Hb1 & Hbk & _);
    [done|case_decide; lia|lia|lia|]. rewrite In in *. rewrite (decide_True (P := in_run _ _)), bind_Ok by done.
  cbv beta iota zeta.
  assert (Forall (λ s, length s = 8%nat) (run ++ [s])) as I8' by (apply Forall_app; auto).
  pose proof (zlen_flushed (run ++ [s]) I8') as Ef'. rewrite decide_False, zlen_app in Ef' by apply flushed_snoc.
  change (zlen [s]) with 1 in Ef'.
  destruct (decide (0 < zlen run)) as [Hrun|Hrun].
  - assert (run ≠ []) as Hne by (intros ->; change (zlen (@nil (list Z))) with 0 in Hrun; lia).
    rewrite decide_False in Ef by done. rewrite decide_False, decide_True by lia.
    destruct (Istart Hne) as [[Es Hp8]|(s0 & -> & _ & Ep)]; cycle 1.
    { exfalso. apply (f_equal zlen) in Ep. rewrite zlen_padded, zlen_app in Ep. change (zlen [s0]) with 1 in *.
      apply Forall_inv in I8. unfold zlen in *. lia. }
    destruct (decide (zlen run + 1 = 256)) as [H256|H256].
    + assert (zlen (ff_block (run ++ [s])) = 2050) as Eb by (rewrite <- (proj2 (flushed_snoc run s)); lia).
      destruct (decide (0 ≤ pk_bufsz p - 8)) as [Hfit|Hfit].
      * unfold flush_ff. rewrite Es, (write_ff_run _ _ _ _ _ (concat (run ++ [s])) (run ++ [s])); cycle 1.
        { replace (256 * 8) with (8 * zlen (run ++ [s])) by (rewrite zlen_app; change (zlen [s]) with 1; lia).
          assert (padded = pre ++ concat (run ++ [s]) ++ concat segs) as E'
            by (rewrite concat_app; cbn; by rewrite app_nil_r, <- app_assoc).
          destruct (decide (pad ≤ 2)) as [Hp2|Hp2]; [apply (read_run_behind _ _ (concat segs)); [done|done|done|lia]|].
          apply (read_run _ _ (concat segs)); [done|done|]. rewrite zlen_app. change (zlen [s]) with 1.
          destruct Hpd as [?|[Epd _]]; [lia|]. symmetry in El. apply padding_small in El; [lia|done|].
          unfold in_run in Hr. lia. }
        { rewrite zlen_app. change (zlen [s]) with 1. replace (_ - _) with 0 by lia. apply app_nil_r. }
        { done. }
        { rewrite zlen_app. change (zlen [s]) with 1. lia. }
        { rewrite zlen_app. change (zlen [s]) with 1. lia. }
        { rewrite Ides by done. lia. }
        { rewrite Ides by done. lia. }
        rewrite bind_Ok. eexists. split; [done|]. rewrite Ides by done.
        assert (Z.to_nat (zlen done) = length done) as -> by (unfold zlen; lia).
        split; cbn [ff_n pk_size pk_bufsz pk_buffer]; [done|done|constructor| |done|lia| | |done].
        -- rewrite zlen_app. change (zlen (flushed [])) with 0. lia.
        -- rewrite over_zlen; [lia|]. unfold zlen in *. lia.
        -- intros _. rewrite (proj2 (flushed_snoc run s)), length_app, take_over by (unfold zlen in *; lia).
           f_equal. apply (keep_done done (pk_buffer p) b1 (pk_size p)); [lia|lia|done|]. apply Idata. lia.
      * rewrite bind_Ok. eexists. split; [done|].
        split; cbn [ff_n pk_size pk_bufsz pk_buffer]; [done|done|constructor| |done|lia|lia|lia|done].
        rewrite zlen_app. change (zlen (flushed [])) with 0. lia.
    + eexists. split; [done|].
      split; cbn [ff_n pk_size pk_bufsz pk_buffer ff_desstart ff_srcstart]; [|
        rewrite zlen_app; change (zlen [s]) with 1; lia|done|lia|intros _; by apply Ides|lia|lia| |intros _; left; done].
      * rewrite zlen_app. done.
      * intros Hfit. apply (keep_done done (pk_buffer p) b1 (pk_size p)); [lia|lia|done|]. apply Idata. lia.
  - assert (run = []) as -> by (destruct run; [done|]; rewrite zlen_cons in *; pose proof (zlen_nonneg run); lia).
    change (zlen (@nil (list Z))) with 0 in *. rewrite decide_True in Ef by done.
    rewrite decide_True by done. eexists. split; [done|]. rewrite (decide_False (P := 0 + 1 = 256)) by lia.
    split; cbn [ff_n pk_size pk_bufsz pk_buffer ff_desstart ff_srcstart app]; [done|done|done|
      cbn [app] in Ef'; lia|intros _; lia|lia|lia| |intros _].
    + intros Hfit. apply (keep_done done (pk_buffer p) b1 (pk_size p)); [lia|lia|done|]. apply Idata. lia.
    + case_decide as Hd; [right|left; split; [f_equal; lia|lia]]. exists s. split; [done|]. split; [done|].
      destruct Hpd as [?|[_ ->]]; [lia|]. cbn [concat app] in E. by rewrite app_nil_r in E.
Qed.

(** After the loop. *)
Lemma pack_end_spec p pre done run :
  pk_inv p pre done run → padded = pre ++ concat run →
  ∃ b, pack_end srcv behind p = Ok (zlen (done ++ flushed run), b) ∧ zlen b = L ∧
    (zlen (done ++ flushed run) ≤ T → take (length (done ++ flushed run)) b = done ++ flushed run).
Proof.
  intros [In Ilt I8 Isz Ides Ibs Ibuf Idata Istart] E. unfold pack_end.
  assert (zlen (done ++ flushed run) = pk_size p) as Es by (rewrite zlen_app; lia). rewrite Es, In.
  pose proof (zlen_nonneg done). pose proof (zlen_nonneg run). pose proof (zlen_nonneg pre).
  pose proof zlen_padded as Hp. rewrite E, zlen_app, concat_length8 in Hp by done.
  destruct (decide (0 ≤ pk_bufsz p)) as [Hb|Hb]; [|rewrite bind_Ok; exists (pk_buffer p); split; [done|split; [done|lia]]].
  destruct (decide (run = [])) as [->|Hne].
  { rewrite decide_False, decide_False, bind_Ok by done. exists (pk_buffer p). split; [done|]. split; [done|].
    cbn [flushed]. rewrite app_nil_r. auto. }
  assert (1 ≤ zlen run) as Hr1 by by apply zlen_pos.
  rewrite (flushed_cons run Hne) in *.
  assert (∀ m i n l, read_at m i n = Ok l → l ++ replicate (Z.to_nat (8 * zlen run - n)) 0 = concat run →
    8 * zlen run - 8 < n ≤ 8 * zlen run →
    ∃ b, (b ← write_ff m i (pk_buffer p) (zlen done) n; Ok (pk_size p, b)) = Ok (pk_size p, b) ∧ zlen b = L ∧
    (pk_size p ≤ T → take (length (done ++ ff_block run)) b = done ++ ff_block run)) as Hfl.
  { intros m i n l Hr Hc Hn. rewrite (write_ff_run m i _ _ n l run), bind_Ok by (done || lia).
    eexists. split; [done|]. split; [rewrite over_zlen; [done|]; unfold zlen in *; lia|]. intros _.
    assert (Z.to_nat (zlen done) = length done) as -> by (unfold zlen; lia).
    rewrite length_app, take_over by (unfold zlen in *; lia). f_equal. apply Idata. lia. }
  unfold flush_ff. rewrite (Ides Hne). destruct (Istart Hne) as [[-> Hp8]|(s & -> & -> & Ep)].
  - destruct (decide (zlen run = 1)) as [E1|E1].
    + apply (Hfl _ _ _ (concat run)); [|by rewrite E1; cbn; rewrite app_nil_r|lia].
      replace 8 with (8 * zlen run) at 1 by lia. apply (read_run pre run []); [by rewrite app_nil_r|done|lia].
    + rewrite decide_True by lia. unfold padded in E.
      symmetry in E. apply split_prefix in E as (e & Ec & Ee); [|lia].
      apply (Hfl _ _ _ e).
      * rewrite Ec, <- app_assoc. apply read_at_part; [done|]. rewrite zlen_app. lia.
      * rewrite Ee. do 2 f_equal. lia.
      * lia.
  - rewrite decide_True by done. apply Forall_inv in I8 as Hs8. apply (Hfl _ _ _ s).
    + rewrite <- (app_nil_r s) at 1. rewrite <- (app_nil_l (s ++ [])). apply read_at_part; [done|]. unfold zlen. lia.
    + cbn. by rewrite !app_nil_r.
    + change (zlen [s]) with 1. lia.
Qed.

(** The whole loop. *)
Lemma pack_loop_spec fuel p pre done run segs :
  pk_inv p pre done run → padded = pre ++ concat run ++ concat segs →
  Forall (λ s, length s = 8%nat) segs → (length segs ≤ fuel)%nat →
  ∃ b, (p' ← pack_loop srcv behind fuel p (zlen pre + 8 * zlen run); pack_end srcv behind p')
      = Ok (zlen (done ++ packed run segs), b) ∧ zlen b = L ∧
    (zlen (done ++ packed run segs) ≤ T →
     take (length (done ++ packed run segs)) b = done ++ packed run segs).
Proof.
  revert fuel p pre done run. induction segs as [|s segs IH]; intros fuel p pre done run I E Hsegs Hf.
  - cbn [concat packed] in *. rewrite app_nil_r in E. pose proof zlen_padded as Hp.
    rewrite E, zlen_app, concat_length8 in Hp by apply I.
    destruct fuel; cbn [pack_loop]; rewrite decide_False, bind_Ok by lia; by apply (pack_end_spec p pre).
  - apply Forall_cons in Hsegs as [Hs Hsegs]. destruct fuel as [|fuel]; [cbn in Hf; lia|]. cbn [length] in Hf.
    destruct (turn_seg (pre ++ concat run) s segs) as (_ & _ & _ & Hx & _); [by rewrite <- app_assoc|done|done|].
    rewrite zlen_app, concat_length8 in Hx by apply I.
    cbn [pack_loop packed concat] in *. rewrite decide_True by lia.
    pose proof (concat_length8 run (pi_8 _ _ _ _ I)) as Hc. assert (zlen s = 8) as Hs8 by (unfold zlen; lia).
    assert (zlen pre + 8 * zlen run + 8 = zlen (pre ++ concat run ++ s) + 8 * zlen (@nil (list Z))) as Hnext
      by (rewrite !zlen_app; change (zlen (@nil (list Z))) with 0; lia).
    assert (padded = (pre ++ concat run ++ s) ++ concat [] ++ concat segs) as E2
      by (by rewrite <- !app_assoc).
    destruct (decide (in_run (zlen run) s)) as [Hr|Hr].
    + destruct (turn_run p pre done run s segs I E Hs Hsegs Hr) as (p' & -> & I'). rewrite bind_Ok.
      destruct (decide (zlen run + 1 = 256)).
      * rewrite app_assoc, Hnext. apply IH; [done|done|done|lia].
      * replace (zlen pre + 8 * zlen run + 8) with (zlen pre + 8 * zlen (run ++ [s]))
          by (rewrite zlen_app; change (zlen [s]) with 1; lia).
        apply IH; [done| |done|lia]. rewrite concat_app. cbn [concat]. by rewrite app_nil_r, <- app_assoc.
    + destruct (turn_literal p pre done run s segs I E Hs Hsegs Hr) as (p' & -> & I'). rewrite bind_Ok.
      rewrite (app_assoc (flushed run)), app_assoc, Hnext. apply IH; [done|done|done|lia].
Qed.
End Packing.

(** The source cut into segments, the last one filled with zeros. *)
Definition padding_of (l : list Z) : Z := (- zlen l) `mod` 8.
Fixpoint chunks (n : nat) (l : list Z) : list (list Z) :=
  match n with O => [] | S n => take 8 l :: chunks n (drop 8 l) end.
Definition segments (l : list Z) : list (list Z) :=
  chunks (Z.to_nat ((zlen l + padding_of l) / 8)) (padded l (padding_of l)).

Lemma chunks_spec n l :
  length l = (8 * n)%nat → concat (chunks n l) = l ∧ Forall (λ s, length s = 8%nat) (chunks n l).
Proof.
  revert l. induction n as [|n IH]; intros l Hl; cbn [chunks concat].
  - by destruct l.
  - destruct (IH (drop 8 l)) as [-> H8]; [rewrite length_drop; lia|].
    split; [apply take_drop|]. constructor; [rewrite length_take; lia|done].
Qed.
Lemma padding_of_range l : 0 ≤ padding_of l < 8 ∧ 8 * ((zlen l + padding_of l) / 8) = zlen l + padding_of l.
Proof. unfold padding_of. split; Z.to_euclidean_division_equations; lia. Qed.
Lemma segments_spec l :
  concat (segments l) = padded l (padding_of l) ∧ Forall (λ s, length s = 8%nat) (segments l) ∧
  8 * zlen (segments l) = zlen l + padding_of l.
Proof.
  destruct (padding_of_range l) as [Hp E]. pose proof (zlen_nonneg l).
  pose proof (zlen_padded l (padding_of l) Hp) as Hz.
  destruct (chunks_spec (Z.to_nat ((zlen l + padding_of l) / 8)) (padded l (padding_of l))) as [Hc H8].
  { unfold zlen in *. lia. }
  fold (segments l) in *. split; [done|]. split; [done|]. rewrite <- concat_length8, Hc by done. done.
Qed.

(** The memory a run that ends in the padded segment is copied from. *)
Definition zeros_behind (srcv behind : list Z) : Prop :=
  1 ≤ padding_of srcv ≤ 2 → 2040 < zlen srcv →
  ∃ rest, behind = replicate (Z.to_nat (padding_of srcv)) 0 ++ rest.

Lemma sproto_pack_spec srcv behind buffer bufsz :
  zeros_behind srcv behind → 0 ≤ bufsz ≤ zlen buffer →
  let out := packed [] (segments srcv) in
  ∃ b, sproto_pack srcv behind buffer bufsz = Ok (zlen out, b) ∧ zlen b = zlen buffer ∧
    (zlen out ≤ bufsz → take (length out) b = out).
Proof.
  intros Hz Hb out. destruct (segments_spec srcv) as (Hc & H8 & Hn). destruct (padding_of_range srcv) as [Hp _].
  unfold sproto_pack.
  destruct (pack_loop_spec srcv behind (padding_of srcv) (zlen buffer) bufsz Hp Hb Hz (length srcv)
    (mk_packer (InSource 0) 0 0 0 bufsz buffer) [] [] [] (segments srcv)) as (b & E & Hl & Ht); try done.
  - split; cbn; try done. lia.
  - unfold zlen in *. destruct srcv; cbn in *; lia.
  - exists b. done.
Qed.

(** ** The packed size *)

(** What a sparse last segment saves. *)
Definition slack (segs : list (list Z)) : Z :=
  match last segs with
  | Some s => if decide (zlen (nonzeros s) ≤ 5) then 7 - zlen (nonzeros s) else 0
  | None => 0
  end.

Lemma packed_length run segs :
  Forall (λ s, length s = 8%nat) run → Forall (λ s, length s = 8%nat) segs → zlen run < 256 →
  zlen (packed run segs)
    ≤ 8 * (zlen run + zlen segs) - slack segs + 2 * ((zlen run + zlen segs + 255) / 256).
Proof.
  intros Hr Hs. revert run Hr. induction Hs as [|s segs Hs Hsegs IH]; intros run Hr Hlt; cbn [packed].
  - rewrite zlen_flushed by done. change (zlen (@nil (list Z))) with 0. unfold slack. cbn [last].
    pose proof (zlen_nonneg run). destruct (decide (run = [])) as [->|Hne].
    + change (zlen (@nil (list Z))) with 0. done.
    + assert (1 ≤ zlen run) by by apply zlen_pos.
      Z.to_euclidean_division_equations; lia.
  - rewrite zlen_cons. pose proof (zlen_nonneg run). pose proof (zlen_nonneg segs).
    assert (zlen s = 8) as Hs8 by (unfold zlen; lia). pose proof (nonzeros_length s). pose proof (zlen_nonneg (nonzeros s)).
    assert (∀ run, Forall (λ s, length s = 8%nat) (run ++ [s]) ↔ Forall (λ s, length s = 8%nat) run) as Hsn.
    { intros. rewrite Forall_app, Forall_singleton. tauto. }
    assert (∀ r, zlen (r ++ [s]) = zlen r + 1) as Hz by (intros; rewrite zlen_app; done).
    destruct (decide (in_run (zlen run) s)) as [Hin|Hin].
    + assert (slack (s :: segs) = slack segs) as ->.
      { unfold slack. destruct segs; [|done]. cbn. rewrite decide_False; [done|]. unfold in_run in Hin. lia. }
      destruct (decide (zlen run + 1 = 256)) as [E|E].
      * rewrite zlen_app, zlen_flushed, decide_False, Hz by (by apply Hsn || apply flushed_snoc).
        specialize (IH [] ltac:(constructor) ltac:(done)). change (zlen (@nil (list Z))) with 0 in IH.
        Z.to_euclidean_division_equations; lia.
      * specialize (IH (run ++ [s])). rewrite Hz in IH. rewrite Hsn in IH. specialize (IH Hr ltac:(lia)).
        replace (zlen run + (1 + zlen segs)) with (zlen run + 1 + zlen segs) by lia. done.
    + rewrite !zlen_app, zlen_flushed by done. unfold literal. rewrite zlen_cons.
      specialize (IH [] ltac:(constructor) ltac:(done)). change (zlen (@nil (list Z))) with 0 in IH.
      assert (segs = [] → slack (s :: segs) ≤ 7 - zlen (nonzeros s)) as Hsl1.
      { intros ->. unfold slack. cbn. case_decide; unfold in_run in Hin; lia. }
      assert (segs ≠ [] → slack (s :: segs) = slack segs) as Hsl2 by (by destruct segs).
      destruct (decide (segs = [])) as [->|Hne].
      * specialize (Hsl1 eq_refl). unfold in_run in Hin. change (zlen (@nil (list Z))) with 0 in *.
        change (slack []) with 0 in *. change (zlen (packed [] [])) with 0.
        case_decide as Hd; [subst; change (zlen (@nil (list Z))) with 0 in *; Z.to_euclidean_division_equations; lia|].
        assert (1 ≤ zlen run) by by apply zlen_pos.
        Z.to_euclidean_division_equations; lia.
      * rewrite Hsl2 by done. unfold in_run in Hin.
        case_decide as Hd; [subst; change (zlen (@nil (list Z))) with 0 in *; Z.to_euclidean_division_equations; lia|].
        assert (1 ≤ zlen run) by by apply zlen_pos.
        Z.to_euclidean_division_equations; lia.
Qed.

(** ** Unpacking inverts [packed] *)

Lemma bit_test header i : 0 ≤ i → Z.land (Z.shiftr header i) 1 ≠ 0 ↔ Z.testbit header i = true.
Proof.
  intros Hi. change 1 with (2 ^ 1 - 1). rewrite land_ones_mod, Z.shiftr_div_pow2 by lia.
  change (2 ^ 1) with 2. rewrite <- Z.testbit_spec' by done. destruct (Z.testbit header i); cbn; naive_solver lia.
Qed.
Lemma rd_part (x y : list Z) c i : i = zlen x → rd (x ++ c :: y) i = Ok c.
Proof.
  intros ->. apply rd_lookup; [apply zlen_nonneg|]. unfold zlen. rewrite Nat2Z.id. by apply list_lookup_middle.
Qed.

(** Space in the buffer behind [pos]. *)
Definition space (b : list Z) (pos bufsz : Z) : Prop := 0 ≤ pos ∧ (0 < bufsz → pos + bufsz ≤ zlen b).

(** The bytes of a literal. *)
Lemma unpack_bits_spec s i header x y srcsz pos bufsz b :
  0 ≤ i → (∀ k : nat, (k < length s)%nat → Z.testbit header (i + Z.of_nat k) = bool_decide (default 0 (s !! k) ≠ 0)) →
  zlen (nonzeros s) ≤ srcsz → space b pos bufsz →
  let w := take (Z.to_nat bufsz) s in
  unpack_bits (length s) i (x ++ nonzeros s ++ y) header (zlen x) srcsz pos bufsz b
    = Ok (Some (zlen x + zlen (nonzeros s), srcsz - zlen (nonzeros s), pos + zlen w, bufsz - zlen w,
        over b (Z.to_nat pos) w)).
Proof.
  revert i x srcsz pos bufsz b. induction s as [|c s IH]; intros i x srcsz pos bufsz b Hi Hbit Hsz [Hp Hsp].
  - cbn [unpack_bits length]. rewrite take_nil, over_nil. change (zlen (nonzeros [])) with 0.
    change (zlen (@nil Z)) with 0. by rewrite !Z.add_0_r, !Z.sub_0_r.
  - cbn [unpack_bits length]. pose proof (Hbit 0%nat ltac:(cbn; lia)) as Hb0. rewrite Z.add_0_r in Hb0. cbn in Hb0.
    assert (∀ k : nat, (k < length s)%nat →
      Z.testbit header (i + 1 + Z.of_nat k) = bool_decide (default 0 (s !! k) ≠ 0)) as Hbit'.
    { intros k Hk. replace (i + 1 + Z.of_nat k) with (i + Z.of_nat (S k)) by lia. apply (Hbit (S k)). cbn. lia. }
    assert (∀ c, 0 < bufsz → wr b pos c = Ok (over b (Z.to_nat pos) [c])) as Hwr by (intros; apply wr_over; lia).
    assert (∀ c, 0 < bufsz → space (over b (Z.to_nat pos) [c]) (pos + 1) (bufsz - 1)) as Hsp'.
    { intros ? ?. split; [lia|]. rewrite over_zlen by (cbn; unfold zlen in *; lia). lia. }
    assert (∀ c, 0 < bufsz → over (over b (Z.to_nat pos) [c]) (Z.to_nat (pos + 1)) (take (Z.to_nat (bufsz - 1)) s)
      = over b (Z.to_nat pos) (take (Z.to_nat bufsz) (c :: s))) as Hov.
    { intros c' ?. replace (Z.to_nat (pos + 1)) with (Z.to_nat pos + length [c'])%nat by (cbn; lia).
      rewrite over_app by (cbn; unfold zlen in *; lia). replace (Z.to_nat bufsz) with (S (Z.to_nat (bufsz - 1))) by lia. done. }
    assert (0 < bufsz → zlen (take (Z.to_nat bufsz) (c :: s)) = 1 + zlen (take (Z.to_nat (bufsz - 1)) s)) as Hw.
    { intros. replace (Z.to_nat bufsz) with (S (Z.to_nat (bufsz - 1))) by lia. cbn [firstn]. apply zlen_cons. }
    assert (¬ 0 < bufsz → ∀ l : list Z, take (Z.to_nat bufsz) l = []) as Hw0.
    { intros ? l. by replace (Z.to_nat bufsz) with 0%nat by lia. }
    unfold nonzeros in *. rewrite filter_cons in *. destruct (decide (c ≠ 0)) as [Hc|Hc].
    + rewrite zlen_cons in *. pose proof (zlen_nonneg (filter (λ c, c ≠ 0) s)).
      rewrite decide_True by (apply bit_test; [done|]; by rewrite Hb0; apply bool_decide_eq_true_2).
      rewrite decide_False by lia.
      assert (x ++ (c :: filter (λ c, c ≠ 0) s) ++ y = (x ++ [c]) ++ filter (λ c, c ≠ 0) s ++ y) as Em by (by rewrite <- app_assoc).
      assert (zlen x + 1 = zlen (x ++ [c])) as Ex by by rewrite zlen_app.
      destruct (decide (0 < bufsz)) as [Hd|Hd].
      * cbn [app]. rewrite rd_part, bind_Ok, Hwr, bind_Ok by done. cbn [app] in Em. rewrite Em, Ex, IH by (auto || lia).
        rewrite Hov, Hw by done. rewrite <- Ex. apply f_equal, f_equal. rewrite ?pair_eq. split_and?; (done || lia).
      * rewrite Em, Ex, IH, !Hw0 by (done || lia). change (zlen (@nil Z)) with 0. rewrite <- Ex. apply f_equal, f_equal.
        rewrite ?pair_eq. split_and?; (done || lia).
    + rewrite decide_False by (rewrite bit_test, Hb0 by done; by rewrite bool_decide_eq_false_2).
      assert (c = 0) as -> by lia. destruct (decide (0 < bufsz)) as [Hd|Hd].
      * rewrite Hwr, bind_Ok, IH, Hov, Hw by (auto || lia). apply f_equal, f_equal. rewrite ?pair_eq. split_and?; (done || lia).
      * rewrite IH, !Hw0 by (done || lia). done.
Qed.

(** One turn over a run, and one over a literal. *)
Lemma unpack_ff f run x y z pos bufsz size b :
  run ≠ [] → zlen run ≤ 256 → Forall (λ s, length s = 8%nat) run → 0 ≤ z → space b pos bufsz →
  let n := 8 * zlen run in
  unpack_loop (S f) (x ++ ff_block run ++ y) (zlen x) (zlen (ff_block run) + z) pos bufsz size b
    = unpack_loop f (x ++ ff_block run ++ y) (zlen x + zlen (ff_block run)) z (pos + n) (bufsz - n) (size + n)
        (if decide (n ≤ bufsz) then over b (Z.to_nat pos) (concat run) else b).
Proof.
  intros Hne Hk H8 Hz [Hp Hsp] n.
  assert (1 ≤ zlen run) as Hr1 by by apply zlen_pos.
  pose proof (concat_length8 run H8) as Hc. unfold ff_block. rewrite !zlen_cons, Hc. cbn [unpack_loop app].
  rewrite decide_True by lia. rewrite (rd_part x _ 255 (zlen x)), bind_Ok by done. cbv zeta.
  rewrite (decide_True (P := 255 = 255)) by done.
  rewrite (decide_False (P := 1 + (1 + 8 * zlen run) + z - 1 < 0)) by lia.
  assert (rd (x ++ 255 :: (zlen run - 1) :: concat run ++ y) (zlen x + 1) = Ok (zlen run - 1)) as ->.
  { change (x ++ 255 :: (zlen run - 1) :: concat run ++ y) with (x ++ [255] ++ (zlen run - 1) :: concat run ++ y).
    rewrite app_assoc. apply rd_part. by rewrite zlen_app. }
  rewrite bind_Ok. replace ((zlen run - 1 + 1) * 8) with n by lia.
  rewrite (decide_False (P := _ < n + 1)) by lia.
  assert (read_at (x ++ 255 :: (zlen run - 1) :: concat run ++ y) (zlen x + 1 + 1) n = Ok (concat run)) as ->.
  { change (x ++ 255 :: (zlen run - 1) :: concat run ++ y) with (x ++ [255; zlen run - 1] ++ concat run ++ y).
    rewrite app_assoc. apply read_at_part; [|lia]. rewrite zlen_app. change (zlen [255; zlen run - 1]) with 2. lia. }
  assert ((if decide (n ≤ bufsz) then l ← Ok (concat run); write_at b pos l else Ok b)
    = Ok (if decide (n ≤ bufsz) then over b (Z.to_nat pos) (concat run) else b)) as ->.
  { case_decide; [|done]. rewrite bind_Ok. apply write_at_over; lia. }
  rewrite bind_Ok. f_equal; lia.
Qed.

Lemma unpack_literal f s x y z pos bufsz size b :
  length s = 8%nat → zlen (nonzeros s) ≠ 8 → 0 ≤ z → space b pos bufsz →
  let w := take (Z.to_nat bufsz) s in
  unpack_loop (S f) (x ++ literal s ++ y) (zlen x) (zlen (literal s) + z) pos bufsz size b
    = unpack_loop f (x ++ literal s ++ y) (zlen x + zlen (literal s)) z (pos + zlen w) (bufsz - zlen w) (size + 8)
        (over b (Z.to_nat pos) w).
Proof.
  intros Hs Hn Hz Hsp w. unfold literal. rewrite zlen_cons. pose proof (zlen_nonneg (nonzeros s)).
  cbn [unpack_loop app]. rewrite decide_True by lia. rewrite (rd_part x _ _ (zlen x)), bind_Ok by done.
  rewrite (decide_False (P := seg_header 0 s = 255)) by (by apply header_not_ff).
  change (x ++ seg_header 0 s :: nonzeros s ++ y) with (x ++ [seg_header 0 s] ++ nonzeros s ++ y).
  rewrite app_assoc. replace (zlen x + 1) with (zlen (x ++ [seg_header 0 s])) by by rewrite zlen_app.
  rewrite <- Hs at 1. rewrite unpack_bits_spec, bind_Ok; [|lia| |lia|done].
  - fold w. rewrite zlen_app. change (zlen [seg_header 0 s]) with 1. f_equal; lia.
  - intros k _. apply seg_header_bit. lia.
Qed.

Lemma space_over b pos bufsz w n :
  space b pos bufsz → (length w ≤ Z.to_nat bufsz)%nat → zlen w ≤ n → 
  zlen (over b (Z.to_nat pos) w) = zlen b ∧ space (over b (Z.to_nat pos) w) (pos + zlen w) (bufsz - zlen w).
Proof.
  intros [Hp Hs] Hw Hn. pose proof (zlen_nonneg w).
  assert (zlen (over b (Z.to_nat pos) w) = zlen b) as E.
  { destruct w as [|c w]; [by rewrite over_nil|]. apply over_zlen. cbn [length] in *. unfold zlen in *. lia. }
  split; [done|]. split; [lia|]. rewrite E. intros. lia.
Qed.

(** Unpacking a packed stream gives the segments, the open run first. *)
Definition unpacked (fuel : nat) (x s y : list Z) (segs : list (list Z)) : Prop :=
  ∀ pos bufsz size b, space b pos bufsz →
  ∃ b', unpack_loop fuel (x ++ s ++ y) (zlen x) (zlen s) pos bufsz size b = Ok (size + 8 * zlen segs, b') ∧
    zlen b' = zlen b ∧
    (8 * zlen segs ≤ bufsz →
     take (Z.to_nat (pos + 8 * zlen segs)) b' = take (Z.to_nat pos) b ++ concat segs).

Lemma unpacked_nil fuel x y : unpacked fuel x [] y [].
Proof.
  intros pos bufsz size b Hs. exists b. destruct fuel; cbn [unpack_loop]; rewrite decide_False by done;
    change (zlen (@nil (list Z))) with 0; rewrite !Z.add_0_r; (split; [done|split; [done|]]); intros _;
    cbn; by rewrite app_nil_r.
Qed.
Lemma unpacked_ff f run x s y segs :
  run ≠ [] → zlen run ≤ 256 → Forall (λ s, length s = 8%nat) run →
  unpacked f (x ++ ff_block run) s y segs → unpacked (S f) x (ff_block run ++ s) y (run ++ segs).
Proof.
  intros Hne Hk H8 IH pos bufsz size b Hs. pose proof (zlen_nonneg s). pose proof (concat_length8 run H8) as Hc.
  assert (1 ≤ zlen run) as Hr1 by by apply zlen_pos.
  rewrite !zlen_app, <- app_assoc, unpack_ff by done. rewrite <- zlen_app, app_assoc.
  pose proof (zlen_nonneg run). pose proof (zlen_nonneg segs). destruct Hs as [Hp Hs]. case_decide as Hd.
  - destruct (space_over b pos bufsz (concat run) (8 * zlen run)) as [E Hs']; [done|unfold zlen in *; lia|lia|].
    rewrite Hc in Hs'. destruct (IH _ _ (size + 8 * zlen run) _ Hs') as (b' & -> & El & Ht).
    exists b'. split; [do 2 f_equal; lia|]. split; [by rewrite El, E|]. intros Hfit.
    replace (pos + 8 * (zlen run + zlen segs)) with (pos + 8 * zlen run + 8 * zlen segs) by lia.
    rewrite Ht, concat_app, app_assoc by lia. f_equal.
    replace (Z.to_nat (pos + 8 * zlen run)) with (Z.to_nat pos + length (concat run))%nat by (unfold zlen in *; lia).
    apply take_over. unfold zlen in *. lia.
  - destruct (IH (pos + 8 * zlen run) (bufsz - 8 * zlen run) (size + 8 * zlen run) b) as (b' & -> & El & Ht).
    { split; [lia|]. lia. }
    exists b'. split; [do 2 f_equal; lia|]. split; [done|]. lia.
Qed.
Lemma unpacked_literal f s0 x s y segs :
  length s0 = 8%nat → zlen (nonzeros s0) ≠ 8 →
  unpacked f (x ++ literal s0) s y segs → unpacked (S f) x (literal s0 ++ s) y (s0 :: segs).
Proof.
  intros H8 Hn IH pos bufsz size b Hs. pose proof (zlen_nonneg s). assert (zlen s0 = 8) as Hc by (unfold zlen; lia).
  rewrite !zlen_app, <- app_assoc, unpack_literal by done. rewrite <- zlen_app, app_assoc. set (w := take _ s0).
  pose proof (zlen_nonneg segs). rewrite zlen_cons.
  destruct (space_over b pos bufsz w (zlen w)) as [E Hs']; [done|unfold w; rewrite length_take; lia|lia|].
  destruct (IH _ _ (size + 8) _ Hs') as (b' & -> & El & Ht).
  exists b'. split; [do 2 f_equal; lia|]. split; [by rewrite El, E|]. intros Hfit.
  assert (w = s0) as Ew by (unfold w; apply take_ge; lia). rewrite Ew, Hc in *.
  replace (pos + 8 * (1 + zlen segs)) with (pos + 8 + 8 * zlen segs) by lia.
  cbn [concat]. rewrite Ht, app_assoc by lia. f_equal. destruct Hs as [Hp Hs].
  replace (Z.to_nat (pos + 8)) with (Z.to_nat pos + length s0)%nat by lia. apply take_over. unfold zlen in *. lia.
Qed.

Lemma unpacked_packed run segs x y fuel :
  Forall (λ s, length s = 8%nat) run → Forall (λ s, length s = 8%nat) segs → zlen run < 256 →
  (length (packed run segs) ≤ fuel)%nat → unpacked fuel x (packed run segs) y (run ++ segs).
Proof.
  intros Hr Hsegs. revert run Hr x fuel.
  assert (∀ run x s y segs fuel, Forall (λ s, length s = 8%nat) run → zlen run ≤ 256 →
    (length (flushed run ++ s) ≤ fuel)%nat →
    (∀ x f, (length s ≤ f)%nat → unpacked f x s y segs) → unpacked fuel x (flushed run ++ s) y (run ++ segs)) as Hfl.
  { clear. intros run x s y segs fuel Hr Hlt Hf IH. destruct run as [|s0 run]; [by apply IH|].
    cbn [flushed] in *. destruct fuel as [|fuel]; [cbn in Hf; lia|].
    apply unpacked_ff; [done|done|done|]. apply IH. rewrite length_app in Hf. unfold ff_block in Hf. cbn [length] in Hf. lia. }
  induction Hsegs as [|s segs Hs Hsegs IH]; intros run Hr x fuel Hlt Hf; cbn [packed] in *.
  - rewrite <- (app_nil_r (flushed run)) in *. apply Hfl; [done|lia|done|]. intros. apply unpacked_nil.
  - assert (zlen (run ++ [s]) = zlen run + 1) as Hz by (rewrite zlen_app; done).
    destruct (decide (in_run (zlen run) s)) as [Hin|Hin].
    + rewrite (cons_middle s run segs), app_assoc. destruct (decide (zlen run + 1 = 256)).
      * apply Hfl; [by apply Forall_app; auto|lia|done|]. intros x' f Hf'. by apply (IH []).
      * apply IH; [by apply Forall_app; auto|lia|done].
    + apply Hfl; [done|lia|done|]. intros x' f Hf'. destruct f as [|f]; [cbn in Hf'; lia|].
      apply unpacked_literal; [done|unfold in_run in Hin; tauto|]. apply (IH []); [constructor|done|].
      rewrite length_app in Hf'. cbn [literal length] in Hf'. lia.
Qed.

(** ** The Lua functions *)

Lemma double_until_spec fuel osz nsz :
  1 ≤ osz < nsz → nsz ≤ 2 ^ 23 → nsz ≤ osz * 2 ^ (Z.of_nat fuel + 1) →
  ∃ r, double_until fuel osz nsz = Ok r ∧ nsz ≤ r < 2 * nsz.
Proof.
  revert osz. induction fuel as [|fuel IH]; intros osz Ho Hn Hf; cbn [double_until];
    rewrite c_int_Ok, bind_Ok by (unfold INT_MIN, INT_MAX; lia).
  - cbn in Hf. rewrite decide_False by lia. eexists. split; [done|]. lia.
  - case_decide as Hd; [|eexists; split; [done|]; lia]. apply IH; [lia|done|].
    rewrite Nat2Z.inj_succ, <- Z.add_1_l, <- Z.add_assoc, Z.pow_add_r in Hf by lia. lia.
Qed.
Lemma expand_buffer_spec osz nsz :
  1 ≤ osz < nsz → nsz ≤ 2 ^ 23 → ∃ b, expand_buffer osz nsz = Ok b ∧ nsz ≤ zlen b.
Proof.
  intros Ho Hn. unfold expand_buffer. destruct (double_until_spec 32 osz nsz Ho Hn) as (r & -> & Hr).
  { change (2 ^ (Z.of_nat 32 + 1)) with 8589934592. lia. }
  rewrite bind_Ok, decide_False by (unfold ENCODE_MAXSIZE; lia). eexists. split; [done|].
  rewrite zlen_replicate. lia.
Qed.

Lemma read_front b out : take (length out) b = out → read_at b 0 (zlen out) = Ok out.
Proof.
  intros E. rewrite <- (take_drop (length out) b), E. by apply (read_at_part []).
Qed.

(** The bound [lpack] reserves. *)
Lemma packed_fits l : zlen (packed [] (segments l)) ≤ maxsz (zlen l).
Proof.
  destruct (segments_spec l) as (Hc & H8 & Hn). destruct (padding_of_range l) as [Hp _].
  pose proof (packed_length [] (segments l) ltac:(constructor) H8 ltac:(done)) as Hb.
  change (zlen (@nil (list Z))) with 0 in Hb. pose proof (zlen_nonneg l).
  assert (padding_of l - 2 ≤ slack (segments l)) as Hs; cycle 1.
  { unfold maxsz. Z.to_euclidean_division_equations; lia. }
  assert (0 ≤ slack (segments l)) as Hs0.
  { unfold slack. destruct (last (segments l)) as [s|]; [|done]. case_decide; lia. }
  destruct (decide (padding_of l ≤ 2)) as [?|Hbig]; [lia|].
  destruct (segments l) as [|s1 segs1] eqn:Eq using rev_ind; [change (zlen (@nil (list Z))) with 0 in Hn; lia|].
  unfold slack. rewrite last_snoc. apply Forall_app in H8 as [H81 H8s]. apply Forall_inv in H8s. cbv beta in H8s.
  rewrite concat_app in Hc. cbn [concat] in Hc. rewrite app_nil_r in Hc. unfold padded in Hc.
  rewrite zlen_app in Hn. change (zlen [s1]) with 1 in Hn. pose proof (concat_length8 segs1 H81).
  apply split_prefix in Hc as (e & _ & ->); [|lia].
  assert (zlen (nonzeros (e ++ replicate (Z.to_nat (padding_of l)) 0)) ≤ 8 - padding_of l) as Hk.
  { unfold nonzeros. rewrite filter_app, (filter_none _ (replicate _ 0)), app_nil_r.
    - pose proof (nonzeros_length e). rewrite length_app, length_replicate in H8s. unfold nonzeros, zlen in *. lia.
    - apply Forall_replicate. by intros []. }
  rewrite decide_True by lia. lia.
Qed.

(** C28: 0-packing is lossless. For a source of at most 4 MiB, [pack] succeeds within
    the space it reserves (two bytes per 2 KiB and two more), and [unpack] of the
    result, whatever memory follows it and whatever buffers were kept from earlier
    calls, returns the source filled with zeros to a multiple of eight bytes. The
    only demand is on sources of more than 2040 bytes whose length is 6 or 7 modulo
    8: the memory behind them must hold zeros, because a run of 256 segments that
    ends in the padded one is copied from there. *)
Theorem sproto_pack_roundtrip buffer behind up behind' up' :
  zeros_behind buffer behind → zlen buffer ≤ 2 ^ 22 →
  ENCODE_BUFFERSIZE ≤ zlen up → ENCODE_BUFFERSIZE ≤ zlen up' →
  ∃ p up1 up2, lpack_sproto buffer behind up = Ok (p, up1) ∧ zlen p ≤ maxsz (zlen buffer) ∧
    lunpack_sproto p behind' up' = Ok (buffer ++ replicate (Z.to_nat (padding_of buffer)) 0, up2).
Proof.
  intros Hz Hl Hu Hu'. unfold ENCODE_BUFFERSIZE in *. pose proof (packed_fits buffer) as Hfit.
  destruct (segments_spec buffer) as (Hc & H8 & Hn). destruct (padding_of_range buffer) as [Hp _].
  pose proof (zlen_nonneg buffer). set (out := packed [] (segments buffer)) in *.
  assert (maxsz (zlen buffer) ≤ 2 ^ 23 ∧ zlen buffer ≤ maxsz (zlen buffer)) as [Hm Hm0]
    by (unfold maxsz; Z.to_euclidean_division_equations; lia).
  assert (∃ o, (if decide (zlen up < maxsz (zlen buffer)) then expand_buffer (zlen up) (maxsz (zlen buffer)) else Ok up)
    = Ok o ∧ maxsz (zlen buffer) ≤ zlen o) as (o & Eo & Ho).
  { case_decide; [|exists up; split; [done|lia]]. apply expand_buffer_spec; lia. }
  unfold lpack_sproto. rewrite Eo, bind_Ok, swrap_small by lia.
  destruct (sproto_pack_spec buffer behind o (maxsz (zlen buffer)) Hz ltac:(lia)) as (b & -> & Hb & Ht).
  fold out in Ht |- *. rewrite bind_Ok. cbn [fst snd]. pose proof (zlen_nonneg out).
  rewrite uwrap_small, decide_False by lia. rewrite (read_front b out) by (by apply Ht). rewrite bind_Ok.
  exists out, b. set (src := buffer ++ _).
  assert (∀ o n, 0 ≤ n ≤ zlen o → ∃ b', sproto_unpack out behind' o n = Ok (8 * zlen (segments buffer), b') ∧
    zlen b' = zlen o ∧ (8 * zlen (segments buffer) ≤ n → read_at b' 0 (8 * zlen (segments buffer)) = Ok src)) as Hun.
  { intros o' n Ho'. destruct (unpacked_packed [] (segments buffer) [] behind' (length out)
      ltac:(constructor) H8 ltac:(done) ltac:(done) 0 n 0 o') as (b' & E & El & Htk); [split; lia|].
    exists b'. split; [exact E|]. split; [done|]. intros Hle. specialize (Htk Hle). cbn [app] in Htk. rewrite Hc in Htk.
    change (take (Z.to_nat 0) o') with (@nil Z) in Htk. rewrite Z.add_0_l in Htk. cbn [app] in Htk.
    change (padded buffer (padding_of buffer)) with src in Htk. assert (8 * zlen (segments buffer) = zlen src) as Es
      by (unfold src; rewrite zlen_app, zlen_replicate; lia).
    rewrite Es in *. apply read_front. rewrite <- Htk at 2. f_equal. unfold zlen. lia. }
  unfold lunpack_sproto. destruct (Hun up' (zlen up')) as (b1 & -> & Hb1 & Hr1); [lia|]. rewrite bind_Ok. cbn [fst snd].
  rewrite decide_False by lia. destruct (decide (zlen up' < 8 * zlen (segments buffer))) as [Hbig|Hbig].
  - destruct (expand_buffer_spec (zlen up') (8 * zlen (segments buffer))) as (o2 & -> & Ho2); [lia|lia|].
    rewrite bind_Ok. destruct (Hun o2 (8 * zlen (segments buffer))) as (b2 & -> & Hb2 & Hr2); [lia|].
    rewrite bind_Ok. cbn [fst snd]. rewrite decide_False, bind_Ok by lia. cbn [fst snd].
    rewrite Hr2, bind_Ok by lia. by exists b2.
  - rewrite bind_Ok. cbn [fst snd]. rewrite Hr1, bind_Ok by lia. by exists b1.
Qed.

(** ** Unpacking any stream *)

Lemma unpack_bits_total n i m header src srcsz pos bufsz b len :
  src + srcsz = len → 0 ≤ src → len < zlen m → -1 ≤ srcsz → space b pos bufsz →
  ∃ r, unpack_bits n i m header src srcsz pos bufsz b = Ok r ∧
    match r with
    | None => True
    | Some (src', srcsz', pos', bufsz', b') => src' + srcsz' = len ∧ src ≤ src' ∧ -1 ≤ srcsz' ∧
        space b' pos' bufsz' ∧ zlen b' = zlen b
    end.
Proof.
  revert i src srcsz pos bufsz b. induction n as [|n IH]; intros i src srcsz pos bufsz b Hl Hs Hm Hz [Hp Hsp]; cbn [unpack_bits].
  { eexists. split; [done|]. cbn. done. }
  assert (∀ c, 0 < bufsz → wr b pos c = Ok (over b (Z.to_nat pos) [c]) ∧ zlen (over b (Z.to_nat pos) [c]) = zlen b ∧
    space (over b (Z.to_nat pos) [c]) (pos + 1) (bufsz - 1)) as Hw.
  { intros c Hb. rewrite wr_over by lia. split; [done|].
    destruct (space_over b pos bufsz [c] 1) as [E Hs']; [done|cbn; lia|done|]. done. }
  destruct (decide (Z.land _ 1 ≠ 0)).
  - destruct (decide (srcsz < 0)); [by eexists|]. destruct (decide (0 < bufsz)) as [Hb|Hb].
    + destruct (rd_Ok m src) as [c ->]; [lia|]. rewrite bind_Ok. destruct (Hw c Hb) as (-> & El & Hs'). rewrite bind_Ok.
      destruct (IH (i + 1) (src + 1) (srcsz - 1) _ _ _ ltac:(lia) ltac:(lia) Hm ltac:(lia) Hs') as (r & -> & Hr).
      eexists. split; [done|]. destruct r as [[[[[? ?] ?] ?] ?]|]; [|done]. naive_solver lia.
    + destruct (IH (i + 1) (src + 1) (srcsz - 1) pos bufsz b ltac:(lia) ltac:(lia) Hm ltac:(lia)) as (r & -> & Hr); [done|].
      eexists. split; [done|]. destruct r as [[[[[? ?] ?] ?] ?]|]; [|done]. naive_solver lia.
  - destruct (decide (0 < bufsz)) as [Hb|Hb].
    + destruct (Hw 0 Hb) as (-> & El & Hs'). rewrite bind_Ok.
      destruct (IH (i + 1) src srcsz _ _ _ Hl Hs Hm Hz Hs') as (r & -> & Hr).
      eexists. split; [done|]. destruct r as [[[[[? ?] ?] ?] ?]|]; [|done]. naive_solver lia.
    + by apply IH.
Qed.

Lemma unpack_loop_total fuel m src srcsz pos bufsz size b len :
  Forall (λ c, 0 ≤ c < 256) m → src + srcsz = len → 0 ≤ src → len < zlen m → srcsz ≤ Z.of_nat fuel →
  space b pos bufsz → 0 ≤ size →
  ∃ r b', unpack_loop fuel m src srcsz pos bufsz size b = Ok (r, b') ∧ (r = -1 ∨ 0 ≤ r) ∧ zlen b' = zlen b.
Proof.
  intros Hm Hl Hs Hlen. revert src srcsz pos bufsz size b Hl Hs.
  induction fuel as [|fuel IH]; intros src srcsz pos bufsz size b Hl Hs Hf Hsp Hsize; cbn [unpack_loop];
    (destruct (decide (0 < srcsz)) as [Hz|Hz]; [|eexists _, _; split; [done|]; split; [by right|done]]); [lia|].
  destruct (rd_Ok m src) as [h Hh]; [lia|]. rewrite Hh, bind_Ok. cbv zeta. destruct (decide (h = 255)) as [->|Hne].
  - rewrite (decide_False (P := srcsz - 1 < 0)) by lia.
    destruct (rd_Ok m (src + 1)) as [c Hc]; [lia|]. rewrite Hc, bind_Ok.
    apply rd_Ok_inv in Hc as [_ Hc]. pose proof (proj1 (Forall_lookup _ _) Hm _ _ Hc) as Hcr. cbn in Hcr.
    set (n := (c + 1) * 8). destruct (decide (srcsz - 1 < n + 1)) as [Hd|Hd].
    { eexists _, _. split; [done|]. split; [by left|done]. }
    destruct Hsp as [Hp Hsp]. destruct (decide (n ≤ bufsz)) as [Hb|Hb].
    + unfold read_at. rewrite decide_True by lia. rewrite bind_Ok.
      set (l := take _ _). assert (zlen l = n) as El.
      { unfold l, zlen in *. rewrite length_take, length_drop. lia. }
      destruct (space_over b pos bufsz l n) as [Eo Hs']; [done|unfold zlen in *; lia|lia|]. rewrite El in Hs'.
      rewrite write_at_over, bind_Ok by lia. rewrite <- Eo. apply IH; [lia|lia|lia|done|lia].
    + rewrite bind_Ok. apply IH; [lia|lia|lia| |lia]. split; [lia|]. lia.
  - destruct (unpack_bits_total 8 0 m h (src + 1) (srcsz - 1) pos bufsz b len) as (r & -> & Hr); [lia|lia|done|lia|done|].
    rewrite bind_Ok. destruct r as [[[[[src' srcsz'] pos'] bufsz'] b']|].
    + destruct Hr as (H1 & H2 & H3 & H4 & <-). apply IH; [lia|lia|lia|done|lia].
    + eexists _, _. split; [done|]. split; [by left|done].
Qed.

(** C40: unpacking reads at most one byte past its input. For every stream of bytes
    with at least one readable byte behind it and every buffer, [sproto_unpack]
    returns -1 or a size and writes only inside the buffer. The byte behind can be
    read: the checks compare the remaining length with 0 after it was decremented,
    so a stream cut one byte short is accepted, and what follows it in memory is
    returned as its last byte; with nothing behind, the read is out of bounds. *)
Theorem sproto_unpack_one_byte_past srcv behind buffer :
  Forall (λ c, 0 ≤ c < 256) (srcv ++ behind) → behind ≠ [] →
  (∃ r b, sproto_unpack srcv behind buffer (zlen buffer) = Ok (r, b) ∧ (r = -1 ∨ 0 ≤ r) ∧ zlen b = zlen buffer) ∧
  (∀ c rest, sproto_unpack [3; 5] (c :: rest) (replicate 8 0) 8 = Ok (8, [5; c; 0; 0; 0; 0; 0; 0])) ∧
  sproto_unpack [3; 5] [] (replicate 8 0) 8 = Err OutOfBounds.
Proof.
  intros Hm Hb. pose proof (zlen_nonneg buffer). split; [|split].
  - unfold sproto_unpack. apply (unpack_loop_total _ _ _ _ _ _ _ _ (zlen srcv)); [done|lia|lia| |unfold zlen; lia|split; lia|lia].
    rewrite zlen_app. pose proof (zlen_pos behind Hb). lia.
  - intros c rest. reflexivity.
  - reflexivity.
Qed.

Lemma sproto_pack_roundtrip_witness :
  ∃ p up1 up2, lpack_sproto [8; 0; 0; 0; 3; 0; 2; 0; 25; 0; 170; 1] [] (replicate 2050 0) = Ok (p, up1) ∧
    lunpack_sproto p [] (replicate 2050 0) = Ok ([8; 0; 0; 0; 3; 0; 2; 0; 25; 0; 170; 1; 0; 0; 0; 0], up2).
Proof.
  destruct (sproto_pack_roundtrip [8; 0; 0; 0; 3; 0; 2; 0; 25; 0; 170; 1] [] (replicate 2050 0) [] (replicate 2050 0))
    as (p & up1 & up2 & E1 & _ & E2).
  - intros H. vm_compute in H. destruct H as [_ H]. exfalso. apply H. reflexivity.
  - vm_compute. discriminate.
  - vm_compute. discriminate.
  - vm_compute. discriminate.
  - exists p, up1, up2. split; [exact E1|exact E2].
Defined.

Lemma sproto_unpack_one_byte_past_witness :
  ∃ r b, sproto_unpack [3; 5] [0] (replicate 8 0) (zlen (replicate 8 0)) = Ok (r, b).
Proof.
  destruct (sproto_unpack_one_byte_past [3; 5] [0] (replicate 8 0)) as [(r & b & E & _) _].
  - repeat constructor; vm_compute; congruence.
  - discriminate.
  - exists r, b. exact E.
Defined.

(** Without zeros behind it, a source of 2046 nonzero bytes is packed together with
    the two bytes that follow it in memory. *)
Lemma pack_copies_behind a b :
  ∃ up, lpack_sproto (replicate 2046 65) [a; b] (replicate 2050 0)
    = Ok ([255; 255] ++ replicate 2046 65 ++ [a; b], up).
Proof. eexists. vm_compute. reflexivity. Qed.
