(* ===== verification/Locks.v ===== *)
(** * The locks: skynet-src/spinlock.h and rwlock.h

    Threads that run the lock functions one atomic instruction at a time, in any
    interleaving: the builtins without USE_PTHREAD_LOCK. Memory is taken to be
    sequentially consistent. That is what the code needs and what x86 gives it, where
    every one of these builtins but the release is a locked instruction and so a full
    barrier; GCC promises less of two of them, an acquire barrier of
    [__sync_lock_test_and_set] and a release barrier of [__sync_lock_release], and
    [rwlock_wlock] reads the count of readers right behind the first one. The theorems:
    mutual exclusion of the spinlock (under which every operation of the message queues
    is atomic) and of the read-write lock of the handle storage, that a waiting writer
    admits no new reader, and that from every reachable state every request can be
    served. *)
From stdpp Require Import base numbers list relations.
From S2P Require Import Prelude.

(** ** Threads *)

(** The shared lock and where each thread is. A step runs one instruction of one
    thread; the boolean is what the thread wants next when it is free to choose. *)
Record threads (L PC : Type) : Type := mk_threads { lk : L; pcs : list PC }.
Arguments mk_threads {L PC}.
Arguments lk {L PC}.
Arguments pcs {L PC}.

Section Threads.
Context {L PC : Type} (instr : L → PC → bool → L * PC).

Inductive tstep : threads L PC → threads L PC → Prop :=
| thread_runs s t p choice :
    pcs s !! t = Some p →
    tstep s (mk_threads (instr (lk s) p choice).1 (<[t := (instr (lk s) p choice).2]> (pcs s))).

(** The number of threads in some places. *)
Fixpoint count (P : PC → bool) (l : list PC) : Z :=
  match l with [] => 0 | p :: l => Z.b2z (P p) + count P l end.

Lemma count_range P l : 0 ≤ count P l ≤ zlen l.
Proof. induction l as [|p l IH]; cbn; [done|]. rewrite zlen_cons. destruct (P p); cbn; lia. Qed.
Lemma count_insert P l t p p' :
  l !! t = Some p → count P (<[t := p']> l) = count P l - Z.b2z (P p) + Z.b2z (P p').
Proof.
  revert t. induction l as [|q l IH]; intros [|t] Ht; [done|done|..].
  - injection Ht as ->. cbn [insert list_insert count]. lia.
  - change (<[S t := p']> (q :: l)) with (q :: <[t := p']> l). cbn [count]. rewrite (IH t Ht). lia.
Qed.
Lemma count_ge P l t p : l !! t = Some p → Z.b2z (P p) ≤ count P l.
Proof.
  revert t. induction l as [|q l IH]; intros [|t] Ht; cbn in *; simplify_eq.
  - pose proof (count_range P l). lia.
  - specialize (IH t Ht). destruct (P q); cbn; lia.
Qed.
Lemma count_two P l t t' p p' :
  l !! t = Some p → l !! t' = Some p' → t ≠ t' → Z.b2z (P p) + Z.b2z (P p') ≤ count P l.
Proof.
  revert t t'. induction l as [|q l IH]; intros [|t] [|t'] Ht Ht' Hne; cbn in *; simplify_eq.
  - pose proof (count_ge P l t' p' Ht'). lia.
  - pose proof (count_ge P l t p Ht). lia.
  - specialize (IH t t' Ht Ht' ltac:(lia)). destruct (P q); cbn; lia.
Qed.
Lemma count_find P l : count P l ≠ 0 → ∃ t p, l !! t = Some p ∧ P p = true.
Proof.
  induction l as [|q l IH]; cbn; [done|]. destruct (P q) eqn:E; [by exists 0%nat, q|].
  intros (t & p & Ht & Hp)%IH. by exists (S t), p.
Qed.
Lemma count_mono P Q l : (∀ p, Z.b2z (P p) ≤ Z.b2z (Q p)) → count P l ≤ count Q l.
Proof. intros H. induction l as [|p l IH]; cbn; [done|]. specialize (H p). lia. Qed.
Lemma count_replicate P n p : count P (replicate n p) = Z.of_nat n * Z.b2z (P p).
Proof. induction n as [|n IH]; cbn [replicate count]; [done|]. rewrite IH. lia. Qed.
End Threads.

(** ** spinlock.h *)

Record spinlock : Type := mk_spinlock { sl_lock : Z }.
Definition spinlock_init : spinlock := mk_spinlock 0.
(** [__sync_lock_test_and_set(&lock->lock, 1)] and [__sync_lock_release]. *)
Definition test_and_set (l : spinlock) : Z * spinlock := (sl_lock l, mk_spinlock 1).
Definition spinlock_unlock (l : spinlock) : spinlock := mk_spinlock 0.
Definition spinlock_trylock (l : spinlock) : bool * spinlock :=
  let r := test_and_set l in (bool_decide (r.1 = 0), r.2).

(** Outside, in the loop of [spinlock_lock], or inside the critical section. *)
Inductive spin_pc : Type := Outside | Spinning | Inside.
Definition spin_instr (l : spinlock) (p : spin_pc) (choice : bool) : spinlock * spin_pc :=
  match p with
  | Outside =>
      if choice then (l, Spinning)
      else let r := spinlock_trylock l in (r.2, if r.1 then Inside else Outside)
  | Spinning => let r := test_and_set l in (r.2, if decide (r.1 = 0) then Inside else Spinning)
  | Inside => (spinlock_unlock l, Outside)
  end.
Definition spin_start (n : nat) : threads spinlock spin_pc := mk_threads spinlock_init (replicate n Outside).

(** ** rwlock.h *)

Record rwlock : Type := mk_rwlock { write : Z; read : Z }.
Definition rwlock_init : rwlock := mk_rwlock 0 0.

(** Where a thread is: in the loops of [rwlock_rlock] and [rwlock_wlock], or holding
    the lock; a step of a holder is its unlock. *)
Inductive rw_pc : Type :=
| Idle
| RWhile   (* while(lock->write) *)
| RAdd     (* __sync_add_and_fetch(&lock->read,1) *)
| RCheck   (* if (lock->write) *)
| RSub     (* __sync_sub_and_fetch(&lock->read,1) *)
| RHold
| WSet     (* while (__sync_lock_test_and_set(&lock->write,1)) *)
| WWhile   (* while(lock->read) *)
| WHold.
Global Instance rw_pc_dec : EqDecision rw_pc.
Proof. solve_decision. Defined.

Definition rwlock_rlock (l : rwlock) (p : rw_pc) : rwlock * rw_pc :=
  match p with
  | RWhile => (l, if decide (write l ≠ 0) then RWhile else RAdd)
  | RAdd => (mk_rwlock (write l) (read l + 1), RCheck)
  | RCheck => (l, if decide (write l ≠ 0) then RSub else RHold)
  | RSub => (mk_rwlock (write l) (read l - 1), RWhile)
  | _ => (l, p)
  end.
Definition rwlock_wlock (l : rwlock) (p : rw_pc) : rwlock * rw_pc :=
  match p with
  | WSet => (mk_rwlock 1 (read l), if decide (write l ≠ 0) then WSet else WWhile)
  | WWhile => (l, if decide (read l ≠ 0) then WWhile else WHold)
  | _ => (l, p)
  end.
Definition rwlock_runlock (l : rwlock) : rwlock := mk_rwlock (write l) (read l - 1).
Definition rwlock_wunlock (l : rwlock) : rwlock := mk_rwlock 0 (read l).

Definition rw_instr (l : rwlock) (p : rw_pc) (choice : bool) : rwlock * rw_pc :=
  match p with
  | Idle => (l, if choice then RWhile else WSet)
  | RWhile | RAdd | RCheck | RSub => rwlock_rlock l p
  | WSet | WWhile => rwlock_wlock l p
  | RHold => (rwlock_runlock l, Idle)
  | WHold => (rwlock_wunlock l, Idle)
  end.
Definition rw_start (n : nat) : threads rwlock rw_pc := mk_threads rwlock_init (replicate n Idle).

(** ** Invariants *)

(** The threads that count as readers, and as writers. *)
Definition reading (p : rw_pc) : bool :=
  match p with RCheck | RSub | RHold => true | _ => false end.
Definition writing (p : rw_pc) : bool :=
  match p with WWhile | WHold => true | _ => false end.

Definition whold (p : rw_pc) : bool := match p with WHold => true | _ => false end.
Definition rhold (p : rw_pc) : bool := match p with RHold => true | _ => false end.

Record rw_inv (s : threads rwlock rw_pc) : Prop := {
  ri_read : read (lk s) = count reading (pcs s);
  ri_write : write (lk s) = count writing (pcs s);
  ri_one : count writing (pcs s) ≤ 1;
  ri_hold : count whold (pcs s) ≠ 0 → count rhold (pcs s) = 0 }.

Lemma rw_inv_start n : rw_inv (rw_start n).
Proof.
  split; cbn [rw_start lk pcs]; rewrite !count_replicate; cbn; lia.
Qed.
Lemma rw_inv_step s s' : rw_inv s → tstep rw_instr s s' → rw_inv s'.
Proof.
  intros [Hr Hw H1 Hh] Hst. destruct Hst as [s t p choice Ht].
  pose proof (count_mono whold writing (pcs s) ltac:(by intros [])) as M1.
  pose proof (count_mono rhold reading (pcs s) ltac:(by intros [])) as M2.
  pose proof (count_range whold (pcs s)) as N1. pose proof (count_range rhold (pcs s)) as N2.
  pose proof (λ P, count_ge P _ _ _ Ht) as G. pose proof (G whold) as G1. pose proof (G writing) as G2. pose proof (G rhold) as G3.
  destruct p; cbn [rw_instr rwlock_rlock rwlock_wlock fst snd] in *; cbn [whold writing rhold Z.b2z] in G1, G2, G3;
    try case_decide; try destruct choice; split;
    cbn [lk pcs read write rwlock_runlock rwlock_wunlock fst snd];
    rewrite ?(count_insert _ _ _ _ _ Ht); cbn [reading writing whold rhold Z.b2z]; lia.
Qed.
Lemma rw_inv_reach n s : rtc (tstep rw_instr) (rw_start n) s → rw_inv s ∧ length (pcs s) = n.
Proof.
  assert (rw_inv (rw_start n) ∧ length (pcs (rw_start n)) = n) as H0
    by (split; [apply rw_inv_start|apply length_replicate]).
  revert H0. generalize (rw_start n). intros s0 H0. induction 1 as [|s0 s1 s2 Hst _ IH]; [done|]. apply IH.
  destruct H0 as [I El]. split; [by eapply rw_inv_step|]. destruct Hst. cbn. by rewrite length_insert.
Qed.

(** ** Mutual exclusion *)

(** C32: the read-write lock, on sequentially consistent memory. With any number of
    threads and in every interleaving, while a writer holds the lock no other thread
    holds it in either mode; the two counters are the number of writers that have set
    the flag (waiting for the readers or holding the lock), at most one, and of the
    readers that have announced themselves (about to check the flag, about to take the
    announcement back, or holding the lock); the lock returns to its initial state
    when all threads have left. Once a writer has set the flag no further reader
    enters: every thread that then holds the lock for reading held it before. *)
Theorem rwlock_exclusion n s :
  rtc (tstep rw_instr) (rw_start n) s →
  (∀ t t', t ≠ t' → pcs s !! t = Some WHold → pcs s !! t' ≠ Some WHold ∧ pcs s !! t' ≠ Some RHold) ∧
  write (lk s) = count writing (pcs s) ∧ count writing (pcs s) ≤ 1 ∧ read (lk s) = count reading (pcs s) ∧
  ((∀ t p, pcs s !! t = Some p → p = Idle) → lk s = rwlock_init) ∧
  (∀ s' tw p, tstep rw_instr s s' → pcs s !! tw = Some p → writing p = true →
     ∀ t, pcs s' !! t = Some RHold → pcs s !! t = Some RHold).
Proof.
  intros Hreach. destruct (rw_inv_reach n s Hreach) as [[Hr Hw H1 Hh] El].
  split; [|split; [done|split; [done|split; [done|split]]]].
  - intros t t' Hne Ht. pose proof (count_ge whold _ _ _ Ht) as G. cbn in G. split; intros Ht'.
    + pose proof (count_two writing _ _ _ _ _ Ht Ht' Hne) as G2. cbn in G2. lia.
    + pose proof (count_ge rhold _ _ _ Ht') as G2. cbn in G2. lia.
  - intros Hall. destruct (lk s) as [w r] eqn:E. cbn in *.
    assert (∀ P : rw_pc → bool, P Idle = false → count P (pcs s) = 0) as H0.
    { intros P HP. destruct (decide (count P (pcs s) = 0)) as [|(t & p & Ht & Hp)%count_find]; [done|].
      rewrite (Hall t p Ht) in Hp. congruence. }
    rewrite Hw, Hr, !H0 by done. done.
  - intros s' tw p Hst Htw Hp t Ht. destruct Hst as [s u q choice Hu]. cbn [pcs] in Ht.
    destruct (decide (u = t)) as [->|Hne]; [|by rewrite list_lookup_insert_ne in Ht].
    rewrite list_lookup_insert_eq in Ht by (by eapply lookup_lt_Some). injection Ht as Eq.
    pose proof (count_ge writing _ _ _ Htw) as G. rewrite Hp in G. cbn in G.
    destruct q; cbn in Eq; try destruct choice; try (case_decide; try lia); done.
Qed.

(** ** Every request can be served *)

(** One step of thread [t], with what it leaves. *)
Lemma run_thread s t p choice :
  pcs s !! t = Some p →
  ∃ s', tstep rw_instr s s' ∧ lk s' = (rw_instr (lk s) p choice).1 ∧
    pcs s' !! t = Some (rw_instr (lk s) p choice).2 ∧ (∀ u, u ≠ t → pcs s' !! u = pcs s !! u) ∧
    ∀ P, count P (pcs s') = count P (pcs s) - Z.b2z (P p) + Z.b2z (P (rw_instr (lk s) p choice).2).
Proof.
  intros Ht. eexists. split; [by apply (thread_runs _ s t p choice)|]. split; [done|]. cbn [pcs]. split; [|split].
  - apply list_lookup_insert_eq. by eapply lookup_lt_Some.
  - intros u Hu. by apply list_lookup_insert_ne.
  - intros P. by apply count_insert.
Qed.
Lemma run_inv s s' : rw_inv s → rtc (tstep rw_instr) s s' → rw_inv s'.
Proof. intros I H. induction H as [|s0 s1 s2 Hst _ IH]; [done|]. apply IH. by eapply rw_inv_step. Qed.

(** A reader leaves: it unlocks, or takes back its announcement; at a lowered flag a
    thread about to check enters first. *)
Lemma reader_leaves s u q :
  pcs s !! u = Some q → reading q = true →
  ∃ s', rtc (tstep rw_instr) s s' ∧ write (lk s') = write (lk s) ∧
    count reading (pcs s') = count reading (pcs s) - 1 ∧ (∀ v, v ≠ u → pcs s' !! v = pcs s !! v) ∧
    (q = RSub ∨ (q = RCheck ∧ write (lk s) ≠ 0) → pcs s' !! u = Some RWhile).
Proof.
  intros Hu Hq. destruct q; try done.
  - destruct (run_thread s u RCheck true Hu) as (s1 & St1 & L1 & P1 & O1 & C1). cbn [rw_instr rwlock_rlock fst snd] in *.
    destruct (decide (write (lk s) ≠ 0)) as [Hw|Hw].
    + destruct (run_thread s1 u RSub true P1) as (s2 & St2 & L2 & P2 & O2 & C2). cbn [rw_instr rwlock_rlock fst snd] in *.
      exists s2. split; [by eapply rtc_l, rtc_once|]. split; [by rewrite L2, <- L1|].
      split; [rewrite C2, C1; cbn; lia|]. split; [intros v Hv; by rewrite O2, O1|done].
    + destruct (run_thread s1 u RHold true P1) as (s2 & St2 & L2 & P2 & O2 & C2). cbn [rw_instr fst snd] in *.
      exists s2. split; [by eapply rtc_l, rtc_once|]. split; [by rewrite L2, <- L1|].
      split; [rewrite C2, C1; cbn; lia|]. split; [intros v Hv; by rewrite O2, O1|]. naive_solver.
  - destruct (run_thread s u RSub true Hu) as (s1 & St1 & L1 & P1 & O1 & C1). cbn [rw_instr rwlock_rlock fst snd] in *.
    exists s1. split; [by apply rtc_once|]. split; [by rewrite L1|]. split; [rewrite C1; cbn; lia|]. done.
  - destruct (run_thread s u RHold true Hu) as (s1 & St1 & L1 & P1 & O1 & C1). cbn [rw_instr fst snd] in *.
    exists s1. split; [by apply rtc_once|]. split; [by rewrite L1|]. split; [rewrite C1; cbn; lia|]. split; [done|]. naive_solver.
Qed.

(** All readers leave; a thread that waits for the lock still waits for it. *)
Lemma drain_readers (k : nat) s t p :
  count reading (pcs s) = Z.of_nat k → pcs s !! t = Some p → p ≠ RHold → (p = RCheck → write (lk s) ≠ 0) →
  ∃ s', rtc (tstep rw_instr) s s' ∧ count reading (pcs s') = 0 ∧ write (lk s') = write (lk s) ∧
    pcs s' !! t = Some (if reading p then RWhile else p).
Proof.
  revert s p. induction k as [|k IH]; intros s p Hk Ht Hp Hc.
  - exists s. split; [done|]. split; [done|]. split; [done|]. destruct (reading p) eqn:E; [|done].
    pose proof (count_ge reading _ _ _ Ht) as G. rewrite E in G. cbn in G. lia.
  - destruct (count_find reading (pcs s)) as (u & q & Hu & Hq); [lia|].
    destruct (reader_leaves s u q Hu Hq) as (s1 & R1 & W1 & C1 & O1 & D1).
    assert (∃ p1, pcs s1 !! t = Some p1 ∧ p1 ≠ RHold ∧ (p1 = RCheck → write (lk s1) ≠ 0) ∧
      (if reading p1 then RWhile else p1) = (if reading p then RWhile else p)) as (p1 & Hp1 & N1 & Ck1 & E1).
    { destruct (decide (t = u)) as [->|Hne].
      - simplify_eq. exists RWhile. rewrite Hq. split; [|done]. apply D1. destruct p; naive_solver.
      - exists p. rewrite O1, W1 by done. done. }
    destruct (IH s1 p1 ltac:(lia) Hp1 N1 Ck1) as (s2 & R2 & C2 & W2 & P2).
    exists s2. split; [by etrans|]. split; [done|]. split; [congruence|]. by rewrite P2, E1.
Qed.

(** With no readers, a writer other than [t] finishes. *)
Lemma drain_writer s t p :
  rw_inv s → count reading (pcs s) = 0 → pcs s !! t = Some p → writing p = false → reading p = false →
  ∃ s', rtc (tstep rw_instr) s s' ∧ rw_inv s' ∧ count reading (pcs s') = 0 ∧ write (lk s') = 0 ∧
    pcs s' !! t = Some p.
Proof.
  intros I Hr Ht Hp Hrd. destruct (decide (count writing (pcs s) = 0)) as [E|(u & q & Hu & Hq)%count_find].
  { exists s. split; [done|]. split; [done|]. split; [done|]. split; [by rewrite (ri_write _ I)|done]. }
  assert (t ≠ u) as Hne by (intros ->; congruence).
  assert (∃ s1, rtc (tstep rw_instr) s s1 ∧ pcs s1 !! u = Some WHold ∧ count reading (pcs s1) = 0 ∧
    pcs s1 !! t = Some p) as (s1 & R1 & Hu1 & C1 & Ht1).
  { destruct q; try done; [|by exists s].
    destruct (run_thread s u WWhile true Hu) as (s1 & St1 & L1 & P1 & O1 & C1). cbn [rw_instr rwlock_wlock fst snd] in *.
    rewrite decide_False in P1, C1 by (rewrite (ri_read _ I); lia).
    exists s1. split; [by apply rtc_once|]. split; [done|]. split; [rewrite C1; cbn; lia|]. by rewrite O1. }
  destruct (run_thread s1 u WHold true Hu1) as (s2 & St2 & L2 & P2 & O2 & C2). cbn [rw_instr fst snd] in *.
  assert (rtc (tstep rw_instr) s s2) as R2 by (by eapply rtc_r).
  exists s2. split; [done|]. split; [by eapply run_inv|]. split; [rewrite C2; cbn; lia|]. split; [by rewrite L2|]. by rewrite O2.
Qed.

(** C33: no deadlock. From every reachable state, whatever the other threads are
    doing, a thread that has asked for the lock can be brought to hold it in the
    mode it asked for by a finite schedule of unlocks and lock attempts. *)
Theorem rwlock_requests_served n s t p :
  rtc (tstep rw_instr) (rw_start n) s → pcs s !! t = Some p → p ≠ Idle →
  ∃ s', rtc (tstep rw_instr) s s' ∧
    pcs s' !! t = Some (match p with WSet | WWhile | WHold => WHold | _ => RHold end).
Proof.
  intros Hreach Ht Hp. destruct (rw_inv_reach n s Hreach) as [I _].
  destruct (decide (p = RHold)) as [->|Hh]; [by exists s|].
  destruct (decide (p = WHold)) as [->|Hw]; [by exists s|].
  destruct (decide (p = RCheck ∧ write (lk s) = 0)) as [[-> E]|Hc].
  { destruct (run_thread s t RCheck true Ht) as (s1 & St1 & _ & P1 & _). cbn [rw_instr rwlock_rlock snd] in P1.
    rewrite decide_False in P1 by lia. exists s1. split; [by apply rtc_once|done]. }
  destruct (drain_readers (Z.to_nat (count reading (pcs s))) s t p) as (s1 & R1 & C1 & W1 & P1);
    [pose proof (count_range reading (pcs s)); lia|done|done|naive_solver|].
  pose proof (run_inv s s1 I R1) as I1.
  destruct (decide (p = WWhile)) as [->|Hww].
  { destruct (run_thread s1 t WWhile true P1) as (s2 & St2 & _ & P2 & _). cbn [rw_instr rwlock_wlock snd] in P2.
    rewrite decide_False in P2 by (rewrite (ri_read _ I1); lia). exists s2. split; [by eapply rtc_r|done]. }
  destruct (drain_writer s1 t (if reading p then RWhile else p)) as (s2 & R2 & I2 & C2 & W2 & P2);
    [done|done|done|by destruct p|by destruct p|].
  assert (rtc (tstep rw_instr) s s2) as R12 by by etrans.
  assert (∀ s3, rtc (tstep rw_instr) s s3 → write (lk s3) = 0 → pcs s3 !! t = Some RAdd →
    ∃ s', rtc (tstep rw_instr) s s' ∧ pcs s' !! t = Some RHold) as Hadd.
  { intros s3 R3 W3 P3. destruct (run_thread s3 t RAdd true P3) as (s4 & St4 & L4 & P4 & _).
    cbn [rw_instr rwlock_rlock fst snd] in L4, P4.
    destruct (run_thread s4 t RCheck true P4) as (s5 & St5 & _ & P5 & _). cbn [rw_instr rwlock_rlock snd] in P5.
    rewrite decide_False in P5 by (rewrite L4; cbn; lia). exists s5. split; [|done]. eapply rtc_r; [by eapply rtc_r|done]. }
  destruct (decide (p = WSet)) as [->|Hws].
  { destruct (run_thread s2 t WSet true P2) as (s3 & St3 & L3 & P3 & _). cbn [rw_instr rwlock_wlock fst snd] in L3, P3.
    rewrite decide_False in P3 by lia.
    destruct (run_thread s3 t WWhile true P3) as (s4 & St4 & _ & P4 & _). cbn [rw_instr rwlock_wlock snd] in P4.
    rewrite decide_False in P4 by (rewrite L3; cbn; rewrite (ri_read _ I2); lia).
    exists s4. split; [|done]. eapply rtc_r; [by eapply rtc_r|done]. }
  destruct (decide (p = RAdd)) as [->|Hra]; [by apply (Hadd s2)|].
  assert (pcs s2 !! t = Some RWhile) as P2' by (by destruct p).
  destruct (run_thread s2 t RWhile true P2') as (s3 & St3 & L3 & P3 & _). cbn [rw_instr rwlock_rlock fst snd] in L3, P3.
  rewrite decide_False in P3 by lia.
  destruct (Hadd s3) as (s' & R' & P'); [by eapply rtc_r|by rewrite L3|done|].
  exists s'. split; [done|]. by destruct p.
Qed.

(** ** The spinlock *)

Definition inside (p : spin_pc) : bool := match p with Inside => true | _ => false end.

Lemma spin_inv_step s s' :
  sl_lock (lk s) = count inside (pcs s) → count inside (pcs s) ≤ 1 → tstep spin_instr s s' →
  sl_lock (lk s') = count inside (pcs s') ∧ count inside (pcs s') ≤ 1.
Proof.
  intros Hl H1 Hst. destruct Hst as [s t p choice Ht]. cbn [lk pcs].
  rewrite (count_insert _ _ _ _ _ Ht). pose proof (count_ge inside _ _ _ Ht) as G.
  pose proof (count_range inside (pcs s)).
  destruct p; cbn in *; [destruct choice|..]; cbn; try (case_decide || case_bool_decide); cbn; lia.
Qed.

(** The spinlock. In every interleaving of [spinlock_lock], [spinlock_trylock] and
    [spinlock_unlock] at most one thread is between a lock and its unlock, and the
    lock word is 1 exactly while one is, so that an attempt succeeds when and only
    when the lock is free. *)
Theorem spinlock_exclusion n s :
  rtc (tstep spin_instr) (spin_start n) s →
  (∀ t t', t ≠ t' → pcs s !! t = Some Inside → pcs s !! t' ≠ Some Inside) ∧
  (sl_lock (lk s) = 1 ↔ ∃ t, pcs s !! t = Some Inside) ∧
  ((spinlock_trylock (lk s)).1 = true ↔ ∀ t, pcs s !! t ≠ Some Inside).
Proof.
  intros Hreach.
  assert (sl_lock (lk s) = count inside (pcs s) ∧ count inside (pcs s) ≤ 1) as [Hl H1].
  { assert (sl_lock (lk (spin_start n)) = count inside (pcs (spin_start n)) ∧ count inside (pcs (spin_start n)) ≤ 1) as H0
      by (cbn [spin_start pcs]; rewrite count_replicate; cbn; lia).
    revert H0. generalize dependent (spin_start n). intros s0. induction 1 as [|s0 s1 s2 Hst _ IH]; [done|].
    intros [? ?]. apply IH. by apply (spin_inv_step s0). }
  assert (sl_lock (lk s) = 1 ↔ ∃ t, pcs s !! t = Some Inside) as Hiff.
  { split.
    - intros E. destruct (count_find inside (pcs s)) as (t & p & Ht & Hp); [lia|]. exists t. by destruct p.
    - intros (t & Ht). pose proof (count_ge inside _ _ _ Ht) as G. cbn in G. lia. }
  split; [|split; [done|]].
  - intros t t' Hne Ht Ht'. pose proof (count_two inside _ _ _ _ _ Ht Ht' Hne) as G. cbn in G. lia.
  - unfold spinlock_trylock. cbn. rewrite bool_decide_eq_true. pose proof (count_range inside (pcs s)). split.
    + intros E t Ht. assert (sl_lock (lk s) = 1) by (apply Hiff; eauto). lia.
    + intros Hno. destruct (decide (sl_lock (lk s) = 1)) as [(t & Ht)%Hiff|]; [by apply Hno in Ht|lia].
Qed.

(** Two threads: one holds the lock for reading, the other asks to write. *)
Definition demo_threads : threads rwlock rw_pc := mk_threads (mk_rwlock 1 1) [RHold; WWhile].
Lemma demo_reachable : rtc (tstep rw_instr) (rw_start 2) demo_threads.
Proof.
  pose proof (λ s t p c, thread_runs rw_instr s t p c) as St.
  eapply rtc_l; [apply (St (rw_start 2) 0%nat Idle true); reflexivity|]. cbn.
  eapply rtc_l; [eapply (St _ 0%nat RWhile true); reflexivity|]. cbn.
  eapply rtc_l; [eapply (St _ 0%nat RAdd true); reflexivity|]. cbn.
  eapply rtc_l; [eapply (St _ 0%nat RCheck true); reflexivity|]. cbn.
  eapply rtc_l; [eapply (St _ 1%nat Idle false); reflexivity|]. cbn.
  eapply rtc_l; [eapply (St _ 1%nat WSet true); reflexivity|]. cbn. apply rtc_refl.
Qed.

(** A writer holds the lock while a reader that saw no writer has announced itself. *)
Definition demo_writer : threads rwlock rw_pc := mk_threads (mk_rwlock 1 1) [RCheck; WHold].
Lemma demo_writer_reachable : rtc (tstep rw_instr) (rw_start 2) demo_writer.
Proof.
  pose proof (λ s t p c, thread_runs rw_instr s t p c) as St.
  eapply rtc_l; [apply (St (rw_start 2) 0%nat Idle true); reflexivity|]. cbn.
  eapply rtc_l; [eapply (St _ 0%nat RWhile true); reflexivity|]. cbn.
  eapply rtc_l; [eapply (St _ 1%nat Idle false); reflexivity|]. cbn.
  eapply rtc_l; [eapply (St _ 1%nat WSet true); reflexivity|]. cbn.
  eapply rtc_l; [eapply (St _ 1%nat WWhile true); reflexivity|]. cbn.
  eapply rtc_l; [eapply (St _ 0%nat RAdd true); reflexivity|]. cbn. apply rtc_refl.
Qed.
Lemma rwlock_exclusion_witness :
  pcs demo_writer !! 1%nat = Some WHold ∧ pcs demo_writer !! 0%nat ≠ Some RHold ∧
  write (lk demo_writer) = count writing (pcs demo_writer) ∧ read (lk demo_writer) = count reading (pcs demo_writer) ∧
  ∀ s', tstep rw_instr demo_writer s' → pcs s' !! 0%nat ≠ Some RHold.
Proof.
  destruct (rwlock_exclusion 2 demo_writer demo_writer_reachable) as (Hx & Hw & _ & Hr & _ & Hno).
  split; [reflexivity|]. split; [apply (Hx 1%nat 0%nat); [discriminate|reflexivity]|]. split; [exact Hw|]. split; [exact Hr|].
  intros s' Hst H. specialize (Hno s' 1%nat WHold Hst eq_refl eq_refl 0%nat H). discriminate Hno.
Defined.

Lemma rwlock_requests_served_witness :
  ∃ s', rtc (tstep rw_instr) demo_threads s' ∧ pcs s' !! 1%nat = Some WHold.
Proof.
  apply (rwlock_requests_served 2 demo_threads 1 WWhile).
  - exact demo_reachable.
  - reflexivity.
  - discriminate.
Defined.

Lemma spinlock_exclusion_witness : (spinlock_trylock (lk (spin_start 3))).1 = true.
Proof.
  apply (spinlock_exclusion 3 (spin_start 3)).
  - apply rtc_refl.
  - intros [|[|[|t]]]; discriminate.
Defined.
