(* ===== verification/HashId.v ===== *)
(** * The id table of the gate: service-src/hashid.h

    Socket ids are hashed to chains of nodes in a fixed array; the index of a node
    is the index of the gate's connection. The theorem: lookup, insert and remove
    are those of a finite map from ids to distinct indices, and none of them fails
    while the table is not full. *)
From stdpp Require Import base numbers list.
From S2P Require Import Prelude.

(** [struct hashid_node] and [struct hashid]; a pointer to a node is its index. *)
Record hashid_node : Type := mk_hnode { hn_id : Z; hn_next : option Z }.
Record hashid : Type := mk_hashid {
  hashmod : Z;
  h_cap : Z;
  h_count : Z;
  h_id : list hashid_node;
  h_hash : list (option Z) }.

(** [while (hashcap < max) hashcap *= 2]. *)
Fixpoint grow_hashcap (fuel : nat) (hashcap max : Z) : result Z :=
  if decide (hashcap < max) then
    match fuel with
    | O => Err OutOfFuel
    | S f => h ← c_int (hashcap * 2); grow_hashcap f h max
    end
  else Ok hashcap.

Definition hashid_init (max : Z) : result hashid :=
  hashcap ← grow_hashcap 32 16 max;
  Ok (mk_hashid (hashcap - 1) max 0 (replicate (Z.to_nat max) (mk_hnode (-1) None))
        (replicate (Z.to_nat hashcap) None)).

Definition hashid_clear (_ : hashid) : hashid := mk_hashid 1 0 0 [] [].

(** The walk of [hashid_lookup]; a chain has at most [cap] nodes. *)
Fixpoint lookup_walk (fuel : nat) (nodes : list hashid_node) (c : option Z) (id : Z) : result Z :=
  match c with
  | None => Ok (-1)
  | Some i =>
      n ← rd nodes i;
      if decide (hn_id n = id) then Ok i
      else match fuel with O => Err OutOfFuel | S f => lookup_walk f nodes (hn_next n) id end
  end.
Definition hashid_lookup (hi : hashid) (id : Z) : result Z :=
  let h := Z.land id (hashmod hi) in
  c ← rd (h_hash hi) h;
  lookup_walk (length (h_id hi)) (h_id hi) c id.

(** The walk of [hashid_remove] behind the first node: the node taken out and the
    nodes with its predecessor relinked, or [None] when the id is not there. *)
Fixpoint remove_walk (fuel : nat) (nodes : list hashid_node) (c : Z) (id : Z) :
    result (option (Z * list hashid_node)) :=
  n ← rd nodes c;
  match hn_next n with
  | None => Ok None
  | Some t =>
      nt ← rd nodes t;
      if decide (hn_id nt = id) then
        nodes ← wr nodes c (mk_hnode (hn_id n) (hn_next nt));
        Ok (Some (t, nodes))
      else match fuel with O => Err OutOfFuel | S f => remove_walk f nodes t id end
  end.
Definition hashid_remove (hi : hashid) (id : Z) : result (Z * hashid) :=
  let h := Z.land id (hashmod hi) in
  c ← rd (h_hash hi) h;
  match c with
  | None => Ok (-1, hi)
  | Some i =>
      n ← rd (h_id hi) i;
      r ← (if decide (hn_id n = id) then
             hash ← wr (h_hash hi) h (hn_next n); Ok (Some (i, h_id hi, hash))
           else
             r ← remove_walk (length (h_id hi)) (h_id hi) i id;
             Ok (match r with Some (t, nodes) => Some (t, nodes, h_hash hi) | None => None end));
      match r with
      | None => Ok (-1, hi)
      | Some (t, nodes, hash) =>
          nodes ← wr nodes t (mk_hnode (-1) None);
          Ok (t, mk_hashid (hashmod hi) (h_cap hi) (h_count hi - 1) nodes hash)
      end
  end.

(** The search of [hashid_insert] for a free node. *)
Fixpoint find_free (n : nat) (i : Z) (hi : hashid) (id : Z) : result (option Z) :=
  match n with
  | O => Ok None
  | S n =>
      k ← c_int (i + id);
      let index := Z.rem k (h_cap hi) in
      nd ← rd (h_id hi) index;
      if decide (hn_id nd = -1) then Ok (Some index) else find_free n (i + 1) hi id
  end.
Definition hashid_insert (hi : hashid) (id : Z) : result (Z * hashid) :=
  f ← find_free (Z.to_nat (h_cap hi)) 0 hi id;
  c ← of_option AssertFailed f;
  nd ← rd (h_id hi) c;
  c_assert (bool_decide (hn_next nd = None));;
  let h := Z.land id (hashmod hi) in
  first ← rd (h_hash hi) h;
  nodes ← wr (h_id hi) c (mk_hnode id first);
  hash ← wr (h_hash hi) h (Some c);
  Ok (c, mk_hashid (hashmod hi) (h_cap hi) (h_count hi + 1) nodes hash).

Definition hashid_full (hi : hashid) : bool := bool_decide (h_count hi = h_cap hi).

(** ** The invariant *)

(** A chain of used nodes from a pointer. *)
Fixpoint chain (nodes : list hashid_node) (p : option Z) (l : list Z) : Prop :=
  match l with
  | [] => p = None
  | i :: l => p = Some i ∧ 0 ≤ i ∧ ∃ n, nodes !! Z.to_nat i = Some n ∧ chain nodes (hn_next n) l
  end.

(** The ids the nodes hold. *)
Definition id_at (nodes : list hashid_node) (i : Z) : option Z :=
  if decide (0 ≤ i) then hn_id <$> nodes !! Z.to_nat i else None.

(** [bk] are the chains, one per bucket. *)
Record hashid_wf (hi : hashid) (bk : list (list Z)) : Prop := {
  hw_cap : zlen (h_id hi) = h_cap hi ∧ 1 ≤ h_cap hi ≤ 2 ^ 30;
  hw_mod : ∃ k, 0 ≤ k ≤ 30 ∧ hashmod hi = 2 ^ k - 1;
  hw_len : zlen (h_hash hi) = hashmod hi + 1 ∧ length bk = length (h_hash hi);
  hw_chain : ∀ b p l, h_hash hi !! b = Some p → bk !! b = Some l →
    chain (h_id hi) p l ∧ NoDup l ∧
    ∀ i, i ∈ l → ∃ id, id_at (h_id hi) i = Some id ∧ 0 ≤ id ∧ Z.land id (hashmod hi) = Z.of_nat b;
  hw_used : ∀ i n, h_id hi !! i = Some n →
    (hn_id n = -1 ∧ hn_next n = None) ∨
    (0 ≤ hn_id n ∧ ∃ l, bk !! Z.to_nat (Z.land (hn_id n) (hashmod hi)) = Some l ∧ Z.of_nat i ∈ l);
  hw_inj : ∀ i j id, id_at (h_id hi) i = Some id → id_at (h_id hi) j = Some id → id ≠ -1 → i = j;
  hw_count : h_count hi = zlen (filter (λ n, hn_id n ≠ -1) (h_id hi)) }.

Definition contents (hi : hashid) : list Z := hn_id <$> h_id hi.

(** ** Chains *)

Lemma chain_ext nodes nodes' p l :
  (∀ i, i ∈ l → nodes' !! Z.to_nat i = nodes !! Z.to_nat i) → chain nodes p l → chain nodes' p l.
Proof.
  revert p. induction l as [|i l IH]; intros p H Hc; [done|]. destruct Hc as (-> & Hi & n & Hn & Hc).
  split; [done|]. split; [done|]. exists n. rewrite H by left. split; [done|]. apply IH; [|done]. intros. apply H. by right.
Qed.
Lemma chain_range nodes p l i : chain nodes p l → i ∈ l → 0 ≤ i < zlen nodes.
Proof.
  revert p. induction l as [|j l IH]; intros p Hc Hi; [by apply not_elem_of_nil in Hi|].
  destruct Hc as (_ & Hj & n & Hn & Hc). apply elem_of_cons in Hi as [->|Hi]; [|by eapply IH].
  apply lookup_lt_Some in Hn. unfold zlen. lia.
Qed.
(** A chain without repetition fits in the array. *)
Lemma chain_length nodes p l : chain nodes p l → NoDup l → (length l ≤ length nodes)%nat.
Proof.
  intros Hc Hnd.
  assert (l ⊆ seqZ 0 (zlen nodes)) as Hs.
  { intros i Hi. apply elem_of_seqZ. pose proof (chain_range _ _ _ _ Hc Hi). lia. }
  pose proof (NoDup_submseteq _ _ Hnd Hs) as Hle%submseteq_length. rewrite length_seqZ in Hle. unfold zlen in Hle. lia.
Qed.

Lemma id_at_node nodes i n : 0 ≤ i → nodes !! Z.to_nat i = Some n → id_at nodes i = Some (hn_id n).
Proof. intros Hi Hn. unfold id_at. by rewrite decide_True, Hn. Qed.

Lemma lookup_walk_spec fuel nodes p l id :
  chain nodes p l → (length l ≤ fuel)%nat →
  ∃ r, lookup_walk fuel nodes p id = Ok r ∧
    ((r ∈ l ∧ id_at nodes r = Some id) ∨ (r = -1 ∧ ∀ i, i ∈ l → id_at nodes i ≠ Some id)).
Proof.
  revert p fuel. induction l as [|i l IH]; intros p fuel Hc Hf.
  - cbn in Hc. subst p. exists (-1). destruct fuel; (split; [done|]); right; (split; [done|]); intros i Hi;
      by apply not_elem_of_nil in Hi.
  - destruct Hc as (-> & Hi & n & Hn & Hc). pose proof (id_at_node _ _ _ Hi Hn) as Hid.
    assert (rd nodes i = Ok n) as Hrd by by apply rd_lookup.
    destruct (decide (hn_id n = id)) as [E|E].
    + exists i. split; [|left; split; [left|by rewrite Hid, E]].
      destruct fuel; cbn [lookup_walk]; rewrite Hrd, bind_Ok, decide_True by done; done.
    + destruct fuel as [|fuel]; [cbn in Hf; lia|]. cbn [lookup_walk]. rewrite Hrd, bind_Ok, decide_False by done.
      destruct (IH (hn_next n) fuel Hc) as (r & -> & Hr); [cbn in Hf; lia|].
      exists r. split; [done|]. destruct Hr as [[Hr1 Hr2]|[-> Hr]]; [left; split; [by right|done]|right].
      split; [done|]. intros j [->|Hj]%elem_of_cons; [by rewrite Hid; intros [= ?]|by apply Hr].
Qed.

(** The node in front of the one taken out is linked to its successor. *)
Lemma remove_walk_spec fuel nodes c l id :
  chain nodes (Some c) (c :: l) → (length l ≤ fuel)%nat →
  ∃ r, remove_walk fuel nodes c id = Ok r ∧
    match r with
    | None => ∀ i, i ∈ l → id_at nodes i ≠ Some id
    | Some (t, nodes') => ∃ pre d post nd nt, c :: l = pre ++ d :: t :: post ∧ id_at nodes t = Some id ∧
        nodes !! Z.to_nat d = Some nd ∧ nodes !! Z.to_nat t = Some nt ∧
        nodes' = <[Z.to_nat d := mk_hnode (hn_id nd) (hn_next nt)]> nodes
    end.
Proof.
  revert c fuel. induction l as [|t l IH]; intros c fuel (_ & Hc & n & Hn & Hch) Hf.
  - cbn in Hch. exists None. split; [|intros i Hi; by apply not_elem_of_nil in Hi].
    destruct fuel; cbn [remove_walk]; rewrite (rd_lookup nodes c n), bind_Ok, Hch by done; done.
  - destruct Hch as (Et & Ht & nt & Hnt & Hch). pose proof (id_at_node _ _ _ Ht Hnt) as Hid.
    assert (∀ f, remove_walk f nodes c id = if decide (hn_id nt = id) then
        Ok (Some (t, <[Z.to_nat c := mk_hnode (hn_id n) (hn_next nt)]> nodes))
      else match f with O => Err OutOfFuel | S f => remove_walk f nodes t id end) as Estep.
    { intros f. assert (wr nodes c (mk_hnode (hn_id n) (hn_next nt)) = Ok (<[Z.to_nat c := mk_hnode (hn_id n) (hn_next nt)]> nodes)) as Hw
        by (apply wr_Ok; apply lookup_lt_Some in Hn; unfold zlen; lia).
      destruct f; cbn [remove_walk]; rewrite (rd_lookup nodes c n), bind_Ok, Et, (rd_lookup nodes t nt), bind_Ok by done;
        (destruct (decide (hn_id nt = id)); [by rewrite Hw|done]). }
    rewrite Estep. destruct (decide (hn_id nt = id)) as [E|E].
    + eexists. split; [done|]. exists [], c, l, n, nt. by rewrite Hid, E.
    + destruct fuel as [|fuel]; [cbn in Hf; lia|].
      destruct (IH t fuel) as (r & -> & Hr); [split; [done|]; split; [done|]; by exists nt|cbn in Hf; lia|].
      exists r. split; [done|]. destruct r as [[t' nodes']|].
      * destruct Hr as (pre & d & post & nd & nt' & El & Hr). exists (c :: pre), d, post, nd, nt'. by rewrite El.
      * intros i [->|Hi]%elem_of_cons; [by rewrite Hid; intros [= ?]|by apply Hr].
Qed.

Lemma chain_unlink nodes p pre d t post nd nt :
  chain nodes p (pre ++ d :: t :: post) → NoDup (pre ++ d :: t :: post) →
  nodes !! Z.to_nat d = Some nd → nodes !! Z.to_nat t = Some nt → 0 ≤ d →
  chain (<[Z.to_nat d := mk_hnode (hn_id nd) (hn_next nt)]> nodes) p (pre ++ d :: post).
Proof.
  intros Hc Hnd Hd Ht Hd0. revert p Hc Hnd. induction pre as [|i pre IH]; intros p Hc Hnd; cbn [app] in *.
  - destruct Hc as (-> & _ & n & Hn & _ & Ht0 & n2 & Hn2 & Hc). simplify_eq.
    apply NoDup_cons in Hnd as [Hdl Hnd]. split; [done|]. split; [done|].
    eexists. split; [apply list_lookup_insert_eq; by eapply lookup_lt_Some|]. cbn [hn_next].
    apply (chain_ext nodes); [|done]. intros i Hi. rewrite list_lookup_insert_ne; [done|].
    intros E. pose proof (chain_range _ _ _ _ Hc Hi). apply Hdl. right. by replace d with i by lia.
  - destruct Hc as (-> & Hi & n & Hn & Hc). apply NoDup_cons in Hnd as [Hil Hnd].
    split; [done|]. split; [done|]. exists n. split; [|by apply IH].
    rewrite list_lookup_insert_ne; [done|]. intros E. apply Hil. replace i with d by lia. apply elem_of_app. right. left.
Qed.

(** Counting the used nodes. *)
Lemma used_insert nodes c n n' :
  nodes !! c = Some n →
  zlen (filter (λ n, hn_id n ≠ -1) (<[c := n']> nodes)) = zlen (filter (λ n, hn_id n ≠ -1) nodes)
    - (if decide (hn_id n ≠ -1) then 1 else 0) + (if decide (hn_id n' ≠ -1) then 1 else 0).
Proof.
  intros Hc. rewrite insert_take_drop by (by eapply lookup_lt_Some).
  rewrite <- (take_drop_middle nodes c n Hc) at 3. rewrite !filter_app, !filter_cons, !zlen_app.
  destruct (decide (hn_id n ≠ -1)), (decide (hn_id n' ≠ -1)); rewrite ?zlen_cons; lia.
Qed.

(** ** Changing one bucket *)

Section Table.
Context (hi : hashid) (bk : list (list Z)) (W : hashid_wf hi bk).

Lemma mod_hash id : Z.land id (hashmod hi) = id `mod` (hashmod hi + 1) ∧ 1 ≤ hashmod hi + 1.
Proof.
  destruct (hw_mod _ _ W) as (k & Hk & ->). rewrite land_ones_mod by lia. rewrite Z.sub_add. split; [done|].
  pose proof (pow2_pos k). lia.
Qed.
Lemma bucket_of id : ∃ p l, rd (h_hash hi) (Z.land id (hashmod hi)) = Ok p ∧
  h_hash hi !! Z.to_nat (Z.land id (hashmod hi)) = Some p ∧ bk !! Z.to_nat (Z.land id (hashmod hi)) = Some l ∧
  0 ≤ Z.land id (hashmod hi) < zlen (h_hash hi).
Proof.
  destruct (hw_len _ _ W) as [Hl Hb]. destruct (mod_hash id) as [-> Hm].
  pose proof (Z.mod_pos_bound id (hashmod hi + 1) ltac:(lia)) as Hr.
  destruct (lookup_lt_is_Some_2 (h_hash hi) (Z.to_nat (id `mod` (hashmod hi + 1)))) as [p Hp]; [unfold zlen in *; lia|].
  destruct (lookup_lt_is_Some_2 bk (Z.to_nat (id `mod` (hashmod hi + 1)))) as [l Hl']; [unfold zlen in *; lia|].
  exists p, l. split; [by apply rd_lookup; [lia|]|]. split; [done|]. split; [done|]. lia.
Qed.

(** A used node is in the chain of its bucket. *)
Lemma used_in_chain i id l :
  id_at (h_id hi) i = Some id → id ≠ -1 → bk !! Z.to_nat (Z.land id (hashmod hi)) = Some l → i ∈ l ∧ 0 ≤ id.
Proof.
  intros Hi Hid Hl. unfold id_at in Hi. case_decide as Hi0; [|done].
  destruct (h_id hi !! Z.to_nat i) as [n|] eqn:Hn; [|done]. cbn in Hi. injection Hi as <-.
  destruct (hw_used _ _ W _ _ Hn) as [[? _]|(Hp & l' & Hl' & Hin)]; [done|]. simplify_eq.
  rewrite Z2Nat.id in Hin by done. done.
Qed.

Lemma wf_update h nodes' p' l' cnt :
  0 ≤ h < zlen (h_hash hi) → zlen nodes' = zlen (h_id hi) →
  chain nodes' p' l' → NoDup l' →
  (∀ i, i ∈ l' → ∃ id, id_at nodes' i = Some id ∧ 0 ≤ id ∧ Z.land id (hashmod hi) = h) →
  (∀ b l i, bk !! b = Some l → Z.of_nat b ≠ h → i ∈ l → nodes' !! Z.to_nat i = h_id hi !! Z.to_nat i) →
  (∀ i n, nodes' !! i = Some n → (hn_id n = -1 ∧ hn_next n = None) ∨
     (0 ≤ hn_id n ∧ ((Z.land (hn_id n) (hashmod hi) = h ∧ Z.of_nat i ∈ l') ∨
        (Z.land (hn_id n) (hashmod hi) ≠ h ∧ h_id hi !! i = Some n)))) →
  (∀ i j id, id_at nodes' i = Some id → id_at nodes' j = Some id → id ≠ -1 → i = j) →
  cnt = zlen (filter (λ n, hn_id n ≠ -1) nodes') →
  hashid_wf (mk_hashid (hashmod hi) (h_cap hi) cnt nodes' (<[Z.to_nat h := p']> (h_hash hi))) (<[Z.to_nat h := l']> bk).
Proof.
  intros Hh Hlen Hc Hnd Hin Hother Hused Hinj Hcnt. destruct W as [Wcap Wmod Wlen Wch Wused Winj _].
  split; cbn [hashmod h_cap h_count h_id h_hash]; try done.
  - by rewrite Hlen.
  - rewrite zlen_insert, !length_insert. done.
  - intros b p l Hp Hl. destruct (decide (b = Z.to_nat h)) as [->|Hne].
    + rewrite list_lookup_insert_eq in Hp by (unfold zlen in *; lia).
      rewrite list_lookup_insert_eq in Hl by (unfold zlen in *; lia). simplify_eq.
      split; [done|]. split; [done|]. intros i Hi. rewrite Z2Nat.id by lia. by apply Hin.
    + rewrite list_lookup_insert_ne in Hp by done. rewrite list_lookup_insert_ne in Hl by done.
      destruct (Wch b p l Hp Hl) as (Hch & Hn & Hids).
      assert (Z.of_nat b ≠ h) as Hbh by lia.
      assert (∀ i, i ∈ l → nodes' !! Z.to_nat i = h_id hi !! Z.to_nat i) as Hsame
        by (intros i Hi; by apply (Hother b l)).
      split; [by apply (chain_ext (h_id hi))|]. split; [done|]. intros i Hi. destruct (Hids i Hi) as (id & Hid & ?).
      exists id. split; [|done]. unfold id_at in *. case_decide; [|done]. by rewrite Hsame.
  - intros i n Hn. destruct (Hused i n Hn) as [?|(H0 & [[E Hi]|[E Hi]])]; [by left|right..].
    + split; [done|]. exists l'. rewrite E, list_lookup_insert_eq by (unfold zlen in *; lia). done.
    + split; [done|]. destruct (Wused i n Hi) as [[? _]|(_ & l & Hl & Hil)]; [lia|]. exists l.
      destruct (mod_hash (hn_id n)) as [Em Hm1]. pose proof (Z.mod_pos_bound (hn_id n) (hashmod hi + 1) ltac:(lia)).
      rewrite list_lookup_insert_ne; [done|]. intros E2. apply E. rewrite Em in *. lia.
Qed.

Lemma hashid_lookup_spec id :
  ∃ r, hashid_lookup hi id = Ok r ∧
    ((id_at (h_id hi) r = Some id ∧ 0 ≤ id) ∨ (r = -1 ∧ (id ≠ -1 → ∀ i, id_at (h_id hi) i ≠ Some id))).
Proof.
  unfold hashid_lookup. destruct (bucket_of id) as (p & l & -> & Hp & Hl & Hr). rewrite bind_Ok.
  destruct (hw_chain _ _ W _ _ _ Hp Hl) as (Hc & Hnd & Hids).
  destruct (lookup_walk_spec (length (h_id hi)) (h_id hi) p l id Hc (chain_length _ _ _ Hc Hnd)) as (r & -> & Hr').
  exists r. split; [done|]. destruct Hr' as [[Hin E]|[-> Hno]].
  - left. split; [done|]. destruct (Hids r Hin) as (id2 & E2 & ? & _). by simplify_eq.
  - right. split; [done|]. intros Hid i E. destruct (used_in_chain i id l E ltac:(lia) Hl) as [Hin _]. by apply (Hno i).
Qed.

Lemma find_free_spec n i id :
  0 ≤ id ≤ 2 ^ 30 → 0 ≤ i → i + Z.of_nat n ≤ h_cap hi →
  ∃ r, find_free n i hi id = Ok r ∧
    match r with
    | Some c => 0 ≤ c < h_cap hi ∧ id_at (h_id hi) c = Some (-1)
    | None => ∀ j, i ≤ j < i + Z.of_nat n → id_at (h_id hi) ((j + id) `mod` h_cap hi) ≠ Some (-1)
    end.
Proof.
  intros Hid. destruct (hw_cap _ _ W) as [Hcap Hc1]. revert i. induction n as [|n IH]; intros i Hi Hn; cbn [find_free].
  { exists None. split; [done|]. lia. }
  rewrite c_int_Ok, bind_Ok by (unfold INT_MIN, INT_MAX; lia). rewrite Z.rem_mod_nonneg by lia. cbv zeta.
  pose proof (Z.mod_pos_bound (i + id) (h_cap hi) ltac:(lia)) as Hm.
  destruct (rd_Ok (h_id hi) ((i + id) `mod` h_cap hi)) as [nd Hnd]; [lia|]. rewrite Hnd, bind_Ok.
  apply rd_Ok_inv in Hnd as [_ Hnd]. pose proof (id_at_node _ _ _ (proj1 Hm) Hnd) as Hat. case_decide as E.
  - eexists. split; [done|]. cbn. by rewrite Hat, E.
  - destruct (IH (i + 1)) as (r & -> & Hr); [lia|lia|]. exists r. split; [done|]. destruct r; [done|].
    intros j Hj. destruct (decide (j = i)) as [->|]; [rewrite Hat; by intros [= ?]|]. apply Hr. lia.
Qed.

(** A table that is not full has a free node, and the search finds one. *)
Lemma find_free_found id :
  0 ≤ id ≤ 2 ^ 30 → hashid_full hi = false →
  ∃ c, find_free (Z.to_nat (h_cap hi)) 0 hi id = Ok (Some c) ∧ 0 ≤ c < h_cap hi ∧ id_at (h_id hi) c = Some (-1).
Proof.
  intros Hid Hf. destruct (hw_cap _ _ W) as [Hcap Hc1].
  destruct (find_free_spec (Z.to_nat (h_cap hi)) 0 id Hid) as (r & E & Hr); [lia|lia|]. destruct r as [c|]; [by exists c|].
  exfalso. apply bool_decide_eq_false in Hf. apply Hf. rewrite (hw_count _ _ W), filter_all; [done|].
  apply Forall_lookup. intros i n Hn E'. apply lookup_lt_Some in Hn as Hlt. unfold zlen in Hcap.
  apply (Hr ((Z.of_nat i - id) `mod` h_cap hi)); [pose proof (Z.mod_pos_bound (Z.of_nat i - id) (h_cap hi)); lia|].
  rewrite Zplus_mod_idemp_l, Z.sub_add, Z.mod_small by lia.
  rewrite (id_at_node _ _ n) by (done || lia || by rewrite Nat2Z.id). by rewrite E'.
Qed.

Lemma id_at_insert nodes c n i :
  0 ≤ c < zlen nodes → id_at (<[Z.to_nat c := n]> nodes) i = if decide (i = c) then Some (hn_id n) else id_at nodes i.
Proof.
  intros Hc. unfold id_at. case_decide as Hi; [|by rewrite decide_False by lia]. destruct (decide (i = c)) as [->|Hne].
  - by rewrite list_lookup_insert_eq by (unfold zlen in *; lia).
  - by rewrite list_lookup_insert_ne by lia.
Qed.

Lemma hashid_insert_spec id :
  0 ≤ id ≤ 2 ^ 30 → hashid_full hi = false → (∀ i, id_at (h_id hi) i ≠ Some id) →
  ∃ c hi' bk', hashid_insert hi id = Ok (c, hi') ∧ hashid_wf hi' bk' ∧ 0 ≤ c < h_cap hi ∧
    contents hi !! Z.to_nat c = Some (-1) ∧ contents hi' = <[Z.to_nat c := id]> (contents hi) ∧ h_cap hi' = h_cap hi.
Proof.
  intros Hid Hf Hno. destruct (find_free_found id Hid Hf) as (c & Ef & Hc & Hat). destruct (hw_cap _ _ W) as [Hcap Hc1].
  unfold hashid_insert. rewrite Ef, bind_Ok. cbn [of_option]. rewrite bind_Ok.
  destruct (rd_Ok (h_id hi) c) as [nd Hrd]; [lia|]. rewrite Hrd, bind_Ok. apply rd_Ok_inv in Hrd as [_ Hnd].
  rewrite (id_at_node _ _ _ (proj1 Hc) Hnd) in Hat. injection Hat as Hm1.
  destruct (hw_used _ _ W _ _ Hnd) as [[_ Hnx]|[? _]]; [|lia].
  rewrite c_assert_true, bind_Ok by (by apply bool_decide_eq_true_2). cbv zeta.
  destruct (bucket_of id) as (p & l & -> & Hp & Hl & Hr). rewrite bind_Ok.
  rewrite (wr_Ok (h_id hi)), bind_Ok by lia. rewrite (wr_Ok (h_hash hi)), bind_Ok by lia. set (nodes' := <[_ := _]> (h_id hi)).
  destruct (hw_chain _ _ W _ _ _ Hp Hl) as (Hch & Hndl & Hids).
  (* the free node is in no chain *)
  assert (∀ b l, bk !! b = Some l → c ∉ l) as Hfree.
  { intros b l2 Hl2 Hin. destruct (lookup_lt_is_Some_2 (h_hash hi) b) as [p2 Hp2].
    { apply lookup_lt_Some in Hl2. destruct (hw_len _ _ W). lia. }
    destruct (hw_chain _ _ W _ _ _ Hp2 Hl2) as (_ & _ & Hi2). destruct (Hi2 c Hin) as (id2 & E2 & ? & _).
    rewrite (id_at_node _ _ _ (proj1 Hc) Hnd), Hm1 in E2. injection E2 as <-. lia. }
  assert (∀ b l i, bk !! b = Some l → i ∈ l → nodes' !! Z.to_nat i = h_id hi !! Z.to_nat i) as Hkeep.
  { intros b l2 i Hl2 Hi. apply list_lookup_insert_ne. intros E. apply (Hfree b l2 Hl2).
    destruct (lookup_lt_is_Some_2 (h_hash hi) b) as [p2 Hp2].
    { apply lookup_lt_Some in Hl2. destruct (hw_len _ _ W). lia. }
    destruct (hw_chain _ _ W _ _ _ Hp2 Hl2) as (Hc2 & _). pose proof (chain_range _ _ _ _ Hc2 Hi).
    by replace c with i by lia. }
  assert (∀ i, id_at nodes' i = if decide (i = c) then Some id else id_at (h_id hi) i) as Hid'
    by (intros i; unfold nodes'; rewrite id_at_insert by lia; done).
  eexists c, _, (<[Z.to_nat (Z.land id (hashmod hi)) := c :: l]> bk). split; [done|]. split; [|split; [done|split; [|split; [|done]]]].
  - apply wf_update; [done|by unfold nodes'; rewrite zlen_insert| | | | | | |].
    + split; [done|]. split; [lia|]. eexists. split; [apply list_lookup_insert_eq; unfold zlen in *; lia|].
      cbn [hn_next]. apply (chain_ext (h_id hi)); [|done]. intros i Hi. by eapply Hkeep.
    + apply NoDup_cons. split; [by apply (Hfree _ _ Hl)|done].
    + intros i Hi. rewrite Hid'. case_decide as E; [exists id; split; [done|]; split; [lia|done]|].
      apply elem_of_cons in Hi as [->|Hi]; [done|]. destruct (Hids i Hi) as (id2 & ? & ? & E2). exists id2.
      split; [done|]. split; [done|]. rewrite E2. lia.
    + intros b l2 i Hb _ Hi. by apply (Hkeep b l2).
    + intros i n Hn. destruct (decide (i = Z.to_nat c)) as [->|Hne].
      * unfold nodes' in Hn. rewrite list_lookup_insert_eq in Hn by (unfold zlen in *; lia). injection Hn as <-. cbn.
        right. split; [lia|]. left. split; [done|]. rewrite Z2Nat.id by lia. left.
      * unfold nodes' in Hn. rewrite list_lookup_insert_ne in Hn by done.
        destruct (hw_used _ _ W _ _ Hn) as [?|(H0 & l2 & Hl2 & Hin)]; [by left|right]. split; [done|].
        destruct (decide (Z.land (hn_id n) (hashmod hi) = Z.land id (hashmod hi))) as [E|E]; [left|by right].
        split; [done|]. rewrite E, Hl in Hl2. simplify_eq. by right.
    + intros i j id2. rewrite !Hid'. do 2 case_decide; intros E1 E2 Hn1; simplify_eq; try done.
      * by apply Hno in E2.
      * by apply Hno in E1.
      * by eapply (hw_inj _ _ W).
    + unfold nodes'. rewrite (used_insert _ _ _ _ Hnd), Hm1, (hw_count _ _ W). cbn [hn_id].
      rewrite decide_False, decide_True by lia. lia.
  - unfold contents. rewrite list_lookup_fmap, Hnd. cbn. by rewrite Hm1.
  - unfold contents. cbn [h_id]. unfold nodes'. by rewrite list_fmap_insert.
Qed.

(** Taking a node out of its chain: what both branches of [hashid_remove] leave. *)
Lemma unlink_wf h t id l l' p' nodes1 :
  0 ≤ h < zlen (h_hash hi) → bk !! Z.to_nat h = Some l → id_at (h_id hi) t = Some id → 0 ≤ id →
  Z.land id (hashmod hi) = h → (∀ i, i ∈ l' ↔ i ∈ l ∧ i ≠ t) → NoDup l' →
  zlen nodes1 = zlen (h_id hi) → (∀ i, id_at nodes1 i = id_at (h_id hi) i) →
  (∀ i, 0 ≤ i → i ∉ l → nodes1 !! Z.to_nat i = h_id hi !! Z.to_nat i) →
  chain nodes1 p' l' →
  let nodes' := <[Z.to_nat t := mk_hnode (-1) None]> nodes1 in
  hashid_wf (mk_hashid (hashmod hi) (h_cap hi) (h_count hi - 1) nodes' (<[Z.to_nat h := p']> (h_hash hi)))
    (<[Z.to_nat h := l']> bk) ∧
  contents (mk_hashid (hashmod hi) (h_cap hi) (h_count hi - 1) nodes' (<[Z.to_nat h := p']> (h_hash hi)))
    = <[Z.to_nat t := -1]> (contents hi).
Proof.
  intros Hh Hl Ht Hid Ehash Hl' Hnd' Hlen Hids Hrest Hch nodes'.
  destruct (lookup_lt_is_Some_2 (h_hash hi) (Z.to_nat h)) as [p Hp]; [unfold zlen in *; lia|].
  destruct (hw_chain _ _ W _ _ _ Hp Hl) as (Hc0 & Hnd & Hin).
  assert (0 ≤ t < zlen nodes1) as Htr.
  { rewrite Hlen. unfold id_at in Ht. case_decide; [|done]. destruct (h_id hi !! Z.to_nat t) eqn:E; [|done].
    apply lookup_lt_Some in E. unfold zlen. lia. }
  assert (∀ i, id_at nodes' i = if decide (i = t) then Some (-1) else id_at (h_id hi) i) as Hid'.
  { intros i. unfold nodes'. rewrite id_at_insert by done. by rewrite Hids. }
  assert (hn_id <$> nodes1 = hn_id <$> h_id hi) as Econt.
  { apply list_eq. intros i. specialize (Hids (Z.of_nat i)). unfold id_at in Hids.
    rewrite !decide_True, Nat2Z.id in Hids by lia. by rewrite !list_lookup_fmap. }
  assert (∃ n, nodes1 !! Z.to_nat t = Some n ∧ hn_id n = id) as (nt & Hnt & Ent).
  { rewrite <- Hids in Ht. unfold id_at in Ht. case_decide; [|done].
    destruct (nodes1 !! Z.to_nat t) as [n|]; [|done]. cbn in Ht. injection Ht as <-. by exists n. }
  split; [apply wf_update; try done|].
  - unfold nodes'. by rewrite zlen_insert.
  - apply (chain_ext nodes1); [|done]. intros i [Hi Hne]%Hl'. apply list_lookup_insert_ne.
    pose proof (chain_range _ _ _ _ Hc0 Hi). lia.
  - intros i [Hi Hne]%Hl'. rewrite Hid', decide_False by done. destruct (Hin i Hi) as (id2 & ? & ? & E).
    exists id2. split; [done|]. split; [done|]. rewrite E. lia.
  - intros b l2 i Hb Hbh Hi. destruct (lookup_lt_is_Some_2 (h_hash hi) b) as [p2 Hp2].
    { apply lookup_lt_Some in Hb. destruct (hw_len _ _ W). lia. }
    destruct (hw_chain _ _ W _ _ _ Hp2 Hb) as (Hc2 & _ & Hi2). destruct (Hi2 i Hi) as (id2 & Eid2 & _ & E2).
    pose proof (chain_range _ _ _ _ Hc2 Hi) as Hir.
    assert (i ∉ l) as Hil by (intros Hil; destruct (Hin i Hil) as (id3 & E3 & _ & E4); rewrite Eid2 in E3; simplify_eq; lia).
    unfold nodes'. rewrite list_lookup_insert_ne by (intros E; assert (i = t) by lia; subst i; rewrite Ht in Eid2; simplify_eq; lia).
    by apply Hrest; [lia|].
  - intros i n Hn. unfold nodes' in Hn. destruct (decide (i = Z.to_nat t)) as [->|Hne].
    { rewrite list_lookup_insert_eq in Hn by (unfold zlen in *; lia). injection Hn as <-. by left. }
    rewrite list_lookup_insert_ne in Hn by done. pose proof (Hids (Z.of_nat i)) as Hi.
    rewrite (id_at_node nodes1 _ n) in Hi by (lia || by rewrite Nat2Z.id).
    unfold id_at in Hi. rewrite decide_True, Nat2Z.id in Hi by lia.
    destruct (h_id hi !! i) as [n0|] eqn:Hn0; [|done]. cbn in Hi. injection Hi as En.
    destruct (hw_used _ _ W _ _ Hn0) as [[E1 E2]|(H0 & l2 & Hl2 & Hin2)].
    + left. rewrite En. split; [done|]. assert (Z.of_nat i ∉ l) as Hnl.
      { intros Hx. destruct (Hin _ Hx) as (id3 & E3 & ? & _). unfold id_at in E3.
        rewrite decide_True, Nat2Z.id, Hn0 in E3 by lia. cbn in E3. injection E3 as <-. lia. }
      specialize (Hrest _ (Nat2Z.is_nonneg i) Hnl). rewrite Nat2Z.id, Hn, Hn0 in Hrest. by injection Hrest as ->.
    + right. rewrite En. split; [done|]. destruct (decide (Z.land (hn_id n0) (hashmod hi) = h)) as [E|E]; [left|right].
      * split; [done|]. rewrite E, Hl in Hl2. simplify_eq. apply Hl'. split; [done|]. lia.
      * split; [done|]. assert (Z.of_nat i ∉ l) as Hnl.
        { intros Hx. destruct (Hin _ Hx) as (id3 & E3 & _ & E4). unfold id_at in E3.
          rewrite decide_True, Nat2Z.id, Hn0 in E3 by lia. cbn in E3. injection E3 as <-. lia. }
        specialize (Hrest _ (Nat2Z.is_nonneg i) Hnl). rewrite Nat2Z.id, Hn, Hn0 in Hrest. by injection Hrest as ->.
  - intros i j id2. rewrite !Hid'. do 2 case_decide; intros E1 E2 Hn1; simplify_eq; try done. by eapply (hw_inj _ _ W).
  - unfold nodes'. rewrite (used_insert _ _ _ _ Hnt), Ent, (hw_count _ _ W). cbn [hn_id].
    rewrite decide_True, decide_False by lia.
    assert (zlen (filter (λ n, hn_id n ≠ -1) nodes1) = zlen (filter (λ n, hn_id n ≠ -1) (h_id hi))) as ->; [|lia].
    clear - Econt. revert nodes1 Econt. generalize (h_id hi). intros l0. induction l0 as [|n l0 IH]; intros [|n1 l1] E; try done.
    cbn in E. injection E as E1 E2. rewrite !filter_cons, E1. specialize (IH l1 E2).
    destruct (decide (hn_id n ≠ -1)); rewrite ?zlen_cons; lia.
  - unfold contents. cbn [h_id]. unfold nodes'. by rewrite list_fmap_insert, Econt.
Qed.

Lemma hashid_remove_spec id :
  0 ≤ id → ∃ r hi' bk', hashid_remove hi id = Ok (r, hi') ∧ hashid_wf hi' bk' ∧ h_cap hi' = h_cap hi ∧
    ((id_at (h_id hi) r = Some id ∧ 0 ≤ r ∧ contents hi' = <[Z.to_nat r := -1]> (contents hi)) ∨
     (r = -1 ∧ hi' = hi ∧ ∀ i, id_at (h_id hi) i ≠ Some id)).
Proof.
  intros Hid. unfold hashid_remove. destruct (bucket_of id) as (p & l & -> & Hp & Hl & Hr). rewrite bind_Ok.
  destruct (hw_chain _ _ W _ _ _ Hp Hl) as (Hc & Hnd & Hids).
  assert (∀ i, i ∉ l → id_at (h_id hi) i ≠ Some id) as Habs.
  { intros i Hi E. destruct (used_in_chain i id l E ltac:(lia) Hl) as [Hin _]. done. }
  assert (∀ l0, (∀ i, i ∈ l0 → id_at (h_id hi) i ≠ Some id) → l = l0 →
    ∃ r hi' bk', Ok (-1, hi) = Ok (r, hi') ∧ hashid_wf hi' bk' ∧ h_cap hi' = h_cap hi ∧
    ((id_at (h_id hi) r = Some id ∧ 0 ≤ r ∧ contents hi' = <[Z.to_nat r := -1]> (contents hi)) ∨
     (r = -1 ∧ hi' = hi ∧ ∀ i, id_at (h_id hi) i ≠ Some id))) as Hnone.
  { intros l0 Hl0 ->. exists (-1), hi, bk. split; [done|]. split; [done|]. split; [done|]. right. split; [done|]. split; [done|].
    intros i. destruct (decide (i ∈ l0)); [by apply Hl0|by apply Habs]. }
  destruct p as [i|]; cycle 1.
  { destruct l; [|by destruct Hc]. apply (Hnone []); [|done]. intros i Hi. by apply not_elem_of_nil in Hi. }
  destruct l as [|i' l]; [done|]. pose proof Hc as (E & Hi & n & Hn & Hc'). injection E as <-.
  rewrite (rd_lookup _ _ _ Hi Hn), bind_Ok. pose proof (id_at_node _ _ _ Hi Hn) as Hat.
  apply NoDup_cons in Hnd as Hnd'. destruct Hnd' as [Hil Hndl].
  destruct (decide (hn_id n = id)) as [E|E].
  - rewrite wr_Ok, !bind_Ok by done. rewrite wr_Ok, bind_Ok by (by eapply chain_range; [exact Hc|left]).
    destruct (unlink_wf (Z.land id (hashmod hi)) i id (i :: l) l (hn_next n) (h_id hi)) as [W' Ec]; try done.
    { by rewrite Hat, E. }
    { intros j. rewrite elem_of_cons. split; [|naive_solver]. intros Hj. split; [by right|]. by intros ->. }
    eexists i, _, _. split; [done|]. split; [exact W'|]. split; [done|]. left. by rewrite Hat, E.
  - destruct (remove_walk_spec (length (h_id hi)) (h_id hi) i l id Hc) as (r & -> & Hw).
    { pose proof (chain_length _ _ _ Hc Hnd) as Hcl. cbn in Hcl. lia. }
    rewrite !bind_Ok. destruct r as [[t nodes1]|]; cycle 1.
    { apply (Hnone (i :: l)); [|done]. intros j [->|Hj]%elem_of_cons; [by rewrite Hat; intros [= ?]|by apply Hw]. }
    destruct Hw as (pre & d & post & nd & nt & El & Ht & Hd & Hnt & ->).
    assert (0 ≤ d < zlen (h_id hi) ∧ 0 ≤ t < zlen (h_id hi)) as [Hdr Htr].
    { split; (eapply chain_range; [exact Hc|]); rewrite El; apply elem_of_app; right; [left|right; left]. }
    pose proof Hnd as Hnd2. rewrite El in Hnd2. rewrite El in Hc. pose proof (chain_unlink _ _ _ _ _ _ _ _ Hc Hnd2 Hd Hnt (proj1 Hdr)) as Hc2.
    rewrite wr_Ok, bind_Ok by (by rewrite zlen_insert).
    apply NoDup_app in Hnd2 as (Hn1 & Hn2 & Hn3). apply NoDup_cons in Hn3 as [Hn4 Hn5]. apply NoDup_cons in Hn5 as [Hn6 Hn7].
    destruct (unlink_wf (Z.land id (hashmod hi)) t id (i :: l) (pre ++ d :: post) (Some i)
      (<[Z.to_nat d := mk_hnode (hn_id nd) (hn_next nt)]> (h_id hi))) as [W' Ec]; try done.
    + intros j. rewrite El, !elem_of_app, !elem_of_cons. split.
      * intros Hj. split; [naive_solver|]. intros ->. destruct Hj as [Hj|[->|Hj]]; [|apply Hn4; left|done].
        apply (Hn2 t Hj). right. left.
      * naive_solver.
    + apply NoDup_app. split; [done|]. split.
      * intros j Hj Hj2. apply (Hn2 j Hj). rewrite elem_of_cons in Hj2. rewrite !elem_of_cons. naive_solver.
      * apply NoDup_cons. split; [|done]. intros Hx. apply Hn4. by right.
    + by rewrite zlen_insert.
    + intros j. rewrite id_at_insert by lia. case_decide as Ej; [|done]. subst j. cbn. by rewrite (id_at_node _ _ _ (proj1 Hdr) Hd).
    + intros j Hj0 Hj. apply list_lookup_insert_ne. intros E2.
      apply Hj. rewrite El. replace j with d by lia. apply elem_of_app. right. left.
    + rewrite (list_insert_id (h_hash hi)) in W', Ec by done.
      eexists t, _, _. split; [done|]. split; [exact W'|]. split; [done|]. left. split; [done|]. split; [lia|done].
Qed.
End Table.

(** ** The empty table *)

Lemma grow_hashcap_spec fuel (k : Z) max :
  0 ≤ k ≤ 30 → max ≤ 2 ^ 30 → 30 - k ≤ Z.of_nat fuel →
  ∃ j, k ≤ j ≤ 30 ∧ grow_hashcap fuel (2 ^ k) max = Ok (2 ^ j) ∧ max ≤ 2 ^ j.
Proof.
  revert k. induction fuel as [|fuel IH]; intros k Hk Hm Hf; cbn [grow_hashcap]; case_decide as Hd.
  - assert (k = 30) as -> by lia. lia.
  - exists k. split; [lia|]. split; [done|lia].
  - assert (k < 30) by (destruct (decide (k = 30)); [subst; lia|lia]).
    replace (2 ^ k * 2) with (2 ^ (k + 1)) by (rewrite Z.pow_add_r; lia).
    assert (0 < 2 ^ (k + 1) ≤ 2 ^ 30) by (split; [apply pow2_pos; lia|apply Z.pow_le_mono_r; lia]).
    rewrite c_int_Ok, bind_Ok by (unfold INT_MIN, INT_MAX; lia).
    destruct (IH (k + 1)) as (j & ? & ? & ?); [lia|lia|lia|]. exists j. split; [lia|done].
  - exists k. split; [lia|]. split; [done|lia].
Qed.

Lemma hashid_init_spec max :
  1 ≤ max ≤ 2 ^ 30 → ∃ hi bk, hashid_init max = Ok hi ∧ hashid_wf hi bk ∧ h_cap hi = max ∧
    contents hi = replicate (Z.to_nat max) (-1).
Proof.
  intros Hm. unfold hashid_init. change 16 with (2 ^ 4).
  destruct (grow_hashcap_spec 32 4 max) as (j & Hj & -> & Hmax); [lia|lia|lia|]. rewrite bind_Ok.
  pose proof (pow2_pos j ltac:(lia)) as Hp.
  eexists _, (replicate (Z.to_nat (2 ^ j)) []). split; [done|]. split; [|split; [done|]].
  - split; cbn [hashmod h_cap h_count h_id h_hash].
    + rewrite zlen_replicate. lia.
    + exists j. split; [lia|done].
    + rewrite zlen_replicate, !length_replicate. lia.
    + intros b p l [-> _]%lookup_replicate [-> _]%lookup_replicate. split; [done|]. split; [constructor|].
      intros i Hi. by apply not_elem_of_nil in Hi.
    + intros i n [-> _]%lookup_replicate. by left.
    + intros i j' id Hi _ Hid. unfold id_at in Hi. case_decide; [|done].
      destruct (replicate _ _ !! Z.to_nat i) as [n|] eqn:E; [|done]. apply lookup_replicate in E as [-> _].
      cbn in Hi. injection Hi as <-. done.
    + rewrite filter_none; [done|]. apply Forall_replicate. cbn. tauto.
  - unfold contents. cbn [h_id]. by rewrite fmap_replicate.
Qed.

(** ** As a map from indices to ids *)

Section Map.
Context (hi : hashid) (bk : list (list Z)) (W : hashid_wf hi bk).

Lemma contents_at (i : nat) id : contents hi !! i = Some id ↔ id_at (h_id hi) (Z.of_nat i) = Some id.
Proof. unfold contents, id_at. by rewrite decide_True, Nat2Z.id, list_lookup_fmap by lia. Qed.
Lemma contents_at_Z i id : id_at (h_id hi) i = Some id → 0 ≤ i ∧ contents hi !! Z.to_nat i = Some id.
Proof.
  intros H. assert (0 ≤ i) by (unfold id_at in H; by case_decide). split; [done|].
  apply contents_at. by rewrite Z2Nat.id.
Qed.
Lemma contents_absent id : (∀ i, id_at (h_id hi) i ≠ Some id) ↔ id ∉ contents hi.
Proof.
  rewrite list_elem_of_lookup. split.
  - intros H [i Hi%contents_at]. by apply H in Hi.
  - intros H i [_ Hi]%contents_at_Z. apply H. by exists (Z.to_nat i).
Qed.
Lemma contents_inj (i j : nat) id : contents hi !! i = Some id → contents hi !! j = Some id → id ≠ -1 → i = j.
Proof. intros Hi%contents_at Hj%contents_at Hid. pose proof (hw_inj _ _ W _ _ _ Hi Hj Hid). lia. Qed.
Lemma contents_nonneg (i : nat) id : contents hi !! i = Some id → id = -1 ∨ 0 ≤ id.
Proof.
  unfold contents. rewrite list_lookup_fmap. intros (n & Hn & ->)%fmap_Some.
  destruct (hw_used _ _ W _ _ Hn) as [[? _]|[? _]]; auto.
Qed.

(** Any id can be looked up; a negative one is not there. *)
Lemma lookup_contents id :
  ∃ r, hashid_lookup hi id = Ok r ∧
    ((∃ c : nat, r = Z.of_nat c ∧ contents hi !! c = Some id ∧ 0 ≤ id) ∨ (r = -1 ∧ (id ∉ contents hi ∨ id = -1))).
Proof.
  destruct (hashid_lookup_spec hi bk W id) as (r & -> & Hr). exists r. split; [done|].
  destruct Hr as [([H0 Hr]%contents_at_Z & Hid)|[-> Hno]]; [left|right].
  - exists (Z.to_nat r). by rewrite Z2Nat.id.
  - split; [done|]. destruct (decide (id = -1)); [by right|left]. by apply contents_absent, Hno.
Qed.
Lemma insert_contents id :
  0 ≤ id ≤ 2 ^ 30 → id ∉ contents hi → hashid_full hi = false →
  ∃ (c : nat) hi' bk', hashid_insert hi id = Ok (Z.of_nat c, hi') ∧ hashid_wf hi' bk' ∧ h_cap hi' = h_cap hi ∧
    contents hi !! c = Some (-1) ∧ contents hi' = <[c := id]> (contents hi).
Proof.
  intros Hid Hni Hf. destruct (hashid_insert_spec hi bk W id Hid Hf (proj2 (contents_absent id) Hni))
    as (c & hi' & bk' & E & W' & Hc & H1 & H2 & H3).
  exists (Z.to_nat c), hi', bk'. rewrite Z2Nat.id by lia. done.
Qed.
Lemma remove_contents id :
  0 ≤ id → ∃ r hi' bk', hashid_remove hi id = Ok (r, hi') ∧ hashid_wf hi' bk' ∧ h_cap hi' = h_cap hi ∧
    ((∃ c : nat, r = Z.of_nat c ∧ contents hi !! c = Some id ∧ contents hi' = <[c := -1]> (contents hi)) ∨
     (r = -1 ∧ id ∉ contents hi ∧ hi' = hi)).
Proof.
  intros Hid. destruct (hashid_remove_spec hi bk W id Hid) as (r & hi' & bk' & E & W' & Hcap & Hr). exists r, hi', bk'.
  split; [done|]. split; [done|]. split; [done|]. destruct Hr as [([_ H1]%contents_at_Z & H2 & H3)|(-> & -> & Hno)].
  - left. exists (Z.to_nat r). by rewrite Z2Nat.id by lia.
  - right. split; [done|]. split; [by apply contents_absent|done].
Qed.
End Map.

(** C19: the id table is a finite map, for the ids and calls it is made for: tables for up
    to 2^30 connections, ids from 0 to 2^30 (beyond, the sum of an id and a capacity
    may not fit an [int]), and inserts only of an id that is not there into a table that
    is not full. From [hashid_init] on and through any such inserts and any removes:
    lookup returns the index at which the id was put, or -1 when it is not there; such
    an insert fails no assertion, takes an unused index and changes nothing else;
    removing returns the id's index and frees it, or returns -1 and changes nothing. *)
Theorem hashid_is_a_finite_map :
  (∀ max, 1 ≤ max ≤ 2 ^ 30 → ∃ hi bk, hashid_init max = Ok hi ∧ hashid_wf hi bk ∧ h_cap hi = max ∧
     contents hi = replicate (Z.to_nat max) (-1)) ∧
  ∀ hi bk id, hashid_wf hi bk → 0 ≤ id ≤ 2 ^ 30 →
    (∃ r, hashid_lookup hi id = Ok r ∧ (∀ i : nat, r = Z.of_nat i ↔ contents hi !! i = Some id) ∧
       (r = -1 ↔ id ∉ contents hi)) ∧
    (id ∉ contents hi → hashid_full hi = false →
     ∃ (c : nat) hi' bk', hashid_insert hi id = Ok (Z.of_nat c, hi') ∧ hashid_wf hi' bk' ∧ h_cap hi' = h_cap hi ∧
       contents hi !! c = Some (-1) ∧ contents hi' = <[c := id]> (contents hi)) ∧
    (∃ r hi' bk', hashid_remove hi id = Ok (r, hi') ∧ hashid_wf hi' bk' ∧ h_cap hi' = h_cap hi ∧
       ((∃ c : nat, r = Z.of_nat c ∧ contents hi !! c = Some id ∧ contents hi' = <[c := -1]> (contents hi)) ∨
        (r = -1 ∧ id ∉ contents hi ∧ hi' = hi))).
Proof.
  split; [apply hashid_init_spec|]. intros hi bk id W Hid. split; [|split].
  - destruct (lookup_contents hi bk W id) as (r & E & Hr). exists r. split; [done|].
    destruct Hr as [(c & -> & Hc & _)|[-> [Hno|?] ] ]; [| |lia].
    + split.
      * intros i. split; [by intros ->%Nat2Z.inj|]. intros Hi. by rewrite (contents_inj _ _ W i c id) by (done || lia).
      * split; [lia|]. intros []. by eapply list_elem_of_lookup_2.
    + split; [|done]. intros i. split; [lia|]. intros []%list_elem_of_lookup_2%Hno.
  - by eapply insert_contents.
  - apply (remove_contents _ _ W). lia.
Qed.

Lemma hashid_is_a_finite_map_witness :
  ∃ hi r hi', hashid_init 4 = Ok hi ∧ hashid_lookup hi 7 = Ok (-1) ∧ hashid_insert hi 7 = Ok (r, hi').
Proof.
  destruct hashid_is_a_finite_map as [Hinit Hops].
  destruct (Hinit 4) as (hi & bk & E & W & Hcap & Hc).
  - lia.
  - destruct (Hops hi bk 7 W) as ((r & El & _ & Hr) & Hins & _); [lia|].
    assert (7 ∉ contents hi) as Hno by (rewrite Hc; vm_compute; intros H; repeat (apply elem_of_cons in H as [H|H]; [discriminate|]); by apply elem_of_nil in H).
    destruct Hins as (c & hi' & bk' & Ei & _).
    + exact Hno.
    + vm_compute in E. injection E as <-. reflexivity.
    + exists hi, (Z.of_nat c), hi'. split; [exact E|]. split; [|exact Ei].
      destruct Hr as [_ Hr]. by rewrite El, (Hr Hno).
Defined.
