(* ===== verification/Gate.v ===== *)
(** * The gate: service-src/databuffer.h and service_gate.c

    The gate accepts connections, cuts the byte stream of each into packets behind a
    length header of two or four bytes, and forwards the packets to the broker, the
    connection's agent or the watchdog. What it asks of the rest of the node (sends,
    socket calls, log lines) is the list of its actions, in order. The theorem: for
    every chunking of a stream the packets forwarded are those of the stream. *)
From Stdlib Require Import String.
From stdpp Require Import base numbers list.
From S2P Require Import Prelude CString Format Server Netpack Command HashId.

(** ** databuffer.h *)

Definition MESSAGEPOOL : Z := 1023.

(** A [struct message] is its buffer, whose length is its size. *)
Record databuffer : Type := mk_db {
  db_header : Z;
  db_offset : Z;
  db_size : Z;
  db_msgs : list (list Z) }.
(** [struct messagepool]: the blocks allocated and the messages on the free list. *)
Record messagepool : Type := mk_pool { mp_pools : Z; mp_free : Z }.

Definition db_empty : databuffer := mk_db 0 0 0 [].

(** [_return_message]: the first message goes back to the pool. *)
Definition return_message (db : databuffer) (mp : messagepool) : result (databuffer * messagepool) :=
  match db_msgs db with
  | [] => Err NullDeref
  | _ :: l => Ok (mk_db (db_header db) (db_offset db) (db_size db) l, mk_pool (mp_pools mp) (mp_free mp + 1))
  end.

(** [memcpy] of [n] bytes of the message at the offset. *)
Definition copy_from (m : list Z) (offset n : Z) : result (list Z) :=
  if decide (0 ≤ offset ∧ 0 ≤ n ∧ offset + n ≤ zlen m) then
    Ok (take (Z.to_nat n) (drop (Z.to_nat offset) m))
  else Err OutOfBounds.

(** The loop of [databuffer_read]: the bytes copied to [buffer]; every turn but the
    last takes a message. *)
Fixpoint read_loop (fuel : nat) (db : databuffer) (mp : messagepool) (sz : Z) :
    result (list Z * databuffer * messagepool) :=
  current ← of_option NullDeref (head (db_msgs db));
  let bsz := zlen current - db_offset db in
  if decide (sz < bsz) then
    l ← copy_from current (db_offset db) sz;
    Ok (l, mk_db (db_header db) (db_offset db + sz) (db_size db) (db_msgs db), mp)
  else if decide (bsz = sz) then
    l ← copy_from current (db_offset db) sz;
    r ← return_message (mk_db (db_header db) 0 (db_size db) (db_msgs db)) mp;
    Ok (l, r.1, r.2)
  else
    match fuel with
    | O => Err OutOfFuel
    | S f =>
        l ← copy_from current (db_offset db) bsz;
        r ← return_message db mp;
        let db := mk_db (db_header r.1) 0 (db_size r.1) (db_msgs r.1) in
        rest ← read_loop f db r.2 (sz - bsz);
        let '(l', db, mp) := rest in
        Ok (l ++ l', db, mp)
    end.
Definition databuffer_read (db : databuffer) (mp : messagepool) (sz : Z) :
    result (list Z * databuffer * messagepool) :=
  c_assert (bool_decide (sz ≤ db_size db));;
  read_loop (length (db_msgs db)) (mk_db (db_header db) (db_offset db) (db_size db - sz) (db_msgs db)) mp sz.

Definition databuffer_push (db : databuffer) (mp : messagepool) (data : list Z) :
    result (databuffer * messagepool) :=
  let mp := if decide (mp_free mp ≠ 0) then mk_pool (mp_pools mp) (mp_free mp - 1)
            else mk_pool (mp_pools mp + 1) (MESSAGEPOOL - 1) in
  size ← c_int (db_size db + zlen data);
  Ok (mk_db (db_header db) (db_offset db) size (db_msgs db ++ [data]), mp).

(** [plen[0] << 24] shifts an [int]: a byte above 127 leaves its range, and the header
    is negative on the machines the server runs on. *)
Definition header_value (plen : list Z) : Z :=
  match plen with
  | [a; b] => Z.lor (Z.shiftl a 8) b
  | [a; b; c; d] => Z.lor (Z.lor (Z.lor (s32 (Z.shiftl a 24)) (Z.shiftl b 16)) (Z.shiftl c 8)) d
  | _ => 0
  end.
Definition databuffer_readheader (db : databuffer) (mp : messagepool) (header_size : Z) :
    result (Z * databuffer * messagepool) :=
  if decide (db_header db = 0 ∧ db_size db < header_size) then Ok (-1, db, mp)
  else
    r ← (if decide (db_header db = 0) then
           r ← databuffer_read db mp header_size;
           let '(plen, db, mp) := r in
           Ok (mk_db (header_value plen) (db_offset db) (db_size db) (db_msgs db), mp)
         else Ok (db, mp));
    let '(db, mp) := r in
    if decide (db_size db < db_header db) then Ok (-1, db, mp) else Ok (db_header db, db, mp).
Definition databuffer_reset (db : databuffer) : databuffer :=
  mk_db 0 (db_offset db) (db_size db) (db_msgs db).
(** Every message goes back to the pool, then the struct is zeroed. *)
Definition databuffer_clear (db : databuffer) (mp : messagepool) : databuffer * messagepool :=
  (db_empty, mk_pool (mp_pools mp) (mp_free mp + zlen (db_msgs db))).

(** ** service_gate.c *)

Record connection : Type := mk_conn {
  cn_id : Z;
  cn_agent : Z;
  cn_client : Z;
  cn_remote : cstring;
  cn_buffer : databuffer }.
Record gate : Type := mk_gate {
  listen_id : Z;
  watchdog : Z;
  broker : Z;
  client_tag : Z;
  header_size : Z;
  max_connection : Z;
  g_hash : hashid;
  conn : list connection;
  g_mp : messagepool }.

(** What the gate asks of the node: [skynet_send] with source, destination and type,
    the socket calls, and log lines. *)
Inductive action : Type :=
| ASend (src dest type : Z) (data : list Z)
| ASocketSend (id : Z) (data : list Z)
| ASocketClose (id : Z)
| ASocketStart (id : Z)
| AFree (data : list Z)
| AError (text : cstring).

Definition no_conn : connection := mk_conn (-1) 0 0 [] db_empty.

(** [_forward]: [size] bytes of the connection's buffer to whom they go; with no
    broker, agent or watchdog the bytes stay where they are. *)
Definition forward (g : gate) (c : connection) (size : Z) :
    result (list action * databuffer * messagepool) :=
  let tag := Z.lor (client_tag g) PTYPE_TAG_DONTCOPY in
  if decide (broker g ≠ 0) then
    r ← databuffer_read (cn_buffer c) (g_mp g) size;
    let '(temp, db, mp) := r in Ok ([ASend 0 (broker g) tag temp], db, mp)
  else if decide (cn_agent c ≠ 0) then
    r ← databuffer_read (cn_buffer c) (g_mp g) size;
    let '(temp, db, mp) := r in Ok ([ASend (cn_client c) (cn_agent c) tag temp], db, mp)
  else if decide (watchdog g ≠ 0) then
    r ← databuffer_read (cn_buffer c) (g_mp g) size;
    let '(temp, db, mp) := r in
    Ok ([ASend 0 (watchdog g) (Z.lor PTYPE_TEXT PTYPE_TAG_DONTCOPY) (print_d (cn_id c) ++ lit " data " ++ temp)], db, mp)
  else Ok ([], cn_buffer c, g_mp g).

Definition with_db (c : connection) (db : databuffer) : connection :=
  mk_conn (cn_id c) (cn_agent c) (cn_client c) (cn_remote c) db.
Definition with_mp (g : gate) (mp : messagepool) : gate :=
  mk_gate (listen_id g) (watchdog g) (broker g) (client_tag g) (header_size g) (max_connection g)
    (g_hash g) (conn g) mp.

(** The loop of [dispatch_message]; the fuel bounds its turns. *)
Fixpoint gate_loop (fuel : nat) (g : gate) (c : connection) (id : Z) :
    result (list action * connection * messagepool) :=
  match fuel with
  | O => Err OutOfFuel
  | S f =>
      r ← databuffer_readheader (cn_buffer c) (g_mp g) (header_size g);
      let '(size, db, mp) := r in
      let c := with_db c db in
      let g := with_mp g mp in
      if decide (size < 0) then Ok ([], c, mp)
      else if decide (0 < size) then
        if decide (0x1000000 ≤ size) then
          let k := databuffer_clear db mp in
          Ok ([ASocketClose id; AError (lit "Recv socket message > 16M")], with_db c k.1, k.2)
        else
          r ← forward g c size;
          let '(acts, db, mp) := r in
          rest ← gate_loop f (with_mp g mp) (with_db c (databuffer_reset db)) id;
          let '(acts', c, mp) := rest in
          Ok (acts ++ acts', c, mp)
      else gate_loop f g c id
  end.
(** [dispatch_message]: a turn that does not return takes a header at least. *)
Definition dispatch_message (g : gate) (c : connection) (id : Z) (data : list Z) :
    result (list action * connection * messagepool) :=
  r ← databuffer_push (cn_buffer c) (g_mp g) data;
  let '(db, mp) := r in
  gate_loop (S (Z.to_nat (db_size db + 1))) (with_mp g mp) (with_db c db) id.

(** [_report] to the watchdog, from a buffer of 1024 bytes. *)
Definition report (g : gate) (text : cstring) : result (list action) :=
  if decide (watchdog g = 0) then Ok []
  else if decide (zlen text < 1024) then Ok [ASend 0 (watchdog g) PTYPE_TEXT text]
  else Err OutOfBounds.

Definition set_conn (g : gate) (hash : hashid) (i : Z) (c : connection) (mp : messagepool) : result gate :=
  conn ← wr (conn g) i c;
  Ok (mk_gate (listen_id g) (watchdog g) (broker g) (client_tag g) (header_size g) (max_connection g)
        hash conn mp).

(** The cases of [dispatch_socket_message]. *)
Definition on_data (g : gate) (id : Z) (data : list Z) : result (list action * gate) :=
  i ← hashid_lookup (g_hash g) id;
  if decide (0 ≤ i) then
    c ← rd (conn g) i;
    r ← dispatch_message g c id data;
    let '(acts, c, mp) := r in
    g ← set_conn g (g_hash g) i c mp;
    Ok (acts, g)
  else Ok ([AError (lit "Drop unknown connection " ++ print_d id ++ lit " message"); ASocketClose id; AFree data], g).
Definition on_connect (g : gate) (id : Z) : result (list action * gate) :=
  if decide (id = listen_id g) then Ok ([], g)
  else
    i ← hashid_lookup (g_hash g) id;
    if decide (i < 0) then
      Ok ([AError (lit "Close unknown connection " ++ print_d id); ASocketClose id], g)
    else Ok ([], g).
Definition on_close (g : gate) (id : Z) : result (list action * gate) :=
  r ← hashid_remove (g_hash g) id;
  let '(i, hash) := r in
  if decide (0 ≤ i) then
    c ← rd (conn g) i;
    let k := databuffer_clear (cn_buffer c) (g_mp g) in
    g ← set_conn g hash i no_conn k.2;
    acts ← report g (print_d id ++ lit " close");
    Ok (acts, g)
  else Ok ([], g).
(** The remote address is copied to 32 bytes, a NUL behind it. *)
Definition on_accept (g : gate) (id ud : Z) (address : list Z) : result (list action * gate) :=
  c_assert (bool_decide (listen_id g = id));;
  if hashid_full (g_hash g) then Ok ([ASocketClose ud], g)
  else
    r ← hashid_insert (g_hash g) ud;
    let '(i, hash) := r in
    c ← rd (conn g) i;
    let remote_name := take 31 address in
    let c := mk_conn ud (cn_agent c) (cn_client c) remote_name (cn_buffer c) in
    g ← set_conn g hash i c (g_mp g);
    acts ← report g (print_d ud ++ lit " open " ++ print_d ud ++ lit " " ++ until_nul remote_name ++ lit ":0");
    Ok (acts ++ [AError (lit "socket open: " ++ print_x (u32 ud))], g).

Definition dispatch_socket_message (g : gate) (m : socket_message) : result (list action * gate) :=
  if decide (sm_type m = SKYNET_SOCKET_TYPE_DATA) then
    data ← of_option NullDeref (sm_buffer m);
    on_data g (sm_id m) data
  else if decide (sm_type m = SKYNET_SOCKET_TYPE_CONNECT) then on_connect g (sm_id m)
  else if decide (sm_type m = SKYNET_SOCKET_TYPE_CLOSE ∨ sm_type m = SKYNET_SOCKET_TYPE_ERROR) then
    on_close g (sm_id m)
  else if decide (sm_type m = SKYNET_SOCKET_TYPE_ACCEPT) then on_accept g (sm_id m) (sm_ud m) (sm_padding m)
  else if decide (sm_type m = SKYNET_SOCKET_TYPE_WARNING) then
    Ok ([AError (lit "fd (" ++ print_d (sm_id m) ++ lit ") send buffer (" ++ print_d (sm_ud m) ++ lit ")K")], g)
  else Ok ([], g).

(** *** Commands from other services *)

(** The index of the first space, or the size. *)
Fixpoint first_space (l : list Z) : Z :=
  match l with [] => 0 | c :: l => if decide (c = 32) then 0 else 1 + first_space l end.
(** [memcmp(a, b, n) == 0], which looks no further than the first difference. *)
Fixpoint memcmp_eq (a b : list Z) (n : nat) {struct n} : result bool :=
  match n with
  | O => Ok true
  | S n =>
      match a, b with
      | x :: a, y :: b => if decide (x = y) then memcmp_eq a b n else Ok false
      | _, _ => Err OutOfBounds
      end
  end.
Definition is_command (tmp : list Z) (i : Z) (name : cstring) : result bool :=
  memcmp_eq tmp (name ++ [0]) (Z.to_nat i).

(** [_parm]: what follows the command and its spaces is moved to the front. *)
Fixpoint skip_spaces (n : nat) (msg : list Z) (command_sz : Z) : result Z :=
  match n with
  | O => Ok command_sz
  | S n => c ← rd msg command_sz; if decide (c ≠ 32) then Ok command_sz else skip_spaces n msg (command_sz + 1)
  end.
Definition parm (msg : list Z) (sz command_sz : Z) : result (list Z) :=
  k ← skip_spaces (Z.to_nat (sz - command_sz)) msg command_sz;
  msg ← c_for (Z.to_nat (sz - k)) k (λ i t, x ← rd t i; wr t (i - k) x) msg;
  wr msg (sz - k) 0.

(** [strsep(&p, " ")] on the string at an offset: the place behind the separator. *)
Fixpoint find_sep (l : list Z) (n : Z) : result (option Z) :=
  match l with
  | [] => Err OutOfBounds
  | c :: l => if decide (c = 0) then Ok None else if decide (c = 32) then Ok (Some n) else find_sep l (n + 1)
  end.
Definition strsep_at (tmp : list Z) (off : Z) : result (option Z * list Z) :=
  p ← find_sep (drop (Z.to_nat off) tmp) off;
  match p with
  | None => Ok (None, tmp)
  | Some p => tmp ← wr tmp p 0; Ok (Some (p + 1), tmp)
  end.

Definition set_agent (c : connection) (agentaddr clientaddr : Z) : connection :=
  mk_conn (cn_id c) agentaddr clientaddr (cn_remote c) (cn_buffer c).
Definition forward_agent (g : gate) (fd agentaddr clientaddr : Z) : result gate :=
  id ← hashid_lookup (g_hash g) fd;
  if decide (0 ≤ id) then
    c ← rd (conn g) id;
    set_conn g (g_hash g) id (set_agent c agentaddr clientaddr) (g_mp g)
  else Ok g.
(** The arguments of the forward command: id, agent and client. *)
Definition forward_args (g : gate) (tmp : list Z) : result gate :=
  r ← strsep_at tmp 0;
  match r with
  | (None, _) => Ok g
  | (Some agent, tmp) =>
      idstr ← c_str tmp;
      r ← strsep_at tmp agent;
      match r with
      | (None, _) => Ok g
      | (Some client, tmp) =>
          a ← c_str (drop (Z.to_nat (agent + 1)) tmp);
          c ← c_str (drop (Z.to_nat (client + 1)) tmp);
          forward_agent g (s32 (strtol10 idstr)) (u32 (strtoul16 a)) (u32 (strtoul16 c))
      end
  end.

Section Service.
(** What [skynet_queryname] answers and [skynet_socket_listen] returns. *)
Context (queryname : cstring → Z) (socket_listen : cstring → Z → Z).

Definition set_broker (g : gate) (h : Z) : gate :=
  mk_gate (listen_id g) (watchdog g) h (client_tag g) (header_size g) (max_connection g) (g_hash g) (conn g) (g_mp g).
Definition set_listen (g : gate) (id : Z) : gate :=
  mk_gate id (watchdog g) (broker g) (client_tag g) (header_size g) (max_connection g) (g_hash g) (conn g) (g_mp g).

(** A command with a socket id that is in the table. *)
Definition on_known (g : gate) (tmp : list Z) (act : Z → action) : result (list action * gate) :=
  s ← c_str tmp;
  let uid := s32 (strtol10 s) in
  id ← hashid_lookup (g_hash g) uid;
  Ok (if decide (0 ≤ id) then [act uid] else [], g).

Definition ctrl (g : gate) (msg : list Z) : result (list action * gate) :=
  let sz := zlen msg in
  let tmp := msg ++ [0] in
  if decide (sz = 0) then Ok ([], g)
  else
    let i := first_space msg in
    b ← is_command tmp i (lit "kick");
    if (b : bool) then tmp ← parm tmp sz i; on_known g tmp ASocketClose
    else
    b ← is_command tmp i (lit "forward");
    if (b : bool) then tmp ← parm tmp sz i; g ← forward_args g tmp; Ok ([], g)
    else
    b ← is_command tmp i (lit "broker");
    if (b : bool) then tmp ← parm tmp sz i; s ← c_str tmp; Ok ([], set_broker g (queryname s))
    else
    b ← is_command tmp i (lit "start");
    if (b : bool) then tmp ← parm tmp sz i; on_known g tmp ASocketStart
    else
    b ← is_command tmp i (lit "close");
    if (b : bool) then
      if decide (0 ≤ listen_id g) then Ok ([ASocketClose (listen_id g)], set_listen g (-1)) else Ok ([], g)
    else s ← c_str tmp; Ok ([AError (lit "[gate] Unkown command : " ++ s)], g).

(** The messages of [_cb] by their type; the boolean says that the data is kept. *)
Inductive gate_input : Type :=
| GText (msg : list Z)
| GClient (source : Z) (msg : list Z)
| GSocket (m : socket_message).

Definition gate_cb (g : gate) (input : gate_input) : result (bool * list action * gate) :=
  match input with
  | GText msg => r ← ctrl g msg; Ok (false, r.1, r.2)
  | GClient source msg =>
      if decide (zlen msg ≤ 4) then Ok (false, [AError (lit "Invalid client message from " ++ print_x source)], g)
      else
        let idbuf := drop (length msg - 4) msg in
        b0 ← rd idbuf 0; b1 ← rd idbuf 1; b2 ← rd idbuf 2; b3 ← rd idbuf 3;
        let uid := u32 (Z.lor (Z.lor (Z.lor b0 (Z.shiftl b1 8)) (Z.shiftl b2 16)) (Z.shiftl b3 24)) in
        id ← hashid_lookup (g_hash g) (s32 uid);
        if decide (0 ≤ id) then Ok (true, [ASocketSend (s32 uid) (take (length msg - 4) msg)], g)
        else Ok (false, [AError (lit "Invalid client id " ++ print_d (s32 uid) ++ lit " from " ++ print_x source)], g)
  | GSocket m => r ← dispatch_socket_message g m; Ok (false, r.1, r.2)
  end.

(** *** Creation and release *)

Definition gate_create : gate := mk_gate (-1) 0 0 0 0 0 (mk_hashid 0 0 0 [] []) [] (mk_pool 0 0).

Definition gate_release (g : gate) : list action :=
  (ASocketClose ∘ cn_id <$> filter (λ c, 0 ≤ cn_id c) (take (Z.to_nat (max_connection g)) (conn g)))
  ++ (if decide (0 ≤ listen_id g) then [ASocketClose (listen_id g)] else []).

(** [strchr(s, ':')]: the text before and behind the first colon. *)
Fixpoint split_colon (s : cstring) : cstring * option cstring :=
  match s with
  | [] => ([], None)
  | c :: r => if decide (c = 58) then ([], Some r) else let t := split_colon r in (c :: t.1, t.2)
  end.
Definition start_listen (g : gate) (listen_addr : cstring) : Z * list action * gate :=
  let r := split_colon listen_addr in
  let '(host, port) := match r.2 with
                       | None => ([], s32 (strtol10 listen_addr))
                       | Some p => (r.1, s32 (strtol10 p))
                       end in
  if decide (port ≤ 0) then (1, [AError (lit "Invalid gate address " ++ listen_addr)], g)
  else
    let g := set_listen g (socket_listen host port) in
    if decide (listen_id g < 0) then (1, [], g) else (0, [ASocketStart (listen_id g)], g).

(** [%s] and [%d] of [sscanf]: what was read and what follows, [None] when nothing
    matches. *)
Definition scan_s (s : cstring) : option (cstring * cstring) :=
  let w := Command.word (skip_space s) in
  match w.1 with [] => None | _ => Some w end.
Definition scan_d (s : cstring) : option (Z * cstring) :=
  let '(neg, r) := take_sign (skip_space s) in
  match r with
  | c :: _ =>
      if decide (48 ≤ c ≤ 57) then
        let p := parse_digits 10 r 0 in Some (s32 (if neg : bool then - p.1 else p.1), p.2)
      else None
  | [] => None
  end.
(** [sscanf(parm, "%c %s %s %d %d", ...)]: the first four values, when there are at
    least four, and the fifth, which stays 0 when there is none. *)
Definition scan_parm (parm : cstring) : option (Z * cstring * cstring * Z * Z) :=
  match parm with
  | [] => None
  | header :: r =>
      w ← scan_s r; b ← scan_s w.2; t ← scan_d b.2;
      Some (header, w.1, b.1, t.1, match scan_d t.2 with Some m => m.1 | None => 0 end)
  end.

Definition gate_init (g : gate) (parm : option cstring) : result (Z * list action * gate) :=
  match parm with
  | None => Ok (1, [], g)
  | Some parm =>
      match scan_parm parm with
      | None => Ok (1, [AError (lit "Invalid gate parm " ++ parm)], g)
      | Some (header, wd, binding, tag, max) =>
          if decide (max ≤ 0) then Ok (1, [AError (lit "Need max connection")], g)
          else if decide (header ≠ 83 ∧ header ≠ 76) then Ok (1, [AError (lit "Invalid data header style")], g)
          else
            let tag := if decide (tag = 0) then PTYPE_CLIENT else tag in
            let dog := match wd with 33 :: _ => 0 | _ => queryname wd end in
            let g := mk_gate (listen_id g) dog (broker g) (client_tag g) (header_size g) (max_connection g)
                       (g_hash g) (conn g) (g_mp g) in
            if decide (hd 0 wd ≠ 33 ∧ dog = 0) then Ok (1, [AError (lit "Invalid watchdog " ++ wd)], g)
            else
              hash ← hashid_init max;
              Ok (start_listen
                    (mk_gate (listen_id g) dog (broker g) tag (if decide (header = 83) then 2 else 4) max
                       hash (replicate (Z.to_nat max) no_conn) (g_mp g)) binding)
      end
  end.
End Service.

(** ** What a data buffer holds *)

Definition db_bytes (db : databuffer) : list Z := drop (Z.to_nat (db_offset db)) (concat (db_msgs db)).
Record db_ok (db : databuffer) : Prop := {
  do_offset : 0 ≤ db_offset db;
  do_first : match db_msgs db with m :: _ => db_offset db ≤ zlen m | [] => db_offset db = 0 end;
  do_size : db_size db = zlen (db_bytes db) }.

Lemma db_bytes_cons h o s m l :
  0 ≤ o ≤ zlen m → db_bytes (mk_db h o s (m :: l)) = drop (Z.to_nat o) m ++ concat l.
Proof.
  intros Ho. unfold db_bytes. cbn. rewrite drop_app_le; [done|]. unfold zlen in Ho. lia.
Qed.
(** Messages of a buffer, counted, go back to the pool; no pool is allocated. *)
Definition returned (mp : messagepool) (n : Z) (mp' : messagepool) (n' : Z) : Prop :=
  mp_free mp' + n' = mp_free mp + n ∧ mp_pools mp' = mp_pools mp ∧ mp_free mp ≤ mp_free mp'.
Lemma returned_refl mp n : returned mp n mp n.
Proof. done. Qed.
Lemma returned_trans mp1 n1 mp2 n2 mp3 n3 : returned mp1 n1 mp2 n2 → returned mp2 n2 mp3 n3 → returned mp1 n1 mp3 n3.
Proof. unfold returned. intros (? & ? & ?) (? & ? & ?). split; [lia|]. split; [congruence|lia]. Qed.
#[local] Hint Resolve returned_refl : core.
Lemma copy_from_Ok m o n :
  0 ≤ o → 0 ≤ n → o + n ≤ zlen m → copy_from m o n = Ok (take (Z.to_nat n) (drop (Z.to_nat o) m)).
Proof. intros. unfold copy_from. by rewrite decide_True. Qed.

(** Reading takes the bytes from the front, across messages. *)
Lemma read_loop_spec fuel h o s l mp sz :
  0 < sz → 0 ≤ o → match l with m :: _ => o ≤ zlen m | [] => o = 0 end →
  sz ≤ zlen (drop (Z.to_nat o) (concat l)) → s = zlen (drop (Z.to_nat o) (concat l)) - sz → (length l ≤ fuel)%nat →
  ∃ db mp', read_loop fuel (mk_db h o s l) mp sz
      = Ok (take (Z.to_nat sz) (drop (Z.to_nat o) (concat l)), db, mp') ∧
    db_header db = h ∧ db_ok db ∧ db_bytes db = drop (Z.to_nat sz) (drop (Z.to_nat o) (concat l)) ∧
    returned mp (zlen l) mp' (zlen (db_msgs db)).
Proof.
  revert o s l mp sz. induction fuel as [|fuel IH]; intros o s l mp sz Hsz Ho Hf Hle -> Hl.
  { destruct l; [|cbn in Hl; lia]. cbn in Hle. rewrite drop_nil in Hle. change (zlen (@nil Z)) with 0 in Hle. lia. }
  destruct l as [|m l]; [cbn in Hle; rewrite drop_nil in Hle; change (zlen (@nil Z)) with 0 in Hle; lia|].
  assert (drop (Z.to_nat o) (concat (m :: l)) = drop (Z.to_nat o) m ++ concat l) as Eb
    by (cbn; apply drop_app_le; unfold zlen in Hf; lia).
  assert (zlen (drop (Z.to_nat o) m) = zlen m - o) as Em by (unfold zlen in *; rewrite length_drop; lia).
  rewrite Eb in *. set (b := drop (Z.to_nat o) m) in *. rewrite zlen_app in *.
  cbn [read_loop db_msgs head db_offset db_header db_size]. cbn [of_option]. rewrite bind_Ok. cbv zeta.
  destruct (decide (sz < zlen m - o)) as [H1|H1]; [|destruct (decide (zlen m - o = sz)) as [H2|H2]].
  - rewrite copy_from_Ok, bind_Ok by lia. fold b.
    rewrite (take_app_le b), (drop_app_le b) by (unfold zlen in *; lia).
    eexists _, mp. split; [done|]. split; [done|]. assert (db_bytes (mk_db h (o + sz) (zlen b + zlen (concat l) - sz) (m :: l))
      = drop (Z.to_nat sz) b ++ concat l) as Ebb.
    { rewrite db_bytes_cons by lia. unfold b. rewrite drop_drop. do 2 f_equal. lia. }
    split; [|split; [done|done]]. split; [cbn [db_offset]; lia|cbn [db_msgs db_offset]; lia|]. rewrite Ebb, zlen_app. cbn [db_size].
    unfold zlen in *. rewrite length_drop. lia.
  - rewrite copy_from_Ok, !bind_Ok by lia. fold b. cbn [return_message db_msgs db_header db_offset db_size fst snd].
    rewrite bind_Ok. cbn [fst snd].
    assert (Z.to_nat sz = length b) as -> by (unfold zlen in *; lia).
    rewrite (take_app_length' b (concat l)) by done. rewrite take_ge by done. rewrite drop_app_length.
    eexists _, _. split; [done|]. split; [done|]. split; [|split; [done|unfold returned; cbn [db_msgs mp_free mp_pools]; rewrite zlen_cons; lia]].
    split; [cbn; lia|cbn; destruct l; [done|apply zlen_nonneg]|].
    unfold db_bytes. cbn [db_msgs db_offset db_size]. change (Z.to_nat 0) with 0%nat. rewrite drop_0. lia.
  - rewrite copy_from_Ok, !bind_Ok by lia. fold b. cbn [return_message db_msgs db_header db_offset db_size fst snd].
    rewrite bind_Ok. cbn [fst snd db_msgs db_header db_offset db_size].
    destruct (IH 0 (zlen b + zlen (concat l) - sz) l (mk_pool (mp_pools mp) (mp_free mp + 1)) (sz - (zlen m - o)))
      as (db & mp' & -> & Eh & Ok' & Ebb & Eret).
    + lia.
    + lia.
    + destruct l; [done|apply zlen_nonneg].
    + rewrite drop_0. lia.
    + rewrite drop_0. lia.
    + cbn in Hl. lia.
    + rewrite bind_Ok. rewrite drop_0 in *. eexists db, mp'. split; [|split; [done|split; [done|split]]].
      * do 3 f_equal. rewrite (take_app_ge b) by (unfold zlen in *; lia).
        rewrite take_ge by (unfold zlen in *; lia). do 2 f_equal. unfold zlen in *. lia.
      * rewrite Ebb, (drop_app_ge b) by (unfold zlen in *; lia). f_equal. unfold zlen in *. lia.
      * eapply returned_trans; [|exact Eret]. unfold returned. cbn. rewrite zlen_cons. lia.
Qed.

Lemma databuffer_read_spec db mp sz :
  db_ok db → 0 < sz ≤ db_size db →
  ∃ db' mp', databuffer_read db mp sz = Ok (take (Z.to_nat sz) (db_bytes db), db', mp') ∧
    db_header db' = db_header db ∧ db_ok db' ∧ db_bytes db' = drop (Z.to_nat sz) (db_bytes db) ∧
    returned mp (zlen (db_msgs db)) mp' (zlen (db_msgs db')).
Proof.
  intros [Ho Hf Hs] Hsz. unfold databuffer_read.
  rewrite c_assert_true, bind_Ok by (apply bool_decide_eq_true_2; lia).
  destruct (read_loop_spec (length (db_msgs db)) (db_header db) (db_offset db) (db_size db - sz) (db_msgs db) mp sz)
    as (db' & mp' & E & H); try done; try lia.
  - unfold db_bytes in Hs. lia.
  - unfold db_bytes in Hs. lia.
  - exists db', mp'. done.
Qed.

(** ** Packets of a stream *)

(** A big-endian header. *)
Definition be_value (l : list Z) : Z := foldl (λ a b, a * 256 + b) 0 l.

(** The packets of a stream, the empty ones dropped, and the bytes left over; [None]
    when a header announces 2^24 bytes or more. *)
Fixpoint gate_frames (fuel : nat) (hs : Z) (l : list Z) : option (list (list Z) * list Z) :=
  if decide (zlen l < hs) then Some ([], l)
  else
    let n := be_value (take (Z.to_nat hs) l) in
    if decide (0x1000000 ≤ n) then None
    else if decide (zlen l < hs + n) then Some ([], l)
    else
      match fuel with
      | O => None
      | S f =>
          match gate_frames f hs (drop (Z.to_nat (hs + n)) l) with
          | Some (fs, rest) =>
              Some (if decide (n = 0) then fs
                    else take (Z.to_nat n) (drop (Z.to_nat hs) l) :: fs, rest)
          | None => None
          end
      end.
Definition packets (hs : Z) (l : list Z) : option (list (list Z) * list Z) := gate_frames (length l) hs l.

Lemma be_value_nonneg l : Forall is_byte l → 0 ≤ be_value l.
Proof.
  unfold be_value. intros H. assert (∀ a, 0 ≤ a → 0 ≤ foldl (λ a b, a * 256 + b) a l) as G; [|by apply G].
  induction H as [|b l Hb _ IH]; intros a Ha; cbn; [done|]. apply IH. unfold is_byte in Hb. lia.
Qed.
Lemma header_value_spec l :
  Forall is_byte l → zlen l = 2 ∨ zlen l = 4 →
  header_value l = if decide (be_value l < 2 ^ 31) then be_value l else be_value l - 2 ^ 32.
Proof.
  intros Hb Hl. unfold is_byte in Hb.
  destruct l as [|a [|b [|c [|d [|e l]]]]]; try (vm_compute in Hl; destruct Hl; discriminate); cycle 2.
  { rewrite !zlen_cons in Hl. pose proof (zlen_nonneg l). lia. }
  - repeat (apply Forall_cons in Hb as [? Hb]). unfold be_value. cbn [foldl header_value].
    rewrite decide_True by lia. rewrite Z.shiftl_mul_pow2, Z.lor_comm, lor_add_high by lia. lia.
  - repeat (apply Forall_cons in Hb as [? Hb]). unfold be_value. cbn [foldl header_value].
    rewrite !Z.shiftl_mul_pow2 by lia.
    assert (∀ x y k, 0 ≤ k → 0 ≤ y < 2 ^ k → Z.lor (x * 2 ^ k) y = x * 2 ^ k + y) as Hlor.
    { intros x y k Hk Hy. rewrite Z.lor_comm, lor_add_high by done. lia. }
    assert (s32 (a * 2 ^ 24) = (if decide (a < 128) then a else a - 256) * 2 ^ 24) as ->.
    { unfold swrap. case_decide; Z.to_euclidean_division_equations; lia. }
    set (a' := if decide (a < 128) then a else a - 256).
    assert (Z.lor (Z.lor (Z.lor (a' * 2 ^ 24) (b * 2 ^ 16)) (c * 2 ^ 8)) d = a' * 2 ^ 24 + b * 2 ^ 16 + c * 2 ^ 8 + d) as ->.
    { rewrite (Hlor a' (b * 2 ^ 16) 24) by lia.
      replace (a' * 2 ^ 24 + b * 2 ^ 16) with ((a' * 2 ^ 8 + b) * 2 ^ 16) by lia. rewrite (Hlor _ (c * 2 ^ 8) 16) by lia.
      replace ((a' * 2 ^ 8 + b) * 2 ^ 16 + c * 2 ^ 8) with (((a' * 2 ^ 8 + b) * 2 ^ 8 + c) * 2 ^ 8) by lia.
      rewrite (Hlor _ d 8) by lia. lia. }
    unfold a'. repeat case_decide; lia.
Qed.

(** What a connection has received and not yet forwarded. *)
Record pend_ok (hs : Z) (db : databuffer) (pend : list Z) : Prop := {
  po_db : db_ok db;
  po_bytes : Forall is_byte pend;
  po_pend : (db_header db = 0 ∧ pend = db_bytes db) ∨
    (0 < db_header db < 0x1000000 ∧ ∃ hb, zlen hb = hs ∧ be_value hb = db_header db ∧ pend = hb ++ db_bytes db) }.

Lemma readheader_spec hs db mp pend :
  pend_ok hs db pend → hs = 2 ∨ hs = 4 →
  let n := be_value (take (Z.to_nat hs) pend) in (hs ≤ zlen pend → n < 0x1000000) →
  ∃ size db' mp', databuffer_readheader db mp hs = Ok (size, db', mp') ∧
    returned mp (zlen (db_msgs db)) mp' (zlen (db_msgs db')) ∧
    if decide (hs + (if decide (hs ≤ zlen pend) then n else 0) ≤ zlen pend) then
      size = n ∧ db_header db' = n ∧ db_ok db' ∧ db_bytes db' = drop (Z.to_nat hs) pend
    else size = -1 ∧ pend_ok hs db' pend.
Proof.
  intros P Hhs n Hn. unfold databuffer_readheader. pose proof (po_db _ _ _ P) as [Ho Hf Hs].
  destruct (po_pend _ _ _ P) as [[Hh Ep]|(Hh & hb & Hb & Ev & Ep)].
  - destruct (decide (hs ≤ zlen pend)) as [Hle|Hle]; cycle 1.
    { rewrite decide_True by (subst pend; lia). eexists _, _, _. split; [done|]. split; [done|].
      rewrite decide_False by lia. done. }
    rewrite decide_False, decide_True by (subst pend; lia). specialize (Hn Hle).
    destruct (databuffer_read_spec db mp hs (po_db _ _ _ P)) as (db1 & mp1 & -> & Eh1 & [Ho1 Hf1 Hs1] & Eb1 & Eret).
    { subst pend. lia. }
    rewrite !bind_Ok. rewrite <- Ep. cbn [db_size db_header].
    assert (header_value (take (Z.to_nat hs) pend) = n) as ->.
    { rewrite header_value_spec; [by rewrite decide_True by (fold n; lia)|apply Forall_take, P|].
      unfold zlen in *. rewrite length_take. lia. }
    assert (zlen (drop (Z.to_nat hs) pend) = zlen pend - hs) as El by (unfold zlen in *; rewrite length_drop; lia).
    assert (0 ≤ n) as Hn0 by (apply be_value_nonneg, Forall_take, P).
    assert (db_size db1 = zlen pend - hs) as Es1 by (by rewrite Hs1, Eb1, <- Ep, El).
    destruct (decide (db_size db1 < n)) as [Hd|Hd].
    + eexists _, _, _. split; [done|]. split; [done|]. rewrite decide_False by lia. split; [done|].
      split; [|apply P|].
      * split; cbn; [done|done|]. by rewrite Hs1.
      * right. cbn [db_header]. split; [lia|]. exists (take (Z.to_nat hs) pend).
        split; [unfold zlen in *; rewrite length_take; lia|]. split; [done|]. unfold db_bytes. cbn.
        fold (db_bytes db1). rewrite Eb1, <- Ep. by rewrite take_drop.
    + eexists _, _, _. split; [done|]. split; [done|]. rewrite decide_True by lia. split; [done|]. split; [done|].
      split; [split; cbn; [done|done|]; by rewrite Hs1|]. unfold db_bytes. cbn. fold (db_bytes db1). by rewrite Eb1, <- Ep.
  - rewrite decide_False, decide_False by lia. rewrite bind_Ok.
    assert (take (Z.to_nat hs) pend = hb ∧ drop (Z.to_nat hs) pend = db_bytes db) as [Et Ed].
    { subst pend. assert (Z.to_nat hs = length hb) as -> by (unfold zlen in *; lia). by rewrite take_app_length, drop_app_length. }
    assert (n = db_header db) as En by (unfold n; by rewrite Et).
    assert (zlen pend = hs + zlen (db_bytes db)) as El by (subst pend; rewrite zlen_app; lia).
    rewrite (decide_True (P := hs ≤ zlen pend)) by (pose proof (zlen_nonneg (db_bytes db)); lia).
    destruct (decide (db_size db < db_header db)) as [Hd|Hd].
    + eexists _, _, _. split; [done|]. split; [done|]. rewrite decide_False by lia. done.
    + eexists _, _, _. split; [done|]. split; [done|]. rewrite decide_True by lia.
      split; [done|]. split; [done|]. split; [apply P|done].
Qed.

(** To whom a packet goes. *)
Definition recipient (g : gate) (c : connection) : Prop :=
  broker g ≠ 0 ∨ cn_agent c ≠ 0 ∨ watchdog g ≠ 0.
Definition packet_action (g : gate) (c : connection) (data : list Z) : action :=
  let tag := Z.lor (client_tag g) PTYPE_TAG_DONTCOPY in
  if decide (broker g ≠ 0) then ASend 0 (broker g) tag data
  else if decide (cn_agent c ≠ 0) then ASend (cn_client c) (cn_agent c) tag data
  else ASend 0 (watchdog g) (Z.lor PTYPE_TEXT PTYPE_TAG_DONTCOPY) (print_d (cn_id c) ++ lit " data " ++ data).

Lemma forward_spec g c size :
  recipient g c → db_ok (cn_buffer c) → 0 < size ≤ db_size (cn_buffer c) →
  ∃ db' mp', forward g c size = Ok ([packet_action g c (take (Z.to_nat size) (db_bytes (cn_buffer c)))], db', mp') ∧
    db_ok db' ∧ db_bytes db' = drop (Z.to_nat size) (db_bytes (cn_buffer c)) ∧
    returned (g_mp g) (zlen (db_msgs (cn_buffer c))) mp' (zlen (db_msgs db')).
Proof.
  intros Hr Hok Hsz. unfold forward, packet_action.
  destruct (databuffer_read_spec (cn_buffer c) (g_mp g) size Hok Hsz) as (db' & mp' & -> & _ & Hok' & Eb & Hfree).
  rewrite !bind_Ok. exists db', mp'. split; [|done].
  destruct (decide (broker g ≠ 0)); [done|]. destruct (decide (cn_agent c ≠ 0)); [done|].
  rewrite decide_True; [done|]. unfold recipient in Hr. tauto.
Qed.

Lemma gate_frames_fuel hs f1 f2 l :
  0 < hs → Forall is_byte l → (length l ≤ f1)%nat → (length l ≤ f2)%nat → gate_frames f1 hs l = gate_frames f2 hs l.
Proof.
  intros Hhs. revert f2 l. induction f1 as [|f1 IH]; intros f2 l Hb H1 H2.
  - destruct l; [|cbn in H1; lia]. destruct f2; cbn [gate_frames]; change (zlen (@nil Z)) with 0;
      by rewrite !(decide_True (P := 0 < hs)) by done.
  - destruct f2 as [|f2]; [destruct l; [|cbn in H2; lia]; cbn [gate_frames]; change (zlen (@nil Z)) with 0;
      by rewrite !(decide_True (P := 0 < hs)) by done|].
    cbn [gate_frames]. destruct (decide (zlen l < hs)); [done|].
    pose proof (be_value_nonneg (take (Z.to_nat hs) l) ltac:(by apply Forall_take)) as Hn.
    rewrite (IH f2); [done|by apply Forall_drop|rewrite length_drop; unfold zlen in *; lia..].
Qed.

(** One packet off the front. *)
Lemma packets_step hs l fs rest :
  0 < hs → Forall is_byte l → packets hs l = Some (fs, rest) →
  let n := be_value (take (Z.to_nat hs) l) in
  (hs ≤ zlen l → n < 0x1000000) ∧
  if decide (hs + (if decide (hs ≤ zlen l) then n else 0) ≤ zlen l) then
    ∃ fs', packets hs (drop (Z.to_nat (hs + n)) l) = Some (fs', rest) ∧
      fs = if decide (n = 0) then fs' else take (Z.to_nat n) (drop (Z.to_nat hs) l) :: fs'
  else fs = [] ∧ rest = l.
Proof.
  intros Hhs Hb E n. unfold packets in E.
  rewrite (gate_frames_fuel hs (length l) (S (length l))) in E by (done || lia). cbn [gate_frames] in E. fold n in E.
  pose proof (be_value_nonneg (take (Z.to_nat hs) l) ltac:(by apply Forall_take)) as Hn. fold n in Hn.
  destruct (decide (zlen l < hs)) as [H1|H1].
  { injection E as <- <-. split; [lia|]. rewrite (decide_False (P := hs ≤ zlen l)), decide_False by lia. done. }
  destruct (decide (0x1000000 ≤ n)) as [H2|H2]; [done|]. split; [lia|].
  rewrite (decide_True (P := hs ≤ zlen l)) by lia.
  destruct (decide (zlen l < hs + n)) as [H3|H3]; [injection E as <- <-; by rewrite decide_False by lia|].
  rewrite decide_True by lia.
  destruct (gate_frames (length l) hs (drop (Z.to_nat (hs + n)) l)) as [[fs' rest']|] eqn:E'; [|done].
  injection E as <- <-. exists fs'. split; [|done]. unfold packets.
  rewrite <- E'. apply gate_frames_fuel; [done|by apply Forall_drop|done|]. rewrite length_drop. lia.
Qed.

(** The loop forwards the complete packets and keeps the rest. *)
Lemma gate_loop_spec fuel g c id pend fs rest :
  header_size g = 2 ∨ header_size g = 4 → recipient g c → pend_ok (header_size g) (cn_buffer c) pend →
  packets (header_size g) pend = Some (fs, rest) → db_size (cn_buffer c) < Z.of_nat fuel →
  ∃ db' mp', gate_loop fuel g c id = Ok (packet_action g c <$> fs, with_db c db', mp') ∧
    pend_ok (header_size g) db' rest ∧
    returned (g_mp g) (zlen (db_msgs (cn_buffer c))) mp' (zlen (db_msgs db')).
Proof.
  set (hs := header_size g). intros Hhs. assert (0 < hs) as Hpos by lia.
  assert (∀ g', header_size g' = hs → broker g' = broker g → watchdog g' = watchdog g → client_tag g' = client_tag g →
    ∀ c', recipient g' c' → pend_ok hs (cn_buffer c') pend → packets hs pend = Some (fs, rest) →
    db_size (cn_buffer c') < Z.of_nat fuel →
    ∃ db' mp', gate_loop fuel g' c' id = Ok (packet_action g c' <$> fs, with_db c' db', mp') ∧ pend_ok hs db' rest ∧
    returned (g_mp g') (zlen (db_msgs (cn_buffer c'))) mp' (zlen (db_msgs db')))
    as Hgen; [|by apply Hgen].
  revert pend fs rest. induction fuel as [|fuel IH]; intros pend fs rest g' E1 E2 E3 E4 c' Hr P Hpk Hf.
  { pose proof (po_db _ _ _ P) as [_ _ Hs]. pose proof (zlen_nonneg (db_bytes (cn_buffer c'))). lia. }
  pose proof (po_bytes _ _ _ P) as Hb. destruct (packets_step hs pend fs rest Hpos Hb Hpk) as [Hn Hst].
  cbn [gate_loop]. rewrite E1.
  destruct (readheader_spec hs (cn_buffer c') (g_mp g') pend P Hhs Hn) as (size & db1 & mp1 & -> & Hret1 & Hsz).
  rewrite bind_Ok. cbv beta iota zeta. set (n := be_value (take (Z.to_nat hs) pend)) in *.
  destruct (decide (hs + (if decide (hs ≤ zlen pend) then n else 0) ≤ zlen pend)) as [Hc|Hc]; cycle 1.
  { destruct Hst as [-> ->]. destruct Hsz as [-> P1]. rewrite decide_True by lia. by exists db1, mp1. }
  destruct Hst as (fs' & Hpk' & ->). destruct Hsz as (-> & Eh1 & [Ho1 Hf1 Hs1] & Eb1).
  assert (hs ≤ zlen pend) as Hle by (destruct (decide (hs ≤ zlen pend)); lia). rewrite (decide_True (P := hs ≤ zlen pend)) in Hc by done.
  assert (0 ≤ n) as Hn0 by (apply be_value_nonneg; by apply Forall_take).
  assert (zlen (drop (Z.to_nat hs) pend) = zlen pend - hs) as El by (unfold zlen in *; rewrite length_drop; lia).
  assert (zlen pend = db_size (cn_buffer c') ∨ (0 < n ∧ zlen pend = hs + db_size (cn_buffer c'))) as Hmeas.
  { pose proof (do_size _ (po_db _ _ _ P)) as Hs0. destruct (po_pend _ _ _ P) as [[_ Ep]|(Hh & hb & Hhb & Ev & Ep)].
    - left. by rewrite Ep, Hs0.
    - right. rewrite Ep, zlen_app, <- Hs0. split; [|lia]. unfold n. rewrite Ep, take_app_length', Ev by (unfold zlen in *; lia). lia. }
  specialize (Hn Hle). rewrite decide_False by lia. destruct (decide (n = 0)) as [En|En].
  - rewrite decide_False by lia.
    assert (pend_ok hs db1 (drop (Z.to_nat (hs + n)) pend)) as P1.
    { rewrite En, Z.add_0_r. split; [done|by apply Forall_drop|]. left. by rewrite Eh1, Eb1, En. }
    destruct (IH _ _ _ (with_mp g' mp1) E1 E2 E3 E4 (with_db c' db1) Hr P1 Hpk') as (db2 & mp2 & -> & P2 & Hret2).
    { cbn [cn_buffer with_db]. rewrite Hs1, Eb1, El. lia. }
    exists db2, mp2. split; [done|]. split; [done|]. by eapply returned_trans.
  - rewrite decide_True, decide_False by lia.
    destruct (forward_spec (with_mp g' mp1) (with_db c' db1) n) as (db2 & mp2 & -> & Hok2 & Eb2 & Hret2).
    { done. }
    { done. }
    { cbn [cn_buffer with_db]. rewrite Hs1, Eb1, El. lia. }
    cbn [cn_buffer with_db with_mp g_mp] in Eb2, Hret2. rewrite bind_Ok. cbv beta iota.
    assert (db_bytes db2 = drop (Z.to_nat (hs + n)) pend) as Eb3.
    { rewrite Eb2, Eb1, drop_drop. f_equal. lia. }
    assert (pend_ok hs (databuffer_reset db2) (drop (Z.to_nat (hs + n)) pend)) as P2.
    { destruct Hok2 as [Ho2 Hf2 Hs2]. split; [by split|by apply Forall_drop|]. left. split; [done|]. by rewrite <- Eb3. }
    destruct (IH _ _ _ (with_mp (with_mp g' mp1) mp2) E1 E2 E3 E4 (with_db (with_db c' db1) (databuffer_reset db2)) Hr P2 Hpk')
      as (db3 & mp3 & -> & P3 & Hret3).
    { cbn [cn_buffer with_db databuffer_reset db_size]. destruct Hok2 as [_ _ Hs2]. rewrite Hs2, Eb3.
      unfold zlen in *. rewrite length_drop. lia. }
    cbn [cn_buffer with_db with_mp g_mp databuffer_reset db_msgs] in *.
    rewrite bind_Ok. cbv beta iota. exists db3, mp3. split; [|split; [done|by eapply returned_trans, returned_trans]].
    cbn [fmap list_fmap]. rewrite Eb1. do 3 f_equal.
    unfold packet_action. cbn. by rewrite E2, E3, E4.
Qed.

(** ** Any stream *)

Definition header_pending (db : databuffer) : Z := if decide (db_header db ≠ 0) then 1 else 0.

Lemma readheader_total hs db mp :
  db_ok db → 0 < hs →
  ∃ size db' mp', databuffer_readheader db mp hs = Ok (size, db', mp') ∧ db_ok db' ∧
    returned mp (zlen (db_msgs db)) mp' (zlen (db_msgs db')) ∧
    (0 ≤ size → db_header db' = size ∧ size ≤ db_size db' ∧ db_size db' < db_size db + header_pending db).
Proof.
  intros Hok Hhs. unfold databuffer_readheader, header_pending. destruct Hok as [Ho Hf Hs].
  destruct (decide (db_header db = 0)) as [Hh|Hh].
  - destruct (decide (db_header db = 0 ∧ db_size db < hs)) as [Hd|Hd].
    { eexists _, _, _. split; [done|]. split; [done|]. split; [done|]. lia. }
    destruct (databuffer_read_spec db mp hs) as (db1 & mp1 & -> & Eh & [Ho1 Hf1 Hs1] & Eb & Hret); [done|lia|].
    rewrite !bind_Ok. cbn [db_size db_header]. set (v := header_value _).
    assert (db_ok (mk_db v (db_offset db1) (db_size db1) (db_msgs db1))) as Hok1 by by split.
    assert (db_size db1 = db_size db - hs) as Es.
    { rewrite Hs1, Eb. unfold zlen. rewrite length_drop. unfold zlen in Hs. lia. }
    case_decide; (eexists _, _, _; split; [done|]; split; [done|]; split; [done|]); [lia|].
    intros _. split; [done|]. cbn [db_size]. rewrite decide_False by tauto. lia.
  - rewrite decide_False, bind_Ok by tauto.
    case_decide; (eexists _, _, _; split; [done|]; split; [done|]; split; [done|]); [lia|].
    intros _. rewrite decide_True by done. lia.
Qed.

Lemma forward_total g c size :
  db_ok (cn_buffer c) → 0 < size ≤ db_size (cn_buffer c) →
  ∃ acts db' mp', forward g c size = Ok (acts, db', mp') ∧ db_ok db' ∧ db_size db' ≤ db_size (cn_buffer c) ∧
    returned (g_mp g) (zlen (db_msgs (cn_buffer c))) mp' (zlen (db_msgs db')).
Proof.
  intros Hok Hsz. unfold forward.
  destruct (databuffer_read_spec (cn_buffer c) (g_mp g) size Hok Hsz) as (db' & mp' & -> & _ & Hok' & Eb & Hret).
  assert (db_size db' ≤ db_size (cn_buffer c)) as Hle.
  { rewrite (do_size _ Hok'), (do_size _ Hok), Eb. unfold zlen. rewrite length_drop. lia. }
  rewrite !bind_Ok. destruct (decide (broker g ≠ 0)); [by eexists _, _, _|].
  destruct (decide (cn_agent c ≠ 0)); [by eexists _, _, _|]. destruct (decide (watchdog g ≠ 0)); [by eexists _, _, _|].
  eexists _, _, _. split; [done|]. split; [done|]. split; [lia|]. done.
Qed.

Lemma gate_loop_total fuel g c id :
  0 < header_size g → db_ok (cn_buffer c) →
  db_size (cn_buffer c) + header_pending (cn_buffer c) < Z.of_nat fuel →
  ∃ acts db' mp', gate_loop fuel g c id = Ok (acts, with_db c db', mp') ∧ db_ok db' ∧
    returned (g_mp g) (zlen (db_msgs (cn_buffer c))) mp' (zlen (db_msgs db')).
Proof.
  revert g c. induction fuel as [|fuel IH]; intros g c Hhs Hok Hf.
  { exfalso. rewrite (do_size _ Hok) in Hf. pose proof (zlen_nonneg (db_bytes (cn_buffer c))).
    unfold header_pending in Hf. case_decide; lia. }
  cbn [gate_loop].
  destruct (readheader_total (header_size g) (cn_buffer c) (g_mp g) Hok Hhs) as (size & db1 & mp1 & -> & Hok1 & Hret1 & Hsz).
  rewrite bind_Ok. cbv beta iota zeta. destruct (decide (size < 0)) as [Hneg|Hneg]; [by eexists _, _, _|].
  destruct (Hsz ltac:(lia)) as (Eh & Hle & Hlt). destruct (decide (0 < size)) as [Hp|Hp].
  - destruct (decide (0x1000000 ≤ size)) as [Hbig|Hbig].
    { eexists _, _, _. split; [done|]. split; [split; done|]. eapply returned_trans; [exact Hret1|].
      unfold returned. cbn. change (zlen (@nil (list Z))) with 0. pose proof (zlen_nonneg (db_msgs db1)). lia. }
    destruct (forward_total (with_mp g mp1) (with_db c db1) size) as (acts & db2 & mp2 & -> & Hok2 & Hle2 & Hret2);
      [done|cbn; lia|]. cbn [cn_buffer with_db with_mp g_mp] in *. rewrite bind_Ok. cbv beta iota.
    destruct (IH (with_mp (with_mp g mp1) mp2) (with_db (with_db c db1) (databuffer_reset db2)))
      as (acts' & db3 & mp3 & -> & Hok3 & Hret3); [done|by destruct Hok2| |].
    { cbn [cn_buffer with_db]. change (header_pending (databuffer_reset db2)) with 0. cbn [databuffer_reset db_size]. lia. }
    cbn [cn_buffer with_db with_mp g_mp databuffer_reset db_msgs] in *. rewrite bind_Ok. cbv beta iota.
    eexists _, _, _. split; [done|]. split; [done|]. by eapply returned_trans, returned_trans.
  - destruct (IH (with_mp g mp1) (with_db c db1)) as (acts' & db3 & mp3 & -> & Hok3 & Hret3); [done|done| |].
    { cbn [cn_buffer with_db]. unfold header_pending at 1. rewrite decide_False by lia. lia. }
    cbn [cn_buffer with_db with_mp g_mp] in *. eexists _, _, _. split; [done|]. split; [done|]. by eapply returned_trans.
Qed.

(** Receiving a chunk. *)
Lemma push_spec db mp data :
  db_ok db → db_size db + zlen data ≤ INT_MAX → 0 ≤ mp_free mp →
  ∃ db' mp', databuffer_push db mp data = Ok (db', mp') ∧ db_ok db' ∧ db_header db' = db_header db ∧
    db_bytes db' = db_bytes db ++ data ∧ 0 ≤ mp_free mp' ∧
    mp_free mp' + zlen (db_msgs db') - MESSAGEPOOL * mp_pools mp'
      = mp_free mp + zlen (db_msgs db) - MESSAGEPOOL * mp_pools mp.
Proof.
  intros [Ho Hf Hs] Hmax Hfree. unfold databuffer_push. pose proof (zlen_nonneg (db_bytes db)). pose proof (zlen_nonneg data).
  rewrite c_int_Ok, bind_Ok by (unfold INT_MIN in *; lia).
  assert (db_bytes (mk_db (db_header db) (db_offset db) (db_size db + zlen data) (db_msgs db ++ [data])) = db_bytes db ++ data) as Eb.
  { unfold db_bytes. cbn [db_offset db_msgs]. rewrite concat_app. cbn [concat]. rewrite app_nil_r.
    rewrite drop_app_le; [done|]. destruct (db_msgs db) as [|m l]; [lia|]. cbn. rewrite length_app. unfold zlen in Hf. lia. }
  eexists _, _. split; [done|]. split; [|split; [done|split; [done|]]].
  - split; [done| |by rewrite Eb, zlen_app; cbn [db_size]; lia]. cbn [db_msgs db_offset].
    destruct (db_msgs db) as [|m l]; [rewrite Hf; apply zlen_nonneg|done].
  - cbn [db_msgs]. rewrite zlen_app. change (zlen [data]) with 1.
    case_decide; cbn [mp_free mp_pools]; unfold MESSAGEPOOL; lia.
Qed.
Lemma dispatch_message_total g c id data :
  0 < header_size g → db_ok (cn_buffer c) → db_size (cn_buffer c) + zlen data ≤ INT_MAX → 0 ≤ mp_free (g_mp g) →
  ∃ acts db' mp', dispatch_message g c id data = Ok (acts, with_db c db', mp') ∧ db_ok db' ∧ 0 ≤ mp_free mp' ∧
    mp_free mp' + zlen (db_msgs db') - MESSAGEPOOL * mp_pools mp'
      = mp_free (g_mp g) + zlen (db_msgs (cn_buffer c)) - MESSAGEPOOL * mp_pools (g_mp g).
Proof.
  intros Hhs Hok Hmax Hfree. unfold dispatch_message.
  destruct (push_spec (cn_buffer c) (g_mp g) data Hok Hmax Hfree) as (db1 & mp1 & -> & Hok1 & Eh & Eb & Hfree1 & Hpool).
  rewrite bind_Ok. cbv beta iota.
  destruct (gate_loop_total (S (Z.to_nat (db_size db1 + 1))) (with_mp g mp1) (with_db c db1) id) as (acts & db2 & mp2 & -> & Hok2 & Hfree2 & Hpool2 & Hle2).
  { done. }
  { done. }
  { cbn [cn_buffer with_db]. unfold header_pending. pose proof (do_size _ Hok1). pose proof (zlen_nonneg (db_bytes db1)).
    case_decide; lia. }
  cbn in Hfree2, Hpool2, Hle2. eexists _, _, _. split; [done|]. split; [done|]. split; [lia|]. rewrite Hpool2. lia.
Qed.
