(* ===== verification/GateProps.v ===== *)
(** * The gate's invariant and its packets

    What holds of the gate of [Gate] between two messages, that every message keeps
    it without hitting an assertion or a bound, and that the packets forwarded are
    those of the connections' streams. *)
From Stdlib Require Import String.
From stdpp Require Import base numbers relations list.
From S2P Require Import Prelude CString Format Server Netpack Command HashId Gate.

(** ** The invariant *)

(** The messages the buffers of the connections hold. *)
Definition held (l : list connection) : Z := foldr (λ c n, zlen (db_msgs (cn_buffer c)) + n) 0 l.

Record gate_ok (g : gate) : Prop := {
  go_hash : ∃ bk, hashid_wf (g_hash g) bk;
  go_ids : cn_id <$> conn g = contents (g_hash g);
  go_free : ∀ c, c ∈ conn g → cn_id c = -1 → c = no_conn;
  go_bufs : ∀ c, c ∈ conn g → db_ok (cn_buffer c);
  go_header : header_size g = 2 ∨ header_size g = 4;
  go_max : max_connection g = zlen (conn g);
  go_pool : 0 ≤ mp_free (g_mp g) ∧ mp_free (g_mp g) + held (conn g) = MESSAGEPOOL * mp_pools (g_mp g) }.

(** The sockets the gate knows. *)
Definition known (g : gate) (id : Z) : Prop := 0 ≤ id ∧ id ∈ contents (g_hash g).

Lemma held_insert l i c c' :
  l !! i = Some c → held (<[i := c']> l) = held l - zlen (db_msgs (cn_buffer c)) + zlen (db_msgs (cn_buffer c')).
Proof.
  revert i. induction l as [|x l IH]; intros [|i] H; cbn in H; simplify_eq; cbn [insert list_insert held foldr].
  - lia.
  - specialize (IH i H). change (zlen (db_msgs (cn_buffer x)) + held (<[i := c']> l) = zlen (db_msgs (cn_buffer x)) + held l - zlen (db_msgs (cn_buffer c)) + zlen (db_msgs (cn_buffer c'))). lia.
Qed.

Lemma conn_of g i id :
  gate_ok g → contents (g_hash g) !! i = Some id → ∃ c, conn g !! i = Some c ∧ cn_id c = id ∧ db_ok (cn_buffer c).
Proof.
  intros G Hi. rewrite <- (go_ids _ G), list_lookup_fmap in Hi. apply fmap_Some in Hi as (c & Hc & ->).
  exists c. split; [done|]. split; [done|]. apply (go_bufs _ G). by eapply list_elem_of_lookup_2.
Qed.

Lemma conn_inj g i j c c' :
  gate_ok g → conn g !! i = Some c → conn g !! j = Some c' → cn_id c = cn_id c' → 0 ≤ cn_id c → i = j.
Proof.
  intros G Hi Hj E H0. destruct (go_hash _ G) as [bk W].
  eapply (contents_inj _ _ W i j (cn_id c)); [| |lia]; rewrite <- (go_ids _ G), list_lookup_fmap, ?Hi, ?Hj; cbn; congruence.
Qed.

(** Replacing one connection. *)
Lemma set_conn_ok g hash bk i c c' mp :
  gate_ok g → conn g !! i = Some c → hashid_wf hash bk →
  contents hash = <[i := cn_id c']> (contents (g_hash g)) → (cn_id c' = -1 → c' = no_conn) → db_ok (cn_buffer c') →
  0 ≤ mp_free mp →
  mp_free mp + zlen (db_msgs (cn_buffer c')) - MESSAGEPOOL * mp_pools mp
    = mp_free (g_mp g) + zlen (db_msgs (cn_buffer c)) - MESSAGEPOOL * mp_pools (g_mp g) →
  ∃ g', set_conn g hash (Z.of_nat i) c' mp = Ok g' ∧ gate_ok g' ∧ conn g' = <[i := c']> (conn g) ∧
    g' = mk_gate (listen_id g) (watchdog g) (broker g) (client_tag g) (header_size g) (max_connection g)
           hash (<[i := c']> (conn g)) mp.
Proof.
  intros G Hc W Hcont Hfree Hok Hmp Hpool. apply lookup_lt_Some in Hc as Hlt. unfold set_conn.
  rewrite wr_Ok, bind_Ok, Nat2Z.id by (unfold zlen; lia). eexists. split; [done|]. split; [|done].
  destruct G as [Gh Gi Gf Gb Ghd Gm Gp]. split; cbn [g_hash conn header_size max_connection g_mp]; try done.
  - by exists bk.
  - by rewrite list_fmap_insert, Gi.
  - intros x [j Hj]%list_elem_of_lookup. apply list_lookup_insert_Some in Hj as [(_ & <- & _)|[_ Hj]]; [done|].
    apply Gf. by eapply list_elem_of_lookup_2.
  - intros x [j Hj]%list_elem_of_lookup. apply list_lookup_insert_Some in Hj as [(_ & <- & _)|[_ Hj]]; [done|].
    apply Gb. by eapply list_elem_of_lookup_2.
  - by rewrite zlen_insert.
  - split; [done|]. rewrite (held_insert _ _ _ _ Hc). lia.
Qed.

(** The ids of the table after one entry is replaced. *)
Lemma elem_of_contents_insert hash bk hash' i id id' k :
  hashid_wf hash bk → contents hash !! i = Some id → contents hash' = <[i := id']> (contents hash) → 0 ≤ k →
  k ∈ contents hash' ↔ (k ∈ contents hash ∧ k ≠ id) ∨ k = id'.
Proof.
  intros W Hi E Hk. rewrite E, !list_elem_of_lookup. apply lookup_lt_Some in Hi as Hlt. split.
  - intros [j Hj]. apply list_lookup_insert_Some in Hj as [(-> & -> & _)|[Hne Hj]]; [by right|]. left.
    split; [by exists j|]. intros ->. apply Hne. eapply (contents_inj _ _ W); [done|done|lia].
  - intros [[[j Hj] Hor]| -> ]; [|exists i; by rewrite list_lookup_insert_eq].
    exists j. rewrite list_lookup_insert_ne; [done|]. intros <-. by rewrite Hi in Hj; injection Hj as ->.
Qed.

Lemma print_d_length n : zlen (print_d n) ≤ 11.
Proof.
  unfold print_d, print_u. case_decide; rewrite ?zlen_cons; unfold zlen; rewrite length_fmap.
  - pose proof (digits_length 10 10 (- n)). lia.
  - pose proof (digits_length 10 10 n). lia.
Qed.
Lemma report_Ok g text : zlen text < 1024 → is_Ok (report g text).
Proof. intros H. unfold report. case_decide; [by eexists|]. rewrite decide_True by done. by eexists. Qed.

(** ** Socket messages *)

Lemma on_data_ok g id data :
  gate_ok g → 0 ≤ id → (∀ c, c ∈ conn g → cn_id c = id → db_size (cn_buffer c) + zlen data ≤ INT_MAX) →
  ∃ acts g', on_data g id data = Ok (acts, g') ∧ gate_ok g' ∧ contents (g_hash g') = contents (g_hash g).
Proof.
  intros G Hid Hmax. unfold on_data. destruct (go_hash _ G) as [bk W].
  destruct (lookup_contents _ _ W id) as (r & -> & Hr). rewrite bind_Ok.
  destruct Hr as [(i & -> & Hi & _)|[-> _]]; [|rewrite decide_False by lia; by eexists _, _].
  destruct (conn_of _ _ _ G Hi) as (c & Hc & Ec & Hok).
  rewrite decide_True, (rd_lookup _ _ c), bind_Ok by (lia || by rewrite Nat2Z.id).
  destruct (dispatch_message_total g c id data) as (acts & db & mp & -> & Hok' & Hfree & Hpool).
  { destruct (go_header _ G); lia. }
  { done. }
  { apply Hmax; [by eapply list_elem_of_lookup_2|done]. }
  { apply (go_pool _ G). }
  rewrite bind_Ok. cbv beta iota.
  destruct (set_conn_ok g (g_hash g) bk i c (with_db c db) mp) as (g' & -> & G' & _ & ->); try done.
  { cbn. by rewrite list_insert_id by by rewrite Hi, Ec. }
  { cbn. lia. }
  rewrite bind_Ok. by eexists _, _.
Qed.

Lemma on_close_ok g id :
  gate_ok g → 0 ≤ id →
  ∃ acts g', on_close g id = Ok (acts, g') ∧ gate_ok g' ∧ ∀ k, known g' k ↔ known g k ∧ k ≠ id.
Proof.
  intros G Hid. unfold on_close. destruct (go_hash _ G) as [bk W].
  destruct (remove_contents _ _ W id Hid) as (r & hash & bk' & -> & W' & _ & Hr). rewrite bind_Ok. cbv beta iota.
  destruct Hr as [(i & -> & Hi & Econt)|(-> & Hno & ->)]; cycle 1.
  { rewrite decide_False by lia. eexists _, _. split; [done|]. split; [done|]. unfold known. naive_solver. }
  destruct (conn_of _ _ _ G Hi) as (c & Hc & Ec & Hok).
  rewrite decide_True, (rd_lookup _ _ c), bind_Ok by (lia || by rewrite Nat2Z.id).
  pose proof (go_pool _ G) as [Hf Hp]. pose proof (zlen_nonneg (db_msgs (cn_buffer c))).
  destruct (set_conn_ok g hash bk' i c no_conn (databuffer_clear (cn_buffer c) (g_mp g)).2) as (g' & -> & G' & _ & Eg'); try done.
  { cbn. lia. }
  { cbn. change (zlen (@nil (list Z))) with 0. lia. }
  rewrite bind_Ok. destruct (report_Ok g' (print_d id ++ lit " close")) as [acts ->].
  { rewrite zlen_app. pose proof (print_d_length id). change (zlen (lit " close")) with 6. lia. }
  rewrite bind_Ok. eexists _, _. split; [done|]. split; [done|]. intros k. subst g'. unfold known. cbn [g_hash].
  pose proof (elem_of_contents_insert _ _ _ _ _ _ k W Hi Econt) as Hx. destruct (decide (0 ≤ k)) as [Hk|Hk]; [|tauto].
  specialize (Hx Hk). assert (k ≠ -1) by lia. tauto.
Qed.

Lemma on_accept_ok g id ud address :
  gate_ok g → listen_id g = id → 0 ≤ ud ≤ 2 ^ 30 → ¬ known g ud →
  ∃ acts g', on_accept g id ud address = Ok (acts, g') ∧ gate_ok g' ∧
    ∀ k, known g' k ↔ known g k ∨ (hashid_full (g_hash g) = false ∧ k = ud).
Proof.
  intros G Hl Hud Hno. unfold on_accept. destruct (go_hash _ G) as [bk W].
  rewrite c_assert_true, bind_Ok by by apply bool_decide_eq_true_2.
  destruct (hashid_full (g_hash g)) eqn:Hfull.
  { eexists _, _. split; [done|]. split; [done|]. naive_solver. }
  destruct (insert_contents _ _ W ud Hud) as (i & hash & bk' & -> & W' & _ & Hi & Econt); [|done|].
  { intros Hx. apply Hno. split; [lia|done]. }
  rewrite bind_Ok. cbv beta iota. destruct (conn_of _ _ _ G Hi) as (c & Hc & Ec & Hok).
  rewrite (rd_lookup _ _ c), bind_Ok by (lia || by rewrite Nat2Z.id). cbv zeta.
  pose proof (go_pool _ G) as [Hf Hp].
  destruct (set_conn_ok g hash bk' i c (mk_conn ud (cn_agent c) (cn_client c) (take 31 address) (cn_buffer c)) (g_mp g))
    as (g' & -> & G' & _ & Eg'); try done.
  { cbn. lia. }
  rewrite bind_Ok.
  destruct (report_Ok g' (print_d ud ++ lit " open " ++ print_d ud ++ lit " " ++ until_nul (take 31 address) ++ lit ":0")) as [acts ->].
  { rewrite !zlen_app. pose proof (print_d_length ud). pose proof (until_nul_length (take 31 address)) as Hn.
    rewrite length_take in Hn. change (zlen (lit " open ")) with 6. change (zlen (lit " ")) with 1. change (zlen (lit ":0")) with 2.
    unfold zlen at 3. lia. }
  rewrite bind_Ok. eexists _, _. split; [done|]. split; [done|]. intros k. subst g'. unfold known. cbn [g_hash].
  pose proof (elem_of_contents_insert _ _ _ _ _ _ k W Hi Econt) as Hx. destruct (decide (0 ≤ k)) as [Hk|Hk].
  - specialize (Hx Hk). assert (k ≠ -1) by lia. tauto.
  - assert (k ≠ ud) by lia. tauto.
Qed.

(** ** Commands *)

(** A command is recognised by any prefix of its name, the empty one included. *)
Lemma is_command_spec msg name i :
  Forall (λ c, c ≠ 0) msg → 0 ≤ i ≤ zlen msg →
  ∃ b, is_command (msg ++ [0]) i name = Ok b ∧ (b = true ↔ take (Z.to_nat i) msg `prefix_of` name).
Proof.
  intros Hnz Hi. unfold is_command. assert (Z.to_nat i ≤ length msg)%nat as Hn by (unfold zlen in Hi; lia).
  clear Hi. revert msg name Hnz Hn. induction (Z.to_nat i) as [|n IH]; intros msg name Hnz Hn; cbn [memcmp_eq].
  { exists true. split; [done|]. rewrite take_0. split; [|done]. intros _. apply prefix_nil. }
  destruct msg as [|x msg]; [cbn in Hn; lia|]. apply Forall_cons in Hnz as [Hx Hnz]. cbn [app firstn].
  destruct name as [|y name]; cbn [app].
  { rewrite decide_False by done. exists false. split; [done|]. split; [done|]. intros []%prefix_nil_not. }
  destruct (decide (x = y)) as [<-|Hne].
  - destruct (IH msg name Hnz) as (b & -> & Hb); [cbn in Hn; lia|]. exists b. split; [done|]. rewrite Hb. split.
    + intros. by apply prefix_cons.
    + by apply prefix_cons_inv_2.
  - exists false. split; [done|]. split; [done|]. intros H%prefix_cons_inv_1. done.
Qed.

Lemma skip_spaces_spec n msg i :
  0 ≤ i → i + Z.of_nat n ≤ zlen msg → ∃ k, skip_spaces n msg i = Ok k ∧ i ≤ k ≤ i + Z.of_nat n.
Proof.
  revert i. induction n as [|n IH]; intros i Hi Hn; cbn [skip_spaces]; [exists i; split; [done|lia]|].
  destruct (rd_Ok msg i) as [c ->]; [lia|]. rewrite bind_Ok. case_decide; [exists i; split; [done|lia]|].
  destruct (IH (i + 1)) as (k & -> & Hk); [lia|lia|]. exists k. split; [done|lia].
Qed.
(** The parameters are moved to the front, in bounds and with a NUL behind them; the
    NUL at the end of the buffer stays. *)
Lemma parm_spec tmp sz i :
  zlen tmp = sz + 1 → tmp !! Z.to_nat sz = Some 0 → 0 ≤ i ≤ sz →
  ∃ k tmp', parm tmp sz i = Ok tmp' ∧ i ≤ k ≤ sz ∧ zlen tmp' = sz + 1 ∧
    tmp' !! Z.to_nat (sz - k) = Some 0 ∧ tmp' !! Z.to_nat sz = Some 0.
Proof.
  intros Hlen Hz Hi. unfold parm. destruct (skip_spaces_spec (Z.to_nat (sz - i)) tmp i) as (k & -> & Hk); [lia|lia|].
  rewrite bind_Ok.
  destruct (c_for_spec (λ _ t, zlen t = sz + 1 ∧ t !! Z.to_nat sz = Some 0) (λ j t, x ← rd t j; wr t (j - k) x)
    (Z.to_nat (sz - k)) k tmp) as (t & Et & Hlen' & Hz').
  { done. }
  { intros j t Hj [Hl Ht]. destruct (rd_Ok t j) as [x ->]; [lia|]. rewrite bind_Ok, wr_Ok by lia.
    eexists. split; [done|]. rewrite zlen_insert. split; [done|]. rewrite list_lookup_insert_ne by lia. done. }
  rewrite Et, bind_Ok, wr_Ok by lia. exists k. eexists. split; [done|]. split; [lia|]. rewrite zlen_insert. split; [done|].
  split; [apply list_lookup_insert_eq; unfold zlen in *; lia|].
  destruct (decide (k = 0)) as [->|]; [rewrite Z.sub_0_r; apply list_lookup_insert_eq; unfold zlen in *; lia|].
  by rewrite list_lookup_insert_ne by lia.
Qed.

Lemma find_sep_spec l n q :
  l !! q = Some 0 → ∃ r, find_sep l n = Ok r ∧ match r with Some p => n ≤ p < n + Z.of_nat q | None => True end.
Proof.
  revert n q. induction l as [|c l IH]; intros n q Hq; [done|]. cbn [find_sep].
  destruct (decide (c = 0)); [by exists None|]. destruct q as [|q]; [cbn in Hq; by injection Hq|].
  destruct (decide (c = 32)); [exists (Some n); split; [done|lia]|].
  destruct (IH (n + 1) q Hq) as (r & -> & Hr). exists r. split; [done|]. destruct r; [lia|done].
Qed.
Lemma strsep_at_spec tmp off q :
  0 ≤ off ≤ q → tmp !! Z.to_nat q = Some 0 →
  ∃ r tmp', strsep_at tmp off = Ok (r, tmp') ∧ (∀ j, tmp !! j = Some 0 → tmp' !! j = Some 0) ∧
    match r with Some p => off < p ≤ q | None => True end.
Proof.
  intros Hoff Hq. unfold strsep_at. destruct (find_sep_spec (drop (Z.to_nat off) tmp) off (Z.to_nat (q - off))) as (r & -> & Hr).
  { rewrite lookup_drop, <- Hq. f_equal. lia. }
  rewrite bind_Ok. destruct r as [p|]; [|by eexists _, _]. apply lookup_lt_Some in Hq.
  rewrite wr_Ok, bind_Ok by (unfold zlen; lia). eexists _, _. split; [done|]. split; [|lia].
  intros j Hj. destruct (decide (j = Z.to_nat p)) as [->|]; [apply list_lookup_insert_eq; lia|].
  by rewrite list_lookup_insert_ne.
Qed.
Lemma c_str_at tmp off q : 0 ≤ off ≤ q → tmp !! Z.to_nat q = Some 0 → is_Ok (c_str (drop (Z.to_nat off) tmp)).
Proof.
  intros Hoff Hq. eexists. apply c_str_until. apply list_elem_of_lookup. exists (Z.to_nat (q - off)).
  rewrite lookup_drop, <- Hq. f_equal. lia.
Qed.

(** A command that keeps the table. *)
Definition keeps (g : gate) (r : result (list action * gate)) : Prop :=
  ∃ acts g', r = Ok (acts, g') ∧ gate_ok g' ∧ contents (g_hash g') = contents (g_hash g).

Lemma on_known_keeps g tmp act q : gate_ok g → tmp !! q = Some 0 → keeps g (on_known g tmp act).
Proof.
  intros G Hq. unfold on_known, keeps. destruct (go_hash _ G) as [bk W].
  destruct (c_str_at tmp 0 (Z.of_nat q)) as [s Es]; [lia|by rewrite Nat2Z.id|]. rewrite drop_0 in Es. rewrite Es, bind_Ok. cbv zeta.
  destruct (lookup_contents _ _ W (s32 (strtol10 s))) as (r & -> & _). rewrite bind_Ok. by eexists _, _.
Qed.
Lemma forward_agent_keeps g fd a cl :
  gate_ok g → ∃ g', forward_agent g fd a cl = Ok g' ∧ gate_ok g' ∧ contents (g_hash g') = contents (g_hash g).
Proof.
  intros G. unfold forward_agent. destruct (go_hash _ G) as [bk W].
  destruct (lookup_contents _ _ W fd) as (r & -> & Hr). rewrite bind_Ok.
  destruct Hr as [(i & -> & Hi & Hfd)|[-> _] ]; [|rewrite decide_False by lia; by eexists].
  destruct (conn_of _ _ _ G Hi) as (c & Hc & Ec & Hok).
  rewrite decide_True, (rd_lookup _ _ c), bind_Ok by (lia || by rewrite Nat2Z.id).
  destruct (set_conn_ok g (g_hash g) bk i c (set_agent c a cl) (g_mp g)) as (g' & -> & G' & _ & ->); try done.
  - cbn. by rewrite list_insert_id by by rewrite Hi, Ec.
  - cbn. lia.
  - apply (go_pool _ G).
  - by eexists.
Qed.
Lemma forward_args_keeps g tmp k :
  gate_ok g → 0 ≤ k → tmp !! Z.to_nat k = Some 0 → (∃ q, k < q ∧ tmp !! Z.to_nat q = Some 0) →
  ∃ g', forward_args g tmp = Ok g' ∧ gate_ok g' ∧ contents (g_hash g') = contents (g_hash g).
Proof.
  intros G Hk Hz (q & Hq & Hzq). unfold forward_args.
  destruct (strsep_at_spec tmp 0 k) as (r & tmp1 & -> & Hk1 & Hr); [lia|done|]. rewrite bind_Ok. cbv beta iota.
  destruct r as [agent|]; [|by exists g].
  destruct (c_str_at tmp1 0 k) as [idstr E0]; [lia|by apply Hk1|]. rewrite drop_0 in E0. rewrite E0, bind_Ok.
  destruct (strsep_at_spec tmp1 agent k) as (r & tmp2 & -> & Hk2 & Hr2); [lia|by apply Hk1|]. rewrite bind_Ok. cbv beta iota.
  destruct r as [client|]; [|by exists g].
  destruct (c_str_at tmp2 (agent + 1) q) as [a ->]; [lia|by apply Hk2, Hk1|]. rewrite bind_Ok.
  destruct (c_str_at tmp2 (client + 1) q) as [c ->]; [lia|by apply Hk2, Hk1|]. rewrite bind_Ok.
  by apply forward_agent_keeps.
Qed.

Lemma first_space_range l : 0 ≤ first_space l ≤ zlen l.
Proof. induction l as [|c l IH]; cbn [first_space]; [done|]. rewrite zlen_cons. case_decide; lia. Qed.

Section Commands.
Context (queryname : cstring → Z).

Lemma ctrl_keeps g msg : gate_ok g → Forall (λ c, c ≠ 0) msg → keeps g (ctrl queryname g msg).
Proof.
  intros G Hnz. unfold ctrl. cbv zeta. destruct (decide (zlen msg = 0)) as [H0|H0]; [by eexists _, _|].
  pose proof (first_space_range msg) as Hi. set (i := first_space msg) in *. set (sz := zlen msg) in *.
  assert (zlen (msg ++ [0]) = sz + 1) as Hlen by by rewrite zlen_app.
  assert ((msg ++ [0]) !! Z.to_nat sz = Some 0) as Hz.
  { unfold sz, zlen. by rewrite Nat2Z.id, list_lookup_middle. }
  destruct (parm_spec (msg ++ [0]) sz i Hlen Hz Hi) as (k & tmp & Ep & Hk & Hl & Hzk & Hzs).
  assert (∀ (act : Z → action), keeps g (t ← parm (msg ++ [0]) sz i; on_known g t act)) as Hkn.
  { intros act. rewrite Ep, bind_Ok. by eapply on_known_keeps. }
  destruct (is_command_spec msg (lit "kick") i Hnz Hi) as ([|] & -> & Hb1); rewrite bind_Ok; [apply Hkn|].
  destruct (is_command_spec msg (lit "forward") i Hnz Hi) as ([|] & -> & Hb2); rewrite bind_Ok.
  { assert (i ≠ 0) as Hi0. { intros E. rewrite E in Hb1. destruct Hb1 as [_ Hb1]. discriminate Hb1. apply prefix_nil. }
    rewrite Ep, bind_Ok. destruct (forward_args_keeps g tmp (sz - k)) as (g' & -> & G' & E'); [done|lia|done| |].
    - exists sz. split; [lia|done].
    - rewrite bind_Ok. by eexists _, _. }
  destruct (is_command_spec msg (lit "broker") i Hnz Hi) as ([|] & -> & Hb3); rewrite bind_Ok.
  { rewrite Ep, bind_Ok. destruct (c_str_at tmp 0 sz) as [s Es]; [lia|done|]. rewrite drop_0 in Es. rewrite Es, bind_Ok.
    eexists _, _. split; [done|]. split; [|done]. by destruct G. }
  destruct (is_command_spec msg (lit "start") i Hnz Hi) as ([|] & -> & Hb4); rewrite bind_Ok; [apply Hkn|].
  destruct (is_command_spec msg (lit "close") i Hnz Hi) as ([|] & -> & Hb5); rewrite bind_Ok.
  { case_decide; [|by eexists _, _]. eexists _, _. split; [done|]. split; [|done]. by destruct G. }
  rewrite c_str_app, bind_Ok by done. by eexists _, _.
Qed.

(** What the gate may be sent: texts without a NUL, any client message, and the
    messages the socket layer sends for its sockets. *)
Definition input_ok (g : gate) (input : gate_input) : Prop :=
  match input with
  | GText msg => Forall (λ c, c ≠ 0) msg
  | GClient _ _ => True
  | GSocket m =>
      if decide (sm_type m = SKYNET_SOCKET_TYPE_DATA) then
        ∃ data, sm_buffer m = Some data ∧ 0 ≤ sm_id m ∧
          ∀ c, c ∈ conn g → cn_id c = sm_id m → db_size (cn_buffer c) + zlen data ≤ INT_MAX
      else if decide (sm_type m = SKYNET_SOCKET_TYPE_CLOSE ∨ sm_type m = SKYNET_SOCKET_TYPE_ERROR) then 0 ≤ sm_id m
      else if decide (sm_type m = SKYNET_SOCKET_TYPE_ACCEPT) then
        sm_id m = listen_id g ∧ 0 ≤ sm_ud m ≤ 2 ^ 30 ∧ ¬ known g (sm_ud m)
      else True
  end.
(** The sockets known after it. *)
Definition known_after (g : gate) (input : gate_input) (id : Z) : Prop :=
  match input with
  | GSocket m =>
      if decide (sm_type m = SKYNET_SOCKET_TYPE_CLOSE ∨ sm_type m = SKYNET_SOCKET_TYPE_ERROR) then
        known g id ∧ id ≠ sm_id m
      else if decide (sm_type m = SKYNET_SOCKET_TYPE_ACCEPT) then
        known g id ∨ (hashid_full (g_hash g) = false ∧ id = sm_ud m)
      else known g id
  | _ => known g id
  end.

Lemma gate_cb_ok g input :
  gate_ok g → input_ok g input →
  ∃ keep acts g', gate_cb queryname g input = Ok (keep, acts, g') ∧ gate_ok g' ∧
    ∀ id, known g' id ↔ known_after g input id.
Proof.
  intros G. destruct input as [msg|source msg|m]; cbn [gate_cb input_ok known_after].
  - intros H. destruct (ctrl_keeps g msg G H) as (acts & g' & -> & G' & E). rewrite bind_Ok.
    eexists _, _, _. split; [done|]. split; [done|]. unfold known. cbn [snd]. by rewrite E.
  - intros _. case_decide as Hs; [by eexists _, _, _|]. destruct (go_hash _ G) as [bk W]. cbv zeta.
    assert (zlen (drop (length msg - 4) msg) = 4) as Hl by (unfold zlen in *; rewrite length_drop; lia).
    set (idbuf := drop (length msg - 4) msg) in *.
    destruct (rd_Ok idbuf 0) as [b0 ->]; [lia|]. destruct (rd_Ok idbuf 1) as [b1 ->]; [lia|].
    destruct (rd_Ok idbuf 2) as [b2 ->]; [lia|]. destruct (rd_Ok idbuf 3) as [b3 ->]; [lia|]. rewrite !bind_Ok. cbv zeta.
    match goal with |- context [hashid_lookup _ ?x] => destruct (lookup_contents _ _ W x) as (r & -> & _) end.
    rewrite bind_Ok. case_decide; by eexists _, _, _.
  - unfold dispatch_socket_message, SKYNET_SOCKET_TYPE_DATA, SKYNET_SOCKET_TYPE_CONNECT, SKYNET_SOCKET_TYPE_CLOSE,
      SKYNET_SOCKET_TYPE_ACCEPT, SKYNET_SOCKET_TYPE_ERROR, SKYNET_SOCKET_TYPE_WARNING. intros Hin.
    destruct (decide (sm_type m = 1)) as [E1|E1].
    { destruct Hin as (data & -> & Hid & Hmax). cbn [of_option]. rewrite bind_Ok.
      destruct (on_data_ok g (sm_id m) data G Hid Hmax) as (acts & g' & -> & G' & E). rewrite bind_Ok.
      eexists _, _, _. split; [done|]. split; [done|]. intros id. rewrite !decide_False by lia. unfold known. cbn [snd]. by rewrite E. }
    destruct (decide (sm_type m = 2)) as [E2|E2].
    { assert (∃ acts, on_connect g (sm_id m) = Ok (acts, g)) as [acts ->].
      { unfold on_connect. destruct (decide (sm_id m = listen_id g)); [by eexists|]. destruct (go_hash _ G) as [bk W].
        destruct (lookup_contents _ _ W (sm_id m)) as (r & -> & _). rewrite bind_Ok. destruct (decide (r < 0)); by eexists. }
      rewrite bind_Ok. eexists _, _, _. split; [done|]. split; [done|]. intros id. by rewrite !decide_False by lia. }
    destruct (decide (sm_type m = 3 ∨ sm_type m = 5)) as [E3|E3].
    { destruct (on_close_ok g (sm_id m) G Hin) as (acts & g' & -> & G' & E). by eexists _, _, _. }
    destruct (decide (sm_type m = 4)) as [E4|E4].
    { destruct Hin as (Hl & Hud & Hno).
      destruct (on_accept_ok g (sm_id m) (sm_ud m) (sm_padding m) G (eq_sym Hl) Hud Hno) as (acts & g' & -> & G' & E).
      by eexists _, _, _. }
    case_decide; by eexists _, _, _.
Qed.
End Commands.

(** ** From the start *)

Lemma held_free n : held (replicate n no_conn) = 0.
Proof. induction n as [|n IH]; [done|]. cbn [replicate held foldr]. unfold held in IH. rewrite IH. done. Qed.

Lemma gate_init_ok queryname socket_listen parm acts g :
  gate_init queryname socket_listen gate_create (Some parm) = Ok (0, acts, g) → max_connection g ≤ 2 ^ 30 →
  gate_ok g ∧ ∀ id, ¬ known g id.
Proof.
  unfold gate_init. destruct (scan_parm parm) as [[[[[header wd] binding] tag] max]|]; [|done].
  destruct (decide (max ≤ 0)) as [Hm|Hm]; [done|]. destruct (decide (header ≠ 83 ∧ header ≠ 76)); [done|]. cbv zeta.
  set (dog := match wd with 33 :: _ => 0 | _ => queryname wd end).
  destruct (decide (hd 0 wd ≠ 33 ∧ dog = 0)); [done|].
  intros (hash & Eh & E)%bind_Ok_inv Hmax.
  set (g1 := mk_gate _ dog _ _ _ _ hash _ _) in E.
  assert (max_connection g = max ∧ g_hash g = hash ∧ conn g = replicate (Z.to_nat max) no_conn ∧
    g_mp g = mk_pool 0 0 ∧ (header_size g = 2 ∨ header_size g = 4)) as (E1 & E2 & E3 & E4 & E5).
  { unfold start_listen in E. destruct (match (split_colon binding).2 with None => _ | Some p => _ end) as [host port].
    assert (header_size g1 = 2 ∨ header_size g1 = 4) by (unfold g1; cbn [header_size]; destruct (decide (header = 83)); auto).
    destruct (decide (port ≤ 0)); [done|]. destruct (decide (listen_id _ < 0)); [done|]. by injection E as <- <-. }
  rewrite E1 in Hmax. destruct (hashid_init_spec max) as (hi & bk & Eh' & W & _ & Hcont); [lia|].
  rewrite Eh in Eh'. injection Eh' as <-. split.
  - split; rewrite ?E1, ?E2, ?E3, ?E4; try done.
    + by exists bk.
    + by rewrite Hcont, fmap_replicate.
    + by intros c [-> _]%elem_of_replicate.
    + intros c [-> _]%elem_of_replicate. by split.
    + rewrite zlen_replicate. lia.
    + rewrite held_free. cbn. lia.
  - intros id [H0 Hin]. rewrite E2, Hcont in Hin. apply elem_of_replicate in Hin as [-> _]. lia.
Qed.

Section Run.
Context (queryname : cstring → Z) (socket_listen : cstring → Z → Z).

(** One message handled. *)
Inductive gate_step (g g' : gate) : Prop :=
| gate_handles input keep acts :
    input_ok g input → gate_cb queryname g input = Ok (keep, acts, g') → gate_step g g'.

Lemma gate_steps_ok g g' : rtc gate_step g g' → gate_ok g → gate_ok g'.
Proof.
  induction 1 as [|g1 g2 g3 [input keep acts Hin E] _ IH]; [done|]. intros G. apply IH.
  destruct (gate_cb_ok queryname g1 input G Hin) as (? & ? & ? & E' & G' & _). rewrite E in E'. by simplify_eq.
Qed.

(** An accepted connection is reported with the id of the socket that listens: for any
    other id the assertion of the gate fails. *)
Lemma accept_elsewhere_aborts g m :
  sm_type m = SKYNET_SOCKET_TYPE_ACCEPT → sm_id m ≠ listen_id g → gate_cb queryname g (GSocket m) = Err AssertFailed.
Proof.
  intros E Hne. cbn [gate_cb]. unfold dispatch_socket_message. rewrite E. unfold SKYNET_SOCKET_TYPE_DATA, SKYNET_SOCKET_TYPE_CONNECT,
    SKYNET_SOCKET_TYPE_CLOSE, SKYNET_SOCKET_TYPE_ACCEPT, SKYNET_SOCKET_TYPE_ERROR, SKYNET_SOCKET_TYPE_WARNING.
  rewrite decide_False, decide_False, decide_False, decide_True by lia. unfold on_accept, c_assert. by rewrite bool_decide_eq_false_2.
Qed.

(** C18: the gate keeps its table, and fails on nothing but a late accept. After
    [gate_init] for at most 2^30 connections, through any messages (commands without a
    NUL, client messages of any bytes, data as long as a connection's buffer stays within
    INT_MAX bytes, closing of any sockets, and accepted sockets with ids of at most 2^30
    that are not known yet, reported for the socket the gate listens on) no assertion of
    the id table or the buffers fails and no bound is passed; the next message is
    handled, and the sockets known are those accepted and not closed since; every known
    socket is in one connection, the one the table finds, free connections hold nothing,
    and the messages of the pool are those on the free list or in a connection's buffer.
    An accepted socket reported for any other id than the one the gate listens on, as
    behind a 'close' command, fails the assertion of the gate. *)
Theorem gate_keeps_its_table parm acts0 g0 g :
  gate_init queryname socket_listen gate_create (Some parm) = Ok (0, acts0, g0) → max_connection g0 ≤ 2 ^ 30 →
  rtc gate_step g0 g →
  (∀ input, input_ok g input → ∃ keep acts g', gate_cb queryname g input = Ok (keep, acts, g') ∧
     ∀ id, known g' id ↔ known_after g input id) ∧
  (∀ id i c, 0 ≤ id → conn g !! i = Some c → cn_id c = id ↔ hashid_lookup (g_hash g) id = Ok (Z.of_nat i)) ∧
  (∀ c, c ∈ conn g → cn_id c = -1 → c = no_conn) ∧
  mp_free (g_mp g) + held (conn g) = MESSAGEPOOL * mp_pools (g_mp g) ∧
  (∀ m, sm_type m = SKYNET_SOCKET_TYPE_ACCEPT → sm_id m ≠ listen_id g → gate_cb queryname g (GSocket m) = Err AssertFailed).
Proof.
  intros Ei Hmax Hrun. destruct (gate_init_ok _ _ _ _ _ Ei Hmax) as [G0 _]. pose proof (gate_steps_ok _ _ Hrun G0) as G.
  split; [|split; [|split; [apply (go_free _ G)|split; [apply (go_pool _ G)|intros m; apply accept_elsewhere_aborts]]]].
  - intros input Hin. destruct (gate_cb_ok queryname g input G Hin) as (keep & acts & g' & E & _ & Hk). by exists keep, acts, g'.
  - intros id i c Hid Hc. destruct (go_hash _ G) as [bk W].
    assert (contents (g_hash g) !! i = Some (cn_id c)) as Hi by (by rewrite <- (go_ids _ G), list_lookup_fmap, Hc).
    destruct (lookup_contents _ _ W id) as (r & -> & Hr). destruct Hr as [(j & -> & Hj & _)|[-> Hno] ].
    + split; [|intros [= ->%Nat2Z.inj]; by rewrite Hi in Hj; injection Hj].
      intros E. do 2 f_equal. eapply (contents_inj _ _ W); [done| |lia]. by rewrite Hi, E.
    + split; [|intros [= ?]; lia]. intros <-. destruct Hno as [[]|?]; [|lia]. by eapply list_elem_of_lookup_2.
Qed.
End Run.

(** ** The packets of the streams *)

(** One turn of the specification, without the fuel. *)
Lemma packets_eq hs l :
  0 < hs → Forall is_byte l →
  packets hs l =
    let n := be_value (take (Z.to_nat hs) l) in
    if decide (zlen l < hs) then Some ([], l)
    else if decide (0x1000000 ≤ n) then None
    else if decide (zlen l < hs + n) then Some ([], l)
    else p ← packets hs (drop (Z.to_nat (hs + n)) l);
         Some (if decide (n = 0) then p.1 else take (Z.to_nat n) (drop (Z.to_nat hs) l) :: p.1, p.2).
Proof.
  intros Hhs Hb. cbv zeta. unfold packets at 1. rewrite (gate_frames_fuel hs (length l) (S (length l))) by (done || lia).
  cbn [gate_frames]. destruct (decide (zlen l < hs)); [done|]. destruct (decide (0x1000000 ≤ _)); [done|].
  destruct (decide (zlen l < hs + _)); [done|]. unfold packets.
  pose proof (be_value_nonneg (take (Z.to_nat hs) l) ltac:(by apply Forall_take)) as Hn.
  rewrite (gate_frames_fuel hs (length l) (length (drop (Z.to_nat (hs + be_value (take (Z.to_nat hs) l))) l)))
    by (done || (by apply Forall_drop) || rewrite length_drop; lia).
  by destruct (gate_frames _ _ _) as [[fs rest]|].
Qed.

(** Cutting a stream into packets does not depend on where it was interrupted. *)
Lemma packets_app hs a b :
  0 < hs → Forall is_byte a → Forall is_byte b →
  packets hs (a ++ b) = p ← packets hs a; q ← packets hs (p.2 ++ b); Some (p.1 ++ q.1, q.2).
Proof.
  intros Hhs. remember (length a) as k eqn:Ek. revert a Ek. induction k as [k IH] using lt_wf_ind. intros a -> Ha Hb.
  rewrite (packets_eq hs a) by done. cbv zeta. set (n := be_value (take (Z.to_nat hs) a)).
  assert (Some ([], a) ≫= (λ p : list (list Z) * list Z, packets hs (p.2 ++ b) ≫= λ q, Some (p.1 ++ q.1, q.2)) = packets hs (a ++ b)) as Eshort
    by (cbn [mbind option_bind fst snd app]; by destruct (packets hs (a ++ b)) as [[fs rest]|]).
  destruct (decide (zlen a < hs)) as [H1|H1]; [done|].
  assert (take (Z.to_nat hs) (a ++ b) = take (Z.to_nat hs) a) as Et by (apply take_app_le; unfold zlen in *; lia).
  assert (0 ≤ n) as Hn by (apply be_value_nonneg; by apply Forall_take).
  destruct (decide (0x1000000 ≤ n)) as [H2|H2].
  { rewrite packets_eq by (done || by apply Forall_app). cbv zeta. rewrite Et. fold n.
    rewrite decide_False by (rewrite zlen_app; pose proof (zlen_nonneg b); lia). by rewrite decide_True. }
  destruct (decide (zlen a < hs + n)) as [H3|H3]; [done|].
  rewrite (packets_eq hs (a ++ b)) by (done || by apply Forall_app). cbv zeta. rewrite Et. fold n. pose proof (zlen_nonneg b).
  rewrite zlen_app, decide_False, decide_False, decide_False by lia.
  rewrite drop_app_le, (drop_app_le a b) by (unfold zlen in *; lia). rewrite (take_app_le (drop (Z.to_nat hs) a))
    by (rewrite length_drop; unfold zlen in *; lia).
  rewrite (IH (length (drop (Z.to_nat (hs + n)) a))); [|rewrite length_drop; unfold zlen in *; lia|done|by apply Forall_drop|done].
  destruct (packets hs (drop (Z.to_nat (hs + n)) a)) as [[fs1 r1]|]; cbn [mbind option_bind fst snd]; [|done].
  destruct (packets hs (r1 ++ b)) as [[fs2 r2]|]; cbn [mbind option_bind fst snd]; [|done]. by destruct (decide (n = 0)).
Qed.

(** One chunk for one connection. *)
Lemma dispatch_message_spec g c id data pend fs rest :
  header_size g = 2 ∨ header_size g = 4 → recipient g c → pend_ok (header_size g) (cn_buffer c) pend →
  Forall is_byte data → packets (header_size g) (pend ++ data) = Some (fs, rest) →
  zlen (pend ++ data) ≤ INT_MAX → 0 ≤ mp_free (g_mp g) →
  ∃ db mp, dispatch_message g c id data = Ok (packet_action g c <$> fs, with_db c db, mp) ∧
    pend_ok (header_size g) db rest ∧ 0 ≤ mp_free mp ∧
    mp_free mp + zlen (db_msgs db) - MESSAGEPOOL * mp_pools mp
      = mp_free (g_mp g) + zlen (db_msgs (cn_buffer c)) - MESSAGEPOOL * mp_pools (g_mp g).
Proof.
  intros Hhs Hr [Pdb Pb Pp] Hb Hpk Hmax Hfree. unfold dispatch_message. rewrite zlen_app in Hmax.
  assert (db_size (cn_buffer c) ≤ zlen pend) as Hle.
  { rewrite (do_size _ Pdb). destruct Pp as [[_ ->]|(_ & hb & _ & _ & ->)]; [done|]. rewrite zlen_app. pose proof (zlen_nonneg hb). lia. }
  destruct (push_spec (cn_buffer c) (g_mp g) data Pdb) as (db1 & mp1 & -> & Hok1 & Eh & Eb & Hf1 & Hp1); [lia|done|].
  rewrite bind_Ok. cbv beta iota.
  assert (pend_ok (header_size g) db1 (pend ++ data)) as P1.
  { split; [done|by apply Forall_app|]. rewrite Eh, Eb.
    destruct Pp as [[? ->]|(? & hb & ? & ? & ->)]; [by left|right]. split; [done|]. exists hb. by rewrite app_assoc. }
  destruct (gate_loop_spec (S (Z.to_nat (db_size db1 + 1))) (with_mp g mp1) (with_db c db1) id (pend ++ data) fs rest)
    as (db & mp & -> & P2 & Hret & Hpool & Hmono); [done|done|done|done| |].
  { cbn [cn_buffer with_db]. pose proof (do_size _ Hok1). pose proof (zlen_nonneg (db_bytes db1)). lia. }
  cbn [with_mp g_mp cn_buffer with_db] in *. eexists _, _. split; [done|]. split; [done|]. rewrite Hpool. lia.
Qed.

(** Chunks arriving for several connections, and what each made the gate do. *)
Fixpoint receive (g : gate) (chunks : list (Z * list Z)) : result (list (Z * list action) * gate) :=
  match chunks with
  | [] => Ok ([], g)
  | (id, data) :: chunks =>
      r ← dispatch_socket_message g (mk_socket_message SKYNET_SOCKET_TYPE_DATA id (zlen data) (Some data) []);
      rest ← receive r.2 chunks;
      Ok ((id, r.1) :: rest.1, rest.2)
  end.
(** What arrived for a socket, and what was done for it, in order. *)
Definition of_socket {A} (id : Z) (l : list (Z * list A)) : list A := concat (snd <$> filter (λ p, p.1 = id) l).

Lemma of_socket_cons {A} id k (x : list A) l :
  of_socket id ((k, x) :: l) = (if decide (k = id) then x else []) ++ of_socket id l.
Proof. unfold of_socket. rewrite filter_cons. cbn [fst]. by case_decide. Qed.

(** What is asked of the connections and the chunks: [pend i] is what connection [i]
    has received and not forwarded. *)
Record stream_ok (g : gate) (pend : nat → list Z) (chunks : list (Z * list Z)) : Prop := {
  so_known : Forall (λ p, known g p.1 ∧ Forall is_byte p.2) chunks;
  so_conn : ∀ i c, conn g !! i = Some c → 0 ≤ cn_id c →
    recipient g c ∧ pend_ok (header_size g) (cn_buffer c) (pend i) ∧
    packets (header_size g) (pend i) = Some ([], pend i) ∧
    zlen (pend i ++ of_socket (cn_id c) chunks) ≤ INT_MAX ∧
    is_Some (packets (header_size g) (pend i ++ of_socket (cn_id c) chunks)) }.

Lemma of_socket_bytes id chunks : Forall (λ p, Forall is_byte p.2) chunks → Forall is_byte (of_socket id chunks).
Proof.
  induction 1 as [|[k x] l Hx _ IH]; [constructor|]. rewrite of_socket_cons. case_decide; [|done]. by apply Forall_app.
Qed.

Lemma packets_rest_length hs l fs rest :
  0 < hs → Forall is_byte l → packets hs l = Some (fs, rest) → zlen rest ≤ zlen l.
Proof.
  intros Hhs. remember (length l) as k eqn:Ek. revert l fs Ek. induction k as [k IH] using lt_wf_ind. intros l fs -> Hb.
  rewrite packets_eq by done. cbv zeta. set (n := be_value _). destruct (decide (zlen l < hs)); [by intros [= _ <-]|].
  destruct (decide (_ ≤ n)); [done|]. destruct (decide (zlen l < hs + n)); [by intros [= _ <-]|].
  assert (0 ≤ n) by (apply be_value_nonneg; by apply Forall_take).
  destruct (packets hs (drop _ l)) as [[fs' rest']|] eqn:E; [|done]. cbn. intros [= _ <-].
  eapply (IH (length (drop (Z.to_nat (hs + n)) l))) in E; [|rewrite length_drop; unfold zlen in *; lia|done|by apply Forall_drop].
  unfold zlen in *. rewrite length_drop in E. lia.
Qed.
Lemma packets_rest hs l fs rest :
  0 < hs → Forall is_byte l → packets hs l = Some (fs, rest) → packets hs rest = Some ([], rest).
Proof.
  intros Hhs Hb E. pose proof (packets_app hs l [] Hhs Hb (Forall_nil_2 _)) as H. rewrite app_nil_r, E in H.
  cbn [mbind option_bind fst snd] in H. rewrite app_nil_r in H. destruct (packets hs rest) as [[fs2 r2]|]; [|done].
  cbn in H. injection H as H1 H2. rewrite <- (app_nil_r fs) in H1 at 1. apply app_inv_head in H1. by subst.
Qed.

(** A chunk for a known connection, through the table. *)
Lemma on_data_spec g id data i c pend fs rest :
  gate_ok g → conn g !! i = Some c → cn_id c = id → 0 ≤ id → recipient g c → pend_ok (header_size g) (cn_buffer c) pend →
  Forall is_byte data → packets (header_size g) (pend ++ data) = Some (fs, rest) → zlen (pend ++ data) ≤ INT_MAX →
  ∃ db mp, let g' := mk_gate (listen_id g) (watchdog g) (broker g) (client_tag g) (header_size g) (max_connection g)
                       (g_hash g) (<[i := with_db c db]> (conn g)) mp in
    on_data g id data = Ok (packet_action g c <$> fs, g') ∧ gate_ok g' ∧ pend_ok (header_size g) db rest.
Proof.
  intros G Hc Ec Hid Hr P Hb Hpk Hmax. unfold on_data. destruct (go_hash _ G) as [bk W].
  assert (contents (g_hash g) !! i = Some id) as Hi by (by rewrite <- (go_ids _ G), list_lookup_fmap, Hc; cbn; rewrite Ec).
  destruct (lookup_contents _ _ W id) as (r & -> & [(j & -> & Hj & _)|[-> Hno] ]); cycle 1.
  { destruct Hno as [[]|?]; [by eapply list_elem_of_lookup_2|lia]. }
  assert (j = i) as -> by (eapply (contents_inj _ _ W); [done|done|lia]).
  rewrite bind_Ok, decide_True, (rd_lookup _ _ c), bind_Ok by (lia || by rewrite Nat2Z.id).
  destruct (dispatch_message_spec g c id data pend fs rest (go_header _ G) Hr P Hb Hpk Hmax (proj1 (go_pool _ G)))
    as (db & mp & -> & P' & Hf & Hp). rewrite bind_Ok. cbv beta iota.
  destruct (set_conn_ok g (g_hash g) bk i c (with_db c db) mp) as (g' & -> & G' & _ & ->); try done.
  { cbn. by rewrite list_insert_id by by rewrite Hi, Ec. }
  { cbn. lia. }
  { cbn. apply P'. }
  exists db, mp. by rewrite bind_Ok.
Qed.

Definition put_pend (pend : nat → list Z) (i : nat) (l : list Z) (j : nat) : list Z := if decide (j = i) then l else pend j.

(** Through the first chunk, the rest of the chunks are still in order. *)
Lemma stream_ok_step g pend id data chunks i c fs rest db mp hash :
  gate_ok g → stream_ok g pend ((id, data) :: chunks) → conn g !! i = Some c → cn_id c = id → 0 ≤ id →
  packets (header_size g) (pend i ++ data) = Some (fs, rest) → pend_ok (header_size g) db rest →
  contents hash = contents (g_hash g) →
  stream_ok (mk_gate (listen_id g) (watchdog g) (broker g) (client_tag g) (header_size g) (max_connection g)
    hash (<[i := with_db c db]> (conn g)) mp) (put_pend pend i rest) chunks.
Proof.
  intros G [Hk Hc] Hi Ec Hid Hpk P Eh. assert (0 < header_size g) as Hhs by (destruct (go_header _ G); lia).
  apply Forall_cons in Hk as [[_ Hb] Hk]. cbn [snd] in Hb. split.
  { eapply Forall_impl; [exact Hk|]. intros [k x]. unfold known. cbn. by rewrite Eh. }
  assert (Forall (λ p, Forall is_byte p.2) chunks) as Hbs by (eapply Forall_impl; [exact Hk|]; by intros p [_ ?]).
  intros j c' Hj Hid'. cbn [conn header_size] in *. apply list_lookup_insert_Some in Hj as [(<- & <- & _)|[Hne Hj]].
  - destruct (Hc i c Hi ltac:(lia)) as (Hr & Pi & Hq & Hmax & Hs). cbn [with_db cn_id cn_buffer] in *.
    unfold put_pend. rewrite decide_True by done. rewrite of_socket_cons, decide_True in Hmax, Hs by done.
    rewrite app_assoc in Hmax, Hs. pose proof (po_bytes _ _ _ Pi) as Hpb.
    assert (Forall is_byte (pend i ++ data)) as Hpd by by apply Forall_app.
    rewrite packets_app, Hpk in Hs by (done || by apply of_socket_bytes). cbn [mbind option_bind fst snd] in Hs.
    assert (zlen rest ≤ zlen (pend i ++ data)) as Hle by by eapply packets_rest_length.
    split; [done|]. split; [done|]. split; [by eapply packets_rest|].
    split; [rewrite !zlen_app in *; lia|]. destruct (packets _ (rest ++ _)); [by eexists|by destruct Hs].
  - destruct (Hc j c' Hj Hid') as (Hr & Pi & Hq & Hmax & Hs). unfold put_pend. rewrite decide_False by done.
    assert (cn_id c' ≠ id) as Hcid by (intros E; apply Hne; apply (conn_inj g i j c c' G Hi Hj); congruence || lia).
    rewrite of_socket_cons, decide_False in Hmax, Hs by done. done.
Qed.

(** C17: the gate forwards the packets of its streams. Chunks for any number of
    connections arrive in any order and cut anywhere; each connection has someone to
    forward to (the broker, its agent or the watchdog), may have bytes [pend i] pending,
    nothing when it was just opened, and its stream has at most INT_MAX bytes and no
    length of 2^24 or more. Every chunk is handled, and what
    the gate does for a socket is to send the packets of its own stream (a two or four
    byte big-endian length, then that many bytes; empty packets are skipped) to the
    broker, its agent or the watchdog, each once and in order; the bytes behind the last
    complete packet stay pending. *)
Theorem gate_forwards_packets g pend chunks :
  gate_ok g → stream_ok g pend chunks →
  ∃ out g', receive g chunks = Ok (out, g') ∧ gate_ok g' ∧
    ∀ i c fs rest, conn g !! i = Some c → 0 ≤ cn_id c →
      packets (header_size g) (pend i ++ of_socket (cn_id c) chunks) = Some (fs, rest) →
      of_socket (cn_id c) out = packet_action g c <$> fs ∧
      ∃ c', conn g' !! i = Some c' ∧ cn_id c' = cn_id c ∧ pend_ok (header_size g) (cn_buffer c') rest.
Proof.
  revert g pend. induction chunks as [|[id data] chunks IH]; intros g pend G S.
  { exists [], g. split; [done|]. split; [done|]. intros i c fs rest Hi Hid Hpk.
    destruct (so_conn _ _ _ S i c Hi Hid) as (_ & P & Hq & _). rewrite app_nil_r, Hq in Hpk. injection Hpk as <- <-.
    split; [done|]. by exists c. }
  assert (0 < header_size g) as Hhs by (destruct (go_header _ G); lia).
  pose proof (so_known _ _ _ S) as Hk. apply Forall_cons in Hk as [[[Hid Hin] Hb] Hk]. cbn [fst snd] in *.
  apply list_elem_of_lookup in Hin as [i Hi]. destruct (conn_of _ _ _ G Hi) as (c & Hc & Ec & _).
  destruct (so_conn _ _ _ S i c Hc ltac:(lia)) as (Hr & P & Hq & Hmax & Hs).
  assert (Forall (λ p, Forall is_byte p.2) chunks) as Hbs by (eapply Forall_impl; [exact Hk|]; by intros p [_ ?]).
  pose proof (of_socket_bytes id chunks Hbs) as Hob. pose proof (po_bytes _ _ _ P) as Hpb.
  assert (Forall is_byte (pend i ++ data)) as Hpd by by apply Forall_app.
  rewrite of_socket_cons, decide_True, app_assoc, Ec in Hmax, Hs by done.
  rewrite packets_app in Hs by done. destruct (packets (header_size g) (pend i ++ data)) as [[fs1 r1]|] eqn:E1; [|by destruct Hs].
  destruct (on_data_spec g id data i c (pend i) fs1 r1) as (db & mp & E & G1 & P1); try done.
  { rewrite zlen_app in Hmax. pose proof (zlen_nonneg (of_socket id chunks)). lia. }
  pose proof (stream_ok_step g pend id data chunks i c fs1 r1 db mp (g_hash g) G S Hc Ec Hid E1 P1 eq_refl) as S1.
  destruct (IH _ _ G1 S1) as (out & g' & E' & G' & Hout). set (g1 := mk_gate _ _ _ _ _ _ _ _ _) in *.
  exists ((id, packet_action g c <$> fs1) :: out), g'. split; [|split; [done|]].
  { cbn [receive]. unfold dispatch_socket_message. cbn [sm_type sm_id sm_buffer]. rewrite decide_True by done.
    cbn [of_option]. rewrite bind_Ok, E, bind_Ok. cbn [snd fst]. by rewrite E'. }
  intros j c' fs rest Hj Hid' Hpk. rewrite of_socket_cons in Hpk. rewrite of_socket_cons.
  destruct (decide (j = i)) as [->|Hne].
  - assert (c' = c) as -> by congruence. rewrite decide_True in Hpk by done. rewrite decide_True by done.
    rewrite app_assoc, packets_app, E1, Ec in Hpk by (rewrite ?Ec; done). cbn [mbind option_bind fst snd] in Hpk.
    destruct (packets (header_size g) (r1 ++ of_socket id chunks)) as [[fs2 r2]|] eqn:E2; [|done]. cbn in Hpk.
    injection Hpk as <- <-. apply lookup_lt_Some in Hc as Hlt. specialize (Hout i (with_db c db) fs2 r2).
    destruct Hout as (Ho & Hc').
    { by cbn; rewrite list_lookup_insert_eq by done. }
    { done. }
    { unfold put_pend. rewrite decide_True by done. cbn [with_db cn_id]. by rewrite Ec. }
    cbn [with_db cn_id] in Ho. by rewrite Ho, fmap_app.
  - assert (id ≠ cn_id c') as Hcid by (intros E0; apply Hne; apply (conn_inj g j i c' c G Hj Hc); congruence || lia).
    rewrite decide_False in Hpk by done. rewrite decide_False by done.
    destruct (Hout j c' fs rest) as (Ho & Hc').
    { by cbn; rewrite list_lookup_insert_ne by done. }
    { done. }
    { unfold put_pend. by rewrite decide_False by done. }
    done.
Qed.

(** ** Headers the gate does not survive *)

Lemma negative_header_waits g c id data :
  db_ok (cn_buffer c) → db_header (cn_buffer c) < 0 → db_size (cn_buffer c) + zlen data ≤ INT_MAX → 0 ≤ mp_free (g_mp g) →
  ∃ db mp, dispatch_message g c id data = Ok ([], with_db c db, mp) ∧ db_ok db ∧ 0 ≤ mp_free mp ∧
    db_header db = db_header (cn_buffer c) ∧ db_bytes db = db_bytes (cn_buffer c) ++ data.
Proof.
  intros Hok Hneg Hmax Hfree. unfold dispatch_message.
  destruct (push_spec (cn_buffer c) (g_mp g) data Hok Hmax Hfree) as (db & mp & -> & Hok' & Eh & Eb & Hf & _).
  rewrite bind_Ok. cbv beta iota. cbn [gate_loop cn_buffer with_db g_mp with_mp]. unfold databuffer_readheader.
  pose proof (do_size _ Hok'). pose proof (zlen_nonneg (db_bytes db)).
  rewrite decide_False, decide_False by (rewrite Eh; lia). rewrite bind_Ok, decide_False, bind_Ok by (rewrite Eh; lia).
  cbv beta iota zeta. rewrite decide_True by (rewrite Eh; lia). by exists db, mp.
Qed.
Lemma top_bit_header a b c d :
  Forall is_byte [a; b; c; d] → 128 ≤ a → header_value [a; b; c; d] < 0.
Proof.
  intros Hb Ha. rewrite header_value_spec by (done || by right). unfold is_byte in Hb.
  repeat (apply Forall_cons in Hb as [? Hb]). unfold be_value. cbn [foldl]. case_decide; lia.
Qed.

(** The chunks of one connection, one after the other. *)
Fixpoint feed (g : gate) (c : connection) (id : Z) (chunks : list (list Z)) : result (list action * connection * messagepool) :=
  match chunks with
  | [] => Ok ([], c, g_mp g)
  | data :: chunks =>
      r ← dispatch_message g c id data;
      rest ← feed (with_mp g r.2) r.1.2 id chunks;
      Ok (r.1.1 ++ rest.1.1, rest.1.2, rest.2)
  end.

Lemma feed_waits g c id chunks :
  db_ok (cn_buffer c) → db_header (cn_buffer c) < 0 → db_size (cn_buffer c) + zlen (concat chunks) ≤ INT_MAX →
  0 ≤ mp_free (g_mp g) →
  ∃ db mp, feed g c id chunks = Ok ([], with_db c db, mp) ∧ db_header db < 0 ∧
    db_bytes db = db_bytes (cn_buffer c) ++ concat chunks.
Proof.
  revert g c. induction chunks as [|data chunks IH]; intros g c Hok Hneg Hmax Hfree.
  - exists (cn_buffer c), (g_mp g). destruct c. cbn. by rewrite app_nil_r.
  - cbn [concat] in *. rewrite zlen_app in Hmax. pose proof (zlen_nonneg (concat chunks)).
    destruct (negative_header_waits g c id data) as (db1 & mp1 & E & Hok1 & Hf1 & Eh & Eb); [done..|lia|done|].
    cbn [feed]. rewrite E, bind_Ok. cbn [fst snd].
    destruct (IH (with_mp g mp1) (with_db c db1)) as (db & mp & -> & Hh & Eb2).
    { done. }
    { cbn. lia. }
    { cbn [cn_buffer with_db]. rewrite (do_size _ Hok1), Eb, zlen_app, <- (do_size _ Hok). lia. }
    { done. }
    rewrite bind_Ok. exists db, mp. split; [done|]. split; [done|]. rewrite Eb2. cbn [cn_buffer with_db].
    by rewrite Eb, app_assoc.
Qed.

(** A four-byte length with the top bit set stalls its connection. The length is
    computed in an [int] and comes out negative: it is neither waited for nor refused
    as longer than 16M. Whatever follows, in any chunks, is buffered and nothing is
    forwarded, reported or closed, as far as the [int] sizes reach. *)
Theorem top_bit_length_stalls g c id h0 h1 h2 h3 chunk chunks :
  header_size g = 4 → cn_buffer c = db_empty → Forall is_byte [h0; h1; h2; h3] → 128 ≤ h0 → 0 ≤ mp_free (g_mp g) →
  4 + zlen chunk + zlen (concat chunks) ≤ INT_MAX →
  ∃ db mp, feed g c id ((h0 :: h1 :: h2 :: h3 :: chunk) :: chunks) = Ok ([], with_db c db, mp) ∧
    db_bytes db = chunk ++ concat chunks.
Proof.
  intros Hhs Hc Hb H128 Hfree Hmax. pose proof (zlen_nonneg chunk). pose proof (zlen_nonneg (concat chunks)).
  assert (∃ db1 mp1, dispatch_message g c id (h0 :: h1 :: h2 :: h3 :: chunk) = Ok ([], with_db c db1, mp1) ∧
    db_ok db1 ∧ 0 ≤ mp_free mp1 ∧ db_header db1 < 0 ∧ db_bytes db1 = chunk) as (db1 & mp1 & E & Hok1 & Hf1 & Hh1 & Eb1).
  { unfold dispatch_message. destruct (push_spec (cn_buffer c) (g_mp g) (h0 :: h1 :: h2 :: h3 :: chunk))
      as (db & mp & -> & Hok' & Eh & Eb & Hf & _); [rewrite Hc; by split|rewrite Hc, !zlen_cons; cbn; lia|done|].
    rewrite Hc in Eh, Eb. change (db_header db_empty) with 0 in Eh. change (db_bytes db_empty ++ ?l) with l in Eb. rewrite bind_Ok. cbv beta iota. cbn [gate_loop cn_buffer with_db g_mp with_mp header_size].
    unfold databuffer_readheader. rewrite Hhs. pose proof (do_size _ Hok') as Hs. rewrite Eb, !zlen_cons in Hs.
    rewrite decide_False, decide_True by lia.
    destruct (databuffer_read_spec db mp 4) as (db2 & mp2 & -> & _ & Hok2 & Eb2 & Hret); [done|lia|].
    rewrite !bind_Ok. rewrite Eb in Eb2. rewrite Eb. change (take (Z.to_nat 4) (h0 :: h1 :: h2 :: h3 :: chunk)) with [h0; h1; h2; h3].
    change (drop (Z.to_nat 4) (h0 :: h1 :: h2 :: h3 :: chunk)) with chunk in Eb2.
    pose proof (top_bit_header _ _ _ _ Hb H128) as Hneg. destruct Hok2 as [Ho2 Hf2 Hs2]. pose proof (zlen_nonneg (db_bytes db2)).
    cbn [db_size db_header]. rewrite decide_False, bind_Ok by lia. cbv beta iota zeta. rewrite decide_True by lia.
    eexists _, _. split; [done|]. split; [by split|]. destruct Hret as (_ & _ & ?). split; [lia|]. by split. }
  cbn [feed]. rewrite E, bind_Ok. cbn [fst snd].
  destruct (feed_waits (with_mp g mp1) (with_db c db1) id chunks) as (db & mp & -> & _ & Eb); [done|done| |done|].
  { cbn [cn_buffer with_db]. rewrite (do_size _ Hok1), Eb1. lia. }
  rewrite bind_Ok. exists db, mp. split; [done|]. rewrite Eb. cbn [cn_buffer with_db]. by rewrite Eb1.
Qed.

(** Closing the listening socket is a race the gate can lose. The command forgets the
    listening id at once, but a connection the socket thread accepted before it closes
    the socket is still reported for that id: its assertion fails and the node stops. *)
Theorem accept_behind_close_aborts queryname g ud address :
  0 ≤ listen_id g →
  ∃ g', gate_cb queryname g (GText (lit "close")) = Ok (false, [ASocketClose (listen_id g)], g') ∧
    gate_cb queryname g' (GSocket (mk_socket_message SKYNET_SOCKET_TYPE_ACCEPT (listen_id g) ud None address))
      = Err AssertFailed.
Proof.
  intros Hl. exists (set_listen g (-1)). split.
  - unfold gate_cb, ctrl. cbv zeta. rewrite decide_False by done.
    change (is_command _ _ (lit "kick")) with (Ok false). change (is_command _ _ (lit "forward")) with (Ok false).
    change (is_command _ _ (lit "broker")) with (Ok false). change (is_command _ _ (lit "start")) with (Ok false).
    change (is_command _ _ (lit "close")) with (Ok true). rewrite !bind_Ok. by rewrite decide_True.
  - apply accept_elsewhere_aborts; [done|]. cbn. lia.
Qed.

(** ** Witnesses *)

Definition example_start : gate :=
  match gate_init (λ _, 7) (λ _ _, 3) gate_create (Some (lit "S watchdog 0.0.0.0:8888 0 4")) with
  | Ok (_, _, g) => g
  | Err _ => gate_create
  end.
Definition example_open : gate_input :=
  GSocket (mk_socket_message SKYNET_SOCKET_TYPE_ACCEPT 3 5 None (lit "127.0.0.1:4000")).
(** A gate with one connection, for socket 5. *)
Definition example_gate : gate :=
  match gate_cb (λ _, 7) example_start example_open with
  | Ok (_, _, g) => g
  | Err _ => example_start
  end.

Lemma example_start_ok :
  ∃ acts, gate_init (λ _, 7) (λ _ _, 3) gate_create (Some (lit "S watchdog 0.0.0.0:8888 0 4")) = Ok (0, acts, example_start).
Proof. eexists. vm_compute. reflexivity. Qed.
Lemma example_open_ok : input_ok example_start example_open.
Proof.
  cbn. split; [by vm_compute|]. split; [lia|]. intros [_ H]. vm_compute in H.
  by repeat (apply elem_of_cons in H as [H|H]; [discriminate|]); apply elem_of_nil in H.
Qed.
Lemma example_gate_ok : gate_ok example_gate.
Proof.
  destruct example_start_ok as [acts E]. destruct (gate_init_ok _ _ _ _ _ E) as [G _]; [by vm_compute|].
  destruct (gate_cb_ok (λ _, 7) example_start example_open G example_open_ok) as (k & a & g' & E' & G' & _).
  unfold example_gate. by rewrite E'.
Qed.

Lemma gate_keeps_its_table_witness :
  known example_gate 5 ∧
  (∃ keep acts g', gate_cb (λ _, 7) example_gate (GText (lit "kick 5")) = Ok (keep, acts, g') ∧ known g' 5) ∧
  gate_cb (λ _, 7) example_gate (GSocket (mk_socket_message SKYNET_SOCKET_TYPE_ACCEPT 4 6 None [])) = Err AssertFailed.
Proof.
  destruct example_start_ok as [acts0 E0].
  assert (rtc (gate_step (λ _, 7)) example_start example_gate) as Hrun.
  { eapply rtc_once, gate_handles; [exact example_open_ok|]. vm_compute. reflexivity. }
  assert (known example_gate 5) as Hk. { split; [lia|]. vm_compute. right. left. }
  split; [exact Hk|].
  destruct (gate_keeps_its_table (λ _, 7) (λ _ _, 3) _ _ _ _ E0 ltac:(by vm_compute) Hrun) as (Hstep & _ & _ & _ & Habort).
  split; [|apply Habort; [done|by vm_compute]].
  destruct (Hstep (GText (lit "kick 5"))) as (keep & acts & g' & E & Hid); [by apply lit_nonzero|].
  exists keep, acts, g'. split; [exact E|]. by apply Hid.
Defined.

Lemma gate_forwards_packets_witness :
  ∃ out g', receive example_gate [(5, [0]); (5, [2; 65]); (5, [66; 0])] = Ok (out, g') ∧
    of_socket 5 out = [ASend 0 7 (Z.lor PTYPE_TEXT PTYPE_TAG_DONTCOPY) (lit "5 data AB")].
Proof.
  destruct (gate_forwards_packets example_gate (λ _, []) [(5, [0]); (5, [2; 65]); (5, [66; 0])]) as (out & g' & E & _ & H).
  - exact example_gate_ok.
  - split.
    + repeat constructor; try (vm_compute; discriminate); try (by vm_compute); vm_compute; right; left.
    + intros i c Hi Hid. vm_compute in Hi.
      assert (i = 1%nat ∧ c = mk_conn 5 0 0 (lit "127.0.0.1:4000") db_empty) as [-> ->].
      { destruct i as [|[|[|[|i]]]]; try discriminate Hi; injection Hi as <-; [by exfalso|done|by exfalso..]. }
      split; [right; right; by vm_compute|]. split; [|split; [by vm_compute|split; [by vm_compute|by eexists; vm_compute]]].
      split; [by split|constructor|by left].
  - exists out, g'. split; [exact E|].
    destruct (H 1%nat (mk_conn 5 0 0 (lit "127.0.0.1:4000") db_empty) [[65; 66]] [0]) as [Ho _];
      [by vm_compute|done|by vm_compute|]. cbn [cn_id] in Ho. rewrite Ho. by vm_compute.
Defined.

Definition example_wide : gate := mk_gate 3 7 0 PTYPE_CLIENT 4 0 (mk_hashid 0 0 0 [] []) [] (mk_pool 0 0).
Lemma top_bit_length_stalls_witness :
  ∃ c mp, feed example_wide (mk_conn 5 0 0 [] db_empty) 5 [[128; 0; 0; 1; 65]; [66]; [67; 68]] = Ok ([], c, mp) ∧
    db_bytes (cn_buffer c) = [65; 66; 67; 68].
Proof.
  destruct (top_bit_length_stalls example_wide (mk_conn 5 0 0 [] db_empty) 5 128 0 0 1 [65] [[66]; [67; 68]])
    as (db & mp & E & Eb); try (reflexivity || (vm_compute; discriminate)).
  - unfold is_byte. repeat constructor; lia.
  - eexists _, mp. split; [exact E|exact Eb].
Defined.

Lemma accept_behind_close_aborts_witness :
  ∃ g', gate_cb (λ _, 7) example_wide (GText (lit "close")) = Ok (false, [ASocketClose 3], g') ∧
    gate_cb (λ _, 7) g' (GSocket (mk_socket_message SKYNET_SOCKET_TYPE_ACCEPT 3 5 None [])) = Err AssertFailed.
Proof. apply (accept_behind_close_aborts (λ _, 7) example_wide 5 []). vm_compute. discriminate. Defined.
