(* ===== verification/Socket.v ===== *)
(** * The socket server: skynet-src/socket_server.c

    The sockets of the node in their slots, the two write lists of each, the pipe of
    requests other threads write, and the events of the poll. The operating system is
    a list of answers to the system calls, in the order the calls are made; when the
    list is empty every call fails with EAGAIN. What the server does to the outside
    (bytes accepted by a write, descriptors closed, buffers freed, poll settings) is
    the list of its calls. Linux values of the error numbers. *)
From Stdlib Require Import String.
From stdpp Require Import base numbers list gmap.
From S2P Require Import Prelude CString Format.

Definition MAX_SOCKET : Z := 65536.
Definition MIN_READ_BUFFER : Z := 64.
Definition SOCKET_TYPE_INVALID : Z := 0.
Definition SOCKET_TYPE_RESERVE : Z := 1.
Definition SOCKET_TYPE_PLISTEN : Z := 2.
Definition SOCKET_TYPE_LISTEN : Z := 3.
Definition SOCKET_TYPE_CONNECTING : Z := 4.
Definition SOCKET_TYPE_CONNECTED : Z := 5.
Definition SOCKET_TYPE_HALFCLOSE : Z := 6.
Definition SOCKET_TYPE_PACCEPT : Z := 7.
Definition SOCKET_TYPE_BIND : Z := 8.
Definition PRIORITY_HIGH : Z := 0.
Definition PRIORITY_LOW : Z := 1.
Definition HASH_ID (id : Z) : Z := u32 id `mod` MAX_SOCKET.
Definition PROTOCOL_TCP : Z := 0.
Definition PROTOCOL_UDP : Z := 1.
Definition PROTOCOL_UDPv6 : Z := 2.
Definition UDP_ADDRESS_SIZE : nat := 19.
Definition MAX_UDP_PACKAGE : Z := 65535.
Definition AF_INET : Z := 2.
Definition AF_INET6 : Z := 10.
Definition EINTR : Z := 4.
Definition EAGAIN : Z := 11.
Definition ENFILE : Z := 23.
Definition EMFILE : Z := 24.
Definition EINPROGRESS : Z := 115.
(** socket_server.h *)
Definition SOCKET_DATA : Z := 0.
Definition SOCKET_CLOSE : Z := 1.
Definition SOCKET_OPEN : Z := 2.
Definition SOCKET_ACCEPT : Z := 3.
Definition SOCKET_ERROR : Z := 4.
Definition SOCKET_EXIT : Z := 5.
Definition SOCKET_UDP : Z := 6.

(** ** The outside *)

Record event : Type := mk_event { e_s : option Z; e_read : bool; e_write : bool }.
(** The answer to a system call: its result and errno, and where the call has them
    the bytes read, the text of an address, a port, the bytes of a datagram's address,
    the events. *)
Record answer : Type := mk_answer {
  a_ret : Z; a_errno : Z; a_data : list Z; a_text : option cstring; a_port : Z; a_addr : list Z; a_events : list event }.
Inductive syscall : Type :=
| SysWrite (fd : Z) (data : list Z)
| SysSendto (fd : Z) (data : list Z) (address : option (list Z))
| SysClose (fd : Z)
| SysPollAdd (fd slot : Z)
| SysPollDel (fd : Z)
| SysPollWrite (fd : Z) (enable : bool)
| SysSetopt (fd what value : Z)
| SysFree (buffer : Z)
| SysUserFree (object : Z)
| SysLog (text : cstring).
Record os : Type := mk_os { answers : list answer; calls : list syscall }.

Definition no_answer : answer := mk_answer (-1) EAGAIN [] None 0 [] [].
Definition ask (o : os) : answer * os :=
  match answers o with
  | [] => (no_answer, o)
  | a :: l => (a, mk_os l (calls o))
  end.
Definition emit (o : os) (c : syscall) : os := mk_os (answers o) (calls o ++ [c]).

(** ** Sockets and their write lists *)

(** [struct write_buffer]: the object handed over, the address of the next byte to
    write and the bytes from there on, whose number is [sz]. *)
Record write_buffer : Type := mk_wb {
  wb_buffer : Z;
  wb_ptr : Z;
  wb_data : list Z;
  wb_userobject : bool;
  wb_udp_address : list Z }.
(** The union of the read size and the default address. *)
Inductive socket_p : Type :=
| PSize (size : Z)
| PAddress (udp_address : list Z).
Record socket : Type := mk_socket {
  s_opaque : Z;
  s_high : list write_buffer;
  s_low : list write_buffer;
  s_wb_size : Z;
  s_fd : Z;
  s_id : Z;
  s_protocol : Z;
  s_type : Z;
  s_p : socket_p }.

(** A slot as it is allocated; only its type and its lists are initialised. *)
Definition fresh_slot : socket := mk_socket 0 [] [] 0 0 0 0 SOCKET_TYPE_INVALID (PSize 0).

Definition set_type (s : socket) (t : Z) : socket :=
  mk_socket (s_opaque s) (s_high s) (s_low s) (s_wb_size s) (s_fd s) (s_id s) (s_protocol s) t (s_p s).
Definition set_opaque (s : socket) (x : Z) : socket :=
  mk_socket x (s_high s) (s_low s) (s_wb_size s) (s_fd s) (s_id s) (s_protocol s) (s_type s) (s_p s).
Definition set_p (s : socket) (p : socket_p) : socket :=
  mk_socket (s_opaque s) (s_high s) (s_low s) (s_wb_size s) (s_fd s) (s_id s) (s_protocol s) (s_type s) p.
Definition set_lists (s : socket) (h l : list write_buffer) (n : Z) : socket :=
  mk_socket (s_opaque s) h l n (s_fd s) (s_id s) (s_protocol s) (s_type s) (s_p s).

(** [struct socket_message]. *)
Record smsg : Type := mk_smsg { m_id : Z; m_opaque : Z; m_ud : Z; m_data : option (list Z) }.
(** What a handler returns: -1, or a type with the message. *)
Abbreviation answered := (option (Z * smsg)).

(** An object to send: memory of the given bytes, or (with a negative size) a user
    object, with what the registered interface says of it: the address of its buffer
    and the bytes there. *)
Inductive sobject : Type :=
| Plain (buffer : Z) (bytes : list Z)
| User (object buffer : Z) (bytes : list Z).
Definition so_handle (x : sobject) : Z := match x with Plain b _ => b | User x _ _ => x end.
Definition so_buffer (x : sobject) : Z := match x with Plain b _ => b | User _ b _ => b end.
Definition so_bytes (x : sobject) : list Z := match x with Plain _ l => l | User _ _ l => l end.
Definition so_user (x : sobject) : bool := match x with Plain _ _ => false | User _ _ _ => true end.

Definition free_object (o : os) (user : bool) (x : Z) : os :=
  emit o (if user then SysUserFree x else SysFree x).
Definition write_buffer_free (o : os) (w : write_buffer) : os := free_object o (wb_userobject w) (wb_buffer w).
Definition free_wb_list (o : os) (l : list write_buffer) : os := foldl write_buffer_free o l.

Definition force_close (s : socket) (o : os) : result (smsg * socket * os) :=
  let m := mk_smsg (s_id s) (s_opaque s) 0 None in
  if decide (s_type s = SOCKET_TYPE_INVALID) then Ok (m, s, o)
  else
    c_assert (bool_decide (s_type s ≠ SOCKET_TYPE_RESERVE));;
    let o := free_wb_list o (s_high s) in
    let o := free_wb_list o (s_low s) in
    let o := if decide (s_type s ≠ SOCKET_TYPE_PACCEPT ∧ s_type s ≠ SOCKET_TYPE_PLISTEN) then
               emit o (SysPollDel (s_fd s)) else o in
    let o := if decide (s_type s ≠ SOCKET_TYPE_BIND) then emit o (SysClose (s_fd s)) else o in
    Ok (m, set_type (set_lists s [] [] (s_wb_size s)) SOCKET_TYPE_INVALID, o).

(** *** Writing *)

(** [write], repeated while it is interrupted: the count or -1, the errno. *)
Fixpoint write_retry (l : list answer) (sz : Z) : Z * Z * list answer :=
  match l with
  | [] => (-1, EAGAIN, [])
  | a :: l =>
      if decide (a_ret a < 0) then
        if decide (a_errno a = EINTR) then write_retry l sz else (-1, a_errno a, l)
      else (Z.min (a_ret a) sz, 0, l)
  end.

(** The loop of [send_list_tcp] over a list: whether writing failed, what is left of
    the list, the count of buffered bytes. *)
Fixpoint send_tcp (fd : Z) (l : list write_buffer) (wb_size : Z) (o : os) : bool * list write_buffer * Z * os :=
  match l with
  | [] => (false, [], wb_size, o)
  | w :: rest =>
      let '(n, e, ans) := write_retry (answers o) (zlen (wb_data w)) in
      let o := mk_os ans (calls o) in
      if decide (n < 0) then (bool_decide (e ≠ EAGAIN), l, wb_size, o)
      else
        let o := emit o (SysWrite fd (take (Z.to_nat n) (wb_data w))) in
        let wb_size := wb_size - n in
        if decide (n ≠ zlen (wb_data w)) then
          (false, mk_wb (wb_buffer w) (wb_ptr w + n) (drop (Z.to_nat n) (wb_data w)) (wb_userobject w)
                    (wb_udp_address w) :: rest, wb_size, o)
        else send_tcp fd rest wb_size (write_buffer_free o w)
  end.

(** The address a datagram goes to, if it is one of the socket's protocol. *)
Definition udp_socket_address (s : socket) (udp_address : list Z) : option (list Z) :=
  if decide (hd 0 udp_address ≠ s_protocol s) then None
  else if decide (s_protocol s = PROTOCOL_UDP) then Some (take 6 (drop 1 udp_address))
  else if decide (s_protocol s = PROTOCOL_UDPv6) then Some (take 18 (drop 1 udp_address))
  else None.

Fixpoint send_udp (s : socket) (l : list write_buffer) (wb_size : Z) (o : os) : list write_buffer * Z * os :=
  match l with
  | [] => ([], wb_size, o)
  | w :: rest =>
      let sa := udp_socket_address s (wb_udp_address w) in
      let '(a, o) := ask o in
      if decide (a_ret a < 0) then
        (l, wb_size, if decide (a_errno a = EINTR ∨ a_errno a = EAGAIN) then o
                     else emit o (SysLog (lit "socket-server : udp sendto error")))
      else
        let o := emit o (SysSendto (s_fd s) (wb_data w) sa) in
        send_udp s rest (wb_size - zlen (wb_data w)) (write_buffer_free o w)
  end.

Definition wlist (s : socket) (high : bool) : list write_buffer := if high then s_high s else s_low s.
Definition put_wlist (s : socket) (high : bool) (l : list write_buffer) (n : Z) : socket :=
  if high then set_lists s l (s_low s) n else set_lists s (s_high s) l n.

Definition send_list (s : socket) (high : bool) (o : os) : result (answered * socket * os) :=
  if decide (s_protocol s = PROTOCOL_TCP) then
    let '(failed, l, n, o) := send_tcp (s_fd s) (wlist s high) (s_wb_size s) o in
    let s := put_wlist s high l n in
    if (failed : bool) then
      r ← force_close s o;
      let '(m, s, o) := r in Ok (Some (SOCKET_CLOSE, m), s, o)
    else Ok (None, s, o)
  else
    let '(l, n, o) := send_udp s (wlist s high) (s_wb_size s) o in
    Ok (None, put_wlist s high l n, o).

Definition list_uncomplete (l : list write_buffer) : bool :=
  match l with [] => false | w :: _ => bool_decide (wb_ptr w ≠ wb_buffer w) end.

Definition raise_uncomplete (s : socket) : result socket :=
  match s_low s with
  | [] => Err NullDeref
  | w :: rest =>
      c_assert (bool_decide (length (s_high s) = 0%nat));;
      Ok (set_lists s [w] rest (s_wb_size s))
  end.

Definition send_buffer (s : socket) (o : os) : result (answered * socket * os) :=
  c_assert (negb (list_uncomplete (s_low s)));;
  r ← send_list s true o;
  let '(a, s, o) := r in
  match a with
  | Some _ => Ok (a, s, o)
  | None =>
      match s_high s, s_low s with
      | [], _ :: _ =>
          r ← send_list s false o;
          let '(a, s, o) := r in
          match a with
          | Some _ => Ok (a, s, o)
          | None => if list_uncomplete (s_low s) then s ← raise_uncomplete s; Ok (None, s, o) else Ok (None, s, o)
          end
      | [], [] =>
          let o := emit o (SysPollWrite (s_fd s) false) in
          if decide (s_type s = SOCKET_TYPE_HALFCLOSE) then
            r ← force_close s o;
            let '(m, s, o) := r in Ok (Some (SOCKET_CLOSE, m), s, o)
          else Ok (None, s, o)
      | _ :: _, _ => Ok (None, s, o)
      end
  end.

(** [append_sendbuffer_]: a buffer for the bytes behind the first [n]. *)
Definition new_write_buffer (x : sobject) (n : Z) (udp_address : list Z) : write_buffer :=
  mk_wb (so_handle x) (so_buffer x + n) (drop (Z.to_nat n) (so_bytes x)) (so_user x) udp_address.
Definition append_high (s : socket) (w : write_buffer) : socket :=
  set_lists s (s_high s ++ [w]) (s_low s) (s_wb_size s + zlen (wb_data w)).
Definition append_low (s : socket) (w : write_buffer) : socket :=
  set_lists s (s_high s) (s_low s ++ [w]) (s_wb_size s + zlen (wb_data w)).
Definition append_sendbuffer_udp (s : socket) (priority : Z) (x : sobject) (udp_address : list Z) : socket :=
  let w := new_write_buffer x 0 (take UDP_ADDRESS_SIZE udp_address) in
  if decide (priority = PRIORITY_HIGH) then append_high s w else append_low s w.

Definition send_buffer_empty (s : socket) : bool :=
  bool_decide (length (s_high s) = 0%nat ∧ length (s_low s) = 0%nat).

(** The address of a datagram: the one given, or the socket's own. *)
Definition address_or_own (s : socket) (udp_address : option (list Z)) : result (list Z) :=
  match udp_address with
  | Some a => Ok a
  | None => match s_p s with PAddress a => Ok a | PSize _ => Err Uninitialised end
  end.

(** [send_socket] on the socket of the slot. *)
Definition send_socket_on (s : socket) (id : Z) (x : sobject) (priority : Z) (udp_address : option (list Z)) (o : os) :
    result (answered * socket * os) :=
  if decide (s_type s = SOCKET_TYPE_INVALID ∨ s_id s ≠ id ∨ s_type s = SOCKET_TYPE_HALFCLOSE ∨ s_type s = SOCKET_TYPE_PACCEPT) then
    Ok (None, s, free_object o (so_user x) (so_handle x))
  else if decide (s_type s = SOCKET_TYPE_PLISTEN ∨ s_type s = SOCKET_TYPE_LISTEN) then
    let o := emit o (SysLog (lit "socket-server: write to listen fd")) in
    Ok (None, s, free_object o (so_user x) (so_handle x))
  else if decide (send_buffer_empty s = true ∧ s_type s = SOCKET_TYPE_CONNECTED) then
    if decide (s_protocol s = PROTOCOL_TCP) then
      let '(a, o) := ask o in
      if decide (a_ret a < 0 ∧ a_errno a ≠ EINTR ∧ a_errno a ≠ EAGAIN) then
        let o := emit o (SysLog (lit "socket-server: write error")) in
        r ← force_close s o;
        let '(m, s, o) := r in
        Ok (Some (SOCKET_CLOSE, m), s, free_object o (so_user x) (so_handle x))
      else
        let n := if decide (a_ret a < 0) then 0 else Z.min (a_ret a) (zlen (so_bytes x)) in
        let o := if decide (a_ret a < 0) then o else emit o (SysWrite (s_fd s) (take (Z.to_nat n) (so_bytes x))) in
        if decide (n = zlen (so_bytes x)) then Ok (None, s, free_object o (so_user x) (so_handle x))
        else
          Ok (None, append_high s (new_write_buffer x n []), emit o (SysPollWrite (s_fd s) true))
    else
      addr ← address_or_own s udp_address;
      let sa := udp_socket_address s addr in
      let '(a, o) := ask o in
      if decide (a_ret a ≠ zlen (so_bytes x)) then
        Ok (None, append_sendbuffer_udp s priority x addr, emit o (SysPollWrite (s_fd s) true))
      else Ok (None, s, free_object (emit o (SysSendto (s_fd s) (so_bytes x) sa)) (so_user x) (so_handle x))
  else if decide (s_protocol s = PROTOCOL_TCP) then
    Ok (None, (if decide (priority = PRIORITY_LOW) then append_low s (new_write_buffer x 0 [])
               else append_high s (new_write_buffer x 0 [])), o)
  else
    addr ← address_or_own s udp_address;
    Ok (None, append_sendbuffer_udp s priority x addr, o).

(** *** Reading *)

Section Errors.
(** The texts of the error numbers. *)
Context (strerror : Z → cstring).

Definition with_data (m : smsg) (d : option (list Z)) : smsg := mk_smsg (m_id m) (m_opaque m) (m_ud m) d.

Definition forward_message_tcp (s : socket) (o : os) : result (answered * socket * os) :=
  match s_p s with
  | PAddress _ => Err Uninitialised
  | PSize sz =>
      let '(a, o) := ask o in
      if decide (a_ret a < 0) then
        if decide (a_errno a = EINTR) then Ok (None, s, o)
        else if decide (a_errno a = EAGAIN) then Ok (None, s, emit o (SysLog (lit "socket-server: EAGAIN capture.")))
        else
          r ← force_close s o;
          let '(m, s, o) := r in Ok (Some (SOCKET_ERROR, with_data m (Some (strerror (a_errno a)))), s, o)
      else
        let buffer := take (Z.to_nat sz) (a_data a) in
        let n := zlen buffer in
        if decide (n = 0) then
          r ← force_close s o;
          let '(m, s, o) := r in Ok (Some (SOCKET_CLOSE, m), s, o)
        else if decide (s_type s = SOCKET_TYPE_HALFCLOSE) then Ok (None, s, o)
        else
          size ← (if decide (n = sz) then c_int (sz * 2)
                  else Ok (if decide (MIN_READ_BUFFER < sz ∧ n * 2 < sz) then sz / 2 else sz));
          let s := set_p s (PSize size) in
          Ok (Some (SOCKET_DATA, mk_smsg (s_id s) (s_opaque s) n (Some buffer)), s, o)
  end.

Definition gen_udp_address (protocol : Z) (sa : list Z) : list Z :=
  protocol :: take (if decide (protocol = PROTOCOL_UDP) then 6 else 18) sa.

Definition forward_message_udp (s : socket) (o : os) : result (answered * socket * os) :=
  let '(a, o) := ask o in
  if decide (a_ret a < 0) then
    if decide (a_errno a = EINTR ∨ a_errno a = EAGAIN) then Ok (None, s, o)
    else
      r ← force_close s o;
      let '(m, s, o) := r in Ok (Some (SOCKET_ERROR, with_data m (Some (strerror (a_errno a)))), s, o)
  else
    let data := take (Z.to_nat MAX_UDP_PACKAGE) (a_data a) in
    let protocol := if decide (length (a_addr a) = 6%nat) then PROTOCOL_UDP else PROTOCOL_UDPv6 in
    if decide (s_protocol s ≠ protocol) then Ok (None, s, o)
    else Ok (Some (SOCKET_UDP, mk_smsg (s_id s) (s_opaque s) (zlen data) (Some (data ++ gen_udp_address protocol (a_addr a)))), s, o).

(** The answer to [getsockopt] has the socket's error in [a_errno]; the one to
    [getpeername] the text of the address. *)
Definition report_connect (s : socket) (o : os) : result (answered * socket * os) :=
  let '(a, o) := ask o in
  if decide (a_ret a < 0 ∨ a_errno a ≠ 0) then
    r ← force_close s o;
    let '(m, s, o) := r in Ok (Some (SOCKET_ERROR, with_data m (Some (strerror (a_errno a)))), s, o)
  else
    let s := set_type s SOCKET_TYPE_CONNECTED in
    let o := if send_buffer_empty s then emit o (SysPollWrite (s_fd s) false) else o in
    let '(a, o) := ask o in
    Ok (Some (SOCKET_OPEN, mk_smsg (s_id s) (s_opaque s) 0 (if decide (a_ret a = 0) then a_text a else None)), s, o).

(** ** The server *)

Inductive request : Type :=
| RStart (id opaque : Z)
| RBind (id fd opaque : Z)
| RListen (id fd opaque : Z)
| RClose (id shutdown opaque : Z)
| ROpen (id port opaque : Z) (host : cstring)
| RExit
| RSend (id : Z) (x : sobject) (priority : Z)
| RSendUdp (id : Z) (x : sobject) (address : list Z)
| RSetUdp (id : Z) (address : list Z)
| RSetopt (id what value : Z)
| RUdp (id fd family opaque : Z).

(** [ss_pipe] are the requests in the pipe, [ss_ev] the events from [event_index] on. *)
Record socket_server : Type := mk_ss {
  slot : gmap Z socket;
  alloc_id : Z;
  ss_pipe : list request;
  checkctrl : bool;
  ss_ev : list event;
  ss_os : os }.

Definition get_slot (ss : socket_server) (i : Z) : socket := default fresh_slot (slot ss !! i).
Definition put_slot (ss : socket_server) (i : Z) (s : socket) (o : os) : socket_server :=
  mk_ss (<[i := s]> (slot ss)) (alloc_id ss) (ss_pipe ss) (checkctrl ss) (ss_ev ss) o.
Definition with_os (ss : socket_server) (o : os) : socket_server :=
  mk_ss (slot ss) (alloc_id ss) (ss_pipe ss) (checkctrl ss) (ss_ev ss) o.
Definition with_pipe (ss : socket_server) (l : list request) : socket_server :=
  mk_ss (slot ss) (alloc_id ss) l (checkctrl ss) (ss_ev ss) (ss_os ss).
Definition with_alloc (ss : socket_server) (a : Z) : socket_server :=
  mk_ss (slot ss) a (ss_pipe ss) (checkctrl ss) (ss_ev ss) (ss_os ss).
Definition with_ctrl (ss : socket_server) (c : bool) (l : list event) : socket_server :=
  mk_ss (slot ss) (alloc_id ss) (ss_pipe ss) c l (ss_os ss).

(** A handler of one socket, on the socket of a slot. *)
Definition on_slot (ss : socket_server) (i : Z) (f : socket → os → result (answered * socket * os)) :
    result (answered * socket_server) :=
  r ← f (get_slot ss i) (ss_os ss);
  let '(a, s, o) := r in Ok (a, put_slot ss i s o).

(** [reserve_id]: [ATOM_INC] wraps, and the sign bit is cleared. *)
Fixpoint reserve_loop (n : nat) (ss : socket_server) : Z * socket_server :=
  match n with
  | O => (-1, ss)
  | S n =>
      let a := s32 (alloc_id ss + 1) in
      let id := if decide (a < 0) then Z.land a 0x7fffffff else a in
      let ss := with_alloc ss id in
      let s := get_slot ss (HASH_ID id) in
      if decide (s_type s = SOCKET_TYPE_INVALID) then
        (id, put_slot ss (HASH_ID id)
               (mk_socket (s_opaque s) (s_high s) (s_low s) (s_wb_size s) (-1) id (s_protocol s) SOCKET_TYPE_RESERVE (s_p s))
               (ss_os ss))
      else reserve_loop n ss
  end.
Definition reserve_id (ss : socket_server) : Z * socket_server := reserve_loop (Z.to_nat MAX_SOCKET) ss.

(** *** Requests *)

(** [new_fd]: whether the descriptor could be added to the poll, where it is asked. *)
Definition new_fd (ss : socket_server) (id fd protocol opaque : Z) (add : bool) : result (bool * socket_server) :=
  let i := HASH_ID id in
  let s := get_slot ss i in
  c_assert (bool_decide (s_type s = SOCKET_TYPE_RESERVE));;
  let '(ok, o) := if add then let '(a, o) := ask (ss_os ss) in
                    if decide (a_ret a ≠ 0) then (false, o) else (true, emit o (SysPollAdd fd i))
                  else (true, ss_os ss) in
  if (ok : bool) then
    c_assert (bool_decide (length (s_high s) = 0%nat));;
    c_assert (bool_decide (length (s_low s) = 0%nat));;
    Ok (true, put_slot ss i (mk_socket opaque [] [] 0 fd id protocol (s_type s) (PSize MIN_READ_BUFFER)) o)
  else Ok (false, put_slot ss i (set_type s SOCKET_TYPE_INVALID) o).

Definition set_slot_type (ss : socket_server) (i t : Z) : socket_server :=
  put_slot ss i (set_type (get_slot ss i) t) (ss_os ss).

(** The loop of [open_socket] over the addresses: the descriptor or -1, the status of
    the last [connect], the errno. *)
Fixpoint try_connect (n : nat) (o : os) (status errno : Z) : Z * Z * Z * os :=
  match n with
  | O => (-1, status, errno, o)
  | S n =>
      let '(a, o) := ask o in
      let sock := a_ret a in
      if decide (sock < 0) then try_connect n o status (a_errno a)
      else
        let o := emit o (SysSetopt sock 9 1) in
        let '(c, o) := ask o in
        if decide (a_ret c ≠ 0 ∧ a_errno c ≠ EINPROGRESS) then
          try_connect n (emit o (SysClose sock)) (a_ret c) (a_errno c)
        else (sock, a_ret c, a_errno c, o)
  end.

(** [open_socket]; the answer to [getaddrinfo] has an address per byte of its data, the
    one behind a [connect] that succeeded the text of the address. *)
Definition open_socket (ss : socket_server) (id port opaque : Z) (host : cstring) : result (answered * socket_server) :=
  let m := mk_smsg id opaque 0 None in
  let i := HASH_ID id in
  let '(ai, o) := ask (ss_os ss) in
  if decide (a_ret ai ≠ 0) then
    Ok (Some (SOCKET_ERROR, with_data m (a_text ai)), set_slot_type (with_os ss o) i SOCKET_TYPE_INVALID)
  else
    let '(sock, status, errno, o) := try_connect (length (a_data ai)) o 0 0 in
    let ss := with_os ss o in
    if decide (sock < 0) then
      Ok (Some (SOCKET_ERROR, with_data m (Some (strerror errno))), set_slot_type ss i SOCKET_TYPE_INVALID)
    else
      r ← new_fd ss id sock PROTOCOL_TCP opaque true;
      let '(ok, ss) := r in
      if (ok : bool) then
        if decide (status = 0) then
          let ss := set_slot_type ss i SOCKET_TYPE_CONNECTED in
          let '(a, o) := ask (ss_os ss) in
          Ok (Some (SOCKET_OPEN, with_data m (a_text a)), with_os ss o)
        else
          let ss := set_slot_type ss i SOCKET_TYPE_CONNECTING in
          Ok (None, with_os ss (emit (ss_os ss) (SysPollWrite sock true)))
      else
        Ok (Some (SOCKET_ERROR, with_data m (Some (lit "reach skynet socket number limit"))),
            set_slot_type (with_os ss (emit (ss_os ss) (SysClose sock))) i SOCKET_TYPE_INVALID).

Definition listen_socket (ss : socket_server) (id fd opaque : Z) : result (answered * socket_server) :=
  r ← new_fd ss id fd PROTOCOL_TCP opaque false;
  let '(ok, ss) := r in
  if (ok : bool) then Ok (None, set_slot_type ss (HASH_ID id) SOCKET_TYPE_PLISTEN)
  else
    Ok (Some (SOCKET_ERROR, mk_smsg id opaque 0 (Some (lit "reach skynet socket number limit"))),
        set_slot_type (with_os ss (emit (ss_os ss) (SysClose fd))) (HASH_ID id) SOCKET_TYPE_INVALID).

Definition close_socket_on (s : socket) (id shutdown opaque : Z) (o : os) : result (answered * socket * os) :=
  if decide (s_type s = SOCKET_TYPE_INVALID ∨ s_id s ≠ id) then
    Ok (Some (SOCKET_CLOSE, mk_smsg id opaque 0 None), s, o)
  else
    r ← (if send_buffer_empty s then Ok (None, s, o) else send_buffer s o);
    let '(a, s, o) := r in
    match a with
    | Some _ => Ok (a, s, o)
    | None =>
        if decide (shutdown ≠ 0 ∨ send_buffer_empty s = true) then
          r ← force_close s o;
          let '(m, s, o) := r in
          Ok (Some (SOCKET_CLOSE, mk_smsg id opaque (m_ud m) (m_data m)), s, o)
        else Ok (None, set_type s SOCKET_TYPE_HALFCLOSE, o)
    end.

Definition bind_socket (ss : socket_server) (id fd opaque : Z) : result (answered * socket_server) :=
  r ← new_fd ss id fd PROTOCOL_TCP opaque true;
  let '(ok, ss) := r in
  if (ok : bool) then
    Ok (Some (SOCKET_OPEN, mk_smsg id opaque 0 (Some (lit "binding"))), set_slot_type ss (HASH_ID id) SOCKET_TYPE_BIND)
  else Ok (Some (SOCKET_ERROR, mk_smsg id opaque 0 (Some (lit "reach skynet socket number limit"))), ss).

Definition start_socket_on (s : socket) (id opaque : Z) (o : os) : result (answered * socket * os) :=
  let m := mk_smsg id opaque 0 None in
  if decide (s_type s = SOCKET_TYPE_INVALID ∨ s_id s ≠ id) then
    Ok (Some (SOCKET_ERROR, with_data m (Some (lit "invalid socket"))), s, o)
  else if decide (s_type s = SOCKET_TYPE_PACCEPT ∨ s_type s = SOCKET_TYPE_PLISTEN) then
    let '(a, o) := ask o in
    if decide (a_ret a ≠ 0) then
      r ← force_close s o;
      let '(m, s, o) := r in Ok (Some (SOCKET_ERROR, with_data m (Some (strerror (a_errno a)))), s, o)
    else
      let o := emit o (SysPollAdd (s_fd s) (HASH_ID id)) in
      let t := if decide (s_type s = SOCKET_TYPE_PACCEPT) then SOCKET_TYPE_CONNECTED else SOCKET_TYPE_LISTEN in
      Ok (Some (SOCKET_OPEN, with_data m (Some (lit "start"))), set_opaque (set_type s t) opaque, o)
  else if decide (s_type s = SOCKET_TYPE_CONNECTED) then
    Ok (Some (SOCKET_OPEN, with_data m (Some (lit "transfer"))), set_opaque s opaque, o)
  else Ok (None, s, o).

Definition setopt_socket (ss : socket_server) (id what value : Z) : socket_server :=
  let s := get_slot ss (HASH_ID id) in
  if decide (s_type s = SOCKET_TYPE_INVALID ∨ s_id s ≠ id) then ss
  else with_os ss (emit (ss_os ss) (SysSetopt (s_fd s) what value)).

Definition add_udp_socket (ss : socket_server) (id fd family opaque : Z) : result socket_server :=
  let protocol := if decide (family = AF_INET6) then PROTOCOL_UDPv6 else PROTOCOL_UDP in
  let i := HASH_ID id in
  r ← new_fd ss id fd protocol opaque true;
  let '(ok, ss) := r in
  if (ok : bool) then
    Ok (put_slot ss i (set_p (set_type (get_slot ss i) SOCKET_TYPE_CONNECTED) (PAddress (replicate UDP_ADDRESS_SIZE 0))) (ss_os ss))
  else Ok (set_slot_type (with_os ss (emit (ss_os ss) (SysClose fd))) i SOCKET_TYPE_INVALID).

(** The bytes of the request that replace those of the default address. *)
Definition set_udp_address_on (s : socket) (id : Z) (address : list Z) (o : os) : result (answered * socket * os) :=
  if decide (s_type s = SOCKET_TYPE_INVALID ∨ s_id s ≠ id) then Ok (None, s, o)
  else if decide (hd 0 address ≠ s_protocol s) then
    Ok (Some (SOCKET_ERROR, mk_smsg (s_id s) (s_opaque s) 0 (Some (lit "protocol mismatch"))), s, o)
  else
    let n := if decide (hd 0 address = PROTOCOL_UDP) then 7%nat else 19%nat in
    match s_p s with
    | PAddress old => Ok (None, set_p s (PAddress (take n address ++ drop n old)), o)
    | PSize _ => Err Uninitialised
    end.

(** [ctrl_cmd]: the first request of the pipe. *)
Definition ctrl_cmd (ss : socket_server) : result (answered * socket_server) :=
  match ss_pipe ss with
  | [] => Err OutOfFuel
  | q :: l =>
      let ss := with_pipe ss l in
      match q with
      | RStart id opaque => on_slot ss (HASH_ID id) (λ s o, start_socket_on s id opaque o)
      | RBind id fd opaque => bind_socket ss id fd opaque
      | RListen id fd opaque => listen_socket ss id fd opaque
      | RClose id shutdown opaque => on_slot ss (HASH_ID id) (λ s o, close_socket_on s id shutdown opaque o)
      | ROpen id port opaque host => open_socket ss id port opaque host
      | RExit => Ok (Some (SOCKET_EXIT, mk_smsg 0 0 0 None), ss)
      | RSend id x priority => on_slot ss (HASH_ID id) (λ s o, send_socket_on s id x priority None o)
      | RSendUdp id x address => on_slot ss (HASH_ID id) (λ s o, send_socket_on s id x PRIORITY_HIGH (Some address) o)
      | RSetUdp id address => on_slot ss (HASH_ID id) (λ s o, set_udp_address_on s id address o)
      | RSetopt id what value => Ok (None, setopt_socket ss id what value)
      | RUdp id fd family opaque => ss ← add_udp_socket ss id fd family opaque; Ok (None, ss)
      end
  end.

(** *** Events *)

(** [report_accept]: [Some] with what the poll returns, [None] to go on. *)
Definition report_accept (ss : socket_server) (i : Z) : result (answered * socket_server) :=
  let s := get_slot ss i in
  let '(a, o) := ask (ss_os ss) in
  let ss := with_os ss o in
  if decide (a_ret a < 0) then
    if decide (a_errno a = EMFILE ∨ a_errno a = ENFILE) then
      Ok (Some (SOCKET_ERROR, mk_smsg (s_id s) (s_opaque s) 0 (Some (strerror (a_errno a)))), ss)
    else Ok (None, ss)
  else
    let client_fd := a_ret a in
    let '(id, ss) := reserve_id ss in
    if decide (id < 0) then Ok (None, with_os ss (emit (ss_os ss) (SysClose client_fd)))
    else
      let ss := with_os ss (emit (ss_os ss) (SysSetopt client_fd 9 1)) in
      r ← new_fd ss id client_fd PROTOCOL_TCP (s_opaque s) false;
      let '(ok, ss) := r in
      if (ok : bool) then
        let ss := set_slot_type ss (HASH_ID id) SOCKET_TYPE_PACCEPT in
        let text := match a_text a with Some t => Some (t ++ 58 :: print_d (a_port a)) | None => None end in
        Ok (Some (SOCKET_ACCEPT, mk_smsg (s_id s) (s_opaque s) id text), ss)
      else Ok (None, with_os ss (emit (ss_os ss) (SysClose client_fd))).

(** The first event of the socket that was closed is dropped. *)
Fixpoint drop_event (ss : socket_server) (id : Z) (l : list event) : list event :=
  match l with
  | [] => []
  | e :: l =>
      match e_s e with
      | Some i =>
          let s := get_slot ss i in
          if decide (s_type s = SOCKET_TYPE_INVALID ∧ s_id s = id) then mk_event None (e_read e) (e_write e) :: l
          else e :: drop_event ss id l
      | None => e :: drop_event ss id l
      end
  end.
Definition clear_closed_event (ss : socket_server) (m : smsg) (type : Z) : socket_server :=
  if decide (type = SOCKET_CLOSE ∨ type = SOCKET_ERROR) then
    with_ctrl ss (checkctrl ss) (drop_event ss (m_id m) (ss_ev ss))
  else ss.

(** One event of the list, taken off it; an event with both flags is looked at again for
    writing, a datagram socket is read until nothing comes. *)
Definition poll_event (ss : socket_server) (e : event) (l : list event) : result (answered * socket_server) :=
  let ss := with_ctrl ss (checkctrl ss) l in
  match e_s e with
  | None => Ok (None, ss)
  | Some i =>
      let s := get_slot ss i in
      if decide (s_type s = SOCKET_TYPE_CONNECTING) then on_slot ss i report_connect
      else if decide (s_type s = SOCKET_TYPE_LISTEN) then report_accept ss i
      else if decide (s_type s = SOCKET_TYPE_INVALID) then
        Ok (None, with_os ss (emit (ss_os ss) (SysLog (lit "socket-server: invalid socket"))))
      else if e_read e then
        r ← on_slot ss i (if decide (s_protocol s = PROTOCOL_TCP) then forward_message_tcp else forward_message_udp);
        let '(a, ss) := r in
        let type := match a with Some (t, _) => t | None => -1 end in
        if decide (s_protocol s ≠ PROTOCOL_TCP ∧ type = SOCKET_UDP) then
          Ok (a, with_ctrl ss (checkctrl ss) (e :: l))
        else if decide (e_write e = true ∧ type ≠ SOCKET_CLOSE ∧ type ≠ SOCKET_ERROR) then
          Ok (a, with_ctrl ss (checkctrl ss) (mk_event (e_s e) false (e_write e) :: l))
        else Ok (a, ss)
      else if e_write e then on_slot ss i send_buffer
      else Ok (None, ss)
  end.

(** A turn of the loop of [socket_server_poll]: it goes on, or returns (-1 as [None]);
    the boolean says that the poll was waited for ([more] is reset). *)
Inductive poll_turn : Type :=
| PGoOn
| PReturn (a : answered).
Definition poll_step (ss : socket_server) : result (poll_turn * bool * socket_server) :=
  if decide (checkctrl ss = true ∧ ss_pipe ss ≠ []) then
    r ← ctrl_cmd ss;
    let '(a, ss) := r in
    match a with
    | Some (type, m) => Ok (PReturn a, false, clear_closed_event ss m type)
    | None => Ok (PGoOn, false, ss)
    end
  else
    let ss := with_ctrl ss false (ss_ev ss) in
    match ss_ev ss with
    | [] =>
        let '(a, o) := ask (ss_os ss) in
        let ss := with_ctrl (with_os ss o) true [] in
        if decide (a_ret a ≤ 0) then Ok (PReturn None, true, ss)
        else
          match take 64 (a_events a) with
          | [] => Ok (PReturn None, true, ss)
          | e :: l =>
              r ← poll_event ss e l;
              Ok (match r.1 with Some _ => PReturn r.1 | None => PGoOn end, true, r.2)
          end
    | e :: l =>
        r ← poll_event ss e l;
        Ok (match r.1 with Some _ => PReturn r.1 | None => PGoOn end, false, r.2)
    end.
(** [socket_server_poll], for as many turns as the fuel has. *)
Fixpoint socket_server_poll (fuel : nat) (more : bool) (ss : socket_server) : result (answered * bool * socket_server) :=
  match fuel with
  | O => Err OutOfFuel
  | S f =>
      r ← poll_step ss;
      let '(t, waited, ss) := r in
      let more := more && negb waited in
      match t with
      | PReturn a => Ok (a, more, ss)
      | PGoOn => socket_server_poll f more ss
      end
  end.

(** ** What other threads call *)

Definition socket_server_create (o : os) : socket_server := mk_ss ∅ 0 [] true [] o.

(** Every slot but those reserved is closed. *)
Definition release_slot (i : Z) (ss : socket_server) : result socket_server :=
  let s := get_slot ss i in
  if decide (s_type s ≠ SOCKET_TYPE_RESERVE) then
    r ← force_close s (ss_os ss);
    let '(_, s, o) := r in Ok (put_slot ss i s o)
  else Ok ss.
Definition socket_server_release (ss : socket_server) : result socket_server :=
  c_for (Z.to_nat MAX_SOCKET) 0 release_slot ss.

(** [send_request]: the pipe takes the request whole. *)
Definition send_request (ss : socket_server) (q : request) : socket_server := with_pipe ss (ss_pipe ss ++ [q]).

(** [sizeof(request.u.open)] is 24. *)
Definition socket_server_connect (ss : socket_server) (opaque : Z) (addr : cstring) (port : Z) : Z * socket_server :=
  if decide (256 ≤ zlen addr + 24) then
    (-1, with_os ss (emit (ss_os ss) (SysLog (lit "socket-server : Invalid addr"))))
  else
    let '(id, ss) := reserve_id ss in
    if decide (id < 0) then (-1, ss) else (id, send_request ss (ROpen id port opaque addr)).

(** The count of bytes waiting is returned as it is when the request is queued. *)
Definition socket_server_send (ss : socket_server) (id : Z) (x : sobject) : Z * socket_server :=
  let s := get_slot ss (HASH_ID id) in
  if decide (s_id s ≠ id ∨ s_type s = SOCKET_TYPE_INVALID) then
    (-1, with_os ss (free_object (ss_os ss) (so_user x) (so_handle x)))
  else (s_wb_size s, send_request ss (RSend id x PRIORITY_HIGH)).
Definition socket_server_send_lowpriority (ss : socket_server) (id : Z) (x : sobject) : socket_server :=
  let s := get_slot ss (HASH_ID id) in
  if decide (s_id s ≠ id ∨ s_type s = SOCKET_TYPE_INVALID) then
    with_os ss (free_object (ss_os ss) (so_user x) (so_handle x))
  else send_request ss (RSend id x PRIORITY_LOW).

Definition socket_server_exit (ss : socket_server) : socket_server := send_request ss RExit.
Definition socket_server_close (ss : socket_server) (opaque id : Z) : socket_server := send_request ss (RClose id 0 opaque).
Definition socket_server_shutdown (ss : socket_server) (opaque id : Z) : socket_server := send_request ss (RClose id 1 opaque).
Definition socket_server_start (ss : socket_server) (opaque id : Z) : socket_server := send_request ss (RStart id opaque).
Definition socket_server_nodelay (ss : socket_server) (id : Z) : socket_server := send_request ss (RSetopt id 1 1).

(** [do_bind]: the descriptor or -1, and the family of the address; the answers are
    those of [getaddrinfo] (the family in [a_port]), [socket], [setsockopt], [bind]. *)
Definition do_bind (o : os) : Z * Z * os :=
  let '(ai, o) := ask o in
  if decide (a_ret ai ≠ 0) then (-1, 0, o)
  else
    let '(f, o) := ask o in
    if decide (a_ret f < 0) then (-1, a_port ai, o)
    else
      let '(so, o) := ask o in
      if decide (a_ret so = -1) then (-1, a_port ai, emit o (SysClose (a_ret f)))
      else
        let '(b, o) := ask o in
        if decide (a_ret b ≠ 0) then (-1, a_port ai, emit o (SysClose (a_ret f)))
        else (a_ret f, a_port ai, o).
Definition do_listen (o : os) : Z * os :=
  let '(fd, _, o) := do_bind o in
  if decide (fd < 0) then (-1, o)
  else
    let '(a, o) := ask o in
    if decide (a_ret a = -1) then (-1, emit o (SysClose fd)) else (fd, o).

Definition socket_server_listen (ss : socket_server) (opaque : Z) : Z * socket_server :=
  let '(fd, o) := do_listen (ss_os ss) in
  let ss := with_os ss o in
  if decide (fd < 0) then (-1, ss)
  else
    let '(id, ss) := reserve_id ss in
    if decide (id < 0) then (id, with_os ss (emit (ss_os ss) (SysClose fd)))
    else (id, send_request ss (RListen id fd opaque)).
Definition socket_server_bind (ss : socket_server) (opaque fd : Z) : Z * socket_server :=
  let '(id, ss) := reserve_id ss in
  if decide (id < 0) then (-1, ss) else (id, send_request ss (RBind id fd opaque)).

Definition socket_server_udp (ss : socket_server) (opaque : Z) (addr : option cstring) (port : Z) : Z * socket_server :=
  let '(fd, family, o) := if decide (port ≠ 0 ∨ addr ≠ None) then do_bind (ss_os ss)
                          else let '(a, o) := ask (ss_os ss) in (a_ret a, AF_INET, o) in
  let ss := with_os ss o in
  if decide (fd < 0) then (-1, ss)
  else
    let '(id, ss) := reserve_id ss in
    if decide (id < 0) then (-1, with_os ss (emit (ss_os ss) (SysClose fd)))
    else (id, send_request ss (RUdp id fd family opaque)).
Definition socket_server_udp_send (ss : socket_server) (id : Z) (addr : list Z) (x : sobject) : Z * socket_server :=
  let s := get_slot ss (HASH_ID id) in
  let dropped := with_os ss (free_object (ss_os ss) (so_user x) (so_handle x)) in
  if decide (s_id s ≠ id ∨ s_type s = SOCKET_TYPE_INVALID) then (-1, dropped)
  else if decide (hd 0 addr = PROTOCOL_UDP) then (s_wb_size s, send_request ss (RSendUdp id x (take 7 addr)))
  else if decide (hd 0 addr = PROTOCOL_UDPv6) then (s_wb_size s, send_request ss (RSendUdp id x (take 19 addr)))
  else (-1, dropped).
(** The answer to [getaddrinfo] has the family in [a_port] and the address in [a_addr]. *)
Definition socket_server_udp_connect (ss : socket_server) (id : Z) : Z * socket_server :=
  let '(ai, o) := ask (ss_os ss) in
  let ss := with_os ss o in
  if decide (a_ret ai ≠ 0) then (-1, ss)
  else if decide (a_port ai = AF_INET) then (0, send_request ss (RSetUdp id (gen_udp_address PROTOCOL_UDP (a_addr ai))))
  else if decide (a_port ai = AF_INET6) then (0, send_request ss (RSetUdp id (gen_udp_address PROTOCOL_UDPv6 (a_addr ai))))
  else (-1, ss).
(** The address behind the bytes of a datagram. *)
Definition socket_server_udp_address (m : smsg) : result (option (list Z)) :=
  data ← of_option NullDeref (m_data m);
  let address := drop (Z.to_nat (m_ud m)) data in
  type ← of_option OutOfBounds (head address);
  Ok (if decide (type = PROTOCOL_UDP) then Some (take 7 address)
      else if decide (type = PROTOCOL_UDPv6) then Some (take 19 address) else None).
End Errors.
