(* ===== verification/SocketProps.v ===== *)
(** * What the socket server guarantees

    The stream of a TCP socket: packets are written whole and one after the other, in
    order within each priority, whatever the writes return, and a graceful close writes
    everything first. *)
From Stdlib Require Import String.
From stdpp Require Import base numbers list gmap.
From S2P Require Import Prelude CString Socket.

(** ** What the calls did *)

Definition written_by (fd : Z) (c : syscall) : list Z :=
  match c with SysWrite f l => if decide (f = fd) then l else [] | _ => [] end.
(** The bytes a descriptor accepted. *)
Definition written (fd : Z) (l : list syscall) : list Z := concat (written_by fd <$> l).
Definition freed_by (c : syscall) : option (bool * Z) :=
  match c with SysFree x => Some (false, x) | SysUserFree x => Some (true, x) | _ => None end.
(** The objects freed, in order. *)
Definition frees (l : list syscall) : list (bool * Z) := omap freed_by l.

Lemma written_app fd l k : written fd (l ++ k) = written fd l ++ written fd k.
Proof. unfold written. by rewrite fmap_app, concat_app. Qed.
Lemma frees_app l k : frees (l ++ k) = frees l ++ frees k.
Proof. unfold frees. by rewrite omap_app. Qed.

Definition wb_handle (w : write_buffer) : bool * Z := (wb_userobject w, wb_buffer w).
Definition ob_handle (x : sobject) : bool * Z := (so_user x, so_handle x).

(** What an operation added to the calls. *)
Definition added (o o' : os) (fd : Z) (w : list Z) (f : list (bool * Z)) : Prop :=
  ∃ new, calls o' = calls o ++ new ∧ written fd new = w ∧ frees new = f.

Lemma added_refl o o' fd : calls o' = calls o → added o o' fd [] [].
Proof. intros E. exists []. by rewrite app_nil_r. Qed.
Lemma added_trans o1 o2 o3 fd w1 f1 w2 f2 :
  added o1 o2 fd w1 f1 → added o2 o3 fd w2 f2 → added o1 o3 fd (w1 ++ w2) (f1 ++ f2).
Proof.
  intros (n1 & E1 & <- & <-) (n2 & E2 & <- & <-). exists (n1 ++ n2). rewrite E2, E1, app_assoc. split; [done|].
  by rewrite written_app, frees_app.
Qed.
Lemma added_emit o fd c : added o (emit o c) fd (written_by fd c) (match freed_by c with Some h => [h] | None => [] end).
Proof.
  exists [c]. split; [done|]. unfold written, frees. cbn. rewrite app_nil_r. split; [done|]. by destruct (freed_by c).
Qed.
Lemma added_free o fd u x : added o (free_object o u x) fd [] [(u, x)].
Proof. unfold free_object. destruct u; apply (added_emit o fd). Qed.
Lemma added_quiet o fd c : written_by fd c = [] → freed_by c = None → added o (emit o c) fd [] [].
Proof. intros H1 H2. pose proof (added_emit o fd c) as H. by rewrite H1, H2 in H. Qed.
Lemma added_written o o' fd w f l : added o o' fd w f → written fd (calls o) = l → written fd (calls o') = l ++ w.
Proof. intros (new & -> & <- & _) <-. apply written_app. Qed.
Lemma added_frees o o' fd w f l : added o o' fd w f → frees (calls o) = l → frees (calls o') = l ++ f.
Proof. intros (new & -> & _ & <-) <-. apply frees_app. Qed.

Lemma free_wb_list_added o fd l : added o (free_wb_list o l) fd [] (wb_handle <$> l) ∧ answers (free_wb_list o l) = answers o.
Proof.
  revert o. induction l as [|w l IH]; intros o; [split; [by apply added_refl|done]|]. destruct (IH (write_buffer_free o w)) as [H1 H2].
  split; [|exact H2]. change (@nil Z) with ([] ++ @nil Z).
  eapply (added_trans _ _ _ _ _ [wb_handle w]); [apply added_free|exact H1].
Qed.

Lemma force_close_spec s o :
  s_type s ≠ SOCKET_TYPE_INVALID → s_type s ≠ SOCKET_TYPE_RESERVE →
  ∃ m o', force_close s o = Ok (m, set_type (set_lists s [] [] (s_wb_size s)) SOCKET_TYPE_INVALID, o') ∧
    answers o' = answers o ∧ ∀ fd, added o o' fd [] (wb_handle <$> s_high s ++ s_low s).
Proof.
  intros Hi Hr. unfold force_close. rewrite decide_False, c_assert_true, bind_Ok by (done || by apply bool_decide_eq_true_2).
  cbv zeta. set (o1 := free_wb_list o (s_high s)). set (o2 := free_wb_list o1 (s_low s)).
  set (o3 := if decide (_ ∧ _) then emit o2 _ else o2). set (o4 := if decide (s_type s ≠ _) then emit o3 _ else o3).
  eexists _, o4. split; [done|]. split.
  - transitivity (answers o3); [unfold o4; by case_decide|]. transitivity (answers o2); [unfold o3; by case_decide|].
    unfold o2, o1. by rewrite (proj2 (free_wb_list_added _ 0 _)), (proj2 (free_wb_list_added _ 0 _)).
  - intros fd. assert (added o o2 fd [] (wb_handle <$> s_high s ++ s_low s)) as H2.
    { rewrite fmap_app. change (@nil Z) with ([] ++ @nil Z). eapply added_trans; apply free_wb_list_added. }
    assert (added o2 o3 fd [] []) as H3 by (unfold o3; case_decide; [by apply added_quiet|by apply added_refl]).
    assert (added o3 o4 fd [] []) as H4 by (unfold o4; case_decide; [by apply added_quiet|by apply added_refl]).
    pose proof (added_trans _ _ _ _ _ _ _ _ H2 (added_trans _ _ _ _ _ _ _ _ H3 H4)) as H. cbn [app] in H. by rewrite app_nil_r in H.
Qed.

(** ** Writing a list *)

Definition advance (n : nat) (w : write_buffer) : write_buffer :=
  mk_wb (wb_buffer w) (wb_ptr w + Z.of_nat n) (drop n (wb_data w)) (wb_userobject w) (wb_udp_address w).
(** The list with [n] bytes of its first buffer written. *)
Definition advance_head (n : nat) (l : list write_buffer) : list write_buffer :=
  match l with [] => [] | w :: l => advance n w :: l end.
Definition head_data (l : list write_buffer) : list Z := match l with [] => [] | w :: _ => wb_data w end.

Lemma advance_0 w : advance 0 w = w.
Proof. destruct w. unfold advance. cbn. by rewrite Z.add_0_r, drop_0. Qed.
Lemma advance_head_0 l : advance_head 0 l = l.
Proof. destruct l; cbn; [done|]. by rewrite advance_0. Qed.

Lemma write_retry_range l sz : 0 ≤ sz → let '(n, _, _) := write_retry l sz in n = -1 ∨ 0 ≤ n ≤ sz.
Proof.
  intros Hsz. induction l as [|a l IH]; cbn [write_retry]; [by left|]. repeat case_decide; [done|by left|]. right. lia.
Qed.

(** Answers with which no write fails for good. *)
Definition benign (l : list answer) : Prop := Forall (λ a, 0 ≤ a_ret a ∨ a_errno a = EINTR ∨ a_errno a = EAGAIN) l.

Lemma write_retry_benign l sz :
  0 ≤ sz → benign l → let '(n, e, l') := write_retry l sz in benign l' ∧ (n < 0 → e = EAGAIN).
Proof.
  intros Hsz. induction 1 as [|a l Ha Hl IH]; cbn [write_retry]; [split; [constructor|done]|]. repeat case_decide; [done| |split; [done|lia]].
  split; [done|]. intros _. naive_solver lia.
Qed.
Lemma send_tcp_benign fd l sz o :
  benign (answers o) → let '(failed, _, _, o') := send_tcp fd l sz o in failed = false ∧ benign (answers o').
Proof.
  revert sz o. induction l as [|w l IH]; intros sz o Hb; cbn [send_tcp]; [done|].
  pose proof (write_retry_benign _ (zlen (wb_data w)) (zlen_nonneg _) Hb) as H.
  destruct (write_retry (answers o) (zlen (wb_data w))) as [[n e] ans]. destruct H as [Hb' He]. cbv zeta.
  destruct (decide (n < 0)); [rewrite He by done; done|].
  destruct (decide (n ≠ zlen (wb_data w))); [done|]. apply IH. unfold write_buffer_free, free_object. by destruct (wb_userobject w).
Qed.

(** Whole buffers are written and freed; of the next one a part. *)
Lemma send_tcp_spec fd l sz o failed l' sz' o' :
  send_tcp fd l sz o = (failed, l', sz', o') →
  ∃ pre suf n, l = pre ++ suf ∧ l' = advance_head n suf ∧ (n = 0 ∨ n < length (head_data suf))%nat ∧
    added o o' fd (concat (wb_data <$> pre) ++ take n (head_data suf)) (wb_handle <$> pre) ∧
    sz' = sz - zlen (concat (wb_data <$> pre) ++ take n (head_data suf)).
Proof.
  revert sz o. induction l as [|w l IH]; intros sz o E; cbn [send_tcp] in E.
  { injection E as <- <- <- <-. exists [], [], 0%nat. split; [done|]. split; [done|]. split; [by left|].
    split; [by apply added_refl|]. change (zlen _) with 0. lia. }
  pose proof (write_retry_range (answers o) (zlen (wb_data w)) (zlen_nonneg _)) as Hr.
  destruct (write_retry (answers o) (zlen (wb_data w))) as [[n e] ans]. cbv zeta in E.
  destruct (decide (n < 0)) as [Hn|Hn].
  { injection E as <- <- <- <-. exists [], (w :: l), 0%nat. split; [done|]. split; [by rewrite advance_head_0|]. split; [by left|].
    split; [by apply added_refl|]. change (zlen _) with 0. lia. }
  assert (added o (emit (mk_os ans (calls o)) (SysWrite fd (take (Z.to_nat n) (wb_data w)))) fd (take (Z.to_nat n) (wb_data w)) []) as Hw.
  { pose proof (added_emit (mk_os ans (calls o)) fd (SysWrite fd (take (Z.to_nat n) (wb_data w)))) as H.
    cbn [written_by freed_by] in H. by rewrite decide_True in H. }
  destruct (decide (n ≠ zlen (wb_data w))) as [Hne|Heq].
  - injection E as <- <- <- <-. exists [], (w :: l), (Z.to_nat n). split; [done|].
    split; [cbn; unfold advance; by rewrite Z2Nat.id by lia|]. cbn [head_data fmap list_fmap concat app].
    split; [right; unfold zlen in *; lia|]. split; [done|].
    unfold zlen in *. rewrite length_take. lia.
  - assert (n = zlen (wb_data w)) as -> by (destruct (decide (n = zlen (wb_data w))); [done|tauto]).
    assert (take (Z.to_nat (zlen (wb_data w))) (wb_data w) = wb_data w) as Et by (apply take_ge; unfold zlen; lia).
    rewrite Et in *. apply IH in E as (pre & suf & k & -> & -> & Hk & Ha & ->). exists (w :: pre), suf, k.
    split; [done|]. split; [done|]. split; [done|]. cbn [fmap list_fmap concat]. rewrite <- app_assoc. split.
    + eapply (added_trans _ _ _ _ _ []); [exact Hw|]. eapply (added_trans _ _ _ _ [] [wb_handle w]); [apply added_free|exact Ha].
    + rewrite !zlen_app. lia.
Qed.

(** ** The stream of a socket *)

(** A packet: its priority and the object. *)
Abbreviation item := (Z * sobject)%type.
Definition item_bytes (it : item) : list Z := so_bytes it.2.
Definition item_handle (it : item) : bool * Z := ob_handle it.2.
Definition whole (it : item) : write_buffer := new_write_buffer it.2 0 [].
Definition head_bytes (l : list item) : list Z := match l with [] => [] | it :: _ => item_bytes it end.
Definition unsent (l : list write_buffer) : list Z := concat (wb_data <$> l).
(** Objects of low priority that can be queued: memory, not a user object. *)
Definition low_plain (it : item) : Prop := it.1 = PRIORITY_LOW ∧ so_user it.2 = false.

Lemma whole_data it : wb_data (whole it) = item_bytes it.
Proof. unfold whole, new_write_buffer. cbn. done. Qed.
Lemma whole_datas (l : list item) : wb_data <$> (whole <$> l) = item_bytes <$> l.
Proof. induction l; cbn; by f_equal. Qed.
Lemma whole_handles (l : list item) : wb_handle <$> (whole <$> l) = item_handle <$> l.
Proof. induction l; cbn; by f_equal. Qed.
Lemma advance_handles n l : wb_handle <$> advance_head n l = wb_handle <$> l.
Proof. by destruct l. Qed.
Lemma advance_advance n k w : advance n (advance k w) = advance (k + n) w.
Proof. unfold advance. cbn. f_equal; [lia|]. by rewrite drop_drop. Qed.
Lemma advance_unsent k l : unsent (advance_head k l) = drop k (head_data l) ++ unsent (tail l).
Proof. destruct l; cbn; [by rewrite drop_nil|done]. Qed.
Lemma advance_new k x : advance k (new_write_buffer x 0 []) = new_write_buffer x (Z.of_nat k) [].
Proof. unfold advance, new_write_buffer. cbn. by rewrite Z.add_0_r, Nat2Z.id. Qed.

(** Packets written from a list whose first one is partly written. *)
Lemma send_progress hs k pre suf n :
  advance_head k (whole <$> hs) = pre ++ suf → (k = 0 ∨ k < length (head_bytes hs))%nat →
  (n = 0 ∨ n < length (head_data suf))%nat →
  ∃ h1 h2 k', hs = h1 ++ h2 ∧ advance_head n suf = advance_head k' (whole <$> h2) ∧
    (k' = 0 ∨ k' < length (head_bytes h2))%nat ∧ wb_handle <$> pre = item_handle <$> h1 ∧
    take k (head_bytes hs) ++ concat (wb_data <$> pre) ++ take n (head_data suf)
      = concat (item_bytes <$> h1) ++ take k' (head_bytes h2).
Proof.
  intros E Hk Hn. destruct pre as [|w pre].
  - cbn in E. subst suf. exists [], hs, (k + n)%nat. destruct hs as [|h hs].
    + cbn in *. split; [done|]. split; [done|]. split; [left; lia|]. by rewrite !take_nil.
    + cbn [advance_head fmap list_fmap head_data head_bytes] in *.
      change (wb_data (advance k (whole h))) with (drop k (item_bytes h)) in *. rewrite length_drop in Hn.
      split; [done|]. split; [by rewrite advance_advance|]. split; [lia|]. split; [done|]. cbn.
      by rewrite take_take_drop.
  - destruct hs as [|h hs]; [done|]. cbn in E. injection E as <- E. apply fmap_app_inv in E as (h1 & h2 & -> & -> & ->).
    exists (h :: h1), h2, n. split; [done|]. split; [done|].
    assert (head_data (whole <$> h2) = head_bytes h2) as Eh by by destruct h2. rewrite Eh in *.
    split; [done|]. split; [cbn; by rewrite whole_handles|]. cbn [fmap list_fmap concat head_bytes].
    change (wb_data (advance k (whole h))) with (drop k (item_bytes h)). rewrite whole_datas, <- !app_assoc, app_assoc, take_drop. done.
Qed.

(** Open: [done] is written, of [hs] (in the high list) [k] bytes are written, [ls] is the
    low list. *)
Record open_stream (order : list item) (s : socket) (o : os) (done hs ls : list item) (k : nat) : Prop := {
  os_type : s_protocol s = PROTOCOL_TCP ∧ (s_type s = SOCKET_TYPE_CONNECTED ∨ s_type s = SOCKET_TYPE_HALFCLOSE);
  os_order : order = done ++ hs ++ ls;
  os_ls : Forall low_plain ls;
  os_k : (k = 0 ∨ k < length (head_bytes hs))%nat;
  os_written : written (s_fd s) (calls o) = concat (item_bytes <$> done) ++ take k (head_bytes hs);
  os_high : s_high s = advance_head k (whole <$> hs);
  os_low : s_low s = whole <$> ls;
  os_size : s_wb_size s = zlen (unsent (s_high s ++ s_low s)) }.
(** Closed: a prefix of the packets is written. *)
Record closed_stream (order : list item) (s : socket) (o : os) (done rest : list item) (k : nat) : Prop := {
  cs_type : s_type s = SOCKET_TYPE_INVALID;
  cs_order : order = done ++ rest;
  cs_k : (k = 0 ∨ k < length (head_bytes rest))%nat;
  cs_written : written (s_fd s) (calls o) = concat (item_bytes <$> done) ++ take k (head_bytes rest);
  cs_lists : s_high s = [] ∧ s_low s = [] }.

(** Everything but the lists is as it was. *)
Definition kept (s s' : socket) : Prop := s' = set_lists s (s_high s') (s_low s') (s_wb_size s').
(** How an operation on an open stream ends: the stream is open, or it was closed because
    a write failed ([why] says what else may have closed it). *)
Definition stream_after (order : list item) (s : socket) (o : os) (why : Prop) (a : answered) (s' : socket) (o' : os) : Prop :=
  s_fd s' = s_fd s ∧ (benign (answers o) → benign (answers o')) ∧
  match a with
  | None => ∃ done hs ls k, open_stream order s' o' done hs ls k
  | Some (t, _) => t = SOCKET_CLOSE ∧ ∃ done rest k, closed_stream order s' o' done rest k ∧
      (benign (answers o) → ¬ why → rest = [])
  end.

Lemma open_types t :
  t = SOCKET_TYPE_CONNECTED ∨ t = SOCKET_TYPE_HALFCLOSE → t ≠ SOCKET_TYPE_INVALID ∧ t ≠ SOCKET_TYPE_RESERVE.
Proof. unfold SOCKET_TYPE_CONNECTED, SOCKET_TYPE_HALFCLOSE, SOCKET_TYPE_INVALID, SOCKET_TYPE_RESERVE. lia. Qed.
Lemma closing s o order done rest k m s' o' (why : Prop) o0 :
  (s_type s = SOCKET_TYPE_CONNECTED ∨ s_type s = SOCKET_TYPE_HALFCLOSE) → order = done ++ rest →
  (k = 0 ∨ k < length (head_bytes rest))%nat →
  written (s_fd s) (calls o) = concat (item_bytes <$> done) ++ take k (head_bytes rest) →
  force_close s o = Ok (m, s', o') →
  (benign (answers o0) → benign (answers o)) → (benign (answers o0) → ¬ why → rest = []) →
  stream_after order s o0 why (Some (SOCKET_CLOSE, m)) s' o'.
Proof.
  intros Ht Hord Hk Hw E Hb Hrest.
  destruct (open_types _ Ht) as [Hi Hr]. destruct (force_close_spec s o Hi Hr) as (m' & o1 & E' & Ea & Hadd).
  rewrite E in E'. injection E' as <- -> <-. split; [done|]. split; [by rewrite Ea|]. split; [done|].
  exists done, rest, k. split; [|done]. specialize (Hadd (s_fd s)).
  split; cbn [s_type set_type s_high s_low set_lists]; try done.
  cbn [s_fd set_type set_lists]. by rewrite (added_written _ _ _ _ _ _ Hadd Hw), app_nil_r.
Qed.
Lemma closing_open s o order done hs ls k m s' o' (why : Prop) o0 :
  open_stream order s o done hs ls k → force_close s o = Ok (m, s', o') →
  (benign (answers o0) → benign (answers o)) → (benign (answers o0) → ¬ why → hs ++ ls = []) →
  stream_after order s o0 why (Some (SOCKET_CLOSE, m)) s' o'.
Proof.
  intros [[_ Ht] Hord Hls Hk Hw Hhi Hlo Hsz] E Hb Hrest.
  assert (k = 0%nat ∨ head_bytes (hs ++ ls) = head_bytes hs) as Hhd.
  { destruct hs; [|by right]. left. destruct Hk as [->|Hk]; [done|cbn in Hk; lia]. }
  apply (closing s o order done (hs ++ ls) k); try done.
  - destruct Hhd as [->| ->]; [by left|done].
  - destruct Hhd as [->| ->]; [by rewrite Hw, !take_0|done].
Qed.

Lemma send_high_spec order s o done hs ls k (why : Prop) :
  open_stream order s o done hs ls k →
  ∃ a s' o', send_list s true o = Ok (a, s', o') ∧ stream_after order s o why a s' o' ∧
    (a = None → kept s s' ∧ s_low s' = s_low s ∧ ∃ h1 h2 k', hs = h1 ++ h2 ∧ open_stream order s' o' (done ++ h1) h2 ls k').
Proof.
  intros H. pose proof H as [[Htcp Ht] Hord Hls Hk Hw Hhi Hlo Hsz]. unfold send_list. rewrite decide_True by done. cbn [wlist].
  destruct (send_tcp (s_fd s) (s_high s) (s_wb_size s) o) as [[[failed l] n] o1] eqn:E.
  pose proof (send_tcp_benign (s_fd s) (s_high s) (s_wb_size s) o) as Hben. rewrite E in Hben.
  apply send_tcp_spec in E as (pre & suf & j & El & -> & Hj & Hadd & ->). rewrite Hhi in El.
  destruct (send_progress hs k pre suf j El Hk Hj) as (h1 & h2 & k' & -> & Es & Hk' & Ehd & Ew). cbn [put_wlist].
  set (s1 := set_lists s _ _ _). set (w := concat (wb_data <$> pre) ++ take j (head_data suf)) in *.
  assert (open_stream order s1 o1 (done ++ h1) h2 ls k') as H1.
  { split; cbn [s1 s_type s_protocol set_lists s_high s_low s_wb_size s_fd]; try done.
    - by rewrite Hord, <- !app_assoc.
    - rewrite (added_written _ _ _ _ _ _ Hadd Hw), <- app_assoc, Ew, fmap_app, concat_app, app_assoc. done.
    - rewrite Hsz, Hhi, El. unfold unsent. rewrite !fmap_app, !concat_app, !zlen_app. unfold w. rewrite zlen_app.
      destruct suf as [|x suf]; cbn [advance_head fmap list_fmap concat head_data].
      + rewrite take_nil. change (zlen (@nil Z)) with 0. lia.
      + rewrite !zlen_app. change (wb_data (advance j x)) with (drop j (wb_data x)). rewrite <- (take_drop j (wb_data x)) at 1.
        rewrite zlen_app. lia.
  }
  destruct failed.
  - destruct (open_types _ Ht) as [Hi Hr]. destruct (force_close_spec s1 o1 Hi Hr) as (m & o2 & E2 & _). rewrite E2, bind_Ok. cbv beta iota.
    eexists _, _, _. split; [done|]. split; [|done].
    destruct (closing_open s1 o1 order _ _ _ _ _ _ _ why o H1 E2) as (? & ? & ? & d & r & kk & ? & ?); [tauto|by intros [? _]%Hben|].
    split; [done|]. split; [done|]. split; [done|]. by exists d, r, kk.
  - eexists _, _, _. split; [done|]. split; [|by intros _; split; [done|]; split; [done|]; exists h1, h2, k'].
    split; [done|]. split; [tauto|]. by eexists _, _, _, _.
Qed.

(** The bytes that wait shrink by those written. *)
Lemma unsent_written pre suf j :
  (j = 0 ∨ j < length (head_data suf))%nat →
  zlen (unsent (advance_head j suf)) = zlen (unsent (pre ++ suf)) - zlen (concat (wb_data <$> pre) ++ take j (head_data suf)).
Proof.
  intros Hj. unfold unsent. rewrite !fmap_app, !concat_app, !zlen_app.
  destruct suf as [|x suf]; cbn [advance_head fmap list_fmap concat head_data].
  - rewrite take_nil. change (zlen (@nil Z)) with 0. lia.
  - rewrite !zlen_app. change (wb_data (advance j x)) with (drop j (wb_data x)). rewrite <- (take_drop j (wb_data x)) at 2.
    rewrite zlen_app. lia.
Qed.

Definition low_phase (s : socket) (o : os) : result (answered * socket * os) :=
  r ← send_list s false o;
  let '(a, s, o) := r in
  match a with
  | Some _ => Ok (a, s, o)
  | None => if list_uncomplete (s_low s) then s ← raise_uncomplete s; Ok (None, s, o) else Ok (None, s, o)
  end.

Lemma low_complete ls : Forall low_plain ls → list_uncomplete (whole <$> ls) = false.
Proof.
  intros H. destruct ls as [|[p x] ls]; [done|]. apply Forall_cons in H as [[_ Hu] _]. cbn in Hu.
  destruct x; [|done]. apply bool_decide_eq_false_2. cbn. lia.
Qed.

Lemma low_phase_spec order s o done ls (why : Prop) :
  open_stream order s o done [] ls 0 →
  ∃ a s' o', low_phase s o = Ok (a, s', o') ∧ stream_after order s o why a s' o' ∧ (a = None → kept s s').
Proof.
  intros H. pose proof H as [[Htcp Ht] Hord Hls _ Hw Hhi Hlo Hsz]. unfold low_phase, send_list. rewrite decide_True by done.
  cbn [wlist]. destruct (send_tcp (s_fd s) (s_low s) (s_wb_size s) o) as [[[failed l] n] o1] eqn:E.
  pose proof (send_tcp_benign (s_fd s) (s_low s) (s_wb_size s) o) as Hben. rewrite E in Hben.
  apply send_tcp_spec in E as (pre & suf & j & El & -> & Hj & Hadd & ->). rewrite Hlo, <- (advance_head_0 (whole <$> ls)) in El.
  destruct (send_progress ls 0 pre suf j El (or_introl eq_refl) Hj) as (h1 & h2 & k' & -> & Es & Hk' & Ehd & Ew). cbn [put_wlist].
  rewrite take_0 in Ew. rewrite advance_head_0 in El. apply Forall_app in Hls as [Hl1 Hl2].
  set (s1 := set_lists s _ _ _). set (w := concat (wb_data <$> pre) ++ take j (head_data suf)) in *. cbn [app] in Ew.
  assert (written (s_fd s1) (calls o1) = concat (item_bytes <$> done ++ h1) ++ take k' (head_bytes h2)) as Hw1.
  { cbn [s1 set_lists s_fd]. rewrite (added_written _ _ _ _ _ _ Hadd Hw), take_0, app_nil_r, Ew, fmap_app, concat_app, app_assoc. done. }
  assert (s_wb_size s1 = zlen (unsent (s_low s1))) as Hsz1.
  { cbn [s1 set_lists s_wb_size s_low]. rewrite (unsent_written pre suf j Hj), Hsz, Hhi, Hlo, El. done. }
  assert (s_high s1 = []) as Hhi1 by exact Hhi. assert (s_low s1 = advance_head k' (whole <$> h2)) as Hlo1 by exact Es.
  assert (order = (done ++ h1) ++ h2) as Hord1 by (rewrite Hord, <- app_assoc; done).
  destruct failed.
  - destruct (open_types _ Ht) as [Hi Hr]. destruct (force_close_spec s1 o1 Hi Hr) as (m & o2 & E2 & _). rewrite E2, !bind_Ok. cbv beta iota.
    eexists _, _, _. split; [done|]. split; [|done].
    apply (closing s1 o1 order (done ++ h1) h2 k' m _ o2 why o); try done.
    + tauto.
    + by intros [? _]%Hben.
  - rewrite bind_Ok. cbv beta iota. destruct h2 as [|x h2].
    { rewrite Hlo1. cbn [fmap list_fmap advance_head list_uncomplete]. eexists _, _, _. split; [done|]. split; [|done].
      split; [done|]. split; [tauto|]. exists (done ++ h1), [], [], 0%nat. split; try done.
      - by left.
      - rewrite Hw1. cbn [head_bytes]. by rewrite !take_nil.
      - by rewrite Hhi1. }
    apply Forall_cons in Hl2 as [[Hlow Hplain] Hl2]. rewrite Hlo1. cbn [fmap list_fmap advance_head list_uncomplete].
    assert (wb_ptr (advance k' (whole x)) = wb_buffer (advance k' (whole x)) + Z.of_nat k') as Eptr.
    { destruct x as [p x]. cbn in *. destruct x; [cbn; lia|done]. }
    destruct (decide (k' = 0%nat)) as [->|Hk0].
    + rewrite bool_decide_eq_false_2 by lia. eexists _, _, _. split; [done|]. split; [|done].
      split; [done|]. split; [tauto|]. exists (done ++ h1), [], (x :: h2), 0%nat. split; try done.
      * by constructor.
      * by left.
      * by rewrite Hlo1, advance_head_0.
      * by rewrite Hhi1.
    + rewrite bool_decide_eq_true_2 by lia. unfold raise_uncomplete. rewrite Hlo1, Hhi1. cbn [fmap list_fmap advance_head].
      rewrite c_assert_true, bind_Ok by done. eexists _, _, _. split; [done|]. split; [|done].
      split; [done|]. split; [tauto|]. exists (done ++ h1), [x], h2, k'. split; try done.
      * by rewrite Hsz1, Hlo1.
Qed.

Lemma stream_after_from order s s1 o o1 why a s' o' :
  stream_after order s1 o1 why a s' o' → s_fd s1 = s_fd s → (benign (answers o) → benign (answers o1)) →
  stream_after order s o why a s' o'.
Proof.
  intros (H1 & H2 & H3) E Hb. split; [congruence|]. split; [tauto|]. destruct a as [[t m]|]; [|done].
  destruct H3 as (-> & d & r & k & Hc & Hr). split; [done|]. exists d, r, k. split; [done|]. tauto.
Qed.
Lemma stream_after_open order s o why s' o' done hs ls k :
  open_stream order s' o' done hs ls k → s_fd s' = s_fd s → (benign (answers o) → benign (answers o')) →
  stream_after order s o why None s' o'.
Proof. intros H E Hb. split; [done|]. split; [done|]. by exists done, hs, ls, k. Qed.
Lemma open_stream_added order s o o' done hs ls k f :
  open_stream order s o done hs ls k → added o o' (s_fd s) [] f → open_stream order s o' done hs ls k.
Proof.
  intros [? ? ? ? Hw ? ? ?] Ha. split; try done. by rewrite (added_written _ _ _ _ _ _ Ha Hw), app_nil_r.
Qed.

Lemma send_buffer_spec order s o done hs ls k (why : Prop) :
  open_stream order s o done hs ls k →
  ∃ a s' o', send_buffer s o = Ok (a, s', o') ∧ stream_after order s o why a s' o' ∧ (a = None → kept s s').
Proof.
  intros H. unfold send_buffer. pose proof H as [_ _ Hls _ _ _ Hlo _]. rewrite Hlo, (low_complete ls Hls). cbn [negb].
  rewrite c_assert_true, bind_Ok by done.
  destruct (send_high_spec order s o done hs ls k why H) as ([[t m]|] & s1 & o1 & -> & Ha & Hn); rewrite bind_Ok; cbv beta iota.
  { eexists _, _, _. split; [done|]. by split. }
  destruct (Hn eq_refl) as (Hk1 & _ & h1 & h2 & k' & -> & H1). pose proof H1 as [[_ Ht1] Hord1 _ Hk' Hw1 Hhi1 Hlo1 _].
  destruct Ha as (Efd & Hb & _). destruct h2 as [|x h2]; cycle 1.
  { rewrite Hhi1. cbn [fmap list_fmap advance_head]. eexists _, _, _. split; [done|]. split; [|done].
    by eapply stream_after_open. }
  rewrite Hhi1, Hlo1. cbn [fmap list_fmap advance_head]. assert (k' = 0%nat) as -> by (destruct Hk' as [?|Hk']; [done|cbn in Hk'; lia]).
  destruct ls as [|y ls]; cbn [fmap list_fmap].
  - set (o2 := emit o1 _). assert (open_stream order s1 o2 (done ++ h1) [] [] 0) as H2
      by (eapply open_stream_added; [exact H1|by apply added_quiet]).
    case_decide as Hhc.
    + destruct (open_types _ Ht1) as [Hi Hr]. destruct (force_close_spec s1 o2 Hi Hr) as (m & o3 & E3 & _).
      rewrite E3, bind_Ok. cbv beta iota. eexists _, _, _. split; [done|]. split; [|done].
      apply (stream_after_from order s s1 o o1); [|done|done].
      apply (closing_open s1 o2 order _ _ _ _ _ _ _ why o1 H2 E3); done.
    + eexists _, _, _. split; [done|]. split; [|done]. by eapply stream_after_open.
  - destruct (low_phase_spec order s1 o1 (done ++ h1) (y :: ls) why H1) as (a & s2 & o2 & E2 & Ha2 & Hk2).
    unfold low_phase in E2. rewrite E2. eexists _, _, _. split; [done|]. split; [by eapply stream_after_from|].
    intros Ea. specialize (Hk2 Ea). unfold kept in *. rewrite Hk2, Hk1. by destruct s.
Qed.

(** ** Sending *)

(** The order keeps the packets of each priority in the order they were sent. *)
Definition fair (sends order : list item) : Prop :=
  filter (λ it, it.1 ≠ PRIORITY_LOW) order = filter (λ it, it.1 ≠ PRIORITY_LOW) sends ∧
  filter (λ it, it.1 = PRIORITY_LOW) order = filter (λ it, it.1 = PRIORITY_LOW) sends.

Lemma fair_snoc sends order it : fair sends order → fair (sends ++ [it]) (order ++ [it]).
Proof. intros [H1 H2]. split; rewrite !filter_app, ?H1, ?H2; done. Qed.
Lemma fair_insert sends order ls it :
  fair sends (order ++ ls) → it.1 ≠ PRIORITY_LOW → Forall low_plain ls → fair (sends ++ [it]) ((order ++ [it]) ++ ls).
Proof.
  intros [H1 H2] Hp Hls. rewrite filter_app in H1, H2.
  assert (filter (λ it : item, it.1 ≠ PRIORITY_LOW) ls = []) as E.
  { apply filter_none. eapply Forall_impl; [exact Hls|]. intros i [? _]. tauto. }
  rewrite E, app_nil_r in H1. split; rewrite !filter_app, !filter_cons, !filter_nil.
  - rewrite decide_True, E, app_nil_r, H1 by done. done.
  - rewrite decide_False, !app_nil_r, H2 by done. done.
Qed.

Lemma ask_benign o : benign (answers o) → benign (answers (ask o).2) ∧
  (0 ≤ a_ret (ask o).1 ∨ a_errno (ask o).1 = EINTR ∨ a_errno (ask o).1 = EAGAIN).
Proof.
  unfold ask. destruct (answers o) as [|a l] eqn:E; [|by intros [? ?]%Forall_cons].
  intros _. cbn. rewrite E. split; [constructor|by right; right].
Qed.
Lemma ask_calls o : calls (ask o).2 = calls o.
Proof. unfold ask. by destruct (answers o). Qed.

Lemma unsent_snoc s w : zlen (unsent (s ++ [w])) = zlen (unsent s) + zlen (wb_data w).
Proof. unfold unsent. rewrite fmap_app, concat_app, zlen_app. cbn. by rewrite app_nil_r. Qed.
Lemma unsent_app l k : unsent (l ++ k) = unsent l ++ unsent k.
Proof. unfold unsent. by rewrite fmap_app, concat_app. Qed.

(** A packet for a socket with nothing to write goes out at once; what is left of it
    waits in the high list, whatever its priority. *)
Definition send_direct (s : socket) (x : sobject) (o : os) : result (answered * socket * os) :=
  let '(a, o) := ask o in
  if decide (a_ret a < 0 ∧ a_errno a ≠ EINTR ∧ a_errno a ≠ EAGAIN) then
    let o := emit o (SysLog (lit "socket-server: write error")) in
    r ← force_close s o;
    let '(m, s, o) := r in
    Ok (Some (SOCKET_CLOSE, m), s, free_object o (so_user x) (so_handle x))
  else
    let n := if decide (a_ret a < 0) then 0 else Z.min (a_ret a) (zlen (so_bytes x)) in
    let o := if decide (a_ret a < 0) then o else emit o (SysWrite (s_fd s) (take (Z.to_nat n) (so_bytes x))) in
    if decide (n = zlen (so_bytes x)) then Ok (None, s, free_object o (so_user x) (so_handle x))
    else Ok (None, append_high s (new_write_buffer x n []), emit o (SysPollWrite (s_fd s) true)).

Lemma send_direct_spec done s o p x (why : Prop) :
  open_stream done s o done [] [] 0 →
  ∃ a s' o', send_direct s x o = Ok (a, s', o') ∧ stream_after (done ++ [(p, x)]) s o why a s' o' ∧ (a = None → kept s s').
Proof.
  intros H. pose proof H as [[Htcp Ht] _ _ _ Hw Hhi Hlo Hsz]. unfold send_direct.
  pose proof (ask_benign o) as Hb. pose proof (ask_calls o) as Ec. destruct (ask o) as [a o1]. cbn [fst snd] in *.
  assert (∀ w f o2, added o1 o2 (s_fd s) w f → added o o2 (s_fd s) w f) as Hadd.
  { intros w f o2 Ha. change (added o o2 (s_fd s) ([] ++ w) ([] ++ f)). eapply added_trans; [by apply added_refl|done]. }
  cbn [fmap list_fmap advance_head] in Hhi, Hlo. destruct (decide (a_ret a < 0 ∧ _)) as [Hbad|Hgood].
  { set (o2 := emit o1 _). destruct (open_types _ Ht) as [Hi Hr].
    destruct (force_close_spec s o2 Hi Hr) as (m & o3 & E3 & Ea3 & Hadd3). rewrite E3, bind_Ok. cbv beta iota zeta.
    eexists _, _, _. split; [done|]. split; [|done].
    assert (added o (free_object o3 (so_user x) (so_handle x)) (s_fd s) [] [item_handle (p, x)]) as Hall.
    { apply Hadd. change (@nil Z) with ([] ++ [] ++ @nil Z). rewrite Hhi, Hlo in Hadd3.
      eapply (added_trans _ o2 _ _ [] []); [by apply added_quiet|]. eapply (added_trans _ o3 _ _ [] []); [apply Hadd3|apply added_free]. }
    split; [done|]. split; [intros Hb0; exfalso; specialize (Hb Hb0); naive_solver lia|]. split; [done|].
    exists done, [(p, x)], 0%nat. split; [|intros Hb0; exfalso; specialize (Hb Hb0); naive_solver lia].
    split; try done.
    - by left.
    - cbn [s_fd set_type set_lists]. by rewrite (added_written _ _ _ _ _ _ Hall Hw), !take_0, !app_nil_r. }
  cbv zeta. set (n := if decide (a_ret a < 0) then 0 else _). set (o2 := if decide (a_ret a < 0) then o1 else _).
  assert (0 ≤ n ≤ zlen (so_bytes x)) as Hn by (pose proof (zlen_nonneg (so_bytes x)); unfold n; case_decide; lia).
  assert (added o o2 (s_fd s) (take (Z.to_nat n) (so_bytes x)) []) as Hadd2.
  { apply Hadd. unfold o2, n. case_decide; [by apply added_refl|].
    match goal with |- added _ (emit _ ?c) _ _ _ => pose proof (added_emit o1 (s_fd s) c) as Hx end.
    cbn [written_by freed_by] in Hx. by rewrite decide_True in Hx. }
  assert (benign (answers o) → benign (answers o2)) as Hb2.
  { intros [Hb0 _]%Hb. unfold o2. by case_decide. }
  destruct (decide (n = zlen (so_bytes x))) as [En|En].
  - eexists _, s, _. split; [done|]. split; [|by intros _; destruct s].
    assert (added o (free_object o2 (so_user x) (so_handle x)) (s_fd s) (so_bytes x) [item_handle (p, x)]) as Hall.
    { rewrite take_ge in Hadd2 by (unfold zlen in *; lia). rewrite <- (app_nil_r (so_bytes x)).
      eapply (added_trans _ _ _ _ _ []); [exact Hadd2|apply added_free]. }
    apply (stream_after_open _ _ _ _ _ _ (done ++ [(p, x)]) [] [] 0); [|done|].
    + split; try done.
      * by rewrite app_nil_r.
      * by left.
      * rewrite (added_written _ _ _ _ _ _ Hall Hw), !take_0, fmap_app, concat_app. cbn. by rewrite !app_nil_r.
    + intros Hb0. unfold free_object. destruct (so_user x); by apply Hb2.
  - eexists _, _, _. split; [done|]. split; [|by intros _; destruct s].
    assert (added o (emit o2 (SysPollWrite (s_fd s) true)) (s_fd s) (take (Z.to_nat n) (so_bytes x)) []) as Hall.
    { rewrite <- (app_nil_r (take _ _)). change (@nil (bool * Z)) with ([] ++ @nil (bool * Z)).
      eapply added_trans; [exact Hadd2|by apply added_quiet]. }
    apply (stream_after_open _ _ _ _ _ _ done [(p, x)] [] (Z.to_nat n)); [|done|done].
    split; cbn [append_high set_lists s_high s_low s_fd s_wb_size s_type s_protocol]; try done.
    + right. cbn. unfold item_bytes, zlen in *. cbn. lia.
    + by rewrite (added_written _ _ _ _ _ _ Hall Hw), take_0, app_nil_r.
    + rewrite Hhi. cbn. unfold whole. by rewrite advance_new, Z2Nat.id by lia.
    + by rewrite Hlo, app_nil_r, unsent_snoc, Hsz, Hhi, Hlo.
Qed.

Lemma advance_head_snoc k l w : (k = 0%nat ∨ l ≠ []) → advance_head k (l ++ [w]) = advance_head k l ++ [w].
Proof. destruct l; [|done]. intros [->|]; [|done]. cbn. by rewrite advance_0. Qed.

(** A packet for an open socket, whichever way it takes. *)
Lemma send_spec sends order s o done hs ls k p x (why : Prop) :
  open_stream order s o done hs ls k → fair sends order → s_type s = SOCKET_TYPE_CONNECTED →
  (p = PRIORITY_LOW → so_user x = false) →
  ∃ a s' o' order', send_socket_on s (s_id s) x p None o = Ok (a, s', o') ∧ fair (sends ++ [(p, x)]) order' ∧
    stream_after order' s o why a s' o' ∧ (a = None → kept s s').
Proof.
  intros H Hfair Ht Hlow. pose proof H as [[Htcp _] Hord Hls Hk Hw Hhi Hlo Hsz].
  unfold send_socket_on. rewrite Ht. rewrite decide_False, decide_False by
    (unfold SOCKET_TYPE_CONNECTED, SOCKET_TYPE_INVALID, SOCKET_TYPE_HALFCLOSE, SOCKET_TYPE_PACCEPT, SOCKET_TYPE_PLISTEN, SOCKET_TYPE_LISTEN; naive_solver).
  rewrite !(decide_True (P := s_protocol s = PROTOCOL_TCP)) by done. case_decide as Hemp.
  - destruct Hemp as [Hemp _]. unfold send_buffer_empty in Hemp. apply bool_decide_eq_true in Hemp as [H1 H2].
    rewrite Hhi in H1. rewrite Hlo, length_fmap in H2. destruct hs as [|h hs]; [|done]. destruct ls as [|y ls]; [|done].
    assert (order = done) as -> by (rewrite Hord; apply app_nil_r). assert (k = 0%nat) as -> by (destruct Hk as [?|Hk]; [done|cbn in Hk; lia]).
    destruct (send_direct_spec done s o p x why) as (a & s' & o' & E & Ha & Hkp); [done|].
    unfold send_direct in E. exists a, s', o', (done ++ [(p, x)]). split; [done|]. split; [by apply fair_snoc|]. done.
  - destruct (decide (p = PRIORITY_LOW)) as [Hp|Hp].
    + eexists _, _, o, (order ++ [(p, x)]). split; [done|]. split; [by apply fair_snoc|]. split; [|by intros _; destruct s].
      apply (stream_after_open _ _ _ _ _ _ done hs (ls ++ [(p, x)]) k); [|done|done].
      split; cbn [append_low set_lists s_high s_low s_fd s_wb_size s_type s_protocol]; try done.
      * by split; [|left].
      * by rewrite Hord, <- !app_assoc.
      * apply Forall_app. split; [done|]. constructor; [|done]. split; [done|]. by apply Hlow.
      * by rewrite Hlo, fmap_app.
      * by rewrite app_assoc, unsent_snoc, Hsz.
    + eexists _, _, o, ((done ++ hs ++ [(p, x)]) ++ ls). split; [done|]. split; [|split; [|by intros _; destruct s]].
      { rewrite (app_assoc done hs [_]). apply fair_insert; [by rewrite <- app_assoc, <- Hord|done|done]. }
      assert (k = 0%nat ∨ hs ≠ []) as Hkh by (destruct hs; [left; destruct Hk as [?|Hk]; [done|cbn in Hk; lia]|by right]).
      apply (stream_after_open _ _ _ _ _ _ done (hs ++ [(p, x)]) ls k); [|done|done].
      assert (k = 0%nat ∨ head_bytes (hs ++ [(p, x)]) = head_bytes hs) as Hhd by (destruct Hkh as [?|?]; [by left|right; by destruct hs]).
      split; cbn [append_high set_lists s_high s_low s_fd s_wb_size s_type s_protocol]; try done.
      * by split; [|left].
      * by rewrite <- !app_assoc.
      * destruct Hhd as [->| ->]; [by left|done].
      * rewrite Hw. destruct Hhd as [->| ->]; [by rewrite !take_0|done].
      * rewrite Hhi, fmap_app. cbn [fmap list_fmap]. rewrite advance_head_snoc; [done|].
        destruct Hkh as [?|Hne]; [by left|right]. by destruct hs.
      * rewrite Hsz, !unsent_app, !zlen_app. unfold unsent at 4. cbn. rewrite app_nil_r. lia.
Qed.

Lemma close_spec order s o done hs ls k shutdown opaque :
  open_stream order s o done hs ls k →
  ∃ a s' o', close_socket_on s (s_id s) shutdown opaque o = Ok (a, s', o') ∧ stream_after order s o (shutdown ≠ 0) a s' o'.
Proof.
  intros H. unfold close_socket_on. destruct (open_types _ (proj2 (os_type _ _ _ _ _ _ _ H))) as [Hni _].
  rewrite decide_False by tauto.
  assert (∃ a s1 o1, (if send_buffer_empty s then Ok (None, s, o) else send_buffer s o) = Ok (a, s1, o1) ∧
    stream_after order s o (shutdown ≠ 0) a s1 o1 ∧ (a = None → kept s s1)) as (a & s1 & o1 & -> & Ha & Hkp).
  { destruct (send_buffer_empty s) eqn:Ee.
    - exists None, s, o. split; [done|]. split; [by eapply stream_after_open|]. intros _. by destruct s.
    - by apply (send_buffer_spec order s o done hs ls k). }
  rewrite bind_Ok. cbv beta iota. destruct a as [[t m]|]; [by eexists _, _, _|]. specialize (Hkp eq_refl).
  destruct Ha as (Efd & Hb & d & h & l & j & H1). pose proof H1 as [[Htcp1 Ht1] Hord1 Hls1 Hk1 Hw1 Hhi1 Hlo1 Hsz1].
  destruct (decide (shutdown ≠ 0 ∨ send_buffer_empty s1 = true)) as [Hcl|Hcl].
  - destruct (open_types _ Ht1) as [Hi Hr]. destruct (force_close_spec s1 o1 Hi Hr) as (m & o2 & E2 & _). rewrite E2, bind_Ok. cbv beta iota.
    eexists _, _, _. split; [done|].
    destruct (closing_open s1 o1 order d h l j m _ o2 (shutdown ≠ 0) o1 H1 E2) as (E3 & Hb3 & H3); [done| |].
    { intros _ Hns. destruct Hcl as [?|Hemp]; [done|]. unfold send_buffer_empty in Hemp. apply bool_decide_eq_true in Hemp as [He1 He2].
      rewrite Hhi1 in He1. rewrite Hlo1, length_fmap in He2. by destruct h, l. }
    apply (stream_after_from order s s1 o o1); [|done|done]. split; [done|]. by split.
  - eexists _, _, _. split; [done|]. apply (stream_after_open _ _ _ _ _ _ d h l j); [|done|done].
    split; try done. split; [done|by right].
Qed.

(** A read of the connection: it changes the size of the next read, or closes the
    connection when the peer has closed it or the read failed. *)
Lemma read_spec strerror order s o done hs ls k a s' o' :
  open_stream order s o done hs ls k → forward_message_tcp strerror s o = Ok (a, s', o') →
  s_fd s' = s_fd s ∧ (benign (answers o) → benign (answers o')) ∧
  ((∃ done' hs' ls' k', open_stream order s' o' done' hs' ls' k') ∨
   (s_type s' = SOCKET_TYPE_INVALID ∧ ∃ done' rest k', closed_stream order s' o' done' rest k')).
Proof.
  intros H E. unfold forward_message_tcp in E. destruct (s_p s) as [sz|]; [|done].
  pose proof (ask_benign o) as Hb. pose proof (ask_calls o) as Ec. destruct (ask o) as [x o1]. cbn [fst snd] in *.
  assert (open_stream order s o1 done hs ls k) as H1 by (eapply open_stream_added; [exact H|by apply added_refl]).
  assert (∀ m s2 o2, force_close s o1 = Ok (m, s2, o2) → s_fd s2 = s_fd s ∧ (benign (answers o) → benign (answers o2)) ∧
    s_type s2 = SOCKET_TYPE_INVALID ∧ ∃ done' rest k', closed_stream order s2 o2 done' rest k') as Hclose.
  { intros m s2 o2 E2. destruct (closing_open s o1 order done hs ls k m s2 o2 True o1 H1 E2) as (Hfd & Hb2 & _ & d & r & j & Hc & _); [done|tauto|].
    split; [done|]. split; [tauto|]. split; [apply Hc|]. by exists d, r, j. }
  cbv zeta in E. destruct (decide (a_ret x < 0)).
  - destruct (decide (a_errno x = EINTR)); [injection E as <- <- <-; split; [done|]; split; [tauto|]; left; by eexists _, _, _, _|].
    destruct (decide (a_errno x = EAGAIN)).
    + injection E as <- <- <-. split; [done|]. split; [tauto|]. left. eexists _, _, _, _. eapply open_stream_added; [exact H1|by apply added_quiet].
    + apply bind_Ok_inv in E as ([[m s2] o2] & E2 & E). injection E as <- <- <-. destruct (Hclose m s2 o2 E2) as (? & ? & ? & ?). auto.
  - destruct (decide (zlen _ = 0)).
    { apply bind_Ok_inv in E as ([[m s2] o2] & E2 & E). injection E as <- <- <-. destruct (Hclose m s2 o2 E2) as (? & ? & ? & ?). auto. }
    destruct (decide (s_type s = SOCKET_TYPE_HALFCLOSE)); [injection E as <- <- <-; split; [done|]; split; [tauto|]; left; by eexists _, _, _, _|].
    apply bind_Ok_inv in E as (size & _ & E). injection E as <- <- <-. split; [done|]. split; [tauto|]. left. exists done, hs, ls, k.
    destruct H1. by split.
Qed.

(** *** Everything that can happen to a connection *)

(** In a graceful run the connection is closed without shutdown, and it is not a read
    that ends it: the peer does not close first and no read fails. *)
Section Stream.
Context (strerror : Z → cstring) (graceful : bool) (s0 : socket) (o0 : os).

Inductive sock_reach : list item → socket → os → Prop :=
| reach_start : sock_reach [] s0 o0
| reach_send sends s o p x a s' o' :
    sock_reach sends s o → s_type s = SOCKET_TYPE_CONNECTED → (p = PRIORITY_LOW → so_user x = false) →
    send_socket_on s (s_id s) x p None o = Ok (a, s', o') → sock_reach (sends ++ [(p, x)]) s' o'
| reach_refused sends s o id p x a s' o' :
    sock_reach sends s o → s_type s ≠ SOCKET_TYPE_CONNECTED ∨ s_id s ≠ id →
    send_socket_on s id x p None o = Ok (a, s', o') → sock_reach sends s' o'
| reach_writable sends s o a s' o' :
    sock_reach sends s o → s_type s = SOCKET_TYPE_CONNECTED ∨ s_type s = SOCKET_TYPE_HALFCLOSE →
    send_buffer s o = Ok (a, s', o') → sock_reach sends s' o'
| reach_readable sends s o a s' o' :
    sock_reach sends s o → s_type s = SOCKET_TYPE_CONNECTED ∨ s_type s = SOCKET_TYPE_HALFCLOSE →
    forward_message_tcp strerror s o = Ok (a, s', o') → (graceful = true → s_type s' ≠ SOCKET_TYPE_INVALID) →
    sock_reach sends s' o'
| reach_close sends s o shutdown opaque a s' o' :
    sock_reach sends s o → (graceful = true → shutdown = 0) →
    close_socket_on s (s_id s) shutdown opaque o = Ok (a, s', o') → sock_reach sends s' o'
| reach_transfer sends s o opaque a s' o' :
    sock_reach sends s o → start_socket_on strerror s (s_id s) opaque o = Ok (a, s', o') → sock_reach sends s' o'
| reach_elsewhere sends s o o' :
    sock_reach sends s o → written (s_fd s) (calls o') = written (s_fd s) (calls o) → answers o' `suffix_of` answers o →
    sock_reach sends s o'.

(** A connection as it starts. *)
Definition connected : Prop :=
  s_protocol s0 = PROTOCOL_TCP ∧ s_type s0 = SOCKET_TYPE_CONNECTED ∧ s_high s0 = [] ∧ s_low s0 = [] ∧ s_wb_size s0 = 0 ∧
  written (s_fd s0) (calls o0) = [].

Inductive stream_state (sends : list item) (s : socket) (o : os) : Prop :=
| stream_is_open order done hs ls k :
    open_stream order s o done hs ls k → fair sends order → stream_state sends s o
| stream_is_closed order done rest k :
    closed_stream order s o done rest k → fair sends order →
    (graceful = true → benign (answers o0) → rest = []) → stream_state sends s o.
Definition stream_inv (sends : list item) (s : socket) (o : os) : Prop :=
  stream_state sends s o ∧ s_fd s = s_fd s0 ∧ (benign (answers o0) → benign (answers o)).

Lemma stream_inv_after sends order s o (why : Prop) a s' o' :
  fair sends order → stream_after order s o why a s' o' → s_fd s = s_fd s0 → (benign (answers o0) → benign (answers o)) →
  (graceful = true → ¬ why) → stream_inv sends s' o'.
Proof.
  intros Hf (Efd & Hb' & Ha) E0 Hb Hg. split; [|split; [congruence|tauto]]. destruct a as [[t m]|].
  - destruct Ha as (_ & d & r & k & Hc & Hr). eapply stream_is_closed; [exact Hc|done|]. intros ? ?. apply Hr; tauto.
  - destruct Ha as (d & h & l & k & Ho). by eapply stream_is_open.
Qed.
(** Other calls, and changes of the socket that its stream does not depend on. *)
Lemma stream_inv_same sends s o o' :
  stream_inv sends s o → written (s_fd s) (calls o') = written (s_fd s) (calls o) → answers o' `suffix_of` answers o → stream_inv sends s o'.
Proof.
  intros (Hs & Efd & Hb) Ew [l El]. split; [|split; [done|]].
  - destruct Hs as [order d h l' k [] Hf|order d r k [] Hf Hr]; [eapply stream_is_open|eapply stream_is_closed]; try done; split; try done; by rewrite Ew.
  - intros H0%Hb. unfold benign in *. rewrite El in H0. by apply Forall_app in H0 as [_ ?].
Qed.
Lemma stream_inv_opaque sends s o x : stream_inv sends s o → stream_inv sends (set_opaque s x) o.
Proof.
  intros (Hs & Efd & Hb). split; [|done]. destruct Hs as [order d h l k [] Hf|order d r k [] Hf Hr]; [eapply stream_is_open|eapply stream_is_closed];
    try done; by split.
Qed.

(** The socket is one of the open types, or closed. *)
Lemma stream_cases sends s o :
  stream_inv sends s o →
  (s_type s = SOCKET_TYPE_INVALID) ∨
  ((s_type s = SOCKET_TYPE_CONNECTED ∨ s_type s = SOCKET_TYPE_HALFCLOSE) ∧
   ∃ order done hs ls k, open_stream order s o done hs ls k ∧ fair sends order).
Proof.
  intros [[order d h l k Ho Hf|order d r k [Hc _ _ _ _] _ _] _]; [right|by left]. split; [apply Ho|by exists order, d, h, l, k].
Qed.
Lemma stream_open sends s o :
  stream_inv sends s o → s_type s = SOCKET_TYPE_CONNECTED ∨ s_type s = SOCKET_TYPE_HALFCLOSE →
  ∃ order done hs ls k, open_stream order s o done hs ls k ∧ fair sends order.
Proof. intros H Ht. destruct (stream_cases _ _ _ H) as [E|[_ ?]]; [|done]. by apply open_types in Ht as [? _]. Qed.

Lemma reach_inv sends s o : connected → sock_reach sends s o → stream_inv sends s o.
Proof.
  intros (H1 & H2 & H3 & H4 & H5 & H6).
  induction 1 as [|sends s o p x a s' o' _ I Ht Hp E|sends s o id p x a s' o' _ I Hno E|sends s o a s' o' _ I Ht E|
    sends s o a s' o' _ I Ht E Hg|sends s o shutdown opaque a s' o' _ I Hg E|sends s o opaque a s' o' _ I E|sends s o o' _ I Ew Es].
  - split; [|done]. apply (stream_is_open _ _ _ [] [] [] [] 0); [|done]. split; try done; try (by left).
    + split; [done|by left].
    + by rewrite H3, H4, H5.
  - destruct (stream_open _ _ _ I (or_introl Ht)) as (order & d & h & l & k & Ho & Hf). destruct I as (_ & Efd & Hb).
    destruct (send_spec sends order s o d h l k p x False Ho Hf Ht Hp) as (a1 & s1 & o1 & ord1 & E1 & Hf1 & Ha1 & _).
    rewrite E in E1. injection E1 as <- <- <-. eapply stream_inv_after; [exact Hf1|exact Ha1|done|done|tauto].
  - unfold send_socket_on in E. rewrite decide_True in E.
    + injection E as <- <- <-. apply (stream_inv_same _ _ _ _ I); [|by destruct (so_user x)].
      first [done|by rewrite (added_written _ _ _ _ _ _ (added_free o (s_fd s) _ _) eq_refl), app_nil_r].
    + destruct (stream_cases _ _ _ I) as [?|[[?|?] _]]; tauto.
  - destruct (stream_open _ _ _ I Ht) as (order & d & h & l & k & Ho & Hf). destruct I as (_ & Efd & Hb).
    destruct (send_buffer_spec order s o d h l k False Ho) as (a1 & s1 & o1 & E1 & Ha1 & _).
    rewrite E in E1. injection E1 as <- <- <-. eapply stream_inv_after; [exact Hf|exact Ha1|done|done|tauto].
  - destruct (stream_open _ _ _ I Ht) as (order & d & h & l & k & Ho & Hf). destruct I as (_ & Efd & Hb).
    destruct (read_spec strerror order s o d h l k a s' o' Ho E) as (Efd' & Hb' & Hs). split; [|split; [congruence|tauto]].
    destruct Hs as [(d' & h' & l' & k' & Ho')|(Ei & d' & r & k' & Hc)]; [by eapply stream_is_open|].
    eapply stream_is_closed; [exact Hc|done|]. intros Hgr. by destruct (Hg Hgr).
  - destruct (stream_cases _ _ _ I) as [Ei|(Ht & order & d & h & l & k & Ho & Hf)].
    + unfold close_socket_on in E. rewrite decide_True in E by (by left). by injection E as <- <- <-.
    + destruct I as (_ & Efd & Hb). destruct (close_spec order s o d h l k shutdown opaque Ho) as (a1 & s1 & o1 & E1 & Ha1).
      rewrite E in E1. injection E1 as <- <- <-. eapply stream_inv_after; [exact Hf|exact Ha1|done|done|tauto].
  - unfold start_socket_on in E. case_decide; [by injection E as <- <- <-|].
    destruct (stream_cases _ _ _ I) as [?|[Ht _]]; [tauto|]. rewrite decide_False in E.
    + case_decide; injection E as <- <- <-; [by apply stream_inv_opaque|done].
    + unfold SOCKET_TYPE_PACCEPT, SOCKET_TYPE_PLISTEN, SOCKET_TYPE_CONNECTED, SOCKET_TYPE_HALFCLOSE in *. lia.
  - by eapply stream_inv_same.
Qed.
End Stream.

(** C5: packets leave a connection whole and in order. Whatever packets of high and low
    priority are sent on a connection, whenever the socket becomes writable or readable
    and however much each write takes, when the connection is handed to another service,
    closed by it, closed by the peer, and when writing or reading fails: the bytes the
    descriptor accepted are the packets one after the other, none mixed with another, up
    to a part of one packet, in an order that keeps that of each priority. While the
    connection is open, these bytes and those that wait in its lists are all the packets,
    the count of waiting bytes is right, and no operation fails. *)
Theorem packets_leave_whole_and_in_order strerror s0 o0 sends s o :
  connected s0 o0 → sock_reach strerror false s0 o0 sends s o →
  ∃ order done rest k,
    fair sends order ∧ order = done ++ rest ∧ (k = 0 ∨ k < length (head_bytes rest))%nat ∧
    written (s_fd s0) (calls o) = concat (item_bytes <$> done) ++ take k (head_bytes rest) ∧
    (s_type s ≠ SOCKET_TYPE_INVALID →
       written (s_fd s0) (calls o) ++ unsent (s_high s ++ s_low s) = concat (item_bytes <$> order) ∧
       s_wb_size s = zlen (unsent (s_high s ++ s_low s)) ∧
       is_Ok (send_buffer s o) ∧
       (∀ shutdown opaque, is_Ok (close_socket_on s (s_id s) shutdown opaque o)) ∧
       (s_type s = SOCKET_TYPE_CONNECTED → ∀ p b l, is_Ok (send_socket_on s (s_id s) (Plain b l) p None o))).
Proof.
  intros Hc Hr. destruct (reach_inv _ _ _ _ _ _ _ Hc Hr) as ([order d h l k Ho Hf|order d r k Hcl Hf _] & Efd & _); rewrite <- Efd.
  - pose proof Ho as [[_ Ht] Hord Hls Hk Hw Hhi Hlo Hsz].
    assert (k = 0%nat ∨ head_bytes (h ++ l) = head_bytes h) as Hhd.
    { destruct h; [left|by right]. destruct Hk as [?|Hk]; [done|cbn in Hk; lia]. }
    exists order, d, (h ++ l), k. split; [done|]. split; [done|].
    split; [destruct Hhd as [->| ->]; [by left|done]|]. split; [rewrite Hw; destruct Hhd as [->| ->]; [by rewrite !take_0|done]|].
    intros _. split; [|split; [done|split; [|split]]].
    + rewrite Hw, unsent_app, Hhi, Hlo, advance_unsent, Hord, !fmap_app, !concat_app. unfold unsent. rewrite whole_datas.
      destruct h as [|x h]; cbn [fmap list_fmap head_bytes head_data tail concat app].
      * by rewrite take_nil, drop_nil, app_nil_r.
      * rewrite whole_datas, whole_data, <- !app_assoc. do 1 f_equal. by rewrite app_assoc, take_drop.
    + destruct (send_buffer_spec order s o d h l k False Ho) as (? & ? & ? & -> & _). by eexists.
    + intros sh op. destruct (close_spec order s o d h l k sh op Ho) as (? & ? & ? & -> & _). by eexists.
    + intros Htc p b bs. destruct (send_spec sends order s o d h l k p (Plain b bs) False Ho Hf Htc) as (? & ? & ? & ? & -> & _); [done|].
      by eexists.
  - destruct Hcl as [Ht Hord Hk Hw _]. exists order, d, r, k. by rewrite Ht.
Qed.

(** C8: a graceful close delivers everything. When a connection is closed without
    shutdown, no write fails for good, and the peer does not close first nor a read fail
    (either closes the connection at once, with what waits in its lists), then once it is
    closed every packet that was sent before has been written completely. *)
Theorem graceful_close_delivers strerror s0 o0 sends s o :
  connected s0 o0 → benign (answers o0) → sock_reach strerror true s0 o0 sends s o → s_type s = SOCKET_TYPE_INVALID →
  ∃ order, fair sends order ∧ written (s_fd s0) (calls o) = concat (item_bytes <$> order).
Proof.
  intros Hc Hb Hr Ht. destruct (reach_inv _ _ _ _ _ _ _ Hc Hr) as ([order d h l k Ho Hf|order d r k Hcl Hf Hrest] & Efd & _); rewrite <- Efd.
  - pose proof (os_type _ _ _ _ _ _ _ Ho) as [_ Ht']. by apply open_types in Ht' as [? _].
  - destruct Hcl as [_ Hord Hk Hw _]. rewrite (Hrest eq_refl Hb), app_nil_r in Hord. subst d. exists order. split; [done|].
    rewrite Hw, (Hrest eq_refl Hb). cbn. by rewrite take_nil, app_nil_r.
Qed.

(** *** Witnesses *)

(** A connection on descriptor 9; the first write takes two bytes, then nothing, then all. *)
Definition example_socket : socket :=
  mk_socket 1 [] [] 0 9 5 PROTOCOL_TCP SOCKET_TYPE_CONNECTED (PSize MIN_READ_BUFFER).
Definition takes (n : Z) : answer := mk_answer n 0 [] None 0 [] [].
Definition example_os : os := mk_os [takes 2; no_answer; takes 100; takes 100; takes 100] [].

Lemma example_connected : connected example_socket example_os.
Proof. done. Qed.
(** A low packet, a low packet, a high packet, then the socket is writable twice. *)
Definition example_sends : list item := [(PRIORITY_LOW, Plain 100 [1; 2; 3]); (PRIORITY_LOW, Plain 200 [4; 5]); (PRIORITY_HIGH, Plain 300 [6])].
Definition no_texts (errno : Z) : cstring := [].
Lemma example_reach :
  ∃ s o, sock_reach no_texts false example_socket example_os example_sends s o ∧
    written 9 (calls o) = [1; 2; 3; 6; 4; 5] ∧ s_type s = SOCKET_TYPE_CONNECTED.
Proof.
  pose proof (reach_start no_texts false example_socket example_os) as H0.
  epose proof (reach_send _ _ _ _ _ _ _ PRIORITY_LOW (Plain 100 [1; 2; 3]) _ _ _ H0 eq_refl (λ _, eq_refl) ltac:(vm_compute; reflexivity)) as H1.
  epose proof (reach_send _ _ _ _ _ _ _ PRIORITY_LOW (Plain 200 [4; 5]) _ _ _ H1 eq_refl (λ _, eq_refl) ltac:(vm_compute; reflexivity)) as H2.
  epose proof (reach_send _ _ _ _ _ _ _ PRIORITY_HIGH (Plain 300 [6]) _ _ _ H2 eq_refl (λ _, eq_refl) ltac:(vm_compute; reflexivity)) as H3.
  epose proof (reach_writable _ _ _ _ _ _ _ _ _ _ H3 (or_introl eq_refl) ltac:(vm_compute; reflexivity)) as H4.
  epose proof (reach_writable _ _ _ _ _ _ _ _ _ _ H4 (or_introl eq_refl) ltac:(vm_compute; reflexivity)) as H5.
  eexists _, _. split; [exact H5|]. split; vm_compute; reflexivity.
Qed.
Lemma packets_leave_whole_and_in_order_witness :
  ∃ order done rest k, fair example_sends order ∧ order = done ++ rest ∧
    [1; 2; 3; 6; 4; 5] = concat (item_bytes <$> done) ++ take k (head_bytes rest) ∧
    ∃ waiting, [1; 2; 3; 6; 4; 5] ++ waiting = concat (item_bytes <$> order).
Proof.
  destruct example_reach as (s & o & Hr & Ew & Et).
  destruct (packets_leave_whole_and_in_order no_texts example_socket example_os _ s o example_connected Hr)
    as (order & d & r & k & Hf & Eo & _ & Hw & Hopen).
  change (s_fd example_socket) with 9 in Hw, Hopen. rewrite Ew in Hw, Hopen.
  exists order, d, r, k. split; [exact Hf|]. split; [exact Eo|]. split; [exact Hw|].
  destruct Hopen as [Hall _]; [rewrite Et; discriminate|]. by eexists.
Defined.
(** The packet waits when the connection is closed, a late one is refused, data of the
    peer is dropped, and the rest goes out. *)
Definition peer_answers : list answer := [takes 2; no_answer; mk_answer 3 0 [7; 7; 7] None 0 [] []; takes 100].
Lemma graceful_close_delivers_witness :
  ∃ s o order, sock_reach no_texts true example_socket (mk_os peer_answers []) [(PRIORITY_HIGH, Plain 100 [1; 2; 3])] s o ∧
    fair [(PRIORITY_HIGH, Plain 100 [1; 2; 3])] order ∧ written 9 (calls o) = concat (item_bytes <$> order).
Proof.
  assert (∃ s o, sock_reach no_texts true example_socket (mk_os peer_answers []) [(PRIORITY_HIGH, Plain 100 [1; 2; 3])] s o ∧
    s_type s = SOCKET_TYPE_INVALID) as (s & o & Hr & Ht).
  { pose proof (reach_start no_texts true example_socket (mk_os peer_answers [])) as H0.
    epose proof (reach_send _ _ _ _ _ _ _ PRIORITY_HIGH (Plain 100 [1; 2; 3]) _ _ _ H0 eq_refl (λ _, eq_refl) ltac:(vm_compute; reflexivity)) as H1.
    epose proof (reach_close _ _ _ _ _ _ _ 0 1 _ _ _ H1 (λ _, eq_refl) ltac:(vm_compute; reflexivity)) as H2.
    epose proof (reach_refused _ _ _ _ _ _ _ 5 PRIORITY_LOW (Plain 200 [8]) _ _ _ H2 ltac:(left; vm_compute; discriminate) ltac:(vm_compute; reflexivity)) as H3.
    epose proof (reach_readable _ _ _ _ _ _ _ _ _ _ H3 (or_intror eq_refl) ltac:(vm_compute; reflexivity) ltac:(intros _; vm_compute; discriminate)) as H4.
    epose proof (reach_writable _ _ _ _ _ _ _ _ _ _ H4 (or_intror eq_refl) ltac:(vm_compute; reflexivity)) as H5.
    eexists _, _. split; [exact H5|]. vm_compute. reflexivity. }
  destruct (graceful_close_delivers no_texts example_socket (mk_os peer_answers [])
    [(PRIORITY_HIGH, Plain 100 [1; 2; 3])] s o) as (order & Hf & Ew).
  - done.
  - unfold benign. repeat constructor; cbn; lia.
  - exact Hr.
  - exact Ht.
  - exists s, o, order. split; [exact Hr|]. split; [exact Hf|exact Ew].
Defined.
