(* ===== verification/SocketSafe.v ===== *)
(** * The socket server never fails

    The invariant of the whole server: what its slots hold, that a reserved slot has its
    creating request in the pipe in front of every other request for its id, and that the
    events left refer to live sockets. It holds from the start on, for requests of other
    threads with ids they were given, whatever the operating system answers; so none of
    the assertions fails. *)
From Stdlib Require Import String.
From stdpp Require Import base numbers relations list gmap.
From S2P Require Import Prelude CString Socket.

(** ** Sockets *)

Definition live (s : socket) : Prop := s_type s ≠ SOCKET_TYPE_INVALID ∧ s_type s ≠ SOCKET_TYPE_RESERVE.
Definition untouched (w : write_buffer) : Prop := wb_ptr w = wb_buffer w.
Record sock_wf (s : socket) : Prop := {
  sw_dead : ¬ live s → s_high s = [] ∧ s_low s = [];
  sw_low : Forall untouched (s_low s);
  sw_p : live s → match s_p s with
                  | PSize sz => s_protocol s = PROTOCOL_TCP ∧ 0 < sz ≤ INT_MAX
                  | PAddress _ => s_protocol s ≠ PROTOCOL_TCP
                  end }.
(** A read returns less than 2^30 bytes. *)
Definition answer_ok (a : answer) : Prop := zlen (a_data a) < 2 ^ 30.

(** How a handler of a live socket ends: it is live, or it was closed and that is
    reported. *)
Definition handled (s : socket) (o : os) (a : answered) (s' : socket) (o' : os) : Prop :=
  sock_wf s' ∧ s_id s' = s_id s ∧ answers o' `suffix_of` answers o ∧
  (live s' ∨
   (s_type s' = SOCKET_TYPE_INVALID ∧ ∃ t m, a = Some (t, m) ∧ (t = SOCKET_CLOSE ∨ t = SOCKET_ERROR) ∧ m_id m = s_id s)).
Definition handles (s : socket) (o : os) (r : result (answered * socket * os)) : Prop :=
  ∃ a s' o', r = Ok (a, s', o') ∧ handled s o a s' o'.

Lemma sock_wf_fresh : sock_wf fresh_slot.
Proof. split; [done|constructor|]. intros [? _]. done. Qed.

Lemma ask_suffix o : answers (ask o).2 `suffix_of` answers o.
Proof. unfold ask. destruct (answers o) as [|a l] eqn:E; cbn; [by rewrite E|]. by exists [a]. Qed.
Lemma ask_ok o : Forall answer_ok (answers o) → answer_ok (ask o).1.
Proof. unfold ask. destruct (answers o); [done|]. by intros [? _]%Forall_cons. Qed.
Lemma suffix_ok o o' : answers o' `suffix_of` answers o → Forall answer_ok (answers o) → Forall answer_ok (answers o').
Proof. intros [l ->]. by intros [_ ?]%Forall_app. Qed.
Lemma free_object_answers o u x : answers (free_object o u x) = answers o.
Proof. by destruct u. Qed.
Lemma free_list_answers o l : answers (free_wb_list o l) = answers o.
Proof. revert o. induction l as [|w l IH]; intros o; [done|]. cbn. rewrite IH. apply free_object_answers. Qed.

Lemma force_close_live s o :
  sock_wf s → live s →
  ∃ m s' o', force_close s o = Ok (m, s', o') ∧ sock_wf s' ∧ s_id s' = s_id s ∧ s_type s' = SOCKET_TYPE_INVALID ∧
    m_id m = s_id s ∧ answers o' = answers o.
Proof.
  intros W [Hi Hr]. unfold force_close. rewrite decide_False, c_assert_true, bind_Ok by (done || by apply bool_decide_eq_true_2).
  cbv zeta. eexists _, _, _. split; [done|]. split; [split; [done|constructor|by intros [? _]]|]. split; [done|]. split; [done|]. split; [done|].
  repeat case_decide; cbn [emit answers]; by rewrite !free_list_answers.
Qed.
Lemma closed_handled s o m s' o' o1 t :
  sock_wf s' ∧ s_id s' = s_id s ∧ s_type s' = SOCKET_TYPE_INVALID ∧ m_id m = s_id s ∧ answers o' = answers o1 →
  answers o1 `suffix_of` answers o → t = SOCKET_CLOSE ∨ t = SOCKET_ERROR → handled s o (Some (t, m)) s' o'.
Proof.
  intros (W & Ei & Et & Em & Ea) Hs Ht. split; [done|]. split; [done|]. split; [by rewrite Ea|]. right. split; [done|].
  by exists t, m.
Qed.
Lemma live_handled s o a s' o' :
  sock_wf s' → s_id s' = s_id s → answers o' `suffix_of` answers o → live s' → handled s o a s' o'.
Proof. intros. split; [done|]. split; [done|]. split; [done|]. by left. Qed.

Lemma write_retry_suffix l sz : (write_retry l sz).2 `suffix_of` l.
Proof.
  induction l as [|a l IH]; cbn [write_retry]; [done|]. repeat case_decide; cbn [snd].
  - etrans; [exact IH|]. by exists [a].
  - by exists [a].
  - by exists [a].
Qed.
Lemma send_tcp_safe fd l n o :
  let '(_, l', _, o') := send_tcp fd l n o in
  answers o' `suffix_of` answers o ∧ (Forall untouched l → Forall untouched (tail l')).
Proof.
  revert n o. induction l as [|w l IH]; intros n o; cbn [send_tcp]; [done|].
  pose proof (write_retry_suffix (answers o) (zlen (wb_data w))) as Hs.
  destruct (write_retry (answers o) (zlen (wb_data w))) as [[k e] ans]. cbn [snd] in Hs. cbv zeta.
  destruct (decide (k < 0)); [split; [done|]; by intros [_ ?]%Forall_cons|].
  destruct (decide (k ≠ zlen (wb_data w))); [split; [done|]; by intros [_ ?]%Forall_cons|].
  specialize (IH (n - k) (write_buffer_free (emit (mk_os ans (calls o)) (SysWrite fd (take (Z.to_nat k) (wb_data w)))) w)).
  destruct (send_tcp fd l (n - k) _) as [[[f l'] n'] o']. destruct IH as [H1 H2]. split.
  - etrans; [exact H1|]. unfold write_buffer_free. rewrite free_object_answers. done.
  - intros [_ ?]%Forall_cons. by apply H2.
Qed.
Lemma send_udp_safe s l n o :
  let '(l', _, o') := send_udp s l n o in
  answers o' `suffix_of` answers o ∧ (Forall untouched l → Forall untouched l').
Proof.
  revert n o. induction l as [|w l IH]; intros n o; cbn [send_udp]; [done|]. pose proof (ask_suffix o) as Hs.
  destruct (ask o) as [a o1]. cbn [snd] in Hs. cbv zeta. destruct (decide (a_ret a < 0)).
  - split; [|done]. by case_decide.
  - specialize (IH (n - zlen (wb_data w)) (write_buffer_free (emit o1 (SysSendto (s_fd s) (wb_data w) (udp_socket_address s (wb_udp_address w)))) w)).
    destruct (send_udp s l _ _) as [[l' n'] o']. destruct IH as [H1 H2]. split.
    + etrans; [exact H1|]. unfold write_buffer_free. rewrite free_object_answers. done.
    + intros [_ ?]%Forall_cons. by apply H2.
Qed.

Lemma live_lists s h l n : live (set_lists s h l n) ↔ live s.
Proof. done. Qed.
Lemma wf_lists s h l n : sock_wf s → live s → Forall untouched l → sock_wf (set_lists s h l n).
Proof. intros [Hd Hl Hp] Hlive Hu. split; [intros []; done|done|]. intros _. by apply Hp. Qed.

(** Closing a live socket whose low list may have a buffer in progress. *)
Lemma force_close_lists s h l n o :
  sock_wf s → live s →
  ∃ m s' o', force_close (set_lists s h l n) o = Ok (m, s', o') ∧ sock_wf s' ∧ s_id s' = s_id s ∧
    s_type s' = SOCKET_TYPE_INVALID ∧ m_id m = s_id s ∧ answers o' = answers o.
Proof.
  intros W [Hi Hr]. unfold force_close. cbn [s_type set_lists].
  rewrite decide_False, c_assert_true, bind_Ok by (done || by apply bool_decide_eq_true_2). cbv zeta.
  eexists _, _, _. split; [done|]. split; [split; [done|constructor|by intros [? _]]|]. split; [done|]. split; [done|]. split; [done|].
  repeat case_decide; cbn [emit answers]; by rewrite !free_list_answers.
Qed.

Lemma send_list_safe s high o :
  sock_wf s → live s →
  ∃ a s' o', send_list s high o = Ok (a, s', o') ∧ answers o' `suffix_of` answers o ∧
    ((a = None ∧ ∃ l n, s' = put_wlist s high l n ∧ (Forall untouched (wlist s high) → Forall untouched (tail l))) ∨
     handled s o a s' o' ∧ s_type s' = SOCKET_TYPE_INVALID ∧ a ≠ None).
Proof.
  intros W L. unfold send_list. destruct (decide (s_protocol s = PROTOCOL_TCP)) as [_|_].
  - pose proof (send_tcp_safe (s_fd s) (wlist s high) (s_wb_size s) o) as H.
    destruct (send_tcp _ _ _ o) as [[[failed l] n] o1]. destruct H as [Hs Hu]. destruct failed.
    + assert (∃ h k, put_wlist s high l n = set_lists s h k n) as (h & k & ->) by (destruct high; by eexists _, _).
      destruct (force_close_lists s h k n o1 W L) as (m & s' & o' & -> & Hc). rewrite bind_Ok. cbv beta iota.
      eexists _, _, _. split; [done|]. split; [by destruct Hc as (_ & _ & _ & _ & ->)|]. right.
      split; [eapply closed_handled; [exact Hc|done|by left]|]. split; [apply Hc|done].
    + eexists _, _, _. split; [done|]. split; [done|]. left. split; [done|]. by exists l, n.
  - pose proof (send_udp_safe s (wlist s high) (s_wb_size s) o) as H.
    destruct (send_udp s _ _ o) as [[l n] o1]. destruct H as [Hs Hu].
    eexists _, _, _. split; [done|]. split; [done|]. left. split; [done|]. exists l, n. split; [done|].
    intros H. specialize (Hu H). destruct l; [done|]. by apply Forall_cons in Hu as [_ ?].
Qed.

Lemma untouched_complete l : Forall untouched l → list_uncomplete l = false.
Proof. destruct l as [|w l]; [done|]. intros [H _]%Forall_cons. apply bool_decide_eq_false_2. unfold untouched in H. tauto. Qed.

Lemma send_buffer_safe s o : sock_wf s → live s → handles s o (send_buffer s o).
Proof.
  intros W L. unfold send_buffer. rewrite (untouched_complete _ (sw_low _ W)). cbn [negb]. rewrite c_assert_true, bind_Ok by done.
  destruct (send_list_safe s true o W L) as (a & s1 & o1 & -> & Hs1 & H1). rewrite bind_Ok. cbv beta iota.
  destruct H1 as [(-> & l & n & -> & _)|(H1 & _ & Ha)]; cycle 1.
  { destruct a as [[t m]|]; [|done]. by exists (Some (t, m)), s1, o1. }
  cbn [put_wlist]. set (s1 := set_lists s l (s_low s) n). pose proof (wf_lists s l (s_low s) n W L (sw_low _ W)) as W1. fold s1 in W1.
  assert (handles s o (Ok (None, s1, o1))) as Hlive by (eexists _, _, _; split; [done|]; by apply live_handled).
  change (s_high s1) with l. change (s_low s1) with (s_low s). destruct l as [|w l]; [|done]. destruct (s_low s) as [|w lo] eqn:Elo.
  - case_decide; [|eexists _, _, _; split; [done|]; by apply live_handled].
    destruct (force_close_live s1 (emit o1 (SysPollWrite (s_fd s1) false)) W1 L) as (m & s2 & o2 & -> & Hc). rewrite bind_Ok. cbv beta iota.
    eexists _, _, _. split; [done|]. eapply closed_handled; [exact Hc|done|by left].
  - destruct (send_list_safe s1 false o1 W1 L) as (a & s2 & o2 & -> & Hs2 & H2). rewrite bind_Ok. cbv beta iota.
    destruct H2 as [(-> & l2 & n2 & -> & Hu)|(H2 & _ & Ha)]; cycle 1.
    { destruct a as [[t m]|]; [|done]. eexists _, _, _. split; [done|]. destruct H2 as (? & ? & ? & ?). split; [done|]. split; [done|].
      split; [by etrans|done]. }
    cbn [put_wlist]. change (s_high s1) with (@nil write_buffer). set (s2 := set_lists s1 [] l2 n2).
    assert (Forall untouched (tail l2)) as Hu2 by (apply Hu; exact (sw_low _ W1)).
    change (s_low s2) with l2. destruct (list_uncomplete l2) eqn:Eu.
    + destruct l2 as [|w2 l2]; [done|]. unfold raise_uncomplete. change (s_low s2) with (w2 :: l2). change (s_high s2) with (@nil write_buffer).
      rewrite c_assert_true, !bind_Ok by done. eexists _, _, _. split; [done|]. apply live_handled; try done.
      * by apply (wf_lists s).
      * by etrans.
    + eexists _, _, _. split; [done|]. apply live_handled; try done; [|by etrans]. apply (wf_lists s); [done|done|].
      destruct l2 as [|w2 l2]; [constructor|]. constructor; [|done]. apply bool_decide_eq_false in Eu. unfold untouched.
      destruct (decide (wb_ptr w2 = wb_buffer w2)); [done|tauto].
Qed.

(** ** Requests for a socket *)

(** A request finds its socket, or leaves the slot as it is. *)
Definition serves (s : socket) (o : os) (r : result (answered * socket * os)) : Prop :=
  ∃ a s' o', r = Ok (a, s', o') ∧ answers o' `suffix_of` answers o ∧ (s' = s ∨ (live s ∧ handled s o a s' o')).

Lemma serves_handles s o r : live s → handles s o r → serves s o r.
Proof. intros L (a & s' & o' & -> & H). exists a, s', o'. split; [done|]. split; [apply H|]. by right. Qed.
Lemma serves_same s o a o' : answers o' `suffix_of` answers o → serves s o (Ok (a, s, o')).
Proof. intros H. exists a, s, o'. split; [done|]. split; [done|]. by left. Qed.

(** Types, for arithmetic. *)
Ltac types :=
  unfold live, SOCKET_TYPE_INVALID, SOCKET_TYPE_RESERVE, SOCKET_TYPE_PLISTEN, SOCKET_TYPE_LISTEN, SOCKET_TYPE_CONNECTING,
    SOCKET_TYPE_CONNECTED, SOCKET_TYPE_HALFCLOSE, SOCKET_TYPE_PACCEPT, SOCKET_TYPE_BIND in *.

Lemma wf_append_high s w : sock_wf s → live s → sock_wf (append_high s w).
Proof. intros W L. apply wf_lists; [done|done|apply W]. Qed.
Lemma wf_append_low s w : sock_wf s → live s → untouched w → sock_wf (append_low s w).
Proof. intros W L H. apply wf_lists; [done|done|]. apply Forall_app. split; [apply W|by constructor]. Qed.
Lemma new_untouched x a : so_user x = false → untouched (new_write_buffer x 0 a).
Proof. destruct x; [|done]. intros _. unfold untouched. cbn. lia. Qed.
Lemma append_udp_wf s p x a :
  sock_wf s → live s → (p = PRIORITY_LOW → so_user x = false) → p = PRIORITY_HIGH ∨ p = PRIORITY_LOW →
  sock_wf (append_sendbuffer_udp s p x a).
Proof.
  intros W L Hp Hpp. unfold append_sendbuffer_udp. case_decide as Hh; [by apply wf_append_high|].
  apply wf_append_low; [done|done|]. apply new_untouched, Hp. tauto.
Qed.
Lemma append_udp_same s p x a : s_id (append_sendbuffer_udp s p x a) = s_id s ∧ (live s → live (append_sendbuffer_udp s p x a)).
Proof. unfold append_sendbuffer_udp. by case_decide. Qed.
Lemma address_ok s u : sock_wf s → live s → s_protocol s ≠ PROTOCOL_TCP → is_Ok (address_or_own s u).
Proof.
  intros W L Hp. unfold address_or_own. destruct u as [a|]; [by eexists|]. pose proof (sw_p _ W L) as H.
  destruct (s_p s); [by destruct H|by eexists].
Qed.

Lemma send_socket_serves s id x p u o :
  sock_wf s → (s_type s = SOCKET_TYPE_RESERVE → s_id s ≠ id) → (p = PRIORITY_LOW → so_user x = false) →
  p = PRIORITY_HIGH ∨ p = PRIORITY_LOW → serves s o (send_socket_on s id x p u o).
Proof.
  intros W Hres Hlow Hpp. unfold send_socket_on.
  case_decide as H1; [apply serves_same; by rewrite ?free_object_answers|].
  case_decide as H2; [apply serves_same; by rewrite ?free_object_answers|].
  assert (live s) as L by (split; [tauto|]; intros E; apply H1; right; left; by apply Hres).
  apply serves_handles; [done|]. case_decide as H3.
  - destruct (decide (s_protocol s = PROTOCOL_TCP)) as [Htcp|Htcp].
    + pose proof (ask_suffix o) as Hs. destruct (ask o) as [a o1]. cbn [snd] in Hs. case_decide as Hbad.
      * destruct (force_close_live s (emit o1 (SysLog (lit "socket-server: write error"))) W L) as (m & s' & o' & -> & Hc).
        rewrite bind_Ok. cbv beta iota zeta. eexists _, _, _. split; [done|].
        eapply (closed_handled _ _ _ _ _ o1); [|done|by left]. rewrite free_object_answers. exact Hc.
      * cbv zeta. set (n := if decide (a_ret a < 0) then 0 else _). set (o2 := if decide (a_ret a < 0) then o1 else _).
        assert (answers o2 = answers o1) as E2 by (unfold o2; by case_decide).
        case_decide; (eexists _, _, _; split; [done|]).
        -- apply live_handled; try done. by rewrite free_object_answers, E2.
        -- apply live_handled; try done; [by apply wf_append_high|]. cbn. by rewrite E2.
    + destruct (address_ok s u W L Htcp) as [addr ->]. rewrite bind_Ok. pose proof (ask_suffix o) as Hs.
      destruct (ask o) as [a o1]. cbn [snd] in Hs. case_decide; (eexists _, _, _; split; [done|]).
      * apply live_handled; [by apply append_udp_wf|by apply append_udp_same|done|by apply append_udp_same].
      * by apply live_handled; rewrite ?free_object_answers.
  - destruct (decide (s_protocol s = PROTOCOL_TCP)) as [Htcp|Htcp].
    + eexists _, _, _. split; [done|]. case_decide as Hp; apply live_handled; try done; [|by apply wf_append_high].
      apply wf_append_low; [done|done|]. by apply new_untouched, Hlow.
    + destruct (address_ok s u W L Htcp) as [addr ->]. rewrite bind_Ok. eexists _, _, _. split; [done|].
      apply live_handled; [by apply append_udp_wf|by apply append_udp_same|done|by apply append_udp_same].
Qed.

Lemma handled_from s s1 o o1 a s' o' :
  handled s1 o1 a s' o' → s_id s1 = s_id s → answers o1 `suffix_of` answers o → handled s o a s' o'.
Proof.
  intros (W & Ei & Hs & H) E Ho. split; [done|]. split; [congruence|]. split; [by etrans|].
  destruct H as [?|(Ht & t & m & ? & ? & ?)]; [by left|right]. split; [done|]. exists t, m. split; [done|]. split; [done|congruence].
Qed.
Lemma wf_set_type s t : sock_wf s → live s → t ≠ SOCKET_TYPE_INVALID → t ≠ SOCKET_TYPE_RESERVE → sock_wf (set_type s t).
Proof. intros [Hd Hl Hp] L H1 H2. split; [intros []; by split|done|]. intros _. by apply Hp. Qed.

Lemma close_socket_serves s id shutdown opaque o :
  sock_wf s → (s_type s = SOCKET_TYPE_RESERVE → s_id s ≠ id) → serves s o (close_socket_on s id shutdown opaque o).
Proof.
  intros W Hres. unfold close_socket_on. case_decide as H1; [by apply serves_same|].
  assert (live s ∧ s_id s = id) as [L Eid].
  { destruct (decide (s_id s = id)); [|tauto]. split; [|done]. split; [tauto|]. intros E. by apply Hres. }
  apply serves_handles; [done|].
  assert (handles s o (if send_buffer_empty s then Ok (None, s, o) else send_buffer s o)) as (a & s1 & o1 & -> & H).
  { destruct (send_buffer_empty s); [|by apply send_buffer_safe]. eexists _, _, _. split; [done|]. by apply live_handled. }
  rewrite bind_Ok. cbv beta iota. destruct a as [[t m]|]; [by eexists _, _, _|].
  destruct H as (W1 & Ei1 & Hs1 & [L1|(_ & t & m & ? & _)]); [|done].
  case_decide as Hc.
  - destruct (force_close_live s1 o1 W1 L1) as (m & s2 & o2 & -> & W2 & Ei2 & Et2 & Em & Ea). rewrite bind_Ok. cbv beta iota.
    eexists _, _, _. split; [done|]. eapply (closed_handled _ _ _ _ _ o1); [|done|by left]. split; [done|]. split; [congruence|].
    split; [done|]. by split.
  - eexists _, _, _. split; [done|]. apply live_handled; try done. by apply wf_set_type.
Qed.

Lemma set_udp_serves s id address o :
  sock_wf s → (s_type s = SOCKET_TYPE_RESERVE → s_id s ≠ id) → hd 0 address = PROTOCOL_UDP ∨ hd 0 address = PROTOCOL_UDPv6 →
  serves s o (set_udp_address_on s id address o).
Proof.
  intros W Hres Had. unfold set_udp_address_on. case_decide as H1; [by apply serves_same|]. case_decide as H2; [by apply serves_same|].
  assert (live s) as L by (split; [tauto|]; intros E; apply H1; right; by apply Hres).
  apply serves_handles; [done|]. pose proof (sw_p _ W L) as Hp. destruct (s_p s) as [sz|old] eqn:Ep.
  - destruct Hp as [Hp _]. rewrite Hp in H2. unfold PROTOCOL_TCP, PROTOCOL_UDP, PROTOCOL_UDPv6 in *. lia.
  - cbv zeta. eexists _, _, _. split; [done|]. apply live_handled; try done. destruct W as [Hd Hl _]. split; [done|done|]. by intros _.
Qed.

Section Errors.
Context (strerror : Z → cstring).

Lemma start_socket_serves s id opaque o :
  sock_wf s → (s_type s = SOCKET_TYPE_RESERVE → s_id s ≠ id) → serves s o (start_socket_on strerror s id opaque o).
Proof.
  intros W Hres. unfold start_socket_on. cbv zeta. case_decide as H1; [by apply serves_same|].
  assert (live s) as L by (split; [tauto|]; intros E; apply H1; right; by apply Hres).
  case_decide as H2.
  - pose proof (ask_suffix o) as Hs. destruct (ask o) as [a o1]. cbn [snd] in Hs. apply serves_handles; [done|]. case_decide as H3.
    + destruct (force_close_live s o1 W L) as (m & s2 & o2 & -> & Hc). rewrite bind_Ok. cbv beta iota.
      eexists _, _, _. split; [done|]. eapply closed_handled; [exact Hc|done|by right].
    + eexists _, _, _. split; [done|]. set (t := if decide _ then _ else _).
      assert (t ≠ SOCKET_TYPE_INVALID ∧ t ≠ SOCKET_TYPE_RESERVE) as [Ht1 Ht2] by (unfold t; case_decide; done).
      apply live_handled; try done. destruct (wf_set_type s t W L Ht1 Ht2) as [Hd Hl Hp]. by split.
  - case_decide as H3; [|by apply serves_same]. apply serves_handles; [done|]. eexists _, _, _. split; [done|]. apply live_handled; try done.
    destruct W as [Hd Hl Hp]. by split.
Qed.

(** ** Events of a socket *)

Lemma wf_set_p s p :
  sock_wf s → (live s → match p with PSize sz => s_protocol s = PROTOCOL_TCP ∧ 0 < sz ≤ INT_MAX | PAddress _ => s_protocol s ≠ PROTOCOL_TCP end) →
  sock_wf (set_p s p).
Proof. intros [Hd Hl _] H. by split. Qed.

Lemma forward_tcp_handles s o :
  sock_wf s → live s → s_protocol s = PROTOCOL_TCP → Forall answer_ok (answers o) → handles s o (forward_message_tcp strerror s o).
Proof.
  intros W L Htcp Hans. unfold forward_message_tcp. pose proof (sw_p _ W L) as Hp. destruct (s_p s) as [sz|] eqn:Ep; [|done].
  pose proof (ask_suffix o) as Hs. pose proof (ask_ok o Hans) as Hok. destruct (ask o) as [a o1]. cbn [fst snd] in *.
  destruct (decide (a_ret a < 0)).
  - destruct (decide (a_errno a = EINTR)); [eexists _, _, _; split; [done|]; by apply live_handled|].
    destruct (decide (a_errno a = EAGAIN)); [eexists _, _, _; split; [done|]; by apply live_handled|].
    destruct (force_close_live s o1 W L) as (m & s2 & o2 & -> & Hc). rewrite bind_Ok. cbv beta iota.
    eexists _, _, _. split; [done|]. eapply closed_handled; [exact Hc|done|by right].
  - cbv zeta. set (buffer := take (Z.to_nat sz) (a_data a)).
    assert (zlen buffer < 2 ^ 30) as Hlen.
    { unfold answer_ok, zlen, buffer in *. rewrite length_take. lia. }
    destruct (decide (zlen buffer = 0)).
    { destruct (force_close_live s o1 W L) as (m & s2 & o2 & -> & Hc). rewrite bind_Ok. cbv beta iota.
      eexists _, _, _. split; [done|]. eapply closed_handled; [exact Hc|done|by left]. }
    destruct (decide (s_type s = SOCKET_TYPE_HALFCLOSE)); [eexists _, _, _; split; [done|]; by apply live_handled|].
    assert (∃ size, (if decide (zlen buffer = sz) then c_int (sz * 2)
      else Ok (if decide (MIN_READ_BUFFER < sz ∧ zlen buffer * 2 < sz) then sz / 2 else sz)) = Ok size ∧ 0 < size ≤ INT_MAX) as (size & -> & Hsz).
    { pose proof (zlen_nonneg buffer). destruct (decide (zlen buffer = sz)).
      - rewrite c_int_Ok by (unfold INT_MIN, INT_MAX; lia). exists (sz * 2). split; [done|]. unfold INT_MAX. lia.
      - eexists. split; [done|]. unfold MIN_READ_BUFFER. case_decide; [|lia]. Z.to_euclidean_division_equations. lia. }
    rewrite bind_Ok. eexists _, _, _. split; [done|]. apply live_handled; try done. by apply wf_set_p.
Qed.
Lemma forward_udp_handles s o : sock_wf s → live s → handles s o (forward_message_udp strerror s o).
Proof.
  intros W L. unfold forward_message_udp. pose proof (ask_suffix o) as Hs. destruct (ask o) as [a o1]. cbn [snd] in Hs.
  destruct (decide (a_ret a < 0)).
  - case_decide; [eexists _, _, _; split; [done|]; by apply live_handled|].
    destruct (force_close_live s o1 W L) as (m & s2 & o2 & -> & Hc). rewrite bind_Ok. cbv beta iota.
    eexists _, _, _. split; [done|]. eapply closed_handled; [exact Hc|done|by right].
  - cbv zeta. case_decide; eexists _, _, _; (split; [done|]); by apply live_handled.
Qed.
Lemma report_connect_handles s o : sock_wf s → live s → handles s o (report_connect strerror s o).
Proof.
  intros W L. unfold report_connect. pose proof (ask_suffix o) as Hs. destruct (ask o) as [a o1]. cbn [snd] in Hs. case_decide.
  - destruct (force_close_live s o1 W L) as (m & s2 & o2 & -> & Hc). rewrite bind_Ok. cbv beta iota.
    eexists _, _, _. split; [done|]. eapply closed_handled; [exact Hc|done|by right].
  - cbv zeta. set (o2 := if send_buffer_empty _ then _ else o1).
    assert (answers o2 = answers o1) as E2 by (unfold o2; by destruct (send_buffer_empty _)).
    pose proof (ask_suffix o2) as Hs2. destruct (ask o2) as [b o3]. cbn [snd] in Hs2.
    eexists _, _, _. split; [done|]. apply live_handled; try done; [by apply wf_set_type|]. etrans; [exact Hs2|]. by rewrite E2.
Qed.

(** ** The server *)

(** The id a request creates a socket for, and the id of the socket another is for. *)
Definition creates (q : request) : option Z :=
  match q with RBind id _ _ | RListen id _ _ | ROpen id _ _ _ | RUdp id _ _ _ => Some id | _ => None end.
Definition uses (q : request) : option Z :=
  match q with
  | RStart id _ | RClose id _ _ | RSend id _ _ | RSendUdp id _ _ | RSetUdp id _ | RSetopt id _ _ => Some id
  | _ => None
  end.
Definition created (l : list request) : list Z := omap creates l.
Definition request_ok (q : request) : Prop :=
  match q with
  | RSend _ x p => (p = PRIORITY_LOW → so_user x = false) ∧ (p = PRIORITY_HIGH ∨ p = PRIORITY_LOW)
  | RSetUdp _ address => hd 0 address = PROTOCOL_UDP ∨ hd 0 address = PROTOCOL_UDPv6
  | _ => True
  end.
Definition event_slots (l : list event) : list Z := omap e_s l.

(** The invariant but for the ids [ex], reserved and without their request in the pipe. *)
Record server_inv (ss : socket_server) (ex : list Z) : Prop := {
  si_wf : ∀ i, sock_wf (get_slot ss i);
  si_res : ∀ id, id ∈ ex ++ created (ss_pipe ss) →
    s_type (get_slot ss (HASH_ID id)) = SOCKET_TYPE_RESERVE ∧ s_id (get_slot ss (HASH_ID id)) = id;
  si_only : ∀ i, s_type (get_slot ss i) = SOCKET_TYPE_RESERVE →
    s_id (get_slot ss i) ∈ ex ++ created (ss_pipe ss) ∧ HASH_ID (s_id (get_slot ss i)) = i;
  si_nodup : NoDup (ex ++ created (ss_pipe ss));
  si_order : ∀ l1 q l2 id, ss_pipe ss = l1 ++ q :: l2 → uses q = Some id → id ∉ created l2;
  si_alloc : 0 ≤ alloc_id ss;
  si_uses : ∀ q id, q ∈ ss_pipe ss → uses q = Some id → id ≤ alloc_id ss;
  si_reqs : Forall request_ok (ss_pipe ss);
  si_answers : Forall answer_ok (answers (ss_os ss)) }.
(** The events refer to live sockets, each to its own. *)
Definition events_ok (ss : socket_server) (l : list event) : Prop :=
  NoDup (event_slots l) ∧ ∀ i, i ∈ event_slots l → live (get_slot ss i).
Definition server_ok (ss : socket_server) : Prop := server_inv ss [] ∧ events_ok ss (ss_ev ss).

Lemma get_put_slot ss i j s o : get_slot (put_slot ss i s o) j = if decide (j = i) then s else get_slot ss j.
Proof.
  unfold get_slot, put_slot. cbn [slot]. case_decide as E; [subst; by rewrite lookup_insert_eq|by rewrite lookup_insert_ne].
Qed.

(** A socket is replaced by one that is reserved just when it was. *)
Lemma put_inv ss ex i s o :
  server_inv ss ex → sock_wf s → (s_type s = SOCKET_TYPE_RESERVE ↔ s_type (get_slot ss i) = SOCKET_TYPE_RESERVE) →
  (s_type s = SOCKET_TYPE_RESERVE → s_id s = s_id (get_slot ss i)) → answers o `suffix_of` answers (ss_os ss) →
  server_inv (put_slot ss i s o) ex.
Proof.
  intros [H1 H2 H3 H4 H5 H6 H7 H8 H9] W Ht Hid Hs. split; try done.
  - intros j. rewrite get_put_slot. by case_decide.
  - intros id Hin. destruct (H2 id Hin) as [Ha Hb]. rewrite get_put_slot. case_decide as E; [|done]. rewrite E in *.
    apply Ht in Ha as Hr. split; [done|]. by rewrite Hid.
  - intros j. rewrite get_put_slot. case_decide as E; [|apply H3]. subst j. intros Hr. rewrite Hid by done. apply H3. by apply Ht.
  - by eapply suffix_ok.
Qed.
Lemma with_os_inv ss ex o : server_inv ss ex → answers o `suffix_of` answers (ss_os ss) → server_inv (with_os ss o) ex.
Proof. intros [H1 H2 H3 H4 H5 H6 H7 H8 H9] Hs. split; try done. by eapply suffix_ok. Qed.

(** The first request is taken off the pipe. *)
Lemma pop_use_inv ss q l : server_inv ss [] → ss_pipe ss = q :: l → creates q = None → server_inv (with_pipe ss l) [].
Proof.
  intros [H1 H2 H3 H4 H5 H6 H7 H8 H9] E Hq. rewrite E in *. unfold created in H2, H3, H4. cbn [omap list_omap] in H2, H3, H4.
  rewrite Hq in H2, H3, H4. split; try done; cbn [ss_pipe with_pipe alloc_id].
  - intros l1 q' l2 id El. apply (H5 (q :: l1)). by rewrite El.
  - intros q' id Hin. apply H7. by right.
  - by apply Forall_cons in H8 as [_ ?].
Qed.
Lemma pop_create_inv ss q l id : server_inv ss [] → ss_pipe ss = q :: l → creates q = Some id → server_inv (with_pipe ss l) [id].
Proof.
  intros [H1 H2 H3 H4 H5 H6 H7 H8 H9] E Hq. rewrite E in *. unfold created in H2, H3, H4. cbn [omap list_omap app] in H2, H3, H4.
  rewrite Hq in H2, H3, H4. split; try done; cbn [ss_pipe with_pipe alloc_id].
  - intros l1 q' l2 id' El. apply (H5 (q :: l1)). by rewrite El.
  - intros q' id' Hin. apply H7. by right.
  - by apply Forall_cons in H8 as [_ ?].
Qed.
(** The socket a request is for is not a reserved one with its id. *)
Lemma use_not_reserved ss q l id :
  server_inv ss [] → ss_pipe ss = q :: l → uses q = Some id →
  s_type (get_slot ss (HASH_ID id)) = SOCKET_TYPE_RESERVE → s_id (get_slot ss (HASH_ID id)) ≠ id.
Proof.
  intros [H1 H2 H3 H4 H5 H6 H7 H8 H9] E Hq Ht Hid. apply (H5 [] q l id E Hq).
  destruct (H3 _ Ht) as [Hin _]. rewrite Hid, E in Hin. unfold created in Hin. cbn [omap list_omap app] in Hin.
  assert (creates q = None) as Hc by by destruct q. by rewrite Hc in Hin.
Qed.

(** A reserved slot gets its socket, or is given up. *)
Lemma fill_inv ss id s o :
  server_inv ss [id] → sock_wf s → s_type s ≠ SOCKET_TYPE_RESERVE → answers o `suffix_of` answers (ss_os ss) →
  server_inv (put_slot ss (HASH_ID id) s o) [].
Proof.
  intros [H1 H2 H3 H4 H5 H6 H7 H8 H9] W Ht Hs. cbn [app] in *. apply NoDup_cons in H4 as Hnd. destruct Hnd as [Hid Hnd].
  split; try done; cbn [app put_slot ss_pipe alloc_id ss_os].
  - intros j. rewrite get_put_slot. by case_decide.
  - intros k Hk. destruct (H2 k ltac:(by right)) as [Ha Hb]. rewrite get_put_slot. rewrite decide_False; [done|].
    intros E. destruct (H2 id ltac:(by left)) as [_ Hb']. rewrite E in Hb. congruence.
  - intros j. rewrite get_put_slot. case_decide as E; [done|]. intros Hr. destruct (H3 j Hr) as [Hin Hh]. split; [|done].
    apply elem_of_cons in Hin as [Hin|Hin]; [|done]. exfalso. apply E. by rewrite <- Hin.
  - by eapply suffix_ok.
Qed.
Lemma events_put_dead ss i s o l : events_ok ss l → ¬ live (get_slot ss i) → events_ok (put_slot ss i s o) l.
Proof.
  intros [H1 H2] Hd. split; [done|]. intros j Hj. rewrite get_put_slot. case_decide as E; [|by apply H2]. subst j. by apply H2 in Hj.
Qed.
Lemma events_put_live ss i s o l : events_ok ss l → live s → events_ok (put_slot ss i s o) l.
Proof. intros [H1 H2] Hl. split; [done|]. intros j Hj. rewrite get_put_slot. case_decide; [done|by apply H2]. Qed.
Lemma put_put ss i s1 o1 s2 o2 : put_slot (put_slot ss i s1 o1) i s2 o2 = put_slot ss i s2 o2.
Proof. unfold put_slot. cbn. by rewrite insert_insert_eq. Qed.
Lemma put_with_os ss i o s o' : put_slot (with_os ss o) i s o' = put_slot ss i s o'.
Proof. done. Qed.
Lemma get_put_same ss i s o : get_slot (put_slot ss i s o) i = s.
Proof. rewrite get_put_slot. by rewrite decide_True. Qed.

(** What became of the reserved slot [i]: a socket that is not reserved any more. *)
Definition filled (ss : socket_server) (i : Z) (ss' : socket_server) : Prop :=
  ∃ s o, ss' = put_slot ss i s o ∧ sock_wf s ∧ s_type s ≠ SOCKET_TYPE_RESERVE ∧ answers o `suffix_of` answers (ss_os ss).
Lemma filled_server ss id ss' l :
  filled ss (HASH_ID id) ss' → server_inv ss [id] → events_ok ss l → server_inv ss' [] ∧ events_ok ss' l.
Proof.
  intros (s & o & -> & W & Ht & Hs) I E. split; [by apply fill_inv|]. apply events_put_dead; [done|].
  destruct (si_res _ _ I id ltac:(by left)) as [Hr _]. intros [_ H]. by rewrite Hr in H.
Qed.

Definition fresh_socket (id fd protocol opaque : Z) : socket :=
  mk_socket opaque [] [] 0 fd id protocol SOCKET_TYPE_RESERVE (PSize MIN_READ_BUFFER).
Lemma new_fd_spec ss id fd protocol opaque add :
  server_inv ss [id] →
  ∃ o, answers o `suffix_of` answers (ss_os ss) ∧
    (new_fd ss id fd protocol opaque add = Ok (true, put_slot ss (HASH_ID id) (fresh_socket id fd protocol opaque) o) ∨
     new_fd ss id fd protocol opaque add
       = Ok (false, put_slot ss (HASH_ID id) (set_type (get_slot ss (HASH_ID id)) SOCKET_TYPE_INVALID) o)).
Proof.
  intros I. destruct (si_res _ _ I id ltac:(by left)) as [Hr Hid]. pose proof (si_wf _ _ I (HASH_ID id)) as W.
  destruct (sw_dead _ W) as [Hh Hl]; [by intros [_ ?]|]. unfold new_fd.
  cbv zeta. rewrite Hh, Hl, Hr. rewrite (c_assert_true (bool_decide (SOCKET_TYPE_RESERVE = _))), bind_Ok by by apply bool_decide_eq_true_2.
  assert (∀ o : os, (c_assert (bool_decide (@length write_buffer [] = 0%nat));; c_assert (bool_decide (@length write_buffer [] = 0%nat));;
    Ok (true, put_slot ss (HASH_ID id) (mk_socket opaque [] [] 0 fd id protocol SOCKET_TYPE_RESERVE (PSize MIN_READ_BUFFER)) o))
    = Ok (true, put_slot ss (HASH_ID id) (fresh_socket id fd protocol opaque) o)) as Eok by done.
  destruct add.
  - pose proof (ask_suffix (ss_os ss)) as Hs. destruct (ask (ss_os ss)) as [a o]. cbn [snd] in Hs. destruct (decide (a_ret a ≠ 0)).
    + exists o. split; [done|]. by right.
    + eexists (emit o _). split; [exact Hs|]. left. apply Eok.
  - exists (ss_os ss). split; [done|]. left. apply Eok.
Qed.
Lemma dead_wf s t : sock_wf s → ¬ live s → ¬ live (set_type s t) → sock_wf (set_type s t).
Proof. intros [Hd Hl Hp] L L'. split; [by intros _; apply Hd|done|done]. Qed.
Lemma fresh_wf id fd protocol opaque t :
  t ≠ SOCKET_TYPE_RESERVE → t ≠ SOCKET_TYPE_INVALID → protocol = PROTOCOL_TCP →
  sock_wf (set_type (fresh_socket id fd protocol opaque) t).
Proof. intros H1 H2 ->. split; [done|constructor|]. intros _. cbn. unfold MIN_READ_BUFFER, INT_MAX. lia. Qed.

(** A reserved slot is marked free. *)
Lemma abandon_filled ss id o :
  server_inv ss [id] → answers o `suffix_of` answers (ss_os ss) →
  filled ss (HASH_ID id) (put_slot ss (HASH_ID id) (set_type (get_slot ss (HASH_ID id)) SOCKET_TYPE_INVALID) o).
Proof.
  intros I Hs. destruct (si_res _ _ I id ltac:(by left)) as [Hr _]. eexists _, o. split; [done|]. split; [|by split].
  apply dead_wf; [apply I| |by intros [? _]]. intros [_ ?]. done.
Qed.

Lemma try_connect_suffix n o st er : answers (try_connect n o st er).2 `suffix_of` answers o.
Proof.
  revert o st er. induction n as [|n IH]; intros o st er; cbn [try_connect]; [done|].
  pose proof (ask_suffix o) as Hs. destruct (ask o) as [a o1]. cbn [snd] in Hs. case_decide; [by etrans; [apply IH|]|]. cbv zeta.
  pose proof (ask_suffix (emit o1 (SysSetopt (a_ret a) 9 1))) as Hs2. destruct (ask (emit o1 _)) as [b o2]. cbn [snd] in Hs2.
  case_decide; [|by etrans]. etrans; [apply IH|]. by etrans.
Qed.

Lemma open_socket_fills ss id port opaque host :
  server_inv ss [id] → ∃ a ss', open_socket strerror ss id port opaque host = Ok (a, ss') ∧ filled ss (HASH_ID id) ss'.
Proof.
  intros I. unfold open_socket, set_slot_type. cbv zeta. pose proof (ask_suffix (ss_os ss)) as Hs.
  destruct (ask (ss_os ss)) as [ai o1]. cbn [snd] in Hs. case_decide.
  { eexists _, _. split; [done|]. by apply (abandon_filled ss id o1). }
  pose proof (try_connect_suffix (length (a_data ai)) o1 0 0) as Hs2.
  destruct (try_connect (length (a_data ai)) o1 0 0) as [[[sock status] errno] o2]. cbn [snd] in Hs2.
  assert (answers o2 `suffix_of` answers (ss_os ss)) as Hs3 by by etrans. case_decide.
  { eexists _, _. split; [done|]. by apply (abandon_filled ss id o2). }
  destruct (new_fd_spec (with_os ss o2) id sock PROTOCOL_TCP opaque true) as (o & Ho & [-> | ->]); [by apply with_os_inv| |]; rewrite bind_Ok; cbv beta iota.
  - rewrite !put_with_os, get_put_same. assert (answers o `suffix_of` answers (ss_os ss)) as Ho' by by etrans. case_decide.
    + rewrite put_put. cbn [put_slot ss_os]. pose proof (ask_suffix o) as Ha. destruct (ask o) as [b o3]. cbn [snd] in Ha.
      eexists _, _. split; [done|]. eexists _, o3. split; [done|]. split; [by apply fresh_wf|]. split; [done|]. by etrans.
    + rewrite put_put. eexists _, _. split; [done|]. eexists _, _. split; [done|]. split; [by apply fresh_wf|]. by split.
  - eexists _, _. split; [done|]. cbn [ss_os put_slot]. change (get_slot (with_os ?x ?o) ?i) with (get_slot x i).
    rewrite !put_with_os, get_put_same, put_put. cbn [ss_os with_os].
    eexists _, _. split; [done|]. split; [|split; [done|by etrans]].
    destruct (si_res _ _ I id ltac:(by left)) as [Hr _]. apply dead_wf; [apply dead_wf; [apply I|by intros [_ ?]|by intros [? _]]|by intros [? _]|by intros [? _]].
Qed.
Lemma listen_socket_fills ss id fd opaque :
  server_inv ss [id] → ∃ a ss', listen_socket ss id fd opaque = Ok (a, ss') ∧ filled ss (HASH_ID id) ss'.
Proof.
  intros I. unfold listen_socket, set_slot_type.
  destruct (new_fd_spec ss id fd PROTOCOL_TCP opaque false I) as (o & Ho & [-> | ->]); rewrite bind_Ok; cbv beta iota.
  - eexists _, _. split; [done|]. rewrite get_put_same, put_put. eexists _, _. split; [done|]. split; [by apply fresh_wf|]. by split.
  - eexists _, _. split; [done|]. change (get_slot (with_os ?x ?o) ?i) with (get_slot x i). rewrite put_with_os, get_put_same, put_put.
    eexists _, _. split; [done|]. destruct (si_res _ _ I id ltac:(by left)) as [Hr _]. split; [|by split].
    apply dead_wf; [apply dead_wf; [apply I|by intros [_ ?]|by intros [? _]]|by intros [? _]|by intros [? _]].
Qed.
Lemma bind_socket_fills ss id fd opaque :
  server_inv ss [id] → ∃ a ss', bind_socket ss id fd opaque = Ok (a, ss') ∧ filled ss (HASH_ID id) ss'.
Proof.
  intros I. unfold bind_socket, set_slot_type.
  destruct (new_fd_spec ss id fd PROTOCOL_TCP opaque true I) as (o & Ho & [-> | ->]); rewrite bind_Ok; cbv beta iota.
  - eexists _, _. split; [done|]. rewrite get_put_same, put_put. eexists _, _. split; [done|]. split; [by apply fresh_wf|]. by split.
  - eexists _, _. split; [done|]. by apply abandon_filled.
Qed.
Lemma add_udp_fills ss id fd family opaque :
  server_inv ss [id] → ∃ ss', add_udp_socket ss id fd family opaque = Ok ss' ∧ filled ss (HASH_ID id) ss'.
Proof.
  intros I. unfold add_udp_socket, set_slot_type. cbv zeta. set (protocol := if decide (family = AF_INET6) then _ else _).
  assert (protocol ≠ PROTOCOL_TCP) as Hp by (unfold protocol; by case_decide).
  destruct (new_fd_spec ss id fd protocol opaque true I) as (o & Ho & [-> | ->]); rewrite bind_Ok; cbv beta iota.
  - eexists. split; [done|]. rewrite get_put_same, put_put. eexists _, _. split; [done|]. split; [|by split].
    split; [intros []; done|constructor|]. by intros _.
  - eexists. split; [done|]. change (get_slot (with_os ?x ?o) ?i) with (get_slot x i). rewrite put_with_os, get_put_same, put_put.
    eexists _, _. split; [done|]. destruct (si_res _ _ I id ltac:(by left)) as [Hr _]. split; [|by split].
    apply dead_wf; [apply dead_wf; [apply I|by intros [_ ?]|by intros [? _]]|by intros [? _]|by intros [? _]].
Qed.

(** *** Closed sockets and their events *)

Lemma drop_event_sublist ss id l : event_slots (drop_event ss id l) `sublist_of` event_slots l.
Proof.
  induction l as [|e l IH]; [done|]. unfold event_slots in *. cbn [drop_event]. destruct (e_s e) as [i|] eqn:E.
  - destruct (decide (_ ∧ _)); cbn [omap list_omap e_s]; rewrite E; [by apply sublist_cons|by apply sublist_skip].
  - cbn [omap list_omap]. by rewrite E.
Qed.
Lemma events_sublist ss l k : events_ok ss l → event_slots k `sublist_of` event_slots l → events_ok ss k.
Proof.
  intros [H1 H2] Hs. split; [by eapply sublist_NoDup|]. intros i Hi. apply H2. by eapply elem_of_submseteq, sublist_submseteq.
Qed.
(** Everything but the events of slot [i] is live; that slot was closed. *)
Definition events_closed (ss : socket_server) (i id : Z) (l : list event) : Prop :=
  NoDup (event_slots l) ∧ s_type (get_slot ss i) = SOCKET_TYPE_INVALID ∧ s_id (get_slot ss i) = id ∧
  ∀ j, j ∈ event_slots l → j ≠ i → live (get_slot ss j).
Lemma drop_event_ok ss i id l : events_closed ss i id l → events_ok ss (drop_event ss id l).
Proof.
  intros (H1 & Hi & Hid & H2). induction l as [|e l IH].
  { split; [constructor|]. intros k Hk. by apply not_elem_of_nil in Hk. }
  cbn [drop_event].
  destruct (e_s e) as [j|] eqn:E; cycle 1.
  { assert (event_slots (e :: l) = event_slots l) as Ee by (unfold event_slots; cbn; by rewrite E). rewrite Ee in *.
    destruct (IH H1 H2) as [H3 H4]. split; unfold event_slots; cbn; rewrite E; done. }
  assert (event_slots (e :: l) = j :: event_slots l) as Ee by (unfold event_slots; cbn; by rewrite E). rewrite Ee in *.
  apply NoDup_cons in H1 as [Hj Hnd]. destruct (decide (_ ∧ _)) as [[Hc1 Hc2]|Hc].
  - assert (j = i) as ->.
    { destruct (decide (j = i)); [done|]. destruct (H2 j ltac:(by left)) as [? _]; done. }
    split; unfold event_slots in *; cbn; [done|]. intros k Hk. apply H2; [by right|]. by intros ->.
  - assert (j ≠ i) as Hji by (intros ->; tauto).
    destruct (IH Hnd) as [H3 H4]; [intros k Hk; apply H2; by right|].
    assert (event_slots (e :: drop_event ss id l) = j :: event_slots (drop_event ss id l)) as Ed by (unfold event_slots; cbn; by rewrite E).
    split; rewrite Ed.
    + apply NoDup_cons. split; [|done]. intros Hin. apply Hj. by eapply elem_of_submseteq, sublist_submseteq, drop_event_sublist.
    + intros k [->|Hk]%elem_of_cons; [by apply H2; [left|]|by apply H4].
Qed.

(** What a request or an event leaves, before the events are cleared. *)
Definition after_ok (ss : socket_server) (a : answered) : Prop :=
  server_inv ss [] ∧
  (events_ok ss (ss_ev ss) ∨ ∃ t m i, a = Some (t, m) ∧ (t = SOCKET_CLOSE ∨ t = SOCKET_ERROR) ∧ events_closed ss i (m_id m) (ss_ev ss)).

Lemma clear_ok ss t m : after_ok ss (Some (t, m)) → server_ok (clear_closed_event ss m t).
Proof.
  intros [I H]. unfold clear_closed_event. case_decide as Ht.
  - assert (server_inv (with_ctrl ss (checkctrl ss) (drop_event ss (m_id m) (ss_ev ss))) []) as I' by by destruct I.
    split; [exact I'|]. destruct H as [H|(t' & m' & i & E & _ & H)].
    + eapply (events_sublist ss); [exact H|apply drop_event_sublist].
    + injection E as <- <-. by apply drop_event_ok in H.
  - destruct H as [H|(t' & m' & i & E & Ht' & _)]; [by split|]. injection E as <- <-. tauto.
Qed.

Lemma serves_ok ss i f :
  server_inv ss [] → events_ok ss (ss_ev ss) → serves (get_slot ss i) (ss_os ss) (f (get_slot ss i) (ss_os ss)) →
  ∃ a ss', on_slot ss i f = Ok (a, ss') ∧ after_ok ss' a ∧ ss_ev ss' = ss_ev ss.
Proof.
  intros I E (a & s' & o' & Ef & Hs & H). unfold on_slot. rewrite Ef, bind_Ok. eexists a, _. split; [done|]. split; [|done].
  destruct H as [-> | (L & W & Eid & _ & H)].
  - split; [apply put_inv; try done; apply I|]. left. destruct E as [E1 E2]. split; [done|]. intros j Hj. rewrite get_put_slot.
    case_decide as Ej; [subst j|]; by apply E2.
  - assert (s_type (get_slot ss i) ≠ SOCKET_TYPE_RESERVE) as Hr by apply L. destruct H as [L'|(Ht & t & m & -> & Htt & Em)].
    + split; [|left; by apply events_put_live]. assert (s_type s' ≠ SOCKET_TYPE_RESERVE) by apply L'. by apply put_inv.
    + split; [apply put_inv; try done; by rewrite Ht|]. right. exists t, m, i. split; [done|]. split; [done|].
      destruct E as [E1 E2]. split; [done|]. rewrite get_put_same. split; [done|]. split; [congruence|].
      intros j Hj Hne. rewrite get_put_slot, decide_False by done. by apply E2.
Qed.

Lemma with_pipe_slots ss l i : get_slot (with_pipe ss l) i = get_slot ss i.
Proof. done. Qed.

Lemma filled_ok ss q l id a ss' :
  server_ok ss → ss_pipe ss = q :: l → creates q = Some id → filled (with_pipe ss l) (HASH_ID id) ss' → after_ok ss' a.
Proof.
  intros [I E] Eq Hq Hf. pose proof (pop_create_inv ss q l id I Eq Hq) as I1.
  destruct (filled_server _ id ss' (ss_ev ss) Hf I1 E) as [I2 E2]. split; [done|]. left. destruct Hf as (s & o & -> & _). done.
Qed.
Lemma ctrl_cmd_ok ss :
  server_ok ss → ss_pipe ss ≠ [] → ∃ a ss', ctrl_cmd strerror ss = Ok (a, ss') ∧ after_ok ss' a.
Proof.
  intros OK Hne. pose proof OK as [I E]. unfold ctrl_cmd. destruct (ss_pipe ss) as [|q l] eqn:Eq; [done|].
  pose proof (si_wf _ _ I) as W. pose proof (si_reqs _ _ I) as Hq. rewrite Eq in Hq. apply Forall_cons in Hq as [Hq _].
  assert (∀ id f, uses q = Some id →
    ((s_type (get_slot ss (HASH_ID id)) = SOCKET_TYPE_RESERVE → s_id (get_slot ss (HASH_ID id)) ≠ id) →
      serves (get_slot ss (HASH_ID id)) (ss_os ss) (f (get_slot ss (HASH_ID id)) (ss_os ss))) →
    ∃ a ss', on_slot (with_pipe ss l) (HASH_ID id) f = Ok (a, ss') ∧ after_ok ss' a) as Huse.
  { intros id f Hu Hf. assert (creates q = None) as Hc by by destruct q.
    destruct (serves_ok (with_pipe ss l) (HASH_ID id) f) as (a & ss' & Ef & Ha & _); [by eapply pop_use_inv|exact E| |by exists a, ss'].
    apply Hf. by eapply use_not_reserved. }
  assert (∀ id, creates q = Some id → server_inv (with_pipe ss l) [id]) as Hcreate by (intros id; by eapply pop_create_inv).
  destruct q as [id opaque|id fd opaque|id fd opaque|id shutdown opaque|id port opaque host| |id x p|id x address|id address|id what value|id fd family opaque].
  - apply (Huse id); [done|]. intros Hr. by apply start_socket_serves.
  - destruct (bind_socket_fills _ id fd opaque (Hcreate id eq_refl)) as (a & ss' & -> & Hf). eexists _, _. split; [done|]. by eapply filled_ok.
  - destruct (listen_socket_fills _ id fd opaque (Hcreate id eq_refl)) as (a & ss' & -> & Hf). eexists _, _. split; [done|]. by eapply filled_ok.
  - apply (Huse id); [done|]. intros Hr. by apply close_socket_serves.
  - destruct (open_socket_fills _ id port opaque host (Hcreate id eq_refl)) as (a & ss' & -> & Hf). eexists _, _. split; [done|]. by eapply filled_ok.
  - eexists _, _. split; [done|]. split; [by eapply pop_use_inv|by left].
  - apply (Huse id); [done|]. intros Hr. destruct Hq as [Hq1 Hq2]. by apply send_socket_serves.
  - apply (Huse id); [done|]. intros Hr. apply send_socket_serves; [done|done|done|by left].
  - apply (Huse id); [done|]. intros Hr. by apply set_udp_serves.
  - eexists _, _. split; [done|]. assert (server_inv (with_pipe ss l) []) as I1 by by eapply pop_use_inv. unfold setopt_socket.
    case_decide; (split; [|by left]); [done|]. by apply with_os_inv.
  - destruct (add_udp_fills _ id fd family opaque (Hcreate id eq_refl)) as (ss' & -> & Hf). rewrite bind_Ok. eexists _, _. split; [done|]. by eapply filled_ok.
Qed.

(** *** Reserving an id *)

Lemma with_alloc_inv ss ex a : server_inv ss ex → alloc_id ss ≤ a → server_inv (with_alloc ss a) ex.
Proof.
  intros [H1 H2 H3 H4 H5 H6 H7 H8 H9] Ha. split; try done; cbn [alloc_id with_alloc]; [lia|].
  intros q id Hq Hu. specialize (H7 q id Hq Hu). lia.
Qed.
Definition reserved (s : socket) (id : Z) : socket :=
  mk_socket (s_opaque s) (s_high s) (s_low s) (s_wb_size s) (-1) id (s_protocol s) SOCKET_TYPE_RESERVE (s_p s).
Lemma reserve_inv ss id :
  server_inv ss [] → s_type (get_slot ss (HASH_ID id)) = SOCKET_TYPE_INVALID →
  server_inv (put_slot ss (HASH_ID id) (reserved (get_slot ss (HASH_ID id)) id) (ss_os ss)) [id].
Proof.
  intros [H1 H2 H3 H4 H5 H6 H7 H8 H9] Ht. cbn [app] in *.
  assert (id ∉ created (ss_pipe ss)) as Hni by (intros Hin; destruct (H2 id Hin) as [Hr _]; by rewrite Hr in Ht).
  split; try done; cbn [app put_slot ss_pipe alloc_id ss_os].
  - intros j. rewrite get_put_slot. case_decide; [|done]. destruct (sw_dead _ (H1 (HASH_ID id))) as [Hh Hl]; [by intros [? _]|].
    unfold reserved. rewrite Hh, Hl. split; [done|constructor|]. by intros [_ ?].
  - intros k [->|Hk]%elem_of_cons; [by rewrite get_put_same|]. destruct (H2 k Hk) as [Hr Hid]. rewrite get_put_slot, decide_False; [done|].
    intros E. rewrite E in Hr. by rewrite Ht in Hr.
  - intros j. rewrite get_put_slot. case_decide as E; [subst j; cbn; intros _; split; [left|done]|]. intros Hr. destruct (H3 j Hr).
    split; [by right|done].
  - by apply NoDup_cons.
Qed.

(** An id is reserved, greater than any given out before, or nothing changes but the
    counter. *)
Lemma reserve_loop_spec n ss :
  server_inv ss [] → alloc_id ss + Z.of_nat n ≤ INT_MAX →
  let '(id, ss') := reserve_loop n ss in
  ss_pipe ss' = ss_pipe ss ∧ ss_ev ss' = ss_ev ss ∧ ss_os ss' = ss_os ss ∧
  (∀ l, events_ok ss l → events_ok ss' l) ∧ (∀ i, live (get_slot ss i) → get_slot ss' i = get_slot ss i) ∧
  ((id = -1 ∧ server_inv ss' []) ∨
   (0 ≤ id ∧ server_inv ss' [id] ∧ ∀ q k, q ∈ ss_pipe ss → uses q = Some k → k < id)).
Proof.
  revert ss. induction n as [|n IH]; intros ss I Hmax; cbn [reserve_loop].
  { repeat (split; [done|]). by left. }
  pose proof (si_alloc _ _ I) as Ha. assert (s32 (alloc_id ss + 1) = alloc_id ss + 1) as ->
    by (apply swrap_small; [lia|]; unfold INT_MAX in Hmax; lia).
  rewrite !(decide_False (P := alloc_id ss + 1 < 0)) by lia. cbv zeta. set (id := alloc_id ss + 1). set (ss1 := with_alloc ss id).
  assert (server_inv ss1 []) as I1 by (apply with_alloc_inv; [done|unfold id; lia]).
  destruct (decide (s_type (get_slot ss1 (HASH_ID id)) = SOCKET_TYPE_INVALID)) as [Ht|Ht].
  - fold (reserved (get_slot ss1 (HASH_ID id)) id). repeat (split; [done|]).
    split; [intros l E; apply events_put_dead; [done|]; intros [? _]; done|]. split.
    + intros i [Hl _]. rewrite get_put_slot. case_decide as Ei; [|done]. by subst i.
    + right. split; [unfold id; lia|]. split; [by apply reserve_inv|]. intros q k Hq Hu. pose proof (si_uses _ _ I q k Hq Hu). unfold id. lia.
  - specialize (IH ss1 I1). destruct (reserve_loop n ss1) as [id' ss']. destruct IH as (H1 & H2 & H3 & H4 & H5 & H6).
    { unfold ss1, id. cbn [alloc_id with_alloc]. lia. }
    repeat (split; [done|]). done.
Qed.
Lemma reserve_id_spec ss :
  server_inv ss [] → alloc_id ss + MAX_SOCKET ≤ INT_MAX →
  let '(id, ss') := reserve_id ss in
  ss_pipe ss' = ss_pipe ss ∧ ss_ev ss' = ss_ev ss ∧ ss_os ss' = ss_os ss ∧
  (∀ l, events_ok ss l → events_ok ss' l) ∧ (∀ i, live (get_slot ss i) → get_slot ss' i = get_slot ss i) ∧
  ((id = -1 ∧ server_inv ss' []) ∨
   (0 ≤ id ∧ server_inv ss' [id] ∧ ∀ q k, q ∈ ss_pipe ss → uses q = Some k → k < id)).
Proof. intros I H. apply reserve_loop_spec; [done|]. rewrite Z2Nat.id by done. done. Qed.
#[local] Opaque reserve_id.

Lemma report_accept_ok ss i l :
  server_inv ss [] → events_ok ss l → alloc_id ss + MAX_SOCKET ≤ INT_MAX →
  ∃ a ss', report_accept strerror ss i = Ok (a, ss') ∧ server_inv ss' [] ∧ events_ok ss' l ∧ ss_ev ss' = ss_ev ss.
Proof.
  intros I E Hmax. unfold report_accept, set_slot_type. cbv zeta. pose proof (ask_suffix (ss_os ss)) as Hs.
  destruct (ask (ss_os ss)) as [a o]. cbn [snd] in Hs. pose proof (with_os_inv ss [] o I Hs) as I0.
  case_decide; [case_decide; by eexists _, _|].
  pose proof (reserve_id_spec (with_os ss o) I0 Hmax) as Hr.
  destruct (reserve_id (with_os ss o)) as [id ss1]. destruct Hr as (Hp & He & Ho & Hev & _ & [(-> & I1)|(Hid & I1 & _)]).
  { rewrite decide_True by lia. eexists _, _. split; [done|]. split; [by apply with_os_inv|]. split; [by apply Hev|done]. }
  rewrite decide_False by lia. set (ss2 := with_os ss1 _). assert (server_inv ss2 [id]) as I2 by by apply with_os_inv.
  assert (events_ok ss2 l) as E2 by by apply Hev.
  destruct (new_fd_spec ss2 id (a_ret a) PROTOCOL_TCP (s_opaque (get_slot ss i)) false I2) as (o2 & Ho2 & [-> | ->]); rewrite bind_Ok; cbv beta iota.
  - eexists _, _. split; [done|]. rewrite get_put_same, put_put.
    match goal with |- server_inv ?x [] ∧ _ => assert (filled ss2 (HASH_ID id) x) as Hf end.
    { eexists _, _. split; [done|]. split; [by apply fresh_wf|]. by split. }
    destruct (filled_server ss2 id _ l Hf I2 E2). split; [done|]. by split.
  - eexists _, _. split; [done|]. assert (filled ss2 (HASH_ID id) (put_slot ss2 (HASH_ID id) (set_type (get_slot ss2 (HASH_ID id)) SOCKET_TYPE_INVALID) o2))
      as Hf by by apply abandon_filled.
    destruct (filled_server ss2 id _ l Hf I2 E2) as [I3 E3]. split; [by apply with_os_inv|]. by split.
Qed.

(** *** Events *)

Lemma with_ctrl_inv ss ex c l : server_inv ss ex → server_inv (with_ctrl ss c l) ex.
Proof. by intros []. Qed.

Lemma handles_event ss i e l f :
  server_inv ss [] → events_ok ss (e :: l) → e_s e = Some i →
  handles (get_slot ss i) (ss_os ss) (f (get_slot ss i) (ss_os ss)) →
  ∃ a ss', on_slot ss i f = Ok (a, ss') ∧ server_inv ss' [] ∧ events_ok ss' l ∧ ss_ev ss' = ss_ev ss ∧
    (events_ok ss' (e :: l) ∨ ∃ t m, a = Some (t, m) ∧ (t = SOCKET_CLOSE ∨ t = SOCKET_ERROR)).
Proof.
  intros I E He (a & s' & o' & Ef & W & Eid & Hs & H). unfold on_slot. rewrite Ef, bind_Ok. eexists a, _. split; [done|].
  assert (event_slots (e :: l) = i :: event_slots l) as Ee by (unfold event_slots; cbn; by rewrite He).
  assert (live (get_slot ss i)) as L by (apply E; rewrite Ee; left).
  assert (events_ok ss l) as El by (eapply events_sublist; [exact E|rewrite Ee; by apply sublist_cons]).
  assert (s_type (get_slot ss i) ≠ SOCKET_TYPE_RESERVE) as Hr by apply L. destruct H as [L'|(Ht & t & m & -> & Htt & _)].
  - assert (s_type s' ≠ SOCKET_TYPE_RESERVE) by apply L'. split; [by apply put_inv|]. split; [by apply events_put_live|]. split; [done|].
    left. by apply events_put_live.
  - split; [apply put_inv; try done; by rewrite Ht|]. split; [|split; [done|right; by exists t, m]].
    destruct E as [E1 E2]. rewrite Ee in E1. apply NoDup_cons in E1 as [Hni Hnd]. split; [done|].
    intros j Hj. rewrite get_put_slot. case_decide as Ej; [by subst j|]. apply E2. rewrite Ee. by right.
Qed.

Lemma poll_event_ok ss e l :
  server_inv ss [] → events_ok ss (e :: l) → alloc_id ss + MAX_SOCKET ≤ INT_MAX →
  ∃ a ss', poll_event strerror ss e l = Ok (a, ss') ∧ server_ok ss'.
Proof.
  intros I E Hmax. unfold poll_event. cbv zeta. set (ss1 := with_ctrl ss (checkctrl ss) l).
  assert (server_inv ss1 []) as I1 by by apply with_ctrl_inv. assert (events_ok ss1 (e :: l)) as E1 by exact E.
  destruct (e_s e) as [i|] eqn:He; cycle 1.
  { eexists _, _. split; [done|]. split; [done|]. eapply events_sublist; [exact E|]. unfold event_slots. cbn. by rewrite He. }
  assert (event_slots (e :: l) = i :: event_slots l) as Ee by (unfold event_slots; cbn; by rewrite He).
  assert (live (get_slot ss1 i)) as L by (apply E1; rewrite Ee; left). pose proof (si_wf _ _ I1 i) as W.
  assert (events_ok ss1 l) as El by (eapply events_sublist; [exact E1|rewrite Ee; by apply sublist_cons]).
  destruct (decide (s_type (get_slot ss1 i) = SOCKET_TYPE_CONNECTING)).
  { destruct (handles_event ss1 i e l (report_connect strerror) I1 E1 He) as (a & ss' & -> & I' & E' & Eev & _).
    - by apply report_connect_handles.
    - eexists _, _. split; [done|]. split; [done|]. by rewrite Eev. }
  destruct (decide (s_type (get_slot ss1 i) = SOCKET_TYPE_LISTEN)).
  { destruct (report_accept_ok ss1 i l I1 El Hmax) as (a & ss' & -> & I' & E' & Eev). eexists _, _. split; [done|]. split; [done|]. by rewrite Eev. }
  rewrite (decide_False (P := s_type (get_slot ss1 i) = SOCKET_TYPE_INVALID)) by apply L.
  destruct (e_read e).
  - set (f := if decide (s_protocol (get_slot ss1 i) = PROTOCOL_TCP) then _ else _).
    destruct (handles_event ss1 i e l f I1 E1 He) as (a & ss' & -> & I' & E' & Eev & Hcl).
    { unfold f. case_decide as Hp; [|by apply forward_udp_handles]. apply forward_tcp_handles; try done. apply I1. }
    rewrite bind_Ok. cbv beta iota zeta. set (t := match a with Some (t, _) => t | None => -1 end).
    assert (t ≠ SOCKET_CLOSE → t ≠ SOCKET_ERROR → events_ok ss' (e :: l)) as Hback.
    { intros H1 H2. destruct Hcl as [?|(t' & m & -> & [->| ->])]; done. }
    destruct (decide (_ ∧ t = SOCKET_UDP)) as [[_ Hu]|_].
    + eexists _, _. split; [done|]. split; [by apply with_ctrl_inv|]. apply Hback; by rewrite Hu.
    + destruct (decide (e_write e = true ∧ _)) as [(_ & H1 & H2)|_].
      * eexists _, _. split; [done|]. split; [by apply with_ctrl_inv|]. specialize (Hback H1 H2).
        change (events_ok ss' (mk_event (Some i) false (e_write e) :: l)). eapply events_sublist; [exact Hback|]. rewrite Ee. done.
      * eexists _, _. split; [done|]. split; [done|]. by rewrite Eev.
  - destruct (e_write e).
    + destruct (handles_event ss1 i e l send_buffer I1 E1 He) as (a & ss' & -> & I' & E' & Eev & _); [by apply send_buffer_safe|].
      eexists _, _. split; [done|]. split; [done|]. by rewrite Eev.
    + eexists _, _. by split.
Qed.

(** The poll reports live sockets, each once. *)
Definition wait_ok (ss : socket_server) : Prop :=
  ss_ev ss = [] → events_ok ss (take 64 (a_events (ask (ss_os ss)).1)).

Lemma poll_step_ok ss :
  server_ok ss → wait_ok ss → alloc_id ss + MAX_SOCKET ≤ INT_MAX →
  ∃ t w ss', poll_step strerror ss = Ok (t, w, ss') ∧ server_ok ss'.
Proof.
  intros OK Hw Hmax. pose proof OK as [I E]. unfold poll_step. destruct (decide (_ ∧ _)) as [[_ Hp]|_].
  - destruct (ctrl_cmd_ok ss OK Hp) as (a & ss' & -> & Ha). rewrite bind_Ok. cbv beta iota. destruct a as [[t m]|].
    + eexists _, _, _. split; [done|]. by apply clear_ok.
    + eexists _, _, _. split; [done|]. destruct Ha as [Ia [?|(? & ? & ? & ? & _)]]; [by split|done].
  - cbv zeta. cbn [ss_ev with_ctrl]. destruct (ss_ev ss) as [|e l] eqn:Eev.
    + specialize (Hw Eev). cbn [ss_os with_ctrl]. pose proof (ask_suffix (ss_os ss)) as Hs.
      destruct (ask (ss_os ss)) as [a o]. cbn [fst snd] in *. set (ss1 := with_ctrl _ true []).
      assert (server_inv ss1 []) as I1 by (apply with_ctrl_inv, with_os_inv; [by apply with_ctrl_inv|done]).
      assert (server_ok ss1) as OK1 by (split; [done|]; split; [constructor|intros k Hk; by apply not_elem_of_nil in Hk]).
      case_decide; [by eexists _, _, _|]. destruct (take 64 (a_events a)) as [|e l] eqn:Et; [by eexists _, _, _|].
      destruct (poll_event_ok ss1 e l I1 Hw Hmax) as (r & ss' & -> & OK'). rewrite bind_Ok. by eexists _, _, _.
    + destruct (poll_event_ok (with_ctrl ss false (ss_ev ss)) e l) as (r & ss' & E' & OK').
      * by apply with_ctrl_inv.
      * exact E.
      * done.
      * rewrite Eev in E'. rewrite E', bind_Ok. by eexists _, _, _.
Qed.

(** ** Calls of other threads *)

Inductive api_call : Type :=
| CConnect (opaque : Z) (addr : cstring) (port : Z)
| CSend (id : Z) (x : sobject)
| CSendLow (id : Z) (x : sobject)
| CExit
| CClose (opaque id : Z)
| CShutdown (opaque id : Z)
| CStart (opaque id : Z)
| CNodelay (id : Z)
| CListen (opaque : Z)
| CBind (opaque fd : Z)
| CUdp (opaque : Z) (addr : option cstring) (port : Z)
| CUdpSend (id : Z) (addr : list Z) (x : sobject)
| CUdpConnect (id : Z).
Definition api (ss : socket_server) (c : api_call) : socket_server :=
  match c with
  | CConnect opaque addr port => (socket_server_connect ss opaque addr port).2
  | CSend id x => (socket_server_send ss id x).2
  | CSendLow id x => socket_server_send_lowpriority ss id x
  | CExit => socket_server_exit ss
  | CClose opaque id => socket_server_close ss opaque id
  | CShutdown opaque id => socket_server_shutdown ss opaque id
  | CStart opaque id => socket_server_start ss opaque id
  | CNodelay id => socket_server_nodelay ss id
  | CListen opaque => (socket_server_listen ss opaque).2
  | CBind opaque fd => (socket_server_bind ss opaque fd).2
  | CUdp opaque addr port => (socket_server_udp ss opaque addr port).2
  | CUdpSend id addr x => (socket_server_udp_send ss id addr x).2
  | CUdpConnect id => (socket_server_udp_connect ss id).2
  end.
(** Calls name ids that were given out; user objects are not sent with low priority. *)
Definition call_ok (ss : socket_server) (c : api_call) : Prop :=
  match c with
  | CSend id _ | CClose _ id | CShutdown _ id | CStart _ id | CNodelay id | CUdpSend id _ _ | CUdpConnect id => id ≤ alloc_id ss
  | CSendLow id x => id ≤ alloc_id ss ∧ so_user x = false
  | _ => True
  end.

Lemma created_app l k : created (l ++ k) = created l ++ created k.
Proof. unfold created. apply omap_app. Qed.
(** A request put behind the others. *)
Lemma order_snoc l q0 :
  (∀ l1 q l2 id, l = l1 ++ q :: l2 → uses q = Some id → id ∉ created l2) →
  (∀ q id, q ∈ l → uses q = Some id → creates q0 ≠ Some id) →
  ∀ l1 q l2 id, l ++ [q0] = l1 ++ q :: l2 → uses q = Some id → id ∉ created l2.
Proof.
  intros H Hnew l1 q l2 id E Hu. destruct l2 as [|q2 l2 _] using rev_ind; [apply not_elem_of_nil|].
  change (q :: l2 ++ [q2]) with ((q :: l2) ++ [q2]) in E. rewrite app_assoc in E. apply app_inj_tail in E as [-> ->].
  rewrite created_app, elem_of_app. intros [Hin|Hin]; [by apply (H l1 q l2 id eq_refl Hu)|].
  apply (Hnew q id); [apply elem_of_app; right; left|done|]. unfold created in Hin. cbn in Hin.
  destruct (creates q2) as [k|]; [|by apply not_elem_of_nil in Hin]. apply list_elem_of_singleton in Hin. by subst.
Qed.
Lemma push_inv ss q :
  server_inv ss [] → creates q = None → request_ok q → (∀ id, uses q = Some id → id ≤ alloc_id ss) →
  server_inv (send_request ss q) [].
Proof.
  intros [H1 H2 H3 H4 H5 H6 H7 H8 H9] Hc Hq Hu.
  assert (created (ss_pipe ss ++ [q]) = created (ss_pipe ss)) as Ec.
  { rewrite created_app. unfold created at 2. cbn. by rewrite Hc, app_nil_r. }
  split; cbn [send_request with_pipe ss_pipe alloc_id ss_os]; rewrite ?Ec; try done.
  - apply order_snoc; [done|]. intros q' id _ _. by rewrite Hc.
  - intros q' id [Hin|Hin]%elem_of_app; [by apply H7|]. apply list_elem_of_singleton in Hin. subst. by apply Hu.
  - apply Forall_app. split; [done|]. by constructor.
Qed.
Lemma push_create_inv ss q id :
  server_inv ss [id] → creates q = Some id → (∀ q k, q ∈ ss_pipe ss → uses q = Some k → k < id) →
  server_inv (send_request ss q) [].
Proof.
  intros [H1 H2 H3 H4 H5 H6 H7 H8 H9] Hc Hlt.
  assert (created (ss_pipe ss ++ [q]) ≡ₚ [id] ++ created (ss_pipe ss)) as Ec.
  { rewrite created_app. unfold created at 2. cbn. rewrite Hc. by rewrite Permutation_app_comm. }
  assert (uses q = None ∧ request_ok q) as [Hu Hok] by by destruct q.
  split; cbn [send_request with_pipe ss_pipe alloc_id ss_os app]; try done.
  - intros k. rewrite Ec. apply H2.
  - intros i. rewrite Ec. apply H3.
  - by rewrite Ec.
  - apply order_snoc; [done|]. intros q' k Hin Hk E. specialize (Hlt q' k Hin Hk). rewrite Hc in E. injection E as ->. lia.
  - intros q' k [Hin|Hin]%elem_of_app Hk; [by apply (H7 q')|]. apply list_elem_of_singleton in Hin. subst. by rewrite Hu in Hk.
  - apply Forall_app. split; [done|]. by constructor.
Qed.

(** An id is reserved and its request queued, or the call gives up. *)
Lemma reserve_and_push ss (f : Z → request) (cleanup : os → os) :
  server_ok ss → alloc_id ss + MAX_SOCKET ≤ INT_MAX → (∀ id, creates (f id) = Some id) →
  (∀ o, answers (cleanup o) = answers o) →
  let '(id, ss1) := reserve_id ss in
  (id < 0 → server_ok (with_os ss1 (cleanup (ss_os ss1))) ∧ server_ok ss1) ∧ (0 ≤ id → server_ok (send_request ss1 (f id))).
Proof.
  intros [I E] Hmax Hf Hg. pose proof (reserve_id_spec ss I Hmax) as H. destruct (reserve_id ss) as [id ss1].
  destruct H as (Hp & Hev & Ho & He & _ & [(-> & I1)|(Hid & I1 & Hlt)]).
  - split; [|lia]. intros _. assert (server_ok ss1) as OK1 by (split; [done|rewrite Hev; by apply He]).
    split; [|done]. split; [apply with_os_inv; [done|by rewrite Hg]|apply OK1].
  - split; [lia|]. intros _. split; [|cbn [ss_ev send_request with_pipe]; rewrite Hev; by apply He].
    apply (push_create_inv ss1 (f id) id); [done|apply Hf|]. intros q k. rewrite Hp. apply Hlt.
Qed.
Lemma with_os_ok ss o : server_ok ss → answers o `suffix_of` answers (ss_os ss) → server_ok (with_os ss o).
Proof. intros [I E] Hs. split; [by apply with_os_inv|done]. Qed.
Lemma request_push_ok ss q :
  server_ok ss → creates q = None → request_ok q → (∀ id, uses q = Some id → id ≤ alloc_id ss) → server_ok (send_request ss q).
Proof. intros [I E] Hc Hq Hu. split; [by apply push_inv|done]. Qed.

Lemma do_bind_suffix o : answers (do_bind o).2 `suffix_of` answers o.
Proof.
  unfold do_bind. pose proof (ask_suffix o) as Hs1. destruct (ask o) as [a1 o1]. cbn [snd] in Hs1. case_decide; [done|].
  pose proof (ask_suffix o1) as Hs2. destruct (ask o1) as [a2 o2]. cbn [snd] in Hs2. assert (answers o2 `suffix_of` answers o) as Hs2' by by etrans.
  case_decide; [done|]. pose proof (ask_suffix o2) as Hs3. destruct (ask o2) as [a3 o3]. cbn [snd] in Hs3.
  assert (answers o3 `suffix_of` answers o) as Hs3' by by etrans. case_decide; [done|].
  pose proof (ask_suffix o3) as Hs4. destruct (ask o3) as [a4 o4]. cbn [snd] in Hs4. case_decide; by etrans.
Qed.
Lemma do_listen_suffix o : answers (do_listen o).2 `suffix_of` answers o.
Proof.
  unfold do_listen. pose proof (do_bind_suffix o) as H. destruct (do_bind o) as [[fd fam] o1]. cbn [snd] in H. case_decide; [done|].
  pose proof (ask_suffix o1) as Hs1. destruct (ask o1) as [a o2]. cbn [snd] in Hs1. case_decide; by etrans.
Qed.

Lemma api_ok ss c : server_ok ss → call_ok ss c → alloc_id ss + MAX_SOCKET ≤ INT_MAX → server_ok (api ss c).
Proof.
  intros OK Hc Hmax.
  assert (∀ u x, server_ok (with_os ss (free_object (ss_os ss) u x))) as Hfree by (intros u x; apply with_os_ok; [done|by rewrite free_object_answers]).
  assert (∀ q id, creates q = None → request_ok q → uses q = Some id → id ≤ alloc_id ss → server_ok (send_request ss q)) as Hpush.
  { intros q id H1 H2 H3 H4. apply request_push_ok; [done|done|done|]. intros k E. rewrite H3 in E. by injection E as <-. }
  destruct c as [opaque addr port|id x|id x| |opaque id|opaque id|opaque id|id|opaque|opaque fd|opaque addr port|id addr x|id]; cbn [api call_ok] in *.
  - unfold socket_server_connect. case_decide; [by apply with_os_ok|].
    pose proof (reserve_and_push ss (λ id, ROpen id port opaque addr) id OK Hmax (λ _, eq_refl) (λ _, eq_refl)) as HR.
    destruct (reserve_id ss) as [id ss1]. destruct HR as [H1 H2]. case_decide; cbn [snd]; [by apply H1|apply H2; lia].
  - unfold socket_server_send. case_decide; cbn [snd]; [apply Hfree|]. apply (Hpush _ id); try done. split; [done|by left].
  - destruct Hc as [Hc Hx]. unfold socket_server_send_lowpriority. case_decide; [apply Hfree|]. apply (Hpush _ id); try done. split; [done|by right].
  - by apply request_push_ok.
  - by apply (Hpush _ id).
  - by apply (Hpush _ id).
  - by apply (Hpush _ id).
  - by apply (Hpush _ id).
  - unfold socket_server_listen. pose proof (do_listen_suffix (ss_os ss)) as Hs. destruct (do_listen (ss_os ss)) as [fd o]. cbn [snd] in Hs.
    assert (server_ok (with_os ss o)) as OK1 by by apply with_os_ok. case_decide; [done|].
    pose proof (reserve_and_push (with_os ss o) (λ id, RListen id fd opaque) (λ o, emit o (SysClose fd)) OK1 Hmax (λ _, eq_refl) (λ _, eq_refl)) as HR.
    destruct (reserve_id (with_os ss o)) as [id ss1]. destruct HR as [H1 H2]. case_decide; cbn [snd]; [by apply H1|apply H2; lia].
  - unfold socket_server_bind.
    pose proof (reserve_and_push ss (λ id, RBind id fd opaque) id OK Hmax (λ _, eq_refl) (λ _, eq_refl)) as HR.
    destruct (reserve_id ss) as [id ss1]. destruct HR as [H1 H2]. case_decide; cbn [snd]; [by apply H1|apply H2; lia].
  - unfold socket_server_udp. set (b := if decide (_ ∨ _) then _ else _).
    assert (answers b.2 `suffix_of` answers (ss_os ss)) as Hs.
    { unfold b. case_decide; [apply do_bind_suffix|]. pose proof (ask_suffix (ss_os ss)) as HA. by destruct (ask (ss_os ss)). }
    destruct b as [[fd family] o]. cbn [snd] in Hs. assert (server_ok (with_os ss o)) as OK1 by by apply with_os_ok. case_decide; [done|].
    pose proof (reserve_and_push (with_os ss o) (λ id, RUdp id fd family opaque) (λ o, emit o (SysClose fd)) OK1 Hmax (λ _, eq_refl) (λ _, eq_refl)) as HR.
    destruct (reserve_id (with_os ss o)) as [id ss1]. destruct HR as [H1 H2]. case_decide; cbn [snd]; [by apply H1|apply H2; lia].
  - unfold socket_server_udp_send. cbv zeta. repeat case_decide; cbn [snd]; try apply Hfree; by apply (Hpush _ id).
  - unfold socket_server_udp_connect. pose proof (ask_suffix (ss_os ss)) as Hs. destruct (ask (ss_os ss)) as [a o]. cbn [snd] in Hs.
    assert (server_ok (with_os ss o)) as OK1 by by apply with_os_ok.
    repeat case_decide; cbn [snd]; try done; (apply request_push_ok; [done|done| |by intros k [= <-]]); [by left|by right].
Qed.

(** ** Every run *)

Inductive server_step (ss ss' : socket_server) : Prop :=
| step_poll t w :
    wait_ok ss → alloc_id ss + MAX_SOCKET ≤ INT_MAX → poll_step strerror ss = Ok (t, w, ss') → server_step ss ss'
| step_call c :
    call_ok ss c → alloc_id ss + MAX_SOCKET ≤ INT_MAX → ss' = api ss c → server_step ss ss'.

Lemma server_create_ok o : Forall answer_ok (answers o) → server_ok (socket_server_create o).
Proof.
  intros H. split; [split|]; try done; cbn.
  - intros i. apply sock_wf_fresh.
  - intros id Hin. by apply not_elem_of_nil in Hin.
  - constructor.
  - by intros [] ? ? ?.
  - intros q id Hq. by apply not_elem_of_nil in Hq.
  - split; [constructor|]. intros i Hi. by apply not_elem_of_nil in Hi.
Qed.
Lemma reach_ok ss ss' : rtc server_step ss ss' → server_ok ss → server_ok ss'.
Proof.
  induction 1 as [|ss1 ss2 ss3 Hst _ IH]; [done|]. intros OK. apply IH. destruct Hst as [t w Hw Hmax E|c Hc Hmax ->].
  - destruct (poll_step_ok ss1 OK Hw Hmax) as (t' & w' & ss' & E' & OK'). rewrite E in E'. by simplify_eq.
  - by apply api_ok.
Qed.

Lemma server_release_ok ss : (∀ i, sock_wf (get_slot ss i)) → is_Ok (socket_server_release ss).
Proof.
  intros W. unfold socket_server_release.
  destruct (c_for_spec (λ _ ss, ∀ i, sock_wf (get_slot ss i)) release_slot (Z.to_nat MAX_SOCKET) 0 ss W) as (ss' & E & _).
  - intros j st _ Wj. unfold release_slot. case_decide as Hr; [|by eexists].
    destruct (decide (s_type (get_slot st j) = SOCKET_TYPE_INVALID)) as [Hi|Hi].
    + unfold force_close. rewrite decide_True by done. rewrite bind_Ok. eexists. split; [done|]. intros i. rewrite get_put_slot. by case_decide.
    + destruct (force_close_live (get_slot st j) (ss_os st) (Wj j)) as (m & s' & o' & -> & W' & _); [by split|]. rewrite bind_Ok.
      eexists. split; [done|]. intros i. rewrite get_put_slot. by case_decide.
  - by exists ss'.
Qed.

(** C6: the socket server never fails, under these conditions. Other threads make any
    calls with ids they were given, in any order, but send user objects (their own free
    function) only with the high priority, for the low-priority path asserts that a
    packet is plain memory; a call takes effect as one step between two turns of the
    poll, so two threads do not reserve the same slot at once. The operating system
    answers anything, but reads are shorter than 2^30 bytes and a poll reports sockets
    that are registered, once each. Fewer than about 2^31 sockets are
    opened. Then the next turn of the poll succeeds, so no assertion on a slot or a write
    list fails, nothing is read before it is set, and no size overflows; a reserved slot
    has exactly one request that will fill it; and the server can be released. *)
Theorem socket_server_never_fails o ss :
  Forall answer_ok (answers o) → rtc server_step (socket_server_create o) ss →
  (wait_ok ss → alloc_id ss + MAX_SOCKET ≤ INT_MAX → is_Ok (poll_step strerror ss)) ∧
  (∀ i, s_type (get_slot ss i) = SOCKET_TYPE_RESERVE → s_id (get_slot ss i) ∈ created (ss_pipe ss)) ∧
  NoDup (created (ss_pipe ss)) ∧
  is_Ok (socket_server_release ss).
Proof.
  intros Ha Hrun. pose proof (reach_ok _ _ Hrun (server_create_ok o Ha)) as OK. pose proof OK as [I E]. split; [|split; [|split]].
  - intros Hw Hmax. destruct (poll_step_ok ss OK Hw Hmax) as (t & w & ss' & -> & _). by eexists.
  - intros i Hi. apply (si_only _ _ I i Hi).
  - apply (si_nodup _ _ I).
  - apply server_release_ok, I.
Qed.
End Errors.

(** A socket is opened, sent to and closed. *)
Definition example_answers : list answer :=
  [mk_answer 0 0 [1] None 0 [] []; mk_answer 7 0 [] None 0 [] []; mk_answer 0 0 [] None 0 [] [];
   mk_answer 0 0 [] None 0 [] []; mk_answer 0 0 [] (Some (lit "10.0.0.1")) 0 [] []].
Lemma socket_server_never_fails_witness :
  ∃ ss, is_Ok (poll_step (λ _, []) ss) ∧ ss_pipe ss = [ROpen 1 80 5 (lit "host"); RSend 1 (Plain 100 [1; 2]) PRIORITY_LOW].
Proof.
  set (ss0 := socket_server_create (mk_os example_answers [])).
  set (ss1 := api ss0 (CConnect 5 (lit "host") 80)). set (ss2 := api ss1 (CSendLow 1 (Plain 100 [1; 2]))).
  assert (rtc (server_step (λ _, [])) ss0 ss2) as Hrun.
  { apply rtc_l with ss1.
    - apply (step_call _ ss0 ss1 (CConnect 5 (lit "host") 80)); [exact I|vm_compute; discriminate|reflexivity].
    - apply rtc_once, (step_call _ ss1 ss2 (CSendLow 1 (Plain 100 [1; 2])));
        [split; [vm_compute; discriminate|reflexivity]|vm_compute; discriminate|reflexivity]. }
  exists ss2. split; [|vm_compute; reflexivity].
  destruct (socket_server_never_fails (λ _, []) (mk_os example_answers []) ss2) as (Hok & _).
  - unfold answer_ok. repeat constructor.
  - exact Hrun.
  - apply Hok; [|vm_compute; discriminate]. intros _. split; [vm_compute; constructor|].
    intros i Hi. vm_compute in Hi. by apply not_elem_of_nil in Hi.
Defined.
