(* ===== verification/SocketOwn.v ===== *)
(** * Who frees the buffers

    Every object handed to the socket server has one owner: the request in the pipe, the
    write list of a socket, or it has been freed. No operation of the server loses one or
    frees one twice, for whatever calls are made and whatever the operating system
    answers. *)
From Stdlib Require Import String Permutation.
From stdpp Require Import base numbers relations list gmap.
From S2P Require Import Prelude CString Socket SocketProps SocketSafe.

(** Permutations of concatenations, by counting. *)
Ltac perm_count :=
  try apply (Permutation_count_occ (decide_rel (=))); try intros;
  repeat match goal with
  | H : _ ≡ₚ _ |- _ => rewrite (Permutation_count_occ (decide_rel (=))) in H
  end;
  repeat match goal with
  | H : ∀ x : bool * Z, count_occ _ _ x = count_occ _ _ x, y : bool * Z |- _ => specialize (H y)
  end;
  rewrite ?count_occ_app in *; lia.

Definition list_handles (s : socket) : list (bool * Z) := wb_handle <$> s_high s ++ s_low s.
(** The objects of a socket's lists and those freed so far. *)
Definition held (s : socket) (o : os) : list (bool * Z) := frees (calls o) ++ list_handles s.
(** Of a handler of one socket that is given the objects [x]: none is lost, none is freed
    twice. *)
Definition conserves (s : socket) (o : os) (x : list (bool * Z)) (r : result (answered * socket * os)) : Prop :=
  ∀ a s' o', r = Ok (a, s', o') → held s' o' ≡ₚ held s o ++ x.

Lemma frees_added o o' fd w f : added o o' fd w f → frees (calls o') = frees (calls o) ++ f.
Proof. intros H. by apply (added_frees _ _ _ _ _ _ H). Qed.
Lemma frees_emit o c : freed_by c = None → frees (calls (emit o c)) = frees (calls o).
Proof. intros E. cbn [emit calls]. rewrite frees_app. unfold frees at 2. cbn. by rewrite E, app_nil_r. Qed.
Lemma frees_free o u x : frees (calls (free_object o u x)) = frees (calls o) ++ [(u, x)].
Proof. apply (frees_added _ _ 0 []), added_free. Qed.
Lemma frees_ask o : frees (calls (ask o).2) = frees (calls o).
Proof. by rewrite ask_calls. Qed.
Lemma handles_lists s h l n : list_handles (set_lists s h l n) = (wb_handle <$> h) ++ (wb_handle <$> l).
Proof. unfold list_handles. cbn. apply fmap_app. Qed.

Lemma force_close_held s o m s' o' : force_close s o = Ok (m, s', o') → held s' o' ≡ₚ held s o.
Proof.
  intros E. destruct (decide (s_type s = SOCKET_TYPE_INVALID)) as [Hi|Hi].
  { unfold force_close in E. rewrite decide_True in E by done. by injection E as <- <- <-. }
  destruct (decide (s_type s = SOCKET_TYPE_RESERVE)) as [Hr|Hr].
  { unfold force_close in E. rewrite decide_False, bool_decide_eq_false_2 in E by tauto. done. }
  destruct (force_close_spec s o Hi Hr) as (m1 & o1 & E1 & _ & Ha). rewrite E in E1. injection E1 as <- -> <-.
  unfold held. rewrite (frees_added _ _ _ _ _ (Ha 0)). unfold list_handles at 1. cbn. by rewrite app_nil_r.
Qed.

Lemma send_tcp_held fd l n o :
  let '(_, l', _, o') := send_tcp fd l n o in frees (calls o') ++ (wb_handle <$> l') = frees (calls o) ++ (wb_handle <$> l).
Proof.
  destruct (send_tcp fd l n o) as [[[f l'] n'] o'] eqn:E. apply send_tcp_spec in E as (pre & suf & j & -> & -> & _ & Ha & _).
  by rewrite (frees_added _ _ _ _ _ Ha), advance_handles, fmap_app, <- app_assoc.
Qed.
Lemma send_udp_held s l n o :
  let '(l', _, o') := send_udp s l n o in frees (calls o') ++ (wb_handle <$> l') = frees (calls o) ++ (wb_handle <$> l).
Proof.
  revert n o. induction l as [|w l IH]; intros n o; cbn [send_udp]; [done|]. pose proof (frees_ask o) as Ef.
  destruct (ask o) as [a o1]. cbn [snd] in Ef. cbv zeta. destruct (decide (a_ret a < 0)).
  - case_decide; [by rewrite Ef|]. by rewrite frees_emit, Ef.
  - set (o2 := write_buffer_free _ w). specialize (IH (n - zlen (wb_data w)) o2). destruct (send_udp s l _ o2) as [[l' n'] o']. rewrite IH.
    unfold o2, write_buffer_free. rewrite frees_free, frees_emit, Ef by done. by rewrite <- app_assoc.
Qed.
Lemma put_wlist_held s high l n o o' :
  frees (calls o') ++ (wb_handle <$> l) = frees (calls o) ++ (wb_handle <$> wlist s high) → held (put_wlist s high l n) o' ≡ₚ held s o.
Proof.
  intros Hh. assert (frees (calls o') ++ (wb_handle <$> l) ≡ₚ frees (calls o) ++ (wb_handle <$> wlist s high)) as Hp by by rewrite Hh.
  clear Hh. unfold held. destruct high; cbn [put_wlist wlist] in *; rewrite handles_lists; unfold list_handles; rewrite fmap_app; perm_count.
Qed.
Lemma send_list_held s high o : conserves s o [] (send_list s high o).
Proof.
  intros a s' o' E. rewrite app_nil_r. unfold send_list in E. case_decide.
  - pose proof (send_tcp_held (s_fd s) (wlist s high) (s_wb_size s) o) as Hh. destruct (send_tcp _ _ _ _) as [[[f l] n] o1].
    apply (put_wlist_held _ _ _ n) in Hh. destruct f; [|injection E as <- <- <-; done].
    apply bind_Ok_inv in E as ([[m s1] o2] & Ef & E). injection E as <- <- <-. by rewrite (force_close_held _ _ _ _ _ Ef).
  - pose proof (send_udp_held s (wlist s high) (s_wb_size s) o) as Hh. destruct (send_udp _ _ _ _) as [[l n] o1]. injection E as <- <- <-.
    by apply put_wlist_held.
Qed.
Lemma send_buffer_held s o : conserves s o [] (send_buffer s o).
Proof.
  intros a s' o' E. unfold send_buffer in E. apply bind_Ok_inv in E as (_ & _ & E). apply bind_Ok_inv in E as ([[a1 s1] o1] & E1 & E).
  apply send_list_held in E1. rewrite app_nil_r in E1 |- *. rewrite <- E1. clear E1. destruct a1 as [p|]; [by injection E as <- <- <-|].
  destruct (s_high s1) as [|w h] eqn:Eh; [|by injection E as <- <- <-]. destruct (s_low s1) as [|w l] eqn:El.
  - cbv zeta in E. set (o2 := emit o1 _) in E. assert (held s1 o2 = held s1 o1) as Eo by (unfold held, o2; by rewrite frees_emit).
    destruct (decide (s_type s1 = SOCKET_TYPE_HALFCLOSE)); [|injection E as <- <- <-; by rewrite Eo].
    apply bind_Ok_inv in E as ([[m s2] o3] & Ef & E). injection E as <- <- <-. by rewrite (force_close_held _ _ _ _ _ Ef), Eo.
  - apply bind_Ok_inv in E as ([[a2 s2] o2] & E2 & E). apply send_list_held in E2. rewrite app_nil_r in E2. rewrite <- E2.
    destruct a2 as [p|]; [by injection E as <- <- <-|]. destruct (list_uncomplete (s_low s2)); [|by injection E as <- <- <-].
    apply bind_Ok_inv in E as (s3 & E3 & E). injection E as <- <- <-. unfold raise_uncomplete in E3.
    destruct (s_low s2) as [|w2 l2] eqn:El2; [done|]. apply bind_Ok_inv in E3 as (? & Ea & E3). injection E3 as <-.
    apply c_assert_Ok, bool_decide_eq_true, length_zero_iff_nil in Ea. unfold held. rewrite handles_lists.
    unfold list_handles. by rewrite Ea, El2.
Qed.
(** A handler that closes the socket behind calls that free nothing. *)
Lemma closes_held s o o1 (g : smsg → answered) (f : os → os) x :
  frees (calls o1) = frees (calls o) → (∀ o', frees (calls (f o')) = frees (calls o') ++ x) →
  conserves s o x (r ← force_close s o1; let '(m, s, o) := r in Ok (g m, s, f o)).
Proof.
  intros Ef Hf a s' o' E. apply bind_Ok_inv in E as ([[m s1] o2] & Ec & E). injection E as <- <- <-.
  apply force_close_held in Ec. unfold held in *. rewrite Hf. rewrite Ef in Ec. perm_count.
Qed.
(** A handler that leaves the lists and frees what it is given. *)
Lemma frees_held s o a s1 o1 x :
  list_handles s1 = list_handles s → frees (calls o1) = frees (calls o) ++ x → conserves s o x (Ok (a, s1, o1)).
Proof. intros El Ef a' s' o' E. injection E as <- <- <-. unfold held. rewrite El, Ef. perm_count. Qed.
(** A handler that queues what it is given. *)
Lemma queues_held s o a s1 o1 x :
  list_handles s1 ≡ₚ list_handles s ++ x → frees (calls o1) = frees (calls o) → conserves s o x (Ok (a, s1, o1)).
Proof. intros El Ef a' s' o' E. injection E as <- <- <-. unfold held. rewrite El, Ef. perm_count. Qed.
Lemma append_high_handles s w : list_handles (append_high s w) ≡ₚ list_handles s ++ [wb_handle w].
Proof. unfold append_high. rewrite handles_lists. unfold list_handles. rewrite !fmap_app. cbn. perm_count. Qed.
Lemma append_low_handles s w : list_handles (append_low s w) ≡ₚ list_handles s ++ [wb_handle w].
Proof. unfold append_low. rewrite handles_lists. unfold list_handles. rewrite !fmap_app. cbn. perm_count. Qed.
Lemma append_udp_handles s p x addr : list_handles (append_sendbuffer_udp s p x addr) ≡ₚ list_handles s ++ [ob_handle x].
Proof. unfold append_sendbuffer_udp. case_decide; [apply append_high_handles|apply append_low_handles]. Qed.

Lemma send_socket_held s id x p u o : conserves s o [ob_handle x] (send_socket_on s id x p u o).
Proof.
  unfold send_socket_on. case_decide; [apply frees_held; [done|apply frees_free]|].
  case_decide; [apply frees_held; [done|by rewrite frees_free, frees_emit]|]. case_decide.
  - case_decide.
    + pose proof (frees_ask o) as Ea. destruct (ask o) as [a o1]. cbn [snd] in Ea. cbv zeta. case_decide.
      * apply (closes_held s o _ (λ m, Some (SOCKET_CLOSE, m)) (λ o, free_object o (so_user x) (so_handle x)));
          [by rewrite frees_emit|intros o'; apply frees_free].
      * set (n := if decide (a_ret a < 0) then 0 else _). set (o2 := if decide (a_ret a < 0) then o1 else _).
        assert (frees (calls o2) = frees (calls o)) as E2 by (unfold o2; case_decide; by rewrite ?frees_emit).
        case_decide; [apply frees_held; [done|by rewrite frees_free, E2]|].
        apply queues_held; [apply append_high_handles|by rewrite frees_emit].
    + intros a s' o' E. apply bind_Ok_inv in E as (addr & _ & E). revert a s' o' E. pose proof (frees_ask o) as Ea.
      destruct (ask o) as [a o1]. cbn [snd] in Ea. cbv zeta. case_decide.
      * apply queues_held; [apply append_udp_handles|by rewrite frees_emit].
      * apply frees_held; [done|]. by rewrite frees_free, frees_emit, Ea.
  - case_decide.
    + apply queues_held; [|done]. case_decide; [apply append_low_handles|apply append_high_handles].
    + intros a s' o' E. apply bind_Ok_inv in E as (addr & _ & E). revert a s' o' E.
      by apply queues_held; [apply append_udp_handles|].
Qed.
Lemma close_socket_held s id shutdown opaque o : conserves s o [] (close_socket_on s id shutdown opaque o).
Proof.
  unfold close_socket_on. case_decide; [apply frees_held; [done|by rewrite app_nil_r]|]. intros a s' o' E.
  apply bind_Ok_inv in E as ([[a1 s1] o1] & E1 & E).
  assert (held s1 o1 ≡ₚ held s o) as H1.
  { destruct (send_buffer_empty s); [by injection E1 as <- <- <-|]. apply send_buffer_held in E1. by rewrite E1, app_nil_r. }
  rewrite app_nil_r, <- H1. destruct a1 as [p|]; [by injection E as <- <- <-|]. case_decide.
  - apply bind_Ok_inv in E as ([[m s2] o2] & Ef & E). injection E as <- <- <-. by apply force_close_held in Ef.
  - by injection E as <- <- <-.
Qed.
Lemma set_udp_held s id address o : conserves s o [] (set_udp_address_on s id address o).
Proof.
  unfold set_udp_address_on. case_decide; [apply frees_held; [done|by rewrite app_nil_r]|].
  case_decide; [apply frees_held; [done|by rewrite app_nil_r]|]. cbv zeta. destruct (s_p s); [done|]. apply frees_held; [done|by rewrite app_nil_r].
Qed.

Section Errors.
Context (strerror : Z → cstring).

Lemma start_socket_held s id opaque o : conserves s o [] (start_socket_on strerror s id opaque o).
Proof.
  unfold start_socket_on. cbv zeta. case_decide; [apply frees_held; [done|by rewrite app_nil_r]|]. case_decide.
  - pose proof (frees_ask o) as Ea. destruct (ask o) as [a o1]. cbn [snd] in Ea. case_decide.
    + apply (closes_held s o o1 (λ m, Some (SOCKET_ERROR, with_data m (Some (strerror (a_errno a))))) (λ o, o)); [done|]. intros o'. by rewrite app_nil_r.
    + apply frees_held; [done|]. by rewrite frees_emit, Ea, app_nil_r.
  - case_decide; (apply frees_held; [done|by rewrite app_nil_r]).
Qed.
Lemma forward_tcp_held s o : conserves s o [] (forward_message_tcp strerror s o).
Proof.
  unfold forward_message_tcp. destruct (s_p s) as [sz|]; [|done]. pose proof (frees_ask o) as Ea. destruct (ask o) as [a o1]. cbn [snd] in Ea.
  case_decide; [case_decide; [apply frees_held; [done|by rewrite Ea, app_nil_r]|case_decide]|].
  - apply frees_held; [done|]. by rewrite frees_emit, Ea, app_nil_r.
  - apply (closes_held s o o1 (λ m, Some (SOCKET_ERROR, with_data m (Some (strerror (a_errno a))))) (λ o, o)); [done|]. intros o'. by rewrite app_nil_r.
  - cbv zeta. case_decide.
    + apply (closes_held s o o1 (λ m, Some (SOCKET_CLOSE, m)) (λ o, o)); [done|]. intros o'. by rewrite app_nil_r.
    + case_decide; [apply frees_held; [done|by rewrite Ea, app_nil_r]|]. intros a' s' o' E. apply bind_Ok_inv in E as (size & _ & E).
      injection E as <- <- <-. unfold held. by rewrite Ea, app_nil_r.
Qed.
Lemma forward_udp_held s o : conserves s o [] (forward_message_udp strerror s o).
Proof.
  unfold forward_message_udp. pose proof (frees_ask o) as Ea. destruct (ask o) as [a o1]. cbn [snd] in Ea. case_decide; [case_decide|].
  - apply frees_held; [done|by rewrite Ea, app_nil_r].
  - apply (closes_held s o o1 (λ m, Some (SOCKET_ERROR, with_data m (Some (strerror (a_errno a))))) (λ o, o)); [done|]. intros o'. by rewrite app_nil_r.
  - cbv zeta. destruct (decide (s_protocol s ≠ _)); (apply frees_held; [done|by rewrite Ea, app_nil_r]).
Qed.
Lemma report_connect_held s o : conserves s o [] (report_connect strerror s o).
Proof.
  unfold report_connect. pose proof (frees_ask o) as Ea. destruct (ask o) as [a o1]. cbn [snd] in Ea. case_decide.
  - apply (closes_held s o o1 (λ m, Some (SOCKET_ERROR, with_data m (Some (strerror (a_errno a))))) (λ o, o)); [done|]. intros o'. by rewrite app_nil_r.
  - cbv zeta. set (o2 := if send_buffer_empty _ then _ else _).
    assert (frees (calls o2) = frees (calls o)) as E2 by (unfold o2; case_match; by rewrite ?frees_emit).
    pose proof (frees_ask o2) as E3. destruct (ask o2) as [b o3]. cbn [snd] in E3. apply frees_held; [done|]. by rewrite E3, E2, app_nil_r.
Qed.

(** ** The server *)

Definition req_handles (q : request) : list (bool * Z) :=
  match q with RSend _ x _ => [ob_handle x] | RSendUdp _ x _ => [ob_handle x] | _ => [] end.
(** The objects in the requests of the pipe, and in the lists of all sockets. *)
Definition pipe_handles (l : list request) : list (bool * Z) := concat (req_handles <$> l).
Definition slot_handles (m : gmap Z socket) : list (bool * Z) := concat (list_handles ∘ snd <$> map_to_list m).
Definition owned (ss : socket_server) : list (bool * Z) :=
  frees (calls (ss_os ss)) ++ pipe_handles (ss_pipe ss) ++ slot_handles (slot ss).
(** The slots are those of the array. *)
Definition slots_in (ss : socket_server) : Prop := ∀ i, is_Some (slot ss !! i) → 0 ≤ i < MAX_SOCKET.
(** A step of the server that is given the objects [x]. *)
Definition keeps (ss : socket_server) (x : list (bool * Z)) (ss' : socket_server) : Prop :=
  owned ss' ≡ₚ owned ss ++ x ∧ (slots_in ss → slots_in ss').

Lemma own_refl ss : keeps ss [] ss.
Proof. split; [by rewrite app_nil_r|done]. Qed.
Lemma own_trans ss x ss1 ss2 : keeps ss x ss1 → keeps ss1 [] ss2 → keeps ss x ss2.
Proof. intros [H1 S1] [H2 S2]. split; [|tauto]. rewrite app_nil_r in H2. by rewrite H2, H1. Qed.
Lemma slot_range id : 0 ≤ HASH_ID id < MAX_SOCKET.
Proof. apply Z.mod_pos_bound. done. Qed.

Lemma slot_handles_insert m i s :
  list_handles (default fresh_slot (m !! i)) ++ slot_handles (<[i := s]> m) ≡ₚ list_handles s ++ slot_handles m.
Proof.
  unfold slot_handles. destruct (m !! i) as [s0|] eqn:Hi; cbn [default from_option id].
  - rewrite <- (insert_delete_eq m i s). rewrite <- (insert_id m i s0 Hi) at 2. rewrite <- (insert_delete_eq m i s0).
    rewrite !map_to_list_insert by apply lookup_delete_eq. cbn [fmap list_fmap concat compose snd]. perm_count.
  - rewrite map_to_list_insert by done. done.
Qed.
Lemma put_keeps ss i s o x :
  0 ≤ i < MAX_SOCKET ∨ is_Some (slot ss !! i) → held s o ≡ₚ held (get_slot ss i) (ss_os ss) ++ x → keeps ss x (put_slot ss i s o).
Proof.
  intros Hi Hh. split.
  - unfold owned. cbn [put_slot ss_os ss_pipe slot]. pose proof (slot_handles_insert (slot ss) i s) as Hs. fold (get_slot ss i) in Hs.
    unfold held in Hh. perm_count.
  - intros H j. cbn [put_slot slot]. destruct (decide (j = i)) as [->|Hne]; [intros _; destruct Hi; [done|by apply H]|].
    rewrite lookup_insert_ne by done. apply H.
Qed.
Lemma on_slot_keeps ss i f x a ss' :
  on_slot ss i f = Ok (a, ss') → 0 ≤ i < MAX_SOCKET ∨ is_Some (slot ss !! i) → (∀ s o, conserves s o x (f s o)) → keeps ss x ss'.
Proof.
  intros E Hi Hf. apply bind_Ok_inv in E as ([[a1 s1] o1] & E1 & E). injection E as <- <-. apply put_keeps; [done|]. by eapply Hf.
Qed.
Lemma os_keeps ss o x : frees (calls o) = frees (calls (ss_os ss)) ++ x → keeps ss x (with_os ss o).
Proof. intros E. split; [|done]. unfold owned. cbn [with_os ss_os ss_pipe slot]. rewrite E. perm_count. Qed.
Lemma os_quiet ss o : frees (calls o) = frees (calls (ss_os ss)) → keeps ss [] (with_os ss o).
Proof. intros E. apply os_keeps. by rewrite app_nil_r. Qed.
Lemma own_ctrl ss c l : keeps ss [] (with_ctrl ss c l).
Proof. split; [by rewrite app_nil_r|done]. Qed.
Lemma set_type_keeps ss id t : keeps ss [] (set_slot_type ss (HASH_ID id) t).
Proof. apply put_keeps; [left; apply slot_range|]. by rewrite app_nil_r. Qed.
Lemma request_keeps ss q : keeps ss (req_handles q) (send_request ss q).
Proof.
  split; [|done]. unfold owned, pipe_handles. cbn [send_request with_pipe ss_os ss_pipe slot]. rewrite fmap_app, concat_app. cbn.
  rewrite app_nil_r. perm_count.
Qed.
Lemma pop_owned ss q l : ss_pipe ss = q :: l → owned ss ≡ₚ owned (with_pipe ss l) ++ req_handles q.
Proof. intros E. unfold owned, pipe_handles. cbn [with_pipe ss_os ss_pipe slot]. rewrite E. cbn. perm_count. Qed.

Lemma new_fd_keeps ss id fd protocol opaque add ok ss' :
  new_fd ss id fd protocol opaque add = Ok (ok, ss') → keeps ss [] ss'.
Proof.
  intros E. unfold new_fd in E. cbv zeta in E. apply bind_Ok_inv in E as (_ & _ & E).
  assert (∃ b o, (if add then let '(a, o) := ask (ss_os ss) in if decide (a_ret a ≠ 0) then (false, o) else (true, emit o (SysPollAdd fd (HASH_ID id)))
    else (true, ss_os ss)) = (b, o) ∧ frees (calls o) = frees (calls (ss_os ss))) as (b & o & Eo & Ef).
  { destruct add; [|by eexists _, _]. pose proof (frees_ask (ss_os ss)) as Ea. destruct (ask (ss_os ss)) as [a o]. cbn [snd] in Ea.
    case_decide; eexists _, _; (split; [done|]); by rewrite ?frees_emit. }
  rewrite Eo in E. destruct b.
  - apply bind_Ok_inv in E as (? & H1 & E). apply bind_Ok_inv in E as (? & H2 & E). injection E as <- <-.
    apply c_assert_Ok, bool_decide_eq_true, length_zero_iff_nil in H1. apply c_assert_Ok, bool_decide_eq_true, length_zero_iff_nil in H2.
    apply put_keeps; [left; apply slot_range|]. unfold held, list_handles. rewrite H1, H2, Ef. cbn. by rewrite !app_nil_r.
  - injection E as <- <-. apply put_keeps; [left; apply slot_range|]. unfold held. by rewrite Ef, app_nil_r.
Qed.
Lemma try_connect_quiet n o st er : frees (calls (try_connect n o st er).2) = frees (calls o).
Proof.
  revert o st er. induction n as [|n IH]; intros o st er; cbn [try_connect]; [done|]. pose proof (frees_ask o) as Ea.
  destruct (ask o) as [a o1]. cbn [snd] in Ea. cbv zeta. case_decide; [by rewrite IH|].
  set (o2 := emit o1 _). pose proof (frees_ask o2) as Ec. assert (frees (calls o2) = frees (calls o)) as E2 by (unfold o2; by rewrite frees_emit).
  destruct (ask o2) as [c o3]. cbn [snd] in Ec. case_decide; cbn [snd]; [rewrite IH, frees_emit by done|]; congruence.
Qed.
Lemma open_socket_keeps ss id port opaque host a ss' : open_socket strerror ss id port opaque host = Ok (a, ss') → keeps ss [] ss'.
Proof.
  intros E. unfold open_socket in E. cbv zeta in E. pose proof (frees_ask (ss_os ss)) as Ea. destruct (ask (ss_os ss)) as [ai o]. cbn [snd] in Ea.
  case_decide; [injection E as <- <-; eapply own_trans; [by apply os_quiet|apply set_type_keeps]|].
  pose proof (try_connect_quiet (length (a_data ai)) o 0 0) as Et. destruct (try_connect _ _ _ _) as [[[sock status] errno] o1]. cbn [snd] in Et.
  assert (keeps ss [] (with_os ss o1)) as K1 by (apply os_quiet; congruence).
  case_decide; [injection E as <- <-; eapply own_trans; [exact K1|apply set_type_keeps]|].
  apply bind_Ok_inv in E as ([ok ss1] & En & E). apply new_fd_keeps in En. pose proof (own_trans _ _ _ _ K1 En) as K2.
  destruct ok.
  - case_decide.
    + set (ss2 := set_slot_type ss1 _ _) in E. assert (keeps ss [] ss2) as K3 by (eapply own_trans; [exact K2|apply set_type_keeps]).
      pose proof (frees_ask (ss_os ss2)) as Eb. destruct (ask (ss_os ss2)) as [b o2]. cbn [snd] in Eb. injection E as <- <-.
      eapply own_trans; [exact K3|by apply os_quiet].
    + injection E as <- <-. eapply own_trans; [|apply os_quiet; by rewrite frees_emit].
      eapply own_trans; [exact K2|apply set_type_keeps].
  - injection E as <- <-. eapply own_trans; [|apply set_type_keeps]. eapply own_trans; [exact K2|apply os_quiet; by rewrite frees_emit].
Qed.
Lemma listen_socket_keeps ss id fd opaque a ss' : listen_socket ss id fd opaque = Ok (a, ss') → keeps ss [] ss'.
Proof.
  intros E. apply bind_Ok_inv in E as ([ok ss1] & En & E). apply new_fd_keeps in En. destruct ok; injection E as <- <-.
  - eapply own_trans; [exact En|apply set_type_keeps].
  - eapply own_trans; [|apply set_type_keeps]. eapply own_trans; [exact En|apply os_quiet; by rewrite frees_emit].
Qed.
Lemma bind_socket_keeps ss id fd opaque a ss' : bind_socket ss id fd opaque = Ok (a, ss') → keeps ss [] ss'.
Proof.
  intros E. apply bind_Ok_inv in E as ([ok ss1] & En & E). apply new_fd_keeps in En. destruct ok; injection E as <- <-; [|done].
  eapply own_trans; [exact En|apply set_type_keeps].
Qed.
Lemma add_udp_keeps ss id fd family opaque ss' : add_udp_socket ss id fd family opaque = Ok ss' → keeps ss [] ss'.
Proof.
  intros E. unfold add_udp_socket in E. cbv zeta in E. apply bind_Ok_inv in E as ([ok ss1] & En & E). apply new_fd_keeps in En.
  destruct ok; injection E as <-.
  - eapply own_trans; [exact En|]. apply put_keeps; [left; apply slot_range|]. by rewrite app_nil_r.
  - eapply own_trans; [|apply set_type_keeps]. eapply own_trans; [exact En|apply os_quiet; by rewrite frees_emit].
Qed.
Lemma setopt_keeps ss id what value : keeps ss [] (setopt_socket ss id what value).
Proof. unfold setopt_socket. cbv zeta. case_decide; [apply own_refl|apply os_quiet; by rewrite frees_emit]. Qed.

Lemma ctrl_cmd_keeps ss a ss' : ctrl_cmd strerror ss = Ok (a, ss') → keeps ss [] ss'.
Proof.
  intros E. unfold ctrl_cmd in E. destruct (ss_pipe ss) as [|q l] eqn:Ep; [done|]. cbv zeta in E. apply pop_owned in Ep.
  assert (keeps (with_pipe ss l) (req_handles q) ss') as [Ho Hs].
  { destruct q as [id op|id fd op|id fd op|id sh op|id port op host| |id x p|id x ad|id ad|id what v|id fd fam op]; cbn [req_handles].
    - eapply on_slot_keeps; [exact E|left; apply slot_range|intros; apply start_socket_held].
    - by eapply bind_socket_keeps.
    - by eapply listen_socket_keeps.
    - eapply on_slot_keeps; [exact E|left; apply slot_range|intros; apply close_socket_held].
    - by eapply open_socket_keeps.
    - injection E as <- <-. apply own_refl.
    - eapply on_slot_keeps; [exact E|left; apply slot_range|intros; apply send_socket_held].
    - eapply on_slot_keeps; [exact E|left; apply slot_range|intros; apply send_socket_held].
    - eapply on_slot_keeps; [exact E|left; apply slot_range|intros; apply set_udp_held].
    - injection E as <- <-. apply setopt_keeps.
    - apply bind_Ok_inv in E as (ss1 & E & E1). injection E1 as <- <-. by eapply add_udp_keeps. }
  split; [|exact Hs]. rewrite app_nil_r. by rewrite Ho, Ep.
Qed.
Lemma reserve_loop_keeps n ss : keeps ss [] (reserve_loop n ss).2.
Proof.
  revert ss. induction n as [|n IH]; intros ss; cbn [reserve_loop]; [apply own_refl|]. cbv zeta.
  set (ss1 := with_alloc ss _). assert (keeps ss [] ss1) as K by (split; [by rewrite app_nil_r|done]). case_decide; cbn [snd].
  - eapply own_trans; [exact K|]. apply put_keeps; [left; apply slot_range|]. by rewrite app_nil_r.
  - eapply own_trans; [exact K|apply IH].
Qed.
Lemma reserve_id_keeps ss : keeps ss [] (reserve_id ss).2.
Proof. apply reserve_loop_keeps. Qed.
Lemma report_accept_keeps ss i a ss' : report_accept strerror ss i = Ok (a, ss') → keeps ss [] ss'.
Proof.
  intros E. unfold report_accept in E. cbv zeta in E. pose proof (frees_ask (ss_os ss)) as Ea. destruct (ask (ss_os ss)) as [x o]. cbn [snd] in Ea.
  assert (keeps ss [] (with_os ss o)) as K by by apply os_quiet. case_decide; [case_decide; by injection E as <- <-|].
  pose proof (own_trans _ _ _ _ K (reserve_id_keeps (with_os ss o))) as K1. destruct (reserve_id (with_os ss o)) as [id ss1]. cbn [snd] in K1.
  case_decide; [injection E as <- <-; eapply own_trans; [exact K1|apply os_quiet; by rewrite frees_emit]|].
  apply bind_Ok_inv in E as ([ok ss2] & En & E). apply new_fd_keeps in En.
  assert (keeps ss [] ss2) as K2 by (eapply own_trans; [|exact En]; eapply own_trans; [exact K1|apply os_quiet; by rewrite frees_emit]).
  destruct ok; injection E as <- <-.
  - eapply own_trans; [exact K2|apply set_type_keeps].
  - eapply own_trans; [exact K2|apply os_quiet; by rewrite frees_emit].
Qed.
Lemma poll_event_keeps ss e l a ss' : poll_event strerror ss e l = Ok (a, ss') → keeps ss [] ss'.
Proof.
  intros E. unfold poll_event in E. cbv zeta in E. set (ss1 := with_ctrl ss _ l) in E. pose proof (own_ctrl ss (checkctrl ss) l) as K. fold ss1 in K.
  destruct (e_s e) as [i|]; [|by injection E as <- <-].
  assert (s_type (get_slot ss1 i) ≠ SOCKET_TYPE_INVALID → is_Some (slot ss1 !! i)) as Hin.
  { unfold get_slot. destruct (slot ss1 !! i); [by eexists|done]. }
  case_decide as Hc.
  { eapply own_trans; [exact K|]. eapply on_slot_keeps; [exact E|right; apply Hin; by rewrite Hc|apply report_connect_held]. }
  case_decide; [eapply own_trans; [exact K|by eapply report_accept_keeps]|].
  case_decide as Hi; [injection E as <- <-; eapply own_trans; [exact K|apply os_quiet; by rewrite frees_emit]|]. specialize (Hin Hi).
  destruct (e_read e).
  - apply bind_Ok_inv in E as ([a1 ss2] & E2 & E). assert (keeps ss [] ss2) as K2.
    { eapply own_trans; [exact K|]. eapply on_slot_keeps; [exact E2|by right|].
      destruct (decide (s_protocol (get_slot ss1 i) = PROTOCOL_TCP)); [apply forward_tcp_held|apply forward_udp_held]. }
    case_decide; [injection E as <- <-; eapply own_trans; [exact K2|apply own_ctrl]|].
    case_decide; injection E as <- <-; [eapply own_trans; [exact K2|apply own_ctrl]|done].
  - destruct (e_write e); [|by injection E as <- <-]. eapply own_trans; [exact K|].
    eapply on_slot_keeps; [exact E|by right|apply send_buffer_held].
Qed.
Lemma poll_step_keeps ss t w ss' : poll_step strerror ss = Ok (t, w, ss') → keeps ss [] ss'.
Proof.
  intros E. unfold poll_step in E. case_decide.
  - apply bind_Ok_inv in E as ([a ss1] & E1 & E). apply ctrl_cmd_keeps in E1. destruct a as [[type m]|]; injection E as <- <- <-; [|done].
    unfold clear_closed_event. case_decide; [|done]. eapply own_trans; [exact E1|apply own_ctrl].
  - cbv zeta in E. cbn [ss_ev with_ctrl] in E. pose proof (own_ctrl ss false (ss_ev ss)) as K. destruct (ss_ev ss) as [|e l].
    + cbn [ss_os with_ctrl] in E. pose proof (frees_ask (ss_os ss)) as Ea. destruct (ask (ss_os ss)) as [x o]. cbn [snd] in Ea.
      set (ss1 := with_ctrl (with_os _ o) true []) in E.
      assert (keeps ss [] ss1) as K1 by (eapply own_trans; [|apply own_ctrl]; eapply own_trans; [exact K|by apply os_quiet]).
      case_decide; [by injection E as <- <- <-|]. destruct (take 64 (a_events x)) as [|e l]; [by injection E as <- <- <-|].
      apply bind_Ok_inv in E as ([a ss2] & E2 & E). injection E as <- <- <-. eapply own_trans; [exact K1|by eapply poll_event_keeps].
    + apply bind_Ok_inv in E as ([a ss2] & E2 & E). injection E as <- <- <-. eapply own_trans; [exact K|by eapply poll_event_keeps].
Qed.

(** *** Calls of other threads *)

(** The object a call hands over. *)
Definition handed (c : api_call) : list (bool * Z) :=
  match c with CSend _ x => [ob_handle x] | CSendLow _ x => [ob_handle x] | CUdpSend _ _ x => [ob_handle x] | _ => [] end.

Lemma do_bind_quiet o : frees (calls (do_bind o).2) = frees (calls o).
Proof.
  unfold do_bind. pose proof (frees_ask o) as E1. destruct (ask o) as [ai o1]. cbn [snd] in E1. case_decide; [done|].
  pose proof (frees_ask o1) as E2. destruct (ask o1) as [f o2]. cbn [snd] in E2. case_decide; [cbn [snd]; congruence|].
  pose proof (frees_ask o2) as E3. destruct (ask o2) as [so o3]. cbn [snd] in E3. case_decide; [cbn [snd]; rewrite frees_emit by done; congruence|].
  pose proof (frees_ask o3) as E4. destruct (ask o3) as [b o4]. cbn [snd] in E4.
  case_decide; cbn [snd]; rewrite ?frees_emit by done; congruence.
Qed.
Lemma do_listen_quiet o : frees (calls (do_listen o).2) = frees (calls o).
Proof.
  unfold do_listen. pose proof (do_bind_quiet o) as E1. destruct (do_bind o) as [[fd fam] o1]. cbn [snd] in E1. case_decide; [done|].
  pose proof (frees_ask o1) as E2. destruct (ask o1) as [a o2]. cbn [snd] in E2. case_decide; cbn [snd]; rewrite ?frees_emit by done; congruence.
Qed.
(** An id is reserved and its request written, or the descriptor given up. *)
Lemma reserve_request_keeps ss (q : Z → request) (r : Z) (drop : os → os) :
  (∀ id, req_handles (q id) = []) → (∀ o, frees (calls (drop o)) = frees (calls o)) →
  keeps ss [] (let '(id, ss1) := reserve_id ss in
    if decide (id < 0) then (r, with_os ss1 (drop (ss_os ss1))) else (id, send_request ss1 (q id))).2.
Proof.
  intros Hq Hd. pose proof (reserve_id_keeps ss) as K. destruct (reserve_id ss) as [id ss1]. cbn [snd] in K. case_decide; cbn [snd].
  - eapply own_trans; [exact K|]. by apply os_quiet.
  - eapply own_trans; [exact K|]. rewrite <- (Hq id). apply request_keeps.
Qed.
Lemma os_same ss : with_os ss (ss_os ss) = ss.
Proof. by destruct ss. Qed.
Lemma free_keeps ss x : keeps ss [ob_handle x] (with_os ss (free_object (ss_os ss) (so_user x) (so_handle x))).
Proof. apply os_keeps, frees_free. Qed.
Lemma connect_keeps ss opaque addr port : keeps ss [] (socket_server_connect ss opaque addr port).2.
Proof.
  unfold socket_server_connect. case_decide; cbn [snd]; [apply os_quiet; by rewrite frees_emit|].
  pose proof (reserve_request_keeps ss (λ id, ROpen id port opaque addr) (-1) (λ o, o)) as K.
  destruct (reserve_id ss) as [id ss1]. rewrite os_same in K. by apply K.
Qed.
Lemma listen_keeps ss opaque : keeps ss [] (socket_server_listen ss opaque).2.
Proof.
  unfold socket_server_listen. pose proof (do_listen_quiet (ss_os ss)) as Eo. destruct (do_listen (ss_os ss)) as [fd o]. cbn [snd] in Eo.
  cbv zeta. pose proof (os_quiet ss o Eo) as K. case_decide; cbn [snd]; [done|]. pose proof (reserve_id_keeps (with_os ss o)) as K1.
  destruct (reserve_id (with_os ss o)) as [id ss1]. cbn [snd] in K1. pose proof (own_trans _ _ _ _ K K1) as K2. case_decide; cbn [snd].
  - eapply own_trans; [exact K2|]. apply os_quiet. by rewrite frees_emit.
  - eapply own_trans; [exact K2|apply (request_keeps ss1 (RListen id fd opaque))].
Qed.
Lemma udp_keeps ss opaque addr port : keeps ss [] (socket_server_udp ss opaque addr port).2.
Proof.
  unfold socket_server_udp.
  assert (∃ fd fam o, (if decide (port ≠ 0 ∨ addr ≠ None) then do_bind (ss_os ss) else let '(a, o) := ask (ss_os ss) in (a_ret a, AF_INET, o))
    = (fd, fam, o) ∧ frees (calls o) = frees (calls (ss_os ss))) as (fd & fam & o & -> & Eo).
  { case_decide.
    - pose proof (do_bind_quiet (ss_os ss)) as Eo. destruct (do_bind (ss_os ss)) as [[fd fam] o]. by eexists _, _, _.
    - pose proof (frees_ask (ss_os ss)) as Eo. destruct (ask (ss_os ss)) as [a o]. by eexists _, _, _. }
  cbv zeta. pose proof (os_quiet ss o Eo) as K. case_decide; cbn [snd]; [done|]. eapply own_trans; [exact K|].
  apply (reserve_request_keeps (with_os ss o) (λ id, RUdp id fd fam opaque) (-1) (λ o, emit o (SysClose fd))); [done|].
  intros o'. by rewrite frees_emit.
Qed.
Lemma api_keeps ss c : keeps ss (handed c) (api ss c).
Proof.
  destruct c as [op addr port|id x|id x| |op id|op id|op id|id|op|op fd|op addr port|id addr x|id]; cbn [api handed].
  - apply connect_keeps.
  - unfold socket_server_send. cbv zeta. case_decide; cbn [snd]; [apply free_keeps|apply (request_keeps ss (RSend id x PRIORITY_HIGH))].
  - unfold socket_server_send_lowpriority. cbv zeta. case_decide; [apply free_keeps|apply (request_keeps ss (RSend id x PRIORITY_LOW))].
  - apply (request_keeps ss RExit).
  - apply (request_keeps ss (RClose id 0 op)).
  - apply (request_keeps ss (RClose id 1 op)).
  - apply (request_keeps ss (RStart id op)).
  - apply (request_keeps ss (RSetopt id 1 1)).
  - apply listen_keeps.
  - pose proof (reserve_request_keeps ss (λ id, RBind id fd op) (-1) (λ o, o)) as K. unfold socket_server_bind.
    destruct (reserve_id ss) as [id ss1]. rewrite os_same in K. by apply K.
  - apply udp_keeps.
  - unfold socket_server_udp_send. cbv zeta. case_decide; cbn [snd]; [apply free_keeps|].
    case_decide; [apply (request_keeps ss (RSendUdp id x (take 7 addr)))|].
    case_decide; [apply (request_keeps ss (RSendUdp id x (take 19 addr)))|apply free_keeps].
  - unfold socket_server_udp_connect. pose proof (frees_ask (ss_os ss)) as Ea. destruct (ask (ss_os ss)) as [ai o]. cbn [snd] in Ea. cbv zeta.
    pose proof (os_quiet ss o Ea) as K. case_decide; [done|]. case_decide; [eapply own_trans; [exact K|apply (request_keeps _ (RSetUdp id _))]|].
    case_decide; [eapply own_trans; [exact K|apply (request_keeps _ (RSetUdp id _))]|done].
Qed.

(** ** Every run *)

(** Any calls, with ids that were given out or not, and turns of the poll, in any order;
    the list is of the objects the calls handed over. *)
Inductive served (o : os) : list (bool * Z) → socket_server → Prop :=
| served_start : served o [] (socket_server_create o)
| served_call l ss c : served o l ss → served o (l ++ handed c) (api ss c)
| served_turn l ss t w ss' : served o l ss → poll_step strerror ss = Ok (t, w, ss') → served o l ss'.

Lemma served_owned o l ss : frees (calls o) = [] → served o l ss → owned ss ≡ₚ l ∧ slots_in ss.
Proof.
  intros Ho. induction 1 as [|l ss c _ [E S]|l ss t w ss' _ [E S] Et].
  - unfold owned. cbn. rewrite Ho. split; [done|]. by intros i [x Hx].
  - destruct (api_keeps ss c) as [E' S']. split; [by rewrite E', E|tauto].
  - destruct (poll_step_keeps _ _ _ _ Et) as [E' S']. split; [by rewrite E', app_nil_r, E|tauto].
Qed.

(** Releasing the server closes every socket. *)
Lemma no_handles m : (∀ i, list_handles (default fresh_slot (m !! i)) = []) → slot_handles m = [].
Proof.
  intros H. unfold slot_handles. assert (Forall (λ p, list_handles p.2 = []) (map_to_list m)) as Hf.
  { apply Forall_forall. intros [i s] Hin%elem_of_map_to_list. specialize (H i). by rewrite Hin in H. }
  induction Hf as [|p l Hp _ IH]; [done|]. cbn. by rewrite Hp, IH.
Qed.
Lemma release_slot_owned i ss :
  0 ≤ i < MAX_SOCKET → (∀ j, sock_wf (get_slot ss j)) →
  ∃ ss', release_slot i ss = Ok ss' ∧ (∀ j, sock_wf (get_slot ss' j)) ∧ list_handles (get_slot ss' i) = [] ∧
    (∀ j, j ≠ i → get_slot ss' j = get_slot ss j) ∧ ss_pipe ss' = ss_pipe ss ∧ keeps ss [] ss'.
Proof.
  intros Hi W. unfold release_slot. destruct (decide (live (get_slot ss i))) as [Hl|Hd].
  - rewrite decide_True by apply Hl. destruct (force_close_live (get_slot ss i) (ss_os ss) (W i) Hl) as (m & s' & o' & E & W' & _ & Ht & _).
    rewrite E, bind_Ok. eexists. split; [done|]. split; [|split; [|split; [|split]]].
    + intros j. rewrite get_put_slot. by case_decide.
    + rewrite get_put_same. destruct (sw_dead _ W') as [H1 H2]; [intros [H _]; done|]. unfold list_handles. by rewrite H1, H2.
    + intros j Hj. rewrite get_put_slot. by rewrite decide_False.
    + done.
    + apply put_keeps; [by left|]. rewrite app_nil_r. by apply force_close_held in E.
  - destruct (sw_dead _ (W i) Hd) as [H1 H2]. assert (list_handles (get_slot ss i) = []) as H0 by (unfold list_handles; by rewrite H1, H2).
    case_decide as Hr; [|exists ss; by split_and!; [..|apply own_refl]].
    assert (s_type (get_slot ss i) = SOCKET_TYPE_INVALID) as Ht.
    { destruct (decide (s_type (get_slot ss i) = SOCKET_TYPE_INVALID)); [done|]. by destruct Hd. }
    unfold force_close. rewrite decide_True, bind_Ok by done. eexists. split; [done|]. split; [|split; [|split; [|split]]].
    + intros j. rewrite get_put_slot. by case_decide.
    + by rewrite get_put_same.
    + intros j Hj. rewrite get_put_slot. by rewrite decide_False.
    + done.
    + apply put_keeps; [by left|]. by rewrite app_nil_r.
Qed.
Lemma release_owned ss :
  slots_in ss → (∀ j, sock_wf (get_slot ss j)) →
  ∃ ss', socket_server_release ss = Ok ss' ∧ frees (calls (ss_os ss')) ++ pipe_handles (ss_pipe ss) ≡ₚ owned ss.
Proof.
  intros S W. unfold socket_server_release.
  destruct (c_for_spec (λ k ss', (∀ j, sock_wf (get_slot ss' j)) ∧ ss_pipe ss' = ss_pipe ss ∧ keeps ss [] ss' ∧
      ∀ j, 0 ≤ j < k → list_handles (get_slot ss' j) = []) release_slot (Z.to_nat MAX_SOCKET) 0 ss) as (ss' & E & W' & Ep & [Ho Hs] & H0).
  - split; [done|]. split; [done|]. split; [apply own_refl|lia].
  - intros k ss1 Hk (W1 & Ep1 & K1 & H1). destruct (release_slot_owned k ss1) as (ss2 & -> & W2 & Hk2 & Hne & Ep2 & K2); [done|done|].
    eexists. split; [done|]. split; [done|]. split; [congruence|]. split; [by eapply own_trans|]. intros j Hj.
    destruct (decide (j = k)) as [->|Hjk]; [done|]. rewrite Hne by done. apply H1. lia.
  - exists ss'. split; [done|]. rewrite app_nil_r in Ho. rewrite <- Ho. unfold owned. rewrite Ep, (no_handles (slot ss')); [by rewrite app_nil_r|].
    intros i. fold (get_slot ss' i). destruct (decide (0 ≤ i < MAX_SOCKET)) as [Hi|Hi]; [by apply H0|].
    unfold get_slot. destruct (slot ss' !! i) eqn:Ei; [|done]. destruct Hi. apply (Hs S). by rewrite Ei.
Qed.

(** C7: every buffer handed to the socket server is freed once. Whatever calls other
    threads make (sends to sockets that are closed, closing, listening or of another id
    included), in whatever order the poll handles them, whatever reads, writes and
    connects return and however sockets are closed: as long as the turns of the poll
    succeed, the buffers freed so far, those in requests of the pipe and those in the
    write lists of the sockets are exactly the ones handed over, each once. Releasing a
    server that was used as [server_step] demands frees all of them but those in requests
    the server has not read. *)
Theorem buffers_are_freed_once o l ss :
  frees (calls o) = [] → served o l ss →
  frees (calls (ss_os ss)) ++ pipe_handles (ss_pipe ss) ++ slot_handles (slot ss) ≡ₚ l ∧
  (Forall answer_ok (answers o) → rtc (server_step strerror) (socket_server_create o) ss →
   ∃ ss', socket_server_release ss = Ok ss' ∧ frees (calls (ss_os ss')) ++ pipe_handles (ss_pipe ss) ≡ₚ l).
Proof.
  intros Ho Hr. destruct (served_owned o l ss Ho Hr) as [E S]. split; [exact E|]. intros Ha Hs.
  pose proof (reach_ok _ _ _ Hs (server_create_ok o Ha)) as [I _]. destruct (release_owned ss S (si_wf _ _ I)) as (ss' & Er & Ef).
  exists ss'. by rewrite Ef.
Qed.
End Errors.

(** A connection is opened; a packet is sent and one for a socket that is not open, which
    is freed at once; of the first one a byte is written, and a third waits in the pipe. *)
Definition owned_os : os := mk_os (example_answers ++ [takes 1]) [].
Definition owned_start : socket_server := socket_server_create owned_os.
Definition example_turn (ss : socket_server) : socket_server :=
  match poll_step no_texts ss with Ok (_, _, ss') => ss' | Err _ => ss end.
Definition owned_open : socket_server := example_turn (api owned_start (CConnect 5 (lit "host") 80)).
Definition owned_sent : socket_server := example_turn (api (api owned_open (CSend 1 (Plain 100 [1; 2]))) (CSend 0 (Plain 200 [3]))).
Definition owned_end : socket_server := api owned_sent (CSend 1 (Plain 300 [4])).

Lemma owned_served : served no_texts owned_os [(false, 100); (false, 200); (false, 300)] owned_end.
Proof.
  pose proof (served_start no_texts owned_os) as H0.
  pose proof (served_call _ _ _ _ (CConnect 5 (lit "host") 80) H0) as H1.
  epose proof (served_turn _ _ _ _ _ _ owned_open H1 ltac:(vm_compute; reflexivity)) as H2.
  pose proof (served_call _ _ _ _ (CSend 0 (Plain 200 [3])) (served_call _ _ _ _ (CSend 1 (Plain 100 [1; 2])) H2)) as H3.
  epose proof (served_turn _ _ _ _ _ _ owned_sent H3 ltac:(vm_compute; reflexivity)) as H4.
  exact (served_call _ _ _ _ (CSend 1 (Plain 300 [4])) H4).
Qed.
Lemma quiet_wait ss : a_events (ask (ss_os ss)).1 = [] → wait_ok ss.
Proof. intros E _. rewrite E. split; [constructor|]. intros i Hi. by apply not_elem_of_nil in Hi. Qed.
Lemma owned_run : rtc (server_step no_texts) (socket_server_create owned_os) owned_end.
Proof.
  fold owned_start.
  eapply rtc_l; [apply (step_call _ owned_start _ (CConnect 5 (lit "host") 80)); [exact I|by vm_compute|reflexivity]|].
  eapply rtc_l; [eapply (step_poll _ _ owned_open); [apply quiet_wait; vm_compute; reflexivity|by vm_compute|vm_compute; reflexivity]|].
  eapply rtc_l; [apply (step_call _ owned_open _ (CSend 1 (Plain 100 [1; 2]))); [by vm_compute|by vm_compute|reflexivity]|].
  eapply rtc_l; [apply (step_call _ _ _ (CSend 0 (Plain 200 [3]))); [by vm_compute|by vm_compute|reflexivity]|].
  eapply rtc_l; [eapply (step_poll _ _ owned_sent); [apply quiet_wait; vm_compute; reflexivity|by vm_compute|vm_compute; reflexivity]|].
  apply rtc_once, (step_call _ owned_sent _ (CSend 1 (Plain 300 [4]))); [by vm_compute|by vm_compute|reflexivity].
Qed.
Lemma owned_now : frees (calls (ss_os owned_end)) = [(false, 200)] ∧ pipe_handles (ss_pipe owned_end) = [(false, 300)].
Proof. split; vm_compute; reflexivity. Qed.
Lemma owned_answers : Forall answer_ok (answers owned_os).
Proof. unfold answer_ok. repeat constructor. Qed.
Lemma buffers_are_freed_once_witness :
  frees (calls (ss_os owned_end)) = [(false, 200)] ∧ pipe_handles (ss_pipe owned_end) = [(false, 300)] ∧
  slot_handles (slot owned_end) ≡ₚ [(false, 100)] ∧
  ∃ ss', socket_server_release owned_end = Ok ss' ∧ frees (calls (ss_os ss')) ++ [(false, 300)] ≡ₚ [(false, 100); (false, 200); (false, 300)].
Proof.
  destruct (buffers_are_freed_once no_texts owned_os _ owned_end eq_refl owned_served) as [Hall Hrel].
  destruct owned_now as [Ef Ep]. split; [exact Ef|]. split; [exact Ep|]. rewrite Ef, Ep in Hall. rewrite Ep in Hrel. split.
  - apply (Permutation_app_inv_l [(false, 200); (false, 300)]). etransitivity; [exact Hall|]. apply (Permutation_app_comm [(false, 100)]).
  - exact (Hrel owned_answers owned_run).
Defined.
