(* ===== verification/Harbor.v ===== *)
(** * The harbor: service-src/service_harbor.c

    The service that carries messages to and from the other nodes of a cluster. A
    message for a remote handle is written to the node's socket with its header behind
    it, or waits in the node's queue until the connection is up; a message for a global
    name waits until the name is known. What arrives from another node is cut into
    messages again and sent to the services of this node. What the harbor asks of the
    rest of the node (sends, socket calls, log lines, messages freed) is the list
    [h_out] of its actions, in order; whether a send finds its service is a parameter.
    Of the memory it frees only the blocks of messages are followed. *)
From Stdlib Require Import String.
From stdpp Require Import base numbers list list_numbers.
From S2P Require Import Prelude CString Format Handle Server Netpack Command HashId Gate.

Definition HASH_SIZE : Z := 4096.
Definition DEFAULT_HQUEUE_SIZE : Z := 1024.
Definition HEADER_COOKIE_LENGTH : Z := 12.
Definition REMOTE_MAX : Z := 256.
Definition UINT32_MAX : Z := 4294967295.
Definition STATUS_WAIT : Z := 0.
Definition STATUS_HANDSHAKE : Z := 1.
Definition STATUS_HEADER : Z := 2.
Definition STATUS_CONTENT : Z := 3.
Definition STATUS_DOWN : Z := 4.

Record remote_message_header : Type := mk_rmh { rh_source : Z; rh_destination : Z; rh_session : Z }.
(** A message of a queue: its header, the address of its block and the bytes there. *)
Record harbor_msg : Type := mk_hmsg { hm_header : remote_message_header; hm_buffer : Z; hm_data : list Z }.
Record harbor_msg_queue : Type := mk_hq {
  hq_size : Z; hq_head : Z; hq_tail : Z; hq_data : list (option harbor_msg) }.
Record keyvalue : Type := mk_kv {
  kv_key : list Z; kv_hash : Z; kv_value : Z; kv_queue : option harbor_msg_queue }.
(** A chain of nodes for each hash value, the newest first. *)
Definition hashmap : Type := list (list keyvalue).
Record slave : Type := mk_slave {
  sl_fd : Z;
  sl_queue : option harbor_msg_queue;
  sl_status : Z;
  sl_length : Z;
  sl_read : Z;
  sl_size : list Z;
  sl_recv : option (list Z) }.

(** Where the memory of a message that is sent on comes from: none, a text of the
    harbor's own that is copied, a block that was handed to the harbor, a block of
    received bytes. *)
Inductive memory : Type :=
| MNull
| MText
| MGiven (buffer : Z)
| MReceived.
Inductive harbor_action : Type :=
| HSend (source destination type session : Z) (mem : memory) (data : list Z)
| HSocketSend (fd : Z) (data : list Z)
| HSocketClose (fd : Z)
| HSocketStart (fd : Z)
| HFree (buffer : Z)
| HError (text : cstring).

Record harbor : Type := mk_harbor {
  h_id : Z;
  h_slave : Z;
  h_map : hashmap;
  h_s : list slave;
  h_out : list harbor_action }.

Definition h_emit (h : harbor) (a : harbor_action) : harbor :=
  mk_harbor (h_id h) (h_slave h) (h_map h) (h_s h) (h_out h ++ [a]).
Definition set_map (h : harbor) (m : hashmap) : harbor := mk_harbor (h_id h) (h_slave h) m (h_s h) (h_out h).
Definition set_slaves (h : harbor) (l : list slave) : harbor := mk_harbor (h_id h) (h_slave h) (h_map h) l (h_out h).
Definition put_slave (h : harbor) (id : Z) (s : slave) : result harbor :=
  l ← wr (h_s h) id s; Ok (set_slaves h l).
Definition set_hqueue (s : slave) (q : option harbor_msg_queue) : slave :=
  mk_slave (sl_fd s) q (sl_status s) (sl_length s) (sl_read s) (sl_size s) (sl_recv s).
Definition set_status (s : slave) (status : Z) : slave :=
  mk_slave (sl_fd s) (sl_queue s) status (sl_length s) (sl_read s) (sl_size s) (sl_recv s).

(** ** Queues *)

Definition expand_body (q : harbor_msg_queue) (i : Z) (new_buffer : list (option harbor_msg)) :
    result (list (option harbor_msg)) :=
  x ← rd (hq_data q) ((i + hq_head q) `mod` hq_size q);
  wr new_buffer i x.
Definition push_queue_msg (q : harbor_msg_queue) (m : harbor_msg) : result harbor_msg_queue :=
  q ← (if decide ((hq_tail q + 1) `mod` hq_size q = hq_head q) then
         new_buffer ← c_for (Z.to_nat (hq_size q - 1)) 0 (expand_body q) (replicate (Z.to_nat (hq_size q * 2)) None);
         size ← c_int (hq_size q * 2);
         Ok (mk_hq size 0 (hq_size q - 1) new_buffer)
       else Ok q);
  data ← wr (hq_data q) (hq_tail q) (Some m);
  Ok (mk_hq (hq_size q) (hq_head q) ((hq_tail q + 1) `mod` hq_size q) data).
Definition push_hqueue (q : harbor_msg_queue) (buffer : Z) (data : list Z) (header : remote_message_header) :
    result harbor_msg_queue :=
  push_queue_msg q (mk_hmsg header buffer data).

Definition pop_queue (q : harbor_msg_queue) : result (option harbor_msg * harbor_msg_queue) :=
  if decide (hq_head q = hq_tail q) then Ok (None, q)
  else
    x ← rd (hq_data q) (hq_head q);
    m ← of_option Uninitialised x;
    Ok (Some m, mk_hq (hq_size q) ((hq_head q + 1) `mod` hq_size q) (hq_tail q) (hq_data q)).

Definition new_queue : harbor_msg_queue :=
  mk_hq DEFAULT_HQUEUE_SIZE 0 0 (replicate (Z.to_nat DEFAULT_HQUEUE_SIZE) None).

(** [while ((m = pop_queue(queue)) != NULL) body]; a queue holds fewer messages than its
    size, which is the fuel its callers give. *)
Fixpoint drain_loop {S} (fuel : nat) (body : harbor_msg → S → result S) (q : harbor_msg_queue) (st : S) :
    result (harbor_msg_queue * S) :=
  match fuel with
  | O => Err OutOfFuel
  | S f =>
      r ← pop_queue q;
      match r.1 with
      | None => Ok (r.2, st)
      | Some m => st ← body m st; drain_loop f body r.2 st
      end
  end.
Definition drain_queue {S} (body : harbor_msg → S → result S) (q : harbor_msg_queue) (st : S) :
    result (harbor_msg_queue * S) := drain_loop (Z.to_nat (hq_size q)) body q st.

Definition free_msg (m : harbor_msg) (h : harbor) : result harbor := Ok (h_emit h (HFree (hm_buffer m))).
Definition release_queue (q : option harbor_msg_queue) (h : harbor) : result harbor :=
  match q with
  | None => Ok h
  | Some q => r ← drain_queue free_msg q h; Ok r.2
  end.

(** ** The names *)

(** The four words of a name, on a little-endian machine. *)
Definition name_word (name : list Z) (i : nat) : Z := little_endian_to_Z 8 (take 4 (drop (4 * i) name)).
Definition name_hash (name : list Z) : Z :=
  Z.lxor (Z.lxor (Z.lxor (name_word name 0) (name_word name 1)) (name_word name 2)) (name_word name 3).
(** [strncmp(a, b, n) == 0]. *)
Fixpoint strncmp_eq (n : nat) (a b : list Z) {struct n} : bool :=
  match n with
  | O => true
  | S n =>
      match a, b with
      | x :: a, y :: b => bool_decide (x = y) && (bool_decide (x = 0) || strncmp_eq n a b)
      | _, _ => false
      end
  end.

Definition is_node (name : list Z) (node : keyvalue) : bool :=
  bool_decide (kv_hash node = name_hash name) && strncmp_eq GLOBALNAME_LENGTH (kv_key node) name.
Fixpoint search_chain (l : list keyvalue) (name : list Z) : option keyvalue :=
  match l with
  | [] => None
  | node :: l => if is_node name node then Some node else search_chain l name
  end.
Definition hash_search (hash : hashmap) (name : list Z) : result (option keyvalue) :=
  l ← rd hash (name_hash name `mod` HASH_SIZE);
  Ok (search_chain l name).
Definition hash_insert (hash : hashmap) (name : list Z) : result (keyvalue * hashmap) :=
  let h := name_hash name in
  let node := mk_kv (take GLOBALNAME_LENGTH name) h 0 None in
  l ← rd hash (h `mod` HASH_SIZE);
  hash ← wr hash (h `mod` HASH_SIZE) (node :: l);
  Ok (node, hash).
(** A node that was found is assigned to. *)
Fixpoint set_chain (l : list keyvalue) (name : list Z) (node : keyvalue) : list keyvalue :=
  match l with
  | [] => []
  | x :: l => if is_node name x then node :: l else x :: set_chain l name node
  end.
Definition set_node (hash : hashmap) (name : list Z) (node : keyvalue) : result hashmap :=
  l ← rd hash (name_hash name `mod` HASH_SIZE);
  wr hash (name_hash name `mod` HASH_SIZE) (set_chain l name node).
(** [hash_search], then [hash_insert] when there is no node. *)
Definition find_or_insert (hash : hashmap) (name : list Z) : result (keyvalue * hashmap) :=
  node ← hash_search hash name;
  match node with Some node => Ok (node, hash) | None => hash_insert hash name end.
Definition hash_new : hashmap := replicate (Z.to_nat HASH_SIZE) [].
Fixpoint release_nodes (l : list keyvalue) (h : harbor) : result harbor :=
  match l with [] => Ok h | node :: l => h ← release_queue (kv_queue node) h; release_nodes l h end.
Definition hash_delete (hash : hashmap) (h : harbor) : result harbor := release_nodes (concat hash) h.

(** ** Slaves and the wire *)

Definition close_harbor (h : harbor) (id : Z) : result harbor :=
  s ← rd (h_s h) id;
  let h := if decide (sl_fd s ≠ 0) then h_emit h (HSocketClose (sl_fd s)) else h in
  h ← release_queue (sl_queue s) h;
  put_slave h id (set_hqueue (set_status s STATUS_DOWN) None).

Definition report_harbor_down (h : harbor) (id : Z) : harbor :=
  h_emit h (HSend 0 (h_slave h) PTYPE_TEXT 0 MText (lit "D " ++ print_d id)).

Definition no_slave : slave := mk_slave 0 None STATUS_WAIT 0 0 [0; 0; 0; 0] None.
Definition harbor_create : harbor := mk_harbor 0 0 hash_new (replicate (Z.to_nat REMOTE_MAX) no_slave) [].
Definition release_slave (i : Z) (h : harbor) : result harbor :=
  s ← rd (h_s h) i;
  if decide (sl_fd s ≠ 0 ∧ sl_status s ≠ STATUS_DOWN) then close_harbor h i else Ok h.
Definition harbor_release (h : harbor) : result harbor :=
  h ← c_for (Z.to_nat (REMOTE_MAX - 1)) 1 release_slave h;
  hash_delete (h_map h) h.

Definition to_bigendian (n : Z) : list Z :=
  [Z.land (Z.shiftr n 24) 0xff; Z.land (Z.shiftr n 16) 0xff; Z.land (Z.shiftr n 8) 0xff; Z.land n 0xff].
Definition header_to_message (header : remote_message_header) : list Z :=
  to_bigendian (rh_source header) ++ to_bigendian (rh_destination header) ++ to_bigendian (rh_session header).
Definition from_bigendian (l : list Z) : Z :=
  match l with
  | [a; b; c; d] => Z.lor (Z.lor (Z.lor (u32 (Z.shiftl a 24)) (Z.shiftl b 16)) (Z.shiftl c 8)) d
  | _ => 0
  end.
Definition message_to_header (message : list Z) : remote_message_header :=
  mk_rmh (from_bigendian (take 4 message)) (from_bigendian (take 4 (drop 4 message))) (from_bigendian (take 4 (drop 8 message))).

Section Service.
(** Whether a send finds no service, given what the harbor did before. *)
Context (send_fails : list harbor_action → harbor_action → bool).

Definition forward_local_messsage (h : harbor) (msg : list Z) (sz : Z) : result harbor :=
  cookie ← copy_from msg (sz - HEADER_COOKIE_LENGTH) HEADER_COOKIE_LENGTH;
  data ← copy_from msg 0 (sz - HEADER_COOKIE_LENGTH);
  let header := message_to_header cookie in
  let type := Z.shiftr (rh_destination header) HANDLE_REMOTE_SHIFT in
  let destination := Z.lor (Z.land (rh_destination header) HANDLE_MASK) (u32 (Z.shiftl (h_id h) HANDLE_REMOTE_SHIFT)) in
  let session := s32 (rh_session header) in
  let a := HSend (rh_source header) destination (Z.lor type PTYPE_TAG_DONTCOPY) session MReceived data in
  let failed := send_fails (h_out h) a in
  let h := h_emit h a in
  if (failed : bool) then
    let h := if decide (type ≠ PTYPE_ERROR) then h_emit h (HSend destination (rh_source header) PTYPE_ERROR session MNull []) else h in
    Ok (h_emit h (HError (lit "Unknown destination :" ++ print_x destination ++ lit " from :" ++ print_x (rh_source header)
                            ++ lit " type(" ++ print_d type ++ lit ")")))
  else Ok h.

Definition send_remote (h : harbor) (fd : Z) (data : list Z) (cookie : remote_message_header) : harbor :=
  let sz_header := zlen data + HEADER_COOKIE_LENGTH in
  if decide (UINT32_MAX < sz_header) then
    h_emit h (HError (lit "remote message from :" ++ print_08x (rh_source cookie) ++ lit " to :" ++ print_08x (rh_destination cookie)
                        ++ lit " is too large."))
  else h_emit h (HSocketSend fd (to_bigendian sz_header ++ data ++ header_to_message cookie)).

(** The bodies of the loops over queues. *)
Definition move_msg (m : harbor_msg) (q : harbor_msg_queue) : result harbor_msg_queue := push_queue_msg q m.
Definition send_local_msg (handle : Z) (m : harbor_msg) (h : harbor) : result harbor :=
  let type := Z.shiftr (rh_destination (hm_header m)) HANDLE_REMOTE_SHIFT in
  Ok (h_emit h (HSend (rh_source (hm_header m)) handle (Z.lor type PTYPE_TAG_DONTCOPY) (s32 (rh_session (hm_header m)))
                  (MGiven (hm_buffer m)) (hm_data m))).
Definition send_msg (fd bits : Z) (m : harbor_msg) (h : harbor) : result harbor :=
  let header := hm_header m in
  let cookie := mk_rmh (rh_source header) (Z.lor (rh_destination header) bits) (rh_session header) in
  Ok (h_emit (send_remote h fd (hm_data m) cookie) (HFree (hm_buffer m))).

Definition set_kqueue (node : keyvalue) (q : option harbor_msg_queue) : keyvalue :=
  mk_kv (kv_key node) (kv_hash node) (kv_value node) q.
Definition set_kvalue (node : keyvalue) (v : Z) : keyvalue := mk_kv (kv_key node) (kv_hash node) v (kv_queue node).

Definition dispatch_name_queue (h : harbor) (node : keyvalue) : result (harbor * keyvalue) :=
  queue ← of_option NullDeref (kv_queue node);
  let handle := kv_value node in
  let harbor_id := Z.shiftr handle HANDLE_REMOTE_SHIFT in
  s ← rd (h_s h) harbor_id;
  if decide (sl_fd s = 0) then
    if decide (sl_status s = STATUS_DOWN) then
      Ok (h_emit h (HError (lit "Drop message to " ++ until_nul (kv_key node) ++ lit " (in harbor " ++ print_d harbor_id ++ lit ")")), node)
    else
      r ← match sl_queue s with
          | None => Ok (queue, None)
          | Some sq => r ← drain_queue move_msg queue sq; Ok (r.2, Some r.1)
          end;
      let '(sq, rest) := r in
      if decide (harbor_id = Z.shiftr (h_slave h) HANDLE_REMOTE_SHIFT) then
        r ← drain_queue (send_local_msg handle) sq h;
        h ← release_queue (Some r.1) r.2;
        h ← put_slave h harbor_id (set_hqueue s None);
        Ok (h, set_kqueue node rest)
      else
        h ← put_slave h harbor_id (set_hqueue s (Some sq));
        Ok (h, set_kqueue node rest)
  else
    r ← drain_queue (send_msg (sl_fd s) (Z.land handle HANDLE_MASK)) queue h;
    Ok (r.2, set_kqueue node (Some r.1)).

Definition dispatch_queue (h : harbor) (id : Z) : result harbor :=
  s ← rd (h_s h) id;
  c_assert (bool_decide (sl_fd s ≠ 0));;
  match sl_queue s with
  | None => Ok h
  | Some queue =>
      r ← drain_queue (send_msg (sl_fd s) 0) queue h;
      h ← release_queue (Some r.1) r.2;
      put_slave h id (set_hqueue s None)
  end.

(** ** Received bytes *)

(** The cases of the loop of [push_socket_data]: [Some] with the bytes left to go on,
    [None] to return. *)
Definition receive_content (h : harbor) (id : Z) (buffer : list Z) : result (harbor * option (list Z)) :=
  s ← rd (h_s h) id;
  recv ← of_option NullDeref (sl_recv s);
  let need := sl_length s - sl_read s in
  if decide (zlen buffer < need) then
    recv ← wr_bytes recv (sl_read s) buffer;
    h ← put_slave h id (mk_slave (sl_fd s) (sl_queue s) (sl_status s) (sl_length s) (sl_read s + zlen buffer) (sl_size s) (Some recv));
    Ok (h, None)
  else
    recv ← wr_bytes recv (sl_read s) (take (Z.to_nat need) buffer);
    h ← forward_local_messsage h recv (sl_length s);
    let rest := drop (Z.to_nat need) buffer in
    h ← put_slave h id (mk_slave (sl_fd s) (sl_queue s) STATUS_HEADER 0 0 (sl_size s) None);
    Ok (h, if decide (zlen rest = 0) then None else Some rest).
Definition receive_header (h : harbor) (id : Z) (buffer : list Z) : result (harbor * option (list Z)) :=
  s ← rd (h_s h) id;
  let need := 4 - sl_read s in
  if decide (zlen buffer < need) then
    size ← wr_bytes (sl_size s) (sl_read s) buffer;
    h ← put_slave h id (mk_slave (sl_fd s) (sl_queue s) (sl_status s) (sl_length s) (sl_read s + zlen buffer) size (sl_recv s));
    Ok (h, None)
  else
    size ← wr_bytes (sl_size s) (sl_read s) (take (Z.to_nat need) buffer);
    let rest := drop (Z.to_nat need) buffer in
    h ← put_slave h id (mk_slave (sl_fd s) (sl_queue s) (sl_status s) (sl_length s) (sl_read s) size (sl_recv s));
    a ← rd size 0; b ← rd size 1; c ← rd size 2; d ← rd size 3;
    if decide (a ≠ 0) then
      h ← close_harbor (h_emit h (HError (lit "Message is too long from harbor " ++ print_d id))) id;
      Ok (h, None)
    else
      let length := Z.lor (Z.lor (Z.shiftl b 16) (Z.shiftl c 8)) d in
      h ← put_slave h id (mk_slave (sl_fd s) (sl_queue s) STATUS_CONTENT length 0 size (Some (replicate (Z.to_nat length) 0)));
      if decide (zlen rest = 0) then Ok (h, None) else receive_content h id rest.
Definition receive_handshake (h : harbor) (id : Z) (buffer : list Z) : result (harbor * option (list Z)) :=
  s ← rd (h_s h) id;
  remote_id ← rd buffer 0;
  if decide (remote_id ≠ id) then
    h ← close_harbor (h_emit h (HError (lit "Invalid shakehand id (" ++ print_d id ++ lit ") from fd = " ++ print_d (sl_fd s)
                                          ++ lit " , harbor = " ++ print_d remote_id))) id;
    Ok (h, None)
  else
    let rest := drop 1 buffer in
    h ← put_slave h id (set_status s STATUS_HEADER);
    h ← dispatch_queue h id;
    if decide (zlen rest = 0) then Ok (h, Some rest) else receive_header h id rest.
Fixpoint receive_loop (fuel : nat) (h : harbor) (id : Z) (buffer : list Z) : result harbor :=
  match fuel with
  | O => Err OutOfFuel
  | S f =>
      s ← rd (h_s h) id;
      r ← (if decide (sl_status s = STATUS_HANDSHAKE) then receive_handshake h id buffer
           else if decide (sl_status s = STATUS_HEADER) then receive_header h id buffer
           else if decide (sl_status s = STATUS_CONTENT) then receive_content h id buffer
           else Ok (h, None));
      match r.2 with
      | Some rest => receive_loop f r.1 id rest
      | None => Ok r.1
      end
  end.

(** The first slave from 1 on with the descriptor, 0 when there is none. *)
Fixpoint find_fd (l : list slave) (i : Z) (fd : Z) : Z :=
  match l with
  | [] => 0
  | s :: l => if decide (sl_fd s = fd) then i else find_fd l (i + 1) fd
  end.
Definition harbor_id (h : harbor) (fd : Z) : Z := find_fd (drop 1 (h_s h)) 1 fd.

(** A turn of the loop takes at least a byte, but for the one behind a handshake. *)
Definition push_socket_data (h : harbor) (fd buffer : Z) (data : list Z) : result harbor :=
  let id := harbor_id h fd in
  if decide (id = 0) then
    Ok (h_emit (h_emit h (HFree buffer)) (HError (lit "Invalid socket fd (" ++ print_d fd ++ lit ") data")))
  else receive_loop (length data + 2) h id data.

(** ** Messages of the node *)

Definition update_name (h : harbor) (name : list Z) (handle : Z) : result harbor :=
  r ← find_or_insert (h_map h) name;
  let '(node, map) := r in
  let node := set_kvalue node handle in
  let h := set_map h map in
  match kv_queue node with
  | None => map ← set_node map name node; Ok (set_map h map)
  | Some _ =>
      r ← dispatch_name_queue h node;
      h ← release_queue (kv_queue r.2) r.1;
      map ← set_node map name (set_kqueue r.2 None);
      Ok (set_map h map)
  end.

(** 1 when the message was taken over, 0 when the caller is to free it. *)
Definition remote_send_handle (h : harbor) (source destination type session buffer : Z) (data : list Z) : result (Z * harbor) :=
  let harbor_id := Z.shiftr destination HANDLE_REMOTE_SHIFT in
  if decide (harbor_id = h_id h) then
    Ok (1, h_emit h (HSend source destination (Z.lor type PTYPE_TAG_DONTCOPY) session (MGiven buffer) data))
  else
    s ← rd (h_s h) harbor_id;
    let header := mk_rmh source (Z.lor (u32 (Z.shiftl type HANDLE_REMOTE_SHIFT)) (Z.land destination HANDLE_MASK)) (u32 session) in
    if decide (sl_fd s = 0 ∨ sl_status s = STATUS_HANDSHAKE) then
      if decide (sl_status s = STATUS_DOWN) then
        let h := h_emit h (HSend destination source PTYPE_ERROR 0 MNull []) in
        Ok (0, h_emit h (HError (lit "Drop message to harbor " ++ print_d harbor_id ++ lit " from " ++ print_x source ++ lit " to "
                                   ++ print_x destination ++ lit " (session = " ++ print_d session ++ lit ", msgsz = "
                                   ++ print_d (s32 (zlen data)) ++ lit ")")))
      else
        queue ← push_hqueue (default new_queue (sl_queue s)) buffer data header;
        h ← put_slave h harbor_id (set_hqueue s (Some queue));
        Ok (1, h)
    else Ok (0, send_remote h (sl_fd s) data header).

Definition remote_send_name (h : harbor) (source : Z) (name : list Z) (type session buffer : Z) (data : list Z) : result (Z * harbor) :=
  r ← find_or_insert (h_map h) name;
  let '(node, map) := r in
  let h := set_map h map in
  if decide (kv_value node = 0) then
    queue ← push_hqueue (default new_queue (kv_queue node)) buffer data
              (mk_rmh source (u32 (Z.shiftl type HANDLE_REMOTE_SHIFT)) (u32 session));
    map ← set_node map name (set_kqueue node (Some queue));
    Ok (1, h_emit (set_map h map) (HSend 0 (h_slave h) PTYPE_TEXT 0 MText (lit "Q " ++ until_nul (take GLOBALNAME_LENGTH name))))
  else remote_send_handle h source (kv_value node) type session buffer data.

Definition handshake (h : harbor) (id : Z) : result harbor :=
  s ← rd (h_s h) id;
  Ok (h_emit h (HSocketSend (sl_fd s) [u8 (h_id h)])).

(** [sscanf(buffer, "%d %d", &fd, &id)] from zeros. *)
Definition scan_pair (buffer : cstring) : Z * Z :=
  match scan_d buffer with
  | None => (0, 0)
  | Some (fd, r) => (fd, match scan_d r with Some (id, _) => id | None => 0 end)
  end.
Definition harbor_command (h : harbor) (msg : list Z) (source : Z) : result harbor :=
  command ← rd msg 0;
  let name := drop 2 msg in
  let s := zlen msg - 2 in
  if decide (command = 78) then
    if decide (s ≤ 0 ∨ Z.of_nat GLOBALNAME_LENGTH ≤ s) then
      Ok (h_emit h (HError (lit "Invalid global name " ++ until_nul name)))
    else update_name h (name ++ replicate (GLOBALNAME_LENGTH - length name) 0) source
  else if decide (command = 83 ∨ command = 65) then
    if decide (s < 0) then Err OutOfBounds
    else
      let buffer := until_nul name in
      let '(fd, id) := scan_pair buffer in
      if decide (fd = 0 ∨ id ≤ 0 ∨ REMOTE_MAX ≤ id) then
        Ok (h_emit h (HError (lit "Invalid command " ++ command :: lit " " ++ buffer)))
      else
        s ← rd (h_s h) id;
        if decide (sl_fd s ≠ 0) then
          Ok (h_emit h (HError (lit "Harbor " ++ print_d id ++ lit " alreay exist")))
        else
          let s := mk_slave fd (sl_queue s) (sl_status s) (sl_length s) (sl_read s) (sl_size s) (sl_recv s) in
          h ← put_slave h id s;
          h ← handshake (h_emit h (HSocketStart fd)) id;
          if decide (command = 83) then put_slave h id (set_status s STATUS_HANDSHAKE)
          else
            h ← put_slave h id (set_status s STATUS_HEADER);
            dispatch_queue h id
  else Ok (h_emit h (HError (lit "Unknown command " ++ until_nul msg))).

(** What the service is called with: a message of the socket server with the address
    and the bytes of its buffer, a command, a message for another node. *)
Inductive harbor_input : Type :=
| ISocket (type id ud buffer : Z) (data : list Z)
| IHarbor (msg : list Z) (source : Z)
| IRemote (type session source : Z) (name : list Z) (handle buffer : Z) (data : list Z).
Definition mainloop (h : harbor) (input : harbor_input) : result harbor :=
  match input with
  | ISocket type id ud buffer data =>
      if decide (type = SKYNET_SOCKET_TYPE_DATA) then
        h ← push_socket_data h id buffer data;
        Ok (h_emit h (HFree buffer))
      else if decide (type = SKYNET_SOCKET_TYPE_ERROR ∨ type = SKYNET_SOCKET_TYPE_CLOSE) then
        let i := harbor_id h id in
        Ok (if decide (i ≠ 0) then report_harbor_down h i
            else h_emit h (HError (lit "Unkown fd (" ++ print_d id ++ lit ") closed")))
      else if decide (type = SKYNET_SOCKET_TYPE_CONNECT) then Ok h
      else if decide (type = SKYNET_SOCKET_TYPE_WARNING) then
        let i := harbor_id h id in
        Ok (if decide (i ≠ 0) then
              h_emit h (HError (lit "message havn't send to Harbor (" ++ print_d i ++ lit ") reach " ++ print_d ud ++ lit " K"))
            else h)
      else Ok (h_emit h (HError (lit "recv invalid socket message type 6")))
  | IHarbor msg source => harbor_command h msg source
  | IRemote type session source name handle buffer data =>
      r ← (if decide (handle = 0) then remote_send_name h source name type session buffer data
           else remote_send_handle h source handle type session buffer data);
      Ok (if decide (r.1 ≠ 0) then r.2 else h_emit r.2 (HFree buffer))
  end.
End Service.

(** [sscanf(args, "%d %u", ...)]: %u reads as %d and converts. *)
Definition harbor_init (h : harbor) (args : cstring) : Z * harbor :=
  let '(id, slave) := scan_pair args in
  if decide (u32 slave = 0) then (1, h)
  else (0, mk_harbor id (u32 slave) (h_map h) (h_s h) (h_out h)).

(** ** Queues are lists *)

(** The ring holds the messages [l], the oldest first; a cell always stays free. *)
Record hq_repr (q : harbor_msg_queue) (l : list harbor_msg) : Prop := {
  hr_head : 0 ≤ hq_head q < hq_size q;
  hr_tail : hq_tail q = (hq_head q + zlen l) `mod` hq_size q;
  hr_len : zlen l < hq_size q;
  hr_data : zlen (hq_data q) = hq_size q;
  hr_cells : ∀ i m, l !! i = Some m → hq_data q !! Z.to_nat ((hq_head q + Z.of_nat i) `mod` hq_size q) = Some (Some m) }.

Lemma hq_repr_new : hq_repr new_queue [].
Proof. split; done. Qed.

(** The ring with room for another message. *)
Lemma hq_expand q l :
  hq_repr q l → zlen l < 2 ^ 29 →
  ∃ q', (if decide ((hq_tail q + 1) `mod` hq_size q = hq_head q) then
           new_buffer ← c_for (Z.to_nat (hq_size q - 1)) 0 (expand_body q) (replicate (Z.to_nat (hq_size q * 2)) None);
           size ← c_int (hq_size q * 2);
           Ok (mk_hq size 0 (hq_size q - 1) new_buffer)
         else Ok q) = Ok q' ∧ hq_repr q' l ∧ zlen l + 1 < hq_size q'.
Proof.
  intros [Hh Ht Hl Hd Hc] Hsmall. pose proof (zlen_nonneg l). case_decide as Hfull; cycle 1.
  { exists q. split; [done|]. split; [by split|]. destruct (decide (zlen l + 1 = hq_size q)) as [E|]; [|lia]. destruct Hfull.
    rewrite Ht, Z.add_mod_idemp_l by lia. replace (hq_head q + zlen l + 1) with (hq_head q + 1 * hq_size q) by lia.
    rewrite Z.mod_add, Z.mod_small by lia. done. }
  assert (zlen l + 1 = hq_size q) as El.
  { destruct (decide (zlen l + 1 = hq_size q)) as [|Hne]; [done|]. exfalso. rewrite Ht, ring_mod_add, <- Z.add_assoc in Hfull by lia.
    assert (zlen l + 1 = 0); [|lia]. apply (ring_index_inj (hq_head q) _ _ (hq_size q)); [lia|lia|].
    by rewrite Hfull, Z.add_0_r, Z.mod_small by lia. }
  destruct (c_for_spec (λ i nb, zlen nb = hq_size q * 2 ∧ ∀ k m, (Z.of_nat k < i) → l !! k = Some m → nb !! k = Some (Some m))
              (expand_body q) (Z.to_nat (hq_size q - 1)) 0 (replicate (Z.to_nat (hq_size q * 2)) None)) as (nb & -> & Hnb & Hcells).
  - split; [rewrite zlen_replicate; lia|lia].
  - intros j nb Hj [Hnb Hcells]. unfold expand_body.
    destruct (lookup_lt_is_Some_2 l (Z.to_nat j)) as [m Hm]; [unfold zlen in *; lia|].
    rewrite (rd_lookup _ _ (Some m)), bind_Ok; cycle 1.
    { apply Z.mod_pos_bound. lia. }
    { rewrite Z.add_comm. specialize (Hc _ _ Hm). by rewrite Z2Nat.id in Hc by lia. }
    rewrite wr_Ok by lia. eexists. split; [done|]. rewrite zlen_insert. split; [done|]. intros k m' Hk Hm'.
    destruct (decide (k = Z.to_nat j)) as [->|Hne].
    + rewrite list_lookup_insert_eq by (unfold zlen in *; lia). congruence.
    + rewrite list_lookup_insert_ne by done. apply Hcells; [lia|done].
  - rewrite bind_Ok, c_int_Ok, bind_Ok by (unfold INT_MIN, INT_MAX; lia). eexists. split; [done|]. split; [|cbn [hq_size]; lia].
    split; cbn [hq_head hq_tail hq_size hq_data]; [lia| |lia|lia|].
    + rewrite Z.mod_small by lia. lia.
    + intros i m Hi. pose proof (lookup_lt_Some _ _ _ Hi). unfold zlen in *. rewrite Z.add_0_l, Z.mod_small, Nat2Z.id by lia. apply Hcells; [lia|done].
Qed.
Lemma hq_push q l m : hq_repr q l → zlen l < 2 ^ 29 → ∃ q', push_queue_msg q m = Ok q' ∧ hq_repr q' (l ++ [m]).
Proof.
  intros R Hs. unfold push_queue_msg. destruct (hq_expand q l R Hs) as (q1 & -> & [Hh Ht Hl Hd Hc] & Hroom). pose proof (zlen_nonneg l).
  rewrite bind_Ok. assert (0 ≤ hq_tail q1 < hq_size q1) as Htr by (rewrite Ht; apply Z.mod_pos_bound; lia).
  rewrite wr_Ok, bind_Ok by lia. eexists. split; [done|].
  split; cbn [hq_head hq_tail hq_size hq_data]; rewrite ?zlen_app, ?zlen_insert; change (zlen [m]) with 1; [lia| |lia|lia|].
  - rewrite Ht, Z.add_mod_idemp_l by lia. f_equal. lia.
  - intros i x Hi. apply lookup_app_Some in Hi as [Hi|[Hge Hi]].
    + pose proof (lookup_lt_Some _ _ _ Hi). rewrite list_lookup_insert_ne; [by apply Hc|]. unfold zlen in *.
      rewrite Ht. intros E. apply Z2Nat.inj in E; [|apply Z.mod_pos_bound; lia..]. apply ring_index_inj in E; lia.
    + apply list_lookup_singleton_Some in Hi as [Hi ->]. replace (Z.of_nat i) with (zlen l) by (unfold zlen; lia).
      rewrite <- Ht. apply list_lookup_insert_eq. unfold zlen in *. lia.
Qed.
Lemma hq_pop_nil q : hq_repr q [] → pop_queue q = Ok (None, q).
Proof.
  intros [Hh Ht _ _ _]. unfold pop_queue. change (zlen []) with 0 in Ht. rewrite Z.add_0_r, Z.mod_small in Ht by lia. by rewrite decide_True.
Qed.
Lemma hq_pop_cons q m l : hq_repr q (m :: l) → ∃ q', pop_queue q = Ok (Some m, q') ∧ hq_repr q' l ∧ hq_size q' = hq_size q.
Proof.
  intros [Hh Ht Hl Hd Hc]. unfold pop_queue. rewrite zlen_cons in *. pose proof (zlen_nonneg l).
  rewrite decide_False; cycle 1.
  { rewrite Ht. intros E. assert (1 + zlen l = 0); [|lia]. apply (ring_index_inj (hq_head q) _ _ (hq_size q)); [lia|lia|].
    by rewrite <- E, Z.add_0_r, Z.mod_small by lia. }
  pose proof (Hc 0%nat m eq_refl) as H0. rewrite Z.add_0_r, Z.mod_small in H0 by lia.
  rewrite (rd_lookup _ _ (Some m)), bind_Ok by (done || lia). cbn [of_option]. rewrite bind_Ok. eexists. split; [done|]. split; [|done].
  split; cbn [hq_head hq_tail hq_size hq_data]; [apply Z.mod_pos_bound; lia| |lia|lia|].
  - rewrite Ht, Z.add_mod_idemp_l by lia. f_equal. lia.
  - intros i x Hi. specialize (Hc (S i) x Hi). rewrite Z.add_mod_idemp_l by lia. by replace (hq_head q + 1 + Z.of_nat i) with (hq_head q + Z.of_nat (S i)) by lia.
Qed.

(** A body run on each message. *)
Fixpoint run_all {S} (body : harbor_msg → S → result S) (l : list harbor_msg) (st : S) : result S :=
  match l with [] => Ok st | m :: l => st ← body m st; run_all body l st end.
Lemma drain_loop_spec {S} fuel (body : harbor_msg → S → result S) q l st st' :
  hq_repr q l → (length l < fuel)%nat → run_all body l st = Ok st' → ∃ q', drain_loop fuel body q st = Ok (q', st') ∧ hq_repr q' [].
Proof.
  revert q l st. induction fuel as [|fuel IH]; intros q l st R Hf E; [lia|]. cbn [drain_loop]. destruct l as [|m l].
  - rewrite (hq_pop_nil q R), bind_Ok. injection E as ->. by exists q.
  - destruct (hq_pop_cons q m l R) as (q1 & -> & R1 & _). rewrite bind_Ok. cbn [fst snd run_all] in *.
    destruct (body m st) as [st1|]; [|done]. rewrite bind_Ok in *. apply (IH q1 l); [done|cbn in Hf; lia|done].
Qed.
Lemma drain_queue_spec {S} (body : harbor_msg → S → result S) q l st st' :
  hq_repr q l → run_all body l st = Ok st' → ∃ q', drain_queue body q st = Ok (q', st') ∧ hq_repr q' [].
Proof. intros R E. apply (drain_loop_spec _ _ _ l); [done| |done]. pose proof (hr_len _ _ R). unfold zlen in *. lia. Qed.

(** Bodies that only add actions. *)
Definition h_emits (h : harbor) (l : list harbor_action) : harbor :=
  mk_harbor (h_id h) (h_slave h) (h_map h) (h_s h) (h_out h ++ l).
Lemma h_emits_nil h : h_emits h [] = h.
Proof. destruct h. unfold h_emits. cbn. by rewrite app_nil_r. Qed.
Lemma h_emits_app h l k : h_emits (h_emits h l) k = h_emits h (l ++ k).
Proof. unfold h_emits. cbn. by rewrite app_assoc. Qed.
Lemma run_emits (body : harbor_msg → harbor → result harbor) (acts : harbor_msg → list harbor_action) l h :
  (∀ m h, body m h = Ok (h_emits h (acts m))) → run_all body l h = Ok (h_emits h (concat (acts <$> l))).
Proof.
  intros Hb. revert h. induction l as [|m l IH]; intros h; cbn; [by rewrite h_emits_nil|]. rewrite Hb, bind_Ok, IH. by rewrite h_emits_app.
Qed.
Lemma drain_emits (body : harbor_msg → harbor → result harbor) (acts : harbor_msg → list harbor_action) q l h :
  hq_repr q l → (∀ m h, body m h = Ok (h_emits h (acts m))) →
  ∃ q', drain_queue body q h = Ok (q', h_emits h (concat (acts <$> l))) ∧ hq_repr q' [].
Proof. intros R Hb. apply (drain_queue_spec _ _ l); [done|by apply run_emits]. Qed.
Lemma release_queue_spec q l h :
  match q with Some q => hq_repr q l | None => l = [] end →
  release_queue q h = Ok (h_emits h ((HFree ∘ hm_buffer) <$> l)).
Proof.
  intros R. unfold release_queue. destruct q as [q|]; [|subst; by rewrite h_emits_nil].
  destruct (drain_emits free_msg (λ m, [HFree (hm_buffer m)]) q l h R) as (q' & -> & _); [done|]. rewrite bind_Ok. cbn [snd].
  do 2 f_equal. clear. induction l as [|m l IH]; [done|]. cbn. by rewrite IH.
Qed.

(** The messages of a queue. *)
Definition hq_list (q : harbor_msg_queue) : list harbor_msg :=
  omap (λ i, hq_data q !! Z.to_nat ((hq_head q + Z.of_nat i) `mod` hq_size q) ≫= id)
    (seq 0 (Z.to_nat ((hq_tail q - hq_head q) `mod` hq_size q))).
Lemma omap_seq_list {A} (f : nat → option A) (l : list A) k :
  (∀ i x, l !! i = Some x → f (k + i)%nat = Some x) → omap f (seq k (length l)) = l.
Proof.
  revert k. induction l as [|x l IH]; intros k H; [done|]. cbn [length seq omap list_omap].
  pose proof (H 0%nat x eq_refl) as H0. rewrite Nat.add_0_r in H0. rewrite H0. f_equal. apply IH. intros i y Hi.
  rewrite <- (H (S i) y Hi). f_equal. lia.
Qed.
Lemma hq_list_repr q l : hq_repr q l → hq_list q = l.
Proof.
  intros [Hh Ht Hl Hd Hc]. pose proof (zlen_nonneg l). unfold hq_list.
  replace (Z.to_nat ((hq_tail q - hq_head q) `mod` hq_size q)) with (length l); cycle 1.
  { rewrite Ht, Zminus_mod_idemp_l. replace (hq_head q + zlen l - hq_head q) with (zlen l) by lia. rewrite Z.mod_small by lia. unfold zlen. lia. }
  apply omap_seq_list. intros i x Hi. cbn. by rewrite (Hc i x Hi).
Qed.
(** A queue that may be NULL. *)
Definition q_ok (q : option harbor_msg_queue) : Prop := match q with Some q => hq_repr q (hq_list q) | None => True end.
Definition q_list (q : option harbor_msg_queue) : list harbor_msg := match q with Some q => hq_list q | None => [] end.
Lemma hq_repr_ok q l : hq_repr q l → q_ok (Some q) ∧ q_list (Some q) = l.
Proof. intros R. pose proof (hq_list_repr q l R) as E. cbn. by rewrite E. Qed.
Lemma release_ok_queue q h : q_ok q → release_queue q h = Ok (h_emits h ((HFree ∘ hm_buffer) <$> q_list q)).
Proof. intros R. apply release_queue_spec. by destruct q. Qed.
Lemma push_default q m :
  q_ok q → zlen (q_list q) < 2 ^ 29 →
  ∃ q', push_queue_msg (default new_queue q) m = Ok q' ∧ q_ok (Some q') ∧ q_list (Some q') = q_list q ++ [m].
Proof.
  intros R Hs. destruct (hq_push (default new_queue q) (q_list q) m) as (q' & -> & R'); [|done|].
  - destruct q; [done|apply hq_repr_new].
  - exists q'. split; [done|]. by apply hq_repr_ok.
Qed.
Lemma drain_ok (body : harbor_msg → harbor → result harbor) (acts : harbor_msg → list harbor_action) q h :
  q_ok (Some q) → (∀ m h, body m h = Ok (h_emits h (acts m))) →
  ∃ q', drain_queue body q h = Ok (q', h_emits h (concat (acts <$> hq_list q))) ∧ q_ok (Some q') ∧ hq_list q' = [].
Proof.
  intros R Hb. destruct (drain_emits body acts q (hq_list q) h R Hb) as (q' & -> & R'). exists q'. split; [done|]. by apply hq_repr_ok.
Qed.
Lemma drain_move q sq :
  q_ok (Some q) → q_ok (Some sq) → zlen (hq_list sq) + zlen (hq_list q) < 2 ^ 29 →
  ∃ q' sq', drain_queue move_msg q sq = Ok (q', sq') ∧ q_ok (Some q') ∧ hq_list q' = [] ∧
    q_ok (Some sq') ∧ hq_list sq' = hq_list sq ++ hq_list q.
Proof.
  intros R Rs Hs.
  assert (∃ sq', run_all move_msg (hq_list q) sq = Ok sq' ∧ hq_repr sq' (hq_list sq ++ hq_list q)) as (sq' & E & R').
  { cbn in Rs. revert Rs Hs. generalize (hq_list sq) as k. generalize (hq_list q) as l. clear R. intros l. revert sq.
    induction l as [|m l IH]; intros sq k R Hs; cbn [run_all]; [exists sq; by rewrite app_nil_r|]. rewrite zlen_cons in Hs.
    pose proof (zlen_nonneg l). destruct (hq_push sq k m) as (q1 & E1 & R1); [done|lia|]. change (move_msg m sq) with (push_queue_msg sq m). rewrite E1, bind_Ok.
    destruct (IH q1 (k ++ [m])) as (q2 & -> & R2); [done|rewrite zlen_app; change (zlen [m]) with 1; lia|].
    exists q2. by rewrite <- app_assoc in R2. }
  destruct (drain_queue_spec move_msg q _ sq sq' R E) as (q' & -> & R0). exists q', sq'. split; [done|].
  apply hq_repr_ok in R0 as [? ?]. apply hq_repr_ok in R' as [? ?]. done.
Qed.
