(* ===== verification/HarborProps.v ===== *)
(** * The harbor's memory

    Every block of memory handed to the harbor is freed or handed on once, and until
    then waits in exactly one of its queues: [harbor_ok] is the invariant of the queues,
    [keeps_blocks] what each operation does to the blocks, [harbor_run] a run of the
    service from its start. *)
From Stdlib Require Import String.
From stdpp Require Import base numbers relations list list_numbers.
From S2P Require Import Prelude CString Format Handle Server Netpack Command HashId Gate Harbor.

(** ** Memory *)

Definition q_bufs (q : option harbor_msg_queue) : list Z := hm_buffer <$> q_list q.
Definition slave_bufs (l : list slave) : list Z := concat ((q_bufs ∘ sl_queue) <$> l).
Definition node_bufs (l : list keyvalue) : list Z := concat ((q_bufs ∘ kv_queue) <$> l).
Definition map_bufs (m : hashmap) : list Z := concat (node_bufs <$> m).
(** The blocks an action frees or hands on. *)
Definition released_by (a : harbor_action) : list Z :=
  match a with HFree b | HSend _ _ _ _ (MGiven b) _ => [b] | _ => [] end.
Definition released (l : list harbor_action) : list Z := concat (released_by <$> l).
Definition queued (h : harbor) : list Z := slave_bufs (h_s h) ++ map_bufs (h_map h).

Record harbor_ok (h : harbor) : Prop := {
  ho_slaves : zlen (h_s h) = REMOTE_MAX;
  ho_sq : Forall (λ s, q_ok (sl_queue s)) (h_s h);
  ho_kq : Forall (Forall (λ n, q_ok (kv_queue n))) (h_map h) }.

Lemma concat_insert {A B} (f : A → list B) l i x y :
  l !! i = Some x → concat (f <$> <[i := y]> l) ++ f x ≡ₚ concat (f <$> l) ++ f y.
Proof. intros Hi. rewrite list_fmap_insert. apply concat_insert_perm. by rewrite list_lookup_fmap, Hi. Qed.
Lemma released_app l k : released (l ++ k) = released l ++ released k.
Proof. unfold released. by rewrite fmap_app, concat_app. Qed.
Lemma released_frees l : released ((HFree ∘ hm_buffer) <$> l) = hm_buffer <$> l.
Proof. unfold released. induction l as [|m l IH]; [done|]. cbn. by f_equal. Qed.

(** From [h] to [h'] the blocks [given] come in; none is lost and none released twice. *)
Record keeps_blocks (h : harbor) (given : list Z) (h' : harbor) : Prop := {
  kb_ok : harbor_ok h';
  kb_blocks : released (h_out h') ++ queued h' ≡ₚ given ++ released (h_out h) ++ queued h }.

Lemma keeps_refl h : harbor_ok h → keeps_blocks h [] h.
Proof. by split. Qed.
Lemma keeps_trans h1 a h2 b h3 : keeps_blocks h1 a h2 → keeps_blocks h2 b h3 → keeps_blocks h1 (b ++ a) h3.
Proof. intros [_ E1] [O2 E2]. split; [done|]. by rewrite E2, E1, app_assoc. Qed.
Lemma keeps_given h a b h' : keeps_blocks h a h' → a ≡ₚ b → keeps_blocks h b h'.
Proof. intros [O E] Hab. split; [done|]. by rewrite E, Hab. Qed.
Lemma keeps_emits h l : harbor_ok h → keeps_blocks h (released l) (h_emits h l).
Proof.
  intros [H1 H2 H3]. split; [by split|]. unfold queued. cbn [h_out h_emits h_s h_map]. rewrite released_app. solve_Permutation.
Qed.
Lemma emits_one h a : h_emit h a = h_emits h [a].
Proof. done. Qed.

(** A slave is replaced; the blocks of its queue change from those of [s] to those of
    [s'], or the other way round. *)
Lemma put_slave_inv h id s' h' :
  put_slave h id s' = Ok h' →
  0 ≤ id ∧ (∃ s, h_s h !! Z.to_nat id = Some s) ∧ h' = set_slaves h (<[Z.to_nat id := s']> (h_s h)).
Proof.
  unfold put_slave, wr. case_decide; [|done]. rewrite bind_Ok. intros [= <-]. split; [lia|]. split; [|done].
  apply lookup_lt_is_Some_2. lia.
Qed.
Lemma slaves_insert_ok h i s' :
  harbor_ok h → q_ok (sl_queue s') → harbor_ok (set_slaves h (<[i := s']> (h_s h))).
Proof. intros [H1 H2 H3] Hq. split; cbn; [by rewrite zlen_insert|by apply Forall_insert|done]. Qed.
Lemma slaves_insert_bufs h i s s' :
  h_s h !! i = Some s →
  queued (set_slaves h (<[i := s']> (h_s h))) ++ q_bufs (sl_queue s) ≡ₚ q_bufs (sl_queue s') ++ queued h.
Proof.
  intros Hi. unfold queued, slave_bufs. cbn [h_s h_map set_slaves].
  pose proof (concat_insert (q_bufs ∘ sl_queue) _ _ _ s' Hi) as E. cbn [compose] in E.
  rewrite <- app_assoc, (Permutation_app_comm (map_bufs _)), app_assoc, E. solve_Permutation.
Qed.
Lemma slave_of h id s : harbor_ok h → rd (h_s h) id = Ok s → 0 ≤ id ∧ h_s h !! Z.to_nat id = Some s ∧ q_ok (sl_queue s).
Proof.
  intros O [? Hs]%rd_Ok_inv. split; [lia|]. split; [done|]. by apply (Forall_lookup_1 _ _ _ _ (ho_sq _ O) Hs).
Qed.
(** A slave whose queue stays. *)
Lemma keeps_put h id s s' h' :
  harbor_ok h → rd (h_s h) id = Ok s → sl_queue s' = sl_queue s → put_slave h id s' = Ok h' → keeps_blocks h [] h'.
Proof.
  intros O Hs Hq (_ & _ & ->)%put_slave_inv. destruct (slave_of h id s O Hs) as (_ & Hi & Q).
  split; [apply slaves_insert_ok; [done|by rewrite Hq]|]. pose proof (slaves_insert_bufs h _ s s' Hi) as E. rewrite Hq in E.
  cbn [h_out set_slaves app]. apply Permutation_app_head. apply (Permutation_app_inv_r (q_bufs (sl_queue s))).
  rewrite E. apply Permutation_app_comm.
Qed.

(** A slave's queue changes. *)
Lemma put_queue h id s s' h' :
  harbor_ok h → rd (h_s h) id = Ok s → q_ok (sl_queue s') → put_slave h id s' = Ok h' →
  harbor_ok h' ∧ h_out h' = h_out h ∧ h_map h' = h_map h ∧
  slave_bufs (h_s h') ++ q_bufs (sl_queue s) ≡ₚ slave_bufs (h_s h) ++ q_bufs (sl_queue s').
Proof.
  intros O Hs Hq (_ & _ & ->)%put_slave_inv. destruct (slave_of h id s O Hs) as (_ & Hi & Q).
  split; [by apply slaves_insert_ok|]. split; [done|]. split; [done|]. apply (concat_insert (q_bufs ∘ sl_queue) _ _ _ s' Hi).
Qed.
Lemma harbor_ok_emits h l : harbor_ok h → harbor_ok (h_emits h l).
Proof. intros [H1 H2 H3]. by split. Qed.

Lemma keeps_close h id h' : harbor_ok h → close_harbor h id = Ok h' → keeps_blocks h [] h'.
Proof.
  intros O E. unfold close_harbor in E. apply bind_Ok_inv in E as (s & Hs & E). destruct (slave_of h id s O Hs) as (_ & _ & Q).
  set (h1 := if decide (sl_fd s ≠ 0) then _ else _) in E.
  assert (∃ l, h1 = h_emits h l ∧ released l = []) as (l & E1 & Hl).
  { unfold h1. case_decide; [by exists [HSocketClose (sl_fd s)]|]. exists []. by rewrite h_emits_nil. }
  rewrite release_ok_queue, bind_Ok in E by done.
  rewrite E1, h_emits_app in E. apply put_queue with (s := s) in E as (O' & Eo & Em & Ep); [|by apply harbor_ok_emits|done|done].
  split; [done|]. unfold queued. rewrite Eo, Em. cbn [h_out h_emits h_map h_s app] in *.
  rewrite !released_app, released_frees, Hl. cbn [sl_queue set_hqueue q_bufs q_list fmap list_fmap] in Ep.
  rewrite app_nil_r in Ep. fold (q_bufs (sl_queue s)). rewrite <- Ep. solve_Permutation.
Qed.

Section Service.
Context (send_fails : list harbor_action → harbor_action → bool).

(** Actions that write to no socket, or only to one. *)
Definition is_write (a : harbor_action) : bool := match a with HSocketSend _ _ => true | _ => false end.
Definition no_writes (l : list harbor_action) : bool := forallb (λ a, negb (is_write a)) l.
Definition writes_only (fd : Z) (l : list harbor_action) : bool :=
  forallb (λ a, match a with HSocketSend f _ => bool_decide (f = fd) | _ => true end) l.
Lemma forward_emits h msg sz h' :
  forward_local_messsage send_fails h msg sz = Ok h' → ∃ l, h' = h_emits h l ∧ released l = [] ∧ no_writes l = true.
Proof.
  unfold forward_local_messsage. intros E. apply bind_Ok_inv in E as (cookie & _ & E). apply bind_Ok_inv in E as (data & _ & E).
  cbv zeta in E.
  destruct (send_fails _ _); [case_decide|]; apply Ok_inj in E; subst h'; rewrite !emits_one, ?h_emits_app; eexists; (split; [reflexivity|split; reflexivity]).
Qed.
(** What a message of a queue puts on the wire. *)
Definition wire_action (fd : Z) (data : list Z) (cookie : remote_message_header) : harbor_action :=
  if decide (UINT32_MAX < zlen data + HEADER_COOKIE_LENGTH) then
    HError (lit "remote message from :" ++ print_08x (rh_source cookie) ++ lit " to :" ++ print_08x (rh_destination cookie)
              ++ lit " is too large.")
  else HSocketSend fd (to_bigendian (zlen data + HEADER_COOKIE_LENGTH) ++ data ++ header_to_message cookie).
Definition with_bits (bits : Z) (x : remote_message_header) : remote_message_header :=
  mk_rmh (rh_source x) (Z.lor (rh_destination x) bits) (rh_session x).
Definition send_msg_acts (fd bits : Z) (m : harbor_msg) : list harbor_action :=
  [wire_action fd (hm_data m) (with_bits bits (hm_header m)); HFree (hm_buffer m)].
Lemma send_remote_eq h fd data cookie : send_remote h fd data cookie = h_emits h [wire_action fd data cookie].
Proof. unfold send_remote, wire_action. by case_decide. Qed.
Lemma send_msg_eq fd bits m h : send_msg fd bits m h = Ok (h_emits h (send_msg_acts fd bits m)).
Proof. unfold send_msg. cbv zeta. rewrite send_remote_eq, emits_one, h_emits_app. done. Qed.
Lemma released_wire fd data cookie : released [wire_action fd data cookie] = [].
Proof. unfold wire_action. by case_decide. Qed.
Lemma released_sent fd bits l : released (concat (send_msg_acts fd bits <$> l)) = hm_buffer <$> l.
Proof.
  induction l as [|m l IH]; [done|]. cbn [fmap list_fmap concat]. rewrite released_app, IH. unfold send_msg_acts.
  change ([?a; ?b]) with ([a] ++ [b]). rewrite released_app, released_wire. done.
Qed.
Definition local_act (handle : Z) (m : harbor_msg) : harbor_action :=
  HSend (rh_source (hm_header m)) handle (Z.lor (Z.shiftr (rh_destination (hm_header m)) HANDLE_REMOTE_SHIFT) PTYPE_TAG_DONTCOPY)
    (s32 (rh_session (hm_header m))) (MGiven (hm_buffer m)) (hm_data m).
Lemma released_local handle l : released (concat ((λ m, [local_act handle m]) <$> l)) = hm_buffer <$> l.
Proof. induction l as [|m l IH]; [done|]. cbn [fmap list_fmap concat]. rewrite released_app, IH. done. Qed.

Lemma keeps_dispatch h id h' : harbor_ok h → dispatch_queue h id = Ok h' → keeps_blocks h [] h'.
Proof.
  intros O E. unfold dispatch_queue in E. apply bind_Ok_inv in E as (s & Hs & E). apply bind_Ok_inv in E as ([] & _ & E).
  destruct (slave_of h id s O Hs) as (_ & _ & Q). destruct (sl_queue s) as [q|] eqn:Eq; [|injection E as <-; by apply keeps_refl].
  destruct (drain_ok (send_msg (sl_fd s) 0) (send_msg_acts (sl_fd s) 0) q h Q) as (q' & E1 & Q' & Hq'); [intros; apply send_msg_eq|].
  rewrite E1, bind_Ok in E. cbn [fst snd] in E. rewrite release_ok_queue, bind_Ok in E by done. cbn [q_list] in E. rewrite Hq' in E.
  cbn [fmap list_fmap] in E. rewrite h_emits_nil in E.
  apply put_queue with (s := s) in E as (O' & Eo & Em & Ep); [|by apply harbor_ok_emits|done|done].
  split; [done|]. unfold queued. rewrite Eo, Em. cbn [h_out h_emits h_map h_s app] in *. rewrite released_app, released_sent.
  rewrite Eq in Ep. cbn [sl_queue set_hqueue q_bufs q_list fmap list_fmap] in Ep. rewrite app_nil_r in Ep.
  rewrite <- Ep. unfold q_bufs. cbn [q_list]. solve_Permutation.
Qed.

(** ** The table of names *)

Lemma set_chain_spec l name x node :
  search_chain l name = Some x → is_node name node = true →
  ∃ l1 l2, l = l1 ++ x :: l2 ∧ set_chain l name node = l1 ++ node :: l2 ∧ search_chain (set_chain l name node) name = Some node.
Proof.
  intros Hs Hn. induction l as [|y l IH]; [done|]. cbn [search_chain set_chain] in *. destruct (is_node name y) eqn:Ey.
  - injection Hs as ->. exists [], l. split; [done|]. split; [done|]. cbn. by rewrite Hn.
  - destruct (IH Hs) as (l1 & l2 & -> & E & E'). exists (y :: l1), l2. split; [done|]. split; [by rewrite E|]. cbn. by rewrite Ey.
Qed.
Lemma search_chain_node l name x : search_chain l name = Some x → is_node name x = true ∧ x ∈ l.
Proof.
  induction l as [|y l IH]; [done|]. cbn. destruct (is_node name y) eqn:Ey; [intros [= ->]; split; [done|left]|].
  intros H. destruct (IH H) as [? ?]. split; [done|by right].
Qed.
Lemma strncmp_refl n a : (n ≤ length a)%nat → strncmp_eq n a a = true.
Proof.
  revert a. induction n as [|n IH]; intros [|x a] Hn; cbn in *; [done..|lia|]. rewrite bool_decide_eq_true_2 by done. cbn.
  destruct (bool_decide (x = 0)); [done|]. apply IH. lia.
Qed.
Lemma new_is_node name q v : length name = GLOBALNAME_LENGTH → is_node name (mk_kv (take GLOBALNAME_LENGTH name) (name_hash name) v q) = true.
Proof.
  intros Hl. unfold is_node. cbn [kv_hash kv_key]. rewrite bool_decide_eq_true_2 by done. cbn [andb]. rewrite take_ge by lia.
  apply strncmp_refl. lia.
Qed.
Lemma is_node_same name x y : kv_key x = kv_key y → kv_hash x = kv_hash y → is_node name x = is_node name y.
Proof. unfold is_node. by intros -> ->. Qed.

(** [find_or_insert] gives the node of the name and changes no queue. *)
Lemma find_or_insert_spec m name node m' :
  find_or_insert m name = Ok (node, m') → length name = GLOBALNAME_LENGTH → Forall (Forall (λ n, q_ok (kv_queue n))) m →
  hash_search m' name = Ok (Some node) ∧ q_ok (kv_queue node) ∧ Forall (Forall (λ n, q_ok (kv_queue n))) m' ∧
  map_bufs m' ≡ₚ map_bufs m ∧ is_node name node = true.
Proof.
  intros E Hl Hm. unfold find_or_insert in E. apply bind_Ok_inv in E as (o & Ho & E). destruct o as [x|].
  - apply Ok_inj in E. simplify_eq. split; [done|]. unfold hash_search in Ho. apply bind_Ok_inv in Ho as (l & Hl' & Ho).
    apply Ok_inj in Ho. apply search_chain_node in Ho as [Hn Hin]. apply rd_Ok_inv in Hl' as [_ Hl'].
    pose proof (Forall_lookup_1 _ _ _ _ Hm Hl') as Hq. rewrite Forall_forall in Hq. split; [by apply Hq|]. split; [done|]. by split.
  - unfold hash_insert in E. cbv zeta in E. apply bind_Ok_inv in E as (l & Hr & E). apply bind_Ok_inv in E as (m1 & Hw & E).
    apply Ok_inj in E. simplify_eq. apply rd_Ok_inv in Hr as [Hi Hr]. rewrite wr_Ok in Hw by done. apply Ok_inj in Hw. subst m'.
    pose proof (new_is_node name None 0 Hl) as Hn. split; [|split; [done|split; [|split; [|done]]]].
    + unfold hash_search. rewrite (rd_lookup _ _ _ (proj1 Hi) (list_lookup_insert_eq _ _ _ (lookup_lt_Some _ _ _ Hr))), bind_Ok.
      cbn [search_chain]. by rewrite Hn.
    + apply Forall_insert; [done|]. constructor; [done|]. by apply (Forall_lookup_1 _ _ _ _ Hm Hr).
    + unfold map_bufs. pose proof (concat_insert node_bufs m _ l (mk_kv (take GLOBALNAME_LENGTH name) (name_hash name) 0 None :: l) Hr) as E.
      by apply Permutation_app_inv_r in E.
Qed.
(** A node found is replaced by one with the same name. *)
Lemma set_node_spec m name x node m' :
  hash_search m name = Ok (Some x) → is_node name node = true → set_node m name node = Ok m' →
  Forall (Forall (λ n, q_ok (kv_queue n))) m → q_ok (kv_queue node) →
  hash_search m' name = Ok (Some node) ∧ Forall (Forall (λ n, q_ok (kv_queue n))) m' ∧
  map_bufs m' ++ q_bufs (kv_queue x) ≡ₚ map_bufs m ++ q_bufs (kv_queue node).
Proof.
  intros Hs Hn Hset Hm Hq. unfold hash_search in Hs. apply bind_Ok_inv in Hs as (l & Hr & Hs). apply Ok_inj in Hs.
  unfold set_node in Hset. rewrite Hr, bind_Ok in Hset. apply rd_Ok_inv in Hr as [Hi Hr]. rewrite wr_Ok in Hset by done.
  apply Ok_inj in Hset. subst m'. destruct (set_chain_spec l name x node Hs Hn) as (l1 & l2 & El & Ec & Es). split; [|split].
  - unfold hash_search. rewrite (rd_lookup _ _ _ (proj1 Hi) (list_lookup_insert_eq _ _ _ (lookup_lt_Some _ _ _ Hr))), bind_Ok. by rewrite Es.
  - apply Forall_insert; [done|]. pose proof (Forall_lookup_1 _ _ _ _ Hm Hr) as Hl. rewrite El in Hl. apply Forall_app in Hl as [? [_ ?]%Forall_cons].
    rewrite Ec. apply Forall_app. split; [done|]. by constructor.
  - unfold map_bufs. pose proof (concat_insert node_bufs m _ l (set_chain l name node) Hr) as E.
    rewrite Ec, El in *. unfold node_bufs in E at 2 4. rewrite !fmap_app, !concat_app in E. cbn [fmap list_fmap concat compose] in E.
    apply (Permutation_app_inv_r (concat (q_bufs ∘ kv_queue <$> l1) ++ concat (q_bufs ∘ kv_queue <$> l2))).
    transitivity (concat (node_bufs <$> <[Z.to_nat (name_hash name `mod` HASH_SIZE) := l1 ++ node :: l2]> m)
      ++ concat (q_bufs ∘ kv_queue <$> l1) ++ q_bufs (kv_queue x) ++ concat (q_bufs ∘ kv_queue <$> l2)); [solve_Permutation|].
    rewrite E. solve_Permutation.
Qed.

(** The queue of a node is dispatched; the node is outside of the table. *)
Lemma dispatch_name_blocks h node h' node' :
  harbor_ok h → q_ok (kv_queue node) → zlen (queued h) + zlen (q_bufs (kv_queue node)) < 2 ^ 29 →
  dispatch_name_queue h node = Ok (h', node') →
  harbor_ok h' ∧ h_map h' = h_map h ∧ q_ok (kv_queue node') ∧ kv_key node' = kv_key node ∧ kv_hash node' = kv_hash node ∧
  released (h_out h') ++ slave_bufs (h_s h') ++ q_bufs (kv_queue node')
    ≡ₚ released (h_out h) ++ slave_bufs (h_s h) ++ q_bufs (kv_queue node).
Proof.
  intros O Q Hsz E. unfold dispatch_name_queue in E. apply bind_Ok_inv in E as (queue & Eq & E).
  destruct (kv_queue node) as [q|] eqn:Ek; [|done]. apply Ok_inj in Eq. subst queue. cbv zeta in E.
  apply bind_Ok_inv in E as (s & Hs & E). destruct (slave_of h _ s O Hs) as (_ & Hi & Qs).
  destruct (decide (sl_fd s = 0)); cycle 1.
  { destruct (drain_ok (send_msg (sl_fd s) (Z.land (kv_value node) HANDLE_MASK)) (send_msg_acts (sl_fd s) (Z.land (kv_value node) HANDLE_MASK)) q h Q)
      as (q' & E1 & Q' & Hq'); [intros; apply send_msg_eq|].
    rewrite E1, bind_Ok in E. apply Ok_inj in E. simplify_eq. split; [by apply harbor_ok_emits|]. split; [done|]. split; [done|]. split; [done|]. split; [done|].
    cbn [fst snd h_out h_emits h_s kv_queue set_kqueue]. rewrite released_app, released_sent. unfold q_bufs at 1. cbn [q_list]. rewrite Hq'.
    unfold q_bufs. cbn [q_list fmap list_fmap]. solve_Permutation. }
  destruct (decide (sl_status s = STATUS_DOWN)).
  { apply Ok_inj in E. apply pair_equal_spec in E as [<- <-]. rewrite emits_one. split; [by apply harbor_ok_emits|]. rewrite Ek.
    split; [done|]. split; [done|]. split; [done|]. split; [done|]. cbn [h_out h_emits h_s]. rewrite released_app.
    change (released [HError _]) with (@nil Z). by rewrite app_nil_r. }
  apply bind_Ok_inv in E as ([sq rest] & Er & E).
  assert (q_ok (Some sq) ∧ q_ok rest ∧ hq_list sq = q_list (sl_queue s) ++ hq_list q ∧ q_list rest = []) as (Qsq & Qr & Esq & Erest).
  { destruct (sl_queue s) as [sq0|] eqn:Esl; [|apply Ok_inj in Er; by simplify_eq].
    destruct (drain_move q sq0 Q Qs) as (q' & sq' & E1 & Q' & Hq' & Qsq & Hsq).
    { assert (zlen (hq_list sq0) ≤ zlen (queued h)); [|unfold q_bufs, zlen in *; cbn [q_list] in Hsz; rewrite length_fmap in Hsz; lia].
      unfold queued, slave_bufs, zlen. rewrite length_app. apply list_elem_of_split_length in Hi as (l1 & l2 & -> & _).
      rewrite fmap_app, concat_app. cbn [fmap list_fmap concat compose]. rewrite Esl. unfold q_bufs at 2. cbn [q_list].
      rewrite !length_app, length_fmap. lia. }
    rewrite E1, bind_Ok in Er. apply Ok_inj in Er. by simplify_eq. }
  destruct (decide (_ = Z.shiftr (h_slave h) HANDLE_REMOTE_SHIFT)).
  - destruct (drain_ok (send_local_msg (kv_value node)) (λ m, [local_act (kv_value node) m]) sq h Qsq) as (q' & E1 & Q' & Hq'); [done|].
    rewrite E1, bind_Ok in E. cbn [fst snd] in E. rewrite release_ok_queue, bind_Ok in E by done. cbn [q_list] in E. rewrite Hq' in E.
    cbn [fmap list_fmap] in E. rewrite h_emits_nil in E. apply bind_Ok_inv in E as (h1 & Hp & E). apply Ok_inj in E. simplify_eq.
    apply put_queue with (s := s) in Hp as (O' & Eo & Em & Ep); [|by apply harbor_ok_emits|done|done].
    split; [done|]. split; [done|]. split; [done|]. split; [done|]. split; [done|]. rewrite Eo. cbn [h_out h_emits h_s kv_queue set_kqueue] in *.
    rewrite released_app, released_local, Esq, fmap_app. cbn [sl_queue set_hqueue] in Ep. unfold q_bufs at 2 in Ep. cbn [q_list fmap list_fmap] in Ep.
    rewrite app_nil_r in Ep. rewrite <- Ep. unfold q_bufs. cbn [q_list]. rewrite Erest. cbn [fmap list_fmap]. solve_Permutation.
  - apply bind_Ok_inv in E as (h1 & Hp & E). apply Ok_inj in E. simplify_eq.
    apply put_queue with (s := s) in Hp as (O' & Eo & Em & Ep); [|done..].
    split; [done|]. split; [done|]. split; [done|]. split; [done|]. split; [done|]. rewrite Eo. cbn [kv_queue set_kqueue sl_queue set_hqueue] in *.
    unfold q_bufs at 2 in Ep. cbn [q_list] in Ep. rewrite Esq, fmap_app in Ep. unfold q_bufs at 1. rewrite Erest. cbn [fmap list_fmap].
    apply (Permutation_app_inv_r (q_bufs (sl_queue s))).
    transitivity (released (h_out h) ++ slave_bufs (h_s h') ++ q_bufs (sl_queue s)); [solve_Permutation|]. rewrite Ep.
    unfold q_bufs. cbn [q_list]. solve_Permutation.
Qed.
Lemma map_ok h m : harbor_ok h → Forall (Forall (λ n, q_ok (kv_queue n))) m → harbor_ok (set_map h m).
Proof. intros [H1 H2 _] Hm. by split. Qed.
Lemma node_bufs_le m name x : hash_search m name = Ok (Some x) → zlen (q_bufs (kv_queue x)) ≤ zlen (map_bufs m).
Proof.
  intros Hs. unfold hash_search in Hs. apply bind_Ok_inv in Hs as (l & Hr & Hs). apply Ok_inj in Hs. apply search_chain_node in Hs as [_ Hin].
  apply rd_Ok_inv in Hr as [_ Hr]. apply list_elem_of_split in Hin as (l1 & l2 & ->). apply list_elem_of_split_length in Hr as (m1 & m2 & -> & _).
  unfold map_bufs, node_bufs, zlen. rewrite fmap_app, concat_app. cbn [fmap list_fmap concat]. rewrite fmap_app, concat_app.
  cbn [fmap list_fmap concat compose]. rewrite !length_app. lia.
Qed.

Lemma keeps_update_name h name handle h' :
  harbor_ok h → length name = GLOBALNAME_LENGTH → 2 * zlen (queued h) < 2 ^ 29 → update_name h name handle = Ok h' → keeps_blocks h [] h'.
Proof.
  intros O Hl Hsz E. unfold update_name in E. apply bind_Ok_inv in E as ([node map] & Hf & E).
  destruct (find_or_insert_spec _ _ _ _ Hf Hl (ho_kq _ O)) as (Hs & Q & Hm & Hb & Hn). cbv zeta in E.
  assert (is_node name (set_kvalue node handle) = true) as Hn1 by (by rewrite <- Hn; apply is_node_same).
  destruct (kv_queue (set_kvalue node handle)) as [q|] eqn:Eq.
  - apply bind_Ok_inv in E as ([h1 node1] & Hd & E). cbn [fst snd] in E.
    apply dispatch_name_blocks in Hd as (O1 & Em1 & Q1 & Ek1 & Eh1 & Eb1); [|by apply map_ok|done|].
    2:{ unfold queued in *. cbn [h_s h_map set_map]. pose proof (node_bufs_le _ _ _ Hs). unfold zlen in *. apply Permutation_length in Hb.
        rewrite length_app in *. cbn [kv_queue set_kvalue] in *. lia. }
    rewrite release_ok_queue, bind_Ok in E by done. apply bind_Ok_inv in E as (map2 & Hset & E). apply Ok_inj in E. subst h'.
    apply set_node_spec with (x := node) in Hset as (_ & Hm2 & Hb2); [|done| |done|done].
    2:{ rewrite <- Hn1. apply is_node_same; [exact Ek1|exact Eh1]. }
    split; [apply map_ok; [by apply harbor_ok_emits|done]|]. unfold queued in *. cbn [h_out h_emits h_s h_map set_map app] in *.
    rewrite released_app, released_frees. fold (q_bufs (kv_queue node1)).
    cbn [kv_queue set_kqueue] in Hb2. unfold q_bufs at 2 in Hb2. cbn [q_list fmap list_fmap] in Hb2. rewrite app_nil_r in Hb2.
    cbn [kv_queue set_kvalue] in Eq, Eb1. rewrite Eq in Eb1, Hb2. apply (Permutation_app_inv_r (q_bufs (Some q))).
    transitivity ((released (h_out h1) ++ slave_bufs (h_s h1) ++ q_bufs (kv_queue node1)) ++ map_bufs map2 ++ q_bufs (Some q)); [solve_Permutation|].
    rewrite Eb1, Hb2, Hb. solve_Permutation.
  - apply bind_Ok_inv in E as (map2 & Hset & E). apply Ok_inj in E. subst h'.
    apply set_node_spec with (x := node) in Hset as (_ & Hm2 & Hb2); [|done|done|done|by rewrite Eq].
    split; [by apply map_ok; [apply map_ok|]|]. unfold queued. cbn [h_out h_s h_map set_map app]. cbn [kv_queue set_kvalue] in Eq, Hb2.
    rewrite Eq in Hb2. apply Permutation_app_inv_r in Hb2. by rewrite Hb2, Hb.
Qed.

Lemma keeps_then h a b h1 h2 : keeps_blocks h [] h1 → (harbor_ok h1 → keeps_blocks h1 a h2) → a = b → keeps_blocks h b h2.
Proof. intros K1 K2 <-. rewrite <- (app_nil_r a). eapply keeps_trans; [done|]. apply K2, K1. Qed.
Lemma keeps_quiet h l : harbor_ok h → released l = [] → keeps_blocks h [] (h_emits h l).
Proof. intros O Hl. pose proof (keeps_emits h l O) as H. by rewrite Hl in H. Qed.
Lemma slave_queue_le h i s : h_s h !! i = Some s → zlen (q_list (sl_queue s)) ≤ zlen (queued h).
Proof.
  intros Hi. unfold queued, slave_bufs, zlen. rewrite length_app. apply list_elem_of_split_length in Hi as (l1 & l2 & -> & _).
  rewrite fmap_app, concat_app. cbn [fmap list_fmap concat compose]. unfold q_bufs at 2. rewrite !length_app, length_fmap. lia.
Qed.
Lemma keeps_send_handle h source destination type session buffer data r h' :
  harbor_ok h → zlen (queued h) < 2 ^ 29 → remote_send_handle h source destination type session buffer data = Ok (r, h') →
  keeps_blocks h (if decide (r ≠ 0) then [buffer] else []) h'.
Proof.
  intros O Hsz E. unfold remote_send_handle in E. cbv zeta in E. case_decide.
  { apply Ok_inj, pair_equal_spec in E as [<- <-]. rewrite emits_one, decide_True by done. by apply (keeps_emits h [HSend _ _ _ _ (MGiven buffer) _]). }
  apply bind_Ok_inv in E as (s & Hs & E). destruct (slave_of h _ s O Hs) as (_ & Hi & Q). case_decide; [case_decide|].
  - apply Ok_inj, pair_equal_spec in E as [<- <-]. rewrite !emits_one, h_emits_app, decide_False by lia. by apply keeps_quiet.
  - apply bind_Ok_inv in E as (q & Hp & E). apply bind_Ok_inv in E as (h1 & Hput & E). apply Ok_inj, pair_equal_spec in E as [<- <-].
    unfold push_hqueue in Hp. set (m := mk_hmsg _ _ _) in Hp. pose proof (slave_queue_le h _ s Hi).
    destruct (push_default (sl_queue s) m Q) as (q1 & E1 & Q1 & Eq1); [lia|]. rewrite E1 in Hp. apply Ok_inj in Hp. subst q1.
    apply put_queue with (s := s) in Hput as (O' & Eo & Em & Ep); [|done|done|done]. cbn [sl_queue set_hqueue] in Ep.
    unfold q_bufs in Ep at 2. rewrite Eq1, fmap_app in Ep. split; [done|]. unfold queued. rewrite Eo, Em.
    apply (Permutation_app_inv_r (q_bufs (sl_queue s))).
    transitivity (released (h_out h) ++ (slave_bufs (h_s h1) ++ q_bufs (sl_queue s)) ++ map_bufs (h_map h)); [solve_Permutation|].
    rewrite Ep. change (hm_buffer <$> [m]) with [buffer]. unfold q_bufs. rewrite decide_True by done. solve_Permutation.
  - apply Ok_inj, pair_equal_spec in E as [<- <-]. rewrite send_remote_eq, decide_False by lia. apply keeps_quiet; [done|apply released_wire].
Qed.
Lemma keeps_send_name h source name type session buffer data r h' :
  harbor_ok h → length name = GLOBALNAME_LENGTH → zlen (queued h) < 2 ^ 29 →
  remote_send_name h source name type session buffer data = Ok (r, h') → keeps_blocks h (if decide (r ≠ 0) then [buffer] else []) h'.
Proof.
  intros O Hl Hsz E. unfold remote_send_name in E. apply bind_Ok_inv in E as ([node map] & Hf & E).
  destruct (find_or_insert_spec _ _ _ _ Hf Hl (ho_kq _ O)) as (Hs & Q & Hm & Hb & Hn). cbv zeta in E.
  pose proof (map_ok h map O Hm) as O1.
  assert (keeps_blocks h [] (set_map h map)) as K1.
  { split; [done|]. unfold queued. cbn [h_out h_s h_map set_map app]. by rewrite Hb. }
  case_decide; cycle 1.
  { apply keeps_send_handle in E; [|done|].
    - by eapply keeps_then.
    - unfold queued in *. cbn [h_s h_map set_map]. unfold zlen in *. apply Permutation_length in Hb. rewrite length_app in *. lia. }
  apply bind_Ok_inv in E as (q & Hp & E). unfold push_hqueue in Hp. set (m := mk_hmsg _ _ _) in Hp.
  pose proof (node_bufs_le _ _ _ Hs) as Hle.
  destruct (push_default (kv_queue node) m Q) as (q1 & E1 & Q1 & Eq1).
  { unfold queued, zlen in *. apply Permutation_length in Hb. unfold q_bufs in Hle. rewrite length_app, length_fmap in *. lia. }
  rewrite E1 in Hp. apply Ok_inj in Hp. subst q1. apply bind_Ok_inv in E as (map2 & Hset & E). apply Ok_inj, pair_equal_spec in E as [<- <-].
  apply set_node_spec with (x := node) in Hset as (_ & Hm2 & Hb2); [|done|by rewrite <- Hn; apply is_node_same|done|done].
  cbn [kv_queue set_kqueue] in Hb2. unfold q_bufs in Hb2 at 2. rewrite Eq1, fmap_app in Hb2. rewrite emits_one.
  split; [apply harbor_ok_emits, map_ok; done|]. unfold queued. cbn [h_out h_emits h_s h_map set_map]. rewrite released_app.
  change (released [HSend _ _ _ _ MText _]) with (@nil Z). rewrite decide_True by done.
  apply (Permutation_app_inv_r (q_bufs (kv_queue node))).
  transitivity (released (h_out h) ++ slave_bufs (h_s h) ++ (map_bufs map2 ++ q_bufs (kv_queue node))); [solve_Permutation|].
  rewrite Hb2, Hb. change (hm_buffer <$> [m]) with [buffer]. unfold q_bufs. solve_Permutation.
Qed.

(** Received bytes touch no queue but to send it or to give it up. *)
Lemma keeps_content h id buffer r : harbor_ok h → receive_content send_fails h id buffer = Ok r → keeps_blocks h [] r.1.
Proof.
  intros O E. unfold receive_content in E. apply bind_Ok_inv in E as (s & Hs & E). apply bind_Ok_inv in E as (recv & _ & E). cbv zeta in E.
  case_decide; apply bind_Ok_inv in E as (recv2 & _ & E).
  - apply bind_Ok_inv in E as (h1 & Hp & E). apply Ok_inj in E. subst r. by apply (keeps_put h id s _ _ O Hs) in Hp.
  - apply bind_Ok_inv in E as (h1 & Hf & E). apply forward_emits in Hf as (l & -> & Hl & _). apply bind_Ok_inv in E as (h2 & Hp & E). apply Ok_inj in E. subst r.
    apply (keeps_then h [] [] (h_emits h l)); [by apply keeps_quiet| |done]. intros O1. by apply (keeps_put _ id s _ _ O1) in Hp.
Qed.
Lemma keeps_header h id buffer r : harbor_ok h → receive_header send_fails h id buffer = Ok r → keeps_blocks h [] r.1.
Proof.
  intros O E. unfold receive_header in E. apply bind_Ok_inv in E as (s & Hs & E). cbv zeta in E.
  case_decide; apply bind_Ok_inv in E as (size & _ & E); apply bind_Ok_inv in E as (h1 & Hp & E).
  - apply Ok_inj in E. subst r. by apply (keeps_put h id s _ _ O Hs) in Hp.
  - pose proof Hp as (_ & _ & Eh1)%put_slave_inv. apply (keeps_put h id s _ _ O Hs) in Hp; [|done]. apply (keeps_then h [] [] h1); [done| |done]. intros O1.
    do 4 (apply bind_Ok_inv in E as (? & _ & E)). case_decide.
    + apply bind_Ok_inv in E as (h2 & Hc & E). apply Ok_inj in E. subst r. rewrite emits_one in Hc.
      apply (keeps_then h1 [] [] (h_emits h1 [HError (lit "Message is too long from harbor " ++ print_d id)])); [by apply keeps_quiet| |done].
      intros O2. by apply (keeps_close _ id).
    + apply bind_Ok_inv in E as (h2 & Hp2 & E).
      assert (keeps_blocks h1 [] h2) as K2.
      { destruct (slave_of h id s O Hs) as (Hid & Hi & _). eapply (keeps_put h1 id _ _ _ O1); [| |exact Hp2];
          [apply rd_lookup; [done|]; rewrite Eh1; cbn [h_s set_slaves]; apply list_lookup_insert_eq; by eapply lookup_lt_Some|done]. }
      case_decide; [apply Ok_inj in E; by subst r|].
      apply (keeps_then h1 [] [] h2); [done| |done]. intros O2. by apply (keeps_content h2 id _ r O2) in E.
Qed.
Lemma keeps_handshake h id buffer r : harbor_ok h → receive_handshake send_fails h id buffer = Ok r → keeps_blocks h [] r.1.
Proof.
  intros O E. unfold receive_handshake in E. apply bind_Ok_inv in E as (s & Hs & E). apply bind_Ok_inv in E as (remote_id & _ & E). case_decide.
  - apply bind_Ok_inv in E as (h2 & Hc & E). apply Ok_inj in E. subst r. rewrite emits_one in Hc. set (a := HError _) in Hc.
    apply (keeps_then h [] [] (h_emits h [a])); [by apply keeps_quiet| |done]. intros O2. by apply (keeps_close _ id).
  - cbv zeta in E. apply bind_Ok_inv in E as (h1 & Hp & E). apply bind_Ok_inv in E as (h2 & Hd & E).
    apply (keeps_then h [] [] h1); [by apply (keeps_put h id s _ _ O Hs) in Hp| |done]. intros O1.
    apply (keeps_then h1 [] [] h2); [by apply (keeps_dispatch _ id)| |done]. intros O2.
    case_decide; [apply Ok_inj in E; subst r; by apply keeps_refl|by apply (keeps_header h2 id _ r O2) in E].
Qed.
Lemma keeps_receive fuel h id buffer h' : harbor_ok h → receive_loop send_fails fuel h id buffer = Ok h' → keeps_blocks h [] h'.
Proof.
  revert h buffer. induction fuel as [|fuel IH]; intros h buffer O E; [done|]. cbn [receive_loop] in E.
  apply bind_Ok_inv in E as (s & Hs & E). apply bind_Ok_inv in E as ([h1 o] & Hr & E).
  assert (keeps_blocks h [] h1) as K1.
  { repeat case_decide; [by apply (keeps_handshake h id _ _ O) in Hr|by apply (keeps_header h id _ _ O) in Hr|
      by apply (keeps_content h id _ _ O) in Hr|]. apply Ok_inj in Hr. simplify_eq. by apply keeps_refl. }
  cbn [fst snd] in E. destruct o as [rest|]; [|apply Ok_inj in E; by subst]. apply (keeps_then h [] [] h1); [done| |done]. intros O1. by apply (IH h1 rest).
Qed.

(** Commands of the slave. *)
Lemma keeps_command h msg source h' :
  harbor_ok h → 2 * zlen (queued h) < 2 ^ 29 → harbor_command h msg source = Ok h' → keeps_blocks h [] h'.
Proof.
  intros O Hsz E. unfold harbor_command in E. apply bind_Ok_inv in E as (command & _ & E). cbv zeta in E. case_decide; [case_decide|].
  - apply Ok_inj in E. subst h'. rewrite emits_one. by apply keeps_quiet.
  - apply keeps_update_name in E; [done|done| |done]. rewrite length_app, length_replicate, length_drop. unfold zlen in *. lia.
  - case_decide; [|apply Ok_inj in E; subst h'; rewrite emits_one; by apply keeps_quiet]. case_decide; [done|].
    destruct (scan_pair _) as [fd id]. case_decide; [apply Ok_inj in E; subst h'; rewrite emits_one; by apply keeps_quiet|].
    apply bind_Ok_inv in E as (s & Hs & E). destruct (decide (sl_fd s ≠ 0)); [apply Ok_inj in E; subst h'; rewrite emits_one; by apply keeps_quiet|].
    apply bind_Ok_inv in E as (h1 & Hp & E). pose proof Hp as (Hid & [s0 Hs0] & Eh1)%put_slave_inv. apply (keeps_put h id s _ _ O Hs) in Hp; [|done].
    apply (keeps_then h [] [] h1); [done| |done]. intros O1. apply bind_Ok_inv in E as (h2 & Hh & E). unfold handshake in Hh.
    apply bind_Ok_inv in Hh as (s1 & Hs1 & Hh). apply Ok_inj in Hh. rewrite !emits_one, h_emits_app in Hh.
    assert (sl_queue s1 = sl_queue s) as Eq1.
    { apply rd_Ok_inv in Hs1 as [_ Hs1]. rewrite Eh1 in Hs1. cbn [h_s h_emit set_slaves] in Hs1.
      rewrite list_lookup_insert_eq in Hs1 by (by eapply lookup_lt_Some). by injection Hs1 as <-. }
    apply (keeps_then h1 [] [] h2); [subst h2; by apply keeps_quiet| |done]. intros O2.
    assert (rd (h_s h2) id = Ok s1) as Hs2 by (rewrite <- Hh; exact Hs1). case_decide.
    + by apply (keeps_put h2 id s1 _ _ O2 Hs2) in E.
    + apply bind_Ok_inv in E as (h3 & Hp3 & E). apply (keeps_then h2 [] [] h3); [by apply (keeps_put h2 id s1 _ _ O2 Hs2) in Hp3| |done].
      intros O3. by apply (keeps_dispatch h3 id).
Qed.

(** The blocks an input hands over. *)
Definition given (input : harbor_input) : list Z :=
  match input with
  | ISocket type _ _ buffer _ => if decide (type = SKYNET_SOCKET_TYPE_DATA) then [buffer] else []
  | IHarbor _ _ => []
  | IRemote _ _ _ _ _ buffer _ => [buffer]
  end.
(** Names have sixteen bytes; data comes for a descriptor of a slave; there are fewer
    than 2^28 messages. *)
Definition input_fits (h : harbor) (input : harbor_input) : Prop :=
  2 * zlen (queued h) < 2 ^ 29 ∧
  match input with
  | ISocket type id _ _ _ => type = SKYNET_SOCKET_TYPE_DATA → harbor_id h id ≠ 0
  | IHarbor _ _ => True
  | IRemote _ _ _ name _ _ _ => length name = GLOBALNAME_LENGTH
  end.
Lemma keeps_mainloop h input h' :
  harbor_ok h → input_fits h input → mainloop send_fails h input = Ok h' → keeps_blocks h (given input) h'.
Proof.
  intros O [Hsz Hin] E. destruct input as [type id ud buffer data|msg source|type session source name handle buffer data]; cbn [mainloop given] in *.
  - destruct (decide (type = SKYNET_SOCKET_TYPE_DATA)) as [Ht|_].
    + apply bind_Ok_inv in E as (h1 & Hp & E). apply Ok_inj in E. subst h'. unfold push_socket_data in Hp. cbv zeta in Hp.
      rewrite decide_False in Hp by auto. apply keeps_receive in Hp; [|done]. rewrite emits_one.
      apply (keeps_then h [buffer] _ h1); [done| |done]. intros O1. by apply (keeps_emits h1 [HFree buffer]).
    + case_decide; [|case_decide; [|case_decide]]; cbv zeta in E; apply Ok_inj in E; subst h'; try case_decide;
        unfold report_harbor_down; rewrite ?emits_one; try (by apply keeps_quiet); by apply keeps_refl.
  - by apply keeps_command in E.
  - apply bind_Ok_inv in E as ([r h1] & Hr & E). apply Ok_inj in E. cbn [fst snd] in E.
    assert (keeps_blocks h (if decide (r ≠ 0) then [buffer] else []) h1) as K.
    { pose proof (zlen_nonneg (queued h)).
      destruct (decide (handle = 0)); [apply keeps_send_name in Hr; [done|done|done|lia]|apply keeps_send_handle in Hr; [done|done|lia]]. }
    destruct (decide (r ≠ 0)); subst h'; [done|]. rewrite emits_one. apply (keeps_then h [buffer] _ h1); [done| |done].
    intros O1. by apply (keeps_emits h1 [HFree buffer]).
Qed.

(** A run of the harbor with the inputs it handled. *)
Inductive harbor_run (h : harbor) : list harbor_input → harbor → Prop :=
| run_start : harbor_run h [] h
| run_input l h1 input h2 :
    harbor_run h l h1 → input_fits h1 input → mainloop send_fails h1 input = Ok h2 → harbor_run h (l ++ [input]) h2.

Lemma run_keeps h l h' : harbor_ok h → harbor_run h l h' → keeps_blocks h (concat (given <$> l)) h'.
Proof.
  intros O. induction 1 as [|l h1 input h2 _ IH Hf E]; [by apply keeps_refl|]. rewrite fmap_app, concat_app. cbn [fmap list_fmap concat].
  rewrite app_nil_r. apply keeps_mainloop in E; [|apply IH|done]. eapply keeps_given; [by eapply keeps_trans|]. apply Permutation_app_comm.
Qed.
Lemma create_harbor_ok : harbor_ok harbor_create.
Proof.
  split; [done| |].
  - apply Forall_replicate. done.
  - apply Forall_replicate. constructor.
Qed.
Lemma create_blocks : released (h_out harbor_create) ++ queued harbor_create = [].
Proof. vm_compute. reflexivity. Qed.

Lemma init_blocks args h0 :
  harbor_init harbor_create args = (0, h0) → harbor_ok h0 ∧ released (h_out h0) ++ queued h0 = [].
Proof.
  unfold harbor_init. destruct (scan_pair args) as [id slave]. case_decide; [done|]. intros [= <-]. split.
  - destruct create_harbor_ok. by split.
  - exact create_blocks.
Qed.

(** C10: the harbor frees every message once. Through any commands, connections, received
    bytes and messages sent to handles and names, the blocks freed or handed on to a
    service and those that wait in a queue are together exactly the blocks handed to the
    harbor. Only data for a descriptor that is no slave's is freed twice. *)
Theorem messages_are_freed_once args h0 l h :
  harbor_init harbor_create args = (0, h0) → harbor_run h0 l h →
  released (h_out h) ++ queued h ≡ₚ concat (given <$> l) ∧
  ∀ fd ud buffer data, harbor_id h fd = 0 →
    ∃ h', mainloop send_fails h (ISocket SKYNET_SOCKET_TYPE_DATA fd ud buffer data) = Ok h' ∧
      released (h_out h') = released (h_out h) ++ [buffer; buffer].
Proof.
  intros [O E]%init_blocks Hrun. split.
  - destruct (run_keeps _ _ _ O Hrun) as [_ P]. by rewrite E, app_nil_r in P.
  - intros fd ud buffer data Hfd. cbn [mainloop]. rewrite decide_True by done. unfold push_socket_data. cbv zeta. rewrite decide_True, bind_Ok by done.
    eexists. split; [done|]. rewrite !emits_one, !h_emits_app. cbn [h_out h_emits]. rewrite released_app. done.
Qed.
End Service.

(** A message for a name nobody announced, on a harbor with id 1. *)
Definition after (h : harbor) (input : harbor_input) : harbor :=
  match mainloop (λ _ _, false) h input with Ok h => h | Err _ => h end.
Lemma run_after h l h1 input :
  harbor_run (λ _ _, false) h l h1 → input_fits h1 input → is_Ok (mainloop (λ _ _, false) h1 input) →
  harbor_run (λ _ _, false) h (l ++ [input]) (after h1 input).
Proof. intros H Hf [h2 E]. eapply run_input; [done|done|]. unfold after. by rewrite E. Qed.
Definition example_harbor : harbor := (harbor_init harbor_create (lit "1 16777224")).2.
Definition example_name : list Z := lit "LOGIN" ++ replicate 11 0.
Lemma messages_are_freed_once_witness :
  ∃ h, released (h_out h) ++ queued h ≡ₚ [100] ∧ queued h = [100] ∧
    ∃ h', mainloop (λ _ _, false) h (ISocket SKYNET_SOCKET_TYPE_DATA 77 1 200 [1]) = Ok h' ∧ released (h_out h') = [200; 200].
Proof.
  set (input := IRemote 10 0 0x01000003 example_name 0 100 [65]).
  destruct (messages_are_freed_once (λ _ _, false) (lit "1 16777224") example_harbor [input] (after example_harbor input)) as [H1 H2].
  - vm_compute. reflexivity.
  - apply (run_after _ []); [apply run_start|split; [vm_compute; reflexivity|reflexivity]|eexists; vm_compute; reflexivity].
  - exists (after example_harbor input). split; [exact H1|]. split; [vm_compute; reflexivity|].
    destruct (H2 77 1 200 [1]) as (h' & E1 & E2); [vm_compute; reflexivity|]. exists h'. split; [exact E1|]. rewrite E2. vm_compute. reflexivity.
Defined.
