(* ===== verification/HarborLink.v ===== *)
(** * Messages between two harbors

    What one harbor writes for another, whether a message was queued before the
    connection was up or sent after, is read back by the other one from any chunks of
    the stream and sent to its services. *)
From Stdlib Require Import String.
From stdpp Require Import base numbers list list_numbers.
From S2P Require Import Prelude CString Format Handle Server Netpack Command HashId Gate Harbor HarborProps.

(** A message on its way: the low bits of its destination are the handle on the other
    node, the high ones its type. *)
Record wmsg : Type := mk_wmsg { w_source : Z; w_type : Z; w_handle : Z; w_session : Z; w_data : list Z }.
Record wmsg_ok (m : wmsg) : Prop := {
  wo_source : 0 ≤ w_source m < 2 ^ 32;
  wo_type : 0 ≤ w_type m < 256;
  wo_handle : 0 ≤ w_handle m < 2 ^ 24;
  wo_session : - 2 ^ 31 ≤ w_session m < 2 ^ 31;
  wo_size : zlen (w_data m) + HEADER_COOKIE_LENGTH < 2 ^ 24 }.
Definition w_header (m : wmsg) : remote_message_header :=
  mk_rmh (w_source m) (Z.lor (u32 (Z.shiftl (w_type m) HANDLE_REMOTE_SHIFT)) (w_handle m)) (u32 (w_session m)).
Definition w_body (m : wmsg) : list Z := w_data m ++ header_to_message (w_header m).
Definition frame (m : wmsg) : list Z := to_bigendian (zlen (w_data m) + HEADER_COOKIE_LENGTH) ++ w_body m.
(** The send to the service on node [id]. *)
Definition deliver (id : Z) (m : wmsg) : harbor_action :=
  HSend (w_source m) (Z.lor (w_handle m) (u32 (Z.shiftl id HANDLE_REMOTE_SHIFT))) (Z.lor (w_type m) PTYPE_TAG_DONTCOPY)
    (w_session m) MReceived (w_data m).
Definition is_delivery (a : harbor_action) : bool := match a with HSend _ _ _ _ MReceived _ => true | _ => false end.
Definition delivered (l : list harbor_action) : list harbor_action := filter (λ a, is_delivery a = true) l.

(** ** Numbers on the wire *)

Lemma from_to_bigendian n : 0 ≤ n < 2 ^ 32 → from_bigendian (to_bigendian n) = n.
Proof.
  intros Hn. unfold from_bigendian, to_bigendian. rewrite !Z.shiftr_div_pow2 by lia. change 0xff with (2 ^ 8 - 1).
  rewrite !land_ones_mod by lia. rewrite !Z.shiftl_mul_pow2 by lia.
  assert (∀ x y k, 0 ≤ k → 0 ≤ y < 2 ^ k → Z.lor (x * 2 ^ k) y = x * 2 ^ k + y) as Hlor.
  { intros x y k Hk Hy. rewrite Z.lor_comm, lor_add_high by done. lia. }
  pose proof (Z.mod_pos_bound (n / 2 ^ 24) (2 ^ 8) ltac:(lia)) as H1. pose proof (Z.mod_pos_bound (n / 2 ^ 16) (2 ^ 8) ltac:(lia)) as H2.
  pose proof (Z.mod_pos_bound (n / 2 ^ 8) (2 ^ 8) ltac:(lia)) as H3. pose proof (Z.mod_pos_bound n (2 ^ 8) ltac:(lia)) as H4.
  set (a := (n / 2 ^ 24) `mod` 2 ^ 8) in *. set (b := (n / 2 ^ 16) `mod` 2 ^ 8) in *. set (c := (n / 2 ^ 8) `mod` 2 ^ 8) in *. set (d := n `mod` 2 ^ 8) in *.
  rewrite uwrap_small by lia. rewrite (Hlor a (b * 2 ^ 16) 24) by lia.
  replace (a * 2 ^ 24 + b * 2 ^ 16) with ((a * 2 ^ 8 + b) * 2 ^ 16) by lia. rewrite (Hlor _ (c * 2 ^ 8) 16) by lia.
  replace ((a * 2 ^ 8 + b) * 2 ^ 16 + c * 2 ^ 8) with (((a * 2 ^ 8 + b) * 2 ^ 8 + c) * 2 ^ 8) by lia. rewrite (Hlor _ d 8) by lia.
  unfold a, b, c, d. Z.to_euclidean_division_equations. lia.
Qed.
Lemma to_bigendian_inj m n : 0 ≤ m < 2 ^ 32 → 0 ≤ n < 2 ^ 32 → to_bigendian m = to_bigendian n → m = n.
Proof. intros Hm Hn E. by rewrite <- (from_to_bigendian m), E, from_to_bigendian. Qed.
Lemma to_bigendian_length n : length (to_bigendian n) = 4%nat.
Proof. done. Qed.
(** The bytes of a length below 2^24. *)
Lemma length_bytes n a b c d :
  0 ≤ n < 2 ^ 24 → to_bigendian n = [a; b; c; d] → a = 0 ∧ Z.lor (Z.lor (Z.shiftl b 16) (Z.shiftl c 8)) d = n.
Proof.
  intros Hn E. assert (a = 0) as ->.
  { unfold to_bigendian in E. injection E as <- _ _ _. rewrite Z.shiftr_div_pow2, Z.div_small by lia. done. }
  split; [done|]. pose proof (from_to_bigendian n ltac:(lia)) as H. rewrite E in H. unfold from_bigendian in H. by rewrite Z.shiftl_0_l, Z.lor_0_l in H.
Qed.
Lemma header_roundtrip x :
  0 ≤ rh_source x < 2 ^ 32 → 0 ≤ rh_destination x < 2 ^ 32 → 0 ≤ rh_session x < 2 ^ 32 → message_to_header (header_to_message x) = x.
Proof.
  intros H1 H2 H3. destruct x as [a b c]. unfold message_to_header, header_to_message. cbn [rh_source rh_destination rh_session] in *.
  rewrite take_app_length', drop_app_length' by done. rewrite take_app_length' by done.
  rewrite (app_assoc (to_bigendian a)), drop_app_length' by done. rewrite take_ge by done. by rewrite !from_to_bigendian.
Qed.
Lemma destination_parts t x :
  0 ≤ t < 256 → 0 ≤ x < 2 ^ 24 →
  let d := Z.lor (u32 (Z.shiftl t HANDLE_REMOTE_SHIFT)) x in
  0 ≤ d < 2 ^ 32 ∧ Z.shiftr d HANDLE_REMOTE_SHIFT = t ∧ Z.land d HANDLE_MASK = x.
Proof.
  intros Ht Hx d. unfold d, HANDLE_REMOTE_SHIFT, HANDLE_MASK. rewrite Z.shiftl_mul_pow2, uwrap_small by lia.
  rewrite Z.lor_comm, lor_add_high by lia. split; [lia|]. rewrite Z.shiftr_div_pow2 by lia. split; [Z.to_euclidean_division_equations; lia|].
  change 0xffffff with (2 ^ 24 - 1). rewrite land_ones_mod by lia. rewrite Z.mod_add by lia. by apply Z.mod_small.
Qed.
Lemma s32_u32 x : - 2 ^ 31 ≤ x < 2 ^ 31 → s32 (u32 x) = x.
Proof. intros Hx. unfold swrap, uwrap. Z.to_euclidean_division_equations. lia. Qed.
Lemma body_length m : zlen (w_body m) = zlen (w_data m) + HEADER_COOKIE_LENGTH.
Proof. unfold w_body. rewrite zlen_app. done. Qed.

(** ** Received messages *)

Section Service.
Context (send_fails : list harbor_action → harbor_action → bool).

Lemma forward_delivers h m :
  wmsg_ok m →
  ∃ l, forward_local_messsage send_fails h (w_body m) (zlen (w_body m)) = Ok (h_emits h l) ∧ delivered l = [deliver (h_id h) m].
Proof.
  intros [Hs Ht Hh Hse Hsz]. unfold forward_local_messsage. rewrite body_length. pose proof (zlen_nonneg (w_data m)).
  replace (zlen (w_data m) + HEADER_COOKIE_LENGTH - HEADER_COOKIE_LENGTH) with (zlen (w_data m)) by lia.
  rewrite (copy_from_Ok _ (zlen (w_data m)) HEADER_COOKIE_LENGTH), bind_Ok by (rewrite ?body_length; unfold HEADER_COOKIE_LENGTH; lia).
  rewrite (copy_from_Ok _ 0), bind_Ok by (rewrite ?body_length; unfold HEADER_COOKIE_LENGTH; lia).
  assert (Z.to_nat (zlen (w_data m)) = length (w_data m)) as El by (unfold zlen; lia). rewrite El, drop_0. unfold w_body.
  rewrite drop_app_length, take_app_length. rewrite take_ge by done. cbv zeta.
  destruct (destination_parts (w_type m) (w_handle m) Ht Hh) as (Hd & Etype & Ehandle).
  rewrite header_roundtrip by first [done|exact Hd|apply uwrap_range; lia].
  cbn [w_header rh_source rh_destination rh_session]. rewrite Etype, Ehandle, s32_u32 by done.
  fold (deliver (h_id h) m). destruct (send_fails _ _); [case_decide|]; rewrite !emits_one, ?h_emits_app; eexists; (split; [reflexivity|]); done.
Qed.

Lemma wr_bytes_Ok buf i l : 0 ≤ i → i + zlen l ≤ zlen buf → wr_bytes buf i l = Ok (take (Z.to_nat i) buf ++ l ++ drop (Z.to_nat i + length l) buf).
Proof. intros. unfold wr_bytes. by rewrite decide_True. Qed.

(** Where a slave is in its stream: the bytes it has of the next message. *)
Inductive receiving (s : slave) (pend : list Z) : Prop :=
| at_header :
    sl_status s = STATUS_HEADER → 0 ≤ sl_read s < 4 → zlen (sl_size s) = 4 → pend = take (Z.to_nat (sl_read s)) (sl_size s) →
    receiving s pend
| at_content recv :
    sl_status s = STATUS_CONTENT → 0 ≤ sl_read s < sl_length s → sl_length s < 2 ^ 24 → zlen (sl_size s) = 4 →
    sl_recv s = Some recv → zlen recv = sl_length s →
    pend = to_bigendian (sl_length s) ++ take (Z.to_nat (sl_read s)) recv → receiving s pend.

(** The harbor behind a step of one slave. *)
Definition stepped (h : harbor) (id : Z) (l : list harbor_action) (s' : slave) : harbor :=
  set_slaves (h_emits h l) (<[Z.to_nat id := s']> (h_s h)).
Lemma put_stepped h id l s s' :
  h_s h !! Z.to_nat id = Some s → 0 ≤ id → put_slave (h_emits h l) id s' = Ok (stepped h id l s').
Proof. intros Hs Hid. unfold put_slave. rewrite wr_Ok, bind_Ok; [done|]. apply lookup_lt_Some in Hs. unfold zlen. cbn [h_s h_emits]. lia. Qed.
Lemma put_slave_stepped h id s s' : h_s h !! Z.to_nat id = Some s → 0 ≤ id → put_slave h id s' = Ok (stepped h id [] s').
Proof. intros Hs Hid. rewrite <- (h_emits_nil h) at 1. by eapply put_stepped. Qed.
Lemma stepped_slave h id l s s' : h_s h !! Z.to_nat id = Some s → h_s (stepped h id l s') !! Z.to_nat id = Some s'.
Proof. intros Hs. cbn. apply list_lookup_insert_eq. by eapply lookup_lt_Some. Qed.
Lemma stepped_stepped h id l s k s' : stepped (stepped h id l s) id k s' = stepped h id (l ++ k) s'.
Proof. unfold stepped, set_slaves, h_emits. cbn. by rewrite list_insert_insert_eq, app_assoc. Qed.
Lemma stepped_emits h id l k s : stepped (h_emits h l) id k s = stepped h id (l ++ k) s.
Proof. unfold stepped. by rewrite h_emits_app. Qed.
Lemma emits_stepped h id l k s : h_emits (stepped h id l s) k = stepped h id (l ++ k) s.
Proof. unfold stepped, set_slaves, h_emits. cbn. by rewrite app_assoc. Qed.

(** What a turn of the loop does with [buffer] in front of the rest of the stream: it
    keeps the bytes of an incomplete message, or delivers a message. *)
Definition turn_ok (h : harbor) (id : Z) (s : slave) (pend buffer : list Z) (m : wmsg) (r : result (harbor * option (list Z))) : Prop :=
  ∃ l s', sl_fd s' = sl_fd s ∧ sl_queue s' = sl_queue s ∧
    ((zlen (pend ++ buffer) < zlen (frame m) ∧ r = Ok (stepped h id l s', None) ∧ delivered l = [] ∧ receiving s' (pend ++ buffer)) ∨
     (∃ rest, pend ++ buffer = frame m ++ rest ∧ r = Ok (stepped h id l s', if decide (zlen rest = 0) then None else Some rest) ∧
        delivered l = [deliver (h_id h) m] ∧ receiving s' [])).
Lemma app_prefix_ge {A} (a b c d : list A) : a ++ b = c ++ d → (length c ≤ length a)%nat → ∃ e, a = c ++ e ∧ d = e ++ b.
Proof.
  intros E Hl. apply app_eq_app in E as [e [[-> E]|[-> E]]]; [by exists e|]. rewrite length_app in Hl.
  assert (e = []) as -> by (destruct e; [done|cbn in Hl; lia]). exists []. by rewrite !app_nil_r in *.
Qed.

Lemma content_turn h id s pend buffer future m ms :
  h_s h !! Z.to_nat id = Some s → 0 ≤ id → sl_status s = STATUS_CONTENT → receiving s pend → wmsg_ok m →
  pend ++ buffer ++ future = frame m ++ ms → turn_ok h id s pend buffer m (receive_content send_fails h id buffer).
Proof.
  intros Hs Hid Hst [Hst' _ _ _|recv _ Hr Hlen Hsize Hrecv Hrl ->] Hm E; [by rewrite Hst in Hst'|].
  unfold frame in E. rewrite <- !app_assoc in E. pose proof (zlen_nonneg (w_data m)). pose proof (wo_size _ Hm).
  apply app_inj_1 in E as [El E]; [|done]. unfold HEADER_COOKIE_LENGTH in *. apply to_bigendian_inj in El; [|lia..]. pose proof (body_length m) as Hb. unfold HEADER_COOKIE_LENGTH in Hb.
  assert (length (take (Z.to_nat (sl_read s)) recv) = Z.to_nat (sl_read s)) as Ht by (rewrite length_take; unfold zlen in *; lia).
  unfold receive_content. rewrite (rd_lookup _ _ s) by done. rewrite bind_Ok, Hrecv. cbn [of_option]. rewrite bind_Ok. cbv zeta.
  unfold turn_ok. rewrite <- app_assoc, zlen_app. unfold frame. rewrite zlen_app, !zlen_app. unfold HEADER_COOKIE_LENGTH. rewrite <- El.
  destruct (decide (zlen buffer < sl_length s - sl_read s)) as [Hlt|Hge].
  - rewrite wr_bytes_Ok, bind_Ok by lia. rewrite (put_slave_stepped h id s), bind_Ok by done.
    exists [], (mk_slave (sl_fd s) (sl_queue s) (sl_status s) (sl_length s) (sl_read s + zlen buffer) (sl_size s)
      (Some (take (Z.to_nat (sl_read s)) recv ++ buffer ++ drop (Z.to_nat (sl_read s) + length buffer) recv))).
    split; [done|]. split; [done|]. left. split; [unfold zlen in *; lia|]. split; [done|]. split; [done|].
    eapply at_content; cbn [sl_status sl_read sl_length sl_size sl_recv]; [done|pose proof (zlen_nonneg buffer); lia|done|done|done| |].
    + unfold zlen in *. rewrite !length_app, length_drop. lia.
    + f_equal. rewrite app_assoc, take_app_length'; [done|]. rewrite length_app. unfold zlen in *. lia.
  - assert (∃ rest, buffer = drop (Z.to_nat (sl_read s)) (w_body m) ++ rest ∧ take (Z.to_nat (sl_read s)) recv = take (Z.to_nat (sl_read s)) (w_body m)) as (rest & Ebuf & Etake).
    { rewrite app_assoc in E. destruct (app_prefix_ge _ _ _ _ E) as (rest & E1 & E2); [rewrite length_app; unfold zlen in *; lia|].
      rewrite <- (take_drop (Z.to_nat (sl_read s)) (w_body m)), <- app_assoc in E1.
      apply app_inj_1 in E1 as [Et Eb]; [|rewrite Ht, length_take; unfold zlen in *; lia]. by exists rest. }
    assert (length (drop (Z.to_nat (sl_read s)) (w_body m)) = Z.to_nat (sl_length s - sl_read s)) as Hneed
      by (rewrite length_drop; unfold zlen in *; lia).
    rewrite Ebuf, take_app_length', drop_app_length' by done.
    rewrite wr_bytes_Ok, bind_Ok by (unfold zlen in *; lia). rewrite Etake, (drop_ge recv) by (unfold zlen in *; lia).
    rewrite app_nil_r, take_drop. replace (sl_length s) with (zlen (w_body m)) by lia.
    destruct (forward_delivers h m Hm) as (l & -> & Hl). rewrite bind_Ok, (put_stepped h id l s), bind_Ok by done.
    eexists l, _. split; [|split]; [| |right; exists rest; split; [|split; [reflexivity|split; [done|]]]]; [done|done| |].
    + rewrite <- !app_assoc, (app_assoc (take _ (w_body m))), take_drop. by f_equal.
    + by apply at_header.
Qed.
Lemma header_turn h id s pend buffer future m ms :
  h_s h !! Z.to_nat id = Some s → 0 ≤ id → sl_status s = STATUS_HEADER → receiving s pend → wmsg_ok m →
  pend ++ buffer ++ future = frame m ++ ms → turn_ok h id s pend buffer m (receive_header send_fails h id buffer).
Proof.
  intros Hs Hid Hst [_ Hr Hsize ->|recv Hst'] Hm E; [|by rewrite Hst in Hst']. pose proof (zlen_nonneg (w_data m)). pose proof (wo_size _ Hm) as Hms.
  pose proof (body_length m) as Hb. unfold HEADER_COOKIE_LENGTH in *.
  assert (length (take (Z.to_nat (sl_read s)) (sl_size s)) = Z.to_nat (sl_read s)) as Ht by (rewrite length_take; unfold zlen in *; lia).
  set (L := zlen (w_data m) + 12) in *. assert (frame m = to_bigendian L ++ w_body m) as Ef by done.
  unfold receive_header. rewrite (rd_lookup _ _ s), bind_Ok by done. cbv zeta.
  destruct (decide (zlen buffer < 4 - sl_read s)) as [Hlt|Hge].
  - rewrite wr_bytes_Ok, bind_Ok by lia. rewrite (put_slave_stepped h id s), bind_Ok by done.
    eexists [], _. split; [|split]; [| |left; split; [|split; [reflexivity|split; [done|]]]]; [done|done| |].
    + rewrite Ef, !zlen_app. unfold zlen in *. rewrite to_bigendian_length. lia.
    + apply at_header; cbn [sl_status sl_read sl_size]; [done|pose proof (zlen_nonneg buffer); lia| |].
      * unfold zlen in *. rewrite !length_app, length_drop. lia.
      * rewrite app_assoc, take_app_length'; [done|]. rewrite length_app. unfold zlen in *. lia.
  - assert (∃ rest, buffer = drop (Z.to_nat (sl_read s)) (to_bigendian L) ++ rest ∧ take (Z.to_nat (sl_read s)) (sl_size s) = take (Z.to_nat (sl_read s)) (to_bigendian L)) as (rest & Ebuf & Etake).
    { rewrite Ef, app_assoc, <- (app_assoc (to_bigendian L)) in E.
      destruct (app_prefix_ge _ _ _ _ E) as (rest & E1 & E2); [rewrite length_app, to_bigendian_length; unfold zlen in *; lia|].
      rewrite <- (take_drop (Z.to_nat (sl_read s)) (to_bigendian L)), <- app_assoc in E1.
      apply app_inj_1 in E1 as [Et Eb]; [|rewrite Ht, length_take, to_bigendian_length; unfold zlen in *; lia]. by exists rest. }
    assert (length (drop (Z.to_nat (sl_read s)) (to_bigendian L)) = Z.to_nat (4 - sl_read s)) as Hneed
      by (rewrite length_drop, to_bigendian_length; lia).
    assert (take (Z.to_nat (4 - sl_read s)) buffer = drop (Z.to_nat (sl_read s)) (to_bigendian L) ∧ drop (Z.to_nat (4 - sl_read s)) buffer = rest) as [-> ->]
      by (by rewrite Ebuf, take_app_length', drop_app_length').
    rewrite wr_bytes_Ok, bind_Ok by (unfold zlen in *; lia). rewrite Etake, (drop_ge (sl_size s)) by (unfold zlen in *; lia).
    rewrite app_nil_r, take_drop. rewrite (put_slave_stepped h id s), bind_Ok by done.
    destruct (to_bigendian L) as [|a [|b [|c [|d [|]]]]] eqn:Ebe; try (pose proof (to_bigendian_length L) as Hl4; by rewrite Ebe in Hl4).
    destruct (length_bytes L a b c d ltac:(lia) Ebe) as [-> EL].
    change (rd [0; b; c; d] 0) with (Ok 0). change (rd [0; b; c; d] 1) with (Ok b). change (rd [0; b; c; d] 2) with (Ok c).
    change (rd [0; b; c; d] 3) with (Ok d). rewrite !bind_Ok, decide_False, EL by lia.
    set (s2 := mk_slave (sl_fd s) (sl_queue s) STATUS_CONTENT L 0 [0; b; c; d] (Some (replicate (Z.to_nat L) 0))).
    erewrite put_slave_stepped; [|by eapply stepped_slave|done]. rewrite bind_Ok, stepped_stepped. cbn [app].
    assert (receiving s2 (to_bigendian L)) as R2.
    { eapply at_content; cbn [s2 sl_status sl_read sl_length sl_size sl_recv]; [done|lia|lia|done|done|rewrite zlen_replicate; lia|].
      by rewrite take_0, app_nil_r. }
    assert (take (Z.to_nat (sl_read s)) [0; b; c; d] ++ buffer = to_bigendian L ++ rest) as Epb by (by rewrite Ebuf, app_assoc, take_drop, Ebe).
    case_decide as Hz.
    + assert (rest = []) as -> by (destruct rest; [done|by rewrite zlen_cons in Hz; pose proof (zlen_nonneg rest); lia]).
      exists [], s2. split; [done|]. split; [done|]. left. rewrite Epb, app_nil_r. split; [|done].
      rewrite Ef, zlen_app, Ebe. change (zlen [0; b; c; d]) with 4. lia.
    + rewrite Etake, (app_assoc _ buffer), Epb in E. rewrite <- app_assoc in E.
      destruct (content_turn (stepped h id [] s2) id s2 (to_bigendian L) rest future m ms) as (l & s3 & Hfd & Hq & Hturn);
        [by eapply stepped_slave|done|done|done|done|done|].
      exists l, s3. split; [done|]. split; [done|]. rewrite Epb. rewrite !stepped_stepped in Hturn. exact Hturn.
Qed.

Lemma frame_length m : zlen (frame m) = zlen (w_data m) + 16.
Proof. unfold frame. rewrite zlen_app, body_length. unfold HEADER_COOKIE_LENGTH. change (zlen (to_bigendian _)) with 4. lia. Qed.
Lemma receiving_short s pend m x y : receiving s pend → wmsg_ok m → pend ++ x = frame m ++ y → zlen pend < zlen (frame m).
Proof.
  intros [_ Hr Hsize ->|recv _ Hr Hlen Hsize _ Hrl ->] Hm E; rewrite frame_length; pose proof (zlen_nonneg (w_data m)); pose proof (wo_size _ Hm) as Hw.
  - unfold zlen in *. rewrite length_take. lia.
  - unfold frame in E. rewrite <- !app_assoc in E. apply app_inj_1 in E as [E _]; [|done]. unfold HEADER_COOKIE_LENGTH in *.
    apply to_bigendian_inj in E; [|lia..]. rewrite zlen_app. change (zlen (to_bigendian _)) with 4. unfold zlen in *. rewrite length_take. lia.
Qed.
Lemma delivered_app l k : delivered (l ++ k) = delivered l ++ delivered k.
Proof. apply filter_app. Qed.

(** The turn of a slave that is past its handshake. *)
Lemma receive_turn h id s pend buffer future m ms :
  h_s h !! Z.to_nat id = Some s → 0 ≤ id → receiving s pend → wmsg_ok m → pend ++ buffer ++ future = frame m ++ ms →
  turn_ok h id s pend buffer m
    (if decide (sl_status s = STATUS_HANDSHAKE) then receive_handshake send_fails h id buffer
     else if decide (sl_status s = STATUS_HEADER) then receive_header send_fails h id buffer
     else if decide (sl_status s = STATUS_CONTENT) then receive_content send_fails h id buffer
     else Ok (h, None)).
Proof.
  intros Hs Hid R Hm E. pose proof R as [Hst _ _ _|recv Hst _ _ _ _ _ _]; rewrite !Hst.
  - rewrite decide_False, decide_True by done. by eapply header_turn.
  - rewrite decide_False, decide_False, decide_True by done. by eapply content_turn.
Qed.
(** How far a slave came in the stream [ms]: it delivered [got], the bytes [pend] of the
    rest are here, [future] is to come. *)
Definition progress (id : Z) (s : slave) (future : list Z) (ms : list wmsg) (l : list harbor_action) (s' : slave) : Prop :=
  sl_fd s' = sl_fd s ∧ sl_queue s' = sl_queue s ∧
  ∃ got rest pend, ms = got ++ rest ∧ delivered l = deliver id <$> got ∧ receiving s' pend ∧ pend ++ future = concat (frame <$> rest).
Lemma receive_loop_spec fuel h id s pend buffer future ms :
  h_s h !! Z.to_nat id = Some s → 0 ≤ id → receiving s pend → Forall wmsg_ok ms → pend ++ buffer ++ future = concat (frame <$> ms) →
  buffer ≠ [] → (length buffer < fuel)%nat →
  ∃ l s', receive_loop send_fails fuel h id buffer = Ok (stepped h id l s') ∧ progress (h_id h) s future ms l s'.
Proof.
  revert h s pend buffer ms. induction fuel as [|fuel IH]; intros h s pend buffer ms Hs Hid R Hms E Hne Hf; [lia|].
  destruct Hms as [|m ms Hm Hms].
  { cbn in E. apply app_nil in E as [_ [E _]%app_nil]. done. }
  cbn [fmap list_fmap concat] in E.
  cbn [receive_loop]. rewrite (rd_lookup _ _ s), bind_Ok by done.
  destruct (receive_turn h id s pend buffer future m _ Hs Hid R Hm E) as (l & s1 & Hfd & Hq & Hturn).
  destruct Hturn as [(_ & -> & Hl & R1)|(rest & Epb & -> & Hl & R1)]; rewrite bind_Ok; cbn [fst snd].
  { exists l, s1. split; [done|]. split; [done|]. split; [done|]. exists [], (m :: ms), (pend ++ buffer). rewrite <- app_assoc. done. }
  assert (rest ++ future = concat (frame <$> ms)) as Erest.
  { rewrite app_assoc, Epb, <- app_assoc in E. by apply app_inv_head in E. }
  case_decide as Hz.
  { assert (rest = []) as -> by (destruct rest; [done|by rewrite zlen_cons in Hz; pose proof (zlen_nonneg rest); lia]).
    exists l, s1. split; [done|]. split; [done|]. split; [done|]. by exists [m], ms, []. }
  pose proof (receiving_short s pend m _ _ R Hm Epb) as Hshort.
  assert (length rest < fuel)%nat as Hf'.
  { apply (f_equal length) in Epb. rewrite !length_app in Epb. unfold zlen in Hshort. lia. }
  destruct (IH (stepped h id l s1) s1 [] rest ms) as (k & s2 & -> & Hfd2 & Hq2 & got & rs & pend2 & -> & Hk & R2 & E2);
    [by eapply stepped_slave|done|done|done|done|by intros ->|done|].
  exists (l ++ k), s2. rewrite stepped_stepped. split; [done|]. split; [congruence|]. split; [congruence|].
  exists (m :: got), rs, pend2. split; [done|]. rewrite delivered_app, Hl, Hk. done.
Qed.

(** The descriptor still leads to the slave. *)
Lemma find_fd_map l i fd k : (sl_fd <$> k) = (sl_fd <$> l) → find_fd k i fd = find_fd l i fd.
Proof.
  revert k i. induction l as [|s l IH]; intros [|s' k] i E; cbn in *; try done. injection E as E1 E2. rewrite E1. by rewrite (IH k).
Qed.
Lemma stepped_id h id l s s' fd :
  h_s h !! Z.to_nat id = Some s → sl_fd s' = sl_fd s → harbor_id (stepped h id l s') fd = harbor_id h fd.
Proof.
  intros Hs Hfd. unfold harbor_id. apply find_fd_map. cbn [h_s stepped set_slaves h_emits]. rewrite !fmap_drop. f_equal.
  rewrite list_fmap_insert, Hfd. apply list_insert_id. by rewrite list_lookup_fmap, Hs.
Qed.

(** The chunks of a stream, one after the other. *)
Fixpoint receive_chunks (h : harbor) (fd : Z) (chunks : list (Z * list Z)) : result harbor :=
  match chunks with
  | [] => Ok h
  | (buffer, data) :: chunks =>
      h ← mainloop send_fails h (ISocket SKYNET_SOCKET_TYPE_DATA fd (zlen data) buffer data);
      receive_chunks h fd chunks
  end.
Lemma chunks_spec_link h id fd s pend chunks ms :
  h_s h !! Z.to_nat id = Some s → 0 < id → harbor_id h fd = id → receiving s pend → Forall wmsg_ok ms → Forall (λ c, c.2 ≠ []) chunks →
  pend ++ concat (snd <$> chunks) = concat (frame <$> ms) →
  ∃ l s', receive_chunks h fd chunks = Ok (stepped h id l s') ∧ progress (h_id h) s [] ms l s'.
Proof.
  revert h s pend ms. induction chunks as [|[b data] chunks IH]; intros h s pend ms Hs Hid Hfd R Hms Hne E.
  { exists [], s. split; [|split; [done|split; [done|]]].
    - cbn. unfold stepped. rewrite h_emits_nil, list_insert_id by done. by destruct h.
    - cbn in E. by exists [], ms, pend. }
  apply Forall_cons in Hne as [Hd Hne]. cbn [fmap list_fmap concat snd] in E, Hd. cbn [receive_chunks mainloop].
  rewrite decide_True by done. unfold push_socket_data. cbv zeta. rewrite Hfd, decide_False by lia.
  destruct (receive_loop_spec (length data + 2) h id s pend data _ ms Hs ltac:(lia) R Hms E Hd ltac:(lia))
    as (l & s1 & -> & Hfd1 & Hq1 & got & rest & pend1 & -> & Hl & R1 & E1).
  rewrite !bind_Ok, emits_one, emits_stepped. apply Forall_app in Hms as [_ Hms].
  destruct (IH (stepped h id (l ++ [HFree b]) s1) s1 pend1 rest) as (k & s2 & -> & Hfd2 & Hq2 & got2 & rest2 & pend2 & -> & Hk & R2 & E2);
    [by eapply stepped_slave|done|by erewrite stepped_id|done|done|done|done|].
  eexists _, s2. rewrite stepped_stepped. split; [done|]. split; [congruence|]. split; [congruence|].
  exists (got ++ got2), rest2, pend2. rewrite app_assoc, !delivered_app, Hl, Hk, fmap_app. cbn. by rewrite app_nil_r.
Qed.

(** ** The handshake *)

Definition queue_acts (fd : Z) (q : option harbor_msg_queue) : list harbor_action := concat (send_msg_acts fd 0 <$> q_list q).
Lemma queue_acts_quiet fd q : delivered (queue_acts fd q) = [].
Proof.
  unfold queue_acts. induction (q_list q) as [|m l IH]; [done|]. cbn [fmap list_fmap concat]. rewrite delivered_app, IH.
  unfold send_msg_acts, wire_action. by case_decide.
Qed.
Lemma dispatch_spec h id s :
  h_s h !! Z.to_nat id = Some s → 0 ≤ id → sl_fd s ≠ 0 → q_ok (sl_queue s) →
  dispatch_queue h id = Ok (stepped h id (queue_acts (sl_fd s) (sl_queue s)) (set_hqueue s None)).
Proof.
  intros Hs Hid Hfd Q. unfold dispatch_queue. rewrite (rd_lookup _ _ s), bind_Ok by done. rewrite c_assert_true, bind_Ok by (by apply bool_decide_eq_true_2).
  destruct (sl_queue s) as [q|] eqn:Eq; cycle 1.
  { unfold queue_acts, stepped. cbn [q_list fmap list_fmap concat]. rewrite h_emits_nil, list_insert_id; [by destruct h|]. rewrite Hs. f_equal.
    destruct s. cbn in Eq. by subst. }
  destruct (drain_ok (send_msg (sl_fd s) 0) (send_msg_acts (sl_fd s) 0) q h Q) as (q' & -> & Q' & Hq'); [intros; apply send_msg_eq|].
  rewrite bind_Ok. cbn [fst snd]. rewrite release_ok_queue, bind_Ok by done. cbn [q_list]. rewrite Hq'. cbn [fmap list_fmap]. rewrite h_emits_nil.
  by apply (put_stepped h id _ s).
Qed.
(** A slave that waits for the id of the other harbor. *)
Record awaiting (s : slave) : Prop := {
  aw_status : sl_status s = STATUS_HANDSHAKE;
  aw_fd : sl_fd s ≠ 0;
  aw_read : sl_read s = 0;
  aw_size : zlen (sl_size s) = 4;
  aw_queue : q_ok (sl_queue s) }.
Definition shaken (s : slave) : slave := set_hqueue (set_status s STATUS_HEADER) None.
Lemma shaken_receiving s : awaiting s → receiving (shaken s) [].
Proof.
  intros [_ _ Hr Hs _]. apply at_header; [done| | |]; cbn [shaken set_hqueue set_status sl_read sl_size]; [lia|done|]. by rewrite Hr.
Qed.
Lemma handshake_shakes h id s r :
  h_s h !! Z.to_nat id = Some s → 0 ≤ id → awaiting s →
  receive_handshake send_fails h id (id :: r) =
    (let h1 := stepped h id (queue_acts (sl_fd s) (sl_queue s)) (shaken s) in
     if decide (zlen r = 0) then Ok (h1, Some r) else receive_header send_fails h1 id r).
Proof.
  intros Hs Hid [Hst Hfd Hr Hsz Q]. unfold receive_handshake. rewrite (rd_lookup _ _ s), bind_Ok by done.
  change (rd (id :: r) 0) with (Ok id). rewrite bind_Ok, decide_False by (intros []; done). cbv zeta. cbn [drop].
  rewrite (put_slave_stepped h id s), bind_Ok by done.
  rewrite (dispatch_spec _ id (set_status s STATUS_HEADER)) by (done || by eapply stepped_slave). rewrite bind_Ok, stepped_stepped. done.
Qed.
(** A first message nobody sent; an empty rest of the stream is a part of it. *)
Definition no_wmsg : wmsg := mk_wmsg 0 0 0 0 [].
Lemma handshake_loop fuel h id s r future ms :
  h_s h !! Z.to_nat id = Some s → 0 ≤ id → awaiting s → Forall wmsg_ok ms → r ++ future = concat (frame <$> ms) → (length r < fuel)%nat →
  ∃ l s', receive_loop send_fails (S fuel) h id (id :: r) = Ok (stepped h id l s') ∧ progress (h_id h) (shaken s) future ms l s'.
Proof.
  intros Hs Hid A Hms E Hf. pose proof (shaken_receiving s A) as R. set (k := queue_acts (sl_fd s) (sl_queue s)). set (h1 := stepped h id k (shaken s)).
  assert (h_s h1 !! Z.to_nat id = Some (shaken s)) as Hs1 by (by eapply stepped_slave).
  cbn [receive_loop]. rewrite (rd_lookup _ _ s), bind_Ok by done. rewrite decide_True by apply A. rewrite (handshake_shakes h id s r) by done. cbv zeta.
  fold k. fold h1. case_decide as Hz.
  - assert (r = []) as -> by (destruct r; [done|by rewrite zlen_cons in Hz; pose proof (zlen_nonneg r); lia]). rewrite bind_Ok. cbn [fst snd].
    destruct fuel as [|fuel]; [cbn in Hf; lia|]. cbn [receive_loop]. rewrite (rd_lookup _ _ (shaken s)), bind_Ok by done.
    destruct (receive_turn h1 id (shaken s) [] [] (frame no_wmsg) no_wmsg []) as (l & s1 & Hfd & Hq & [(_ & -> & Hl & R1)|(rest & Ebad & _)]);
      [done|done|done|by split|by rewrite app_nil_r| |done].
    rewrite bind_Ok. cbn [fst snd]. unfold h1. rewrite stepped_stepped. eexists _, s1. split; [done|]. split; [done|]. split; [done|].
    exists [], ms, []. rewrite delivered_app, Hl. unfold k. rewrite queue_acts_quiet. done.
  - destruct (receive_loop_spec (S fuel) h1 id (shaken s) [] r future ms) as (l & s1 & Hloop & Hfd & Hq & got & rest & pend & Hg & Hl & R1 & E1);
      [done|done|done|done|done|by intros ->|lia|].
    cbn [receive_loop] in Hloop. rewrite (rd_lookup _ _ (shaken s)), bind_Ok in Hloop by done. rewrite decide_False, decide_True in Hloop by done.
    rewrite Hloop. unfold h1. rewrite stepped_stepped. eexists _, s1. split; [done|]. split; [done|]. split; [done|]. exists got, rest, pend.
    rewrite delivered_app, Hl. unfold k. rewrite queue_acts_quiet. done.
Qed.

(** A slave that got the whole stream has delivered all of it. *)
Lemma progress_all id s ms l s' : Forall wmsg_ok ms → progress id s [] ms l s' → delivered l = deliver id <$> ms.
Proof.
  intros Hms (_ & _ & got & rest & pend & -> & Hl & R & E). rewrite app_nil_r in E. destruct rest as [|m rest]; [by rewrite app_nil_r|].
  apply Forall_app in Hms as [_ [Hm _]%Forall_cons]. cbn [fmap list_fmap concat] in E.
  pose proof (receiving_short s' pend m [] (concat (frame <$> rest)) R Hm) as Hsh. rewrite app_nil_r in Hsh. specialize (Hsh E).
  apply (f_equal zlen) in E. rewrite zlen_app in E. pose proof (zlen_nonneg (concat (frame <$> rest))). lia.
Qed.
Lemma link_receives h id fd s chunks ms :
  h_s h !! Z.to_nat id = Some s → 0 < id → harbor_id h fd = id → awaiting s → Forall wmsg_ok ms → Forall (λ c, c.2 ≠ []) chunks →
  concat (snd <$> chunks) = id :: concat (frame <$> ms) →
  ∃ l s', receive_chunks h fd chunks = Ok (stepped h id l s') ∧ delivered l = deliver (h_id h) <$> ms.
Proof.
  intros Hs Hid Hfd A Hms Hne E. destruct chunks as [|[b data] chunks]; [done|]. apply Forall_cons in Hne as [Hd Hne].
  cbn [fmap list_fmap concat snd] in E, Hd. destruct data as [|x r]; [done|]. injection E as -> E. cbn [receive_chunks mainloop].
  rewrite decide_True by done. unfold push_socket_data. cbv zeta. rewrite Hfd, decide_False by lia. cbn [length].
  replace (S (length r) + 2)%nat with (S (length r + 2)) by lia.
  destruct (handshake_loop (length r + 2) h id s r _ ms Hs ltac:(lia) A Hms E ltac:(lia))
    as (l & s1 & -> & Hfd1 & Hq1 & got & rest & pend1 & Hg & Hl & R1 & E1).
  rewrite !bind_Ok, emits_one, emits_stepped.
  assert (Forall wmsg_ok rest) as Hrest by (rewrite Hg in Hms; by apply Forall_app in Hms as [_ ?]).
  destruct (chunks_spec_link (stepped h id (l ++ [HFree b]) s1) id fd s1 pend1 chunks rest) as (k & s2 & -> & Hprog);
    [by eapply stepped_slave|done|by erewrite stepped_id|done|done|done|done|].
  apply progress_all in Hprog; [|done]. eexists _, s2. rewrite stepped_stepped. split; [done|].
  rewrite !delivered_app, Hl, Hprog, Hg, fmap_app. cbn. by rewrite app_nil_r.
Qed.

(** ** Written messages *)

Definition write_to (fd : Z) (a : harbor_action) : list Z :=
  match a with HSocketSend f data => if decide (f = fd) then data else [] | _ => [] end.
Definition bytes_to (fd : Z) (l : list harbor_action) : list Z := concat (write_to fd <$> l).
Lemma bytes_to_app fd l k : bytes_to fd (l ++ k) = bytes_to fd l ++ bytes_to fd k.
Proof. unfold bytes_to. by rewrite fmap_app, concat_app. Qed.
Lemma bytes_to_cons fd a l : bytes_to fd (a :: l) = write_to fd a ++ bytes_to fd l.
Proof. done. Qed.
Lemma no_writes_bytes fd l : no_writes l = true → bytes_to fd l = [].
Proof. induction l as [|a l IH]; [done|]. rewrite bytes_to_cons. intros [Ha Hl]%andb_prop. rewrite (IH Hl), app_nil_r. by destruct a. Qed.
Lemma writes_only_bytes fd fd' l : writes_only fd l = true → fd' ≠ fd → bytes_to fd' l = [].
Proof.
  intros H Hne. induction l as [|a l IH]; [done|]. rewrite bytes_to_cons. apply andb_prop in H as [Ha Hl]. rewrite (IH Hl), app_nil_r.
  destruct a; try done. apply bool_decide_eq_true_1 in Ha as ->. cbn. by rewrite decide_False.
Qed.
Lemma no_writes_only fd l : no_writes l = true → writes_only fd l = true.
Proof. induction l as [|a l IH]; [done|]. intros [Ha Hl]%andb_prop. apply andb_true_intro. split; [by destruct a|by apply IH]. Qed.
Lemma writes_only_app fd l k : writes_only fd (l ++ k) = writes_only fd l && writes_only fd k.
Proof. apply forallb_app. Qed.
Lemma no_writes_app l k : no_writes (l ++ k) = no_writes l && no_writes k.
Proof. apply forallb_app. Qed.
Lemma queue_acts_writes fd q : writes_only fd (queue_acts fd q) = true.
Proof.
  unfold queue_acts. induction (q_list q) as [|m l IH]; [done|]. cbn [fmap list_fmap concat]. rewrite writes_only_app, IH, andb_true_r.
  unfold send_msg_acts, wire_action. case_decide; cbn; [done|]. by rewrite bool_decide_eq_true_2.
Qed.
Lemma frees_no_writes l : no_writes ((HFree ∘ hm_buffer) <$> l) = true.
Proof. by induction l. Qed.

(** What received bytes do to a slave: it goes down, or it keeps its queue, or the
    handshake succeeds and the queue is written. *)
Definition up (s : slave) : Prop := sl_status s = STATUS_HEADER ∨ sl_status s = STATUS_CONTENT.
Inductive effect (s : slave) (l : list harbor_action) (s' : slave) : Prop :=
| eff_down : sl_status s' = STATUS_DOWN → sl_queue s' = None → writes_only (sl_fd s) l = true → effect s l s'
| eff_same : sl_status s' = sl_status s ∨ (up s ∧ up s') → sl_queue s' = sl_queue s → no_writes l = true → effect s l s'
| eff_up : sl_status s = STATUS_HANDSHAKE → up s' → sl_queue s' = None → writes_only (sl_fd s) l = true →
    bytes_to (sl_fd s) l = bytes_to (sl_fd s) (queue_acts (sl_fd s) (sl_queue s)) → effect s l s'.
Definition affects (h : harbor) (id : Z) (s : slave) (h' : harbor) : Prop :=
  ∃ l s', h' = stepped h id l s' ∧ sl_fd s' = sl_fd s ∧ effect s l s'.

Lemma effect_trans s l s1 k s2 :
  effect s l s1 → sl_fd s1 = sl_fd s → effect s1 k s2 → (sl_status s1 = STATUS_DOWN → sl_status s2 = STATUS_DOWN) →
  effect s (l ++ k) s2.
Proof.
  intros E1 Hfd E2 Hd. assert (writes_only (sl_fd s) l = true) as W1 by (destruct E1; auto using no_writes_only).
  assert (writes_only (sl_fd s) k = true) as W2 by (rewrite <- Hfd; destruct E2; auto using no_writes_only).
  destruct E2 as [Hs2 Hq2 _|Hs2 Hq2 Hk|Hs1 Hu2 Hq2 _ Hb2].
  - apply eff_down; [done|done|]. by rewrite writes_only_app, W1, W2.
  - destruct E1 as [Hs1 Hq1 _|Hs1 Hq1 Hl|Hs Hu1 Hq1 _ Hb1].
    + apply eff_down; [by apply Hd|congruence|]. by rewrite writes_only_app, W1, W2.
    + apply eff_same; [|congruence|by rewrite no_writes_app, Hl, Hk]. destruct Hs1 as [Hs1|[Hs Hs1]]; destruct Hs2 as [Hs2|[Hs1' Hs2]].
      * left. congruence.
      * right. split; [|done]. destruct Hs1' as [Ex|Ex]; [left|right]; congruence.
      * right. split; [done|]. destruct Hs1 as [Ex|Ex]; [left|right]; congruence.
      * by right.
    + apply eff_up; [done| |congruence|by rewrite writes_only_app, W1, W2|].
      * destruct Hs2 as [Hs2|[_ ?]]; [|done]. destruct Hu1 as [Ex|Ex]; [left|right]; congruence.
      * by rewrite bytes_to_app, (no_writes_bytes _ k Hk), app_nil_r.
  - destruct E1 as [Hs' _ _|Hs' Hq1 Hl|_ Hu1 _ _ _].
    + rewrite Hs' in Hs1. done.
    + destruct Hs' as [Hs'|[_ [Ex|Ex]]]; [|by rewrite Ex in Hs1..].
      apply eff_up; [congruence|done|done|by rewrite writes_only_app, W1, W2|]. rewrite bytes_to_app, (no_writes_bytes _ l Hl). cbn.
      by rewrite Hfd, Hq1 in Hb2.
    + destruct Hu1 as [Ex|Ex]; by rewrite Ex in Hs1.
Qed.

Lemma affects_refl h id s : h_s h !! Z.to_nat id = Some s → affects h id s h.
Proof.
  intros Hs. exists [], s. split; [unfold stepped; rewrite h_emits_nil, list_insert_id by done; by destruct h|]. split; [done|].
  apply eff_same; [by left|done|done].
Qed.
Lemma affects_trans h id s h1 h2 :
  h_s h !! Z.to_nat id = Some s → affects h id s h1 → (∀ s1, h_s h1 !! Z.to_nat id = Some s1 → sl_status s1 ≠ STATUS_DOWN → affects h1 id s1 h2) →
  ((∀ s1, h_s h1 !! Z.to_nat id = Some s1 → sl_status s1 = STATUS_DOWN → h2 = h1)) → affects h id s h2.
Proof.
  intros Hs (l & s1 & -> & Hfd & E1) H2 Hd. assert (h_s (stepped h id l s1) !! Z.to_nat id = Some s1) as Hs1 by (by eapply stepped_slave).
  destruct (decide (sl_status s1 = STATUS_DOWN)) as [Hdown|Hup].
  - rewrite (Hd s1 Hs1 Hdown). by exists l, s1.
  - destruct (H2 s1 Hs1 Hup) as (k & s2 & -> & Hfd2 & E2). exists (l ++ k), s2. rewrite stepped_stepped. split; [done|]. split; [congruence|].
    by eapply effect_trans.
Qed.
Lemma affects_q_ok h id s h' s' : h_s h !! Z.to_nat id = Some s → q_ok (sl_queue s) → affects h id s h' → h_s h' !! Z.to_nat id = Some s' → q_ok (sl_queue s').
Proof.
  intros Hs Q (l & s1 & -> & _ & E) Hs'. assert (s' = s1) as -> by (erewrite stepped_slave in Hs'; [by injection Hs' as <-|done]).
  destruct E as [_ Hq _|_ Hq _|_ _ Hq _ _]; by rewrite Hq.
Qed.
Lemma slave_at h id s x : h_s h !! Z.to_nat id = Some s → rd (h_s h) id = Ok x → x = s.
Proof. intros Hs [_ Hx]%rd_Ok_inv. congruence. Qed.
Lemma put_affects h id s s' h' :
  h_s h !! Z.to_nat id = Some s → put_slave h id s' = Ok h' → sl_fd s' = sl_fd s → sl_queue s' = sl_queue s →
  sl_status s' = sl_status s ∨ (up s ∧ up s') → affects h id s h'.
Proof.
  intros Hs Hp Hfd Hq Hst. pose proof Hp as (Hid & _)%put_slave_inv. rewrite (put_slave_stepped h id s) in Hp by done. apply Ok_inj in Hp. subst h'.
  exists [], s'. split; [done|]. split; [done|]. by apply eff_same.
Qed.
Lemma close_affects h id s a h' :
  h_s h !! Z.to_nat id = Some s → q_ok (sl_queue s) → no_writes [a] = true → close_harbor (h_emits h [a]) id = Ok h' → affects h id s h'.
Proof.
  intros Hs Q Ha E. unfold close_harbor in E. apply bind_Ok_inv in E as (x & Hx & E). apply (slave_at _ _ s) in Hx; [|done]. subst x.
  set (h1 := if decide (sl_fd s ≠ 0) then _ else _) in E.
  assert (∃ l, h1 = h_emits h l ∧ no_writes l = true) as (l & E1 & Hl).
  { unfold h1. rewrite ?emits_one, ?h_emits_app. case_decide; eexists; (split; [reflexivity|]); [|done]. rewrite no_writes_app, Ha. done. }
  rewrite release_ok_queue, bind_Ok in E by done. rewrite E1, h_emits_app in E. pose proof E as (Hid & _)%put_slave_inv.
  rewrite (put_stepped h id _ s) in E by done. apply Ok_inj in E. subst h'. eexists _, _. split; [reflexivity|]. split; [done|].
  apply eff_down; [done|done|]. apply no_writes_only. by rewrite no_writes_app, Hl, frees_no_writes.
Qed.
Lemma content_affects h id s buffer r :
  h_s h !! Z.to_nat id = Some s → up s → receive_content send_fails h id buffer = Ok r → affects h id s r.1.
Proof.
  intros Hs Hup E. unfold receive_content in E. apply bind_Ok_inv in E as (x & Hx & E). apply (slave_at _ _ s) in Hx; [|done]. subst x.
  apply bind_Ok_inv in E as (recv & _ & E). cbv zeta in E. case_decide; apply bind_Ok_inv in E as (recv2 & _ & E).
  - apply bind_Ok_inv in E as (h1 & Hp & E). apply Ok_inj in E. subst r. eapply put_affects; [done|exact Hp|done|done|by left].
  - apply bind_Ok_inv in E as (h1 & Hf & E). apply forward_emits in Hf as (l & -> & _ & Hl). apply bind_Ok_inv in E as (h2 & Hp & E). apply Ok_inj in E. subst r.
    pose proof Hp as (Hid & _)%put_slave_inv. rewrite (put_stepped h id _ s) in Hp by done. apply Ok_inj in Hp. subst h2.
    eexists l, _. split; [reflexivity|]. split; [done|]. apply eff_same; [right; split; [done|by left]|done|done].
Qed.
Lemma header_affects h id s buffer r :
  h_s h !! Z.to_nat id = Some s → q_ok (sl_queue s) → up s → receive_header send_fails h id buffer = Ok r → affects h id s r.1.
Proof.
  intros Hs Q Hup E. unfold receive_header in E. apply bind_Ok_inv in E as (x & Hx & E). apply (slave_at _ _ s) in Hx; [|done]. subst x. cbv zeta in E.
  case_decide; apply bind_Ok_inv in E as (size & _ & E); apply bind_Ok_inv in E as (h1 & Hp & E).
  { apply Ok_inj in E. subst r. eapply put_affects; [done|exact Hp|done|done|by left]. }
  set (s1 := mk_slave _ _ _ _ _ _ _) in Hp. pose proof Hp as (Hid & _)%put_slave_inv.
  assert (affects h id s h1) as A1 by (by eapply put_affects; [done|exact Hp|done|done|left]).
  rewrite (put_slave_stepped h id s) in Hp by done. apply Ok_inj in Hp. subst h1.
  assert (h_s (stepped h id [] s1) !! Z.to_nat id = Some s1) as Hs1 by (by eapply stepped_slave).
  assert (up s1) as Hup1 by exact Hup.
  eapply affects_trans; [done|exact A1| |].
  2:{ intros s2 Hs2 Hd. assert (s2 = s1) as -> by congruence. destruct Hup1 as [Ex|Ex]; by rewrite Ex in Hd. }
  intros s2 Hs2 _. assert (s2 = s1) as -> by congruence. clear Hs2. do 4 (apply bind_Ok_inv in E as (? & _ & E)). case_decide.
  - apply bind_Ok_inv in E as (h2 & Hc & E). apply Ok_inj in E. subst r. rewrite emits_one in Hc. eapply close_affects; [done|exact Q| |exact Hc]. done.
  - apply bind_Ok_inv in E as (h2 & Hp2 & E).
    assert (affects (stepped h id [] s1) id s1 h2) as A2 by (eapply put_affects; [done|exact Hp2|done|done|right; split; [done|by right]]).
    pose proof Hp2 as Hs3. rewrite (put_slave_stepped _ id s1) in Hs3 by done. apply Ok_inj in Hs3.
    case_decide; [apply Ok_inj in E; by subst r|].
    eapply affects_trans; [done|exact A2| |].
    + intros s3 Hs3' Hnd. eapply content_affects; [done| |done]. rewrite <- Hs3 in Hs3'. erewrite stepped_slave in Hs3' by done. injection Hs3' as <-. by right.
    + intros s3 Hs3' Hd. rewrite <- Hs3 in Hs3'. erewrite stepped_slave in Hs3' by done. injection Hs3' as <-. done.
Qed.
Lemma handshake_affects h id s buffer r :
  h_s h !! Z.to_nat id = Some s → q_ok (sl_queue s) → sl_status s = STATUS_HANDSHAKE → sl_fd s ≠ 0 →
  receive_handshake send_fails h id buffer = Ok r → affects h id s r.1.
Proof.
  intros Hs Q Hst Hfd E. unfold receive_handshake in E. apply bind_Ok_inv in E as (x & Hx & E). apply (slave_at _ _ s) in Hx; [|done]. subst x.
  apply bind_Ok_inv in E as (remote_id & _ & E). case_decide.
  { apply bind_Ok_inv in E as (h2 & Hc & E). apply Ok_inj in E. subst r. rewrite emits_one in Hc. eapply close_affects; [done|exact Q| |exact Hc]. done. }
  cbv zeta in E. apply bind_Ok_inv in E as (h1 & Hp & E). pose proof Hp as (Hid & _)%put_slave_inv.
  rewrite (put_slave_stepped h id s) in Hp by done. apply Ok_inj in Hp. subst h1. apply bind_Ok_inv in E as (h2 & Hd & E).
  rewrite (dispatch_spec _ id (set_status s STATUS_HEADER)) in Hd by (done || by eapply stepped_slave). rewrite stepped_stepped in Hd. apply Ok_inj in Hd. subst h2.
  cbn [sl_fd sl_queue set_status app] in E. set (l := queue_acts (sl_fd s) (sl_queue s)) in *. fold (shaken s) in E.
  assert (affects h id s (stepped h id l (shaken s))) as A1.
  { eexists l, _. split; [reflexivity|]. split; [done|]. apply eff_up; [done|by left|done|apply queue_acts_writes|done]. }
  assert (h_s (stepped h id l (shaken s)) !! Z.to_nat id = Some (shaken s)) as Hs1 by (by eapply stepped_slave).
  case_decide; [apply Ok_inj in E; by subst r|]. eapply affects_trans; [done|exact A1| |].
  - intros s1 Hs1' _. assert (s1 = shaken s) as -> by congruence. eapply header_affects; [done|done|by left|done].
  - intros s1 Hs1' Hd. assert (s1 = shaken s) as -> by congruence. done.
Qed.
Lemma receive_affects fuel h id s buffer h' :
  h_s h !! Z.to_nat id = Some s → q_ok (sl_queue s) → (sl_status s = STATUS_HANDSHAKE → sl_fd s ≠ 0) →
  receive_loop send_fails fuel h id buffer = Ok h' → affects h id s h'.
Proof.
  revert h s buffer. induction fuel as [|fuel IH]; intros h s buffer Hs Q Hfd E; [done|]. cbn [receive_loop] in E.
  apply bind_Ok_inv in E as (x & Hx & E). pose proof Hx as [Hid _]%rd_Ok_inv. apply (slave_at _ _ s) in Hx; [|done]. subst x.
  apply bind_Ok_inv in E as ([h1 o] & Hr & E).
  assert (affects h id s h1) as A1.
  { destruct (decide (sl_status s = STATUS_HANDSHAKE)) as [Ex|_]; [apply (handshake_affects h id s _ _ Hs Q Ex (Hfd Ex)) in Hr; done|].
    destruct (decide (sl_status s = STATUS_HEADER)) as [Ex|_]; [apply (header_affects h id s _ _ Hs Q) in Hr; [done|by left]|].
    destruct (decide (sl_status s = STATUS_CONTENT)) as [Ex|_]; [apply (content_affects h id s) in Hr; [done|done|by right]|].
    apply Ok_inj in Hr. simplify_eq. by apply affects_refl. }
  cbn [fst snd] in E. destruct o as [rest|]; [|apply Ok_inj in E; by subst].
  eapply affects_trans; [done|exact A1| |].
  - intros s1 Hs1 Hnd. eapply IH; [exact Hs1|exact (affects_q_ok h id s h1 s1 Hs Q A1 Hs1)| |exact E]. intros Hst.
    destruct A1 as (l & s1' & -> & Hfd1 & E1). assert (s1 = s1') as -> by (erewrite stepped_slave in Hs1; [by injection Hs1 as <-|done]).
    rewrite Hfd1. apply Hfd. destruct E1 as [Ex _ _|[Ex|[_ [Ex|Ex]]] _ _|_ [Ex|Ex] _ _ _]; try congruence; by rewrite Ex in Hst.
  - intros s1 Hs1 Hd. destruct fuel as [|fuel]; [done|]. cbn [receive_loop] in E. rewrite (rd_lookup _ _ s1) in E; [|lia|done].
    rewrite bind_Ok, !Hd in E. rewrite !decide_False in E by done. rewrite bind_Ok in E. apply Ok_inj in E. done.
Qed.

(** The messages of a queue are those of [ms]. *)
Definition waits (q : option harbor_msg_queue) (ms : list wmsg) : Prop :=
  ((λ x, (hm_header x, hm_data x)) <$> q_list q) = ((λ m, (w_header m, w_data m)) <$> ms).
Lemma waits_bytes fd q ms : waits q ms → Forall wmsg_ok ms → bytes_to fd (queue_acts fd q) = concat (frame <$> ms).
Proof.
  unfold waits, queue_acts. intros E Hms. revert E. generalize (q_list q) as l. induction Hms as [|m ms Hm _ IH]; intros [|x l] E; try done.
  cbn [fmap list_fmap] in E. injection E as Eh Ed E. cbn [fmap list_fmap concat]. rewrite bytes_to_app, (IH _ E). f_equal.
  unfold send_msg_acts. rewrite Eh, Ed. unfold bytes_to, wire_action. pose proof (wo_size _ Hm). unfold UINT32_MAX. rewrite decide_False by lia.
  cbn [fmap list_fmap concat write_to]. rewrite decide_True, !app_nil_r by done. unfold frame, w_body, with_bits. cbn [w_header rh_source rh_destination rh_session].
  by rewrite Z.lor_0_r.
Qed.

(** The state of the link to a slave, behind the messages [ms] for it. *)
Inductive link_ok (id : Z) (out : list harbor_action) (s : slave) (ms : list wmsg) : Prop :=
| link_down : sl_status s = STATUS_DOWN → link_ok id out s ms
| link_wait : sl_status s = STATUS_WAIT → waits (sl_queue s) ms → link_ok id out s ms
| link_handshake :
    sl_status s = STATUS_HANDSHAKE → waits (sl_queue s) ms → bytes_to (sl_fd s) out = [u8 id] → link_ok id out s ms
| link_up : up s → bytes_to (sl_fd s) out = u8 id :: concat (frame <$> ms) → link_ok id out s ms.

Record sender_inv (h : harbor) (fds : list Z) (log : Z → list wmsg) : Prop := {
  sv_status : ∀ i s, h_s h !! i = Some s → sl_fd s = 0 ↔ sl_status s = STATUS_WAIT;
  sv_fds : ∀ i s, h_s h !! i = Some s → sl_fd s ≠ 0 → sl_fd s ∈ fds;
  sv_distinct : ∀ i j s t, h_s h !! i = Some s → h_s h !! j = Some t → sl_fd s = sl_fd t → sl_fd s ≠ 0 → i = j;
  sv_out : ∀ fd, fd ∉ fds → bytes_to fd (h_out h) = [];
  sv_link : ∀ b s, h_s h !! b = Some s → Z.of_nat b ≠ h_id h → Forall wmsg_ok (log (Z.of_nat b)) →
    link_ok (h_id h) (h_out h) s (log (Z.of_nat b)) }.

Lemma link_quiet id out l s ms :
  link_ok id out s ms → (sl_status s ≠ STATUS_WAIT → bytes_to (sl_fd s) l = []) → link_ok id (out ++ l) s ms.
Proof.
  intros [Hst|Hst Hw|Hst Hw Hb|Hu Hb] Hl; [by apply link_down|by apply link_wait|apply link_handshake|apply link_up]; try done; rewrite bytes_to_app, Hb, Hl, app_nil_r; try done.
  - by rewrite Hst.
  - destruct Hu as [Ex|Ex]; by rewrite Ex.
Qed.
Lemma sender_emits h fds log l : sender_inv h fds log → no_writes l = true → sender_inv (h_emits h l) fds log.
Proof.
  intros [H1 H2 H3 H4 H5] Hl. split; cbn [h_s h_out h_id h_emits]; try done.
  - intros fd Hfd. by rewrite bytes_to_app, (H4 fd Hfd), no_writes_bytes.
  - intros b s Hb Hne Hms. apply link_quiet; [by apply H5|]. intros _. by apply no_writes_bytes.
Qed.
(** A slave takes a step; the messages for it may become more. *)
Lemma sender_stepped h fds log id l s s' log' :
  sender_inv h fds log → h_s h !! Z.to_nat id = Some s → 0 ≤ id → sl_fd s' = sl_fd s → (sl_status s' = STATUS_WAIT ↔ sl_status s = STATUS_WAIT) →
  (if decide (sl_fd s = 0) then no_writes l else writes_only (sl_fd s) l) = true →
  (∀ b, b ≠ id → log' b = log b) →
  (id ≠ h_id h → Forall wmsg_ok (log' id) → link_ok (h_id h) (h_out h ++ l) s' (log' id)) →
  sender_inv (stepped h id l s') fds log'.
Proof.
  intros [H1 H2 H3 H4 H5] Hs Hid Hfd Hst Hw Hlog Hlink.
  assert (∀ j t, <[Z.to_nat id := s']> (h_s h) !! j = Some t → ∃ t0, h_s h !! j = Some t0 ∧ sl_fd t = sl_fd t0 ∧ (sl_status t = STATUS_WAIT ↔ sl_status t0 = STATUS_WAIT)) as Hold.
  { intros j t Ht. destruct (decide (j = Z.to_nat id)) as [->|Hne].
    - rewrite list_lookup_insert_eq in Ht by (by eapply lookup_lt_Some). injection Ht as <-. by exists s.
    - rewrite list_lookup_insert_ne in Ht by done. by exists t. }
  assert (∀ fd, fd ≠ 0 → fd ≠ sl_fd s → bytes_to fd l = []) as Hbytes.
  { intros fd Hnz Hne. case_decide; [by apply no_writes_bytes|by eapply writes_only_bytes]. }
  split; cbn [h_s h_out h_id stepped set_slaves h_emits].
  - intros i t (t0 & Ht0 & -> & ->)%Hold. by apply H1 in Ht0.
  - intros i t (t0 & Ht0 & -> & _)%Hold. by apply (H2 i).
  - intros i j t u (t0 & Ht0 & -> & _)%Hold (u0 & Hu0 & -> & _)%Hold. by apply (H3 i j t0 u0).
  - intros fd Hn. rewrite bytes_to_app, (H4 fd Hn). cbn. case_decide as Hz; [by apply no_writes_bytes|].
    eapply writes_only_bytes; [done|]. intros ->. by apply Hn, (H2 _ _ Hs).
  - intros b t Ht Hne Hms. destruct (decide (b = Z.to_nat id)) as [->|Hb].
    + rewrite list_lookup_insert_eq in Ht by (by eapply lookup_lt_Some). injection Ht as <-. rewrite Z2Nat.id in * by done. by apply Hlink.
    + rewrite list_lookup_insert_ne in Ht by done. rewrite Hlog in * by lia. apply link_quiet; [by apply H5|]. intros Hnw.
      assert (sl_fd t ≠ 0) as Hnz by (rewrite (H1 _ _ Ht); done). apply Hbytes; [done|]. intros Eq. apply Hb. by eapply H3.
Qed.
Lemma sender_affects h fds log id s h' :
  sender_inv h fds log → h_s h !! Z.to_nat id = Some s → 0 ≤ id → sl_fd s ≠ 0 → affects h id s h' → sender_inv h' fds log.
Proof.
  intros I Hs Hid Hnz (l & s' & -> & Hfd & E). pose proof (sv_status _ _ _ I _ _ Hs) as Hst. pose proof (sv_link _ _ _ I _ _ Hs) as Hl.
  rewrite Z2Nat.id in Hl by done. assert (sl_status s ≠ STATUS_WAIT) as Hnw by (by rewrite <- Hst).
  apply (sender_stepped h fds log id l s s'); try done.
  - split; [|done]. intros Hw. destruct E as [Ex _ _|[Ex|[_ [Ex|Ex]]] _ _|_ [Ex|Ex] _ _ _]; by rewrite Ex in Hw.
  - rewrite decide_False by done. destruct E; auto using no_writes_only.
  - intros Hne Hms. specialize (Hl Hne Hms). destruct E as [Ex _ _|Ex Hq Hw|Hs1 Hu Hq _ Hb]; [by apply link_down| |].
    + destruct Hl as [Hx|Hx _|Hx Hwq Hb|Hu Hb]; [| |apply link_handshake|apply link_up].
      * destruct Ex as [Ex|[[Eu|Eu] _]]; [apply link_down; congruence|by rewrite Hx in Eu..].
      * done.
      * destruct Ex as [Ex|[[Eu|Eu] _]]; [congruence|by rewrite Hx in Eu..].
      * by rewrite Hq.
      * by rewrite Hfd, bytes_to_app, Hb, no_writes_bytes.
      * destruct Ex as [Ex|[_ Eu]]; [|done]. destruct Hu as [Hu|Hu]; [left|right]; congruence.
      * by rewrite Hfd, bytes_to_app, Hb, no_writes_bytes, app_nil_r.
    + destruct Hl as [Hx|Hx _|_ Hwq Hb0|[Eu|Eu] _]; [by rewrite Hx in Hs1| |apply link_up; [done|]|by rewrite Eu in Hs1..]; [done|].
      rewrite Hfd, bytes_to_app, Hb0, Hb, (waits_bytes _ _ _ Hwq Hms). done.
Qed.

(** *** Inputs *)

(** The messages an input has for node [b]; what it connects. *)
Definition sent_to (b : Z) (input : harbor_input) : list wmsg :=
  match input with
  | IRemote type session source _ handle _ data =>
      if decide (Z.shiftr handle HANDLE_REMOTE_SHIFT = b) then [mk_wmsg source type (Z.land handle HANDLE_MASK) session data] else []
  | _ => []
  end.
Definition connects (input : harbor_input) : option Z :=
  match input with
  | IHarbor msg _ =>
      if decide (head msg = Some 83 ∨ head msg = Some 65) then Some (scan_pair (until_nul (drop 2 msg))).1 else None
  | _ => None
  end.
(** Messages go to handles, and no name is announced. *)
Definition by_handle (input : harbor_input) : Prop :=
  match input with
  | ISocket _ _ _ _ _ => True
  | IHarbor msg _ => head msg ≠ Some 78
  | IRemote _ _ _ _ handle _ _ => handle ≠ 0
  end.

Lemma sender_send h fds log source handle type session buffer data r h' b :
  harbor_ok h → zlen (queued h) < 2 ^ 29 → sender_inv h fds log → Z.shiftr handle HANDLE_REMOTE_SHIFT = b →
  remote_send_handle h source handle type session buffer data = Ok (r, h') →
  sender_inv h' fds (λ x, if decide (x = b) then log b ++ [mk_wmsg source type (Z.land handle HANDLE_MASK) session data] else log x).
Proof.
  intros O Hq I Hb E. unfold remote_send_handle in E. cbv zeta in E. rewrite Hb in E.
  set (m := mk_wmsg source type (Z.land handle HANDLE_MASK) session data) in *. set (log' := λ x, if decide (x = b) then log b ++ [m] else log x).
  destruct (decide (b = h_id h)) as [Eb|Hne].
  { apply Ok_inj, pair_equal_spec in E as [_ <-]. rewrite emits_one. set (a := HSend _ _ _ _ _ _). pose proof (sender_emits h fds log [a] I eq_refl) as [H1 H2 H3 H4 H5].
    split; [done..|]. intros k s Hk Hn Hms. unfold log' in *. rewrite decide_False in * by (rewrite Eb; exact Hn). by apply H5. }
  apply bind_Ok_inv in E as (s & Hs & E). destruct (slave_of h _ s O Hs) as (Hid & Hi & Q). fold (w_header m) in E.
  pose proof (sv_status _ _ _ I _ _ Hi) as Hst. pose proof (sv_link _ _ _ I _ _ Hi) as Hl. rewrite Z2Nat.id in Hl by done.
  assert (∀ k, k ≠ b → log' k = log k) as Hother by (intros k Hk; unfold log'; by rewrite decide_False).
  assert (log' b = log b ++ [m]) as Elog by (unfold log'; by rewrite decide_True).
  change (mk_rmh source (Z.lor (u32 (Z.shiftl type HANDLE_REMOTE_SHIFT)) (Z.land handle HANDLE_MASK)) (u32 session)) with (w_header m) in E.
  destruct (decide (sl_fd s = 0 ∨ sl_status s = STATUS_HANDSHAKE)) as [Hqd|Hnq].
  - destruct (decide (sl_status s = STATUS_DOWN)) as [Hd|Hnd]; [exfalso; destruct Hqd as [Hz|Hz]; [apply Hst in Hz|]; by rewrite Hz in Hd|].
    apply bind_Ok_inv in E as (q & Hp & E). apply bind_Ok_inv in E as (h1 & Hput & E). apply Ok_inj, pair_equal_spec in E as [_ <-].
    unfold push_hqueue in Hp. destruct (push_default (sl_queue s) (mk_hmsg (w_header m) buffer data) Q) as (q1 & E1 & Q1 & Eq1).
    { pose proof (slave_queue_le h _ s Hi). lia. }
    rewrite E1 in Hp. apply Ok_inj in Hp. subst q1. rewrite (put_slave_stepped h b s) in Hput by done. apply Ok_inj in Hput. subst h1.
    apply (sender_stepped h fds log b [] s); try done; [by case_decide|]. intros Hn Hms. rewrite Elog in *. apply Forall_app in Hms as [Hms _].
    rewrite app_nil_r. assert (∀ ms, waits (sl_queue s) ms → waits (Some q) (ms ++ [m])) as Hw.
    { intros ms Hw. unfold waits. rewrite Eq1, !fmap_app. by rewrite Hw. }
    destruct (Hl Hn Hms) as [Hx|Hx Hwq|Hx Hwq Hb0|Hu _]; [by apply link_down|apply link_wait; [done|by apply Hw]|
      apply link_handshake; [done|by apply Hw|done]|]. exfalso. destruct Hqd as [Hz|Hz]; [apply Hst in Hz|]; destruct Hu as [Hu|Hu]; by rewrite Hu in Hz.
  - assert (sl_fd s ≠ 0 ∧ sl_status s ≠ STATUS_HANDSHAKE) as [Hnz Hnh] by tauto. apply Ok_inj, pair_equal_spec in E as [_ <-]. rewrite send_remote_eq.
    assert (h_emits h [wire_action (sl_fd s) data (w_header m)] = stepped h b [wire_action (sl_fd s) data (w_header m)] s) as ->.
    { unfold stepped. cbn [h_s h_emits]. by rewrite list_insert_id. }
    apply (sender_stepped h fds log b _ s); try done.
    + rewrite decide_False by done. unfold wire_action. case_decide; cbn; [done|]. by rewrite bool_decide_eq_true_2.
    + intros Hn Hms. rewrite Elog in *. apply Forall_app in Hms as [Hms [Hm _]%Forall_cons].
      destruct (Hl Hn Hms) as [Hx|Hx _|Hx|Hu Hb0]; [by apply link_down|by apply Hst in Hx|done|].
      apply link_up; [done|]. rewrite bytes_to_app, Hb0, fmap_app, concat_app. cbn [app]. f_equal. f_equal. unfold bytes_to, wire_action.
      pose proof (wo_size _ Hm) as Hsz. unfold UINT32_MAX. cbn [w_data m] in Hsz. rewrite decide_False by lia. cbn. rewrite decide_True, !app_nil_r by done. done.
Qed.
Lemma sender_connect h fds log id fd l s s' :
  sender_inv h fds log → h_s h !! Z.to_nat id = Some s → 0 ≤ id → fd ≠ 0 → fd ∉ fds → sl_fd s' = fd → sl_status s' ≠ STATUS_WAIT →
  writes_only fd l = true →
  (id ≠ h_id h → Forall wmsg_ok (log id) → link_ok (h_id h) (h_out h ++ l) s' (log id)) →
  sender_inv (stepped h id l s') (fds ++ [fd]) log.
Proof.
  intros [H1 H2 H3 H4 H5] Hs Hid Hnz Hnew Hfd Hst Hw Hlink.
  assert (∀ j t, <[Z.to_nat id := s']> (h_s h) !! j = Some t → (j = Z.to_nat id ∧ t = s') ∨ (j ≠ Z.to_nat id ∧ h_s h !! j = Some t)) as Hold.
  { intros j t Ht. destruct (decide (j = Z.to_nat id)) as [->|Hne].
    - rewrite list_lookup_insert_eq in Ht by (by eapply lookup_lt_Some). injection Ht as <-. by left.
    - rewrite list_lookup_insert_ne in Ht by done. by right. }
  assert (∀ j t, h_s h !! j = Some t → sl_fd t ≠ fd) as Hfresh.
  { intros j t Ht Eq. apply Hnew. rewrite <- Eq. eapply H2; [done|congruence]. }
  split; cbn [h_s h_out h_id stepped set_slaves h_emits].
  - intros i t [[-> ->]|[_ Ht]]%Hold; [|by apply (H1 i)]. split; [congruence|done].
  - intros i t Ht Hn. apply elem_of_app. apply Hold in Ht as [[-> ->]|[_ Ht]]; [right; rewrite Hfd; by left|left; by apply (H2 i)].
  - intros i j t u Ht Hu Eq Hn. apply Hold in Ht as [[-> ->]|[Hi Ht]]; apply Hold in Hu as [[-> ->]|[Hj Hu]].
    + done.
    + exfalso. apply (Hfresh j u Hu). congruence.
    + exfalso. apply (Hfresh i t Ht). congruence.
    + by apply (H3 i j t u).
  - intros k Hk. apply not_elem_of_app in Hk as [Hk Hk2]. rewrite bytes_to_app, (H4 k Hk). cbn. eapply writes_only_bytes; [done|].
    intros ->. apply Hk2. by left.
  - intros b t Ht Hne Hms. apply Hold in Ht as [[-> ->]|[Hb Ht]]; [rewrite Z2Nat.id in * by done; by apply Hlink|].
    apply link_quiet; [by apply H5|]. intros _. eapply writes_only_bytes; [done|by eapply Hfresh].
Qed.
Lemma sender_command h fds log msg source h' :
  harbor_ok h → sender_inv h fds log → head msg ≠ Some 78 →
  (∀ fd, connects (IHarbor msg source) = Some fd → fd ∉ fds) → harbor_command h msg source = Ok h' →
  sender_inv h' (fds ++ option_list (connects (IHarbor msg source))) log.
Proof.
  intros O I Hn Hfresh E. unfold harbor_command in E. apply bind_Ok_inv in E as (c & Hc & E).
  assert (head msg = Some c) as Hhd by (apply rd_Ok_inv in Hc as [_ Hc]; by destruct msg). cbn [connects] in *. rewrite Hhd in *. cbv zeta in E.
  assert (∀ k l, sender_inv k fds log → sender_inv k (fds ++ l) log) as Hmore.
  { intros k l [H1 H2 H3 H4 H5]. split; [done| |done| |done].
    - intros i s Hi Hz. apply elem_of_app. left. by apply (H2 i).
    - intros fd Hfd. apply not_elem_of_app in Hfd as [Hfd _]. by apply H4. }
  rewrite decide_False in E by congruence.
  destruct (decide (c = 83 ∨ c = 65)) as [Hcmd|Hno]; cycle 1.
  { rewrite decide_False by (intros [[= ->]|[= ->]]; tauto). cbn. rewrite app_nil_r. apply Ok_inj in E. subst h'. rewrite emits_one. by apply sender_emits. }
  rewrite (decide_True (P := Some c = Some 83 ∨ Some c = Some 65)) in * by (destruct Hcmd as [->| ->]; tauto). case_decide; [done|].
  destruct (scan_pair _) as [fd id] eqn:Esc. cbn [fst option_list] in *. specialize (Hfresh fd eq_refl).
  destruct (decide (fd = 0 ∨ id ≤ 0 ∨ REMOTE_MAX ≤ id)) as [|Hok]; [apply Ok_inj in E; subst h'; rewrite emits_one; by apply Hmore, sender_emits|].
  apply bind_Ok_inv in E as (s & Hs & E). destruct (slave_of h _ s O Hs) as (Hid & Hi & Q).
  destruct (decide (sl_fd s ≠ 0)) as [|Hz]; [apply Ok_inj in E; subst h'; rewrite emits_one; by apply Hmore, sender_emits|].
  assert (sl_fd s = 0) as Hz' by (destruct (decide (sl_fd s = 0)); [done|by destruct Hz]). clear Hz.
  pose proof (sv_status _ _ _ I _ _ Hi) as Hst. apply Hst in Hz'. pose proof (sv_link _ _ _ I _ _ Hi) as Hl. rewrite Z2Nat.id in Hl by done.
  assert (id ≠ h_id h → Forall wmsg_ok (log id) → waits (sl_queue s) (log id)) as Hw.
  { intros Hne Hms. destruct (Hl Hne Hms) as [Hx|Hx Hw|Hx|[Hx|Hx]]; first [done|by rewrite Hx in Hz']. }
  set (s1 := mk_slave fd _ _ _ _ _ _) in E. rewrite (put_slave_stepped h id s), bind_Ok, emits_one, emits_stepped in E by done.
  assert (bytes_to fd (h_out h) = []) as Hb0 by (by apply (sv_out _ _ _ I)).
  assert (∀ a l, h_s (stepped h id l s1) !! Z.to_nat id = Some s1 ∧ handshake (stepped h id a s1) id = Ok (stepped h id (a ++ [HSocketSend fd [u8 (h_id h)]]) s1)) as Hshake.
  { intros a l. split; [by eapply stepped_slave|]. unfold handshake. rewrite (rd_lookup _ _ s1), bind_Ok by (done || by eapply stepped_slave).
    by rewrite emits_one, emits_stepped. }
  destruct (Hshake [HSocketStart fd] ([] ++ [HSocketStart fd] ++ [HSocketSend fd [u8 (h_id h)]])) as [Hs1 Eh]. cbn [app] in E. rewrite Eh, bind_Ok in E. clear Hshake Eh.
  cbn [app] in E, Hs1. set (l := [HSocketStart fd; HSocketSend fd [u8 (h_id h)]]) in *.
  assert (bytes_to fd l = [u8 (h_id h)]) as Hbl by (cbn; rewrite decide_True by done; done).
  destruct (decide (c = 83)).
  - rewrite (put_slave_stepped _ id s1), stepped_stepped in E by done. apply Ok_inj in E. subst h'. rewrite app_nil_r.
    apply (sender_connect h fds log id fd l s); try done; [tauto|cbn; by rewrite bool_decide_eq_true_2|]. intros Hne Hms.
    apply link_handshake; [done|by apply Hw|]. cbn [sl_fd set_status s1]. by rewrite bytes_to_app, Hb0, Hbl.
  - rewrite (put_slave_stepped _ id s1), bind_Ok, stepped_stepped in E by done.
    rewrite (dispatch_spec _ id (set_status s1 STATUS_HEADER)), stepped_stepped in E; [|by eapply stepped_slave|done|cbn; tauto|done].
    apply Ok_inj in E. subst h'. rewrite app_nil_r. cbn [sl_fd sl_queue set_status s1].
    apply (sender_connect h fds log id fd _ s); try done; [tauto| |].
    + rewrite writes_only_app, queue_acts_writes. cbn. by rewrite bool_decide_eq_true_2.
    + intros Hne Hms. apply link_up; [by left|]. cbn [sl_fd set_hqueue set_status s1].
      by rewrite !bytes_to_app, Hb0, Hbl, (waits_bytes fd _ (log id)) by auto.
Qed.
Lemma sender_data h fds log fd buffer data h' :
  harbor_ok h → sender_inv h fds log → push_socket_data send_fails h fd buffer data = Ok h' → sender_inv h' fds log.
Proof.
  intros O I E. unfold push_socket_data in E. cbv zeta in E. case_decide; [apply Ok_inj in E; subst h'; rewrite !emits_one, h_emits_app; by apply sender_emits|].
  set (id := harbor_id h fd) in *. pose proof E as E0. replace (length data + 2)%nat with (S (length data + 1)) in E0 by lia. cbn [receive_loop] in E0.
  apply bind_Ok_inv in E0 as (s & Hs & E0). destruct (slave_of h id s O Hs) as (Hid & Hi & Q). pose proof (sv_status _ _ _ I _ _ Hi) as Hst.
  destruct (decide (sl_fd s = 0)) as [Hz|Hnz].
  - apply Hst in Hz. rewrite !Hz, !decide_False, bind_Ok in E0 by done. apply Ok_inj in E0. by subst h'.
  - apply (receive_affects _ _ _ s) in E; [|done|done|done]. by apply (sender_affects h fds log id s h').
Qed.
Lemma sender_input h fds log input h' :
  harbor_ok h → input_fits h input → sender_inv h fds log → by_handle input → (∀ fd, connects input = Some fd → fd ∉ fds) →
  mainloop send_fails h input = Ok h' → sender_inv h' (fds ++ option_list (connects input)) (λ b, log b ++ sent_to b input).
Proof.
  intros O [Hsz Hin] I Hby Hfresh E. destruct input as [type fd ud buffer data|msg source|type session source name handle buffer data]; cbn [mainloop by_handle sent_to] in *.
  - cbn [connects option_list]. rewrite app_nil_r. assert (sender_inv h' fds log) as I'.
    2:{ destruct I' as [H1 H2 H3 H4 H5]. split; [done..|]. intros b s. rewrite app_nil_r. apply H5. }
    case_decide.
    + apply bind_Ok_inv in E as (h1 & Hp & E). apply Ok_inj in E. subst h'. rewrite emits_one. apply sender_emits; [|done]. by eapply sender_data.
    + case_decide; [|case_decide; [|case_decide]]; cbv zeta in E; apply Ok_inj in E; subst h'; try case_decide;
        unfold report_harbor_down; rewrite ?emits_one; try (by apply sender_emits); done.
  - apply sender_command with (fds := fds) (log := log) in E as [H1 H2 H3 H4 H5]; [|done..]. split; [done..|]. intros b s. rewrite app_nil_r. apply H5.
  - rewrite decide_False in E by done. apply bind_Ok_inv in E as ([r h1] & Hr & E). apply Ok_inj in E. cbn [fst snd] in E. cbn [connects option_list]. rewrite app_nil_r.
    apply sender_send with (fds := fds) (log := log) (b := Z.shiftr handle HANDLE_REMOTE_SHIFT) in Hr; [|done|pose proof (zlen_nonneg (queued h)); lia|done|done].
    assert (sender_inv h' fds (λ x, if decide (x = Z.shiftr handle HANDLE_REMOTE_SHIFT) then
      log (Z.shiftr handle HANDLE_REMOTE_SHIFT) ++ [mk_wmsg source type (Z.land handle HANDLE_MASK) session data] else log x)) as [H1 H2 H3 H4 H5].
    { subst h'. case_decide; [done|]. rewrite emits_one. by apply sender_emits. }
    split; [done..|]. intros b s Hb Hne Hms. specialize (H5 b s Hb Hne). destruct (decide (Z.of_nat b = Z.shiftr handle HANDLE_REMOTE_SHIFT)) as [Eb|Nb].
    + rewrite <- Eb in *. rewrite decide_True in Hms |- * by done. by apply H5.
    + rewrite decide_False in Hms |- * by congruence. rewrite app_nil_r in *. by apply H5.
Qed.
Lemma sender_start args h0 : harbor_init harbor_create args = (0, h0) → sender_inv h0 [] (λ _, []).
Proof.
  unfold harbor_init. destruct (scan_pair args) as [id slave]. case_decide; [done|]. intros [= <-].
  assert (∀ i s, h_s harbor_create !! i = Some s → s = no_slave) as Hs by (intros i s [-> _]%lookup_replicate_1; done).
  split; cbn [h_s h_out h_id].
  - by intros i s ->%Hs.
  - by intros i s ->%Hs.
  - by intros i j s t ->%Hs _ _ ?.
  - done.
  - intros b s ->%Hs _ _. by apply link_wait.
Qed.
Lemma sender_run h0 l h :
  harbor_ok h0 → sender_inv h0 [] (λ _, []) → harbor_run send_fails h0 l h → Forall by_handle l → NoDup (omap connects l) →
  sender_inv h (omap connects l) (λ b, concat (sent_to b <$> l)).
Proof.
  intros O I. induction 1 as [|l h1 input h2 Hrun IH Hf E]; intros Hby Hnd; [done|].
  apply Forall_app in Hby as [Hby [Hi _]%Forall_cons]. rewrite omap_app in *.
  assert (omap connects [input] = option_list (connects input)) as Eo by (cbn; by destruct (connects input)). rewrite Eo in *.
  apply NoDup_app in Hnd as (Hnd & Hdis & _).
  apply sender_input with (fds := omap connects l) (log := λ b, concat (sent_to b <$> l)) in E as [H1 H2 H3 H4 H5]; try done.
  - split; [done..|]. intros b s. rewrite fmap_app, concat_app. cbn [fmap list_fmap concat]. rewrite app_nil_r. apply H5.
  - by apply (run_keeps _ _ _ _ O Hrun).
  - by apply IH.
  - intros fd Hfd Hin. apply (Hdis fd Hin). rewrite Hfd. by left.
Qed.
End Service.

(** What the harbor service of node [id] reads from its link is the stream [bytes]: the
    side that connected ('S') waits for the handshake byte and reads all of it; for the
    side that accepted ('A') the slave service has read that byte before it hands the
    descriptor over, and the harbor starts with the header of the first message. *)
Inductive reads_stream (id : Z) (t : slave) (data bytes : list Z) : Prop :=
| reads_handshake : awaiting t → data = bytes → reads_stream id t data bytes
| reads_accepted : receiving t [] → id :: data = bytes → reads_stream id t data bytes.

Lemma link_accepted send_fails h id fd s chunks ms :
  h_s h !! Z.to_nat id = Some s → 0 < id → harbor_id h fd = id → receiving s [] → Forall wmsg_ok ms → Forall (λ c, c.2 ≠ []) chunks →
  concat (snd <$> chunks) = concat (frame <$> ms) →
  ∃ l s', receive_chunks send_fails h fd chunks = Ok (stepped h id l s') ∧ delivered l = deliver (h_id h) <$> ms.
Proof.
  intros Hs Hid Hfd R Hms Hne E. destruct (chunks_spec_link send_fails h id fd s [] chunks ms) as (l & s' & El & Hp); [done..|].
  exists l, s'. split; [done|]. by eapply progress_all.
Qed.

(** C9: messages arrive on the other node, in either direction of a link. One harbor is
    started and handles any inputs in which messages go to handles (not to names), no
    name is announced and no descriptor is connected twice; it is connected to node [b],
    and what was sent to [b] are messages with a type below 256 and fewer than 2^24 - 12
    bytes. Whatever chunks the bytes it wrote arrive in, the harbor of that node, whether
    it connected and waits for the handshake or accepted the connection, handles them
    without failing and sends to its services exactly the messages that were sent to it,
    those that waited for the connection and those sent later, each once and in order,
    with source, type, session and data. *)
Theorem harbor_link_delivers fails_a fails_b args h0 l ha b s hb t fd chunks :
  harbor_init harbor_create args = (0, h0) → harbor_run fails_a h0 l ha → Forall by_handle l → NoDup (omap connects l) →
  h_s ha !! Z.to_nat b = Some s → 0 ≤ b → b ≠ h_id ha → up s →
  let sent := concat (sent_to b <$> l) in Forall wmsg_ok sent →
  h_s hb !! Z.to_nat (h_id ha) = Some t → 0 < h_id ha < REMOTE_MAX → harbor_id hb fd = h_id ha →
  Forall (λ c, c.2 ≠ []) chunks → reads_stream (h_id ha) t (concat (snd <$> chunks)) (bytes_to (sl_fd s) (h_out ha)) →
  ∃ hb', receive_chunks fails_b hb fd chunks = Ok hb' ∧
    delivered (h_out hb') = delivered (h_out hb) ++ (deliver (h_id hb) <$> sent).
Proof.
  intros Hinit Hrun Hby Hnd Hs Hb Hne Hup sent Hok Ht Hid Hfd Hch E. pose proof (init_blocks args h0 Hinit) as [O _].
  pose proof (sender_run fails_a h0 l ha O (sender_start args h0 Hinit) Hrun Hby Hnd) as I.
  pose proof (sv_link _ _ _ I _ _ Hs) as Hl. rewrite Z2Nat.id in Hl by done. specialize (Hl Hne Hok). fold sent in Hl.
  destruct Hl as [Hx|Hx _|Hx|_ Hbytes]; try (destruct Hup as [Hu|Hu]; by rewrite Hu in Hx).
  unfold REMOTE_MAX in Hid. rewrite Hbytes, uwrap_small in E by lia.
  assert (∃ k t', receive_chunks fails_b hb fd chunks = Ok (stepped hb (h_id ha) k t') ∧ delivered k = deliver (h_id hb) <$> sent)
    as (k & t' & -> & Hk).
  { destruct E as [Aw E|R [= E]]; [apply (link_receives fails_b hb _ fd t)|apply (link_accepted fails_b hb _ fd t)]; done || lia. }
  eexists. split; [done|]. cbn [h_out stepped set_slaves h_emits]. by rewrite delivered_app, Hk.
Qed.

(** *** A link between node 1 and node 2 *)

Definition no_name : list Z := replicate GLOBALNAME_LENGTH 0.
Definition example_inputs : list harbor_input :=
  [IRemote 10 (-5) 0x01000003 no_name 0x02000007 100 [65; 66]; IHarbor (lit "A 5 2") 8; IRemote 0 6 0x01000003 no_name 0x02000009 101 []].
Definition example_a : harbor := foldl after example_harbor example_inputs.
Definition example_b : harbor := after (harbor_init harbor_create (lit "2 33554440")).2 (IHarbor (lit "S 9 1") 8).
Lemma example_link_run : harbor_run (λ _ _, false) example_harbor example_inputs example_a.
Proof.
  apply (run_after _ [_; _] _ (IRemote 0 6 0x01000003 no_name 0x02000009 101 [])); [apply (run_after _ [_] _ (IHarbor (lit "A 5 2") 8));
    [apply (run_after _ [] _ (IRemote 10 (-5) 0x01000003 no_name 0x02000007 100 [65; 66])); [apply run_start|..]|..]|..];
    try (split; [vm_compute; reflexivity|done]); (eexists; vm_compute; reflexivity).
Qed.
(** The other direction: node 2 connected to node 1, so node 1 accepted. *)
Definition example_back : list harbor_input := [IHarbor (lit "S 9 1") 8; ISocket SKYNET_SOCKET_TYPE_DATA 9 1 200 [1]; IRemote 10 7 0x02000003 no_name 0x01000004 101 [67]].
Definition example_c : harbor := foldl after (harbor_init harbor_create (lit "2 33554440")).2 example_back.
Definition example_d : harbor := after example_harbor (IHarbor (lit "A 5 2") 8).
Lemma example_back_run : harbor_run (λ _ _, false) (harbor_init harbor_create (lit "2 33554440")).2 example_back example_c.
Proof.
  apply (run_after _ [_; _] _ (IRemote 10 7 0x02000003 no_name 0x01000004 101 [67])); [apply (run_after _ [_] _ (ISocket SKYNET_SOCKET_TYPE_DATA 9 1 200 [1]));
    [apply (run_after _ [] _ (IHarbor (lit "S 9 1") 8)); [apply run_start|..]|..]|..];
    try (split; [vm_compute; reflexivity|done]); try (eexists; vm_compute; reflexivity).
Qed.

Lemma harbor_link_delivers_witness :
  (∃ hb', receive_chunks (λ _ _, true) example_b 9 [(200, [1; 0]); (201, [0; 0; 14; 65; 66; 1; 0; 0; 3; 10; 0; 0; 7; 255; 255; 255]);
      (202, [251; 0; 0; 0; 12; 1; 0; 0; 3; 0; 0; 0; 9; 0; 0; 0; 6])] = Ok hb' ∧
    delivered (h_out hb') = [HSend 0x01000003 0x02000007 (10 + 0x10000) (-5) MReceived [65; 66]; HSend 0x01000003 0x02000009 0x10000 6 MReceived []]) ∧
  ∃ hb', receive_chunks (λ _ _, true) example_d 5 [(200, [0; 0; 0]); (201, [13; 67; 2; 0; 0; 3; 10; 0; 0; 4; 0; 0; 0; 7])] = Ok hb' ∧
    delivered (h_out hb') = [HSend 0x02000003 0x01000004 (10 + 0x10000) 7 MReceived [67]].
Proof.
  split.
  - apply (harbor_link_delivers (λ _ _, false) (λ _ _, true) (lit "1 16777224") example_harbor example_inputs example_a 2
      (mk_slave 5 None STATUS_HEADER 0 0 [0; 0; 0; 0] None) example_b (mk_slave 9 None STATUS_HANDSHAKE 0 0 [0; 0; 0; 0] None) 9).
    + vm_compute. reflexivity.
    + apply example_link_run.
    + repeat constructor; discriminate.
    + vm_compute. repeat constructor. by intros ?%not_elem_of_nil.
    + vm_compute. reflexivity.
    + done.
    + vm_compute. discriminate.
    + by left.
    + vm_compute. repeat constructor; vm_compute; congruence.
    + vm_compute. reflexivity.
    + vm_compute. split; [reflexivity|reflexivity].
    + vm_compute. reflexivity.
    + repeat constructor; discriminate.
    + apply reads_handshake; [split; done|vm_compute; reflexivity].
  - apply (harbor_link_delivers (λ _ _, false) (λ _ _, true) (lit "2 33554440") (harbor_init harbor_create (lit "2 33554440")).2 example_back example_c 1
      (mk_slave 9 None STATUS_HEADER 0 0 [0; 0; 0; 0] None) example_d (mk_slave 5 None STATUS_HEADER 0 0 [0; 0; 0; 0] None) 5).
    + vm_compute. reflexivity.
    + apply example_back_run.
    + repeat constructor; discriminate.
    + vm_compute. repeat constructor. by intros ?%not_elem_of_nil.
    + vm_compute. reflexivity.
    + done.
    + vm_compute. discriminate.
    + by left.
    + vm_compute. repeat constructor; vm_compute; congruence.
    + vm_compute. reflexivity.
    + vm_compute. split; [reflexivity|reflexivity].
    + vm_compute. reflexivity.
    + repeat constructor; discriminate.
    + apply reads_accepted; [|vm_compute; reflexivity]. apply at_header; done.
Defined.
