(* ===== verification/HarborNames.v ===== *)
(** * Messages for global names

    A message for a name that is not known waits, and the slave is asked for the name.
    When the name is announced the messages are sent on: written to the node's socket
    when it is connected, sent to the service when the node is this one. When the node
    is not connected yet they are moved to its queue, but without the handle. *)
From Stdlib Require Import String.
From stdpp Require Import base numbers list list_numbers.
From S2P Require Import Prelude CString Format Handle Server Netpack Command HashId Gate Harbor HarborProps HarborLink.

(** What the table says of a name: its handle, 0 when it is not known, and the messages
    that wait for it. *)
Definition named (h : harbor) (name : list Z) : option (Z * list harbor_msg) :=
  match hash_search (h_map h) name with
  | Ok (Some node) => Some (kv_value node, q_list (kv_queue node))
  | _ => None
  end.
Definition unknown (h : harbor) (name : list Z) (waiting : list harbor_msg) : Prop :=
  named h name = Some (0, waiting) ∨ (named h name = None ∧ waiting = []).
(** A message to send: type, session, source, block and data. *)
Record note : Type := mk_note { n_type : Z; n_session : Z; n_source : Z; n_buffer : Z; n_data : list Z }.
Definition queued_note (n : note) : harbor_msg :=
  mk_hmsg (mk_rmh (n_source n) (u32 (Z.shiftl (n_type n) HANDLE_REMOTE_SHIFT)) (u32 (n_session n))) (n_buffer n) (n_data n).
Definition note_input (name : list Z) (n : note) : harbor_input := IRemote (n_type n) (n_session n) (n_source n) name 0 (n_buffer n) (n_data n).
Definition note_wmsg (handle : Z) (n : note) : wmsg := mk_wmsg (n_source n) (n_type n) handle (n_session n) (n_data n).

Section Service.
Context (send_fails : list harbor_action → harbor_action → bool).

Fixpoint send_notes (h : harbor) (name : list Z) (l : list note) : result harbor :=
  match l with
  | [] => Ok h
  | n :: l => h ← mainloop send_fails h (note_input name n); send_notes h name l
  end.

Lemma bucket_range name : 0 ≤ name_hash name `mod` HASH_SIZE < HASH_SIZE.
Proof. by apply Z.mod_pos_bound. Qed.
Lemma find_or_insert_Ok h name waiting :
  zlen (h_map h) = HASH_SIZE → unknown h name waiting →
  ∃ node map, find_or_insert (h_map h) name = Ok (node, map) ∧ zlen map = HASH_SIZE ∧ kv_value node = 0 ∧ q_list (kv_queue node) = waiting.
Proof.
  intros Hm Hu. unfold find_or_insert, unknown, named in *. pose proof (bucket_range name) as Hr.
  destruct (rd_Ok (h_map h) (name_hash name `mod` HASH_SIZE)) as [l Hl]; [lia|]. unfold hash_search in *. rewrite Hl, bind_Ok in *.
  destruct (search_chain l name) as [node|]; rewrite bind_Ok.
  - destruct Hu as [[= Hv Hq]|[? _]]; [|done]. by exists node, (h_map h).
  - destruct Hu as [?|[_ ->]]; [done|]. unfold hash_insert. cbv zeta. rewrite Hl, bind_Ok, wr_Ok, bind_Ok by lia.
    eexists _, _. split; [done|]. by rewrite zlen_insert.
Qed.
Lemma set_node_Ok map name node : zlen map = HASH_SIZE → ∃ map', set_node map name node = Ok map' ∧ zlen map' = HASH_SIZE.
Proof.
  intros Hm. unfold set_node. pose proof (bucket_range name). destruct (rd_Ok map (name_hash name `mod` HASH_SIZE)) as [l ->]; [lia|].
  rewrite bind_Ok, wr_Ok by lia. eexists. split; [done|]. by rewrite zlen_insert.
Qed.

Lemma send_note h name n waiting :
  harbor_ok h → zlen (h_map h) = HASH_SIZE → length name = GLOBALNAME_LENGTH → zlen waiting < 2 ^ 29 → unknown h name waiting →
  ∃ map, mainloop send_fails h (note_input name n) =
      Ok (h_emit (set_map h map) (HSend 0 (h_slave h) PTYPE_TEXT 0 MText (lit "Q " ++ until_nul (take GLOBALNAME_LENGTH name)))) ∧
    zlen map = HASH_SIZE ∧ Forall (Forall (λ n, q_ok (kv_queue n))) map ∧ named (set_map h map) name = Some (0, waiting ++ [queued_note n]).
Proof.
  intros O Hm Hl Hw Hu. destruct (find_or_insert_Ok h name waiting Hm Hu) as (node & map & Ef & Hm1 & Hv & Hq).
  destruct (find_or_insert_spec _ _ _ _ Ef Hl (ho_kq _ O)) as (Hs & Q & Hok & _ & Hn). unfold note_input. cbn [mainloop].
  rewrite decide_True by done. unfold remote_send_name. rewrite Ef, bind_Ok. cbv zeta. rewrite decide_True by done. unfold push_hqueue.
  destruct (push_default (kv_queue node) (queued_note n) Q) as (q & Ep & Qq & Eq); [by rewrite Hq|].
  fold (queued_note n). rewrite Ep, bind_Ok. destruct (set_node_Ok map name (set_kqueue node (Some q)) Hm1) as (map2 & Es & Hm2).
  rewrite Es, !bind_Ok. cbn [fst snd]. rewrite decide_True by done. exists map2. split; [done|].
  destruct (set_node_spec _ _ _ _ _ Hs (eq_trans (is_node_same name (set_kqueue node (Some q)) node eq_refl eq_refl) Hn) Es Hok Qq) as (Hs2 & Hok2 & _).
  split; [done|]. split; [done|]. unfold named. cbn [h_map set_map]. rewrite Hs2. cbn [kv_value kv_queue set_kqueue]. by rewrite Hv, Eq, Hq.
Qed.
Lemma send_notes_wait l h name waiting :
  harbor_ok h → zlen (h_map h) = HASH_SIZE → length name = GLOBALNAME_LENGTH → zlen waiting + zlen l < 2 ^ 29 → unknown h name waiting →
  ∃ map k, send_notes h name l = Ok (h_emits (set_map h map) k) ∧ no_writes k = true ∧ delivered k = [] ∧ released k = [] ∧
    zlen map = HASH_SIZE ∧ Forall (Forall (λ n, q_ok (kv_queue n))) map ∧ unknown (set_map h map) name (waiting ++ (queued_note <$> l)).
Proof.
  revert h waiting. induction l as [|n l IH]; intros h waiting O Hm Hl Hw Hu.
  { exists (h_map h), []. cbn. rewrite h_emits_nil, app_nil_r. split; [by destruct h|]. do 3 (split; [done|]). split; [done|]. split; [apply O|by destruct h]. }
  rewrite zlen_cons in Hw. pose proof (zlen_nonneg l). destruct (send_note h name n waiting O Hm Hl ltac:(lia) Hu) as (map & E & Hm1 & Hok & Hn).
  cbn [send_notes]. rewrite E, bind_Ok, emits_one. set (a := HSend _ _ _ _ _ _).
  destruct (IH (h_emits (set_map h map) [a]) (waiting ++ [queued_note n])) as (map2 & k & -> & Hk1 & Hk2 & Hk3 & Hm2 & Hok2 & Hu2).
  - by apply harbor_ok_emits, map_ok.
  - done.
  - done.
  - rewrite zlen_app. change (zlen [queued_note n]) with 1. lia.
  - by left.
  - exists map2, (a :: k). split; [unfold h_emits, set_map; cbn; by rewrite <- app_assoc|]. do 3 (split; [done|]). split; [done|]. split; [done|].
    rewrite <- app_assoc in Hu2. exact Hu2.
Qed.

(** The sends that hand a block on to a service. *)
Definition is_handed (a : harbor_action) : bool := match a with HSend _ _ _ _ (MGiven _) _ => true | _ => false end.
Definition handed (l : list harbor_action) : list harbor_action := filter (λ a, is_handed a = true) l.
Lemma handed_app l k : handed (l ++ k) = handed l ++ handed k.
Proof. apply filter_app. Qed.
Lemma handed_released l : released l = [] → handed l = [].
Proof.
  induction l as [|a l IH]; [done|]. change (released (a :: l)) with (released_by a ++ released l). intros [Ha Hl]%app_nil. unfold handed.
  rewrite filter_cons, decide_False; [by apply IH|]. destruct a as [? ? ? ? [] ?| | | | |]; done.
Qed.
Lemma notes_bytes fd bits notes :
  0 ≤ bits < 2 ^ 24 → Forall (λ n, wmsg_ok (note_wmsg bits n)) notes →
  bytes_to fd (concat (send_msg_acts fd bits <$> (queued_note <$> notes))) = concat (frame <$> (note_wmsg bits <$> notes)).
Proof.
  intros Hb. induction 1 as [|n notes Hn _ IH]; [done|]. cbn [fmap list_fmap concat]. rewrite bytes_to_app, IH. f_equal.
  unfold send_msg_acts, bytes_to, wire_action. pose proof (wo_size _ Hn) as Hsz. cbn [w_data note_wmsg hm_data queued_note] in *. unfold UINT32_MAX. rewrite decide_False by lia.
  cbn [fmap list_fmap concat write_to]. rewrite decide_True, !app_nil_r by done. done.
Qed.
Lemma local_note v n : wmsg_ok (note_wmsg 0 n) →
  local_act v (queued_note n) = HSend (n_source n) v (Z.lor (n_type n) PTYPE_TAG_DONTCOPY) (n_session n) (MGiven (n_buffer n)) (n_data n).
Proof.
  intros [_ Ht _ Hs _]. unfold local_act. cbn [queued_note hm_header hm_buffer hm_data rh_source rh_destination rh_session note_wmsg w_type w_session] in *.
  destruct (destination_parts (n_type n) 0 Ht ltac:(lia)) as (_ & E & _). rewrite Z.lor_0_r in E. by rewrite E, s32_u32.
Qed.
Lemma handed_local v l : handed (concat ((λ m, [local_act v m]) <$> l)) = local_act v <$> l.
Proof. induction l as [|m l IH]; [done|]. cbn [fmap list_fmap concat]. rewrite handed_app, IH. done. Qed.

(** What dispatching the queue of a name does. *)
Lemma dispatch_name_spec h node q s :
  kv_queue node = Some q → q_ok (Some q) → let b := Z.shiftr (kv_value node) HANDLE_REMOTE_SHIFT in 0 ≤ b →
  h_s h !! Z.to_nat b = Some s → q_ok (sl_queue s) → zlen (q_list (sl_queue s)) + zlen (hq_list q) < 2 ^ 29 →
  (sl_fd s = 0 → sl_status s ≠ STATUS_DOWN) →
  ∃ h' node', dispatch_name_queue h node = Ok (h', node') ∧ h_map h' = h_map h ∧ h_id h' = h_id h ∧ kv_key node' = kv_key node ∧ kv_hash node' = kv_hash node ∧
    kv_value node' = kv_value node ∧ q_ok (kv_queue node') ∧ q_list (kv_queue node') = [] ∧
    if decide (sl_fd s = 0) then
      if decide (b = Z.shiftr (h_slave h) HANDLE_REMOTE_SHIFT) then
        h_out h' = h_out h ++ concat ((λ m, [local_act (kv_value node) m]) <$> q_list (sl_queue s) ++ hq_list q)
      else h_out h' = h_out h ∧ ∃ s', h_s h' !! Z.to_nat b = Some s' ∧ q_list (sl_queue s') = q_list (sl_queue s) ++ hq_list q
    else h_out h' = h_out h ++ concat (send_msg_acts (sl_fd s) (Z.land (kv_value node) HANDLE_MASK) <$> hq_list q).
Proof.
  intros Eq Q b Hb Hs Qs Hsz Hnd. unfold dispatch_name_queue. rewrite Eq. cbn [of_option]. rewrite bind_Ok. cbv zeta. fold b.
  rewrite (rd_lookup _ _ s), bind_Ok by done. destruct (decide (sl_fd s = 0)) as [Hz|Hz]; cycle 1.
  { destruct (drain_ok (send_msg (sl_fd s) (Z.land (kv_value node) HANDLE_MASK)) (send_msg_acts (sl_fd s) (Z.land (kv_value node) HANDLE_MASK)) q h Q)
      as (q' & -> & Q' & Hq'); [intros; apply send_msg_eq|]. rewrite bind_Ok. eexists _, _. split; [done|]. do 7 (split; [done|]). done. }
  rewrite decide_False by auto.
  assert (∃ sq rest, match sl_queue s with None => Ok (q, None) | Some sq => r ← drain_queue move_msg q sq; Ok (r.2, Some r.1) end = Ok (sq, rest) ∧
    q_ok (Some sq) ∧ q_ok rest ∧ hq_list sq = q_list (sl_queue s) ++ hq_list q ∧ q_list rest = []) as (sq & rest & -> & Qsq & Qr & Esq & Er).
  { destruct (sl_queue s) as [sq0|]; [|by exists q, None]. destruct (drain_move q sq0 Q Qs) as (q' & sq' & -> & Q' & Hq' & Qsq & Hsq); [exact Hsz|].
    rewrite bind_Ok. by exists sq', (Some q'). }
  rewrite bind_Ok. destruct (decide (b = _)).
  - destruct (drain_ok (send_local_msg (kv_value node)) (λ m, [local_act (kv_value node) m]) sq h Qsq) as (q' & -> & Q' & Hq'); [done|].
    rewrite bind_Ok. cbn [fst snd]. rewrite release_ok_queue, bind_Ok by done. cbn [q_list]. rewrite Hq'. cbn [fmap list_fmap]. rewrite h_emits_nil.
    rewrite (put_stepped h b _ s), bind_Ok by done. eexists _, _. split; [done|]. cbn [stepped set_slaves h_emits h_map h_id h_out kv_key kv_hash kv_value kv_queue set_kqueue].
    rewrite Esq. do 7 (split; [done|]). done.
  - rewrite (put_slave_stepped h b s), bind_Ok by done. eexists _, _. split; [done|].
    cbn [stepped set_slaves h_emits h_map h_id h_out h_s kv_key kv_hash kv_value kv_queue set_kqueue]. do 7 (split; [done|]). split; [by rewrite app_nil_r|].
    eexists. split; [apply list_lookup_insert_eq; by eapply lookup_lt_Some|]. done.
Qed.

(** C11: messages for a name follow the name. Messages sent to a name that is not known
    wait; when the name is announced with a handle, those for a connected node are
    written to its socket with that handle, in order, and those for this node are sent to
    the service, in order. When the node is not connected yet they are moved to its
    queue with destination handle 0 instead of the one announced: they reach no
    service. *)
Theorem named_messages_follow_the_name h name v notes s :
  harbor_ok h → zlen (h_map h) = HASH_SIZE → length name = GLOBALNAME_LENGTH → unknown h name [] → notes ≠ [] → 0 ≤ v →
  let b := Z.shiftr v HANDLE_REMOTE_SHIFT in
  h_s h !! Z.to_nat b = Some s → (sl_fd s = 0 → sl_status s ≠ STATUS_DOWN) → zlen (q_list (sl_queue s)) + zlen notes < 2 ^ 29 →
  Forall (λ n, wmsg_ok (note_wmsg 0 n)) notes →
  ∃ h1 h2, send_notes h name notes = Ok h1 ∧ update_name h1 name v = Ok h2 ∧ named h2 name = Some (v, []) ∧
    if decide (sl_fd s = 0) then
      if decide (b = Z.shiftr (h_slave h) HANDLE_REMOTE_SHIFT) then
        handed (h_out h2) = handed (h_out h) ++ (local_act v <$> q_list (sl_queue s)) ++
          ((λ n, HSend (n_source n) v (Z.lor (n_type n) PTYPE_TAG_DONTCOPY) (n_session n) (MGiven (n_buffer n)) (n_data n)) <$> notes)
      else
        ∃ s2 moved, h_s h2 !! Z.to_nat b = Some s2 ∧ q_list (sl_queue s2) = q_list (sl_queue s) ++ moved ∧
          ((λ x, (hm_header x, hm_data x)) <$> moved) = ((λ m, (w_header m, w_data m)) <$> (note_wmsg 0 <$> notes))
    else
      bytes_to (sl_fd s) (h_out h2) = bytes_to (sl_fd s) (h_out h) ++ concat (frame <$> (note_wmsg (Z.land v HANDLE_MASK) <$> notes)).
Proof.
  intros O Hm Hl Hu Hne Hv b Hs Hnd Hsz Hok. pose proof (zlen_nonneg (q_list (sl_queue s))).
  destruct (send_notes_wait notes h name [] O Hm Hl) as (map & k & -> & Hk1 & _ & Hk3 & Hm1 & Hkq & Hw); [change (zlen []) with 0; lia|done|]. cbn [app] in Hw.
  assert (∃ node, hash_search map name = Ok (Some node) ∧ kv_value node = 0 ∧ q_list (kv_queue node) = queued_note <$> notes) as (node & Hsearch & Hv0 & Hq).
  { destruct Hw as [Hw|[_ Hw]]; [|by destruct notes]. unfold named in Hw. cbn [h_map set_map] in Hw. destruct (hash_search map name) as [[node|]|]; try done. injection Hw as ? ?. by exists node. }
  set (h1 := h_emits (set_map h map) k). assert (harbor_ok h1) as O1 by (by apply harbor_ok_emits, map_ok).
  assert (find_or_insert (h_map h1) name = Ok (node, map)) as Ef by (unfold find_or_insert; cbn [h1 h_map h_emits set_map]; by rewrite Hsearch, bind_Ok).
  destruct (find_or_insert_spec _ _ _ _ Ef Hl (ho_kq _ O1)) as (_ & Qn & _ & _ & Hn).
  destruct (kv_queue node) as [q|] eqn:Eq; [|destruct notes; by cbn in Hq].
  destruct (slave_of h b s O) as (Hb & _ & Qs). { apply rd_lookup; [|done]. unfold b, HANDLE_REMOTE_SHIFT. rewrite Z.shiftr_div_pow2 by lia. apply Z.div_pos; lia. }
  destruct (dispatch_name_spec (set_map h1 map) (set_kvalue node v) q s) as (h2 & node2 & Ed & Emap & Eid & Ek & Eh & Ev & Q2 & Eq2 & Hcase);
    [done|done|exact Hb|exact Hs|done| |done|].
  { cbn in Hq. rewrite Hq. unfold zlen in *. rewrite length_fmap. lia. }
  destruct (set_node_Ok map name (set_kqueue node2 None) Hm1) as (map2 & Es & Hm2).
  assert (is_node name (set_kqueue node2 None) = true) as Hn2 by (rewrite <- Hn; apply is_node_same; [exact Ek|exact Eh]).
  destruct (set_node_spec _ _ _ _ _ Hsearch Hn2 Es Hkq I) as (Hs2 & _ & _).
  eexists h1, (set_map h2 map2). split; [done|]. split; [|split].
  - unfold update_name. rewrite Ef, bind_Ok. cbv zeta. cbn [kv_queue set_kvalue]. rewrite Eq. cbn [kv_queue set_kvalue] in Ed. rewrite Ed, bind_Ok. cbn [fst snd].
    rewrite release_ok_queue, bind_Ok, Eq2 by done. cbn [fmap list_fmap]. rewrite h_emits_nil, Es, bind_Ok. done.
  - unfold named. cbn [h_map set_map]. rewrite Hs2. cbn [kv_value kv_queue set_kqueue q_list]. by rewrite Ev.
  - cbn [q_list] in Hq. cbn [kv_value set_kvalue set_map h1 h_emits h_out h_slave] in Hcase. fold b in Hcase. rewrite Hq in Hcase. cbn [set_map h_out h_s].
    destruct (decide (sl_fd s = 0)); [destruct (decide (b = _))|].
    + rewrite Hcase, !handed_app, (handed_released k Hk3), app_nil_r, handed_local, fmap_app. f_equal. f_equal.
      rewrite <- list_fmap_compose. apply list_fmap_ext. intros i x Hi. apply local_note. by apply (Forall_lookup_1 _ _ _ _ Hok Hi).
    + destruct Hcase as (_ & s2 & Hs2' & Eq2'). exists s2, (queued_note <$> notes). split; [done|]. split; [done|].
      rewrite <- !list_fmap_compose. apply list_fmap_ext. intros i x Hi. unfold compose, w_header. cbn [queued_note note_wmsg hm_header hm_data w_source w_type w_handle w_session w_data].
      by rewrite Z.lor_0_r.
    + rewrite Hcase, !bytes_to_app, (no_writes_bytes _ k Hk1), app_nil_r. f_equal.
      assert (0 ≤ Z.land v HANDLE_MASK < 2 ^ 24) as Hbits by (change HANDLE_MASK with (2 ^ 24 - 1); rewrite land_ones_mod by lia; by apply Z.mod_pos_bound).
      apply notes_bytes; [done|]. eapply Forall_impl; [exact Hok|]. intros x [H1 H2 _ H4 H5]. by split.
Qed.
End Service.

(** Two messages for LOGIN, which is announced on node 2; the node is connected, or not. *)
Definition example_notes : list note := [mk_note 10 (-5) 0x01000003 100 [65; 66]; mk_note 0 6 0x01000003 101 []].
Definition connected_harbor : harbor := after example_harbor (IHarbor (lit "A 5 2") 8).
Lemma example_harbor_ok : harbor_ok example_harbor.
Proof. apply (init_blocks (lit "1 16777224")). reflexivity. Qed.
Lemma connected_harbor_ok : harbor_ok connected_harbor.
Proof.
  apply (kb_ok example_harbor []), (run_keeps (λ _ _, false) _ [IHarbor (lit "A 5 2") 8] _ example_harbor_ok).
  apply (run_after _ []); [apply run_start|split; [vm_compute; reflexivity|exact I]|eexists; vm_compute; reflexivity].
Qed.
Lemma named_messages_follow_the_name_witness :
  (∃ h1 h2, send_notes (λ _ _, false) connected_harbor example_name example_notes = Ok h1 ∧ update_name h1 example_name 0x02000007 = Ok h2 ∧
     named h2 example_name = Some (0x02000007, []) ∧
     bytes_to 5 (h_out h2) = [1; 0; 0; 0; 14; 65; 66; 1; 0; 0; 3; 10; 0; 0; 7; 255; 255; 255; 251; 0; 0; 0; 12; 1; 0; 0; 3; 0; 0; 0; 7; 0; 0; 0; 6]) ∧
  ∃ h1 h2 s2 moved, send_notes (λ _ _, false) example_harbor example_name example_notes = Ok h1 ∧ update_name h1 example_name 0x02000007 = Ok h2 ∧
     h_s h2 !! 2%nat = Some s2 ∧ q_list (sl_queue s2) = moved ∧
     ((λ x, rh_destination (hm_header x)) <$> moved) = [0x0a000000; 0].
Proof.
  assert (Forall (λ n, wmsg_ok (note_wmsg 0 n)) example_notes) as Hok by (repeat constructor; vm_compute; congruence).
  split.
  - destruct (named_messages_follow_the_name (λ _ _, false) connected_harbor example_name 0x02000007 example_notes
      (mk_slave 5 None STATUS_HEADER 0 0 [0; 0; 0; 0] None)) as (h1 & h2 & E1 & E2 & E3 & E4).
    + exact connected_harbor_ok.
    + vm_compute. reflexivity.
    + reflexivity.
    + right. split; vm_compute; reflexivity.
    + discriminate.
    + lia.
    + vm_compute. reflexivity.
    + discriminate.
    + vm_compute. reflexivity.
    + exact Hok.
    + exists h1, h2. split; [exact E1|]. split; [exact E2|]. split; [exact E3|]. cbn [sl_fd] in E4. rewrite decide_False in E4 by done. rewrite E4. vm_compute. reflexivity.
  - destruct (named_messages_follow_the_name (λ _ _, false) example_harbor example_name 0x02000007 example_notes no_slave) as (h1 & h2 & E1 & E2 & E3 & E4).
    + exact example_harbor_ok.
    + vm_compute. reflexivity.
    + reflexivity.
    + right. split; vm_compute; reflexivity.
    + discriminate.
    + lia.
    + vm_compute. reflexivity.
    + discriminate.
    + vm_compute. reflexivity.
    + exact Hok.
    + cbn [sl_fd no_slave] in E4. rewrite decide_True, decide_False in E4 by (reflexivity || discriminate). destruct E4 as (s2 & moved & Hs2 & Hq & Hmv).
      exists h1, h2, s2, moved. split; [exact E1|]. split; [exact E2|]. split; [exact Hs2|]. split; [exact Hq|].
      apply (f_equal (fmap (λ p : remote_message_header * list Z, rh_destination p.1))) in Hmv. rewrite <- !list_fmap_compose in Hmv. exact Hmv.
Defined.
