(* ===== verification/SprotoSchema.v ===== *)
(** * Protocol descriptions: lualib-src/sproto/sproto.c

    A sproto object holds message types and protocols, read from a binary bundle that
    is itself in the encoding of messages. The bundle [m] is a list of bytes and a
    pointer into it an offset, so that a read outside the bundle is visible. Memory
    comes from the pool of the object, whose blocks have addresses; [malloc] is taken
    to succeed. The theorem: an object that was created is well formed. *)
From stdpp Require Import base numbers list.
From S2P Require Import Prelude CString SprotoPack.

Definition SPROTO_REQUEST : Z := 0.
Definition SPROTO_RESPONSE : Z := 1.
Definition SPROTO_TINTEGER : Z := 0.
Definition SPROTO_TBOOLEAN : Z := 1.
Definition SPROTO_TSTRING : Z := 2.
Definition SPROTO_TSTRUCT : Z := 3.
Definition SPROTO_TARRAY : Z := 0x80.
Definition CHUNK_SIZE : Z := 1000.
Definition SIZEOF_LENGTH : Z := 4.
Definition SIZEOF_HEADER : Z := 2.
Definition SIZEOF_FIELD : Z := 2.

(** ** The memory pool

    The sizes of the chunks, newest first; a chunk is named by the number of chunks
    older than it. An address is a chunk and an offset behind its header. *)
Record pool : Type := mk_pool { p_chunks : list Z; p_current : option nat; p_current_used : Z }.
Definition address : Type := nat * Z.

Definition pool_init : pool := mk_pool [] None 0.
(** The chunks in the order they are freed. *)
Definition pool_release (p : pool) : list nat := reverse (seq 0 (length (p_chunks p))).
Definition pool_newchunk (p : pool) (sz : Z) : address * pool :=
  ((length (p_chunks p), 0), mk_pool (sz :: p_chunks p) (p_current p) (p_current_used p)).
Definition pool_alloc (p : pool) (size : Z) : address * pool :=
  let sz := Z.land (size + 7) (Z.lnot 7) in
  if decide (CHUNK_SIZE ≤ sz) then pool_newchunk p sz
  else
    let '(c, p) := match p_current p with
                   | Some c => (c, p)
                   | None => let q := (pool_newchunk p CHUNK_SIZE).2 in
                             (length (p_chunks p), mk_pool (p_chunks q) (Some (length (p_chunks p))) (p_current_used q))
                   end in
    if decide (sz + p_current_used p ≤ CHUNK_SIZE) then
      ((c, p_current_used p), mk_pool (p_chunks p) (p_current p) (p_current_used p + sz))
    else if decide (p_current_used p ≤ sz) then pool_newchunk p sz
    else
      let '(ret, q) := pool_newchunk p CHUNK_SIZE in
      (ret, mk_pool (p_chunks q) (Some ret.1) sz).

(** ** Types and protocols

    A name is a string in the pool; a type is named by its index in the array of types. *)
Record pname : Type := mk_name { n_addr : address; n_text : list Z }.
Record field : Type := mk_field {
  f_tag : Z;
  f_type : Z;
  f_name : option pname;
  f_st : option Z;
  f_key : Z }.
Record sproto_type : Type := mk_stype {
  t_name : option pname;
  t_n : Z;
  t_base : Z;
  t_maxn : Z;
  t_f : list field }.
Record protocol : Type := mk_protocol {
  pr_name : option pname;
  pr_tag : Z;
  pr_request : option Z;
  pr_response : option Z }.
Record sproto : Type := mk_sproto {
  sp_memory : pool;
  sp_type_n : Z;
  sp_protocol_n : Z;
  sp_type : list sproto_type;
  sp_proto : list protocol }.

Definition SIZEOF_STRUCT_FIELD : Z := 32.
Definition SIZEOF_STRUCT_TYPE : Z := 32.
Definition SIZEOF_STRUCT_PROTOCOL : Z := 32.
Definition SIZEOF_STRUCT_SPROTO : Z := 48.

(** ** Import of a bundle *)

Definition toword (m : list Z) (p : Z) : result Z :=
  a ← rd m p; b ← rd m (p + 1);
  Ok (Z.lor a (Z.shiftl b 8)).
Definition todword (m : list Z) (p : Z) : result Z :=
  a ← rd m p; b ← rd m (p + 1); c ← rd m (p + 2); d ← rd m (p + 3);
  Ok (Z.lor (Z.lor (Z.lor a (Z.shiftl b 8)) (Z.shiftl c 16)) (u32 (Z.shiftl d 24))).

Section Imports.
Context (m : list Z).

(** The loop consumes at least a byte of the array in every turn, unless the size of an
    element wraps to 0, when it does not end. *)
Fixpoint count_loop (fuel : nat) (stream length n : Z) : result Z :=
  if decide (0 < length) then
    match fuel with
    | O => Err OutOfFuel
    | S fuel =>
        if decide (length < SIZEOF_LENGTH) then Ok (-1)
        else
          nsz ← todword m stream;
          let nsz := u32 (nsz + SIZEOF_LENGTH) in
          if decide (length < nsz) then Ok (-1)
          else n ← c_int (n + 1); count_loop fuel (stream + nsz) (length - nsz) n
    end
  else Ok n.
Definition count_array (stream : Z) : result Z :=
  length ← todword m stream;
  count_loop (Z.to_nat length) (stream + SIZEOF_LENGTH) length 0.

Fixpoint struct_field_loop (n : nat) (i field stream sz : Z) : result bool :=
  match n with
  | O => Ok true
  | S n =>
      value ← toword m (field + i * SIZEOF_FIELD);
      if decide (value ≠ 0) then struct_field_loop n (i + 1) field stream sz
      else if decide (sz < SIZEOF_LENGTH) then Ok false
      else
        dsz ← todword m stream;
        let step := u32 (SIZEOF_LENGTH + dsz) in
        if decide (sz < step) then Ok false
        else struct_field_loop n (i + 1) field (stream + step) (sz - step)
  end.
Definition struct_field (stream sz : Z) : result Z :=
  if decide (sz < SIZEOF_LENGTH) then Ok (-1)
  else
    fn ← toword m stream;
    let header := SIZEOF_HEADER + SIZEOF_FIELD * fn in
    if decide (sz < header) then Ok (-1)
    else
      b ← struct_field_loop (Z.to_nat fn) 0 (stream + SIZEOF_HEADER) (stream + header) (sz - header);
      Ok (if (b : bool) then fn else -1).

Definition import_string (p : pool) (stream : Z) : result (pname * pool) :=
  sz ← todword m stream;
  let '(buffer, p) := pool_alloc p (u32 (sz + 1)) in
  text ← read_at m (stream + SIZEOF_LENGTH) sz;
  Ok (mk_name buffer text, p).

(** The loop over the words of a field's description; [None] is a NULL of the function. *)
Fixpoint import_field_loop (n : nat) (type_n i stream fn tag array : Z) (p : pool) (f : field) :
    result (option (pool * field * Z)) :=
  match n with
  | O => Ok (Some (p, f, array))
  | S n =>
      let tag := tag + 1 in
      value ← toword m (stream + SIZEOF_FIELD * i);
      let next := import_field_loop n type_n (i + 1) stream fn in
      if decide (Z.land value 1 ≠ 0) then next (tag + value / 2) array p f
      else if decide (tag = 0) then
        if decide (value ≠ 0) then Ok None
        else
          r ← import_string p (stream + fn * SIZEOF_FIELD);
          next tag array r.2 (mk_field (f_tag f) (f_type f) (Some r.1) (f_st f) (f_key f))
      else if decide (value = 0) then Ok None
      else
        let value := value / 2 - 1 in
        if decide (tag = 1) then
          if decide (SPROTO_TSTRUCT ≤ value) then Ok None
          else next tag array p (mk_field (f_tag f) value (f_name f) (f_st f) (f_key f))
        else if decide (tag = 2) then
          if decide (type_n ≤ value) then Ok None
          else if decide (0 ≤ f_type f) then Ok None
          else next tag array p (mk_field (f_tag f) SPROTO_TSTRUCT (f_name f) (Some value) (f_key f))
        else if decide (tag = 3) then next tag array p (mk_field value (f_type f) (f_name f) (f_st f) (f_key f))
        else if decide (tag = 4) then next tag (if decide (value ≠ 0) then SPROTO_TARRAY else array) p f
        else if decide (tag = 5) then next tag array p (mk_field (f_tag f) (f_type f) (f_name f) (f_st f) value)
        else Ok None
  end.
Definition no_field : field := mk_field (-1) (-1) None None (-1).
(** The field, and the pointer behind its description. *)
Definition import_field (type_n : Z) (p : pool) (stream : Z) : result (option (pool * field * Z)) :=
  sz ← todword m stream;
  let stream := stream + SIZEOF_LENGTH in
  fn ← struct_field stream sz;
  if decide (fn < 0) then Ok None
  else
    r ← import_field_loop (Z.to_nat fn) type_n 0 (stream + SIZEOF_HEADER) fn (-1) 0 p no_field;
    match r with
    | None => Ok None
    | Some (p, f, array) =>
        if decide (f_tag f < 0 ∨ f_type f < 0 ∨ f_name f = None) then Ok None
        else Ok (Some (p, mk_field (f_tag f) (Z.lor (f_type f) array) (f_name f) (f_st f) (f_key f), stream + sz))
    end.

(** The fields read so far, the last tag, and the words an encoded message may need. *)
Fixpoint import_fields (n : nat) (type_n : Z) (p : pool) (stream last maxn : Z) (acc : list field) :
    result (option (pool * list field * Z)) :=
  match n with
  | O => Ok (Some (p, acc, maxn))
  | S n =>
      r ← import_field type_n p stream;
      match r with
      | None => Ok None
      | Some (p, f, stream) =>
          let tag := f_tag f in
          if decide (tag ≤ last) then Ok None
          else
            let maxn := if decide (last + 1 < tag) then maxn + 1 else maxn in
            import_fields n type_n p stream tag maxn (acc ++ [f])
      end
  end.

Fixpoint all_zero_words (n : nat) (p : Z) : result bool :=
  match n with
  | O => Ok true
  | S n => v ← toword m p; if decide (v ≠ 0) then Ok false else all_zero_words n (p + SIZEOF_FIELD)
  end.

(** A type with an empty array of fields reads [t->f[0]] of no fields. *)
Definition import_type (type_n : Z) (p : pool) (stream : Z) : result (option (pool * sproto_type * Z)) :=
  sz ← todword m stream;
  let stream := stream + SIZEOF_LENGTH in
  let result := stream + sz in
  fn ← struct_field stream sz;
  if decide (fn ≤ 0 ∨ 2 < fn) then Ok None
  else
    b ← all_zero_words (Z.to_nat fn) (stream + SIZEOF_HEADER);
    if negb b then Ok None
    else
      let stream := stream + SIZEOF_HEADER + fn * SIZEOF_FIELD in
      r ← import_string p stream;
      let '(name, p) := r in
      if decide (fn = 1) then Ok (Some (p, mk_stype (Some name) 0 0 0 [], result))
      else
        d ← todword m stream;
        let stream := stream + u32 (d + SIZEOF_LENGTH) in
        n ← count_array stream;
        if decide (n < 0) then Ok None
        else
          let p := (pool_alloc p (SIZEOF_STRUCT_FIELD * n)).2 in
          r ← import_fields (Z.to_nat n) type_n p (stream + SIZEOF_LENGTH) (-1) n [];
          match r with
          | None => Ok None
          | Some (p, fs, maxn) =>
              first ← rd fs 0;
              last ← rd fs (n - 1);
              let base := f_tag first in
              let base := if decide (f_tag last - base + 1 ≠ n) then -1 else base in
              Ok (Some (p, mk_stype (Some name) n base maxn fs, result))
          end.

Definition no_protocol : protocol := mk_protocol None (-1) None None.
Fixpoint import_protocol_loop (n : nat) (type_n i stream fn : Z) (p : pool) (x : protocol) :
    result (option (pool * protocol)) :=
  match n with
  | O => Ok (Some (p, x))
  | S n =>
      value ← toword m (stream + SIZEOF_FIELD * i);
      let next := import_protocol_loop n type_n (i + 1) stream fn in
      if decide (Z.land value 1 ≠ 0) then next p x
      else
        let value := value / 2 - 1 in
        if decide (i = 0) then
          if decide (value ≠ -1) then Ok None
          else
            r ← import_string p (stream + SIZEOF_FIELD * fn);
            next r.2 (mk_protocol (Some r.1) (pr_tag x) (pr_request x) (pr_response x))
        else if decide (i = 1) then
          if decide (value < 0) then Ok None else next p (mk_protocol (pr_name x) value (pr_request x) (pr_response x))
        else if decide (i = 2) then
          if decide (value < 0 ∨ type_n ≤ value) then Ok None
          else next p (mk_protocol (pr_name x) (pr_tag x) (Some value) (pr_response x))
        else if decide (i = 3) then
          if decide (value < 0 ∨ type_n ≤ value) then Ok None
          else next p (mk_protocol (pr_name x) (pr_tag x) (pr_request x) (Some value))
        else Ok None
  end.
Definition import_protocol (type_n : Z) (p : pool) (stream : Z) : result (option (pool * protocol * Z)) :=
  sz ← todword m stream;
  let stream := stream + SIZEOF_LENGTH in
  fn ← struct_field stream sz;
  r ← import_protocol_loop (Z.to_nat fn) type_n 0 (stream + SIZEOF_HEADER) fn p no_protocol;
  match r with
  | None => Ok None
  | Some (p, x) => if decide (pr_name x = None ∨ pr_tag x < 0) then Ok None else Ok (Some (p, x, stream + sz))
  end.

(** [for (i = 0; i < n; i++)] over an array of descriptions, each read where the one
    before it ends. *)
Fixpoint import_all {A} (one : pool → Z → result (option (pool * A * Z))) (n : nat) (p : pool) (data : Z) (acc : list A) :
    result (option (pool * list A)) :=
  match n with
  | O => Ok (Some (p, acc))
  | S n =>
      r ← one p data;
      match r with
      | None => Ok None
      | Some (p, x, data) => import_all one n p data (acc ++ [x])
      end
  end.

(** The arrays of the bundle: of types first, of protocols second. *)
Record bundle : Type := mk_bundle { b_pool : pool; b_type_n : Z; b_typedata : Z; b_protocol_n : Z; b_protocoldata : Z }.
Fixpoint bundle_loop (n : nat) (i stream content : Z) (b : bundle) : result (option bundle) :=
  match n with
  | O => Ok (Some b)
  | S n' =>
      value ← toword m (stream + i * SIZEOF_FIELD);
      if decide (value ≠ 0) then Ok None
      else
        k ← count_array content;
        if decide (k < 0) then Ok None
        else
          let b := if decide (i = 0)
                   then mk_bundle (pool_alloc (b_pool b) (k * SIZEOF_STRUCT_TYPE)).2 k (content + SIZEOF_LENGTH) (b_protocol_n b) (b_protocoldata b)
                   else mk_bundle (pool_alloc (b_pool b) (k * SIZEOF_STRUCT_PROTOCOL)).2 (b_type_n b) (b_typedata b) k (content + SIZEOF_LENGTH) in
          d ← todword m content;
          bundle_loop n' (i + 1) stream (content + u32 (d + SIZEOF_LENGTH)) b
  end.

Definition create_from_bundle (p : pool) : result (option sproto) :=
  fn ← struct_field 0 (zlen m);
  if decide (fn < 0 ∨ 2 < fn) then Ok None
  else
    b ← bundle_loop (Z.to_nat fn) 0 SIZEOF_HEADER (SIZEOF_HEADER + fn * SIZEOF_FIELD) (mk_bundle p 0 0 0 0);
    match b with
    | None => Ok None
    | Some b =>
        r ← import_all (import_type (b_type_n b)) (Z.to_nat (b_type_n b)) (b_pool b) (b_typedata b) [];
        match r with
        | None => Ok None
        | Some (p, types) =>
            r ← import_all (import_protocol (b_type_n b)) (Z.to_nat (b_protocol_n b)) p (b_protocoldata b) [];
            match r with
            | None => Ok None
            | Some (p, protos) => Ok (Some (mk_sproto p (b_type_n b) (b_protocol_n b) types protos))
            end
        end
    end.
Definition sproto_create : result (option sproto) :=
  create_from_bundle (pool_alloc pool_init SIZEOF_STRUCT_SPROTO).2.
End Imports.

(** ** Queries *)

(** [strcmp(a, b) == 0] for the strings that start at the two buffers. *)
Definition same_name (a b : list Z) : bool := bool_decide (until_nul a = until_nul b).
Definition name_text (n : option pname) : result (list Z) := of_option NullDeref (n_text <$> n).

Fixpoint prototag_loop (l : list protocol) (name : list Z) : result Z :=
  match l with
  | [] => Ok (-1)
  | x :: l => t ← name_text (pr_name x); if same_name name t then Ok (pr_tag x) else prototag_loop l name
  end.
Definition sproto_prototag (sp : sproto) (name : list Z) : result Z := prototag_loop (sp_proto sp) name.

(** Binary search; [key] is the tag of an element. *)
Fixpoint search_tag {A} (key : A → Z) (fuel : nat) (l : list A) (begin fin tag : Z) : result (option A) :=
  if decide (begin < fin) then
    match fuel with
    | O => Err OutOfFuel
    | S fuel =>
        let mid := (begin + fin) / 2 in
        x ← rd l mid;
        if decide (key x = tag) then Ok (Some x)
        else if decide (key x < tag) then search_tag key fuel l (mid + 1) fin tag
        else search_tag key fuel l begin mid tag
    end
  else Ok None.
Definition query_proto (sp : sproto) (tag : Z) : result (option protocol) :=
  search_tag pr_tag (Z.to_nat (sp_protocol_n sp)) (sp_proto sp) 0 (sp_protocol_n sp) tag.
Definition sproto_protoquery (sp : sproto) (proto what : Z) : result (option Z) :=
  if decide (what < 0 ∨ 1 < what) then Ok None
  else
    x ← query_proto sp proto;
    match x with
    | None => Ok None
    | Some x => Ok (if decide (what = SPROTO_REQUEST) then pr_request x else pr_response x)
    end.
Definition sproto_protoname (sp : sproto) (proto : Z) : result (option pname) :=
  x ← query_proto sp proto;
  Ok (match x with None => None | Some x => pr_name x end).
Fixpoint type_loop (l : list sproto_type) (i : Z) (type_name : list Z) : result (option Z) :=
  match l with
  | [] => Ok None
  | t :: l => n ← name_text (t_name t); if same_name type_name n then Ok (Some i) else type_loop l (i + 1) type_name
  end.
Definition sproto_type_of (sp : sproto) (type_name : list Z) : result (option Z) := type_loop (sp_type sp) 0 type_name.

Definition findtag (st : sproto_type) (tag : Z) : result (option field) :=
  if decide (0 ≤ t_base st) then
    let tag := tag - t_base st in
    if decide (tag < 0 ∨ t_n st ≤ tag) then Ok None
    else f ← rd (t_f st) tag; Ok (Some f)
  else search_tag f_tag (Z.to_nat (t_n st)) (t_f st) 0 (t_n st) tag.

(** ** Blocks of the pool are distinct *)

Record pool_ok (p : pool) : Prop := {
  po_current : ∀ c, p_current p = Some c → (c < length (p_chunks p))%nat;
  po_used : 0 ≤ p_current_used p }.
(** The addresses given out so far lie below the frontier of the pool. *)
Definition allocated (p : pool) (a : address) : Prop :=
  (a.1 < length (p_chunks p))%nat ∧ (p_current p = Some a.1 → a.2 < p_current_used p).

Lemma pool_init_ok : pool_ok pool_init.
Proof. by split. Qed.

Lemma round8 size : 0 ≤ size → size ≤ Z.land (size + 7) (Z.lnot 7) ∧ 0 ≤ Z.land (size + 7) (Z.lnot 7).
Proof.
  intros H. assert (Z.land (size + 7) (Z.lnot 7) = 8 * ((size + 7) / 8)) as ->.
  { change (Z.lnot 7) with (Z.lnot (Z.ones 3)). rewrite <- Z.ldiff_land, Z.ldiff_ones_r by lia.
    rewrite Z.shiftl_mul_pow2, Z.shiftr_div_pow2 by lia. change (2 ^ 3) with 8. lia. }
  pose proof (Z.div_mod (size + 7) 8). pose proof (Z.mod_pos_bound (size + 7) 8). lia.
Qed.

(** Decide where an address lies from the chunks of the two pools. *)
Ltac frontier :=
  split_and!; [split|..]; unfold allocated, not; cbn; intros; split_and?; intros;
  repeat match goal with
  | H : _ ∧ _ |- _ => destruct H
  | H : Some _ = Some _ |- _ => injection H as H; subst
  | H : Some ?c = Some ?c → _ |- _ => specialize (H eq_refl)
  | H : ∀ c, Some ?x = Some c → _ |- _ => specialize (H _ eq_refl)
  end; cbn in *; try lia; try done.

(** What one allocation does: the pool stays good, nothing given out is given back, and
    a block of at least one byte has a new address. *)
Lemma pool_alloc_fresh p size a q :
  pool_ok p → 0 ≤ size → pool_alloc p size = (a, q) →
  pool_ok q ∧ (∀ x, allocated p x → allocated q x) ∧ (0 < size → ¬ allocated p a) ∧ (0 < size → allocated q a).
Proof.
  destruct p as [chunks [c|] used]; intros [Hc Hu] Hs; pose proof (round8 size Hs) as [Hr Hr0]; unfold pool_alloc; set (sz := Z.land _ _) in *;
    clearbody sz; cbn [p_chunks p_current p_current_used pool_newchunk fst snd] in *; repeat case_decide; intros [= <- <-]; frontier.
Qed.

(** ** Well-formed descriptions *)

Definition byte (x : Z) : Prop := 0 ≤ x < 256.
Global Instance byte_dec x : Decision (byte x).
Proof. unfold byte. apply _. Defined.
Definition is_array (f : field) : bool := bool_decide (Z.land (f_type f) SPROTO_TARRAY ≠ 0).
Definition f_base (f : field) : Z := Z.land (f_type f) (Z.lnot SPROTO_TARRAY).

Record field_wf (type_n : Z) (f : field) : Prop := {
  fw_tag : 0 ≤ f_tag f < 0x7fff;
  fw_type : f_type f ∈ [0; 1; 2; 3; 0x80; 0x81; 0x82; 0x83];
  fw_name : f_name f ≠ None;
  fw_key : -1 ≤ f_key f;
  fw_st : if decide (f_base f = SPROTO_TSTRUCT) then ∃ st, f_st f = Some st ∧ 0 ≤ st < type_n else f_st f = None }.
Fixpoint ascending {A} (key : A → Z) (last : Z) (l : list A) : Prop :=
  match l with [] => True | x :: l => last < key x ∧ ascending key (key x) l end.
(** The words a message may need in front of its data: one for each field, and one for
    each gap between their tags. *)
Fixpoint max_words (last : Z) (l : list field) : Z :=
  match l with [] => 0 | f :: l => (if decide (last + 1 < f_tag f) then 2 else 1) + max_words (f_tag f) l end.
(** [tw_addr]: every field has a name of its own in the pool, at its own address; nothing
    compares the names, and two fields may be spelled the same. *)
Record stype_wf (type_n : Z) (t : sproto_type) : Prop := {
  tw_name : t_name t ≠ None;
  tw_n : t_n t = zlen (t_f t);
  tw_fields : Forall (field_wf type_n) (t_f t);
  tw_tags : ascending f_tag (-1) (t_f t);
  tw_maxn : t_maxn t = max_words (-1) (t_f t);
  tw_base : 0 ≤ t_base t → ∀ i f, t_f t !! i = Some f → f_tag f = t_base t + Z.of_nat i;
  tw_addr : NoDup (option_map n_addr ∘ f_name <$> t_f t) }.
Record protocol_wf (type_n : Z) (x : protocol) : Prop := {
  pw_name : pr_name x ≠ None;
  pw_tag : 0 ≤ pr_tag x < 0x7fff;
  pw_request : ∀ i, pr_request x = Some i → 0 ≤ i < type_n;
  pw_response : ∀ i, pr_response x = Some i → 0 ≤ i < type_n }.
Record sproto_wf (sp : sproto) : Prop := {
  sw_types : zlen (sp_type sp) = sp_type_n sp;
  sw_protocols : zlen (sp_proto sp) = sp_protocol_n sp;
  sw_type : Forall (stype_wf (sp_type_n sp)) (sp_type sp);
  sw_protocol : Forall (protocol_wf (sp_type_n sp)) (sp_proto sp) }.

(** ** Reading bytes *)

Lemma word_value a b : byte a → byte b → Z.lor a (Z.shiftl b 8) = a + 256 * b.
Proof. intros Ha Hb. rewrite Z.shiftl_mul_pow2, (lor_add_high a b 8) by (unfold byte in *; lia). lia. Qed.
Lemma dword_value a b c d : byte a → byte b → byte c → byte d →
  Z.lor (Z.lor (Z.lor a (Z.shiftl b 8)) (Z.shiftl c 16)) (u32 (Z.shiftl d 24)) = a + 256 * b + 65536 * c + 16777216 * d.
Proof.
  unfold byte. intros Ha Hb Hc Hd. rewrite word_value by done.
  rewrite Z.shiftl_mul_pow2, (lor_add_high _ c 16), Z.shiftl_mul_pow2, uwrap_small, (lor_add_high _ d 24) by lia. lia.
Qed.
Lemma rd_byte m p x : Forall byte m → rd m p = Ok x → byte x.
Proof. intros Hm [_ Hx]%rd_Ok_inv. by eapply Forall_lookup_1. Qed.
Lemma toword_range m p v : Forall byte m → toword m p = Ok v → 0 ≤ v < 65536.
Proof.
  intros Hm E. unfold toword in E. bind_inv. repeat match goal with H : rd m _ = Ok _ |- _ => apply rd_byte in H; [|done] end.
  rewrite word_value by done. unfold byte in *. lia.
Qed.
Lemma todword_range m p v : Forall byte m → todword m p = Ok v → 0 ≤ v < 2 ^ 32.
Proof.
  intros Hm E. unfold todword in E. bind_inv. repeat match goal with H : rd m _ = Ok _ |- _ => apply rd_byte in H; [|done] end.
  rewrite dword_value by done. unfold byte in *. lia.
Qed.

(** ** What is imported is well formed *)

(** From [p] to [q] blocks are only added. *)
Record grows (p q : pool) : Prop := {
  gr_ok : pool_ok q;
  gr_old : ∀ x, allocated p x → allocated q x }.
Lemma grows_refl p : pool_ok p → grows p p.
Proof. by split. Qed.
Lemma grows_trans p q r : grows p q → grows q r → grows p r.
Proof. intros [] []. split; auto. Qed.
Lemma grows_alloc p size : pool_ok p → 0 ≤ size → grows p (pool_alloc p size).2.
Proof. intros O Hs. destruct (pool_alloc p size) as [a q] eqn:E. destruct (pool_alloc_fresh p size a q O Hs E) as (? & ? & _). by split. Qed.
Definition fresh_name (p q : pool) (n : pname) : Prop := ¬ allocated p (n_addr n) ∧ allocated q (n_addr n).

Section Imported.
Context (m : list Z) (Hm : Forall byte m) (Hlen : zlen m < 2 ^ 31).

Lemma import_string_spec p stream n q :
  pool_ok p → import_string m p stream = Ok (n, q) → grows p q ∧ fresh_name p q n.
Proof.
  intros O E. unfold import_string in E. apply bind_Ok_inv in E as (sz & Hsz & E). apply todword_range in Hsz; [|done].
  destruct (pool_alloc p (u32 (sz + 1))) as [a q'] eqn:Ea. apply bind_Ok_inv in E as (text & Ht & E). injection E as <- ->.
  unfold read_at in Ht. case_decide as Hr; [|done]. rewrite (uwrap_small 32 (sz + 1)) in Ea by lia.
  destruct (pool_alloc_fresh p (sz + 1) a q O ltac:(lia) Ea) as (? & ? & ? & ?). split; [by split|]. split; cbn; auto with lia.
Qed.

(** What the loop keeps of a field: each part is set at most once, in the order of the
    tags of its description. *)
Record field_part (type_n tag : Z) (p0 p : pool) (f : field) : Prop := {
  fp_tag : f_tag f < 0x7fff;
  fp_type : f_type f ∈ [-1; 0; 1; 2] ∧ f_st f = None ∨ f_type f = 3 ∧ 2 ≤ tag ∧ ∃ st, f_st f = Some st ∧ 0 ≤ st < type_n;
  fp_key : -1 ≤ f_key f;
  fp_name : ∀ n, f_name f = Some n → 0 ≤ tag ∧ fresh_name p0 p n;
  fp_grows : grows p0 p }.
Lemma import_field_loop_spec n type_n i stream fn tag array p0 p f p' f' array' :
  -1 ≤ tag → field_part type_n tag p0 p f → array ∈ [0; SPROTO_TARRAY] →
  import_field_loop m n type_n i stream fn tag array p f = Ok (Some (p', f', array')) →
  (∃ tag', field_part type_n tag' p0 p' f') ∧ array' ∈ [0; SPROTO_TARRAY].
Proof.
  revert i tag array p f. induction n as [|n IH]; intros i tag array p f Ht F Ha E; cbn [import_field_loop] in E.
  { injection E as <- <- <-. split; [by exists tag|done]. }
  apply bind_Ok_inv in E as (value & Hv & E). apply toword_range in Hv; [|done]. cbv zeta in E.
  assert (0 ≤ value / 2 < 32768) as Hv2 by (pose proof (Z.div_mod value 2); pose proof (Z.mod_pos_bound value 2); lia). pose proof (Z.div_mod value 2).
  destruct F as [F1 F2 F3 F4 F5].
  assert (∀ t a q g, tag < t → (f_name g = f_name f) → field_part type_n t p0 q g → a ∈ [0; SPROTO_TARRAY] →
    import_field_loop m n type_n (i + 1) stream fn t a q g = Ok (Some (p', f', array')) →
    (∃ tag', field_part type_n tag' p0 p' f') ∧ array' ∈ [0; SPROTO_TARRAY]) as Hnext by (intros; eapply IH; [|done..]; lia).
  assert (∀ t, tag < t → f_type f ∈ [-1; 0; 1; 2] ∧ f_st f = None ∨ f_type f = 3 ∧ 2 ≤ t ∧ ∃ st, f_st f = Some st ∧ 0 ≤ st < type_n) as G2
    by (intros t Hlt; destruct F2 as [?|(? & ? & ?)]; [by left|right; split; [done|split; [lia|done]]]).
  assert (∀ t nm, tag < t → f_name f = Some nm → 0 ≤ t ∧ fresh_name p0 p nm) as G4 by (intros t nm Hlt Hn; destruct (F4 nm Hn); split; [lia|done]).
  destruct (decide (Z.land value 1 ≠ 0)) as [|Heven]; [eapply Hnext in E; [done|lia|done|split; auto with lia|done]|].
  assert (value `mod` 2 = 0) by (pose proof (land_ones_mod value 1) as Hl; change (2 ^ 1 - 1) with 1 in Hl; change (2 ^ 1) with 2 in Hl; lia). clear Heven.
  destruct (decide (tag + 1 = 0)).
  { destruct (decide (value ≠ 0)); [done|]. apply bind_Ok_inv in E as ([nm q] & Hs & E). cbn [fst snd] in E.
    apply import_string_spec in Hs as [Hg Hf]; [|apply F5]. eapply IH in E; [done|lia| |done].
    destruct F2 as [F2|F2]; [|lia]. split; [done|by left|done| |by eapply grows_trans].
    cbn. intros n' [= <-]. split; [lia|]. destruct Hf. split; [|done]. intros Hx. by apply F5 in Hx. }
  destruct (decide (value = 0)); [done|]. assert (0 ≤ value / 2 - 1) by lia.
  destruct (decide (tag + 1 = 1)) as [Ht1|]; [|destruct (decide (tag + 1 = 2)) as [Ht2|]; [|destruct (decide (tag + 1 = 3));
    [|destruct (decide (tag + 1 = 4)); [|destruct (decide (tag + 1 = 5)); [|done]]]]].
  - destruct (decide (SPROTO_TSTRUCT ≤ _)) as [|Hlt]; [done|]. unfold SPROTO_TSTRUCT in Hlt. eapply Hnext in E; [done|lia|done| |done].
    destruct F2 as [[_ F2]|F2]; [|lia]. split; cbn; [done| |done|intros; by apply (G4 (tag + 1)); [lia|]|done]. left. split; [|done]. rewrite !elem_of_cons. lia.
  - destruct (decide (type_n ≤ _)); [done|]. destruct (decide (0 ≤ f_type f)); [done|]. eapply Hnext in E; [done|lia|done| |done].
    split; cbn; [done| |done|intros; by apply (G4 (tag + 1)); [lia|]|done]. right. split; [done|]. split; [lia|]. eexists. split; [done|]. lia.
  - eapply Hnext in E; [done|lia|done| |done]. split; cbn; [lia|by apply G2; lia|done|intros; by apply (G4 (tag + 1)); [lia|]|done].
  - eapply Hnext in E; [done|lia|done| |]; [split; auto with lia|]. case_decide; [rewrite !elem_of_cons; auto|done].
  - eapply Hnext in E; [done|lia|done| |done]. split; cbn; [done|by apply G2; lia|lia|intros; by apply (G4 (tag + 1)); [lia|]|done].
Qed.

Lemma import_field_spec type_n p stream q f stream' :
  pool_ok p → import_field m type_n p stream = Ok (Some (q, f, stream')) →
  field_wf type_n f ∧ grows p q ∧ ∃ n, f_name f = Some n ∧ fresh_name p q n.
Proof.
  intros O E. unfold import_field in E. apply bind_Ok_inv in E as (sz & _ & E). cbv zeta in E. apply bind_Ok_inv in E as (fn & _ & E).
  case_decide; [done|]. apply bind_Ok_inv in E as (r & Hr & E). destruct r as [[[p' g] array]|]; [|done].
  apply (import_field_loop_spec _ _ _ _ _ _ _ p) in Hr as [(tag & [G1 G2 G3 G4 G5]) Ha]; [|lia| |left].
  - destruct (decide (_ ∨ _)) as [|Hok]; [done|]. apply Ok_inj in E. injection E as <- <- _. cbn [f_name].
    destruct (f_name g) as [n|] eqn:En; [|tauto]. split; [|split; [done|by exists n; split; [done|apply G4]]].
    split; cbn [f_tag f_type f_name f_key f_st f_base]; [lia| |done|done|].
    + rewrite !elem_of_cons in Ha. destruct G2 as [[G2 _]|[-> _]]; [rewrite !elem_of_cons in G2|]; destruct Ha as [->|[->|[]%elem_of_nil]];
        [destruct G2 as [E|[E|[E|[E|[]%elem_of_nil]]]]; rewrite E in *; [lia|rewrite !elem_of_cons; auto 10..] ..|rewrite !elem_of_cons; auto 10|rewrite !elem_of_cons; auto 10].
    + unfold f_base. cbn [f_type]. rewrite !elem_of_cons in Ha.
      destruct G2 as [[G2 Hn]|(-> & _ & Hs)]; destruct Ha as [->|[->|[]%elem_of_nil]]; try done;
        rewrite !elem_of_cons in G2; destruct G2 as [E|[E|[E|[E|[]%elem_of_nil]]]]; rewrite E in *; try lia; done.
  - split; cbn; [lia|left; split; [left|done]|lia|done|by apply grows_refl].
Qed.

(** The names of the fields lie in the pool. *)
Definition named_in (p : pool) (f : field) : Prop := ∃ n, f_name f = Some n ∧ allocated p (n_addr n).
Lemma named_grows p q l : grows p q → Forall (named_in p) l → Forall (named_in q) l.
Proof. intros G H. eapply Forall_impl; [exact H|]. intros f (n & ? & ?). exists n. split; [done|]. by apply G. Qed.
Lemma fresh_not_in p q n l :
  fresh_name p q n → Forall (named_in p) l → Some (n_addr n) ∉ (option_map n_addr ∘ f_name <$> l).
Proof.
  intros [Hn _] Hl (f & E & Hf)%list_elem_of_fmap. cbn in E. destruct (Forall_forall (named_in p) l) as [F _].
  destruct (F Hl f Hf) as (n' & E' & Ha). rewrite E' in E. cbn in E. injection E as E. by rewrite E in Hn.
Qed.

Lemma import_fields_spec n type_n p stream last maxn acc q l maxn' :
  pool_ok p → Forall (named_in p) acc → NoDup (option_map n_addr ∘ f_name <$> acc) →
  import_fields m n type_n p stream last maxn acc = Ok (Some (q, l, maxn')) →
  ∃ fs, l = acc ++ fs ∧ length fs = n ∧ Forall (field_wf type_n) fs ∧ ascending f_tag last fs ∧
    maxn' = maxn + max_words last fs - zlen fs ∧ NoDup (option_map n_addr ∘ f_name <$> l) ∧ grows p q.
Proof.
  revert p stream last maxn acc. induction n as [|n IH]; intros p stream last maxn acc O Ha Hd E; cbn [import_fields] in E.
  { injection E as <- <- <-. exists []. rewrite app_nil_r. split_and!; try done; try (by apply grows_refl); unfold zlen; cbn; lia. }
  apply bind_Ok_inv in E as (r & Hr & E). destruct r as [[[p1 f] s1]|]; [|done]. cbv zeta in E. destruct (decide (f_tag f ≤ last)); [done|].
  apply import_field_spec in Hr as (Wf & G & nm & En & Hf); [|done]. apply IH in E as (fs & -> & Hl & W & A & Em & D & G2).
  - exists (f :: fs). rewrite <- app_assoc. split_and!; try done; [cbn; by f_equal|by constructor|cbn; split; [lia|done]| |by rewrite <- app_assoc in D|by eapply grows_trans].
    rewrite Em, zlen_cons. cbn [max_words]. case_decide; lia.
  - apply G.
  - apply Forall_app. split; [by eapply named_grows|]. constructor; [|done]. exists nm. split; [done|apply Hf].
  - rewrite fmap_app. apply NoDup_app. split; [done|]. split; [|apply NoDup_singleton]. intros x Hx Hin%list_elem_of_singleton. subst x.
    cbn [compose] in Hx. unfold compose in Hx at 1. rewrite En in Hx. by eapply fresh_not_in.
Qed.

(** Ascending tags that span as many numbers as there are fields are consecutive. *)
Lemma ascending_bound {A} (key : A → Z) last l i x : ascending key last l → l !! i = Some x → last + 1 + Z.of_nat i ≤ key x.
Proof.
  revert last i. induction l as [|y l IH]; intros last i H Hi; [done|]. destruct H as [H1 H2]. destruct i as [|i]; cbn in Hi.
  - injection Hi as ->. lia.
  - specialize (IH _ _ H2 Hi). lia.
Qed.
Lemma ascending_drop {A} (key : A → Z) last l i x : ascending key last l → l !! i = Some x → ascending key (key x) (drop (S i) l).
Proof.
  revert last i. induction l as [|y l IH]; intros last i H Hi; [done|]. destruct H as [H1 H2]. destruct i as [|i]; cbn in Hi |- *.
  - injection Hi as ->. by rewrite drop_0.
  - by eapply IH.
Qed.
Lemma ascending_lt {A} (key : A → Z) last l i j x y :
  ascending key last l → l !! i = Some x → l !! j = Some y → (i < j)%nat → key x + Z.of_nat (j - i) ≤ key y.
Proof.
  intros H Hx Hy Hij. apply (ascending_drop _ _ _ i x) in H; [|done].
  pose proof (ascending_bound key (key x) (drop (S i) l) (j - S i) y H) as B. rewrite lookup_drop in B.
  replace (S i + (j - S i))%nat with j in B by lia. specialize (B Hy). lia.
Qed.
Lemma consecutive {A} (key : A → Z) last l first final i x :
  ascending key last l → l !! 0%nat = Some first → l !! (length l - 1)%nat = Some final → key final - key first + 1 = zlen l →
  l !! i = Some x → key x = key first + Z.of_nat i.
Proof.
  intros H H0 Hf E Hx. unfold zlen in E. apply lookup_lt_Some in Hx as Hi.
  assert (key first + Z.of_nat i ≤ key x) as H1.
  { destruct i as [|i]; [rewrite H0 in Hx; injection Hx as ->; lia|]. pose proof (ascending_lt key last l 0 (S i) first x H H0 Hx). lia. }
  assert (key x + Z.of_nat (length l - 1 - i) ≤ key final) as H2.
  { destruct (decide (i = length l - 1)%nat) as [->|]; [rewrite Hf in Hx; injection Hx as ->; lia|].
    pose proof (ascending_lt key last l i (length l - 1) x final H Hx Hf). lia. }
  lia.
Qed.

Lemma import_type_spec type_n p stream q t stream' :
  pool_ok p → import_type m type_n p stream = Ok (Some (q, t, stream')) → stype_wf type_n t ∧ grows p q.
Proof.
  intros O E. unfold import_type in E. apply bind_Ok_inv in E as (sz & _ & E). cbv zeta in E. apply bind_Ok_inv in E as (fn & _ & E).
  case_decide; [done|]. apply bind_Ok_inv in E as (b & _ & E). destruct b; cbn [negb] in E; [|done].
  apply bind_Ok_inv in E as ([nm p1] & Hs & E). apply import_string_spec in Hs as [G1 _]; [|done]. destruct (decide (fn = 1)) as [_|_].
  { apply Ok_inj in E. injection E as <- <- _. split; [|done]. split; cbn; done || constructor. }
  apply bind_Ok_inv in E as (d & _ & E). apply bind_Ok_inv in E as (n & _ & E). destruct (decide (n < 0)); [done|].
  apply bind_Ok_inv in E as (r & Hr & E). destruct r as [[[p2 fs] maxn]|]; [|done].
  pose proof (grows_alloc p1 (SIZEOF_STRUCT_FIELD * n) (gr_ok _ _ G1) ltac:(unfold SIZEOF_STRUCT_FIELD; lia)) as G2.
  apply import_fields_spec in Hr as (l & E1 & Hl & W & A & Em & D & G3); [|apply G2|constructor|constructor]. cbn [app] in E1. subst fs.
  apply bind_Ok_inv in E as (first & Hf & E). apply bind_Ok_inv in E as (last & Hla & E). apply Ok_inj in E. injection E as <- <- _.
  apply rd_Ok_inv in Hf as [_ Hf]. apply rd_Ok_inv in Hla as [_ Hla]. assert (zlen l = n) as Hz by (unfold zlen; lia).
  split; [|by eapply grows_trans; [|by eapply grows_trans]]. split; cbn [t_name t_n t_f t_base t_maxn]; try done; [lia|].
  intros Hb i f Hi. case_decide as Hc; [lia|]. apply (consecutive f_tag (-1) l first last); try done; [|lia].
  rewrite <- Hla. f_equal. lia.
Qed.

Lemma import_protocol_loop_spec n type_n i stream fn p x q y :
  pool_ok p → -1 ≤ pr_tag x < 0x7fff → (∀ i, pr_request x = Some i → 0 ≤ i < type_n) → (∀ i, pr_response x = Some i → 0 ≤ i < type_n) →
  import_protocol_loop m n type_n i stream fn p x = Ok (Some (q, y)) →
  grows p q ∧ pr_tag y < 0x7fff ∧ (∀ i, pr_request y = Some i → 0 ≤ i < type_n) ∧ (∀ i, pr_response y = Some i → 0 ≤ i < type_n).
Proof.
  revert i p x. induction n as [|n IH]; intros i p x O Ht Hq Hp E; cbn [import_protocol_loop] in E.
  { injection E as <- <-. split; [by apply grows_refl|]. split; [lia|done]. }
  apply bind_Ok_inv in E as (value & Hv & E). apply toword_range in Hv; [|done]. cbv zeta in E. destruct (decide (Z.land value 1 ≠ 0)); [by eapply IH|].
  destruct (decide (i = 0)); [|destruct (decide (i = 1)); [|destruct (decide (i = 2)); [|destruct (decide (i = 3)); [|done]]]]; case_decide; try done.
  - apply bind_Ok_inv in E as ([nm p1] & Hs & E). apply import_string_spec in Hs as [G _]; [|done]. apply IH in E as (G2 & ? & ? & ?); try done; [|apply G].
    split; [by eapply grows_trans|done].
  - eapply IH; [..|exact E]; cbn; try done. pose proof (Z.div_lt_upper_bound value 2 32768). lia.
  - eapply IH; [..|exact E]; cbn; try done. intros j [= <-]. lia.
  - eapply IH; [..|exact E]; cbn; try done. intros j [= <-]. lia.
Qed.
Lemma import_protocol_spec type_n p stream q x stream' :
  pool_ok p → import_protocol m type_n p stream = Ok (Some (q, x, stream')) → protocol_wf type_n x ∧ grows p q.
Proof.
  intros O E. unfold import_protocol in E. apply bind_Ok_inv in E as (sz & _ & E). cbv zeta in E. apply bind_Ok_inv in E as (fn & _ & E).
  apply bind_Ok_inv in E as (r & Hr & E). destruct r as [[p1 y]|]; [|done]. case_decide as Hc; [done|]. apply Ok_inj in E. injection E as <- <- _.
  apply import_protocol_loop_spec in Hr as (G & ? & ? & ?); try done. split; [|done]. split; try done; [tauto|lia].
Qed.

Lemma import_all_spec {A} (one : pool → Z → result (option (pool * A * Z))) (P : A → Prop) n p data acc q l :
  (∀ p s q x s', pool_ok p → one p s = Ok (Some (q, x, s')) → P x ∧ grows p q) →
  pool_ok p → Forall P acc → import_all one n p data acc = Ok (Some (q, l)) →
  length l = (length acc + n)%nat ∧ Forall P l ∧ grows p q.
Proof.
  intros H1. revert p data acc. induction n as [|n IH]; intros p data acc O Ha E; cbn [import_all] in E.
  { injection E as <- <-. split; [lia|]. split; [done|by apply grows_refl]. }
  apply bind_Ok_inv in E as (r & Hr & E). destruct r as [[[p1 x] s1]|]; [|done]. apply H1 in Hr as [Px G]; [|done].
  apply IH in E as (Hl & Hf & G2); [|apply G|by apply Forall_app; split; [|constructor]].
  rewrite length_app in Hl. cbn in Hl. split; [lia|]. split; [done|by eapply grows_trans].
Qed.

Lemma bundle_loop_spec n i stream content b b' :
  pool_ok (b_pool b) → 0 ≤ b_type_n b → 0 ≤ b_protocol_n b → bundle_loop m n i stream content b = Ok (Some b') →
  pool_ok (b_pool b') ∧ 0 ≤ b_type_n b' ∧ 0 ≤ b_protocol_n b'.
Proof.
  revert i content b. induction n as [|n IH]; intros i content b O Ht Hp E; cbn [bundle_loop] in E.
  { by injection E as <-. }
  apply bind_Ok_inv in E as (value & _ & E). case_decide; [done|]. apply bind_Ok_inv in E as (k & _ & E). destruct (decide (k < 0)); [done|].
  cbv zeta in E. apply bind_Ok_inv in E as (d & _ & E).
  apply IH in E; [done|..]; destruct (decide (i = 0)); cbn [b_pool b_type_n b_protocol_n]; try lia; apply grows_alloc; try done; unfold SIZEOF_STRUCT_TYPE, SIZEOF_STRUCT_PROTOCOL; lia.
Qed.
End Imported.

(** ** Search by tag *)

Lemma search_tag_spec {A} (key : A → Z) fuel l begin fin tag :
  ascending key (-1) l → 0 ≤ begin → fin ≤ zlen l → (Z.to_nat (fin - begin) ≤ fuel)%nat →
  (∀ i x, l !! i = Some x → key x = tag → begin ≤ Z.of_nat i < fin) →
  ∃ o, search_tag key fuel l begin fin tag = Ok o ∧
    match o with Some x => x ∈ l ∧ key x = tag | None => ∀ x, x ∈ l → key x ≠ tag end.
Proof.
  intros Ha. revert begin fin. induction fuel as [|fuel IH]; intros begin fin Hb Hf Hfuel Hin; cbn [search_tag].
  - rewrite decide_False by lia. eexists. split; [done|]. intros x [i Hi]%list_elem_of_lookup Hx. specialize (Hin i x Hi Hx). lia.
  - destruct (decide (begin < fin)); cycle 1.
    { eexists. split; [done|]. intros x [i Hi]%list_elem_of_lookup Hx. specialize (Hin i x Hi Hx). lia. }
    cbv zeta. set (mid := (begin + fin) / 2). assert (begin ≤ mid < fin) by (unfold mid; pose proof (Z.div_mod (begin + fin) 2); pose proof (Z.mod_pos_bound (begin + fin) 2); lia).
    destruct (rd_Ok l mid) as [x Hx]; [lia|]. rewrite Hx, bind_Ok. apply rd_Ok_inv in Hx as [_ Hx].
    destruct (decide (key x = tag)) as [Hk|Hk]; [eexists; split; [done|]; split; [by eapply list_elem_of_lookup_2|done]|].
    destruct (decide (key x < tag)); apply IH; try lia; intros i y Hy Hty; specialize (Hin i y Hy Hty).
    + split; [|lia]. destruct (decide (i < Z.to_nat mid)%nat); [pose proof (ascending_lt key _ _ _ _ _ _ Ha Hy Hx); lia|].
      destruct (decide (i = Z.to_nat mid)) as [->|]; [congruence|lia].
    + split; [lia|]. destruct (decide (Z.to_nat mid < i)%nat); [pose proof (ascending_lt key _ _ _ _ _ _ Ha Hx Hy); lia|].
      destruct (decide (i = Z.to_nat mid)) as [->|]; [congruence|lia].
Qed.

(** The index and the binary search of [findtag] both find the field with the tag. *)
Lemma findtag_spec type_n t tag :
  stype_wf type_n t →
  ∃ o, findtag t tag = Ok o ∧ match o with Some f => f ∈ t_f t ∧ f_tag f = tag | None => ∀ f, f ∈ t_f t → f_tag f ≠ tag end.
Proof.
  intros [_ Hn _ Ha _ Hb _]. unfold findtag. destruct (decide (0 ≤ t_base t)) as [Hz|Hz].
  - specialize (Hb Hz). cbv zeta. destruct (decide (_ ∨ _)) as [Ho|Ho].
    + eexists. split; [done|]. intros f [i Hi]%list_elem_of_lookup. rewrite (Hb i f Hi). apply lookup_lt_Some in Hi. unfold zlen in *. lia.
    + destruct (rd_Ok (t_f t) (tag - t_base t)) as [f Hf]; [lia|]. rewrite Hf, bind_Ok. eexists. split; [done|]. apply rd_Ok_inv in Hf as [_ Hf].
      split; [by eapply list_elem_of_lookup_2|]. rewrite (Hb _ f Hf). lia.
  - apply search_tag_spec; [done|lia|lia|lia|]. intros i f Hi _. apply lookup_lt_Some in Hi. unfold zlen in *. lia.
Qed.

Lemma sproto_create_wf m sp : Forall byte m → zlen m < 2 ^ 31 → sproto_create m = Ok (Some sp) → sproto_wf sp.
Proof.
  intros Hm Hl E.
  unfold sproto_create, create_from_bundle in E. pose proof (grows_alloc _ SIZEOF_STRUCT_SPROTO pool_init_ok ltac:(done)) as G0.
  apply bind_Ok_inv in E as (fn & _ & E). case_decide; [done|]. apply bind_Ok_inv in E as (b & Hb & E). destruct b as [b|]; [|done].
  apply bundle_loop_spec in Hb as (Ob & Ht & Hp); [|apply G0|done|done]. apply bind_Ok_inv in E as (r & Hr & E). destruct r as [[p1 types]|]; [|done].
  apply (import_all_spec _ (stype_wf (b_type_n b))) in Hr as (L1 & F1 & G1); [|by apply import_type_spec|done|constructor].
  apply bind_Ok_inv in E as (r & Hr & E). destruct r as [[p2 protos]|]; [|done].
  apply (import_all_spec _ (protocol_wf (b_type_n b))) in Hr as (L2 & F2 & G2); [|by apply import_protocol_spec|apply G1|constructor].
  apply Ok_inj in E. injection E as <-. cbn [length] in *. split; cbn; try done; unfold zlen; lia.
Qed.

(** C26: a sproto object that was created from a bundle is well formed. The tags of every
    type ascend, its words in front of a message are counted right, subtypes are types of
    the object, every field has a name in the pool at an address of its own (the import
    does not compare names: two may be spelled the same), and the search for a field by
    its tag, by index or by bisection, finds it exactly when the type has one. *)
Theorem created_sproto_is_well_formed m sp :
  Forall byte m → zlen m < 2 ^ 31 → sproto_create m = Ok (Some sp) →
  sproto_wf sp ∧
  ∀ t tag, t ∈ sp_type sp →
    ∃ o, findtag t tag = Ok o ∧ match o with Some f => f ∈ t_f t ∧ f_tag f = tag | None => ∀ f, f ∈ t_f t → f_tag f ≠ tag end.
Proof.
  intros Hm Hl E. pose proof (sproto_create_wf m sp Hm Hl E) as W.
  split; [done|]. intros t tag Ht. apply (findtag_spec (sp_type_n sp)). eapply Forall_forall; [apply W|done].
Qed.

(** An item has an id and a count; a hero has a name, a number, a bag of items by their
    id, and other fields. *)
Definition example_bundle : list Z :=
  [
   2; 0; 0; 0; 0; 0; 4; 1; 0; 0; 57; 0; 0; 0; 2; 0; 0; 0; 0; 0; 4; 0; 0; 0; 73; 116; 101; 109; 39; 0; 0; 0; 16; 
   0; 0; 0; 4; 0; 0; 0; 2; 0; 1; 0; 2; 0; 2; 0; 0; 0; 105; 100; 15; 0; 0; 0; 4; 0; 0; 0; 2; 0; 1; 0; 8; 0; 1; 0; 
   0; 0; 110; 195; 0; 0; 0; 2; 0; 0; 0; 0; 0; 4; 0; 0; 0; 72; 101; 114; 111; 177; 0; 0; 0; 18; 0; 0; 0; 4; 0; 0; 
   0; 6; 0; 1; 0; 2; 0; 4; 0; 0; 0; 110; 97; 109; 101; 16; 0; 0; 0; 4; 0; 0; 0; 2; 0; 1; 0; 4; 0; 2; 0; 0; 0; 
   104; 112; 21; 0; 0; 0; 6; 0; 0; 0; 1; 0; 2; 0; 6; 0; 4; 0; 2; 0; 3; 0; 0; 0; 98; 97; 103; 19; 0; 0; 0; 5; 0; 
   0; 0; 2; 0; 1; 0; 12; 0; 4; 0; 3; 0; 0; 0; 108; 111; 103; 16; 0; 0; 0; 4; 0; 0; 0; 4; 0; 1; 0; 14; 0; 2; 0; 
   0; 0; 117; 112; 20; 0; 0; 0; 5; 0; 0; 0; 6; 0; 1; 0; 16; 0; 4; 0; 4; 0; 0; 0; 116; 97; 103; 115; 17; 0; 0; 0; 
   4; 0; 0; 0; 1; 0; 2; 0; 18; 0; 3; 0; 0; 0; 97; 114; 109; 18; 0; 0; 0; 5; 0; 0; 0; 4; 0; 1; 0; 20; 0; 4; 0; 2; 
   0; 0; 0; 111; 110; 21; 0; 0; 0; 17; 0; 0; 0; 4; 0; 0; 0; 4; 0; 2; 0; 4; 0; 3; 0; 0; 0; 103; 101; 116].
Definition example_sproto : sproto :=
  match sproto_create example_bundle with Ok (Some sp) => sp | _ => mk_sproto pool_init 0 0 [] [] end.
Lemma created_sproto_is_well_formed_witness :
  sproto_wf example_sproto ∧ ∃ t f, sp_type example_sproto !! 1%nat = Some t ∧ findtag t 5 = Ok (Some f) ∧ f_type f = 0x80 ∧
    until_nul <$> (n_text <$> f_name f) = Some [108; 111; 103].
Proof.
  destruct (created_sproto_is_well_formed example_bundle example_sproto) as [W F].
  - apply (bool_decide_eq_true_1 _). vm_compute. reflexivity.
  - vm_compute. reflexivity.
  - vm_compute. reflexivity.
  - split; [exact W|]. eexists _, _. split; [vm_compute; reflexivity|]. split; [vm_compute; reflexivity|]. split; vm_compute; reflexivity.
Defined.

(** The bundle with the last field named as another one is accepted. *)
Definition twice_bundle : list Z :=
  take (length example_bundle - 27) example_bundle ++ [117; 112] ++ drop (length example_bundle - 25) example_bundle.
Example same_name_accepted :
  ∃ sp t, sproto_create twice_bundle = Ok (Some sp) ∧ sp_type sp !! 1%nat = Some t ∧
    (λ f, until_nul <$> (n_text <$> f_name f)) <$> drop 4 (t_f t) =
      [Some [117; 112]; Some [116; 97; 103; 115]; Some [97; 114; 109]; Some [117; 112]].
Proof. eexists _, _. split; [vm_compute; reflexivity|]. split; vm_compute; reflexivity. Qed.
