(* ===== verification/SprotoEncode.v ===== *)
(** * Encoding of messages: lualib-src/sproto/sproto.c and lsproto.c

    [sproto_encode] writes a message by the description of its type and asks a callback
    for each value; the callback of lsproto.c reads them from a Lua table and calls
    [sproto_encode] again for a nested message. The buffer is a list of bytes, a pointer
    into it an offset, and a write outside of it is an error. *)
From stdpp Require Import base numbers list.
From S2P Require Import Prelude CString Seri SprotoPack SprotoSchema.

Definition SPROTO_CB_ERROR : Z := -1.
Definition SPROTO_CB_NIL : Z := -2.
Definition SPROTO_CB_NOARRAY : Z := -3.
Definition ENCODE_DEEPLEVEL : nat := 64.

(** [void *value]: a local integer with its contents, a place in the buffer, or NULL. *)
Inductive avalue : Type :=
| AUnion (u : Z)
| ABuffer (off : Z)
| ANull.
Record sproto_arg : Type := mk_arg {
  a_tagname : option pname;
  a_tagid : Z;
  a_type : Z;
  a_subtype : option Z;
  a_value : avalue;
  a_length : Z;
  a_index : Z;
  a_mainindex : Z }.
Definition field_arg (f : field) (type : Z) : sproto_arg := mk_arg (f_name f) (f_tag f) type (f_st f) ANull 0 0 (f_key f).
Definition with_value (a : sproto_arg) (value : avalue) (length index : Z) : sproto_arg :=
  mk_arg (a_tagname a) (a_tagid a) (a_type a) (a_subtype a) value length index (a_mainindex a).

Definition le16 (v : Z) : list Z := [Z.land v 0xff; Z.land (Z.shiftr v 8) 0xff].
Definition le32 (v : Z) : list Z :=
  [Z.land v 0xff; Z.land (Z.shiftr v 8) 0xff; Z.land (Z.shiftr v 16) 0xff; Z.land (Z.shiftr v 24) 0xff].
Definition le64 (v : Z) : list Z := le32 v ++ le32 (Z.shiftr v 32).

(** The length is written; the size with the length is returned. *)
Definition fill_size (buf : list Z) (data sz : Z) : result (Z * list Z) :=
  buf ← write_at buf data (le32 sz); Ok (sz + SIZEOF_LENGTH, buf).
(** The comparisons with [sizeof] are in [size_t]. *)
Definition encode_integer (v : Z) (buf : list Z) (data size : Z) : result (Z * list Z) :=
  if decide (u64 size < SIZEOF_LENGTH + 4) then Ok (-1, buf)
  else buf ← write_at buf (data + 4) (le32 v); fill_size buf data 4.
Definition encode_uint64 (v : Z) (buf : list Z) (data size : Z) : result (Z * list Z) :=
  if decide (u64 size < SIZEOF_LENGTH + 8) then Ok (-1, buf)
  else buf ← write_at buf (data + 4) (le64 v); fill_size buf data 8.
Definition uint32_to_uint64 (negative : Z) (buf : list Z) (buffer : Z) : result (list Z) :=
  write_at buf (buffer + 4) (if decide (negative ≠ 0) then [0xff; 0xff; 0xff; 0xff] else [0; 0; 0; 0]).

Section Encode.
Context {UD : Type}.
(** What a callback leaves: its code, its own state, the buffer, and the local integer. *)
Record cb_result : Type := mk_cb { cb_sz : Z; cb_ud : UD; cb_buf : list Z; cb_u : Z }.
Context (cb : sproto_arg → UD → list Z → result cb_result).

Definition encode_object (args : sproto_arg) (data size : Z) (ud : UD) (buf : list Z) : result (Z * UD * list Z) :=
  if decide (size < SIZEOF_LENGTH) then Ok (-1, ud, buf)
  else
    r ← cb (with_value args (ABuffer (data + SIZEOF_LENGTH)) (size - SIZEOF_LENGTH) (a_index args)) ud buf;
    let sz := cb_sz r in
    if decide (sz < 0) then
      Ok (if decide (sz = SPROTO_CB_NIL) then 0 else -1, cb_ud r, cb_buf r)
    else
      c_assert (bool_decide (sz ≤ size - SIZEOF_LENGTH));;
      w ← fill_size (cb_buf r) data sz;
      Ok (w.1, cb_ud r, w.2).

(** One element of the part of the array that is written already is widened. *)
Definition widen_body (header i : Z) (buf : list Z) : result (list Z) :=
  low ← read_at buf (header + 1 + i * 4) 4;
  buf ← write_at buf (header + 1 + i * 8) low;
  top ← rd buf (header + 1 + i * 8 + 3);
  uint32_to_uint64 (Z.land top 0x80) buf (header + 1 + i * 8).

(** The part of the array that is written is widened when its integers have 32 bits; [None]
    is NULL. The size may become negative, which the comparison in [size_t] lets pass. *)
Definition widen_array (header buffer size intlen index : Z) (buf : list Z) : result (option (Z * Z * list Z)) :=
  if decide (intlen = 4) then
    let size := s32 (size - (index - 1) * 4) in
    if decide (u64 size < 8) then Ok None
    else
      buf ← c_for_down (Z.to_nat (index - 1)) (index - 2) (widen_body header) buf;
      Ok (Some (size, buffer + (index - 1) * 4, buf))
  else Ok (Some (size, buffer, buf)).

(** The loop ends with [None] for NULL, or with the pointer behind the array, the length of
    an integer and whether there is no array. Every turn needs bytes of the buffer. *)
Fixpoint integer_loop (fuel : nat) (args : sproto_arg) (header buffer size intlen index : Z) (ud : UD) (buf : list Z) :
    result (option (Z * Z * bool) * UD * list Z) :=
  match fuel with
  | O => Err OutOfFuel
  | S fuel =>
      r ← cb (with_value args (AUnion 0) 8 index) ud buf;
      let '(mk_cb sz ud buf u) := r in
      if decide (sz ≤ 0) then
        if decide (sz = SPROTO_CB_NIL) then Ok (Some (buffer, intlen, false), ud, buf)
        else if decide (sz = SPROTO_CB_NOARRAY) then Ok (Some (buffer, intlen, true), ud, buf)
        else Ok (None, ud, buf)
      else if decide (u64 size < 8) then Ok (None, ud, buf)
      else if decide (sz = 4) then
        let v := u32 u in
        buf ← write_at buf buffer (le32 v);
        buf ← (if decide (intlen = 8) then uint32_to_uint64 (Z.land v 0x80000000) buf buffer else Ok buf);
        integer_loop fuel args header (buffer + intlen) (size - intlen) intlen (index + 1) ud buf
      else if decide (sz ≠ 8) then Ok (None, ud, buf)
      else
        r ← widen_array header buffer size intlen index buf;
        match r with
        | None => Ok (None, ud, buf)
        | Some (size, buffer, buf) =>
            buf ← write_at buf buffer (le64 u);
            integer_loop fuel args header (buffer + 8) (size - 8) 8 (index + 1) ud buf
        end
  end.
Definition encode_integer_array (args : sproto_arg) (buffer size : Z) (ud : UD) (buf : list Z) :
    result (option (Z * bool) * UD * list Z) :=
  if decide (size < 1) then Ok (None, ud, buf)
  else
    r ← integer_loop (S (Z.to_nat size)) args buffer (buffer + 1) (size - 1) 4 1 ud buf;
    let '(o, ud, buf) := r in
    match o with
    | None => Ok (None, ud, buf)
    | Some (b, intlen, noarray) =>
        if decide (b = buffer + 1) then Ok (Some (buffer, noarray), ud, buf)
        else buf ← wr buf buffer (u8 intlen); Ok (Some (b, noarray), ud, buf)
    end.

(** The loops of [encode_array]: [inl] is a value returned at once, [inr] the pointer
    behind the array. *)
Fixpoint boolean_loop (fuel : nat) (args : sproto_arg) (buffer size index : Z) (ud : UD) (buf : list Z) :
    result ((Z + Z) * UD * list Z) :=
  match fuel with
  | O => Err OutOfFuel
  | S fuel =>
      r ← cb (with_value args (AUnion 0) 4 index) ud buf;
      let '(mk_cb sz ud buf v) := r in
      if decide (sz < 0) then
        Ok (if decide (sz = SPROTO_CB_NIL) then inr buffer else if decide (sz = SPROTO_CB_NOARRAY) then inl 0 else inl (-1), ud, buf)
      else if decide (size < 1) then Ok (inl (-1), ud, buf)
      else
        buf ← wr buf buffer (if decide (v ≠ 0) then 1 else 0);
        boolean_loop fuel args (buffer + 1) (size - 1) (index + 1) ud buf
  end.
Fixpoint object_loop (fuel : nat) (args : sproto_arg) (buffer size index : Z) (ud : UD) (buf : list Z) :
    result ((Z + Z) * UD * list Z) :=
  match fuel with
  | O => Err OutOfFuel
  | S fuel =>
      if decide (size < SIZEOF_LENGTH) then Ok (inl (-1), ud, buf)
      else
        let size := size - SIZEOF_LENGTH in
        r ← cb (with_value args (ABuffer (buffer + SIZEOF_LENGTH)) size index) ud buf;
        let '(mk_cb sz ud buf _) := r in
        if decide (sz < 0) then
          Ok (if decide (sz = SPROTO_CB_NIL) then inr buffer else if decide (sz = SPROTO_CB_NOARRAY) then inl 0 else inl (-1), ud, buf)
        else
          w ← fill_size buf buffer sz;
          object_loop fuel args (buffer + SIZEOF_LENGTH + sz) (size - sz) (index + 1) ud w.2
  end.
Definition encode_array (args : sproto_arg) (data size : Z) (ud : UD) (buf : list Z) : result (Z * UD * list Z) :=
  if decide (size < SIZEOF_LENGTH) then Ok (-1, ud, buf)
  else
    let size := size - SIZEOF_LENGTH in
    let buffer := data + SIZEOF_LENGTH in
    r ← (if decide (a_type args = SPROTO_TINTEGER) then
           r ← encode_integer_array args buffer size ud buf;
           let '(o, ud, buf) := r in
           Ok (match o with None => inl (-1) | Some (b, noarray) => if (noarray : bool) then inl 0 else inr b end, ud, buf)
         else if decide (a_type args = SPROTO_TBOOLEAN) then boolean_loop (S (Z.to_nat size)) args buffer size 1 ud buf
         else object_loop (S (Z.to_nat size)) args buffer size 1 ud buf);
    let '(o, ud, buf) := r in
    match o with
    | inl code => Ok (code, ud, buf)
    | inr b => w ← fill_size buf data (b - buffer); Ok (w.1, ud, w.2)
    end.

(** What a field adds: [FReturn] ends the function, [FNext] is a [continue]. *)
Inductive field_result : Type :=
| FReturn (code : Z)
| FNext
| FData (sz value : Z).
Definition encode_field (f : field) (data size : Z) (ud : UD) (buf : list Z) : result (field_result * UD * list Z) :=
  let type := f_type f in
  if decide (Z.land type SPROTO_TARRAY ≠ 0) then
    r ← encode_array (field_arg f (Z.land type (Z.lnot SPROTO_TARRAY))) data size ud buf;
    let '(sz, ud, buf) := r in Ok (FData sz 0, ud, buf)
  else
    let args := field_arg f type in
    if decide (type = SPROTO_TINTEGER ∨ type = SPROTO_TBOOLEAN) then
      r ← cb (with_value args (AUnion 0) 8 0) ud buf;
      let '(mk_cb sz ud buf u) := r in
      if decide (sz < 0) then
        Ok (if decide (sz = SPROTO_CB_NIL) then FNext else if decide (sz = SPROTO_CB_NOARRAY) then FReturn 0 else FReturn (-1), ud, buf)
      else if decide (sz = 4) then
        if decide (u32 u < 0x7fff) then Ok (FData 2 ((u32 u + 1) * 2), ud, buf)
        else w ← encode_integer (u32 u) buf data size; Ok (FData w.1 0, ud, w.2)
      else if decide (sz = 8) then w ← encode_uint64 u buf data size; Ok (FData w.1 0, ud, w.2)
      else Ok (FReturn (-1), ud, buf)
    else if decide (type = SPROTO_TSTRUCT ∨ type = SPROTO_TSTRING) then
      r ← encode_object args data size ud buf;
      let '(sz, ud, buf) := r in Ok (FData sz 0, ud, buf)
    else Ok (FData (-1) 0, ud, buf).

(** The words of a field: one that skips tags when there is a gap, and its value. *)
Definition put_words (header index gap value : Z) (buf : list Z) : result (option (Z * list Z)) :=
  let record := header + SIZEOF_HEADER + SIZEOF_FIELD * index in
  if decide (0 < gap) then
    let tag := (gap - 1) * 2 + 1 in
    if decide (0xffff < tag) then Ok None
    else
      buf ← write_at buf record (le16 tag);
      buf ← write_at buf (record + SIZEOF_FIELD) (le16 value);
      Ok (Some (index + 2, buf))
  else buf ← write_at buf record (le16 value); Ok (Some (index + 1, buf)).

Fixpoint encode_fields (l : list field) (header index lasttag data size : Z) (ud : UD) (buf : list Z) :
    result ((Z + Z * Z) * UD * list Z) :=
  match l with
  | [] => Ok (inr (index, data), ud, buf)
  | f :: l =>
      r ← encode_field f data size ud buf;
      let '(o, ud, buf) := r in
      match o with
      | FReturn code => Ok (inl code, ud, buf)
      | FNext => encode_fields l header index lasttag data size ud buf
      | FData sz value =>
          if decide (sz < 0) then Ok (inl (-1), ud, buf)
          else if decide (0 < sz) then
            w ← put_words header index (f_tag f - lasttag - 1) value buf;
            match w with
            | None => Ok (inl (-1), ud, buf)
            | Some (index, buf) =>
                let step := if decide (value = 0) then sz else 0 in
                encode_fields l header index (f_tag f) (data + step) (size - step) ud buf
            end
          else encode_fields l header index lasttag data size ud buf
      end
  end.

Definition sproto_encode (st : sproto_type) (header size : Z) (ud : UD) (buf : list Z) : result (Z * UD * list Z) :=
  let header_sz := SIZEOF_HEADER + t_maxn st * SIZEOF_FIELD in
  if decide (size < header_sz) then Ok (-1, ud, buf)
  else
    r ← encode_fields (t_f st) header 0 (-1) (header + header_sz) (size - header_sz) ud buf;
    let '(o, ud, buf) := r in
    match o with
    | inl code => Ok (code, ud, buf)
    | inr (index, data) =>
        buf ← write_at buf header (le16 index);
        let datasz := data - (header + header_sz) in
        buf ← (if decide (index ≠ t_maxn st) then
                 bytes ← read_at buf (header + header_sz) datasz;
                 write_at buf (header + SIZEOF_HEADER + index * SIZEOF_FIELD) bytes
               else Ok buf);
        Ok (SIZEOF_HEADER + index * SIZEOF_FIELD + datasz, ud, buf)
    end.
End Encode.
Arguments cb_result : clear implicits.
Arguments mk_cb {UD} cb_sz cb_ud cb_buf cb_u.

(** ** The callback of lsproto.c

    Tables are without metatables: [VTable]. The slots of the Lua stack the callback uses
    are the fields of its state; the iterator slot holds the fields that [lua_next] has not
    visited yet, [None] when it is nil. The conversions between numbers and strings belong
    to the Lua library. *)
Class LuaNumbers := {
  real2int : Z → option Z;
  str2int : list Z → option Z;
  int2str : Z → list Z;
  real2str : Z → list Z }.

Abbreviation lfields := (list (lvalue * lvalue)).
Fixpoint get_field (l : lfields) (name : list Z) : lvalue :=
  match l with
  | [] => VNil
  | (VStr k, v) :: l => if decide (k = name) then v else get_field l name
  | _ :: l => get_field l name
  end.
Fixpoint get_index (l : lfields) (i : Z) : lvalue :=
  match l with
  | [] => VNil
  | (VInt k, v) :: l => if decide (k = i) then v else get_index l i
  | _ :: l => get_index l i
  end.

Record encode_ud : Type := mk_eud {
  e_tbl : lfields;
  e_array_tag : option address;
  e_array : option lfields;
  e_iter : option lfields }.
(** The key of a field in a Lua table: its name up to the first NUL. *)
Definition tag_key (n : option pname) : result (list Z) := t ← name_text n; Ok (until_nul t).

Section Lua.
Context `{LuaNumbers}.
Definition lua_tointegerx (v : lvalue) : option Z :=
  match v with VInt i => Some i | VReal r => real2int r | VStr s => str2int s | _ => None end.
Definition lua_tostring (v : lvalue) : option (list Z) :=
  match v with VStr s => Some s | VInt i => Some (int2str i) | VReal r => Some (real2str r) | _ => None end.

(** The value the arguments ask for, or the code to return at once. *)
Definition array_value (args : sproto_arg) (self : encode_ud) : result ((Z + lvalue) * encode_ud) :=
  let tag := n_addr <$> a_tagname args in
  r ← (if decide (tag ≠ e_array_tag self) then
         k ← tag_key (a_tagname args);
         match get_field (e_tbl self) k with
         | VNil => Ok (false, mk_eud (e_tbl self) tag None (e_iter self))
         | VTable l => Ok (true, mk_eud (e_tbl self) tag (Some l) (e_iter self))
         | _ => Err (LuaError 0)
         end
       else Ok (true, self));
  let '(found, self) := r in
  if negb found then Ok (inl SPROTO_CB_NOARRAY, self)
  else
    a ← of_option NullDeref (e_array self);
    if decide (0 ≤ a_mainindex args) then
      match default a (e_iter self) with
      | [] => Ok (inl SPROTO_CB_NIL, mk_eud (e_tbl self) (e_array_tag self) (e_array self) None)
      | (_, v) :: rest => Ok (inr v, mk_eud (e_tbl self) (e_array_tag self) (e_array self) (Some rest))
      end
    else Ok (inr (get_index a (a_index args)), self).
Definition table_value (args : sproto_arg) (self : encode_ud) : result ((Z + lvalue) * encode_ud) :=
  if decide (0 < a_index args) then array_value args self
  else k ← tag_key (a_tagname args); Ok (inr (get_field (e_tbl self) k), self).

Definition new_encode_ud (l : lfields) : encode_ud := mk_eud l None None None.

Section Callback.
Context (sp : sproto).

(** [n] is the number of levels left: ENCODE_DEEPLEVEL less the depth. *)
Fixpoint encode (n : nat) (args : sproto_arg) (self : encode_ud) (buf : list Z) : result (cb_result encode_ud) :=
  match n with
  | O => Err (LuaError 0)
  | S n =>
      r ← table_value args self;
      let '(o, self) := r in
      match o with
      | inl code => Ok (mk_cb code self buf 0)
      | inr VNil => Ok (mk_cb SPROTO_CB_NIL self buf 0)
      | inr x =>
          if decide (a_type args = SPROTO_TINTEGER) then
            v ← of_option (LuaError 0) (lua_tointegerx x);
            let vh := Z.shiftr v 31 in
            if decide (vh = 0 ∨ vh = -1) then Ok (mk_cb 4 self buf (u32 v)) else Ok (mk_cb 8 self buf (u64 v))
          else if decide (a_type args = SPROTO_TBOOLEAN) then
            match x with
            | VBool b => Ok (mk_cb 4 self buf (if b then 1 else 0))
            | _ => Err (LuaError 0)
            end
          else if decide (a_type args = SPROTO_TSTRING) then
            str ← of_option (LuaError 0) (lua_tostring x);
            if decide (a_length args < zlen str) then Ok (mk_cb SPROTO_CB_ERROR self buf 0)
            else
              match a_value args with
              | ABuffer off => buf ← write_at buf off str; Ok (mk_cb (zlen str) self buf 0)
              | _ => Err NullDeref
              end
          else if decide (a_type args = SPROTO_TSTRUCT) then
            match x, a_value args with
            | VTable l, ABuffer off =>
                i ← of_option NullDeref (a_subtype args);
                st ← rd (sp_type sp) i;
                r ← sproto_encode (encode n) st off (a_length args) (new_encode_ud l) buf;
                let '(r, _, buf) := r in
                Ok (mk_cb (if decide (r < 0) then SPROTO_CB_ERROR else r) self buf 0)
            | VTable _, _ => Err NullDeref
            | _, _ => Err (LuaError 0)
            end
          else Err (LuaError 0)
      end
  end.

(** The buffer kept between calls doubles until the message fits. *)
Fixpoint lencode_loop (fuel : nat) (st : sproto_type) (l : lfields) (buf : list Z) : result (list Z * list Z) :=
  r ← sproto_encode (encode ENCODE_DEEPLEVEL) st 0 (zlen buf) (new_encode_ud l) buf;
  let '(r, _, buf) := r in
  if decide (r < 0) then
    match fuel with
    | O => Err OutOfFuel
    | S fuel => sz ← c_int (zlen buf * 2); buf ← expand_buffer (zlen buf) sz; lencode_loop fuel st l buf
    end
  else s ← read_at buf 0 r; Ok (s, buf).
Definition lencode (i : Z) (v : lvalue) (upvalue : list Z) : result (list Z * list Z) :=
  st ← rd (sp_type sp) i;
  match v with
  | VTable l => lencode_loop 24 st l upvalue
  | _ => Err (LuaError 2)
  end.
End Callback.
End Lua.

(** No conversions, for concrete runs that need none. *)
Definition no_numbers : LuaNumbers := {| real2int := λ _, None; str2int := λ _, None; int2str := λ _, []; real2str := λ _, [] |}.
