(* ===== verification/SprotoDecode.v ===== *)
(** * Decoding of messages: lualib-src/sproto/sproto.c and lsproto.c

    [sproto_decode] reads the fields of a message and hands each to a callback; the
    callback of lsproto.c builds a Lua table. The message [m] is a list of bytes and a
    pointer into it an offset, so that a read outside of the message is an error. *)
From stdpp Require Import base numbers list.
From S2P Require Import Prelude CString Seri SprotoPack SprotoSchema SprotoEncode.

Definition expand64 (v : Z) : Z :=
  if decide (Z.land v 0x80000000 ≠ 0) then Z.lor v (u64 (Z.shiftl (Z.lnot 0) 32)) else v.

Section Decode.
Context {UD : Type} (m : list Z).
Context (cb : sproto_arg → UD → result (Z * UD)).

(** The loops end with [None] for an error of the message. Every turn of the first one
    consumes the four bytes of a length. *)
Fixpoint decode_objects (fuel : nat) (args : sproto_arg) (stream sz index : Z) (ud : UD) : result (option UD) :=
  if decide (0 < sz) then
    match fuel with
    | O => Err OutOfFuel
    | S fuel =>
        if decide (sz < SIZEOF_LENGTH) then Ok None
        else
          hsz ← todword m stream;
          let stream := stream + SIZEOF_LENGTH in
          let sz := sz - SIZEOF_LENGTH in
          if decide (sz < hsz) then Ok None
          else
            r ← cb (with_value args (ABuffer stream) (s32 hsz) index) ud;
            if decide (r.1 ≠ 0) then Ok None
            else decode_objects fuel args (stream + hsz) (sz - hsz) (index + 1) r.2
    end
  else Ok (Some ud).
Definition decode_array_object (args : sproto_arg) (stream sz : Z) (ud : UD) : result (option UD) :=
  decode_objects (Z.to_nat sz) args stream sz 1 ud.

(** One integer of the callback; its code is not looked at. *)
Definition put_union (args : sproto_arg) (value index : Z) (ud : UD) : result UD :=
  r ← cb (with_value args (AUnion value) 8 index) ud; Ok r.2.
Definition array32_body (args : sproto_arg) (stream i : Z) (ud : UD) : result UD :=
  v ← todword m (stream + i * 4); put_union args (expand64 v) (i + 1) ud.
Definition array64_body (args : sproto_arg) (stream i : Z) (ud : UD) : result UD :=
  low ← todword m (stream + i * 8); hi ← todword m (stream + i * 8 + 4);
  put_union args (Z.lor low (u64 (Z.shiftl hi 32))) (i + 1) ud.
Definition array_bool_body (args : sproto_arg) (stream i : Z) (ud : UD) : result UD :=
  v ← rd m (stream + i); put_union args v (i + 1) ud.
Definition decode_array (args : sproto_arg) (stream : Z) (ud : UD) : result (option UD) :=
  sz ← todword m stream;
  if decide (sz = 0) then
    r ← cb (with_value args ANull 0 (-1)) ud; Ok (Some r.2)
  else
    let stream := stream + SIZEOF_LENGTH in
    if decide (a_type args = SPROTO_TINTEGER) then
      len ← rd m stream;
      let stream := stream + 1 in
      let sz := sz - 1 in
      if decide (len = 4) then
        if decide (sz `mod` 4 ≠ 0) then Ok None
        else ud ← c_for (Z.to_nat (sz / 4)) 0 (array32_body args stream) ud; Ok (Some ud)
      else if decide (len = 8) then
        if decide (sz `mod` 8 ≠ 0) then Ok None
        else ud ← c_for (Z.to_nat (sz / 8)) 0 (array64_body args stream) ud; Ok (Some ud)
      else Ok None
    else if decide (a_type args = SPROTO_TBOOLEAN) then
      ud ← c_for (Z.to_nat sz) 0 (array_bool_body args stream) ud; Ok (Some ud)
    else if decide (a_type args = SPROTO_TSTRING ∨ a_type args = SPROTO_TSTRUCT) then
      decode_array_object args stream (s32 sz) ud
    else Ok None.

(** A field whose value is in the data part, at [currentdata]. *)
Definition decode_data (f : field) (currentdata : Z) (ud : UD) : result (option UD) :=
  let args := field_arg f (Z.land (f_type f) (Z.lnot SPROTO_TARRAY)) in
  if decide (Z.land (f_type f) SPROTO_TARRAY ≠ 0) then decode_array args currentdata ud
  else if decide (f_type f = SPROTO_TINTEGER) then
    sz ← todword m currentdata;
    if decide (sz = 4) then
      v ← todword m (currentdata + SIZEOF_LENGTH);
      ud ← put_union args (expand64 v) 0 ud; Ok (Some ud)
    else if decide (sz ≠ 8) then Ok None
    else
      low ← todword m (currentdata + SIZEOF_LENGTH);
      hi ← todword m (currentdata + SIZEOF_LENGTH + 4);
      ud ← put_union args (Z.lor low (u64 (Z.shiftl hi 32))) 0 ud; Ok (Some ud)
  else if decide (f_type f = SPROTO_TSTRING ∨ f_type f = SPROTO_TSTRUCT) then
    sz ← todword m currentdata;
    r ← cb (with_value args (ABuffer (currentdata + SIZEOF_LENGTH)) (s32 sz) 0) ud;
    Ok (if decide (r.1 ≠ 0) then None else Some r.2)
  else Ok None.
(** A field whose value is in its word. *)
Definition decode_value (f : field) (value : Z) (ud : UD) : result (option UD) :=
  if decide (f_type f ≠ SPROTO_TINTEGER ∧ f_type f ≠ SPROTO_TBOOLEAN) then Ok None
  else ud ← put_union (field_arg f (Z.land (f_type f) (Z.lnot SPROTO_TARRAY))) value 0 ud; Ok (Some ud).

(** The loop over the words; the result is the size that is left. The test of the size
    against [sz + SIZEOF_LENGTH] is in [uint32_t]. *)
Fixpoint decode_words (n : nat) (st : sproto_type) (i stream datastream size tag : Z) (ud : UD) : result (option (Z * UD)) :=
  match n with
  | O => Ok (Some (size, ud))
  | S n =>
      value ← toword m (stream + i * SIZEOF_FIELD);
      let tag := tag + 1 in
      if decide (Z.land value 1 ≠ 0) then decode_words n st (i + 1) stream datastream size (tag + value / 2) ud
      else
        let value := value / 2 - 1 in
        r ← (if decide (value < 0) then
               if decide (size < SIZEOF_LENGTH) then Ok None
               else
                 sz ← todword m datastream;
                 let step := u32 (sz + SIZEOF_LENGTH) in
                 if decide (size < step) then Ok None else Ok (Some (datastream + step, size - step))
             else Ok (Some (datastream, size)));
        match r with
        | None => Ok None
        | Some (nextdata, size) =>
            f ← findtag st tag;
            match f with
            | None => decode_words n st (i + 1) stream nextdata size tag ud
            | Some f =>
                o ← (if decide (value < 0) then decode_data f datastream ud else decode_value f value ud);
                match o with
                | None => Ok None
                | Some ud => decode_words n st (i + 1) stream nextdata size tag ud
                end
            end
        end
  end.
Definition sproto_decode (st : sproto_type) (data size : Z) (ud : UD) : result (Z * UD) :=
  if decide (size < SIZEOF_HEADER) then Ok (-1, ud)
  else
    fn ← toword m data;
    let stream := data + SIZEOF_HEADER in
    let rest := size - SIZEOF_HEADER in
    if decide (rest < fn * SIZEOF_FIELD) then Ok (-1, ud)
    else
      r ← decode_words (Z.to_nat fn) st 0 stream (stream + fn * SIZEOF_FIELD) (rest - fn * SIZEOF_FIELD) (-1) ud;
      Ok (match r with None => (-1, ud) | Some (rest, ud) => (size - rest, ud) end).
End Decode.

(** ** The callback of lsproto.c *)

(** Keys of tables: two tables are never the same key. *)
Definition same_key (a b : lvalue) : bool :=
  match a, b with
  | VBool x, VBool y => bool_decide (x = y)
  | VInt x, VInt y => bool_decide (x = y)
  | VReal x, VReal y => bool_decide (x = y)
  | VStr x, VStr y => bool_decide (x = y)
  | VPointer x, VPointer y => bool_decide (x = y)
  | _, _ => false
  end.
(** [t[k] = v]; a new key comes behind the others. *)
Fixpoint set_table (l : lfields) (k v : lvalue) : lfields :=
  match l with
  | [] => [(k, v)]
  | (k', v') :: l => if same_key k k' then (k', v) :: l else (k', v') :: set_table l k v
  end.

(** The table under construction, the field that holds the current array, and the value
    of the field that is the key of this table in a map. The array is reached through the
    result table: the names of the fields of a type are distinct. *)
Record decode_ud : Type := mk_dud {
  d_result : lfields;
  d_array_tag : option address;
  d_array : option (list Z);
  d_mainindex_tag : Z;
  d_key : lvalue }.
Definition set_result (d : decode_ud) (l : lfields) : decode_ud := mk_dud l (d_array_tag d) (d_array d) (d_mainindex_tag d) (d_key d).
Definition new_decode_ud (l : lfields) (mainindex_tag : Z) : decode_ud := mk_dud l None None mainindex_tag VNil.
(** [array[k] = v] for the table of the current array. *)
Definition set_array (d : decode_ud) (k v : lvalue) : result decode_ud :=
  a ← of_option NullDeref (d_array d);
  match get_field (d_result d) a with
  | VTable l => Ok (set_result d (set_table (d_result d) (VStr a) (VTable (set_table l k v))))
  | _ => Err NullDeref
  end.
(** The value belongs to an array: a new one starts with an empty table. The first result
    tells that the array is empty and there is no value. *)
Definition open_array (args : sproto_arg) (self : decode_ud) : result (bool * decode_ud) :=
  let tag := n_addr <$> a_tagname args in
  if decide (a_index args ≠ 0 ∧ tag ≠ d_array_tag self) then
    k ← tag_key (a_tagname args);
    Ok (bool_decide (a_index args < 0),
        mk_dud (set_table (d_result self) (VStr k) (VTable [])) tag (Some k) (d_mainindex_tag self) (d_key self))
  else Ok (false, self).
(** The value is stored: in the array, or in the field, and as the key when it is marked. *)
Definition store_value (args : sproto_arg) (self : decode_ud) (x : lvalue) : result decode_ud :=
  if decide (0 < a_index args) then set_array self (VInt (a_index args)) x
  else
    let self := if decide (d_mainindex_tag self = a_tagid args)
                then mk_dud (d_result self) (d_array_tag self) (d_array self) (d_mainindex_tag self) x else self in
    k ← tag_key (a_tagname args);
    Ok (set_result self (set_table (d_result self) (VStr k) x)).
Definition the_union (args : sproto_arg) : result Z :=
  match a_value args with AUnion u => Ok u | _ => Err NullDeref end.
Definition the_buffer (args : sproto_arg) : result Z :=
  match a_value args with ABuffer off => Ok off | _ => Err NullDeref end.

(** What the arguments hold: a value, an entry of a map, or a code to return. *)
Inductive got : Type :=
| GValue (x : lvalue)
| GEntry (k x : lvalue)
| GCode (code : Z).

Section Lua.
Context (sp : sproto) (m : list Z).

Definition get_value (sub : sproto_type → Z → Z → decode_ud → result (Z * decode_ud)) (args : sproto_arg) : result got :=
  if decide (a_type args = SPROTO_TINTEGER) then u ← the_union args; Ok (GValue (VInt (s64 u)))
  else if decide (a_type args = SPROTO_TBOOLEAN) then u ← the_union args; Ok (GValue (VBool (bool_decide (s32 u ≠ 0))))
  else if decide (a_type args = SPROTO_TSTRING) then
    off ← the_buffer args; s ← lua_pushlstring (a_length args) (read_at m off (a_length args)); Ok (GValue (VStr s))
  else if decide (a_type args = SPROTO_TSTRUCT) then
    off ← the_buffer args;
    i ← of_option NullDeref (a_subtype args);
    st ← rd (sp_type sp) i;
    r ← sub st off (a_length args) (new_decode_ud [] (if decide (0 ≤ a_mainindex args) then a_mainindex args else -1));
    let '(r, d) := r in
    if decide (r < 0) then Ok (GCode SPROTO_CB_ERROR)
    else if decide (r ≠ a_length args) then Ok (GCode r)
    else if decide (0 ≤ a_mainindex args) then
      match d_key d with
      | VNil => Err (LuaError 0)
      | k => Ok (GEntry k (VTable (d_result d)))
      end
    else Ok (GValue (VTable (d_result d)))
  else Err (LuaError 0).

(** [n] is the number of levels left: ENCODE_DEEPLEVEL less the depth. *)
Fixpoint decode (n : nat) (args : sproto_arg) (self : decode_ud) : result (Z * decode_ud) :=
  match n with
  | O => Err (LuaError 0)
  | S n =>
      r ← open_array args self;
      let '(is_empty, self) := r in
      if (is_empty : bool) then Ok (0, self)
      else
        g ← get_value (sproto_decode m (decode n)) args;
        match g with
        | GCode code => Ok (code, self)
        | GEntry k x => self ← set_array self k x; Ok (0, self)
        | GValue x => self ← store_value args self x; Ok (0, self)
        end
  end.
End Lua.

(** [ldecode] on a string or userdata, into the table given or a new one: the table and
    the number of bytes read. *)
Definition ldecode (sp : sproto) (i : Z) (m : list Z) (target : lfields) : result (lfields * Z) :=
  st ← rd (sp_type sp) i;
  r ← sproto_decode m (decode sp m ENCODE_DEEPLEVEL) st 0 (s32 (zlen m)) (new_decode_ud target (-1));
  let '(r, d) := r in
  if decide (r < 0) then Err (LuaError 0) else Ok (d_result d, r).
