(* ===== verification/SprotoWire.v ===== *)
(** * The encoding of messages, as a specification

    [table_ok] says that a Lua table is a message of a type, [wire] is the bytes of the
    message, [need] a size of the buffer that is always enough, and [picture] the table a
    decoder builds from the bytes. All are by recursion on the number of levels a message
    may still be nested. *)
From stdpp Require Import base numbers list.
From S2P Require Import Prelude CString Seri SprotoPack SprotoSchema SprotoEncode SprotoDecode.

Global Instance nil_dec (x : lvalue) : Decision (x = VNil).
Proof. destruct x; (by left) || (by right). Defined.

(** The key of a field in Lua tables. *)
Definition fkey (f : field) : list Z := match f_name f with Some n => until_nul (n_text n) | None => [] end.
Definition faddr (f : field) : option address := n_addr <$> f_name f.

(** The elements of an array: the values at 1, 2, ... up to the first nil, or all values
    of a map. *)
Fixpoint seq_items (fuel : nat) (l : lfields) (i : Z) : list lvalue :=
  match fuel with
  | O => []
  | S fuel => match get_index l i with VNil => [] | v => v :: seq_items fuel l (i + 1) end
  end.
Definition items (f : field) (l : lfields) : list lvalue :=
  if decide (0 ≤ f_key f) then l.*2 else seq_items (length l) l 1.

Definition small_int (x : lvalue) : bool := match x with VInt i => bool_decide (- 2 ^ 31 ≤ i < 2 ^ 31) | _ => false end.
Definition blob (b : list Z) : list Z := le32 (zlen b) ++ b.

Section Spec.
Context (sp : sproto).
Definition subtype (f : field) : option sproto_type := i ← f_st f; sp_type sp !! Z.to_nat i.

(** ** Messages of a type *)
Definition elem_ok (sub : sproto_type → lfields → Prop) (f : field) (x : lvalue) : Prop :=
  match x with
  | VInt i => f_base f = SPROTO_TINTEGER ∧ - 2 ^ 63 ≤ i < 2 ^ 63
  | VBool _ => f_base f = SPROTO_TBOOLEAN
  | VStr _ => f_base f = SPROTO_TSTRING
  | VTable l => f_base f = SPROTO_TSTRUCT ∧ ∃ t, subtype f = Some t ∧ sub t l
  | _ => False
  end.
(** Each entry of a map is a message whose main field is the key of the entry. *)
Definition map_ok (f : field) (l : lfields) : Prop :=
  ∃ t g, subtype f = Some t ∧ g ∈ t_f t ∧ f_tag g = f_key f ∧ is_array g = false ∧ f_base g ≠ SPROTO_TSTRUCT ∧
    NoDup l.*1 ∧ Forall (λ kx, ∃ e, kx.2 = VTable e ∧ get_field e (fkey g) = kx.1 ∧ kx.1 ≠ VNil) l.
Definition field_ok (sub : sproto_type → lfields → Prop) (f : field) (x : lvalue) : Prop :=
  if is_array f then
    match x with
    | VTable l => Forall (elem_ok sub f) (items f l) ∧ (0 ≤ f_key f → map_ok f l)
    | _ => False
    end
  else f_key f < 0 ∧ elem_ok sub f x.
Fixpoint table_ok (n : nat) (t : sproto_type) (l : lfields) : Prop :=
  match n with
  | O => False
  | S n => Forall (λ f, get_field l (fkey f) = VNil ∨ field_ok (table_ok n) f (get_field l (fkey f))) (t_f t)
  end.

(** ** Bytes *)
Definition elem_bytes (sub : sproto_type → lfields → list Z) (f : field) (x : lvalue) : list Z :=
  match x with
  | VStr s => s
  | VTable l => match subtype f with Some t => sub t l | None => [] end
  | _ => []
  end.
Definition int_bits (x : lvalue) : Z := match x with VInt i => i | _ => 0 end.
Definition bool_bits (x : lvalue) : Z := match x with VBool true => 1 | _ => 0 end.
Definition array_bytes (sub : sproto_type → lfields → list Z) (f : field) (xs : list lvalue) : list Z :=
  if decide (f_base f = SPROTO_TINTEGER) then
    match xs with
    | [] => []
    | _ => if forallb small_int xs then 4 :: concat ((λ x, le32 (u32 (int_bits x))) <$> xs)
           else 8 :: concat ((λ x, le64 (u64 (int_bits x))) <$> xs)
    end
  else if decide (f_base f = SPROTO_TBOOLEAN) then bool_bits <$> xs
  else concat ((blob ∘ elem_bytes sub f) <$> xs).
(** The word of a field and its part of the data. *)
Definition scalar_wire (sub : sproto_type → lfields → list Z) (f : field) (x : lvalue) : Z * list Z :=
  match x with
  | VInt i =>
      if small_int x then if decide (u32 i < 0x7fff) then ((u32 i + 1) * 2, []) else (0, blob (le32 (u32 i)))
      else (0, blob (le64 (u64 i)))
  | VBool b => (if b then 4 else 2, [])
  | _ => (0, blob (elem_bytes sub f x))
  end.
Definition field_wire (sub : sproto_type → lfields → list Z) (f : field) (x : lvalue) : option (Z * list Z) :=
  match x with
  | VNil => None
  | VTable l => Some (if is_array f then (0, blob (array_bytes sub f (items f l))) else scalar_wire sub f x)
  | _ => Some (scalar_wire sub f x)
  end.
Definition entries (sub : sproto_type → lfields → list Z) (fs : list field) (l : lfields) : list (Z * (Z * list Z)) :=
  omap (λ f, pair (f_tag f) <$> field_wire sub f (get_field l (fkey f))) fs.
Fixpoint words (last : Z) (es : list (Z * (Z * list Z))) : list Z :=
  match es with
  | [] => []
  | (tag, (value, _)) :: es =>
      (if decide (0 < tag - last - 1) then [(tag - last - 1 - 1) * 2 + 1; value] else [value]) ++ words tag es
  end.
Definition data_of (es : list (Z * (Z * list Z))) : list Z := concat ((snd ∘ snd) <$> es).
Definition message_bytes (es : list (Z * (Z * list Z))) : list Z :=
  le16 (zlen (words (-1) es)) ++ concat (le16 <$> words (-1) es) ++ data_of es.
Fixpoint wire (n : nat) (t : sproto_type) (l : lfields) : list Z :=
  match n with
  | O => []
  | S n => message_bytes (entries (wire n) (t_f t) l)
  end.

(** ** Room *)
Definition sum_of {A} (g : A → Z) (l : list A) : Z := foldr (λ x s, g x + s) 0 l.
Definition elem_need (sub : sproto_type → lfields → Z) (f : field) (x : lvalue) : Z :=
  match x with
  | VStr s => zlen s
  | VTable l => match subtype f with Some t => sub t l | None => 0 end
  | _ => 0
  end.
Definition field_items (f : field) (x : lvalue) : list lvalue :=
  match x with
  | VNil => []
  | VTable l => if is_array f then items f l else [x]
  | _ => [x]
  end.
Definition field_need (sub : sproto_type → lfields → Z) (f : field) (x : lvalue) : Z :=
  12 + sum_of (λ y, 8 + elem_need sub f y) (field_items f x).
Fixpoint need (n : nat) (t : sproto_type) (l : lfields) : Z :=
  match n with
  | O => 0
  | S n => SIZEOF_HEADER + t_maxn t * SIZEOF_FIELD + sum_of (λ f, field_need (need n) f (get_field l (fkey f))) (t_f t)
  end.

(** No array of integers starts with one of 32 bits and holds one of 64. *)
Definition even_ints (xs : list lvalue) : Prop :=
  match xs with [] => True | x :: _ => small_int x = true → forallb small_int xs = true end.
Definition field_even (sub : sproto_type → lfields → Prop) (f : field) (x : lvalue) : Prop :=
  (f_base f = SPROTO_TINTEGER → even_ints (field_items f x)) ∧
  Forall (λ y, match y with VTable l => ∀ t, subtype f = Some t → sub t l | _ => True end) (field_items f x).
Fixpoint table_even (n : nat) (t : sproto_type) (l : lfields) : Prop :=
  match n with
  | O => True
  | S n => Forall (λ f, field_even (table_even n) f (get_field l (fkey f))) (t_f t)
  end.

(** ** The decoded table: the fields of the type that are there, in the order of the type *)
Definition elem_picture (sub : sproto_type → lfields → lfields) (f : field) (x : lvalue) : lvalue :=
  match x with
  | VTable l => VTable (match subtype f with Some t => sub t l | None => [] end)
  | _ => x
  end.
Definition field_picture (sub : sproto_type → lfields → lfields) (f : field) (x : lvalue) : lvalue :=
  if is_array f then
    match x with
    | VTable l => VTable (if decide (0 ≤ f_key f) then (λ kx, (kx.1, elem_picture sub f kx.2)) <$> l
                          else imap (λ i y, (VInt (Z.of_nat i + 1), elem_picture sub f y)) (items f l))
    | _ => x
    end
  else elem_picture sub f x.
Fixpoint picture (n : nat) (t : sproto_type) (l : lfields) : lfields :=
  match n with
  | O => []
  | S n => omap (λ f, match get_field l (fkey f) with VNil => None | x => Some (VStr (fkey f), field_picture (picture n) f x) end) (t_f t)
  end.
End Spec.

(** The descriptions the codec works with: well formed, with distinct names in a type. *)
Record schema_ok (sp : sproto) : Prop := {
  so_wf : sproto_wf sp;
  so_names : Forall (λ t, NoDup (fkey <$> t_f t)) (sp_type sp) }.
Lemma example_schema_ok : schema_ok example_sproto.
Proof.
  split.
  - apply (sproto_create_wf example_bundle); [|vm_compute; reflexivity|vm_compute; reflexivity]. apply (bool_decide_eq_true_1 _). vm_compute. reflexivity.
  - apply (bool_decide_eq_true_1 _). vm_compute. reflexivity.
Qed.
