(* ===== verification/SprotoEncodeProps.v ===== *)
(** * The encoder writes the specified bytes

    For a message of the type, the buffer then holds [wire] of the message, or the encoder
    reports that the buffer is too small, which it does not when it has [need] bytes. No
    write leaves the buffer, as long as no array of integers is widened in a buffer that
    is too small. *)
From stdpp Require Import base numbers list.
From S2P Require Import Prelude CString Seri SprotoPack SprotoSchema SprotoEncode SprotoDecode SprotoWire.

(** ** Regions of a buffer *)

Definition holds (buf : list Z) (i : Z) (b : list Z) : Prop :=
  0 ≤ i ∧ ∀ k x, b !! k = Some x → buf !! (Z.to_nat i + k)%nat = Some x.
(** Nothing in front of [i] changes. *)
Definition frame (i : Z) (buf buf' : list Z) : Prop :=
  zlen buf' = zlen buf ∧ ∀ k, Z.of_nat k < i → buf' !! k = buf !! k.

Lemma frame_refl i buf : frame i buf buf.
Proof. done. Qed.
Lemma frame_trans i b1 b2 b3 : frame i b1 b2 → frame i b2 b3 → frame i b1 b3.
Proof. intros [H1 H2] [H3 H4]. split; [lia|]. intros k Hk. by rewrite H4, H2. Qed.
Lemma frame_le i j b1 b2 : frame j b1 b2 → i ≤ j → frame i b1 b2.
Proof. intros [H1 H2] H. split; [done|]. intros k Hk. apply H2. lia. Qed.
Lemma frame_zlen i b1 b2 : frame i b1 b2 → zlen b2 = zlen b1.
Proof. by intros []. Qed.

Lemma holds_nil buf i : 0 ≤ i → holds buf i [].
Proof. by split. Qed.
Lemma holds_app buf i a b : holds buf i (a ++ b) ↔ holds buf i a ∧ holds buf (i + zlen a) b.
Proof.
  unfold holds, zlen. split.
  - intros [Hi H]. split; split; try lia; intros k x Hk.
    + apply H. by apply lookup_app_l_Some.
    + replace (Z.to_nat (i + Z.of_nat (length a)) + k)%nat with (Z.to_nat i + (length a + k))%nat by lia. apply H.
      rewrite lookup_app_r by lia. rewrite <- Hk. f_equal. lia.
  - intros [[Hi H1] [_ H2]]. split; [done|]. intros k x [Hk|[Hge Hk]]%lookup_app_Some; [by apply H1|].
    rewrite <- (H2 _ x Hk). f_equal. lia.
Qed.
Lemma holds_frame buf buf' i b j : holds buf i b → frame j buf buf' → i + zlen b ≤ j → holds buf' i b.
Proof.
  intros [Hi H] [_ F] Hj. split; [done|]. intros k x Hk. apply lookup_lt_Some in Hk as Hl. unfold zlen in *. rewrite F by lia. by apply H.
Qed.

(** A write: the bytes are there, the rest is as before. *)
Lemma lookup_over b i l k :
  (i + length l ≤ length b)%nat →
  over b i l !! k = if decide (i ≤ k < i + length l)%nat then l !! (k - i)%nat else b !! k.
Proof.
  intros H. unfold over. case_decide as Hk.
  - rewrite lookup_app_r by (rewrite length_take; lia). rewrite length_take, lookup_app_l by lia. f_equal. lia.
  - destruct (decide (k < i)%nat).
    + rewrite lookup_app_l by (rewrite length_take; lia). by rewrite lookup_take_lt by lia.
    + rewrite lookup_app_r by (rewrite length_take; lia). rewrite length_take, lookup_app_r by lia. rewrite lookup_drop. f_equal. lia.
Qed.
Lemma write_spec buf i l :
  0 ≤ i → i + zlen l ≤ zlen buf →
  ∃ buf', write_at buf i l = Ok buf' ∧ frame i buf buf' ∧ holds buf' i l ∧
    ∀ j b, holds buf j b → j + zlen b ≤ i ∨ i + zlen l ≤ j → holds buf' j b.
Proof.
  intros Hi Hl. rewrite write_at_over by done. eexists. split; [done|]. unfold zlen in *. split_and!.
  - split; [unfold zlen; by rewrite over_length by lia|]. intros k Hk. rewrite lookup_over by lia. by rewrite decide_False by lia.
  - split; [done|]. intros k x Hk. apply lookup_lt_Some in Hk as Hkl. rewrite lookup_over by lia. rewrite decide_True by lia. rewrite <- Hk. f_equal. lia.
  - intros j b [Hj Hb] Hd. split; [done|]. intros k x Hk. apply lookup_lt_Some in Hk as Hkl. rewrite lookup_over by lia.
    rewrite decide_False by lia. by apply Hb.
Qed.
Lemma wr_write buf i x : wr buf i x = write_at buf i [x].
Proof.
  unfold wr, write_at, zlen. cbn [length]. destruct (decide (0 ≤ i < _)).
  - rewrite decide_True by lia. f_equal. rewrite over_one by lia. done.
  - by rewrite decide_False by lia.
Qed.
Lemma holds_read buf i b : holds buf i b → i + zlen b ≤ zlen buf → read_at buf i (zlen b) = Ok b.
Proof.
  intros [Hi H] Hl. unfold read_at. pose proof (zlen_nonneg b). rewrite decide_True by done. f_equal. unfold zlen in *. rewrite Nat2Z.id.
  apply list_eq_same_length with (n := length b); [done|rewrite length_take, length_drop; lia|].
  intros k x y Hk H1 H2. rewrite lookup_take_lt in H1 by lia. rewrite lookup_drop in H1. specialize (H k y H2). congruence.
Qed.

(** ** Sizes *)

Lemma le16_zlen v : zlen (le16 v) = 2.
Proof. done. Qed.
Lemma le32_zlen v : zlen (le32 v) = 4.
Proof. done. Qed.
Lemma le64_zlen v : zlen (le64 v) = 8.
Proof. done. Qed.
Lemma blob_zlen b : zlen (blob b) = 4 + zlen b.
Proof. unfold blob. by rewrite zlen_app, le32_zlen. Qed.

Lemma fill_size_spec buf data b :
  0 ≤ data → holds buf (data + 4) b → data + 4 + zlen b ≤ zlen buf →
  ∃ buf', fill_size buf data (zlen b) = Ok (zlen (blob b), buf') ∧ frame data buf buf' ∧ holds buf' data (blob b).
Proof.
  intros Hd Hb Hl. pose proof (zlen_nonneg b). destruct (write_spec buf data (le32 (zlen b))) as (buf' & E & F & H1 & H2); [done|rewrite le32_zlen; lia|].
  exists buf'. unfold fill_size. rewrite E, bind_Ok, blob_zlen. split; [unfold SIZEOF_LENGTH; do 2 f_equal; lia|]. split; [done|].
  unfold blob. apply holds_app. split; [done|]. rewrite le32_zlen. apply H2; [done|]. right. rewrite le32_zlen. lia.
Qed.

(** ** The items of an array *)

Lemma get_index_in l i : get_index l i ≠ VNil → VInt i ∈ l.*1.
Proof.
  induction l as [|[[] v] l IH]; cbn; try (intros H; right; by apply IH); [done|].
  destruct (decide (i0 = i)) as [->|]; [left|]. intros H. right. by apply IH.
Qed.
Lemma index_bound l i n : (∀ k, (k < n)%nat → get_index l (i + Z.of_nat k) ≠ VNil) → (n ≤ length l)%nat.
Proof.
  intros H. assert ((λ k, VInt (i + Z.of_nat k)) <$> seq 0 n ⊆+ l.*1) as Hs%submseteq_length.
  { apply NoDup_submseteq.
    - apply NoDup_fmap_2_strong; [|apply NoDup_seq]. intros a b _ _ [= E]. lia.
    - intros x (k & -> & Hk)%list_elem_of_fmap. apply get_index_in, H. apply elem_of_seq in Hk. lia. }
  by rewrite !length_fmap, length_seq in Hs.
Qed.
Lemma seq_items_lookup fuel l i k x :
  seq_items fuel l i !! k = Some x → get_index l (i + Z.of_nat k) = x ∧ x ≠ VNil.
Proof.
  revert i k. induction fuel as [|fuel IH]; intros i k H; cbn in H; [done|].
  destruct (get_index l i) eqn:E; try done; (destruct k as [|k]; [injection H as <-; rewrite Z.add_0_r; by rewrite E|]);
    apply IH in H as [H1 H2]; (split; [|done]); rewrite <- H1; f_equal; lia.
Qed.
Lemma seq_items_short fuel l i :
  (length (seq_items fuel l i) < fuel)%nat → get_index l (i + zlen (seq_items fuel l i)) = VNil.
Proof.
  unfold zlen. revert i. induction fuel as [|fuel IH]; intros i H; cbn in *; [lia|].
  destruct (get_index l i) eqn:E; cbn in *; try (rewrite <- (IH (i + 1)) by lia; f_equal; lia). by rewrite Z.add_0_r.
Qed.
Lemma items_end l : get_index l (1 + zlen (seq_items (length l) l 1)) = VNil.
Proof.
  destruct (decide (length (seq_items (length l) l 1) < length l)%nat); [by apply seq_items_short|].
  destruct (decide (get_index l (1 + zlen (seq_items (length l) l 1)) = VNil)) as [|Hn]; [done|]. exfalso.
  pose proof (index_bound l 1 (S (length (seq_items (length l) l 1)))) as B. cut (S (length (seq_items (length l) l 1)) ≤ length l)%nat; [lia|].
  apply B. intros k Hk. destruct (decide (k = length (seq_items (length l) l 1))) as [->|]; [done|].
  destruct (lookup_lt_is_Some_2 (seq_items (length l) l 1) k) as [x Hx]; [lia|]. apply seq_items_lookup in Hx as [-> ?]. done.
Qed.

(** ** Integers of 32 and 64 bits *)

Lemma land_bit x k : 0 ≤ k → Z.land x (2 ^ k) ≠ 0 ↔ Z.testbit x k = true.
Proof.
  intros Hk. assert (Z.land x (2 ^ k) = if Z.testbit x k then 2 ^ k else 0) as ->.
  { apply Z.bits_inj'. intros n Hn. rewrite Z.land_spec, Z.pow2_bits_eqb by done. destruct (Z.eqb_spec k n) as [->|].
    - destruct (Z.testbit x n); [by rewrite Z.pow2_bits_true|by rewrite Z.bits_0].
    - rewrite andb_false_r. destruct (Z.testbit x k); [by rewrite Z.pow2_bits_false|by rewrite Z.bits_0]. }
  pose proof (pow2_pos k Hk). destruct (Z.testbit x k); split; intros; try lia; done.
Qed.
Lemma u32_small i : - 2 ^ 31 ≤ i < 2 ^ 31 → u32 i = if decide (i < 0) then i + 2 ^ 32 else i.
Proof. intros. unfold uwrap. case_decide; [rewrite <- (Z.mod_add i 1) by lia|]; rewrite Z.mod_small; lia. Qed.
Lemma u64_signed i : - 2 ^ 63 ≤ i < 2 ^ 63 → u64 i = if decide (i < 0) then i + 2 ^ 64 else i.
Proof. intros. unfold uwrap. case_decide; [rewrite <- (Z.mod_add i 1) by lia|]; rewrite Z.mod_small; lia. Qed.
Lemma sign_bit i : - 2 ^ 31 ≤ i < 2 ^ 31 → Z.land (u32 i) 0x80000000 ≠ 0 ↔ i < 0.
Proof.
  intros Hi. change 0x80000000 with (2 ^ 31). rewrite land_bit by lia. rewrite u32_small by done. rewrite Z.testbit_true by lia. case_decide.
  - replace ((i + 2 ^ 32) / 2 ^ 31) with 1; [done|]. apply (Z.div_unique _ _ _ (i + 2 ^ 31)); lia.
  - rewrite Z.div_small by lia. split; [done|lia].
Qed.
Lemma sign_byte i : - 2 ^ 31 ≤ i < 2 ^ 31 → Z.land (Z.land (Z.shiftr (u32 i) 24) 0xff) 0x80 ≠ 0 ↔ i < 0.
Proof.
  intros Hi. rewrite <- sign_bit by done. change 0x80000000 with (2 ^ 31). change 0x80 with (2 ^ 7). rewrite !land_bit by lia.
  rewrite Z.land_spec, Z.shiftr_spec by lia. change (7 + 24) with 31. change (Z.testbit 255 7) with true. by rewrite andb_true_r.
Qed.
(** The bytes of a number are those of its value modulo 2^32. *)
Lemma le32_mod v : le32 v = le32 (u32 v).
Proof.
  unfold le32. change 0xff with (2 ^ 8 - 1). rewrite !land_ones_mod, !Z.shiftr_div_pow2 by lia.
  assert (∀ k, 0 ≤ k ≤ 24 → (v / 2 ^ k) `mod` 2 ^ 8 = (u32 v / 2 ^ k) `mod` 2 ^ 8) as H.
  { intros k Hk. unfold uwrap. rewrite <- !Z.shiftr_div_pow2, <- !Z.land_ones by lia. apply Z.bits_inj'. intros n Hn.
    rewrite !Z.land_spec, !Z.shiftr_spec, Z.land_spec by done. destruct (decide (n < 8)); [rewrite (Z.ones_spec_low 32) by lia; by rewrite andb_true_r|].
    rewrite (Z.ones_spec_high 8) by lia. by rewrite !andb_false_r. }
  rewrite <- (Z.div_1_r v) at 1. rewrite <- (Z.div_1_r (u32 v)) at 1. change 1 with (2 ^ 0). by rewrite !H by lia.
Qed.
Lemma le64_small i :
  - 2 ^ 31 ≤ i < 2 ^ 31 → le64 (u64 i) = le32 (u32 i) ++ (if decide (i < 0) then [0xff; 0xff; 0xff; 0xff] else [0; 0; 0; 0]).
Proof.
  intros Hi. unfold le64. rewrite le32_mod. f_equal.
  - f_equal. unfold uwrap. apply mod_pow2_mod. lia.
  - rewrite u64_signed by lia. rewrite Z.shiftr_div_pow2 by lia. case_decide.
    + replace ((i + 2 ^ 64) / 2 ^ 32) with (2 ^ 32 - 1); [done|]. apply (Z.div_unique _ _ _ (i + 2 ^ 32)); lia.
    + by rewrite Z.div_small by lia.
Qed.

(** A value of another type than the field's. *)
Ltac wrong_type Hf Hx :=
  lazymatch type of Hx with
  | False => done
  | _ = _ => rewrite Hf in Hx; discriminate Hx
  | _ ∧ _ => let Hb := fresh in destruct Hx as [Hb _]; rewrite Hf in Hb; discriminate Hb
  end.

(** ** The callback of lsproto.c on a message *)

Section Callback.
Context {LN : LuaNumbers} (sp : sproto).

(** The callback is about to deliver the items of the array [f] from the [k]th on. *)
Record ready (tbl : lfields) (f : field) (l : lfields) (k : nat) (self : encode_ud) : Prop := {
  rdy_tbl : e_tbl self = tbl;
  rdy_start : k = 0%nat → faddr f ≠ e_array_tag self ∧ get_field tbl (fkey f) = VTable l ∧ e_iter self = None;
  rdy_later : (0 < k)%nat → faddr f = e_array_tag self ∧ e_array self = Some l ∧ (if decide (0 ≤ f_key f) then e_iter self = Some (drop k l) else e_iter self = None) }.
(** In front of the fields [fs] the iterator is nil and the array is of none of them. *)
Record idle (tbl : lfields) (fs : list field) (self : encode_ud) : Prop := {
  idl_tbl : e_tbl self = tbl;
  idl_iter : e_iter self = None;
  idl_tag : Forall (λ f, faddr f ≠ e_array_tag self) fs }.

(** The arguments ask for the item [index] of the field. *)
Definition asks (args : sproto_arg) (f : field) (index : Z) : Prop :=
  a_tagname args = f_name f ∧ a_type args = f_base f ∧ a_subtype args = f_st f ∧ a_index args = index ∧ a_mainindex args = f_key f.

Lemma tag_key_Ok f : f_name f ≠ None → tag_key (f_name f) = Ok (fkey f).
Proof. unfold tag_key, name_text, fkey. by destruct (f_name f). Qed.

(** The array is fetched once. *)
Lemma array_fetched tbl f l k self args index :
  f_name f ≠ None → asks args f index → ready tbl f l k self →
  array_value args self =
    (if decide (0 ≤ f_key f) then
       match drop k l with
       | [] => Ok (inl SPROTO_CB_NIL, mk_eud tbl (faddr f) (Some l) None)
       | (_, v) :: rest => Ok (inr v, mk_eud tbl (faddr f) (Some l) (Some rest))
       end
     else Ok (inr (get_index l index), mk_eud tbl (faddr f) (Some l) None)).
Proof.
  intros Hn (A1 & _ & _ & A4 & A5) [R1 R2 R3]. unfold array_value. rewrite A1, A4, A5. fold (faddr f). destruct self as [tb tg ar it]. cbn in *. subst tb.
  destruct (decide (k = 0%nat)) as [->|Hk].
  - destruct R2 as (R21 & R22 & ->); [done|]. rewrite decide_True, tag_key_Ok, bind_Ok, R22, bind_Ok by done. cbn. rewrite drop_0.
    case_decide; [|done]. by destruct l as [|[]].
  - destruct R3 as (<- & -> & R3); [lia|]. rewrite decide_False by auto. rewrite bind_Ok. cbn. case_decide; [|by rewrite R3].
    rewrite R3. cbn. by destruct (drop k l) as [|[]].
Qed.

Lemma deliver tbl f l k self args x :
  f_name f ≠ None → asks args f (Z.of_nat k + 1) → ready tbl f l k self → items f l !! k = Some x →
  ∃ self', table_value args self = Ok (inr x, self') ∧ ready tbl f l (S k) self'.
Proof.
  intros Hn A R Hx. unfold table_value. rewrite decide_True by (destruct A as (_ & _ & _ & -> & _); lia).
  rewrite (array_fetched tbl f l k self args _ Hn A R). unfold items in Hx. case_decide as Hk.
  - rewrite list_lookup_fmap in Hx. destruct (l !! k) as [[key v]|] eqn:El; cbn in Hx; [|done]. injection Hx as ->.
    rewrite (drop_S l (key, x) k El). eexists. split; [done|]. split; cbn; [done|lia|]. intros _. rewrite decide_True by done. done.
  - apply seq_items_lookup in Hx as [Hx _]. replace (Z.of_nat k + 1) with (1 + Z.of_nat k) by lia. rewrite Hx. eexists. split; [done|].
    split; cbn; [done|lia|]. intros _. by rewrite decide_False.
Qed.

(** After the last item. *)
Lemma deliver_end n tbl f l k self args buf :
  f_name f ≠ None → asks args f (Z.of_nat k + 1) → ready tbl f l k self → k = length (items f l) →
  encode sp (S n) args self buf = Ok (mk_cb SPROTO_CB_NIL (mk_eud tbl (faddr f) (Some l) None) buf 0).
Proof.
  intros Hn A R Hk. cbn [encode]. unfold table_value. rewrite decide_True by (destruct A as (_ & _ & _ & -> & _); lia).
  rewrite (array_fetched tbl f l k self args _ Hn A R). unfold items in Hk. case_decide.
  - rewrite length_fmap in Hk. rewrite drop_ge by lia. done.
  - replace (Z.of_nat k + 1) with (1 + zlen (seq_items (length l) l 1)) by (unfold zlen; lia). by rewrite items_end.
Qed.

(** ** One value *)

Definition int_code (x : lvalue) : Z := if small_int x then 4 else 8.
Definition int_union (x : lvalue) : Z := if small_int x then u32 (int_bits x) else u64 (int_bits x).
Lemma shift31 i : (Z.shiftr i 31 = 0 ∨ Z.shiftr i 31 = -1) ↔ - 2 ^ 31 ≤ i < 2 ^ 31.
Proof. rewrite Z.shiftr_div_pow2 by lia. pose proof (Z.div_mod i (2 ^ 31)). pose proof (Z.mod_pos_bound i (2 ^ 31)). lia. Qed.

Lemma encode_int n sub args self self' buf f x :
  table_value args self = Ok (inr x, self') → a_type args = f_base f → f_base f = SPROTO_TINTEGER → elem_ok sp sub f x →
  encode sp (S n) args self buf = Ok (mk_cb (int_code x) self' buf (int_union x)).
Proof.
  intros Ht Ha Hf Hx. cbn [encode]. rewrite Ht, bind_Ok. destruct x; cbn in Hx; try wrong_type Hf Hx.
  rewrite Ha, decide_True by done. cbn [lua_tointegerx of_option]. rewrite bind_Ok. cbv zeta. unfold int_code, int_union. cbn [small_int int_bits].
  rewrite (bool_decide_ext _ _ (iff_sym (shift31 i))). by case_bool_decide; case_decide; try tauto.
Qed.
Lemma encode_bool n sub args self self' buf f x :
  table_value args self = Ok (inr x, self') → a_type args = f_base f → f_base f = SPROTO_TBOOLEAN → elem_ok sp sub f x →
  encode sp (S n) args self buf = Ok (mk_cb 4 self' buf (bool_bits x)).
Proof.
  intros Ht Ha Hf Hx. cbn [encode]. rewrite Ht, bind_Ok. destruct x; cbn in Hx; try wrong_type Hf Hx.
  rewrite Ha, Hf. rewrite decide_False, decide_True by done. by destruct b.
Qed.

(** ** Arrays of integers *)

Definition int_bytes (intlen : Z) (x : lvalue) : list Z :=
  if decide (intlen = 4) then le32 (u32 (int_bits x)) else le64 (u64 (int_bits x)).
Definition ints (intlen : Z) (xs : list lvalue) : list Z := concat (int_bytes intlen <$> xs).
Lemma int_bytes_zlen intlen x : intlen = 4 ∨ intlen = 8 → zlen (int_bytes intlen x) = intlen.
Proof. unfold int_bytes. intros [->| ->]; done. Qed.
Lemma ints_zlen intlen xs : intlen = 4 ∨ intlen = 8 → zlen (ints intlen xs) = intlen * zlen xs.
Proof.
  intros H. induction xs as [|x xs IH]; [unfold zlen; cbn; lia|]. change (ints intlen (x :: xs)) with (int_bytes intlen x ++ ints intlen xs).
  rewrite zlen_app, int_bytes_zlen, IH, zlen_cons by done. lia.
Qed.
Lemma ints_app intlen xs ys : ints intlen (xs ++ ys) = ints intlen xs ++ ints intlen ys.
Proof. unfold ints. by rewrite fmap_app, concat_app. Qed.

Lemma small_range x : small_int x = true → - 2 ^ 31 ≤ int_bits x < 2 ^ 31.
Proof. destruct x; cbn; try done. apply bool_decide_eq_true_1. Qed.

(** The upper half of an integer in the buffer. *)
Lemma widen_spec negative buf buffer i :
  - 2 ^ 31 ≤ i < 2 ^ 31 → (negative ≠ 0 ↔ i < 0) → 0 ≤ buffer → buffer + 8 ≤ zlen buf → holds buf buffer (le32 (u32 i)) →
  ∃ buf', uint32_to_uint64 negative buf buffer = Ok buf' ∧ frame buffer buf buf' ∧ holds buf' buffer (le64 (u64 i)) ∧
    ∀ j b, holds buf j b → j + zlen b ≤ buffer ∨ buffer + 8 ≤ j → holds buf' j b.
Proof.
  intros Hi Hneg Hb Hl Hh. unfold uint32_to_uint64.
  destruct (write_spec buf (buffer + 4) (if decide (negative ≠ 0) then [0xff; 0xff; 0xff; 0xff] else [0; 0; 0; 0])) as (buf' & E & F & H1 & H2);
    [lia|case_decide; (unfold zlen in *; cbn; lia)|].
  assert (∀ c : bool, zlen (if c then [0xff; 0xff; 0xff; 0xff] else [0; 0; 0; 0]) = 4) as Hz by (by intros []).
  assert (zlen (if decide (negative ≠ 0) then [0xff; 0xff; 0xff; 0xff] else [0; 0; 0; 0]) = 4) as Hz2 by (by case_decide).
  exists buf'. split; [done|]. split; [eapply frame_le; [done|lia]|]. split.
  - rewrite le64_small by done. apply holds_app. split; [apply H2; [done|left; rewrite le32_zlen; lia]|]. rewrite le32_zlen.
    by rewrite (decide_ext (i < 0) (negative ≠ 0)) by (symmetry; done).
  - intros j b Hj Hd. apply H2; [done|]. rewrite Hz2. lia.
Qed.

Lemma widen_body_spec header k buf x :
  0 ≤ header → 0 ≤ k → small_int x = true → header + 1 + k * 8 + 8 ≤ zlen buf → holds buf (header + 1 + k * 4) (int_bytes 4 x) →
  ∃ buf', widen_body header k buf = Ok buf' ∧ frame (header + 1 + k * 8) buf buf' ∧ holds buf' (header + 1 + k * 8) (int_bytes 8 x) ∧
    ∀ j b, holds buf j b → j + zlen b ≤ header + 1 + k * 8 ∨ header + 1 + k * 8 + 8 ≤ j → holds buf' j b.
Proof.
  intros Hh Hk Hx%small_range Hl Hb. unfold widen_body, int_bytes in *. rewrite decide_True in Hb by done. rewrite decide_False by done.
  pose proof (holds_read _ _ _ Hb) as Hr. rewrite le32_zlen in Hr. rewrite Hr, bind_Ok by lia.
  destruct (write_spec buf (header + 1 + k * 8) (le32 (u32 (int_bits x)))) as (b1 & -> & F1 & H1 & G1); [lia|rewrite le32_zlen; lia|]. rewrite bind_Ok.
  rewrite (rd_lookup b1 _ (Z.land (Z.shiftr (u32 (int_bits x)) 24) 0xff)), bind_Ok; [|lia|].
  - destruct (widen_spec (Z.land (Z.land (Z.shiftr (u32 (int_bits x)) 24) 0xff) 0x80) b1 (header + 1 + k * 8) (int_bits x)) as (b2 & -> & F2 & H2 & G2);
      [done|by apply sign_byte|lia|rewrite (frame_zlen _ _ _ F1); lia|done|].
    exists b2. split; [done|]. split; [by eapply frame_trans|]. split; [done|]. intros j b Hj Hd. apply G2; [|done]. apply G1; [done|]. rewrite le32_zlen. lia.
  - destruct H1 as [_ H1]. rewrite <- (H1 3%nat (Z.land (Z.shiftr (u32 (int_bits x)) 24) 0xff)) by done. f_equal. lia.
Qed.

(** The whole part that is written is widened in place, from its end. *)
Lemma widen_all header pre buf :
  0 ≤ header → forallb small_int pre = true → header + 1 + zlen pre * 8 ≤ zlen buf → holds buf (header + 1) (ints 4 pre) →
  ∃ buf', c_for_down (Z.to_nat (zlen pre)) (zlen pre - 1) (widen_body header) buf = Ok buf' ∧ frame (header + 1) buf buf' ∧
    holds buf' (header + 1) (ints 8 pre).
Proof.
  intros Hh Hs Hl Hb.
  destruct (c_for_down_spec (λ j b, frame (header + 1) buf b ∧ holds b (header + 1) (ints 4 (take (Z.to_nat (j + 1)) pre)) ∧
      holds b (header + 1 + (j + 1) * 8) (ints 8 (drop (Z.to_nat (j + 1)) pre))) (widen_body header) (Z.to_nat (zlen pre)) (zlen pre - 1) buf)
    as (b & E & F & H1 & H2).
  - unfold zlen in *. split; [apply frame_refl|]. rewrite take_ge, drop_ge by lia. split; [done|]. apply holds_nil. lia.
  - intros j b Hj (F & H1 & H2). destruct (lookup_lt_is_Some_2 pre (Z.to_nat j)) as [x Hx]; [unfold zlen in *; lia|].
    replace (Z.to_nat (j + 1)) with (S (Z.to_nat j)) in H1, H2 by lia. rewrite (take_S_r _ _ x Hx), ints_app in H1. apply holds_app in H1 as [H1 H3].
    assert (zlen (take (Z.to_nat j) pre) = j) as Ht by (apply lookup_lt_Some in Hx; unfold zlen; rewrite length_take; lia).
    rewrite ints_zlen, Ht in H3 by auto. unfold ints in H3. cbn in H3. rewrite app_nil_r in H3.
    destruct (widen_body_spec header j b x) as (b' & E & F' & H4 & G); [done|lia| |rewrite (frame_zlen _ _ _ F); unfold zlen in *; lia| |].
    + rewrite forallb_forall in Hs. apply Hs, list_elem_of_In. by eapply list_elem_of_lookup_2.
    + replace (j * 4) with (4 * j) by lia. done.
    + exists b'. split; [done|]. split; [|split].
      * eapply frame_trans; [done|]. eapply frame_le; [done|lia].
      * replace (j - 1 + 1) with j by lia. apply G; [done|]. left. rewrite ints_zlen, Ht by auto. lia.
      * replace (j - 1 + 1) with j by lia. rewrite (drop_S pre x) by done. change (ints 8 (x :: ?l)) with (int_bytes 8 x ++ ints 8 l).
        apply holds_app. split; [done|]. rewrite int_bytes_zlen by auto. replace (header + 1 + j * 8 + 8) with (header + 1 + (j + 1) * 8) by lia.
        apply G; [done|]. right. lia.
  - exists b. split; [done|]. split; [done|]. unfold zlen in *. replace (Z.of_nat (length pre) - 1 - Z.of_nat (Z.to_nat (Z.of_nat (length pre))) + 1) with 0 in H2 by lia.
    rewrite Z.mul_0_l, Z.add_0_r in H2. cbn in H2. by rewrite drop_0 in H2.
Qed.

Definition width (xs : list lvalue) : Z := if forallb small_int xs then 4 else 8.
Lemma width_cases xs : width xs = 4 ∨ width xs = 8.
Proof. unfold width. destruct (forallb _ _); auto. Qed.
Lemma width_snoc xs x : width (xs ++ [x]) = if small_int x then width xs else 8.
Proof. unfold width. rewrite forallb_app. cbn. by destruct (forallb _ _), (small_int x). Qed.
Lemma even_start xs pre x post : even_ints xs → xs = pre ++ x :: post → width pre = 4 → small_int x = false → pre = [].
Proof.
  intros He -> Hw Hx. destruct pre as [|y pre]; [done|]. cbn in He. unfold width in Hw. cbn in Hw. destruct (small_int y); [|done].
  specialize (He eq_refl). rewrite forallb_app in He. cbn in He. rewrite Hx in He. destruct (forallb small_int pre); cbn in He; done.
Qed.
(** What is known when an integer is to be written. *)
Lemma ints_snoc intlen xs x : ints intlen (xs ++ [x]) = ints intlen xs ++ int_bytes intlen x.
Proof. rewrite ints_app. unfold ints. cbn. by rewrite app_nil_r. Qed.

Section Ints.
Context (n : nat) (tbl : lfields) (f : field) (l : lfields) (sub : sproto_type → lfields → Prop) (header size0 : Z).
Abbreviation xs := (items f l).
Context (Hname : f_name f ≠ None) (Hbase : f_base f = SPROTO_TINTEGER) (Hok : Forall (elem_ok sp sub f) xs).
Context (Heven : 8 * zlen xs ≤ size0 ∨ even_ints xs) (Hh : 0 ≤ header) (Hs0 : 0 ≤ size0 < 2 ^ 31).
Abbreviation loop := (integer_loop (encode sp (S n))).
Abbreviation args := (field_arg f (f_base f)).

Definition ints_done (r : option (Z * Z * bool) * encode_ud * list Z) (buf : list Z) : Prop :=
  let '(o, self', buf') := r in
  frame (header + 1) buf buf' ∧
  match o with
  | None => size0 < 8 * zlen xs
  | Some (b, il, na) => na = false ∧ self' = mk_eud tbl (faddr f) (Some l) None ∧ il = width xs ∧ b = header + 1 + il * zlen xs ∧
      holds buf' (header + 1) (ints il xs) ∧ b ≤ header + 1 + size0
  end.
Lemma ints_done_frame r b1 b2 : frame (header + 1) b1 b2 → ints_done r b2 → ints_done r b1.
Proof. destruct r as [[o s] b]. intros F [G H]. split; [by eapply frame_trans|done]. Qed.

(** The state of the loop in front of the item behind [pre]. *)
Record ints_at (pre : list lvalue) (self : encode_ud) (buf : list Z) (size : Z) : Prop := {
  ia_ready : ready tbl f l (length pre) self;
  ia_holds : holds buf (header + 1) (ints (width pre) pre);
  ia_size : size = size0 - width pre * zlen pre;
  ia_pos : 0 ≤ size;
  ia_room : header + 1 + size0 ≤ zlen buf }.

Lemma small_turn pre x post self self' buf size :
  xs = pre ++ x :: post → ints_at pre self buf size → ready tbl f l (S (length pre)) self' → small_int x = true → 8 ≤ size →
  ∃ buf', (buf ← write_at buf (header + 1 + width pre * zlen pre) (le32 (u32 (u32 (int_bits x))));
           if decide (width pre = 8) then uint32_to_uint64 (Z.land (u32 (u32 (int_bits x))) 0x80000000) buf (header + 1 + width pre * zlen pre) else Ok buf) = Ok buf' ∧
    frame (header + 1) buf buf' ∧ ints_at (pre ++ [x]) self' buf' (size - width pre).
Proof.
  intros Hx [_ I2 I3 I4 I5] R Hs Hsz. pose proof (small_range x Hs) as Hr. rewrite (uwrap_small 32 (u32 (int_bits x))) by (by apply uwrap_range).
  pose proof (width_cases pre) as Hw. pose proof (zlen_nonneg pre). set (p := header + 1 + width pre * zlen pre).
  destruct (write_spec buf p (le32 (u32 (int_bits x)))) as (b1 & -> & F1 & H1 & G1); [lia|rewrite le32_zlen; lia|]. rewrite bind_Ok.
  assert (header + 1 ≤ p) by lia. assert (zlen (ints (width pre) pre) = width pre * zlen pre) as Hz by (by apply ints_zlen).
  assert (∀ b', frame (header + 1) b1 b' → holds b' (header + 1) (ints (width pre) pre) → holds b' p (int_bytes (width pre) x) → ints_at (pre ++ [x]) self' b' (size - width pre)) as Hat.
  { intros b' F' Ha Hb. split.
    - rewrite length_app. cbn. by rewrite Nat.add_1_r.
    - rewrite width_snoc, Hs, ints_snoc. apply holds_app. split; [done|]. by rewrite Hz.
    - rewrite width_snoc, Hs, zlen_app. change (zlen [x]) with 1. lia.
    - lia.
    - rewrite (frame_zlen _ _ _ F'), (frame_zlen _ _ _ F1). done. }
  assert (holds b1 (header + 1) (ints (width pre) pre)) as Hp by (apply G1; [done|left; lia]).
  destruct (decide (width pre = 8)) as [E8|E8].
  - destruct (widen_spec (Z.land (u32 (int_bits x)) 0x80000000) b1 p (int_bits x)) as (b2 & -> & F2 & H2 & G2);
      [done|by apply sign_bit|lia|rewrite (frame_zlen _ _ _ F1); lia|done|].
    exists b2. split; [done|]. split; [eapply frame_trans; eapply frame_le; try done|].
    apply Hat; [by eapply frame_le|apply G2; [done|left; lia]|]. unfold int_bytes. by rewrite E8.
  - exists b1. split; [done|]. split; [by eapply frame_le|]. apply Hat; [apply frame_refl|done|]. unfold int_bytes. by rewrite decide_True by lia.
Qed.

Lemma big_turn pre x post self self' buf size :
  xs = pre ++ x :: post → ints_at pre self buf size → ready tbl f l (S (length pre)) self' → small_int x = false →
  (size0 - 8 * zlen pre < 8 ∧ 0 ≤ size0 - 8 * zlen pre ∧ size0 < 8 * zlen xs ∧ (width pre = 8 → size < 8)) ∨
  8 ≤ size0 - 8 * zlen pre ∧ (width pre = 8 → 8 ≤ size) ∧
  ∃ b1 buf', (if decide (width pre = 4) then c_for_down (Z.to_nat (zlen pre + 1 - 1)) (zlen pre + 1 - 2) (widen_body header) buf else Ok buf) = Ok b1 ∧
    write_at b1 (header + 1 + 8 * zlen pre) (le64 (u64 (int_bits x))) = Ok buf' ∧
    frame (header + 1) buf buf' ∧ ints_at (pre ++ [x]) self' buf' (size0 - 8 * zlen pre - 8).
Proof.
  intros Hx [_ I2 I3 I4 I5] R Hs. pose proof (width_cases pre) as Hw. pose proof (zlen_nonneg pre).
  assert (zlen xs = zlen pre + 1 + zlen post) as Hz by (rewrite Hx, zlen_app, zlen_cons; lia). pose proof (zlen_nonneg post).
  assert (0 ≤ size0 - 8 * zlen pre) as Hpos.
  { destruct Hw as [Hw|Hw]; [|rewrite Hw in I3; lia]. destruct Heven as [|He]; [lia|].
    rewrite (even_start _ _ _ _ He Hx Hw Hs). unfold zlen. cbn. lia. }
  destruct (decide (size0 - 8 * zlen pre < 8)) as [Hlt|Hge]; [left; split_and!; try lia; intros Hw8; rewrite Hw8 in I3; lia|right].
  split; [lia|]. split; [intros Hw8; rewrite Hw8 in I3; lia|].
  assert (∃ b1, (if decide (width pre = 4) then c_for_down (Z.to_nat (zlen pre + 1 - 1)) (zlen pre + 1 - 2) (widen_body header) buf else Ok buf) = Ok b1 ∧
    frame (header + 1) buf b1 ∧ holds b1 (header + 1) (ints 8 pre)) as (b1 & E1 & F1 & H1).
  { destruct (decide (width pre = 4)) as [E4|E4]; [|exists buf; split; [done|]; split; [apply frame_refl|]; replace 8 with (width pre) by lia; done].
    replace (zlen pre + 1 - 1) with (zlen pre) by lia. replace (zlen pre + 1 - 2) with (zlen pre - 1) by lia. apply widen_all; [done| |lia|by rewrite E4 in I2].
    unfold width in E4. by destruct (forallb small_int pre). }
  destruct (write_spec b1 (header + 1 + 8 * zlen pre) (le64 (u64 (int_bits x)))) as (b2 & E2 & F2 & H2 & G2); [lia|rewrite (frame_zlen _ _ _ F1), le64_zlen; lia|].
  exists b1, b2. split; [done|]. split; [done|]. split; [eapply frame_trans; [done|eapply frame_le; [done|lia]]|]. split.
  - rewrite length_app. cbn. by rewrite Nat.add_1_r.
  - rewrite width_snoc, Hs, ints_snoc. apply holds_app. rewrite ints_zlen by auto. split; [apply G2; [done|left; rewrite ints_zlen by auto; lia]|].
    done.
  - rewrite width_snoc, Hs, zlen_app. change (zlen [x]) with 1. lia.
  - lia.
  - rewrite (frame_zlen _ _ _ F2), (frame_zlen _ _ _ F1). done.
Qed.

Lemma integer_loop_spec fuel pre post self buf size :
  xs = pre ++ post → ints_at pre self buf size → (Z.to_nat size < fuel)%nat →
  ∃ r, loop fuel args header (header + 1 + width pre * zlen pre) size (width pre) (zlen pre + 1) self buf = Ok r ∧ ints_done r buf.
Proof.
  revert pre post self buf size. induction fuel as [|fuel IH]; intros pre post self buf size Hx I Hfuel; [lia|]. cbn [integer_loop].
  pose proof (ia_ready _ _ _ _ I) as R. pose proof (ia_pos _ _ _ _ I) as Hpos. pose proof (ia_size _ _ _ _ I) as Hsz.
  pose proof (width_cases pre) as Hw. pose proof (zlen_nonneg pre). destruct post as [|x post].
  { rewrite app_nil_r in Hx. rewrite (deliver_end n tbl f l (length pre)); [|done|done|done|by rewrite Hx]. rewrite bind_Ok.
    rewrite decide_True, decide_True by done. eexists. split; [done|]. split; [apply frame_refl|]. rewrite Hx. split_and!; try done; [apply I|lia]. }
  destruct (deliver tbl f l (length pre) self (with_value args (AUnion 0) 8 (zlen pre + 1)) x) as (self' & Ht & R'); [done|done|done|rewrite Hx; by apply list_lookup_middle|].
  assert (elem_ok sp sub f x) as Hxok by (rewrite Hx, Forall_app, Forall_cons in Hok; apply Hok).
  rewrite (encode_int n sub _ _ self' _ f x), bind_Ok by done. unfold int_code, int_union.
  rewrite decide_False by (destruct (small_int x); lia). rewrite (uwrap_small 64 size) by lia.
  destruct (decide (size < 8)) as [Hlt|Hge].
  { eexists. split; [done|]. split; [apply frame_refl|]. rewrite Hx, zlen_app, zlen_cons. pose proof (zlen_nonneg post). lia. }
  assert (∀ b' s', frame (header + 1) buf b' → ints_at (pre ++ [x]) self' b' s' → s' < size →
    ∃ r, loop fuel args header (header + 1 + width (pre ++ [x]) * zlen (pre ++ [x])) s' (width (pre ++ [x])) (zlen pre + 1 + 1) self' b' = Ok r ∧ ints_done r buf) as Hnext.
  { intros b' s' F' I' Hlt. destruct (IH (pre ++ [x]) post self' b' s') as (r & E & D); [by rewrite <- app_assoc|done|pose proof (ia_pos _ _ _ _ I'); lia|].
    exists r. split; [rewrite zlen_app in E |- *; exact E|by eapply ints_done_frame]. }
  destruct (small_int x) eqn:Es.
  - rewrite decide_True by done. destruct (small_turn pre x post self self' buf size) as (b' & E & F' & I'); [done..|lia|].
    apply bind_Ok_inv in E as (b1 & E1 & E2). cbv zeta. rewrite E1, bind_Ok, E2, bind_Ok.
    destruct (Hnext b' (size - width pre) F' I') as (r & E & D); [lia|]. exists r. split; [|done]. rewrite <- E. f_equal.
    + rewrite width_snoc, Es, zlen_app. change (zlen [x]) with 1. lia.
    + by rewrite width_snoc, Es.
  - rewrite decide_False, decide_False by (intros E; discriminate E || (apply E; done)).
    destruct (big_turn pre x post self self' buf size) as [(C1 & C2 & C3 & C4)|(C1 & C2 & b1 & b' & E1 & E2 & F' & I')]; [done..| |].
    + unfold widen_array. destruct (decide (width pre = 4)) as [E4|E4]; [rewrite E4 in Hsz|destruct Hw as [|Hw]; [done|specialize (C4 Hw); lia]]. cbv zeta. replace (size - (zlen pre + 1 - 1) * 4) with (size0 - 8 * zlen pre) by lia.
      rewrite (swrap_small 32 (size0 - 8 * zlen pre)) by lia. rewrite (uwrap_small 64 (size0 - 8 * zlen pre)) by lia. rewrite decide_True, bind_Ok by done. eexists. split; [done|]. split; [apply frame_refl|done].
    + assert (widen_array header (header + 1 + width pre * zlen pre) size (width pre) (zlen pre + 1) buf = Ok (Some (size0 - 8 * zlen pre, header + 1 + 8 * zlen pre, b1))) as ->.
      { unfold widen_array. destruct (decide (width pre = 4)) as [E4|E4].
        - rewrite E4 in Hsz |- *. cbv zeta. replace (size - (zlen pre + 1 - 1) * 4) with (size0 - 8 * zlen pre) by lia. rewrite (swrap_small 32 (size0 - 8 * zlen pre)) by lia.
          rewrite (uwrap_small 64 (size0 - 8 * zlen pre)) by lia. rewrite decide_False, E1, bind_Ok by lia. do 4 f_equal. lia.
        - assert (width pre = 8) as E8 by lia. rewrite E8 in Hsz |- *. apply Ok_inj in E1. subst b1. do 4 f_equal; lia. }
      rewrite bind_Ok, E2, bind_Ok. destruct (Hnext b' _ F' I') as (r & E & D).
      { destruct Hw as [Hw|Hw]; rewrite Hw in *; lia. }
      exists r. split; [|done]. rewrite <- E. f_equal; rewrite width_snoc, Es; [rewrite zlen_app; change (zlen [x]) with 1; lia|done].
Qed.
End Ints.

(** ** The sizes of the specification *)

Lemma sum_of_cons {A} (g : A → Z) x l : sum_of g (x :: l) = g x + sum_of g l.
Proof. done. Qed.
Lemma sum_of_nonneg {A} (g : A → Z) l : (∀ x, 0 ≤ g x) → 0 ≤ sum_of g l.
Proof. intros Hg. induction l as [|x l IH]; [done|]. rewrite sum_of_cons. specialize (Hg x). lia. Qed.
Lemma sum_of_app {A} (g : A → Z) l k : sum_of g (l ++ k) = sum_of g l + sum_of g k.
Proof. induction l as [|x l IH]; [done|]. rewrite <- app_comm_cons, !sum_of_cons, IH. lia. Qed.
Lemma zlen_concat {A B} (g : A → list B) (h : A → Z) l : (∀ x, zlen (g x) ≤ h x) → zlen (concat (g <$> l)) ≤ sum_of h l.
Proof. intros Hg. induction l as [|x l IH]; [done|]. cbn [fmap list_fmap concat]. rewrite zlen_app, sum_of_cons. specialize (Hg x). lia. Qed.
Lemma entries_cons (sub : sproto_type → lfields → list Z) f fs l :
  entries sp sub (f :: fs) l = match field_wire sp sub f (get_field l (fkey f)) with
                               | Some w => (f_tag f, w) :: entries sp sub fs l
                               | None => entries sp sub fs l
                               end.
Proof. unfold entries. cbn. by destruct (field_wire sp sub f _). Qed.
Lemma words_cons last tag value b es :
  words last ((tag, (value, b)) :: es) = (if decide (0 < tag - last - 1) then [(tag - last - 1 - 1) * 2 + 1; value] else [value]) ++ words tag es.
Proof. done. Qed.
Lemma data_of_cons e es : data_of (e :: es) = e.2.2 ++ data_of es.
Proof. done. Qed.

Lemma words_le (sub : sproto_type → lfields → list Z) l fs prev last :
  ascending f_tag prev fs → last ≤ prev →
  zlen (words last (entries sp sub fs l)) ≤ max_words prev fs + (if decide (last < prev) then 1 else 0).
Proof.
  revert prev last. induction fs as [|f fs IH]; intros prev last Ha Hl; [case_decide; done|]. destruct Ha as [Ha1 Ha2]. rewrite entries_cons. cbn [max_words].
  destruct (field_wire sp sub f _) as [[value b]|].
  - specialize (IH (f_tag f) (f_tag f) Ha2 ltac:(lia)). rewrite (decide_False (P := f_tag f < f_tag f)) in IH by lia. rewrite words_cons, zlen_app.
    destruct (decide (0 < f_tag f - last - 1)); cbn [zlen length]; unfold zlen in *; cbn [length]; repeat case_decide; lia.
  - specialize (IH (f_tag f) last Ha2 ltac:(lia)). rewrite (decide_True (P := last < f_tag f)) in IH by lia. repeat case_decide; lia.
Qed.
Lemma words_few (sub : sproto_type → lfields → list Z) l fs last : ascending f_tag last fs → ∀ top, Forall (λ f, f_tag f ≤ top) fs → last ≤ top →
  zlen (words last (entries sp sub fs l)) ≤ top - last.
Proof.
  intros Ha top. assert (∀ last', last' ≤ last → Forall (λ f, f_tag f ≤ top) fs → last ≤ top → zlen (words last' (entries sp sub fs l)) ≤ top - last') as Hg; [|by intros; apply Hg].
  revert last Ha. induction fs as [|f fs IH]; intros last Ha last' Hl Hf Ht; [unfold zlen; cbn; lia|]. destruct Ha as [Ha1 Ha2].
  apply Forall_cons in Hf as [Hf1 Hf2]. rewrite entries_cons. destruct (field_wire sp sub f _) as [[value b]|].
  - specialize (IH (f_tag f) Ha2 (f_tag f) ltac:(lia) Hf2 Hf1). rewrite words_cons, zlen_app.
    destruct (decide (0 < f_tag f - last' - 1)); unfold zlen in *; cbn [length]; lia.
  - apply (IH (f_tag f)); [done|lia|done|done].
Qed.

Context (Hwf : sproto_wf sp).
Lemma subtype_wf f t : subtype sp f = Some t → stype_wf (sp_type_n sp) t.
Proof. unfold subtype. destruct (f_st f); cbn; [|done]. intros Ht. eapply Forall_lookup_1; [apply Hwf|done]. Qed.
Lemma max_words_nonneg last fs : 0 ≤ max_words last fs.
Proof. revert last. induction fs as [|f fs IH]; intros last; cbn; [lia|]. specialize (IH (f_tag f)). case_decide; lia. Qed.

Section Sizes.
Context (sub : sproto_type → lfields → list Z) (nsub : sproto_type → lfields → Z).
Context (Hsub : ∀ t l, stype_wf (sp_type_n sp) t → zlen (sub t l) ≤ nsub t l).
Lemma elem_bytes_le f x : zlen (elem_bytes sp sub f x) ≤ elem_need sp nsub f x.
Proof. destruct x; cbn; try done. destruct (subtype sp f) eqn:E; [|done]. apply Hsub. by eapply subtype_wf. Qed.
Lemma elem_need_nonneg f x : 0 ≤ elem_need sp nsub f x.
Proof. etrans; [|apply elem_bytes_le]. apply zlen_nonneg. Qed.
Lemma array_bytes_le f xs : zlen (array_bytes sp sub f xs) ≤ 1 + sum_of (λ y, 8 + elem_need sp nsub f y) xs.
Proof.
  assert (0 ≤ sum_of (λ y, 8 + elem_need sp nsub f y) xs) as Hn by (apply sum_of_nonneg; intros x; pose proof (elem_need_nonneg f x); lia).
  unfold array_bytes. repeat case_decide.
  - destruct xs as [|x xs]; [unfold zlen; cbn; lia|].
    destruct (forallb small_int (x :: xs)); rewrite zlen_cons; (apply Z.add_le_mono_l; [lia| ]) || (apply Zplus_le_compat_l);
      apply zlen_concat; intros y; [rewrite le32_zlen|rewrite le64_zlen]; pose proof (elem_need_nonneg f y); lia.
  - unfold zlen at 1. rewrite length_fmap. clear Hn. induction xs as [|x xs IH]; [cbn; lia|]. rewrite sum_of_cons. cbn [length]. pose proof (elem_need_nonneg f x). lia.
  - etrans; [apply (zlen_concat _ (λ y, 8 + elem_need sp nsub f y))|lia]. intros y. unfold compose. rewrite blob_zlen. pose proof (elem_bytes_le f y). lia.
Qed.
Lemma field_wire_le f x w : field_wire sp sub f x = Some w → zlen w.2 ≤ field_need sp nsub f x.
Proof.
  unfold field_need. intros E. assert (∀ y, zlen (scalar_wire sp sub f y).2 ≤ 12 + sum_of (λ y, 8 + elem_need sp nsub f y) [y]) as Hs.
  { intros y. pose proof (elem_need_nonneg f y). pose proof (elem_bytes_le f y). rewrite sum_of_cons. cbn [sum_of foldr].
    destruct y; cbn [scalar_wire snd]; try (rewrite blob_zlen; lia); [unfold zlen; cbn; lia|].
    destruct (small_int _); [case_decide|]; cbn [snd]; rewrite ?blob_zlen, ?le32_zlen, ?le64_zlen; [unfold zlen; cbn; lia|lia|lia]. }
  destruct x as [| | | | | |fields| |]; cbn [field_wire field_items] in *; try done; injection E as <-;
    try match goal with |- context [sum_of _ [?y]] => exact (Hs y) end.
  destruct (is_array f); [|apply (Hs (VTable fields))]. cbn [snd]. rewrite blob_zlen. pose proof (array_bytes_le f (items f fields)). lia.
Qed.
Lemma data_le fs l : zlen (data_of (entries sp sub fs l)) ≤ sum_of (λ f, field_need sp nsub f (get_field l (fkey f))) fs.
Proof.
  induction fs as [|f fs IH]; [done|]. rewrite entries_cons, sum_of_cons. destruct (field_wire sp sub f _) as [[value b]|] eqn:E.
  - rewrite data_of_cons, zlen_app. cbn. apply field_wire_le in E. cbn in E. lia.
  - assert (0 ≤ field_need sp nsub f (get_field l (fkey f))); [|lia]. unfold field_need.
    assert (0 ≤ sum_of (λ y, 8 + elem_need sp nsub f y) (field_items f (get_field l (fkey f)))); [|lia].
    apply sum_of_nonneg. intros x. pose proof (elem_need_nonneg f x). lia.
Qed.
End Sizes.

Lemma words_bytes ws : zlen (concat (le16 <$> ws)) = 2 * zlen ws.
Proof. induction ws as [|w ws IH]; [done|]. cbn [fmap list_fmap concat]. rewrite zlen_app, IH, zlen_cons, le16_zlen. lia. Qed.
Lemma wire_need n t l : stype_wf (sp_type_n sp) t → zlen (wire sp n t l) ≤ need sp n t l.
Proof.
  revert t l. induction n as [|n IH]; intros t l W; [done|]. cbn [wire need]. unfold message_bytes. rewrite !zlen_app, le16_zlen, words_bytes.
  pose proof (words_le (wire sp n) l (t_f t) (-1) (-1) (tw_tags _ _ W) ltac:(lia)) as Hw. rewrite (decide_False (P := -1 < -1)) in Hw by lia.
  rewrite <- (tw_maxn _ _ W) in Hw. pose proof (data_le (wire sp n) (need sp n) IH (t_f t) l). unfold SIZEOF_HEADER, SIZEOF_FIELD. lia.
Qed.

(** ** A nested message or a string *)

(** What encoding at [off] with [size] bytes of room comes to: too little room for [b], or
    [b] in the buffer. *)
Definition written (off size room : Z) (b : list Z) (r : Z) (buf buf' : list Z) : Prop :=
  frame off buf buf' ∧ (r = -1 ∧ size < room ∨ r = zlen b ∧ r ≤ size ∧ holds buf' off b).
Definition encodes (n : nat) : Prop :=
  ∀ t l off size buf,
    stype_wf (sp_type_n sp) t → table_ok sp n t l → need sp n t l ≤ size ∨ table_even sp n t l →
    0 ≤ off → 0 ≤ size < 2 ^ 31 → off + size ≤ zlen buf →
    ∃ r ud buf', sproto_encode (encode sp n) t off size (new_encode_ud l) buf = Ok (r, ud, buf') ∧
      written off size (need sp n t l) (wire sp n t l) r buf buf'.

Definition elem_even (sub : sproto_type → lfields → Prop) (f : field) (y : lvalue) : Prop :=
  match y with VTable l => ∀ t, subtype sp f = Some t → sub t l | _ => True end.

Lemma subtype_rd f t : subtype sp f = Some t → f_st f ≠ None → (∃ i, f_st f = Some i ∧ 0 ≤ i) → ∃ i, f_st f = Some i ∧ rd (sp_type sp) i = Ok t.
Proof. unfold subtype. intros Ht _ (i & E & Hi). rewrite E in Ht |- *. cbn in Ht. exists i. split; [done|]. by apply rd_lookup. Qed.

Lemma field_st_ok type_n f : field_wf type_n f → f_base f = SPROTO_TSTRUCT → ∃ i, f_st f = Some i ∧ 0 ≤ i.
Proof. intros [_ _ _ _ Hst] Hb. rewrite decide_True in Hst by done. destruct Hst as (i & -> & ?). exists i. split; [done|lia]. Qed.

Lemma field_kinds type_n f : field_wf type_n f →
  (f_base f = SPROTO_TINTEGER ∨ f_base f = SPROTO_TBOOLEAN ∨ f_base f = SPROTO_TSTRING ∨ f_base f = SPROTO_TSTRUCT) ∧
  (is_array f = false → f_type f = f_base f).
Proof.
  intros [_ Ht _ _ _]. unfold is_array, f_base. rewrite !elem_of_cons in Ht.
  destruct Ht as [->|[->|[->|[->|[->|[->|[->|[->|[]%not_elem_of_nil]]]]]]]]; (split; [auto|done]).
Qed.

Section Level.
Context (n : nat) (IHn : encodes n) (f : field) (Hf : field_wf (sp_type_n sp) f).

Lemma encode_obj args self self' buf x off len :
  table_value args self = Ok (inr x, self') → a_type args = f_base f → a_subtype args = f_st f → a_value args = ABuffer off → a_length args = len →
  f_base f = SPROTO_TSTRING ∨ f_base f = SPROTO_TSTRUCT → elem_ok sp (table_ok sp n) f x →
  elem_need sp (need sp n) f x ≤ len ∨ elem_even (table_even sp n) f x →
  0 ≤ off → 0 ≤ len < 2 ^ 31 → off + len ≤ zlen buf →
  ∃ r buf', encode sp (S n) args self buf = Ok (mk_cb r self' buf' 0) ∧
    written off len (elem_need sp (need sp n) f x) (elem_bytes sp (wire sp n) f x) r buf buf'.
Proof.
  intros Ht Ha Hst Hv Hl Hb Hx He Hoff Hlen Hbuf. cbn [encode]. rewrite Ht, bind_Ok. rewrite Ha, Hv, Hl. destruct Hb as [Hb|Hb]; rewrite Hb.
  - destruct x as [| | | |s| | | |]; cbn [elem_ok] in Hx; try wrong_type Hb Hx. rewrite decide_False, decide_False, decide_True by done.
    cbn [lua_tostring of_option elem_need elem_bytes]. rewrite bind_Ok. destruct (decide (len < zlen s)).
    + eexists _, _. split; [done|]. split; [apply frame_refl|]. left. done.
    + destruct (write_spec buf off s) as (b1 & -> & F1 & H1 & _); [done|lia|]. rewrite bind_Ok. eexists _, _. split; [done|]. split; [done|]. right. split_and!; [done|lia|done].
  - destruct x as [| | | | | |l| |]; cbn [elem_ok] in Hx; try wrong_type Hb Hx. rewrite decide_False, decide_False, decide_False, decide_True by done.
    destruct Hx as (_ & t & Hsub & Hok). destruct (field_st_ok _ _ Hf Hb) as (i & Ei & Hi). rewrite Hst, Ei. cbn [of_option]. rewrite bind_Ok.
    unfold subtype in Hsub. rewrite Ei in Hsub. cbn in Hsub. rewrite (rd_lookup _ _ t), bind_Ok by done.
    assert (subtype sp f = Some t) as Hsub' by (unfold subtype; by rewrite Ei). cbn [elem_need elem_bytes elem_even] in *. rewrite Hsub' in *.
    destruct (IHn t l off len buf) as (r & ud & b1 & -> & F & Hr); [by eapply subtype_wf|done|destruct He as [|He]; [by left|right; by apply He]|done..|].
    rewrite bind_Ok. eexists _, b1. split; [done|]. split; [done|]. pose proof (zlen_nonneg (wire sp n t l)).
    destruct Hr as [[-> ?]|(-> & ? & ?)]; [by left|right]. by rewrite decide_False by lia.
Qed.

(** ** Arrays *)

Context (tbl l : lfields).
Abbreviation xs := (items f l).
Abbreviation args := (field_arg f (f_base f)).
Context (Hok : Forall (elem_ok sp (table_ok sp n) f) xs).
Definition array_end : encode_ud := mk_eud tbl (faddr f) (Some l) None.

Lemma boolean_loop_spec fuel pre post self buf start size0 size :
  f_base f = SPROTO_TBOOLEAN → xs = pre ++ post → ready tbl f l (length pre) self → holds buf start (bool_bits <$> pre) →
  0 ≤ start → size = size0 - zlen pre → 0 ≤ size → start + size0 ≤ zlen buf → (Z.to_nat size < fuel)%nat →
  ∃ r buf', boolean_loop (encode sp (S n)) fuel args (start + zlen pre) size (zlen pre + 1) self buf = Ok (r, buf') ∧ frame start buf buf' ∧
    (r.1 = inl (-1) ∧ size0 < zlen xs ∨ r = (inr (start + zlen xs), array_end) ∧ zlen xs ≤ size0 ∧ holds buf' start (bool_bits <$> xs)).
Proof.
  intros Hb. revert pre post self buf size. induction fuel as [|fuel IH]; intros pre post self buf size Hx R Hh Hs Hsz Hpos Hbuf Hfuel; [lia|]. cbn [boolean_loop].
  pose proof (zlen_nonneg pre). destruct post as [|x post].
  { rewrite app_nil_r in Hx. rewrite (deliver_end n tbl f l (length pre)); [|apply Hf|done|done|by rewrite Hx]. rewrite bind_Ok, decide_True, decide_True by done.
    eexists (_, _), _. split; [done|]. split; [apply frame_refl|]. right. rewrite Hx. split_and!; [done|lia|done]. }
  destruct (deliver tbl f l (length pre) self (with_value args (AUnion 0) 4 (zlen pre + 1)) x) as (self' & Ht & R'); [apply Hf|done|done|rewrite Hx; by apply list_lookup_middle|].
  assert (elem_ok sp (table_ok sp n) f x) as Hxok by (rewrite Hx, Forall_app, Forall_cons in Hok; apply Hok).
  rewrite (encode_bool n (table_ok sp n) _ _ self' _ f x), bind_Ok by done. rewrite decide_False by done.
  destruct (decide (size < 1)) as [Hlt|Hge].
  { eexists (_, _), _. split; [done|]. split; [apply frame_refl|]. left. split; [done|]. rewrite Hx, zlen_app, zlen_cons. pose proof (zlen_nonneg post). lia. }
  rewrite wr_write. destruct (write_spec buf (start + zlen pre) [if decide (bool_bits x ≠ 0) then 1 else 0]) as (b1 & -> & F1 & H1 & G1); [lia|unfold zlen at 2; cbn; lia|].
  rewrite bind_Ok. destruct (IH (pre ++ [x]) post self' b1 (size - 1)) as (r & b2 & E & F2 & Hr); [by rewrite <- app_assoc| | |done| |lia|rewrite (frame_zlen _ _ _ F1); lia|lia|].
  - rewrite length_app. cbn. by rewrite Nat.add_1_r.
  - rewrite fmap_app. apply holds_app. assert (zlen (bool_bits <$> pre) = zlen pre) as Hz by (unfold zlen; by rewrite length_fmap). rewrite Hz.
    split; [apply G1; [done|lia]|]. cbn. replace (bool_bits x) with (if decide (bool_bits x ≠ 0) then 1 else 0) at 1; [done|]. destruct x as [|[]| | | | | | |]; done.
  - rewrite zlen_app. change (zlen [x]) with 1. lia.
  - exists r, b2. rewrite zlen_app in E. change (zlen [x]) with 1 in E. rewrite Z.add_assoc in E. split; [done|]. split; [|done].
    eapply frame_trans; [eapply frame_le; [done|lia]|done].
Qed.

Definition objs (ys : list lvalue) : list Z := concat ((blob ∘ elem_bytes sp (wire sp n) f) <$> ys).
Definition room (ys : list lvalue) : Z := sum_of (λ y, 8 + elem_need sp (need sp n) f y) ys.
Lemma room_nonneg ys : 0 ≤ room ys.
Proof. apply sum_of_nonneg. intros y. pose proof (elem_need_nonneg (wire sp n) (need sp n) (wire_need n) f y). lia. Qed.
Lemma objs_snoc ys y : objs (ys ++ [y]) = objs ys ++ blob (elem_bytes sp (wire sp n) f y).
Proof. unfold objs. rewrite fmap_app, concat_app. cbn. by rewrite app_nil_r. Qed.

Lemma object_loop_spec fuel pre post self buf start size0 size :
  f_base f = SPROTO_TSTRING ∨ f_base f = SPROTO_TSTRUCT → xs = pre ++ post → ready tbl f l (length pre) self → holds buf start (objs pre) →
  0 ≤ start → size = size0 - zlen (objs pre) → 0 ≤ size → size0 < 2 ^ 31 → start + size0 ≤ zlen buf → (Z.to_nat size < fuel)%nat →
  4 + room post ≤ size ∨ Forall (elem_even (table_even sp n) f) post →
  ∃ r buf', object_loop (encode sp (S n)) fuel args (start + zlen (objs pre)) size (zlen pre + 1) self buf = Ok (r, buf') ∧ frame start buf buf' ∧
    (r.1 = inl (-1) ∧ size < 4 + room post ∨ r = (inr (start + zlen (objs xs)), array_end) ∧ zlen (objs xs) ≤ size0 ∧ holds buf' start (objs xs)).
Proof.
  intros Hb. revert pre post self buf size. induction fuel as [|fuel IH]; intros pre post self buf size Hx R Hh Hs Hsz Hpos Hs0 Hbuf Hfuel He; [lia|]. cbn [object_loop].
  pose proof (zlen_nonneg pre). pose proof (zlen_nonneg (objs pre)). pose proof (room_nonneg post). unfold SIZEOF_LENGTH. destruct (decide (size < 4)) as [Hlt|Hge].
  { eexists (_, _), _. split; [done|]. split; [apply frame_refl|]. left. split; [done|lia]. }
  cbv zeta. destruct post as [|x post].
  { rewrite app_nil_r in Hx. rewrite (deliver_end n tbl f l (length pre)); [|apply Hf|done|done|by rewrite Hx]. rewrite bind_Ok, decide_True, decide_True by done.
    eexists (_, _), _. split; [done|]. split; [apply frame_refl|]. right. rewrite Hx. split_and!; [done|lia|done]. }
  set (p := start + zlen (objs pre)). assert (room (x :: post) = 8 + elem_need sp (need sp n) f x + room post) as Hroom by done. rewrite Hroom in *. pose proof (room_nonneg post).
  pose proof (elem_need_nonneg (wire sp n) (need sp n) (wire_need n) f x). pose proof (elem_bytes_le (wire sp n) (need sp n) (wire_need n) f x) as Hle.
  destruct (deliver tbl f l (length pre) self (with_value args (ABuffer (p + 4)) (size - 4) (zlen pre + 1)) x) as (self' & Ht & R');
    [apply Hf|done|done|rewrite Hx; by apply list_lookup_middle|].
  assert (elem_ok sp (table_ok sp n) f x) as Hxok by (rewrite Hx, Forall_app, Forall_cons in Hok; apply Hok).
  destruct (encode_obj (with_value args (ABuffer (p + 4)) (size - 4) (zlen pre + 1)) self self' buf x (p + 4) (size - 4)) as (sz & b1 & E1 & F1 & Hr);
    [done|done|done|done|done|done|done| |lia|lia|lia|].
  { destruct He as [He|He]; [left; lia|right]. by apply Forall_cons in He as [? _]. }
  rewrite E1, bind_Ok. destruct Hr as [[-> Hlt]|(-> & Hle2 & Hh1)].
  { rewrite decide_True by lia. eexists (_, _), _. split; [done|]. split; [eapply frame_le; [done|lia]|]. left. split; [done|lia]. }
  pose proof (zlen_nonneg (elem_bytes sp (wire sp n) f x)). rewrite decide_False by lia.
  destruct (fill_size_spec b1 p (elem_bytes sp (wire sp n) f x)) as (b2 & -> & F2 & Hh2); [lia|done|rewrite (frame_zlen _ _ _ F1); lia|]. rewrite bind_Ok. cbn [snd].
  pose proof (blob_zlen (elem_bytes sp (wire sp n) f x)) as Hbz.
  destruct (IH (pre ++ [x]) post self' b2 (size - 4 - zlen (elem_bytes sp (wire sp n) f x))) as (r & b3 & E & F3 & Hr);
    [by rewrite <- app_assoc| | |done|rewrite objs_snoc, zlen_app; lia|lia|done|rewrite (frame_zlen _ _ _ F2), (frame_zlen _ _ _ F1); lia|lia| |].
  - rewrite length_app. cbn. by rewrite Nat.add_1_r.
  - rewrite objs_snoc. apply holds_app. split; [|done]. eapply holds_frame; [|exact F2|lia]. eapply holds_frame; [done|exact F1|lia].
  - destruct He as [He|He]; [left; lia|right]. by apply Forall_cons in He as [_ ?].
  - exists r, b3. rewrite objs_snoc, zlen_app, zlen_app in E. change (zlen [x]) with 1 in E. split; [rewrite <- E; f_equal; lia|]. split.
    + eapply frame_trans; [eapply frame_le; [exact F1|lia]|]. eapply frame_trans; [eapply frame_le; [exact F2|lia]|done].
    + destruct Hr as [[? ?]|?]; [left; split; [done|lia]|by right].
Qed.

(** What an array field comes to. *)
Definition array_done (data size : Z) (r : Z) (ud : encode_ud) (buf buf' : list Z) : Prop :=
  frame data buf buf' ∧
  (r = -1 ∧ size < 12 + room xs ∨
   r = zlen (blob (array_bytes sp (wire sp n) f xs)) ∧ ud = array_end ∧ r ≤ size ∧ holds buf' data (blob (array_bytes sp (wire sp n) f xs))).

Lemma array_finish data size b ud buf b1 :
  0 ≤ data → data + size ≤ zlen buf → frame (data + 4) buf b1 → holds b1 (data + 4) b → 4 + zlen b ≤ size →
  b = array_bytes sp (wire sp n) f xs → ud = array_end →
  ∃ r buf', (w ← fill_size b1 data (data + 4 + zlen b - (data + 4)); Ok (w.1, ud, w.2)) = Ok (r, buf') ∧ array_done data size r.1 r.2 buf buf'.
Proof.
  intros Hd Hs F Hb Hl -> ->. set (b := array_bytes _ _ _ _) in *. replace (data + 4 + zlen b - (data + 4)) with (zlen b) by lia.
  destruct (fill_size_spec b1 data b) as (b2 & -> & F2 & H2); [done|done|rewrite (frame_zlen _ _ _ F); lia|]. rewrite bind_Ok. eexists (_, _), _. split; [done|].
  cbn [fst snd]. split; [eapply frame_trans; [eapply frame_le; [exact F|lia]|done]|]. right. split_and!; [done|done|rewrite blob_zlen; lia|done].
Qed.

Lemma ints_bytes : f_base f = SPROTO_TINTEGER → xs ≠ [] → array_bytes sp (wire sp n) f xs = width xs :: ints (width xs) xs.
Proof.
  intros Hb Hne. unfold array_bytes. rewrite decide_True by done. unfold width, ints, int_bytes.
  destruct xs; [done|]. by destruct (forallb small_int (l0 :: l1)).
Qed.
Lemma ints_room : f_base f = SPROTO_TINTEGER → room xs = 8 * zlen xs.
Proof.
  intros Hb. generalize xs Hok. intros ys. induction 1 as [|x ys Hx _ IH]; [done|].
  change (room (x :: ys)) with (8 + elem_need sp (need sp n) f x + room ys). rewrite IH, zlen_cons.
  destruct x; cbn [elem_need]; cbn [elem_ok] in Hx; try wrong_type Hb Hx. lia.
Qed.

Lemma ready_start self : e_tbl self = tbl → e_iter self = None → faddr f ≠ e_array_tag self → get_field tbl (fkey f) = VTable l → ready tbl f l 0 self.
Proof. intros. split; [done|done|lia]. Qed.

Lemma encode_array_spec self buf data size :
  ready tbl f l 0 self → 12 + room xs ≤ size ∨ field_even sp (table_even sp n) f (VTable l) → is_array f = true →
  0 ≤ data → 0 ≤ size < 2 ^ 31 → data + size ≤ zlen buf →
  ∃ r buf', encode_array (encode sp (S n)) args data size self buf = Ok (r, buf') ∧ array_done data size r.1 r.2 buf buf'.
Proof.
  intros R He Harr Hd Hs Hbuf. unfold encode_array, SIZEOF_LENGTH. destruct (decide (size < 4)) as [Hlt|Hge].
  { eexists (_, _), _. split; [done|]. split; [apply frame_refl|]. left. pose proof (room_nonneg xs). cbn. lia. }
  cbv zeta. pose proof (room_nonneg xs) as Hroom. unfold field_even, field_items in He. rewrite Harr in He.
  destruct (decide (a_type args = SPROTO_TINTEGER)) as [Hb|Hb]; [|destruct (decide (a_type args = SPROTO_TBOOLEAN)) as [Hb1|Hb1]]; cbn [a_type field_arg] in *.
  - unfold encode_integer_array. rewrite (ints_room Hb) in *. destruct (decide (size - 4 < 1)) as [Hlt|Hge1].
    { rewrite !bind_Ok. eexists (_, _), _. split; [done|]. split; [apply frame_refl|]. left. rewrite (ints_room Hb). cbn. lia. }
    destruct (integer_loop_spec n tbl f l (table_ok sp n) (data + 4) (size - 4 - 1) (fw_name _ _ Hf) Hb Hok) with
      (fuel := S (Z.to_nat (size - 4))) (pre := @nil lvalue) (post := xs) (self := self) (buf := buf) (size := size - 4 - 1)
      as ([[o ud] b1] & E & F & Hr); [destruct He as [He|[He _]]; [left; lia|right; by apply He]|lia|lia|done| |lia|].
    { split; [done|apply holds_nil; lia|unfold zlen; cbn; lia|lia|lia]. }
    change (width []) with 4 in E. change (zlen []) with 0 in E. rewrite Z.mul_0_r, Z.add_0_r in E. change (0 + 1) with 1 in E. rewrite E, bind_Ok.
    destruct o as [[[b il] na]|]; cycle 1.
    { rewrite !bind_Ok. eexists (_, _), _. split; [done|]. split; [eapply frame_le; [exact F|lia]|]. left. rewrite (ints_room Hb). cbn. lia. }
    destruct Hr as (-> & -> & -> & -> & Hh & Hle). pose proof (zlen_nonneg xs). pose proof (width_cases xs) as Hw.
    destruct (decide (data + 4 + 1 + width xs * zlen xs = data + 4 + 1)) as [Hz|Hz].
    + rewrite !bind_Ok. assert (xs = []) as Hn by (apply nil_length_inv; unfold zlen in *; nia).
      replace (data + 4 - (data + 4)) with (data + 4 + zlen (@nil Z) - (data + 4)) by (unfold zlen; cbn; lia).
      apply (array_finish data size [] array_end buf b1); [done|done|eapply frame_le; [exact F|lia]|apply holds_nil; lia|unfold zlen; cbn; lia| |done].
      unfold array_bytes. by rewrite decide_True, Hn by done.
    + rewrite wr_write. destruct (write_spec b1 (data + 4) [u8 (width xs)]) as (b2 & -> & F2 & H2 & G2); [lia|rewrite (frame_zlen _ _ _ F); unfold zlen at 1; cbn; lia|].
      rewrite !bind_Ok. assert (xs ≠ []) as Hne by (intros Hn; rewrite Hn in Hz; unfold zlen in Hz; cbn in Hz; lia).
      assert (u8 (width xs) = width xs) as Hu by (by destruct Hw as [-> | ->]). rewrite Hu in *.
      assert (zlen (width xs :: ints (width xs) xs) = 1 + width xs * zlen xs) as Hzl by (rewrite zlen_cons, ints_zlen by done; lia).
      replace (data + 4 + 1 + width xs * zlen xs - (data + 4)) with (data + 4 + zlen (width xs :: ints (width xs) xs) - (data + 4)) by lia.
      apply (array_finish data size (width xs :: ints (width xs) xs) array_end buf b2); [done|done| | |lia|by rewrite ints_bytes|done].
      * eapply frame_trans; [eapply frame_le; [exact F|lia]|done].
      * change (width xs :: ints (width xs) xs) with ([width xs] ++ ints (width xs) xs). apply holds_app. split; [done|]. apply G2; [done|].
        right. unfold zlen. cbn. lia.
  - destruct (boolean_loop_spec (S (Z.to_nat (size - 4))) [] xs self buf (data + 4) (size - 4) (size - 4)) as ([o ud] & b1 & E & F & Hr);
      [done|done|done|apply holds_nil; lia|lia|unfold zlen; cbn; lia|lia|lia|lia|].
    change (zlen []) with 0 in E. rewrite Z.add_0_r in E. change (0 + 1) with 1 in E. rewrite E, bind_Ok. cbn [fst] in Hr.
    assert (zlen (bool_bits <$> xs) = zlen xs) as Hz by (unfold zlen; by rewrite length_fmap).
    assert (array_bytes sp (wire sp n) f xs = bool_bits <$> xs) as Hab by (unfold array_bytes; by rewrite decide_False, decide_True by done).
    destruct Hr as [[-> Hlt]|(Ho & Hle & Hh)].
    + eexists (_, _), _. split; [done|]. split; [eapply frame_le; [exact F|lia]|]. left. split; [done|].
      pose proof (array_bytes_le (wire sp n) (need sp n) (wire_need n) f xs) as Ha. rewrite Hab, Hz in Ha. fold (room xs) in Ha. lia.
    + injection Ho as -> ->. rewrite <- Hz. apply (array_finish data size (bool_bits <$> xs) array_end buf b1); [done|done|done|done|lia|done|done].
  - assert (f_base f = SPROTO_TSTRING ∨ f_base f = SPROTO_TSTRUCT) as Hb2.
    { destruct (field_kinds _ _ Hf) as [[|[|[|]]] _]; tauto. }
    destruct (object_loop_spec (S (Z.to_nat (size - 4))) [] xs self buf (data + 4) (size - 4) (size - 4)) as ([o ud] & b1 & E & F & Hr);
      [done|done|done|apply holds_nil; lia|lia|unfold zlen; cbn; lia|lia|lia|lia|lia| |].
    { destruct He as [He|[_ He]]; [left; lia|by right]. }
    change (zlen (objs [])) with 0 in E. change (zlen []) with 0 in E. rewrite Z.add_0_r in E. change (0 + 1) with 1 in E. rewrite E, bind_Ok. cbn [fst] in Hr.
    destruct Hr as [[-> Hlt]|(Ho & Hle & Hh)].
    + eexists (_, _), _. split; [done|]. split; [eapply frame_le; [exact F|lia]|]. left. cbn. lia.
    + injection Ho as -> ->. apply (array_finish data size (objs xs) array_end buf b1); [done|done|done|done|lia| |done]. unfold array_bytes. by rewrite decide_False, decide_False by done.
Qed.
End Level.

(** ** One field *)

Definition field_done (sub : sproto_type → lfields → list Z) (nsub : sproto_type → lfields → Z) (f : field) (fs : list field) (tbl : lfields)
    (data size : Z) (o : field_result) (self' : encode_ud) (buf buf' : list Z) : Prop :=
  let x := get_field tbl (fkey f) in
  frame data buf buf' ∧
  match o with
  | FReturn _ => False
  | FNext => field_wire sp sub f x = None ∧ idle tbl fs self'
  | FData sz v =>
      sz = -1 ∧ size < field_need sp nsub f x ∨
      sz = 0 ∧ field_wire sp sub f x = None ∧ idle tbl fs self' ∨
      ∃ b, 0 < sz ∧ field_wire sp sub f x = Some (v, b) ∧ (if decide (v = 0) then sz = zlen b else b = []) ∧ 0 ≤ v < 65536 ∧
        zlen b ≤ size ∧ holds buf' data b ∧ idle tbl fs self'
  end.

Lemma encode_number_spec len buf data size room (b : list Z) :
  zlen b = len → 0 ≤ data → 0 ≤ size < 2 ^ 31 → data + size ≤ zlen buf → 4 + len ≤ room →
  ∃ r buf', (if decide (u64 size < SIZEOF_LENGTH + len) then Ok (-1, buf)
             else buf ← write_at buf (data + 4) b; fill_size buf data len) = Ok (r, buf') ∧
    frame data buf buf' ∧ (r = -1 ∧ size < room ∨ r = zlen (blob b) ∧ r ≤ size ∧ holds buf' data (blob b)).
Proof.
  intros <- Hd Hs Hb Hr. pose proof (zlen_nonneg b). unfold SIZEOF_LENGTH. rewrite (uwrap_small 64 size) by lia. destruct (decide (size < 4 + zlen b)).
  - eexists _, _. split; [done|]. split; [apply frame_refl|]. left; lia.
  - destruct (write_spec buf (data + 4) b) as (b1 & -> & F1 & H1 & _); [lia|lia|]. rewrite bind_Ok.
    destruct (fill_size_spec b1 data b) as (b2 & -> & F2 & H2); [done|done|rewrite (frame_zlen _ _ _ F1); lia|]. eexists _, _. split; [done|].
    split; [eapply frame_trans; [eapply frame_le; [exact F1|lia]|done]|]. right. rewrite blob_zlen in *. split_and!; [done|lia|done].
Qed.

Section Fields.
Context (n : nat) (IHn : encodes n) (tbl : lfields).

Lemma idle_rest f fs self : idle tbl (f :: fs) self → idle tbl fs self.
Proof. intros [? ? Hi]. split; [done|done|]. by apply Forall_cons in Hi as [_ ?]. Qed.
Lemma idle_after f fs self : NoDup (faddr <$> f :: fs) → e_tbl self = tbl → e_iter self = None → e_array_tag self = faddr f → idle tbl fs self.
Proof.
  intros [Hn _]%NoDup_cons Ht Hi Ha. split; [done|done|]. apply Forall_forall. intros g Hg E. apply Hn. rewrite Ha in E. rewrite <- E. by apply list_elem_of_fmap_2.
Qed.

(** A field of an absent value. *)
Lemma encode_nil f fs self buf data size :
  field_wf (sp_type_n sp) f → idle tbl (f :: fs) self → NoDup (faddr <$> f :: fs) → get_field tbl (fkey f) = VNil →
  0 ≤ data → 0 ≤ size < 2 ^ 31 → data + size ≤ zlen buf →
  ∃ o self' buf', encode_field (encode sp (S n)) f data size self buf = Ok (o, self', buf') ∧ field_done (wire sp n) (need sp n) f fs tbl data size o self' buf buf'.
Proof.
  intros Hf I Hd Hx Hda Hs Hb. pose proof (idle_rest _ _ _ I) as I'. destruct (field_kinds _ _ Hf) as [Hk Hty]. unfold encode_field, field_done. rewrite Hx. cbv zeta.
  assert (field_need sp (need sp n) f VNil = 12) as -> by done. fold (f_base f). fold (is_array f).
  destruct (decide (Z.land (f_type f) SPROTO_TARRAY ≠ 0)) as [Ha|Ha].
  - assert (is_array f = true) as Harr by (by apply bool_decide_eq_true_2). set (self2 := mk_eud tbl (faddr f) None None).
    assert (idle tbl fs self2) as I2 by (by apply (idle_after f fs)).
    assert (∀ v len i b, 0 < i → encode sp (S n) (with_value (field_arg f (f_base f)) v len i) self b = Ok (mk_cb SPROTO_CB_NOARRAY self2 b 0)) as Hcb.
    { intros v len i b Hi. destruct I as [I1 I2' I3]. apply Forall_cons in I3 as [I3 _]. cbn [encode]. unfold table_value. cbn [a_index with_value]. rewrite decide_True by done.
      unfold array_value. cbn [a_tagname with_value field_arg]. fold (faddr f). rewrite decide_True, (tag_key_Ok _ (fw_name _ _ Hf)), bind_Ok, I1, Hx, bind_Ok by done.
      cbn [negb]. rewrite bind_Ok. by rewrite I2'. }
    unfold encode_array, SIZEOF_LENGTH. cbn [a_type field_arg]. destruct (decide (size < 4)).
    { rewrite bind_Ok. eexists _, _, _. split; [done|]. split; [apply frame_refl|]. left. lia. }
    cbv zeta. destruct (decide (f_base f = SPROTO_TINTEGER)); [|destruct (decide (f_base f = SPROTO_TBOOLEAN))].
    + unfold encode_integer_array. destruct (decide (size - 4 < 1)).
      { rewrite !bind_Ok. eexists _, _, _. split; [done|]. split; [apply frame_refl|]. left. lia. }
      cbn [integer_loop]. rewrite Hcb, bind_Ok by lia. rewrite decide_True, decide_False, decide_True, bind_Ok by done. rewrite decide_True, !bind_Ok by done.
      eexists _, _, _. split; [done|]. split; [apply frame_refl|]. right. left. done.
    + cbn [boolean_loop]. rewrite Hcb, bind_Ok by lia. rewrite decide_True, decide_False, decide_True, !bind_Ok by done. eexists _, _, _. split; [done|].
      split; [apply frame_refl|]. right. left. done.
    + cbn [object_loop]. unfold SIZEOF_LENGTH. destruct (decide (size - 4 < 4)).
      { rewrite !bind_Ok. eexists _, _, _. split; [done|]. split; [apply frame_refl|]. left. lia. }
      cbv zeta. rewrite Hcb, bind_Ok by lia. rewrite decide_True, decide_False, decide_True, !bind_Ok by done. eexists _, _, _. split; [done|].
      split; [apply frame_refl|]. right. left. done.
  - assert (is_array f = false) as Harr by (by apply bool_decide_eq_false_2). rewrite (Hty Harr).
    assert (∀ v len b, encode sp (S n) (with_value (field_arg f (f_base f)) v len 0) self b = Ok (mk_cb SPROTO_CB_NIL self b 0)) as Hcb.
    { intros v len b. cbn [encode]. unfold table_value. cbn [a_index with_value a_tagname field_arg]. rewrite decide_False, (tag_key_Ok _ (fw_name _ _ Hf)), bind_Ok by lia.
      destruct I as [I1 _ _]. by rewrite I1, Hx. }
    destruct (decide (f_base f = SPROTO_TINTEGER ∨ f_base f = SPROTO_TBOOLEAN)) as [Hb1|Hb1].
    + rewrite Hcb, bind_Ok, decide_True, decide_True by done. eexists _, _, _. split; [done|]. split; [apply frame_refl|done].
    + rewrite decide_True by tauto. unfold encode_object, SIZEOF_LENGTH. destruct (decide (size < 4)).
      { rewrite bind_Ok. eexists _, _, _. split; [done|]. split; [apply frame_refl|]. left. lia. }
      cbn [a_index field_arg]. rewrite Hcb, bind_Ok. cbv zeta. cbn [cb_sz cb_ud cb_buf]. rewrite decide_True, decide_True, bind_Ok by done.
      eexists _, _, _. split; [done|]. split; [apply frame_refl|]. right. left. done.
Qed.

(** A field that is there. *)
Lemma encode_number_field f fs self buf data size :
  field_wf (sp_type_n sp) f → idle tbl (f :: fs) self → is_array f = false → f_base f = SPROTO_TINTEGER ∨ f_base f = SPROTO_TBOOLEAN →
  elem_ok sp (table_ok sp n) f (get_field tbl (fkey f)) → 0 ≤ data → 0 ≤ size < 2 ^ 31 → data + size ≤ zlen buf →
  ∃ o self' buf', encode_field (encode sp (S n)) f data size self buf = Ok (o, self', buf') ∧ field_done (wire sp n) (need sp n) f fs tbl data size o self' buf buf'.
Proof.
  intros Hf I Harr Hb Hx Hd Hs Hbuf. pose proof (idle_rest _ _ _ I) as I'. destruct (field_kinds _ _ Hf) as [_ Hty]. unfold encode_field, field_done.
  rewrite decide_False by (by apply bool_decide_eq_false_1 in Harr). cbv zeta. rewrite (Hty Harr), decide_True by done.
  assert (∀ v len, table_value (with_value (field_arg f (f_base f)) v len 0) self = Ok (inr (get_field tbl (fkey f)), self)) as Ht.
  { intros v len. unfold table_value. cbn [a_index with_value a_tagname field_arg]. rewrite decide_False, (tag_key_Ok _ (fw_name _ _ Hf)), bind_Ok by lia. by rewrite (idl_tbl _ _ _ I). }
  set (x := get_field tbl (fkey f)) in *. destruct Hb as [Hb|Hb].
  - rewrite (encode_int n (table_ok sp n) _ _ self _ f x), bind_Ok by done. destruct x as [| |i| | | | | |]; cbn [elem_ok] in Hx; try wrong_type Hb Hx.
    cbn [field_wire scalar_wire]. unfold int_code, int_union, field_need. cbn [field_items int_bits]. destruct (small_int (VInt i)) eqn:Es.
    + rewrite decide_False, decide_True by done. pose proof (uwrap_range 32 i ltac:(lia)) as Hu. rewrite (uwrap_small 32 (u32 i)) by done. destruct (decide (u32 i < 0x7fff)).
      * eexists _, _, _. split; [done|]. split; [apply frame_refl|]. right. right. exists []. rewrite decide_False by lia.
        split_and!; try done; try lia; try (by apply holds_nil); unfold zlen; cbn; lia.
      * unfold encode_integer. destruct (encode_number_spec 4 buf data size 12 (le32 (u32 i))) as (r & b1 & -> & F & Hr); [done..|]. rewrite bind_Ok. cbn [fst snd].
        eexists _, _, _. split; [done|]. split; [done|]. cbn [sum_of foldr elem_need]. destruct Hr as [[-> ?]|(-> & ? & ?)]; [left; lia|right; right].
        exists (blob (le32 (u32 i))). rewrite decide_True by done. rewrite blob_zlen, le32_zlen in *. split_and!; try done; lia.
    + rewrite decide_False, decide_False, decide_True by done. unfold encode_uint64.
      destruct (encode_number_spec 8 buf data size 12 (le64 (u64 i))) as (r & b1 & -> & F & Hr); [done..|]. rewrite bind_Ok. cbn [fst snd].
      eexists _, _, _. split; [done|]. split; [done|]. cbn [sum_of foldr elem_need]. destruct Hr as [[-> ?]|(-> & ? & ?)]; [left; lia|right; right].
      exists (blob (le64 (u64 i))). rewrite decide_True by done. rewrite blob_zlen, le64_zlen in *. split_and!; try done; lia.
  - rewrite (encode_bool n (table_ok sp n) _ _ self _ f x), bind_Ok by done. rewrite decide_False, decide_True by done.
    destruct x as [|b| | | | | | |]; cbn [elem_ok] in Hx; try wrong_type Hb Hx.
    exists (FData 2 (if b then 4 else 2)), self, buf. split; [by destruct b|]. split; [apply frame_refl|]. right. right. exists []. rewrite decide_False by (by destruct b).
    split_and!; try done; try (destruct b; lia); try (by apply holds_nil); unfold zlen; cbn; lia.
Qed.

Lemma encode_object_field f fs self buf data size :
  field_wf (sp_type_n sp) f → idle tbl (f :: fs) self → is_array f = false → f_base f = SPROTO_TSTRING ∨ f_base f = SPROTO_TSTRUCT →
  elem_ok sp (table_ok sp n) f (get_field tbl (fkey f)) →
  field_need sp (need sp n) f (get_field tbl (fkey f)) ≤ size ∨ field_even sp (table_even sp n) f (get_field tbl (fkey f)) →
  0 ≤ data → 0 ≤ size < 2 ^ 31 → data + size ≤ zlen buf →
  ∃ o self' buf', encode_field (encode sp (S n)) f data size self buf = Ok (o, self', buf') ∧ field_done (wire sp n) (need sp n) f fs tbl data size o self' buf buf'.
Proof.
  intros Hf I Harr Hb Hx He Hd Hs Hbuf. pose proof (idle_rest _ _ _ I) as I'. destruct (field_kinds _ _ Hf) as [_ Hty]. unfold encode_field, field_done.
  rewrite decide_False by (by apply bool_decide_eq_false_1 in Harr). cbv zeta. rewrite (Hty Harr). rewrite decide_False by (intros [E|E]; destruct Hb as [Hb|Hb]; rewrite Hb in E; discriminate E).
  rewrite decide_True by tauto. set (x := get_field tbl (fkey f)) in *. pose proof (elem_need_nonneg (wire sp n) (need sp n) (wire_need n) f x).
  assert (field_items f x = [x] ∧ field_wire sp (wire sp n) f x = Some (0, blob (elem_bytes sp (wire sp n) f x))) as [Hi Hw].
  { destruct Hb as [Hb|Hb]; destruct x; cbn [elem_ok] in Hx; try wrong_type Hb Hx; cbn; [done|]. by rewrite Harr. }
  assert (field_need sp (need sp n) f x = 12 + (8 + elem_need sp (need sp n) f x)) as Hn by (unfold field_need; rewrite Hi, sum_of_cons; cbn; lia). rewrite Hn in *.
  unfold encode_object, SIZEOF_LENGTH. destruct (decide (size < 4)).
  { rewrite bind_Ok. eexists _, _, _. split; [done|]. split; [apply frame_refl|]. left. lia. }
  destruct (encode_obj n IHn f Hf (with_value (field_arg f (f_base f)) (ABuffer (data + 4)) (size - 4) 0) self self buf x (data + 4) (size - 4)) as (r & b1 & E1 & F1 & Hr);
    [|done|done|done|done|done|done| |lia|lia|lia|].
  { unfold table_value. cbn [a_index with_value a_tagname field_arg]. rewrite decide_False, (tag_key_Ok _ (fw_name _ _ Hf)), bind_Ok by lia. by rewrite (idl_tbl _ _ _ I). }
  { destruct He as [He|[_ He]]; [left; lia|right]. rewrite Hi in He. by apply Forall_cons in He as [? _]. }
  cbn [a_index field_arg]. rewrite E1, bind_Ok. cbv zeta. cbn [cb_sz cb_ud cb_buf]. pose proof (zlen_nonneg (elem_bytes sp (wire sp n) f x)).
  destruct Hr as [[-> ?]|(-> & ? & Hh)].
  - rewrite decide_True, decide_False, bind_Ok by done. eexists _, _, _. split; [done|]. split; [eapply frame_le; [exact F1|lia]|]. left. lia.
  - rewrite decide_False by lia. rewrite c_assert_true by (by apply bool_decide_eq_true_2). rewrite bind_Ok.
    destruct (fill_size_spec b1 data (elem_bytes sp (wire sp n) f x)) as (b2 & -> & F2 & H2); [done|done|rewrite (frame_zlen _ _ _ F1); lia|]. rewrite !bind_Ok. cbn [fst snd].
    eexists _, _, _. split; [done|]. split; [eapply frame_trans; [eapply frame_le; [exact F1|lia]|done]|]. right. right. exists (blob (elem_bytes sp (wire sp n) f x)). rewrite decide_True by done.
    rewrite Hw, blob_zlen. split_and!; try done; lia.
Qed.

Lemma encode_field_spec f fs self buf data size :
  field_wf (sp_type_n sp) f → idle tbl (f :: fs) self → NoDup (faddr <$> f :: fs) →
  get_field tbl (fkey f) = VNil ∨ field_ok sp (table_ok sp n) f (get_field tbl (fkey f)) →
  field_need sp (need sp n) f (get_field tbl (fkey f)) ≤ size ∨ field_even sp (table_even sp n) f (get_field tbl (fkey f)) →
  0 ≤ data → 0 ≤ size < 2 ^ 31 → data + size ≤ zlen buf →
  ∃ o self' buf', encode_field (encode sp (S n)) f data size self buf = Ok (o, self', buf') ∧ field_done (wire sp n) (need sp n) f fs tbl data size o self' buf buf'.
Proof.
  intros Hf I Hnd [Hnil|Hok] He Hd Hs Hbuf; [by apply encode_nil|]. unfold field_ok in Hok. destruct (is_array f) eqn:Harr.
  - destruct (get_field tbl (fkey f)) as [| | | | | |l| |] eqn:Ex; try done. destruct Hok as [Hok _].
    assert (field_need sp (need sp n) f (VTable l) = 12 + room n f (items f l)) as Hn by (unfold field_need, field_items; by rewrite Harr). rewrite Hn in He.
    destruct (encode_array_spec n IHn f Hf tbl l Hok self buf data size) as ([r ud] & b1 & E & F & Hr); [| done..|].
    { destruct I as [? ? I3]. apply Forall_cons in I3 as [? _]. by apply ready_start. }
    unfold encode_field. cbv zeta. rewrite decide_True by (by apply bool_decide_eq_true_1 in Harr). fold (f_base f). rewrite E, bind_Ok. cbn [fst snd] in Hr.
    eexists _, _, _. split; [done|]. unfold field_done. rewrite Ex, Hn. split; [done|]. destruct Hr as [[-> ?]|(-> & -> & ? & ?)]; [by left|right; right].
    exists (blob (array_bytes sp (wire sp n) f (items f l))). rewrite decide_True by done. cbn [field_wire]. rewrite Harr. pose proof (zlen_nonneg (array_bytes sp (wire sp n) f (items f l))).
    split_and!; try done; try (by apply (idle_after f)); rewrite blob_zlen; lia.
  - destruct Hok as [_ Hok]. destruct (field_kinds _ _ Hf) as [Hk _]. destruct (decide (f_base f = SPROTO_TINTEGER ∨ f_base f = SPROTO_TBOOLEAN)).
    + by apply encode_number_field.
    + apply encode_object_field; try done. tauto.
Qed.

(** ** All fields *)

Definition gap_words (gap value : Z) : list Z := if decide (0 < gap) then [(gap - 1) * 2 + 1; value] else [value].
Lemma put_words_spec header index gap value buf :
  0 ≤ header → 0 ≤ index → gap < 0x7fff → header + 2 + 2 * (index + zlen (gap_words gap value)) ≤ zlen buf →
  ∃ buf', put_words header index gap value buf = Ok (Some (index + zlen (gap_words gap value), buf')) ∧ frame (header + 2 + 2 * index) buf buf' ∧
    holds buf' (header + 2 + 2 * index) (concat (le16 <$> gap_words gap value)) ∧
    ∀ j b, holds buf j b → j + zlen b ≤ header + 2 + 2 * index ∨ header + 2 + 2 * (index + zlen (gap_words gap value)) ≤ j → holds buf' j b.
Proof.
  intros Hh Hi Hg Hl. unfold put_words, gap_words, SIZEOF_HEADER, SIZEOF_FIELD in *. cbv zeta. destruct (decide (0 < gap)).
  - change (zlen [(gap - 1) * 2 + 1; value]) with 2 in *. rewrite decide_False by lia.
    destruct (write_spec buf (header + 2 + 2 * index) (le16 ((gap - 1) * 2 + 1))) as (b1 & -> & F1 & H1 & G1); [lia|rewrite le16_zlen; lia|]. rewrite bind_Ok.
    destruct (write_spec b1 (header + 2 + 2 * index + 2) (le16 value)) as (b2 & -> & F2 & H2 & G2); [lia|rewrite (frame_zlen _ _ _ F1), le16_zlen; lia|]. rewrite bind_Ok.
    exists b2. split; [done|]. split; [eapply frame_trans; [done|eapply frame_le; [done|lia]]|]. split.
    + cbn [fmap list_fmap concat]. apply holds_app. rewrite app_nil_r, le16_zlen. split; [apply G2; [done|rewrite !le16_zlen; lia]|done].
    + intros j b Hj Hd. apply G2; [apply G1; [done|]|]; rewrite le16_zlen; lia.
  - change (zlen [value]) with 1 in *. destruct (write_spec buf (header + 2 + 2 * index) (le16 value)) as (b1 & -> & F1 & H1 & G1); [lia|rewrite le16_zlen; lia|]. rewrite bind_Ok.
    exists b1. split; [done|]. split; [done|]. split; [cbn [fmap list_fmap concat]; by rewrite app_nil_r|]. intros j b Hj Hd. apply G1; [done|]. rewrite le16_zlen. lia.
Qed.

Definition fields_room (fs : list field) : Z := sum_of (λ f, field_need sp (need sp n) f (get_field tbl (fkey f))) fs.
Lemma field_room_nonneg f x : 0 ≤ field_need sp (need sp n) f x.
Proof.
  unfold field_need. assert (0 ≤ sum_of (λ y, 8 + elem_need sp (need sp n) f y) (field_items f x)); [|lia].
  apply sum_of_nonneg. intros y. pose proof (elem_need_nonneg (wire sp n) (need sp n) (wire_need n) f y). lia.
Qed.
Lemma fields_room_nonneg fs : 0 ≤ fields_room fs.
Proof. apply sum_of_nonneg. intros f. apply field_room_nonneg. Qed.

(** The state in front of the fields [fs]: the words [ws] and the data [ds] are written,
    and there is a word of room for each that may follow. *)
Record fields_at (header maxn : Z) (fs : list field) (ws ds : list Z) (last data size : Z) (self : encode_ud) (buf : list Z) : Prop := {
  fa_idle : idle tbl fs self;
  fa_words : holds buf (header + 2) (concat (le16 <$> ws));
  fa_datas : holds buf (header + 2 + 2 * maxn) ds;
  fa_data : data = header + 2 + 2 * maxn + zlen ds;
  fa_last : -1 ≤ last;
  fa_asc : ascending f_tag last fs;
  fa_size : 0 ≤ size < 2 ^ 31;
  fa_room : data + size ≤ zlen buf;
  fa_index : zlen ws + zlen (words last (entries sp (wire sp n) fs tbl)) ≤ maxn }.
Lemma fields_at_frame header maxn fs f ws ds last data size self self' buf buf' :
  0 ≤ header → fields_at header maxn (f :: fs) ws ds last data size self buf → field_wire sp (wire sp n) f (get_field tbl (fkey f)) = None →
  frame data buf buf' → idle tbl fs self' → f_tag f ≤ 0x7fff → ascending f_tag last fs → fields_at header maxn fs ws ds last data size self' buf'.
Proof.
  intros Hh [_ A2 A3 A4 A5 A6 A7 A8 A9] Hw F I _ Ha. rewrite entries_cons, Hw in A9. pose proof (zlen_nonneg ws). pose proof (zlen_nonneg ds).
  pose proof (zlen_nonneg (words last (entries sp (wire sp n) fs tbl))). split; try done.
  - eapply holds_frame; [done|exact F|]. rewrite words_bytes. lia.
  - eapply holds_frame; [done|exact F|lia].
  - by rewrite (frame_zlen _ _ _ F).
Qed.
Lemma ascending_le {A} (key : A → Z) last last' l : ascending key last l → last' ≤ last → ascending key last' l.
Proof. destruct l; [done|]. intros [H1 H2] Hl. split; [lia|done]. Qed.

Lemma encode_fields_spec header maxn fs ws ds last data size self buf :
  0 ≤ header → Forall (field_wf (sp_type_n sp)) fs → NoDup (faddr <$> fs) →
  Forall (λ f, get_field tbl (fkey f) = VNil ∨ field_ok sp (table_ok sp n) f (get_field tbl (fkey f))) fs →
  fields_room fs ≤ size ∨ Forall (λ f, field_even sp (table_even sp n) f (get_field tbl (fkey f))) fs →
  fields_at header maxn fs ws ds last data size self buf →
  let es := entries sp (wire sp n) fs tbl in
  ∃ o self' buf', encode_fields (encode sp (S n)) fs header (zlen ws) last data size self buf = Ok (o, self', buf') ∧ frame header buf buf' ∧
    (o = inl (-1) ∧ size < fields_room fs ∨
     o = inr (zlen (ws ++ words last es), header + 2 + 2 * maxn + zlen (ds ++ data_of es)) ∧ zlen (data_of es) ≤ size ∧
     holds buf' (header + 2) (concat (le16 <$> ws ++ words last es)) ∧ holds buf' (header + 2 + 2 * maxn) (ds ++ data_of es)).
Proof.
  intros Hh Hwfs Hnd Hok. cbv zeta. revert ws ds last data size self buf Hwfs Hnd Hok. induction fs as [|f fs IH]; intros ws ds last data size self buf Hwfs Hnd Hok He A.
  { cbn [encode_fields]. destruct A. eexists _, _, _. split; [done|]. split; [apply frame_refl|]. right. change (entries sp (wire sp n) [] tbl) with (@nil (Z * (Z * list Z))).
    cbn [words]. change (data_of []) with (@nil Z). rewrite !app_nil_r. split_and!; try done; [by subst data|change (zlen (@nil Z)) with 0; lia]. }
  apply Forall_cons in Hwfs as [Hf Hfs]. apply Forall_cons in Hok as [Hx Hxs]. pose proof (field_room_nonneg f (get_field tbl (fkey f))). pose proof (fields_room_nonneg fs).
  assert (fields_room (f :: fs) = field_need sp (need sp n) f (get_field tbl (fkey f)) + fields_room fs) as Hr by done. rewrite Hr in *.
  pose proof A as A0. destruct A as [A1 A2 A3 A4 A5 A6 A7 A8 A9]. destruct A6 as [A61 A62]. pose proof (zlen_nonneg ws). pose proof (zlen_nonneg ds).
  pose proof (zlen_nonneg (words last (entries sp (wire sp n) (f :: fs) tbl))).
  destruct (encode_field_spec f fs self buf data size) as (o & self' & b1 & E & F & Ho); [done|done|done|done| |lia|done|done|].
  { destruct He as [He|He]; [left; lia|right]. by apply Forall_cons in He as [? _]. }
  assert (∀ s', fields_room (f :: fs) ≤ size → size - field_need sp (need sp n) f (get_field tbl (fkey f)) ≤ s' → fields_room fs ≤ s') as Hstep by (intros; lia).
  cbn [encode_fields]. rewrite E, bind_Ok. apply NoDup_cons in Hnd as [Hn1 Hn2]. cbv zeta in Ho.
  assert (∀ self', field_wire sp (wire sp n) f (get_field tbl (fkey f)) = None → idle tbl fs self' →
    ∃ o self2 buf', encode_fields (encode sp (S n)) fs header (zlen ws) last data size self' b1 = Ok (o, self2, buf') ∧ frame header buf buf' ∧
    (o = inl (-1) ∧ size < field_need sp (need sp n) f (get_field tbl (fkey f)) + fields_room fs ∨
     o = inr (zlen (ws ++ words last (entries sp (wire sp n) (f :: fs) tbl)), header + 2 + 2 * maxn + zlen (ds ++ data_of (entries sp (wire sp n) (f :: fs) tbl))) ∧
     zlen (data_of (entries sp (wire sp n) (f :: fs) tbl)) ≤ size ∧ holds buf' (header + 2) (concat (le16 <$> ws ++ words last (entries sp (wire sp n) (f :: fs) tbl))) ∧
     holds buf' (header + 2 + 2 * maxn) (ds ++ data_of (entries sp (wire sp n) (f :: fs) tbl)))) as Hskip.
  { intros s2 Hw I2. destruct (IH ws ds last data size s2 b1) as (o2 & s3 & b2 & E2 & F2 & Ho2); [done|done|done| | |].
    - destruct He as [He|He]; [left; lia|right]. by apply Forall_cons in He as [_ ?].
    - eapply fields_at_frame; try done; [destruct Hf; lia|]. eapply ascending_le; [done|lia].
    - rewrite entries_cons, Hw. eexists _, _, _. split; [done|]. split; [eapply frame_trans; [eapply frame_le; [exact F|lia]|done]|].
      destruct Ho2 as [[? ?]|?]; [left; split; [done|lia]|by right]. }
  destruct o as [code| |sz v]; [done|destruct Ho as [Hw I2]; by apply Hskip|]. destruct Ho as [[-> Hlt]|[(-> & Hw & I2)|(b & Hsz & Hw & Hv & Hvr & Hbs & Hb & I2)]].
  - rewrite decide_True by done. eexists _, _, _. split; [done|]. split; [eapply frame_le; [exact F|lia]|]. left. split; [done|lia].
  - rewrite decide_False, decide_False by done. by apply Hskip.
  - rewrite decide_False, decide_True by lia. set (gap := f_tag f - last - 1). rewrite entries_cons, Hw in *. rewrite words_cons in *. fold gap in A9 |- *. fold (gap_words gap v) in A9 |- *.
    rewrite zlen_app in A9. pose proof (zlen_nonneg (gap_words gap v)). pose proof (zlen_nonneg (words (f_tag f) (entries sp (wire sp n) fs tbl))). pose proof (zlen_nonneg b).
    destruct (put_words_spec header (zlen ws) gap v b1) as (b2 & -> & F2 & Hw2 & G2); [done|done|unfold gap; destruct Hf; lia|rewrite (frame_zlen _ _ _ F); lia|]. rewrite bind_Ok. cbv zeta.
    assert ((if decide (v = 0) then sz else 0) = zlen b) as -> by (revert Hv; destruct (decide (v = 0)); [done|by intros ->]). rewrite <- (zlen_app ws).
    destruct (IH (ws ++ gap_words gap v) (ds ++ b) (f_tag f) (data + zlen b) (size - zlen b) self' b2) as (o2 & s3 & b3 & E3 & F3 & Ho3); [done|done|done| | |].
    + pose proof (field_wire_le (wire sp n) (need sp n) (wire_need n) f _ _ Hw) as Hle. cbn in Hle.
      destruct He as [He|He]; [left; lia|right]. by apply Forall_cons in He as [_ ?].
    + split; [done| | |rewrite zlen_app; lia|destruct Hf; lia|done|lia|rewrite (frame_zlen _ _ _ F2), (frame_zlen _ _ _ F); lia|rewrite zlen_app; lia].
      * rewrite fmap_app, concat_app. apply holds_app. rewrite words_bytes. split; [|done]. apply G2; [|left; rewrite words_bytes; lia]. eapply holds_frame; [done|exact F|].
        rewrite words_bytes. lia.
      * apply holds_app. split; apply G2; [eapply holds_frame; [done|exact F|lia]|right; lia|by subst data|right; lia].
    + rewrite E3. eexists _, _, _. split; [done|]. split; [eapply frame_trans; [eapply frame_le; [exact F|lia]|eapply frame_trans; [eapply frame_le; [exact F2|lia]|done]]|].
      rewrite data_of_cons. cbn [fst snd]. rewrite !app_assoc. destruct Ho3 as [[-> ?]|(-> & ? & ? & ?)].
      * left. split; [done|]. pose proof (field_wire_le (wire sp n) (need sp n) (wire_need n) f _ _ Hw) as Hle. cbn in Hle. lia.
      * right. split_and!; try done. rewrite zlen_app. lia.
Qed.
End Fields.

(** ** A message *)

Lemma encodes_step n : encodes n → encodes (S n).
Proof.
  intros IHn t l off size buf W Hok He Hoff Hs Hbuf. pose proof W as [_ _ Wf Wa Wm _ Wn]. set (es := entries sp (wire sp n) (t_f t) l).
  pose proof (max_words_nonneg (-1) (t_f t)) as Hmax. rewrite <- Wm in Hmax. pose proof (fields_room_nonneg n l (t_f t)) as Hroom.
  assert (need sp (S n) t l = 2 + 2 * t_maxn t + fields_room n l (t_f t)) as Hneed by (cbn [need]; unfold SIZEOF_HEADER, SIZEOF_FIELD, fields_room; lia).
  assert (zlen (words (-1) es) ≤ t_maxn t) as Hwords.
  { pose proof (words_le (wire sp n) l (t_f t) (-1) (-1) Wa ltac:(lia)) as Hw. rewrite (decide_False (P := -1 < -1)) in Hw by lia. rewrite Wm. unfold es. lia. }
  unfold sproto_encode, SIZEOF_HEADER, SIZEOF_FIELD. cbv zeta. destruct (decide (size < 2 + t_maxn t * 2)).
  { eexists _, _, _. split; [done|]. split; [apply frame_refl|]. left. lia. }
  destruct (encode_fields_spec n IHn l off (t_maxn t) (t_f t) [] [] (-1) (off + (2 + t_maxn t * 2)) (size - (2 + t_maxn t * 2)) (new_encode_ud l) buf) as (o & ud & b1 & E & F & Ho); try done.
  { destruct He as [He|He]; [left; lia|by right]. }
  { split; [split; [done|done|]|apply holds_nil; lia|apply holds_nil; lia|change (zlen []) with 0; lia|lia|done|lia|lia|done].
    eapply Forall_impl; [exact Wf|]. intros g [_ _ Hg _ _]. unfold faddr. cbn. by destruct (f_name g). }
  fold es in Ho. cbn [app] in Ho. change (zlen []) with 0 in E. rewrite E, bind_Ok. destruct Ho as [[-> Hlt]|(-> & Hle & Hw & Hd)].
  { eexists _, _, _. split; [done|]. split; [done|]. left. lia. }
  set (ws := words (-1) es) in *. set (ds := data_of es) in *. pose proof (zlen_nonneg ws). pose proof (zlen_nonneg ds).
  destruct (write_spec b1 off (le16 (zlen ws))) as (b2 & -> & F2 & H2 & G2); [done|rewrite (frame_zlen _ _ _ F), le16_zlen; lia|]. rewrite bind_Ok.
  assert (holds b2 (off + 2) (concat (le16 <$> ws))) as Hw2 by (apply G2; [done|right; rewrite le16_zlen; lia]).
  assert (holds b2 (off + 2 + 2 * t_maxn t) ds) as Hd2 by (apply G2; [done|right; rewrite le16_zlen; lia]).
  assert (∃ b3, (if decide (zlen ws ≠ t_maxn t) then bytes ← read_at b2 (off + (2 + t_maxn t * 2)) (off + 2 + 2 * t_maxn t + zlen ds - (off + (2 + t_maxn t * 2)));
      write_at b2 (off + 2 + zlen ws * 2) bytes else Ok b2) = Ok b3 ∧ frame off b2 b3 ∧ holds b3 off (message_bytes es)) as (b3 & -> & F3 & H3).
  { assert (∀ b, holds b off (le16 (zlen ws)) → holds b (off + 2) (concat (le16 <$> ws)) → holds b (off + 2 + 2 * zlen ws) ds → holds b off (message_bytes es)) as Hm.
    { intros b Ha Hb Hc. unfold message_bytes. fold ws ds. apply holds_app. rewrite le16_zlen. split; [done|]. apply holds_app. rewrite words_bytes. done. }
    destruct (decide (zlen ws ≠ t_maxn t)) as [Hne|Heq].
    - replace (off + (2 + t_maxn t * 2)) with (off + 2 + 2 * t_maxn t) by lia. replace (off + 2 + 2 * t_maxn t + zlen ds - (off + 2 + 2 * t_maxn t)) with (zlen ds) by lia.
      rewrite (holds_read _ _ _ Hd2), bind_Ok by (rewrite (frame_zlen _ _ _ F2), (frame_zlen _ _ _ F); lia).
      destruct (write_spec b2 (off + 2 + zlen ws * 2) ds) as (b3 & -> & F3 & H3 & G3); [lia|rewrite (frame_zlen _ _ _ F2), (frame_zlen _ _ _ F); lia|].
      exists b3. split; [done|]. split; [eapply frame_le; [done|lia]|]. replace (zlen ws * 2) with (2 * zlen ws) in H3 by lia.
      apply Hm; [apply G3; [done|left; rewrite le16_zlen; lia]|apply G3; [done|left; rewrite words_bytes; lia]|done].
    - exists b2. split; [done|]. split; [apply frame_refl|]. apply Hm; [done|done|]. replace (zlen ws) with (t_maxn t) by lia. done. }
  rewrite bind_Ok. eexists _, _, _. split; [done|]. split; [by eapply frame_trans; [|eapply frame_trans]|]. right. cbn [wire]. fold es.
  assert (zlen (message_bytes es) = 2 + 2 * zlen ws + zlen ds) as Hz by (unfold message_bytes; rewrite !zlen_app, le16_zlen, words_bytes; fold ws ds; lia).
  rewrite Hz. split_and!; [lia|lia|done].
Qed.
Lemma encodes_all n : encodes n.
Proof. induction n as [|n IH]; [|by apply encodes_step]. by intros t l off size buf _ []. Qed.

(** ** [lencode] *)

(** The buffer doubles until the message fits, or is too large for a buffer of 2^24 bytes;
    with a buffer of [need] bytes within reach, it fits. *)
Lemma lencode_loop_spec fuel t l buf :
  stype_wf (sp_type_n sp) t → table_ok sp ENCODE_DEEPLEVEL t l →
  need sp ENCODE_DEEPLEVEL t l ≤ zlen buf ∨ table_even sp ENCODE_DEEPLEVEL t l → 0 < zlen buf ≤ ENCODE_MAXSIZE → ENCODE_MAXSIZE < zlen buf * 2 ^ Z.of_nat fuel →
  (∃ buf', lencode_loop sp fuel t l buf = Ok (wire sp ENCODE_DEEPLEVEL t l, buf') ∧ zlen (wire sp ENCODE_DEEPLEVEL t l) ≤ zlen buf' ≤ ENCODE_MAXSIZE) ∨
  lencode_loop sp fuel t l buf = Err (LuaError 0) ∧ ENCODE_MAXSIZE < 2 * need sp ENCODE_DEEPLEVEL t l.
Proof.
  intros W Hok. set (N := ENCODE_DEEPLEVEL) in *. revert buf. induction fuel as [|fuel IH]; intros buf He Hb Hf; cbn [lencode_loop]; fold N.
  { change (2 ^ Z.of_nat 0) with 1 in Hf. lia. }
  unfold ENCODE_MAXSIZE in *. destruct (encodes_all N t l 0 (zlen buf) buf) as (r & ud & b1 & -> & F & Hr); [done|done|done|lia|lia|lia|].
  rewrite bind_Ok. pose proof (zlen_nonneg (wire sp N t l)). destruct Hr as [[-> Hlt]|(-> & Hle & Hh)].
  - rewrite decide_True by done. rewrite (frame_zlen _ _ _ F). rewrite c_int_Ok by (unfold INT_MIN, INT_MAX; lia). rewrite bind_Ok.
    unfold expand_buffer. cbn [double_until]. rewrite c_int_Ok by (unfold INT_MIN, INT_MAX; lia). rewrite bind_Ok. rewrite decide_False, bind_Ok by lia.
    unfold ENCODE_MAXSIZE. destruct (decide (0x1000000 < zlen buf * 2)); [right; split; [done|lia]|]. rewrite bind_Ok.
    assert (zlen (replicate (Z.to_nat (zlen buf * 2)) 0) = zlen buf * 2) as Hz by (rewrite zlen_replicate; lia).
    apply IH; rewrite Hz; [right; destruct He; [lia|done]|lia|]. replace (Z.of_nat (S fuel)) with (1 + Z.of_nat fuel) in Hf by lia. rewrite Z.pow_add_r in Hf by lia. lia.
  - rewrite decide_False by lia. rewrite (holds_read _ _ _ Hh), bind_Ok by (rewrite (frame_zlen _ _ _ F); lia). left. eexists. split; [done|]. rewrite (frame_zlen _ _ _ F). lia.
Qed.
End Callback.
