(* ===== verification/SprotoDecodeProps.v ===== *)
(** * The decoder reads the specified bytes

    From the bytes of a message, wherever they are in memory, the decoder builds the
    [picture] of the message and reads all of them. *)
From stdpp Require Import base numbers list.
From S2P Require Import Prelude CString Seri SprotoPack SprotoSchema SprotoEncode SprotoDecode SprotoWire SprotoEncodeProps.

(** ** Numbers in the message *)

Lemma byte_land v : byte (Z.land v 0xff).
Proof. unfold byte. change 0xff with (2 ^ 8 - 1). rewrite land_ones_mod by lia. change 256 with (2 ^ 8). apply Z.mod_pos_bound. lia. Qed.
Lemma holds_rd m i b k x : holds m i b → b !! k = Some x → rd m (i + Z.of_nat k) = Ok x.
Proof. intros [Hi H] Hk. apply rd_lookup; [lia|]. rewrite <- (H k x Hk). f_equal. lia. Qed.
Lemma toword_le16 m i v : holds m i (le16 v) → 0 ≤ v < 65536 → toword m i = Ok v.
Proof.
  intros Hh Hv. unfold toword. pose proof (holds_rd m i _ 0 _ Hh eq_refl) as H0. pose proof (holds_rd m i _ 1 _ Hh eq_refl) as H1.
  rewrite Z.add_0_r in H0. change (Z.of_nat 1) with 1 in H1. rewrite H0, bind_Ok, H1, bind_Ok, word_value by apply byte_land. f_equal.
  change 0xff with (2 ^ 8 - 1). rewrite !land_ones_mod, Z.shiftr_div_pow2 by lia. rewrite (Z.mod_small (v / 2 ^ 8)) by (change (2 ^ 8) with 256; split; [apply Z.div_pos; lia|apply Z.div_lt_upper_bound; lia]).
  change (2 ^ 8) with 256. pose proof (Z.div_mod v 256). lia.
Qed.
Lemma todword_le32 m i v : holds m i (le32 v) → todword m i = Ok (u32 v).
Proof.
  intros Hh. unfold todword. pose proof (holds_rd m i _ 0 _ Hh eq_refl) as H0. pose proof (holds_rd m i _ 1 _ Hh eq_refl) as H1.
  pose proof (holds_rd m i _ 2 _ Hh eq_refl) as H2. pose proof (holds_rd m i _ 3 _ Hh eq_refl) as H3. rewrite Z.add_0_r in H0.
  change (Z.of_nat 1) with 1 in H1. change (Z.of_nat 2) with 2 in H2. change (Z.of_nat 3) with 3 in H3.
  rewrite H0, bind_Ok, H1, bind_Ok, H2, bind_Ok, H3, bind_Ok, dword_value by apply byte_land. f_equal.
  change 0xff with (2 ^ 8 - 1). rewrite !land_ones_mod, !Z.shiftr_div_pow2 by lia. unfold uwrap. change (2 ^ 8) with 256. change (2 ^ 16) with 65536.
  change (2 ^ 24) with 16777216. change (2 ^ 32) with 4294967296.
  pose proof (Z.rem_mul_r v 256 16777216) as R1. pose proof (Z.rem_mul_r (v / 256) 256 65536) as R2. pose proof (Z.rem_mul_r (v / 65536) 256 256) as R3.
  rewrite !Z.div_div in R2, R3 by lia. change (256 * 16777216) with 4294967296 in R1. change (256 * 65536) with 16777216 in R2.
  change (256 * 256) with 65536 in R2, R3. change (65536 * 256) with 16777216 in R3. lia.
Qed.

Lemma expand_small i : - 2 ^ 31 ≤ i < 2 ^ 31 → s64 (expand64 (u32 i)) = i.
Proof.
  intros Hi. unfold expand64. pose proof (uwrap_range 32 i ltac:(lia)). pose proof (sign_bit i Hi) as Hb. pose proof (u32_small i Hi) as Hu.
  destruct (decide (Z.land (u32 i) 0x80000000 ≠ 0)) as [Hn|Hn].
  - rewrite decide_True in Hu by tauto. change (u64 (Z.shiftl (Z.lnot 0) 32)) with ((2 ^ 32 - 1) * 2 ^ 32). rewrite (lor_add_high _ _ 32) by lia.
    unfold swrap. replace (u32 i + (2 ^ 32 - 1) * 2 ^ 32 + 2 ^ (64 - 1)) with (i + 2 ^ 63 + 1 * 2 ^ 64) by lia. rewrite Z.mod_add, Z.mod_small by lia. lia.
  - rewrite decide_False in Hu by tauto. rewrite Hu. apply swrap_small; lia.
Qed.
Lemma join_halves i : - 2 ^ 63 ≤ i < 2 ^ 63 →
  s64 (Z.lor (u32 (u64 i)) (u64 (Z.shiftl (u32 (Z.shiftr (u64 i) 32)) 32))) = i.
Proof.
  intros Hi. pose proof (uwrap_range 64 i ltac:(lia)) as Hu. set (u := u64 i) in *. rewrite Z.shiftr_div_pow2 by lia.
  assert (0 ≤ u / 2 ^ 32 < 2 ^ 32) as Hh by (split; [apply Z.div_pos; lia|apply Z.div_lt_upper_bound; lia]).
  rewrite (uwrap_small 32 (u / 2 ^ 32)) by done. rewrite Z.shiftl_mul_pow2 by lia. rewrite (uwrap_small 64) by lia.
  rewrite (lor_add_high _ _ 32) by (try apply uwrap_range; lia). unfold uwrap at 1. replace (u `mod` 2 ^ 32 + u / 2 ^ 32 * 2 ^ 32) with u by (pose proof (Z.div_mod u (2 ^ 32)); lia).
  unfold u. rewrite u64_signed by done. case_decide; [|by apply swrap_small; lia]. unfold swrap.
  replace (i + 2 ^ 64 + 2 ^ (64 - 1)) with (i + 2 ^ 63 + 1 * 2 ^ 64) by lia. rewrite Z.mod_add, Z.mod_small by lia. lia.
Qed.

(** ** Tables under construction *)

Definition seq_table (ys : list lvalue) : lfields := imap (λ i y, (VInt (Z.of_nat i + 1), y)) ys.
Definition new_key (l : lfields) (k : lvalue) : Prop := Forall (λ kv, same_key k kv.1 = false) l.
Lemma set_table_new l k v : new_key l k → set_table l k v = l ++ [(k, v)].
Proof. induction l as [|[k' v'] l IH]; [done|]. intros [H1 H2]%Forall_cons. cbn in *. by rewrite H1, IH. Qed.
Lemma set_table_last l k v w : new_key l k → same_key k k = true → set_table (l ++ [(k, v)]) k w = l ++ [(k, w)].
Proof. induction l as [|[k' v'] l IH]; cbn; [by intros _ ->|]. intros [H1 H2]%Forall_cons Hk. cbn in H1. by rewrite H1, IH. Qed.
Lemma get_field_last l k v : new_key l (VStr k) → get_field (l ++ [(VStr k, v)]) k = v.
Proof.
  induction l as [|[k' v'] l IH]; cbn; [by rewrite decide_True|]. intros [H1 H2]%Forall_cons. specialize (IH H2). destruct k' as [| | | |s| | | |]; try exact IH.
  cbn in H1. apply bool_decide_eq_false_1 in H1. by rewrite decide_False by congruence.
Qed.
Lemma same_str k : same_key (VStr k) (VStr k) = true.
Proof. by apply bool_decide_eq_true_2. Qed.
Lemma seq_table_zlen ys : zlen (seq_table ys) = zlen ys.
Proof. unfold zlen, seq_table. by rewrite length_imap. Qed.
Lemma seq_table_snoc ys y : seq_table (ys ++ [y]) = seq_table ys ++ [(VInt (zlen ys + 1), y)].
Proof. unfold seq_table, zlen. rewrite imap_app. cbn. by rewrite Nat.add_0_r. Qed.
Lemma seq_table_new ys : new_key (seq_table ys) (VInt (zlen ys + 1)).
Proof.
  apply Forall_lookup_2. intros i [k v] Hi. unfold seq_table in Hi. rewrite list_lookup_imap in Hi. destruct (ys !! i) eqn:E; cbn in Hi; [|done].
  injection Hi as <- <-. apply bool_decide_eq_false_2. apply lookup_lt_Some in E. unfold zlen. lia.
Qed.

Section Decode.
Context (sp : sproto) (m : list Z) (Hso : schema_ok sp) (Hm : zlen m < 2 ^ 31).

(** The value a table has as the key of its entry in a map: the field with the tag [mi]. *)
Fixpoint key_of (sub : sproto_type → lfields → lfields) (mi : Z) (fs : list field) (l : lfields) (old : lvalue) : lvalue :=
  match fs with
  | [] => old
  | f :: fs =>
      let x := get_field l (fkey f) in
      key_of sub mi fs l (if decide (mi = f_tag f ∧ is_array f = false ∧ x ≠ VNil) then field_picture sp sub f x else old)
  end.
Definition table_key (n : nat) (mi : Z) (t : sproto_type) (l : lfields) : lvalue :=
  match n with O => VNil | S n => key_of (picture sp n) mi (t_f t) l VNil end.
Definition decodes (n : nat) : Prop :=
  ∀ t l off mi,
    t ∈ sp_type sp → table_ok sp n t l → holds m off (wire sp n t l) → off + zlen (wire sp n t l) ≤ zlen m →
    ∃ d, sproto_decode m (decode sp m n) t off (zlen (wire sp n t l)) (new_decode_ud [] mi) = Ok (zlen (wire sp n t l), d) ∧
      d_result d = picture sp n t l ∧ d_key d = table_key n mi t l.

Lemma key_of_later sub mi fs l old : (∀ f, f ∈ fs → mi ≠ f_tag f) → key_of sub mi fs l old = old.
Proof.
  revert old. induction fs as [|f fs IH]; intros old H; [done|]. cbn. rewrite decide_False by (intros [E _]; by apply (H f); [left|]).
  apply IH. intros g Hg. apply H. by right.
Qed.
Lemma key_of_field sub mi last fs l old g :
  ascending f_tag last fs → g ∈ fs → f_tag g = mi → is_array g = false → get_field l (fkey g) ≠ VNil →
  key_of sub mi fs l old = field_picture sp sub g (get_field l (fkey g)).
Proof.
  revert last old. induction fs as [|f fs IH]; intros last old Ha Hg Ht Harr Hx; [by apply not_elem_of_nil in Hg|]. destruct Ha as [Ha1 Ha2].
  apply elem_of_cons in Hg as [->|Hg]; cbn; [|by eapply IH]. rewrite decide_True by done. apply key_of_later. intros h [i Hi]%list_elem_of_lookup.
  pose proof (ascending_bound _ _ _ _ _ Ha2 Hi). lia.
Qed.

Lemma subtype_in f t : subtype sp f = Some t → t ∈ sp_type sp.
Proof. unfold subtype. destruct (f_st f); cbn; [|done]. by apply list_elem_of_lookup_2. Qed.
Lemma type_wf t : t ∈ sp_type sp → stype_wf (sp_type_n sp) t.
Proof. intros Ht. eapply Forall_forall; [apply (so_wf _ Hso)|done]. Qed.

(** ** Arrays of the table *)

Definition arrst (d0 : decode_ud) (f : field) (cur : lfields) : decode_ud :=
  mk_dud (d_result d0 ++ [(VStr (fkey f), VTable cur)]) (faddr f) (Some (fkey f)) (d_mainindex_tag d0) (d_key d0).
(** The array of [f] holds [cur]; it is not started when [cur] is empty. *)
Definition arr_at (d0 : decode_ud) (f : field) (cur : lfields) (d : decode_ud) : Prop :=
  match cur with [] => d = d0 | _ => d = arrst d0 f cur end.
Record fresh_field (d0 : decode_ud) (f : field) : Prop := {
  ff_name : f_name f ≠ None;
  ff_tag : faddr f ≠ d_array_tag d0;
  ff_key : new_key (d_result d0) (VStr (fkey f)) }.

Lemma open_arr d0 f cur d args index :
  fresh_field d0 f → arr_at d0 f cur d → asks args f index → 0 < index → open_array args d = Ok (false, arrst d0 f cur).
Proof.
  intros [F1 F2 F3] A (A1 & _ & _ & A4 & _) Hi. unfold open_array. rewrite A1, A4. fold (faddr f). destruct cur as [|c cur]; cbn in A; subst d.
  - rewrite decide_True by (split; [lia|done]). rewrite tag_key_Ok, bind_Ok by done. rewrite bool_decide_eq_false_2 by lia. by rewrite set_table_new.
  - rewrite decide_False by (intros [_ E]; by apply E). done.
Qed.
Lemma set_array_new d0 f cur k v :
  fresh_field d0 f → new_key cur k → set_array (arrst d0 f cur) k v = Ok (arrst d0 f (cur ++ [(k, v)])).
Proof.
  intros [F1 F2 F3] Hk. unfold set_array. cbn [d_array arrst of_option]. rewrite bind_Ok. cbn [d_result arrst]. rewrite get_field_last by done.
  rewrite (set_table_new cur) by done. rewrite set_table_last by (done || apply same_str). done.
Qed.
Lemma arr_at_app d0 f cur c : arr_at d0 f (cur ++ [c]) (arrst d0 f (cur ++ [c])).
Proof. by destruct cur. Qed.

Lemma step_value n d0 f ys d args y :
  fresh_field d0 f → arr_at d0 f (seq_table ys) d → asks args f (zlen ys + 1) → get_value sp m (sproto_decode m (decode sp m n)) args = Ok (GValue y) →
  ∃ d', decode sp m (S n) args d = Ok (0, d') ∧ arr_at d0 f (seq_table (ys ++ [y])) d'.
Proof.
  intros F A Ha Hg. pose proof (zlen_nonneg ys). cbn [decode]. rewrite (open_arr d0 f (seq_table ys) d args (zlen ys + 1)), bind_Ok by (done || lia). rewrite Hg, bind_Ok.
  unfold store_value. destruct Ha as (_ & _ & _ & -> & _). rewrite decide_True by lia. rewrite (set_array_new d0 f _ _ _ F (seq_table_new ys)), bind_Ok. eexists. split; [done|].
  rewrite seq_table_snoc. apply arr_at_app.
Qed.
Lemma step_entry n d0 f cur d args k y index :
  fresh_field d0 f → arr_at d0 f cur d → asks args f index → 0 < index → new_key cur k → get_value sp m (sproto_decode m (decode sp m n)) args = Ok (GEntry k y) →
  ∃ d', decode sp m (S n) args d = Ok (0, d') ∧ arr_at d0 f (cur ++ [(k, y)]) d'.
Proof.
  intros F A Ha Hi Hk Hg. cbn [decode]. rewrite (open_arr d0 f cur d args index), bind_Ok by done. rewrite Hg, bind_Ok.
  rewrite (set_array_new d0 f _ _ _ F Hk), bind_Ok. eexists. split; [done|]. apply arr_at_app.
Qed.
Lemma step_empty n d0 f args :
  fresh_field d0 f → asks args f (-1) → decode sp m (S n) args d0 = Ok (0, arrst d0 f []).
Proof.
  intros [F1 F2 F3] (A1 & _ & _ & A4 & _). cbn [decode]. unfold open_array. rewrite A1, A4. fold (faddr f). rewrite decide_True by done.
  rewrite tag_key_Ok, !bind_Ok by done. rewrite bool_decide_eq_true_2 by done. by rewrite set_table_new.
Qed.

(** ** One value *)

Definition main_key (n : nat) (f : field) (x : lvalue) : lvalue :=
  match x, subtype sp f with VTable l, Some t => table_key n (f_key f) t l | _, _ => VNil end.
Lemma got_object n f args x off :
  decodes n → field_wf (sp_type_n sp) f → f_base f = SPROTO_TSTRING ∨ f_base f = SPROTO_TSTRUCT → elem_ok sp (table_ok sp n) f x →
  a_type args = f_base f → a_subtype args = f_st f → a_mainindex args = f_key f → a_value args = ABuffer off →
  a_length args = zlen (elem_bytes sp (wire sp n) f x) → holds m off (elem_bytes sp (wire sp n) f x) → off + zlen (elem_bytes sp (wire sp n) f x) ≤ zlen m →
  (f_base f = SPROTO_TSTRUCT → 0 ≤ f_key f → main_key n f x ≠ VNil) →
  get_value sp m (sproto_decode m (decode sp m n)) args =
    Ok (if decide (f_base f = SPROTO_TSTRUCT ∧ 0 ≤ f_key f) then GEntry (main_key n f x) (elem_picture sp (picture sp n) f x)
        else GValue (elem_picture sp (picture sp n) f x)).
Proof.
  intros IHn Hf Hb Hx A1 A2 A3 A4 A5 Hh Hl Hk. unfold get_value, the_buffer. rewrite A1, A3, A4, A5. pose proof (zlen_nonneg (elem_bytes sp (wire sp n) f x)).
  destruct Hh as [Hoff Hh]. pose proof (conj Hoff Hh : holds m off (elem_bytes sp (wire sp n) f x)) as Hh'. destruct Hb as [Hb|Hb].
  - destruct x as [| | | |s| | | |]; cbn [elem_ok] in Hx; try wrong_type Hb Hx. rewrite Hb. rewrite decide_False, decide_False, decide_True, bind_Ok by done.
    cbn [elem_bytes] in *. unfold lua_pushlstring. rewrite (decide_False (P := _ < 0)) by (pose proof (zlen_nonneg s); lia). rewrite (holds_read _ _ _ Hh'), bind_Ok by lia. by rewrite decide_False by (intros [? ?]; done).
  - destruct x as [| | | | | |l| |]; cbn [elem_ok] in Hx; try wrong_type Hb Hx. rewrite Hb. rewrite decide_False, decide_False, decide_False, decide_True, bind_Ok by done.
    destruct Hx as (_ & t & Hsub & Hok). destruct (field_st_ok _ _ Hf Hb) as (i & Ei & Hi). rewrite A2, Ei. cbn [of_option]. rewrite bind_Ok.
    pose proof Hsub as Hsub'. unfold subtype in Hsub'. rewrite Ei in Hsub'. cbn in Hsub'. rewrite (rd_lookup _ _ t), bind_Ok by done.
    cbn [elem_bytes elem_picture main_key] in *. rewrite Hsub in *. specialize (Hk Hb).
    assert (∀ mi, ∃ d, sproto_decode m (decode sp m n) t off (zlen (wire sp n t l)) (new_decode_ud [] mi) = Ok (zlen (wire sp n t l), d) ∧
      d_result d = picture sp n t l ∧ d_key d = table_key n mi t l) as Hd by (intros mi; apply IHn; [by eapply subtype_in|done|done|lia]).
    destruct (decide (0 ≤ f_key f)) as [Hp|Hp].
    + destruct (Hd (f_key f)) as (d & -> & Hr & Hkey). rewrite bind_Ok, decide_False, decide_False by lia. rewrite decide_True by done. rewrite Hkey, Hr.
      specialize (Hk Hp). by destruct (table_key n (f_key f) t l).
    + destruct (Hd (-1)) as (d & -> & Hr & _). rewrite bind_Ok, decide_False, decide_False by lia. rewrite decide_False by tauto. by rewrite Hr.
Qed.

(** ** Arrays *)

Section Array.
Context (n : nat) (IHn : decodes n) (f : field) (Hf : field_wf (sp_type_n sp) f) (d0 : decode_ud) (Hd0 : fresh_field d0 f) (l : lfields).
Abbreviation xs := (items f l).
Abbreviation args := (field_arg f (f_base f)).
Abbreviation pic := (elem_picture sp (picture sp n) f).
Context (Hok : Forall (elem_ok sp (table_ok sp n) f) xs) (Hmap : 0 ≤ f_key f → map_ok sp f l).

(** The table of the array after its first [k] items. *)
Definition built (k : nat) : lfields :=
  if decide (0 ≤ f_key f) then (λ kx, (kx.1, pic kx.2)) <$> take k l else seq_table (pic <$> take k xs).

Lemma map_struct : 0 ≤ f_key f → f_base f = SPROTO_TSTRUCT.
Proof.
  intros Hk. destruct (Hmap Hk) as (t & g & Hs & _). destruct Hf as [_ _ _ _ Hst]. destruct (decide (f_base f = SPROTO_TSTRUCT)); [done|].
  unfold subtype in Hs. by rewrite Hst in Hs.
Qed.

(** The callback is handed the [k]th item of an array of numbers. *)
Lemma scalar_turn d k x value :
  f_base f ≠ SPROTO_TSTRUCT → xs !! k = Some x → arr_at d0 f (built k) d →
  get_value sp m (sproto_decode m (decode sp m n)) (with_value args (AUnion value) 8 (Z.of_nat k + 1)) = Ok (GValue x) → pic x = x →
  ∃ d', put_union (decode sp m (S n)) args value (Z.of_nat k + 1) d = Ok d' ∧ arr_at d0 f (built (S k)) d'.
Proof.
  intros Hb Hx A Hg Hp. assert (¬ 0 ≤ f_key f) as Hk by (intros Hk; by apply Hb, map_struct). unfold built in *. rewrite decide_False in * by done.
  rewrite (take_S_r _ _ x Hx), fmap_app. cbn [fmap list_fmap]. rewrite Hp.
  assert (zlen (pic <$> take k xs) = Z.of_nat k) as Hz by (apply lookup_lt_Some in Hx; unfold zlen; rewrite length_fmap, length_take; lia).
  destruct (step_value n d0 f (pic <$> take k xs) d (with_value args (AUnion value) 8 (Z.of_nat k + 1)) x) as (d' & E & A'); [done|done|by rewrite Hz|done|].
  unfold put_union. rewrite E, bind_Ok. by exists d'.
Qed.

Lemma int_item k x : f_base f = SPROTO_TINTEGER → xs !! k = Some x → ∃ i, x = VInt i ∧ - 2 ^ 63 ≤ i < 2 ^ 63.
Proof. intros Hb Hx. pose proof (Forall_lookup_1 _ _ _ _ Hok Hx) as H. destruct x; cbn [elem_ok] in H; try wrong_type Hb H. eexists. split; [done|apply H]. Qed.
Lemma holds_item intlen start k x :
  intlen = 4 ∨ intlen = 8 → holds m start (ints intlen xs) → xs !! k = Some x → holds m (start + Z.of_nat k * intlen) (int_bytes intlen x).
Proof.
  intros Hi Hh Hx. rewrite <- (take_drop_middle _ _ _ Hx) in Hh. rewrite ints_app in Hh. apply holds_app in Hh as [_ Hh].
  rewrite ints_zlen in Hh by done. assert (zlen (take k xs) = Z.of_nat k) as Hz by (apply lookup_lt_Some in Hx; unfold zlen; rewrite length_take; lia). rewrite Hz in Hh.
  change (ints intlen (x :: drop (S k) xs)) with (int_bytes intlen x ++ ints intlen (drop (S k) xs)) in Hh. apply holds_app in Hh as [Hh _].
  by replace (start + Z.of_nat k * intlen) with (start + intlen * Z.of_nat k) by lia.
Qed.

(** A loop that hands over the items one by one. *)
Lemma items_loop body d :
  d = d0 → (∀ k x d, xs !! k = Some x → arr_at d0 f (built k) d → ∃ d', body (Z.of_nat k) d = Ok d' ∧ arr_at d0 f (built (S k)) d') →
  ∃ d', c_for (length xs) 0 body d = Ok d' ∧ arr_at d0 f (built (length xs)) d'.
Proof.
  intros -> Hbody. destruct (c_for_spec (λ j d, arr_at d0 f (built (Z.to_nat j)) d) body (length xs) 0 d0) as (d' & E & A).
  - unfold built. cbn. rewrite take_0. by case_decide.
  - intros j d Hj A. destruct (lookup_lt_is_Some_2 xs (Z.to_nat j)) as [x Hx]; [lia|]. destruct (Hbody (Z.to_nat j) x d Hx A) as (d' & E & A').
    exists d'. rewrite Z2Nat.id in E by lia. split; [done|]. by replace (Z.to_nat (j + 1)) with (S (Z.to_nat j)) by lia.
  - exists d'. split; [done|]. by rewrite Z.add_0_l, Nat2Z.id in A.
Qed.

Lemma ints_loop start :
  f_base f = SPROTO_TINTEGER → holds m start (ints (width xs) xs) →
  ∃ d', c_for (length xs) 0 (if decide (width xs = 4) then array32_body m (decode sp m (S n)) args start else array64_body m (decode sp m (S n)) args start) d0 = Ok d' ∧
    arr_at d0 f (built (length xs)) d'.
Proof.
  intros Hb Hh. apply items_loop; [done|]. intros k x d Hx A. destruct (int_item k x Hb Hx) as (i & -> & Hi). pose proof (width_cases xs) as Hw.
  pose proof (holds_item _ _ _ _ Hw Hh Hx) as Hk. unfold int_bytes in Hk. cbn [int_bits] in Hk. assert (f_base f ≠ SPROTO_TSTRUCT) as Hns by (by rewrite Hb).
  destruct (decide (width xs = 4)) as [E4|E4].
  - unfold array32_body. rewrite E4 in Hk. rewrite (todword_le32 _ _ _ Hk), bind_Ok. rewrite (uwrap_small 32) by (by apply uwrap_range).
    apply (scalar_turn d k (VInt i)); [done|done|done| |done]. unfold get_value. cbn [a_type with_value field_arg the_union a_value]. rewrite decide_True, bind_Ok by done.
    rewrite expand_small; [done|]. apply (small_range (VInt i)). unfold width in E4. destruct (forallb small_int xs) eqn:Es; [|done]. rewrite forallb_forall in Es.
    apply Es, list_elem_of_In. by eapply list_elem_of_lookup_2.
  - unfold array64_body. assert (width xs = 8) as E8 by lia. rewrite E8 in Hk. unfold le64 in Hk. apply holds_app in Hk as [Hk1 Hk2]. rewrite le32_zlen in Hk2.
    rewrite (todword_le32 _ _ _ Hk1), bind_Ok, (todword_le32 _ _ _ Hk2), bind_Ok. apply (scalar_turn d k (VInt i)); [done|done|done| |done].
    unfold get_value. cbn [a_type with_value field_arg the_union a_value]. rewrite decide_True, bind_Ok by done. by rewrite join_halves.
Qed.
Lemma bools_loop start :
  f_base f = SPROTO_TBOOLEAN → holds m start (bool_bits <$> xs) →
  ∃ d', c_for (length xs) 0 (array_bool_body m (decode sp m (S n)) args start) d0 = Ok d' ∧ arr_at d0 f (built (length xs)) d'.
Proof.
  intros Hb Hh. apply items_loop; [done|]. intros k x d Hx A. pose proof (Forall_lookup_1 _ _ _ _ Hok Hx) as Ho.
  destruct x as [|b| | | | | | |]; cbn [elem_ok] in Ho; try wrong_type Hb Ho. assert (f_base f ≠ SPROTO_TSTRUCT) as Hns by (by rewrite Hb).
  unfold array_bool_body. rewrite (holds_rd m start _ k (bool_bits (VBool b)) Hh), bind_Ok by (by rewrite list_lookup_fmap, Hx).
  apply (scalar_turn d k (VBool b)); [done|done|done| |done]. unfold get_value. cbn [a_type with_value field_arg the_union a_value]. rewrite Hb.
  rewrite decide_False, decide_True, bind_Ok by done. by destruct b.
Qed.

Lemma same_key_eq a b : same_key a b = true → a = b.
Proof. destruct a, b; cbn; try done; intros E%bool_decide_eq_true_1; by subst. Qed.

(** The key of an entry of a map is its main field. *)
Lemma entry_key k kk x : 0 ≤ f_key f → l !! k = Some (kk, x) → main_key n f x = kk ∧ kk ≠ VNil.
Proof.
  intros Hp Hl. destruct (Hmap Hp) as (t & g & Hs & Hg & Htag & Harr & Hns & _ & Hall). destruct (Forall_lookup_1 _ _ _ _ Hall Hl) as (e & Ex & Ek & Hn). cbn in *.
  split; [|done]. subst x. assert (xs !! k = Some (VTable e)) as Hx by (unfold items; rewrite decide_True, list_lookup_fmap, Hl by done; done).
  pose proof (Forall_lookup_1 _ _ _ _ Hok Hx) as (_ & t' & Hs' & Ht). rewrite Hs in Hs'. injection Hs' as <-. unfold main_key. rewrite Hs.
  destruct n as [|n']; [done|]. cbn [table_key table_ok] in *. pose proof (type_wf t (subtype_in _ _ Hs)) as Wt.
  rewrite (key_of_field _ _ (-1) _ _ _ g (tw_tags _ _ Wt) Hg Htag Harr) by (by rewrite Ek). unfold field_picture. rewrite Harr, Ek.
  rewrite Forall_forall in Ht. specialize (Ht g Hg). rewrite Ek in Ht. destruct Ht as [Ht|Ht]; [done|]. unfold field_ok in Ht. rewrite Harr in Ht. destruct Ht as [_ Ht].
  destruct kk; cbn in Ht |- *; try done. by destruct Ht.
Qed.

Lemma object_turn k x d off :
  f_base f = SPROTO_TSTRING ∨ f_base f = SPROTO_TSTRUCT → xs !! k = Some x → arr_at d0 f (built k) d →
  holds m off (elem_bytes sp (wire sp n) f x) → off + zlen (elem_bytes sp (wire sp n) f x) ≤ zlen m →
  ∃ d', decode sp m (S n) (with_value args (ABuffer off) (s32 (zlen (elem_bytes sp (wire sp n) f x))) (Z.of_nat k + 1)) d = Ok (0, d') ∧ arr_at d0 f (built (S k)) d'.
Proof.
  intros Hb Hx A Hh Hl. pose proof (Forall_lookup_1 _ _ _ _ Hok Hx) as Ho. pose proof (zlen_nonneg (elem_bytes sp (wire sp n) f x)). destruct Hh as [Hoff Hh'].
  pose proof (conj Hoff Hh' : holds m off (elem_bytes sp (wire sp n) f x)) as Hh. rewrite (swrap_small 32) by lia.
  set (a := with_value args (ABuffer off) (zlen (elem_bytes sp (wire sp n) f x)) (Z.of_nat k + 1)).
  assert (∀ b, (f_base f = SPROTO_TSTRUCT → 0 ≤ f_key f → main_key n f x ≠ VNil) → b = Ok (if decide (f_base f = SPROTO_TSTRUCT ∧ 0 ≤ f_key f)
    then GEntry (main_key n f x) (pic x) else GValue (pic x)) → get_value sp m (sproto_decode m (decode sp m n)) a = b) as Hget by (intros b Hmk ->; by apply (got_object n f a x off)).
  unfold built in *. destruct (decide (0 ≤ f_key f)) as [Hp|Hp].
  - unfold items in Hx. rewrite decide_True, list_lookup_fmap in Hx by done. destruct (l !! k) as [[kk y]|] eqn:El; cbn in Hx; [|done]. injection Hx as ->.
    destruct (entry_key k kk x Hp El) as [Hmk Hnn]. rewrite (take_S_r _ _ _ El), fmap_app. cbn [fmap list_fmap fst snd].
    eapply (step_entry n d0 f _ d a kk (pic x) (Z.of_nat k + 1)); [done|exact A|done|lia| |].
    + destruct (Hmap Hp) as (_ & _ & _ & _ & _ & _ & _ & Hnd & _). apply Forall_fmap, Forall_lookup_2. intros j [k' y'] Hj. cbn.
      destruct (same_key kk k') eqn:E; [|done]. apply same_key_eq in E. subst k'. apply lookup_take_Some in Hj as [Hj Hlt].
      assert (k = j); [|lia]. apply (NoDup_lookup l.*1 _ _ kk Hnd); by rewrite list_lookup_fmap, ?El, ?Hj.
    + apply Hget; [by rewrite Hmk|]. rewrite decide_True by (split; [by apply map_struct|done]). by rewrite Hmk.
  - rewrite (take_S_r _ _ x Hx), fmap_app. cbn [fmap list_fmap].
    assert (zlen (pic <$> take k xs) = Z.of_nat k) as Hz by (apply lookup_lt_Some in Hx; unfold zlen; rewrite length_fmap, length_take; lia).
    apply (step_value n d0 f _ d a); [done|done|by rewrite Hz|]. apply Hget; [done|]. by rewrite decide_False by tauto.
Qed.

Lemma objs_cons x ys : objs sp n f (x :: ys) = blob (elem_bytes sp (wire sp n) f x) ++ objs sp n f ys.
Proof. done. Qed.
Lemma objects_loop fuel k ys start d :
  f_base f = SPROTO_TSTRING ∨ f_base f = SPROTO_TSTRUCT → drop k xs = ys → arr_at d0 f (built k) d → holds m start (objs sp n f ys) →
  start + zlen (objs sp n f ys) ≤ zlen m → (Z.to_nat (zlen (objs sp n f ys)) ≤ fuel)%nat → (k ≤ length xs)%nat →
  ∃ d', decode_objects m (decode sp m (S n)) fuel args start (zlen (objs sp n f ys)) (Z.of_nat k + 1) d = Ok (Some d') ∧ arr_at d0 f (built (length xs)) d'.
Proof.
  intros Hb. revert k ys start d. induction fuel as [|fuel IH]; intros k ys start d Hy A Hh Hl Hfuel Hkl; destruct ys as [|x ys].
  - cbn [decode_objects]. rewrite decide_False by (unfold zlen; cbn; lia). exists d. split; [done|].
    assert (k = length xs) as <-; [|done]. apply (f_equal length) in Hy. rewrite length_drop in Hy. cbn in Hy. lia.
  - rewrite objs_cons, zlen_app, blob_zlen in Hfuel. pose proof (zlen_nonneg (elem_bytes sp (wire sp n) f x)). pose proof (zlen_nonneg (objs sp n f ys)). lia.
  - cbn [decode_objects]. rewrite decide_False by (unfold zlen; cbn; lia). exists d. split; [done|].
    assert (k = length xs) as <-; [|done]. apply (f_equal length) in Hy. rewrite length_drop in Hy. cbn in Hy. lia.
  - assert (xs !! k = Some x) as Hx by (rewrite <- (Nat.add_0_r k), <- lookup_drop, Hy; done). set (b := elem_bytes sp (wire sp n) f x) in *.
    pose proof (zlen_nonneg b). pose proof (zlen_nonneg (objs sp n f ys)). rewrite objs_cons in *. fold b in Hh, Hl, Hfuel |- *. rewrite zlen_app, blob_zlen in *.
    destruct Hh as [Hst Hh']. pose proof (conj Hst Hh' : holds m start (blob b ++ objs sp n f ys)) as Hh. apply holds_app in Hh as [H1 H2]. unfold blob in H1. apply holds_app in H1 as [H1 H3].
    rewrite le32_zlen in H3. rewrite blob_zlen in H2.
    cbn [decode_objects]. unfold SIZEOF_LENGTH. rewrite decide_True, decide_False, (todword_le32 _ _ _ H1), bind_Ok, (uwrap_small 32) by lia. cbv zeta. rewrite decide_False by lia.
    destruct (object_turn k x d (start + 4) Hb Hx A) as (d' & E & A'); [done|fold b; lia|]. fold b in E. rewrite E, bind_Ok. cbn [fst snd]. rewrite decide_False by auto.
    destruct (IH (S k) ys (start + 4 + zlen b) d') as (d2 & E2 & A2); [by rewrite <- Nat.add_1_r, <- drop_drop, Hy|done|by replace (start + 4 + zlen b) with (start + (4 + zlen b)) by lia|lia|lia|by apply lookup_lt_Some in Hx|].
    exists d2. split; [|done]. rewrite <- E2. f_equal; lia.
Qed.

Lemma built_all : VTable (built (length xs)) = field_picture sp (picture sp n) f (VTable l) ∨ is_array f = false.
Proof.
  unfold field_picture. destruct (is_array f); [left|by right]. unfold built. f_equal. case_decide as Hk.
  - unfold items. rewrite decide_True by done. rewrite length_fmap, take_ge by done. done.
  - rewrite take_ge by done. unfold seq_table. by rewrite imap_fmap.
Qed.
Lemma built_nonempty d : xs ≠ [] → arr_at d0 f (built (length xs)) d → d = arrst d0 f (built (length xs)).
Proof.
  intros Hne A. destruct (built (length xs)) as [|c cur] eqn:E; [|done]. exfalso. apply Hne. apply nil_length_inv. apply (f_equal length) in E. unfold built in E. cbn in E.
  case_decide as Hk; [rewrite length_fmap, length_take in E|unfold seq_table in E; rewrite length_imap, length_fmap, length_take in E; lia].
  unfold items in *. rewrite decide_True in * by done. rewrite length_fmap in *. lia.
Qed.

Lemma array_bytes_nil : zlen (array_bytes sp (wire sp n) f xs) = 0 → xs = [].
Proof.
  unfold array_bytes. destruct xs as [|x ys]; [done|]. repeat case_decide.
  - destruct (forallb small_int _); rewrite zlen_cons; pose proof (zlen_nonneg (concat ((λ x, le32 (u32 (int_bits x))) <$> x :: ys)));
      pose proof (zlen_nonneg (concat ((λ x, le64 (u64 (int_bits x))) <$> x :: ys))); lia.
  - done.
  - cbn [fmap list_fmap concat]. rewrite zlen_app. unfold compose at 1. rewrite blob_zlen. pose proof (zlen_nonneg (elem_bytes sp (wire sp n) f x)).
    pose proof (zlen_nonneg (concat ((blob ∘ elem_bytes sp (wire sp n) f) <$> ys))). lia.
Qed.

Lemma decode_array_spec off :
  let b := array_bytes sp (wire sp n) f xs in
  holds m off (blob b) → off + zlen (blob b) ≤ zlen m →
  decode_array m (decode sp m (S n)) args off d0 = Ok (Some (arrst d0 f (built (length xs)))).
Proof.
  cbv zeta. intros Hh Hl. set (b := array_bytes sp (wire sp n) f xs) in *. pose proof (zlen_nonneg b). rewrite blob_zlen in Hl. unfold blob in Hh.
  apply holds_app in Hh as [H1 H2]. rewrite le32_zlen in H2. pose proof (proj1 H1) as Hoff. unfold decode_array. rewrite (todword_le32 _ _ _ H1), bind_Ok, (uwrap_small 32) by lia.
  destruct (decide (zlen b = 0)) as [Hz|Hz].
  { pose proof (array_bytes_nil Hz) as Hn. rewrite (step_empty n d0 f) by done. rewrite bind_Ok. cbn [snd]. rewrite Hn. do 3 f_equal. unfold built. rewrite take_0. by case_decide. }
  assert (xs ≠ []) as Hne by (intros Hn; apply Hz; unfold b, array_bytes; rewrite Hn; by repeat case_decide).
  assert (∀ d, arr_at d0 f (built (length xs)) d → Ok (Some d) = Ok (Some (arrst d0 f (built (length xs))))) as Hend by (intros d A; by rewrite (built_nonempty d Hne A)).
  cbv zeta. unfold SIZEOF_LENGTH. cbn [a_type field_arg]. destruct (decide (f_base f = SPROTO_TINTEGER)) as [Hb|Hb]; [|destruct (decide (f_base f = SPROTO_TBOOLEAN)) as [Hb1|Hb1]].
  - assert (b = width xs :: ints (width xs) xs) as Eb by (by apply ints_bytes). pose proof (width_cases xs) as Hw.
    rewrite Eb in H2. change (width xs :: ints (width xs) xs) with ([width xs] ++ ints (width xs) xs) in H2. apply holds_app in H2 as [H2 H3]. change (zlen [width xs]) with 1 in H3.
    pose proof (holds_rd m _ _ 0 _ H2 eq_refl) as Hr. rewrite Z.add_0_r in Hr. rewrite Hr, bind_Ok.
    assert (zlen b - 1 = width xs * zlen xs) as -> by (rewrite Eb, zlen_cons, ints_zlen by done; lia).
    destruct (ints_loop (off + 4 + 1) Hb H3) as (d' & E & A).
    assert (∀ w, w = 4 ∨ w = 8 → (w * zlen xs) `mod` w = 0 ∧ Z.to_nat (w * zlen xs / w) = length xs) as Hmod
      by (intros w Hw'; rewrite (Z.mul_comm w), Z.mod_mul, Z.div_mul by lia; unfold zlen; split; [done|lia]).
    destruct Hw as [Hw|Hw]; rewrite Hw in E |- *.
    + rewrite decide_True by done. destruct (Hmod 4) as [-> ->]; [by left|]. rewrite decide_False by auto. rewrite decide_True in E by done. rewrite E, bind_Ok. by apply Hend.
    + rewrite decide_False, decide_True by done. destruct (Hmod 8) as [-> ->]; [by right|]. rewrite decide_False by auto. rewrite decide_False in E by done. rewrite E, bind_Ok. by apply Hend.
  - assert (b = bool_bits <$> xs) as Eb by (unfold b, array_bytes; by rewrite decide_False, decide_True by done). rewrite Eb in H2 |- *.
    assert (Z.to_nat (zlen (bool_bits <$> xs)) = length xs) as -> by (unfold zlen; rewrite length_fmap; lia).
    destruct (bools_loop (off + 4) Hb1 H2) as (d' & -> & A). rewrite bind_Ok. by apply Hend.
  - assert (f_base f = SPROTO_TSTRING ∨ f_base f = SPROTO_TSTRUCT) as Hb2 by (destruct (field_kinds _ _ Hf) as [[|[|[|]]] _]; tauto). rewrite decide_True by done.
    assert (b = objs sp n f xs) as Eb by (unfold b, array_bytes; by rewrite decide_False, decide_False by done). unfold decode_array_object. rewrite (swrap_small 32) by lia.
    rewrite Eb in H2, Hl |- *. destruct (objects_loop (Z.to_nat (zlen (objs sp n f xs))) 0 xs (off + 4) d0) as (d' & E & A); [done|done|unfold built; rewrite take_0; by case_decide|done|lia|lia|lia|].
    change (Z.of_nat 0 + 1) with 1 in E. rewrite E. by apply Hend.
Qed.
End Array.

(** ** Fields *)

Record put (sub : sproto_type → lfields → lfields) (l : lfields) (f : field) (d d' : decode_ud) : Prop := {
  put_result : d_result d' = d_result d ++ [(VStr (fkey f), field_picture sp sub f (get_field l (fkey f)))];
  put_mi : d_mainindex_tag d' = d_mainindex_tag d;
  put_key : d_key d' = if decide (d_mainindex_tag d = f_tag f ∧ is_array f = false ∧ get_field l (fkey f) ≠ VNil) then field_picture sp sub f (get_field l (fkey f)) else d_key d;
  put_tag : d_array_tag d' = d_array_tag d ∨ d_array_tag d' = faddr f }.

Section Fields.
Context (n : nat) (IHn : decodes n) (l : lfields).

Lemma store_field f d args :
  fresh_field d f → asks args f 0 → a_tagid args = f_tag f → is_array f = false → get_field l (fkey f) ≠ VNil →
  get_value sp m (sproto_decode m (decode sp m n)) args = Ok (GValue (field_picture sp (picture sp n) f (get_field l (fkey f)))) →
  ∃ d', decode sp m (S n) args d = Ok (0, d') ∧ put (picture sp n) l f d d'.
Proof.
  intros [F1 F2 F3] (A1 & _ & _ & A4 & _) Ht Harr Hx Hg. cbn [decode]. unfold open_array. rewrite A4. rewrite decide_False by (intros [? _]; done). rewrite bind_Ok, Hg, bind_Ok.
  unfold store_value. rewrite A4, A1, Ht, decide_False by lia. cbv zeta. rewrite tag_key_Ok, !bind_Ok by done. eexists. split; [done|].
  destruct (decide (d_mainindex_tag d = f_tag f)) as [Hm1|Hm1]; cbn [set_result d_result]; (split; cbn; [by apply set_table_new|done| |by left]).
  - by rewrite decide_True.
  - by rewrite decide_False by tauto.
Qed.

Lemma scalar_put f d u :
  fresh_field d f → field_wf (sp_type_n sp) f → is_array f = false → get_field l (fkey f) ≠ VNil →
  get_value sp m (sproto_decode m (decode sp m n)) (with_value (field_arg f (f_base f)) (AUnion u) 8 0) = Ok (GValue (get_field l (fkey f))) →
  elem_picture sp (picture sp n) f (get_field l (fkey f)) = get_field l (fkey f) →
  ∃ d', put_union (decode sp m (S n)) (field_arg f (f_base f)) u 0 d = Ok d' ∧ put (picture sp n) l f d d'.
Proof.
  intros F Hf Harr Hx Hg Hp. unfold put_union. destruct (store_field f d (with_value (field_arg f (f_base f)) (AUnion u) 8 0)) as (d' & -> & P); try done.
  - rewrite Hg. unfold field_picture. by rewrite Harr, Hp.
  - rewrite bind_Ok. by exists d'.
Qed.

(** The value of a field is in its word. *)
Lemma decode_value_spec f d value b :
  fresh_field d f → field_wf (sp_type_n sp) f → field_ok sp (table_ok sp n) f (get_field l (fkey f)) →
  field_wire sp (wire sp n) f (get_field l (fkey f)) = Some (value, b) → value ≠ 0 →
  b = [] ∧ 0 < value < 65536 ∧ value `mod` 2 = 0 ∧
  ∃ d', decode_value (decode sp m (S n)) f (value / 2 - 1) d = Ok (Some d') ∧ put (picture sp n) l f d d'.
Proof.
  intros F Hf Hok Hw Hv. destruct (field_kinds _ _ Hf) as [_ Hty]. set (x := get_field l (fkey f)) in *.
  assert (is_array f = false ∧ elem_ok sp (table_ok sp n) f x) as [Harr Hx].
  { unfold field_ok in Hok. destruct (is_array f) eqn:E; [|by destruct Hok]. destruct x; try done. cbn in Hw. rewrite E in Hw. by injection Hw as <-. }
  assert (∀ u, f_type f = SPROTO_TINTEGER ∨ f_type f = SPROTO_TBOOLEAN → x ≠ VNil → elem_picture sp (picture sp n) f x = x →
    get_value sp m (sproto_decode m (decode sp m n)) (with_value (field_arg f (f_base f)) (AUnion u) 8 0) = Ok (GValue x) →
    ∃ d', decode_value (decode sp m (S n)) f u d = Ok (Some d') ∧ put (picture sp n) l f d d') as Hput.
  { intros u Hb Hn Hp Hg. unfold decode_value. rewrite decide_False by tauto. fold (f_base f). destruct (scalar_put f d u) as (d' & -> & P); try done. rewrite bind_Ok. by exists d'. }
  unfold field_wire in Hw. destruct x as [|bb|i| |s| |l'| |] eqn:Ex; cbn [elem_ok] in Hx; try done; cbn [scalar_wire] in Hw.
  - injection Hw as <- <-. split; [done|]. split; [destruct bb; lia|]. split; [by destruct bb|]. apply Hput; [right; by rewrite Hty|done|done|].
    unfold get_value. cbn [a_type with_value field_arg the_union a_value]. rewrite Hx. rewrite decide_False, decide_True, bind_Ok by done. by destruct bb.
  - destruct Hx as [Hb Hi]. destruct (small_int (VInt i)) eqn:Es; [|injection Hw as <- <-; done]. apply small_range in Es. cbn in Es.
    destruct (decide (u32 i < 0x7fff)) as [Hlt|]; [|injection Hw as <- <-; done]. injection Hw as <- <-. pose proof (u32_small i Es) as Hu. pose proof (uwrap_range 32 i ltac:(lia)).
    assert (u32 i = i) as Hui by (case_decide; lia). rewrite Hui in *. split; [done|]. split; [lia|]. split; [by rewrite Z.mod_mul|]. rewrite Z.div_mul by lia.
    apply Hput; [left; by rewrite Hty|done|done|]. unfold get_value. cbn [a_type with_value field_arg the_union a_value]. rewrite Hb. rewrite decide_True, bind_Ok by done.
    do 3 f_equal. rewrite swrap_small by lia. lia.
  - injection Hw as <- <-. done.
  - rewrite Harr in Hw. injection Hw as <- <-. done.
Qed.

(** The value of a field is in the data. *)
Lemma decode_int_data f d off i b :
  fresh_field d f → field_wf (sp_type_n sp) f → is_array f = false → f_base f = SPROTO_TINTEGER → get_field l (fkey f) = VInt i → - 2 ^ 63 ≤ i < 2 ^ 63 →
  scalar_wire sp (wire sp n) f (VInt i) = (0, b) → holds m off b →
  ∃ c d', b = blob c ∧ decode_data m (decode sp m (S n)) f off d = Ok (Some d') ∧ put (picture sp n) l f d d'.
Proof.
  intros F Hf Harr Hb Ex Hi Hw Hh. destruct (field_kinds _ _ Hf) as [_ Hty]. unfold decode_data. fold (f_base f). cbv zeta.
  rewrite decide_False by (by apply bool_decide_eq_false_1 in Harr). rewrite (Hty Harr), decide_True by done.
  assert (∀ u, s64 u = i → ∃ d', put_union (decode sp m (S n)) (field_arg f (f_base f)) u 0 d = Ok d' ∧ put (picture sp n) l f d d') as Hput.
  { intros u Hu. apply scalar_put; rewrite ?Ex; try done. unfold get_value. cbn [a_type with_value field_arg the_union a_value]. rewrite Hb. rewrite decide_True, bind_Ok by done. by rewrite Hu. }
  cbn [scalar_wire] in Hw. pose proof (uwrap_range 32 i ltac:(lia)).
  destruct (small_int (VInt i)) eqn:Es; [destruct (decide (u32 i < 0x7fff))|]; apply pair_equal_spec in Hw as [Ev Eb]; subst b; [lia|..]; unfold blob in Hh; apply holds_app in Hh as [H1 H2];
    rewrite le32_zlen in H2; rewrite (todword_le32 _ _ _ H1), bind_Ok.
  - change (u32 (zlen (le32 (u32 i)))) with 4. rewrite decide_True by done. unfold SIZEOF_LENGTH. rewrite (todword_le32 _ _ _ H2), bind_Ok. rewrite (uwrap_small 32 (u32 i)) by done.
    destruct (Hput (expand64 (u32 i))) as (d' & -> & P); [by apply expand_small, (small_range (VInt i))|]. rewrite bind_Ok. by eexists _, d'.
  - change (u32 (zlen (le64 (u64 i)))) with 8. rewrite decide_False, decide_False by auto. unfold le64 in H2. apply holds_app in H2 as [H2 H3]. rewrite le32_zlen in H3.
    unfold SIZEOF_LENGTH. rewrite (todword_le32 _ _ _ H2), bind_Ok, (todword_le32 _ _ _ H3), bind_Ok.
    destruct (Hput (Z.lor (u32 (u64 i)) (u64 (Z.shiftl (u32 (Z.shiftr (u64 i) 32)) 32)))) as (d' & -> & P); [by apply join_halves|]. rewrite bind_Ok. by eexists _, d'.
Qed.
Lemma decode_object_data f d off :
  let x := get_field l (fkey f) in
  fresh_field d f → field_wf (sp_type_n sp) f → is_array f = false → f_key f < 0 → f_base f = SPROTO_TSTRING ∨ f_base f = SPROTO_TSTRUCT →
  elem_ok sp (table_ok sp n) f x → holds m off (blob (elem_bytes sp (wire sp n) f x)) → off + zlen (blob (elem_bytes sp (wire sp n) f x)) ≤ zlen m →
  ∃ d', decode_data m (decode sp m (S n)) f off d = Ok (Some d') ∧ put (picture sp n) l f d d'.
Proof.
  cbv zeta. intros F Hf Harr Hkey Hb Hx Hh Hl. destruct (field_kinds _ _ Hf) as [_ Hty]. unfold decode_data. fold (f_base f). cbv zeta.
  rewrite decide_False by (by apply bool_decide_eq_false_1 in Harr). rewrite (Hty Harr). rewrite decide_False by (destruct Hb as [-> | ->]; done). rewrite decide_True by done.
  set (x := get_field l (fkey f)) in *. set (b := elem_bytes sp (wire sp n) f x) in *. pose proof (zlen_nonneg b). rewrite blob_zlen in Hl. pose proof (proj1 Hh).
  unfold blob in Hh. apply holds_app in Hh as [H1 H2]. rewrite le32_zlen in H2. rewrite (todword_le32 _ _ _ H1), bind_Ok, (uwrap_small 32), (swrap_small 32) by lia. unfold SIZEOF_LENGTH.
  destruct (store_field f d (with_value (field_arg f (f_base f)) (ABuffer (off + 4)) (zlen b) 0)) as (d' & -> & P); [done|done|done|done| | |].
  - fold x. destruct Hb as [Hb|Hb]; destruct x; cbn [elem_ok] in Hx; try wrong_type Hb Hx; done.
  - rewrite (got_object n f _ x (off + 4)); try done; [|fold b; lia|lia]. rewrite decide_False by lia. unfold field_picture. by rewrite Harr.
  - rewrite bind_Ok. cbn [fst snd]. rewrite decide_False by auto. by exists d'.
Qed.
Lemma decode_data_spec f d off b :
  fresh_field d f → field_wf (sp_type_n sp) f → field_ok sp (table_ok sp n) f (get_field l (fkey f)) →
  field_wire sp (wire sp n) f (get_field l (fkey f)) = Some (0, b) → holds m off b → off + zlen b ≤ zlen m →
  ∃ c d', b = blob c ∧ decode_data m (decode sp m (S n)) f off d = Ok (Some d') ∧ put (picture sp n) l f d d'.
Proof.
  intros F Hf Hok Hw Hh Hl. unfold field_ok in Hok. destruct (is_array f) eqn:Harr.
  - destruct (get_field l (fkey f)) as [| | | | | |l'| |] eqn:Ex; try done. destruct Hok as [Hok Hmap]. cbn [field_wire] in Hw. rewrite Harr in Hw. injection Hw as <-.
    eexists _, (arrst d f (built n f l' (length (items f l')))). split; [done|]. unfold decode_data. fold (f_base f). cbv zeta.
    rewrite decide_True by (by apply bool_decide_eq_true_1 in Harr). split; [by apply (decode_array_spec n IHn f Hf d F l' Hok Hmap)|].
    destruct (built_all n f l') as [Hb|]; [|congruence]. split; cbn; [by rewrite Ex, Hb|done| |by right]. by rewrite decide_False by (intros (_ & ? & _); congruence).
  - destruct Hok as [Hkey Hx]. destruct (decide (f_base f = SPROTO_TINTEGER)) as [Hb|Hb]; [|destruct (decide (f_base f = SPROTO_TBOOLEAN)) as [Hb1|Hb1]].
    + destruct (get_field l (fkey f)) as [| |i| | | | | |] eqn:Ex; cbn [elem_ok] in Hx; try wrong_type Hb Hx. cbn [field_wire] in Hw. apply Some_inj in Hw. destruct Hx. by apply (decode_int_data f d off i).
    + destruct (get_field l (fkey f)) as [|[]| | | | | | |]; cbn [elem_ok] in Hx; try wrong_type Hb1 Hx; by injection Hw.
    + assert (f_base f = SPROTO_TSTRING ∨ f_base f = SPROTO_TSTRUCT) as Hb2 by (destruct (field_kinds _ _ Hf) as [[|[|[|]]] _]; tauto).
      assert (b = blob (elem_bytes sp (wire sp n) f (get_field l (fkey f)))) as ->.
      { destruct Hb2 as [Hb2|Hb2]; destruct (get_field l (fkey f)); cbn [elem_ok] in Hx; try wrong_type Hb2 Hx; cbn [field_wire] in Hw; rewrite ?Harr in Hw; by injection Hw as <-. }
      destruct (decode_object_data f d off) as (d' & E & P); try done. by eexists _, d'.
Qed.

(** ** All fields *)

(** The fields [fs] are still to come. *)
Record ready (fs : list field) (d : decode_ud) : Prop := {
  re_fresh : Forall (fresh_field d) fs;
  re_keys : NoDup (fkey <$> fs);
  re_addrs : NoDup (faddr <$> fs) }.
Lemma ready_skip f fs d : ready (f :: fs) d → ready fs d.
Proof. intros [[_ F]%Forall_cons [_ K]%NoDup_cons [_ A]%NoDup_cons]. done. Qed.
Lemma ready_put sub f fs d d' : ready (f :: fs) d → put sub l f d d' → ready fs d'.
Proof.
  intros [[_ F]%Forall_cons [K1 K2]%NoDup_cons [A1 A2]%NoDup_cons] [P1 _ _ P4]. split; [|done|done]. apply Forall_forall. intros g Hg.
  destruct (proj1 (Forall_forall _ _) F g Hg) as [G1 G2 G3]. assert (faddr g ≠ faddr f) by (intros E; apply A1; rewrite <- E; by apply list_elem_of_fmap_2).
  assert (fkey g ≠ fkey f) as Hk by (intros E; apply K1; rewrite <- E; by apply list_elem_of_fmap_2).
  split; [done|destruct P4 as [-> | ->]; done|]. rewrite P1. apply Forall_app. split; [done|]. apply Forall_singleton. cbn. by apply bool_decide_eq_false_2.
Qed.

(** A word that stands for a field. *)
Lemma field_turn k t i stream ds size f d value b :
  toword m (stream + i * SIZEOF_FIELD) = Ok value → findtag t (f_tag f) = Ok (Some f) →
  fresh_field d f → field_wf (sp_type_n sp) f → field_ok sp (table_ok sp n) f (get_field l (fkey f)) →
  field_wire sp (wire sp n) f (get_field l (fkey f)) = Some (value, b) → holds m ds b → ds + zlen b ≤ zlen m → zlen b ≤ size →
  ∃ d', put (picture sp n) l f d d' ∧
    decode_words m (decode sp m (S n)) (S k) t i stream ds size (f_tag f - 1) d =
    decode_words m (decode sp m (S n)) k t (i + 1) stream (ds + zlen b) (size - zlen b) (f_tag f) d'.
Proof.
  intros Ht Hfind F Hf Hok Hw Hh Hl Hs. cbn [decode_words]. rewrite Ht, bind_Ok. cbv zeta. replace (f_tag f - 1 + 1) with (f_tag f) by lia. pose proof (proj1 Hh).
  destruct (decide (value = 0)) as [->|Hv].
  - destruct (decode_data_spec f d ds b) as (c & d' & -> & E & P); try done. exists d'. split; [done|].
    rewrite decide_False by (intros E0; by apply E0). rewrite decide_True by done. rewrite blob_zlen in *. pose proof (zlen_nonneg c).
    unfold blob in Hh. apply holds_app in Hh as [H1 _]. rewrite (todword_le32 _ _ _ H1). rewrite decide_False by (unfold SIZEOF_LENGTH; lia). rewrite bind_Ok.
    rewrite (uwrap_small 32 (zlen c)) by lia. unfold SIZEOF_LENGTH. rewrite (uwrap_small 32 (zlen c + 4)) by lia. rewrite decide_False by lia. rewrite bind_Ok, Hfind, bind_Ok.
    rewrite (decide_True (P := 0 / 2 - 1 < 0)), E, bind_Ok by done. do 2 f_equal; lia.
  - destruct (decode_value_spec f d value b) as (-> & Hr & Hev & d' & E & P); try done. exists d'. split; [done|].
    assert (Z.land value 1 = 0) as -> by (change 1 with (2 ^ 1 - 1); rewrite land_ones_mod by lia; done).
    rewrite decide_False by (intros E0; by apply E0). rewrite decide_False, bind_Ok by (pose proof (Z.div_mod value 2); lia). rewrite Hfind, bind_Ok.
    rewrite decide_False by (pose proof (Z.div_mod value 2); lia). rewrite E, bind_Ok. change (zlen (@nil Z)) with 0. do 2 f_equal; lia.
Qed.
Lemma wire_range f value b :
  field_wire sp (wire sp n) f (get_field l (fkey f)) = Some (value, b) → 0 ≤ value < 65536.
Proof.
  unfold field_wire. destruct (get_field l (fkey f)) as [|[]|i| | | |l'| |]; try done; cbn [scalar_wire]; intros Hw%Some_inj; try (apply pair_equal_spec in Hw as [<- _]; lia).
  - pose proof (uwrap_range 32 i ltac:(lia)). destruct (small_int (VInt i)); [destruct (decide (u32 i < 0x7fff))|]; apply pair_equal_spec in Hw as [<- _]; lia.
  - destruct (is_array f); by apply pair_equal_spec in Hw as [<- _].
Qed.

(** A word that skips tags. *)
Lemma skip_turn k t i stream ds size last tag d :
  toword m (stream + i * SIZEOF_FIELD) = Ok ((tag - last - 1 - 1) * 2 + 1) →
  decode_words m (decode sp m (S n)) (S k) t i stream ds size last d =
  decode_words m (decode sp m (S n)) k t (i + 1) stream ds size (tag - 1) d.
Proof.
  intros Ht. cbn [decode_words]. rewrite Ht, bind_Ok. cbv zeta. set (q := tag - last - 1 - 1) in *.
  rewrite decide_True.
  - f_equal. rewrite Z.div_add_l by lia. change (1 / 2) with 0. lia.
  - change 1 with (2 ^ 1 - 1) at 2. rewrite land_ones_mod by lia. change (2 ^ 1) with 2. rewrite Z.add_comm, Z.mod_add by lia. done.
Qed.

Definition field_entry (f : field) : option (lvalue * lvalue) :=
  match get_field l (fkey f) with VNil => None | x => Some (VStr (fkey f), field_picture sp (picture sp n) f x) end.
Lemma field_entry_nil f : get_field l (fkey f) = VNil → field_entry f = None.
Proof. unfold field_entry. by intros ->. Qed.
Lemma field_entry_some f : get_field l (fkey f) ≠ VNil → field_entry f = Some (VStr (fkey f), field_picture sp (picture sp n) f (get_field l (fkey f))).
Proof. unfold field_entry. by destruct (get_field l (fkey f)). Qed.
Lemma field_wire_none f : field_wire sp (wire sp n) f (get_field l (fkey f)) = None ↔ get_field l (fkey f) = VNil.
Proof. by destruct (get_field l (fkey f)). Qed.

Lemma ascending_inj {A} (key : A → Z) last xs : ascending key last xs → ∀ x y, x ∈ xs → y ∈ xs → key x = key y → x = y.
Proof.
  intros Ha x y [i Hi]%list_elem_of_lookup [j Hj]%list_elem_of_lookup E. destruct (Nat.lt_trichotomy i j) as [Hlt|[->|Hlt]]; [|congruence|].
  - pose proof (ascending_lt _ _ _ _ _ _ _ Ha Hi Hj Hlt). lia.
  - pose proof (ascending_lt _ _ _ _ _ _ _ Ha Hj Hi Hlt). lia.
Qed.
Lemma find_field t f : t ∈ sp_type sp → f ∈ t_f t → findtag t (f_tag f) = Ok (Some f).
Proof.
  intros Ht Hf. pose proof (type_wf t Ht) as Wt. destruct (findtag_spec _ t (f_tag f) Wt) as ([g|] & -> & Hg); [|by destruct (Hg f Hf)].
  destruct Hg as [Hg He]. do 2 f_equal. by apply (ascending_inj f_tag (-1) (t_f t) (tw_tags _ _ Wt)).
Qed.

Record walked (fs : list field) (d d' : decode_ud) : Prop := {
  wk_result : d_result d' = d_result d ++ omap field_entry fs;
  wk_mi : d_mainindex_tag d' = d_mainindex_tag d;
  wk_key : d_key d' = key_of (picture sp n) (d_mainindex_tag d) fs l (d_key d) }.
Lemma walked_skip f fs d d' : get_field l (fkey f) = VNil → walked fs d d' → walked (f :: fs) d d'.
Proof.
  intros Hx [W1 W2 W3]. split; [|done|].
  - rewrite W1. cbn. by rewrite field_entry_nil.
  - rewrite W3. cbn. by rewrite decide_False by tauto.
Qed.
Lemma walked_put f fs d d1 d' :
  get_field l (fkey f) ≠ VNil → put (picture sp n) l f d d1 → walked fs d1 d' → walked (f :: fs) d d'.
Proof.
  intros Hx [P1 P2 P3 _] [W1 W2 W3]. split.
  - rewrite W1, P1, <- app_assoc. cbn. by rewrite field_entry_some.
  - congruence.
  - rewrite W3, P2, P3. done.
Qed.

Section Words.
Context (t : sproto_type) (Ht : t ∈ sp_type sp).
Abbreviation es fs := (entries sp (wire sp n) fs l).
Lemma decode_words_spec fs last prev i stream ds d :
  ascending f_tag prev fs → -1 ≤ last ≤ prev → fs ⊆ t_f t → ready fs d →
  Forall (λ f, get_field l (fkey f) = VNil ∨ field_ok sp (table_ok sp n) f (get_field l (fkey f))) fs →
  holds m (stream + i * SIZEOF_FIELD) (concat (le16 <$> words last (es fs))) → holds m ds (data_of (es fs)) → ds + zlen (data_of (es fs)) ≤ zlen m →
  ∃ d', decode_words m (decode sp m (S n)) (length (words last (es fs))) t i stream ds (zlen (data_of (es fs))) last d = Ok (Some (0, d')) ∧ walked fs d d'.
Proof.
  revert last prev i ds d. induction fs as [|f fs IH]; intros last prev i ds d Ha Hl Hin Hre Hok Hw Hd Hm1.
  { exists d. split; [done|]. split; [by rewrite app_nil_r|done|done]. }
  destruct Ha as [Ha1 Ha2]. apply Forall_cons in Hok as [Hok1 Hok2]. assert (f ∈ t_f t) as Hf by (apply Hin; by left). assert (fs ⊆ t_f t) as Hin2 by (intros g Hg; apply Hin; by right).
  pose proof (proj1 (Forall_forall _ _) (tw_fields _ _ (type_wf t Ht)) f Hf) as Wf. pose proof (fw_tag _ _ Wf) as Htag. rewrite entries_cons in *.
  destruct (field_wire sp (wire sp n) f (get_field l (fkey f))) as [[value b]|] eqn:Ef.
  2:{ apply field_wire_none in Ef. destruct (IH last (f_tag f) i ds d) as (d' & E & W); try done; [lia|by eapply ready_skip|]. exists d'. split; [done|by apply walked_skip]. }
  assert (get_field l (fkey f) ≠ VNil) as Hx by (rewrite <- field_wire_none; congruence). destruct Hok1 as [|Hok1]; [done|].
  pose proof (wire_range f value b Ef) as Hv. rewrite words_cons in *. rewrite data_of_cons in *; cbn [fst snd] in *. apply holds_app in Hd as [Hd1 Hd2]. rewrite zlen_app in *.
  pose proof (zlen_nonneg (data_of (es fs))) as Hn. assert (fresh_field d f) as F by (by destruct Hre as [[]%Forall_cons _ _]).
  assert (∀ j, holds m (stream + j * SIZEOF_FIELD) (concat (le16 <$> value :: words (f_tag f) (es fs))) →
    ∃ d', decode_words m (decode sp m (S n)) (S (length (words (f_tag f) (es fs)))) t j stream ds (zlen b + zlen (data_of (es fs))) (f_tag f - 1) d = Ok (Some (0, d')) ∧ walked (f :: fs) d d') as Hgo.
  { intros j Hj. cbn [fmap list_fmap concat] in Hj. apply holds_app in Hj as [Hj1 Hj2]. rewrite le16_zlen in Hj2.
    destruct (field_turn (length (words (f_tag f) (es fs))) t j stream ds (zlen b + zlen (data_of (es fs))) f d value b) as (d1 & P & ->); try done; [by apply toword_le16|by apply find_field|lia|lia|].
    replace (zlen b + zlen (data_of (es fs)) - zlen b) with (zlen (data_of (es fs))) by lia. unfold SIZEOF_FIELD in *.
    destruct (IH (f_tag f) (f_tag f) (j + 1) (ds + zlen b) d1) as (d' & E & W); try done; [lia|by eapply ready_put|by replace (stream + (j + 1) * 2) with (stream + j * 2 + 2) by lia|lia|].
    exists d'. split; [done|by eapply walked_put]. }
  destruct (decide (0 < f_tag f - last - 1)) as [Hgap|Hgap]; cbn [app length].
  - cbn [app fmap list_fmap concat] in Hw. apply holds_app in Hw as [Hw1 Hw2]. rewrite le16_zlen in Hw2.
    rewrite (skip_turn _ t i stream ds _ last (f_tag f) d) by (apply toword_le16; [done|lia]). apply Hgo. unfold SIZEOF_FIELD in *. by replace (stream + (i + 1) * 2) with (stream + i * 2 + 2) by lia.
  - replace last with (f_tag f - 1) by lia. by apply Hgo.
Qed.
End Words.
End Fields.

(** ** Messages *)

Lemma word_bytes ws : zlen (concat (le16 <$> ws)) = zlen ws * 2.
Proof. induction ws as [|w ws IH]; [done|]. cbn [fmap list_fmap concat]. rewrite zlen_app, IH, le16_zlen, zlen_cons. lia. Qed.
Lemma start_ready t mi : t ∈ sp_type sp → ready (t_f t) (new_decode_ud [] mi).
Proof.
  intros Ht. pose proof (type_wf t Ht) as Wt. split.
  - apply Forall_forall. intros f Hf. pose proof (proj1 (Forall_forall _ _) (tw_fields _ _ Wt) f Hf) as Wf. pose proof (fw_name _ _ Wf) as Hn.
    split; [done| |by apply Forall_nil]. unfold faddr. cbn. by destruct (f_name f).
  - apply (proj1 (Forall_forall _ _) (so_names _ Hso) t Ht).
  - apply (tw_addr _ _ Wt).
Qed.
Lemma decodes_step n : decodes n → decodes (S n).
Proof.
  intros IHn t l off mi Ht Hok Hh Hl. pose proof (type_wf t Ht) as Wt. cbn [table_ok wire picture table_key] in *. set (es := entries sp (wire sp n) (t_f t) l) in *.
  assert (zlen (words (-1) es) < 65536) as Hfew.
  { pose proof (words_few sp (wire sp n) l (t_f t) (-1) (tw_tags _ _ Wt) 0x7ffe) as Hw. fold es in Hw. ospecialize (Hw _ _); [|lia|lia].
    apply (Forall_impl _ _ _ (tw_fields _ _ Wt)). intros f Wf. pose proof (fw_tag _ _ Wf). lia. }
  unfold message_bytes in *. pose proof (zlen_nonneg (words (-1) es)). pose proof (zlen_nonneg (data_of es)). apply holds_app in Hh as [H1 H2]. apply holds_app in H2 as [H2 H3].
  rewrite !zlen_app, word_bytes, le16_zlen in *. unfold sproto_decode. unfold SIZEOF_HEADER, SIZEOF_FIELD. rewrite decide_False by lia.
  rewrite (toword_le16 _ _ _ H1), bind_Ok by lia. rewrite decide_False by lia.
  destruct (decode_words_spec n IHn l t Ht (t_f t) (-1) (-1) 0 (off + 2) (off + 2 + zlen (words (-1) es) * 2) (new_decode_ud [] mi)) as (d & E & [W1 W2 W3]); try done.
  - apply (tw_tags _ _ Wt).
  - by apply start_ready.
  - fold es. by rewrite Z.add_0_r, <- (le16_zlen (zlen (words (-1) es))).
  - fold es. lia.
  - fold es in E. replace (2 + (zlen (words (-1) es) * 2 + zlen (data_of es)) - 2 - zlen (words (-1) es) * 2) with (zlen (data_of es)) by lia.
    replace (Z.to_nat (zlen (words (-1) es))) with (length (words (-1) es)) by (unfold zlen; lia). rewrite E, bind_Ok. exists d. split; [do 2 f_equal; lia|done].
Qed.
Lemma decodes_all n : decodes n.
Proof. induction n as [|n IH]; [|by apply decodes_step]. by intros t l off mi _ []. Qed.
End Decode.

(** ** [ldecode] *)

Lemma holds_self m : holds m 0 m.
Proof. by split. Qed.
Lemma ldecode_wire sp i t l :
  schema_ok sp → 0 ≤ i → sp_type sp !! Z.to_nat i = Some t → table_ok sp ENCODE_DEEPLEVEL t l → zlen (wire sp ENCODE_DEEPLEVEL t l) < 2 ^ 31 →
  ldecode sp i (wire sp ENCODE_DEEPLEVEL t l) [] = Ok (picture sp ENCODE_DEEPLEVEL t l, zlen (wire sp ENCODE_DEEPLEVEL t l)).
Proof.
  intros Hso Hi Ht Hok Hs. unfold ldecode. rewrite (rd_lookup _ _ t), bind_Ok by done. pose proof (zlen_nonneg (wire sp ENCODE_DEEPLEVEL t l)). rewrite (swrap_small 32) by lia.
  destruct (decodes_all sp (wire sp ENCODE_DEEPLEVEL t l) Hso Hs ENCODE_DEEPLEVEL t l 0 (-1)) as (d & -> & <- & _); [by eapply list_elem_of_lookup_2|done|apply holds_self|lia|].
  rewrite bind_Ok. by rewrite decide_False by lia.
Qed.
