(* ===== verification/SprotoRound.v ===== *)
(** * Round trips of the codec

    [lencode] followed by [ldecode] gives back the message: every field of the type reads
    as in the source table, and the new table is encoded to the same bytes. *)
From stdpp Require Import base numbers list.
From S2P Require Import Prelude CString Seri SprotoPack SprotoSchema SprotoEncode SprotoDecode SprotoWire SprotoEncodeProps SprotoDecodeProps.

(** ** The decoded table *)

Lemma get_field_entries (e : field → option lvalue) fs f :
  NoDup (fkey <$> fs) → f ∈ fs → get_field (omap (λ f, pair (VStr (fkey f)) <$> e f) fs) (fkey f) = default VNil (e f).
Proof.
  induction fs as [|g fs IH]; [by intros _ ?%not_elem_of_nil|]. intros [Hg Hn]%NoDup_cons [->|Hf]%elem_of_cons.
  - cbn. destruct (e g) eqn:E; cbn; [by rewrite decide_True|]. clear IH E. induction fs as [|h fs IHf]; [done|]. apply not_elem_of_cons in Hg as [Hh Hg]. apply NoDup_cons in Hn as [_ Hn].
    cbn. destruct (e h); cbn; [rewrite decide_False by congruence|]; by apply IHf.
  - cbn. specialize (IH Hn Hf). destruct (e g); cbn; [|done]. rewrite decide_False; [done|]. intros E. apply Hg. rewrite E. by apply list_elem_of_fmap_2.
Qed.
Lemma get_index_imap ys k j :
  get_index (imap (λ i y, (VInt (Z.of_nat i + k), y)) ys) (Z.of_nat j + k) = default VNil (ys !! j).
Proof.
  revert k j. induction ys as [|y ys IH]; intros k j; [done|]. cbn [imap get_index]. destruct j as [|j]; [by rewrite decide_True by lia|].
  rewrite decide_False by lia. cbn [lookup list_lookup]. etrans; [|apply (IH (k + 1) j)]. f_equal; [|lia]. apply imap_ext. intros i x _. cbn. do 2 f_equal. lia.
Qed.
Lemma seq_items_table ys j fuel :
  Forall (λ y, y ≠ VNil) ys → fuel = (length ys - j)%nat → seq_items fuel (seq_table ys) (Z.of_nat j + 1) = drop j ys.
Proof.
  intros Hy. revert j. induction fuel as [|fuel IH]; intros j Hf; cbn [seq_items]; [by rewrite drop_ge by lia|].
  destruct (lookup_lt_is_Some_2 ys j) as [y Ey]; [lia|]. pose proof (Forall_lookup_1 _ _ _ _ Hy Ey). unfold seq_table at 1. rewrite get_index_imap, Ey. cbn [default].
  rewrite (drop_S _ _ _ Ey), <- (IH (S j)) by lia. replace (Z.of_nat j + 1 + 1) with (Z.of_nat (S j) + 1) by lia. by destruct y.
Qed.
Lemma items_seq f ys : f_key f < 0 → Forall (λ y, y ≠ VNil) ys → items f (seq_table ys) = ys.
Proof.
  intros Hk Hy. unfold items. rewrite decide_False by lia. pose proof (seq_items_table ys 0 (length ys) Hy ltac:(lia)) as E. rewrite drop_0 in E.
  unfold seq_table at 1. rewrite length_imap. exact E.
Qed.

Section Picture.
Context (sp : sproto) (Hso : schema_ok sp).

(** What a field of the decoded table reads as. *)
Definition seen (n : nat) (f : field) (x : lvalue) : lvalue := match x with VNil => VNil | _ => field_picture sp (picture sp n) f x end.
Lemma picture_field n t l f : t ∈ sp_type sp → f ∈ t_f t → get_field (picture sp (S n) t l) (fkey f) = seen n f (get_field l (fkey f)).
Proof.
  intros Ht Hf. pose proof (proj1 (Forall_forall _ _) (so_names _ Hso) t Ht) as Hn. cbn in Hn.
  set (e := λ f : field, match get_field l (fkey f) with VNil => None | x => Some (field_picture sp (picture sp n) f x) end).
  etrans; [|etrans; [apply (get_field_entries e _ _ Hn Hf)|]].
  - f_equal. cbn [picture]. apply list_omap_ext. apply Forall2_same_length_lookup. split; [done|].
    intros i x y Hx Hy. assert (x = y) as <- by congruence. unfold e. by destruct (get_field l (fkey x)).
  - unfold e, seen. by destruct (get_field l (fkey f)).
Qed.
Lemma elem_picture_some n f x : elem_ok sp (table_ok sp n) f x → elem_picture sp (picture sp n) f x ≠ VNil.
Proof. by destruct x. Qed.
Lemma picture_items n f l :
  is_array f = true → Forall (elem_ok sp (table_ok sp n) f) (items f l) →
  ∃ l', field_picture sp (picture sp n) f (VTable l) = VTable l' ∧ items f l' = elem_picture sp (picture sp n) f <$> items f l.
Proof.
  intros Ha Hok. unfold field_picture. rewrite Ha. eexists. split; [done|]. destruct (decide (0 ≤ f_key f)) as [Hk|Hk].
  - unfold items. rewrite !decide_True by done. rewrite <- !list_fmap_compose. done.
  - rewrite <- (items_seq f (elem_picture sp (picture sp n) f <$> items f l)); [unfold seq_table; by rewrite imap_fmap|lia|]. apply Forall_fmap. by apply (Forall_impl _ _ _ Hok), elem_picture_some.
Qed.

(** ** The bytes of the decoded table *)

Definition same_bytes (n : nat) : Prop :=
  ∀ t l, t ∈ sp_type sp → table_ok sp n t l → wire sp n t (picture sp n t l) = wire sp n t l.
Lemma elem_same n f x : same_bytes n → elem_ok sp (table_ok sp n) f x → elem_bytes sp (wire sp n) f (elem_picture sp (picture sp n) f x) = elem_bytes sp (wire sp n) f x.
Proof. intros IH. destruct x; try done. cbn. intros (_ & t & E & Ht). rewrite E. apply IH; [by eapply subtype_in|done]. Qed.
Lemma array_same n f xs :
  same_bytes n → Forall (elem_ok sp (table_ok sp n) f) xs → array_bytes sp (wire sp n) f (elem_picture sp (picture sp n) f <$> xs) = array_bytes sp (wire sp n) f xs.
Proof.
  intros IH Hx. assert (∀ x, int_bits (elem_picture sp (picture sp n) f x) = int_bits x ∧ small_int (elem_picture sp (picture sp n) f x) = small_int x ∧
    bool_bits (elem_picture sp (picture sp n) f x) = bool_bits x) as Hb by (by intros []).
  assert (forallb small_int (elem_picture sp (picture sp n) f <$> xs) = forallb small_int xs) as Hs.
  { clear Hx. induction xs as [|x xs IHx]; [done|]. cbn. rewrite IHx. f_equal. apply Hb. }
  assert (∀ {B} (g : Z → B), (λ x, g (int_bits x)) <$> (elem_picture sp (picture sp n) f <$> xs) = (λ x, g (int_bits x)) <$> xs) as Hi.
  { intros B g. rewrite <- list_fmap_compose. apply list_fmap_ext. intros i y _. cbn. by destruct (Hb y) as [-> _]. }
  unfold array_bytes. rewrite Hs, (Hi _ (λ z, le32 (u32 z))), (Hi _ (λ z, le64 (u64 z))). repeat case_decide.
  - by destruct xs.
  - rewrite <- list_fmap_compose. apply list_fmap_ext. intros i y _. apply Hb.
  - f_equal. rewrite <- list_fmap_compose. apply list_fmap_ext. intros i y Hy. cbn. unfold blob. by rewrite (elem_same n f y IH (Forall_lookup_1 _ _ _ _ Hx Hy)).
Qed.
Lemma scalar_same n f x : same_bytes n → elem_ok sp (table_ok sp n) f x → is_array f = false →
  field_wire sp (wire sp n) f (elem_picture sp (picture sp n) f x) = field_wire sp (wire sp n) f x.
Proof.
  intros IH Hx Ha. pose proof (elem_same n f x IH Hx) as He. destruct x; try done. cbn [elem_picture field_wire] in *. rewrite Ha. cbn [scalar_wire] in *. by rewrite He.
Qed.
Lemma field_same n f x : same_bytes n → x = VNil ∨ field_ok sp (table_ok sp n) f x → field_wire sp (wire sp n) f (seen n f x) = field_wire sp (wire sp n) f x.
Proof.
  intros IH [->|Hok]; [done|]. unfold field_ok in Hok. destruct (is_array f) eqn:Ha.
  - destruct x; try done. destruct Hok as [Hok _]. destruct (picture_items n f _ Ha Hok) as (l' & E & Ei). cbn [seen]. rewrite E. cbn [field_wire]. rewrite Ha, Ei. by rewrite array_same.
  - destruct Hok as [_ Hx]. rewrite <- (scalar_same n f x IH Hx Ha). unfold seen, field_picture. rewrite Ha. by destruct x.
Qed.
Lemma same_bytes_all n : same_bytes n.
Proof.
  induction n as [|n IH]; [by intros t l _ []|]. intros t l Ht Hok. cbn [wire]. f_equal. unfold entries. apply list_omap_ext. apply Forall2_same_length_lookup. split; [done|].
  intros i f g Hf Hg. assert (f = g) as <- by congruence. cbn [table_ok] in Hok. pose proof (Forall_lookup_1 _ _ _ _ Hok Hf) as Hx. cbn in Hx.
  rewrite picture_field by (done || by eapply list_elem_of_lookup_2). by rewrite field_same.
Qed.
Lemma seen_scalar t l f n :
  table_ok sp (S n) t l → f ∈ t_f t → is_array f = false → f_base f ≠ SPROTO_TSTRUCT → seen n f (get_field l (fkey f)) = get_field l (fkey f).
Proof.
  intros Hok Hf Ha Hb. cbn [table_ok] in Hok. destruct (proj1 (Forall_forall _ _) Hok f Hf) as [-> |Hx]; [done|]. unfold field_ok in Hx. rewrite Ha in Hx. destruct Hx as [_ Hx].
  unfold seen, field_picture. rewrite Ha. destruct (get_field l (fkey f)); try done. by destruct Hx.
Qed.
End Picture.

(** ** Encoding and decoding *)

(** C24: what [lencode] makes of a table that is a message of a well-formed type,
    [ldecode] reads to the end and turns into a table in which every field of the type
    reads as in the first one (a field that is not an array or a message has the same
    value), and which has the same bytes as the first one; or the encoding ends in a Lua
    error, only for messages that may not fit into half of the largest buffer. This is
    for messages that fit the buffer at once or in which no array of integers starts
    with 32-bit integers and goes on with 64-bit ones: such an array, widened while the
    buffer is too small, is written behind its end, see [widening_overruns]. *)
Theorem sproto_roundtrip {LN : LuaNumbers} sp i t l up :
  schema_ok sp → 0 ≤ i → sp_type sp !! Z.to_nat i = Some t → table_ok sp ENCODE_DEEPLEVEL t l →
  ENCODE_BUFFERSIZE ≤ zlen up ≤ ENCODE_MAXSIZE → need sp ENCODE_DEEPLEVEL t l ≤ zlen up ∨ table_even sp ENCODE_DEEPLEVEL t l →
  (∃ s up' l', lencode sp i (VTable l) up = Ok (s, up') ∧ ldecode sp i s [] = Ok (l', zlen s) ∧
     (∀ f, f ∈ t_f t → get_field l' (fkey f) = seen sp (pred ENCODE_DEEPLEVEL) f (get_field l (fkey f))) ∧
     (∀ f, f ∈ t_f t → is_array f = false → f_base f ≠ SPROTO_TSTRUCT → get_field l' (fkey f) = get_field l (fkey f)) ∧
     wire sp ENCODE_DEEPLEVEL t l' = s) ∨
  lencode sp i (VTable l) up = Err (LuaError 0) ∧ ENCODE_MAXSIZE < 2 * need sp ENCODE_DEEPLEVEL t l.
Proof.
  intros Hso Hi Ht Hok Hup Hroom. pose proof (list_elem_of_lookup_2 _ _ _ Ht) as Hin. unfold lencode. rewrite (rd_lookup _ _ t), bind_Ok by done.
  destruct (lencode_loop_spec sp (so_wf _ Hso) 24 t l up) as [(up' & E & Hz)|[E Hbig]];
    [by apply type_wf|done|done|unfold ENCODE_BUFFERSIZE in Hup; lia|unfold ENCODE_BUFFERSIZE, ENCODE_MAXSIZE in *; lia| |by right].
  left. eexists _, up', _. split; [exact E|]. split; [apply ldecode_wire; try done; unfold ENCODE_MAXSIZE in Hz; lia|].
  assert (∀ f, f ∈ t_f t → get_field (picture sp ENCODE_DEEPLEVEL t l) (fkey f) = seen sp (pred ENCODE_DEEPLEVEL) f (get_field l (fkey f))) as Hs by (intros f; by apply picture_field).
  split; [done|]. split; [|by apply same_bytes_all]. intros f Hf Ha Hb. rewrite (Hs f Hf). by apply (seen_scalar sp t l f).
Qed.

(** A hero with a name, points, a bag of one item by its id, a log of integers of both
    widths, a flag and an array of booleans; the tags and the arm are absent. *)
Definition hero : lfields :=
  [(VStr [110; 97; 109; 101], VStr [65; 66]); (VStr [104; 112], VInt (-7));
   (VStr [98; 97; 103], VTable [(VInt 5, VTable [(VStr [105; 100], VInt 5); (VStr [110], VInt 40000)])]);
   (VStr [108; 111; 103], VTable [(VInt 1, VInt 3); (VInt 2, VInt (2 ^ 40))]);
   (VStr [117; 112], VBool true); (VStr [111; 110], VTable [(VInt 1, VBool true); (VInt 2, VBool false)])].
Definition hero_type : sproto_type := default (mk_stype None 0 0 0 []) (sp_type example_sproto !! 1%nat).
Ltac type_fields := match goal with |- context [t_f ?t] => let x := eval vm_compute in (t_f t) in change (t_f t) with x end.
Ltac each := repeat (apply Forall_cons; split); [..|by apply Forall_nil].
Lemma hero_ok : table_ok example_sproto ENCODE_DEEPLEVEL hero_type hero.
Proof.
  unfold ENCODE_DEEPLEVEL. cbn [table_ok]. type_fields. each.
  - right. done.
  - right. done.
  - right. split.
    + change (items _ _) with [VTable [(VStr [105; 100], VInt 5); (VStr [110], VInt 40000)]]. each. split; [done|]. eexists. split; [vm_compute; reflexivity|].
      cbn [table_ok]. cbn [t_f]. each; right; done.
    + intros _. eexists _, _. split; [vm_compute; reflexivity|]. split; [left|]. split; [done|]. split; [done|]. split; [done|]. split; [apply NoDup_singleton|]. each. by eexists.
  - right. split; [|done]. each; done.
  - right. done.
  - left. done.
  - left. done.
  - right. split; [|done]. each; done.
Qed.
Lemma sproto_roundtrip_witness :
  ∃ s up' l', @lencode no_numbers example_sproto 1 (VTable hero) (replicate 2050 0) = Ok (s, up') ∧ ldecode example_sproto 1 s [] = Ok (l', 83) ∧
    get_field l' [104; 112] = VInt (-7) ∧ get_field l' [97; 114; 109] = VNil ∧
    get_field l' [108; 111; 103] = VTable [(VInt 1, VInt 3); (VInt 2, VInt (2 ^ 40))] ∧
    get_field l' [98; 97; 103] = VTable [(VInt 5, VTable [(VStr [105; 100], VInt 5); (VStr [110], VInt 40000)])].
Proof.
  destruct (@sproto_roundtrip no_numbers example_sproto 1 hero_type hero (replicate 2050 0)) as [(s & up' & l' & E1 & E2 & H1 & H2 & E3)|[_ Hbig]].
  - exact example_schema_ok.
  - done.
  - vm_compute. reflexivity.
  - exact hero_ok.
  - vm_compute. split; discriminate.
  - left. vm_compute. discriminate.
  - exists s, up', l'. split; [exact E1|].
    assert (Es : (r ← @lencode no_numbers example_sproto 1 (VTable hero) (replicate 2050 0); Ok r.1) = Ok (wire example_sproto ENCODE_DEEPLEVEL hero_type hero)) by (vm_compute; reflexivity).
    rewrite E1, bind_Ok in Es. apply Ok_inj in Es. cbn [fst] in Es. clear H1 H2 E3. subst s.
    assert (El : ldecode example_sproto 1 (wire example_sproto ENCODE_DEEPLEVEL hero_type hero) [] = Ok (hero, 83)) by (vm_compute; reflexivity).
    rewrite El in E2. apply Ok_inj, pair_equal_spec in E2 as [<- _]. split; [exact El|]. repeat split.
  - exfalso. apply (Zlt_not_le _ _ Hbig). vm_compute. discriminate.
Defined.
