(* ===== verification/SprotoLua.v ===== *)
(** * The other functions of the sproto module: lualib-src/sproto/lsproto.c

    Queries of protocols by name or tag, the global slots that share sproto objects between
    Lua states, and the default table of a type, which [ldefault] gets from the encoder: its
    callback puts each field into the table and tells the encoder that there is no value.
    The theorems: queries find what the object holds, and the default table has every
    field, whatever the number of fields. *)
From stdpp Require Import base numbers list.
From S2P Require Import Prelude CString Seri SprotoPack SprotoSchema SprotoEncode SprotoDecode SprotoWire SprotoEncodeProps SprotoDecodeProps.

(** ** Protocols *)

(** The name or the tag that belongs to the argument, and the types of the request and the
    response; [None] for no result. The name starts at the argument's bytes. *)
Definition lprotocol {LN : LuaNumbers} (sp : sproto) (arg : lvalue) : result (option (lvalue * option Z * option Z)) :=
  let answer (x : lvalue) (tag : Z) :=
    request ← sproto_protoquery sp tag SPROTO_REQUEST;
    response ← sproto_protoquery sp tag SPROTO_RESPONSE;
    Ok (Some (x, request, response)) in
  let by_tag (tag : Z) :=
    name ← sproto_protoname sp tag;
    match name with None => Ok None | Some n => answer (VStr (until_nul (n_text n))) tag end in
  match arg with
  | VInt i => by_tag (s32 i)
  | VReal r => by_tag (s32 (default 0 (real2int r)))
  | VStr name =>
      tag ← sproto_prototag sp name;
      if decide (tag < 0) then Ok None else answer (VInt tag) tag
  | _ => Err (LuaError 2)
  end.

(** ** The global slots *)

Definition MAX_GLOBALSPROTO : Z := 16.
(** The pointers to sproto objects, or NULL. *)
Definition G_sproto : list (option Z) := replicate (Z.to_nat MAX_GLOBALSPROTO) None.
Definition lsaveproto (G : list (option Z)) (sp : option Z) (index : Z) : result (list (option Z)) :=
  let index := s32 index in
  if decide (index < 0 ∨ MAX_GLOBALSPROTO ≤ index) then Err (LuaError 0) else wr G index sp.
Definition lloadproto (G : list (option Z)) (index : Z) : result Z :=
  let index := s32 index in
  if decide (index < 0 ∨ MAX_GLOBALSPROTO ≤ index) then Err (LuaError 0)
  else sp ← rd G index; of_option (LuaError 0) sp.

(** ** Default tables *)

Section Default.
Context (sp : sproto).

Definition type_key : list Z := [95; 95; 116; 121; 112; 101].
(** Other types than the four leave the value out and spoil the stack. *)
Definition encode_default (args : sproto_arg) (t : lfields) (buf : list Z) : result (cb_result lfields) :=
  k ← tag_key (a_tagname args);
  if decide (0 < a_index args) then Ok (mk_cb SPROTO_CB_NOARRAY (set_table t (VStr k) (VTable [])) buf 0)
  else
    v ← (if decide (a_type args = SPROTO_TINTEGER) then Ok (VInt 0)
         else if decide (a_type args = SPROTO_TBOOLEAN) then Ok (VBool false)
         else if decide (a_type args = SPROTO_TSTRING) then Ok (VStr [])
         else if decide (a_type args = SPROTO_TSTRUCT) then
           i ← of_option NullDeref (a_subtype args);
           st ← rd (sp_type sp) i;
           n ← name_text (t_name st);
           Ok (VTable [(VStr type_key, VStr (until_nul n))])
         else Err NullDeref);
    Ok (mk_cb SPROTO_CB_NIL (set_table t (VStr k) v) buf 0).

(** The buffer doubles until the encoder has seen all fields; the table stays. *)
Fixpoint default_loop (fuel : nat) (st : sproto_type) (sz : Z) (t : lfields) : result lfields :=
  match fuel with
  | O => Err OutOfFuel
  | S fuel =>
      r ← sproto_encode encode_default st 0 sz t (replicate (Z.to_nat sz) 0);
      let '(ret, t, _) := r in
      if decide (0 ≤ ret) then Ok t else sz ← c_int (sz * 2); default_loop fuel st sz t
  end.
Definition ldefault (i : Z) : result lfields :=
  st ← rd (sp_type sp) i;
  r ← sproto_encode encode_default st 0 64 [] (replicate 64 0);
  let '(ret, t, _) := r in
  if decide (ret < 0) then default_loop 12 st (64 * 2) t else Ok t.
End Default.

(** ** Queries find what the object holds *)

Lemma query_proto_spec sp tag :
  sproto_wf sp → ascending pr_tag (-1) (sp_proto sp) →
  ∃ o, query_proto sp tag = Ok o ∧ match o with Some x => x ∈ sp_proto sp ∧ pr_tag x = tag | None => ∀ x, x ∈ sp_proto sp → pr_tag x ≠ tag end.
Proof.
  intros W Ha. pose proof (sw_protocols _ W) as Hn. apply search_tag_spec; [done|lia|lia|lia|].
  intros i x Hx _. apply lookup_lt_Some in Hx. unfold zlen in Hn. lia.
Qed.
Lemma query_proto_in sp x :
  sproto_wf sp → ascending pr_tag (-1) (sp_proto sp) → x ∈ sp_proto sp → query_proto sp (pr_tag x) = Ok (Some x).
Proof.
  intros W Ha Hx. destruct (query_proto_spec sp (pr_tag x) W Ha) as ([y|] & -> & Hy); [|by destruct (Hy x Hx)].
  destruct Hy as [Hy E]. by rewrite (ascending_inj _ _ _ Ha y x).
Qed.
Definition pkey (x : protocol) : list Z := match pr_name x with Some n => until_nul (n_text n) | None => [] end.
Lemma prototag_found l name :
  Forall (λ x, pr_name x ≠ None) l → NoDup (pkey <$> l) →
  (∀ x, x ∈ l → pkey x = until_nul name → prototag_loop l name = Ok (pr_tag x)) ∧
  ((∀ x, x ∈ l → pkey x ≠ until_nul name) → prototag_loop l name = Ok (-1)).
Proof.
  induction l as [|y l IH]; [split; [by intros x ?%not_elem_of_nil|done]|]. intros [Hy Hl]%Forall_cons [Hk Hn]%NoDup_cons. destruct (IH Hl Hn) as [IH1 IH2]. cbn [prototag_loop].
  destruct (pr_name y) as [ny|] eqn:Ey; [|done]. unfold name_text. cbn [fmap option_fmap option_map of_option]. rewrite bind_Ok. unfold same_name.
  assert (pkey y = until_nul (n_text ny)) as Epk by (unfold pkey; by rewrite Ey). rewrite <- Epk. split.
  - intros x [->|Hx]%elem_of_cons E; [by rewrite bool_decide_eq_true_2|]. rewrite bool_decide_eq_false_2; [by apply IH1|]. rewrite <- E. intros E2. apply Hk. rewrite <- E2. by apply list_elem_of_fmap_2.
  - intros H. rewrite bool_decide_eq_false_2; [apply IH2; intros x Hx; apply H; by right|]. intros E. by apply (H y); [left|].
Qed.

(** When the tags of the protocols ascend and their names differ, [lprotocol] finds a
    protocol by its tag and by its name, with the types of its request and response, and
    finds nothing for other tags and names. *)
Theorem protocols_are_found {LN : LuaNumbers} sp :
  sproto_wf sp → ascending pr_tag (-1) (sp_proto sp) → NoDup (pkey <$> sp_proto sp) →
  (∀ x, x ∈ sp_proto sp →
     lprotocol sp (VInt (pr_tag x)) = Ok (Some (VStr (pkey x), pr_request x, pr_response x)) ∧
     lprotocol sp (VStr (pkey x)) = Ok (Some (VInt (pr_tag x), pr_request x, pr_response x))) ∧
  (∀ i, (∀ x, x ∈ sp_proto sp → pr_tag x ≠ s32 i) → lprotocol sp (VInt i) = Ok None) ∧
  (∀ name, (∀ x, x ∈ sp_proto sp → pkey x ≠ until_nul name) → lprotocol sp (VStr name) = Ok None).
Proof.
  intros W Ha Hn. pose proof (sw_protocol _ W) as Wp. assert (Forall (λ x, pr_name x ≠ None) (sp_proto sp)) as Hnm by (eapply Forall_impl; [exact Wp|]; intros x Hx; apply Hx).
  split; [|split].
  - intros x Hx. pose proof (proj1 (Forall_forall _ _) Wp x Hx) as [Px Pt _ _]. pose proof (query_proto_in sp x W Ha Hx) as Hq.
    assert (∀ what, what = 0 ∨ what = 1 → sproto_protoquery sp (pr_tag x) what = Ok (if decide (what = SPROTO_REQUEST) then pr_request x else pr_response x)) as Hpq.
    { intros what Hw. unfold sproto_protoquery. rewrite decide_False by lia. by rewrite Hq, bind_Ok. }
    unfold lprotocol. rewrite (swrap_small 32) by lia. split.
    + unfold sproto_protoname. rewrite Hq, !bind_Ok. destruct (pr_name x) as [nx|] eqn:En; [|done]. rewrite !Hpq, !bind_Ok by tauto. unfold pkey. by rewrite En.
    + unfold sproto_prototag. rewrite (proj1 (prototag_found _ (pkey x) Hnm Hn) x Hx), bind_Ok; [|unfold pkey; destruct (pr_name x); [by rewrite (until_nul_ok _ (until_nul_nonzero _))|done]].
      rewrite decide_False by lia. by rewrite !Hpq, !bind_Ok by tauto.
  - intros i Hi. unfold lprotocol, sproto_protoname. destruct (query_proto_spec sp (s32 i) W Ha) as ([y|] & -> & Hy); [by destruct (Hi y (proj1 Hy)); destruct Hy|]. by rewrite !bind_Ok.
  - intros name Hx. unfold lprotocol, sproto_prototag. rewrite (proj2 (prototag_found _ name Hnm Hn) Hx), bind_Ok. done.
Qed.
Lemma protocols_are_found_witness :
  @lprotocol no_numbers example_sproto (VInt 1) = Ok (Some (VStr [103; 101; 116], Some 0, Some 1)) ∧
  @lprotocol no_numbers example_sproto (VStr [103; 101; 116]) = Ok (Some (VInt 1, Some 0, Some 1)) ∧ @lprotocol no_numbers example_sproto (VInt 7) = Ok None.
Proof.
  destruct (@protocols_are_found no_numbers example_sproto) as (H1 & H2 & _).
  - apply (so_wf _ example_schema_ok).
  - vm_compute. split; [reflexivity|exact I].
  - apply (bool_decide_eq_true_1 _). vm_compute. reflexivity.
  - assert (E : sp_proto example_sproto = ltac:(let x := eval vm_compute in (sp_proto example_sproto) in exact x)) by (vm_compute; reflexivity).
    destruct (H1 (ltac:(let x := eval vm_compute in (sp_proto example_sproto) in match x with [?y] => exact y end))) as [E1 E2]; [rewrite E; left|].
    split; [exact E1|]. split; [exact E2|]. apply H2. rewrite E. intros x [->|?%not_elem_of_nil]%elem_of_cons; [vm_compute; discriminate|contradiction].
Defined.

(** ** The default table *)

Definition type_name (sp : sproto) (f : field) : list Z :=
  match subtype sp f with Some t => match t_name t with Some n => until_nul (n_text n) | None => [] end | None => [] end.
Definition default_value (sp : sproto) (f : field) : lvalue :=
  if is_array f then VTable []
  else if decide (f_base f = SPROTO_TINTEGER) then VInt 0
  else if decide (f_base f = SPROTO_TBOOLEAN) then VBool false
  else if decide (f_base f = SPROTO_TSTRING) then VStr []
  else VTable [(VStr type_key, VStr (type_name sp f))].
Definition default_entry (sp : sproto) (f : field) : lvalue * lvalue := (VStr (fkey f), default_value sp f).

Section DefaultSpec.
Context (sp : sproto) (Hso : schema_ok sp).

(** What the callback does with a field. *)
Lemma default_cb f args t buf :
  field_wf (sp_type_n sp) f → asks args f (a_index args) → (0 < a_index args ↔ is_array f = true) →
  encode_default sp args t buf =
    Ok (mk_cb (if is_array f then SPROTO_CB_NOARRAY else SPROTO_CB_NIL) (set_table t (VStr (fkey f)) (default_value sp f)) buf 0).
Proof.
  intros Wf (A1 & At & A2 & _) Hi. unfold encode_default, default_value. rewrite A1, tag_key_Ok, bind_Ok by apply Wf. destruct (is_array f); [by rewrite decide_True by tauto|].
  rewrite decide_False by (intros Hp; by apply Hi in Hp). rewrite At. destruct (field_kinds _ _ Wf) as [Hk _].
  destruct (decide (f_base f = SPROTO_TINTEGER)); [by rewrite bind_Ok|]. destruct (decide (f_base f = SPROTO_TBOOLEAN)); [by rewrite bind_Ok|].
  destruct (decide (f_base f = SPROTO_TSTRING)); [by rewrite bind_Ok|]. assert (f_base f = SPROTO_TSTRUCT) as Hb by tauto. rewrite decide_True by done.
  pose proof (fw_st _ _ Wf) as Hst. rewrite decide_True in Hst by done. destruct Hst as (i & Ei & Hr). rewrite A2, Ei. cbn [of_option]. rewrite bind_Ok.
  rewrite <- (sw_types _ (so_wf _ Hso)) in Hr. destruct (rd_Ok (sp_type sp) i) as [st Hs]; [lia|]. rewrite Hs, bind_Ok. apply rd_Ok_inv in Hs as [_ Hs].
  unfold type_name, subtype. rewrite Ei. cbn [mbind option_bind]. rewrite Hs. pose proof (type_wf sp Hso st ltac:(by eapply list_elem_of_lookup_2)) as Wt. pose proof (tw_name _ _ Wt).
  unfold name_text. destruct (t_name st); [|done]. cbn. done.
Qed.

(** A field is put into the table, or there is no room and nothing happens. *)
Definition put_default (f : field) (t : lfields) : lfields := set_table t (VStr (fkey f)) (default_value sp f).
Lemma default_field f data size t buf :
  field_wf (sp_type_n sp) f → 0 ≤ size →
  (∃ o, encode_field (encode_default sp) f data size t buf = Ok (o, put_default f t, buf) ∧ (o = FNext ∨ o = FData 0 0)) ∨
  encode_field (encode_default sp) f data size t buf = Ok (FData (-1) 0, t, buf) ∧ size < 8.
Proof.
  intros Wf Hs. destruct (field_kinds _ _ Wf) as [Hk Hty]. unfold encode_field, put_default. cbv zeta. fold (f_base f). destruct (is_array f) eqn:Ea.
  - rewrite decide_True by (by apply bool_decide_eq_true_1 in Ea). unfold encode_array, SIZEOF_LENGTH. destruct (decide (size < 4)); [right; rewrite bind_Ok; split; [done|lia]|].
    assert (∀ v len b, encode_default sp (with_value (field_arg f (f_base f)) v len 1) t b = Ok (mk_cb SPROTO_CB_NOARRAY (set_table t (VStr (fkey f)) (default_value sp f)) b 0)) as Hcb.
    { intros v len b. rewrite (default_cb f) by (done || by rewrite Ea). by rewrite Ea. }
    cbn [a_type field_arg]. destruct (decide (f_base f = SPROTO_TINTEGER)).
    + unfold encode_integer_array. destruct (decide (size - 4 < 1)); [right; rewrite !bind_Ok; split; [done|lia]|]. left. cbn [integer_loop]. rewrite Hcb, !bind_Ok.
      rewrite decide_True, decide_False, decide_True by done. rewrite !bind_Ok. rewrite decide_True by lia. rewrite !bind_Ok. eexists. split; [done|by right].
    + destruct (decide (f_base f = SPROTO_TBOOLEAN)).
      * left. cbn [boolean_loop]. rewrite Hcb, !bind_Ok. rewrite decide_True, decide_False, decide_True by done. rewrite !bind_Ok. eexists. split; [done|by right].
      * cbn [object_loop]. unfold SIZEOF_LENGTH. destruct (decide (size - 4 < 4)); [right; rewrite !bind_Ok; split; [done|lia]|]. left.
        rewrite Hcb, !bind_Ok. rewrite decide_True, decide_False, decide_True by done. rewrite !bind_Ok. eexists. split; [done|by right].
  - rewrite decide_False by (by apply bool_decide_eq_false_1 in Ea). rewrite (Hty eq_refl).
    assert (∀ v len b, encode_default sp (with_value (field_arg f (f_base f)) v len 0) t b = Ok (mk_cb SPROTO_CB_NIL (set_table t (VStr (fkey f)) (default_value sp f)) b 0)) as Hcb.
    { intros v len b. rewrite (default_cb f) by (done || by rewrite Ea). by rewrite Ea. }
    destruct (decide (f_base f = SPROTO_TINTEGER ∨ f_base f = SPROTO_TBOOLEAN)).
    + left. rewrite Hcb, bind_Ok. rewrite decide_True, decide_True by done. eexists. split; [done|by left].
    + rewrite decide_True by tauto. unfold encode_object, SIZEOF_LENGTH. destruct (decide (size < 4)); [right; rewrite bind_Ok; split; [done|lia]|]. left.
      cbn [a_index field_arg]. rewrite Hcb, bind_Ok. cbn [cb_sz cb_ud cb_buf]. rewrite decide_True, decide_True, bind_Ok by done. eexists. split; [done|by right].
Qed.

(** After [j] fields, of which the first [k] were in the table before. *)
Section Prefix.
Context (fs : list field) (Hkeys : NoDup (fkey <$> fs)) (Hwf : Forall (field_wf (sp_type_n sp)) fs).
Definition filled (k : nat) : lfields := default_entry sp <$> take k fs.
Lemma filled_new j k f : fs !! j = Some f → (k ≤ j)%nat → new_key (filled k) (VStr (fkey f)).
Proof.
  intros Hf Hk. apply Forall_lookup_2. intros i [a b] Hi. unfold filled in Hi. rewrite list_lookup_fmap in Hi. destruct (take k fs !! i) as [g|] eqn:Eg; [|done].
  injection Hi as <- <-. apply lookup_take_Some in Eg as [Eg Hik]. cbn. apply bool_decide_eq_false_2. intros E.
  assert (j = i); [|lia]. apply (NoDup_lookup _ _ _ (fkey f) Hkeys); rewrite list_lookup_fmap; [by rewrite Hf|]. rewrite Eg. cbn. by rewrite E.
Qed.
Lemma set_table_at a k v w b : new_key a (VStr k) → set_table (a ++ (VStr k, v) :: b) (VStr k) w = a ++ (VStr k, w) :: b.
Proof. induction a as [|[k' v'] a IH]; cbn; [by rewrite bool_decide_eq_true_2|]. intros [H1 H2]%Forall_cons. cbn in H1. by rewrite H1, IH. Qed.
Lemma put_filled j k f : fs !! j = Some f → (j ≤ k)%nat → put_default f (filled k) = filled (max k (S j)).
Proof.
  intros Hf Hk. unfold put_default. destruct (decide (k = j)) as [->|].
  - rewrite set_table_new by (by eapply filled_new). replace (max j (S j)) with (S j) by lia. unfold filled. by rewrite (take_S_r _ _ _ Hf), fmap_app.
  - replace (max k (S j)) with k by lia. assert (take k fs = take j fs ++ f :: take (k - S j) (drop (S j) fs)) as E.
    { rewrite <- (take_drop j (take k fs)). rewrite take_take, Nat.min_l by lia. f_equal. rewrite skipn_firstn_comm. rewrite (drop_S _ _ _ Hf). by replace (k - j)%nat with (S (k - S j)) by lia. }
    unfold filled. rewrite E, fmap_app, fmap_cons. apply set_table_at. by eapply filled_new.
Qed.
Lemma default_fields n j k header data size buf :
  0 ≤ size → (j + n = length fs)%nat → (j ≤ k ≤ length fs)%nat →
  ∃ o k', encode_fields (encode_default sp) (drop j fs) header 0 (-1) data size (filled k) buf = Ok (o, filled k', buf) ∧
    (k' ≤ length fs)%nat ∧ (o = inr (0, data) ∧ k' = length fs ∨ o = inl (-1) ∧ size < 8).
Proof.
  intros Hs. revert j k. induction n as [|n IH]; intros j k Hn Hk.
  { rewrite drop_ge by lia. exists (inr (0, data)), k. split; [done|]. split; [lia|]. left. split; [done|lia]. }
  destruct (lookup_lt_is_Some_2 fs j) as [f Hf]; [lia|]. rewrite (drop_S _ _ _ Hf). cbn [encode_fields]. pose proof (Forall_lookup_1 _ _ _ _ Hwf Hf) as Wf.
  destruct (default_field f data size (filled k) buf Wf Hs) as [(o & -> & Ho)|[-> Hlt]]; rewrite bind_Ok.
  - rewrite (put_filled j k f Hf) by lia. destruct Ho as [-> | ->]; [|rewrite decide_False, decide_False by lia]; apply IH; lia.
  - rewrite decide_True by lia. exists (inl (-1)), k. split; [done|]. split; [lia|]. by right.
Qed.
End Prefix.

Lemma max_words_few fs last top : ascending f_tag last fs → Forall (λ f, f_tag f ≤ top) fs → last ≤ top → 0 ≤ max_words last fs ≤ top - last.
Proof.
  revert last. induction fs as [|f fs IH]; intros last; cbn [max_words]; [lia|]. intros [Ha1 Ha2] [Hf1 Hf2]%Forall_cons Hl.
  specialize (IH (f_tag f) Ha2 Hf2 Hf1). case_decide; lia.
Qed.
Lemma maxn_few t : t ∈ sp_type sp → 0 ≤ t_maxn t ≤ 0x7fff.
Proof.
  intros Ht. pose proof (type_wf sp Hso t Ht) as Wt. rewrite (tw_maxn _ _ Wt). pose proof (max_words_few (t_f t) (-1) 0x7ffe (tw_tags _ _ Wt)) as H.
  ospecialize (H _ _); [|lia|lia]. eapply Forall_impl; [exact (tw_fields _ _ Wt)|]. intros f Wf. pose proof (fw_tag _ _ Wf). cbn. lia.
Qed.

Lemma default_encode t k sz :
  t ∈ sp_type sp → (k ≤ length (t_f t))%nat → 2 ≤ sz →
  ∃ r k' buf', sproto_encode (encode_default sp) t 0 sz (filled (t_f t) k) (replicate (Z.to_nat sz) 0) = Ok (r, filled (t_f t) k', buf') ∧
    (k' ≤ length (t_f t))%nat ∧ (r = 2 ∧ k' = length (t_f t) ∨ r = -1 ∧ sz < 2 * t_maxn t + 10).
Proof.
  intros Ht Hk Hsz. pose proof (type_wf sp Hso t Ht) as Wt. pose proof (maxn_few t Ht) as Hm. unfold sproto_encode, SIZEOF_HEADER, SIZEOF_FIELD.
  destruct (decide (sz < 2 + t_maxn t * 2)); [eexists _, k, _; split; [done|]; split; [done|right; split; [done|lia]]|].
  destruct (default_fields (t_f t) (proj1 (Forall_forall _ _) (so_names _ Hso) t Ht) (tw_fields _ _ Wt) (length (t_f t)) 0 k 0 (0 + (2 + t_maxn t * 2)) (sz - (2 + t_maxn t * 2)) (replicate (Z.to_nat sz) 0))
    as (o & k' & E & Hk' & Ho); [lia|lia|lia|]. rewrite drop_0 in E. rewrite E, bind_Ok. destruct Ho as [[-> ->]|[-> Hlt]]; [|eexists _, k', _; split; [done|]; split; [done|right; split; [done|lia]]].
  assert (zlen (replicate (Z.to_nat sz) 0) = sz) as Hz by (rewrite zlen_replicate; lia).
  destruct (write_spec (replicate (Z.to_nat sz) 0) 0 (le16 0)) as (b1 & -> & F1 & _); [lia|rewrite le16_zlen; lia|]. rewrite bind_Ok. apply frame_zlen in F1. rewrite Hz in F1.
  replace (0 + (2 + t_maxn t * 2) - (0 + (2 + t_maxn t * 2))) with (zlen (@nil Z)) by (unfold zlen; cbn [length]; lia). unfold zlen at 2. cbn [length].
  rewrite (holds_read b1 _ []) by (try apply holds_nil; unfold zlen in *; cbn [length]; lia).
  assert (∃ b2, (if decide (0 ≠ t_maxn t) then bytes ← Ok []; write_at b1 (0 + 2 + 0 * 2) bytes else Ok b1) = Ok b2) as [b2 ->].
  { case_decide; [|by eexists]. rewrite bind_Ok. destruct (write_spec b1 (0 + 2 + 0 * 2) []) as (b2 & -> & _); [lia|unfold zlen in *; cbn [length]; lia|by eexists]. }
  rewrite bind_Ok. eexists _, _, _. split; [done|]. split; [done|]. by left.
Qed.

Lemma default_loop_spec fuel t sz k :
  t ∈ sp_type sp → (k ≤ length (t_f t))%nat → 2 ≤ sz ≤ 2 ^ 20 → 2 * t_maxn t + 10 ≤ sz * 2 ^ (Z.of_nat fuel) → sz * 2 ^ Z.of_nat fuel ≤ 2 ^ 20 →
  default_loop sp (S fuel) t sz (filled (t_f t) k) = Ok (default_entry sp <$> t_f t).
Proof.
  intros Ht. revert sz k. induction fuel as [|fuel IH]; intros sz k Hk Hs Hroom Hmax.
  all: destruct (default_encode t k sz Ht Hk ltac:(lia)) as (r & k' & b & E & Hk' & Hr); cbn [default_loop]; rewrite E, bind_Ok.
  all: destruct Hr as [[-> ->]|[-> Hlt]]; [rewrite decide_True by lia; unfold filled; by rewrite take_ge by lia|].
  - exfalso. change (2 ^ Z.of_nat 0) with 1 in Hroom. lia.
  - rewrite decide_False by lia. rewrite c_int_Ok by (unfold INT_MIN, INT_MAX; lia). rewrite bind_Ok.
    replace (Z.of_nat (S fuel)) with (1 + Z.of_nat fuel) in * by lia. rewrite Z.pow_add_r in * by lia. change (2 ^ 1) with 2 in *. pose proof (Z.pow_pos_nonneg 2 (Z.of_nat fuel)).
    apply IH; [done|nia|lia|lia].
Qed.
End DefaultSpec.

(** The default table of a type has every field of the type, in its order and however
    many there are: an array is empty, a number 0, a boolean false, a string empty, and a
    message a table with the name of its type. *)
Theorem ldefault_has_every_field sp i t :
  schema_ok sp → 0 ≤ i → sp_type sp !! Z.to_nat i = Some t → ldefault sp i = Ok (default_entry sp <$> t_f t).
Proof.
  intros Hso Hi Ht. pose proof (list_elem_of_lookup_2 _ _ _ Ht) as Hin. pose proof (maxn_few sp Hso t Hin). unfold ldefault. rewrite (rd_lookup _ _ t), bind_Ok by done.
  destruct (default_encode sp Hso t 0 64 Hin ltac:(lia) ltac:(lia)) as (r & k' & b & E & Hk' & Hr). change (filled sp (t_f t) 0) with (@nil (lvalue * lvalue)) in E.
  change (replicate (Z.to_nat 64) 0) with (replicate 64 0) in E. rewrite E, bind_Ok.
  destruct Hr as [[-> ->]|[-> _]]; [rewrite decide_False by lia; unfold filled; by rewrite take_ge by lia|].
  rewrite decide_True by lia. apply (default_loop_spec sp Hso 11); try done; lia.
Qed.
Lemma ldefault_has_every_field_witness :
  ldefault example_sproto 0 = Ok [(VStr [105; 100], VInt 0); (VStr [110], VInt 0)] ∧
  ∃ l, ldefault example_sproto 1 = Ok l ∧ get_field l [98; 97; 103] = VTable [] ∧
    get_field l [97; 114; 109] = VTable [(VStr type_key, VStr [73; 116; 101; 109])].
Proof.
  pose proof example_schema_ok as Hso. split.
  - etrans; [eapply (ldefault_has_every_field example_sproto 0 _ Hso); [lia|vm_compute; reflexivity]|]. vm_compute. reflexivity.
  - eexists. split; [eapply (ldefault_has_every_field example_sproto 1 _ Hso); [lia|vm_compute; reflexivity]|]. split; vm_compute; reflexivity.
Defined.
