(* ===== verification/SprotoSafe.v ===== *)
(** * Decoding of any bytes

    [ldecode] gets its bytes from the network. It reads only inside the message and ends
    with a table or a Lua error, as long as no four bytes of the message are a length that
    wraps when the size of a length is added to it. *)
From stdpp Require Import base numbers list.
From S2P Require Import Prelude CString Seri SprotoPack SprotoSchema SprotoEncode SprotoDecode SprotoWire SprotoEncodeProps SprotoDecodeProps.

(** ** Results that are a value with a property or a Lua error *)

Definition safely {A} (r : result A) (P : A → Prop) : Prop :=
  match r with Ok x => P x | Err (LuaError _) => True | Err _ => False end.
Lemma safely_bind {A B} (r : result A) (k : A → result B) P Q : safely r P → (∀ x, r = Ok x → P x → safely (k x) Q) → safely (r ≫= k) Q.
Proof. destruct r as [x|[]]; cbn; auto. Qed.
Lemma safely_mono {A} (r : result A) (P Q : A → Prop) : safely r P → (∀ x, P x → Q x) → safely r Q.
Proof. destruct r as [x|[]]; cbn; auto. Qed.
Lemma safely_for {S} (P : S → Prop) body n i (st : S) :
  P st → (∀ j st, i ≤ j < i + Z.of_nat n → P st → safely (body j st) P) → safely (c_for n i body st) P.
Proof.
  revert i st. induction n as [|n IH]; intros i st H0 Hb; cbn [c_for]; [done|]. eapply safely_bind; [apply Hb; [lia|done]|].
  intros st' _ H'. apply IH; [done|]. intros j st'' Hj. apply Hb. lia.
Qed.

Lemma get_field_set l k v k' : get_field (set_table l (VStr k) v) k' = if decide (k = k') then v else get_field l k'.
Proof.
  induction l as [|[a w] l IH]; cbn [set_table].
  - cbn. done.
  - destruct a as [| | | |s| | | |]; cbn [same_key]; try (cbn [get_field]; exact IH).
    destruct (bool_decide (k = s)) eqn:E.
    + apply bool_decide_eq_true_1 in E. subst s. cbn [get_field]. by destruct (decide (k = k')).
    + apply bool_decide_eq_false_1 in E. cbn [get_field]. destruct (decide (s = k')) as [->|]; [by rewrite decide_False|exact IH].
Qed.

(** No four bytes hold a length that wraps when four is added. *)
Definition no_wrap (m : list Z) : Prop := ∀ p v, todword m p = Ok v → v < 2 ^ 32 - SIZEOF_LENGTH.
(** Only arrays are maps. *)
Definition maps_ok (sp : sproto) : Prop :=
  Forall (λ t, Forall (λ f, f_base f = SPROTO_TSTRUCT → 0 ≤ f_key f → is_array f = true) (t_f t)) (sp_type sp).

Section Safe.
Context (sp : sproto) (m : list Z) (Hso : schema_ok sp) (Hmaps : maps_ok sp) (Hbytes : Forall byte m) (Hm : zlen m < 2 ^ 31) (Hwrap : no_wrap m).

Lemma toword_in p : 0 ≤ p → p + 2 ≤ zlen m → ∃ v, toword m p = Ok v ∧ 0 ≤ v < 65536.
Proof.
  intros Hp Hl. destruct (rd_Ok m p) as [a Ea]; [lia|]. destruct (rd_Ok m (p + 1)) as [b Eb]; [lia|].
  assert (toword m p = Ok (Z.lor a (Z.shiftl b 8))) as E by (unfold toword; by rewrite Ea, bind_Ok, Eb, bind_Ok). eexists. split; [exact E|]. by eapply toword_range.
Qed.
Lemma todword_in p : 0 ≤ p → p + 4 ≤ zlen m → ∃ v, todword m p = Ok v ∧ 0 ≤ v < 2 ^ 32 - 4.
Proof.
  intros Hp Hl. destruct (rd_Ok m p) as [a Ea]; [lia|]. destruct (rd_Ok m (p + 1)) as [b Eb]; [lia|]. destruct (rd_Ok m (p + 2)) as [c Ec]; [lia|]. destruct (rd_Ok m (p + 3)) as [d Ed]; [lia|].
  assert (∃ v, todword m p = Ok v) as [v Ev] by (eexists; unfold todword; by rewrite Ea, bind_Ok, Eb, bind_Ok, Ec, bind_Ok, Ed, bind_Ok).
  exists v. pose proof (Hwrap p v Ev). pose proof (todword_range m p v Hbytes Ev). unfold SIZEOF_LENGTH in *. split; [done|lia].
Qed.

(** ** The state between fields *)

(** The current array is a table of the result, and its field has been met. *)
Definition current (t : sproto_type) (tag : Z) (d : decode_ud) : Prop :=
  d_array_tag d = None ∨
  ∃ f l, f ∈ t_f t ∧ f_tag f ≤ tag ∧ is_array f = true ∧ d_array_tag d = faddr f ∧ d_array d = Some (fkey f) ∧ get_field (d_result d) (fkey f) = VTable l.
Lemma current_le t tag tag' d : current t tag d → tag ≤ tag' → current t tag' d.
Proof. intros [?|(f & l & H1 & H2 & H3)] Hle; [by left|]. right. exists f, l. split; [done|]. split; [lia|done]. Qed.

Section OfType.
Context (t : sproto_type) (Ht : t ∈ sp_type sp).
Lemma field_in_wf f : f ∈ t_f t → field_wf (sp_type_n sp) f.
Proof. intros Hf. by apply (proj1 (Forall_forall _ _) (tw_fields _ _ (type_wf sp Hso t Ht))). Qed.
Lemma NoDup_fmap_inj {A B} (g : A → B) l x y : NoDup (g <$> l) → x ∈ l → y ∈ l → g x = g y → x = y.
Proof.
  intros Hn [i Hi]%list_elem_of_lookup [j Hj]%list_elem_of_lookup E. assert (i = j) as <-; [|congruence].
  apply (NoDup_lookup _ _ _ (g x) Hn); rewrite list_lookup_fmap; [by rewrite Hi|]. rewrite Hj. cbn. by rewrite E.
Qed.
Lemma same_field f g : f ∈ t_f t → g ∈ t_f t → faddr f = faddr g → f = g.
Proof. intros Hf Hg E. apply (NoDup_fmap_inj faddr (t_f t)); try done. apply (tw_addr _ _ (type_wf sp Hso t Ht)). Qed.
Lemma same_fkey f g : f ∈ t_f t → g ∈ t_f t → fkey f = fkey g → f = g.
Proof. intros Hf Hg E. apply (NoDup_fmap_inj fkey (t_f t)); try done. apply (proj1 (Forall_forall _ _) (so_names _ Hso) t Ht). Qed.
Lemma current_fresh tag d f : current t tag d → f ∈ t_f t → tag < f_tag f → faddr f ≠ d_array_tag d.
Proof.
  intros [E|(g & l & Hg & Htag & _ & E & _)] Hf Hlt; rewrite E.
  - unfold faddr. pose proof (fw_name _ _ (field_in_wf f Hf)). by destruct (f_name f).
  - intros Ef. rewrite (same_field f g) in Hlt by done. lia.
Qed.

(** ** One callback *)

Record args_ok (f : field) (args : sproto_arg) : Prop := {
  ao_asks : asks args f (a_index args);
  ao_index : is_array f = true ↔ a_index args ≠ 0;
  ao_small : -1 ≤ a_index args;
  ao_value : 0 ≤ a_index args →
    (f_base f = SPROTO_TINTEGER ∨ f_base f = SPROTO_TBOOLEAN) ∧ (∃ u, a_value args = AUnion u) ∨
    (f_base f = SPROTO_TSTRING ∨ f_base f = SPROTO_TSTRUCT) ∧ ∃ off, a_value args = ABuffer off ∧ 0 ≤ off ∧ 0 ≤ a_length args ∧ off + a_length args ≤ zlen m }.

(** The array of [f] is the current one. *)
Definition open_for (f : field) (d : decode_ud) : Prop :=
  d_array_tag d = faddr f ∧ d_array d = Some (fkey f) ∧ ∃ l, get_field (d_result d) (fkey f) = VTable l.
Lemma open_current f tag d : f ∈ t_f t → f_tag f ≤ tag → is_array f = true → open_for f d → current t tag d.
Proof. intros Hf Htag Ha (H1 & H2 & l & H3). right. by exists f, l. Qed.
Lemma open_safe f args d tag :
  f ∈ t_f t → f_tag f ≤ tag → args_ok f args → current t tag d → (a_index args = -1 → faddr f ≠ d_array_tag d) →
  ∃ e d', open_array args d = Ok (e, d') ∧ current t tag d' ∧ (a_index args ≠ 0 → open_for f d') ∧ (a_index args = -1 → e = true).
Proof.
  intros Hf Htag [(A1 & _ & _ & _ & _) Ai _ _] Hc He. unfold open_array. rewrite A1. fold (faddr f). destruct (decide (a_index args ≠ 0 ∧ faddr f ≠ d_array_tag d)) as [[Hi Hn]|Hn].
  - rewrite tag_key_Ok, bind_Ok by apply (field_in_wf f Hf). eexists _, _. split; [done|].
    assert (open_for f (mk_dud (set_table (d_result d) (VStr (fkey f)) (VTable [])) (faddr f) (Some (fkey f)) (d_mainindex_tag d) (d_key d))) as Ho.
    { split; [done|]. split; [done|]. exists []. cbn. by rewrite get_field_set, decide_True. }
    split; [apply (open_current f); try done; tauto|]. split; [done|]. intros ->. done.
  - eexists false, d. split; [done|]. split; [done|]. split; [|intros E; exfalso; apply Hn; split; [lia|auto]].
    intros Hi. destruct (decide (faddr f = d_array_tag d)) as [E|]; [|tauto]. destruct Hc as [Hc|(g & l & Hg & _ & _ & Eg & Ea & El)].
    + rewrite Hc in E. unfold faddr in E. pose proof (fw_name _ _ (field_in_wf f Hf)). by destruct (f_name f).
    + assert (f = g) as -> by (apply same_field; congruence). split; [done|]. split; [done|]. by exists l.
Qed.
Lemma set_array_safe f d k x : open_for f d → ∃ d', set_array d k x = Ok d' ∧ open_for f d'.
Proof.
  intros (H1 & H2 & l & H3). unfold set_array. rewrite H2. cbn [of_option]. rewrite bind_Ok, H3. eexists. split; [done|].
  split; [done|]. split; [done|]. eexists. cbn. by rewrite get_field_set, decide_True.
Qed.
Lemma store_safe f args d tag x :
  f ∈ t_f t → f_tag f ≤ tag → args_ok f args → current t tag d → 0 ≤ a_index args → (a_index args ≠ 0 → open_for f d) →
  ∃ d', store_value args d x = Ok d' ∧ current t tag d'.
Proof.
  intros Hf Htag [(A1 & _ & _ & _ & _) Ai _ _] Hc Hi Ho. unfold store_value. destruct (decide (0 < a_index args)).
  - destruct (set_array_safe f d (VInt (a_index args)) x) as (d' & -> & Ho'); [apply Ho; lia|]. exists d'. split; [done|]. apply (open_current f); try done. apply Ai. lia.
  - rewrite A1, tag_key_Ok, bind_Ok by apply (field_in_wf f Hf). eexists. split; [done|].
    assert (is_array f = false) as Ha by (destruct (is_array f); [exfalso; apply (proj1 Ai); [done|lia]|done]).
    destruct Hc as [Hc|(g & l & Hg & Hgt & Hga & E1 & E2 & E3)]; [left; by destruct (decide (d_mainindex_tag d = _))|]. right. exists g, l.
    assert (fkey f ≠ fkey g) by (intros E; rewrite (same_fkey f g) in Ha by done; congruence).
    destruct (decide (d_mainindex_tag d = a_tagid args)); cbn; rewrite get_field_set, decide_False by done; done.
Qed.
End OfType.

(** ** Levels *)

Definition level_safe (n : nat) : Prop :=
  ∀ t off len mi, t ∈ sp_type sp → 0 ≤ off → 0 ≤ len → off + len ≤ zlen m →
    safely (sproto_decode m (decode sp m n) t off len (new_decode_ud [] mi)) (λ r, r.1 ≤ len).
Lemma got_safe n t f args :
  level_safe n → t ∈ sp_type sp → f ∈ t_f t → args_ok f args → 0 ≤ a_index args →
  safely (get_value sp m (sproto_decode m (decode sp m n)) args) (λ g, match g with GEntry _ _ => is_array f = true | _ => True end).
Proof.
  intros IH Ht Hf Ha Hi. pose proof (ao_asks _ _ Ha) as (A1 & A2 & A3 & _ & A5). pose proof (field_in_wf t Ht f Hf) as Wf.
  unfold get_value. rewrite A2. destruct (ao_value _ _ Ha Hi) as [[Hb (u & Eu)]|[Hb (off & Eo & Ho1 & Ho2 & Ho3)]].
  - unfold the_union. rewrite Eu. destruct Hb as [Hb|Hb]; rewrite Hb; [rewrite decide_True by done|rewrite decide_False, decide_True by done]; by rewrite !bind_Ok.
  - unfold the_buffer. rewrite Eo. destruct Hb as [Hb|Hb]; rewrite Hb.
    + rewrite decide_False, decide_False, decide_True by done. rewrite !bind_Ok. unfold lua_pushlstring. rewrite (decide_False (P := _ < 0)) by lia. unfold read_at. rewrite decide_True by lia. by rewrite !bind_Ok.
    + rewrite decide_False, decide_False, decide_False, decide_True by done. rewrite !bind_Ok. pose proof (fw_st _ _ Wf) as Hst. rewrite decide_True in Hst by done.
      destruct Hst as (i & Ei & Hr). rewrite A3, Ei. cbn [of_option]. rewrite bind_Ok. rewrite <- (sw_types _ (so_wf _ Hso)) in Hr. destruct (rd_Ok (sp_type sp) i) as [st Hs]; [lia|].
      rewrite Hs, bind_Ok. apply rd_Ok_inv in Hs as [_ Hs]. eapply safely_bind; [apply IH; try done; by eapply list_elem_of_lookup_2|].
      intros [r d] _ _. cbn [fst snd]. repeat case_decide; try done. destruct (d_key d); try done; cbn;
        apply (proj1 (Forall_forall _ _) (proj1 (Forall_forall _ _) Hmaps t Ht) f Hf Hb); by rewrite <- A5.
Qed.
Lemma callback_safe n t f args d tag :
  (∀ k, n = S k → level_safe k) → t ∈ sp_type sp → f ∈ t_f t → f_tag f ≤ tag → args_ok f args → current t tag d → (a_index args = -1 → faddr f ≠ d_array_tag d) →
  safely (decode sp m n args d) (λ r, current t tag r.2).
Proof.
  intros IH Ht Hf Htag Ha Hc He. destruct n as [|n]; [done|]. specialize (IH n eq_refl). cbn [decode].
  destruct (open_safe t Ht f args d tag Hf Htag Ha Hc He) as (e & d' & -> & Hc' & Ho & Hem). rewrite bind_Ok. destruct e; [done|].
  assert (0 ≤ a_index args) as Hi by (pose proof (ao_small _ _ Ha); destruct (decide (a_index args = -1)) as [E|]; [by specialize (Hem E)|lia]).
  eapply safely_bind; [by apply (got_safe n t f)|]. intros g _ Hg. destruct g as [x|k x|code].
  - destruct (store_safe t Ht f args d' tag x) as (d'' & -> & Hc''); done.
  - destruct (set_array_safe f d' k x) as (d'' & -> & Hc''); [by apply Ho, (ao_index _ _ Ha)|]. rewrite bind_Ok. by apply (open_current t f).
  - done.
Qed.

(** ** Fields *)

Section Field.
Context (n : nat) (IHn : ∀ k, n = S k → level_safe k) (t : sproto_type) (Ht : t ∈ sp_type sp) (f : field) (Hf : f ∈ t_f t).
Abbreviation args := (field_arg f (f_base f)).
Abbreviation cb := (decode sp m n).
Abbreviation fits := (current t (f_tag f)).

Lemma union_args u len index :
  f_base f = SPROTO_TINTEGER ∨ f_base f = SPROTO_TBOOLEAN → (is_array f = true ↔ index ≠ 0) → 0 ≤ index → args_ok f (with_value args (AUnion u) len index).
Proof. intros Hb Hi Hp. split; [done|done|cbn; lia|]. intros _. left. split; [done|]. by exists u. Qed.
Lemma buffer_args off len index :
  f_base f = SPROTO_TSTRING ∨ f_base f = SPROTO_TSTRUCT → (is_array f = true ↔ index ≠ 0) → 0 ≤ index → 0 ≤ off → 0 ≤ len → off + len ≤ zlen m →
  args_ok f (with_value args (ABuffer off) len index).
Proof. intros Hb Hi Hp H1 H2 H3. split; [done|done|cbn; lia|]. intros _. right. split; [done|]. by exists off. Qed.

Lemma put_union_safe u index d :
  f_base f = SPROTO_TINTEGER ∨ f_base f = SPROTO_TBOOLEAN → (is_array f = true ↔ index ≠ 0) → 0 ≤ index → fits d → safely (put_union cb args u index d) fits.
Proof.
  intros Hb Hi Hp Hc. unfold put_union. eapply safely_bind; [apply (callback_safe n t f); try done; [by apply union_args|cbn; lia]|]. by intros [r d'] _ ?.
Qed.
Lemma objects_safe fuel stream sz index d :
  is_array f = true → f_base f = SPROTO_TSTRING ∨ f_base f = SPROTO_TSTRUCT → (Z.to_nat sz ≤ fuel)%nat → 0 ≤ stream → stream + sz ≤ zlen m → 0 < index → fits d →
  safely (decode_objects m cb fuel args stream sz index d) (λ o, match o with Some d => fits d | None => True end).
Proof.
  intros Ha Hb. revert stream sz index d. induction fuel as [|fuel IH]; intros stream sz index d Hfuel Hs Hl Hi Hc; cbn [decode_objects].
  { by rewrite decide_False by lia. }
  destruct (decide (0 < sz)); [|done]. unfold SIZEOF_LENGTH. destruct (decide (sz < 4)); [done|]. destruct (todword_in stream) as (hsz & -> & Hh); [lia|lia|]. rewrite bind_Ok.
  destruct (decide (sz - 4 < hsz)); [done|]. rewrite (swrap_small 32) by lia.
  eapply safely_bind; [apply (callback_safe n t f); try done; [apply buffer_args; try done; (lia || (split; [intros _; lia|done]))|cbn; lia]|].
  intros [r d'] _ Hc'. cbn [fst snd] in *. case_decide; [done|]. apply IH; lia || done.
Qed.
Lemma decode_array_safe off sz d :
  is_array f = true → faddr f ≠ d_array_tag d → todword m off = Ok sz → 0 ≤ off → off + 4 + sz ≤ zlen m → fits d →
  safely (decode_array m cb args off d) (λ o, match o with Some d => fits d | None => True end).
Proof.
  intros Ha Hn Hsz Ho Hl Hc. pose proof (todword_range m off sz Hbytes Hsz). unfold decode_array. rewrite Hsz, bind_Ok. unfold SIZEOF_LENGTH. cbn [a_type field_arg].
  destruct (decide (sz = 0)).
  { eapply safely_bind; [apply (callback_safe n t f); try done; split; cbn; (done || lia || (split; [intros _; lia|done]) || auto)|]. by intros [r d'] _ ?. }
  assert (∀ k body, (∀ j d, 0 ≤ j < 0 + Z.of_nat k → fits d → safely (body j d) fits) → safely (ud ← c_for k 0 body d; Ok (Some ud)) (λ o, match o with Some d => fits d | None => True end)) as Hfor.
  { intros k body Hb. eapply safely_bind; [by apply safely_for|]. by intros d' _ ?. }
  destruct (decide (f_base f = SPROTO_TINTEGER)) as [Hb|Hb]; [|destruct (decide (f_base f = SPROTO_TBOOLEAN)) as [Hb1|Hb1]].
  - destruct (rd_Ok m (off + 4)) as [len Elen]; [lia|]. rewrite Elen, bind_Ok. pose proof (Z.div_mod (sz - 1) 4). pose proof (Z.div_mod (sz - 1) 8).
    pose proof (Z.mod_pos_bound (sz - 1) 4). pose proof (Z.mod_pos_bound (sz - 1) 8). repeat case_decide; try done; apply Hfor; intros j d' Hj Hc'.
    + unfold array32_body. destruct (todword_in (off + 4 + 1 + j * 4)) as (v & -> & _); [lia|lia|]. rewrite bind_Ok. apply put_union_safe; try done; [by left|split; [intros _; lia|done]|lia].
    + unfold array64_body. destruct (todword_in (off + 4 + 1 + j * 8)) as (v & -> & _); [lia|lia|]. rewrite bind_Ok. destruct (todword_in (off + 4 + 1 + j * 8 + 4)) as (v' & -> & _); [lia|lia|].
      rewrite bind_Ok. apply put_union_safe; try done; [by left|split; [intros _; lia|done]|lia].
  - apply Hfor. intros j d' Hj Hc'. unfold array_bool_body. destruct (rd_Ok m (off + 4 + j)) as [v ->]; [lia|]. rewrite bind_Ok. apply put_union_safe; try done; [by right|split; [intros _; lia|done]|lia].
  - assert (f_base f = SPROTO_TSTRING ∨ f_base f = SPROTO_TSTRUCT) as Hb2 by (destruct (field_kinds _ _ (field_in_wf t Ht f Hf)) as [Hk _]; tauto).
    rewrite decide_True by done. unfold decode_array_object. rewrite (swrap_small 32) by lia. apply objects_safe; done || lia.
Qed.
Lemma decode_data_safe off sz d :
  faddr f ≠ d_array_tag d → todword m off = Ok sz → 0 ≤ off → off + 4 + sz ≤ zlen m → fits d →
  safely (decode_data m cb f off d) (λ o, match o with Some d => fits d | None => True end).
Proof.
  intros Hn Hsz Ho Hl Hc. pose proof (todword_range m off sz Hbytes Hsz). destruct (field_kinds _ _ (field_in_wf t Ht f Hf)) as [Hk Hty]. unfold decode_data. fold (f_base f). cbv zeta.
  destruct (is_array f) eqn:Ha.
  - rewrite decide_True by (by apply bool_decide_eq_true_1 in Ha). by apply (decode_array_safe off sz).
  - rewrite decide_False by (by apply bool_decide_eq_false_1 in Ha). rewrite (Hty eq_refl). unfold SIZEOF_LENGTH. destruct (decide (f_base f = SPROTO_TINTEGER)) as [Hb|Hb].
    + assert (∀ u, safely (ud ← put_union cb args u 0 d; Ok (Some ud)) (λ o, match o with Some d => fits d | None => True end)) as Hput.
      { intros u. eapply safely_bind; [apply put_union_safe; try done; [by left|by rewrite Ha]|]. by intros d' _ ?. }
      rewrite Hsz, bind_Ok. repeat case_decide; try done.
      * destruct (todword_in (off + 4)) as (v & -> & _); [lia|lia|]. rewrite bind_Ok. apply Hput.
      * destruct (todword_in (off + 4)) as (v & -> & _); [lia|lia|]. rewrite bind_Ok. destruct (todword_in (off + 4 + 4)) as (v' & -> & _); [lia|lia|]. rewrite bind_Ok. apply Hput.
    + destruct (decide (f_base f = SPROTO_TSTRING ∨ f_base f = SPROTO_TSTRUCT)) as [Hb2|]; [|done]. rewrite Hsz, bind_Ok. rewrite (swrap_small 32) by lia.
      eapply safely_bind; [apply (callback_safe n t f); try done; apply buffer_args; try done; (by rewrite Ha) || lia|]. intros [r d'] _ Hc'. cbn [fst snd] in *. by case_decide.
Qed.
Lemma decode_value_safe v d :
  fits d → safely (decode_value cb f v d) (λ o, match o with Some d => fits d | None => True end).
Proof.
  intros Hc. unfold decode_value. case_decide as Hd; [done|]. fold (f_base f).
  assert (is_array f = false ∧ (f_base f = SPROTO_TINTEGER ∨ f_base f = SPROTO_TBOOLEAN)) as [Ha Hb].
  { unfold is_array, f_base. destruct (decide (f_type f = SPROTO_TINTEGER)) as [-> |]; [split; [done|by left]|]. destruct (decide (f_type f = SPROTO_TBOOLEAN)) as [-> |]; [split; [done|by right]|tauto]. }
  eapply safely_bind; [apply put_union_safe; try done; by rewrite Ha|]. by intros d' _ ?.
Qed.
End Field.

(** ** Messages *)

Lemma decode_words_safe n t k i stream ds size tag d :
  (∀ j, n = S j → level_safe j) → t ∈ sp_type sp → 0 ≤ stream → 0 ≤ i → stream + (i + Z.of_nat k) * 2 ≤ zlen m → 0 ≤ ds → 0 ≤ size → ds + size ≤ zlen m → current t tag d →
  safely (decode_words m (decode sp m n) k t i stream ds size tag d)
    (λ o, match o with Some (rest, d') => 0 ≤ rest ≤ size ∧ ∃ tag', current t tag' d' | None => True end).
Proof.
  intros IH Ht. revert i ds size tag d. induction k as [|k IHk]; intros i ds size tag d Hs Hi Hl Hds Hsz Hfit Hc; cbn [decode_words]; [split; [lia|by exists tag]|].
  unfold SIZEOF_FIELD, SIZEOF_LENGTH. destruct (toword_in (stream + i * 2)) as (value & -> & Hv); [lia|lia|]. rewrite bind_Ok. pose proof (Z.div_pos value 2).
  assert (∀ ds' size' tag' d', 0 ≤ ds' → 0 ≤ size' ≤ size → ds' + size' ≤ zlen m → current t tag' d' →
    safely (decode_words m (decode sp m n) k t (i + 1) stream ds' size' tag' d') (λ o, match o with Some (rest, d') => 0 ≤ rest ≤ size ∧ ∃ tag', current t tag' d' | None => True end)) as Hgo.
  { intros ds' size' tag' d' H1 H2 H3 H4. eapply safely_mono; [apply IHk; try done; lia|]. intros [[rest d'']|] Hx; [|done]. destruct Hx as [Hx1 Hx2]. split; [lia|done]. }
  destruct (decide (Z.land value 1 ≠ 0)); [apply Hgo; lia || (eapply current_le; [exact Hc|lia])|].
  destruct (findtag_spec _ t (tag + 1) (type_wf sp Hso t Ht)) as (o & Hfind & Hfo).
  destruct (decide (value / 2 - 1 < 0)) as [Hneg|Hpos].
  - destruct (decide (size < 4)); [done|]. destruct (todword_in ds) as (sz & Esz & Hr); [lia|lia|]. rewrite Esz, bind_Ok. rewrite (uwrap_small 32) by lia.
    destruct (decide (size < sz + 4)); [done|]. rewrite bind_Ok, Hfind, bind_Ok. destruct o as [f|]; [|apply Hgo; lia || (eapply current_le; [exact Hc|lia])].
    destruct Hfo as [Hf Etag]. eapply safely_bind; [apply (decode_data_safe n IH t Ht f Hf ds sz); try done; [by apply (current_fresh t Ht tag); [| |lia]|lia|eapply current_le; [exact Hc|lia]]|].
    intros [d'|] _ Hc'; [|done]. apply Hgo; try lia. eapply current_le; [exact Hc'|lia].
  - rewrite bind_Ok, Hfind, bind_Ok. destruct o as [f|]; [|apply Hgo; lia || (eapply current_le; [exact Hc|lia])]. destruct Hfo as [Hf Etag].
    eapply safely_bind; [apply (decode_value_safe n IH t Ht f Hf); eapply current_le; [exact Hc|lia]|]. intros [d'|] _ Hc'; [|done]. apply Hgo; try lia. eapply current_le; [exact Hc'|lia].
Qed.
Lemma decode_safe n t off len d :
  (∀ j, n = S j → level_safe j) → t ∈ sp_type sp → 0 ≤ off → 0 ≤ len → off + len ≤ zlen m → d_array_tag d = None →
  safely (sproto_decode m (decode sp m n) t off len d) (λ r, r.1 ≤ len).
Proof.
  intros IH Ht Ho Hlen Hl Hd. unfold sproto_decode, SIZEOF_HEADER, SIZEOF_FIELD. destruct (decide (len < 2)); [cbn; lia|].
  destruct (toword_in off) as (fn & -> & Hfn); [lia|lia|]. rewrite bind_Ok. destruct (decide (len - 2 < fn * 2)); [cbn; lia|].
  eapply safely_bind; [apply (decode_words_safe n t _ _ _ _ _ (-1)); try done; lia || by left|]. intros [[rest d']|] _ Hx; cbn; [destruct Hx as [Hx _]; lia|lia].
Qed.
Lemma level_safe_all n : level_safe n.
Proof.
  induction n as [|n IH]; intros t off len mi Ht Ho Hlen Hl; apply decode_safe; try done. by intros j [= <-].
Qed.
End Safe.

(** C25: whatever the bytes of the message are, [ldecode] with a well-formed type reads only
    inside the message, stores only into tables that are there, and ends with a table and a
    number of bytes that is not above the size, or with a Lua error; provided that no four
    bytes are a length of 2^32 - 4 or more, and that only arrays of messages have a key. *)
Theorem ldecode_reads_inside sp i t m target :
  schema_ok sp → maps_ok sp → 0 ≤ i → sp_type sp !! Z.to_nat i = Some t → Forall byte m → zlen m < 2 ^ 31 → no_wrap m →
  (∃ l r, ldecode sp i m target = Ok (l, r) ∧ 0 ≤ r ≤ zlen m) ∨ ∃ code, ldecode sp i m target = Err (LuaError code).
Proof.
  intros Hso Hmaps Hi Ht Hb Hm Hw. pose proof (zlen_nonneg m).
  assert (safely (ldecode sp i m target) (λ x, 0 ≤ x.2 ≤ zlen m)) as Hs.
  { unfold ldecode. rewrite (rd_lookup _ _ t), bind_Ok by done. rewrite (swrap_small 32) by lia.
    eapply safely_bind; [apply (decode_safe sp m Hso Hmaps Hb Hm Hw); try done; [intros; by apply level_safe_all|by eapply list_elem_of_lookup_2]|].
    intros [r d] _ Hr. cbn in Hr. case_decide; cbn; [done|lia]. }
  destruct (ldecode sp i m target) as [[l r]|[]]; cbn in Hs; try done; [left; by exists l, r|right; by eexists].
Qed.

Lemma no_wrap_check m :
  forallb (λ p, match todword m (Z.of_nat p) with Ok v => bool_decide (v < 2 ^ 32 - SIZEOF_LENGTH) | Err _ => true end) (seq 0 (length m)) = true → no_wrap m.
Proof.
  intros H p v E. assert (0 ≤ p < zlen m) as Hp by (unfold todword in E; apply bind_Ok_inv in E as (a & Ha & _); by apply rd_Ok_inv in Ha as [? _]).
  rewrite forallb_forall in H. specialize (H (Z.to_nat p)). rewrite Z2Nat.id, E in H by lia. apply (bool_decide_eq_true_1 _), H, in_seq. unfold zlen in Hp. lia.
Qed.
(** A message that is cut off, and a whole one. *)
Definition cut_message : list Z := [1; 0; 0; 0; 200; 0; 0; 0; 65].
Lemma ldecode_reads_inside_witness :
  ((∃ l r, ldecode example_sproto 1 cut_message [] = Ok (l, r) ∧ 0 ≤ r ≤ 9) ∨ ∃ code, ldecode example_sproto 1 cut_message [] = Err (LuaError code)) ∧
  ldecode example_sproto 1 cut_message [] = Err (LuaError 0) ∧
  ldecode example_sproto 1 [1; 0; 0; 0; 1; 0; 0; 0; 65] [] = Ok ([(VStr [110; 97; 109; 101], VStr [65])], 9).
Proof.
  split; [|split; vm_compute; reflexivity]. eapply (ldecode_reads_inside example_sproto 1).
  - exact example_schema_ok.
  - apply (bool_decide_eq_true_1 _). vm_compute. reflexivity.
  - lia.
  - vm_compute. reflexivity.
  - apply (bool_decide_eq_true_1 _). vm_compute. reflexivity.
  - vm_compute. reflexivity.
  - apply no_wrap_check. vm_compute. reflexivity.
Defined.

(** A length of 2^32 - 4 wraps to 0 in the check of the size. For a string it is a negative
    [int], which [lua_pushlstring] refuses; the array of integers is read behind the message. *)
Example wrapped_length_string : ldecode example_sproto 1 [1; 0; 0; 0; 252; 255; 255; 255] [] = Err (LuaError 0).
Proof. vm_compute. reflexivity. Qed.
Example wrapped_length_overreads : ldecode example_sproto 1 [2; 0; 9; 0; 0; 0; 252; 255; 255; 255] [] = Err OutOfBounds.
Proof. vm_compute. reflexivity. Qed.
(** An array that is widened in a buffer that is too small is written behind the buffer. *)
Example widening_overruns :
  @lencode no_numbers example_sproto 1 (VTable [(VStr [108; 111; 103], VTable (((λ i, (VInt (Z.of_nat i), VInt 1)) <$> seq 1 300) ++ [(VInt 301, VInt (2 ^ 40))]))])
    (replicate 2050 0) = Err OutOfBounds.
Proof. vm_compute. reflexivity. Qed.
