(* ===== verification/Cluster.v ===== *)
(** * Messages between clusters: lualib-src/lua-cluster.c

    Requests and responses as the strings that clusters send to each other, in one piece or
    in parts of 32K. The buffer on the C stack and the message block are lists of bytes;
    freeing the block is not part of the model. The theorems: what one side packs the other
    side unpacks, and the parts put together are the message. *)
From stdpp Require Import base numbers list.
From S2P Require Import Prelude CString Seri SprotoPack SprotoSchema SprotoEncode SprotoWire SprotoEncodeProps SprotoDecodeProps Netpack.

Definition TEMP_LENGTH : Z := 0x8200.
Definition MULTI_PART : Z := 0x8000.
Definition temp_buf : list Z := replicate (Z.to_nat TEMP_LENGTH) 0.

(** ** Packing *)

Definition fill_uint32 (buf : list Z) (p n : Z) : result (list Z) :=
  write_at buf p [Z.land n 0xff; Z.land (Z.shiftr n 8) 0xff; Z.land (Z.shiftr n 16) 0xff; Z.land (Z.shiftr n 24) 0xff].
Definition fill_header (buf : list Z) (sz : Z) : result (list Z) :=
  c_assert (bool_decide (sz < 0x10000));;
  write_at buf 0 [Z.land (Z.shiftr sz 8) 0xff; Z.land sz 0xff].

(** The string and the number of parts that follow it. *)
Definition packreq_number (addr session : Z) (msg : list Z) (sz : Z) : result (list Z * Z) :=
  let buf := temp_buf in
  if decide (sz < MULTI_PART) then
    buf ← fill_header buf (sz + 9);
    buf ← wr buf 2 0;
    buf ← fill_uint32 buf 3 addr;
    buf ← fill_uint32 buf 7 (u32 session);
    bytes ← read_at msg 0 sz;
    buf ← write_at buf 11 bytes;
    s ← read_at buf 0 (sz + 11);
    Ok (s, 0)
  else
    let part := (sz - 1) / MULTI_PART + 1 in
    buf ← fill_header buf 13;
    buf ← wr buf 2 1;
    buf ← fill_uint32 buf 3 addr;
    buf ← fill_uint32 buf 7 (u32 session);
    buf ← fill_uint32 buf 11 sz;
    s ← read_at buf 0 15;
    Ok (s, part).
Definition packreq_string (name : option (list Z)) (session : Z) (msg : list Z) (sz : Z) : result (list Z * Z) :=
  match name with
  | None => Err (LuaError 0)
  | Some name =>
      let namelen := zlen name in
      if decide (namelen < 1 ∨ 255 < namelen) then Err (LuaError 0)
      else
        let buf := temp_buf in
        if decide (sz < MULTI_PART) then
          buf ← fill_header buf (sz + 6 + namelen);
          buf ← wr buf 2 0x80;
          buf ← wr buf 3 (u8 namelen);
          buf ← write_at buf 4 name;
          buf ← fill_uint32 buf (4 + namelen) (u32 session);
          bytes ← read_at msg 0 sz;
          buf ← write_at buf (8 + namelen) bytes;
          s ← read_at buf 0 (sz + 8 + namelen);
          Ok (s, 0)
        else
          let part := (sz - 1) / MULTI_PART + 1 in
          buf ← fill_header buf (10 + namelen);
          buf ← wr buf 2 0x81;
          buf ← wr buf 3 (u8 namelen);
          buf ← write_at buf 4 name;
          buf ← fill_uint32 buf (4 + namelen) (u32 session);
          buf ← fill_uint32 buf (8 + namelen) sz;
          s ← read_at buf 0 (12 + namelen);
          Ok (s, part)
  end.
(** One part of [s] bytes at [ptr]: the string and the buffer. *)
Definition request_part (session : Z) (msg : list Z) (more : bool) (ptr s : Z) (buf : list Z) : result (list Z * list Z) :=
  buf ← wr buf 2 (if more then 2 else 3);
  buf ← fill_header buf (s + 5);
  buf ← fill_uint32 buf 3 (u32 session);
  bytes ← read_at msg ptr s;
  buf ← write_at buf 7 bytes;
  str ← read_at buf 0 (s + 7);
  Ok (str, buf).
(** [n] parts of the message from [ptr] on, of which [sz] bytes are left. *)
Fixpoint multi_loop (n : nat) (session : Z) (msg : list Z) (ptr sz : Z) (buf : list Z) : result (list (list Z)) :=
  match n with
  | O => Ok []
  | S n =>
      let s := if decide (MULTI_PART < sz) then MULTI_PART else sz in
      r ← request_part session msg (bool_decide (MULTI_PART < sz)) ptr s buf;
      rest ← multi_loop n session msg (ptr + s) (sz - s) r.2;
      Ok (r.1 :: rest)
  end.
Definition packreq_multi (session : Z) (msg : list Z) (sz : Z) : result (list (list Z)) :=
  multi_loop (Z.to_nat ((sz - 1) / MULTI_PART + 1)) session msg 0 sz temp_buf.

(** The request, the next session and the parts. *)
Definition lpackrequest {LN : LuaNumbers} (addr : lvalue) (session : Z) (msg : list Z) (sz : Z) : result (list Z * Z * option (list (list Z))) :=
  let sz := u32 sz in
  let session := s32 session in
  if decide (session ≤ 0) then Err (LuaError 0)
  else
    r ← match addr with
        | VInt i => packreq_number (u32 i) session msg sz
        | VReal r => packreq_number (u32 (default 0 (real2int r))) session msg sz
        | VStr name => packreq_string (Some name) session msg sz
        | _ => packreq_string None session msg sz
        end;
    let '(s, multipak) := r in
    next ← c_int (session + 1);
    let next := if decide (next < 0) then 1 else next in
    if decide (multipak ≠ 0) then parts ← packreq_multi session msg sz; Ok (s, next, Some parts)
    else Ok (s, next, None).

(** ** Unpacking: the results on the Lua stack *)

Section Unpack.
Context (buf : list Z).
Definition unpack_uint32 (p : Z) : result Z :=
  a ← rd buf p; b ← rd buf (p + 1); c ← rd buf (p + 2); d ← rd buf (p + 3);
  Ok (Z.lor (Z.lor (Z.lor a (Z.shiftl b 8)) (Z.shiftl c 16)) (u32 (Z.shiftl d 24))).

Definition unpackreq_number (sz : Z) : result (list lvalue) :=
  if decide (sz < 9) then Err (LuaError 0)
  else
    address ← unpack_uint32 1;
    session ← unpack_uint32 5;
    s ← read_at buf 9 (sz - 9);
    Ok [VInt address; VInt session; VStr s].
Definition unpackmreq_number (sz : Z) : result (list lvalue) :=
  if decide (sz ≠ 13) then Err (LuaError 0)
  else
    address ← unpack_uint32 1;
    session ← unpack_uint32 5;
    size ← unpack_uint32 9;
    Ok [VInt address; VInt session; VInt size; VBool true].
Definition unpackmreq_part (sz : Z) : result (list lvalue) :=
  if decide (sz < 5) then Err (LuaError 0)
  else
    type ← rd buf 0;
    session ← unpack_uint32 1;
    s ← read_at buf 5 (sz - 5);
    Ok [VBool false; VInt session; VStr s; VBool (bool_decide (type = 2))].
Definition unpackreq_string (sz : Z) : result (list lvalue) :=
  if decide (sz < 2) then Err (LuaError 0)
  else
    namesz ← rd buf 1;
    if decide (sz < namesz + 6) then Err (LuaError 0)
    else
      name ← read_at buf 2 namesz;
      session ← unpack_uint32 (namesz + 2);
      s ← read_at buf (2 + namesz + 4) (sz - namesz - 6);
      Ok [VStr name; VInt session; VStr s].
Definition unpackmreq_string (sz : Z) : result (list lvalue) :=
  if decide (sz < 2) then Err (LuaError 0)
  else
    namesz ← rd buf 1;
    if decide (sz < namesz + 10) then Err (LuaError 0)
    else
      name ← read_at buf 2 namesz;
      session ← unpack_uint32 (namesz + 2);
      size ← unpack_uint32 (namesz + 6);
      Ok [VStr name; VInt session; VInt size; VBool true].
End Unpack.
(** A Lua string has a NUL behind it, which is the first byte of an empty one. *)
Definition lunpackrequest (msg : list Z) : result (list lvalue) :=
  let sz := s32 (zlen msg) in
  type ← rd (msg ++ [0]) 0;
  if decide (type = 0) then unpackreq_number msg sz
  else if decide (type = 1) then unpackmreq_number msg sz
  else if decide (type = 2 ∨ type = 3) then unpackmreq_part msg sz
  else if decide (type = 0x80) then unpackreq_string msg sz
  else if decide (type = 0x81) then unpackmreq_string msg sz
  else Err (LuaError 0).

(** ** Responses *)

Definition response_part (session : Z) (msg : list Z) (more : bool) (ptr s : Z) (buf : list Z) : result (list Z * list Z) :=
  buf ← wr buf 6 (if more then 3 else 4);
  buf ← fill_header buf (s + 5);
  buf ← fill_uint32 buf 2 session;
  bytes ← read_at msg ptr s;
  buf ← write_at buf 7 bytes;
  str ← read_at buf 0 (s + 7);
  Ok (str, buf).
Fixpoint response_loop (n : nat) (session : Z) (msg : list Z) (ptr sz : Z) (buf : list Z) : result (list (list Z)) :=
  match n with
  | O => Ok []
  | S n =>
      let s := if decide (MULTI_PART < sz) then MULTI_PART else sz in
      r ← response_part session msg (bool_decide (MULTI_PART < sz)) ptr s buf;
      rest ← response_loop n session msg (ptr + s) (sz - s) r.2;
      Ok (r.1 :: rest)
  end.
(** A string, or a table of strings. *)
Definition lpackresponse (session : Z) (ok : bool) (msg : list Z) (sz : Z) : result (list Z + list (list Z)) :=
  let session := u32 session in
  if decide (ok = true ∧ MULTI_PART < sz) then
    let part := s32 ((sz - 1) / MULTI_PART + 1) in
    buf ← fill_header temp_buf 9;
    buf ← fill_uint32 buf 2 session;
    buf ← wr buf 6 2;
    buf ← fill_uint32 buf 7 (u32 sz);
    first ← read_at buf 0 11;
    rest ← response_loop (Z.to_nat part) session msg 0 sz buf;
    Ok (inr (first :: rest))
  else
    let sz := if decide (MULTI_PART < sz) then MULTI_PART else sz in
    buf ← fill_header temp_buf (sz + 5);
    buf ← fill_uint32 buf 2 session;
    buf ← wr buf 6 (if ok then 1 else 0);
    bytes ← read_at msg 0 sz;
    buf ← write_at buf 7 bytes;
    s ← read_at buf 0 (sz + 7);
    Ok (inl s).
Definition lunpackresponse (buf : list Z) : result (list lvalue) :=
  let sz := zlen buf in
  if decide (sz < 5) then Ok []
  else
    session ← unpack_uint32 buf 0;
    type ← rd buf 4;
    if decide (type = 0) then s ← read_at buf 5 (sz - 5); Ok [VInt session; VBool false; VStr s]
    else if decide (type = 1 ∨ type = 4) then s ← read_at buf 5 (sz - 5); Ok [VInt session; VBool true; VStr s]
    else if decide (type = 2) then
      if decide (sz ≠ 9) then Ok []
      else size ← unpack_uint32 buf 5; Ok [VInt session; VBool true; VInt size; VBool true]
    else if decide (type = 3) then s ← read_at buf 5 (sz - 5); Ok [VInt session; VBool true; VStr s; VBool true]
    else Ok [].

(** ** [lconcat]: the size and the parts of a table put together. [skynet_malloc] aborts
    for the size a negative int becomes. *)
Fixpoint concat_loop (parts : list lvalue) (sz offset : Z) (buff : list Z) : result (option (Z * list Z)) :=
  match parts with
  | VStr str :: parts =>
      if decide (sz < zlen str + offset) then Ok None
      else buff ← write_at buff offset str; concat_loop parts sz (offset + zlen str) buff
  | _ => Ok (Some (offset, buff))
  end.
Definition lconcat {LN : LuaNumbers} (t : list lvalue) : result (option (list Z)) :=
  match t with
  | (VInt _ | VReal _) as x :: parts =>
      let sz := s32 (default 0 (lua_tointegerx x)) in
      if decide (sz < 0) then Err AssertFailed
      else
        r ← concat_loop parts sz 0 (replicate (Z.to_nat sz) 0);
        Ok (match r with None => None | Some (offset, buff) => if decide (offset ≠ sz) then None else Some buff end)
  | _ => Ok None
  end.

(** ** Strings built in the buffer *)

(** The bytes of a buffer up to a pointer. *)
Lemma put_next buf pre p l :
  holds buf 0 pre → p = zlen pre → p + zlen l ≤ zlen buf → ∃ buf', write_at buf p l = Ok buf' ∧ zlen buf' = zlen buf ∧ holds buf' 0 (pre ++ l).
Proof.
  intros Hp -> Hl. pose proof (zlen_nonneg pre). destruct (write_spec buf (zlen pre) l) as (buf' & E & F & H1 & H2); [lia|lia|].
  exists buf'. split; [done|]. split; [by apply frame_zlen in F|]. apply holds_app. split; [apply H2; [done|lia]|done].
Qed.
Lemma put_byte buf pre p x :
  holds buf 0 pre → p = zlen pre → p + 1 ≤ zlen buf → ∃ buf', wr buf p x = Ok buf' ∧ zlen buf' = zlen buf ∧ holds buf' 0 (pre ++ [x]).
Proof. intros. rewrite wr_write. by apply put_next. Qed.
Lemma temp_zlen : zlen temp_buf = TEMP_LENGTH.
Proof. unfold temp_buf. rewrite zlen_replicate. unfold TEMP_LENGTH. lia. Qed.

Definition head (sz : Z) : list Z := [Z.land (Z.shiftr sz 8) 0xff; Z.land sz 0xff].
Lemma put_header buf sz : sz < 0x10000 → 2 ≤ zlen buf → ∃ buf', fill_header buf sz = Ok buf' ∧ zlen buf' = zlen buf ∧ holds buf' 0 (head sz).
Proof.
  intros Hs Hl. unfold fill_header. rewrite c_assert_true, bind_Ok by (by apply bool_decide_eq_true_2). apply (put_next buf [] 0 (head sz)); [by apply holds_nil|done|].
  unfold zlen in *. cbn. lia.
Qed.
Lemma put_uint32 buf pre p n :
  holds buf 0 pre → p = zlen pre → p + 4 ≤ zlen buf → ∃ buf', fill_uint32 buf p n = Ok buf' ∧ zlen buf' = zlen buf ∧ holds buf' 0 (pre ++ le32 n).
Proof. intros Hp E Hl. apply (put_next buf pre p (le32 n)); [done|done|]. by rewrite le32_zlen. Qed.
Lemma take_string buf s n : holds buf 0 s → n = zlen s → n ≤ zlen buf → read_at buf 0 n = Ok s.
Proof. intros Hs -> Hl. by apply holds_read. Qed.
Lemma read_block msg ptr s : 0 ≤ ptr → 0 ≤ s → ptr + s ≤ zlen msg → read_at msg ptr s = Ok (take (Z.to_nat s) (drop (Z.to_nat ptr) msg)).
Proof. intros. unfold read_at. by rewrite decide_True by lia. Qed.
Lemma read_whole msg : read_at msg 0 (zlen msg) = Ok msg.
Proof. apply holds_read; [apply holds_self|lia]. Qed.
Lemma packet_eq sz l : sz = zlen l → sz < 0x10000 → head sz ++ l = packet l.
Proof.
  intros -> Hl. pose proof (zlen_nonneg l). unfold head, packet. do 2 f_equal; [|f_equal].
  - change 0xff with (2 ^ 8 - 1). rewrite land_ones_mod, Z.shiftr_div_pow2 by lia. change (2 ^ 8) with 256. apply Z.mod_small. split; [apply Z.div_pos; lia|apply Z.div_lt_upper_bound; lia].
  - change 0xff with (2 ^ 8 - 1). by rewrite land_ones_mod by lia.
Qed.

Lemma head_zlen sz : zlen (head sz) = 2.
Proof. done. Qed.
Lemma zlen_one (x : Z) : zlen [x] = 1.
Proof. done. Qed.
Ltac lengths := rewrite ?zlen_app, ?head_zlen, ?le32_zlen, ?zlen_one in *; try unfold TEMP_LENGTH, MULTI_PART in *; try lia.
(** One write behind what is in the buffer, or the string at the end. *)
Ltac fill :=
  match goal with
  | |- context [fill_header ?b ?n] => let b' := fresh "b" in destruct (put_header b n) as (b' & -> & ?Z & ?H); [lengths|lengths|]; rewrite bind_Ok
  | H : holds ?b 0 ?pre |- context [fill_uint32 ?b ?p ?n] => let b' := fresh "b" in destruct (put_uint32 b pre p n H) as (b' & -> & ?Z & ?H); [lengths|lengths|]; rewrite bind_Ok
  | H : holds ?b 0 ?pre |- context [wr ?b ?p ?x] => let b' := fresh "b" in destruct (put_byte b pre p x H) as (b' & -> & ?Z & ?H); [lengths|lengths|]; rewrite bind_Ok
  | H : holds ?b 0 ?pre |- context [write_at ?b ?p ?l] => let b' := fresh "b" in destruct (put_next b pre p l H) as (b' & -> & ?Z & ?H); [lengths|lengths|]; rewrite bind_Ok
  | H : holds ?b 0 ?pre |- context [read_at ?b 0 ?n] => rewrite (take_string b pre n H); [rewrite bind_Ok|lengths|lengths]
  end.

Lemma packreq_number_single a s msg :
  zlen msg < MULTI_PART → packreq_number a s msg (zlen msg) = Ok (packet ([0] ++ le32 a ++ le32 (u32 s) ++ msg), 0).
Proof.
  intros Hl. pose proof temp_zlen. pose proof (zlen_nonneg msg). unfold packreq_number. rewrite decide_True by done. do 4 fill. rewrite read_whole, bind_Ok. do 2 fill.
  rewrite <- !app_assoc. rewrite packet_eq by lengths. done.
Qed.
Lemma packreq_number_multi a s msg :
  MULTI_PART ≤ zlen msg → packreq_number a s msg (zlen msg) = Ok (packet ([1] ++ le32 a ++ le32 (u32 s) ++ le32 (zlen msg)), (zlen msg - 1) / MULTI_PART + 1).
Proof.
  intros Hl. pose proof temp_zlen. unfold packreq_number. rewrite decide_False by lia. do 6 fill. rewrite <- !app_assoc. rewrite packet_eq by lengths. done.
Qed.
Lemma packreq_string_single name s msg :
  1 ≤ zlen name ≤ 255 → zlen msg < MULTI_PART →
  packreq_string (Some name) s msg (zlen msg) = Ok (packet ([0x80] ++ [zlen name] ++ name ++ le32 (u32 s) ++ msg), 0).
Proof.
  intros Hn Hl. pose proof temp_zlen. pose proof (zlen_nonneg msg). unfold packreq_string. rewrite decide_False by lia. rewrite decide_True by done. rewrite (uwrap_small 8) by lia.
  do 5 fill. rewrite read_whole, bind_Ok. do 2 fill. rewrite <- !app_assoc. rewrite packet_eq by lengths. done.
Qed.
Lemma packreq_string_multi name s msg :
  1 ≤ zlen name ≤ 255 → MULTI_PART ≤ zlen msg →
  packreq_string (Some name) s msg (zlen msg) = Ok (packet ([0x81] ++ [zlen name] ++ name ++ le32 (u32 s) ++ le32 (zlen msg)), (zlen msg - 1) / MULTI_PART + 1).
Proof.
  intros Hn Hl. pose proof temp_zlen. unfold packreq_string. rewrite decide_False by lia. rewrite decide_False by lia. rewrite (uwrap_small 8) by lia.
  do 7 fill. rewrite <- !app_assoc. rewrite packet_eq by lengths. done.
Qed.

(** ** Parts *)

(** The parts of a message, each with whether another one follows. *)
Fixpoint pieces (n : nat) (l : list Z) : list (bool * list Z) :=
  match n with
  | O => []
  | S O => [(false, l)]
  | S n => (true, take (Z.to_nat MULTI_PART) l) :: pieces n (drop (Z.to_nat MULTI_PART) l)
  end.
Lemma pieces_S n l : pieces (S (S n)) l = (true, take (Z.to_nat MULTI_PART) l) :: pieces (S n) (drop (Z.to_nat MULTI_PART) l).
Proof. done. Qed.
Definition part_count (sz : Z) : nat := Z.to_nat ((sz - 1) / MULTI_PART + 1).
Lemma part_count_bounds sz : 0 < sz → (0 < part_count sz)%nat ∧ (Z.of_nat (part_count sz) - 1) * MULTI_PART < sz ≤ Z.of_nat (part_count sz) * MULTI_PART.
Proof.
  intros H. unfold part_count, MULTI_PART. pose proof (Z.div_mod (sz - 1) 0x8000). pose proof (Z.mod_pos_bound (sz - 1) 0x8000). pose proof (Z.div_pos (sz - 1) 0x8000). lia.
Qed.
Lemma parts_nonzero sz : ¬ sz < MULTI_PART → (sz - 1) / MULTI_PART + 1 ≠ 0.
Proof. unfold MULTI_PART. intros H. pose proof (Z.div_pos (sz - 1) 0x8000). lia. Qed.
Lemma pieces_concat n l : (0 < n)%nat → concat (snd <$> pieces n l) = l.
Proof.
  intros Hn. revert l. induction n as [|[|n] IH]; intros l; [lia|cbn; by rewrite app_nil_r|]. rewrite pieces_S, fmap_cons. cbn [concat snd].
  rewrite IH by lia. apply take_drop.
Qed.
Lemma pieces_short n l : zlen l ≤ Z.of_nat n * MULTI_PART → Forall (λ x, zlen x.2 ≤ MULTI_PART) (pieces n l).
Proof.
  revert l. induction n as [|[|n] IH]; intros l Hl; [constructor|constructor; [cbn; lia|constructor]|].
  rewrite pieces_S. constructor.
  - cbn. unfold zlen. rewrite length_take. unfold MULTI_PART. lia.
  - apply IH. unfold zlen in *. rewrite length_drop. unfold MULTI_PART in *. lia.
Qed.

(** What the loops have in common: [one] writes a part into the buffer and takes the string. *)
Lemma parts_spec (loop : nat → Z → Z → list Z → result (list (list Z))) (one : bool → Z → Z → list Z → result (list Z * list Z)) (body : bool → list Z → list Z) msg :
  (∀ ptr sz buf, loop O ptr sz buf = Ok []) →
  (∀ n ptr sz buf, loop (S n) ptr sz buf =
     let s := if decide (MULTI_PART < sz) then MULTI_PART else sz in
     r ← one (bool_decide (MULTI_PART < sz)) ptr s buf; rest ← loop n (ptr + s) (sz - s) r.2; Ok (r.1 :: rest)) →
  (∀ more ptr s buf, zlen buf = TEMP_LENGTH → 0 ≤ ptr → 0 ≤ s ≤ MULTI_PART → ptr + s ≤ zlen msg →
     ∃ buf', one more ptr s buf = Ok (packet (body more (take (Z.to_nat s) (drop (Z.to_nat ptr) msg))), buf') ∧ zlen buf' = TEMP_LENGTH) →
  ∀ n ptr sz buf, zlen buf = TEMP_LENGTH → (0 < n)%nat → 0 ≤ ptr → ptr + sz = zlen msg → (Z.of_nat n - 1) * MULTI_PART < sz ≤ Z.of_nat n * MULTI_PART →
  loop n ptr sz buf = Ok ((λ x, packet (body x.1 x.2)) <$> pieces n (drop (Z.to_nat ptr) msg)).
Proof.
  intros H0 HS Hone n. induction n as [|n IH]; intros ptr sz buf Hz Hn Hp Hsz Hb; [lia|]. rewrite HS. cbv zeta. destruct n as [|n].
  - rewrite decide_False, bool_decide_eq_false_2 by (unfold MULTI_PART in *; lia). destruct (Hone false ptr sz buf) as (buf' & -> & Hz'); [done|done|unfold MULTI_PART in *; lia|lia|].
    rewrite bind_Ok, H0, bind_Ok. cbn. rewrite take_ge; [done|]. rewrite length_drop. unfold zlen in Hsz. lia.
  - rewrite decide_True, bool_decide_eq_true_2 by (unfold MULTI_PART in *; lia). destruct (Hone true ptr MULTI_PART buf) as (buf' & -> & Hz'); [done|done|unfold MULTI_PART in *; lia|unfold MULTI_PART in *; lia|].
    rewrite bind_Ok. cbn [fst snd]. rewrite IH by (unfold MULTI_PART in *; done || lia). rewrite bind_Ok.
    rewrite pieces_S, fmap_cons, drop_drop. cbn [fst snd]. by replace (Z.to_nat (ptr + MULTI_PART)) with (Z.to_nat ptr + Z.to_nat MULTI_PART)%nat by (unfold MULTI_PART; lia).
Qed.

Definition request_body (session : Z) (more : bool) (c : list Z) : list Z := [if more then 2 else 3] ++ le32 (u32 session) ++ c.
Definition response_body (session : Z) (more : bool) (c : list Z) : list Z := le32 session ++ [if more then 3 else 4] ++ c.

(** The type is written first, the header over the bytes in front of it. *)
Lemma header_keeps buf sz p l : holds buf p l → 2 ≤ p → sz < 0x10000 → 2 ≤ zlen buf → ∃ buf', fill_header buf sz = Ok buf' ∧ zlen buf' = zlen buf ∧ holds buf' 0 (head sz) ∧ holds buf' p l.
Proof.
  intros Hh Hp Hs Hl. unfold fill_header. rewrite c_assert_true, bind_Ok by (by apply bool_decide_eq_true_2). destruct (write_spec buf 0 (head sz)) as (b & E & F & H1 & H2); [done|rewrite head_zlen; lia|].
  exists b. split; [done|]. split; [by apply frame_zlen in F|]. split; [done|]. apply H2; [done|]. rewrite head_zlen. lia.
Qed.
Lemma write_byte buf p x : 0 ≤ p < zlen buf → ∃ buf', wr buf p x = Ok buf' ∧ zlen buf' = zlen buf ∧ holds buf' p [x].
Proof.
  intros Hp. rewrite wr_write. destruct (write_spec buf p [x]) as (b & E & F & H1 & _); [lia|rewrite zlen_one; lia|]. exists b. split; [done|]. split; [by apply frame_zlen in F|done].
Qed.
Lemma block_zlen (msg : list Z) ptr s : 0 ≤ ptr → 0 ≤ s → ptr + s ≤ zlen msg → zlen (take (Z.to_nat s) (drop (Z.to_nat ptr) msg)) = s.
Proof. intros. unfold zlen in *. rewrite length_take, length_drop. lia. Qed.
Lemma request_part_spec session msg more ptr s buf :
  zlen buf = TEMP_LENGTH → 0 ≤ ptr → 0 ≤ s ≤ MULTI_PART → ptr + s ≤ zlen msg →
  ∃ buf', request_part session msg more ptr s buf = Ok (packet (request_body session more (take (Z.to_nat s) (drop (Z.to_nat ptr) msg))), buf') ∧ zlen buf' = TEMP_LENGTH.
Proof.
  intros Hz Hp Hs Hl. unfold request_part. set (c := take _ _). assert (zlen c = s) as Hc by (apply block_zlen; lia).
  destruct (write_byte buf 2 (if more then 2 else 3)) as (b1 & -> & Z1 & H1); [lengths|]. rewrite bind_Ok.
  destruct (header_keeps b1 (s + 5) 2 _ H1) as (b2 & -> & Z2 & H2 & H3); [lia|lengths|lengths|]. rewrite bind_Ok.
  assert (holds b2 0 (head (s + 5) ++ [if more then 2 else 3])) as H4 by (by apply holds_app). clear H1 H2 H3. fill. rewrite read_block, bind_Ok by lia. fold c. do 2 fill.
  rewrite <- !app_assoc. rewrite packet_eq by lengths. eexists. split; [done|lengths].
Qed.
Lemma response_part_spec session msg more ptr s buf :
  zlen buf = TEMP_LENGTH → 0 ≤ ptr → 0 ≤ s ≤ MULTI_PART → ptr + s ≤ zlen msg →
  ∃ buf', response_part session msg more ptr s buf = Ok (packet (response_body session more (take (Z.to_nat s) (drop (Z.to_nat ptr) msg))), buf') ∧ zlen buf' = TEMP_LENGTH.
Proof.
  intros Hz Hp Hs Hl. unfold response_part. set (c := take _ _). assert (zlen c = s) as Hc by (apply block_zlen; lia).
  destruct (write_byte buf 6 (if more then 3 else 4)) as (b1 & -> & Z1 & H1); [lengths|]. rewrite bind_Ok.
  destruct (header_keeps b1 (s + 5) 6 _ H1) as (b2 & -> & Z2 & H2 & H3); [lia|lengths|lengths|]. rewrite bind_Ok.
  unfold fill_uint32. change [Z.land session 0xff; Z.land (Z.shiftr session 8) 0xff; Z.land (Z.shiftr session 16) 0xff; Z.land (Z.shiftr session 24) 0xff] with (le32 session).
  destruct (write_spec b2 2 (le32 session)) as (b3 & -> & F3 & H4 & H5); [lia|lengths|]. rewrite bind_Ok. apply frame_zlen in F3.
  assert (holds b3 0 ((head (s + 5) ++ le32 session) ++ [if more then 3 else 4])) as H6.
  { rewrite <- app_assoc. apply holds_app. split; [apply H5; [done|lengths]|]. apply holds_app. split; [done|]. rewrite head_zlen, le32_zlen. apply H5; [done|lengths]. }
  clear H1 H2 H3 H4 H5. rewrite read_block, bind_Ok by lia. fold c. do 2 fill. rewrite <- !app_assoc. rewrite packet_eq by lengths. eexists. split; [done|lengths].
Qed.

Lemma packreq_multi_spec session msg :
  0 < zlen msg → packreq_multi session msg (zlen msg) = Ok ((λ x, packet (request_body session x.1 x.2)) <$> pieces (part_count (zlen msg)) msg).
Proof.
  intros Hl. destruct (part_count_bounds (zlen msg) Hl) as [Hn Hb]. unfold packreq_multi. fold (part_count (zlen msg)).
  rewrite (parts_spec (λ n, multi_loop n session msg) (request_part session msg) (request_body session) msg); try done. by apply request_part_spec.
Qed.
Lemma response_loop_spec session msg buf :
  0 < zlen msg → zlen buf = TEMP_LENGTH →
  response_loop (part_count (zlen msg)) session msg 0 (zlen msg) buf = Ok ((λ x, packet (response_body session x.1 x.2)) <$> pieces (part_count (zlen msg)) msg).
Proof.
  intros Hl Hz. destruct (part_count_bounds (zlen msg) Hl) as [Hn Hb].
  rewrite (parts_spec (λ n, response_loop n session msg) (response_part session msg) (response_body session) msg); try done. by apply response_part_spec.
Qed.

(** ** Unpacking reads the bodies *)

Lemma unpack_le32 m p v : holds m p (le32 v) → unpack_uint32 m p = Ok (u32 v).
Proof. apply todword_le32. Qed.
Lemma read_rest m p l n : holds m p l → n = zlen l → p + n ≤ zlen m → read_at m p n = Ok l.
Proof. intros Hh -> Hl. by apply holds_read. Qed.
Lemma rd_at m p x : holds m p [x] → rd m p = Ok x.
Proof. intros Hh. pose proof (holds_rd m p [x] 0 x Hh eq_refl) as H. by rewrite Z.add_0_r in H. Qed.
Lemma rd_first (x : Z) l : rd ((x :: l) ++ [0]) 0 = Ok x.
Proof. by apply rd_lookup. Qed.
(** Split the bytes of a message where they were joined. *)
Ltac split_holds m :=
  let Hs := fresh "Hs" in pose proof (holds_self m) as Hs; unfold m in Hs at 2;
  repeat match goal with H : holds m _ (_ ++ _) |- _ => apply holds_app in H as [? H] end; rewrite ?le32_zlen, ?zlen_one in *.

Ltac placed := match goal with H : holds ?m ?q ?l |- holds ?m ?p ?l => replace p with q by lia; exact H end.
Lemma unpack_number a s c :
  0 ≤ a < 2 ^ 32 → 0 ≤ s < 2 ^ 31 → zlen c < 2 ^ 30 → lunpackrequest ([0] ++ le32 a ++ le32 (u32 s) ++ c) = Ok [VInt a; VInt s; VStr c].
Proof.
  intros Ha Hs Hc. set (m := [0] ++ _). pose proof (zlen_nonneg c). assert (zlen m = 9 + zlen c) as Hm by (unfold m; lengths). split_holds m.
  unfold lunpackrequest. rewrite Hm, (swrap_small 32) by lia. rewrite (rd_first 0 _ : rd (m ++ [0]) 0 = Ok 0), bind_Ok, decide_True by done.
  unfold unpackreq_number. rewrite decide_False by lia. rewrite (unpack_le32 m 1 a), bind_Ok by placed. rewrite (unpack_le32 m 5 (u32 s)), bind_Ok by placed.
  rewrite (read_rest m _ c), bind_Ok by (placed || done || lia). by rewrite (uwrap_small 32 a), (uwrap_small 32 s), (uwrap_small 32 s) by lia.
Qed.
Lemma unpack_number_multi a s sz :
  0 ≤ a < 2 ^ 32 → 0 ≤ s < 2 ^ 31 → 0 ≤ sz < 2 ^ 32 → lunpackrequest ([1] ++ le32 a ++ le32 (u32 s) ++ le32 sz) = Ok [VInt a; VInt s; VInt sz; VBool true].
Proof.
  intros Ha Hs Hc. set (m := [1] ++ _). assert (zlen m = 13) as Hm by (unfold m; lengths). split_holds m.
  unfold lunpackrequest. rewrite Hm, (swrap_small 32) by lia. rewrite (rd_first 1 _ : rd (m ++ [0]) 0 = Ok 1), bind_Ok, decide_False, decide_True by done.
  unfold unpackmreq_number. rewrite decide_False by auto. rewrite (unpack_le32 m 1 a), bind_Ok by placed. rewrite (unpack_le32 m 5 (u32 s)), bind_Ok by placed.
  rewrite (unpack_le32 m 9 sz), bind_Ok by placed. by rewrite (uwrap_small 32 a), (uwrap_small 32 s), (uwrap_small 32 s), (uwrap_small 32 sz) by lia.
Qed.
Lemma unpack_part s more c :
  0 ≤ s < 2 ^ 31 → zlen c < 2 ^ 30 → lunpackrequest (request_body s more c) = Ok [VBool false; VInt s; VStr c; VBool more].
Proof.
  intros Hs Hc. unfold request_body. set (m := [if more then 2 else 3] ++ _). pose proof (zlen_nonneg c). assert (zlen m = 5 + zlen c) as Hm by (unfold m; lengths). split_holds m.
  unfold lunpackrequest. rewrite Hm, (swrap_small 32) by lia. rewrite (rd_first (if more then 2 else 3) _ : rd (m ++ [0]) 0 = Ok (if more then 2 else 3)), bind_Ok by done.
  rewrite decide_False, decide_False, decide_True by (destruct more; auto).
  unfold unpackmreq_part. rewrite decide_False by lia. rewrite (rd_at m 0 (if more then 2 else 3)), bind_Ok by placed. rewrite (unpack_le32 m 1 (u32 s)), bind_Ok by placed.
  rewrite (read_rest m _ c), bind_Ok by (placed || done || lia). rewrite (uwrap_small 32 s), (uwrap_small 32 s) by lia. by destruct more.
Qed.
Lemma unpack_string name s c :
  1 ≤ zlen name ≤ 255 → 0 ≤ s < 2 ^ 31 → zlen c < 2 ^ 30 → lunpackrequest ([0x80] ++ [zlen name] ++ name ++ le32 (u32 s) ++ c) = Ok [VStr name; VInt s; VStr c].
Proof.
  intros Hn Hs Hc. set (m := [0x80] ++ _). pose proof (zlen_nonneg c). assert (zlen m = 6 + zlen name + zlen c) as Hm by (unfold m; lengths). split_holds m.
  unfold lunpackrequest. rewrite Hm, (swrap_small 32) by lia. rewrite (rd_first 0x80 _ : rd (m ++ [0]) 0 = Ok 0x80), bind_Ok by done.
  rewrite decide_False, decide_False, decide_False, decide_True by lia. unfold unpackreq_string. rewrite decide_False by lia. rewrite (rd_at m 1 (zlen name)), bind_Ok by placed.
  rewrite decide_False by lia. rewrite (read_rest m 2 name), bind_Ok by (placed || done || lia). rewrite (unpack_le32 m (zlen name + 2) (u32 s)), bind_Ok by (by rewrite Z.add_comm).
  rewrite (read_rest m _ c), bind_Ok by (placed || done || lia). by rewrite (uwrap_small 32 s), (uwrap_small 32 s) by lia.
Qed.
Lemma unpack_string_multi name s sz :
  1 ≤ zlen name ≤ 255 → 0 ≤ s < 2 ^ 31 → 0 ≤ sz < 2 ^ 32 → lunpackrequest ([0x81] ++ [zlen name] ++ name ++ le32 (u32 s) ++ le32 sz) = Ok [VStr name; VInt s; VInt sz; VBool true].
Proof.
  intros Hn Hs Hc. set (m := [0x81] ++ _). assert (zlen m = 10 + zlen name) as Hm by (unfold m; lengths). split_holds m.
  unfold lunpackrequest. rewrite Hm, (swrap_small 32) by lia. rewrite (rd_first 0x81 _ : rd (m ++ [0]) 0 = Ok 0x81), bind_Ok by done.
  rewrite decide_False, decide_False, decide_False, decide_False, decide_True by lia. unfold unpackmreq_string. rewrite decide_False by lia. rewrite (rd_at m 1 (zlen name)), bind_Ok by placed.
  rewrite decide_False by lia. rewrite (read_rest m 2 name), bind_Ok by (placed || done || lia). rewrite (unpack_le32 m (zlen name + 2) (u32 s)), bind_Ok by (by rewrite Z.add_comm).
  rewrite (unpack_le32 m (zlen name + 6) sz), bind_Ok by placed. by rewrite (uwrap_small 32 s), (uwrap_small 32 s), (uwrap_small 32 sz) by lia.
Qed.

(** ** [lconcat] *)

Lemma concat_loop_spec cs sz pre buff :
  holds buff 0 pre → zlen buff = sz → zlen pre + zlen (concat cs) ≤ sz →
  ∃ buff', concat_loop (VStr <$> cs) sz (zlen pre) buff = Ok (Some (zlen pre + zlen (concat cs), buff')) ∧ zlen buff' = sz ∧ holds buff' 0 (pre ++ concat cs).
Proof.
  revert pre buff. induction cs as [|c cs IH]; intros pre buff Hh Hz Hl; cbn [concat] in *.
  - exists buff. cbn. rewrite app_nil_r. split; [|done]. do 3 f_equal. unfold zlen. cbn. lia.
  - rewrite zlen_app in Hl. pose proof (zlen_nonneg (concat cs)). cbn [fmap list_fmap concat_loop]. rewrite decide_False by lia.
    destruct (put_next buff pre (zlen pre) c Hh) as (b & -> & Hz' & Hh'); [done|lia|]. rewrite bind_Ok, <- zlen_app.
    destruct (IH (pre ++ c) b Hh') as (b' & -> & Hz'' & Hh''); [lia|rewrite zlen_app; lia|]. exists b'. rewrite <- app_assoc in Hh''. split; [|done]. do 3 f_equal. rewrite !zlen_app. lia.
Qed.
Lemma lconcat_spec {LN : LuaNumbers} cs msg : concat cs = msg → zlen msg < 2 ^ 31 → lconcat (VInt (zlen msg) :: (VStr <$> cs)) = Ok (Some msg).
Proof.
  intros <- Hl. pose proof (zlen_nonneg (concat cs)). unfold lconcat. change (default 0 (lua_tointegerx (VInt (zlen (concat cs))))) with (zlen (concat cs)). rewrite (swrap_small 32) by lia. rewrite decide_False by lia.
  destruct (concat_loop_spec cs (zlen (concat cs)) [] (replicate (Z.to_nat (zlen (concat cs))) 0)) as (b & E & Hz & Hh); [by apply holds_nil|rewrite zlen_replicate; lia|unfold zlen; cbn; lia|].
  change (zlen (@nil Z)) with 0 in E. rewrite E, bind_Ok. cbv zeta iota beta. rewrite decide_False by auto. do 2 f_equal.
  pose proof (holds_read b 0 _ Hh ltac:(cbn [app]; lia)) as E2. cbn [app] in E2. rewrite <- Hz, read_whole in E2. by injection E2.
Qed.

(** ** Requests arrive *)

Definition address_ok (addr : lvalue) : Prop :=
  match addr with VInt a => 0 ≤ a < 2 ^ 32 | VStr name => 1 ≤ zlen name ≤ 255 ∧ Forall is_byte name | _ => False end.
Lemma le32_bytes v : Forall is_byte (le32 v).
Proof. unfold le32. repeat constructor; apply byte_land. Qed.
Lemma pieces_flags n l : (0 < n)%nat → (pieces n l).*1 = replicate (n - 1) true ++ [false].
Proof.
  revert l. induction n as [|[|n] IH]; intros l Hn; [lia|done|].
  rewrite pieces_S, fmap_cons, IH by lia. replace (S (S n) - 1)%nat with (S (S n - 1)) by lia. done.
Qed.
Lemma pieces_length n l : length (pieces n l) = n.
Proof. revert l. induction n as [|[|n] IH]; intros l; [done|done|]. rewrite pieces_S. cbn [length]. by rewrite IH. Qed.
Lemma pieces_bytes n l : Forall is_byte l → Forall (λ x, Forall is_byte x.2) (pieces n l).
Proof. revert l. induction n as [|[|n] IH]; intros l Hl; [constructor|repeat constructor; done|]. rewrite pieces_S. constructor; [by apply Forall_take|]. by apply IH, Forall_drop. Qed.

(** The strings of a request, and what the other side reads from their bodies. *)
Definition request_strings (r : list Z * Z * option (list (list Z))) : list (list Z) := r.1.1 :: default [] r.2.
Definition request_read {LN : LuaNumbers} (addr : lvalue) (session : Z) (msg : list Z) (rs : list (result (list lvalue))) : Prop :=
  if decide (zlen msg < MULTI_PART) then rs = [Ok [addr; VInt session; VStr msg]]
  else ∃ cs, rs = Ok [addr; VInt session; VInt (zlen msg); VBool true] :: ((λ c, Ok [VBool false; VInt session; VStr c.2; VBool c.1]) <$> cs) ∧
    cs.*1 = replicate (length cs - 1) true ++ [false] ∧ lconcat (VInt (zlen msg) :: (VStr <$> cs.*2)) = Ok (Some msg).

Definition request_first (addr : lvalue) (session : Z) (msg : list Z) : list Z :=
  let tail := if decide (zlen msg < MULTI_PART) then msg else le32 (zlen msg) in
  match addr with
  | VInt a => [if decide (zlen msg < MULTI_PART) then 0 else 1] ++ le32 a ++ le32 (u32 session) ++ tail
  | VStr name => [if decide (zlen msg < MULTI_PART) then 0x80 else 0x81] ++ [zlen name] ++ name ++ le32 (u32 session) ++ tail
  | _ => []
  end.
Definition request_bodies (addr : lvalue) (session : Z) (msg : list Z) : list (list Z) :=
  request_first addr session msg ::
  (if decide (zlen msg < MULTI_PART) then [] else (λ x, request_body session x.1 x.2) <$> pieces (part_count (zlen msg)) msg).
Lemma lpackrequest_spec {LN : LuaNumbers} addr session msg :
  address_ok addr → 0 < session < INT_MAX → zlen msg < 2 ^ 31 →
  lpackrequest addr session msg (zlen msg) =
    Ok (packet (request_first addr session msg), session + 1,
        if decide (zlen msg < MULTI_PART) then None else Some ((λ x, packet (request_body session x.1 x.2)) <$> pieces (part_count (zlen msg)) msg)).
Proof.
  intros Ha Hs Hl. pose proof (zlen_nonneg msg). unfold INT_MAX in Hs. unfold lpackrequest. rewrite (uwrap_small 32 (zlen msg)), (swrap_small 32 session) by lia.
  rewrite decide_False by lia. rewrite c_int_Ok by (unfold INT_MIN, INT_MAX; lia). unfold request_first.
  destruct (decide (zlen msg < MULTI_PART)) as [Hd|Hd]; destruct addr as [| |a| |name| | | |]; cbn [address_ok] in Ha; try done.
  - rewrite (uwrap_small 32 a), packreq_number_single by (done || lia). rewrite !bind_Ok. rewrite (decide_False (P := session + 1 < 0)) by lia. by rewrite decide_False by auto.
  - rewrite packreq_string_single by (done || tauto). rewrite !bind_Ok. rewrite (decide_False (P := session + 1 < 0)) by lia. by rewrite decide_False by auto.
  - rewrite (uwrap_small 32 a), packreq_number_multi by (done || lia). rewrite !bind_Ok. rewrite (decide_False (P := session + 1 < 0)) by lia. rewrite decide_True by (by apply parts_nonzero).
    by rewrite packreq_multi_spec, bind_Ok by (unfold MULTI_PART in *; lia).
  - rewrite packreq_string_multi by (done || tauto || lia). rewrite !bind_Ok. rewrite (decide_False (P := session + 1 < 0)) by lia. rewrite decide_True by (by apply parts_nonzero).
    by rewrite packreq_multi_spec, bind_Ok by (unfold MULTI_PART in *; lia).
Qed.
Lemma request_strings_spec addr session msg :
  request_strings (packet (request_first addr session msg), session + 1,
    if decide (zlen msg < MULTI_PART) then None else Some ((λ x, packet (request_body session x.1 x.2)) <$> pieces (part_count (zlen msg)) msg)) =
  packet <$> request_bodies addr session msg.
Proof. unfold request_strings, request_bodies. cbn [fst snd]. rewrite fmap_cons. case_decide; cbn [default from_option]; [done|]. by rewrite <- list_fmap_compose. Qed.

Lemma request_bodies_ok addr session msg :
  address_ok addr → Forall is_byte msg → Forall (λ m, zlen m < 65536 ∧ Forall is_byte m) (request_bodies addr session msg).
Proof.
  intros Ha Hm. unfold request_bodies. pose proof (zlen_nonneg msg). constructor.
  - unfold request_first. destruct (decide (zlen msg < MULTI_PART)); destruct addr as [| |a| |name| | | |]; cbn [address_ok] in Ha; try done; (split; [lengths|]);
      repeat (apply Forall_app; split); try apply le32_bytes; try done; try (apply Forall_singleton; unfold is_byte; lia); by destruct Ha.
  - destruct (decide (zlen msg < MULTI_PART)) as [|Hd]; [constructor|]. destruct (part_count_bounds (zlen msg)) as [Hn Hb]; [unfold MULTI_PART in *; lia|].
    apply Forall_fmap. apply Forall_forall. intros [more c] Hx. pose proof (proj1 (Forall_forall _ _) (pieces_short _ _ (proj2 Hb)) _ Hx) as Hc. pose proof (proj1 (Forall_forall _ _) (pieces_bytes (part_count (zlen msg)) msg Hm) _ Hx) as Hcb.
    cbn [snd] in *. change (zlen (request_body session more c) < 65536 ∧ Forall is_byte (request_body session more c)). unfold request_body. split; [lengths|]. apply Forall_app. split; [|apply Forall_app; split; [apply le32_bytes|done]]. apply Forall_singleton. unfold is_byte. destruct more; lia.
Qed.
Lemma request_bodies_read {LN : LuaNumbers} addr session msg :
  address_ok addr → 0 < session < INT_MAX → zlen msg < 2 ^ 31 → request_read addr session msg (lunpackrequest <$> request_bodies addr session msg).
Proof.
  intros Ha Hs Hl. pose proof (zlen_nonneg msg). unfold INT_MAX in Hs. unfold request_read, request_bodies, request_first. destruct (decide (zlen msg < MULTI_PART)) as [Hd|Hd].
  - destruct addr as [| |a| |name| | | |]; cbn [address_ok] in Ha; try done; rewrite fmap_cons; f_equal; [apply unpack_number|apply unpack_string]; unfold MULTI_PART in *; lia || tauto.
  - destruct (part_count_bounds (zlen msg)) as [Hn Hb]; [unfold MULTI_PART in *; lia|]. exists (pieces (part_count (zlen msg)) msg). rewrite fmap_cons, <- list_fmap_compose. split; [f_equal|split].
    + destruct addr as [| |a| |name| | | |]; cbn [address_ok] in Ha; try done; [apply unpack_number_multi|apply unpack_string_multi]; unfold MULTI_PART in *; lia || tauto.
    + apply list_fmap_ext. intros i [more c] Hx. cbn. pose proof (Forall_lookup_1 _ _ _ _ (pieces_short _ _ (proj2 Hb)) Hx) as Hc. cbn in Hc. apply unpack_part; unfold MULTI_PART in *; lia.
    + rewrite pieces_length. by apply pieces_flags.
    + apply lconcat_spec; [by apply pieces_concat|lia].
Qed.


(** ** Responses arrive *)

Lemma lpackresponse_single session ok msg :
  (ok = true → zlen msg ≤ MULTI_PART) →
  lpackresponse session ok msg (zlen msg) = Ok (inl (packet (le32 (u32 session) ++ [if ok then 1 else 0] ++ take (Z.to_nat MULTI_PART) msg))).
Proof.
  intros Hok. pose proof temp_zlen. pose proof (zlen_nonneg msg). unfold lpackresponse. rewrite decide_False by (intros [-> ?]; specialize (Hok eq_refl); lia).
  set (sz := if decide (MULTI_PART < zlen msg) then MULTI_PART else zlen msg).
  assert (0 ≤ sz ≤ MULTI_PART ∧ sz ≤ zlen msg ∧ take (Z.to_nat sz) msg = take (Z.to_nat MULTI_PART) msg) as (Hs1 & Hs2 & Et).
  { unfold sz. case_decide; (split; [unfold MULTI_PART in *; lia|]); (split; [lia|]); [done|]. unfold zlen in *. rewrite !take_ge; [done|..]; unfold MULTI_PART in *; lia. }
  clearbody sz. rewrite <- Et. pose proof (block_zlen msg 0 sz ltac:(lia) ltac:(lia) ltac:(lia)) as Hc. change (drop (Z.to_nat 0) msg) with msg in Hc. set (c := take (Z.to_nat sz) msg) in *.
  do 3 fill. rewrite read_block, bind_Ok by lia. change (drop (Z.to_nat 0) msg) with msg. fold c. do 2 fill. rewrite <- !app_assoc. rewrite packet_eq by lengths. done.
Qed.
Lemma lpackresponse_multi session msg :
  MULTI_PART < zlen msg < 2 ^ 31 →
  lpackresponse session true msg (zlen msg) =
    Ok (inr (packet (le32 (u32 session) ++ [2] ++ le32 (zlen msg)) :: ((λ x, packet (response_body (u32 session) x.1 x.2)) <$> pieces (part_count (zlen msg)) msg))).
Proof.
  intros Hl. pose proof temp_zlen. unfold lpackresponse. rewrite decide_True by (split; [done|lia]). pose proof (part_count_bounds (zlen msg) ltac:(unfold MULTI_PART in *; lia)) as [Hn Hb].
  pose proof (Z.div_pos (zlen msg - 1) MULTI_PART ltac:(unfold MULTI_PART in *; lia) ltac:(unfold MULTI_PART; lia)). pose proof (Z.div_le_upper_bound (zlen msg - 1) MULTI_PART (2 ^ 31 - 2) ltac:(unfold MULTI_PART; lia) ltac:(unfold MULTI_PART; lia)).
  rewrite (swrap_small 32) by lia. fold (part_count (zlen msg)). rewrite (uwrap_small 32 (zlen msg)) by (unfold MULTI_PART in *; lia). do 5 fill.
  rewrite response_loop_spec, bind_Ok by (unfold MULTI_PART in *; lia). rewrite <- !app_assoc. rewrite packet_eq by lengths. done.
Qed.
Lemma unpack_response session type c :
  0 ≤ session < 2 ^ 32 → type = 0 ∨ type = 1 ∨ type = 3 ∨ type = 4 →
  lunpackresponse (le32 session ++ [type] ++ c) =
    Ok ([VInt session; VBool (bool_decide (type ≠ 0)); VStr c] ++ (if decide (type = 3) then [VBool true] else [])).
Proof.
  intros Hs Ht. set (m := le32 session ++ _). pose proof (zlen_nonneg c). assert (zlen m = 5 + zlen c) as Hm by (unfold m; lengths). split_holds m.
  unfold lunpackresponse. rewrite decide_False by lia. rewrite (unpack_le32 m 0 session), bind_Ok by placed. rewrite (rd_at m 4 type), bind_Ok by placed.
  assert (read_at m 5 (zlen m - 5) = Ok c) as Er by (apply read_rest; [placed|lia|lia]). rewrite (uwrap_small 32 session) by lia.
  destruct Ht as [->|[->|[->| ->]]]; repeat first [rewrite decide_True by lia|rewrite decide_False by lia]; rewrite Er, bind_Ok; done.
Qed.
Lemma unpack_response_multi session sz :
  0 ≤ session < 2 ^ 32 → 0 ≤ sz < 2 ^ 32 → lunpackresponse (le32 session ++ [2] ++ le32 sz) = Ok [VInt session; VBool true; VInt sz; VBool true].
Proof.
  intros Hs Hz. set (m := le32 session ++ _). assert (zlen m = 9) as Hm by (unfold m; lengths). split_holds m.
  unfold lunpackresponse. rewrite Hm. rewrite decide_False by lia. rewrite (unpack_le32 m 0 session), bind_Ok by placed. rewrite (rd_at m 4 2), bind_Ok by placed.
  rewrite decide_False, decide_False, decide_True, decide_False by lia. rewrite (unpack_le32 m 5 sz), bind_Ok by placed. by rewrite (uwrap_small 32 session), (uwrap_small 32 sz) by lia.
Qed.

(** The strings of a response, and what the other side reads from their bodies. *)
Definition response_strings (r : list Z + list (list Z)) : list (list Z) := match r with inl s => [s] | inr l => l end.
Definition response_read {LN : LuaNumbers} (session : Z) (ok : bool) (msg : list Z) (rs : list (result (list lvalue))) : Prop :=
  if decide (ok = true ∧ MULTI_PART < zlen msg) then
    ∃ cs, rs = Ok [VInt session; VBool true; VInt (zlen msg); VBool true] ::
               ((λ c, Ok ([VInt session; VBool true; VStr c.2] ++ if (c.1 : bool) then [VBool true] else [])) <$> cs) ∧
      cs.*1 = replicate (length cs - 1) true ++ [false] ∧ lconcat (VInt (zlen msg) :: (VStr <$> cs.*2)) = Ok (Some msg)
  else rs = [Ok [VInt session; VBool ok; VStr (take (Z.to_nat MULTI_PART) msg)]].
Definition response_bodies (session : Z) (ok : bool) (msg : list Z) : list (list Z) :=
  if decide (ok = true ∧ MULTI_PART < zlen msg) then
    (le32 session ++ [2] ++ le32 (zlen msg)) :: ((λ x, response_body session x.1 x.2) <$> pieces (part_count (zlen msg)) msg)
  else [le32 session ++ [if ok then 1 else 0] ++ take (Z.to_nat MULTI_PART) msg].
Lemma lpackresponse_spec session ok msg :
  0 ≤ session < 2 ^ 32 → zlen msg < 2 ^ 31 → ∃ r, lpackresponse session ok msg (zlen msg) = Ok r ∧ response_strings r = packet <$> response_bodies session ok msg.
Proof.
  intros Hs Hl. unfold response_bodies. destruct (decide (ok = true ∧ MULTI_PART < zlen msg)) as [[-> Hd]|Hd].
  - rewrite lpackresponse_multi by lia. eexists. split; [done|]. rewrite (uwrap_small 32 session) by lia. cbn [response_strings]. by rewrite fmap_cons, <- list_fmap_compose.
  - rewrite lpackresponse_single by (intros ->; destruct (decide (MULTI_PART < zlen msg)); [by destruct Hd|lia]). eexists. split; [done|]. by rewrite (uwrap_small 32 session) by lia.
Qed.
Lemma response_bodies_ok session ok msg :
  Forall is_byte msg → Forall (λ m, zlen m < 65536 ∧ Forall is_byte m) (response_bodies session ok msg).
Proof.
  intros Hm. unfold response_bodies. destruct (decide (ok = true ∧ MULTI_PART < zlen msg)) as [[-> Hd]|Hd].
  - destruct (part_count_bounds (zlen msg)) as [Hn Hb]; [unfold MULTI_PART in *; lia|]. constructor.
    + split; [lengths|]. apply Forall_app. split; [apply le32_bytes|]. apply Forall_app. split; [apply Forall_singleton; unfold is_byte; lia|apply le32_bytes].
    + apply Forall_fmap. apply Forall_forall. intros [more c] Hx. pose proof (proj1 (Forall_forall _ _) (pieces_short _ _ (proj2 Hb)) _ Hx) as Hc. pose proof (proj1 (Forall_forall _ _) (pieces_bytes (part_count (zlen msg)) msg Hm) _ Hx) as Hcb.
      cbn [snd] in *. change (zlen (response_body session more c) < 65536 ∧ Forall is_byte (response_body session more c)). unfold response_body. split; [lengths|].
      apply Forall_app. split; [apply le32_bytes|]. apply Forall_app. split; [apply Forall_singleton; unfold is_byte; destruct more; lia|done].
  - apply Forall_singleton. assert (zlen (take (Z.to_nat MULTI_PART) msg) ≤ MULTI_PART) by (unfold zlen; rewrite length_take; unfold MULTI_PART; lia).
    split; [lengths|]. apply Forall_app. split; [apply le32_bytes|]. apply Forall_app. split; [apply Forall_singleton; unfold is_byte; destruct ok; lia|by apply Forall_take].
Qed.
Lemma response_bodies_read {LN : LuaNumbers} session ok msg :
  0 ≤ session < 2 ^ 32 → zlen msg < 2 ^ 31 → response_read session ok msg (lunpackresponse <$> response_bodies session ok msg).
Proof.
  intros Hs Hl. unfold response_read, response_bodies. destruct (decide (ok = true ∧ MULTI_PART < zlen msg)) as [[-> Hd]|Hd].
  - destruct (part_count_bounds (zlen msg)) as [Hn Hb]; [unfold MULTI_PART in *; lia|]. exists (pieces (part_count (zlen msg)) msg). rewrite fmap_cons, <- list_fmap_compose. split; [f_equal|split].
    + apply unpack_response_multi; unfold MULTI_PART in *; lia.
    + apply list_fmap_ext. intros i [more c] Hx. cbn [compose fst snd]. unfold compose, response_body. cbn [fst snd]. rewrite unpack_response by (destruct more; auto). by destruct more.
    + rewrite pieces_length. by apply pieces_flags.
    + apply lconcat_spec; [by apply pieces_concat|lia].
  - cbn [fmap list_fmap]. f_equal. rewrite unpack_response by (destruct ok; auto). by destruct ok.
Qed.

(** C21: a response that one node packs arrives at another, for every chunking of its bytes:
    unpacking gives the session, whether it is an error, and the message; a message above
    32K comes as its size and parts that put together are the message, and the text of an
    error is cut off at 32K. *)
Theorem cluster_response_arrives {LN : LuaNumbers} session ok msg fd :
  0 ≤ session < 2 ^ 32 → zlen msg < 2 ^ 31 → Forall is_byte msg → fd_ok fd →
  ∃ r bodies, lpackresponse session ok msg (zlen msg) = Ok r ∧
    (∀ chunks, Forall (λ c, c ≠ []) chunks → concat chunks = concat (response_strings r) →
       ∃ q, serve_all None ((λ c, (fd, c)) <$> chunks) = Ok (deliver fd <$> bodies, q) ∧ pending q fd = []) ∧
    response_read session ok msg (lunpackresponse <$> bodies).
Proof.
  intros Hs Hl Hm Hfd. destruct (lpackresponse_spec session ok msg Hs Hl) as (r & E & Er). exists r, (response_bodies session ok msg). split; [done|]. split; [|by apply response_bodies_read].
  rewrite Er. intros chunks Hne Ec. apply packets_arrive; try done. by apply response_bodies_ok.
Qed.
Lemma cluster_response_arrives_witness :
  (∃ bodies q, serve_all None [(9, [0; 8; 5; 0]); (9, [0; 0; 1; 1; 2; 3])] = Ok (deliver 9 <$> bodies, q) ∧
     lunpackresponse <$> bodies = [Ok [VInt 5; VBool true; VStr [1; 2; 3]]]) ∧
  ∃ r bodies, lpackresponse 5 true (replicate (Z.to_nat 40000) 7) (zlen (replicate (Z.to_nat 40000) 7)) = Ok r ∧
    @response_read no_numbers 5 true (replicate (Z.to_nat 40000) 7) (lunpackresponse <$> bodies).
Proof.
  split.
  - destruct (@cluster_response_arrives no_numbers 5 true [1; 2; 3] 9) as (r & bodies & E1 & H1 & H2).
    + lia.
    + vm_compute. reflexivity.
    + repeat constructor; lia.
    + unfold fd_ok. lia.
    + assert (E : lpackresponse 5 true [1; 2; 3] (zlen [1; 2; 3]) = Ok (inl [0; 8; 5; 0; 0; 0; 1; 1; 2; 3])) by (vm_compute; reflexivity). rewrite E in E1. apply Ok_inj in E1. subst r.
      destruct (H1 [[0; 8; 5; 0]; [0; 0; 1; 1; 2; 3]]) as (q & Eq & _); [repeat constructor; discriminate|reflexivity|]. exists bodies, q. split; [exact Eq|exact H2].
  - destruct (@cluster_response_arrives no_numbers 5 true (replicate (Z.to_nat 40000) 7) 9) as (r & bodies & E1 & _ & H2).
    + lia.
    + vm_compute. reflexivity.
    + apply Forall_replicate. unfold is_byte. lia.
    + unfold fd_ok. lia.
    + exists r, bodies. split; [exact E1|exact H2].
Defined.
