(* ===== verification/SkynetSocket.v ===== *)
(** * Messages of sockets: skynet-src/skynet_socket.c

    What the socket server answers becomes messages of the services that own the sockets,
    and services call the socket server through it. The state is the node of Server and the
    socket server of Socket; a buffer the socket server hands out gets its address in the
    node when it is forwarded. *)
From Stdlib Require Import String.
From stdpp Require Import base numbers list gmap fin_maps.
From S2P Require Import Prelude CString Format Mq Handle Server Socket.

(** skynet_socket.h, skynet.h *)
Definition SKYNET_SOCKET_TYPE_DATA : Z := 1.
Definition SKYNET_SOCKET_TYPE_CONNECT : Z := 2.
Definition SKYNET_SOCKET_TYPE_CLOSE : Z := 3.
Definition SKYNET_SOCKET_TYPE_ACCEPT : Z := 4.
Definition SKYNET_SOCKET_TYPE_ERROR : Z := 5.
Definition SKYNET_SOCKET_TYPE_UDP : Z := 6.
Definition SKYNET_SOCKET_TYPE_WARNING : Z := 7.
Definition PTYPE_SOCKET : Z := 6.
(** [sizeof(struct skynet_socket_message)]: three [int]s and a pointer. *)
Definition sizeof_message : Z := 24.

(** The node and [SOCKET_SERVER]. *)
Record sockets : Type := mk_sockets { k_node : node; k_ss : option socket_server }.

Section SkynetSocket.
(** The texts of the error numbers, and what the system answers. *)
Context (strerror : Z → cstring).

Definition skynet_socket_init (N : node) (o : os) : sockets := mk_sockets N (Some (socket_server_create o)).
Definition skynet_socket_free (k : sockets) : result sockets :=
  ss ← of_option NullDeref (k_ss k); _ ← socket_server_release ss; Ok (mk_sockets (k_node k) None).

Definition padding_text (m : smsg) : list Z := match m_data m with Some d => take 128 (until_nul d) | None => [] end.
Definition forward_message (N : node) (type : Z) (padding : bool) (m : smsg) : result node :=
  let text := if padding then padding_text m else [] in
  let '(buffer, N) := match m_data m with
                      | Some d => if padding then (0, N) else skynet_malloc N (Bytes d)
                      | None => (0, N)
                      end in
  let '(sm, N) := skynet_malloc N (SocketMessage type (m_id m) (m_ud m) buffer text) in
  r ← skynet_context_push N (u32 (m_opaque m))
    {| source := 0; session := 0; data := sm;
       sz := Z.lor (sizeof_message + zlen text) (u64 (Z.shiftl PTYPE_SOCKET MESSAGE_TYPE_SHIFT)) |};
  if decide (r.1 ≠ 0) then N ← skynet_free r.2 buffer; skynet_free N sm else Ok r.2.

(** The type a service sees, and whether the data is a text behind the message. *)
Definition message_type (type : Z) : option (Z * bool) :=
  if decide (type = SOCKET_DATA) then Some (SKYNET_SOCKET_TYPE_DATA, false)
  else if decide (type = SOCKET_CLOSE) then Some (SKYNET_SOCKET_TYPE_CLOSE, false)
  else if decide (type = SOCKET_OPEN) then Some (SKYNET_SOCKET_TYPE_CONNECT, true)
  else if decide (type = SOCKET_ERROR) then Some (SKYNET_SOCKET_TYPE_ERROR, true)
  else if decide (type = SOCKET_ACCEPT) then Some (SKYNET_SOCKET_TYPE_ACCEPT, true)
  else if decide (type = SOCKET_UDP) then Some (SKYNET_SOCKET_TYPE_UDP, false)
  else None.
Definition skynet_socket_poll (fuel : nat) (k : sockets) : result (Z * sockets) :=
  ss ← of_option AssertFailed (k_ss k);
  r ← socket_server_poll strerror fuel true ss;
  let '(a, more, ss) := r in
  let type := match a with Some (t, _) => t | None => -1 end in
  if decide (type = SOCKET_EXIT) then Ok (0, mk_sockets (k_node k) (Some ss))
  else
    match a, message_type type with
    | Some (_, m), Some (t, padding) =>
        N ← forward_message (k_node k) t padding m;
        Ok (if (more : bool) then -1 else 1, mk_sockets N (Some ss))
    | _, _ =>
        N ← skynet_error (k_node k) None (lit "Unknown socket message type " ++ print_d type ++ lit ".");
        Ok (-1, mk_sockets N (Some ss))
    end.

(** The warning goes to the sender itself. [skynet_send] copies it from the stack; the copy
    is the block handed over here. *)
Definition check_wsz (N : node) (ctx id wsz : Z) : result (Z * node) :=
  if decide (wsz < 0) then Ok (-1, N)
  else if decide (1024 * 1024 < wsz) then
    handle ← skynet_context_handle N ctx;
    let '(tmp, N) := skynet_malloc N (SocketMessage SKYNET_SOCKET_TYPE_WARNING id (s32 (wsz / 1024)) 0 []) in
    r ← skynet_send N (Some ctx) 0 handle (Z.lor PTYPE_SOCKET PTYPE_TAG_DONTCOPY) 0 tmp sizeof_message;
    Ok (0, r.2)
  else Ok (0, N).

(** A call with the socket server, and one with the caller's handle too. *)
Definition with_server {A} (k : sockets) (f : socket_server → A * socket_server) : result (A * sockets) :=
  ss ← of_option NullDeref (k_ss k); let '(a, ss) := f ss in Ok (a, mk_sockets (k_node k) (Some ss)).
Definition with_source {A} (k : sockets) (ctx : Z) (f : Z → socket_server → A * socket_server) : result (A * sockets) :=
  h ← skynet_context_handle (k_node k) ctx; with_server k (f h).
Definition done_with (ss : socket_server) : unit * socket_server := ((), ss).

Definition skynet_socket_exit (k : sockets) : result (unit * sockets) := with_server k (λ ss, done_with (socket_server_exit ss)).
Definition skynet_socket_send (k : sockets) (ctx id : Z) (x : sobject) : result (Z * sockets) :=
  r ← with_server k (λ ss, socket_server_send ss id x);
  w ← check_wsz (k_node r.2) ctx id r.1; Ok (w.1, mk_sockets w.2 (k_ss r.2)).
Definition skynet_socket_send_lowpriority (k : sockets) (id : Z) (x : sobject) : result (unit * sockets) :=
  with_server k (λ ss, done_with (socket_server_send_lowpriority ss id x)).
Definition skynet_socket_listen (k : sockets) (ctx : Z) : result (Z * sockets) := with_source k ctx (λ h ss, socket_server_listen ss h).
Definition skynet_socket_connect (k : sockets) (ctx : Z) (host : cstring) (port : Z) : result (Z * sockets) :=
  with_source k ctx (λ h ss, socket_server_connect ss h host port).
Definition skynet_socket_bind (k : sockets) (ctx fd : Z) : result (Z * sockets) := with_source k ctx (λ h ss, socket_server_bind ss h fd).
Definition skynet_socket_close (k : sockets) (ctx id : Z) : result (unit * sockets) :=
  with_source k ctx (λ h ss, done_with (socket_server_close ss h id)).
Definition skynet_socket_shutdown (k : sockets) (ctx id : Z) : result (unit * sockets) :=
  with_source k ctx (λ h ss, done_with (socket_server_shutdown ss h id)).
Definition skynet_socket_start (k : sockets) (ctx id : Z) : result (unit * sockets) :=
  with_source k ctx (λ h ss, done_with (socket_server_start ss h id)).
Definition skynet_socket_nodelay (k : sockets) (id : Z) : result (unit * sockets) :=
  with_server k (λ ss, done_with (socket_server_nodelay ss id)).
Definition skynet_socket_udp (k : sockets) (ctx : Z) (addr : option cstring) (port : Z) : result (Z * sockets) :=
  with_source k ctx (λ h ss, socket_server_udp ss h addr port).
Definition skynet_socket_udp_connect (k : sockets) (id : Z) : result (Z * sockets) := with_server k (λ ss, socket_server_udp_connect ss id).
Definition skynet_socket_udp_send (k : sockets) (ctx id : Z) (address : list Z) (x : sobject) : result (Z * sockets) :=
  r ← with_server k (λ ss, socket_server_udp_send ss id address x);
  w ← check_wsz (k_node r.2) ctx id r.1; Ok (w.1, mk_sockets w.2 (k_ss r.2)).
Definition skynet_socket_udp_address (type ud : Z) (buffer : list Z) : result (option (list Z)) :=
  if decide (type ≠ SKYNET_SOCKET_TYPE_UDP) then Ok None else socket_server_udp_address (mk_smsg 0 0 ud (Some buffer)).
End SkynetSocket.

(** ** Delivery *)

Lemma malloc_fresh N b : ∃ p, skynet_malloc N b = (p, with_mem N (<[p := b]> (mem N))) ∧ p ≠ 0 ∧ mem N !! p = None.
Proof.
  unfold skynet_malloc. eexists; split; [done|]. pose proof (is_fresh (dom (mem N) ∪ {[0]})) as Hf.
  rewrite not_elem_of_union, not_elem_of_singleton, not_elem_of_dom in Hf. tauto.
Qed.
Lemma free_null N : skynet_free N 0 = Ok N.
Proof. done. Qed.
Lemma free_fresh N p b : p ≠ 0 → mem N !! p = None → skynet_free (with_mem N (<[p := b]> (mem N))) p = Ok N.
Proof.
  intros Hp Hn. unfold skynet_free. rewrite decide_False by done. cbn. rewrite lookup_insert_eq. f_equal. destruct N. unfold with_mem. cbn in *.
  f_equal. by rewrite delete_insert_id.
Qed.
Lemma padding_text_length m : zlen (padding_text m) ≤ 128.
Proof. unfold padding_text, zlen. destruct (m_data m); cbn; [rewrite length_take|]; lia. Qed.

(** The blocks of a message of a socket: the message, and its data when that is no text. *)
Definition carries (M : gmap Z block) (msg : skynet_message) (type : Z) (padding : bool) (m : smsg) : Prop :=
  ∃ buffer, M !! data msg = Some (SocketMessage type (m_id m) (m_ud m) buffer (if padding then padding_text m else [])) ∧
    match m_data m with Some d => if padding then buffer = 0 else buffer ≠ 0 ∧ M !! buffer = Some (Bytes d) | None => buffer = 0 end.

Lemma forward_message_spec N type (padding : bool) m :
  ∃ msg M', source msg = 0 ∧ session msg = 0 ∧ Z.shiftr (sz msg) MESSAGE_TYPE_SHIFT = PTYPE_SOCKET ∧
    Z.land (sz msg) MESSAGE_TYPE_MASK = sizeof_message + zlen (if padding then padding_text m else []) ∧
    mem N ⊆ M' ∧ mem N !! data msg = None ∧ carries M' msg type padding m ∧
    (∀ N', skynet_context_push (with_mem N M') (u32 (m_opaque m)) msg = Ok (0, N') → forward_message N type padding m = Ok N') ∧
    (skynet_context_push (with_mem N M') (u32 (m_opaque m)) msg = Ok (-1, with_mem N M') → forward_message N type padding m = Ok N).
Proof.
  set (text := if padding then padding_text m else []).
  assert (0 ≤ sizeof_message + zlen text < 2 ^ 56) as Hsz.
  { assert (zlen text ≤ 128) by (unfold text; destruct padding; [apply padding_text_length|done]). pose proof (zlen_nonneg text). unfold sizeof_message. lia. }
  destruct (pack_size PTYPE_SOCKET _ Hsz) as (Ht & Hs & _). change (Z.land PTYPE_SOCKET 0xff) with PTYPE_SOCKET in Ht, Hs.
  unfold forward_message. fold text.
  assert (∃ buffer M1, (match m_data m with Some d => if padding then (0, N) else skynet_malloc N (Bytes d) | None => (0, N) end) = (buffer, with_mem N M1) ∧
     ((buffer = 0 ∧ M1 = mem N) ∨ (∃ b, buffer ≠ 0 ∧ mem N !! buffer = None ∧ M1 = <[buffer := b]> (mem N))) ∧
     match m_data m with Some d => if padding then buffer = 0 else buffer ≠ 0 ∧ M1 !! buffer = Some (Bytes d) | None => buffer = 0 end)
    as (buffer & M1 & -> & HM & Hb).
  { assert (with_mem N (mem N) = N) as E by by destruct N.
    destruct (m_data m) as [d|]; [destruct padding|]; [exists 0, (mem N); rewrite E; auto| |exists 0, (mem N); rewrite E; auto].
    destruct (malloc_fresh N (Bytes d)) as (q & Hq & Hq0 & Hqn). eexists q, _. split; [done|]. split; [right; by exists (Bytes d)|].
    split; [done|]. by rewrite lookup_insert_eq. }
  assert (mem N ⊆ M1) as Hsub by (destruct HM as [[_ ->]|(b & _ & ? & ->)]; [done|by apply insert_subseteq]).
  destruct (malloc_fresh (with_mem N M1) (SocketMessage type (m_id m) (m_ud m) buffer text)) as (p & -> & Hp0 & Hpn). cbn in Hpn.
  set (msg := {| source := 0; session := 0; data := p; sz := _ |}).
  exists msg, (<[p := SocketMessage type (m_id m) (m_ud m) buffer text]> M1). split_and!; try done.
  - etrans; [done|]. by apply insert_subseteq.
  - cbn. by eapply lookup_weaken_None.
  - exists buffer. cbn. rewrite lookup_insert_eq. split; [done|]. destruct (m_data m); [|done]. destruct padding; [done|].
    destruct Hb as [Hb0 Hb]. split; [done|]. rewrite lookup_insert_ne; [done|]. congruence.
  - intros N' E. change (with_mem (with_mem N M1) _) with (with_mem N (<[p := SocketMessage type (m_id m) (m_ud m) buffer text]> M1)).
    rewrite E, bind_Ok. cbn [fst snd]. by rewrite decide_False by auto.
  - intros E. change (with_mem (with_mem N M1) _) with (with_mem N (<[p := SocketMessage type (m_id m) (m_ud m) buffer text]> M1)).
    rewrite E, bind_Ok. cbn [fst snd]. rewrite decide_True by done. destruct HM as [[-> ->]|(b & Hb0 & Hbn & ->)].
    + rewrite free_null, bind_Ok. by apply free_fresh.
    + assert (buffer ≠ p) as Hne by (intros ->; by rewrite lookup_insert_eq in Hpn). rewrite insert_insert_ne by done.
      assert (mem N !! p = None) as Hpn' by (by rewrite lookup_insert_ne in Hpn).
      assert (skynet_free (with_mem N (<[buffer := b]> (<[p := SocketMessage type (m_id m) (m_ud m) buffer text]> (mem N)))) buffer
              = Ok (with_mem N (<[p := SocketMessage type (m_id m) (m_ud m) buffer text]> (mem N)))) as ->.
      { refine (free_fresh (with_mem N (<[p := SocketMessage type (m_id m) (m_ud m) buffer text]> (mem N))) buffer b Hb0 _). cbn. by rewrite lookup_insert_ne. }
      rewrite bind_Ok. by apply free_fresh.
Qed.

(** C23: events of sockets reach the service that owns the socket. When the socket server
    answers with an event, a turn of [skynet_socket_poll] succeeds. If the owner's handle
    names a service, exactly one message is appended to its queue, of the socket type, with
    the kind of the event, the socket's id and the data: the text of at most 128 bytes
    behind the message, or a block with the bytes read, which the service now owns; no
    other queue and no block changes. If it names none, both blocks are freed and the node
    is as it was. *)
Theorem socket_events_reach_their_service strerror fuel N ids ss t m more ss' type padding :
  socket_server_poll strerror fuel true ss = Ok (Some (t, m), more, ss') → message_type t = Some (type, padding) → node_ok N ids →
  (∀ c l, handle_lookup (ctx_handle N) (st N) (u32 (m_opaque m)) = Ok (Some c) → waiting N c l → zlen l + 1 < 2 ^ 30 →
     ∃ N' ids' msg, skynet_socket_poll strerror fuel (mk_sockets N (Some ss)) = Ok (if (more : bool) then -1 else 1, mk_sockets N' (Some ss')) ∧
       node_ok N' ids' ∧ ctxs N' = ctxs N ∧ st N' = st N ∧ waiting N' c (l ++ [msg]) ∧
       (∀ c' l', c' ≠ c → waiting N c' l' → waiting N' c' l') ∧
       source msg = 0 ∧ session msg = 0 ∧ Z.shiftr (sz msg) MESSAGE_TYPE_SHIFT = PTYPE_SOCKET ∧
       Z.land (sz msg) MESSAGE_TYPE_MASK = sizeof_message + zlen (if (padding : bool) then padding_text m else []) ∧
       mem N ⊆ mem N' ∧ mem N !! data msg = None ∧ carries (mem N') msg type padding m) ∧
  (handle_lookup (ctx_handle N) (st N) (u32 (m_opaque m)) = Ok None →
     skynet_socket_poll strerror fuel (mk_sockets N (Some ss)) = Ok (if (more : bool) then -1 else 1, mk_sockets N (Some ss'))).
Proof.
  intros Hpoll Ht O.
  assert (∀ N', forward_message N type padding m = Ok N' →
    skynet_socket_poll strerror fuel (mk_sockets N (Some ss)) = Ok (if (more : bool) then -1 else 1, mk_sockets N' (Some ss'))) as Hrun.
  { intros N' Hf. unfold skynet_socket_poll. cbn [k_ss k_node of_option]. rewrite bind_Ok, Hpoll, bind_Ok.
    rewrite decide_False by (intros ->; done). by rewrite Ht, Hf. }
  destruct (forward_message_spec N type padding m) as (msg & M' & H1 & H2 & H3 & H4 & Hsub & Hn & Hc & Hok & Hno). split.
  - intros c l Hl Hw Hroom.
    destruct (context_push_spec (with_mem N M') ids (u32 (m_opaque m)) c l msg (node_ok_mem _ _ _ O) Hl Hw Hroom) as (w' & ids' & Hp & O' & Hw' & Ho).
    eexists _, ids', msg. split; [by apply Hrun, Hok|]. split_and!; try done.
  - intros Hl. apply Hrun, Hno. by apply context_push_none.
Qed.

(** A descriptor bound for service 16777217, which the poll then adopts. *)
Definition bound_server : socket_server :=
  (socket_server_bind (socket_server_create (mk_os [mk_answer 0 0 [] None 0 [] []; mk_answer 0 0 [] None 0 [] []] [])) 16777217 3).2.
Lemma socket_events_reach_their_service_witness :
  ∃ k msg, skynet_socket_poll (λ _, []) 3 (mk_sockets demo_node (Some bound_server)) = Ok (-1, k) ∧ waiting (k_node k) 7 [msg] ∧
    mem (k_node k) !! data msg = Some (SocketMessage SKYNET_SOCKET_TYPE_CONNECT 1 0 0 (lit "binding")).
Proof.
  destruct (socket_server_poll (λ _, []) 3 true bound_server) as [[[a more] ss']|] eqn:E; [|vm_compute in E; discriminate E].
  assert (a = Some (SOCKET_OPEN, mk_smsg 1 16777217 0 (Some (lit "binding"))) ∧ more = true) as [-> ->]
    by (vm_compute in E; injection E as <- <- _; split; reflexivity).
  destruct (socket_events_reach_their_service (λ _, []) 3 demo_node [5] bound_server SOCKET_OPEN
    (mk_smsg 1 16777217 0 (Some (lit "binding"))) true ss' SKYNET_SOCKET_TYPE_CONNECT true) as [Hto _].
  - exact E.
  - reflexivity.
  - exact demo_ok.
  - destruct (Hto 7 []) as (N' & ids' & msg & Hrun & _ & _ & _ & Hw & _ & _ & _ & _ & _ & _ & _ & buffer & Hb & ->).
    + vm_compute. reflexivity.
    + exact demo_waiting.
    + vm_compute. reflexivity.
    + exists (mk_sockets N' (Some ss')), msg. split; [exact Hrun|]. split; [exact Hw|exact Hb].
Defined.
