(* ===== verification/SocketBuffer.v ===== *)
(** * Socket buffers of Lua services: lualib-src/lua-socket.c

    The blocks of bytes a socket received wait in a linked list of nodes until the service
    reads a number of bytes, a line, or everything. Nodes come from chunks that are kept in
    a Lua table and go back to its free list. The list of a buffer is a list of nodes, each
    with its address, its block and the address of the block. The theorem: to its user a
    buffer is a string of bytes, and every block is freed once. *)
From stdpp Require Import base numbers list.
From S2P Require Import Prelude CString Seri SprotoPack.

Definition LARGE_PAGE_NODE : Z := 12.

Record buffer_node : Type := mk_node { bn_addr : Z; bn_ptr : Z; bn_msg : list Z; bn_sz : Z }.
Record socket_buffer : Type := mk_sb { sb_size : Z; sb_offset : Z; sb_nodes : list buffer_node }.
Definition lnewbuffer : socket_buffer := mk_sb 0 0 [].

(** The table of the pool: the free list at index 1, the sizes of the chunks behind it; and
    the blocks freed so far. Nodes are numbered over all chunks. *)
Record node_pool : Type := mk_npool { np_free : list Z; np_chunks : list Z; np_freed : list Z }.
Definition no_pool : node_pool := mk_npool [] [] [].

(** ** Pushing *)

Definition nodes_of (chunks : list Z) : Z := foldr Z.add 0 chunks.
(** The size of a new chunk by the length of the table, which is 0 as long as it is empty. *)
Definition chunk_size (chunks : list Z) : Z :=
  let tsz := if decide (chunks = []) then 1 else 1 + zlen chunks in
  if decide (tsz ≤ LARGE_PAGE_NODE - 3) then Z.shiftl 8 tsz else Z.shiftl 8 (LARGE_PAGE_NODE - 3).
(** [lnewpool]: the nodes of a chunk, each linked to the next one. *)
Definition lnewpool (first sz : Z) : list Z := (λ i, first + Z.of_nat i) <$> seq 0 (Z.to_nat sz).
Definition take_node (pool : node_pool) : result (Z * node_pool) :=
  match np_free pool with
  | a :: free => Ok (a, mk_npool free (np_chunks pool) (np_freed pool))
  | [] =>
      let size := chunk_size (np_chunks pool) in
      match lnewpool (nodes_of (np_chunks pool)) size with
      | a :: free => Ok (a, mk_npool free (np_chunks pool ++ [size]) (np_freed pool))
      | [] => Err OutOfBounds
      end
  end.
Definition lpushbuffer (sb : socket_buffer) (pool : node_pool) (msg : Z) (bytes : list Z) (sz : Z) : result (Z * socket_buffer * node_pool) :=
  let sz := s32 sz in
  r ← take_node pool;
  let '(a, pool) := r in
  size ← c_int (sb_size sb + sz);
  Ok (size, mk_sb size (sb_offset sb) (sb_nodes sb ++ [mk_node a msg bytes sz]), pool).

(** ** Popping *)

Definition return_free_node (pool : node_pool) (sb : socket_buffer) : result (socket_buffer * node_pool) :=
  match sb_nodes sb with
  | [] => Err NullDeref
  | n :: rest => Ok (mk_sb (sb_size sb) 0 rest, mk_npool (bn_addr n :: np_free pool) (np_chunks pool) (np_freed pool ++ [bn_ptr n]))
  end.
(** [lua_pushlstring] or [luaL_addlstring] of a part of a block. *)
Definition block_string (n : buffer_node) (offset sz : Z) : result (list Z) := lua_pushlstring sz (read_at (bn_msg n) offset sz).

(** The loop over the nodes; [acc] is the string so far. A turn uses up a node. *)
Fixpoint pop_loop (fuel : nat) (sb : socket_buffer) (pool : node_pool) (sz skip : Z) (acc : list Z) : result (list Z * socket_buffer * node_pool) :=
  match fuel, sb_nodes sb with
  | S fuel, current :: _ =>
      let bytes := bn_sz current - sb_offset sb in
      if decide (sz ≤ bytes) then
        s ← (if decide (skip < sz) then block_string current (sb_offset sb) (sz - skip) else Ok []);
        let sb := mk_sb (sb_size sb) (sb_offset sb + sz) (sb_nodes sb) in
        if decide (bytes = sz) then r ← return_free_node pool sb; Ok (acc ++ s, r.1, r.2) else Ok (acc ++ s, sb, pool)
      else
        let real_sz := sz - skip in
        s ← (if decide (0 < real_sz) then block_string current (sb_offset sb) (if decide (real_sz < bytes) then real_sz else bytes) else Ok []);
        r ← return_free_node pool sb;
        let sz := sz - bytes in
        if decide (sz = 0) then Ok (acc ++ s, r.1, r.2) else pop_loop fuel r.1 r.2 sz skip (acc ++ s)
  | S _, [] => Err AssertFailed
  | O, _ => Err OutOfFuel
  end.
Definition pop_lstring (sb : socket_buffer) (pool : node_pool) (sz skip : Z) : result (list Z * socket_buffer * node_pool) :=
  match sb_nodes sb with
  | [] => Err NullDeref
  | current :: _ =>
      if decide (sz < bn_sz current - sb_offset sb) then
        s ← block_string current (sb_offset sb) (sz - skip);
        Ok (s, mk_sb (sb_size sb) (sb_offset sb + sz) (sb_nodes sb), pool)
      else if decide (sz = bn_sz current - sb_offset sb) then
        s ← block_string current (sb_offset sb) (sz - skip);
        r ← return_free_node pool sb;
        Ok (s, r.1, r.2)
      else pop_loop (S (length (sb_nodes sb))) sb pool sz skip []
  end.
(** The string or nil, and the size that is left. *)
Definition lpopbuffer (sb : socket_buffer) (pool : node_pool) (sz : Z) : result (option (list Z) * Z * socket_buffer * node_pool) :=
  let sz := s32 sz in
  if decide (sb_size sb < sz ∨ sz = 0) then Ok (None, sb_size sb, sb, pool)
  else
    r ← pop_lstring sb pool sz 0;
    let '(s, sb, pool) := r in
    let size := sb_size sb - sz in
    Ok (Some s, size, mk_sb size (sb_offset sb) (sb_nodes sb), pool).

Fixpoint clear_loop (fuel : nat) (sb : socket_buffer) (pool : node_pool) : result (socket_buffer * node_pool) :=
  match sb_nodes sb with
  | [] => Ok (sb, pool)
  | _ => match fuel with O => Err OutOfFuel | S fuel => r ← return_free_node pool sb; clear_loop fuel r.1 r.2 end
  end.
Definition lclearbuffer (sb : socket_buffer) (pool : node_pool) : result (socket_buffer * node_pool) :=
  r ← clear_loop (length (sb_nodes sb)) sb pool;
  Ok (mk_sb 0 (sb_offset r.1) (sb_nodes r.1), r.2).
Fixpoint readall_loop (fuel : nat) (sb : socket_buffer) (pool : node_pool) (acc : list Z) : result (list Z * socket_buffer * node_pool) :=
  match sb_nodes sb with
  | [] => Ok (acc, sb, pool)
  | current :: _ =>
      match fuel with
      | O => Err OutOfFuel
      | S fuel =>
          s ← block_string current (sb_offset sb) (bn_sz current - sb_offset sb);
          r ← return_free_node pool sb;
          readall_loop fuel r.1 r.2 (acc ++ s)
      end
  end.
Definition lreadall (sb : socket_buffer) (pool : node_pool) : result (list Z * socket_buffer * node_pool) :=
  r ← readall_loop (length (sb_nodes sb)) sb pool [];
  let '(s, sb, pool) := r in Ok (s, mk_sb 0 (sb_offset sb) (sb_nodes sb), pool).

(** ** Lines *)

(** The separator from [at] on, compared at [from] of the first node and on in the following
    ones. [sz] is negative when [from] is behind the block: then [at] moves backwards. *)
Fixpoint check_sep (nodes : list buffer_node) (from : Z) (sep : list Z) (at_ : Z) : result bool :=
  match nodes with
  | [] => Err NullDeref
  | node :: nodes =>
      let sz := bn_sz node - from in
      let seplen := zlen sep - at_ in
      if decide (seplen ≤ sz) then
        b ← read_at (bn_msg node) from seplen; c ← read_at sep at_ seplen; Ok (bool_decide (b = c))
      else
        differs ← (if decide (0 < sz) then
                     b ← read_at (bn_msg node) from sz; c ← read_at sep at_ sz; Ok (bool_decide (b ≠ c))
                   else Ok false);
        if (differs : bool) then Ok false else check_sep nodes 0 sep (at_ + sz)
  end.
(** The first place of the separator, if there is one in the next [n] places. *)
Fixpoint line_loop (n : nat) (i : Z) (current : list buffer_node) (from bytes : Z) (sep : list Z) : result (option Z) :=
  match n with
  | O => Ok None
  | S n =>
      b ← check_sep current from sep 0;
      if (b : bool) then Ok (Some i)
      else
        let bytes := bytes - 1 in
        if decide (bytes = 0) then
          match tail current with
          | [] => Ok None
          | node :: _ => line_loop n (i + 1) (tail current) 0 (bn_sz node) sep
          end
        else line_loop n (i + 1) current (from + 1) bytes sep
  end.
(** The line without its separator, or [true] when it is only checked; [None] when there is
    no separator. *)
Definition lreadline (sb : socket_buffer) (pool : node_pool) (check : bool) (sep : list Z) : result (option lvalue * socket_buffer * node_pool) :=
  match sb_nodes sb with
  | [] => Ok (None, sb, pool)
  | current :: _ =>
      r ← line_loop (Z.to_nat (sb_size sb - s32 (zlen sep) + 1)) 0 (sb_nodes sb) (sb_offset sb) (bn_sz current - sb_offset sb) sep;
      match r with
      | None => Ok (None, sb, pool)
      | Some i =>
          if check then Ok (Some (VBool true), sb, pool)
          else
            p ← pop_lstring sb pool (i + zlen sep) (zlen sep);
            let '(s, sb, pool) := p in
            Ok (Some (VStr s), mk_sb (sb_size sb - (i + zlen sep)) (sb_offset sb) (sb_nodes sb), pool)
      end
  end.

(** ** Other helpers *)

(** A length at the front of a packet, the high byte first. *)
Fixpoint header_loop (s : list Z) (sz : Z) : Z := match s with [] => sz | c :: s => header_loop s (Z.lor (Z.shiftl sz 8) c) end.
Definition lheader (s : list Z) : result Z :=
  if decide (4 < zlen s ∨ zlen s < 1) then Err (LuaError 0) else Ok (header_loop s 0).

(** ** The bytes of a buffer *)

Definition node_ok (n : buffer_node) : Prop := 0 < bn_sz n ∧ bn_sz n = zlen (bn_msg n).
Definition content (nodes : list buffer_node) (offset : Z) : list Z := drop (Z.to_nat offset) (concat (bn_msg <$> nodes)).
(** The offset is inside the first block. *)
Record layout (nodes : list buffer_node) (offset : Z) : Prop := {
  ly_nodes : Forall node_ok nodes;
  ly_offset : match nodes with [] => offset = 0 | n :: _ => 0 ≤ offset < bn_sz n end }.
(** The nodes [gone] were given back. *)
Record returned (gone : list buffer_node) (pool : node_pool) (nodes : list buffer_node) (pool' : node_pool) (nodes' : list buffer_node) : Prop := {
  rt_nodes : nodes = gone ++ nodes';
  rt_free : np_free pool' = reverse (bn_addr <$> gone) ++ np_free pool;
  rt_chunks : np_chunks pool' = np_chunks pool;
  rt_freed : np_freed pool' = np_freed pool ++ (bn_ptr <$> gone) }.
Lemma returned_none pool nodes : returned [] pool nodes pool nodes.
Proof. split; cbn; try done. by rewrite app_nil_r. Qed.
Lemma returned_step n gone pool rest pool' nodes' :
  returned gone (mk_npool (bn_addr n :: np_free pool) (np_chunks pool) (np_freed pool ++ [bn_ptr n])) rest pool' nodes' → returned (n :: gone) pool (n :: rest) pool' nodes'.
Proof.
  intros [R1 R2 R3 R4]. cbn [np_free np_chunks np_freed] in *. split; [by rewrite R1|rewrite R2, fmap_cons, reverse_cons, <- app_assoc; done|done|]. by rewrite R4, <- app_assoc.
Qed.
Lemma node_content n rest offset : node_ok n → 0 ≤ offset ≤ bn_sz n → content (n :: rest) offset = drop (Z.to_nat offset) (bn_msg n) ++ concat (bn_msg <$> rest).
Proof. intros [_ Hs] Ho. unfold content. cbn [fmap list_fmap concat]. unfold zlen in Hs. by rewrite drop_app_le by lia. Qed.
Lemma rest_zlen n offset : node_ok n → 0 ≤ offset ≤ bn_sz n → zlen (drop (Z.to_nat offset) (bn_msg n)) = bn_sz n - offset.
Proof. intros [_ Hs] Ho. unfold zlen in *. rewrite length_drop. lia. Qed.
Lemma layout_rest n rest offset : layout (n :: rest) offset → layout rest 0.
Proof. intros [[_ Hr]%Forall_cons _]. split; [done|]. destruct rest as [|m r]; [done|]. apply Forall_cons in Hr as [[Hm _] _]. lia. Qed.
Lemma block_string_spec n offset sz : node_ok n → 0 ≤ offset → 0 ≤ sz → offset + sz ≤ bn_sz n → sz < 2 ^ 31 → block_string n offset sz = Ok (take (Z.to_nat sz) (drop (Z.to_nat offset) (bn_msg n))).
Proof. intros [_ Hs] Ho Hz Hl Hm. unfold block_string, lua_pushlstring. rewrite decide_False by lia. unfold read_at. by rewrite decide_True by lia. Qed.

(** ** Popping *)

Lemma pop_loop_spec fuel size offset nodes pool sz skip acc :
  layout nodes offset → 0 < sz ≤ zlen (content nodes offset) → sz < 2 ^ 31 → 0 ≤ skip → (length nodes < fuel)%nat →
  ∃ offset' nodes' pool' gone, pop_loop fuel (mk_sb size offset nodes) pool sz skip acc =
      Ok (acc ++ take (Z.to_nat (sz - skip)) (content nodes offset), mk_sb size offset' nodes', pool') ∧
    layout nodes' offset' ∧ content nodes' offset' = drop (Z.to_nat sz) (content nodes offset) ∧ returned gone pool nodes pool' nodes'.
Proof.
  revert offset nodes pool sz acc. induction fuel as [|fuel IH]; intros offset nodes pool sz acc L Hsz Hmax Hskip Hfuel; [lia|]. destruct nodes as [|n rest].
  { unfold content in Hsz. cbn in Hsz. rewrite drop_nil in Hsz. unfold zlen in Hsz. cbn in Hsz. lia. }
  cbn [pop_loop sb_nodes sb_offset sb_size]. destruct L as [Hn Ho]. apply Forall_cons in Hn as [Hn Hr]. pose proof (rest_zlen n offset Hn ltac:(lia)) as Hz. pose proof (node_content n rest offset Hn ltac:(lia)) as Ec.
  set (b := drop (Z.to_nat offset) (bn_msg n)) in *. pose proof (layout_rest n rest offset (Build_layout (n :: rest) offset (Forall_cons_2 _ _ _ Hn Hr) Ho)) as Lr.
  assert (length b = Z.to_nat (bn_sz n - offset)) as Hlb by (unfold zlen in Hz; lia). destruct (decide (sz ≤ bn_sz n - offset)) as [Hle|Hgt].
  - assert ((if decide (skip < sz) then block_string n offset (sz - skip) else Ok []) = Ok (take (Z.to_nat (sz - skip)) (content (n :: rest) offset))) as ->.
    { rewrite Ec, take_app_le by lia. case_decide; [by rewrite block_string_spec by (done || lia)|]. by replace (Z.to_nat (sz - skip)) with 0%nat by lia. }
    rewrite bind_Ok. destruct (decide (bn_sz n - offset = sz)) as [He|He].
    + cbn [return_free_node sb_nodes]. rewrite bind_Ok. cbn [fst snd sb_size]. eexists 0, rest, _, [n]. split; [done|]. split; [done|]. split; [|apply returned_step, returned_none].
      rewrite Ec. rewrite drop_app_ge by lia. rewrite Hlb. unfold content. f_equal. lia.
    + eexists (offset + sz), (n :: rest), pool, []. split; [done|]. split; [split; [by constructor|lia]|]. split; [|apply returned_none].
      unfold content. rewrite drop_drop. f_equal. lia.
  - assert ((if decide (0 < sz - skip) then block_string n offset (if decide (sz - skip < bn_sz n - offset) then sz - skip else bn_sz n - offset) else Ok []) = Ok (take (Z.to_nat (sz - skip)) b)) as ->.
    { destruct (decide (0 < sz - skip)); [|by replace (Z.to_nat (sz - skip)) with 0%nat by lia]. case_decide; rewrite block_string_spec by (done || lia); [done|]. fold b. by rewrite !take_ge by lia. }
    rewrite bind_Ok. cbn [return_free_node sb_nodes]. rewrite bind_Ok. cbn [fst snd sb_size]. rewrite decide_False by lia.
    assert (zlen (content (n :: rest) offset) = bn_sz n - offset + zlen (content rest 0)) as Hzc by (rewrite Ec, zlen_app, Hz; done).
    destruct (IH 0 rest (mk_npool (bn_addr n :: np_free pool) (np_chunks pool) (np_freed pool ++ [bn_ptr n])) (sz - (bn_sz n - offset)) (acc ++ take (Z.to_nat (sz - skip)) b))
      as (offset' & nodes' & pool' & gone & E & L' & C' & R'); [done|lia|lia|done|cbn in Hfuel; lia|].
    rewrite E. eexists offset', nodes', pool', (n :: gone). split; [|split; [done|split; [|by apply returned_step]]].
    + rewrite Ec, take_app, <- app_assoc, Hlb. change (concat (bn_msg <$> rest)) with (content rest 0). by replace (Z.to_nat (sz - skip) - Z.to_nat (bn_sz n - offset))%nat with (Z.to_nat (sz - (bn_sz n - offset) - skip)) by lia.
    + rewrite C', Ec. rewrite drop_app_ge by lia. rewrite Hlb. unfold content. rewrite drop_0. f_equal. lia.
Qed.
Lemma pop_lstring_spec size offset nodes pool sz skip :
  layout nodes offset → nodes ≠ [] → 0 ≤ skip ≤ sz → sz ≤ zlen (content nodes offset) → sz < 2 ^ 31 →
  ∃ offset' nodes' pool' gone, pop_lstring (mk_sb size offset nodes) pool sz skip =
      Ok (take (Z.to_nat (sz - skip)) (content nodes offset), mk_sb size offset' nodes', pool') ∧
    layout nodes' offset' ∧ content nodes' offset' = drop (Z.to_nat sz) (content nodes offset) ∧ returned gone pool nodes pool' nodes'.
Proof.
  intros L Hne Hs Hsz Hmax. destruct nodes as [|n rest]; [done|]. pose proof L as [Hn Ho]. apply Forall_cons in Hn as [Hn Hr]. pose proof (rest_zlen n offset Hn ltac:(lia)) as Hz. pose proof (node_content n rest offset Hn ltac:(lia)) as Ec.
  unfold pop_lstring. cbn [sb_nodes sb_offset sb_size]. set (b := drop (Z.to_nat offset) (bn_msg n)) in *. assert (length b = Z.to_nat (bn_sz n - offset)) as Hlb by (unfold zlen in Hz; lia).
  destruct (decide (sz < bn_sz n - offset)) as [Hlt|Hge]; [|destruct (decide (sz = bn_sz n - offset)) as [He|He]].
  - rewrite block_string_spec, bind_Ok by (done || lia). fold b. eexists (offset + sz), (n :: rest), pool, []. split; [by rewrite Ec, take_app_le by lia|]. split; [split; [by constructor|lia]|]. split; [|apply returned_none].
    unfold content. rewrite drop_drop. f_equal. lia.
  - rewrite block_string_spec, bind_Ok by (done || lia). fold b. cbn [return_free_node sb_nodes]. rewrite bind_Ok. cbn [fst snd sb_size]. eexists 0, rest, _, [n]. split; [by rewrite Ec, take_app_le by lia|].
    split; [by apply (layout_rest n rest offset)|]. split; [|apply returned_step, returned_none]. rewrite Ec. rewrite drop_app_ge by lia. rewrite Hlb. unfold content. f_equal. lia.
  - destruct (pop_loop_spec (S (length (n :: rest))) size offset (n :: rest) pool sz skip []) as (offset' & nodes' & pool' & gone & E & H); [done|lia|lia|lia|lia|]. exists offset', nodes', pool', gone. done.
Qed.

Lemma clear_loop_spec nodes size offset pool :
  ∃ pool' offset', clear_loop (length nodes) (mk_sb size offset nodes) pool = Ok (mk_sb size offset' [], pool') ∧ returned nodes pool nodes pool' [] ∧ (offset' = 0 ∨ nodes = [] ∧ offset' = offset).
Proof.
  revert offset pool. induction nodes as [|n rest IH]; intros offset pool; cbn [clear_loop sb_nodes length].
  - exists pool, offset. split; [done|]. split; [apply returned_none|by right].
  - cbn [return_free_node sb_nodes]. rewrite bind_Ok. cbn [fst snd sb_size]. destruct (IH 0 (mk_npool (bn_addr n :: np_free pool) (np_chunks pool) (np_freed pool ++ [bn_ptr n]))) as (pool' & offset' & E & R & Ho).
    exists pool', offset'. split; [done|]. split; [by apply returned_step|]. left. by destruct Ho as [|[_ ->]].
Qed.
Lemma readall_loop_spec nodes size offset pool acc :
  layout nodes offset → zlen (content nodes offset) < 2 ^ 31 →
  ∃ pool', readall_loop (length nodes) (mk_sb size offset nodes) pool acc = Ok (acc ++ content nodes offset, mk_sb size 0 [], pool') ∧ returned nodes pool nodes pool' [].
Proof.
  revert offset pool acc. induction nodes as [|n rest IH]; intros offset pool acc L Hm; cbn [readall_loop sb_nodes length].
  - destruct L as [_ ->]. exists pool. cbn. rewrite app_nil_r. split; [done|apply returned_none].
  - pose proof L as [Hn Ho]. apply Forall_cons in Hn as [Hn Hr]. pose proof (rest_zlen n offset Hn ltac:(lia)) as Hz. pose proof (node_content n rest offset Hn ltac:(lia)) as Ec.
    rewrite Ec, zlen_app, Hz in Hm. pose proof (zlen_nonneg (concat (bn_msg <$> rest))).
    rewrite block_string_spec, bind_Ok by (done || cbn; lia). cbn [return_free_node sb_nodes]. rewrite bind_Ok. cbn [fst snd sb_size sb_offset].
    destruct (IH 0 (mk_npool (bn_addr n :: np_free pool) (np_chunks pool) (np_freed pool ++ [bn_ptr n])) (acc ++ take (Z.to_nat (bn_sz n - offset)) (drop (Z.to_nat offset) (bn_msg n)))) as (pool' & E & R);
      [by apply (layout_rest n rest offset)|change (content rest 0) with (concat (bn_msg <$> rest)); lia|].
    exists pool'. split; [|by apply returned_step]. rewrite E, Ec, <- app_assoc. rewrite take_ge by (unfold zlen in Hz; lia). done.
Qed.

(** ** Lines *)

(** The first place of the separator in a string. *)
Fixpoint find_line (s sep : list Z) : option Z :=
  match s with
  | [] => None
  | _ :: s' => if decide (take (length sep) s = sep) then Some 0 else Z.succ <$> find_line s' sep
  end.
Lemma find_line_short s sep : (length s < length sep)%nat → find_line s sep = None.
Proof.
  induction s as [|c s IH]; [done|]. intros H. cbn [find_line]. rewrite decide_False; [|intros E; apply (f_equal length) in E; rewrite length_take in E; lia]. rewrite IH by (cbn in H; lia). done.
Qed.
Lemma find_line_range s sep i : find_line s sep = Some i → 0 ≤ i ∧ i + zlen sep ≤ zlen s ∧ take (length sep) (drop (Z.to_nat i) s) = sep.
Proof.
  revert i. induction s as [|c s IH]; intros i; [done|]. cbn [find_line]. case_decide as E.
  - intros [= <-]. split; [done|]. split; [|done]. apply (f_equal length) in E. rewrite length_take in E. unfold zlen. lia.
  - destruct (find_line s sep) as [j|]; [|done]. cbn. intros [= <-]. destruct (IH j eq_refl) as (H1 & H2 & H3). rewrite zlen_cons. split; [lia|]. split; [lia|]. by replace (Z.to_nat (Z.succ j)) with (S (Z.to_nat j)) by lia.
Qed.
Lemma read_at_drop l i n : 0 ≤ i → 0 ≤ n → i + n ≤ zlen l → read_at l i n = Ok (take (Z.to_nat n) (drop (Z.to_nat i) l)).
Proof. intros. unfold read_at. by rewrite decide_True. Qed.
(** A string begins with a prefix and what is behind it. *)
Lemma prefix_app_iff (b c sep : list Z) : (length b ≤ length sep)%nat →
  take (length sep) (b ++ c) = sep ↔ b = take (length b) sep ∧ take (length (drop (length b) sep)) c = drop (length b) sep.
Proof.
  intros Hb. assert (sep = take (length b) sep ++ drop (length b) sep) as Es by (by rewrite take_drop).
  rewrite take_app_ge by lia. rewrite length_drop. split.
  - intros E. rewrite Es in E at 2. apply app_inj_1 in E; [done|]. rewrite length_take. lia.
  - intros [E1 E2]. rewrite E2. rewrite E1 at 1. by rewrite take_drop.
Qed.
Lemma check_sep_spec nodes from sep at_ :
  Forall node_ok nodes → match nodes with [] => False | n :: _ => 0 ≤ from ≤ bn_sz n end → 0 ≤ at_ ≤ zlen sep →
  zlen sep - at_ ≤ zlen (content nodes from) →
  check_sep nodes from sep at_ =
    Ok (bool_decide (take (length (drop (Z.to_nat at_) sep)) (content nodes from) = drop (Z.to_nat at_) sep)).
Proof.
  revert from at_. induction nodes as [|n rest IH]; intros from at_ Hall Hf Ha Hl; [done|]. apply Forall_cons in Hall as [Hn Hr]. cbn [check_sep].
  pose proof (rest_zlen n from Hn Hf) as Hz. rewrite (node_content n rest from Hn Hf) in *. rewrite zlen_app in Hl.
  set (b := drop (Z.to_nat from) (bn_msg n)) in *. destruct Hn as [Hn1 Hn2]. set (s := drop (Z.to_nat at_) sep).
  assert (zlen s = zlen sep - at_) as Hs by (unfold s, zlen in *; rewrite length_drop; lia).
  assert (length b = Z.to_nat (bn_sz n - from)) as Hlb by (unfold zlen in *; lia). destruct (decide (zlen sep - at_ ≤ bn_sz n - from)) as [Hle|Hgt].
  - rewrite !read_at_drop, !bind_Ok by lia. fold b s. rewrite (take_ge s) by (unfold zlen in *; lia). do 2 f_equal.
    unfold zlen in *. rewrite take_app_le by lia. by replace (Z.to_nat (Z.of_nat (length sep) - at_)) with (length s) by lia.
  - pose proof (prefix_app_iff b (concat (bn_msg <$> rest)) s ltac:(unfold zlen in *; lia)) as Hiff.
    assert ((if decide (0 < bn_sz n - from) then x ← read_at (bn_msg n) from (bn_sz n - from); c ← read_at sep at_ (bn_sz n - from); Ok (bool_decide (x ≠ c)) else Ok false)
      = Ok (bool_decide (b ≠ take (length b) s))) as ->.
    { case_decide; [rewrite !read_at_drop, !bind_Ok by lia; fold b s; rewrite (take_ge b) by lia; by rewrite Hlb|].
      rewrite (nil_length_inv b) by lia. done. }
    rewrite bind_Ok. destruct (decide (b = take (length b) s)) as [Eb|Eb]; cycle 1.
    { rewrite (bool_decide_eq_true_2 (b ≠ _)) by done. f_equal. symmetry. apply bool_decide_eq_false_2. rewrite Hiff. tauto. }
    rewrite (bool_decide_eq_false_2 (b ≠ _)) by tauto. rewrite IH; [|done| |lia|].
    + assert (drop (Z.to_nat (at_ + (bn_sz n - from))) sep = drop (length b) s) as -> by (unfold s; rewrite drop_drop; f_equal; lia).
      f_equal. apply bool_decide_ext. rewrite Hiff. change (content rest 0) with (concat (bn_msg <$> rest)). tauto.
    + destruct rest as [|m r]; [|apply Forall_cons in Hr as [[Hm _] _]; lia]. unfold zlen in *. cbn in Hl. lia.
    + change (content rest 0) with (concat (bn_msg <$> rest)). lia.
Qed.
Lemma line_loop_spec k i current from n rest sep :
  current = n :: rest → Forall node_ok current → 0 ≤ from < bn_sz n → k = Z.to_nat (zlen (content current from) - zlen sep + 1) →
  line_loop k i current from (bn_sz n - from) sep = Ok (Z.add i <$> find_line (content current from) sep).
Proof.
  revert i current from n rest. induction k as [|k IH]; intros i current from n rest -> Hall Hf Hk; cbn [line_loop].
  { rewrite find_line_short; [done|]. unfold zlen in Hk. lia. }
  pose proof (zlen_nonneg sep). rewrite check_sep_spec, bind_Ok by (done || lia). cbn [drop Z.to_nat]. rewrite drop_0. pose proof Hall as Hall'. apply Forall_cons in Hall' as [Hn Hr]. pose proof (rest_zlen n from Hn ltac:(lia)) as Hz. pose proof (node_content n rest from Hn ltac:(lia)) as Ec.
  pose proof (zlen_nonneg (concat (bn_msg <$> rest))). assert (zlen (content (n :: rest) from) = bn_sz n - from + zlen (concat (bn_msg <$> rest))) as Hzc by (rewrite Ec, zlen_app, Hz; done).
  destruct (content (n :: rest) from) as [|c s] eqn:Es; [unfold zlen in Hzc; cbn in Hzc; lia|]. cbn [find_line]. rewrite zlen_cons in Hzc.
  assert (s = content (n :: rest) (from + 1)) as Es'.
  { unfold content in *. replace (Z.to_nat (from + 1)) with (Z.to_nat from + 1)%nat by lia. rewrite <- drop_drop, Es. done. }
  destruct (decide (take (length sep) (c :: s) = sep)) as [E|E]; [rewrite bool_decide_eq_true_2 by done; cbn; do 2 f_equal; lia|]. rewrite bool_decide_eq_false_2 by done.
  assert (∀ o : option Z, Z.add i <$> (Z.succ <$> o) = Z.add (i + 1) <$> o) as Hadd by (intros [j|]; cbn; [f_equal; lia|done]). rewrite Hadd. rewrite zlen_cons in Hk.
  destruct (decide (bn_sz n - from - 1 = 0)) as [He|He]; cbn [tail].
  - assert (s = concat (bn_msg <$> rest)) as E2.
    { rewrite Es'. rewrite node_content by (done || lia). rewrite drop_ge; [done|]. destruct Hn as [_ Hn]. unfold zlen in Hn. lia. }
    destruct rest as [|m rest]; [by rewrite E2|]. change (concat (bn_msg <$> m :: rest)) with (content (m :: rest) 0) in E2. rewrite E2. rewrite <- (Z.sub_0_r (bn_sz m)) at 1.
    apply (IH _ _ _ m rest); try done; [apply Forall_cons in Hr as [[Hm _] _]; lia|]. rewrite <- E2. lia.
  - rewrite Es'. replace (bn_sz n - from - 1) with (bn_sz n - (from + 1)) by lia. apply (IH _ _ _ n rest); try done; [lia|]. rewrite <- Es'. lia.
Qed.

(** ** Operations on buffers that share a pool *)

Inductive bop : Type :=
| BPush (msg : Z) (bytes : list Z)
| BPop (sz : Z)
| BLine (check : bool) (sep : list Z)
| BAll
| BClear.
Inductive bout : Type :=
| OSize (size : Z)
| OPop (s : option (list Z)) (size : Z)
| OLine (x : option lvalue)
| OAll (s : list Z)
| ONone.
Definition run_op (op : bop) (sb : socket_buffer) (pool : node_pool) : result (bout * socket_buffer * node_pool) :=
  match op with
  | BPush msg bytes => r ← lpushbuffer sb pool msg bytes (zlen bytes); let '(size, sb, pool) := r in Ok (OSize size, sb, pool)
  | BPop sz => r ← lpopbuffer sb pool sz; let '(s, size, sb, pool) := r in Ok (OPop s size, sb, pool)
  | BLine check sep => r ← lreadline sb pool check sep; let '(x, sb, pool) := r in Ok (OLine x, sb, pool)
  | BAll => r ← lreadall sb pool; let '(s, sb, pool) := r in Ok (OAll s, sb, pool)
  | BClear => r ← lclearbuffer sb pool; Ok (ONone, r.1, r.2)
  end.
(** What the operations mean for a string of bytes. *)
Definition spec_op (op : bop) (s : list Z) : bout * list Z :=
  match op with
  | BPush _ bytes => (OSize (zlen (s ++ bytes)), s ++ bytes)
  | BPop sz => if decide (zlen s < sz ∨ sz = 0) then (OPop None (zlen s), s) else (OPop (Some (take (Z.to_nat sz) s)) (zlen s - sz), drop (Z.to_nat sz) s)
  | BLine check sep =>
      match find_line s sep with
      | None => (OLine None, s)
      | Some i => if check then (OLine (Some (VBool true)), s) else (OLine (Some (VStr (take (Z.to_nat i) s))), drop (Z.to_nat (i + zlen sep)) s)
      end
  | BAll => (OAll s, [])
  | BClear => (ONone, [])
  end.
Definition op_ok (s : list Z) (op : bop) : Prop :=
  match op with
  | BPush _ bytes => bytes ≠ [] ∧ zlen (s ++ bytes) < 2 ^ 31
  | BPop sz => 0 ≤ sz < 2 ^ 31
  | BLine _ sep => zlen sep < 2 ^ 31
  | _ => True
  end.
Definition pushed (op : bop) : list Z := match op with BPush msg _ => [msg] | _ => [] end.

(** The buffer holds the string. *)
Record holds_string (sb : socket_buffer) (s : list Z) : Prop := {
  hs_layout : layout (sb_nodes sb) (sb_offset sb);
  hs_content : content (sb_nodes sb) (sb_offset sb) = s;
  hs_size : sb_size sb = zlen s;
  hs_max : zlen s < 2 ^ 31 }.
(** Nodes and blocks that change hands: all nodes of the chunks are free, in this buffer or
    elsewhere; blocks are freed or in this buffer or elsewhere. *)
Record balanced (op : bop) (sb : socket_buffer) (pool : node_pool) (sb' : socket_buffer) (pool' : node_pool) : Prop := {
  bal_nodes : ∀ other, np_free pool ++ (bn_addr <$> sb_nodes sb) ++ other ≡ₚ lnewpool 0 (nodes_of (np_chunks pool)) →
    np_free pool' ++ (bn_addr <$> sb_nodes sb') ++ other ≡ₚ lnewpool 0 (nodes_of (np_chunks pool'));
  bal_blocks : np_freed pool' ++ (bn_ptr <$> sb_nodes sb') ≡ₚ np_freed pool ++ (bn_ptr <$> sb_nodes sb) ++ pushed op }.
Lemma returned_balanced op gone pool sb pool' sb' : pushed op = [] → returned gone pool (sb_nodes sb) pool' (sb_nodes sb') → balanced op sb pool sb' pool'.
Proof.
  intros Hp [R1 R2 R3 R4]. split.
  - intros other H. rewrite R2, R3, <- H, R1, fmap_app. rewrite reverse_Permutation. solve_Permutation.
  - rewrite R4, R1, Hp, fmap_app, app_nil_r. solve_Permutation.
Qed.
Lemma nodes_of_app a b : nodes_of (a ++ b) = nodes_of a + nodes_of b.
Proof. induction a as [|x a IH]; cbn; [done|]. unfold nodes_of in *. lia. Qed.
Lemma lnewpool_app a b : 0 ≤ a → 0 ≤ b → lnewpool 0 (a + b) = lnewpool 0 a ++ lnewpool a b.
Proof.
  intros Ha Hb. unfold lnewpool. replace (Z.to_nat (a + b)) with (Z.to_nat a + Z.to_nat b)%nat by lia. rewrite seq_app, fmap_app. f_equal.
  replace (0 + Z.to_nat a)%nat with (Z.to_nat a + 0)%nat by lia. rewrite <- (fmap_add_seq (Z.to_nat a) 0), <- list_fmap_compose. apply list_fmap_ext. intros i x _. cbn. lia.
Qed.
Lemma chunk_size_pos chunks : 0 < chunk_size chunks.
Proof.
  unfold chunk_size, LARGE_PAGE_NODE. cbv zeta. pose proof (zlen_nonneg chunks). repeat case_decide; rewrite Z.shiftl_mul_pow2 by lia; try lia.
Qed.
Definition chunks_ok (pool : node_pool) : Prop := Forall (λ c, 0 < c) (np_chunks pool).
Lemma nodes_of_nonneg chunks : Forall (λ c, 0 < c) chunks → 0 ≤ nodes_of chunks.
Proof. induction 1 as [|c chunks Hc _ IH]; [done|]. unfold nodes_of in *. cbn. lia. Qed.
Lemma take_node_spec pool :
  chunks_ok pool → ∃ a pool', take_node pool = Ok (a, pool') ∧ chunks_ok pool' ∧ np_freed pool' = np_freed pool ∧
    ∀ used, np_free pool ++ used ≡ₚ lnewpool 0 (nodes_of (np_chunks pool)) → a :: np_free pool' ++ used ≡ₚ lnewpool 0 (nodes_of (np_chunks pool')).
Proof.
  intros Hc. unfold take_node. destruct (np_free pool) as [|a free] eqn:Ef; [|eexists a, _; by split]. pose proof (chunk_size_pos (np_chunks pool)) as Hp. set (size := chunk_size (np_chunks pool)) in *.
  assert (∃ a free, lnewpool (nodes_of (np_chunks pool)) size = a :: free) as (a & free & El).
  { unfold lnewpool. destruct (Z.to_nat size) as [|k] eqn:Ek; [lia|]. cbn. by eexists _, _. }
  rewrite El. eexists a, _. split; [done|]. split; [apply Forall_app; split; [done|by apply Forall_singleton]|]. split; [done|]. intros used H. cbn [np_free np_chunks].
  rewrite nodes_of_app. assert (nodes_of [size] = size) as -> by (unfold nodes_of; cbn; lia). rewrite lnewpool_app by (try apply nodes_of_nonneg; done || lia). rewrite El, <- H. cbn [app]. solve_Permutation.
Qed.

Lemma content_app nodes n offset : layout nodes offset → node_ok n → content (nodes ++ [n]) offset = content nodes offset ++ bn_msg n.
Proof.
  intros [Hn Ho] _. unfold content. rewrite fmap_app, concat_app. cbn. rewrite app_nil_r. rewrite drop_app_le; [done|].
  destruct nodes as [|m rest]; [subst offset; cbn; lia|]. apply Forall_cons in Hn as [[_ Hm] _]. cbn. rewrite length_app. unfold zlen in Hm. lia.
Qed.
Lemma push_op_spec sb pool s msg bytes :
  holds_string sb s → chunks_ok pool → op_ok s (BPush msg bytes) →
  ∃ sb' pool', run_op (BPush msg bytes) sb pool = Ok ((spec_op (BPush msg bytes) s).1, sb', pool') ∧ holds_string sb' (s ++ bytes) ∧ chunks_ok pool' ∧ balanced (BPush msg bytes) sb pool sb' pool'.
Proof.
  intros [L C Hs Hm] Hc [Hb Hmax]. cbn [run_op]. unfold lpushbuffer. assert (0 < zlen bytes) as Hz by (destruct bytes; [done|rewrite zlen_cons; pose proof (zlen_nonneg bytes); lia]).
  pose proof (zlen_nonneg s). rewrite zlen_app in Hmax. rewrite (swrap_small 32) by lia. destruct (take_node_spec pool Hc) as (a & pool' & -> & Hc' & Hfr & Hp). rewrite bind_Ok.
  rewrite c_int_Ok by (unfold INT_MIN, INT_MAX; lia). rewrite !bind_Ok. set (n := mk_node a msg bytes (zlen bytes)). assert (node_ok n) as Hn by (split; done).
  eexists _, _. split; [cbn [spec_op fst]; rewrite zlen_app, Hs; done|]. split; [|split; [done|]].
  - split; cbn [sb_nodes sb_offset sb_size].
    + destruct L as [L1 L2]. split; [apply Forall_app; split; [done|by apply Forall_singleton]|]. destruct (sb_nodes sb); [subst; cbn; lia|done].
    + rewrite content_app by done. by rewrite C.
    + rewrite zlen_app. lia.
    + rewrite zlen_app. lia.
  - split; cbn [sb_nodes].
    + intros other H1. rewrite fmap_app. cbn [fmap list_fmap bn_addr]. rewrite <- Hp by exact H1. cbn [bn_addr n]. solve_Permutation.
    + rewrite Hfr, fmap_app. cbn [pushed]. done.
Qed.
Lemma holds_empty : holds_string (mk_sb 0 0 []) [].
Proof. by split. Qed.
Lemma line_spec sb pool s check sep :
  holds_string sb s → chunks_ok pool → zlen sep < 2 ^ 31 →
  ∃ sb' pool', run_op (BLine check sep) sb pool = Ok ((spec_op (BLine check sep) s).1, sb', pool') ∧ holds_string sb' (spec_op (BLine check sep) s).2 ∧
    chunks_ok pool' ∧ balanced (BLine check sep) sb pool sb' pool'.
Proof.
  intros H Hc Hsep. pose proof H as [L C Hs Hm]. destruct sb as [size offset nodes]; cbn [sb_nodes sb_offset sb_size] in *; subst size. cbn [run_op]. unfold lreadline. cbn [sb_nodes sb_size sb_offset]. pose proof (zlen_nonneg sep).
  assert (balanced (BLine check sep) (mk_sb (zlen s) offset nodes) pool (mk_sb (zlen s) offset nodes) pool) as Bsame by (apply (returned_balanced _ []); [done|apply returned_none]).
  destruct nodes as [|n rest].
  { rewrite bind_Ok. assert (s = []) as -> by (rewrite <- C; unfold content; cbn; by rewrite drop_nil). eexists _, pool. split; [done|]. done. }
  rewrite (swrap_small 32) by lia. rewrite (line_loop_spec _ _ _ _ n rest) by (done || apply L || by rewrite C). rewrite C. rewrite bind_Ok. cbn [spec_op].
  destruct (find_line s sep) as [i|] eqn:Ef; cbn [fmap option_fmap option_map]; [|rewrite bind_Ok; by eexists _, pool]. rewrite Z.add_0_l. destruct check; [rewrite bind_Ok; by eexists _, pool|].
  destruct (find_line_range s sep i Ef) as (Hi & Hl & _).
  destruct (pop_lstring_spec (zlen s) offset (n :: rest) pool (i + zlen sep) (zlen sep)) as (offset' & nodes' & pool' & gone & -> & L' & C' & R); [done|done|lia|rewrite C; lia|lia|].
  rewrite !bind_Ok. cbn [sb_size sb_offset sb_nodes fst snd]. rewrite C in *. eexists _, pool'. split; [by replace (i + zlen sep - zlen sep) with i by lia|].
  split; [|split; [unfold chunks_ok; by rewrite (rt_chunks _ _ _ _ _ R)|by apply (returned_balanced _ gone)]].
  split; cbn [sb_size sb_offset sb_nodes]; [done|done|unfold zlen in *; rewrite length_drop; lia|unfold zlen in *; rewrite length_drop; lia].
Qed.
Lemma run_op_spec op sb pool s :
  holds_string sb s → chunks_ok pool → op_ok s op →
  ∃ sb' pool', run_op op sb pool = Ok ((spec_op op s).1, sb', pool') ∧ holds_string sb' (spec_op op s).2 ∧ chunks_ok pool' ∧ balanced op sb pool sb' pool'.
Proof.
  intros H Hc Hop. destruct op as [msg bytes|sz|check sep| |]; [by apply push_op_spec|..]; destruct H as [L C Hs Hm]; destruct sb as [size offset nodes]; cbn [sb_nodes sb_offset sb_size] in *; subst size; cbn [run_op].
  - cbn [op_ok] in Hop. unfold lpopbuffer. rewrite (swrap_small 32) by lia. cbn [sb_size spec_op]. destruct (decide (zlen s < sz ∨ sz = 0)) as [Hd|Hd].
    + rewrite bind_Ok. eexists _, pool. split; [done|]. split; [by split|]. split; [done|]. apply (returned_balanced _ []); [done|apply returned_none].
    + destruct (pop_lstring_spec (zlen s) offset nodes pool sz 0) as (offset' & nodes' & pool' & gone & -> & L' & C' & R); [done| |lia|rewrite C; lia|lia|].
      { intros ->. unfold content in C. cbn in C. rewrite drop_nil in C. subst s. unfold zlen in Hd. cbn in Hd. lia. }
      rewrite !bind_Ok. cbn [sb_size sb_offset sb_nodes fst snd]. eexists _, pool'. split; [rewrite C, Z.sub_0_r; done|]. rewrite C in C'. split; [|split; [unfold chunks_ok; by rewrite (rt_chunks _ _ _ _ _ R)|by apply (returned_balanced _ gone)]].
      split; cbn [sb_size sb_offset sb_nodes]; [done|done|unfold zlen in *; rewrite length_drop; lia|unfold zlen in *; rewrite length_drop; lia].
  - by apply line_spec.
  - destruct (readall_loop_spec nodes (zlen s) offset pool []) as (pool' & E & R); [done|by rewrite C|]. unfold lreadall. cbn [sb_nodes]. rewrite E, !bind_Ok. cbn [app sb_offset sb_nodes spec_op fst snd]. rewrite C.
    eexists _, pool'. split; [done|]. split; [by apply holds_empty|]. split; [unfold chunks_ok; by rewrite (rt_chunks _ _ _ _ _ R)|by apply (returned_balanced _ nodes)].
  - destruct (clear_loop_spec nodes (zlen s) offset pool) as (pool' & offset' & E & R & Ho). unfold lclearbuffer. cbn [sb_nodes]. rewrite E, !bind_Ok. cbn [sb_offset sb_nodes spec_op fst snd].
    assert (offset' = 0) as -> by (destruct Ho as [|[-> ->]]; [done|apply L]).
    eexists _, pool'. split; [done|]. split; [by apply holds_empty|]. split; [unfold chunks_ok; by rewrite (rt_chunks _ _ _ _ _ R)|by apply (returned_balanced _ nodes)].
Qed.

(** Any number of buffers with one pool: the operations name the buffer. *)
Fixpoint run_ops (ops : list (nat * bop)) (bufs : list socket_buffer) (pool : node_pool) : result (list bout * list socket_buffer * node_pool) :=
  match ops with
  | [] => Ok ([], bufs, pool)
  | (k, op) :: ops =>
      sb ← rd bufs (Z.of_nat k);
      r ← run_op op sb pool;
      let '(o, sb, pool) := r in
      r ← run_ops ops (<[k := sb]> bufs) pool;
      let '(os, bufs, pool) := r in
      Ok (o :: os, bufs, pool)
  end.
Fixpoint spec_ops (ops : list (nat * bop)) (ss : list (list Z)) : list bout * list (list Z) :=
  match ops with
  | [] => ([], ss)
  | (k, op) :: ops =>
      let '(o, s) := spec_op op (default [] (ss !! k)) in
      let '(os, ss) := spec_ops ops (<[k := s]> ss) in
      (o :: os, ss)
  end.
Fixpoint ops_ok (ops : list (nat * bop)) (ss : list (list Z)) : Prop :=
  match ops with
  | [] => True
  | (k, op) :: ops => (k < length ss)%nat ∧ op_ok (default [] (ss !! k)) op ∧ ops_ok ops (<[k := (spec_op op (default [] (ss !! k))).2]> ss)
  end.
Definition all_nodes (bufs : list socket_buffer) : list buffer_node := concat (sb_nodes <$> bufs).
Definition pushed_blocks (ops : list (nat * bop)) : list Z := concat ((pushed ∘ snd) <$> ops).
(** The nodes of all chunks are free or in one buffer. *)
Definition pool_of (bufs : list socket_buffer) (pool : node_pool) : Prop :=
  chunks_ok pool ∧ np_free pool ++ (bn_addr <$> all_nodes bufs) ≡ₚ lnewpool 0 (nodes_of (np_chunks pool)).
Lemma all_nodes_split bufs k sb : bufs !! k = Some sb → ∃ other, all_nodes bufs ≡ₚ sb_nodes sb ++ other ∧ ∀ sb', all_nodes (<[k := sb']> bufs) ≡ₚ sb_nodes sb' ++ other.
Proof.
  intros Hk. exists (all_nodes (take k bufs) ++ all_nodes (drop (S k) bufs)). unfold all_nodes. split.
  - rewrite <- (take_drop_middle _ _ _ Hk) at 1. rewrite fmap_app, concat_app. cbn. solve_Permutation.
  - intros sb'. rewrite insert_take_drop by (by eapply lookup_lt_Some). rewrite fmap_app, concat_app. cbn. solve_Permutation.
Qed.
Lemma run_ops_spec ops bufs pool ss :
  Forall2 holds_string bufs ss → pool_of bufs pool → ops_ok ops ss →
  ∃ bufs' pool', run_ops ops bufs pool = Ok ((spec_ops ops ss).1, bufs', pool') ∧ Forall2 holds_string bufs' (spec_ops ops ss).2 ∧ pool_of bufs' pool' ∧
    np_freed pool' ++ (bn_ptr <$> all_nodes bufs') ≡ₚ np_freed pool ++ (bn_ptr <$> all_nodes bufs) ++ pushed_blocks ops.
Proof.
  revert bufs pool ss. induction ops as [|[k op] ops IH]; intros bufs pool ss Hb Hp Ho.
  { exists bufs, pool. split; [done|]. split; [done|]. split; [done|]. unfold pushed_blocks. cbn. by rewrite app_nil_r. }
  destruct Ho as (Hk & Hop & Ho). cbn [run_ops spec_ops]. pose proof (Forall2_length _ _ _ Hb) as Hlen.
  destruct (lookup_lt_is_Some_2 ss k Hk) as [s Es]. rewrite Es in *. change (default [] (Some s)) with s in *. destruct (lookup_lt_is_Some_2 bufs k) as [sb Esb]; [lia|].
  rewrite (rd_lookup _ _ sb) by (rewrite ?Nat2Z.id; lia || done). rewrite bind_Ok. destruct Hp as [Hc Hp].
  destruct (run_op_spec op sb pool s (Forall2_lookup_lr _ _ _ _ _ _ Hb Esb Es) Hc Hop) as (sb' & pool1 & -> & Hs' & Hc' & [B1 B2]). rewrite bind_Ok.
  destruct (all_nodes_split bufs k sb Esb) as (other & A1 & A2). destruct (spec_op op s) as [o s'] eqn:Eo. cbn [fst snd] in *.
  destruct (IH (<[k := sb']> bufs) pool1 (<[k := s']> ss)) as (bufs' & pool' & -> & Hb' & Hp' & Hbl); [by apply Forall2_insert| |done|].
  { split; [done|]. rewrite (A2 sb'), fmap_app. apply B1. by rewrite <- Hp, A1, fmap_app. }
  rewrite bind_Ok. destruct (spec_ops ops (<[k := s']> ss)) as [os ss']. cbn [fst snd] in *. exists bufs', pool'. split; [done|]. split; [done|]. split; [done|].
  rewrite Hbl, (A2 sb'), A1, !fmap_app. unfold pushed_blocks. cbn [fmap list_fmap concat]. unfold compose at 3. cbn [snd].
  rewrite !app_assoc. rewrite B2. solve_Permutation.
Qed.

(** A negative size passes the test of [lpopbuffer]: on a buffer that holds bytes Lua raises
    an error before anything changed, on an empty one the code follows a NULL head. *)
Lemma pop_negative sb s pool sz :
  holds_string sb s → - 2 ^ 31 ≤ sz < 0 → lpopbuffer sb pool sz = Err (if decide (s = []) then NullDeref else LuaError 0).
Proof.
  intros [[Hall Ho] Hc Hs _] Hz. pose proof (zlen_nonneg s). unfold lpopbuffer. rewrite (swrap_small 32) by lia. rewrite decide_False by lia.
  unfold pop_lstring. destruct (sb_nodes sb) as [|n rest].
  - rewrite decide_True; [done|]. rewrite <- Hc. unfold content. cbn. by rewrite drop_nil.
  - apply Forall_cons in Hall as [Hn _]. rewrite decide_True by lia. unfold block_string, lua_pushlstring. rewrite decide_True by lia.
    rewrite decide_False; [done|]. intros ->. apply (f_equal zlen) in Hc. rewrite node_content, zlen_app, rest_zlen in Hc by (done || lia).
    pose proof (zlen_nonneg (concat (bn_msg <$> rest))). change (zlen []) with 0 in Hc. lia.
Qed.

(** C22: the buffers of sockets that share a pool of nodes. Through any pushes of non-empty
    blocks, reads of 0 to 2^31 - 1 bytes, reads of lines with any separator, reads of
    everything and clearing, as long as no buffer holds 2^31 bytes, each buffer is to its
    user the string of the bytes pushed and not yet read; no node is in two places, and
    every block is freed once or still waits. A read of a negative number of bytes is a Lua
    error that changes nothing, or on an empty buffer a NULL dereference. *)
Theorem buffers_are_strings n ops :
  ops_ok ops (replicate n []) →
  ∃ bufs pool, run_ops ops (replicate n lnewbuffer) no_pool = Ok ((spec_ops ops (replicate n [])).1, bufs, pool) ∧
    Forall2 holds_string bufs (spec_ops ops (replicate n [])).2 ∧ NoDup (np_free pool ++ (bn_addr <$> all_nodes bufs)) ∧
    np_freed pool ++ (bn_ptr <$> all_nodes bufs) ≡ₚ pushed_blocks ops ∧
    ∀ k sb s sz, bufs !! k = Some sb → (spec_ops ops (replicate n [])).2 !! k = Some s → - 2 ^ 31 ≤ sz < 0 →
      lpopbuffer sb pool sz = Err (if decide (s = []) then NullDeref else LuaError 0).
Proof.
  intros Ho. assert (all_nodes (replicate n lnewbuffer) = []) as Ea by (clear; unfold all_nodes; by induction n). destruct (run_ops_spec ops (replicate n lnewbuffer) no_pool (replicate n [])) as (bufs & pool & E & Hs & [_ Hp] & Hb).
  - apply Forall2_replicate. by apply holds_empty.
  - split; [constructor|]. by rewrite Ea.
  - done.
  - exists bufs, pool. split; [done|]. split; [done|]. split; [rewrite Hp; unfold lnewpool; apply NoDup_fmap_2; [intros x y; lia|apply NoDup_seq]|]. split; [by rewrite Hb, Ea|].
    intros k sb s sz Hk Hks. apply pop_negative. by apply (Forall2_lookup_lr _ _ _ _ _ _ Hs Hk).
Qed.
(** A line that ends across two blocks, while another buffer holds its own bytes. *)
Lemma buffers_are_strings_witness :
  ∃ bufs pool, run_ops [(0%nat, BPush 70 [65; 66; 13]); (1%nat, BPush 71 [1]); (0%nat, BPush 72 [10; 67]); (0%nat, BLine false [13; 10]); (0%nat, BPop 5); (0%nat, BPop 1); (1%nat, BAll)]
      (replicate 2 lnewbuffer) no_pool =
    Ok ([OSize 3; OSize 1; OSize 5; OLine (Some (VStr [65; 66])); OPop None 1; OPop (Some [67]) 0; OAll [1]], bufs, pool) ∧
    np_freed pool ++ (bn_ptr <$> all_nodes bufs) ≡ₚ [70; 71; 72].
Proof.
  destruct (buffers_are_strings 2 [(0%nat, BPush 70 [65; 66; 13]); (1%nat, BPush 71 [1]); (0%nat, BPush 72 [10; 67]); (0%nat, BLine false [13; 10]); (0%nat, BPop 5); (0%nat, BPop 1); (1%nat, BAll)])
    as (bufs & pool & E & _ & _ & H & _).
  - cbn. repeat split; try lia; discriminate.
  - exists bufs, pool. split; [exact E|exact H].
Defined.
