(* ===== verification/Stm.v ===== *)
(** * Shared objects of Lua services: lualib-src/lua-stm.c

    One writer publishes copies of a message; readers in other threads take the newest copy
    and keep it until they see a newer one. The functions run one access of shared memory
    at a time, so that a schedule of the threads is a list of events. The lock of an object
    is taken as Locks shows it: readers exclude a writer, a writer excludes all. Copies are
    numbered in the order they are made. The counts are unbounded: a thread counts one
    at a time and holds what it counts in memory. *)
From stdpp Require Import base numbers list.
From S2P Require Import Prelude.

(** ** State *)

(** [struct stm_copy], and whether it was freed with its message. *)
Record stm_copy : Type := mk_copy { c_reference : Z; c_sz : Z; c_msg : list Z; c_freed : bool }.
(** [struct stm_object] with its lock, and whether it was freed. *)
Record stm_object : Type := mk_obj { o_readers : Z; o_writer : bool; o_reference : Z; o_copy : option nat; o_freed : bool }.

(** Where the writer is: between calls, or in [stm_update], [stm_release] or [stm_grab]. *)
Inductive wpc : Type :=
| WIdle
| WUpdate (c : nat)            (** the new copy is made *)
| WUpdate1 (c : nat)           (** locked *)
| WUpdate2 (old : option nat)  (** the copy is exchanged *)
| WUpdate3 (old : option nat)  (** unlocked *)
| WRelease                     (** past the assert *)
| WRelease1                    (** locked *)
| WRelease2                    (** the copy is released *)
| WRelease3                    (** the copy is NULL *)
| WRelease4                    (** references are left *)
| WRelease5                    (** none is left *)
| WGrab
| WGrab1                       (** locked *)
| WGrab2 (ref : Z)             (** counted; [ref] is the count before *)
| WGrab3 (ref : Z)             (** unlocked *)
| WDone.
(** Where a reader with its last copy is: between calls, in [lread], or in [ldeletereader]. *)
Inductive rpc : Type :=
| RIdle (last : option nat)
| RRead (last : option nat)
| RRead1 (last : option nat)                  (** locked *)
| RRead2 (last ret : option nat)              (** the copy is read *)
| RRead3 (last ret : option nat)              (** and counted *)
| RRead4 (last ret : option nat)              (** unlocked *)
| RCall (c : nat)                             (** the function runs on a new copy *)
| RDelete (last : option nat)
| RDelete1 (last : option nat)                (** locked *)
| RDelete2 (last : option nat)                (** references are left *)
| RDelete3 (last : option nat)                (** none is left *)
| RDelete4 (last : option nat)                (** the object is given up *)
| RDone.
Global Instance wpc_dec : EqDecision wpc.
Proof. solve_decision. Defined.
Record stm : Type := mk_stm { s_obj : stm_object; s_copies : list stm_copy; s_wr : wpc; s_rd : list rpc }.

(** The copy [stm_newcopy] makes; the size comes as a [size_t], passes an [int32_t] and is
    kept as a [uint32_t]. *)
Definition new_copy (msg : list Z) (sz : Z) : stm_copy := mk_copy 1 (u32 sz) msg false.
(** [stm_new] by [lnewwriter]. *)
Definition stm_new (msg : list Z) (sz : Z) : stm := mk_stm (mk_obj 0 false 1 (Some 0%nat) false) [new_copy msg sz] WIdle [].

(** A new reader has seen no copy. *)
Definition lnewreader : rpc := RIdle None.

(** ** Accesses *)

Definition with_obj (o : stm_object) (s : stm) : stm := mk_stm o (s_copies s) (s_wr s) (s_rd s).
Definition with_wr (w : wpc) (s : stm) : stm := mk_stm (s_obj s) (s_copies s) w (s_rd s).
Definition with_rd (i : nat) (r : rpc) (s : stm) : stm := mk_stm (s_obj s) (s_copies s) (s_wr s) (<[i := r]> (s_rd s)).
(** The object, when it was not freed. *)
Definition live (s : stm) : result stm_object := if o_freed (s_obj s) then Err UseAfterFree else Ok (s_obj s).
(** The lock functions; [None] is a thread that has to wait. *)
Definition rlock_obj (s : stm) : result (option stm) :=
  o ← live s; Ok (if o_writer o then None else Some (with_obj (mk_obj (o_readers o + 1) (o_writer o) (o_reference o) (o_copy o) (o_freed o)) s)).
Definition runlock_obj (s : stm) : result stm :=
  o ← live s; Ok (with_obj (mk_obj (o_readers o - 1) (o_writer o) (o_reference o) (o_copy o) (o_freed o)) s).
Definition wlock_obj (s : stm) : result (option stm) :=
  o ← live s;
  Ok (if decide (o_writer o = true ∨ o_readers o ≠ 0) then None else Some (with_obj (mk_obj (o_readers o) true (o_reference o) (o_copy o) (o_freed o)) s)).
Definition wunlock_obj (s : stm) : result stm :=
  o ← live s; Ok (with_obj (mk_obj (o_readers o) false (o_reference o) (o_copy o) (o_freed o)) s).
Definition add_reference (n : Z) (s : stm) : result (Z * stm) :=
  o ← live s; Ok (o_reference o + n, with_obj (mk_obj (o_readers o) (o_writer o) (o_reference o + n) (o_copy o) (o_freed o)) s).
Definition set_copy (c : option nat) (s : stm) : result stm :=
  o ← live s; Ok (with_obj (mk_obj (o_readers o) (o_writer o) (o_reference o) c (o_freed o)) s).
Definition free_obj (s : stm) : result stm :=
  o ← live s; Ok (with_obj (mk_obj (o_readers o) (o_writer o) (o_reference o) (o_copy o) true) s).
Definition live_copy (c : nat) (s : stm) : result stm_copy :=
  x ← of_option NullDeref (s_copies s !! c); if c_freed x then Err UseAfterFree else Ok x.
Definition put_copy (c : nat) (x : stm_copy) (s : stm) : stm := mk_stm (s_obj s) (<[c := x]> (s_copies s)) (s_wr s) (s_rd s).
(** [ATOM_FINC] of a copy's reference, and the assert. *)
Definition count_copy (c : nat) (s : stm) : result stm :=
  x ← live_copy c s; c_assert (bool_decide (0 < c_reference x));; Ok (put_copy c (mk_copy (c_reference x + 1) (c_sz x) (c_msg x) false) s).
Definition stm_releasecopy (c : option nat) (s : stm) : result stm :=
  match c with
  | None => Ok s
  | Some c => x ← live_copy c s; Ok (put_copy c (mk_copy (c_reference x - 1) (c_sz x) (c_msg x) (bool_decide (c_reference x - 1 = 0))) s)
  end.
Definition stm_newcopy (msg : list Z) (sz : Z) (s : stm) : nat * stm :=
  (length (s_copies s), mk_stm (s_obj s) (s_copies s ++ [new_copy msg sz]) (s_wr s) (s_rd s)).

(** ** Threads *)

(** The calls of a service: [__call], [__gc] and [copy] of the writer, [__call] and [__gc] of
    a reader. *)
Inductive wact : Type := AUpdate (msg : list Z) (sz : Z) | ARelease | AGrab.
Inductive ract : Type := ARead | ADelete.

(** An access, and where the thread is after it; [wait] when it takes a lock. *)
Definition go_wr (w : wpc) (r : result stm) : result (option stm) := s ← r; Ok (Some (with_wr w s)).
Definition wait_wr (w : wpc) (r : result (option stm)) : result (option stm) := o ← r; Ok (option_map (with_wr w) o).
Definition go_rd (i : nat) (p : rpc) (r : result stm) : result (option stm) := s ← r; Ok (Some (with_rd i p s)).
Definition wait_rd (i : nat) (p : rpc) (r : result (option stm)) : result (option stm) := o ← r; Ok (option_map (with_rd i p) o).

Definition stm_release (s : stm) : result (option stm) :=
  match s_wr s with
  | WIdle => o ← live s; c_assert (bool_decide (o_copy o ≠ None));; Ok (Some (with_wr WRelease s))
  | WRelease => wait_wr WRelease1 (wlock_obj s)
  | WRelease1 => o ← live s; go_wr WRelease2 (stm_releasecopy (o_copy o) s)
  | WRelease2 => go_wr WRelease3 (set_copy None s)
  | WRelease3 => r ← add_reference (-1) s; Ok (Some (with_wr (if decide (0 < r.1) then WRelease4 else WRelease5) r.2))
  | WRelease4 => go_wr WDone (wunlock_obj s)
  | WRelease5 => go_wr WDone (free_obj s)
  | _ => Ok None
  end.
(** With the pointer [lcopy] returns, a service makes a reader by [lnewreader]. *)
Definition stm_grab (s : stm) : result (option stm) :=
  match s_wr s with
  | WIdle => Ok (Some (with_wr WGrab s))
  | WGrab => wait_wr WGrab1 (rlock_obj s)
  | WGrab1 => r ← add_reference 1 s; Ok (Some (with_wr (WGrab2 (r.1 - 1)) r.2))
  | WGrab2 ref => go_wr (WGrab3 ref) (runlock_obj s)
  | WGrab3 ref => c_assert (bool_decide (0 < ref));; Ok (Some (mk_stm (s_obj s) (s_copies s) WIdle (s_rd s ++ [lnewreader])))
  | _ => Ok None
  end.
Definition stm_update (msg : list Z) (sz : Z) (s : stm) : result (option stm) :=
  match s_wr s with
  | WIdle => let '(c, s) := stm_newcopy msg sz s in Ok (Some (with_wr (WUpdate c) s))
  | WUpdate c => wait_wr (WUpdate1 c) (wlock_obj s)
  | WUpdate1 c => o ← live s; go_wr (WUpdate2 (o_copy o)) (set_copy (Some c) s)
  | WUpdate2 old => go_wr (WUpdate3 old) (wunlock_obj s)
  | WUpdate3 old => go_wr WIdle (stm_releasecopy old s)
  | _ => Ok None
  end.
(** The next access of the writer; [act] is the call it makes when it is idle. *)
Definition writer_step (act : wact) (s : stm) : result (option stm) :=
  match s_wr s with
  | WIdle => match act with AUpdate msg sz => stm_update msg sz s | ARelease => stm_release s | AGrab => stm_grab s end
  | WUpdate _ | WUpdate1 _ | WUpdate2 _ | WUpdate3 _ => stm_update [] 0 s
  | WRelease | WRelease1 | WRelease2 | WRelease3 | WRelease4 | WRelease5 => stm_release s
  | WGrab | WGrab1 | WGrab2 _ | WGrab3 _ => stm_grab s
  | WDone => Ok None
  end.

(** The function [stm_copy] for reader [i]. *)
Definition copy_step (i : nat) (p : rpc) (s : stm) : result (option stm) :=
  match p with
  | RRead last => wait_rd i (RRead1 last) (rlock_obj s)
  | RRead1 last => o ← live s; Ok (Some (with_rd i (RRead2 last (o_copy o)) s))
  | RRead2 last ret => go_rd i (RRead3 last ret) (match ret with None => Ok s | Some c => count_copy c s end)
  | RRead3 last ret => go_rd i (RRead4 last ret) (runlock_obj s)
  | _ => Ok None
  end.
Definition lread (i : nat) (p : rpc) (s : stm) : result (option stm) :=
  match p with
  | RIdle last => Ok (Some (with_rd i (RRead last) s))
  | RRead4 last ret =>
      if decide (ret = last) then go_rd i (RIdle last) (stm_releasecopy ret s)
      else go_rd i (match ret with Some c => RCall c | None => RIdle None end) (stm_releasecopy last s)
  | RCall c => x ← live_copy c s; Ok (Some (with_rd i (RIdle (Some c)) s))
  | _ => copy_step i p s
  end.
Definition stm_releasereader (i : nat) (p : rpc) (s : stm) : result (option stm) :=
  match p with
  | RDelete last => wait_rd i (RDelete1 last) (rlock_obj s)
  | RDelete1 last => r ← add_reference (-1) s; Ok (Some (with_rd i (if decide (r.1 = 0) then RDelete3 last else RDelete2 last) r.2))
  | RDelete2 last => go_rd i (RDelete4 last) (runlock_obj s)
  | RDelete3 last => o ← live s; c_assert (bool_decide (o_copy o = None));; go_rd i (RDelete4 last) (free_obj s)
  | _ => Ok None
  end.
Definition ldeletereader (i : nat) (p : rpc) (s : stm) : result (option stm) :=
  match p with
  | RIdle last => Ok (Some (with_rd i (RDelete last) s))
  | RDelete4 last => go_rd i RDone (stm_releasecopy last s)
  | _ => stm_releasereader i p s
  end.
(** The next access of a reader; [act] is the call it makes when it is idle. *)
Definition reader_step (i : nat) (act : ract) (s : stm) : result (option stm) :=
  match s_rd s !! i with
  | None => Ok None
  | Some p =>
      match p with
      | RIdle _ => match act with ARead => lread i p s | ADelete => ldeletereader i p s end
      | RRead _ | RRead1 _ | RRead2 _ _ | RRead3 _ _ | RRead4 _ _ | RCall _ => lread i p s
      | RDelete _ | RDelete1 _ | RDelete2 _ | RDelete3 _ | RDelete4 _ => ldeletereader i p s
      | RDone => Ok None
      end
  end.
Inductive stm_event : Type := EWriter (act : wact) | EReader (i : nat) (act : ract).
Definition fire (e : stm_event) (s : stm) : result (option stm) :=
  match e with EWriter act => writer_step act s | EReader i act => reader_step i act s end.
(** A schedule; events of threads that have to wait are passed over. *)
Fixpoint run (es : list stm_event) (s : stm) : result stm :=
  match es with
  | [] => Ok s
  | e :: es => o ← fire e s; run es (default s o)
  end.

(** ** Holders *)

(** The references a copy has from a variable. *)
Definition at_ (o : option nat) (c : nat) : Z := if decide (o = Some c) then 1 else 0.
Definition w_holds (w : wpc) (c : nat) : Z :=
  match w with
  | WUpdate d | WUpdate1 d => at_ (Some d) c
  | WUpdate2 old | WUpdate3 old => at_ old c
  | _ => 0
  end.
Definition r_holds (c : nat) (p : rpc) : Z :=
  match p with
  | RIdle last | RRead last | RRead1 last | RRead2 last _ | RDelete last | RDelete1 last | RDelete2 last
  | RDelete3 last | RDelete4 last => at_ last c
  | RRead3 last ret | RRead4 last ret => at_ last c + at_ ret c
  | RCall d => at_ (Some d) c
  | RDone => 0
  end.
(** The object's reference to a copy, which [stm_release] gives up before it clears it. *)
Definition o_holds (s : stm) (c : nat) : Z := match s_wr s with WRelease2 => 0 | _ => at_ (o_copy (s_obj s)) c end.
(** Who counts in the reference of the object, in its lock, and who frees it. *)
Definition w_ref (w : wpc) : Z :=
  match w with WGrab2 _ | WGrab3 _ => 2 | WRelease4 | WRelease5 | WDone => 0 | _ => 1 end.
Definition r_ref (p : rpc) : Z :=
  match p with RDelete2 _ | RDelete3 _ | RDelete4 _ | RDone => 0 | _ => 1 end.
Definition w_reads (w : wpc) : Z := match w with WGrab1 | WGrab2 _ => 1 | _ => 0 end.
Definition r_reads (p : rpc) : Z :=
  match p with RRead1 _ | RRead2 _ _ | RRead3 _ _ | RDelete1 _ | RDelete2 _ | RDelete3 _ => 1 | _ => 0 end.
Definition w_writes (w : wpc) : bool :=
  match w with
  | WUpdate1 _ | WUpdate2 _ | WRelease1 | WRelease2 | WRelease3 | WRelease4 | WRelease5 => true
  | _ => false
  end.
Definition w_frees (w : wpc) : Z := match w with WRelease5 => 1 | _ => 0 end.
Definition r_frees (p : rpc) : Z := match p with RDelete3 _ => 1 | _ => 0 end.
Definition r_leaves (p : rpc) : Z := match p with RDelete2 _ => 1 | _ => 0 end.

Fixpoint total (f : rpc → Z) (l : list rpc) : Z := match l with [] => 0 | p :: l => f p + total f l end.
Definition holders (s : stm) (c : nat) : Z := o_holds s c + w_holds (s_wr s) c + total (r_holds c) (s_rd s).

Lemma total_insert f l i p p' : l !! i = Some p → total f (<[i := p']> l) = total f l - f p + f p'.
Proof.
  revert i. induction l as [|q l IH]; intros [|i] Hi; [done|done|..].
  - injection Hi as ->. cbn [insert list_insert total]. lia.
  - change (<[S i := p']> (q :: l)) with (q :: <[i := p']> l). cbn [total]. rewrite (IH i Hi). lia.
Qed.
Lemma total_snoc f l p : total f (l ++ [p]) = total f l + f p.
Proof. induction l as [|q l IH]; cbn; [lia|]. rewrite IH. lia. Qed.
Lemma total_ge f l i p : (∀ p, 0 ≤ f p) → l !! i = Some p → f p ≤ total f l.
Proof.
  intros Hf. revert i. induction l as [|q l IH]; intros [|i] Hi; cbn in *; simplify_eq.
  - assert (0 ≤ total f l); [|lia]. clear -Hf. induction l as [|q l IH]; cbn; [done|]. specialize (Hf q). lia.
  - specialize (IH i Hi). specialize (Hf q). lia.
Qed.
Lemma total_nonneg f l : (∀ p, 0 ≤ f p) → 0 ≤ total f l.
Proof. intros Hf. induction l as [|q l IH]; cbn; [done|]. specialize (Hf q). lia. Qed.
Lemma total_le_length f l : (∀ p, f p ≤ 1) → total f l ≤ zlen l.
Proof. intros Hf. induction l as [|q l IH]; cbn; [done|]. specialize (Hf q). rewrite zlen_cons. lia. Qed.
Lemma total_lt f l i p : (∀ p, f p ≤ 1) → l !! i = Some p → f p = 0 → total f l < zlen l.
Proof.
  intros Hf. revert i. induction l as [|q l IH]; intros [|i] Hi Hp; cbn in *; simplify_eq; rewrite zlen_cons.
  - pose proof (total_le_length f l Hf). lia.
  - specialize (IH i Hi Hp). specialize (Hf q). lia.
Qed.
Lemma at_nonneg o c : 0 ≤ at_ o c.
Proof. unfold at_. case_decide; lia. Qed.
Lemma at_None c : at_ None c = 0.
Proof. done. Qed.
Lemma at_eq c : at_ (Some c) c = 1.
Proof. unfold at_. by rewrite decide_True. Qed.
Lemma r_holds_nonneg c p : 0 ≤ r_holds c p.
Proof. destruct p; cbn; try done; try apply at_nonneg; apply Z.add_nonneg_nonneg; apply at_nonneg. Qed.

(** ** Counting of copies *)

(** Every copy counts its holders and is freed when it has none. *)
Definition counted (cs : list stm_copy) (h : nat → Z) : Prop :=
  ∀ c, match cs !! c with
       | Some x => c_reference x = h c ∧ c_freed x = bool_decide (h c = 0)
       | None => h c = 0
       end.

Lemma counted_ext cs h h' : (∀ c, h c = h' c) → counted cs h → counted cs h'.
Proof. intros E H c. specialize (H c). by rewrite <- E. Qed.
Lemma counted_live s h c :
  counted (s_copies s) h → 0 < h c → ∃ x, s_copies s !! c = Some x ∧ live_copy c s = Ok x ∧ c_reference x = h c.
Proof.
  intros H Hc. specialize (H c). unfold live_copy. destruct (s_copies s !! c) as [x|] eqn:E; [|lia].
  destruct H as [Hr Hf]. rewrite bool_decide_eq_false_2 in Hf by lia. exists x. cbn. by rewrite Hf.
Qed.
Lemma counted_insert cs h h' c x :
  counted cs h → is_Some (cs !! c) → (∀ d, d ≠ c → h' d = h d) →
  c_reference x = h' c → c_freed x = bool_decide (h' c = 0) → counted (<[c := x]> cs) h'.
Proof.
  intros H Hs Hne Hr Hf d. destruct (decide (d = c)) as [->|Hd].
  - rewrite list_lookup_insert_eq by by apply lookup_lt_is_Some. done.
  - rewrite list_lookup_insert_ne, (Hne d Hd) by done. apply H.
Qed.
Lemma releasecopy_ok o s h h' :
  counted (s_copies s) h → (∀ c, 0 ≤ h' c) → (∀ c, h c = h' c + at_ o c) →
  ∃ cs, stm_releasecopy o s = Ok (mk_stm (s_obj s) cs (s_wr s) (s_rd s)) ∧ counted cs h'.
Proof.
  intros H Hp E. destruct o as [c|]; cbn [stm_releasecopy].
  - assert (h c = h' c + 1) as Ec by (by rewrite E, at_eq).
    specialize (Hp c) as Hpc. destruct (counted_live s h c H) as (x & Hx & -> & Hr); [lia|]. cbn. eexists; split; [done|].
    eapply counted_insert; [done|by eexists|..]; cbn.
    + intros d Hd. rewrite E. unfold at_. rewrite decide_False by congruence. lia.
    + lia.
    + apply bool_decide_ext. lia.
  - exists (s_copies s). split; [by destruct s|]. eapply counted_ext; [|done]. intros c. rewrite E, at_None. lia.
Qed.
Lemma count_copy_ok c s h h' :
  counted (s_copies s) h → 0 < h c → (∀ d, h' d = h d + at_ (Some c) d) →
  ∃ cs, count_copy c s = Ok (mk_stm (s_obj s) cs (s_wr s) (s_rd s)) ∧ counted cs h'.
Proof.
  intros H Hc E. unfold count_copy. destruct (counted_live s h c H Hc) as (x & Hx & -> & Hr). cbn.
  rewrite Hr, bool_decide_eq_true_2 by done. cbn. eexists; split; [done|].
  assert (h' c = h c + 1) as Ec by (by rewrite E, at_eq).
  eapply counted_insert; [done|by eexists|..]; cbn.
  - intros d Hd. rewrite E. unfold at_. rewrite decide_False by congruence. lia.
  - lia.
  - rewrite bool_decide_eq_false_2; [done|lia].
Qed.
Lemma newcopy_ok msg sz s h h' :
  counted (s_copies s) h → (∀ d, h' d = h d + at_ (Some (length (s_copies s))) d) →
  counted (s_copies s ++ [new_copy msg sz]) h'.
Proof.
  intros H E c. specialize (H c) as Hc. rewrite E. unfold at_. destruct (decide (length (s_copies s) = c)) as [<-|Hne].
  - rewrite lookup_ge_None_2 in Hc by done. rewrite lookup_app_r, Nat.sub_diag by done. rewrite decide_True by done. cbn. rewrite Hc. done.
  - rewrite decide_False by congruence. rewrite Z.add_0_r. destruct (decide (c < length (s_copies s))%nat).
    + by rewrite lookup_app_l by done.
    + rewrite lookup_ge_None_2 in Hc by lia. rewrite lookup_ge_None_2; [done|]. rewrite length_app. cbn. lia.
Qed.

(** ** The invariant *)

Definition cleared (w : wpc) : bool := match w with WRelease3 | WRelease4 | WRelease5 | WDone => true | _ => false end.

Definition reads_copy (o : option nat) (p : rpc) : Prop := match p with RRead2 _ ret => o = ret | _ => True end.

Record inv (s : stm) : Prop := {
  i_copies : counted (s_copies s) (holders s);
  i_ref : o_reference (s_obj s) = w_ref (s_wr s) + total r_ref (s_rd s);
  i_frees : w_frees (s_wr s) + total r_frees (s_rd s) =
            if o_freed (s_obj s) then 0 else if decide (o_reference (s_obj s) = 0) then 1 else 0;
  i_lock : o_freed (s_obj s) = false →
           o_readers (s_obj s) = w_reads (s_wr s) + total r_reads (s_rd s) ∧ o_writer (s_obj s) = w_writes (s_wr s);
  i_excl : o_freed (s_obj s) = false → w_writes (s_wr s) = true → total r_reads (s_rd s) = 0;
  i_freed : o_freed (s_obj s) = true →
            s_wr s = WDone ∧ o_reference (s_obj s) = 0 ∧
            (total r_leaves (s_rd s) = 0 ∨ total r_leaves (s_rd s) < zlen (s_rd s));
  i_null : bool_decide (o_copy (s_obj s) = None) = cleared (s_wr s);
  i_grab : match s_wr s with WGrab2 r | WGrab3 r => 0 < r | _ => True end;
  i_read : Forall (reads_copy (o_copy (s_obj s))) (s_rd s) }.

Lemma inv_new msg sz : inv (stm_new msg sz).
Proof.
  split; cbn; try done. intros [|c]; [done|]. cbn -[at_]. unfold holders, o_holds, at_. by rewrite decide_False.
Qed.

(** An access that goes well, and what the thread then finds. *)
Definition good (r : result (option stm)) : Prop := ∃ o, r = Ok o ∧ ∀ s, o = Some s → inv s.
Lemma good_some s : inv s → good (Ok (Some s)).
Proof. intros H. exists (Some s). split; [done|]. by intros ? [= <-]. Qed.
Lemma good_none : good (Ok None).
Proof. by exists None. Qed.

Lemma weights_nonneg p : 0 ≤ r_ref p ∧ 0 ≤ r_reads p ∧ 0 ≤ r_frees p ∧ 0 ≤ r_leaves p ∧ r_leaves p ≤ 1 ∧ r_leaves p ≤ r_reads p.
Proof. destruct p; cbn; lia. Qed.
Lemma w_nonneg w : 0 ≤ w_ref w ∧ 0 ≤ w_frees w.
Proof. destruct w; cbn; lia. Qed.
Lemma totals_nonneg l : 0 ≤ total r_ref l ∧ 0 ≤ total r_reads l ∧ 0 ≤ total r_frees l ∧ 0 ≤ total r_leaves l ∧ total r_leaves l ≤ total r_reads l.
Proof.
  split_and!; try (apply total_nonneg; intros p; apply (weights_nonneg p)).
  induction l as [|p l IH]; cbn; [done|]. pose proof (weights_nonneg p). lia.
Qed.

(** The object is there while the writer is not done, and a live copy is what the object holds. *)
Lemma writer_live s : inv s → s_wr s ≠ WDone → o_freed (s_obj s) = false ∧ live s = Ok (s_obj s).
Proof.
  intros I Hw. unfold live. destruct (o_freed (s_obj s)) eqn:E; [|done]. destruct (i_freed s I E) as [? _]. done.
Qed.
Lemma reader_live s i p :
  inv s → s_rd s !! i = Some p → 0 < r_ref p + r_frees p → o_freed (s_obj s) = false ∧ live s = Ok (s_obj s).
Proof.
  intros I Hi Hp. unfold live. destruct (o_freed (s_obj s)) eqn:E; [|done]. exfalso.
  destruct (i_freed s I E) as (Hw & H0 & _). pose proof (i_ref s I) as Hr. pose proof (i_frees s I) as Hf. rewrite E, Hw in Hf. rewrite Hw in Hr. cbn in Hr, Hf.
  pose proof (total_ge r_ref _ _ _ (λ p, proj1 (weights_nonneg p)) Hi).
  pose proof (total_ge r_frees _ _ _ ltac:(intros q; apply weights_nonneg) Hi). pose proof (weights_nonneg p). pose proof (totals_nonneg (s_rd s)). lia.
Qed.

Lemma holders_parts s c : 0 ≤ o_holds s c ∧ 0 ≤ w_holds (s_wr s) c ∧ 0 ≤ total (r_holds c) (s_rd s).
Proof.
  split_and!; [unfold o_holds; case_match|destruct (s_wr s)|apply total_nonneg, r_holds_nonneg]; solve [done|apply at_nonneg].
Qed.
Lemma holders_nonneg s c : 0 ≤ holders s c.
Proof. unfold holders. pose proof (holders_parts s c). lia. Qed.
Lemma holders_object s c : w_writes (s_wr s) = false → o_copy (s_obj s) = Some c → 0 < holders s c.
Proof.
  intros Hw Ho. pose proof (holders_parts s c). assert (o_holds s c = 1); [|unfold holders; lia].
  unfold o_holds. rewrite Ho, at_eq. by destruct (s_wr s).
Qed.
Lemma holders_reader s c i p : s_rd s !! i = Some p → r_holds c p ≤ holders s c.
Proof.
  intros Hi. pose proof (holders_parts s c). pose proof (total_ge (r_holds c) _ _ _ (r_holds_nonneg c) Hi). unfold holders. lia.
Qed.
Lemma reader_holds_live s i p c : inv s → s_rd s !! i = Some p → 0 < r_holds c p → ∃ x, live_copy c s = Ok x.
Proof.
  intros I Hi Hp. destruct (counted_live s _ c (i_copies s I)) as (x & _ & E & _); [|by exists x].
  pose proof (holders_reader s c i p Hi). lia.
Qed.
(** Giving up the reference [o], which the state after does not count. *)
Lemma good_release o s f :
  counted (s_copies s) (holders s) → (∀ c, holders s c = holders (f s) c + at_ o c) →
  (∀ cs, counted cs (holders (f s)) → inv (f (mk_stm (s_obj s) cs (s_wr s) (s_rd s)))) →
  good (s ← stm_releasecopy o s; Ok (Some (f s))).
Proof.
  intros H He Hi. destruct (releasecopy_ok o s _ (holders (f s)) H (holders_nonneg _) He) as (cs & -> & Hc).
  apply good_some, Hi, Hc.
Qed.
Lemma no_reader o l : total r_reads l = 0 → Forall (reads_copy o) l.
Proof.
  induction l as [|p l IH]; cbn; [done|]. pose proof (weights_nonneg p). pose proof (totals_nonneg l).
  intros Ht. constructor; [|apply IH; lia]. destruct p; cbn in *; try done; lia.
Qed.

(** The cases of a step whose state is given by its fields: the parts of the invariant by
    arithmetic on the counts, the copies when their holders stay. *)
Ltac count_readers :=
  rewrite ?total_snoc, ?zlen_insert; try match goal with Hi : ?l !! ?i = Some _ |- context [<[?i := _]> ?l] => rewrite ?(total_insert _ _ _ _ _ Hi) end.
Ltac excluded := try match goal with Hx : w_writes ?w = true → _, Hw : w_writes ?w = true |- _ => specialize (Hx Hw) end.
Ltac by_counts := repeat case_decide; simplify_eq; try done; excluded; count_readers; cbn -[at_ decide]; split_and?; try done; try lia; try congruence.
Ltac same_holders := unfold holders, o_holds; cbn -[at_ decide]; count_readers; cbn -[at_ decide]; rewrite ?at_None; try lia.
Ltac inv_split :=
  unfold with_wr, with_rd, with_obj, put_copy; cbn -[at_ decide]; split; cbn -[at_ decide]; intros; by_counts;
  try (by apply no_reader); try (by apply Forall_insert); try (by apply Forall_app_2; [|constructor]).
Ltac inv_step Ic := apply good_some; inv_split; try (eapply counted_ext; [|exact Ic]; intros ?; by same_holders).

Lemma writer_good act s : inv s → good (writer_step act s).
Proof.
  intros I. destruct (decide (s_wr s = WDone)) as [E|Hw]; [unfold writer_step; rewrite E; apply good_none|].
  destruct (writer_live s I Hw) as [Hf _]. pose proof (totals_nonneg (s_rd s)) as Hn.
  destruct s as [[nr wl rf cp fr] cs w l]. cbn in Hf, Hn. subst fr.
  destruct I as [Ic Iref Ifr Il Ix Ifd In Ig Ird]. cbn -[at_ decide] in *. destruct (Il eq_refl) as [-> ->]. specialize (Ix eq_refl). clear Hw Il Ifd.
  destruct w; cbn -[at_ decide] in *; try specialize (Ix eq_refl).
  1: destruct act; [|destruct cp; [|done]|].
  all: repeat case_decide; cbn -[at_ decide]; try apply good_none; try (exfalso; lia); try by inv_step Ic.
  - inv_step Ic. eapply (newcopy_ok _ _ (mk_stm (mk_obj 0 false 0 None false) cs WIdle [])); [exact Ic|]. intros d. same_holders.
  - apply good_release; [exact Ic|intros c; same_holders|]. intros cs' Hc. inv_split.
  - apply good_release; [exact Ic|intros c; same_holders|]. intros cs' Hc. inv_split.
Qed.

Lemma reader_good i act s :
  inv s → good (reader_step i act s) ∨ (∃ last, s_rd s !! i = Some (RDelete2 last) ∧ o_freed (s_obj s) = true).
Proof.
  intros I. pose proof (totals_nonneg (s_rd s)) as Hn. unfold reader_step.
  destruct (s_rd s !! i) as [p|] eqn:Hi; [|left; apply good_none].
  pose proof (reader_live s i p I Hi) as Hl. pose proof (λ c, reader_holds_live s i p c I Hi) as Hlc.
  pose proof (total_ge r_reads _ _ _ ltac:(intros q; apply weights_nonneg) Hi) as Hg.
  pose proof (total_ge r_ref _ _ _ ltac:(intros q; apply weights_nonneg) Hi) as Hg2.
  pose proof (total_ge r_frees _ _ _ ltac:(intros q; apply weights_nonneg) Hi) as Hg3.
  destruct s as [[nr wl rf cp fr] cs w l]. destruct I as [Ic Iref Ifr Il Ix Ifd In Ig Ird]. cbn -[at_ decide] in *.
  pose proof (w_nonneg w) as Hw.
  destruct p; cbn -[at_ decide] in *; try (destruct Hl as [-> _]; [lia|]; destruct (Il eq_refl) as [-> ->]; specialize (Ix eq_refl); clear Il Ifd; left); cbn -[at_ decide].
  1: destruct act.
  all: try solve [destruct (w_writes w) eqn:Ew; cbn -[at_ decide]; solve [apply good_none|inv_step Ic]].
  - assert (cp = ret) as <- by (rewrite Forall_forall in Ird; apply (Ird _ (list_elem_of_lookup_2 _ _ _ Hi))).
    destruct cp as [c|]; [|inv_step Ic].
    assert (w_writes w = false) as Ew by (destruct (w_writes w); [specialize (Ix eq_refl); lia|done]).
    edestruct (count_copy_ok c) as (cs' & -> & Hc); [exact Ic|by apply holders_object|intros d; reflexivity|].
    cbn. apply good_some. inv_split. eapply counted_ext; [|exact Hc]. intros d. cbn -[at_]. same_holders.
  - destruct (decide (ret = last0)) as [<-|]; (apply good_release; [exact Ic|intros c|intros cs' Hc]); destruct ret; try done; solve [same_holders|inv_split].
  - destruct (Hlc c) as [x E]; [by rewrite at_eq|]. rewrite E. inv_step Ic.
  - destruct fr; [by right; eexists|]. left. destruct (Il eq_refl) as [-> ->]. specialize (Ix eq_refl). clear Il Ifd. inv_step Ic.
  - assert (rf = 0 ∧ w_ref w = 0) as [-> E] by (case_decide; lia).
    assert (w = WDone) as -> by (destruct (w_writes w) eqn:Ew; [specialize (Ix eq_refl); lia|by destruct w]).
    rewrite In. pose proof (total_lt r_leaves _ _ _ ltac:(intros q; apply weights_nonneg) Hi eq_refl). inv_step Ic.
  - left. apply good_release; [exact Ic|intros c; same_holders|intros cs' Hc].
    destruct fr; [destruct (Ifd eq_refl) as (-> & -> & Hle)|destruct (Il eq_refl) as [-> ->]; specialize (Ix eq_refl)]; clear Ifd Il Hl Hlc; inv_split.
  - left. apply good_none.
Qed.

Lemma fire_good e s :
  inv s → good (fire e s) ∨ (∃ i act last, e = EReader i act ∧ s_rd s !! i = Some (RDelete2 last) ∧ o_freed (s_obj s) = true).
Proof.
  intros I. destruct e as [act|i act]; [left; by apply writer_good|].
  destruct (reader_good i act s I) as [?|(last & ? & ?)]; [by left|right]. by exists i, act, last.
Qed.
Lemma leaving_fails i act last s :
  s_rd s !! i = Some (RDelete2 last) → o_freed (s_obj s) = true → fire (EReader i act) s = Err UseAfterFree.
Proof. intros Hi Hf. cbn. unfold reader_step. rewrite Hi. cbn. unfold runlock_obj, live. by rewrite Hf. Qed.
Lemma stm_run_inv es s s' : inv s → run es s = Ok s' → inv s'.
Proof.
  revert s. induction es as [|e es IH]; intros s I; cbn; [by intros [= <-]|].
  destruct (fire_good e s I) as [(o & -> & Ho)|(i & act & last & -> & Hi & Hf)].
  - cbn. apply IH. destruct o as [s1|]; [by apply Ho|done].
  - by rewrite (leaving_fails i act last s Hi Hf).
Qed.
(** A single reader does not meet the object freed. *)
Lemma one_reader s i last : inv s → (length (s_rd s) ≤ 1)%nat → s_rd s !! i = Some (RDelete2 last) → o_freed (s_obj s) = false.
Proof.
  intros I Hn Hi. destruct (o_freed (s_obj s)) eqn:E; [|done]. destruct (i_freed s I E) as (_ & _ & Hl).
  pose proof (total_ge r_leaves _ _ _ ltac:(intros q; apply weights_nonneg) Hi) as Hg. cbn in Hg. unfold zlen in Hl. lia.
Qed.
Lemma total_done f l : f RDone = 0 → Forall (λ p, p = RDone) l → total f l = 0.
Proof. intros H0 Hl. induction Hl as [|p l -> _ IH]; cbn; lia. Qed.
Lemma all_done_freed s :
  inv s → s_wr s = WDone → Forall (λ p, p = RDone) (s_rd s) →
  o_freed (s_obj s) = true ∧ Forall (λ x, c_freed x = true) (s_copies s).
Proof.
  intros I Hw Hd. split.
  - pose proof (i_frees s I) as Hf. pose proof (i_ref s I) as Hr. rewrite Hw, total_done in Hf, Hr by done. cbn in Hr, Hf.
    rewrite Hr in Hf. by destruct (o_freed (s_obj s)).
  - apply Forall_lookup. intros c x Hx. pose proof (i_copies s I c) as Hc. rewrite Hx in Hc. destruct Hc as [_ ->].
    apply bool_decide_eq_true_2. unfold holders, o_holds. pose proof (i_null s I) as Hn. rewrite Hw in Hn |- *. cbn in Hn |- *.
    apply bool_decide_eq_true_1 in Hn. rewrite Hn, total_done; done.
Qed.

(** ** Theorems *)

(** C34: shared objects between threads. After any schedule of the accesses of the writer
    and of any number of readers: every access that can follow goes well, no
    assertion fails and no freed object or copy is touched, but for one: a reader that
    gave up its reference and then leaves the lock of the object after another reader,
    having taken the last reference, freed it. With at most one reader that cannot happen.
    A copy counts exactly the variables that refer to it, so the message a reader's
    function works on stays while it works, and is freed when there are none; when the
    writer and all readers are gone the object and every copy are freed. *)
Theorem stm_accesses_are_safe es msg sz s :
  run es (stm_new msg sz) = Ok s →
  (∀ e, (∃ o, fire e s = Ok o) ∨
        (∃ i act last, e = EReader i act ∧ s_rd s !! i = Some (RDelete2 last) ∧ o_freed (s_obj s) = true ∧
                       fire e s = Err UseAfterFree)) ∧
  ((length (s_rd s) ≤ 1)%nat → ∀ e, ∃ o, fire e s = Ok o) ∧
  (∀ c x, s_copies s !! c = Some x → c_reference x = holders s c ∧ (c_freed x = true ↔ holders s c = 0)) ∧
  (∀ i c, s_rd s !! i = Some (RCall c) → ∃ x, s_copies s !! c = Some x ∧ c_freed x = false) ∧
  (s_wr s = WDone → Forall (λ p, p = RDone) (s_rd s) →
     o_freed (s_obj s) = true ∧ Forall (λ x, c_freed x = true) (s_copies s)).
Proof.
  intros Hr. assert (inv s) as I by (eapply stm_run_inv; [apply inv_new|done]). split_and!.
  - intros e. destruct (fire_good e s I) as [(o & Ho & _)|(i & act & last & -> & Hi & Hf)]; [left; by exists o|right].
    exists i, act, last. split_and!; try done. by eapply leaving_fails.
  - intros Hn e. destruct (fire_good e s I) as [(o & Ho & _)|(i & act & last & -> & Hi & Hf)]; [by exists o|].
    by rewrite (one_reader s i last I Hn Hi) in Hf.
  - intros c x Hx. pose proof (i_copies s I c) as Hc. rewrite Hx in Hc. destruct Hc as [-> ->]. by rewrite bool_decide_eq_true.
  - intros i c Hi. destruct (counted_live s _ c (i_copies s I)) as (x & Hx & El & _).
    { pose proof (holders_reader s c i _ Hi) as Hh. cbn [r_holds] in Hh. rewrite at_eq in Hh. lia. }
    exists x. split; [done|]. unfold live_copy in El. rewrite Hx in El. cbn in El. by destruct (c_freed x).
  - apply all_done_freed, I.
Qed.

(** Two readers, the writer gone: one has given up its reference and is in the lock. *)
Definition w_calls : list stm_event := replicate 10 (EWriter AGrab) ++ replicate 6 (EWriter ARelease).
Definition race : list stm_event := w_calls ++ replicate 3 (EReader 0 ADelete) ++ replicate 4 (EReader 1 ADelete).
(** A schedule with a reader that works on a message that was replaced. *)
Definition reading : list stm_event :=
  replicate 5 (EWriter AGrab) ++ replicate 6 (EReader 0 ARead) ++ replicate 5 (EWriter (AUpdate [4; 5] 2)).
Lemma stm_accesses_are_safe_witness :
  (∃ s, run race (stm_new [1; 2; 3] 3) = Ok s ∧ fire (EReader 0 ADelete) s = Err UseAfterFree) ∧
  (∃ s, run reading (stm_new [1; 2; 3] 3) = Ok s ∧ s_rd s = [RCall 0] ∧ s_copies s = [mk_copy 1 3 [1; 2; 3] false; mk_copy 1 2 [4; 5] false] ∧
        ∀ e, ∃ o, fire e s = Ok o).
Proof.
  split.
  - eexists. split; [vm_compute; reflexivity|]. vm_compute. reflexivity.
  - eexists. split; [vm_compute; reflexivity|]. split_and!; [reflexivity..|].
    apply (stm_accesses_are_safe reading [1; 2; 3] 3); [vm_compute; reflexivity|]. cbn. lia.
Defined.
