(* ===== verification/Sharedata.v ===== *)
(** * Shared configuration: lualib-src/lua-sharedata.c

    A Lua table is converted once into tables in C, which the services of all threads then
    read through pointers: an array part and a closed hash table with collision chains,
    strings by their index in a Lua state of the configuration. The model has the tables in
    the order they are allocated, with the slots of a hash table uninitialised until they
    are filled, and the errors Lua raises as outcomes that keep the state, since the
    conversion frees what it built. [malloc] is taken to succeed, but for negative sizes. *)
From stdpp Require Import base numbers list.
From S2P Require Import Prelude.

(** ** Data *)

(** What the conversion sees of a Lua value: floats are their bits, a table is what
    [lua_rawlen] says of it and its fields in the order of [lua_next]. *)
#[warnings="-register-all"]
Inductive lval : Type :=
| LNil
| LBool (b : bool)
| LInt (i : Z)
| LReal (bits : Z)
| LStr (s : list Z)
| LTbl (rawlen : Z) (fields : list (lval * lval))
| LOther.

Definition same_lkey (k k' : lval) : bool :=
  match k, k' with
  | LInt i, LInt j => bool_decide (i = j)
  | LStr s, LStr s' => bool_decide (s = s')
  | _, _ => false
  end.
Fixpoint lua_rawget (fields : list (lval * lval)) (k : lval) : lval :=
  match fields with
  | [] => LNil
  | (k', v) :: fields => if same_lkey k k' then v else lua_rawget fields k
  end.

Definition KEYTYPE_INTEGER : Z := 0.
Definition KEYTYPE_STRING : Z := 1.
Definition VALUETYPE_NIL : Z := 0.
Definition VALUETYPE_REAL : Z := 1.
Definition VALUETYPE_STRING : Z := 2.
Definition VALUETYPE_BOOLEAN : Z := 3.
Definition VALUETYPE_TABLE : Z := 4.
Definition VALUETYPE_INTEGER : Z := 5.

(** [union value] with the member that was written last; a table is its place in the list
    of allocated tables. *)
Inductive value : Type :=
| UReal (bits : Z)
| UInt (i : Z)
| UTbl (p : nat)
| UStr (index : Z)
| UBool (b : bool).
(** [struct node]; [n_set] when the key, its hash and the chain were written. *)
Record node : Type := mk_node {
  n_v : option value; n_key : Z; n_next : Z; n_keyhash : Z; n_keytype : Z; n_valuetype : Z; n_nocolliding : Z; n_set : bool }.
(** [struct table]; the Lua state is that of the configuration. *)
Record table : Type := mk_tbl {
  t_sizearray : Z; t_sizehash : Z; t_arraytype : list Z; t_array : list (option value); t_hash : list node }.
(** [struct context]: the strings in the order of their indices, which start at 2, and the
    tables, [None] when freed. *)
Record context : Type := mk_ctx { c_strings : list (list Z); c_tables : list (option table) }.
(** [struct state], and the configuration around it. *)
Record conf : Type := mk_conf { cf_ctx : context; cf_dirty : Z; cf_ref : Z; cf_root : nat }.
(** [struct ctrl]: the addresses of the root tables of a boxed configuration and of the one
    that replaces it, with the Lua table kept for it. *)
Record ctrl : Type := mk_ctrl { k_root : option Z; k_update : option (Z * Z) }.

(** ** Code that may raise a Lua error

    A run ends with a value, or with an error of Lua in the state it left. *)
Definition M (A : Type) : Type := context → result (context * option A).
Global Instance M_ret : MRet M := λ A a c, Ok (c, Some a).
Global Instance M_bind : MBind M := λ A B f m c,
  r ← m c; match r.2 with Some a => f a r.1 | None => Ok (r.1, None) end.
Definition lua_raise {A} : M A := λ c, Ok (c, None).
Definition lift {A} (r : result A) : M A := λ c, a ← r; Ok (c, Some a).
Fixpoint forM {A} (f : A → M unit) (l : list A) : M unit :=
  match l with [] => mret () | a :: l => _ ← f a; forM f l end.

Definition the_table (c : context) (p : nat) : result table :=
  x ← of_option NullDeref (c_tables c !! p); of_option UseAfterFree x.
Definition get_tbl (p : nat) : M table := λ c, t ← the_table c p; Ok (c, Some t).
Definition put_tbl (p : nat) (t : table) : M unit := λ c, Ok (mk_ctx (c_strings c) (<[p := Some t]> (c_tables c)), Some ()).
(** A new table, zeroed by [memset]. *)
Definition zero_table : table := mk_tbl 0 0 [] [] [].
Definition new_tbl : M nat := λ c, Ok (mk_ctx (c_strings c) (c_tables c ++ [Some zero_table]), Some (length (c_tables c))).
Definition put_node (p : nat) (j : Z) (n : node) : M unit :=
  t ← get_tbl p;
  h ← lift (wr (t_hash t) j n);
  put_tbl p (mk_tbl (t_sizearray t) (t_sizehash t) (t_arraytype t) (t_array t) h).
(** A node whose key is read. *)
Definition key_of (n : node) : result node := if n_set n then Ok n else Err Uninitialised.

(** ** Conversion *)

Fixpoint countsize (fields : list (lval * lval)) (sizearray n : Z) : M Z :=
  match fields with
  | [] => mret n
  | (k, _) :: fields =>
      n ← lift (c_int (n + 1));
      match k with
      | LInt nkey => countsize fields sizearray (if decide (0 < nkey ∧ nkey ≤ sizearray) then n - 1 else n)
      | LStr _ | LTbl _ _ => countsize fields sizearray n
      | _ => lua_raise
      end
  end.

Fixpoint calchash_loop (fuel : nat) (str : list Z) (step h l1 : Z) : result Z :=
  match fuel with
  | O => Err OutOfFuel
  | S fuel =>
      if decide (step ≤ l1) then
        b ← rd str (l1 - 1);
        calchash_loop fuel str step (Z.lxor h (u32 (u32 (Z.shiftl h 5) + Z.shiftr h 2 + u8 b))) (l1 - step)
      else Ok h
  end.
Definition calchash (str : list Z) : result Z :=
  let l := zlen str in calchash_loop (S (length str)) str (Z.shiftr l 5 + 1) (u32 l) l.

Definition stringindex (str : list Z) : M Z := λ c,
  match list_find (λ s, s = str) (c_strings c) with
  | Some (i, _) => Ok (c, Some (Z.of_nat i + 2))
  | None => Ok (mk_ctx (c_strings c ++ [str]) (c_tables c), Some (zlen (c_strings c) + 2))
  end.

Section Conversion.
(** [convtable] of a nested table. *)
Context (convtable : nat → Z → list (lval * lval) → M unit).

(** The member and the type it stores; for nil the member stays. *)
Definition setvalue (v : lval) : M (option value * Z) :=
  match v with
  | LNil => mret (None, VALUETYPE_NIL)
  | LInt i => mret (Some (UInt i), VALUETYPE_INTEGER)
  | LReal b => mret (Some (UReal b), VALUETYPE_REAL)
  | LStr s => i ← stringindex s; mret (Some (UStr i), VALUETYPE_STRING)
  | LBool b => mret (Some (UBool b), VALUETYPE_BOOLEAN)
  | LTbl rawlen fields => q ← new_tbl; _ ← convtable q rawlen fields; mret (Some (UTbl q), VALUETYPE_TABLE)
  | LOther => lua_raise
  end.
Definition setarray (p : nat) (v : lval) (key : Z) : M unit :=
  r ← setvalue v;
  t ← get_tbl p;
  types ← lift (wr (t_arraytype t) (key - 1) r.2);
  vals ← lift (wr (t_array t) (key - 1) r.1);
  put_tbl p (mk_tbl (t_sizearray t) (t_sizehash t) types vals (t_hash t)).
(** [setvalue] into a node of the table. *)
Definition setnode (p : nat) (j : Z) (v : lval) : M unit :=
  r ← setvalue v;
  t ← get_tbl p;
  n ← lift (rd (t_hash t) j);
  put_node p j (mk_node (match r.1 with Some x => Some x | None => n_v n end)
    (n_key n) (n_next n) (n_keyhash n) (n_keytype n) r.2 (n_nocolliding n) (n_set n)).

(** [lua_tolstring] of a key that is not a number: NULL and 0 when it is no string. *)
Definition key_string (k : lval) : list Z := match k with LStr s => s | _ => [] end.
(** The position in the array, or key, hash and type; [lua_tointeger] of a float that is no
    integer is 0. *)
Definition ishashkey (p : nat) (k : lval) : M (Z + Z * Z * Z) :=
  t ← get_tbl p;
  match k with
  | LInt _ | LReal _ =>
      let key := match k with LInt i => s32 i | _ => 0 end in
      if decide (0 < key ∧ key ≤ t_sizearray t) then mret (inl key)
      else mret (inr (key, u32 key, KEYTYPE_INTEGER))
  | _ =>
      h ← lift (calchash (key_string k));
      i ← stringindex (key_string k);
      mret (inr (i, h, KEYTYPE_STRING))
  end.

Definition fill_field (p : nat) (kv : lval * lval) : M unit :=
  r ← ishashkey p kv.1;
  match r with
  | inl key => setarray p kv.2 key
  | inr (key, keyhash, keytype) =>
      t ← get_tbl p;
      let j := keyhash mod t_sizehash t in
      n ← lift (rd (t_hash t) j);
      if decide (n_valuetype n = VALUETYPE_NIL) then
        _ ← put_node p j (mk_node (n_v n) key (-1) keyhash keytype (n_valuetype n) 1 true);
        setnode p j kv.2
      else mret ()
  end.
Definition fillnocolliding (p : nat) (fields : list (lval * lval)) : M unit := forM (fill_field p) fields.

Definition is_empty (n : node) : Prop := n_valuetype n = VALUETYPE_NIL.
Global Instance is_empty_dec n : Decision (is_empty n).
Proof. unfold is_empty. apply _. Defined.
Definition collide_field (p : nat) (kv : lval * lval) : M unit :=
  r ← ishashkey p kv.1;
  match r with
  | inl _ => mret ()
  | inr (key, keyhash, keytype) =>
      t ← get_tbl p;
      let j := keyhash mod t_sizehash t in
      mainpos ← lift (n ← rd (t_hash t) j; key_of n);
      if decide (n_keytype mainpos = keytype ∧ n_key mainpos = key) then mret ()
      else
        match list_find is_empty (t_hash t) with
        | None => lift (Err AssertFailed)
        | Some (i, n) =>
            _ ← put_node p j (mk_node (n_v mainpos) (n_key mainpos) (Z.of_nat i) (n_keyhash mainpos) (n_keytype mainpos)
                              (n_valuetype mainpos) 0 (n_set mainpos));
            _ ← put_node p (Z.of_nat i) (mk_node (n_v n) key (n_next mainpos) keyhash keytype (n_valuetype n) 0 true);
            setnode p (Z.of_nat i) kv.2
        end
  end.
Definition fillcolliding (p : nat) (fields : list (lval * lval)) : M unit := forM (collide_field p) fields.

(** A slot as [malloc] and the loop after it leave it. *)
Definition raw_node : node := mk_node None 0 0 0 0 VALUETYPE_NIL 0 false.
Definition conv_body (p : nat) (rawlen : Z) (fields : list (lval * lval)) : M unit :=
  let sizearray := s32 rawlen in
  _ ← (if decide (sizearray < 0) then lua_raise
       else put_tbl p (mk_tbl sizearray 0 (replicate (Z.to_nat sizearray) VALUETYPE_NIL) (replicate (Z.to_nat sizearray) None) []));
  sizehash ← countsize fields sizearray 0;
  if decide (sizehash ≠ 0) then
    t ← get_tbl p;
    _ ← put_tbl p (mk_tbl (t_sizearray t) sizehash (t_arraytype t) (t_array t) (replicate (Z.to_nat sizehash) raw_node));
    _ ← fillnocolliding p fields;
    fillcolliding p fields
  else forM (λ i, setarray p (lua_rawget fields (LInt i)) i) (seqZ 1 sizearray).
End Conversion.

(** The fuel is how many C calls Lua still allows to nest; when none is left it raises. *)
Fixpoint convtable (ccalls : nat) (p : nat) (rawlen : Z) (fields : list (lval * lval)) : M unit :=
  match ccalls with
  | O => lua_raise
  | S ccalls => conv_body (convtable ccalls) p rawlen fields
  end.

(** The fuel is the number of tables: a table holds tables that were made after it. *)
Fixpoint delete_tbl (fuel : nat) (p : nat) (c : context) : result context :=
  match fuel with
  | O => Err OutOfFuel
  | S fuel =>
      t ← the_table c p;
      let del (vt : Z) (v : option value) (c : context) :=
        if decide (vt = VALUETYPE_TABLE) then
          match v with Some (UTbl q) => delete_tbl fuel q c | _ => Err Uninitialised end
        else Ok c in
      c ← c_for (Z.to_nat (t_sizearray t)) 0 (λ i c, vt ← rd (t_arraytype t) i; v ← rd (t_array t) i; del vt v c) c;
      c ← c_for (Z.to_nat (t_sizehash t)) 0 (λ i c, n ← rd (t_hash t) i; del (n_valuetype n) (n_v n) c) c;
      _ ← the_table c p;
      Ok (mk_ctx (c_strings c) (<[p := None]> (c_tables c)))
  end.

(** [lnewconf] with [pconv] and [convert_stringmap]: the configuration, or what is left of
    the tables when Lua raised an error. *)
Definition lnewconf (ccalls : nat) (v : lval) : result (conf + context) :=
  match v with
  | LTbl rawlen fields =>
      r ← convtable ccalls 0 rawlen fields (mk_ctx [] [Some zero_table]);
      match r.2 with
      | Some _ => Ok (inl (mk_conf r.1 0 0 0))
      | None => c ← delete_tbl (length (c_tables r.1)) 0 r.1; Ok (inr c)
      end
  | _ => Err (LuaError 1)
  end.
Definition ldeleteconf (cf : conf) : result context :=
  delete_tbl (length (c_tables (cf_ctx cf))) (cf_root cf) (cf_ctx cf).

(** ** Reading *)

(** What a function leaves on the Lua stack; a table is a light userdata. *)
Inductive pushed : Type := PNil | PReal (bits : Z) | PInt (i : Z) | PStr (s : list Z) | PBool (b : bool) | PTbl (p : nat).
(** [lua_tolstring] of an index of the configuration's state. *)
Definition string_at (c : context) (index : Z) : result (list Z) := rd (c_strings c) (index - 2).
Definition pushvalue (c : context) (vt : Z) (v : option value) : result pushed :=
  if decide (vt = VALUETYPE_REAL) then match v with Some (UReal b) => Ok (PReal b) | _ => Err Uninitialised end
  else if decide (vt = VALUETYPE_INTEGER) then match v with Some (UInt i) => Ok (PInt i) | _ => Err Uninitialised end
  else if decide (vt = VALUETYPE_STRING) then match v with Some (UStr i) => s ← string_at c i; Ok (PStr s) | _ => Err Uninitialised end
  else if decide (vt = VALUETYPE_BOOLEAN) then match v with Some (UBool b) => Ok (PBool b) | _ => Err Uninitialised end
  else if decide (vt = VALUETYPE_TABLE) then match v with Some (UTbl q) => Ok (PTbl q) | _ => Err Uninitialised end
  else Ok PNil.

(** The loop of [lookup_key]; the fuel is the size of the hash table. *)
Fixpoint lookup_loop (fuel : nat) (c : context) (t : table) (keyhash key keytype : Z) (str : list Z) (i : Z) : result (option Z) :=
  match fuel with
  | O => Err OutOfFuel
  | S fuel =>
      n ← (n ← rd (t_hash t) i; key_of n);
      found ← (if decide (keyhash = n_keyhash n) then
                 if decide (n_keytype n = KEYTYPE_INTEGER) then Ok (bool_decide (keytype = KEYTYPE_INTEGER ∧ n_key n = key))
                 else if decide (keytype = KEYTYPE_STRING) then str2 ← string_at c (n_key n); Ok (bool_decide (str = str2))
                 else Ok false
               else Ok false);
      if (found : bool) then Ok (Some i)
      else if decide (n_next n < 0) then Ok None
      else lookup_loop fuel c t keyhash key keytype str (n_next n)
  end.
Definition lookup_key (c : context) (t : table) (keyhash key keytype : Z) (str : list Z) : result (option Z) :=
  if decide (t_sizehash t = 0) then Ok None
  else
    let i := keyhash mod t_sizehash t in
    n ← (n ← rd (t_hash t) i; key_of n);
    if decide (keyhash ≠ n_keyhash n ∧ n_nocolliding n ≠ 0) then Ok None
    else lookup_loop (Z.to_nat (t_sizehash t)) c t keyhash key keytype str i.

Definition lindexconf (c : context) (p : nat) (k : lval) : result pushed :=
  t ← the_table c p;
  let find keyhash key keytype str :=
    r ← lookup_key c t keyhash key keytype str;
    match r with
    | Some i => n ← rd (t_hash t) i; pushvalue c (n_valuetype n) (n_v n)
    | None => Ok PNil
    end in
  match k with
  | LInt i =>
      let key := s32 i in
      if decide (0 < key ∧ key ≤ t_sizearray t) then
        vt ← rd (t_arraytype t) (key - 1); v ← rd (t_array t) (key - 1); pushvalue c vt v
      else find (u32 key) key KEYTYPE_INTEGER []
  | LStr s => h ← calchash s; find h 0 KEYTYPE_STRING s
  | LReal _ => Err (LuaError 0)
  | _ => Err (LuaError 2)
  end.

Definition pushkey (c : context) (n : node) : result lval :=
  n ← key_of n;
  if decide (n_keytype n = KEYTYPE_INTEGER) then Ok (LInt (n_key n)) else s ← string_at c (n_key n); Ok (LStr s).
Definition pushfirsthash (c : context) (t : table) : result (option lval) :=
  if decide (t_sizehash t ≠ 0) then n ← rd (t_hash t) 0; k ← pushkey c n; Ok (Some k) else Ok None.
(** The next position of the array that is not nil, from [i] on. *)
Fixpoint next_array (fuel : nat) (t : table) (i : Z) : result (option Z) :=
  match fuel with
  | O => Ok None
  | S fuel => vt ← rd (t_arraytype t) i; if decide (vt ≠ VALUETYPE_NIL) then Ok (Some (i + 1)) else next_array fuel t (i + 1)
  end.
Definition lnextkey (c : context) (p : nat) (k : option lval) : result (option lval) :=
  t ← the_table c p;
  let from i :=
    r ← next_array (Z.to_nat (t_sizearray t - i)) t i;
    match r with Some k => Ok (Some (LInt k)) | None => pushfirsthash c t end in
  let after keyhash key keytype str :=
    r ← lookup_key c t keyhash key keytype str;
    match r with
    | Some i => if decide (i + 1 = t_sizehash t) then Ok None else n ← rd (t_hash t) (i + 1); k ← pushkey c n; Ok (Some k)
    | None => Ok None
    end in
  match k with
  | None | Some LNil => from 0
  | Some (LInt i) =>
      let key := s32 i in
      if decide (0 < key ∧ key ≤ t_sizearray t) then from key else after (u32 key) key KEYTYPE_INTEGER []
  | Some (LReal _) => Ok None
  | Some (LStr s) => h ← calchash s; after h 0 KEYTYPE_STRING s
  | Some _ => Err (LuaError 2)
  end.
Definition llen (c : context) (p : nat) : result Z := t ← the_table c p; Ok (t_sizearray t).
Definition lhashlen (c : context) (p : nat) : result Z := t ← the_table c p; Ok (t_sizehash t).

(** ** References of the host and of boxes *)

Definition set_ref (cf : conf) (ref : Z) : conf := mk_conf (cf_ctx cf) (cf_dirty cf) ref (cf_root cf).
Definition lboxconf (tbl : Z) (cf : conf) : ctrl * conf := (mk_ctrl (Some tbl) None, set_ref cf (cf_ref cf + 1)).
Definition releaseobj (k : ctrl) (cf : conf) : result (ctrl * conf) :=
  _ ← of_option NullDeref (k_root k); Ok (mk_ctrl None None, set_ref cf (cf_ref cf - 1)).
Definition lmarkdirty (cf : conf) : conf := mk_conf (cf_ctx cf) 1 (cf_ref cf) (cf_root cf).
Definition lisdirty (cf : conf) : bool := bool_decide (cf_dirty cf ≠ 0).
Definition lgetref (cf : conf) : Z := cf_ref cf.
Definition lincref (cf : conf) : Z * conf := (cf_ref cf + 1, set_ref cf (cf_ref cf + 1)).
Definition ldecref (cf : conf) : Z * conf := (cf_ref cf - 1, set_ref cf (cf_ref cf - 1)).
Definition lneedupdate (k : ctrl) : option (Z * Z) := k_update k.
Definition lupdate (k : ctrl) (n uservalue : Z) : result ctrl :=
  if decide (k_root k = Some n) then Err (LuaError 0) else Ok (mk_ctrl (k_root k) (Some (n, uservalue))).

(** ** What clients see *)

(** The value under keys, one index after the other. *)
Fixpoint conf_get (c : context) (x : pushed) (ks : list lval) : result pushed :=
  match ks with
  | [] => Ok x
  | k :: ks => match x with PTbl p => y ← lindexconf c p k; conf_get c y ks | _ => Err (LuaError 0) end
  end.
(** The keys a loop over a table visits. *)
Fixpoint walk (fuel : nat) (c : context) (p : nat) (k : option lval) : result (list lval) :=
  match fuel with
  | O => Err OutOfFuel
  | S fuel => r ← lnextkey c p k; match r with None => Ok [] | Some k => ks ← walk fuel c p (Some k); Ok (k :: ks) end
  end.
Definition conf_keys (c : context) (p : nat) : result (list lval) :=
  n ← llen c p; m ← lhashlen c p; walk (S (Z.to_nat (n + m))) c p None.
