(* ===== verification/SharedataProps.v ===== *)
(** * Shared configuration: the tables are the Lua table

    The conversion of Sharedata keeps, slot by slot, which field of the Lua table a node
    holds and that the chains from the main positions lead to all of them. *)
From stdpp Require Import base numbers list list_numbers sets.
From S2P Require Import Prelude Sharedata.

(** ** Keys *)

Definition key_ok (k : lval) : Prop := match k with LInt i => INT_MIN ≤ i ≤ INT_MAX | LStr _ => True | _ => False end.
Definition hash_of (k : lval) : Z :=
  match k with LInt i => u32 i | LStr s => match calchash s with Ok h => h | Err _ => 0 end | _ => 0 end.
Definition in_array (n : Z) (k : lval) : bool := match k with LInt i => bool_decide (0 < i ∧ i ≤ n) | _ => false end.
Definition str_at (strs : list (list Z)) (i : Z) (s : list Z) : Prop := 0 ≤ i - 2 ∧ strs !! Z.to_nat (i - 2) = Some s.
(** How a node names a key. *)
Definition key_rep (strs : list (list Z)) (k : lval) (key keyhash keytype : Z) : Prop :=
  keyhash = hash_of k ∧
  match k with
  | LInt i => key = i ∧ keytype = KEYTYPE_INTEGER
  | LStr s => str_at strs key s ∧ keytype = KEYTYPE_STRING
  | _ => False
  end.

Lemma calchash_loop_Ok fuel str step h l1 :
  1 ≤ step → 0 ≤ l1 ≤ zlen str → l1 < Z.of_nat fuel → is_Ok (calchash_loop fuel str step h l1).
Proof.
  intros Hs. revert h l1. induction fuel as [|fuel IH]; intros h l1 Hl Hf; cbn [calchash_loop]; [lia|].
  case_decide; [|by eexists]. destruct (rd_Ok str (l1 - 1)) as [b ->]; [lia|]. cbn. apply IH; lia.
Qed.
Lemma calchash_hash_of s : calchash s = Ok (hash_of (LStr s)).
Proof.
  unfold hash_of. assert (is_Ok (calchash s)) as [h ->]; [|done]. unfold calchash.
  pose proof (Z.shiftr_nonneg (zlen s) 5) as Hs. pose proof (zlen_nonneg s).
  apply calchash_loop_Ok; unfold zlen in *; lia.
Qed.
Lemma string_at_Ok c i s : str_at (c_strings c) i s → string_at c i = Ok s.
Proof. intros [Hi Hs]. by apply rd_lookup. Qed.
Lemma str_at_prefix strs strs' i s : strs `prefix_of` strs' → str_at strs i s → str_at strs' i s.
Proof. intros Hp [Hi Hs]. split; [done|]. by eapply prefix_lookup_Some. Qed.
Lemma str_at_inj strs i i' s : NoDup strs → str_at strs i s → str_at strs i' s → i = i'.
Proof. intros Hn [Hi Hs] [Hi' Hs']. pose proof (NoDup_lookup _ _ _ _ Hn Hs Hs'). lia. Qed.
Lemma key_rep_prefix strs strs' k a h t : strs `prefix_of` strs' → key_rep strs k a h t → key_rep strs' k a h t.
Proof.
  intros Hp [Hh Hk]. split; [done|]. destruct k; try done. destruct Hk as [Hk ?]. split; [|done]. by eapply str_at_prefix.
Qed.
(** With each string once, a node's key is one key of Lua. *)
Lemma key_rep_eq strs k k' a h t a' h' t' :
  NoDup strs → key_rep strs k a h t → key_rep strs k' a' h' t' → (t = t' ∧ a = a' ↔ k = k').
Proof.
  intros Hn [_ Hk] [_ Hk']. destruct k as [| |i| |s| |], k' as [| |i'| |s'| |]; try done;
    destruct Hk as [Hk ->], Hk' as [Hk' ->]; unfold KEYTYPE_INTEGER, KEYTYPE_STRING.
  - split; [intros [_ ?]; congruence|]. intros [=]. split; [done|congruence].
  - split; [by intros [? _]|done].
  - split; [by intros [? _]|done].
  - split.
    + intros [_ <-]. destruct Hk as [_ Hk], Hk' as [_ Hk']. congruence.
    + intros [= <-]. split; [done|]. by eapply str_at_inj.
Qed.
Lemma stringindex_spec s c :
  NoDup (c_strings c) →
  ∃ i strs, stringindex s c = Ok (mk_ctx strs (c_tables c), Some i) ∧ c_strings c `prefix_of` strs ∧ NoDup strs ∧ str_at strs i s.
Proof.
  intros Hn. unfold stringindex. destruct (list_find _ _) as [[i x]|] eqn:E.
  - apply list_find_Some in E as (Hi & -> & _). exists (Z.of_nat i + 2), (c_strings c). split_and!; try done; [by destruct c|]. split; [lia|].
    by replace (Z.to_nat (Z.of_nat i + 2 - 2)) with i by lia.
  - apply list_find_None in E. eexists _, _. split_and!; [done|by eexists|..].
    + apply NoDup_app. split_and!; [done| |apply NoDup_singleton]. intros x Hx ->%list_elem_of_singleton.
      by apply (proj1 (Forall_forall _ _) E s Hx).
    + unfold str_at, zlen. split; [lia|]. rewrite lookup_app_r by lia. by replace (Z.to_nat _ - _)%nat with 0%nat by lia.
Qed.

(** ** Slots

    Which field every slot of a hash table holds, for the table of [m] slots. [V] says that
    a member with its type is a value of Lua. *)
Section Slots.
Context (m : Z) (strs : list (list Z)) (V : option value → Z → lval → Prop).

Definition main (k : lval) : nat := Z.to_nat (hash_of k mod m).
Definition node_rep (nd : node) (kv : lval * lval) : Prop :=
  n_set nd = true ∧ key_rep strs kv.1 (n_key nd) (n_keyhash nd) (n_keytype nd) ∧
  V (n_v nd) (n_valuetype nd) kv.2 ∧ n_valuetype nd ≠ VALUETYPE_NIL.
Definition slot_rep (nd : node) (o : option (lval * lval)) : Prop :=
  match o with Some kv => node_rep nd kv | None => n_valuetype nd = VALUETYPE_NIL end.
(** The slots from one on, as the chain has them. *)
Inductive chain (h : list node) : nat → list nat → Prop :=
| chain_last i n : h !! i = Some n → n_next n < 0 → chain h i [i]
| chain_next i j n l : h !! i = Some n → n_next n = Z.of_nat j → chain h j l → chain h i (i :: l).
Definition held (occ : list (option (lval * lval))) : list (lval * lval) := omap id occ.

Record slots (h : list node) (occ : list (option (lval * lval))) : Prop := {
  s_len : zlen h = m;
  s_rep : Forall2 slot_rep h occ;
  s_keys : NoDup (held occ).*1;
  s_chain : ∀ j kv, occ !! j = Some (Some kv) →
    ∃ l, chain h (main kv.1) l ∧ j ∈ l ∧ NoDup l ∧
         ∀ i, i ∈ l → ∃ kv', occ !! i = Some (Some kv') ∧ main kv'.1 = main kv.1;
  s_alone : ∀ j n, h !! j = Some n → n_nocolliding n ≠ 0 → n_next n < 0 }.

Lemma elem_of_held occ kv : kv ∈ held occ ↔ ∃ j, occ !! j = Some (Some kv).
Proof.
  unfold held. rewrite list_elem_of_omap. split.
  - intros (x & Hx & E). cbn in E. subst x. by apply list_elem_of_lookup_1 in Hx.
  - intros [j Hj]. exists (Some kv). split; [by eapply list_elem_of_lookup_2|done].
Qed.
Lemma occ_held_insert occ j kv : occ !! j = Some None → held (<[j := Some kv]> occ) ≡ₚ kv :: held occ.
Proof.
  unfold held. revert j. induction occ as [|o occ IH]; intros [|j] Hj; [done|done|..].
  - injection Hj as ->. done.
  - change (<[S j := Some kv]> (o :: occ)) with (o :: <[j := Some kv]> occ). cbn. specialize (IH j Hj).
    destruct o as [x|]; cbn; rewrite IH; [by rewrite (Permutation_swap x kv)|done].
Qed.
Lemma chain_insert h i l j n : chain h i l → j ∉ l → chain (<[j := n]> h) i l.
Proof.
  induction 1 as [i n' Hi Hn|i i' n' l Hi Hn Hc IH]; intros Hj; apply not_elem_of_cons in Hj as [Hne Hj].
  - eapply chain_last; [|done]. by rewrite list_lookup_insert_ne.
  - eapply chain_next; [|done|by apply IH]. by rewrite list_lookup_insert_ne.
Qed.
Lemma chain_head h i l : chain h i l → ∃ r, l = i :: r.
Proof. destruct 1; by eexists. Qed.
Lemma chain_fun h i l l' : chain h i l → chain h i l' → l = l'.
Proof.
  intros Hc. revert l'. induction Hc as [i n Hi Hn|i j n l Hi Hn Hc IH]; intros l' Hc'; inversion Hc'; simplify_eq; try lia; try done.
  f_equal. apply IH. assert (j = j0) as -> by lia. done.
Qed.
Lemma chain_suffix h i l j : chain h i l → j ∈ l → ∃ k r, l = k ++ r ∧ chain h j r.
Proof.
  induction 1 as [i n Hi Hn|i i' n l Hi Hn Hc IH]; intros Hj.
  - apply list_elem_of_singleton in Hj as ->. exists [], [i]. split; [done|]. by eapply chain_last.
  - apply elem_of_cons in Hj as [->|Hj]; [exists [], (i :: l); split; [done|by eapply chain_next]|].
    destruct (IH Hj) as (k & r & -> & Hr). by exists (i :: k), r.
Qed.

Lemma fresh_keys occ j kv : occ !! j = Some None → NoDup (held occ).*1 → kv.1 ∉ (held occ).*1 → NoDup (held (<[j := Some kv]> occ)).*1.
Proof. intros Hj Hn Hk. rewrite (occ_held_insert occ j kv Hj). cbn. by apply NoDup_cons. Qed.
Lemma occupied_insert (occ : list (option (lval * lval))) (i j : nat) kv kv' :
  occ !! j = Some None → occ !! i = Some (Some kv) → <[j := Some kv']> occ !! i = Some (Some kv).
Proof. intros Hj Hi. rewrite list_lookup_insert_ne; [done|]. congruence. Qed.

(** A field at its main position, which was empty. *)
Lemma slots_fill h occ j kv nd :
  slots h occ → occ !! j = Some None → main kv.1 = j → kv.1 ∉ (held occ).*1 → node_rep nd kv → n_next nd < 0 →
  slots (<[j := nd]> h) (<[j := Some kv]> occ).
Proof.
  intros [Hl Hr Hk Hc Ha] Hj Hm Hf Hnd Hx.
  assert (h !! j ≠ None) as [n0 Hn0]%not_eq_None_Some
    by (apply lookup_lt_Some in Hj; rewrite <- (Forall2_length _ _ _ Hr) in Hj; by apply lookup_lt_is_Some in Hj as [? ->]).
  assert (<[j := nd]> h !! j = Some nd) as Hjj by (apply list_lookup_insert_eq; by eapply lookup_lt_Some).
  split.
  - by rewrite zlen_insert.
  - by apply Forall2_insert.
  - by apply fresh_keys.
  - intros j' kv' Hj'. apply list_lookup_insert_Some in Hj' as [(<- & [= <-] & Hlt)|(Hne & Hj')].
    + exists [j]. rewrite Hm. split_and!; [by eapply chain_last|by apply list_elem_of_singleton|apply NoDup_singleton|].
      intros i ->%list_elem_of_singleton. exists kv. split; [|done]. by apply list_lookup_insert_eq.
    + destruct (Hc j' kv' Hj') as (l & Hch & Hin & Hnd' & Hall). exists l. split_and!; try done.
      * apply chain_insert; [done|]. intros Hjl. destruct (Hall j Hjl) as (? & ? & _). congruence.
      * intros i Hi. destruct (Hall i Hi) as (kv2 & Ho & Em). exists kv2. split; [|done]. by apply occupied_insert.
  - intros j' n' Hj' Hn'. apply list_lookup_insert_Some in Hj' as [(<- & <- & _)|(_ & Hj')]; [done|by eapply Ha].
Qed.

(** A slot put behind the first one of a chain. *)
Lemma chain_extend h i j r mp mp' nd :
  chain h j (j :: r) → h !! j = Some mp → (i < length h)%nat → i ∉ j :: r → j ∉ r →
  n_next nd = n_next mp → n_next mp' = Z.of_nat i → chain (<[i := nd]> (<[j := mp']> h)) j (j :: i :: r).
Proof.
  intros Hc Hmp Hi [Hij Hir]%not_elem_of_cons Hjr Hx Hx'.
  assert (<[i := nd]> (<[j := mp']> h) !! i = Some nd) as Hii by (apply list_lookup_insert_eq; by rewrite length_insert).
  eapply chain_next; [|exact Hx'|].
  { rewrite list_lookup_insert_ne by done. apply list_lookup_insert_eq. by eapply lookup_lt_Some. }
  inversion Hc; simplify_eq.
  - eapply chain_last; [done|lia].
  - eapply chain_next; [done|rewrite Hx; eassumption|]. by apply chain_insert; [apply chain_insert|].
Qed.
(** A field whose main position is taken goes to an empty slot behind it. *)
Lemma slots_collide h occ i j kvj mp mp' kv nd :
  slots h occ → occ !! j = Some (Some kvj) → main kvj.1 = j → h !! j = Some mp → occ !! i = Some None →
  main kv.1 = j → kv.1 ∉ (held occ).*1 → node_rep nd kv → n_next nd = n_next mp → n_nocolliding nd = 0 →
  node_rep mp' kvj → n_next mp' = Z.of_nat i → n_nocolliding mp' = 0 →
  slots (<[i := nd]> (<[j := mp']> h)) (<[i := Some kv]> occ).
Proof.
  intros [Hl Hr Hk Hc Ha] Hj Hmj Hmp Hi Hm Hf Hnd Hx Hn0 Hmp' Hx' Hn0'.
  assert (i < length h)%nat as Hli by (rewrite (Forall2_length _ _ _ Hr); by eapply lookup_lt_Some).
  assert (∀ (l : list nat) P, (∀ i0, i0 ∈ l → ∃ kv', occ !! i0 = Some (Some kv') ∧ P kv') → i ∉ l) as Hnoi
    by (intros l P Hall Hin; destruct (Hall i Hin) as (? & ? & _); congruence).
  split.
  - by rewrite !zlen_insert.
  - apply Forall2_insert; [|done]. rewrite <- (list_insert_id occ j _ Hj). by apply Forall2_insert.
  - by apply fresh_keys.
  - destruct (Hc j kvj Hj) as (l0 & Hch & _ & Hnd0 & Hall0). rewrite Hmj in Hch, Hall0.
    destruct (chain_head _ _ _ Hch) as [r ->]. pose proof (Hnoi _ _ Hall0) as Hir. apply NoDup_cons in Hnd0 as [Hjr Hndr].
    pose proof (chain_extend h i j r mp mp' nd Hch Hmp Hli Hir Hjr Hx Hx') as Hnew.
    intros j' kv' Hj'. apply list_lookup_insert_Some in Hj' as Hj''. destruct (decide (main kv'.1 = j)) as [Em|Em].
    + exists (j :: i :: r). rewrite Em. split_and!; [done| | |].
      * destruct Hj'' as [(<- & _)|(_ & Hjo)]; [set_solver|]. destruct (Hc j' kv' Hjo) as (l & Hch' & Hin & _). rewrite Em in Hch'.
        rewrite (chain_fun _ _ _ _ Hch' Hch) in Hin. set_solver.
      * apply NoDup_cons. split; [set_solver|]. apply NoDup_cons. set_solver.
      * intros i0 [->|[->|Hi0]%elem_of_cons]%elem_of_cons.
        -- exists kvj. split; [|done]. by apply occupied_insert.
        -- exists kv. split; [|done]. apply list_lookup_insert_eq. by eapply lookup_lt_Some.
        -- destruct (Hall0 i0) as (kv2 & Ho & ?); [set_solver|]. exists kv2. split; [|done]. by apply occupied_insert.
    + destruct Hj'' as [(<- & [= <-] & _)|(_ & Hjo)]; [done|].
      destruct (Hc j' kv' Hjo) as (l & Hch' & Hin & Hndl & Hall). exists l. split_and!; try done.
      * apply chain_insert; [apply chain_insert; [done|]|exact (Hnoi l _ Hall)].
        intros Hjl. destruct (Hall j Hjl) as (kv2 & Ho & E2). congruence.
      * intros i0 Hi0. destruct (Hall i0 Hi0) as (kv2 & Ho & E2). exists kv2. split; [|done]. by apply occupied_insert.
  - intros j' n' Hj' Hn'. apply list_lookup_insert_Some in Hj' as [(_ & <- & _)|(_ & Hj')]; [done|].
    apply list_lookup_insert_Some in Hj' as [(_ & <- & _)|(_ & Hj')]; [done|by eapply Ha].
Qed.
End Slots.

(** ** Search *)

(** What [lindexconf] and [lnextkey] ask for. *)
Definition q_key (k : lval) : Z := match k with LInt i => i | _ => 0 end.
Definition q_type (k : lval) : Z := match k with LInt _ => KEYTYPE_INTEGER | _ => KEYTYPE_STRING end.
Definition q_str (k : lval) : list Z := match k with LStr s => s | _ => [] end.

Section Search.
Context (c : context) (t : table) (V : option value → Z → lval → Prop) (es : list (lval * lval)).
Let occ := Some <$> es.
Hypothesis Hslots : slots (t_sizehash t) (c_strings c) V (t_hash t) occ.

Lemma slot_node i kv : es !! i = Some kv → ∃ n, t_hash t !! i = Some n ∧ node_rep (c_strings c) V n kv.
Proof.
  intros Hi. destruct (Forall2_lookup_r _ _ _ i (Some kv) (s_rep _ _ _ _ _ Hslots)) as (n & Hn & Hr); [|by exists n].
  unfold occ. by rewrite list_lookup_fmap, Hi.
Qed.
Lemma slot_key i kv :
  es !! i = Some kv →
  ∃ n, (n ← rd (t_hash t) (Z.of_nat i); key_of n) = Ok n ∧ t_hash t !! i = Some n ∧ node_rep (c_strings c) V n kv.
Proof.
  intros (n & Hn & Hr)%slot_node. exists n. split; [|done].
  rewrite (rd_lookup _ _ n); [|lia|by rewrite Nat2Z.id]. unfold key_of. cbn. by rewrite (proj1 Hr).
Qed.
(** The test of a node. *)
Lemma node_matches n kv k {B} (f : bool → result B) :
  key_ok k → node_rep (c_strings c) V n kv →
  (found ← (if decide (hash_of k = n_keyhash n) then
              if decide (n_keytype n = KEYTYPE_INTEGER) then Ok (bool_decide (q_type k = KEYTYPE_INTEGER ∧ n_key n = q_key k))
              else if decide (q_type k = KEYTYPE_STRING) then str2 ← string_at c (n_key n); Ok (bool_decide (q_str k = str2))
              else Ok false
            else Ok false); f found) = f (same_lkey k kv.1).
Proof.
  intros Hk (_ & [Hh Hr] & _). rewrite Hh. destruct kv as [k' v]; cbn in *.
  destruct k' as [| |i'| |s'| |]; try done; destruct Hr as [Hr Ht]; rewrite Ht; destruct k as [| |i| |s| |]; try done; cbn [q_key q_type q_str].
  - case_decide as E; cbn; [rewrite Hr; rewrite decide_True by done; cbn; f_equal; apply bool_decide_ext; naive_solver|].
    rewrite bool_decide_eq_false_2; [done|]. intros ->. done.
  - by case_decide.
  - by case_decide.
  - case_decide as E; cbn; [rewrite decide_False, decide_True by done; by rewrite (string_at_Ok _ _ _ Hr)|]. rewrite bool_decide_eq_false_2; [done|]. intros ->. done.
Qed.
Lemma same_lkey_eq k k' : key_ok k → same_lkey k k' = true ↔ k = k'.
Proof.
  intros Hk. destruct k as [| |i| |s| |], k' as [| |i'| |s'| |]; try done; cbn; rewrite bool_decide_eq_true; naive_solver.
Qed.
Lemma same_lkey_refl k : key_ok k → same_lkey k k = true.
Proof. intros Hk. by apply same_lkey_eq. Qed.

Lemma lookup_loop_spec fuel k i l :
  key_ok k → chain (t_hash t) i l → (∀ j, j ∈ l → is_Some (es !! j)) → (length l ≤ fuel)%nat →
  ∃ r, lookup_loop fuel c t (hash_of k) (q_key k) (q_type k) (q_str k) (Z.of_nat i) = Ok r ∧
       match r with
       | Some j => ∃ j' v, j = Z.of_nat j' ∧ es !! j' = Some (k, v)
       | None => ∀ j kv, j ∈ l → es !! j = Some kv → kv.1 ≠ k
       end.
Proof.
  intros Hk Hc. revert fuel. induction Hc as [i n Hi Hn|i j n l Hi Hn Hc IH]; intros fuel Hall Hf;
    (destruct fuel as [|fuel]; [cbn in Hf; lia|]); cbn [lookup_loop];
    destruct (Hall i) as [kv Hkv]; [set_solver| |set_solver|];
    destruct (slot_key i kv Hkv) as (n' & -> & Hn' & Hr); simplify_eq; cbn [mbind result_bind];
    rewrite (node_matches n kv k _ Hk Hr); destruct (same_lkey k kv.1) eqn:E.
  - apply same_lkey_eq in E as ->; [|done]. eexists; split; [done|]. exists i, kv.2. by destruct kv.
  - rewrite decide_True by done. eexists; split; [done|]. intros j kv' ->%list_elem_of_singleton ? <-. simplify_eq.
    by rewrite same_lkey_refl in E.
  - apply same_lkey_eq in E as ->; [|done]. eexists; split; [done|]. exists i, kv.2. by destruct kv.
  - rewrite decide_False by lia. rewrite Hn. destruct (IH fuel) as (r & -> & Hr'); [set_solver|cbn in Hf; lia|].
    exists r. split; [done|]. destruct r as [j'|]; [done|]. intros j1 kv' [->|Hj1]%elem_of_cons Hkv'; [|by eapply Hr'].
    simplify_eq. intros <-. by rewrite same_lkey_refl in E.
Qed.

Lemma chain_bound i l : chain (t_hash t) i l → NoDup l → zlen l ≤ zlen (t_hash t).
Proof.
  intros Hc Hn. assert (l ⊆+ seq 0 (length (t_hash t))) as Hs%submseteq_length.
  - apply NoDup_submseteq; [done|]. intros j Hj. apply elem_of_seq. split; [lia|].
    destruct (chain_suffix _ _ _ _ Hc Hj) as (_ & r & _ & Hr). by destruct Hr as [? ? ?%lookup_lt_Some|? ? ? ? ?%lookup_lt_Some].
  - rewrite length_seq in Hs. unfold zlen. lia.
Qed.
Lemma lookup_key_spec k :
  key_ok k →
  ∃ r, lookup_key c t (hash_of k) (q_key k) (q_type k) (q_str k) = Ok r ∧
       match r with
       | Some j => ∃ j' v, j = Z.of_nat j' ∧ es !! j' = Some (k, v)
       | None => ∀ kv, kv ∈ es → kv.1 ≠ k
       end.
Proof.
  intros Hk. pose proof Hslots as [Hl Hr _ Hc Ha]. apply Forall2_length in Hr. unfold occ in Hr. rewrite length_fmap in Hr.
  unfold lookup_key, zlen in *. case_decide as E0.
  { eexists; split; [done|]. intros kv Hin. destruct es; [by apply not_elem_of_nil in Hin|]. cbn in Hr. lia. }
  set (i := main (t_sizehash t) k). pose proof (Z.mod_pos_bound (hash_of k) (t_sizehash t) ltac:(lia)) as Hb.
  replace (hash_of k mod t_sizehash t) with (Z.of_nat i) by (unfold i, main; lia).
  destruct (lookup_lt_is_Some_2 es i) as [kv Hkv]; [unfold i, main; lia|].
  destruct (slot_key i kv Hkv) as (n & -> & Hn & Hrep). cbn [mbind result_bind].
  assert (∀ j kv', es !! j = Some kv' → kv'.1 = k → ∃ l, chain (t_hash t) i l ∧ j ∈ l) as Hfind.
  { intros j kv' Hj Ek. destruct (Hc j kv') as (l & Hch & Hin & _); [unfold occ; by rewrite list_lookup_fmap, Hj|].
    rewrite Ek in Hch. by exists l. }
  case_decide as E1.
  - eexists; split; [done|]. intros kv' [j Hj]%list_elem_of_lookup_1 Ek. destruct (Hfind j kv' Hj Ek) as (l & Hch & Hin).
    pose proof (Ha _ _ Hn (proj2 E1)) as Hlast. inversion Hch as [? n' Hn'|? ? n' ? Hn']; simplify_eq; [|lia].
    apply list_elem_of_singleton in Hin as ->. simplify_eq. destruct Hrep as (_ & [Hh _] & _). naive_solver.
  - destruct (Hc i kv) as (l & Hch & Hin & Hnd & Hall); [unfold occ; by rewrite list_lookup_fmap, Hkv|].
    destruct (chain_suffix _ _ _ _ Hch Hin) as (l1 & r & -> & Hr2). apply NoDup_app in Hnd as (_ & _ & Hnd).
    pose proof (chain_bound i r Hr2 Hnd) as Hlen. unfold zlen in Hlen.
    destruct (lookup_loop_spec (Z.to_nat (t_sizehash t)) k i r Hk Hr2) as (o & -> & Ho); [|lia|].
    { intros j Hj. destruct (Hall j) as (kv' & Hj' & _); [set_solver|]. unfold occ in Hj'. rewrite list_lookup_fmap in Hj'.
      by destruct (es !! j). }
    exists o. split; [done|]. destruct o as [j|]; [done|]. intros kv' [j Hj]%list_elem_of_lookup_1 Ek.
    destruct (Hfind j kv' Hj Ek) as (l & Hch' & Hin'). rewrite (chain_fun _ _ _ _ Hch' Hr2) in Hin'. by eapply Ho.
Qed.
End Search.

(** ** Tables *)

(** A member with its type is a value of Lua; [tr] says that a table is, and the tables in
    a table come after [lo]. *)
Definition vrep (tr : nat → Z → list (lval * lval) → Prop) (strs : list (list Z)) (lo : nat) (x : option value) (vt : Z) (v : lval) : Prop :=
  match v with
  | LBool b => x = Some (UBool b) ∧ vt = VALUETYPE_BOOLEAN
  | LInt i => x = Some (UInt i) ∧ vt = VALUETYPE_INTEGER
  | LReal b => x = Some (UReal b) ∧ vt = VALUETYPE_REAL
  | LStr s => ∃ i, x = Some (UStr i) ∧ vt = VALUETYPE_STRING ∧ str_at strs i s
  | LTbl n fs => ∃ q, x = Some (UTbl q) ∧ vt = VALUETYPE_TABLE ∧ (lo < q)%nat ∧ tr q n fs
  | LNil | LOther => False
  end.
Definition hash_part (n : Z) (fs : list (lval * lval)) : list (lval * lval) := filter (λ kv, in_array n kv.1 = false) fs.
Definition cell (V : option value → Z → lval → Prop) (vt : Z) (x : option value) (v : lval) : Prop :=
  match v with LNil => vt = VALUETYPE_NIL | _ => V x vt v ∧ vt ≠ VALUETYPE_NIL end.
Definition arr_at (V : option value → Z → lval → Prop) (t : table) (i : Z) (v : lval) : Prop :=
  ∃ vt x, t_arraytype t !! Z.to_nat (i - 1) = Some vt ∧ t_array t !! Z.to_nat (i - 1) = Some x ∧ cell V vt x v.
Definition arr_size (t : table) (n : Z) : Prop := t_sizearray t = n ∧ zlen (t_arraytype t) = n ∧ zlen (t_array t) = n.
Definition arr_ok (V : option value → Z → lval → Prop) (t : table) (n : Z) (fs : list (lval * lval)) : Prop :=
  arr_size t n ∧ ∀ i, 0 < i ≤ n → arr_at V t i (lua_rawget fs (LInt i)).
Definition good (strs : list (list Z)) (V : option value → Z → lval → Prop) (t : table) (n : Z) (fs : list (lval * lval)) : Prop :=
  arr_ok V t n fs ∧ ∃ es, es ≡ₚ hash_part n fs ∧ slots (t_sizehash t) strs V (t_hash t) (Some <$> es).
(** A table is a Lua table whose tables are nested less than [d] deep. *)
Fixpoint trep (d : nat) (c : context) (p : nat) (n : Z) (fs : list (lval * lval)) : Prop :=
  match d with
  | O => False
  | S d => ∃ t, c_tables c !! p = Some (Some t) ∧ good (c_strings c) (vrep (trep d c) (c_strings c) p) t n fs
  end.

Definition weaker (V V' : option value → Z → lval → Prop) : Prop := ∀ x vt v, V x vt v → V' x vt v.
Lemma cell_mono V V' vt x v : weaker V V' → cell V vt x v → cell V' vt x v.
Proof. intros HV. destruct v; cbn; try done; intros [? ?]; auto. Qed.
Lemma arr_at_mono V V' t i v : weaker V V' → arr_at V t i v → arr_at V' t i v.
Proof. intros HV (vt & x & ? & ? & ?). exists vt, x. split_and!; try done. by eapply cell_mono. Qed.
Lemma arr_ok_mono V V' t n fs : weaker V V' → arr_ok V t n fs → arr_ok V' t n fs.
Proof. intros HV [? Ha]. split; [done|]. intros i Hi. eapply arr_at_mono; [done|by apply Ha]. Qed.
Lemma arr_nil V t i : arr_at V t i LNil → t_arraytype t !! Z.to_nat (i - 1) = Some VALUETYPE_NIL.
Proof. intros (vt & x & H & _ & Hc). cbn in Hc. by subst vt. Qed.
Lemma slots_mono m strs strs' V V' h occ :
  strs `prefix_of` strs' → weaker V V' → slots m strs V h occ → slots m strs' V' h occ.
Proof.
  intros Hp HV [Hl Hr Hk Hc Ha]. split; try done. eapply Forall2_impl; [exact Hr|]. intros nd [kv|]; cbn; [|done].
  intros (? & ? & ? & ?). split_and!; try done; [by eapply key_rep_prefix|auto].
Qed.
Lemma vrep_mono (tr tr' : nat → Z → list (lval * lval) → Prop) strs strs' lo :
  strs `prefix_of` strs' → (∀ q n fs, (lo < q)%nat → tr q n fs → tr' q n fs) → weaker (vrep tr strs lo) (vrep tr' strs' lo).
Proof.
  intros Hp Ht x vt v. destruct v; cbn; try done.
  - intros (i & -> & -> & Hs). exists i. split_and!; try done. by eapply str_at_prefix.
  - intros (q & -> & -> & Hq & Hn). exists q. auto.
Qed.
(** Tables made later do not change what is there. *)
Definition keeps (lo : nat) (c c' : context) : Prop :=
  c_strings c `prefix_of` c_strings c' ∧
  ∀ q x, (lo < q)%nat → c_tables c !! q = Some x → c_tables c' !! q = Some x.
Lemma trep_mono d c c' lo p n fs : keeps lo c c' → (lo < p)%nat → trep d c p n fs → trep d c' p n fs.
Proof.
  intros [Hp Ht] Hlo. revert p Hlo n fs. induction d as [|d IH]; intros p Hlo n fs; [done|].
  intros (t & Hl & Ha & es & He & Hs). exists t. split; [by apply Ht|].
  assert (weaker (vrep (trep d c) (c_strings c) p) (vrep (trep d c') (c_strings c') p)) as HV.
  { apply vrep_mono; [done|]. intros q n' fs' Hq. apply IH. lia. }
  split; [by eapply arr_ok_mono|]. exists es. split; [done|]. by eapply slots_mono.
Qed.
Lemma vrep_keeps d c c' lo : keeps lo c c' → weaker (vrep (trep d c) (c_strings c) lo) (vrep (trep d c') (c_strings c') lo).
Proof. intros Hk. apply vrep_mono; [apply Hk|]. intros q n fs Hq. by apply (trep_mono d c c' lo). Qed.

(** ** Tables held by tables *)

(** The table of a member; for a table without one the root, which no table holds. *)
Definition kid (vt : Z) (x : option value) : list nat :=
  if decide (vt = VALUETYPE_TABLE) then match x with Some (UTbl q) => [q] | _ => [0%nat] end else [].
Definition node_kid (n : node) : list nat := kid (n_valuetype n) (n_v n).
Definition kids (t : table) : list nat := concat (zip_with kid (t_arraytype t) (t_array t)) ++ concat (node_kid <$> t_hash t).
Definition okids (o : option table) : list nat := from_option kids [] o.
(** The arrays have their sizes. *)
Definition sized (t : table) : Prop := arr_size t (t_sizearray t) ∧ zlen (t_hash t) = t_sizehash t.
(** Tables made from the place [base] on: [ks] and the tables themselves hold each of them
    once, and a table holds later ones. *)
Definition forest (base : nat) (ks : list nat) (extra : list (option table)) : Prop :=
  ks ++ concat (okids <$> extra) ≡ₚ seq base (length extra) ∧
  ∀ i x, extra !! i = Some x → ∃ t, x = Some t ∧ sized t ∧ Forall (λ k, base + i < k)%nat (kids t).

Lemma kids_array n m types vals h j vt vt0 x x0 :
  types !! j = Some vt0 → vals !! j = Some x0 → kid vt0 x0 = [] →
  kids (mk_tbl n m (<[j := vt]> types) (<[j := x]> vals) h) ≡ₚ kids (mk_tbl n m types vals h) ++ kid vt x.
Proof.
  intros H1 H2 H0. unfold kids. cbn. rewrite <- insert_zip_with.
  pose proof (concat_insert_perm (zip_with kid types vals) j (kid vt0 x0) (kid vt x)) as H.
  rewrite lookup_zip_with, H1, H2 in H. specialize (H eq_refl). rewrite H0, app_nil_r in H. rewrite H.
  rewrite <- !app_assoc. apply Permutation_app_head, Permutation_app_comm.
Qed.
Lemma kids_hash n m types vals h j nd nd' :
  h !! j = Some nd → node_kid nd = [] →
  kids (mk_tbl n m types vals (<[j := nd']> h)) ≡ₚ kids (mk_tbl n m types vals h) ++ node_kid nd'.
Proof.
  intros H1 H0. unfold kids. cbn. rewrite list_fmap_insert.
  pose proof (concat_insert_perm (node_kid <$> h) j (node_kid nd) (node_kid nd')) as H.
  rewrite list_lookup_fmap, H1 in H. specialize (H eq_refl). rewrite H0, app_nil_r in H. rewrite H. by rewrite app_assoc.
Qed.
Lemma kids_same n m types vals h j nd nd' :
  h !! j = Some nd → node_kid nd' = node_kid nd → kids (mk_tbl n m types vals (<[j := nd']> h)) = kids (mk_tbl n m types vals h).
Proof.
  intros H1 H0. unfold kids. cbn. rewrite list_fmap_insert, H0. f_equal. f_equal. apply list_insert_id. by rewrite list_lookup_fmap, H1.
Qed.
Lemma empty_kid nd : n_valuetype nd = VALUETYPE_NIL → node_kid nd = [].
Proof. unfold node_kid, kid. by intros ->. Qed.
Lemma forest_nil base : forest base [] [].
Proof. split; [done|]. intros i x Hx. by rewrite lookup_nil in Hx. Qed.
Lemma forest_perm base ks ks' extra : ks ≡ₚ ks' → forest base ks extra → forest base ks' extra.
Proof. intros E [H ?]. split; [|done]. by rewrite <- E. Qed.
Lemma forest_app base ks ks' extra extra' :
  forest base ks extra → forest (base + length extra) ks' extra' → forest base (ks ++ ks') (extra ++ extra').
Proof.
  intros [H1 O1] [H2 O2]. split.
  - rewrite fmap_app, concat_app, length_app, seq_app, <- H1, <- H2. rewrite <- !app_assoc. apply Permutation_app_head.
    rewrite (Permutation_app_comm ks'), <- !app_assoc. apply Permutation_app_head. apply Permutation_app_comm.
  - intros i x [Hx|[Hl Hx]]%lookup_app_Some; [by apply O1|]. destruct (O2 _ _ Hx) as (t & -> & Hz & Ht). exists t. do 2 (split; [done|]).
    eapply Forall_impl; [exact Ht|]. cbn. intros k. lia.
Qed.
Lemma forest_table q t extra : sized t → forest (S q) (kids t) extra → forest q [q] (Some t :: extra).
Proof.
  intros Hz [H O]. split; [cbn; by rewrite H|]. intros [|i] x Hx; cbn in Hx.
  - injection Hx as <-. exists t. do 2 (split; [done|]). apply Forall_forall. intros k Hk.
    assert (k ∈ seq (S q) (length extra)) as ?%elem_of_seq; [|lia]. rewrite <- H. set_solver.
  - destruct (O i x Hx) as (t' & -> & Hz' & Ht). exists t'. do 2 (split; [done|]). eapply Forall_impl; [exact Ht|]. cbn. intros k. lia.
Qed.
Lemma trep_sized d c p n fs t : c_tables c !! p = Some (Some t) → trep d c p n fs → sized t.
Proof.
  intros Ht. destruct d as [|d]; [done|]. intros (t' & Ht' & [Hs _] & es & _ & Hl). simplify_eq. split; [|apply (s_len _ _ _ _ _ Hl)].
  destruct Hs as (<- & ? & ?). done.
Qed.
