(* ===== verification/SharedataConv.v ===== *)
(** * Shared configuration: the conversion

    [convtable] fills the table it is given: the two passes over the fields keep the slots
    of SharedataProps, and the tables and strings made for the values only add to what is
    there. *)
From stdpp Require Import base numbers list list_numbers sets.
From S2P Require Import Prelude Sharedata SharedataProps.

(** ** Runs of the monad *)

Lemma M_bind_Ok {A B} (m : M A) (f : A → M B) c c' a : m c = Ok (c', Some a) → (m ≫= f) c = f a c'.
Proof. intros H. unfold mbind, M_bind. by rewrite H. Qed.
Lemma lift_Ok {A} (r : result A) a c : r = Ok a → lift r c = Ok (c, Some a).
Proof. by intros ->. Qed.

(** ** The table under construction

    The tables there were, with the one under construction, and those made since. *)
Definition st (T : list (option table)) (p : nat) (strs : list (list Z)) (t : table) (extra : list (option table)) : context :=
  mk_ctx strs (<[p := Some t]> T ++ extra).
Definition with_hash (t : table) (h : list node) : table :=
  mk_tbl (t_sizearray t) (t_sizehash t) (t_arraytype t) (t_array t) h.

Section Table.
Context (T : list (option table)) (p : nat).
Hypothesis Hp : (p < length T)%nat.

Lemma st_lookup strs t extra : c_tables (st T p strs t extra) !! p = Some (Some t).
Proof. cbn. rewrite lookup_app_l by by rewrite length_insert. by apply list_lookup_insert_eq. Qed.
Lemma get_st strs t extra : get_tbl p (st T p strs t extra) = Ok (st T p strs t extra, Some t).
Proof. unfold get_tbl, the_table. by rewrite st_lookup. Qed.
Lemma put_st strs t t' extra : put_tbl p t' (st T p strs t extra) = Ok (st T p strs t' extra, Some ()).
Proof. unfold put_tbl, st. cbn. rewrite insert_app_l by by rewrite length_insert. by rewrite list_insert_insert_eq. Qed.
Lemma put_node_st strs t extra j n :
  0 ≤ j < zlen (t_hash t) →
  put_node p j n (st T p strs t extra) = Ok (st T p strs (with_hash t (<[Z.to_nat j := n]> (t_hash t))) extra, Some ()).
Proof.
  intros Hj. unfold put_node. rewrite (M_bind_Ok _ _ _ _ _ (get_st strs t extra)).
  rewrite (M_bind_Ok _ _ _ _ _ (lift_Ok _ _ _ (wr_Ok _ _ _ Hj))). apply put_st.
Qed.
Lemma st_keeps strs strs' t t' extra extra' :
  strs `prefix_of` strs' → keeps p (st T p strs t extra) (st T p strs' t' (extra ++ extra')).
Proof.
  intros Hs. split; [done|]. intros q x Hq. cbn. rewrite !app_assoc. rewrite !lookup_app_Some, !length_app, !length_insert.
  rewrite !list_lookup_insert_ne by lia. intros [H|[Hl H]]; left; [by left|right]. done.
Qed.
End Table.

(** ** Values *)

Definition fields_ok (sh : lval → Prop) (n : Z) (fs : list (lval * lval)) : Prop :=
  0 ≤ n ≤ INT_MAX ∧ zlen fs ≤ INT_MAX ∧ NoDup fs.*1 ∧ Forall (λ kv, key_ok kv.1 ∧ sh kv.2) fs.
(** The values the library supports, with tables nested at most [d] deep. *)
Fixpoint shareable (d : nat) (v : lval) : Prop :=
  match v with
  | LNil | LOther => False
  | LTbl n fs => match d with O => False | S d => fields_ok (shareable d) n fs end
  | _ => True
  end.
Definition conv_ok (d : nat) (conv : nat → Z → list (lval * lval) → M unit) : Prop :=
  ∀ T p strs n fs, (p < length T)%nat → NoDup strs → shareable d (LTbl n fs) →
    ∃ strs' t extra, conv p n fs (st T p strs zero_table []) = Ok (st T p strs' t extra, Some ()) ∧
      strs `prefix_of` strs' ∧ NoDup strs' ∧ trep d (st T p strs' t extra) p n fs ∧ forest (length T) (kids t) extra.

Section Values.
Context (d : nat) (conv : nat → Z → list (lval * lval) → M unit) (Hconv : conv_ok d conv).

Lemma setvalue_spec T p strs t extra v :
  (p < length T)%nat → NoDup strs → shareable d v →
  ∃ strs' extra' x vt, setvalue conv v (st T p strs t extra) = Ok (st T p strs' t (extra ++ extra'), Some (Some x, vt)) ∧
    strs `prefix_of` strs' ∧ NoDup strs' ∧ vt ≠ VALUETYPE_NIL ∧
    vrep (trep d (st T p strs' t (extra ++ extra'))) strs' p (Some x) vt v ∧ forest (length T + length extra) (kid vt (Some x)) extra'.
Proof.
  intros Hp Hn Hv. destruct v as [|b|i|b|s|n fs|]; cbn [setvalue]; try (by destruct d);
    try (eexists strs, [], _, _; rewrite app_nil_r; split; [reflexivity|]; do 3 (split; [done|]); split; [by split|apply forest_nil]).
  - destruct (stringindex_spec s (st T p strs t extra) Hn) as (i & strs' & Hi & Hpre & Hn' & Hs).
    rewrite (M_bind_Ok _ _ _ _ _ Hi). exists strs', [], (UStr i), VALUETYPE_STRING. rewrite app_nil_r.
    do 4 (split; [done|]). split; [by exists i|apply forest_nil].
  - set (T' := <[p := Some t]> T ++ extra ++ [Some zero_table]). set (q := length (<[p := Some t]> T ++ extra)).
    assert (q < length T')%nat as Hq by (unfold q, T'; rewrite app_assoc, (length_app (_ ++ _)); cbn; lia).
    destruct (Hconv T' q strs n fs Hq Hn Hv) as (strs' & t' & extra' & Hc & Hpre & Hn' & Ht & Hfor).
    assert (∀ u, <[q := Some u]> T' = <[p := Some t]> T ++ extra ++ [Some u]) as Hins.
    { intros u. unfold q, T'. rewrite !app_assoc. rewrite <- (Nat.add_0_r (length _)), insert_app_r. done. }
    assert (new_tbl (st T p strs t extra) = Ok (st T' q strs zero_table [], Some q)) as Hnew.
    { unfold new_tbl, st. cbn. by rewrite app_nil_r, Hins, app_assoc. }
    rewrite (M_bind_Ok _ _ _ _ _ Hnew), (M_bind_Ok _ _ _ _ _ Hc).
    assert (st T' q strs' t' extra' = st T p strs' t (extra ++ (Some t' :: extra'))) as E.
    { unfold st. f_equal. rewrite Hins. by rewrite <- !app_assoc. }
    rewrite E in Ht |- *. exists strs', (Some t' :: extra'), (UTbl q), VALUETYPE_TABLE. split_and!; try done.
    + exists q. split_and!; try done. unfold q. rewrite length_app, length_insert. lia.
    + assert (q = length T + length extra)%nat as <- by (unfold q; by rewrite length_app, length_insert).
      apply forest_table; [eapply trep_sized; [|exact Ht]; rewrite <- E; by apply st_lookup|]. replace (S q) with (length T'); [done|]. unfold q, T'. rewrite app_assoc, (length_app (_ ++ _)). cbn. lia.
Qed.

Lemma setarray_spec T p strs t extra v i n :
  (p < length T)%nat → NoDup strs → v = LNil ∨ shareable d v → 0 < i ≤ n → arr_size t n →
  t_arraytype t !! Z.to_nat (i - 1) = Some VALUETYPE_NIL →
  ∃ strs' t' extra', setarray conv p v i (st T p strs t extra) = Ok (st T p strs' t' (extra ++ extra'), Some ()) ∧
    strs `prefix_of` strs' ∧ NoDup strs' ∧ arr_size t' n ∧ t_sizehash t' = t_sizehash t ∧ t_hash t' = t_hash t ∧
    arr_at (vrep (trep d (st T p strs' t' (extra ++ extra'))) strs' p) t' i v ∧
    (∀ i' v', 0 < i' → i' ≠ i → arr_at (vrep (trep d (st T p strs t extra)) strs p) t i' v' →
             arr_at (vrep (trep d (st T p strs' t' (extra ++ extra'))) strs' p) t' i' v') ∧
    (forest (length T) (kids t) extra → forest (length T) (kids t') (extra ++ extra')).
Proof.
  intros Hp Hn Hv Hi (Hs1 & Hs2 & Hs3) Hnil. unfold setarray.
  assert (∃ strs' extra' x vt, setvalue conv v (st T p strs t extra) = Ok (st T p strs' t (extra ++ extra'), Some (x, vt)) ∧
    strs `prefix_of` strs' ∧ NoDup strs' ∧ cell (vrep (trep d (st T p strs' t (extra ++ extra'))) strs' p) vt x v ∧
    forest (length T + length extra) (kid vt x) extra')
    as (strs' & extra' & x & vt & Hset & Hpre & Hn' & Hcell & Hfor).
  { destruct Hv as [->|Hv]; [exists strs, [], None, VALUETYPE_NIL; rewrite app_nil_r; split_and!; try done; apply forest_nil|].
    destruct (setvalue_spec T p strs t extra v Hp Hn Hv) as (strs' & extra' & x & vt & ? & ? & ? & ? & ? & ?).
    exists strs', extra', (Some x), vt. split_and!; try done. by destruct v; try done; destruct d. }
  rewrite (M_bind_Ok _ _ _ _ _ Hset), (M_bind_Ok _ _ _ _ _ (get_st T p Hp _ _ _)). cbn [fst snd].
  rewrite (M_bind_Ok _ _ _ _ _ (lift_Ok _ _ _ (wr_Ok (t_arraytype t) (i - 1) vt ltac:(lia)))).
  rewrite (M_bind_Ok _ _ _ _ _ (lift_Ok _ _ _ (wr_Ok (t_array t) (i - 1) x ltac:(lia)))).
  rewrite (put_st T p Hp). eexists strs', _, extra'. split; [done|]. split_and!; try done; unfold arr_size, arr_at; cbn.
  - by rewrite !zlen_insert.
  - exists vt, x. unfold zlen in *. rewrite !list_lookup_insert_eq by lia. split_and!; try done.
    eapply cell_mono; [|done]. apply (vrep_keeps d (st T p strs' t _)). rewrite <- (app_nil_r (extra ++ extra')) at 2. by apply st_keeps.
  - intros i' v' Hi' Hne (vt' & x' & ? & ? & ?). exists vt', x'. rewrite !list_lookup_insert_ne by lia. split_and!; try done.
    eapply cell_mono; [|done]. apply (vrep_keeps d (st T p strs t extra)). by apply st_keeps.
  - intros Hf. destruct (lookup_lt_is_Some_2 (t_array t) (Z.to_nat (i - 1))) as [x0 Hx0]; [unfold zlen in *; lia|].
    eapply forest_perm; [symmetry; exact (kids_array (t_sizearray t) (t_sizehash t) _ _ (t_hash t) _ vt _ x x0 Hnil Hx0 eq_refl)|].
    by apply forest_app.
Qed.
Lemma setnode_spec T p strs t extra v j nd :
  (p < length T)%nat → NoDup strs → shareable d v → t_hash t !! j = Some nd → n_valuetype nd = VALUETYPE_NIL →
  ∃ strs' x vt extra',
    let nd' := mk_node (Some x) (n_key nd) (n_next nd) (n_keyhash nd) (n_keytype nd) vt (n_nocolliding nd) (n_set nd) in
    setnode conv p (Z.of_nat j) v (st T p strs t extra) = Ok (st T p strs' (with_hash t (<[j := nd']> (t_hash t))) (extra ++ extra'), Some ()) ∧
    strs `prefix_of` strs' ∧ NoDup strs' ∧ vt ≠ VALUETYPE_NIL ∧
    vrep (trep d (st T p strs' (with_hash t (<[j := nd']> (t_hash t))) (extra ++ extra'))) strs' p (Some x) vt v ∧
    (forest (length T) (kids t) extra → forest (length T) (kids (with_hash t (<[j := nd']> (t_hash t)))) (extra ++ extra')).
Proof.
  intros Hp Hn Hv Hj Hnil. destruct (setvalue_spec T p strs t extra v Hp Hn Hv) as (strs' & extra' & x & vt & Hset & ? & ? & ? & Hx & Hfor).
  exists strs', x, vt, extra'. cbn. unfold setnode.
  rewrite (M_bind_Ok _ _ _ _ _ Hset), (M_bind_Ok _ _ _ _ _ (get_st T p Hp _ _ _)). cbn [fst snd].
  rewrite (M_bind_Ok _ _ _ _ _ (lift_Ok _ _ _ (rd_lookup (t_hash t) (Z.of_nat j) nd ltac:(lia) ltac:(by rewrite Nat2Z.id)))).
  rewrite (put_node_st T p Hp), Nat2Z.id by (apply lookup_lt_Some in Hj; unfold zlen; lia). split_and!; try done.
  - eapply (vrep_keeps d (st T p strs' t _)); [|done]. rewrite <- (app_nil_r (extra ++ extra')) at 2. by apply st_keeps.
  - intros Hf. eapply forest_perm; [symmetry; apply (kids_hash (t_sizearray t) (t_sizehash t) _ _ _ _ _ _ Hj); by apply empty_kid|]. by apply forest_app.
Qed.
End Values.

Lemma ishashkey_spec T p strs t extra k :
  (p < length T)%nat → NoDup strs → key_ok k →
  (∃ i, k = LInt i ∧ in_array (t_sizearray t) k = true ∧ 0 < i ≤ t_sizearray t ∧
        ishashkey p k (st T p strs t extra) = Ok (st T p strs t extra, Some (inl i))) ∨
  (in_array (t_sizearray t) k = false ∧
   ∃ strs' a kt, ishashkey p k (st T p strs t extra) = Ok (st T p strs' t extra, Some (inr (a, hash_of k, kt))) ∧
     strs `prefix_of` strs' ∧ NoDup strs' ∧ key_rep strs' k a (hash_of k) kt).
Proof.
  intros Hp Hn Hk. unfold ishashkey. rewrite (M_bind_Ok _ _ _ _ _ (get_st T p Hp _ _ _)).
  destruct k as [| |i| |s| |]; try done; cbn [key_string in_array].
  - rewrite swrap_small by (unfold key_ok, INT_MIN, INT_MAX in Hk; lia). case_decide.
    + left. exists i. rewrite bool_decide_eq_true_2 by done. split_and!; try done; lia.
    + right. rewrite bool_decide_eq_false_2 by done. split; [done|]. exists strs, i, KEYTYPE_INTEGER. by split_and!.
  - right. split; [done|]. rewrite (M_bind_Ok _ _ _ _ _ (lift_Ok _ _ _ (calchash_hash_of s))).
    destruct (stringindex_spec s (st T p strs t extra) Hn) as (i & strs' & Hi & Hpre & Hn' & Hs).
    rewrite (M_bind_Ok _ _ _ _ _ Hi). exists strs', i, KEYTYPE_STRING. by split_and!.
Qed.

(** ** Fields *)

Lemma rawget_snoc_ne fs k v i : k ≠ LInt i → lua_rawget (fs ++ [(k, v)]) (LInt i) = lua_rawget fs (LInt i).
Proof.
  intros Hne. induction fs as [|[k' v'] fs IH]; cbn [lua_rawget app]; [|by rewrite IH].
  destruct k as [| |j| |s| |]; try done. cbn. rewrite bool_decide_eq_false_2; [done|]. by intros ->.
Qed.
Lemma rawget_snoc_eq fs v i : LInt i ∉ fs.*1 → lua_rawget (fs ++ [(LInt i, v)]) (LInt i) = v.
Proof.
  induction fs as [|[k' v'] fs IH]; cbn [lua_rawget app]; intros Hf; [cbn; by rewrite bool_decide_eq_true_2|].
  apply not_elem_of_cons in Hf as [Hne Hf]. destruct (same_lkey (LInt i) k') eqn:E; [|by apply IH].
  destruct k' as [| |j| |s| |]; try done. cbn in E, Hne. apply bool_decide_eq_true_1 in E. congruence.
Qed.
Lemma rawget_none fs k : key_ok k → k ∉ fs.*1 → lua_rawget fs k = LNil.
Proof.
  intros Hk. induction fs as [|[k' v'] fs IH]; cbn [lua_rawget]; intros Hf; [done|]. apply not_elem_of_cons in Hf as [Hne Hf].
  destruct (same_lkey k k') eqn:E; [|by apply IH]. by apply same_lkey_eq in E.
Qed.
Lemma in_array_ne n k i : in_array n k = false → 0 < i ≤ n → k ≠ LInt i.
Proof. intros H Hi ->. cbn in H. apply bool_decide_eq_false_1 in H. lia. Qed.
Lemma arr_ok_hash V t n fs k v : in_array n k = false → arr_ok V t n fs → arr_ok V t n (fs ++ [(k, v)]).
Proof. intros Hk [? Ha]. split; [done|]. intros i Hi. rewrite rawget_snoc_ne; [by apply Ha|]. by eapply in_array_ne. Qed.
Lemma hash_part_snoc n fs k v :
  hash_part n (fs ++ [(k, v)]) = hash_part n fs ++ (if in_array n k then [] else [(k, v)]).
Proof. unfold hash_part. rewrite filter_app. f_equal. rewrite filter_cons. cbn. destruct (in_array n k); [by rewrite decide_False|by rewrite decide_True]. Qed.

Lemma main_bound m k : 0 < m → 0 ≤ hash_of k mod m < m ∧ Z.of_nat (main m k) = hash_of k mod m.
Proof. intros Hm. pose proof (Z.mod_pos_bound (hash_of k) m Hm). unfold main. lia. Qed.

Lemma held_length (occ : list (option (lval * lval))) : (length (held occ) ≤ length occ)%nat.
Proof. unfold held. induction occ as [|[x|] occ IH]; cbn; lia. Qed.
Lemma held_full (occ : list (option (lval * lval))) : length (held occ) = length occ → occ = Some <$> held occ.
Proof.
  unfold held. induction occ as [|[x|] occ IH]; cbn; intros H; [done|f_equal; auto|].
  pose proof (held_length occ). unfold held in *. cbn in *. lia.
Qed.
Lemma held_all (occ : list (option (lval * lval))) : Forall is_Some occ → length (held occ) = length occ.
Proof. unfold held. induction 1 as [|o occ [x ->] _ IH]; cbn; [done|]. by rewrite IH. Qed.

Section Passes.
Context (T : list (option table)) (p : nat) (Hp : (p < length T)%nat).
Context (d : nat) (conv : nat → Z → list (lval * lval) → M unit) (Hconv : conv_ok d conv).
Context (n m : Z) (Hm : 0 < m) (strs0 : list (list Z)).
Abbreviation V c := (vrep (trep d c) (c_strings c) p).

(** After the first pass over some fields every main position among them is taken by one. *)
Definition filled (fs : list (lval * lval)) (c : context) : Prop :=
  ∃ strs t extra occ, c = st T p strs t extra ∧ NoDup strs ∧ strs0 `prefix_of` strs ∧ arr_ok (V c) t n fs ∧ t_sizehash t = m ∧
    slots m strs (V c) (t_hash t) occ ∧ forest (length T) (kids t) extra ∧
    (∀ j kv, occ !! j = Some (Some kv) → kv ∈ hash_part n fs ∧ main m kv.1 = j) ∧
    (∀ kv, kv ∈ hash_part n fs → ∃ kv', occ !! main m kv.1 = Some (Some kv')).

(** Strings that were added, and nothing else. *)
Lemma filled_prefix fs strs strs' t extra occ :
  strs `prefix_of` strs' → arr_ok (V (st T p strs t extra)) t n fs → slots m strs (V (st T p strs t extra)) (t_hash t) occ →
  arr_ok (V (st T p strs' t extra)) t n fs ∧ slots m strs' (V (st T p strs' t extra)) (t_hash t) occ.
Proof.
  intros Hpre Ha Hs. assert (weaker (V (st T p strs t extra)) (V (st T p strs' t extra))) as HV.
  { apply (vrep_keeps d (st T p strs t extra)). rewrite <- (app_nil_r extra) at 2. by apply st_keeps. }
  split; [by eapply arr_ok_mono|by eapply slots_mono].
Qed.
(** A step that adds tables and strings and sets one node. *)
Lemma step_mono fs strs strs' t t' extra extra' h occ :
  strs `prefix_of` strs' → t_arraytype t' = t_arraytype t → t_array t' = t_array t → t_sizearray t' = t_sizearray t →
  arr_ok (V (st T p strs t extra)) t n fs → slots m strs (V (st T p strs t extra)) h occ →
  arr_ok (V (st T p strs' t' (extra ++ extra'))) t' n fs ∧ slots m strs' (V (st T p strs' t' (extra ++ extra'))) h occ.
Proof.
  intros Hpre E1 E2 E3 Ha Hs. assert (weaker (V (st T p strs t extra)) (V (st T p strs' t' (extra ++ extra')))) as HV.
  { apply (vrep_keeps d (st T p strs t extra)). by apply st_keeps. }
  split; [|by eapply slots_mono]. eapply arr_ok_mono in Ha as [Hsz Hat]; [|exact HV].
  unfold arr_ok, arr_size, arr_at in *. rewrite E1, E2, E3. done.
Qed.

(** A field of the hash part: the main position is free, or taken and left. *)
Lemma fill_slot fs k v strs t extra occ a kt nd :
  NoDup strs → arr_ok (V (st T p strs t extra)) t n fs → t_sizehash t = m →
  slots m strs (V (st T p strs t extra)) (t_hash t) occ → in_array n k = false → key_rep strs k a (hash_of k) kt →
  shareable d v → k ∉ (held occ).*1 → t_hash t !! main m k = Some nd → occ !! main m k = Some None →
  n_valuetype nd = VALUETYPE_NIL → forest (length T) (kids t) extra →
  let nd0 := mk_node (n_v nd) a (-1) (hash_of k) kt (n_valuetype nd) 1 true in
  ∃ strs' t' extra',
    setnode conv p (Z.of_nat (main m k)) v (st T p strs (with_hash t (<[main m k := nd0]> (t_hash t))) extra)
      = Ok (st T p strs' t' (extra ++ extra'), Some ()) ∧ strs `prefix_of` strs' ∧ NoDup strs' ∧
    arr_ok (V (st T p strs' t' (extra ++ extra'))) t' n (fs ++ [(k, v)]) ∧ t_sizehash t' = m ∧
    slots m strs' (V (st T p strs' t' (extra ++ extra'))) (t_hash t') (<[main m k := Some (k, v)]> occ) ∧
    forest (length T) (kids t') (extra ++ extra').
Proof.
  intros Hn Ha Hsz Hs Hin Hrep Hv Hf Hnd Ho Hnil Hfor nd0.
  destruct (setnode_spec d conv Hconv T p strs (with_hash t (<[main m k := nd0]> (t_hash t))) extra v (main m k) nd0 Hp Hn Hv)
    as (strs' & x & vt & extra' & Hset & Hpre & Hn' & Hvt & Hx & Hfor'); [apply list_lookup_insert_eq; by eapply lookup_lt_Some|done|].
  cbn -[kids] in Hset, Hx, Hfor'. rewrite list_insert_insert_eq in Hset, Hx, Hfor'. 
  match type of Hset with _ = Ok (st _ _ _ ?u _, _) => set (t' := u) in *; exists strs', t', extra' end. split; [done|].
  destruct (step_mono fs strs strs' t t' extra extra' (t_hash t) occ) as [Ha' Hs']; try done.
  do 2 (split; [done|]). split; [by apply arr_ok_hash|]. split; [done|]. split.
  - eapply slots_fill; [exact Hs'|done|done|done| |done]. split_and!; try done. cbn. by eapply key_rep_prefix.
  - apply Hfor'. unfold with_hash. rewrite (kids_same _ _ _ _ _ _ _ _ Hnd); [done|]. by rewrite !empty_kid.
Qed.
Lemma held_keys occ fs k :
  (∀ j kv, occ !! j = Some (Some kv) → kv ∈ hash_part n fs) → k ∉ fs.*1 → k ∉ (held occ).*1.
Proof.
  intros Ho Hf (kv & -> & [j Hj%Ho]%elem_of_held)%list_elem_of_fmap. apply list_elem_of_filter in Hj as [_ Hj].
  by apply Hf, list_elem_of_fmap_2.
Qed.
Lemma fill_field_spec fs k v c :
  filled fs c → key_ok k → shareable d v → k ∉ fs.*1 →
  ∃ c', fill_field conv p (k, v) c = Ok (c', Some ()) ∧ filled (fs ++ [(k, v)]) c'.
Proof.
  intros (strs & t & extra & occ & -> & Hn & H0 & Ha & Hsz & Hs & Hfor & Ho & Hmain) Hk Hv Hf.
  pose proof Ha as [Hsize Hat]. unfold fill_field, filled. cbn [fst snd]. setoid_rewrite hash_part_snoc.
  destruct (ishashkey_spec T p strs t extra k Hp Hn Hk) as [(i & -> & Hin & Hi & Hkey)|(Hin & strs1 & a & kt & Hkey & Hpre & Hn1 & Hrep)];
    rewrite (M_bind_Ok _ _ _ _ _ Hkey); rewrite (proj1 Hsize) in *; rewrite Hin.
  - destruct (setarray_spec d conv Hconv T p strs t extra v i n Hp Hn) as (strs' & t' & extra' & Hset & Hpre & Hn' & Hsize' & Hsz' & Hh & Hati & Hats & Hfor');
      [by right|done|done|eapply arr_nil; rewrite <- (rawget_none fs (LInt i) Hk Hf); by apply Hat|]. eexists; split; [done|]. eexists strs', t', (extra ++ extra'), occ. rewrite app_nil_r.
    do 2 (split; [done|]). split; [by etrans|]. split; [|split; [congruence|split; [|by auto]]].
    + split; [done|]. intros i' Hi'. destruct (decide (i' = i)) as [->|Hne]; [by rewrite rawget_snoc_eq|].
      rewrite rawget_snoc_ne by congruence. apply Hats; [lia|done|]. apply Hat. lia.
    + rewrite Hh. eapply slots_mono; [done| |done]. apply (vrep_keeps d (st T p strs t extra)). by apply st_keeps.
  - destruct (filled_prefix fs strs strs1 t extra occ Hpre Ha Hs) as [Ha1 Hs1].
    rewrite (M_bind_Ok _ _ _ _ _ (get_st T p Hp _ _ _)), Hsz. destruct (main_bound m k Hm) as [Hb Eb]. rewrite <- Eb in *.
    assert (0 ≤ Z.of_nat (main m k) < zlen (t_hash t)) as Hlen by (rewrite (s_len _ _ _ _ _ Hs); lia).
    destruct (lookup_lt_is_Some_2 (t_hash t) (main m k)) as [nd Hnd]; [unfold zlen in *; lia|].
    destruct (Forall2_lookup_l _ _ _ _ _ (s_rep _ _ _ _ _ Hs1) Hnd) as (o & Hoj & Hor).
    rewrite (M_bind_Ok _ _ _ _ _ (lift_Ok _ _ _ (rd_lookup (t_hash t) (Z.of_nat (main m k)) nd ltac:(lia) ltac:(by rewrite Nat2Z.id)))).
    destruct o as [kvj|]; cbn [slot_rep] in Hor.
    + rewrite decide_False by apply Hor. eexists; split; [done|]. exists strs1, t, extra, occ.
      split_and!; try done; [by etrans|by apply arr_ok_hash| |].
      * intros j kv [? ?]%Ho. split; [set_solver|done].
      * intros kv [?| ->%list_elem_of_singleton]%elem_of_app; [by apply Hmain|by exists kvj].
    + rewrite decide_True by done. rewrite (M_bind_Ok _ _ _ _ _ (put_node_st T p Hp _ _ _ _ _ Hlen)), Nat2Z.id.
      destruct (fill_slot fs k v strs1 t extra occ a kt nd) as (strs' & t' & extra' & -> & ? & ? & ? & ? & ? & ?); try done.
      { apply (held_keys occ fs); [|done]. intros j kv Hj. apply (Ho j kv Hj). }
      eexists; split; [done|]. eexists strs', t', (extra ++ extra'), _. split_and!; try done; [by do 2 etrans| |].
      * intros j kv [(<- & [= <-] & _)|(_ & [? ?]%Ho)]%list_lookup_insert_Some; [set_solver|]. split; [set_solver|done].
      * intros kv [[kv' Hkv']%Hmain| ->%list_elem_of_singleton]%elem_of_app.
        -- exists kv'. by apply occupied_insert.
        -- exists (k, v). apply list_lookup_insert_eq. by eapply lookup_lt_Some.
Qed.

(** During the second pass over [fs] the fields passed are held, the others at most at
    their main position. *)
Definition settled (fs gs : list (lval * lval)) (c : context) : Prop :=
  ∃ strs t extra occ, c = st T p strs t extra ∧ NoDup strs ∧ strs0 `prefix_of` strs ∧ arr_ok (V c) t n fs ∧ t_sizehash t = m ∧
    slots m strs (V c) (t_hash t) occ ∧ forest (length T) (kids t) extra ∧
    (∀ j kv, occ !! j = Some (Some kv) → kv ∈ hash_part n fs ∧ (kv ∈ gs ∨ main m kv.1 = j)) ∧
    (∀ kv, kv ∈ hash_part n fs → ∃ kv', occ !! main m kv.1 = Some (Some kv') ∧ main m kv'.1 = main m kv.1) ∧
    (∀ kv, kv ∈ hash_part n gs → kv ∈ held occ).
Lemma filled_settled fs c : filled fs c → settled fs [] c.
Proof.
  intros (strs & t & extra & occ & -> & Hn & H0 & Ha & Hsz & Hs & Hfor & Ho & Hmain). exists strs, t, extra, occ. split_and!; try done.
  - intros j kv Hj. destruct (Ho j kv Hj). auto.
  - intros kv [kv' Hkv]%Hmain. exists kv'. split; [done|]. apply (Ho _ _ Hkv).
  - by intros kv ?%not_elem_of_nil.
Qed.
Lemma fields_fun fs (k v v' : lval) : NoDup fs.*1 → (k, v) ∈ fs → (k, v') ∈ fs → v = v'.
Proof.
  intros Hn [i Hi]%list_elem_of_lookup_1 [j Hj]%list_elem_of_lookup_1.
  assert (i = j) as ->; [|congruence]. eapply NoDup_lookup; [exact Hn|..]; rewrite list_lookup_fmap; [by rewrite Hi|by rewrite Hj].
Qed.
Lemma hash_part_keys fs : NoDup fs.*1 → NoDup (hash_part n fs).*1.
Proof. intros Hn. eapply sublist_NoDup; [exact Hn|]. apply fmap_sublist, sublist_filter. Qed.
(** There is a slot for a field that is not held. *)
Lemma empty_slot fs h strs W occ k v :
  slots m strs W h occ → m = zlen (hash_part n fs) → (∀ j kv, occ !! j = Some (Some kv) → kv ∈ hash_part n fs) →
  (k, v) ∈ hash_part n fs → k ∉ (held occ).*1 → ∃ i nd, list_find is_empty h = Some (i, nd) ∧ h !! i = Some nd ∧ n_valuetype nd = VALUETYPE_NIL ∧ occ !! i = Some None.
Proof.
  intros Hs Em Ho Hk Hf. destruct (list_find is_empty h) as [[i nd]|] eqn:E.
  - apply list_find_Some in E as (Hi & He & _). exists i, nd. split_and!; try done.
    destruct (Forall2_lookup_l _ _ _ _ _ (s_rep _ _ _ _ _ Hs) Hi) as ([kv|] & Hoi & Hr); [|done]. by destruct Hr as (_ & _ & _ & []).
  - exfalso. apply list_find_None in E. assert (Forall is_Some occ) as Hall%held_all.
    { apply Forall_lookup. intros i o Hi. destruct (Forall2_lookup_r _ _ _ _ _ (s_rep _ _ _ _ _ Hs) Hi) as (nd & Hnd & Hr).
      destruct o; [done|]. by destruct (proj1 (Forall_lookup _ _) E i nd Hnd). }
    assert (k :: (held occ).*1 ⊆+ (hash_part n fs).*1) as Hsub%submseteq_length.
    { apply NoDup_submseteq; [apply NoDup_cons; split; [done|apply (s_keys _ _ _ _ _ Hs)]|].
      intros x [->|(kv & -> & [j Hj%Ho]%elem_of_held)%list_elem_of_fmap]%elem_of_cons; [by apply (list_elem_of_fmap_2 fst _ (k, v))|].
      by apply list_elem_of_fmap_2. }
    pose proof (s_len _ _ _ _ _ Hs) as Hl. pose proof (Forall2_length _ _ _ (s_rep _ _ _ _ _ Hs)).
    cbn in Hsub. rewrite !length_fmap in Hsub. unfold zlen in *. lia.
Qed.

(** A field behind its taken main position. *)
Lemma collide_slot fs k v strs t extra occ a kt i nd mp kvj :
  NoDup strs → arr_ok (V (st T p strs t extra)) t n fs → t_sizehash t = m →
  slots m strs (V (st T p strs t extra)) (t_hash t) occ → key_rep strs k a (hash_of k) kt → shareable d v →
  k ∉ (held occ).*1 → t_hash t !! i = Some nd → occ !! i = Some None →
  t_hash t !! main m k = Some mp → occ !! main m k = Some (Some kvj) → main m kvj.1 = main m k →
  n_valuetype nd = VALUETYPE_NIL → forest (length T) (kids t) extra →
  let mp' := mk_node (n_v mp) (n_key mp) (Z.of_nat i) (n_keyhash mp) (n_keytype mp) (n_valuetype mp) 0 (n_set mp) in
  let nd1 := mk_node (n_v nd) a (n_next mp) (hash_of k) kt (n_valuetype nd) 0 true in
  ∃ strs' t' extra',
    setnode conv p (Z.of_nat i) v (st T p strs (with_hash t (<[i := nd1]> (<[main m k := mp']> (t_hash t)))) extra)
      = Ok (st T p strs' t' (extra ++ extra'), Some ()) ∧ strs `prefix_of` strs' ∧ NoDup strs' ∧
    arr_ok (V (st T p strs' t' (extra ++ extra'))) t' n fs ∧ t_sizehash t' = m ∧
    slots m strs' (V (st T p strs' t' (extra ++ extra'))) (t_hash t') (<[i := Some (k, v)]> occ) ∧
    forest (length T) (kids t') (extra ++ extra').
Proof.
  intros Hn Ha Hsz Hs Hrep Hv Hf Hnd Ho Hmp Hoj Hmj Hnil Hfor mp' nd1.
  destruct (setnode_spec d conv Hconv T p strs (with_hash t (<[i := nd1]> (<[main m k := mp']> (t_hash t)))) extra v i nd1 Hp Hn Hv)
    as (strs' & x & vt & extra' & Hset & Hpre & Hn' & Hvt & Hx & Hfor');
    [apply list_lookup_insert_eq; rewrite length_insert; by eapply lookup_lt_Some|done|].
  cbn -[kids] in Hset, Hx, Hfor'. rewrite list_insert_insert_eq in Hset, Hx, Hfor'.
  match type of Hset with _ = Ok (st _ _ _ ?u _, _) => set (t' := u) in *; exists strs', t', extra' end. split; [done|].
  destruct (step_mono fs strs strs' t t' extra extra' (t_hash t) occ) as [Ha' Hs']; try done.
  do 4 (split; [done|]). split.
  - eapply (slots_collide _ _ _ (t_hash t) occ i (main m k) kvj mp mp' (k, v)); try done.
    + split_and!; try done. cbn. by eapply key_rep_prefix.
    + destruct (Forall2_lookup_l _ _ _ _ _ (s_rep _ _ _ _ _ Hs') Hmp) as (o & Ho2 & Hr). by simplify_eq.
  - apply Hfor'. unfold with_hash. rewrite (kids_same _ _ _ _ _ i nd); [by rewrite (kids_same _ _ _ _ _ _ _ _ Hmp)| |by rewrite !empty_kid].
    rewrite list_lookup_insert_ne; [done|]. congruence.
Qed.
Lemma settled_step fs gs occ i k v :
  occ !! i = Some None → (k, v) ∈ hash_part n fs →
  (∀ j kv, occ !! j = Some (Some kv) → kv ∈ hash_part n fs ∧ (kv ∈ gs ∨ main m kv.1 = j)) →
  (∀ kv, kv ∈ hash_part n fs → ∃ kv', occ !! main m kv.1 = Some (Some kv') ∧ main m kv'.1 = main m kv.1) →
  (∀ kv, kv ∈ hash_part n gs → kv ∈ held occ) →
  let occ' := <[i := Some (k, v)]> occ in
  (∀ j kv, occ' !! j = Some (Some kv) → kv ∈ hash_part n fs ∧ (kv ∈ gs ++ [(k, v)] ∨ main m kv.1 = j)) ∧
  (∀ kv, kv ∈ hash_part n fs → ∃ kv', occ' !! main m kv.1 = Some (Some kv') ∧ main m kv'.1 = main m kv.1) ∧
  (∀ kv, kv ∈ hash_part n gs ++ [(k, v)] → kv ∈ held occ').
Proof.
  intros Hi Hk Ho Hmain Hg occ'. split_and!.
  - intros j kv [(<- & [= <-] & _)|(_ & [? [?|?]]%Ho)]%list_lookup_insert_Some; (split; [done|]); [left; set_solver..|by right].
  - intros kv (kv' & ? & ?)%Hmain. exists kv'. split; [|done]. by apply occupied_insert.
  - intros kv Hkv. unfold occ'. rewrite (occ_held_insert occ i (k, v) Hi).
    apply elem_of_app in Hkv as [?%Hg| ->%list_elem_of_singleton]; set_solver.
Qed.
Lemma collide_field_spec fs gs k v c :
  settled fs gs c → m = zlen (hash_part n fs) → NoDup fs.*1 → (k, v) ∈ fs → key_ok k → shareable d v → k ∉ gs.*1 →
  ∃ c', collide_field conv p (k, v) c = Ok (c', Some ()) ∧ settled fs (gs ++ [(k, v)]) c'.
Proof.
  intros (strs & t & extra & occ & -> & Hn & H0 & Ha & Hsz & Hs & Hfor & Ho & Hmain & Hg) Em Hnf Hkv Hk Hv Hf.
  unfold collide_field, settled. cbn [fst snd]. setoid_rewrite hash_part_snoc.
  destruct (ishashkey_spec T p strs t extra k Hp Hn Hk) as [(i & -> & Hin & Hi & Hkey)|(Hin & strs1 & a & kt & Hkey & Hpre & Hn1 & Hrep)];
    rewrite (M_bind_Ok _ _ _ _ _ Hkey); rewrite (proj1 (proj1 Ha)) in *; rewrite Hin.
  { eexists; split; [done|]. exists strs, t, extra, occ. rewrite app_nil_r. split_and!; try done.
    intros j kv Hj. destruct (Ho j kv Hj) as [? [?|?]]; split; try done; [left; set_solver|by right]. }
  destruct (filled_prefix fs strs strs1 t extra occ Hpre Ha Hs) as [Ha1 Hs1].
  assert ((k, v) ∈ hash_part n fs) as Hkh by by apply list_elem_of_filter.
  rewrite (M_bind_Ok _ _ _ _ _ (get_st T p Hp _ _ _)), Hsz. destruct (main_bound m k Hm) as [Hb Eb]. rewrite <- Eb in *.
  assert (0 ≤ Z.of_nat (main m k) < zlen (t_hash t)) as Hlen by (rewrite (s_len _ _ _ _ _ Hs); lia).
  destruct (Hmain _ Hkh) as (kvj & Hoj & Hmj). cbn [fst] in Hoj, Hmj.
  destruct (Forall2_lookup_r _ _ _ _ _ (s_rep _ _ _ _ _ Hs1) Hoj) as (mp & Hmp & Hmr). destruct Hmr as (Hset & Hmk & Hmv).
  assert ((n ← rd (t_hash t) (Z.of_nat (main m k)); key_of n) = Ok mp) as Hrd.
  { rewrite (rd_lookup _ _ mp); [|lia|by rewrite Nat2Z.id]. unfold key_of. cbn. by rewrite Hset. }
  rewrite (M_bind_Ok _ _ _ _ _ (lift_Ok _ _ _ Hrd)). pose proof (key_rep_eq _ _ _ _ _ _ _ _ _ Hn1 Hmk Hrep) as Heq.
  case_decide as Et.
  - apply Heq in Et. eexists; split; [done|]. exists strs1, t, extra, occ. split_and!; try done; [by etrans| |].
    + intros j kv Hj. destruct (Ho j kv Hj) as [? [?|?]]; split; try done; [left; set_solver|by right].
    + intros kv [?| ->%list_elem_of_singleton]%elem_of_app; [by apply Hg|]. apply elem_of_held. exists (main m k). rewrite Hoj.
      destruct kvj as [k' v']. cbn in Et. subst k'. do 3 f_equal. eapply fields_fun; [exact Hnf| |exact Hkv].
      apply Ho in Hoj as [[_ ?]%list_elem_of_filter _]. done.
  - assert (k ∉ (held occ).*1) as Hfresh.
    { intros (kv & -> & [j Hj]%elem_of_held)%list_elem_of_fmap. destruct (Ho j kv Hj) as [_ [Hin'|Hmj']].
      - by apply Hf, list_elem_of_fmap_2.
      - rewrite <- Hmj' in Hj. rewrite Hoj in Hj. injection Hj as ->. by apply Et, Heq. }
    destruct (empty_slot fs (t_hash t) _ _ occ k v Hs1 Em) as (i & nd & -> & Hnd & Hnil & Hoi); try done.
    { intros j kv Hj. apply (Ho j kv Hj). }
    assert (0 ≤ Z.of_nat i < zlen (t_hash t)) as Hli by (apply lookup_lt_Some in Hnd; unfold zlen; lia).
    rewrite (M_bind_Ok _ _ _ _ _ (put_node_st T p Hp _ _ _ _ _ Hlen)), Nat2Z.id.
    erewrite (M_bind_Ok (put_node p (Z.of_nat i) _)) by (apply (put_node_st T p Hp); cbn; by rewrite zlen_insert).
    rewrite Nat2Z.id.
    destruct (collide_slot fs k v strs1 t extra occ a kt i nd mp kvj) as (strs' & t' & extra' & E & ? & ? & ? & ? & ? & ?); try done.
    eexists; split; [exact E|].
    destruct (settled_step fs gs occ i k v) as (? & ? & ?); try done.
    eexists strs', t', (extra ++ extra'), _. split_and!; try done. by do 2 etrans.
Qed.

Abbreviation ok kv := (key_ok kv.1 ∧ shareable d kv.2).
Lemma fillnocolliding_spec fs gs c :
  filled fs c → NoDup (fs ++ gs).*1 → Forall (λ kv, ok kv) gs →
  ∃ c', fillnocolliding conv p gs c = Ok (c', Some ()) ∧ filled (fs ++ gs) c'.
Proof.
  revert fs c. induction gs as [|[k v] gs IH]; intros fs c Hc Hn Hok; unfold fillnocolliding; cbn [forM].
  { rewrite app_nil_r. by exists c. }
  apply Forall_cons in Hok as [[Hk Hv] Hok]. rewrite fmap_app in Hn. apply NoDup_app in Hn as (Hn1 & Hd & Hn2).
  destruct (fill_field_spec fs k v c Hc Hk Hv) as (c1 & H1 & Hc1); [intros Hin; apply (Hd _ Hin); by left|].
  rewrite (M_bind_Ok _ _ _ _ _ H1). destruct (IH (fs ++ [(k, v)]) c1 Hc1) as (c' & H' & Hc'); [|done|].
  - rewrite <- app_assoc. cbn. rewrite fmap_app. by apply NoDup_app.
  - exists c'. rewrite <- app_assoc in Hc'. done.
Qed.
Lemma fillcolliding_spec fs gs hs c :
  settled fs gs c → fs = gs ++ hs → m = zlen (hash_part n fs) → NoDup fs.*1 → Forall (λ kv, ok kv) fs →
  ∃ c', fillcolliding conv p hs c = Ok (c', Some ()) ∧ settled fs fs c'.
Proof.
  revert gs c. induction hs as [|[k v] hs IH]; intros gs c Hc Hfs Em Hn Hok; unfold fillcolliding; cbn [forM].
  { rewrite app_nil_r in Hfs. subst gs. by exists c. }
  assert ((k, v) ∈ fs) as Hin by (rewrite Hfs; set_solver). pose proof (proj1 (Forall_forall _ _) Hok _ Hin) as [Hk Hv].
  destruct (collide_field_spec fs gs k v c Hc Em Hn Hin Hk Hv) as (c1 & H1 & Hc1).
  { rewrite Hfs, fmap_app in Hn. apply NoDup_app in Hn as (_ & Hd & _). intros Hg. apply (Hd _ Hg). by left. }
  rewrite (M_bind_Ok _ _ _ _ _ H1). apply (IH (gs ++ [(k, v)])); try done. by rewrite <- app_assoc.
Qed.
Lemma settled_trep fs c : settled fs fs c → m = zlen (hash_part n fs) → NoDup fs.*1 → trep (S d) c p n fs.
Proof.
  intros (strs & t & extra & occ & -> & Hn & H0 & Ha & Hsz & Hs & Hfor & Ho & _ & Hg) Em Hnf. exists t. split; [by apply st_lookup|]. split; [done|].
  pose proof (hash_part_keys fs Hnf) as Hnh%NoDup_fmap_1. pose proof (NoDup_fmap_1 _ _ (s_keys _ _ _ _ _ Hs)) as Hno.
  assert (held occ ≡ₚ hash_part n fs) as Hperm.
  { apply NoDup_Permutation; [done..|]. intros kv. split; [|apply Hg]. intros [j Hj]%elem_of_held. apply (Ho j kv Hj). }
  exists (held occ). split; [done|]. rewrite <- held_full; [by rewrite Hsz|]. rewrite Hperm.
  rewrite <- (Forall2_length _ _ _ (s_rep _ _ _ _ _ Hs)). pose proof (s_len _ _ _ _ _ Hs). unfold zlen in *. lia.
Qed.
End Passes.

(** ** The whole conversion *)

Lemma countsize_spec fs n k c :
  0 ≤ k → k + zlen fs ≤ INT_MAX → Forall (λ kv : lval * lval, key_ok kv.1) fs → countsize fs n k c = Ok (c, Some (k + zlen (hash_part n fs))).
Proof.
  revert k. induction fs as [|[key v] fs IH]; intros k Hk Hl Hok; cbn [countsize]; [by rewrite Z.add_0_r|].
  rewrite zlen_cons in Hl. pose proof (zlen_nonneg fs). apply Forall_cons in Hok as [Hkey Hok].
  rewrite (M_bind_Ok _ _ _ _ _ (lift_Ok _ _ _ (c_int_Ok (k + 1) ltac:(unfold INT_MIN, INT_MAX in *; lia)))).
  unfold hash_part. rewrite filter_cons. cbn [fst]. destruct key as [| |i| |s| |]; try done; cbn [in_array].
  - case_decide as E.
    + rewrite IH by (done || lia). rewrite bool_decide_eq_true_2 by done. rewrite decide_False by done. do 3 f_equal. unfold hash_part. lia.
    + rewrite IH by (done || lia). rewrite bool_decide_eq_false_2 by done. rewrite decide_True by done. rewrite zlen_cons. do 3 f_equal. unfold hash_part. lia.
  - rewrite IH by (done || lia). rewrite decide_True by done. rewrite zlen_cons. do 3 f_equal. unfold hash_part. lia.
Qed.
Lemma rawget_shareable d fs k : Forall (λ kv : lval * lval, shareable d kv.2) fs → lua_rawget fs k = LNil ∨ shareable d (lua_rawget fs k).
Proof. induction 1 as [|[k' v] fs Hv _ IH]; cbn [lua_rawget]; [by left|]. destruct (same_lkey k k'); [by right|done]. Qed.

Section Convtable.
Context (d : nat) (conv : nat → Z → list (lval * lval) → M unit) (Hconv : conv_ok d conv).
Context (T : list (option table)) (p : nat) (Hp : (p < length T)%nat).

Lemma array_loop n fs r k strs t extra :
  Forall (λ kv : lval * lval, shareable d kv.2) fs → 0 < k → k + Z.of_nat r = n + 1 → NoDup strs → arr_size t n →
  (∀ i, 0 < i ≤ n → arr_at (vrep (trep d (st T p strs t extra)) strs p) t i (if decide (i < k) then lua_rawget fs (LInt i) else LNil)) →
  forest (length T) (kids t) extra →
  ∃ strs' t' extra', forM (λ i, setarray conv p (lua_rawget fs (LInt i)) i) (seqZ k (Z.of_nat r)) (st T p strs t extra)
      = Ok (st T p strs' t' extra', Some ()) ∧
    strs `prefix_of` strs' ∧ NoDup strs' ∧ t_sizehash t' = t_sizehash t ∧ t_hash t' = t_hash t ∧
    arr_ok (vrep (trep d (st T p strs' t' extra')) strs' p) t' n fs ∧ forest (length T) (kids t') extra'.
Proof.
  intros Hok. revert k strs t extra. induction r as [|r IH]; intros k strs t extra Hk Hr Hn Hsz Hat Hfor.
  - exists strs, t, extra. do 5 (split; [done|]). split; [|done]. split; [done|]. intros i Hi. specialize (Hat i Hi). by rewrite decide_True in Hat by lia.
  - rewrite seqZ_cons by lia. cbn [forM]. replace (Z.pred (Z.of_nat (S r))) with (Z.of_nat r) by lia.
    destruct (setarray_spec d conv Hconv T p strs t extra (lua_rawget fs (LInt k)) k n Hp Hn)
      as (strs1 & t1 & extra1 & Hset & Hpre & Hn1 & Hsz1 & Hh1 & Hh2 & Hk1 & Hrest & Hfor'); [by apply rawget_shareable|lia|done| |].
    { eapply arr_nil. specialize (Hat k ltac:(lia)). rewrite decide_False in Hat by lia. exact Hat. }
    rewrite (M_bind_Ok _ _ _ _ _ Hset).
    destruct (IH (Z.succ k) strs1 t1 (extra ++ extra1)) as (strs' & t' & extra' & -> & ? & ? & ? & ? & ? & ?); try done; try lia; [|by apply Hfor'|].
    + intros i Hi. destruct (decide (i = k)) as [->|Hne]; [by rewrite decide_True by lia|].
      apply Hrest; [lia|done|]. specialize (Hat i Hi). destruct (decide (i < k)); [rewrite decide_True by lia|rewrite decide_False by lia]; done.
    + exists strs', t', extra'. split; [done|]. split; [by etrans|]. split; [done|]. split; [congruence|]. split; [congruence|done].
Qed.

Definition fresh (n m : Z) : table :=
  mk_tbl n m (replicate (Z.to_nat n) VALUETYPE_NIL) (replicate (Z.to_nat n) None) (replicate (Z.to_nat m) raw_node).
Lemma fresh_array n m V : 0 ≤ n → arr_size (fresh n m) n ∧ ∀ i, 0 < i ≤ n → arr_at V (fresh n m) i LNil.
Proof.
  intros Hn. split; [split_and!; cbn; rewrite ?zlen_replicate; lia|]. intros i Hi.
  exists VALUETYPE_NIL, None. cbn. rewrite !lookup_replicate_2 by lia. done.
Qed.
Lemma fresh_slots n m strs V : 0 ≤ m → slots m strs V (t_hash (fresh n m)) (replicate (Z.to_nat m) None).
Proof.
  intros Hm. split; cbn.
  - rewrite zlen_replicate. lia.
  - apply Forall2_replicate. done.
  - assert (held (replicate (Z.to_nat m) None) = []) as ->; [|constructor]. unfold held. by induction (Z.to_nat m) as [|k IH]; cbn.
  - by intros j kv [? _]%lookup_replicate.
  - intros j nd [-> _]%lookup_replicate. done.
Qed.
Lemma fresh_kids n m : kids (fresh n m) = [].
Proof.
  unfold kids. cbn. assert (concat (zip_with kid (replicate (Z.to_nat n) VALUETYPE_NIL) (replicate (Z.to_nat n) None)) = []) as ->.
  - by induction (Z.to_nat n).
  - by induction (Z.to_nat m).
Qed.
Lemma conv_body_ok strs n fs :
  NoDup strs → fields_ok (shareable d) n fs →
  ∃ strs' t extra, conv_body conv p n fs (st T p strs zero_table []) = Ok (st T p strs' t extra, Some ()) ∧
    strs `prefix_of` strs' ∧ NoDup strs' ∧ trep (S d) (st T p strs' t extra) p n fs ∧ forest (length T) (kids t) extra.
Proof.
  intros Hn (Hrange & Hlen & Hnd & Hok). unfold conv_body.
  rewrite swrap_small by (unfold INT_MAX in *; lia). rewrite decide_False by lia.
  rewrite (M_bind_Ok _ _ _ _ _ (put_st T p Hp _ _ (fresh n 0) _)).
  rewrite (M_bind_Ok _ _ _ _ _ (countsize_spec fs n 0 _ ltac:(lia) ltac:(lia) ltac:(by eapply Forall_impl; [exact Hok|]; intros ? []))).
  rewrite Z.add_0_l. set (m := zlen (hash_part n fs)). pose proof (zlen_nonneg (hash_part n fs)) as Hm0. case_decide as Em.
  - assert (0 < m) as Hm by (unfold m in *; lia).
    rewrite (M_bind_Ok _ _ _ _ _ (get_st T p Hp _ _ _)), (M_bind_Ok _ _ _ _ _ (put_st T p Hp _ _ (fresh n m) _)).
    destruct (fillnocolliding_spec T p Hp d conv Hconv n m Hm strs [] fs (st T p strs (fresh n m) [])) as (c1 & H1 & Hc1); [|done|done|].
    { eexists strs, _, [], (replicate (Z.to_nat m) None). do 3 (split; [done|]). split; [|split; [done|split; [by apply fresh_slots; lia|split; [|split]]]].
      - destruct (fresh_array n m (vrep (trep d (st T p strs (fresh n m) [])) strs p)) as [? Hat]; [lia|]. by split.
      - rewrite fresh_kids. apply forest_nil.
      - by intros j kv [? _]%lookup_replicate.
      - by intros kv ?%not_elem_of_nil. }
    rewrite (M_bind_Ok _ _ _ _ _ H1).
    destruct (fillcolliding_spec T p Hp d conv Hconv n m Hm strs fs [] fs c1) as (c2 & H2 & Hc2); try done; [by apply filled_settled|].
    rewrite H2. pose proof (settled_trep T p Hp d n m strs fs c2 Hc2 eq_refl Hnd) as Htr.
    destruct Hc2 as (strs' & t & extra & occ & -> & Hn' & Hpre & _ & _ & _ & Hfor & _). by exists strs', t, extra.
  - destruct (fresh_array n 0 (vrep (trep d (st T p strs (fresh n 0) [])) strs p)) as [Hsz Hat]; [lia|].
    destruct (array_loop n fs (Z.to_nat n) 1 strs (fresh n 0) []) as (strs' & t & extra & H & ? & ? & Hh1 & Hh2 & Ha & Hfor); try done; try lia.
    { by eapply Forall_impl; [exact Hok|]; intros ? []. }
    { intros i Hi. rewrite decide_False by lia. by apply Hat. }
    { rewrite fresh_kids. apply forest_nil. }
    rewrite Z2Nat.id in H by lia. rewrite H. exists strs', t, extra. do 3 (split; [done|]). split; [|done]. exists t. split; [by apply st_lookup|]. split; [done|].
    exists []. split; [unfold m, zlen in Em; by destruct (hash_part n fs)|]. rewrite Hh1, Hh2. by apply (fresh_slots n 0).
Qed.
End Convtable.

Lemma convtable_ok d ccalls : (d ≤ ccalls)%nat → conv_ok d (convtable ccalls).
Proof.
  revert ccalls. induction d as [|d IH]; intros ccalls Hd T p strs n fs Hp Hn Hs; [done|].
  destruct ccalls as [|ccalls]; [lia|]. cbn [convtable]. apply conv_body_ok; try done. apply IH. lia.
Qed.
