(* ===== verification/SharedataRead.v ===== *)
(** * Shared configuration: what clients read

    Indexing a converted table and walking over it give what the Lua table has, however
    deep. *)
From stdpp Require Import base numbers list list_numbers sets.
From S2P Require Import Prelude Sharedata SharedataProps SharedataConv.

(** ** Fields of Lua *)

Lemma rawget_in fs k v : NoDup fs.*1 → key_ok k → (k, v) ∈ fs → lua_rawget fs k = v.
Proof.
  intros Hn Hk. induction fs as [|[k' v'] fs IH]; cbn [lua_rawget]; intros Hin; [by apply not_elem_of_nil in Hin|].
  apply NoDup_cons in Hn as [Hf Hn]. destruct (same_lkey k k') eqn:E.
  - apply same_lkey_eq in E as <-; [|done]. apply elem_of_cons in Hin as [[= ->]|Hin]; [done|].
    destruct Hf. by apply (list_elem_of_fmap_2 fst _ (k, v)).
  - apply elem_of_cons in Hin as [[= <- <-]|Hin]; [by rewrite same_lkey_refl in E|by apply IH].
Qed.
Lemma rawget_some fs k : key_ok k → lua_rawget fs k ≠ LNil → (k, lua_rawget fs k) ∈ fs.
Proof.
  intros Hk. induction fs as [|[k' v'] fs IH]; cbn [lua_rawget]; intros Hne; [done|].
  destruct (same_lkey k k') eqn:E; [|right; by apply IH]. apply same_lkey_eq in E as <-; [|done]. by left.
Qed.
Lemma in_array_true n k : in_array n k = true → ∃ i, k = LInt i ∧ 0 < i ≤ n.
Proof. destruct k; cbn; try done. intros H%bool_decide_eq_true_1. eexists; split; [done|lia]. Qed.

(** ** One table *)

Section OneTable.
Context (d : nat) (c : context) (p : nat) (n : Z) (fs : list (lval * lval)) (t : table) (es : list (lval * lval)).
Abbreviation V := (vrep (trep d c) (c_strings c) p).
Hypothesis Ht : c_tables c !! p = Some (Some t).
Hypothesis Harr : arr_ok V t n fs.
Hypothesis Hperm : es ≡ₚ hash_part n fs.
Hypothesis Hslots : slots (t_sizehash t) (c_strings c) V (t_hash t) (Some <$> es).
Hypothesis Hrange : 0 ≤ n ≤ INT_MAX.
Hypothesis Hnd : NoDup fs.*1.
Hypothesis Hok : Forall (λ kv, key_ok kv.1 ∧ shareable d kv.2) fs.

(** What is pushed for a value. *)
Definition shown (x : pushed) (v : lval) : Prop :=
  match v with
  | LNil => x = PNil
  | LBool b => x = PBool b
  | LInt i => x = PInt i
  | LReal b => x = PReal b
  | LStr s => x = PStr s
  | LTbl n fs => ∃ q, x = PTbl q ∧ trep d c q n fs
  | LOther => False
  end.
Lemma pushvalue_spec x vt v : V x vt v → ∃ y, pushvalue c vt x = Ok y ∧ shown y v.
Proof.
  destruct v as [|b|i|b|s|n' fs'|]; cbn; try done.
  - intros [-> ->]. by eexists.
  - intros [-> ->]. by eexists.
  - intros [-> ->]. by eexists.
  - intros (i & -> & -> & Hs). change (pushvalue c VALUETYPE_STRING (Some (UStr i))) with (s ← string_at c i; Ok (PStr s)).
    rewrite (string_at_Ok c i s Hs). by eexists.
  - intros (q & -> & -> & _ & Hq). eexists; split; [done|]. by exists q.
Qed.
Lemma the_table_Ok : the_table c p = Ok t.
Proof. unfold the_table. by rewrite Ht. Qed.
Lemma es_field kv : kv ∈ es ↔ kv ∈ fs ∧ in_array n kv.1 = false.
Proof. rewrite Hperm. unfold hash_part. rewrite list_elem_of_filter. tauto. Qed.
Lemma field_ok kv : kv ∈ fs → key_ok kv.1 ∧ shareable d kv.2.
Proof. intros Hin. by apply (proj1 (Forall_forall _ _) Hok). Qed.
Lemma key_small i : key_ok (LInt i) → s32 i = i.
Proof. cbn. intros H. apply swrap_small; unfold INT_MIN, INT_MAX in H; lia. Qed.

Lemma lindexconf_spec k : key_ok k → ∃ x, lindexconf c p k = Ok x ∧ shown x (lua_rawget fs k).
Proof.
  intros Hk. unfold lindexconf. rewrite the_table_Ok, bind_Ok.
  assert (in_array n k = false → ∃ x,
    (r ← lookup_key c t (hash_of k) (q_key k) (q_type k) (q_str k);
     match r with Some i => n ← rd (t_hash t) i; pushvalue c (n_valuetype n) (n_v n) | None => Ok PNil end) = Ok x
    ∧ shown x (lua_rawget fs k)) as Hfind.
  { intros Hin. destruct (lookup_key_spec c t V es Hslots k Hk) as ([j|] & -> & Hr); rewrite bind_Ok.
    - destruct Hr as (j' & v & -> & Hj). destruct (slot_node c t V es Hslots j' _ Hj) as (nd & Hnd' & _ & _ & Hv & _).
      rewrite (rd_lookup _ _ nd); [|lia|by rewrite Nat2Z.id]. rewrite bind_Ok.
      rewrite (rawget_in fs k v); [by apply pushvalue_spec|done|done|]. by apply (es_field (k, v)), list_elem_of_lookup_2 with j'.
    - exists PNil. rewrite rawget_none; [done|done|]. intros (kv & -> & Hkv)%list_elem_of_fmap.
      by apply (Hr kv); [apply es_field|]. }
  destruct k as [| |i| |s| |]; try done.
  - rewrite (key_small i Hk). destruct Harr as [(Hsa & _) Hat]. rewrite Hsa. cbn [in_array q_key q_type q_str hash_of] in Hfind. destruct (decide (0 < i ∧ i ≤ n)) as [Hi|Hi].
    + destruct (Hat i) as (vt & x & H1 & H2 & Hc); [lia|]. rewrite (rd_lookup _ _ vt), bind_Ok, (rd_lookup _ _ x), bind_Ok by (done || lia).
      destruct (lua_rawget fs (LInt i)) eqn:E; cbn [cell] in Hc; try exact (pushvalue_spec _ _ _ (proj1 Hc)).
      subst vt. by exists PNil.
    + apply Hfind. by rewrite bool_decide_eq_false_2.
  - rewrite calchash_hash_of, bind_Ok. by apply Hfind.
Qed.

(** *** Walking *)

Definition has (j : Z) : bool := match lua_rawget fs (LInt j) with LNil => false | _ => true end.
Definition from_array (i : Z) : list lval := LInt <$> filter (λ j, has j = true) (seqZ (i + 1) (n - i)).
Lemma from_array_next i : 0 ≤ i < n → from_array i = (if has (i + 1) then [LInt (i + 1)] else []) ++ from_array (i + 1).
Proof.
  intros Hi. unfold from_array. rewrite seqZ_cons by lia. rewrite filter_cons. replace (Z.pred (n - i)) with (n - (i + 1)) by lia.
  replace (Z.succ (i + 1)) with (i + 1 + 1) by lia. destruct (has (i + 1)); [by rewrite decide_True|by rewrite decide_False].
Qed.
Lemma next_array_spec fuel i :
  0 ≤ i → i + Z.of_nat fuel = n →
  ∃ r, next_array fuel t i = Ok r ∧ match r with None => from_array i = [] | Some k => i < k ≤ n ∧ from_array i = LInt k :: from_array k end.
Proof.
  revert i. induction fuel as [|fuel IH]; intros i Hi Hf; cbn [next_array].
  - eexists; split; [done|]. unfold from_array. by replace (n - i) with 0 by lia.
  - destruct Harr as [_ Hat]. destruct (Hat (i + 1)) as (vt & x & H1 & _ & Hc); [lia|].
    rewrite (rd_lookup _ _ vt), bind_Ok by (done || lia || by replace (i + 1 - 1) with i in H1 by lia).
    rewrite from_array_next by lia. unfold has. destruct (lua_rawget fs (LInt (i + 1))) eqn:E; cbn [cell] in Hc.
    { subst vt. rewrite decide_False by auto. cbn [app]. destruct (IH (i + 1)) as (r & -> & Hr); [lia..|].
      exists r. split; [done|]. destruct r; [|done]. split; [lia|]. apply Hr. }
    all: rewrite decide_True by apply Hc; eexists; split; [done|]; split; [lia|done].
Qed.
Lemma pushkey_spec i kv : es !! i = Some kv → (nd ← rd (t_hash t) (Z.of_nat i); k ← pushkey c nd; Ok (Some k)) = Ok (Some kv.1).
Proof.
  intros Hi. destruct (slot_node c t V es Hslots i kv Hi) as (nd & Hn' & Hset & [_ Hk] & _).
  rewrite (rd_lookup _ _ nd), bind_Ok; [|lia|by rewrite Nat2Z.id]. unfold pushkey, key_of. rewrite Hset, bind_Ok.
  destruct kv as [k v]; cbn in *. destruct k as [| |j| |s| |]; try done; destruct Hk as [Hk ->].
  - rewrite decide_True by done. by rewrite Hk.
  - rewrite decide_False by done. by rewrite (string_at_Ok c _ s Hk).
Qed.
Lemma hash_length : t_sizehash t = zlen es.
Proof.
  rewrite <- (s_len _ _ _ _ _ Hslots). pose proof (Forall2_length _ _ _ (s_rep _ _ _ _ _ Hslots)) as H.
  rewrite length_fmap in H. unfold zlen. by rewrite H.
Qed.
Lemma es_keys : NoDup es.*1.
Proof. rewrite Hperm. by apply hash_part_keys. Qed.
Lemma pushfirsthash_spec : pushfirsthash c t = Ok (head es.*1).
Proof.
  unfold pushfirsthash. rewrite hash_length, head_lookup, list_lookup_fmap. unfold zlen. destruct (es !! 0%nat) as [kv|] eqn:E.
  - pose proof (lookup_lt_Some _ _ _ E). rewrite decide_True by lia. apply (pushkey_spec 0 kv E).
  - apply lookup_ge_None in E. by rewrite decide_False by lia.
Qed.
(** After the key of a slot comes that of the next one. *)
Lemma lnextkey_hash i kv : es !! i = Some kv → lnextkey c p (Some kv.1) = Ok (es.*1 !! S i).
Proof.
  intros Hi. assert (kv ∈ es) as [Hf Hin]%es_field by by eapply list_elem_of_lookup_2. destruct (field_ok kv Hf) as [Hk _].
  unfold lnextkey. rewrite the_table_Ok, bind_Ok.
  assert ((r ← lookup_key c t (hash_of kv.1) (q_key kv.1) (q_type kv.1) (q_str kv.1);
     match r with
     | Some i => if decide (i + 1 = t_sizehash t) then Ok None else n ← rd (t_hash t) (i + 1); k ← pushkey c n; Ok (Some k)
     | None => Ok None
     end) = Ok (es.*1 !! S i)) as Hafter.
  { destruct (lookup_key_spec c t V es Hslots kv.1 Hk) as ([j|] & -> & Hr); rewrite bind_Ok.
    2: { by destruct (Hr kv); [eapply list_elem_of_lookup_2|]. }
    destruct Hr as (j' & v & -> & Hj). assert (j' = i) as ->.
    { eapply NoDup_lookup; [exact es_keys|..]; rewrite list_lookup_fmap; [by rewrite Hj|by rewrite Hi]. }
    rewrite hash_length, list_lookup_fmap. pose proof (lookup_lt_Some _ _ _ Hi). unfold zlen. case_decide.
    - by rewrite lookup_ge_None_2 by lia.
    - destruct (lookup_lt_is_Some_2 es (S i)) as [kv' Hkv']; [lia|]. rewrite Hkv'. cbn [fmap option_fmap option_map].
      replace (Z.of_nat i + 1) with (Z.of_nat (S i)) by lia. by apply pushkey_spec. }
  destruct kv as [k v]; cbn [fst] in *. destruct k as [| |j| |s| |]; try done.
  - rewrite (key_small j Hk), (proj1 (proj1 Harr)). cbn in Hin. apply bool_decide_eq_false_1 in Hin.
    rewrite decide_False by done. exact Hafter.
  - rewrite calchash_hash_of, bind_Ok. exact Hafter.
Qed.
Lemma walk_hash fuel i kv : es !! i = Some kv → (length es - i ≤ fuel)%nat → walk fuel c p (Some kv.1) = Ok (drop (S i) es.*1).
Proof.
  revert i kv. induction fuel as [|fuel IH]; intros i kv Hi Hf; pose proof (lookup_lt_Some _ _ _ Hi); [lia|]. cbn [walk].
  rewrite (lnextkey_hash i kv Hi), bind_Ok, list_lookup_fmap. destruct (es !! S i) as [kv'|] eqn:E; cbn [fmap option_fmap option_map].
  - rewrite (IH (S i) kv' E) by lia. rewrite bind_Ok. f_equal. symmetry. apply drop_S. by rewrite list_lookup_fmap, E.
  - rewrite drop_ge; [done|]. apply lookup_ge_None in E. by rewrite length_fmap.
Qed.
Lemma lnextkey_array i k0 :
  (k0 = None ∧ i = 0) ∨ (k0 = Some (LInt i) ∧ 0 < i ≤ n) →
  lnextkey c p k0 = Ok (match from_array i with k :: _ => Some k | [] => head es.*1 end).
Proof.
  intros Hk0. assert (0 ≤ i ≤ n) as Hi by (destruct Hk0 as [[_ ->]|[_ ?]]; lia).
  assert ((r ← next_array (Z.to_nat (n - i)) t i; match r with Some k => Ok (Some (LInt k)) | None => pushfirsthash c t end)
    = Ok (match from_array i with k :: _ => Some k | [] => head es.*1 end)) as Hfrom.
  { destruct (next_array_spec (Z.to_nat (n - i)) i) as (r & -> & Hr); [lia..|]. rewrite bind_Ok.
    destruct r as [k|]; [by destruct Hr as [_ ->]|]. rewrite Hr. apply pushfirsthash_spec. }
  unfold lnextkey. rewrite the_table_Ok, bind_Ok, (proj1 (proj1 Harr)). destruct Hk0 as [[-> ->]|[-> Hi']]; [done|].
  rewrite key_small by (cbn; unfold INT_MIN, INT_MAX in *; lia). by rewrite decide_True.
Qed.
Lemma walk_from fuel i k0 :
  (k0 = None ∧ i = 0) ∨ (k0 = Some (LInt i) ∧ 0 < i ≤ n) → (length (from_array i) + length es < fuel)%nat →
  walk fuel c p k0 = Ok (from_array i ++ es.*1).
Proof.
  revert i k0. induction fuel as [|fuel IH]; intros i k0 Hk0 Hf; [lia|]. cbn [walk].
  rewrite (lnextkey_array i k0 Hk0), bind_Ok. assert (0 ≤ i ≤ n) as Hi by (destruct Hk0 as [[_ ->]|[_ ?]]; lia).
  destruct (next_array_spec (Z.to_nat (n - i)) i) as ([k|] & _ & Hr); [lia..| |].
  - destruct Hr as [Hk Hr]. rewrite Hr in Hf |- *. rewrite (IH k (Some (LInt k))); [done|right; split; [done|lia]|cbn in Hf; lia].
  - rewrite Hr in Hf |- *. cbn [app]. rewrite head_lookup. destruct (es !! 0%nat) as [kv|] eqn:E.
    + assert (es.*1 !! 0%nat = Some kv.1) as E1 by by rewrite list_lookup_fmap, E.
      rewrite E1, (walk_hash fuel 0 kv E), bind_Ok by (cbn in Hf; lia). f_equal. symmetry. by apply (drop_S _ kv.1 0).
    + apply lookup_ge_None in E. by rewrite (nil_length_inv es) by lia.
Qed.

Lemma elem_from_array k : k ∈ from_array 0 ↔ in_array n k = true ∧ k ∈ fs.*1.
Proof.
  unfold from_array. rewrite list_elem_of_fmap. setoid_rewrite list_elem_of_filter. setoid_rewrite elem_of_seqZ. split.
  - intros (j & -> & Hh & Hj). assert (in_array n (LInt j) = true) as E by (cbn; apply bool_decide_eq_true_2; lia).
    split; [done|]. unfold has in Hh. apply list_elem_of_fmap. exists (LInt j, lua_rawget fs (LInt j)). split; [done|].
    apply rawget_some; [cbn; unfold INT_MIN, INT_MAX in *; lia|]. by destruct (lua_rawget fs (LInt j)).
  - intros [(i & -> & Hi)%in_array_true ([k' v] & E & Hin)%list_elem_of_fmap]. cbn in E. subst k'. exists i. split_and!; try lia; [done|].
    destruct (field_ok _ Hin) as [Hk Hv]. unfold has. rewrite (rawget_in fs (LInt i) v Hnd Hk Hin). by destruct v; try done; destruct d.
Qed.
Lemma keys_perm : from_array 0 ++ es.*1 ≡ₚ fs.*1.
Proof.
  apply NoDup_Permutation; [|done|].
  - apply NoDup_app. split_and!; [|intros k [Ha _]%elem_from_array|apply es_keys].
    + unfold from_array. apply NoDup_fmap_2; [by intros ? ? [=]|]. apply NoDup_filter, NoDup_seqZ.
    + intros (kv & -> & [_ Hf]%es_field)%list_elem_of_fmap. congruence.
  - intros k. rewrite elem_of_app, elem_from_array. split.
    + intros [[_ ?]|(kv & -> & [? _]%es_field)%list_elem_of_fmap]; [done|by apply list_elem_of_fmap_2].
    + intros Hk. destruct (in_array n k) eqn:E; [by left|]. right. apply list_elem_of_fmap in Hk as (kv & -> & Hin).
      by apply list_elem_of_fmap_2, es_field.
Qed.
Lemma from_array_length : (length (from_array 0) ≤ Z.to_nat n)%nat.
Proof. unfold from_array. rewrite length_fmap. etrans; [apply length_filter|]. rewrite length_seqZ. lia. Qed.
Lemma conf_keys_spec : llen c p = Ok n ∧ ∃ ks, conf_keys c p = Ok ks ∧ ks ≡ₚ fs.*1.
Proof.
  assert (llen c p = Ok n) as Hl by (unfold llen; rewrite the_table_Ok, bind_Ok; by rewrite (proj1 (proj1 Harr))).
  split; [done|]. exists (from_array 0 ++ es.*1). split; [|apply keys_perm].
  unfold conf_keys, lhashlen. rewrite Hl, bind_Ok, the_table_Ok, !bind_Ok, hash_length. unfold zlen.
  apply walk_from; [by left|]. pose proof from_array_length. lia.
Qed.
End OneTable.

(** ** Tables in tables *)

Lemma trep_read d c p n fs :
  fields_ok (shareable d) n fs → trep (S d) c p n fs →
  (∀ k, key_ok k → ∃ x, lindexconf c p k = Ok x ∧ shown d c x (lua_rawget fs k)) ∧
  llen c p = Ok n ∧ ∃ ks, conf_keys c p = Ok ks ∧ ks ≡ₚ fs.*1.
Proof.
  intros (Hr & _ & Hn & Hok) (t & Ht & Ha & es & Hperm & Hs). split; [intros k Hk|]; [by eapply lindexconf_spec|by eapply conf_keys_spec].
Qed.

(** The value of a Lua table under keys, one after the other; none when a value on the way
    is no table. *)
Fixpoint lua_get (v : lval) (ks : list lval) : option lval :=
  match ks with
  | [] => Some v
  | k :: ks => match v with LTbl _ fs => lua_get (lua_rawget fs k) ks | _ => None end
  end.
Lemma conf_get_spec c ks d v x v' :
  Forall key_ok ks → v = LNil ∨ shareable d v → shown d c x v → lua_get v ks = Some v' →
  ∃ d' x', conf_get c x ks = Ok x' ∧ shown d' c x' v' ∧ (v' = LNil ∨ shareable d' v').
Proof.
  intros Hks. revert d v x. induction Hks as [|k ks Hk Hks IH]; intros d v x Hv Hx; cbn [lua_get conf_get].
  - intros [= <-]. by exists d, x.
  - destruct v as [|b|i|b|s|n fs|]; try done. intros Hg. destruct Hv as [?|Hv]; [done|]. destruct Hx as (q & -> & Hq).
    destruct d as [|d]; [done|]. destruct (trep_read d c q n fs Hv Hq) as [Hidx _].
    destruct (Hidx k Hk) as (y & -> & Hy). rewrite bind_Ok. eapply (IH d); [|done|done].
    apply rawget_shareable. destruct Hv as (_ & _ & _ & Hok). eapply Forall_impl; [exact Hok|]. by intros kv [].
Qed.

(** What a client sees of a value: the same scalar, or a table with its length and keys. *)
Definition seen (c : context) (x : pushed) (v : lval) : Prop :=
  match v with
  | LTbl n fs => ∃ q, x = PTbl q ∧ llen c q = Ok n ∧ ∃ ks, conf_keys c q = Ok ks ∧ ks ≡ₚ fs.*1
  | _ => shown 0 c x v
  end.
Lemma shown_seen d c x v : shown d c x v → v = LNil ∨ shareable d v → seen c x v.
Proof.
  intros Hx Hv. destruct v as [|b|i|b|s|n fs|]; try done. destruct Hv as [?|Hv]; [done|]. destruct d as [|d]; [done|].
  destruct Hx as (q & -> & Hq). exists q. split; [done|]. by apply (trep_read d c q n fs).
Qed.
Lemma lnewconf_trep d ccalls n fs :
  (d ≤ ccalls)%nat → shareable d (LTbl n fs) →
  ∃ c, lnewconf ccalls (LTbl n fs) = Ok (inl (mk_conf c 0 0 0)) ∧ trep d c 0 n fs ∧ forest 0 [0%nat] (c_tables c).
Proof.
  intros Hd Hs. destruct (convtable_ok d ccalls Hd [None] 0%nat [] n fs) as (strs & t & extra & Hc & _ & _ & Ht & Hf); [cbn; lia|constructor|done|].
  exists (st [None] 0 strs t extra). split; [|split; [done|]].
  2: { apply forest_table; [|done]. by eapply trep_sized; [|exact Ht]. }
  unfold lnewconf.
  change (mk_ctx [] [Some zero_table]) with (st [None] 0 [] zero_table []). by rewrite Hc.
Qed.

(** [lindexconf] keeps an integer as an [int]: what a client's key becomes. *)
Definition narrow (k : lval) : lval := match k with LInt i => LInt (s32 i) | _ => k end.
Definition client_key (k : lval) : Prop := match k with LInt _ | LStr _ => True | _ => False end.
Lemma narrow_ok k : client_key k → key_ok (narrow k).
Proof. destruct k as [| |i| | | |]; try done. intros _. cbn. pose proof (swrap_range 32 i ltac:(lia)). unfold INT_MIN, INT_MAX. lia. Qed.
Lemma narrow_id k : key_ok k → narrow k = k.
Proof. destruct k as [| |i| | | |]; try done. intros H. unfold narrow. by rewrite key_small. Qed.
Lemma narrow_index c p k : lindexconf c p (narrow k) = lindexconf c p k.
Proof.
  destruct k as [| |i| | | |]; try done. unfold lindexconf, narrow. pose proof (swrap_range 32 i ltac:(lia)). by rewrite (swrap_small 32 (s32 i)) by lia.
Qed.
Lemma narrow_get c x ks : conf_get c x (narrow <$> ks) = conf_get c x ks.
Proof.
  revert x. induction ks as [|k ks IH]; intros x; [done|]. cbn [fmap list_fmap conf_get]. destruct x; try done. rewrite narrow_index.
  destruct (lindexconf c p k); [|done]. by rewrite !bind_Ok.
Qed.

(** C35: a shared configuration is the Lua table it was made of. The table and the tables in
    it have as keys only strings and integers of 32 bits, as values booleans, numbers,
    strings and tables, fewer than 2^31 fields, and are nested no deeper than Lua lets C
    calls nest: then the conversion succeeds. Whatever strings and integers of 32 bits a
    client then follows from the root, it gets the value the Lua table has there, nil where
    it has none, and for a table its length and each of its keys once. With wider integers
    it gets what the Lua table has under their low 32 bits. *)
Theorem conf_is_the_table d ccalls n fs :
  (d ≤ ccalls)%nat → shareable d (LTbl n fs) →
  ∃ cf, lnewconf ccalls (LTbl n fs) = Ok (inl cf) ∧
    (∀ ks v, Forall key_ok ks → lua_get (LTbl n fs) ks = Some v →
       ∃ x, conf_get (cf_ctx cf) (PTbl (cf_root cf)) ks = Ok x ∧ seen (cf_ctx cf) x v) ∧
    (∀ ks v, Forall client_key ks → lua_get (LTbl n fs) (narrow <$> ks) = Some v →
       ∃ x, conf_get (cf_ctx cf) (PTbl (cf_root cf)) ks = Ok x ∧ seen (cf_ctx cf) x v).
Proof.
  intros Hd Hs. destruct (lnewconf_trep d ccalls n fs Hd Hs) as (c & Hc & Ht & _). exists (mk_conf c 0 0 0). split; [done|].
  assert (∀ ks v, Forall key_ok ks → lua_get (LTbl n fs) ks = Some v → ∃ x, conf_get c (PTbl 0) ks = Ok x ∧ seen c x v) as H.
  { intros ks v Hks Hg.
    destruct (conf_get_spec c ks d (LTbl n fs) (PTbl 0) v) as (d' & x & Hx & Hsh & Hv); [done|by right|by exists 0%nat|done|].
    exists x. split; [done|]. by eapply shown_seen. }
  split; [exact H|]. intros ks v Hks Hg. cbn [cf_ctx cf_root]. rewrite <- narrow_get. apply H; [|done].
  apply Forall_fmap. eapply Forall_impl; [exact Hks|]. intros k. apply narrow_ok.
Qed.

(** Fields in the array, in the hash table and colliding there, and a table in the table. *)
Definition sample : list (lval * lval) :=
  [(LInt 1, LStr [97]); (LInt 2, LTbl 0 [(LStr [98], LInt 7)]); (LStr [97], LBool true);
   (LInt 10, LInt 1); (LInt 13, LReal 5); (LInt 7, LInt 3); (LStr [98; 99], LInt 8)].
Lemma sample_shareable : shareable 2 (LTbl 2 sample).
Proof.
  cbn. unfold fields_ok, key_ok, INT_MIN, INT_MAX, zlen. cbn.
  repeat (cbn; match goal with |- _ ∧ _ => split | |- NoDup _ => constructor | |- Forall _ _ => constructor end); try done; try lia;
    rewrite ?not_elem_of_cons; repeat split; solve [discriminate|apply not_elem_of_nil].
Qed.
Lemma conf_is_the_table_witness :
  ∃ cf, lnewconf 3 (LTbl 2 sample) = Ok (inl cf) ∧
    ∃ x y, conf_get (cf_ctx cf) (PTbl (cf_root cf)) [LInt 2; LStr [98]] = Ok x ∧ seen (cf_ctx cf) x (LInt 7) ∧
           conf_get (cf_ctx cf) (PTbl (cf_root cf)) [LInt 4] = Ok y ∧ seen (cf_ctx cf) y LNil ∧
           ∃ z, conf_get (cf_ctx cf) (PTbl (cf_root cf)) [LInt (2 ^ 32 + 1)] = Ok z ∧ seen (cf_ctx cf) z (LStr [97]).
Proof.
  destruct (conf_is_the_table 2 3 2 sample) as (cf & Hcf & H & Hw); [lia|apply sample_shareable|].
  exists cf. split; [exact Hcf|].
  destruct (H [LInt 2; LStr [98]] (LInt 7)) as (x & ? & ?); [repeat constructor; unfold INT_MIN, INT_MAX; lia|reflexivity|].
  destruct (H [LInt 4] LNil) as (y & ? & ?); [repeat constructor; unfold INT_MIN, INT_MAX; lia|reflexivity|].
  destruct (Hw [LInt (2 ^ 32 + 1)] (LStr [97])) as (z & ? & ?); [repeat constructor|vm_compute; reflexivity|].
  exists x, y. do 4 (split; [assumption|]). exists z. split; assumption.
Defined.

(** ** Keys the library takes and does not keep *)

(** An integer key of more than 32 bits is counted as a field of the hash table and then
    stored in the array, over the field that is there; the slot counted for it is read
    without ever being written. *)
Example wide_key_overwrites :
  match lnewconf 3 (LTbl 1 [(LInt 1, LInt 5); (LInt 4294967297, LInt 6)]) with
  | Ok (inl cf) => lindexconf (cf_ctx cf) 0 (LInt 1) = Ok (PInt 6) ∧ lindexconf (cf_ctx cf) 0 (LStr [97]) = Err Uninitialised
  | _ => False
  end.
Proof. vm_compute. done. Qed.
(** Tables are accepted as keys; all of them become the empty string. *)
Example table_keys_collide :
  match lnewconf 3 (LTbl 0 [(LTbl 0 [], LInt 5); (LTbl 0 [], LInt 6)]) with
  | Ok (inl cf) => lindexconf (cf_ctx cf) 0 (LStr []) = Ok (PInt 5) ∧ lindexconf (cf_ctx cf) 0 (LInt 1) = Err Uninitialised
  | _ => False
  end.
Proof. vm_compute. done. Qed.
(** A value the library does not support in a table in the table: the inner table is not
    held by the outer one yet and is not freed. *)
Example nested_error_leaks :
  lnewconf 3 (LTbl 0 [(LStr [97], LTbl 0 [(LStr [98], LOther)])]) =
  Ok (inr (mk_ctx [[97]; [98]] [None; Some (mk_tbl 0 1 [] [] [mk_node None 3 (-1) 131 1 0 1 true])])).
Proof. vm_compute. done. Qed.
