(* ===== verification/SharedataFree.v ===== *)
(** * Shared configuration: its tables are freed once

    The tables of a configuration form a tree, so [delete_tbl] of the root frees each of
    them, and none twice. *)
From stdpp Require Import base numbers list list_numbers sets relations.
From S2P Require Import Prelude Sharedata SharedataProps SharedataConv SharedataRead.

(** ** Lists without duplicates *)

Lemma elem_of_concat_lookup {A} (x : A) ll : x ∈ concat ll ↔ ∃ i l, ll !! i = Some l ∧ x ∈ l.
Proof.
  induction ll as [|l ll IH]; cbn; [split; [by intros ?%not_elem_of_nil|by intros (i & ? & ? & _)]|]. rewrite elem_of_app, IH. split.
  - intros [H|(i & l' & Hi & Hx)]; [by exists 0%nat, l|by exists (S i), l'].
  - intros ([|i] & l' & Hi & Hx); [cbn in Hi; simplify_eq; by left|right; by exists i, l'].
Qed.
Lemma NoDup_concat_inj {A} (ll : list (list A)) i j l l' x :
  NoDup (concat ll) → ll !! i = Some l → ll !! j = Some l' → x ∈ l → x ∈ l' → i = j.
Proof.
  revert i j. induction ll as [|l0 ll IH]; intros [|i] [|j] Hn Hi Hj Hx Hx'; try done; cbn in Hn; apply NoDup_app in Hn as (_ & Hd & Hn);
    cbn in Hi, Hj; simplify_eq.
  - destruct (Hd x Hx). apply elem_of_concat_lookup. by exists j, l'.
  - destruct (Hd x Hx'). apply elem_of_concat_lookup. by exists i, l.
  - f_equal. by eapply IH.
Qed.
Lemma NoDup_concat_lookup {A} (ll : list (list A)) i l : NoDup (concat ll) → ll !! i = Some l → NoDup l.
Proof.
  revert i. induction ll as [|l0 ll IH]; intros [|i] Hn Hi; cbn in *; try done; apply NoDup_app in Hn as (? & _ & ?); [by simplify_eq|by eapply IH].
Qed.

(** ** The tree *)

Section Tree.
Context (L : list (option table)).
Hypothesis HL : forest 0 [0%nat] L.

(** [k] is held by [i], directly and through others. *)
Definition holds (i k : nat) : Prop := ∃ t, L !! i = Some (Some t) ∧ k ∈ kids t.
Abbreviation reach := (rtc holds).

Lemma holds_lt i k : holds i k → (i < k)%nat.
Proof.
  intros (t & Ht & Hk). destruct HL as [_ Ho]. destruct (Ho i _ Ht) as (t' & [= <-] & _ & Hf).
  apply (proj1 (Forall_forall _ _) Hf k Hk).
Qed.
Lemma reach_le i k : reach i k → (i ≤ k)%nat.
Proof. induction 1 as [|i j k H%holds_lt _ IH]; lia. Qed.
Lemma held_once : NoDup (concat (okids <$> L)).
Proof. destruct HL as [Hp _]. assert (NoDup (0%nat :: concat (okids <$> L))) as [_ ?]%NoDup_cons; [|done]. cbn in Hp. rewrite Hp. apply NoDup_seq. Qed.
Lemma kids_once i t : L !! i = Some (Some t) → NoDup (kids t).
Proof. intros Ht. apply (NoDup_concat_lookup _ i _ held_once). by rewrite list_lookup_fmap, Ht. Qed.
Lemma holds_inj i j k : holds i k → holds j k → i = j.
Proof.
  intros (t & Ht & Hk) (t' & Ht' & Hk'). eapply (NoDup_concat_inj _ i j _ _ k held_once); [..|exact Hk|exact Hk'].
  - by rewrite list_lookup_fmap, Ht.
  - by rewrite list_lookup_fmap, Ht'.
Qed.
Lemma reach_common a b q : reach a q → reach b q → reach a b ∨ reach b a.
Proof.
  intros Ha. revert b. revert q Ha. refine (rtc_ind_r _ a _ _); [intros b Hb; by right|]. intros q' q Ha Hs IH b Hb.
  apply rtc_inv_r in Hb as [->|(q'' & Hb & Hs')]; [left; by eapply rtc_r|]. rewrite (holds_inj _ _ _ Hs' Hs) in Hb. by apply IH.
Qed.
Lemma reach_up a i k : holds i k → reach a k → a = k ∨ reach a i.
Proof. intros Hk [->|(j & Hj & Hs)]%rtc_inv_r; [by left|right]. by rewrite (holds_inj _ _ _ Hs Hk) in Hj. Qed.
(** What two tables of a table hold is apart. *)
Lemma siblings_apart i k1 k2 q : holds i k1 → holds i k2 → k1 ≠ k2 → reach k1 q → ¬ reach k2 q.
Proof.
  intros H1 H2 Hne Hq1 Hq2. pose proof (holds_lt _ _ H1). pose proof (holds_lt _ _ H2).
  destruct (reach_common k1 k2 q Hq1 Hq2) as [Hr|Hr]; apply (reach_up _ i) in Hr as [?|Hr%reach_le]; try done; try lia; congruence.
Qed.
Lemma reach_all q : (q < length L)%nat → reach 0%nat q.
Proof.
  induction (lt_wf q) as [q _ IH]. intros Hq. destruct (decide (q = 0%nat)) as [->|Hne]; [done|].
  assert (q ∈ [0%nat] ++ concat (okids <$> L)) as Hin by (destruct HL as [-> _]; apply elem_of_seq; lia).
  apply elem_of_app in Hin as [?%list_elem_of_singleton|(i & l & Hi & Hk)%elem_of_concat_lookup]; [done|].
  rewrite list_lookup_fmap in Hi. destruct (L !! i) as [[t|]|] eqn:E; cbn in Hi; simplify_eq; [|by apply not_elem_of_nil in Hk].
  assert (holds i q) as Hs by by exists t. pose proof (holds_lt _ _ Hs). eapply rtc_r; [|exact Hs]. apply IH; lia.
Qed.

(** ** Deleting *)

(** The tables under [ks] are freed, the others are as they were in [c0]. *)
Definition freed (c0 : context) (ks : list nat) (c : context) : Prop :=
  length (c_tables c) = length (c_tables c0) ∧
  (∀ q k, k ∈ ks → reach k q → c_tables c !! q = Some None) ∧
  (∀ q, (∀ k, k ∈ ks → ¬ reach k q) → c_tables c !! q = c_tables c0 !! q).
Definition alive (p : nat) (c : context) : Prop := ∀ q, reach p q → c_tables c !! q = L !! q.

(** One more table of a table. *)
Lemma freed_next p t c0 ks q c c' :
  L !! p = Some (Some t) → NoDup (ks ++ [q]) → (∀ k, k ∈ ks ++ [q] → k ∈ kids t) →
  freed c0 ks c → freed c [q] c' → freed c0 (ks ++ [q]) c'.
Proof.
  intros Ht Hn Hk (Hl & Hf & Hs) (Hl' & Hf' & Hs'). split_and!; [congruence| |].
  - intros r k [Hin| ->%list_elem_of_singleton]%elem_of_app Hr; [|by apply (Hf' r q); [left|]].
    rewrite Hs'; [by eapply Hf|]. intros k' ->%list_elem_of_singleton. apply NoDup_app in Hn as (_ & Hd & _).
    eapply (siblings_apart p k q); [exists t; set_solver|exists t; set_solver| |done]. intros ->. apply (Hd q Hin). by left.
  - intros r Hr. rewrite Hs', Hs; [done|intros k Hin; apply Hr; set_solver|intros k ->%list_elem_of_singleton; apply Hr; set_solver].
Qed.
Lemma free_cells fuel p t c0 pre cells post body :
  (∀ q c, holds p q → alive q c → ∃ c', delete_tbl fuel q c = Ok c' ∧ freed c [q] c') →
  L !! p = Some (Some t) → alive p c0 → kids t = pre ++ concat cells ++ post →
  (∀ j l c, cells !! j = Some l → (l = [] ∧ body (Z.of_nat j) c = Ok c) ∨ (∃ q, l = [q] ∧ body (Z.of_nat j) c = delete_tbl fuel q c)) →
  ∀ c, freed c0 pre c → ∃ c', c_for (length cells) 0 body c = Ok c' ∧ freed c0 (pre ++ concat cells) c'.
Proof.
  intros Hdel Ht Ha Hk Hbody c Hc.
  destruct (c_for_spec (λ j c, freed c0 (pre ++ concat (take (Z.to_nat j) cells)) c) body (length cells) 0 c) as (c' & -> & Hc').
  - by rewrite app_nil_r.
  - intros j c1 Hj Hc1. destruct (lookup_lt_is_Some_2 cells (Z.to_nat j)) as [l Hl]; [lia|].
    replace (Z.to_nat (j + 1)) with (S (Z.to_nat j)) by lia. rewrite (take_S_r _ _ _ Hl), concat_app, app_assoc. cbn [concat]. rewrite app_nil_r.
    specialize (Hbody _ l c1 Hl) as [[-> Hb]|(q & -> & Hb)]; rewrite Z2Nat.id in Hb by lia; rewrite Hb.
    { exists c1. by rewrite app_nil_r. }
    assert (∀ k, k ∈ (pre ++ concat (take (Z.to_nat j) cells)) ++ [q] → k ∈ kids t) as Hin.
    { intros k. rewrite Hk. rewrite <- (take_drop_middle _ _ _ Hl) at 2. rewrite concat_app. set_solver. }
    assert (NoDup ((pre ++ concat (take (Z.to_nat j) cells)) ++ [q])) as Hn.
    { pose proof (kids_once p t Ht) as Hn. rewrite Hk, <- (take_drop_middle _ _ _ Hl), concat_app in Hn. cbn [concat] in Hn.
      rewrite <- !app_assoc in Hn. rewrite !app_assoc in Hn. by do 2 apply NoDup_app in Hn as [Hn _]. }
    destruct (Hdel q c1) as (c2 & Hd & Hc2); [exists t; set_solver| |].
    + intros r Hr. destruct Hc1 as (_ & _ & Hs). rewrite Hs; [apply Ha; eapply rtc_l; [|exact Hr]; exists t; set_solver|].
      intros k Hin' Hkr. apply NoDup_app in Hn as (_ & Hd & _).
      eapply (siblings_apart p k q r); [exists t; set_solver|exists t; set_solver| |exact Hkr|exact Hr]. intros ->. apply (Hd q Hin'). by left.
    + exists c2. split; [done|]. by eapply freed_next.
  - exists c'. split; [done|]. by rewrite Z.add_0_l, Nat2Z.id, firstn_all in Hc'.
Qed.

(** A member of a table: its table is deleted, or there is none. *)
Lemma del_cell fuel p t vt x c :
  L !! p = Some (Some t) → (∀ k, k ∈ kid vt x → k ∈ kids t) →
  let r := if decide (vt = VALUETYPE_TABLE) then match x with Some (UTbl q) => delete_tbl fuel q c | _ => Err Uninitialised end else Ok c in
  (kid vt x = [] ∧ r = Ok c) ∨ (∃ q, kid vt x = [q] ∧ r = delete_tbl fuel q c).
Proof.
  intros Ht Hk. unfold kid in *. cbn. case_decide; [|by left]. right.
  assert ((∃ q, x = Some (UTbl q)) ∨ holds p 0) as [[q ->]|H0%holds_lt]; [|by exists q|lia].
  destruct x as [[| |q| |]|]; [right; exists t; set_solver|right; exists t; set_solver|left; by exists q|right; exists t; set_solver..].
Qed.
Lemma holds_range i k : holds i k → (k < length L)%nat.
Proof.
  intros (t & Ht & Hk). assert (k ∈ seq 0 (length L)) as ?%elem_of_seq; [|lia]. destruct HL as [<- _]. apply elem_of_app. right.
  apply elem_of_concat_lookup. exists i, (kids t). by rewrite list_lookup_fmap, Ht.
Qed.
(** The table itself, after its tables. *)
Lemma freed_self p t c c' :
  L !! p = Some (Some t) → c_tables c !! p = Some (Some t) → freed c (kids t) c' →
  the_table c' p = Ok t ∧ freed c [p] (mk_ctx (c_strings c') (<[p := None]> (c_tables c'))).
Proof.
  intros Ht Hp (Hl & Hf & Hs). assert (c_tables c' !! p = Some (Some t)) as Hp'.
  { rewrite Hs; [done|]. intros k Hk Hr%reach_le. assert (holds p k) as ?%holds_lt by by exists t. lia. }
  split; [unfold the_table; by rewrite Hp'|]. split_and!; cbn.
  - by rewrite length_insert.
  - intros q k ->%list_elem_of_singleton [->|(k' & Hk' & Hr)]%rtc_inv; [apply list_lookup_insert_eq; by eapply lookup_lt_Some|].
    pose proof (holds_lt _ _ Hk'). pose proof (reach_le _ _ Hr). rewrite list_lookup_insert_ne by lia.
    destruct Hk' as (t' & Ht' & Hk'). simplify_eq. by eapply Hf.
  - intros q Hq. rewrite list_lookup_insert_ne by (intros ->; by apply (Hq q); [left|]). apply Hs. intros k Hk Hr.
    apply (Hq p); [by left|]. eapply rtc_l; [|exact Hr]. by exists t.
Qed.
Lemma delete_spec fuel p t c :
  (length L - p ≤ fuel)%nat → L !! p = Some (Some t) → alive p c →
  ∃ c', delete_tbl fuel p c = Ok c' ∧ freed c [p] c'.
Proof.
  revert p t c. induction fuel as [|fuel IH]; intros p t c Hfuel Ht Ha; [apply lookup_lt_Some in Ht; lia|].
  assert (∀ q c, holds p q → alive q c → ∃ c', delete_tbl fuel q c = Ok c' ∧ freed c [q] c') as Hdel.
  { intros q c1 Hq Ha1. pose proof (holds_lt _ _ Hq). destruct (lookup_lt_is_Some_2 L q) as [o Ho]; [by eapply holds_range|].
    destruct (proj2 HL q o Ho) as (t' & -> & _). eapply IH; [lia|exact Ho|done]. }
  destruct (proj2 HL p _ Ht) as (? & [= <-] & [(_ & Hz1 & Hz2) Hz3] & _).
  assert (c_tables c !! p = Some (Some t)) as Hp by (rewrite <- Ht; by apply Ha).
  cbn [delete_tbl]. assert (the_table c p = Ok t) as -> by (unfold the_table; by rewrite Hp). rewrite bind_Ok.
  set (cells := zip_with kid (t_arraytype t) (t_array t)). set (nodes := node_kid <$> t_hash t).
  replace (Z.to_nat (t_sizearray t)) with (length cells) by (unfold cells, zlen in *; rewrite length_zip_with; lia).
  replace (Z.to_nat (t_sizehash t)) with (length nodes) by (unfold nodes, zlen in *; rewrite length_fmap; lia).
  match goal with |- context [c_for (length cells) 0 ?b c] => destruct (free_cells fuel p t c [] cells (concat nodes) b) with c as (c1 & -> & Hc1) end;
    try done.
  { intros j l c1 Hj. unfold cells in Hj. rewrite lookup_zip_with in Hj.
    destruct (t_arraytype t !! j) as [vt|] eqn:E1; [|done]. destruct (t_array t !! j) as [x|] eqn:E2; [|done]. cbn in Hj. injection Hj as <-.
    rewrite (rd_lookup _ _ vt), bind_Ok, (rd_lookup _ _ x), bind_Ok by (lia || by rewrite Nat2Z.id).
    apply (del_cell fuel p t); [done|]. intros k Hk. unfold kids. apply elem_of_app; left. apply elem_of_concat_lookup. exists j, (kid vt x).
    by rewrite lookup_zip_with, E1, E2. }
  { split_and!; try done. by intros q k ?%not_elem_of_nil. }
  rewrite bind_Ok. cbn [app] in Hc1.
  match goal with |- context [c_for (length nodes) 0 ?b c1] => destruct (free_cells fuel p t c (concat cells) nodes [] b) with c1 as (c2 & -> & Hc2) end;
    try done.
  { by rewrite app_nil_r. }
  { intros j l c2 Hj. unfold nodes in Hj. rewrite list_lookup_fmap in Hj. destruct (t_hash t !! j) as [nd|] eqn:E; [|done]. cbn in Hj. injection Hj as <-.
    rewrite (rd_lookup _ _ nd), bind_Ok by (lia || by rewrite Nat2Z.id). apply (del_cell fuel p t); [done|].
    intros k Hk. unfold kids. apply elem_of_app; right. apply elem_of_concat_lookup. exists j, (node_kid nd). by rewrite list_lookup_fmap, E. }
  rewrite bind_Ok. destruct (freed_self p t c c2 Ht Hp Hc2) as [-> Hfin]. rewrite bind_Ok. by eexists.
Qed.
End Tree.

(** C36: a configuration is freed completely. For a table that has, with the tables in it,
    as keys only strings and integers of 32 bits, as values booleans, numbers, strings and
    tables, fewer than 2^31 fields, and is nested no deeper than Lua lets C calls nest,
    deleting what the conversion made reads no table that is freed, and frees every table,
    each once. *)
Theorem conf_is_freed d ccalls n fs :
  (d ≤ ccalls)%nat → shareable d (LTbl n fs) →
  ∃ cf c, lnewconf ccalls (LTbl n fs) = Ok (inl cf) ∧ ldeleteconf cf = Ok c ∧
    length (c_tables c) = length (c_tables (cf_ctx cf)) ∧ Forall (λ o, o = None) (c_tables c).
Proof.
  intros Hd Hs. destruct (lnewconf_trep d ccalls n fs Hd Hs) as (c0 & Hc & _ & Hf). exists (mk_conf c0 0 0 0).
  destruct (proj2 Hf 0%nat (default None (c_tables c0 !! 0%nat))) as (t & Ht & _).
  { destruct (c_tables c0 !! 0%nat) eqn:E; [done|]. destruct Hf as [Hp _]. apply lookup_ge_None in E.
    destruct (c_tables c0); [|cbn in E; lia]. by apply Permutation_length in Hp. }
  assert (c_tables c0 !! 0%nat = Some (Some t)) as H0 by (destruct (c_tables c0 !! 0%nat) eqn:E; cbn in Ht; congruence).
  destruct (delete_spec (c_tables c0) Hf (length (c_tables c0)) 0 t c0) as (c & Hdel & Hl & Hfr & _); [lia|done|done|].
  exists c. split_and!; try done. apply Forall_lookup. intros q o Hq.
  assert (q < length (c_tables c0))%nat as Hr%(reach_all _ Hf) by (rewrite <- Hl; by eapply lookup_lt_Some).
  rewrite (Hfr q 0%nat) in Hq; [congruence|by left|done].
Qed.

Lemma conf_is_freed_witness :
  ∃ cf c, lnewconf 3 (LTbl 2 sample) = Ok (inl cf) ∧ ldeleteconf cf = Ok c ∧
    length (c_tables c) = length (c_tables (cf_ctx cf)) ∧ Forall (λ o, o = None) (c_tables c).
Proof. apply (conf_is_freed 2 3 2 sample); [lia|apply sample_shareable]. Defined.

(** An integer key of more than 32 bits takes the place of a table in the array: that table
    is not freed. *)
Example wide_key_leaks :
  match lnewconf 3 (LTbl 1 [(LInt 1, LTbl 0 []); (LInt 4294967297, LInt 6)]) with
  | Ok (inl cf) => ∃ c t, ldeleteconf cf = Ok c ∧ c_tables c !! 1%nat = Some (Some t)
  | _ => False
  end.
Proof. vm_compute. eexists _, _. split; reflexivity. Qed.
